(* ===== verification/_CoqProject ===== *)
-Q . S2P
Prelude.v
F64.v
Str.v
Net.v
Ipv6.v
Session.v
Trie.v
Geo.v
Rule.v
Router.v
Profile.v
FakeIp.v
FakePool.v
SuccinctSet.v
Mrs.v
Fetcher.v
RuleProvider.v
RingBuffer.v
Netstack.v
Louds.v
DagSort.v
System.v
Hy2.v
ProxyManager.v
Groups.v
Smart.v
DnsConfig.v
Resolver.v
ResolverSpec.v
Crypto.v
Async.v
Copy.v
CopyLive.v
Splice.v
Vmess.v
VmessSpec.v
Vless.v
Obfs.v
ShadowTls.v
ShadowTlsSpec.v
Transport.v
TransportSpec.v
Conv.v
Inbound.v
Socks5.v
Trojan.v
TrojanUdp.v
TQuic.v
OutboundManager.v
OutboundSpec.v
Converters.v
Dial.v
Tuic.v
Wg.v
HyConn.v
Stats.v
Dispatcher.v
Gateway.v
Config.v
DnsServer.v
Tun.v
Datagrams.v
Redirect.v
Dhcp.v
InboundManager.v
Api.v
Runtime.v
