(* ===== verification/Prelude.v ===== *)
(** * clash-rs: a verification library

    clash-rs is a rule-based tunnel.  A configuration file ([config]) names
    listeners, outbound proxies, groups of proxies, rules and DNS servers.  A
    connection arrives at a listener ([proxy/{socks,http,mixed,trojan}]),
    is authenticated and becomes a [Session] with a destination
    ([session.rs]).  The dispatcher ([app/dispatcher]) asks the router
    ([app/router]), which walks the rules and picks the name of an outbound;
    rules match on the domain, the address (resolving the domain when
    needed), ports, the process, geographic databases and rule sets.  Rule
    sets are held by rule providers ([app/remote_content_manager/providers])
    which load them from files or URLs, as lists of lines or as binary MRS
    containers, and keep them up to date.  Domain lists are matched by a trie
    ([common/trie.rs]) or by a succinct set built from it
    ([common/succinct_set.rs]).  In fake-ip mode ([app/dns/fakeip]) the DNS
    server answers with addresses of a private pool, and the dispatcher
    recovers the domain from the address.  The outbound manager
    ([app/outbound]) creates the handlers of proxies and groups in dependency
    order; a group chooses one of its members ([proxy/group]) by the delays
    that health checks have measured.  A handler speaks a proxy protocol
    ([proxy/{vmess,vless,trojan,hysteria2,..}]) over a transport
    ([proxy/transport]), the bytes of the two sides are copied
    ([common/io]) and counted ([app/dispatcher/tracked.rs]).  The user-space
    network stack ([clash-netstack]) passes bytes between threads through a
    ring buffer.

    ** Files

    Foundations:
    - [Prelude]: outcomes ([res]: [Ok], [Err], [Panic]), machine integers
      ([wrap], [arith], with a flag [oc] for builds with overflow checks),
      big-endian bytes, slices, byte cursors, the shared tactic [rstep].
    - [F64]: the [f64] arithmetic the groups use, on [SpecFloat].
    - [Str]: Rust strings (characters and their UTF-8 bytes) and the string
      functions the program calls.
    - [Net]: addresses, their text syntax, the interface of [ipnet];
      [Ipv6]: the text of an IPv6 address reads back as the address.
    - [Async]: polled readers and writers over scripts of what the peer does;
      [Conv]: a conversation of two sides over a connection.
    - [Crypto]: the calls into ciphers and hashes ([common/crypto.rs]).

    Routing:
    - [Session]: [session.rs]: SOCKS addresses with their encoder, three
      decoders and text form, sessions.
    - [Trie]: [common/trie.rs].
    - [Geo]: GEOSITE matching, [app/router/rules/geodata].
    - [Rule]: rule lines, [config/internal/rule.rs].
    - [Router]: the rules of [app/router/rules], the construction of a router
      and [match_route]; the country lookup of [common/mmdb.rs].
    - [SuccinctSet], [Louds]: [common/succinct_set.rs]: the set, its indexes,
      and the proof that the layout is the trie of the keys.
    - [Mrs]: MRS containers and address tables ([mrs.rs], [cidr_trie.rs]).
    - [Fetcher], [RuleProvider]: loading, updating and searching rule sets.
    - [System]: the components composed, from the lines of a rule set to the
      target of a session.

    Names:
    - [Profile]: the persistent maps of [app/profile].
    - [FakeIp], [FakePool]: [app/dns/fakeip]: the store interface, its two
      implementations, the pool; its invariant and theorems.
    - [DnsConfig]: the configuration of the resolver, [app/dns/config.rs].
    - [Resolver], [ResolverSpec]: the enhanced resolver, its clients, filters
      and the answers of the DNS server; what it promises.

    Outbounds:
    - [ProxyManager]: the latency registry and health checks.
    - [Groups], [Smart]: the proxy groups ([proxy/group]).
    - [DagSort]: the ordering of proxy groups, [app/outbound/utils.rs].
    - [Converters]: the options of every outbound from the configuration.
    - [Dial]: the outbound handlers: from a session over connectors, sockets
      and layers to a connection.
    - [OutboundManager], [OutboundSpec]: [app/outbound/manager.rs]; the table
      it builds.

    Protocols and streams:
    - [Inbound], [Socks5], [Trojan], [TrojanUdp]: the listeners, their
      authentication, the SOCKS5 and Trojan handshakes and datagrams.
    - [Vmess], [VmessSpec], [Vless], [Hy2], [Obfs], [ShadowTls],
      [ShadowTlsSpec]: the framing of the proxy protocols and transports.
    - [Copy], [CopyLive]: the copying loop of [common/io/mod.rs].
    - [Splice]: the same over pipes, [common/io/splice.rs].
    - [Transport], [TransportSpec]: HTTP/2, gRPC and WebSocket streams and
      early data, [proxy/transport].
    - [HyConn]: the shared connection of Hysteria2: authentication, port
      hopping, congestion control.
    - [TQuic]: the client driver of Trojan over QUIC, [proxy/trojan/tquic.rs].
    - [Tuic]: connections and UDP sessions of [proxy/tuic].
    - [Wg]: the keys, ports, queues and device loop of [proxy/wg].
    - [Datagrams]: the interface of a datagram sink and its contract, the task
      that forwards to one, and the sinks of the program.
    - [RingBuffer]: [clash-netstack/src/ring_buffer.rs]; [Netstack]: the rest
      of [clash-netstack], between packets and streams; [Tun]: the tun
      inbound over it, [proxy/tun].

    Composition:
    - [Stats]: connection tracking and traffic counters.
    - [Dispatcher], [Gateway]: from an accepted connection to the outbound.
    - [Config]: the configuration file, its conversion and validation, and
      the start of the outbounds.
    - [Dhcp]: DNS servers from DHCP, and DNS queries over an outbound.
    - [DnsServer]: the handler and the listeners of [clash-dns].
    - [Redirect]: the listeners of redirected, tunnelled and Shadowsocks
      connections.
    - [InboundManager]: the listeners' tasks, [app/inbound].
    - [Api]: the control API, [app/api].
    - [Runtime]: the start, the reload and the shutdown of the program,
      [lib.rs].

    ** What the theorems show

    - Routing takes the first rule that applies to the session as that rule
      sees it, resolves a name at most once and only when a rule needs it,
      and keeps the order and targets of the configuration ([Router]).
      Rule sets of domains route by their lines ([System]).  A connection to
      a fake address is routed as one to its name ([Gateway]).
    - The trie is a map from paths to data, its search returns the most
      specific match, and pattern matching is decided exactly ([Trie]).
      GEOSITE rules mean what their lists say ([Geo]).  The succinct set
      agrees with the trie on lists of domains with or without [+.] and [.];
      its indexes count and select exactly ([Louds], [SuccinctSet]).  With
      stars it can disagree, shown by an example.
    - A validated configuration whose outbounds load routes every rule to a
      handler, of the target's name or DIRECT ([Config]); what becomes of
      each proxy and group is characterised, errors and panics included
      ([Converters], [OutboundSpec]).  The group sort is a topological sort
      and refuses exactly the cyclic and ambiguous configurations
      ([DagSort]).
    - A relayed connection is an onion: each proxy is asked for the server of
      the next, and only the first server's name is looked up ([Dial]).
    - Groups choose by the rule they document: the fastest, the first alive,
      a consistent hash, the lowest weight, with bounded retries ([Groups],
      [Smart]); health checks record exactly what they measured under any
      interleaving ([ProxyManager]).
    - Addresses encode and decode without loss, and the inputs on which the
      decoders panic are characterised ([Session]).
    - The fake-address pool keeps names and addresses paired one to one over
      any sequence of operations, finds an address within one round, and
      evicts only when the pool is full ([FakePool]).  The resolver gives out
      a foreign answer only when the filters accept it ([ResolverSpec]).
    - The SOCKS5 and Trojan handshakes accept exactly the clients with a
      password, for every split of the bytes into reads ([Socks5],
      [Trojan]).  Streams and datagrams of VMess, VLESS, Trojan, Hysteria2
      and ShadowTLS arrive as they were sent ([VmessSpec], [Vless],
      [TrojanUdp], [Hy2], [ShadowTlsSpec]), as do those of gRPC, and early
      data is sent once and in full ([TransportSpec]).  Bytes of a Trojan
      connection over QUIC reach the stream they belong to, in order
      ([TQuic]).  Packets given to a direct sink leave in order and at most
      once, whatever the socket does ([Datagrams]).  No two live sockets of a
      WireGuard device share a port ([Wg]).  Packets of TUIC reach the session
      of their number while numbers in use do not repeat ([Tuic]).
    - Copying is transparent and finishes ([Copy], [CopyLive]), and the copy
      over pipes refines it ([Splice]); the counters are the bytes of all
      connections, open and closed, datagrams counting when they are handed
      over ([Stats]).
    - The DNS server answers a query with what the resolver gave, under the
      identifier and questions of the request and with flags of its own, and
      a query that fails not at all ([DnsServer]).  What a change of the configuration or of a
      selection over the API does is characterised ([Api]).  After reloads
      the tun device, the DNS server and the API are those of the last
      configuration, while the listeners of all of them accumulate
      ([Runtime]).
    - Address ranges split into CIDR blocks that cover them exactly, and a
      container of ranges reads back as its ranges ([Mrs]).  A provider
      serves the last contents that parsed ([Fetcher]).
    - The ring buffer is a bounded first-in first-out queue under every
      interleaving of its two threads ([RingBuffer]); on it the streams of
      the network stack are transparent while its loops run, and panic once
      they have stopped ([Netstack]).

    ** Bounds and fuel

    Loops that are not structural take fuel and return [None] (or stay
    pending) when it runs out; the theorems show that the fuel used is
    enough.  The pool's search loop gets one more round than the pool has
    addresses.  The range splitting gets 66 rounds for IPv4 and 300 for IPv6:
    the block size grows and then shrinks, so at most two blocks of each size
    are produced.  [select_word] gets 65 rounds, one per bit of a word and
    one to stop.  The construction of a domain set gets two more rounds than
    its keys have characters, since every node but the root consumes one.
    The lookup in a domain set takes its fuel as an argument; [set_cost]
    rounds are enough.  The two loops of the group sort remove a node per
    round.  [jump_hash] gets one more round than there are buckets.  A
    Hysteria2 packet has at most 256 fragments.  The copying loop moves a
    byte or ends in each round.  A poll of the VMess, Trojan, simple-obfs and
    ShadowTLS readers goes through each of its states at most once, or
    consumes a byte; write loops write a byte per round.

    ** Parameters

    Code outside the repository is a parameter, with the laws of its
    documentation as a class: the regular expression engine, Unicode case
    conversion, [ipnet], the LRU maps (plain and timed), the
    longest-prefix-match table, zstd, YAML and the derived readers of its
    entries, MD5 and the other hashes and HMACs, the ciphers, base64, the URL,
    URI and UUID parsers, the HTTP parser, the TOTP generator, the QUIC
    connection and its integers, the endpoint of tquic, tuic_quinn, dhcproto,
    the tunnel of boringtun and the interface of smoltcp, the sockets of the
    shadowsocks crate, [exp] and [powf], murmur3, the public suffix list, the
    MaxMind reader, the process lookup, the network itself.  The iteration
    order of a hash map is a parameter where it can be observed.
    Each class with laws has an instance, so that the hypotheses can hold.

    ** Not modelled

    Sockets, tasks and timers as such: what they do is an argument, a script
    or a step relation.  The outbounds that hand a connection to a crate of
    their own, with nothing in between but options ([Converters] has those)
    and error conversions: SSH, Tor and ShadowQUIC, the streams of
    Shadowsocks; TLS, HTTP and QUIC themselves.  The routes of the tun
    device, which are external commands; the system resolver; downloads and
    the archives they unpack; the IPC listener of the API and the endpoints
    that only print; logging and messages beyond their fixed part; the C
    interface and the command line; weak memory (the ring buffer is shown
    under sequential consistency). *)

From stdpp Require Export prelude gmap list numbers strings.
From Stdlib Require Export ZArith.
From Stdlib Require Import Lia.

#[global] Set Default Goal Selector "1".
#[global] Open Scope Z_scope.

(** ** Outcomes of fallible Rust code

    [Ok] and [Err] are Rust's [Result]; the payload of [Err] is the fixed
    part of the message the source builds.  [Panic] is a panic (an explicit
    one, an out-of-range index, or an arithmetic overflow in a build with
    overflow checks). *)
Inductive res (A : Type) : Type :=
| Ok (a : A)
| Err (e : string)
| Panic.
Arguments Ok {A} a.
Arguments Err {A} e.
Arguments Panic {A}.

Definition res_bind {A B} (f : A -> res B) (m : res A) : res B :=
  match m with
  | Ok a => f a
  | Err e => Err e
  | Panic => Panic
  end.

#[global] Instance res_mret : MRet res := @Ok.
#[global] Instance res_mbind : MBind res := @res_bind.
#[global] Instance res_fmap : FMap res := fun A B f m => res_bind (fun a => Ok (f a)) m.

(** [Result::ok] and friends. *)
Definition res_ok {A} (m : res A) : option A :=
  match m with Ok a => Some a | _ => None end.
Definition is_ok {A} (m : res A) : bool :=
  match m with Ok _ => true | _ => false end.
Definition is_panic {A} (m : res A) : bool :=
  match m with Panic => true | _ => false end.
Definition ok_or {A} (o : option A) (e : string) : res A :=
  match o with Some a => Ok a | None => Err e end.
Definition or_panic {A} (o : option A) : res A :=
  match o with Some a => Ok a | None => Panic end.

#[global] Instance res_eq_dec `{EqDecision A} : EqDecision (res A).
Proof. solve_decision. Defined.

#[global] Instance ok_inj {A} : Inj (=) (=) (@Ok A).
Proof. by intros x y [= ->]. Qed.

(** [for x in l { acc = f acc x? }] *)
Fixpoint res_fold {A B} (f : A -> B -> res A) (a : A) (l : list B) : res A :=
  match l with
  | [] => Ok a
  | x :: l' => res_bind (fun a' => res_fold f a' l') (f a x)
  end.

(** ** Machine integers

    A value of a [w]-bit unsigned type is a [Z] in [0, 2^w).  [wrap w] is
    Rust's wrap-around; [arith oc w z] is the outcome of an operation whose
    mathematical result is [z]: with overflow checks ([oc = true], a debug
    build) an out-of-range result panics, without them it wraps. *)
Definition wrap (w z : Z) : Z := z mod 2 ^ w.
Definition in_width (w z : Z) : Prop := 0 <= z < 2 ^ w.
#[global] Instance in_width_dec w z : Decision (in_width w z).
Proof. unfold in_width. apply _. Defined.

Definition arith (oc : bool) (w z : Z) : res Z :=
  if bool_decide (in_width w z) then Ok z
  else if oc then Panic else Ok (wrap w z).

(** [a << s] and [a >> s] on a [w]-bit type: a shift by [w] or more panics
    with overflow checks and masks the count without. *)
Definition shl (oc : bool) (w a s : Z) : res Z :=
  if bool_decide (0 <= s < w) then Ok (wrap w (Z.shiftl a s))
  else if oc then Panic else Ok (wrap w (Z.shiftl a (s mod w))).

(** [as i32] *)
Definition as_i32 (z : Z) : Z := wrap 32 (z + 2 ^ 31) - 2 ^ 31.

Abbreviation u8 := (in_width 8).
Abbreviation u16 := (in_width 16).
Abbreviation u32 := (in_width 32).
Abbreviation u64 := (in_width 64).
Abbreviation u128 := (in_width 128).

(** ** Big-endian byte strings *)
Fixpoint be_bytes (n : nat) (z : Z) : list Z :=
  match n with
  | O => []
  | S n' => wrap 8 (Z.shiftr z (8 * Z.of_nat n')) :: be_bytes n' z
  end.

Definition be_val (l : list Z) : Z := foldl (fun acc b => acc * 256 + b) 0 l.

(** [Vec::get(i)] and slicing with usize indices held in [Z]. *)
Definition zlen {A} (l : list A) : Z := Z.of_nat (length l).
Definition zget {A} (l : list A) (i : Z) : option A :=
  if bool_decide (0 <= i) then l !! Z.to_nat i else None.
(** [&l[a..b]]: panics unless [a <= b <= len]. *)
Definition zslice {A} (l : list A) (a b : Z) : res (list A) :=
  if bool_decide (0 <= a <= b /\ b <= zlen l)
  then Ok (take (Z.to_nat (b - a)) (drop (Z.to_nat a) l))
  else Panic.
(** [l[i]]: panics out of range. *)
Definition zidx {A} (l : list A) (i : Z) : res A := or_panic (zget l i).

(** * Lemmas *)

Lemma wrap_small w z : in_width w z -> wrap w z = z.
Proof. intros ?. by apply Z.mod_small. Qed.

Lemma as_i32_small z : 0 <= z < 2 ^ 31 -> as_i32 z = z.
Proof. intros Hz. unfold as_i32. rewrite wrap_small; [lia|]. unfold in_width. lia. Qed.
Lemma wrap_range w z : 0 <= w -> in_width w (wrap w z).
Proof. intros ?. apply Z.mod_pos_bound. by apply Z.pow_pos_nonneg. Qed.

Lemma wrap_idem w z : wrap w (wrap w z) = wrap w z.
Proof. unfold wrap. by apply Zmod_mod. Qed.

Lemma arith_ok oc w z : in_width w z -> arith oc w z = Ok z.
Proof. intros ?. unfold arith. by rewrite bool_decide_true. Qed.

Lemma be_bytes_length n z : length (be_bytes n z) = n.
Proof. induction n; simpl; congruence. Qed.

Lemma be_bytes_u8 n z : Forall u8 (be_bytes n z).
Proof. induction n; simpl; constructor; auto. by apply wrap_range. Qed.

Lemma be_bytes_1 z : u8 z -> be_bytes 1 z = [z].
Proof.
  intros Hz. simpl. change (8 * Z.of_nat 0) with 0. by rewrite Z.shiftr_0_r, wrap_small.
Qed.

Lemma be_val_snoc l b : be_val (l ++ [b]) = be_val l * 256 + b.
Proof. unfold be_val. by rewrite foldl_app. Qed.

Lemma be_val_app l1 l2 : be_val (l1 ++ l2) = be_val l1 * 256 ^ zlen l2 + be_val l2.
Proof.
  induction l2 as [|b l2 IH] using rev_ind.
  - rewrite app_nil_r. change (256 ^ zlen (@nil Z)) with 1. change (be_val []) with 0. lia.
  - rewrite app_assoc, !be_val_snoc, IH. unfold zlen. rewrite length_app. simpl length.
    replace (Z.of_nat (length l2 + 1)) with (Z.succ (Z.of_nat (length l2))) by lia.
    rewrite Z.pow_succ_r by lia. ring.
Qed.

Lemma be_val_cons b l : be_val (b :: l) = b * 256 ^ zlen l + be_val l.
Proof. change (b :: l) with ([b] ++ l). by rewrite be_val_app. Qed.

Lemma zlen_nonneg {A} (l : list A) : 0 <= zlen l.
Proof. unfold zlen. lia. Qed.

Lemma be_val_range l : Forall u8 l -> 0 <= be_val l < 256 ^ zlen l.
Proof.
  induction 1 as [|b l Hb _ IH].
  - unfold be_val, zlen; simpl. by vm_compute.
  - rewrite be_val_cons. unfold zlen in *. rewrite length_cons, Nat2Z.inj_succ.
    rewrite Z.pow_succ_r by lia. unfold in_width in Hb.
    change (2 ^ 8) with 256 in Hb. nia.
Qed.

Lemma be_val_bytes n z : in_width (8 * Z.of_nat n) z -> be_val (be_bytes n z) = z.
Proof.
  enough (be_val (be_bytes n z) = wrap (8 * Z.of_nat n) z) as ->.
  { apply wrap_small. }
  clear. induction n as [|n IH].
  - unfold wrap. simpl. by rewrite Z.mod_1_r.
  - simpl be_bytes. rewrite be_val_cons, IH. unfold zlen. rewrite be_bytes_length.
    unfold wrap. rewrite Z.shiftr_div_pow2 by lia.
    replace (8 * Z.of_nat (S n)) with (8 * Z.of_nat n + 8) by lia.
    rewrite Z.pow_add_r by lia.
    rewrite Z.rem_mul_r by (try apply Z.pow_nonzero; lia).
    change 256 with (2 ^ 8). rewrite <- Z.pow_mul_r by lia. lia.
Qed.

Lemma be_bytes_val l : Forall u8 l -> be_bytes (length l) (be_val l) = l.
Proof.
  assert (forall l z, Forall u8 l ->
    be_bytes (length l) (z * 256 ^ zlen l + be_val l) = l) as H.
  2: { intros Hl. rewrite <- (H l 0 Hl) at 3. do 2 f_equal; lia. }
  clear. induction l as [|b l IH]; intros z Hl; [done|].
  apply Forall_cons in Hl as [Hb Hl]. simpl be_bytes. rewrite be_val_cons.
  unfold zlen. rewrite length_cons, Nat2Z.inj_succ, Z.pow_succ_r by lia.
  fold (zlen l). pose proof (be_val_range l Hl) as Hr. pose proof (zlen_nonneg l). f_equal.
  - unfold wrap. rewrite Z.shiftr_div_pow2 by lia.
    rewrite Z.pow_mul_r by lia. change (2 ^ 8) with 256 in *.
    replace (z * (256 * 256 ^ zlen l) + (b * 256 ^ zlen l + be_val l))
      with ((z * 256 + b) * 256 ^ zlen l + be_val l) by ring.
    fold (zlen l). rewrite Z.div_add_l by lia. rewrite (Z.div_small (be_val l)) by lia.
    rewrite Z.add_0_r, Z.add_comm, Z.mod_add by lia.
    apply Z.mod_small. unfold in_width in Hb. by change (2 ^ 8) with 256 in Hb.
  - etrans; [|apply (IH (z * 256 + b) Hl)]. f_equal. ring.
Qed.

Lemma be_val_inj l1 l2 :
  Forall u8 l1 -> Forall u8 l2 -> length l1 = length l2 -> be_val l1 = be_val l2 -> l1 = l2.
Proof.
  intros H1 H2 Hlen Hv.
  by rewrite <- (be_bytes_val l1 H1), <- (be_bytes_val l2 H2), Hlen, Hv.
Qed.

(** ** Byte cursors

    A cursor is the list of bytes left to read.  [get_*] are the readers of
    [bytes::Buf], which panic when the buffer is too short; [read_*] are
    those of an [AsyncRead]/[Read] stream, which return an error at the end
    of input. *)
Definition EOF_MSG : string := "early eof".

Definition get_bytes (n : nat) (cur : list Z) : res (list Z * list Z) :=
  if decide (n <= length cur)%nat then Ok (take n cur, drop n cur) else Panic.
Definition read_bytes (n : nat) (cur : list Z) : res (list Z * list Z) :=
  if decide (n <= length cur)%nat then Ok (take n cur, drop n cur) else Err EOF_MSG.
Definition get_uint (n : nat) (cur : list Z) : res (Z * list Z) :=
  res_bind (fun '(bs, cur) => Ok (be_val bs, cur)) (get_bytes n cur).
Definition read_uint (n : nat) (cur : list Z) : res (Z * list Z) :=
  res_bind (fun '(bs, cur) => Ok (be_val bs, cur)) (read_bytes n cur).

Lemma get_bytes_app l rest : get_bytes (length l) (l ++ rest) = Ok (l, rest).
Proof.
  unfold get_bytes. rewrite decide_True by (rewrite length_app; lia).
  by rewrite take_app_length, drop_app_length.
Qed.
Lemma read_bytes_app l rest : read_bytes (length l) (l ++ rest) = Ok (l, rest).
Proof.
  unfold read_bytes. rewrite decide_True by (rewrite length_app; lia).
  by rewrite take_app_length, drop_app_length.
Qed.
Lemma get_uint_be n z rest :
  in_width (8 * Z.of_nat n) z -> get_uint n (be_bytes n z ++ rest) = Ok (z, rest).
Proof.
  intros Hz. unfold get_uint. rewrite <- (be_bytes_length n z) at 1.
  rewrite get_bytes_app. simpl. by rewrite be_val_bytes.
Qed.
Lemma read_uint_be n z rest :
  in_width (8 * Z.of_nat n) z -> read_uint n (be_bytes n z ++ rest) = Ok (z, rest).
Proof.
  intros Hz. unfold read_uint. rewrite <- (be_bytes_length n z) at 1.
  rewrite read_bytes_app. simpl. by rewrite be_val_bytes.
Qed.
Lemma get_uint_long n cur :
  (n <= length cur)%nat -> get_uint n cur = Ok (be_val (take n cur), drop n cur).
Proof. intros. unfold get_uint, get_bytes. by rewrite decide_True. Qed.
Lemma get_uint_short n cur : (length cur < n)%nat -> get_uint n cur = Panic.
Proof. intros. unfold get_uint, get_bytes. by rewrite decide_False by lia. Qed.

Lemma zslice_ok {A} (l : list A) a b :
  0 <= a <= b -> b <= zlen l ->
  zslice l a b = Ok (take (Z.to_nat (b - a)) (drop (Z.to_nat a) l)).
Proof. intros. unfold zslice. by rewrite bool_decide_true. Qed.
Lemma zslice_panic {A} (l : list A) a b : zlen l < b -> zslice l a b = Panic.
Proof. intros. unfold zslice. rewrite bool_decide_false; [done|lia]. Qed.

Lemma get_u8_cons b l : get_uint 1 (b :: l) = Ok (b, l).
Proof. reflexivity. Qed.
Lemma read_u8_cons b l : read_uint 1 (b :: l) = Ok (b, l).
Proof. reflexivity. Qed.
Lemma read_uint_inv n cur v rest :
  Forall u8 cur -> read_uint n cur = Ok (v, rest) ->
  cur = be_bytes n v ++ rest /\ in_width (8 * Z.of_nat n) v /\ Forall u8 rest.
Proof.
  intros Hc. unfold read_uint, read_bytes. case_decide; simpl; [|done]. intros ?; simplify_eq.
  assert (Forall u8 (take n cur)) as Ht by by apply Forall_take.
  assert (length (take n cur) = n) as Hl by (rewrite length_take; lia).
  split_and!.
  - assert (be_bytes n (be_val (take n cur)) = take n cur) as ->
      by (rewrite <- Hl at 1; by apply be_bytes_val).
    by rewrite take_drop.
  - pose proof (be_val_range _ Ht) as Hr. unfold zlen in Hr. rewrite Hl in Hr.
    unfold in_width. by rewrite Z.pow_mul_r by lia.
  - by apply Forall_drop.
Qed.
Lemma read_bytes_inv n cur bs rest :
  read_bytes n cur = Ok (bs, rest) -> cur = bs ++ rest /\ length bs = n.
Proof.
  unfold read_bytes. case_decide; [|done]. intros ?; simplify_eq.
  rewrite take_drop, length_take. split; [done|lia].
Qed.

(** One step of a computation in [res]. *)
Ltac rstep := cbn [mbind res_mbind res_bind mret res_mret]; cbv beta iota.

(** Inversion of a successful [x ← m; k]. *)
Lemma res_bind_ok {A B} (m : res A) (f : A -> res B) b :
  m ≫= f = Ok b <-> exists a, m = Ok a /\ f a = Ok b.
Proof. destruct m; simpl; (split; [intros H|intros (x & Hm & H)]); simplify_eq; eauto. Qed.

#[global] Arguments get_uint : simpl never.
#[global] Arguments read_uint : simpl never.
#[global] Arguments get_bytes : simpl never.
#[global] Arguments read_bytes : simpl never.
#[global] Arguments be_bytes : simpl never.
#[global] Arguments be_val : simpl never.

Create HintDb clash.
Create Rewrite HintDb clash.
#[export] Hint Resolve be_bytes_u8 wrap_range zlen_nonneg : clash.
#[export] Hint Rewrite be_bytes_length @length_app @length_take @length_drop : clash.
