(* ===== verification/F64.v ===== *)
(** * Rust's [f64]

    Binary64 arithmetic with rounding to nearest, on the [SpecFloat] datatype
    of the Standard Library: executable and free of axioms.  [exp] and
    [powf], whose precision Rust leaves open, are parameters.  The lemmas
    give the lower bounds that rounding preserves. *)

From S2P Require Import Prelude.
From Stdlib Require Import SpecFloat.

Definition f64 : Type := spec_float.
#[global] Instance f64_eq_dec : EqDecision f64.
Proof. unfold f64. solve_decision. Defined.
Definition fadd : f64 -> f64 -> f64 := SFadd 53 1024.
Definition fsub : f64 -> f64 -> f64 := SFsub 53 1024.
Definition fmul : f64 -> f64 -> f64 := SFmul 53 1024.
Definition fdiv : f64 -> f64 -> f64 := SFdiv 53 1024.
Definition fsqrt : f64 -> f64 := SFsqrt 53 1024.
Definition fneg : f64 -> f64 := SFopp.
Definition flt (x y : f64) : bool := SFltb x y.
Definition fgt (x y : f64) : bool := SFltb y x.
Definition finf : f64 := S754_infinity false.
Definition fzero : f64 := S754_zero false.

(** [z as f64] for an integer. *)
Definition f_of_Z (z : Z) : f64 := binary_normalize 53 1024 z 0 false.
(** The literal [n / d]. *)
Definition flit (n d : Z) : f64 := fdiv (f_of_Z n) (f_of_Z d).

Definition is_nan (x : f64) : bool := match x with S754_nan => true | _ => false end.
(** [f64::max] *)
Definition fmax (x y : f64) : f64 :=
  if is_nan x then y else if is_nan y then x else if flt x y then y else x.
(** [a.partial_cmp(&b).unwrap_or(Equal)] *)
Definition fcmp_or_eq (x y : f64) : comparison := default Eq (SFcompare x y).

(** [x as iN]: truncation, saturating; NaN is 0. *)
Definition f_to_int (lo hi : Z) (x : f64) : Z :=
  match x with
  | S754_zero _ | S754_nan => 0
  | S754_infinity s => if s then lo else hi
  | S754_finite s m e =>
    let a := if 0 <=? e then Zpos m * 2 ^ e else Zpos m / 2 ^ (- e) in
    Z.max lo (Z.min hi (if s then - a else a))
  end.
Definition f_to_i64 : f64 -> Z := f_to_int (- 2 ^ 63) (2 ^ 63 - 1).
Definition f_to_u32 : f64 -> Z := f_to_int 0 (2 ^ 32 - 1).

(** [f64::round]: to the nearest integer, halves away from zero. *)
Definition fround (x : f64) : f64 :=
  match x with
  | S754_finite s m e =>
    if 0 <=? e then x
    else
      let a := (2 * Zpos m + 2 ^ (- e)) / 2 ^ (1 - e) in
      binary_normalize 53 1024 (if s then - a else a) 0 s
  | _ => x
  end.

(** [iter().sum::<f64>()], which starts from [-0.0]. *)
Definition fsum (l : list f64) : f64 := foldl fadd (S754_zero true) l.

(** [Duration], in nanoseconds. *)
Definition as_secs (d : Z) : Z := d / 10 ^ 9.
Definition as_secs_f64 (d : Z) : f64 := fadd (f_of_Z (as_secs d)) (fdiv (f_of_Z (d mod 10 ^ 9)) (f_of_Z (10 ^ 9))).
Definition as_millis_f64 (d : Z) : f64 :=
  fadd (fmul (f_of_Z (as_secs d)) (f_of_Z 1000)) (fdiv (f_of_Z (d mod 10 ^ 9)) (f_of_Z (10 ^ 6))).

(** [exp] and [powf]. *)
Class LibM : Type := { fexp_ : f64 -> f64; fpowf : f64 -> f64 -> f64 }.

Example literal_tenth : flit 1 10 = S754_finite false 7205759403792794 (-56).
Proof. by vm_compute. Qed.
Example sum_tenths : fadd (flit 1 10) (flit 2 10) = S754_finite false 5404319552844596 (-54).
Proof. by vm_compute. Qed.
Example round_half : (fround (flit 5 2), fround (flit (-5) 2), fround (flit 49 100)) = (f_of_Z 3, f_of_Z (-3), fzero).
Proof. by vm_compute. Qed.

(** * Lower bounds *)

(** [t * 2^f <= m * 2^e] *)
Definition le2 (t f m e : Z) : Prop := if e <=? f then t * 2 ^ (f - e) <= m else t <= m * 2 ^ (e - f).

(** [t * 2^f <= x] *)
Definition fge (x : f64) (t f : Z) : Prop :=
  match x with
  | S754_finite false m e => le2 t f (Zpos m) e
  | S754_infinity false => True
  | _ => False
  end.

Lemma digits2_pos_spec p : 2 ^ (Zpos (digits2_pos p) - 1) <= Zpos p < 2 ^ Zpos (digits2_pos p).
Proof.
  induction p as [p IH|p IH|]; cbn [digits2_pos]; [| |by vm_compute].
  all: rewrite Pos2Z.inj_succ; replace (Z.succ (Zpos (digits2_pos p)) - 1) with (Z.succ (Zpos (digits2_pos p) - 1)) by lia;
    rewrite !Z.pow_succ_r by lia; lia.
Qed.

Lemma shr_1_m mrs : 0 <= shr_m mrs -> shr_m (shr_1 mrs) = shr_m mrs / 2.
Proof.
  destruct mrs as [m r s]. cbn [shr_m]. intros Hm. unfold shr_1.
  destruct m as [|[p|p|]|]; cbn [shr_m]; [done| | |done|lia];
    Z.to_euclidean_division_equations; lia.
Qed.

Lemma iter_shr_m p mrs : 0 <= shr_m mrs -> shr_m (iter_pos shr_1 p mrs) = shr_m mrs / 2 ^ Zpos p.
Proof.
  revert mrs. induction p as [p IH|p IH|]; intros mrs Hm; cbn [iter_pos].
  - assert (0 <= shr_m mrs / 2) by (apply Z.div_pos; lia).
    assert (shr_m (iter_pos shr_1 p (shr_1 mrs)) = shr_m mrs / 2 / 2 ^ Zpos p) as H1
      by (rewrite IH; rewrite shr_1_m; done).
    assert (0 <= shr_m mrs / 2 / 2 ^ Zpos p) by (apply Z.div_pos; lia).
    rewrite IH by by rewrite H1. rewrite H1, !Z.div_div by lia. f_equal.
    replace (Zpos p~1) with (Z.succ (Zpos p + Zpos p)) by lia.
    rewrite Z.pow_succ_r, Z.pow_add_r by lia. lia.
  - assert (0 <= shr_m mrs / 2 ^ Zpos p) by (apply Z.div_pos; lia).
    rewrite IH by by rewrite IH. rewrite IH, Z.div_div by lia. f_equal. rewrite <- Z.pow_add_r by lia. f_equal. lia.
  - by apply shr_1_m.
Qed.

Lemma zdigits_spec m : 0 < m -> 2 ^ (Zdigits2 m - 1) <= m < 2 ^ Zdigits2 m.
Proof. destruct m as [|p|p]; [lia| |lia]. intros _. apply digits2_pos_spec. Qed.

(** Aligning a mantissa keeps the representable numbers below it. *)
Lemma shr_fexp_le2 m e l t f :
  0 < t < 2 ^ 53 -> -1074 <= f -> 0 < m -> le2 t f m e ->
  le2 t f (shr_m (shr_fexp 53 1024 m e l).1) (shr_fexp 53 1024 m e l).2.
Proof.
  intros Ht Hf Hm Hle. unfold shr_fexp. pose proof (zdigits_spec m Hm) as [Hd _].
  set (d := Zdigits2 m) in *. unfold fexp, emin.
  destruct (Z.max (d + e - 53) (3 - 1024 - 53) - e) as [|n|n] eqn:En; cbn [shr fst snd].
  1, 3: destruct l as [|[]]; exact Hle.
  assert (shr_m (shr_record_of_loc m l) = m) as Hr by by destruct l as [|[]].
  rewrite iter_shr_m, Hr by (rewrite Hr; lia). unfold le2 in *.
  destruct (Z.leb_spec (e + Zpos n) f) as [Hc|Hc].
  - rewrite (proj2 (Z.leb_le e f)) in Hle by lia. apply Z.div_le_lower_bound; [lia|].
    replace (f - e) with (Zpos n + (f - (e + Zpos n))) in Hle by lia.
    rewrite Z.pow_add_r in Hle by lia. lia.
  - assert (Zpos n = d - 53) as En' by lia.
    assert (2 ^ 52 <= m / 2 ^ Zpos n) as H52.
    { apply Z.div_le_lower_bound; [lia|]. rewrite <- Z.pow_add_r by lia.
      replace (Zpos n + 52) with (d - 1) by lia. done. }
    assert (2 ^ 1 <= 2 ^ (e + Zpos n - f)) by (apply Z.pow_le_mono_r; lia). nia.
Qed.

Lemma le2_mono t f m m' e : m <= m' -> le2 t f m e -> le2 t f m' e.
Proof. unfold le2. intros Hm. destruct (Z.leb_spec e f); [lia|]. intros H1. pose proof (Z.pow_pos_nonneg 2 (e - f)). nia. Qed.
Lemma le2_pos t f m e : 0 < t -> le2 t f m e -> 0 < m.
Proof.
  unfold le2. intros Ht. destruct (Z.leb_spec e f); intros H1.
  - pose proof (Z.pow_pos_nonneg 2 (f - e)). nia.
  - pose proof (Z.pow_pos_nonneg 2 (e - f)). nia.
Qed.

Lemma binary_round_aux_ge m e l t f :
  0 < t < 2 ^ 53 -> -1074 <= f -> le2 t f m e -> fge (binary_round_aux 53 1024 false m e l) t f.
Proof.
  intros Ht Hf Hle. unfold binary_round_aux.
  pose proof (shr_fexp_le2 m e l t f Ht Hf (le2_pos _ _ _ _ (proj1 Ht) Hle) Hle) as H1.
  destruct (shr_fexp 53 1024 m e l) as [mrs1 e1]. cbn [fst snd] in H1.
  set (m2 := round_nearest_even (shr_m mrs1) (loc_of_shr_record mrs1)).
  assert (shr_m mrs1 <= m2) as Hm2.
  { unfold m2, round_nearest_even. destruct (loc_of_shr_record mrs1) as [|[]]; try lia. destruct (Z.even _); lia. }
  pose proof (le2_mono _ _ _ _ _ Hm2 H1) as H2.
  pose proof (shr_fexp_le2 m2 e1 loc_Exact t f Ht Hf (le2_pos _ _ _ _ (proj1 Ht) H2) H2) as H3.
  destruct (shr_fexp 53 1024 m2 e1 loc_Exact) as [mrs3 e3]. cbn [fst snd] in H3.
  pose proof (le2_pos _ _ _ _ (proj1 Ht) H3). destruct (shr_m mrs3); [lia| |lia].
  by destruct (_ <=? _).
Qed.

Lemma fmul_ge mx ex my ey t f :
  0 < t < 2 ^ 53 -> -1074 <= f -> le2 t f (Zpos (mx * my)) (ex + ey) ->
  fge (fmul (S754_finite false mx ex) (S754_finite false my ey)) t f.
Proof. intros. unfold fmul, SFmul. cbn [xorb]. by apply binary_round_aux_ge. Qed.

(** [x / y >= t * 2^f] when [x >= t * y * 2^f]. *)
Lemma fdiv_ge mx ex my ey t f :
  0 < t < 2 ^ 53 -> -1074 <= f -> le2 (t * Zpos my) (f + ey) (Zpos mx) ex ->
  fge (fdiv (S754_finite false mx ex) (S754_finite false my ey)) t f.
Proof.
  intros Ht Hf Hle. unfold fdiv, SFdiv, SFdiv_core_binary, fexp, emin. cbn [Zdigits2 xorb].
  pose proof (digits2_pos_spec mx) as [Hdx _]. pose proof (digits2_pos_spec my) as [_ Hdy].
  set (dx := Zpos (digits2_pos mx)) in *. set (dy := Zpos (digits2_pos my)) in *.
  set (e' := Z.min (Z.max (dx + ex - (dy + ey) - 53) (3 - 1024 - 53)) (ex - ey)).
  set (s := ex - ey - e').
  assert (match s with 0 => Zpos mx | Zpos _ => Z.shiftl (Zpos mx) s | Zneg _ => 0 end = Zpos mx * 2 ^ s) as ->.
  { assert (0 <= s) by lia. destruct s as [|n|n] eqn:Es; [lia| |lia]. by rewrite Z.shiftl_mul_pow2. }
  pose proof (Z_div_mod_full (Zpos mx * 2 ^ s) (Zpos my) ltac:(done)) as Hdm.
  pose proof (Z.mod_pos_bound (Zpos mx * 2 ^ s) (Zpos my) ltac:(done)) as _.
  destruct (Z.div_eucl (Zpos mx * 2 ^ s) (Zpos my)) as [q r] eqn:Eq. 
  assert (q = Zpos mx * 2 ^ s / Zpos my) as Hq by (unfold Z.div; by rewrite Eq).
  apply binary_round_aux_ge; [done|done|]. rewrite Hq. clear Hdm Eq Hq q r. unfold le2 in *.
  destruct (Z.leb_spec e' f) as [Hc|Hc].
  - apply Z.div_le_lower_bound; [lia|]. destruct (Z.leb_spec ex (f + ey)).
    + replace (f - e') with (f + ey - ex + s) by lia. rewrite Z.pow_add_r by lia.
      pose proof (Z.pow_pos_nonneg 2 s). nia.
    + replace s with (ex - (f + ey) + (f - e')) by lia. rewrite Z.pow_add_r by lia.
      pose proof (Z.pow_pos_nonneg 2 (f - e')). nia.
  - assert (2 ^ 52 <= Zpos mx * 2 ^ s / Zpos my) as H52.
    { apply Z.div_le_lower_bound; [lia|]. trans (2 ^ (dx - 1) * 2 ^ s).
      2: { pose proof (Z.pow_pos_nonneg 2 s). nia. }
      rewrite <- Z.pow_add_r by lia. trans (2 ^ dy * 2 ^ 52); [nia|].
      rewrite <- Z.pow_add_r by lia. apply Z.pow_le_mono_r; lia. }
    assert (2 ^ 1 <= 2 ^ (e' - f)) by (apply Z.pow_le_mono_r; lia). nia.
Qed.

(** ** Integers below 2^53 are exact *)
Lemma digits2_pos_iter p k : Zpos (digits2_pos (Pos.iter xO p k)) = Zpos (digits2_pos p) + Zpos k.
Proof.
  revert p. induction k as [|k IH] using Pos.peano_ind; intros p; [cbn; lia|].
  rewrite Pos.iter_succ. cbn [digits2_pos]. rewrite Pos2Z.inj_succ, IH. lia.
Qed.
Lemma pos_iter_xO p k : Zpos (Pos.iter xO p k) = Zpos p * 2 ^ Zpos k.
Proof.
  revert p. induction k as [|k IH] using Pos.peano_ind; intros p; [cbn; lia|].
  rewrite Pos.iter_succ, Pos2Z.inj_xO, IH, Pos2Z.inj_succ, Z.pow_succ_r by lia. lia.
Qed.

Lemma shr_fexp_id m e :
  0 < m -> Zdigits2 m = 53 -> -1074 <= e -> shr_fexp 53 1024 m e loc_Exact = (shr_record_of_loc m loc_Exact, e).
Proof.
  intros Hm Hd He. unfold shr_fexp, fexp, emin. rewrite Hd.
  replace (Z.max (53 + e - 53) (3 - 1024 - 53) - e) with 0 by lia. done.
Qed.

Lemma f_of_Z_exact z : 0 < z < 2 ^ 53 -> exists m e, f_of_Z z = S754_finite false m e /\ -53 <= e <= 0 /\ Zpos m = z * 2 ^ (- e).
Proof.
  intros Hz. destruct z as [|p|p]; [lia| |lia]. unfold f_of_Z, binary_normalize, binary_round, shl_align, fexp, emin.
  pose proof (digits2_pos_spec p) as [Hlo Hhi].
  assert (Zpos (digits2_pos p) - 1 < 53) as Hd by (apply (Z.pow_lt_mono_r_iff 2); lia).
  set (d := Zpos (digits2_pos p)) in *. assert (1 <= d) by lia.
  rewrite Z.add_0_r, Z.sub_0_r, Z.max_l by lia.
  assert (exists m e, (match d - 53 with Zneg k => (Pos.iter xO p k, d - 53) | _ => (p, 0) end) = (m, e) /\
    e = d - 53 /\ Zpos m = Zpos p * 2 ^ (- e) /\ Zdigits2 (Zpos m) = 53) as (m & e & -> & He & Hm & Hdig).
  { destruct (d - 53) as [|k|k] eqn:E; [|lia|].
    - exists p, 0. split_and!; [done|done|lia|]. cbn [Zdigits2]. fold d. lia.
    - exists (Pos.iter xO p k), (Zneg k). split_and!; [done|done|apply pos_iter_xO|].
      cbn [Zdigits2]. rewrite digits2_pos_iter. fold d. lia. }
  exists m, e. split_and!; [|lia|lia|done]. unfold binary_round_aux.
  rewrite shr_fexp_id by lia. cbn [loc_of_shr_record shr_record_of_loc shr_m round_nearest_even].
  rewrite shr_fexp_id by lia. cbn [shr_m shr_record_of_loc].
  by rewrite (proj2 (Z.leb_le _ _)) by lia.
Qed.

Lemma fge_trunc x z hi lo : fge x z 0 -> lo <= 0 <= z -> z <= hi -> z <= f_to_int lo hi x.
Proof.
  destruct x as [| [] | |[] m e]; cbn [fge f_to_int]; try done. intros Hge Hz Hhi. unfold le2 in Hge.
  destruct (Z.leb_spec 0 e) as [He|He].
  - destruct (Z.leb_spec e 0).
    + assert (e = 0) as -> by lia. rewrite Z.mul_1_r in *. change (2 ^ (0 - 0)) with 1 in Hge. lia.
    + rewrite Z.sub_0_r in Hge. lia.
  - rewrite (proj2 (Z.leb_le e 0)) in Hge by lia.
    assert (z <= Zpos m / 2 ^ (- e)); [|lia]. apply Z.div_le_lower_bound; [lia|].
    replace (- e) with (0 - e) by lia. lia.
Qed.

(** [le2] on a common scale. *)
Lemma le2_scale k t f m e : 0 <= k + e -> 0 <= k + f -> le2 t f m e <-> t * 2 ^ (k + f) <= m * 2 ^ (k + e).
Proof.
  intros He Hf. unfold le2. destruct (Z.leb_spec e f).
  - replace (k + f) with (f - e + (k + e)) by lia. rewrite (Z.pow_add_r 2 (f - e)) by lia.
    pose proof (Z.pow_pos_nonneg 2 (k + e)). nia.
  - replace (k + e) with (e - f + (k + f)) by lia. rewrite (Z.pow_add_r 2 (e - f)) by lia.
    pose proof (Z.pow_pos_nonneg 2 (k + f)). nia.
Qed.

(** [c * a / d >= c] for a divisor up to [a = 2^k]; the integers are exact. *)
Lemma scaled_div_ge c d k :
  0 < c < 2 ^ 53 -> 0 < d <= 2 ^ k -> 0 <= k < 53 ->
  fge (fdiv (fmul (f_of_Z c) (f_of_Z (2 ^ k))) (f_of_Z d)) c 0.
Proof.
  intros Hc Hd Hk. assert (2 ^ k < 2 ^ 53) by (apply Z.pow_lt_mono_r; lia).
  destruct (f_of_Z_exact c Hc) as (mc & ec & -> & Hec & Hmc).
  destruct (f_of_Z_exact (2 ^ k)) as (ma & ea & -> & Hea & Hma); [lia|].
  destruct (f_of_Z_exact d) as (md & ed & -> & Hed & Hmd); [lia|].
  assert (fge (fmul (S754_finite false mc ec) (S754_finite false ma ea)) c k) as Hmul.
  { apply fmul_ge; [lia..|]. rewrite (le2_scale 106) by lia. rewrite Pos2Z.inj_mul, Hmc, Hma.
    replace (106 + (ec + ea)) with ((53 + ec) + (53 + ea)) by lia. rewrite !Z.pow_add_r by lia.
    assert (2 ^ (- ec) * 2 ^ (53 + ec) = 2 ^ 53) as Hc2 by (rewrite <- Z.pow_add_r by lia; f_equal; lia).
    assert (2 ^ (- ea) * 2 ^ (53 + ea) = 2 ^ 53) as Ha2 by (rewrite <- Z.pow_add_r by lia; f_equal; lia).
    replace (c * 2 ^ (- ec) * (2 ^ k * 2 ^ (- ea)) * (2 ^ (53 + ec) * 2 ^ (53 + ea)))
      with (c * 2 ^ k * ((2 ^ (- ec) * 2 ^ (53 + ec)) * (2 ^ (- ea) * 2 ^ (53 + ea)))) by ring.
    rewrite Hc2, Ha2. lia. }
  destruct (fmul _ _) as [[]|[]| |[] mx ex]; try done. apply fdiv_ge; [lia..|]. cbn [fge] in Hmul.
  set (K := 53 + Z.abs ex). rewrite (le2_scale K) in Hmul |- * by lia.
  rewrite Hmd. trans (c * 2 ^ (K + k)); [|done]. rewrite <- Z.mul_assoc. apply Z.mul_le_mono_nonneg_l; [lia|].
  rewrite <- Z.mul_assoc, <- Z.pow_add_r by lia. replace (- ed + (K + (0 + ed))) with K by lia.
  rewrite (Z.pow_add_r 2 K k) by lia. pose proof (Z.pow_pos_nonneg 2 K). nia.
Qed.

(** ** Order

    Numbers other than NaN are ordered like the triples [fkey]. *)
Definition fkey (x : f64) : Z * Z * Z :=
  match x with
  | S754_infinity true => (-2, 0, 0)
  | S754_finite true m e => (-1, - e, Zneg m)
  | S754_zero _ | S754_nan => (0, 0, 0)
  | S754_finite false m e => (1, e, Zpos m)
  | S754_infinity false => (2, 0, 0)
  end.
Definition klt (a b : Z * Z * Z) : Prop :=
  a.1.1 < b.1.1 \/ (a.1.1 = b.1.1 /\ (a.1.2 < b.1.2 \/ (a.1.2 = b.1.2 /\ a.2 < b.2))).
Definition kcmp (a b : Z * Z * Z) : comparison :=
  match a.1.1 ?= b.1.1 with
  | Eq => match a.1.2 ?= b.1.2 with Eq => a.2 ?= b.2 | c => c end
  | c => c
  end.

Lemma kcmp_spec a b : CompareSpec (a = b) (klt a b) (klt b a) (kcmp a b).
Proof.
  destruct a as [[a1 a2] a3], b as [[b1 b2] b3]. unfold kcmp, klt. cbn [fst snd].
  destruct (Z.compare_spec a1 b1); [|constructor; lia..]. destruct (Z.compare_spec a2 b2); [|constructor; lia..].
  destruct (Z.compare_spec a3 b3); constructor; [congruence|lia..].
Qed.

Lemma SFcompare_key x y : is_nan x = false -> is_nan y = false -> SFcompare x y = Some (kcmp (fkey x) (fkey y)).
Proof.
  destruct x as [sx|sx| |sx mx ex], y as [sy|sy| |sy my ey]; try done; intros _ _; try (by destruct sx); try (by destruct sy);
    try (by destruct sx, sy).
  destruct sx, sy; try done; unfold SFcompare, kcmp; cbn [fkey fst snd].
  change (-1 ?= -1) with Eq. change (Zneg mx) with (- Zpos mx). change (Zneg my) with (- Zpos my).
    rewrite !Z.compare_opp, (Z.compare_antisym ex ey). change (Zpos my ?= Zpos mx) with (Pos.compare my mx). rewrite (Pos.compare_antisym mx my). unfold Pos.compare.
    by destruct (ex ?= ey).
Qed.

Lemma flt_key x y : is_nan x = false -> is_nan y = false -> flt x y = true <-> klt (fkey x) (fkey y).
Proof.
  intros Hx Hy. unfold flt, SFltb. rewrite SFcompare_key by done.
  destruct (kcmp_spec (fkey x) (fkey y)) as [H|H|H].
  - rewrite H. unfold klt. split; [done|lia].
  - split; done.
  - unfold klt in *. split; [done|lia].
Qed.
Lemma flt_false_key x y : is_nan x = false -> is_nan y = false -> flt x y = false <-> ~ klt (fkey x) (fkey y).
Proof. intros Hx Hy. rewrite <- flt_key by done. by destruct (flt x y). Qed.
