(* ===== verification/Str.v ===== *)
(** * Rust strings

    A [str] is the sequence of its characters (Unicode scalar values, as
    [Z]); [utf8] gives the bytes ([str::as_bytes]), [from_utf8] is
    [String::from_utf8].  The functions below are the parts of Rust's
    standard library the modelled code calls: [split], [trim], [contains],
    [starts_with], [ends_with], integer parsing and printing, ASCII case
    conversion. *)

From S2P Require Import Prelude.

Abbreviation char := Z (only parsing).
Abbreviation str := (list Z) (only parsing).

(** A string literal of the source (ASCII in all the modelled code). *)
Definition lit (s : string) : str :=
  map (fun c => Z.of_N (Ascii.N_of_ascii c)) (String.list_ascii_of_string s).
Definition ch (c : Ascii.ascii) : char := Z.of_N (Ascii.N_of_ascii c).

Definition scalar (c : Z) : Prop := 0 <= c < 0xD800 \/ 0xE000 <= c < 0x110000.
#[global] Instance scalar_dec c : Decision (scalar c).
Proof. unfold scalar. apply _. Defined.

(** ** UTF-8 *)
Definition utf8_char (c : Z) : list Z :=
  if c <? 0x80 then [c]
  else if c <? 0x800 then [0xC0 + c / 64; 0x80 + c mod 64]
  else if c <? 0x10000 then [0xE0 + c / 4096; 0x80 + c / 64 mod 64; 0x80 + c mod 64]
  else [0xF0 + c / 262144; 0x80 + c / 4096 mod 64; 0x80 + c / 64 mod 64; 0x80 + c mod 64].

Definition utf8 (s : str) : list Z := s ≫= utf8_char.

Definition between (a b x : Z) : bool := (a <=? x) && (x <=? b).

Fixpoint from_utf8 (bs : list Z) : option str :=
  match bs with
  | [] => Some []
  | b0 :: r0 =>
    if between 0 0x7F b0 then cons b0 <$> from_utf8 r0
    else match r0 with
    | [] => None
    | b1 :: r1 =>
      if between 0xC2 0xDF b0 then
        if between 0x80 0xBF b1
        then cons ((b0 - 0xC0) * 64 + (b1 - 0x80)) <$> from_utf8 r1
        else None
      else match r1 with
      | [] => None
      | b2 :: r2 =>
        if between 0xE0 0xEF b0 then
          if between (if b0 =? 0xE0 then 0xA0 else 0x80) (if b0 =? 0xED then 0x9F else 0xBF) b1
             && between 0x80 0xBF b2
          then cons ((b0 - 0xE0) * 4096 + (b1 - 0x80) * 64 + (b2 - 0x80)) <$> from_utf8 r2
          else None
        else match r2 with
        | [] => None
        | b3 :: r3 =>
          if between 0xF0 0xF4 b0
             && between (if b0 =? 0xF0 then 0x90 else 0x80) (if b0 =? 0xF4 then 0x8F else 0xBF) b1
             && between 0x80 0xBF b2 && between 0x80 0xBF b3
          then cons ((b0 - 0xF0) * 262144 + (b1 - 0x80) * 4096 + (b2 - 0x80) * 64 + (b3 - 0x80))
                 <$> from_utf8 r3
          else None
        end
      end
    end
  end.

(** [str::len] counts bytes. *)
Definition str_len (s : str) : Z := zlen (utf8 s).

(** ** Searching and splitting *)
Fixpoint starts_with (p s : str) : bool :=
  match p, s with
  | [], _ => true
  | _ :: _, [] => false
  | a :: p', b :: s' => (a =? b) && starts_with p' s'
  end.

Definition ends_with (p s : str) : bool := starts_with (reverse p) (reverse s).

Fixpoint contains (p s : str) : bool :=
  starts_with p s || match s with [] => false | _ :: s' => contains p s' end.

Definition contains_char (c : char) (s : str) : bool := existsb (Z.eqb c) s.

(** [s.split(c)]: never empty. *)
Fixpoint split_on (c : char) (s : str) : list str :=
  match s with
  | [] => [[]]
  | x :: s' =>
    if x =? c then [] :: split_on c s'
    else match split_on c s' with
         | h :: t => (x :: h) :: t
         | [] => [[x]]
         end
  end.

Fixpoint join (sep : str) (parts : list str) : str :=
  match parts with
  | [] => []
  | [p] => p
  | p :: ps => p ++ sep ++ join sep ps
  end.

(** [s.rsplit_once(c)] *)
Fixpoint rsplit_once (c : char) (s : str) : option (str * str) :=
  match s with
  | [] => None
  | x :: s' =>
    match rsplit_once c s' with
    | Some (h, t) => Some (x :: h, t)
    | None => if x =? c then Some ([], s') else None
    end
  end.

(** [s.split_once(c)] *)
Fixpoint split_once (c : char) (s : str) : option (str * str) :=
  match s with
  | [] => None
  | x :: s' =>
    if x =? c then Some ([], s')
    else match split_once c s' with
         | Some (h, t) => Some (x :: h, t)
         | None => None
         end
  end.

(** [s.trim_start_matches(p)]: every leading copy of [p] goes. *)
Fixpoint trim_start_matches_fuel (fuel : nat) (p s : str) : str :=
  match fuel with
  | O => s
  | S fuel' => if starts_with p s then trim_start_matches_fuel fuel' p (drop (length p) s) else s
  end.
Definition trim_start_matches (p s : str) : str := trim_start_matches_fuel (length s) p s.

(** [s.trim_end_matches(c)] *)
Fixpoint drop_while_char (c : char) (s : str) : str :=
  match s with
  | x :: s' => if x =? c then drop_while_char c s' else s
  | [] => []
  end.
Definition trim_end_matches (c : char) (s : str) : str := reverse (drop_while_char c (reverse s)).

(** [s.strip_suffix(p)] *)
Definition strip_suffix (p s : str) : option str :=
  if ends_with p s then Some (take (length s - length p) s) else None.

Definition is_whitespace (c : char) : bool :=
  between 9 13 c || (c =? 32) || (c =? 0x85) || (c =? 0xA0) || (c =? 0x1680)
  || between 0x2000 0x200A c || between 0x2028 0x2029 c || (c =? 0x202F)
  || (c =? 0x205F) || (c =? 0x3000).

Fixpoint trim_start (s : str) : str :=
  match s with
  | c :: s' => if is_whitespace c then trim_start s' else s
  | [] => []
  end.
Definition trim_end (s : str) : str := reverse (trim_start (reverse s)).
Definition trim (s : str) : str := trim_end (trim_start s).

Definition to_ascii_lowercase_char (c : char) : char := if between 65 90 c then c + 32 else c.
Definition to_ascii_lowercase (s : str) : str := map to_ascii_lowercase_char s.
Definition to_ascii_uppercase (s : str) : str := map (fun c => if between 97 122 c then c - 32 else c) s.
(** [str::to_lowercase], with the case mapping outside ASCII. *)
Class UnicodeLib : Type := { to_lowercase : str -> str; to_uppercase : str -> str }.
Definition eq_ignore_ascii_case (a b : str) : bool :=
  bool_decide (to_ascii_lowercase a = to_ascii_lowercase b).

(** ** Unsigned integers *)
Definition digit (c : char) : option Z := if between 48 57 c then Some (c - 48) else None.

Fixpoint parse_digits (w acc : Z) (s : str) : option Z :=
  match s with
  | [] => Some acc
  | c :: s' =>
    match digit c with
    | Some d =>
      let acc' := acc * 10 + d in
      if acc' <? 2 ^ w then parse_digits w acc' s' else None
    | None => None
    end
  end.

(** [s.parse::<uW>()]: an optional [+], then at least one digit. *)
Definition parse_uint (w : Z) (s : str) : option Z :=
  match s with
  | [] => None
  | c :: s' =>
    if c =? 43 then match s' with [] => None | _ => parse_digits w 0 s' end
    else parse_digits w 0 s
  end.

Fixpoint dec_fuel (fuel : nat) (z : Z) : str :=
  match fuel with
  | O => []
  | S f => if z <? 10 then [48 + z] else dec_fuel f (z / 10) ++ [48 + z mod 10]
  end.
(** [z.to_string()] for an unsigned [z]: [log2 z + 1] steps are enough,
    since each step at least halves [z]. *)
Definition dec (z : Z) : str := dec_fuel (S (Z.to_nat (Z.log2 z))) z.

(** * Lemmas *)

Ltac case_between :=
  repeat match goal with
  | |- context [between ?a ?b ?x] =>
      let H := fresh "Hb" in
      destruct (between a b x) eqn:H; unfold between in H; simpl in *
  end.

Lemma between_iff a b x : between a b x = true <-> a <= x <= b.
Proof. unfold between. lia. Qed.
Lemma between_false a b x : between a b x = false <-> ~ (a <= x <= b).
Proof. unfold between. lia. Qed.

Lemma utf8_cons c s : utf8 (c :: s) = utf8_char c ++ utf8 s.
Proof. done. Qed.
Lemma utf8_app s t : utf8 (s ++ t) = utf8 s ++ utf8 t.
Proof. apply bind_app. Qed.

Ltac to_eucl := Z.to_euclidean_division_equations; lia.

Lemma from_utf8_char c bs :
  scalar c -> from_utf8 (utf8_char c ++ bs) = cons c <$> from_utf8 bs.
Proof.
  intros Hc. unfold scalar in Hc. unfold utf8_char.
  destruct (Z.ltb_spec c 0x80) as [H1|H1].
  { simpl. replace (between 0 0x7F c) with true by (unfold between; lia). done. }
  destruct (Z.ltb_spec c 0x800) as [H2|H2].
  { simpl.
    replace (between 0 0x7F (0xC0 + c / 64)) with false by (unfold between; to_eucl).
    replace (between 0xC2 0xDF (0xC0 + c / 64)) with true by (unfold between; to_eucl).
    replace (between 0x80 0xBF (0x80 + c mod 64)) with true by (unfold between; to_eucl).
    do 2 f_equal. to_eucl. }
  destruct (Z.ltb_spec c 0x10000) as [H3|H3].
  { simpl.
    replace (between 0 0x7F (0xE0 + c / 4096)) with false by (unfold between; to_eucl).
    replace (between 0xC2 0xDF (0xE0 + c / 4096)) with false by (unfold between; to_eucl).
    replace (between 0xE0 0xEF (0xE0 + c / 4096)) with true by (unfold between; to_eucl).
    replace (between 0x80 0xBF (0x80 + c mod 64)) with true by (unfold between; to_eucl).
    rewrite (proj2 (between_iff _ _ _)).
    { simpl. do 2 f_equal. to_eucl. }
    destruct (Z.eqb_spec (0xE0 + c / 4096) 0xE0), (Z.eqb_spec (0xE0 + c / 4096) 0xED);
      to_eucl. }
  simpl.
  replace (between 0 0x7F (0xF0 + c / 262144)) with false by (unfold between; to_eucl).
  replace (between 0xC2 0xDF (0xF0 + c / 262144)) with false by (unfold between; to_eucl).
  replace (between 0xE0 0xEF (0xF0 + c / 262144)) with false by (unfold between; to_eucl).
  replace (between 0xF0 0xF4 (0xF0 + c / 262144)) with true by (unfold between; to_eucl).
  replace (between 0x80 0xBF (0x80 + c / 64 mod 64)) with true by (unfold between; to_eucl).
  replace (between 0x80 0xBF (0x80 + c mod 64)) with true by (unfold between; to_eucl).
  rewrite (proj2 (between_iff _ _ (0x80 + c / 4096 mod 64))).
  { simpl. do 2 f_equal. to_eucl. }
  destruct (Z.eqb_spec (0xF0 + c / 262144) 0xF0), (Z.eqb_spec (0xF0 + c / 262144) 0xF4);
    to_eucl.
Qed.

Lemma from_utf8_utf8 s : Forall scalar s -> from_utf8 (utf8 s) = Some s.
Proof.
  induction 1 as [|c s Hc _ IH]; [done|].
  by rewrite utf8_cons, from_utf8_char, IH.
Qed.

Lemma from_utf8_inv bs s : from_utf8 bs = Some s -> utf8 s = bs /\ Forall scalar s.
Proof.
  remember (length bs) as n eqn:Hn. revert bs s Hn.
  induction (lt_wf n) as [n _ IH]. intros bs s -> H.
  assert (forall c r s', cons c s' = s -> length r < length bs -> from_utf8 r = Some s' ->
    scalar c -> bs = utf8_char c ++ r -> utf8 s = bs /\ Forall scalar s)%nat as Hstep.
  { intros c r s' <- Hlt Hr Hc Hbs. destruct (IH _ Hlt r s' eq_refl Hr) as [<- Hs].
    split; [by rewrite utf8_cons|by constructor]. }
  destruct bs as [|b0 r0]; simpl in H; [simplify_eq; done|].
  destruct (between 0 0x7F b0) eqn:E0.
  { apply between_iff in E0. destruct (from_utf8 r0) eqn:Er; simplify_eq/=.
    eapply (Hstep b0 r0); [done|simpl; lia|done|unfold scalar; lia|].
    unfold utf8_char. by rewrite (proj2 (Z.ltb_lt _ _)) by lia. }
  destruct r0 as [|b1 r1]; [done|].
  destruct (between 0xC2 0xDF b0) eqn:E1.
  { destruct (between 0x80 0xBF b1) eqn:E2; [|done].
    apply between_iff in E1. apply between_iff in E2.
    destruct (from_utf8 r1) eqn:Er; simplify_eq/=.
    eapply (Hstep _ r1); [done|simpl; lia|done|unfold scalar; lia|].
    unfold utf8_char. rewrite (proj2 (Z.ltb_ge _ 0x80)) by lia.
    rewrite (proj2 (Z.ltb_lt _ _)) by lia.
    simpl. f_equal; [to_eucl|f_equal; to_eucl]. }
  destruct r1 as [|b2 r2]; [done|].
  destruct (between 0xE0 0xEF b0) eqn:E2.
  { destruct (_ && _) eqn:E3; [|done]. apply andb_true_iff in E3 as [E3 E4].
    apply between_iff in E2, E3, E4.
    destruct (from_utf8 r2) eqn:Er; simplify_eq/=.
    assert (0x80 <= b1 <= 0xBF /\ (b0 = 0xE0 -> 0xA0 <= b1) /\ (b0 = 0xED -> b1 <= 0x9F))
      as (Hb1 & Hb2 & Hb3)
      by (destruct (Z.eqb_spec b0 0xE0), (Z.eqb_spec b0 0xED); lia).
    clear E3. eapply (Hstep _ r2); [done|simpl; lia|done|unfold scalar; lia|].
    unfold utf8_char. rewrite (proj2 (Z.ltb_ge _ 0x80)) by lia.
    rewrite (proj2 (Z.ltb_ge _ 0x800)) by lia.
    rewrite (proj2 (Z.ltb_lt _ _)) by lia.
    simpl. f_equal; [to_eucl|f_equal; [to_eucl|f_equal; to_eucl]]. }
  destruct r2 as [|b3 r3]; [done|].
  destruct (_ && _) eqn:E3; [|done]. rewrite !andb_true_iff in E3.
  destruct E3 as [[[E3 E4] E5] E6]. apply between_iff in E3, E4, E5, E6.
  destruct (from_utf8 r3) eqn:Er; simplify_eq/=.
  assert (0x80 <= b1 <= 0xBF /\ (b0 = 0xF0 -> 0x90 <= b1) /\ (b0 = 0xF4 -> b1 <= 0x8F)) as (Hb1 & Hb2 & Hb3)
    by (destruct (Z.eqb_spec b0 0xF0), (Z.eqb_spec b0 0xF4); lia).
  clear E4. eapply (Hstep _ r3); [done|simpl; lia|done|unfold scalar; lia|].
  unfold utf8_char. rewrite (proj2 (Z.ltb_ge _ 0x80)) by lia.
  rewrite (proj2 (Z.ltb_ge _ 0x800)) by lia.
  rewrite (proj2 (Z.ltb_ge _ 0x10000)) by lia.
  simpl. f_equal; [to_eucl|f_equal; [to_eucl|f_equal; [to_eucl|f_equal; to_eucl]]].
Qed.

Lemma utf8_char_u8 c : scalar c -> Forall u8 (utf8_char c).
Proof.
  unfold scalar, utf8_char, in_width. change (2 ^ 8) with 256. intros H.
  repeat case_match; repeat constructor; to_eucl.
Qed.
Lemma utf8_u8 s : Forall scalar s -> Forall u8 (utf8 s).
Proof.
  induction 1; [constructor|]. rewrite utf8_cons. apply Forall_app; auto using utf8_char_u8.
Qed.

(** ASCII strings are their own UTF-8 encoding. *)
Definition ascii (c : Z) : Prop := 0 <= c < 128.
Lemma utf8_ascii s : Forall ascii s -> utf8 s = s.
Proof.
  induction 1 as [|c s Hc _ IH]; [done|]. rewrite utf8_cons, IH. unfold utf8_char, ascii in *.
  by rewrite (proj2 (Z.ltb_lt _ _)) by lia.
Qed.
Lemma ascii_scalar c : ascii c -> scalar c.
Proof. unfold ascii, scalar. lia. Qed.

(** ** Splitting *)
Lemma split_on_nonempty c s : split_on c s <> [].
Proof. destruct s; simpl; repeat case_match; done. Qed.

Lemma join_split_on c s : join [c] (split_on c s) = s.
Proof.
  induction s as [|x s IH]; [done|]. simpl.
  pose proof (split_on_nonempty c s). destruct (Z.eqb_spec x c) as [->|].
  - destruct (split_on c s) eqn:E; [done|]. simpl in *. by rewrite <- IH.
  - destruct (split_on c s) as [|h [|h' t]]; [done| |]; simpl in *; congruence.
Qed.

Lemma split_on_no_sep c s : Forall (Forall (.≠ c)) (split_on c s).
Proof.
  induction s as [|x s IH]; simpl; [repeat constructor|].
  destruct (Z.eqb_spec x c); [by repeat constructor|].
  destruct (split_on c s); [by repeat constructor|]. inv IH. by repeat constructor.
Qed.

Lemma split_on_single c s : Forall (.≠ c) s -> split_on c s = [s].
Proof.
  induction 1 as [|x s Hx _ IH]; [done|]. simpl.
  rewrite (proj2 (Z.eqb_neq _ _)) by done. by rewrite IH.
Qed.

Lemma split_on_app_sep c p s :
  Forall (.≠ c) p -> split_on c (p ++ c :: s) = p :: split_on c s.
Proof.
  induction 1 as [|x p Hx _ IH]; simpl.
  - by rewrite Z.eqb_refl.
  - rewrite (proj2 (Z.eqb_neq _ _)) by done. by rewrite IH.
Qed.

Lemma split_on_join c parts :
  parts <> [] -> Forall (Forall (.≠ c)) parts -> split_on c (join [c] parts) = parts.
Proof.
  intros Hne. induction parts as [|p ps IH]; [done|]. intros Hall. inv Hall.
  destruct ps as [|p' ps]; [by apply split_on_single|].
  change (join [c] (p :: p' :: ps)) with (p ++ c :: join [c] (p' :: ps)).
  rewrite split_on_app_sep by done. by rewrite IH.
Qed.

Lemma rsplit_once_none c s : Forall (.≠ c) s -> rsplit_once c s = None.
Proof.
  induction 1 as [|x s Hx _ IH]; [done|]. simpl. rewrite IH.
  by rewrite (proj2 (Z.eqb_neq _ _)).
Qed.
Lemma rsplit_once_app c h t :
  Forall (.≠ c) t -> rsplit_once c (h ++ c :: t) = Some (h, t).
Proof.
  intros Ht. induction h as [|x h IH]; simpl.
  - by rewrite rsplit_once_none, Z.eqb_refl.
  - by rewrite IH.
Qed.

Lemma contains_char_app c a b : contains_char c (a ++ c :: b) = true.
Proof.
  unfold contains_char. rewrite existsb_app. cbn [existsb]. rewrite Z.eqb_refl.
  apply orb_true_r.
Qed.

Lemma starts_with_spec p s : starts_with p s = true <-> p `prefix_of` s.
Proof.
  revert s. induction p as [|a p IH]; intros [|b s]; simpl.
  - split; [by intros; exists []|done].
  - split; [by intros; exists (b :: s)|done].
  - split; [done|]. intros [k ?]; done.
  - rewrite andb_true_iff, Z.eqb_eq, IH. split.
    + intros [-> ?]. by apply prefix_cons.
    + intros ?. split; [by eapply prefix_cons_inv_1|by eapply prefix_cons_inv_2].
Qed.
Lemma ends_with_spec p s : ends_with p s = true <-> p `suffix_of` s.
Proof.
  unfold ends_with. rewrite starts_with_spec. by rewrite suffix_prefix_reverse.
Qed.
Lemma contains_spec p s : contains p s = true <-> exists l r, s = l ++ p ++ r.
Proof.
  induction s as [|x s IH]; simpl.
  - rewrite orb_false_r, starts_with_spec. split.
    + intros [k ?]. by exists [], k.
    + intros (l & r & H). destruct l; [|done]. by exists r.
  - rewrite orb_true_iff, starts_with_spec, IH. split.
    + intros [[k ->]|(l & r & ->)]; [by exists [], k|by exists (x :: l), r].
    + intros ([|y l] & r & H); [left; by exists r|right]. simplify_eq/=. eauto.
Qed.

(** ** Decimal printing and parsing *)
Lemma parse_digits_app w acc s t :
  parse_digits w acc (s ++ t) = parse_digits w acc s ≫= fun a => parse_digits w a t.
Proof.
  revert acc. induction s as [|c s IH]; intros acc; [done|]. simpl.
  destruct (digit c); [|done]. case_match; [apply IH|done].
Qed.

Lemma digit_of z : 0 <= z < 10 -> digit (48 + z) = Some z.
Proof. intros. unfold digit. rewrite (proj2 (between_iff _ _ _)) by lia. f_equal. lia. Qed.

Definition is_digit (c : Z) : Prop := 48 <= c <= 57.

Lemma dec_fuel_spec w f z :
  0 < w -> 0 <= z < 2 ^ w -> z < 2 ^ Z.of_nat (S f) ->
  parse_digits w 0 (dec_fuel (S f) z) = Some z.
Proof.
  intros Hw. revert z. induction f as [|f IH]; intros z Hz Hf.
  - change (2 ^ Z.of_nat 1) with 2 in Hf.
    replace (dec_fuel 1 z) with [48 + z] by (simpl; by rewrite (proj2 (Z.ltb_lt _ _)) by lia).
    simpl. rewrite digit_of by lia. by rewrite (proj2 (Z.ltb_lt _ _)) by lia.
  - change (dec_fuel (S (S f)) z)
      with (if z <? 10 then [48 + z] else dec_fuel (S f) (z / 10) ++ [48 + z mod 10]).
    destruct (Z.ltb_spec z 10).
    { simpl. rewrite digit_of by lia. by rewrite (proj2 (Z.ltb_lt _ _)) by lia. }
    rewrite (Nat2Z.inj_succ (S f)), Z.pow_succ_r in Hf by lia.
    rewrite parse_digits_app, IH by to_eucl. simpl.
    rewrite digit_of by to_eucl. rewrite (proj2 (Z.ltb_lt _ _)) by to_eucl.
    f_equal. to_eucl.
Qed.

Lemma dec_fuel_digits f z : 0 <= z -> Forall is_digit (dec_fuel f z).
Proof.
  revert z. induction f as [|f IH]; intros z Hz; simpl; [constructor|].
  destruct (Z.ltb_spec z 10); [repeat constructor; unfold is_digit; lia|].
  apply Forall_app. split; [apply IH; to_eucl|]. repeat constructor; unfold is_digit; to_eucl.
Qed.

Lemma dec_digits z : 0 <= z -> Forall is_digit (dec z).
Proof. apply dec_fuel_digits. Qed.
Lemma dec_nonempty z : dec z <> [].
Proof. unfold dec. simpl. case_match; [done|]. by destruct (dec_fuel _ _). Qed.

Lemma dec_bound z : 0 <= z -> z < 2 ^ Z.of_nat (S (Z.to_nat (Z.log2 z))).
Proof.
  intros. rewrite Nat2Z.inj_succ, Z2Nat.id by apply Z.log2_nonneg.
  destruct (Z.eq_dec z 0) as [->|]; [by vm_compute|]. apply Z.log2_spec; lia.
Qed.

(** Printing an unsigned integer and parsing it back is the identity. *)
Lemma parse_uint_dec w z : 0 < w -> in_width w z -> parse_uint w (dec z) = Some z.
Proof.
  intros Hw Hz. pose proof (dec_nonempty z). pose proof (dec_digits z (proj1 Hz)) as Hd.
  unfold parse_uint. destruct (dec z) as [|c s] eqn:E; [done|]. inv Hd.
  rewrite (proj2 (Z.eqb_neq _ _)) by (unfold is_digit in *; lia). rewrite <- E.
  apply dec_fuel_spec; [done..|]. apply dec_bound, Hz.
Qed.

Lemma dec_inj a b : 0 <= a -> 0 <= b -> dec a = dec b -> a = b.
Proof.
  intros Ha Hb E. set (w := Z.log2 a + Z.log2 b + 1).
  pose proof (Z.log2_nonneg a). pose proof (Z.log2_nonneg b).
  assert (forall z, 0 <= z -> Z.log2 z < w -> in_width w z) as Hw.
  { intros z ??. split; [done|]. destruct (Z.eq_dec z 0) as [->|]; [by apply Z.pow_pos_nonneg; lia|].
    apply Z.log2_lt_pow2; lia. }
  assert (parse_uint w (dec a) = Some a) by (apply parse_uint_dec; [lia|apply Hw; lia]).
  assert (parse_uint w (dec b) = Some b) by (apply parse_uint_dec; [lia|apply Hw; lia]).
  congruence.
Qed.

(** ** More on splitting *)
Lemma split_on_app c x y : split_on c (x ++ c :: y) = split_on c x ++ split_on c y.
Proof.
  induction x as [|a x IH]; simpl.
  - by rewrite Z.eqb_refl.
  - destruct (a =? c); [by rewrite IH|]. rewrite IH.
    pose proof (split_on_nonempty c x). by destruct (split_on c x).
Qed.

Lemma join_app c ps qs :
  ps <> [] -> qs <> [] -> join [c] (ps ++ qs) = join [c] ps ++ c :: join [c] qs.
Proof.
  intros Hp Hq. induction ps as [|p ps IH]; [done|]. destruct ps as [|p' ps].
  - by destruct qs.
  - change ((p :: p' :: ps) ++ qs) with (p :: (p' :: ps) ++ qs).
    change (join [c] (p :: (p' :: ps) ++ qs)) with (p ++ c :: join [c] ((p' :: ps) ++ qs)).
    rewrite IH by done. change (join [c] (p :: p' :: ps)) with (p ++ c :: join [c] (p' :: ps)).
    by rewrite <- app_assoc.
Qed.

Lemma split_on_inj c x y : split_on c x = split_on c y -> x = y.
Proof. intros H. by rewrite <- (join_split_on c x), <- (join_split_on c y), H. Qed.

(** [y] is a dot-suffix of [x] exactly when its parts are a proper suffix. *)
Lemma split_on_suffix c x y :
  (exists ps, ps <> [] /\ split_on c x = ps ++ split_on c y) <-> (c :: y) `suffix_of` x.
Proof.
  split.
  - intros (ps & Hne & H). exists (join [c] ps).
    rewrite <- (join_split_on c x), H, join_app by (done || apply split_on_nonempty).
    by rewrite join_split_on.
  - intros [k ->]. exists (split_on c k). split; [apply split_on_nonempty|apply split_on_app].
Qed.

Lemma str_len_app x y : str_len (x ++ y) = str_len x + str_len y.
Proof. unfold str_len, zlen. rewrite utf8_app, length_app. lia. Qed.
Lemma utf8_char_len c : (1 <= length (utf8_char c))%nat.
Proof. unfold utf8_char. repeat case_match; simpl; lia. Qed.
Lemma str_len_pos c s : 1 <= str_len (c :: s).
Proof.
  unfold str_len, zlen. rewrite utf8_cons, length_app. pose proof (utf8_char_len c). lia.
Qed.
Lemma str_len_nil_inv s : str_len s = 0 -> s = [].
Proof. destruct s as [|c s]; [done|]. pose proof (str_len_pos c s). lia. Qed.

(** Only the character [.] ends in the byte 46. *)
Lemma utf8_last_byte x c :
  exists pre b, utf8 (x ++ [c]) = pre ++ [b] /\ (b = 46 <-> c = 46).
Proof.
  assert (exists pre b, utf8_char c = pre ++ [b] /\ (b = 46 <-> c = 46)) as (pre & b & E & Hb).
  { unfold utf8_char. destruct (Z.ltb_spec c 0x80); [by exists [], c|].
    destruct (Z.ltb_spec c 0x800);
      [exists [0xC0 + c / 64], (0x80 + c mod 64); split; [done|to_eucl]|].
    destruct (Z.ltb_spec c 0x10000).
    - exists [0xE0 + c / 4096; 0x80 + c / 64 mod 64], (0x80 + c mod 64). split; [done|to_eucl].
    - exists [0xF0 + c / 262144; 0x80 + c / 4096 mod 64; 0x80 + c / 64 mod 64], (0x80 + c mod 64).
      split; [done|to_eucl]. }
  exists (utf8 x ++ pre), b. split; [|done].
  rewrite utf8_app, utf8_cons, E, <- !app_assoc. simpl. done.
Qed.
