(* ===== verification/Net.v ===== *)
(** * Network addresses

    [std::net] as the modelled code uses it: addresses, their textual
    syntax (Rust's [core::net::parser] and the [Display] instances), and the
    interfaces of the third-party crates the program uses for CIDR blocks
    ([ipnet], a class with the laws its documentation states). *)

From S2P Require Import Prelude Str.

(** An [Ipv4Addr] is a [u32], an [Ipv6Addr] a [u128] (both in host order of
    their big-endian octets). *)
Inductive IpAddr : Type :=
| V4 (a : Z)
| V6 (a : Z).

#[global] Instance ipaddr_eq_dec : EqDecision IpAddr.
Proof. solve_decision. Defined.
#[global] Instance ipaddr_countable : Countable IpAddr.
Proof.
  refine (inj_countable' (fun ip => match ip with V4 a => (false, a) | V6 a => (true, a) end)
            (fun p => match p with (false, a) => V4 a | (true, a) => V6 a end) _).
  by intros [].
Defined.

Definition wf_ip (ip : IpAddr) : Prop :=
  match ip with V4 a => u32 a | V6 a => u128 a end.
#[global] Instance wf_ip_dec ip : Decision (wf_ip ip).
Proof. destruct ip; apply _. Defined.

Definition is_ipv4 (ip : IpAddr) : bool := match ip with V4 _ => true | V6 _ => false end.

(** Derived order on [IpAddr]: all of V4 is below all of V6. *)
Definition ip_ltb (x y : IpAddr) : bool :=
  match x, y with
  | V4 a, V4 b => a <? b
  | V4 _, V6 _ => true
  | V6 _, V4 _ => false
  | V6 a, V6 b => a <? b
  end.

(** [Ipv6Addr::to_ipv4_mapped]: [::ffff:a.b.c.d]. *)
Definition to_ipv4_mapped (a : Z) : option Z :=
  if Z.shiftr a 32 =? 0xffff then Some (wrap 32 a) else None.

Inductive SocketAddr : Type :=
| SV4 (ip : Z) (port : Z)
| SV6 (ip : Z) (port : Z) (flowinfo scope_id : Z).
#[global] Instance socketaddr_eq_dec : EqDecision SocketAddr.
Proof. solve_decision. Defined.

Definition sa_ip (a : SocketAddr) : IpAddr :=
  match a with SV4 ip _ => V4 ip | SV6 ip _ _ _ => V6 ip end.
Definition sa_port (a : SocketAddr) : Z :=
  match a with SV4 _ p => p | SV6 _ p _ _ => p end.
(** [SocketAddr::new]: flow info and scope are zero. *)
Definition sa_new (ip : IpAddr) (port : Z) : SocketAddr :=
  match ip with V4 a => SV4 a port | V6 a => SV6 a port 0 0 end.
Definition wf_sa (a : SocketAddr) : Prop :=
  match a with
  | SV4 ip p => u32 ip /\ u16 p
  | SV6 ip p f s => u128 ip /\ u16 p /\ u32 f /\ u32 s
  end.

(** ** Parsing *)
Definition parser (A : Type) : Type := str -> option (A * str).

Definition read_given_char (c : char) : parser unit := fun s =>
  match s with x :: s' => if x =? c then Some (tt, s') else None | [] => None end.

Definition to_digit (radix : Z) (c : char) : option Z :=
  let d := if between 48 57 c then c - 48
           else if between 97 122 c then c - 87
           else if between 65 90 c then c - 55 else radix in
  if d <? radix then Some d else None.

Fixpoint read_digits_max (radix : Z) (max : nat) (acc : Z) (cnt : nat) (s : str) :
    option (Z * nat * str) :=
  match s with
  | c :: s' =>
    match to_digit radix c with
    | Some d => if decide (max < S cnt)%nat then None
                else read_digits_max radix max (acc * radix + d) (S cnt) s'
    | None => Some (acc, cnt, s)
    end
  | [] => Some (acc, cnt, [])
  end.

Fixpoint read_digits_checked (radix w acc : Z) (cnt : nat) (s : str) :
    option (Z * nat * str) :=
  match s with
  | c :: s' =>
    match to_digit radix c with
    | Some d => if acc * radix + d <? 2 ^ w
                then read_digits_checked radix w (acc * radix + d) (S cnt) s'
                else None
    | None => Some (acc, cnt, s)
    end
  | [] => Some (acc, cnt, [])
  end.

(** [Parser::read_number] for a [w]-bit type. *)
Definition read_number (w radix : Z) (max_digits : option nat) (allow_zero_prefix : bool) :
    parser Z := fun s =>
  let has_leading_zero := match s with c :: _ => c =? 48 | [] => false end in
  match (match max_digits with
         | Some m => read_digits_max radix m 0 0 s
         | None => read_digits_checked radix w 0 0 s
         end) with
  | None => None
  | Some (acc, cnt, s') =>
    if (cnt =? 0)%nat then None
    else if negb allow_zero_prefix && has_leading_zero && (1 <? cnt)%nat then None
    else if acc <? 2 ^ w then Some (acc, s') else None
  end.

Definition read_separator {A} (sep : char) (index : nat) (inner : parser A) : parser A := fun s =>
  match index with
  | O => inner s
  | S _ => '(_, s') ← read_given_char sep s; inner s'
  end.

Definition read_ipv4_addr : parser Z := fun s =>
  '(a, s) ← read_separator 46 0 (read_number 8 10 (Some 3%nat) false) s;
  '(b, s) ← read_separator 46 1 (read_number 8 10 (Some 3%nat) false) s;
  '(c, s) ← read_separator 46 2 (read_number 8 10 (Some 3%nat) false) s;
  '(d, s) ← read_separator 46 3 (read_number 8 10 (Some 3%nat) false) s;
  Some (be_val [a; b; c; d], s).

(** [read_groups] with [k] slots left, at slot [i]; the groups read, whether
    they end in an embedded IPv4 address, and the rest of the input. *)
Fixpoint read_groups (k i : nat) (s : str) : list Z * bool * str :=
  match k with
  | O => ([], false, s)
  | S k' =>
    let v4 := match k' with
              | O => None
              | S _ => read_separator 58 i read_ipv4_addr s
              end in
    match v4 with
    | Some (a, s') => ([Z.shiftr a 16; wrap 16 a], true, s')
    | None =>
      match read_separator 58 i (read_number 16 16 (Some 4%nat) true) s with
      | Some (g, s') =>
        let '(gs, f, s'') := read_groups k' (S i) s' in (g :: gs, f, s'')
      | None => ([], false, s)
      end
    end
  end.

Definition ip6_of_segments (gs : list Z) : Z := foldl (fun acc g => acc * 65536 + g) 0 gs.

Definition read_ipv6_addr : parser Z := fun s =>
  let '(head, head_ipv4, s1) := read_groups 8 0 s in
  if (length head =? 8)%nat then Some (ip6_of_segments head, s1)
  else if (head_ipv4 : bool) then None
  else
    '(_, s2) ← read_given_char 58 s1;
    '(_, s3) ← read_given_char 58 s2;
    let '(tail, _, s4) := read_groups (8 - (length head + 1)) 0 s3 in
    Some (ip6_of_segments (head ++ replicate (8 - length head - length tail) 0 ++ tail), s4).

Definition read_ip_addr : parser IpAddr := fun s =>
  match read_ipv4_addr s with
  | Some (a, s') => Some (V4 a, s')
  | None => '(a, s') ← read_ipv6_addr s; Some (V6 a, s')
  end.

Definition read_port : parser Z := fun s =>
  '(_, s) ← read_given_char 58 s; read_number 16 10 None true s.

Definition read_socket_addr_v4 : parser SocketAddr := fun s =>
  '(ip, s) ← read_ipv4_addr s; '(p, s) ← read_port s; Some (SV4 ip p, s).

Definition read_scope_id : parser Z := fun s =>
  '(_, s) ← read_given_char 37 s; read_number 32 10 None true s.

Definition read_socket_addr_v6 : parser SocketAddr := fun s =>
  '(_, s) ← read_given_char 91 s;
  '(ip, s) ← read_ipv6_addr s;
  let '(sc, s) := default (0, s) (read_scope_id s) in
  '(_, s) ← read_given_char 93 s;
  '(p, s) ← read_port s;
  Some (SV6 ip p 0 sc, s).

Definition parse_with {A} (p : parser A) (s : str) : option A :=
  match p s with Some (a, []) => Some a | _ => None end.

(** [s.parse::<IpAddr>()] and [s.parse::<SocketAddr>()]. *)
Definition parse_ip (s : str) : option IpAddr := parse_with read_ip_addr s.
Definition parse_socket_addr (s : str) : option SocketAddr :=
  parse_with (fun s => match read_socket_addr_v4 s with
                       | Some r => Some r
                       | None => read_socket_addr_v6 s
                       end) s.

(** ** Printing *)
Definition show_ipv4 (a : Z) : str := join [46] (map dec (be_bytes 4 a)).

Definition segments (a : Z) : list Z :=
  map (fun i => wrap 16 (Z.shiftr a (16 * i))) [7; 6; 5; 4; 3; 2; 1; 0].

Definition hex_digit (d : Z) : char := if d <? 10 then 48 + d else 87 + d.
(** [{:x}] of a [u16]. *)
Definition show_hex16 (z : Z) : str :=
  let ds := [Z.shiftr z 12; wrap 4 (Z.shiftr z 8); wrap 4 (Z.shiftr z 4); wrap 4 z] in
  let fix strip (ds : list Z) : list Z :=
    match ds with
    | d :: ((_ :: _) as r) => if d =? 0 then strip r else ds
    | _ => ds
    end in
  map hex_digit (strip ds).

(** The first longest run of zero segments, as (start, length). *)
Fixpoint zero_span (i : nat) (longest current : nat * nat) (gs : list Z) : nat * nat :=
  match gs with
  | [] => longest
  | g :: gs' =>
    if g =? 0 then
      let current := if (current.2 =? 0)%nat then (i, 1%nat) else (current.1, S current.2) in
      let longest := if (longest.2 <? current.2)%nat then current else longest in
      zero_span (S i) longest current gs'
    else zero_span (S i) longest (0%nat, 0%nat) gs'
  end.

Definition show_ipv6 (a : Z) : str :=
  match to_ipv4_mapped a with
  | Some v4 => lit "::ffff:" ++ show_ipv4 v4
  | None =>
    let gs := segments a in
    let '(st, len) := zero_span 0 (0%nat, 0%nat) (0%nat, 0%nat) gs in
    if (1 <? len)%nat
    then join [58] (map show_hex16 (take st gs)) ++ [58; 58]
           ++ join [58] (map show_hex16 (drop (st + len) gs))
    else join [58] (map show_hex16 gs)
  end.

Definition show_ip (ip : IpAddr) : str :=
  match ip with V4 a => show_ipv4 a | V6 a => show_ipv6 a end.

Definition show_socket_addr (a : SocketAddr) : str :=
  match a with
  | SV4 ip p => show_ipv4 ip ++ 58 :: dec p
  | SV6 ip p _ sc =>
    [91] ++ show_ipv6 ip ++ (if sc =? 0 then [] else 37 :: dec sc) ++ [93; 58] ++ dec p
  end.

(** ** The [ipnet] crate

    A CIDR block has an address and a prefix length, [IpNet::new] checks the
    length against the family's width, and [contains] compares the first
    [prefix_len] bits within one family. *)
Definition ip_width (ip : IpAddr) : Z := if is_ipv4 ip then 32 else 128.
Definition ip_val (ip : IpAddr) : Z := match ip with V4 a | V6 a => a end.
Definition same_family (x y : IpAddr) : bool := Bool.eqb (is_ipv4 x) (is_ipv4 y).

(** The block [addr/len] contains [ip]. *)
Definition in_block (addr : IpAddr) (len : Z) (ip : IpAddr) : bool :=
  same_family addr ip &&
  (Z.shiftr (ip_val addr) (ip_width addr - len) =? Z.shiftr (ip_val ip) (ip_width addr - len)).

(** The first address of the block. *)
Definition net_of (addr : IpAddr) (len : Z) : IpAddr :=
  let base a h := Z.shiftl (Z.shiftr a h) h in
  match addr with
  | V4 a => V4 (base a (32 - len))
  | V6 a => V6 (base a (128 - len))
  end.

Class IpNetLib : Type := {
  IpNet : Type;
  ipnet_eq_dec :: EqDecision IpNet;
  ipnet_new : IpAddr -> Z -> res IpNet;
  ipnet_addr : IpNet -> IpAddr;
  ipnet_prefix_len : IpNet -> Z;
  ipnet_network : IpNet -> IpAddr;
  ipnet_contains : IpNet -> IpAddr -> bool;
  ipnet_parse : str -> option IpNet;
  ipnet_show : IpNet -> str;
}.

Class IpNetLaws (L : IpNetLib) : Prop := {
  ipnet_new_ok ip len : wf_ip ip -> 0 <= len <= ip_width ip ->
    exists n, ipnet_new ip len = Ok n /\ ipnet_addr n = ip /\ ipnet_prefix_len n = len;
  ipnet_contains_spec n ip :
    ipnet_contains n ip = in_block (ipnet_addr n) (ipnet_prefix_len n) ip;
  ipnet_network_spec n : ipnet_network n = net_of (ipnet_addr n) (ipnet_prefix_len n);
  ipnet_prefix_bounds n : 0 <= ipnet_prefix_len n <= ip_width (ipnet_addr n);
  ipnet_addr_wf n : wf_ip (ipnet_addr n);
}.

(** * Lemmas *)

#[global] Arguments dec : simpl never.
#[global] Arguments read_number : simpl never.
#[global] Arguments show_ipv4 : simpl never.
#[global] Arguments show_ipv6 : simpl never.

(** The decimal value of a digit string. *)
Definition dec_val (ds : list Z) : Z := foldl (fun acc c => acc * 10 + (c - 48)) 0 ds.

Definition no_digit_head (radix : Z) (s : str) : Prop :=
  match s with c :: _ => to_digit radix c = None | [] => True end.

Lemma to_digit_dec c : is_digit c -> to_digit 10 c = Some (c - 48).
Proof.
  unfold is_digit, to_digit. intros. rewrite (proj2 (between_iff _ _ _)) by lia.
  by rewrite (proj2 (Z.ltb_lt _ _)) by lia.
Qed.

Lemma read_digits_max_app max acc cnt ds s :
  Forall is_digit ds -> (cnt + length ds <= max)%nat -> no_digit_head 10 s ->
  read_digits_max 10 max acc cnt (ds ++ s) =
    Some (foldl (fun a c => a * 10 + (c - 48)) acc ds, (cnt + length ds)%nat, s).
Proof.
  intros Hd. revert acc cnt. induction Hd as [|c ds Hc _ IH]; intros acc cnt Hlen Hs.
  - destruct s as [|c s]; simpl in *; [|rewrite Hs]; repeat f_equal; lia.
  - simpl in *. rewrite to_digit_dec by done. rewrite decide_False by lia.
    rewrite IH by (done || lia). do 2 f_equal. f_equal. lia.
Qed.

Lemma read_digits_checked_app w acc cnt ds s v :
  parse_digits w acc ds = Some v -> no_digit_head 10 s ->
  read_digits_checked 10 w acc cnt (ds ++ s) = Some (v, (cnt + length ds)%nat, s).
Proof.
  revert acc cnt. induction ds as [|c ds IH]; intros acc cnt Hp Hs; simpl in *.
  - simplify_eq. destruct s as [|c s]; simpl in *; [|rewrite Hs]; repeat f_equal; lia.
  - unfold digit in Hp. destruct (between 48 57 c) eqn:Hb; [|done].
    apply between_iff in Hb. rewrite to_digit_dec by done.
    destruct (_ <? _); [|done]. rewrite (IH _ (S cnt)) by done. do 2 f_equal. f_equal. lia.
Qed.

(** [dec] of a byte has at most three digits, no redundant leading zero, and
    denotes the byte: checked over the 256 values. *)
Definition octet_ok (z : Z) : bool :=
  bool_decide (length (dec z) <= 3)%nat &&
  negb ((match dec z with c :: _ => c =? 48 | [] => false end) && (1 <? length (dec z))%nat) &&
  bool_decide (dec_val (dec z) = z).
Lemma octet_ok_all : forallb octet_ok (seqZ 0 256) = true.
Proof. vm_compute. reflexivity. Qed.

Lemma u8_octet_ok z : u8 z -> octet_ok z = true.
Proof.
  intros [H0 H1]. change (2 ^ 8) with 256 in H1.
  pose proof octet_ok_all as H. rewrite forallb_forall in H. apply H.
  apply list_elem_of_In, elem_of_seqZ. lia.
Qed.

Lemma read_octet z s :
  u8 z -> no_digit_head 10 s ->
  read_number 8 10 (Some 3%nat) false (dec z ++ s) = Some (z, s).
Proof.
  intros Hz Hs. pose proof (u8_octet_ok z Hz) as Hok. unfold octet_ok in Hok.
  rewrite !andb_true_iff, !bool_decide_eq_true in Hok. destruct Hok as [[Hlen Hlead] Hval].
  unfold read_number. rewrite read_digits_max_app by (done || apply dec_digits; apply Hz).
  pose proof (dec_nonempty z). simpl. fold (dec_val (dec z)). rewrite Hval.
  destruct (dec z) as [|c ds] eqn:E; [done|]. simpl in *.
  rewrite (proj2 (Z.ltb_lt z _)) by (apply Hz).
  by destruct ((c =? 48) && _); [|].
Qed.

Lemma no_digit_head_cons c s : to_digit 10 c = None -> no_digit_head 10 (c :: s).
Proof. done. Qed.

Lemma show_ipv4_bytes a b c d :
  join [46] (map dec [a; b; c; d]) = dec a ++ 46 :: dec b ++ 46 :: dec c ++ 46 :: dec d.
Proof. done. Qed.

Lemma be_bytes_4 a :
  exists b0 b1 b2 b3, be_bytes 4 a = [b0; b1; b2; b3] /\ u8 b0 /\ u8 b1 /\ u8 b2 /\ u8 b3.
Proof.
  pose proof (be_bytes_length 4 a). pose proof (be_bytes_u8 4 a) as H8.
  destruct (be_bytes 4 a) as [|b0 [|b1 [|b2 [|b3 [|? ?]]]]]; try done.
  rewrite !Forall_cons in H8. destruct H8 as (? & ? & ? & ? & _). by exists b0, b1, b2, b3.
Qed.

Lemma read_show_ipv4 a s :
  u32 a -> no_digit_head 10 s -> read_ipv4_addr (show_ipv4 a ++ s) = Some (a, s).
Proof.
  intros Ha Hs. unfold show_ipv4.
  pose proof (be_val_bytes 4 a Ha) as Hv.
  destruct (be_bytes_4 a) as (b0 & b1 & b2 & b3 & E & H0 & H1 & H2 & H3).
  rewrite E in *. rewrite show_ipv4_bytes. unfold read_ipv4_addr, read_separator.
  rewrite <- !app_assoc. simpl.
  rewrite read_octet by done. simpl. rewrite <- !app_assoc. simpl.
  rewrite read_octet by done. simpl. rewrite <- !app_assoc. simpl.
  rewrite read_octet by done. simpl. rewrite read_octet by done. simpl. by rewrite Hv.
Qed.

(** An IPv4 address printed and parsed back is itself. *)
Lemma parse_show_ipv4 a : u32 a -> parse_ip (show_ip (V4 a)) = Some (V4 a).
Proof.
  intros Ha. unfold parse_ip, parse_with, read_ip_addr, show_ip.
  rewrite <- (app_nil_r (show_ipv4 a)). by rewrite read_show_ipv4.
Qed.

Lemma read_port_dec p : u16 p -> read_port (58 :: dec p) = Some (p, []).
Proof.
  intros Hp. unfold read_port. simpl. unfold read_number.
  pose proof (parse_uint_dec 16 p eq_refl Hp) as Hd. unfold parse_uint in Hd.
  pose proof (dec_digits p (proj1 Hp)) as Hdig. pose proof (dec_nonempty p).
  rewrite <- (app_nil_r (dec p)).
  destruct (dec p) as [|c ds] eqn:E; [done|]. inv Hdig.
  rewrite (proj2 (Z.eqb_neq c 43)) in Hd by (unfold is_digit in *; lia).
  rewrite (read_digits_checked_app 16 0 0 (c :: ds) [] p Hd I).
  cbn [length Nat.add Nat.eqb negb andb]. by rewrite (proj2 (Z.ltb_lt _ _)) by apply Hp.
Qed.

Lemma parse_show_socket_v4 a p :
  u32 a -> u16 p -> parse_socket_addr (show_socket_addr (SV4 a p)) = Some (SV4 a p).
Proof.
  intros Ha Hp. unfold parse_socket_addr, parse_with, read_socket_addr_v4, show_socket_addr.
  rewrite read_show_ipv4 by done. cbn [mbind option_bind].
  by rewrite read_port_dec.
Qed.

(** ** A reference implementation of [ipnet]

    An address with a prefix length within its width; it shows that the
    interface above can be met and runs the concrete examples. *)
Definition ref_net : Type :=
  dsig (fun p : IpAddr * Z => wf_ip p.1 /\ 0 <= p.2 <= ip_width p.1).

Definition ref_net_new (ip : IpAddr) (len : Z) : res ref_net :=
  match decide (wf_ip (ip, len).1 /\ 0 <= (ip, len).2 <= ip_width (ip, len).1) with
  | left H => Ok (dexist (ip, len) H)
  | right _ => Err "invalid prefix length"
  end.

Definition ref_net_parse (s : str) : option ref_net :=
  match split_once 47 s with
  | Some (a, l) =>
    ip ← parse_ip a; len ← parse_uint 8 l; res_ok (ref_net_new ip len)
  | None => None
  end.

Definition ref_ipnet : IpNetLib := {|
  IpNet := ref_net;
  ipnet_new := ref_net_new;
  ipnet_addr n := (`n).1;
  ipnet_prefix_len n := (`n).2;
  ipnet_network n := net_of (`n).1 (`n).2;
  ipnet_contains n ip := in_block (`n).1 (`n).2 ip;
  ipnet_parse := ref_net_parse;
  ipnet_show n := show_ip (`n).1 ++ [47] ++ dec (`n).2;
|}.

Lemma ref_ipnet_laws : IpNetLaws ref_ipnet.
Proof.
  split.
  - intros ip len Hip Hlen. cbn. unfold ref_net_new.
    destruct (decide _) as [H|H]; [|by destruct H]. by eexists.
  - done.
  - done.
  - intros n. apply (proj2_dsig n).
  - intros n. apply (proj2_dsig n).
Qed.
