(* ===== verification/Ipv6.v ===== *)
(** * The text of an IPv6 address

    [Net] models how the standard library prints and reads IPv6 addresses;
    here what is printed is shown to be read back, with the longest run of
    zero groups shortened to [::] and with an embedded IPv4 address. *)

From S2P Require Import Prelude Str Net.

(** ** Groups in hexadecimal *)
Definition nibble (d : Z) : Prop := 0 <= d < 16.
Definition hex_val (ds : list Z) : Z := foldl (fun acc d => acc * 16 + d) 0 ds.
(** The four digits of a group without the leading zeros, but one digit. *)
Fixpoint strip (ds : list Z) : list Z :=
  match ds with
  | d :: ((_ :: _) as r) => if d =? 0 then strip r else ds
  | _ => ds
  end.
Definition nibbles (z : Z) : list Z := [Z.shiftr z 12; wrap 4 (Z.shiftr z 8); wrap 4 (Z.shiftr z 4); wrap 4 z].
Lemma show_hex16_eq z : show_hex16 z = map hex_digit (strip (nibbles z)).
Proof. reflexivity. Qed.

Lemma nibbles_ok z : u16 z -> Forall nibble (nibbles z) /\ hex_val (nibbles z) = z.
Proof.
  intros [H0 H1]. change (2 ^ 16) with 65536 in H1. unfold nibbles, hex_val, nibble, wrap. cbn [foldl].
  rewrite !Z.shiftr_div_pow2 by lia. change (2 ^ 12) with 4096. change (2 ^ 8) with 256. change (2 ^ 4) with 16.
  rewrite !Forall_cons. pose proof (Z.div_mod z 16 ltac:(lia)). pose proof (Z.div_mod (z / 16) 16 ltac:(lia)).
  pose proof (Z.div_mod (z / 256) 16 ltac:(lia)). pose proof (Z.div_div z 16 16 ltac:(lia) ltac:(lia)) as E1.
  pose proof (Z.div_div z 256 16 ltac:(lia) ltac:(lia)) as E2. change (16 * 16) with 256 in E1. change (256 * 16) with 4096 in E2.
  pose proof (Z.mod_pos_bound z 16 ltac:(lia)). pose proof (Z.mod_pos_bound (z / 16) 16 ltac:(lia)).
  pose proof (Z.mod_pos_bound (z / 256) 16 ltac:(lia)).
  assert (0 <= z / 4096 < 16) by (split; [apply Z.div_pos; lia|apply Z.div_lt_upper_bound; lia]).
  split_and!; try lia. constructor.
Qed.
Lemma strip_ok ds : ds <> [] -> Forall nibble ds ->
  Forall nibble (strip ds) /\ hex_val (strip ds) = hex_val ds /\ (1 <= length (strip ds) <= length ds)%nat.
Proof.
  induction ds as [|d ds IH]; [done|]. intros _ Hn. destruct ds as [|e ds]; [cbn; split_and!; [done|done|lia..]|].
  pose proof Hn as [_ Hn']%Forall_cons. destruct (IH ltac:(done) Hn') as (I1 & I2 & I3). cbn [strip].
  destruct (Z.eqb_spec d 0) as [->|]; [|split_and!; [done|done|cbn; lia..]]. cbn [strip] in *. split_and!; [done| |lia|cbn in *; lia].
  rewrite I2. unfold hex_val. cbn [foldl]. done.
Qed.
(** The digits of a group. *)
Lemma hex16_digits z : u16 z -> exists ds, show_hex16 z = map hex_digit ds /\ Forall nibble ds /\ hex_val ds = z /\ (1 <= length ds <= 4)%nat.
Proof.
  intros Hz. destruct (nibbles_ok z Hz) as [Hn Hv]. destruct (strip_ok (nibbles z) ltac:(done) Hn) as (H1 & H2 & H3).
  change (length (nibbles z)) with 4%nat in H3. exists (strip (nibbles z)). rewrite show_hex16_eq. split_and!; [done|done|congruence|lia|lia].
Qed.

Lemma hex_digit_cases d : nibble d -> (0 <= d < 10 /\ hex_digit d = 48 + d) \/ (10 <= d < 16 /\ hex_digit d = 87 + d).
Proof. unfold nibble, hex_digit. intros. destruct (Z.ltb_spec d 10); [left|right]; split; lia. Qed.
Lemma to_digit_hex d : nibble d -> to_digit 16 (hex_digit d) = Some d.
Proof.
  intros [[H ->]|[H ->]]%hex_digit_cases; unfold to_digit.
  - rewrite (proj2 (between_iff 48 57 _)) by lia. replace (48 + d - 48) with d by lia. by destruct (Z.ltb_spec d 16); [|lia].
  - destruct (between 48 57 (87 + d)) eqn:E; [apply between_iff in E; lia|].
    rewrite (proj2 (between_iff 97 122 _)) by lia. replace (87 + d - 87) with d by lia. by destruct (Z.ltb_spec d 16); [|lia].
Qed.
Lemma hex_not c d : nibble d -> (c < 48 \/ 57 < c < 97 \/ 102 < c) -> hex_digit d <> c.
Proof. intros [[H ->]|[H ->]]%hex_digit_cases; lia. Qed.

Lemma read_hex_digits ds acc cnt s :
  Forall nibble ds -> (cnt + length ds <= 4)%nat -> no_digit_head 16 s ->
  read_digits_max 16 4 acc cnt (map hex_digit ds ++ s) = Some (foldl (fun a d => a * 16 + d) acc ds, (cnt + length ds)%nat, s).
Proof.
  intros Hd. revert acc cnt. induction Hd as [|d ds Hd _ IH]; intros acc cnt Hl Hs; cbn [map app length foldl].
  - rewrite Nat.add_0_r. destruct s as [|c s]; [done|]. cbn in Hs |- *. by rewrite Hs.
  - cbn [length] in Hl. cbn [read_digits_max]. rewrite to_digit_hex, decide_False by (done || lia). rewrite IH by (done || lia). do 3 f_equal. lia.
Qed.
Lemma read_hex16 z s : u16 z -> no_digit_head 16 s -> read_number 16 16 (Some 4%nat) true (show_hex16 z ++ s) = Some (z, s).
Proof.
  intros Hz Hs. destruct (hex16_digits z Hz) as (ds & -> & Hn & Hv & Hl). unfold read_number.
  rewrite read_hex_digits by (done || lia). cbn [Nat.add]. fold (hex_val ds). rewrite Hv. destruct (Nat.eqb_spec (length ds) 0); [lia|].
  cbn [negb andb]. destruct Hz as [? Hz]. by destruct (Z.ltb_spec z (2 ^ 16)); [|lia].
Qed.

(** ** No group is mistaken for an IPv4 address *)
(** What may follow a group. *)
Definition group_end (s : str) : Prop := match s with c :: _ => c = 58 \/ c = 93 \/ c = 37 | [] => True end.
Lemma group_end_digit s : group_end s -> no_digit_head 10 s /\ no_digit_head 16 s.
Proof. destruct s as [|c s]; [done|]. by intros [->|[->| ->]]. Qed.
Lemma no_number w radix max b s : no_digit_head radix s -> read_number w radix max b s = None.
Proof.
  unfold read_number. destruct s as [|c s]; cbn; [by destruct max|]. intros Hd. destruct max; cbn; by rewrite Hd.
Qed.

(** Reading decimal digits stops before the rest of the group or at its end,
    never at a dot. *)
Lemma decimal_stops max acc cnt u s v n s' : Forall (.≠ 46) u -> group_end s ->
  read_digits_max 10 max acc cnt (u ++ s) = Some (v, n, s') -> match s' with c :: _ => c <> 46 | [] => True end.
Proof.
  intros Hu Hs. revert acc cnt. induction Hu as [|c u Hc Hu IH]; intros acc cnt; cbn [app].
  - pose proof (group_end_digit s Hs) as [Hd _]. destruct s as [|c s]; cbn; [by intros [= _ _ <-]|].
    cbn in Hd. rewrite Hd. intros [= _ _ <-]. destruct Hs as [->|[->| ->]]; done.
  - cbn [read_digits_max]. destruct (to_digit 10 c); [|by intros [= _ _ <-]]. case_decide; [done|]. apply IH.
Qed.
Lemma no_ipv4 u s : Forall (.≠ 46) u -> group_end s -> read_ipv4_addr (u ++ s) = None.
Proof.
  intros Hu Hs. unfold read_ipv4_addr, read_separator.
  destruct (read_number 8 10 (Some 3%nat) false (u ++ s)) as [[v s']|] eqn:E; [|done]. cbn [mbind option_bind].
  assert (match s' with c :: _ => c <> 46 | [] => True end) as Hs'.
  { unfold read_number in E. destruct (read_digits_max 10 3 0 0 (u ++ s)) as [[[v' n] s1]|] eqn:Ed; [|done].
    pose proof (decimal_stops _ _ _ _ _ _ _ _ Hu Hs Ed) as H. destruct (n =? 0)%nat; [done|].
    destruct (negb false && _ && _); [done|]. destruct (v' <? 2 ^ 8); [|done]. by injection E as _ <-. }
  destruct s' as [|c s']; [done|]. unfold read_given_char. by rewrite (proj2 (Z.eqb_neq c 46)).
Qed.
Lemma hex16_no_dot z : u16 z -> Forall (.≠ 46) (show_hex16 z).
Proof.
  intros Hz. destruct (hex16_digits z Hz) as (ds & -> & Hn & _). apply Forall_map. eapply Forall_impl; [exact Hn|]. intros d Hd. cbn.
  apply hex_not; [done|lia].
Qed.

(** ** Groups *)
Lemma read_group i k z s : u16 z -> group_end s ->
  read_groups (S k) i ((match i with O => [] | S _ => [58] end) ++ show_hex16 z ++ s) =
    let '(gs, f, s') := read_groups k (S i) s in (z :: gs, f, s').
Proof.
  intros Hz Hs. cbn [read_groups]. pose proof (group_end_digit s Hs) as [_ H16].
  assert (forall A (p : parser A), read_separator 58 i p ((match i with O => [] | S _ => [58] end) ++ show_hex16 z ++ s) = p (show_hex16 z ++ s)) as Hsep
    by (intros A p; by destruct i).
  rewrite !Hsep, (no_ipv4 _ _ (hex16_no_dot z Hz) Hs), read_hex16 by done. by destruct k.
Qed.
(** Where no group follows. *)
Lemma read_groups_stop k i s : match i with O => no_digit_head 10 s /\ no_digit_head 16 s | S _ =>
    match s with c :: s' => c = 58 -> no_digit_head 10 s' /\ no_digit_head 16 s' | [] => True end end ->
  read_groups k i s = ([], false, s).
Proof.
  intros Hs. destruct k as [|k]; [done|]. cbn [read_groups].
  assert (read_separator 58 i read_ipv4_addr s = None /\ read_separator 58 i (read_number 16 16 (Some 4%nat) true) s = None) as [-> ->]; [|by destruct k].
  unfold read_separator. destruct i as [|i].
  - destruct Hs as [H10 H16]. split; [|by apply no_number]. unfold read_ipv4_addr, read_separator. by rewrite no_number.
  - destruct s as [|c s]; [done|]. unfold read_given_char. destruct (Z.eqb_spec c 58) as [->|]; [|done]. destruct (Hs eq_refl) as [H10 H16].
    cbn [mbind option_bind]. split; [|by apply no_number]. unfold read_ipv4_addr, read_separator. by rewrite no_number.
Qed.

(** What may follow the address: nothing, the scope or the bracket. *)
Definition addr_end (s : str) : Prop := match s with c :: _ => c = 93 \/ c = 37 | [] => True end.
Lemma addr_end_group s : addr_end s -> group_end s.
Proof. destruct s as [|c s]; [done|]. cbn. tauto. Qed.
Lemma addr_end_stop k i s : addr_end s -> read_groups k i s = ([], false, s).
Proof.
  intros Hs. apply read_groups_stop. destruct i; [by apply group_end_digit, addr_end_group|].
  destruct s as [|c s]; [done|]. intros ->. by destruct Hs.
Qed.

(** A list of groups, separated by colons. *)
Definition groups_text (i : nat) (gs : list Z) : str :=
  (match i, gs with S _, _ :: _ => [58] | _, _ => [] end) ++ join [58] (map show_hex16 gs).
Lemma groups_text_cons i g gs : groups_text i (g :: gs) = (match i with O => [] | S _ => [58] end) ++ show_hex16 g ++ groups_text (S i) gs.
Proof. unfold groups_text. destruct gs; [by destruct i; rewrite ?app_nil_r|]. by destruct i. Qed.
Lemma read_groups_text gs : Forall (in_width 16) gs -> forall k i s, (length gs <= k)%nat -> group_end s ->
  read_groups k i (groups_text i gs ++ s) =
    let '(gs', f, s') := read_groups (k - length gs) (i + length gs) s in (gs ++ gs', f, s').
Proof.
  induction 1 as [|g gs Hg Hgs IH]; intros k i s Hk Hs.
  { cbn [length]. rewrite Nat.sub_0_r, Nat.add_0_r. unfold groups_text. replace (match i with O | _ => [] end) with (@nil Z) by by destruct i.
    cbn. by destruct (read_groups k i s) as [[? ?] ?]. }
  destruct k as [|k]; [cbn in Hk; lia|]. rewrite groups_text_cons, <- !app_assoc, read_group; [|done|].
  - rewrite IH by (cbn in Hk; lia || done). cbn [length Nat.sub]. replace (S i + length gs)%nat with (i + S (length gs))%nat by lia.
    by destruct (read_groups _ _ s) as [[? ?] ?].
  - destruct gs as [|g' gs]; [done|]. unfold groups_text. cbn. by left.
Qed.

(** ** The longest run of zero groups *)
Definition zero_run (gs : list Z) (r : nat * nat) : Prop := forall j, (r.1 <= j < r.1 + r.2)%nat -> gs !! j = Some 0.
Lemma zero_span_run pre gs longest current :
  zero_run (pre ++ gs) longest -> zero_run (pre ++ gs) current -> current.2 = 0%nat \/ (current.1 + current.2 = length pre)%nat ->
  zero_run (pre ++ gs) (zero_span (length pre) longest current gs).
Proof.
  revert pre longest current. induction gs as [|g gs IH]; intros pre longest current Hl Hc Hp; cbn [zero_span]; [done|].
  replace (S (length pre)) with (length (pre ++ [g])) by (rewrite length_app; cbn; lia).
  replace (pre ++ g :: gs) with ((pre ++ [g]) ++ gs) in * by by rewrite <- app_assoc.
  destruct (Z.eqb_spec g 0) as [->|]; [|apply IH; [done|intros j; cbn; lia|by left]].
  set (current' := if (current.2 =? 0)%nat then (length pre, 1%nat) else (current.1, S current.2)).
  assert (zero_run ((pre ++ [0]) ++ gs) current' /\ (current'.1 + current'.2)%nat = length (pre ++ [0])) as [Hc' Hp'].
  { unfold current'. rewrite length_app. destruct (Nat.eqb_spec current.2 0) as [E|E]; cbn [fst snd length]; (split; [|lia]); intros j; cbn [fst snd]; intros Hj.
    - replace j with (length pre) by lia. rewrite <- app_assoc. by apply list_lookup_middle.
    - destruct (decide (j = length pre)) as [->|]; [rewrite <- app_assoc; by apply list_lookup_middle|]. apply Hc. lia. }
  apply IH; [by destruct (_ <? _)%nat|done|by right].
Qed.
Lemma zero_run_split gs st len : zero_run gs (st, len) -> (0 < len)%nat ->
  (st + len <= length gs)%nat /\ gs = take st gs ++ replicate len 0 ++ drop (st + len) gs.
Proof.
  intros Hr Hl. assert (st + len <= length gs)%nat as Hb.
  { assert (gs !! (st + len - 1)%nat = Some 0) as H%lookup_lt_Some by (apply Hr; cbn; lia). lia. }
  split; [done|]. rewrite <- (take_drop st gs) at 1. f_equal. rewrite <- (take_drop len (drop st gs)), drop_drop. f_equal.
  apply list_eq. intros j. destruct (decide (j < len)%nat) as [Hj|Hj].
  - rewrite lookup_take_lt, lookup_drop, lookup_replicate_2 by done. apply Hr. cbn. lia.
  - rewrite !lookup_ge_None_2; [done|rewrite length_replicate; lia|rewrite length_take; lia].
Qed.

(** ** The groups of an address *)
Lemma segments_ok a : u128 a -> Forall (in_width 16) (segments a) /\ ip6_of_segments (segments a) = a.
Proof.
  intros [H0 H1]. split.
  - apply Forall_map, Forall_true. intros i. by apply wrap_range.
  - unfold segments, ip6_of_segments. cbn [map foldl].
    assert (forall i, 0 <= i -> Z.shiftr a (16 * (i + 1)) * 65536 + wrap 16 (Z.shiftr a (16 * i)) = Z.shiftr a (16 * i)) as Hq.
    { intros i Hi. unfold wrap. replace (16 * (i + 1)) with (16 * i + 16) by lia. rewrite <- Z.shiftr_shiftr by lia.
      rewrite (Z.shiftr_div_pow2 (Z.shiftr a (16 * i)) 16) by lia. change (2 ^ 16) with 65536.
      pose proof (Z.div_mod (Z.shiftr a (16 * i)) 65536 ltac:(lia)). lia. }
    rewrite Z.mul_0_l, Z.add_0_l. rewrite (wrap_small 16 (Z.shiftr a (16 * 7))).
    2: { rewrite Z.shiftr_div_pow2 by lia. split; [apply Z.div_pos; lia|]. apply Z.div_lt_upper_bound; [lia|]. exact H1. }
    do 7 (match goal with |- context [Z.shiftr a (16 * ?i) * 65536 + wrap 16 (Z.shiftr a (16 * ?j))] =>
      change (16 * i) with (16 * (j + 1)); rewrite (Hq j) by lia end).
    apply Z.shiftr_0_r.
Qed.

(** The two ways an address is written. *)
Lemma read_head8 gs s : Forall (in_width 16) gs -> length gs = 8%nat -> addr_end s ->
  read_ipv6_addr (join [58] (map show_hex16 gs) ++ s) = Some (ip6_of_segments gs, s).
Proof.
  intros Hg Hl Hs. unfold read_ipv6_addr. pose proof (read_groups_text gs Hg 8 0 s ltac:(lia) (addr_end_group s Hs)) as H.
  change (groups_text 0 gs) with (join [58] (map show_hex16 gs)) in H. rewrite H, Hl, addr_end_stop by done.
  by rewrite app_nil_r, Hl.
Qed.
Lemma read_compressed hd tl s : Forall (in_width 16) hd -> Forall (in_width 16) tl -> (length hd + length tl <= 6)%nat -> addr_end s ->
  read_ipv6_addr (join [58] (map show_hex16 hd) ++ [58; 58] ++ join [58] (map show_hex16 tl) ++ s) =
    Some (ip6_of_segments (hd ++ replicate (8 - length hd - length tl) 0 ++ tl), s).
Proof.
  intros Hh Ht Hl Hs. unfold read_ipv6_addr. set (rest := [58; 58] ++ join [58] (map show_hex16 tl) ++ s).
  pose proof (read_groups_text hd Hh 8 0 rest ltac:(lia) ltac:(by left)) as H.
  change (groups_text 0 hd) with (join [58] (map show_hex16 hd)) in H. rewrite H, read_groups_stop.
  2: { unfold rest. destruct (0 + length hd)%nat; [done|]. intros _. by cbn. }
  rewrite app_nil_r. destruct (Nat.eqb_spec (length hd) 8); [lia|]. unfold rest. cbn [app read_given_char Z.eqb Pos.eqb mbind option_bind].
  pose proof (read_groups_text tl Ht (8 - (length hd + 1)) 0 s ltac:(lia) (addr_end_group s Hs)) as Htl.
  change (groups_text 0 tl) with (join [58] (map show_hex16 tl)) in Htl. rewrite Htl, addr_end_stop by done. by rewrite app_nil_r.
Qed.
Lemma read_mapped v4 s : u32 v4 -> addr_end s ->
  read_ipv6_addr (lit "::ffff:" ++ show_ipv4 v4 ++ s) = Some (65535 * 2 ^ 32 + v4, s).
Proof.
  intros Hv Hs. unfold read_ipv6_addr. rewrite (read_groups_stop 8 0) by done. cbn [length Nat.eqb].
  change (lit "::ffff:" ++ show_ipv4 v4 ++ s) with (58 :: 58 :: show_hex16 65535 ++ 58 :: show_ipv4 v4 ++ s).
  cbn [read_given_char Z.eqb Pos.eqb mbind option_bind]. change (8 - (0 + 1))%nat with 7%nat.
  pose proof (read_group 0 6 65535 (58 :: show_ipv4 v4 ++ s) ltac:(done) ltac:(by left)) as H. cbn [app] in H. rewrite H. clear H.
  cbn [read_groups read_separator read_given_char Z.eqb Pos.eqb mbind option_bind].
  rewrite read_show_ipv4 by (done || by apply group_end_digit, addr_end_group). cbn [length app Nat.sub replicate].
  do 2 f_equal. unfold ip6_of_segments. cbn [foldl]. unfold wrap. rewrite Z.shiftr_div_pow2 by lia. change (2 ^ 16) with 65536.
  pose proof (Z.div_mod v4 65536 ltac:(lia)). lia.
Qed.

(** An IPv6 address printed and read back is itself. *)
Lemma read_show_ipv6 a s : u128 a -> addr_end s -> read_ipv6_addr (show_ipv6 a ++ s) = Some (a, s).
Proof.
  intros Ha Hs. unfold show_ipv6, to_ipv4_mapped. destruct (Z.eqb_spec (Z.shiftr a 32) 65535) as [Em|_].
  { rewrite <- app_assoc, read_mapped by (done || by apply wrap_range). do 2 f_equal. rewrite Z.shiftr_div_pow2 in Em by lia. unfold wrap.
    pose proof (Z.div_mod a (2 ^ 32) ltac:(lia)). lia. }
  destruct (segments_ok a Ha) as [Hg Hv]. assert (length (segments a) = 8%nat) as Hl by done.
  pose proof (zero_span_run [] (segments a) (0%nat, 0%nat) (0%nat, 0%nat) ltac:(intros j; cbn; lia) ltac:(intros j; cbn; lia) ltac:(by left)) as Hr.
  cbn [length app] in Hr. set (gs := segments a) in *. clearbody gs. destruct (zero_span 0 (0%nat, 0%nat) (0%nat, 0%nat) gs) as [st len].
  destruct (Nat.ltb_spec 1 len); [|by rewrite read_head8, Hv]. destruct (zero_run_split _ _ _ Hr ltac:(lia)) as [Hb He].
  rewrite <- !app_assoc, read_compressed; [|by apply Forall_take|by apply Forall_drop|rewrite length_take, length_drop; lia|done].
  rewrite length_take, length_drop. replace (8 - st `min` length gs - (length gs - (st + len)))%nat with len by lia. by rewrite <- He, Hv.
Qed.

(** A socket address printed and parsed back is itself, but for the flow
    label, which is not printed. *)
Lemma read_scope sc s : 0 <= sc < 2 ^ 32 -> no_digit_head 10 s -> read_scope_id (37 :: dec sc ++ s) = Some (sc, s).
Proof.
  intros Hp Hs. unfold read_scope_id. cbn [read_given_char Z.eqb Pos.eqb mbind option_bind]. unfold read_number.
  pose proof (parse_uint_dec 32 sc eq_refl Hp) as Hd. unfold parse_uint in Hd.
  pose proof (dec_digits sc (proj1 Hp)) as Hdig. pose proof (dec_nonempty sc).
  destruct (dec sc) as [|c ds] eqn:E; [done|]. inv Hdig.
  rewrite (proj2 (Z.eqb_neq c 43)) in Hd by (unfold is_digit in *; lia).
  rewrite (read_digits_checked_app 32 0 0 (c :: ds) s sc Hd Hs).
  cbn [length Nat.add Nat.eqb negb andb]. by rewrite (proj2 (Z.ltb_lt _ _)) by apply Hp.
Qed.
Lemma parse_show_socket_v6 ip p f sc : wf_sa (SV6 ip p f sc) -> parse_socket_addr (show_socket_addr (SV6 ip p f sc)) = Some (SV6 ip p 0 sc).
Proof.
  intros (Hip & Hp & _ & Hsc). unfold parse_socket_addr, parse_with, show_socket_addr.
  assert (read_socket_addr_v4 ([91] ++ show_ipv6 ip ++ (if sc =? 0 then [] else 37 :: dec sc) ++ [93; 58] ++ dec p) = None) as ->.
  { unfold read_socket_addr_v4, read_ipv4_addr, read_separator. by rewrite no_number. }
  unfold read_socket_addr_v6. cbn [app read_given_char Z.eqb Pos.eqb mbind option_bind].
  rewrite read_show_ipv6; [|done|by destruct (sc =? 0); [left|right]]. cbn [mbind option_bind].
  destruct (Z.eqb_spec sc 0) as [->|_].
  - cbn [app]. change (read_scope_id (93 :: 58 :: dec p)) with (@None (Z * str)).
    cbn [from_option read_given_char Z.eqb Pos.eqb mbind option_bind]. by rewrite read_port_dec.
  - cbn [app]. rewrite read_scope by done. cbn [from_option id read_given_char Z.eqb Pos.eqb mbind option_bind]. by rewrite read_port_dec.
Qed.
