(* ===== verification/Session.v ===== *)
(** * Sessions and SOCKS addresses ([clash-lib/src/session.rs]) *)

From S2P Require Import Prelude F64 Str Net.

(* @src clash-lib/src/session.rs 22 25 SocksAddr *)
Inductive SocksAddr : Type :=
| Ip (a : SocketAddr)
| Domain (host : str) (port : Z).

#[global] Instance socksaddr_eq_dec : EqDecision SocksAddr.
Proof. solve_decision. Defined.

(* @src clash-lib/src/session.rs 80 86 SocksAddrType *)
Definition ATYP_DOMAIN : Z := 0x3.
(* @src clash-lib/src/session.rs 84 84 SocksAddrType::V4 *)
Definition ATYP_V4 : Z := 0x1.
(* @src clash-lib/src/session.rs 85 85 SocksAddrType::V6 *)
Definition ATYP_V6 : Z := 0x4.

(* @src clash-lib/src/session.rs 531 533 invalid_domain *)
Definition invalid_domain : string := "invalid domain".
(* @src clash-lib/src/session.rs 535 537 invalid_atyp *)
Definition invalid_atyp : string := "invalid address type".
(* @src clash-lib/src/session.rs 539 541 insuff_bytes *)
Definition insuff_bytes : string := "insufficient bytes".

(* @src clash-lib/src/session.rs 27 48 SocksAddr::from_str *)
Definition socks_from_str (s : str) : res SocksAddr :=
  let s := if contains_char 58 s then s else s ++ lit ":80" in
  match parse_socket_addr s with
  | Some v => Ok (Ip v)
  | None =>
    match split_on 58 s with
    | [host; port] =>
      match parse_uint 16 port with
      | Some p => Ok (Domain host p)
      | None => Err "ParseIntError"
      end
    | _ => Err "SocksAddr parse error"
    end
  end.

(* @src clash-lib/src/session.rs 88 91 SocksAddr::any_ipv4 *)
Definition any_ipv4 : SocksAddr := Ip (sa_new (V4 0) 0).
(* @src clash-lib/src/session.rs 93 98 SocksAddr::any_ipv6 *)
Definition any_ipv6 : SocksAddr := Ip (sa_new (V6 0) 0).
(* @src clash-lib/src/session.rs 61 65 SocksAddr::default *)
Definition socks_default : SocksAddr := Ip (sa_new (V4 0) 0).

(* @src clash-lib/src/session.rs 67 78 SocksAddr::fmt *)
Definition socks_to_string (a : SocksAddr) : str :=
  match a with
  | Ip ip => show_socket_addr ip
  | Domain host port => host ++ 58 :: dec port
  end.

(* @src clash-lib/src/session.rs 100 121 SocksAddr::write_buf *)
Definition write_buf (a : SocksAddr) (buf : list Z) : list Z :=
  match a with
  | Ip (SV4 ip port) => buf ++ [ATYP_V4] ++ be_bytes 4 ip ++ be_bytes 2 port
  | Ip (SV6 ip port _ _) => buf ++ [ATYP_V6] ++ be_bytes 16 ip ++ be_bytes 2 port
  | Domain domain port =>
    buf ++ [ATYP_DOMAIN] ++ [wrap 8 (str_len domain)] ++ utf8 domain ++ be_bytes 2 port
  end.

(* @src clash-lib/src/session.rs 123 128 SocksAddr::is_domain *)
Definition is_domain (a : SocksAddr) : bool :=
  match a with Ip _ => false | Domain _ _ => true end.

(* @src clash-lib/src/session.rs 130 135 SocksAddr::domain *)
Definition domain_of (a : SocksAddr) : option str :=
  match a with Ip _ => None | Domain d _ => Some d end.

(* @src clash-lib/src/session.rs 150 155 SocksAddr::ip *)
Definition socks_ip (a : SocksAddr) : option IpAddr :=
  match a with Ip addr => Some (sa_ip addr) | Domain host _ => parse_ip host end.

(* @src clash-lib/src/session.rs 157 162 SocksAddr::host *)
Definition socks_host (a : SocksAddr) : str :=
  match a with Ip ip => show_ip (sa_ip ip) | Domain d _ => d end.

(* @src clash-lib/src/session.rs 164 169 SocksAddr::port *)
Definition socks_port (a : SocksAddr) : Z :=
  match a with Ip ip => sa_port ip | Domain _ port => port end.

(* @src clash-lib/src/session.rs 171 180 SocksAddr::size *)
Definition socks_size (a : SocksAddr) : Z :=
  match a with
  | Ip (SV4 _ _) => 1 + 4 + 2
  | Ip (SV6 _ _ _ _) => 1 + 16 + 2
  | Domain d _ => 1 + 1 + str_len d + 2
  end.

(* @src clash-lib/src/session.rs 187 225 SocksAddr::peek_cursor *)
Definition peek_cursor (cur : list Z) : res (SocksAddr * list Z) :=
  if zlen cur <? 2 then Err "invalid buf"
  else
    '(atyp, cur) ← get_uint 1 cur;
    if atyp =? ATYP_V4 then
      if zlen cur <? 4 + 2 then Err "invalid buf"
      else
        '(addr, cur) ← get_uint 4 cur;
        '(port, cur) ← get_uint 2 cur;
        Ok (Ip (sa_new (V4 addr) port), cur)
    else if atyp =? ATYP_V6 then
      if zlen cur <? 16 + 2 then Err "invalid buf"
      else
        '(addr, cur) ← get_uint 16 cur;
        '(port, cur) ← get_uint 2 cur;
        Ok (Ip (sa_new (V6 addr) port), cur)
    else if atyp =? ATYP_DOMAIN then
      '(domain_len, cur) ← get_uint 1 cur;
      if zlen cur <? domain_len then Err "invalid buf"
      else
        '(buf, cur) ← get_bytes (Z.to_nat domain_len) cur;
        '(port, cur) ← get_uint 2 cur;
        match from_utf8 buf with
        | Some d => Ok (Domain d port, cur)
        | None => Err invalid_domain
        end
    else Err invalid_atyp.

(* @src clash-lib/src/session.rs 182 185 SocksAddr::peek_read *)
Definition peek_read (buf : list Z) : res SocksAddr :=
  '(a, _) ← peek_cursor buf; Ok a.

(* @src clash-lib/src/session.rs 227 252 SocksAddr::read_from *)
Definition read_from (r : list Z) : res (SocksAddr * list Z) :=
  '(atyp, r) ← read_uint 1 r;
  if atyp =? ATYP_V4 then
    '(ip, r) ← read_uint 4 r;
    '(port, r) ← read_uint 2 r;
    Ok (Ip (sa_new (V4 ip) port), r)
  else if atyp =? ATYP_V6 then
    '(ip, r) ← read_uint 16 r;
    '(port, r) ← read_uint 2 r;
    Ok (Ip (sa_new (V6 ip) port), r)
  else if atyp =? ATYP_DOMAIN then
    '(domain_len, r) ← read_uint 1 r;
    '(buf, r) ← read_bytes (Z.to_nat domain_len) r;
    if negb (zlen buf =? domain_len) then Err "invalid domain length"
    else match from_utf8 buf with
         | None => Err invalid_domain
         | Some domain =>
           '(port, r) ← read_uint 2 r;
           Ok (Domain domain port, r)
         end
  else Err invalid_atyp.

(* @src clash-lib/src/session.rs 290 302 SocksAddr::try_from<(String,u16)> *)
Definition try_from_host_port (host : str) (port : Z) : res SocksAddr :=
  match parse_ip host with
  | Some ip => Ok (Ip (sa_new ip port))
  | None => if 0xff <? str_len host then Err "domain too long" else Ok (Domain host port)
  end.

(** [Clone for SocksAddr]: a domain is rebuilt through [try_from(..).unwrap()]. *)
(* @src clash-lib/src/session.rs 255 264 SocksAddr::clone *)
Definition socks_clone (a : SocksAddr) : res SocksAddr :=
  match a with
  | Ip a => Ok (Ip a)
  | Domain domain port =>
    match try_from_host_port domain port with
    | Ok a => Ok a
    | _ => Panic
    end
  end.

(* @src clash-lib/src/session.rs 304 362 SocksAddr::try_from<&[u8]> *)
Definition try_from_bytes (buf : list Z) : res SocksAddr :=
  match buf with
  | [] => Err insuff_bytes
  | atyp :: _ =>
    if atyp =? ATYP_V4 then
      if zlen buf <? 1 + 4 + 2 then Err insuff_bytes
      else
        ip_bytes ← zslice buf 1 5;
        port_bytes ← zslice buf 5 7;
        Ok (Ip (sa_new (V4 (be_val ip_bytes)) (be_val port_bytes)))
    else if atyp =? ATYP_V6 then
      if zlen buf <? 1 + 16 + 2 then Err insuff_bytes
      else
        ip_bytes ← zslice buf 1 17;
        port_bytes ← zslice buf 17 19;
        Ok (Ip (sa_new (V6 (be_val ip_bytes)) (be_val port_bytes)))
    else if atyp =? ATYP_DOMAIN then
      domain_len ← zidx buf 1;
      if zlen buf <? 1 + domain_len + 2 then Err insuff_bytes
      else
        dom_bytes ← zslice buf 2 (domain_len + 2);
        match from_utf8 dom_bytes with
        | None => Err "invalid domain"
        | Some domain =>
          port_bytes ← zslice buf (domain_len + 2) (domain_len + 4);
          Ok (Domain domain (be_val port_bytes))
        end
    else Err "invalid ATYP"
  end.

(* @src clash-lib/src/session.rs 143 148 SocksAddr::try_into_socket_addr *)
Definition try_into_socket_addr (a : SocksAddr) : option SocketAddr :=
  match a with Ip addr => Some addr | Domain _ _ => None end.

(* @src clash-lib/src/session.rs 137 141 SocksAddr::must_into_socket_addr *)
Definition must_into_socket_addr (a : SocksAddr) : res SocketAddr :=
  _ ← socks_clone a;
  or_panic (try_into_socket_addr a).

(* @src clash-lib/src/session.rs 364 373 SocketAddr::try_from<SocksAddr> *)
Definition socketaddr_try_from (s : SocksAddr) : res SocketAddr :=
  match s with Ip ip => Ok ip | Domain _ _ => Err "cannot convert" end.

(* @src clash-lib/src/session.rs 376 379 Network *)
Inductive Network : Type := Tcp | Udp.
#[global] Instance network_eq_dec : EqDecision Network.
Proof. solve_decision. Defined.

(* @src clash-lib/src/session.rs 398 405 Network::fmt *)
Definition network_to_string (n : Network) : str :=
  match n with Tcp => lit "TCP" | Udp => lit "UDP" end.

(* @src clash-lib/src/session.rs 382 396 Type *)
Inductive Typ : Type :=
| THttp | THttpConnect | TSocks5 | TTun | TTproxy | TRedir | TTunnel
| TShadowsocks | TTrojan | TIgnore.
#[global] Instance typ_eq_dec : EqDecision Typ.
Proof. solve_decision. Defined.

(** A datagram with its two ends. *)
(* @src clash-lib/src/proxy/datagram.rs ~^pub struct UdpPacket~ UdpPacket *)
Record UdpPacket : Type := { up_data : list Z; up_src_addr : SocksAddr; up_dst_addr : SocksAddr }.

(* @src clash-lib/src/app/net/mod.rs 35 46 OutboundInterface *)
Record OutboundInterface : Type := {
  oi_name : str;
  oi_addr_v4 : option Z; oi_netmask_v4 : option Z; oi_broadcast_v4 : option Z;
  oi_addr_v6 : option Z; oi_netmask_v6 : option Z; oi_broadcast_v6 : option Z;
  oi_index : Z;
  oi_mac_addr : option str;
}.
#[global] Instance outbound_interface_eq_dec : EqDecision OutboundInterface.
Proof. solve_decision. Defined.

(* @src clash-lib/src/app/remote_content_manager/mod.rs 35 51 TrafficStats *)
Record TrafficStats : Type := {
  bytes_uploaded : Z; bytes_downloaded : Z; connection_duration : Z;
  average_throughput : f64; peak_throughput : f64; request_frequency : f64;
  is_bidirectional : bool;
}.
#[global] Instance traffic_stats_eq_dec : EqDecision TrafficStats.
Proof. solve_decision. Defined.

(* @src clash-lib/src/session.rs 407 430 Session *)
Record Session : Type := {
  sess_id : Z;
  network : Network;
  typ : Typ;
  source : SocketAddr;
  destination : SocksAddr;
  resolved_ip : option IpAddr;
  so_mark : option Z;
  iface : option OutboundInterface;
  asn : option str;
  traffic_stats : option TrafficStats;
  start_time : Z;
}.
#[global] Instance session_eq_dec : EqDecision Session.
Proof. solve_decision. Defined.

Definition set_resolved_ip (ip : option IpAddr) (s : Session) : Session :=
  {| sess_id := sess_id s; network := network s; typ := typ s; source := source s;
     destination := destination s; resolved_ip := ip; so_mark := so_mark s;
     iface := iface s; asn := asn s; traffic_stats := traffic_stats s;
     start_time := start_time s |}.
Definition set_asn (a : option str) (s : Session) : Session :=
  {| sess_id := sess_id s; network := network s; typ := typ s; source := source s;
     destination := destination s; resolved_ip := resolved_ip s; so_mark := so_mark s;
     iface := iface s; asn := a; traffic_stats := traffic_stats s;
     start_time := start_time s |}.
Definition set_destination (d : SocksAddr) (s : Session) : Session :=
  {| sess_id := sess_id s; network := network s; typ := typ s; source := source s;
     destination := d; resolved_ip := resolved_ip s; so_mark := so_mark s;
     iface := iface s; asn := asn s; traffic_stats := traffic_stats s;
     start_time := start_time s |}.

Definition set_source (a : SocketAddr) (s : Session) : Session :=
  {| sess_id := sess_id s; network := network s; typ := typ s; source := a;
     destination := destination s; resolved_ip := resolved_ip s; so_mark := so_mark s;
     iface := iface s; asn := asn s; traffic_stats := traffic_stats s;
     start_time := start_time s |}.

Definition set_traffic_stats (t : option TrafficStats) (s : Session) : Session :=
  {| sess_id := sess_id s; network := network s; typ := typ s; source := source s;
     destination := destination s; resolved_ip := resolved_ip s; so_mark := so_mark s;
     iface := iface s; asn := asn s; traffic_stats := t;
     start_time := start_time s |}.

(** [Session::default()] draws its id from the global counter, a wrapping
    [AtomicU64]; [now] is [Instant::now()]. *)
(* @src clash-lib/src/session.rs 465 481 Session::default *)
Definition session_default (counter now : Z) : Session * Z :=
  ({| sess_id := counter; network := Tcp; typ := THttp; source := sa_new (V4 0) 0;
      destination := any_ipv4; resolved_ip := None; so_mark := None; iface := None;
      asn := None; traffic_stats := None; start_time := now |},
   wrap 64 (counter + 1)).

(* @src clash-lib/src/session.rs 513 529 Session::clone *)
Definition session_clone (s : Session) : res Session :=
  d ← socks_clone (destination s); Ok (set_destination d s).

(** The values [as_map] serialises. *)
Inductive SerVal : Type :=
| SvInt (z : Z) | SvStr (s : str) | SvNetwork (n : Network) | SvTyp (t : Typ)
| SvIp (ip : IpAddr) | SvOptStr (o : option str) | SvStats (o : option TrafficStats).

(* @src clash-lib/src/session.rs 432 463 Session::as_map *)
Definition session_as_map (s : Session) : gmap str SerVal :=
  let ip := match resolved_ip s with Some ip => Some ip | None => socks_ip (destination s) end in
  let dst_ip := match ip, asn s with
                | Some ip, Some asn => show_ip ip ++ lit "(" ++ asn ++ lit ")"
                | Some ip, None => show_ip ip
                | None, _ => []
                end in
  <[lit "traffic_stats" := SvStats (traffic_stats s)]>
  (<[lit "asn" := SvOptStr (asn s)]>
  (<[lit "host" := SvStr (socks_host (destination s))]>
  (<[lit "destinationPort" := SvInt (socks_port (destination s))]>
  (<[lit "destinationIP" := SvStr dst_ip]>
  (<[lit "sourcePort" := SvInt (sa_port (source s))]>
  (<[lit "sourceIP" := SvIp (sa_ip (source s))]>
  (<[lit "type" := SvTyp (typ s)]>
  (<[lit "network" := SvNetwork (network s)]>
  (<[lit "id" := SvInt (sess_id s)]> ∅))))))))).

(** * Theorems *)

(** What an address looks like after a trip over the wire: flow information
    and scope of an IPv6 socket address are not transmitted. *)
Definition wire (a : SocksAddr) : SocksAddr :=
  match a with
  | Ip (SV6 ip port _ _) => Ip (SV6 ip port 0 0)
  | _ => a
  end.

Definition wf_socks (a : SocksAddr) : Prop :=
  match a with
  | Ip sa => wf_sa sa
  | Domain d p => Forall scalar d /\ str_len d <= 255 /\ u16 p
  end.

Lemma write_buf_app a buf : write_buf a buf = buf ++ write_buf a [].
Proof. destruct a as [[]|]; done. Qed.

Lemma write_buf_size a : zlen (write_buf a []) = socks_size a.
Proof.
  unfold zlen, write_buf, socks_size, str_len, zlen. destruct a as [[]|]; simpl;
    repeat rewrite ?length_app, ?be_bytes_length; simpl; lia.
Qed.

Lemma write_buf_v4 ip p rest :
  write_buf (Ip (SV4 ip p)) [] ++ rest = ATYP_V4 :: be_bytes 4 ip ++ be_bytes 2 p ++ rest.
Proof. unfold write_buf. rewrite !app_nil_l, <- !app_assoc. done. Qed.
Lemma write_buf_v6 ip p f s rest :
  write_buf (Ip (SV6 ip p f s)) [] ++ rest = ATYP_V6 :: be_bytes 16 ip ++ be_bytes 2 p ++ rest.
Proof. unfold write_buf. rewrite !app_nil_l, <- !app_assoc. done. Qed.
Lemma write_buf_domain d p rest :
  str_len d <= 255 ->
  write_buf (Domain d p) [] ++ rest =
    ATYP_DOMAIN :: str_len d :: utf8 d ++ be_bytes 2 p ++ rest.
Proof.
  intros Hl. pose proof (zlen_nonneg (utf8 d)). unfold write_buf.
  rewrite wrap_small by (unfold str_len in *; split; lia).
  rewrite !app_nil_l, <- !app_assoc. done.
Qed.

Ltac atyp :=
  change (ATYP_V4 =? ATYP_V4) with true; change (ATYP_V6 =? ATYP_V4) with false;
  change (ATYP_V6 =? ATYP_V6) with true; change (ATYP_DOMAIN =? ATYP_V4) with false;
  change (ATYP_DOMAIN =? ATYP_V6) with false; change (ATYP_DOMAIN =? ATYP_DOMAIN) with true;
  cbv beta iota.

Lemma read_from_write_buf a rest :
  wf_socks a -> read_from (write_buf a [] ++ rest) = Ok (wire a, rest).
Proof.
  intros Hwf. unfold read_from. destruct a as [[ip p|ip p f s]|d p]; simpl in Hwf.
  - destruct Hwf. rewrite write_buf_v4, read_u8_cons. rstep. atyp.
    rewrite read_uint_be by done. rstep. by rewrite read_uint_be.
  - destruct Hwf as (? & ? & _). rewrite write_buf_v6, read_u8_cons. rstep. atyp.
    rewrite read_uint_be by done. rstep. by rewrite read_uint_be.
  - destruct Hwf as (Hd & Hl & Hp). rewrite write_buf_domain by done.
    rewrite read_u8_cons. rstep. atyp. rewrite read_u8_cons. rstep.
    unfold str_len, zlen. rewrite Nat2Z.id, read_bytes_app. rstep. rewrite Z.eqb_refl. cbn [negb].
    rewrite from_utf8_utf8 by done. by rewrite read_uint_be.
Qed.

Lemma peek_cursor_write_buf a rest :
  wf_socks a -> peek_cursor (write_buf a [] ++ rest) = Ok (wire a, rest).
Proof.
  intros Hwf. unfold peek_cursor.
  assert ((zlen (write_buf a [] ++ rest) <? 2) = false) as ->.
  { pose proof (write_buf_size a) as Hs. unfold zlen in *. rewrite length_app.
    apply Z.ltb_ge. unfold socks_size, str_len, zlen in Hs. destruct a as [[]|]; lia. }
  destruct a as [[ip p|ip p f s]|d p]; simpl in Hwf.
  - destruct Hwf. rewrite write_buf_v4, get_u8_cons. rstep. atyp.
    rewrite (proj2 (Z.ltb_ge _ _)) by (unfold zlen; rewrite !length_app, !be_bytes_length; lia).
    rewrite get_uint_be by done. rstep. by rewrite get_uint_be.
  - destruct Hwf as (? & ? & _). rewrite write_buf_v6, get_u8_cons. rstep. atyp.
    rewrite (proj2 (Z.ltb_ge _ _)) by (unfold zlen; rewrite !length_app, !be_bytes_length; lia).
    rewrite get_uint_be by done. rstep. by rewrite get_uint_be.
  - destruct Hwf as (Hd & Hl & Hp). rewrite write_buf_domain by done.
    rewrite get_u8_cons. rstep. atyp. rewrite get_u8_cons. rstep.
    rewrite (proj2 (Z.ltb_ge _ _)) by (unfold str_len, zlen; rewrite !length_app; lia).
    unfold str_len, zlen. rewrite Nat2Z.id, get_bytes_app. rstep.
    rewrite get_uint_be by done. rstep. by rewrite from_utf8_utf8.
Qed.

(** The slice decoder accepts whatever the cursor decoder accepts. *)
Lemma try_from_bytes_peek buf a rest :
  Forall u8 buf -> peek_cursor buf = Ok (a, rest) -> try_from_bytes buf = Ok a.
Proof.
  intros H8. unfold peek_cursor.
  destruct (Z.ltb_spec (zlen buf) 2) as [|Hlen]; [done|].
  destruct buf as [|atyp [|b1 cur]]; [done|unfold zlen in Hlen; simpl in Hlen; lia|].
  rewrite get_u8_cons. cbn [mbind res_mbind res_bind]. unfold try_from_bytes.
  set (c1 := b1 :: cur) in *.
  assert (zlen (atyp :: c1) = 1 + zlen c1) as Hz by (unfold zlen; simpl; lia).
  destruct (atyp =? ATYP_V4).
  { destruct (Z.ltb_spec (zlen c1) (4 + 2)); [done|]. rewrite (proj2 (Z.ltb_ge _ _)) by lia.
    unfold zlen in *. rewrite get_uint_long by lia. rstep.
    rewrite get_uint_long by (rewrite length_drop; lia). simpl. intros ?; simplify_eq.
    rewrite !zslice_ok by (unfold zlen; lia). done. }
  destruct (atyp =? ATYP_V6).
  { destruct (Z.ltb_spec (zlen c1) (16 + 2)); [done|]. rewrite (proj2 (Z.ltb_ge _ _)) by lia.
    unfold zlen in *. rewrite get_uint_long by lia. rstep.
    rewrite get_uint_long by (rewrite length_drop; lia). simpl. intros ?; simplify_eq.
    rewrite !zslice_ok by (unfold zlen; lia). done. }
  destruct (atyp =? ATYP_DOMAIN); [|done].
  subst c1. rewrite get_u8_cons. simpl. change (zidx (atyp :: b1 :: cur) 1) with (Ok b1). rstep.
  rewrite !Forall_cons in H8. destruct H8 as (_ & Hb & _). destruct Hb as [Hb0 _].
  destruct (Z.ltb_spec (zlen cur) b1); [done|].
  unfold get_bytes. unfold zlen in *. rewrite decide_True by lia. rstep.
  destruct (decide (2 <= length (drop (Z.to_nat b1) cur))%nat) as [Hp|Hp];
    [|rewrite get_uint_short by lia; done].
  rewrite get_uint_long by done. simpl. rewrite length_drop in Hp. simpl in Hz.
  destruct (from_utf8 _) eqn:Eu; intros ?; simplify_eq.
  rewrite (proj2 (Z.ltb_ge _ _)) by (simpl; lia).
  rewrite (zslice_ok _ 2) by (unfold zlen; simpl; lia). rstep.
  replace (Z.to_nat (b1 + 2 - 2)) with (Z.to_nat b1) by lia.
  change (drop (Z.to_nat 2) (atyp :: b1 :: cur)) with cur. rewrite Eu.
  rewrite zslice_ok by (unfold zlen; simpl; lia). rstep.
  replace (Z.to_nat (b1 + 2)) with (S (S (Z.to_nat b1))) by lia.
  replace (Z.to_nat (b1 + 4 - (b1 + 2))) with 2%nat by lia. done.
Qed.

Lemma write_buf_u8 a : wf_socks a -> Forall u8 (write_buf a []).
Proof.
  assert (u8 ATYP_V4 /\ u8 ATYP_V6 /\ u8 ATYP_DOMAIN) as (H4 & H6 & Hd) by (unfold in_width; done).
  unfold write_buf. destruct a as [[]|d p]; simpl wf_socks; intros H; rewrite app_nil_l;
    repeat (apply Forall_app_2 || (apply Forall_cons_2; [first [assumption|by apply wrap_range]|])
            || constructor || apply be_bytes_u8 || (apply utf8_u8; apply H)).
Qed.

(** Reading is exact: the bytes consumed are the encoding of the result. *)
Lemma read_from_inv bs a rest :
  Forall u8 bs -> read_from bs = Ok (a, rest) ->
  bs = write_buf a [] ++ rest /\ wf_socks a /\ wire a = a.
Proof.
  intros H8. unfold read_from. rewrite res_bind_ok. intros ([atyp r] & H & Hk).
  apply read_uint_inv in H as (-> & Ha & Hr); [|done].
  destruct (Z.eqb_spec atyp ATYP_V4) as [->|].
  { rewrite res_bind_ok in Hk. destruct Hk as ([ip r1] & H1 & Hk).
    apply read_uint_inv in H1 as (-> & Hip & Hr1); [|done].
    rewrite res_bind_ok in Hk. destruct Hk as ([p r2] & H2 & Hk).
    apply read_uint_inv in H2 as (-> & Hp & Hr2); [|done]. simplify_eq.
    split_and!; [by rewrite <- ?app_assoc|done..]. }
  destruct (Z.eqb_spec atyp ATYP_V6) as [->|].
  { rewrite res_bind_ok in Hk. destruct Hk as ([ip r1] & H1 & Hk).
    apply read_uint_inv in H1 as (-> & Hip & Hr1); [|done].
    rewrite res_bind_ok in Hk. destruct Hk as ([p r2] & H2 & Hk).
    apply read_uint_inv in H2 as (-> & Hp & Hr2); [|done]. simplify_eq.
    split_and!; [by rewrite <- ?app_assoc|done..]. }
  destruct (Z.eqb_spec atyp ATYP_DOMAIN) as [->|]; [|done].
  rewrite res_bind_ok in Hk. destruct Hk as ([dl r1] & H1 & Hk).
  apply read_uint_inv in H1 as (-> & Hdl & Hr1); [|done].
  rewrite res_bind_ok in Hk. destruct Hk as ([buf r2] & H2 & Hk).
  apply read_bytes_inv in H2 as (-> & Hlen). apply Forall_app in Hr1 as [_ Hr2].
  destruct (negb _); [done|]. destruct (from_utf8 buf) as [d|] eqn:Eu; [|done].
  rewrite res_bind_ok in Hk. destruct Hk as ([p r3] & H3 & Hk).
  apply read_uint_inv in H3 as (-> & Hp & Hr3); [|done]. simplify_eq.
  apply from_utf8_inv in Eu as [<- Hsc].
  assert (str_len d = dl) as Hsl by (unfold str_len, zlen; rewrite Hlen; destruct Hdl; lia).
  cbn [wf_socks wire write_buf]. rewrite Hsl, wrap_small by done. split_and!; [|done|unfold in_width in Hdl; lia|done|done].
  rewrite (be_bytes_1 dl) by done. rewrite <- !app_assoc. done.
Qed.

(** C17: encoding then decoding.  For every well-formed address (a domain of at
    most 255 bytes), the stream reader, the datagram reader and the slice
    decoder all return the address as transmitted ([wire]) from
    [write_buf] followed by any bytes, the first two leave exactly those
    bytes unread, and [size] is the number of bytes written. *)
Theorem socks_addr_roundtrip (a : SocksAddr) (rest : list Z)
    (Hwf : wf_socks a) (Hrest : Forall u8 rest) :
  read_from (write_buf a [] ++ rest) = Ok (wire a, rest) /\
  peek_cursor (write_buf a [] ++ rest) = Ok (wire a, rest) /\
  try_from_bytes (write_buf a [] ++ rest) = Ok (wire a) /\
  zlen (write_buf a []) = socks_size a.
Proof.
  split_and!; [by apply read_from_write_buf|by apply peek_cursor_write_buf| |apply write_buf_size].
  eapply try_from_bytes_peek; [|by apply peek_cursor_write_buf].
  apply Forall_app_2; [by apply write_buf_u8|done].
Qed.

Lemma socks_addr_roundtrip_witness :
  read_from (write_buf (Domain (lit "example.com") 443) [] ++ [1; 2]) =
    Ok (Domain (lit "example.com") 443, [1; 2]).
Proof.
  apply (socks_addr_roundtrip (Domain (lit "example.com") 443) [1; 2]).
  - split; [|split; [by vm_compute|by vm_compute]].
    apply (bool_decide_unpack _). vm_compute. exact I.
  - apply (bool_decide_unpack _). vm_compute. exact I.
Defined.

(** Decoding is exact.  When the stream reader accepts, the bytes it
    consumed are exactly the encoding of the address it returns, and that
    address is well-formed; so two byte streams never decode to the same
    address unless they start with the same bytes. *)
Theorem socks_addr_decode_exact (bs : list Z) (a : SocksAddr) (rest : list Z)
    (H8 : Forall u8 bs) (Hr : read_from bs = Ok (a, rest)) :
  bs = write_buf a [] ++ rest /\ wf_socks a /\ wire a = a.
Proof. by apply read_from_inv. Qed.

Lemma socks_addr_decode_exact_witness :
  [1; 127; 0; 0; 1; 0; 80; 9] = write_buf (Ip (SV4 2130706433 80)) [] ++ [9].
Proof.
  apply (socks_addr_decode_exact [1; 127; 0; 0; 1; 0; 80; 9] (Ip (SV4 2130706433 80)) [9]).
  - apply (bool_decide_unpack _). vm_compute. exact I.
  - vm_compute. reflexivity.
Defined.

Lemma peek_cursor_panic_fwd cur :
  Forall u8 cur -> peek_cursor cur = Panic ->
  exists n rest, cur = ATYP_DOMAIN :: n :: rest /\ n <= zlen rest < n + 2.
Proof.
  intros H8. unfold peek_cursor. destruct (Z.ltb_spec (zlen cur) 2) as [|Hlen]; [done|].
  destruct cur as [|atyp cur]; [unfold zlen in Hlen; simpl in Hlen; lia|].
  rewrite get_u8_cons. rstep.
  destruct (atyp =? ATYP_V4).
  { destruct (Z.ltb_spec (zlen cur) (4 + 2)); [done|]. unfold zlen in *.
    rewrite get_uint_long by lia. rstep. by rewrite get_uint_long by (rewrite length_drop; lia). }
  destruct (atyp =? ATYP_V6).
  { destruct (Z.ltb_spec (zlen cur) (16 + 2)); [done|]. unfold zlen in *.
    rewrite get_uint_long by lia. rstep. by rewrite get_uint_long by (rewrite length_drop; lia). }
  destruct (Z.eqb_spec atyp ATYP_DOMAIN) as [->|]; [|done].
  destruct cur as [|n rest]; [unfold zlen in Hlen; simpl in Hlen; lia|].
  rewrite get_u8_cons. rstep. destruct (Z.ltb_spec (zlen rest) n) as [|Hn]; [done|].
  rewrite !Forall_cons in H8. destruct H8 as (_ & [Hn0 _] & _).
  unfold get_bytes. unfold zlen in *. rewrite decide_True by lia. rstep.
  destruct (decide (2 <= length (drop (Z.to_nat n) rest))%nat) as [Hp|Hp].
  { rewrite get_uint_long by done. rstep. by destruct (from_utf8 _). }
  rewrite length_drop in Hp. intros _. exists n, rest. unfold zlen. split; [done|lia].
Qed.

Lemma peek_cursor_panic_bwd n rest :
  0 <= n -> n <= zlen rest < n + 2 -> peek_cursor (ATYP_DOMAIN :: n :: rest) = Panic.
Proof.
  intros Hn0 Hn. unfold peek_cursor.
  rewrite (proj2 (Z.ltb_ge _ _)) by (unfold zlen; simpl; lia).
  rewrite get_u8_cons. rstep. atyp. rewrite get_u8_cons. rstep.
  rewrite (proj2 (Z.ltb_ge _ _)) by lia. unfold get_bytes, zlen in *.
  rewrite decide_True by lia. rstep.
  by rewrite get_uint_short by (rewrite length_drop; lia).
Qed.

(** When the datagram reader panics.  [peek_read] checks every length but
    one: a domain-typed address whose port is cut off makes [get_u16] read
    past the end of the buffer.  Those buffers, and no others, panic. *)
Theorem peek_read_panic_iff (cur : list Z) (H8 : Forall u8 cur) :
  peek_read cur = Panic <->
  exists n rest, cur = ATYP_DOMAIN :: n :: rest /\ n <= zlen rest < n + 2.
Proof.
  assert (peek_read cur = Panic <-> peek_cursor cur = Panic) as ->.
  { unfold peek_read. by destruct (peek_cursor cur) as [[]| |]. }
  split; [by apply peek_cursor_panic_fwd|].
  intros (n & rest & -> & Hn). rewrite !Forall_cons in H8. destruct H8 as (_ & [Hn0 _] & _).
  by apply peek_cursor_panic_bwd.
Qed.

Lemma peek_read_panic_iff_witness : peek_read [3; 1; 97; 0] = Panic.
Proof.
  apply (peek_read_panic_iff [3; 1; 97; 0]).
  - apply (bool_decide_unpack _). vm_compute. exact I.
  - exists 1, [97; 0]. split; [reflexivity|vm_compute; split; congruence].
Defined.

Lemma try_from_bytes_domain n rest :
  0 <= n ->
  try_from_bytes (ATYP_DOMAIN :: n :: rest) =
    if zlen rest <? n + 1 then Err insuff_bytes
    else match from_utf8 (take (Z.to_nat n) rest) with
         | None => Err "invalid domain"
         | Some d => if zlen rest <? n + 2 then Panic
                     else Ok (Domain d (be_val (take 2 (drop (Z.to_nat n) rest))))
         end.
Proof.
  intros Hn. unfold try_from_bytes. atyp. change (zidx (ATYP_DOMAIN :: n :: rest) 1) with (Ok n).
  rstep. assert (zlen (ATYP_DOMAIN :: n :: rest) = zlen rest + 2) as Hz by (unfold zlen; simpl; lia).
  rewrite Hz. destruct (Z.ltb_spec (zlen rest) (n + 1)).
  { by rewrite (proj2 (Z.ltb_lt _ _)) by lia. }
  rewrite (proj2 (Z.ltb_ge _ _)) by lia.
  rewrite (zslice_ok _ 2) by lia. rstep. change (drop (Z.to_nat 2) (ATYP_DOMAIN :: n :: rest)) with rest.
  replace (Z.to_nat (n + 2 - 2)) with (Z.to_nat n) by lia.
  destruct (from_utf8 _); [|done]. destruct (Z.ltb_spec (zlen rest) (n + 2)).
  { by rewrite zslice_panic by lia. }
  rewrite zslice_ok by lia. rstep. replace (Z.to_nat (n + 2)) with (S (S (Z.to_nat n))) by lia.
  by replace (Z.to_nat (n + 4 - (n + 2))) with 2%nat by lia.
Qed.

(** When the slice decoder panics.  The length test of the domain branch
    asks for one byte of port instead of two, and never checks that the
    length byte itself is there: exactly a lone domain tag, or a valid
    domain followed by a single port byte, index out of bounds. *)
Theorem try_from_bytes_panic_iff (buf : list Z) (H8 : Forall u8 buf) :
  try_from_bytes buf = Panic <->
  buf = [ATYP_DOMAIN] \/
  exists n rest d, buf = ATYP_DOMAIN :: n :: rest /\ zlen rest = n + 1 /\
    from_utf8 (take (Z.to_nat n) rest) = Some d.
Proof.
  destruct buf as [|atyp buf].
  { split; [done|]. intros [?|(?&?&?&?&_)]; done. }
  destruct (Z.eqb_spec atyp ATYP_DOMAIN) as [->|Hne].
  - destruct buf as [|n rest]; [split; [by left|done]|].
    rewrite !Forall_cons in H8. destruct H8 as (_ & [Hn0 _] & _).
    rewrite try_from_bytes_domain by done. split.
    + destruct (Z.ltb_spec (zlen rest) (n + 1)); [done|].
      destruct (from_utf8 _) eqn:Eu; [|done]. destruct (Z.ltb_spec (zlen rest) (n + 2)); [|done].
      intros _. right. exists n, rest, l. split_and!; [done|lia|done].
    + intros [?|(n' & rest' & d & ? & Hz & Eu)]; simplify_eq.
      rewrite Eu, (proj2 (Z.ltb_ge _ _)), (proj2 (Z.ltb_lt _ _)) by lia. done.
  - split; [|intros [?|(?&?&?&?&_)]; simplify_eq].
    unfold try_from_bytes. rewrite (proj2 (Z.eqb_neq atyp ATYP_DOMAIN)) by done.
    destruct (atyp =? ATYP_V4); [|destruct (atyp =? ATYP_V6); [|done]].
    + destruct (Z.ltb_spec (zlen (atyp :: buf)) (1 + 4 + 2)); [done|]. by rewrite !zslice_ok by lia.
    + destruct (Z.ltb_spec (zlen (atyp :: buf)) (1 + 16 + 2)); [done|]. by rewrite !zslice_ok by lia.
Qed.

Lemma try_from_bytes_panic_iff_witness : try_from_bytes [3; 1; 97; 0] = Panic.
Proof.
  apply (try_from_bytes_panic_iff [3; 1; 97; 0]).
  - apply (bool_decide_unpack _). vm_compute. exact I.
  - right. exists 1, [97; 0], [97]. split_and!; reflexivity.
Defined.

(** Cloning an address.  A clone is the original exactly when the address
    is an [Ip], or a domain that is not an IP literal and has at most 255
    bytes; a longer domain panics, and a domain that spells an IP address
    becomes an [Ip]. *)
Theorem socks_clone_spec (a : SocksAddr) :
  socks_clone a =
    match a with
    | Ip _ => Ok a
    | Domain d p =>
      match parse_ip d with
      | Some ip => Ok (Ip (sa_new ip p))
      | None => if 255 <? str_len d then Panic else Ok a
      end
    end.
Proof.
  destruct a as [|d p]; [done|]. unfold socks_clone, try_from_host_port.
  destruct (parse_ip d); [done|]. by destruct (_ <? _).
Qed.

(** Printing and parsing.  An IPv4 socket address, and a domain without
    [:] that does not make the text an IP socket address, is read back by
    [from_str] from its [Display] form. *)
Theorem socks_display_roundtrip (a : SocksAddr)
    (Ha : match a with
          | Ip (SV4 ip p) => u32 ip /\ u16 p
          | Ip (SV6 _ _ _ _) => False
          | Domain d p => u16 p /\ Forall (.≠ 58) d /\ parse_socket_addr (d ++ 58 :: dec p) = None
          end) :
  socks_from_str (socks_to_string a) = Ok a.
Proof.
  unfold socks_from_str. destruct a as [[ip p|]|d p]; [| done |].
  - destruct Ha as [Hip Hp]. assert (contains_char 58 (socks_to_string (Ip (SV4 ip p))) = true) as ->.
    { apply contains_char_app. }
    cbn [socks_to_string]. by rewrite parse_show_socket_v4.
  - destruct Ha as (Hp & Hd & Hno). cbn [socks_to_string].
    assert (contains_char 58 (d ++ 58 :: dec p) = true) as ->.
    { apply contains_char_app. }
    rewrite Hno, split_on_app_sep, split_on_single.
    + by rewrite parse_uint_dec.
    + eapply Forall_impl; [by apply dec_digits, Hp|]. unfold is_digit. intros; lia.
    + done.
Qed.

Lemma socks_display_roundtrip_witness :
  socks_from_str (lit "example.com:443") = Ok (Domain (lit "example.com") 443).
Proof.
  apply (socks_display_roundtrip (Domain (lit "example.com") 443)). split_and!.
  - by vm_compute.
  - apply (bool_decide_unpack _). vm_compute. exact I.
  - vm_compute. reflexivity.
Defined.
