(* ===== verification/Trie.v ===== *)
(** * The domain trie ([clash-lib/src/common/trie.rs])

    Domain patterns ([example.com], [*.example.com], [.example.com],
    [+.example.com]) are stored label by label, top-level label first.  The
    abstract view of a trie is the finite map from paths to data
    ([node_data_at]); every operation is shown to act on that map, and
    [search] to compute a priority search in it. *)

From S2P Require Import Prelude Str.

(** A [HashMap] whose iteration order is the list order. *)
Section alist.
Context {K V : Type} `{EqDecision K}.
Fixpoint alist_get (k : K) (l : list (K * V)) : option V :=
  match l with
  | [] => None
  | (k', v) :: l' => if decide (k = k') then Some v else alist_get k l'
  end.
Fixpoint alist_insert (k : K) (v : V) (l : list (K * V)) : list (K * V) :=
  match l with
  | [] => [(k, v)]
  | (k', v') :: l' => if decide (k = k') then (k, v) :: l' else (k', v') :: alist_insert k v l'
  end.

Lemma alist_get_insert k k' v l :
  alist_get k' (alist_insert k v l) = if decide (k' = k) then Some v else alist_get k' l.
Proof.
  induction l as [|[a b] l IH]; simpl; [done|]. repeat (case_decide; simpl; subst); congruence.
Qed.
Lemma alist_get_elem k v l : alist_get k l = Some v -> (k, v) ∈ l.
Proof.
  induction l as [|[a b] l IH]; simpl; [done|]. case_decide; intros ?; simplify_eq; [left|right]; auto.
Qed.
Lemma alist_elem_get k v l : NoDup l.*1 -> (k, v) ∈ l -> alist_get k l = Some v.
Proof.
  induction l as [|[a b] l IH]; simpl; intros Hnd Hin; [by inv Hin|].
  apply NoDup_cons in Hnd as [Ha Hnd]. apply elem_of_cons in Hin as [?|Hin]; simplify_eq.
  - by rewrite decide_True.
  - rewrite decide_False; [by apply IH|]. intros ->. apply Ha. by apply (list_elem_of_fmap_2 fst) in Hin.
Qed.
Lemma alist_insert_keys k v l x : x ∈ (alist_insert k v l).*1 <-> x = k \/ x ∈ l.*1.
Proof.
  induction l as [|[a b] l IH]; simpl.
  - rewrite elem_of_cons. set_solver.
  - case_decide; simpl; rewrite ?elem_of_cons, ?IH; subst; tauto.
Qed.
Lemma alist_insert_nodup k v l : NoDup l.*1 -> NoDup (alist_insert k v l).*1.
Proof.
  induction l as [|[a b] l IH]; simpl; intros Hnd.
  - apply NoDup_singleton.
  - apply NoDup_cons in Hnd as [Ha Hnd]. case_decide; simpl; apply NoDup_cons; subst; [done|].
    split; [|by apply IH]. rewrite alist_insert_keys. intros [->|?]; done.
Qed.
Lemma alist_insert_forall (P : K * V -> Prop) k v l :
  Forall P l -> P (k, v) -> Forall P (alist_insert k v l).
Proof. induction 1 as [|[a b] l]; simpl; intros; [by constructor|]. case_decide; by constructor; auto. Qed.
End alist.

(* @src clash-lib/src/common/trie.rs 3 3 DOMAIN_STEP *)
Definition DOMAIN_STEP : char := 46.
(* @src clash-lib/src/common/trie.rs 4 4 COMPLEX_WILDCARD *)
Definition COMPLEX_WILDCARD : str := lit "+".
(* @src clash-lib/src/common/trie.rs 5 5 DOT_WILDCARD *)
Definition DOT_WILDCARD : str := lit "".
(* @src clash-lib/src/common/trie.rs 6 6 WILDCARD *)
Definition WILDCARD : str := lit "*".

(* @src clash-lib/src/common/trie.rs 8 11 Node *)
Inductive Node (T : Type) : Type :=
| mkNode (children : list (str * Node T)) (data : option T).
Arguments mkNode {T} children data.

Section trie.
Context {T : Type}.

(* @src clash-lib/src/common/trie.rs ~fn get_children~ Node::get_children *)
Definition get_children (n : Node T) : list (str * Node T) :=
  match n with mkNode cs _ => cs end.
(* @src clash-lib/src/common/trie.rs ~fn get_data~ Node::get_data *)
Definition get_data (n : Node T) : option T :=
  match n with mkNode _ d => d end.
(* @src clash-lib/src/common/trie.rs ~pub fn new~#1 Node::new *)
Definition node_new : Node T := mkNode [] None.
(* @src clash-lib/src/common/trie.rs ~fn get_child\(~ Node::get_child *)
Definition get_child (n : Node T) (s : str) : option (Node T) := alist_get s (get_children n).
(* @src clash-lib/src/common/trie.rs ~fn has_child~ Node::has_child *)
Definition has_child (n : Node T) (s : str) : bool := bool_decide (is_Some (get_child n s)).
(* @src clash-lib/src/common/trie.rs ~fn add_child~ Node::add_child *)
Definition add_child (n : Node T) (s : str) (child : Node T) : Node T :=
  mkNode (alist_insert s child (get_children n)) (get_data n).

(* @src clash-lib/src/common/trie.rs ~pub struct StringTrie~ StringTrie *)
Record StringTrie : Type := { root : Node T }.
(* @src clash-lib/src/common/trie.rs ~pub fn new~#2 StringTrie::new *)
Definition trie_new : StringTrie := {| root := node_new |}.

(* @src clash-lib/src/common/trie.rs ~^pub fn valid_and_split~ valid_and_split_domain *)
Definition valid_and_split_domain (domain : str) : option (list str) * bool :=
  if negb (bool_decide (domain = [])) && ends_with [46] domain then (None, false)
  else
    let parts := split_on DOMAIN_STEP domain in
    if (length parts =? 1)%nat then
      match parts with
      | [] :: _ => (None, false)
      | _ => (Some parts, true)
      end
    else if existsb (fun p => bool_decide (p = [])) (drop 1 parts) then (None, false)
    else (Some parts, true).

(** The loop of [insert_inner] walks from the last part to the first,
    creating missing children; the cursor [node] is the argument. *)
(* @src clash-lib/src/common/trie.rs ~for i in \(0..parts~ StringTrie::insert_inner (loop) *)
Fixpoint insert_at (node : Node T) (path : list str) (d : T) : Node T :=
  match path with
  | [] => mkNode (get_children node) (Some d)
  | part :: path' =>
    let node := if has_child node part then node else add_child node part node_new in
    match get_child node part with
    | Some c => add_child node part (insert_at c path' d)
    | None => node
    end
  end.

(* @src clash-lib/src/common/trie.rs ~fn insert_inner~ StringTrie::insert_inner *)
Definition insert_inner (t : StringTrie) (parts : list str) (d : T) : StringTrie :=
  {| root := insert_at (root t) (reverse parts) d |}.

(* @src clash-lib/src/common/trie.rs ~pub fn insert~ StringTrie::insert *)
Definition trie_insert (t : StringTrie) (domain : str) (d : T) : StringTrie * bool :=
  match valid_and_split_domain domain with
  | (Some ((p :: rest) as parts), true) =>
    if bool_decide (p = COMPLEX_WILDCARD)
    then (insert_inner (insert_inner t rest d) (DOT_WILDCARD :: rest) d, true)
    else (insert_inner t parts d, true)
  | _ => (t, false)
  end.

(** [search_inner] with the parts still to match, last part first. *)
(* @src clash-lib/src/common/trie.rs ~fn search_inner~ StringTrie::search_inner (body) *)
Fixpoint search_path (node : Node T) (path : list str) : option (Node T) :=
  match path with
  | [] => Some node
  | part :: path' =>
    let through (s : str) : option (Node T) :=
      match get_child node s with
      | Some c =>
        match search_path c path' with
        | Some n => if bool_decide (is_Some (get_data n)) then Some n else None
        | None => None
        end
      | None => None
      end in
    match through part with
    | Some n => Some n
    | None => match through WILDCARD with
              | Some n => Some n
              | None => get_child node DOT_WILDCARD
              end
    end
  end.

(* @src clash-lib/src/common/trie.rs ~fn search_inner~ StringTrie::search_inner *)
Definition search_inner (node : Node T) (parts : list str) : option (Node T) :=
  search_path node (reverse parts).

(* @src clash-lib/src/common/trie.rs ~pub fn search~ StringTrie::search *)
Definition trie_search (t : StringTrie) (domain : str) : option (Node T) :=
  match valid_and_split_domain domain with
  | (Some ((p :: _) as parts), true) =>
    if bool_decide (p = []) then None
    else match search_inner (root t) parts with
         | Some n => if bool_decide (is_Some (get_data n)) then Some n else None
         | None => None
         end
  | _ => None
  end.

(** The [FnMut] callback of [traverse] threads its captured state [S]. *)
Section traverse.
Context {S : Type} (f : S -> str -> T -> S * bool).

(* @src clash-lib/src/common/trie.rs 132 138 StringTrie::traverse_inner (key) *)
Definition traverse_key (keys : list str) : str :=
  let domain := join [DOMAIN_STEP] keys in
  if starts_with [DOMAIN_STEP] domain then COMPLEX_WILDCARD ++ domain else domain.

(* @src clash-lib/src/common/trie.rs ~fn traverse_inner~ StringTrie::traverse_inner *)
Fixpoint traverse_inner (keys : list str) (node : Node T) (s : S) : S * bool :=
  match node with
  | mkNode cs _ =>
    (fix go (cs : list (str * Node T)) (s : S) : S * bool :=
      match cs with
      | [] => (s, true)
      | (key, child) :: cs' =>
        let keys' := key :: keys in
        let '(s, cont) := match get_data child with
                          | Some d => f s (traverse_key keys') d
                          | None => (s, true)
                          end in
        if (cont : bool) then
          let '(s, cont) := traverse_inner keys' child s in
          if (cont : bool) then go cs' s else (s, false)
        else (s, false)
      end) cs s
  end.

(** The loop of [traverse] over the root's children: the result of
    [traverse_inner] is dropped, as in the source. *)
(* @src clash-lib/src/common/trie.rs ~for \(key, child\) in self.root~ StringTrie::traverse (loop) *)
Fixpoint traverse_children (cs : list (str * Node T)) (s : S) : S :=
  match cs with
  | [] => s
  | (key, child) :: cs' =>
    let '(s, _) := traverse_inner [key] child s in
    match get_data child with
    | Some d => let '(s, cont) := f s key d in
                if (cont : bool) then traverse_children cs' s else s
    | None => traverse_children cs' s
    end
  end.

(* @src clash-lib/src/common/trie.rs ~pub fn traverse~ StringTrie::traverse *)
Definition trie_traverse (t : StringTrie) (s : S) : S :=
  traverse_children (get_children (root t)) s.
End traverse.

(** [traverse] with a callback that pushes every entry and continues. *)
Definition push_entry (acc : list (str * T)) (k : str) (d : T) : list (str * T) * bool :=
  (acc ++ [(k, d)], true).
Definition trie_entries (t : StringTrie) : list (str * T) := trie_traverse push_entry t [].

(** ** Abstract view *)
Fixpoint node_data_at (node : Node T) (path : list str) : option T :=
  match path with
  | [] => get_data node
  | l :: path' => get_child node l ≫= fun c => node_data_at c path'
  end.
Definition data_at (t : StringTrie) (path : list str) : option T := node_data_at (root t) path.

(** Search in a map from paths to data: exact label first, then [*], then a
    trailing dot wildcard. *)
Fixpoint find_best (f : list str -> option T) (labels : list str) : option T :=
  match labels with
  | [] => f []
  | l :: ls =>
    match find_best (fun p => f (l :: p)) ls with
    | Some d => Some d
    | None => match find_best (fun p => f (WILDCARD :: p)) ls with
              | Some d => Some d
              | None => f [DOT_WILDCARD]
              end
    end
  end.

(** The paths a pattern stores its data at. *)
Definition pattern_paths (pattern : str) : list (list str) :=
  match valid_and_split_domain pattern with
  | (Some ((p :: rest) as parts), true) =>
    if bool_decide (p = COMPLEX_WILDCARD)
    then [reverse (DOT_WILDCARD :: rest); reverse rest]
    else [reverse parts]
  | _ => []
  end.

(** Labels of a domain that [search] accepts, top-level label first. *)
Definition search_labels (domain : str) : option (list str) :=
  match valid_and_split_domain domain with
  | (Some ((p :: _) as parts), true) => if bool_decide (p = []) then None else Some (reverse parts)
  | _ => None
  end.
End trie.
Arguments StringTrie T : clear implicits.
Arguments trie_new {T}.

(** One pattern path against the labels of a domain. *)
Inductive path_matches : list str -> list str -> Prop :=
| pm_nil : path_matches [] []
| pm_label l p ls : path_matches p ls -> path_matches (l :: p) (l :: ls)
| pm_star l p ls : path_matches p ls -> path_matches (WILDCARD :: p) (l :: ls)
| pm_dot l ls : path_matches [DOT_WILDCARD] (l :: ls).

(** A pattern matches a domain when one of its paths matches its labels. *)
Definition pattern_matches (pattern domain : str) : Prop :=
  exists p ls, p ∈ pattern_paths pattern /\ search_labels domain = Some ls /\ path_matches p ls.

(** Inserting a list of patterns into an empty trie. *)
Definition build {T} (ps : list (str * T)) : StringTrie T :=
  foldl (fun t '(p, d) => (trie_insert t p d).1) trie_new ps.

(** * Lemmas *)
Section trie_lemmas.
Context {T : Type}.
Implicit Types (n : Node T) (t : StringTrie T) (p q ls : list str) (d : T).

Lemma get_child_add n s c k :
  get_child (add_child n s c) k = if decide (k = s) then Some c else get_child n k.
Proof. unfold get_child, add_child. simpl. apply alist_get_insert. Qed.

Lemma get_data_add n s c : get_data (add_child n s c) = get_data n.
Proof. done. Qed.

Lemma insert_at_cons n l p d :
  (forall k, get_child (insert_at n (l :: p) d) k =
    if decide (k = l) then Some (insert_at (default node_new (get_child n l)) p d)
    else get_child n k) /\
  get_data (insert_at n (l :: p) d) = get_data n.
Proof.
  cbn [insert_at]. unfold has_child. destruct (get_child n l) as [c|] eqn:E.
  - rewrite bool_decide_true by done. rewrite E. split; [|done].
    intros k. by rewrite get_child_add.
  - rewrite bool_decide_false by (by intros [? ?]).
    rewrite get_child_add, decide_True by done. split; [|done].
    intros k. rewrite !get_child_add. by case_decide.
Qed.

Lemma node_data_at_new p : node_data_at (@node_new T) p = None.
Proof. by destruct p. Qed.

Lemma node_data_at_insert n p q d :
  node_data_at (insert_at n p d) q = if decide (q = p) then Some d else node_data_at n q.
Proof.
  revert n q. induction p as [|l p IH]; intros n q.
  - destruct q as [|k q]; [done|]. rewrite decide_False by done. by destruct n.
  - destruct (insert_at_cons n l p d) as [Hc Hd]. destruct q as [|k q].
    + rewrite decide_False by done. cbn [node_data_at]. by rewrite Hd.
    + cbn [node_data_at]. rewrite Hc. destruct (decide (k = l)) as [->|].
      * simpl. rewrite IH. destruct (decide (q = p)) as [->|].
        { by rewrite decide_True. }
        rewrite decide_False by congruence. destruct (get_child n l); [done|].
        simpl. apply node_data_at_new.
      * by rewrite decide_False by congruence.
Qed.

Lemma data_at_insert_inner t parts d q :
  data_at (insert_inner t parts d) q = if decide (q = reverse parts) then Some d else data_at t q.
Proof. apply node_data_at_insert. Qed.

Lemma trie_insert_spec t pat d :
  (forall q, data_at (trie_insert t pat d).1 q =
    if decide (q ∈ pattern_paths pat) then Some d else data_at t q) /\
  (trie_insert t pat d).2 = bool_decide (pattern_paths pat <> []).
Proof.
  unfold trie_insert, pattern_paths.
  destruct (valid_and_split_domain pat) as [[[|p rest]|] []]; simpl;
    try done.
  destruct (bool_decide (p = COMPLEX_WILDCARD)).
  - split; [|by rewrite bool_decide_true]. intros q. simpl. rewrite !data_at_insert_inner.
    repeat case_decide; try done; set_solver.
  - split; [|by rewrite bool_decide_true]. intros q. simpl. rewrite data_at_insert_inner.
    repeat case_decide; try done; set_solver.
Qed.

Definition found (o : option (Node T)) : option T := o ≫= get_data.

Lemma find_best_none p : find_best (fun _ => @None T) p = None.
Proof. induction p as [|x p IH]; [done|]. simpl. by rewrite IH. Qed.

Lemma search_path_spec n p : found (search_path n p) = find_best (node_data_at n) p.
Proof.
  revert n. induction p as [|l p IH]; intros n; [done|]. cbn [search_path find_best].
  assert (forall s,
    found (match get_child n s with
     | Some c => match search_path c p with
                 | Some m => if bool_decide (is_Some (get_data m)) then Some m else None
                 | None => None end
     | None => None end) = find_best (fun q => node_data_at n (s :: q)) p /\
    (match get_child n s with
     | Some c => match search_path c p with
                 | Some m => if bool_decide (is_Some (get_data m)) then Some m else None
                 | None => None end
     | None => None end = None <-> find_best (fun q => node_data_at n (s :: q)) p = None)) as H.
  { intros s. cbn [node_data_at]. destruct (get_child n s) as [c|].
    - cbn [mbind option_bind]. change (fun q => node_data_at c q) with (node_data_at c).
      rewrite <- (IH c). destruct (search_path c p) as [m|]; [|done]. simpl.
      case_bool_decide as Hd; [split; [done|]|].
      + simpl. destruct (get_data m); [done|by destruct Hd].
      + simpl. destruct (get_data m); [by exfalso; apply Hd|done].
    - simpl. by rewrite find_best_none. }
  destruct (H l) as [H1 H1n]. destruct (match get_child n l with Some _ => _ | None => _ end) as [m|].
  { rewrite <- H1. simpl. destruct (get_data m) eqn:E; [done|].
    exfalso. rewrite <- H1 in H1n. simpl in H1n. rewrite E in H1n. by specialize (proj2 H1n eq_refl). }
  rewrite <- H1. change (found (@None (Node T))) with (@None T). cbv iota.
  destruct (H WILDCARD) as [H2 H2n].
  destruct (match get_child n WILDCARD with Some _ => _ | None => _ end) as [m|].
  { rewrite <- H2. simpl. destruct (get_data m) eqn:E; [done|].
    exfalso. rewrite <- H2 in H2n. simpl in H2n. rewrite E in H2n. by specialize (proj2 H2n eq_refl). }
  rewrite <- H2. done.
Qed.

Lemma trie_search_spec t dom :
  found (trie_search t dom) = search_labels dom ≫= find_best (data_at t) /\
  (is_Some (trie_search t dom) <-> is_Some (found (trie_search t dom))).
Proof.
  unfold trie_search, search_labels.
  destruct (valid_and_split_domain dom) as [[[|p rest]|] []];
    try (split; [done|split; intros [? ?]; done]).
  destruct (bool_decide (p = [])); [split; [done|split; intros [? ?]; done]|].
  cbn [mbind option_bind]. unfold data_at. rewrite <- search_path_spec. unfold search_inner.
  destruct (search_path _ _) as [m|]; [|split; [done|split; intros [? ?]; done]].
  simpl. case_bool_decide as Hd; simpl.
  - split; [done|]. split; [done|by eexists].
  - split; [|split; intros [? ?]; done]. destruct (get_data m); [by exfalso; apply Hd|done].
Qed.

Lemma find_best_complete (f : list str -> option T) ls :
  is_Some (find_best f ls) <-> exists p, is_Some (f p) /\ path_matches p ls.
Proof.
  revert f. induction ls as [|l ls IH]; intros f; cbn [find_best].
  - split; [intros; exists []; split; [done|constructor]|].
    intros (p & Hp & Hm). by inv Hm.
  - split.
    + destruct (find_best (fun p => f (l :: p)) ls) eqn:E1.
      { intros _. destruct (proj1 (IH _) (mk_is_Some _ _ E1)) as (p & ? & ?).
        exists (l :: p). split; [done|by constructor]. }
      destruct (find_best (fun p => f (WILDCARD :: p)) ls) eqn:E2.
      { intros _. destruct (proj1 (IH _) (mk_is_Some _ _ E2)) as (p & ? & ?).
        exists (WILDCARD :: p). split; [done|by constructor]. }
      intros ?. exists [DOT_WILDCARD]. split; [done|constructor].
    + intros (p & Hf & Hm). inv Hm as [|? p' ? Hm'|? p' ? Hm'|].
      * destruct (proj2 (IH (fun p => f (l :: p)))) as [? ->]; [by exists p'|done].
      * destruct (find_best (fun p => f (l :: p)) ls); [done|].
        destruct (proj2 (IH (fun p => f (WILDCARD :: p)))) as [? ->]; [by exists p'|done].
      * destruct (find_best (fun p => f (l :: p)) ls); [done|].
        by destruct (find_best (fun p => f (WILDCARD :: p)) ls).
Qed.

Lemma data_at_build (ps : list (str * T)) q :
  is_Some (data_at (build ps) q) <-> exists pat d, (pat, d) ∈ ps /\ q ∈ pattern_paths pat.
Proof.
  unfold build. induction ps as [|[pat d] ps IH] using rev_ind.
  - simpl. split; [by destruct q; intros [? ?]|]. intros (? & ? & H & _). by inv H.
  - rewrite foldl_app. simpl. rewrite (proj1 (trie_insert_spec _ pat d)).
    setoid_rewrite elem_of_app. case_decide as Hq.
    + split; [|done]. intros _. exists pat, d. split; [|done]. right. by constructor.
    + rewrite IH. split; [naive_solver|]. intros (p' & d' & [?|Hin] & ?); [eauto|].
      apply list_elem_of_singleton in Hin. by simplify_eq.
Qed.
End trie_lemmas.

(** How specific a pattern label is against a domain label: equal, [*], or
    the final dot wildcard. *)
Definition label_rank (l x : str) : nat :=
  if decide (x = l) then 0 else if decide (x = WILDCARD) then 1 else 2.

(** [prefers ls p p']: reading from the top-level label, [p] is at least as
    specific as [p']. *)
Fixpoint prefers (ls p p' : list str) : Prop :=
  match ls, p, p' with
  | l :: ls, x :: p, x' :: p' =>
    (label_rank l x < label_rank l x')%nat \/ (x = x' /\ prefers ls p p')
  | _, _, _ => True
  end.

(** A label that is not one of the two markers. *)
Definition plain_label (l : str) : Prop := l <> WILDCARD /\ l <> DOT_WILDCARD.

Section trie_order.
Context {T : Type}.

Lemma find_best_prefers (f : list str -> option T) ls d :
  Forall plain_label ls ->
  find_best f ls = Some d ->
  exists p, f p = Some d /\ path_matches p ls /\
    forall p', is_Some (f p') -> path_matches p' ls -> prefers ls p p'.
Proof.
  revert f. induction ls as [|l ls IH]; intros f Hpl Hf; cbn [find_best] in Hf.
  - exists []. split_and!; [done|constructor|done].
  - apply Forall_cons in Hpl as [[Hs Hd] Hpl].
    assert (label_rank l l = 0%nat) as R0 by (unfold label_rank; by rewrite decide_True).
    assert (label_rank l WILDCARD = 1%nat) as R1
      by (unfold label_rank; rewrite decide_False by done; by rewrite decide_True).
    assert (label_rank l DOT_WILDCARD = 2%nat) as R2
      by (unfold label_rank; rewrite decide_False by done; by rewrite decide_False by done).
    destruct (find_best (fun p => f (l :: p)) ls) eqn:E1.
    { simplify_eq. destruct (IH _ Hpl E1) as (p & Hp & Hm & Hbest). exists (l :: p).
      split_and!; [done|by constructor|]. intros p' Hp' Hm'.
      inv Hm' as [|? q ? Hq|? q ? Hq|]; cbn [prefers]; rewrite ?R0, ?R1, ?R2;
        [right; split; [done|by apply Hbest]|left; lia|left; lia]. }
    assert (forall q, is_Some (f (l :: q)) -> path_matches q ls -> False) as N1.
    { intros q Hq Hm. destruct (proj2 (find_best_complete (fun p => f (l :: p)) ls)) as [? ?];
        [by exists q|congruence]. }
    destruct (find_best (fun p => f (WILDCARD :: p)) ls) eqn:E2.
    { simplify_eq. destruct (IH _ Hpl E2) as (p & Hp & Hm & Hbest). exists (WILDCARD :: p).
      split_and!; [done|by constructor|]. intros p' Hp' Hm'.
      inv Hm' as [|? q ? Hq|? q ? Hq|]; cbn [prefers]; rewrite ?R0, ?R1, ?R2;
        [by edestruct N1|right; split; [done|by apply Hbest]|left; lia]. }
    assert (forall q, is_Some (f (WILDCARD :: q)) -> path_matches q ls -> False) as N2.
    { intros q Hq Hm. destruct (proj2 (find_best_complete (fun p => f (WILDCARD :: p)) ls)) as [? ?];
        [by exists q|congruence]. }
    exists [DOT_WILDCARD]. split_and!; [done|constructor|]. intros p' Hp' Hm'.
    inv Hm' as [|? q ? Hq|? q ? Hq|]; cbn [prefers];
      [by edestruct N1|by edestruct N2|right; split; [done|by destruct ls]].
Qed.
End trie_order.

(** ** Traversal *)
Section trie_traverse.
Context {T : Type}.
Implicit Types (n : Node T) (t : StringTrie T).

Inductive wf_node : Node T -> Prop :=
| wf_mk cs d : NoDup cs.*1 -> Forall (fun kc => wf_node kc.2) cs -> wf_node (mkNode cs d).

Lemma node_ind' (P : Node T -> Prop)
    (H : forall cs d, Forall (fun kc => P kc.2) cs -> P (mkNode cs d)) n : P n.
Proof.
  revert n. fix IH 1. intros [cs d]. apply H.
  induction cs as [|[k c] cs IHcs]; constructor; [apply IH|exact IHcs].
Qed.

Definition here (k : str) (n : Node T) : list (str * T) :=
  match get_data n with Some d => [(k, d)] | None => [] end.

Fixpoint node_entries (keys : list str) (n : Node T) : list (str * T) :=
  match n with
  | mkNode cs _ =>
    (fix go (cs : list (str * Node T)) : list (str * T) :=
      match cs with
      | [] => []
      | (key, child) :: cs' =>
        here (traverse_key (key :: keys)) child ++ node_entries (key :: keys) child ++ go cs'
      end) cs
  end.

Lemma traverse_inner_push n keys acc :
  traverse_inner push_entry keys n acc = (acc ++ node_entries keys n, true).
Proof.
  revert keys acc. induction n as [cs d IH] using node_ind'. intros keys acc. cbn.
  revert acc. induction IH as [|[k c] cs Hc _ IHcs]; intros acc; [by rewrite app_nil_r|].
  unfold here. simpl in Hc. destruct (get_data c); simpl; rewrite Hc, IHcs; by rewrite <- ?app_assoc.
Qed.

Definition root_entries (t : StringTrie T) : list (str * T) :=
  get_children (root t) ≫= fun '(k, c) => node_entries [k] c ++ here k c.

Lemma traverse_children_push (cs : list (str * Node T)) acc :
  traverse_children push_entry cs acc = acc ++ (cs ≫= fun '(k, c) => node_entries [k] c ++ here k c).
Proof.
  revert acc. induction cs as [|[k c] cs IH]; intros acc; [by rewrite app_nil_r|].
  cbn [traverse_children]. rewrite traverse_inner_push. cbn [mbind list_bind]. unfold here.
  destruct (get_data c) as [x|]; cbn; rewrite IH; by rewrite <- ?app_assoc.
Qed.

Lemma trie_entries_root t : trie_entries t = root_entries t.
Proof. apply traverse_children_push. Qed.

Lemma elem_of_here k n x d : (x, d) ∈ here k n <-> x = k /\ get_data n = Some d.
Proof.
  unfold here. destruct (get_data n); rewrite ?list_elem_of_singleton, ?elem_of_nil;
    split; try (intros [? ?]); naive_solver.
Qed.

Lemma elem_of_node_entries n keys x d :
  wf_node n ->
  (x, d) ∈ node_entries keys n <->
  exists p, p <> [] /\ node_data_at n p = Some d /\ x = traverse_key (reverse p ++ keys).
Proof.
  revert keys. induction n as [cs dd IH] using node_ind'. intros keys Hwf. inv Hwf as [? ? Hnd Hall].
  assert ((x, d) ∈ node_entries keys (mkNode cs dd) <->
    exists k c, (k, c) ∈ cs /\
      ((x, d) ∈ here (traverse_key (k :: keys)) c \/ (x, d) ∈ node_entries (k :: keys) c)) as ->.
  { clear. cbn. induction cs as [|[k c] cs IHcs].
    - rewrite elem_of_nil. split; [done|]. intros (? & ? & H & _). by apply elem_of_nil in H.
    - rewrite !elem_of_app, IHcs. setoid_rewrite elem_of_cons. split.
      + intros [?|[?|(k' & c' & ? & ?)]]; [exists k, c; auto..|exists k', c'; auto].
      + intros (k' & c' & [Heq|Hin'] & Hor); simplify_eq; [destruct Hor; auto|eauto 8]. }
  rewrite Forall_forall in IH, Hall. split.
  - intros (k & c & Hin & [Hh|He]).
    + apply elem_of_here in Hh as [-> Hd]. exists [k]. split_and!; [done| |done].
      cbn. unfold get_child. simpl. by rewrite (alist_elem_get k c).
    + apply (IH _ Hin) in He as (p & Hp & Hd & ->); [|by apply (Hall _ Hin)].
      exists (k :: p). split_and!; [done| |by rewrite reverse_cons, <- app_assoc].
      cbn. unfold get_child. simpl. by rewrite (alist_elem_get k c).
  - intros ([|k p] & Hp & Hd & ->); [done|]. cbn in Hd. unfold get_child in Hd. simpl in Hd.
    destruct (alist_get k cs) as [c|] eqn:E; [|done]. simpl in Hd.
    apply alist_get_elem in E. exists k, c. split; [done|].
    destruct p as [|k' p]; [left; by apply elem_of_here|right].
    apply (IH _ E); [by apply (Hall _ E)|]. exists (k' :: p).
    split_and!; [done|done|]. by rewrite (reverse_cons (k' :: p)), <- app_assoc.
Qed.

(** The key under which [traverse] reports a path: the bare label for a path
    of one label, otherwise the joined labels, with [+] before a leading dot. *)
Definition entry_key (p : list str) : str :=
  match p with [k] => k | _ => traverse_key (reverse p) end.

Lemma elem_of_trie_entries t x d :
  wf_node (root t) ->
  (x, d) ∈ trie_entries t <-> exists p, p <> [] /\ data_at t p = Some d /\ x = entry_key p.
Proof.
  intros Hwf. rewrite trie_entries_root. unfold root_entries, data_at.
  destruct (root t) as [cs dd]. inv Hwf as [? ? Hnd Hall]. rewrite Forall_forall in Hall.
  rewrite list_elem_of_bind. split.
  - intros ([k c] & Hin & Hk). apply elem_of_app in Hin as [He|Hh].
    + apply elem_of_node_entries in He as (p & Hp & Hd & ->); [|by apply (Hall _ Hk)].
      exists (k :: p). split_and!; [done| |].
      * cbn. unfold get_child. simpl. by rewrite (alist_elem_get k c).
      * unfold entry_key. destruct p; [done|]. by rewrite (reverse_cons (_ :: _)).
    + apply elem_of_here in Hh as [-> Hd]. exists [k]. split_and!; [done| |done].
      cbn. unfold get_child. simpl. by rewrite (alist_elem_get k c).
  - intros ([|k p] & Hp & Hd & ->); [done|]. cbn in Hd. unfold get_child in Hd. simpl in Hd.
    destruct (alist_get k cs) as [c|] eqn:E; [|done]. apply alist_get_elem in E.
    exists (k, c). split; [|done]. apply elem_of_app. destruct p as [|k' p].
    + right. by apply elem_of_here.
    + left. apply elem_of_node_entries; [by apply (Hall _ E)|]. exists (k' :: p).
      split_and!; [done|done|]. unfold entry_key. by rewrite (reverse_cons (k' :: p)).
Qed.

Lemma wf_node_new : wf_node node_new.
Proof. constructor; constructor. Qed.

Lemma wf_add_child n s c : wf_node n -> wf_node c -> wf_node (add_child n s c).
Proof.
  intros Hn Hc. inv Hn. constructor; [by apply alist_insert_nodup|by apply alist_insert_forall].
Qed.

Lemma wf_get_child n s c : wf_node n -> get_child n s = Some c -> wf_node c.
Proof.
  intros Hn Hc. inv Hn as [cs d Hnd Hall]. apply alist_get_elem in Hc.
  rewrite Forall_forall in Hall. apply (Hall _ Hc).
Qed.

Lemma wf_insert_at n p d : wf_node n -> wf_node (insert_at n p d).
Proof.
  revert n. induction p as [|l p IH]; intros n Hn; [by inv Hn; constructor|].
  cbn [insert_at].
  assert (wf_node (if has_child n l then n else add_child n l node_new)) as Hn'.
  { destruct (has_child n l); [done|]. by apply wf_add_child, wf_node_new. }
  destruct (get_child _ l) eqn:E; [|done].
  apply wf_add_child; [done|]. apply IH. by eapply wf_get_child.
Qed.

Lemma wf_trie_insert t pat d : wf_node (root t) -> wf_node (root (trie_insert t pat d).1).
Proof.
  intros Hw. unfold trie_insert.
  destruct (valid_and_split_domain pat) as [[[|p rest]|] []]; [done..| | |done|done];
    try done. destruct (bool_decide _); simpl; repeat apply wf_insert_at; done.
Qed.

Lemma wf_build (ps : list (str * T)) : wf_node (root (build ps)).
Proof.
  unfold build. induction ps as [|[pat d] ps IH] using rev_ind; [apply wf_node_new|].
  rewrite foldl_app. by apply wf_trie_insert.
Qed.
End trie_traverse.
#[export] Hint Resolve wf_build wf_node_new wf_trie_insert wf_insert_at : clash.

Lemma build_search {T : Type} (ps : list (str * T)) (dom : str) :
  is_Some (trie_search (build ps) dom) <->
  exists pat d, (pat, d) ∈ ps /\ pattern_matches pat dom.
Proof.
  destruct (trie_search_spec (build ps) dom) as [Hf Hs]. rewrite Hs, Hf. clear Hf Hs. split.
  - destruct (search_labels dom) as [ls|] eqn:El; [|by intros [? ?]]. cbn. intros Hb.
    apply find_best_complete in Hb as (p & Hp & Hm).
    apply data_at_build in Hp as (pat & d & Hin & Hpp).
    exists pat, d. split; [done|]. by exists p, ls.
  - intros (pat & d & Hin & p & ls & Hp & -> & Hm). cbn. apply find_best_complete.
    exists p. split; [|done]. apply data_at_build. eauto.
Qed.

(** * Theorems *)

(** Insertion refines the map of paths.  Inserting a pattern writes its
    data at exactly the paths of the pattern ([+.x] stands for [x] and
    [.x]), leaves every other path alone, and returns [true] exactly when
    the pattern is valid. *)
Theorem trie_insert_refines {T : Type} (t : StringTrie T) (pat : str) (d : T) :
  (forall q, data_at (trie_insert t pat d).1 q =
    if decide (q ∈ pattern_paths pat) then Some d else data_at t q) /\
  (trie_insert t pat d).2 = bool_decide (pattern_paths pat <> []).
Proof. apply trie_insert_spec. Qed.

(** C4: search returns the most specific pattern.  On a domain whose labels
    are ordinary, [search] returns a node holding data [d] only if some
    stored path with data [d] matches the domain and is at least as specific
    (exact label, then [*], then the dot wildcard, from the top-level label
    down) as every other stored path that matches; and it returns nothing
    only if no stored path matches. *)
Theorem trie_search_most_specific {T : Type} (t : StringTrie T) (dom : str) (ls : list str)
    (Hls : search_labels dom = Some ls) (Hplain : Forall plain_label ls) :
  match trie_search t dom with
  | Some n => exists d p, get_data n = Some d /\ data_at t p = Some d /\ path_matches p ls /\
      forall p', is_Some (data_at t p') -> path_matches p' ls -> prefers ls p p'
  | None => forall p, path_matches p ls -> data_at t p = None
  end.
Proof.
  destruct (trie_search_spec t dom) as [Hf Hs]. rewrite Hls in Hf. cbn in Hf.
  destruct (trie_search t dom) as [n|] eqn:E.
  - destruct (proj1 Hs) as [d Hd]; [done|]. rewrite Hd in Hf. symmetry in Hf.
    destruct (find_best_prefers _ _ _ Hplain Hf) as (p & ? & ? & ?). by exists d, p.
  - intros p Hp. destruct (data_at t p) eqn:Ed; [|done]. exfalso.
    destruct (proj2 (find_best_complete (data_at t) ls)) as [? Hb]; [by exists p|].
    rewrite Hb in Hf. done.
Qed.

Lemma trie_search_most_specific_witness :
  exists p, data_at (build [(lit ".dev", 0); (lit "*.example.dev", 2)]) p = Some 2 /\
            path_matches p [lit "dev"; lit "example"; lit "foo"].
Proof.
  pose proof (trie_search_most_specific (build [(lit ".dev", 0); (lit "*.example.dev", 2)])
    (lit "foo.example.dev") [lit "dev"; lit "example"; lit "foo"]) as H.
  vm_compute in H. destruct H as (d & p & Hd & Hp & Hm & _).
  - reflexivity.
  - repeat constructor; discriminate.
  - injection Hd as <-. exists p. split; [exact Hp|exact Hm].
Defined.

(** A trie built from patterns decides pattern matching.  After any
    sequence of insertions into an empty trie, [search] finds a node for a
    domain if and only if one of the inserted patterns matches the domain. *)
Theorem trie_search_iff_pattern {T : Type} (ps : list (str * T)) (dom : str) :
  is_Some (trie_search (build ps) dom) <->
  exists pat d, (pat, d) ∈ ps /\ pattern_matches pat dom.
Proof. apply build_search. Qed.

(** Traversal enumerates the stored entries.  With a callback that always
    continues, [traverse] reports a key with data [d] exactly when some
    non-empty path holding [d] is printed as that key. *)
Theorem trie_traverse_entries {T : Type} (ps : list (str * T)) (k : str) (d : T) :
  (k, d) ∈ trie_entries (build ps) <->
  exists p, p <> [] /\ data_at (build ps) p = Some d /\ k = entry_key p.
Proof. apply elem_of_trie_entries, wf_build. Qed.
