(* ===== verification/Geo.v ===== *)
(** * GeoSite matching ([app/router/rules/geodata], [common/geodata])

    A GEOSITE rule selects a list of domains by country code, filters it by
    attributes, and matches a destination against it: root and full domains
    through a [StringTrie], keywords and regular expressions one by one. *)

From S2P Require Import Prelude Str Trie.

(** The [regex] crate. *)
Class RegexLib : Type := {
  Regex : Type;
  regex_new : str -> option Regex;
  regex_is_match : Regex -> str -> bool;
  regex_show : Regex -> str;
}.

(* @src clash-lib/src/common/geodata/geodata.proto ~enum Type~ Domain.Type *)
Inductive DomainType : Type := DtPlain | DtRegex | DtDomain | DtFull.
#[global] Instance domain_type_eq_dec : EqDecision DomainType.
Proof. solve_decision. Defined.

(** [Type::try_from(i32)], generated by prost from the numbering above. *)
Definition domain_type_try_from (z : Z) : res DomainType :=
  if z =? 0 then Ok DtPlain else if z =? 1 then Ok DtRegex
  else if z =? 2 then Ok DtDomain else if z =? 3 then Ok DtFull
  else Err "invalid domain type".

(* @src clash-lib/src/common/geodata/geodata.proto ~message Attribute~ Domain.Attribute *)
Record Attribute : Type := { attr_key : str; attr_value : option (bool + Z) }.
(* @src clash-lib/src/common/geodata/geodata.proto ~^message Domain~ Domain *)
Record GeoDomain : Type := { gd_type : Z; gd_value : str; gd_attribute : list Attribute }.
(* @src clash-lib/src/common/geodata/geodata.proto ~^message GeoSite ~ GeoSite *)
Record GeoSite : Type := { gs_country_code : str; gs_domain : list GeoDomain }.
(* @src clash-lib/src/common/geodata/mod.rs ~pub struct GeoData~ GeoData *)
Definition GeoData : Type := list GeoSite.

(* @src clash-lib/src/common/geodata/mod.rs ~impl GeoDataLookupTrait for GeoData~ GeoData::get *)
Definition geodata_get (g : GeoData) (name : str) : option GeoSite :=
  find (fun x => eq_ignore_ascii_case (gs_country_code x) name) g.

(** ** Attribute filters *)
(* @src clash-lib/src/app/router/rules/geodata/attribute.rs ~impl AttrMatcher for BooleanAttrMatcher~ BooleanAttrMatcher::matches *)
Definition boolean_attr_matches (key : str) (d : GeoDomain) : bool :=
  existsb (fun a => eq_ignore_ascii_case (attr_key a) key) (gd_attribute d).
(* @src clash-lib/src/app/router/rules/geodata/attribute.rs ~impl AttrMatcher for AndAttrMatcher~ AndAttrMatcher::matches *)
Definition and_attr_matches (keys : list str) (d : GeoDomain) : bool :=
  forallb (fun k => boolean_attr_matches k d) keys.

Section geosite.
Context {RX : RegexLib} {UC : UnicodeLib}.

(** ** String matchers *)
(* @src clash-lib/src/app/router/rules/geodata/str_matcher.rs 3 48 Matcher *)
Inductive Matcher : Type :=
| FullMatcher (p : str)
| SubStrMatcher (p : str)
| DomainMatcher (p : str)
| RegexMatcher (r : Regex).

(* @src clash-lib/src/app/router/rules/geodata/str_matcher.rs ~impl Matcher for DomainMatcher~ DomainMatcher::matches *)
Definition domain_matcher_matches (pattern url : str) : bool :=
  if negb (ends_with pattern url) then false
  else if str_len pattern =? str_len url then true
  else
    let prefix_idx_end := str_len url - str_len pattern - 1 in
    if prefix_idx_end <? 0 then false
    else match zget (utf8 url) prefix_idx_end with
         | Some b => b =? 46
         | None => false
         end.

(* @src clash-lib/src/app/router/rules/geodata/str_matcher.rs 9 48 Matcher::matches *)
Definition matcher_matches (m : Matcher) (url : str) : bool :=
  match m with
  | FullMatcher p => bool_decide (p = url)
  | SubStrMatcher p => contains p url
  | DomainMatcher p => domain_matcher_matches p url
  | RegexMatcher r => regex_is_match r url
  end.

(* @src clash-lib/src/app/router/rules/geodata/str_matcher.rs ~pub fn try_new_matcher~ try_new_matcher *)
Definition try_new_matcher (domain : str) (t : DomainType) : res Matcher :=
  match t with
  | DtPlain => Ok (SubStrMatcher domain)
  | DtRegex => r ← ok_or (regex_new domain) "invalid regex"; Ok (RegexMatcher r)
  | DtDomain => Ok (DomainMatcher domain)
  | DtFull => Ok (FullMatcher domain)
  end.

(** ** The matcher group *)
(* @src clash-lib/src/app/router/rules/geodata/matcher_group.rs ~pub struct SuccinctMatcherGroup~ SuccinctMatcherGroup *)
Record SuccinctMatcherGroup : Type := {
  smg_set : StringTrie unit;
  smg_other_matchers : list Matcher;
  smg_not : bool;
}.

(* @src clash-lib/src/app/router/rules/geodata/matcher_group.rs ~for domain in domains~ SuccinctMatcherGroup::try_new (loop body) *)
Definition smg_add (acc : StringTrie unit * list Matcher) (d : GeoDomain) :
    res (StringTrie unit * list Matcher) :=
  let '(set, others) := acc in
  t ← domain_type_try_from (gd_type d);
  match t with
  | DtPlain | DtRegex =>
    m ← try_new_matcher (gd_value d) t; Ok (set, others ++ [m])
  | DtDomain => Ok ((trie_insert set (lit "+." ++ gd_value d) tt).1, others)
  | DtFull => Ok ((trie_insert set (gd_value d) tt).1, others)
  end.

(* @src clash-lib/src/app/router/rules/geodata/matcher_group.rs ~pub fn try_new~ SuccinctMatcherGroup::try_new *)
Definition smg_try_new (domains : list GeoDomain) (not : bool) : res SuccinctMatcherGroup :=
  '(set, others) ← res_fold smg_add (trie_new, []) domains;
  Ok {| smg_set := set; smg_other_matchers := others; smg_not := not |}.

(* @src clash-lib/src/app/router/rules/geodata/matcher_group.rs ~impl DomainGroupMatcher for SuccinctMatcherGroup~ SuccinctMatcherGroup::apply *)
Definition smg_apply (g : SuccinctMatcherGroup) (domain : str) : bool :=
  let is_matched := bool_decide (is_Some (trie_search (smg_set g) domain)) in
  let is_matched := if is_matched then true
                    else existsb (fun m => matcher_matches m domain) (smg_other_matchers g) in
  if smg_not g then negb is_matched else is_matched.

(** ** Country codes *)
(** The negation flag, the code and the attribute names of a GEOSITE payload. *)
(* @src clash-lib/src/app/router/rules/geodata/mod.rs ~^fn parse~ parse *)
Definition geosite_parse (country_code : str) : option (bool * str * list str) :=
  let country_code := to_lowercase (trim country_code) in
  match country_code with
  | [] => None
  | c :: rest =>
    let '(not, country_code) := if c =? 33 then (true, rest) else (false, country_code) in
    let parts := split_on 64 country_code in
    let code := default [] (parts !! 0%nat) in
    let attrs := match parts !! 1%nat with
                 | Some a => split_on 44 a
                 | None => []
                 end in
    Some (not, code, attrs)
  end.

(* @src clash-lib/src/app/router/rules/geodata/mod.rs ~pub struct GeoSiteMatcher~ GeoSiteMatcher *)
Record GeoSiteMatcher : Type := {
  gsm_country_code : str;
  gsm_target : str;
  gsm_matcher : SuccinctMatcherGroup;
}.

(* @src clash-lib/src/app/router/rules/geodata/mod.rs ~pub fn new~ GeoSiteMatcher::new *)
Definition geosite_new (country_code target : str) (loader : option (str -> option GeoSite)) :
    res GeoSiteMatcher :=
  '(not, code, attrs) ← ok_or (geosite_parse country_code)
                          "invalid geosite matcher, country code is empty";
  get ← ok_or loader "GeoDataLookup is not available";
  list ← ok_or (get code) "geosite matcher, country code not found";
  let domains := List.filter (and_attr_matches attrs) (gs_domain list) in
  g ← smg_try_new domains not;
  Ok {| gsm_country_code := country_code; gsm_target := target; gsm_matcher := g |}.

(** * Specification *)

(** One entry of the list against a destination: a root domain matches
    itself and its subdomains, a full domain acts as one pattern of the
    trie, a keyword is a substring, a regular expression is what it is. *)
Definition geo_domain_matches (d : GeoDomain) (dom : str) : Prop :=
  match domain_type_try_from (gd_type d) with
  | Ok DtPlain => contains (gd_value d) dom = true
  | Ok DtRegex => exists r, regex_new (gd_value d) = Some r /\ regex_is_match r dom = true
  | Ok DtDomain => pattern_matches (lit "+." ++ gd_value d) dom
  | Ok DtFull => pattern_matches (gd_value d) dom
  | _ => False
  end.
End geosite.

Section geo_lemmas.
Context {RX : RegexLib} {UC : UnicodeLib}.

(** What one entry contributes to the trie and to the other matchers. *)
Definition entry_patterns (d : GeoDomain) : list (str * unit) :=
  match domain_type_try_from (gd_type d) with
  | Ok DtDomain => [(lit "+." ++ gd_value d, tt)]
  | Ok DtFull => [(gd_value d, tt)]
  | _ => []
  end.

Lemma smg_add_ok set others d set' others' :
  smg_add (set, others) d = Ok (set', others') ->
  set' = foldl (fun t '(p, x) => (trie_insert t p x).1) set (entry_patterns d) /\
  exists ms, others' = others ++ ms /\
    forall dom, geo_domain_matches d dom <->
      (exists pat x, (pat, x) ∈ entry_patterns d /\ pattern_matches pat dom) \/
      existsb (fun m => matcher_matches m dom) ms = true.
Proof.
  unfold smg_add, entry_patterns, geo_domain_matches.
  destruct (domain_type_try_from (gd_type d)) as [[]| |]; simpl; intros H; simplify_eq.
  - split; [done|]. eexists. split; [done|]. intros dom. simpl. rewrite orb_false_r.
    split; [by right|]. intros [(? & ? & Hin & _)|?]; [by apply elem_of_nil in Hin|done].
  - destruct (regex_new (gd_value d)) as [r|] eqn:E; simplify_eq/=.
    split; [done|]. eexists. split; [done|]. intros dom. simpl. rewrite orb_false_r. split.
    + intros (r' & ? & ?). simplify_eq. by right.
    + intros [(? & ? & Hin & _)|?]; [by apply elem_of_nil in Hin|by exists r].
  - split; [done|]. exists []. split; [by rewrite app_nil_r|]. intros dom. split.
    + intros ?. left. eexists _, tt. split; [by left|done].
    + intros [(pat & x & Hin & Hm)|?]; [|done]. apply list_elem_of_singleton in Hin. by simplify_eq.
  - split; [done|]. exists []. split; [by rewrite app_nil_r|]. intros dom. split.
    + intros ?. left. eexists _, tt. split; [by left|done].
    + intros [(pat & x & Hin & Hm)|?]; [|done]. apply list_elem_of_singleton in Hin. by simplify_eq.
Qed.

Lemma smg_fold_ok ds set others set' others' :
  res_fold smg_add (set, others) ds = Ok (set', others') ->
  set' = foldl (fun t '(p, x) => (trie_insert t p x).1) set (ds ≫= entry_patterns) /\
  exists ms, others' = others ++ ms /\
    forall dom, (exists d, d ∈ ds /\ geo_domain_matches d dom) <->
      (exists pat x, (pat, x) ∈ ds ≫= entry_patterns /\ pattern_matches pat dom) \/
      existsb (fun m => matcher_matches m dom) ms = true.
Proof.
  revert set others. induction ds as [|d ds IH]; intros set others H; cbn [res_fold] in H.
  - simplify_eq. split; [done|]. exists []. split; [by rewrite app_nil_r|]. intros dom. split.
    + intros (d & Hd & _). by apply elem_of_nil in Hd.
    + intros [(? & ? & Hin & _)|?]; [by apply elem_of_nil in Hin|done].
  - destruct (smg_add (set, others) d) as [[set1 others1]| |] eqn:E; simpl in H; [|done..].
    apply smg_add_ok in E as (-> & ms1 & -> & H1). apply IH in H as (-> & ms2 & -> & H2).
    cbn [mbind list_bind]. rewrite foldl_app. split; [done|].
    exists (ms1 ++ ms2). split; [by rewrite app_assoc|]. intros dom.
    rewrite existsb_app, orb_true_iff. setoid_rewrite elem_of_app. setoid_rewrite elem_of_cons.
    specialize (H1 dom). specialize (H2 dom). split.
    + intros (d' & [->|Hin] & Hm).
      * apply H1 in Hm as [(p & x & ? & ?)|?]; [left; exists p, x; auto|auto].
      * destruct (proj1 H2) as [(p & x & ? & ?)|?]; [by exists d'|left; exists p, x; auto|auto].
    + intros [(p & x & [?|?] & ?)|[?|?]].
      * exists d. split; [by left|]. apply H1. left. by exists p, x.
      * destruct (proj2 H2) as (d' & ? & ?); [left; by exists p, x|]. exists d'. auto.
      * exists d. split; [by left|]. apply H1. by right.
      * destruct (proj2 H2) as (d' & ? & ?); [by right|]. exists d'. auto.
Qed.

Lemma smg_apply_ok ds not g dom :
  smg_try_new ds not = Ok g ->
  smg_apply g dom = true <->
  (if not then ~ (exists d, d ∈ ds /\ geo_domain_matches d dom)
   else exists d, d ∈ ds /\ geo_domain_matches d dom).
Proof.
  unfold smg_try_new. destruct (res_fold smg_add (trie_new, []) ds) as [[set others]| |] eqn:E;
    simpl; intros H; simplify_eq.
  apply smg_fold_ok in E as (-> & ms & -> & Hm). unfold smg_apply. simpl.
  fold (build (ds ≫= entry_patterns)).
  assert ((if bool_decide (is_Some (trie_search (build (ds ≫= entry_patterns)) dom)) then true
           else existsb (fun m => matcher_matches m dom) ms) = true <->
          exists d, d ∈ ds /\ geo_domain_matches d dom) as Hb.
  { rewrite Hm, <- build_search. case_bool_decide; tauto. }
  destruct not; [|done]. rewrite negb_true_iff, <- not_true_iff_false. tauto.
Qed.

Lemma path_matches_plain p ls : Forall plain_label p -> path_matches p ls <-> p = ls.
Proof.
  intros Hp. revert ls. induction Hp as [|l p [Hs Hd] Hp IH]; intros ls.
  - split; [by inversion 1|intros <-; constructor].
  - split; [|intros <-; constructor; by apply IH].
    inversion 1; subst; [f_equal; by apply IH|done..].
Qed.

Lemma path_matches_plain_dot p ls :
  Forall plain_label p ->
  path_matches (p ++ [DOT_WILDCARD]) ls <-> exists r, r <> [] /\ ls = p ++ r.
Proof.
  intros Hp. revert ls. induction Hp as [|l p [Hs Hd] Hp IH]; intros ls; simpl.
  - split.
    + destruct ls as [|x ls]; [by inversion 1|]. intros _. by exists (x :: ls).
    + intros ([|l r] & Hne & ->); [done|constructor].
  - split.
    + inversion 1 as [|? ? ls' Hm|? ? ls' Hm|]; subst; [|done|by destruct p].
      apply IH in Hm as (r & ? & ->). by exists r.
    + intros (r & Hne & ->). simpl. constructor. apply IH. by exists r.
Qed.

(** A domain written with ordinary labels only. *)
Definition plain_domain (v : str) : Prop := Forall plain_label (split_on 46 v).

Lemma plain_domain_ends v : plain_domain v -> v <> [] /\ ends_with [46] v = false.
Proof.
  unfold plain_domain. intros Hv. split.
  - intros ->. simpl in Hv. by inv Hv as [|? ? [_ Hd] _].
  - apply not_true_iff_false. rewrite ends_with_spec. intros [k ->].
    rewrite (split_on_app 46 k []) in Hv. apply Forall_app in Hv as [_ Hv].
    simpl in Hv. by inv Hv as [|? ? [_ Hd] _].
Qed.

Lemma plain_domain_no_empty v :
  plain_domain v -> existsb (fun p => bool_decide (p = [])) (split_on 46 v) = false.
Proof.
  unfold plain_domain. induction 1 as [|l ls [_ Hd] _ IH]; [done|]. simpl.
  rewrite IH. by rewrite bool_decide_false.
Qed.

Lemma plain_search_labels v : plain_domain v -> search_labels v = Some (reverse (split_on 46 v)).
Proof.
  intros Hv. destruct (plain_domain_ends v Hv) as [Hne He]. unfold search_labels, valid_and_split_domain.
  rewrite bool_decide_false, He by done. simpl. unfold DOMAIN_STEP.
  pose proof (plain_domain_no_empty v Hv) as Hno. unfold plain_domain in Hv.
  pose proof (split_on_nonempty 46 v).
  destruct (split_on 46 v) as [|p ps] eqn:E; [done|]. inv Hv as [|? ? [_ Hp] _]. simpl in *.
  apply orb_false_iff in Hno as [_ Hno]. destruct ps as [|p' ps]; simpl.
  - destruct p; [done|]. by rewrite bool_decide_false.
  - simpl in Hno. rewrite Hno. by rewrite bool_decide_false.
Qed.

Lemma plus_pattern_paths v :
  plain_domain v ->
  pattern_paths (lit "+." ++ v) =
    [reverse (split_on 46 v) ++ [DOT_WILDCARD]; reverse (split_on 46 v)].
Proof.
  intros Hv. destruct (plain_domain_ends v Hv) as [Hne He].
  unfold pattern_paths, valid_and_split_domain. change (lit "+." ++ v) with ([43] ++ 46 :: v).
  assert (ends_with [46] ([43] ++ 46 :: v) = false) as ->.
  { apply not_true_iff_false. rewrite ends_with_spec. intros [k Hk].
    apply not_true_iff_false in He. apply He. apply ends_with_spec.
    destruct v as [|x v] using rev_ind; [done|].
    exists v. rewrite app_comm_cons, app_assoc in Hk. by apply app_inj_2 in Hk as [_ ->]. }
  rewrite andb_false_r. unfold DOMAIN_STEP. rewrite split_on_app.
  pose proof (plain_domain_no_empty v Hv) as Hno.
  change (split_on 46 [43]) with [[43]].
  pose proof (split_on_nonempty 46 v). destruct (split_on 46 v) as [|p ps]; [done|].
  simpl length. simpl drop. cbv iota. rewrite Hno. simpl.
  by rewrite reverse_cons.
Qed.

Lemma plus_pattern_matches v dom :
  plain_domain v -> plain_domain dom ->
  pattern_matches (lit "+." ++ v) dom <-> dom = v \/ (46 :: v) `suffix_of` dom.
Proof.
  intros Hv Hd. unfold pattern_matches. rewrite plus_pattern_paths by done.
  rewrite plain_search_labels by done.
  assert (Forall plain_label (reverse (split_on 46 v))) as Hr by by apply Forall_reverse.
  rewrite <- split_on_suffix. split.
  - intros (p & ls & Hin & Hls & Hm). simplify_eq.
    rewrite elem_of_cons, list_elem_of_singleton in Hin. destruct Hin as [->| ->].
    + apply path_matches_plain_dot in Hm as (r & Hne & Hm); [|done]. right.
      exists (reverse r). apply (f_equal reverse) in Hm.
      rewrite reverse_involutive, reverse_app, reverse_involutive in Hm. split; [|done].
      intros H. apply (f_equal reverse) in H. by rewrite reverse_involutive in H.
    + apply path_matches_plain in Hm; [|done]. apply (inj reverse), split_on_inj in Hm. by left.
  - intros [->|(ps & Hne & Hs)].
    + eexists _, _. split; [right; by left|]. split; [done|]. by apply path_matches_plain.
    + eexists _, _. split; [by left|]. split; [done|]. apply path_matches_plain_dot; [done|].
      exists (reverse ps). rewrite Hs, reverse_app. split; [|done].
      intros H. apply (f_equal reverse) in H. by rewrite reverse_involutive in H.
Qed.

Lemma domain_matcher_spec v url :
  domain_matcher_matches v url = true <-> url = v \/ (46 :: v) `suffix_of` url.
Proof.
  unfold domain_matcher_matches. destruct (ends_with v url) eqn:E; simpl.
  - apply ends_with_spec in E as [x ->]. rewrite str_len_app.
    destruct (decide (x = [])) as [->|Hx].
    { change (str_len []) with 0. rewrite Z.add_0_l, Z.eqb_refl. split; [by left|done]. }
    destruct x as [|c x _] using rev_ind; [done|].
    assert (1 <= str_len (x ++ [c])) as Hl
      by (rewrite str_len_app; pose proof (str_len_pos c []); unfold str_len, zlen in *; lia).
    rewrite (proj2 (Z.eqb_neq _ _)) by lia. rewrite (proj2 (Z.ltb_ge _ _)) by lia.
    destruct (utf8_last_byte x c) as (pre & b & Eu & Hb).
    replace (str_len (x ++ [c]) + str_len v - str_len v - 1) with (zlen pre)
      by (unfold str_len, zlen; rewrite Eu, length_app; simpl; lia).
    unfold zget. rewrite bool_decide_true by (unfold zlen; lia). unfold zlen. rewrite Nat2Z.id.
    rewrite utf8_app, Eu, <- app_assoc. change ([b] ++ utf8 v) with (b :: utf8 v).
    rewrite list_lookup_middle by done.
    rewrite Z.eqb_eq, Hb. split.
    + intros ->. right. exists x. by rewrite <- app_assoc.
    + intros [H|[k H]].
      * apply (f_equal str_len) in H. rewrite str_len_app in H. lia.
      * rewrite (app_assoc k [46] v : k ++ 46 :: v = (k ++ [46]) ++ v) in H.
        apply app_inj_2 in H as [H _]; [|done]. by apply app_inj_2 in H as [_ [= ->]].
  - split; [done|]. apply not_true_iff_false in E. rewrite ends_with_spec in E.
    intros [->|[k ->]]; exfalso; apply E; [done|]. exists (k ++ [46]). by rewrite <- app_assoc.
Qed.
End geo_lemmas.

(** * Theorems *)

(** The entries a GEOSITE payload selects: those of the list of its country
    code that carry every requested attribute. *)
Definition selected (attrs : list str) (site : GeoSite) (d : GeoDomain) : Prop :=
  d ∈ gs_domain site /\
  forall k, k ∈ attrs -> exists a, a ∈ gd_attribute d /\ eq_ignore_ascii_case (attr_key a) k = true.

Lemma and_attr_matches_spec attrs d :
  and_attr_matches attrs d = true <->
  forall k, k ∈ attrs -> exists a, a ∈ gd_attribute d /\ eq_ignore_ascii_case (attr_key a) k = true.
Proof.
  unfold and_attr_matches, boolean_attr_matches. rewrite forallb_forall.
  setoid_rewrite existsb_exists. setoid_rewrite list_elem_of_In. done.
Qed.

(** C38: a GEOSITE rule means what its list says.  If the rule is accepted, its
    payload parsed to a negation flag, a code and attribute names, the code
    was found in the database, and the rule matches a destination exactly
    when some selected entry of that list matches it, or, negated, when none
    does: the split of the entries into a trie and a list of other matchers
    is invisible. *)
Theorem geosite_apply_spec {RX : RegexLib} {UC : UnicodeLib} (cc target : str)
    (loader : option (str -> option GeoSite)) (m : GeoSiteMatcher)
    (Hnew : geosite_new cc target loader = Ok m) :
  exists neg code attrs get site,
    geosite_parse cc = Some (neg, code, attrs) /\ loader = Some get /\ get code = Some site /\
    forall dom, smg_apply (gsm_matcher m) dom = true <->
      (if (neg : bool) then ~ exists d, selected attrs site d /\ geo_domain_matches d dom
       else exists d, selected attrs site d /\ geo_domain_matches d dom).
Proof.
  unfold geosite_new in Hnew.
  destruct (geosite_parse cc) as [[[neg code] attrs]|] eqn:Ep; simpl in Hnew; [|done].
  destruct loader as [get|] eqn:El; simpl in Hnew; [|done].
  destruct (get code) as [site|] eqn:Eg; simpl in Hnew; [|done].
  destruct (smg_try_new _ neg) as [g| |] eqn:Eg'; simpl in Hnew; simplify_eq. simpl.
  exists neg, code, attrs, get, site. split_and!; [done..|]. intros dom.
  rewrite (smg_apply_ok _ _ _ dom Eg').
  assert ((exists d, d ∈ List.filter (and_attr_matches attrs) (gs_domain site) /\
             geo_domain_matches d dom) <->
          exists d, selected attrs site d /\ geo_domain_matches d dom) as Heq.
  { unfold selected. setoid_rewrite list_elem_of_In. setoid_rewrite filter_In.
    setoid_rewrite and_attr_matches_spec. setoid_rewrite list_elem_of_In. done. }
  destruct neg; by rewrite Heq.
Qed.

(** A stand-in for the regex crate (substring search) and an ASCII case map. *)
Definition demo_regex : RegexLib :=
  {| Regex := str; regex_new := Some; regex_is_match := contains; regex_show := fun r => r |}.
Definition demo_unicode : UnicodeLib := {| to_lowercase := to_ascii_lowercase; to_uppercase := to_ascii_uppercase |}.

Definition demo_site : GeoSite := {|
  gs_country_code := lit "CN";
  gs_domain := [ {| gd_type := 2; gd_value := lit "example.cn";
                    gd_attribute := [ {| attr_key := lit "ads"; attr_value := None |} ] |};
                 {| gd_type := 0; gd_value := lit "keyword"; gd_attribute := [] |} ] |}.

Lemma geosite_apply_spec_witness :
  exists m, @geosite_new demo_regex demo_unicode (lit "CN@ads") (lit "P")
              (Some (geodata_get [demo_site])) = Ok m /\
    exists site, geodata_get [demo_site] (lit "cn") = Some site /\
      exists d, selected [lit "ads"] site d /\
        @geo_domain_matches demo_regex d (lit "www.example.cn").
Proof.
  destruct (@geosite_new demo_regex demo_unicode (lit "CN@ads") (lit "P")
              (Some (geodata_get [demo_site]))) as [m| |] eqn:E; [|vm_compute in E; done..].
  exists m. split; [done|].
  destruct (@geosite_apply_spec demo_regex demo_unicode _ _ _ _ E)
    as (neg & code & attrs & get & site & Hp & Hl & Hg & H).
  vm_compute in Hp. injection Hp as <- <- <-. injection Hl as <-. exists site. split; [exact Hg|].
  apply H. vm_compute in E. injection E as <-. vm_compute. reflexivity.
Defined.

(** The trie agrees with the plain matcher.  For a root domain and a
    destination written with ordinary labels, the pattern [+.v] that the
    optimised group stores in the trie matches exactly the destinations that
    the unoptimised [DomainMatcher] accepts: [v] itself and its subdomains. *)
Theorem trie_agrees_with_domain_matcher (v dom : str)
    (Hv : plain_domain v) (Hdom : plain_domain dom) :
  is_Some (trie_search (build [(lit "+." ++ v, tt)]) dom) <->
  domain_matcher_matches v dom = true.
Proof.
  rewrite build_search, domain_matcher_spec, <- plus_pattern_matches by done. split.
  - intros (pat & [] & Hin & Hm). apply list_elem_of_singleton in Hin. by simplify_eq.
  - intros Hm. exists (lit "+." ++ v), tt. split; [by constructor|done].
Qed.

#[global] Instance plain_domain_dec v : Decision (plain_domain v).
Proof. unfold plain_domain, plain_label. apply _. Defined.

Lemma trie_agrees_with_domain_matcher_witness :
  is_Some (trie_search (build [(lit "+." ++ lit "example.com", tt)]) (lit "a.example.com")).
Proof.
  apply (trie_agrees_with_domain_matcher (lit "example.com") (lit "a.example.com")).
  - apply (bool_decide_unpack _). vm_compute. exact I.
  - apply (bool_decide_unpack _). vm_compute. exact I.
  - vm_compute. reflexivity.
Defined.
