(* ===== verification/Rule.v ===== *)
(** * Rule lines ([clash-lib/src/config/internal/rule.rs])

    A rule of the configuration is a line [TYPE,payload,target,params...].
    [print_and_exit!] ends the process and is modelled, like a panic, by
    [Panic]. *)

From S2P Require Import Prelude Str Net Session Geo.

Section rule.
Context {RX : RegexLib} {NL : IpNetLib}.

(* @src clash-lib/src/config/internal/rule.rs ~^pub enum RuleType~ RuleType *)
Inductive RuleType : Type :=
| RtDomain (domain target : str)
| RtDomainSuffix (domain_suffix target : str)
| RtDomainRegex (regex : Regex) (target : str)
| RtDomainKeyword (domain_keyword target : str)
| RtGeoIP (target country_code : str) (no_resolve : bool)
| RtGeoSite (target country_code : str)
| RtIpCidr (ipnet : IpNet) (target : str) (no_resolve : bool)
| RtSrcCidr (ipnet : IpNet) (target : str) (no_resolve : bool)
| RtSRCPort (target : str) (port : Z)
| RtDSTPort (target : str) (port : Z)
| RtProcessName (process_name target : str)
| RtProcessPath (process_path target : str)
| RtRuleSet (rule_set target : str)
| RtMatch (target : str)
| RtNetwork (network : Network) (target : str).

(* @src clash-lib/src/config/internal/rule.rs ~pub fn target~ RuleType::target *)
Definition rt_target (r : RuleType) : str :=
  match r with
  | RtDomain _ t | RtDomainSuffix _ t | RtDomainRegex _ t | RtDomainKeyword _ t
  | RtGeoIP t _ _ | RtGeoSite t _ | RtIpCidr _ t _ | RtSrcCidr _ t _
  | RtSRCPort t _ | RtDSTPort t _ | RtProcessName _ t | RtProcessPath _ t
  | RtRuleSet _ t | RtMatch t | RtNetwork _ t => t
  end.

(* @src clash-lib/src/config/internal/rule.rs ~^impl Display for RuleType~ RuleType::fmt *)
Definition rt_display (r : RuleType) : str :=
  match r with
  | RtDomain d t => lit "DOMAIN," ++ d ++ lit "," ++ t
  | RtDomainRegex x t => lit "DOMAIN-REGEX," ++ regex_show x ++ lit "," ++ t
  | RtDomainSuffix _ _ => lit "DOMAIN-SUFFIX"
  | RtDomainKeyword _ _ => lit "DOMAIN-KEYWORD"
  | RtGeoIP _ _ _ => lit "GEOIP"
  | RtGeoSite _ _ => lit "GEOSITE"
  | RtIpCidr _ _ _ => lit "IP-CIDR"
  | RtSrcCidr _ _ _ => lit "SRC-IP-CIDR"
  | RtSRCPort _ _ => lit "SRC-PORT"
  | RtDSTPort _ _ => lit "DST-PORT"
  | RtProcessName _ _ => lit "PROCESS-NAME"
  | RtProcessPath _ _ => lit "PROCESS-PATH"
  | RtRuleSet _ _ => lit "RULE-SET"
  | RtMatch _ => lit "MATCH"
  | RtNetwork _ _ => lit "NETWORK"
  end.

(** [params.contains(&"no-resolve")] *)
Definition has_no_resolve (params : option (list str)) : bool :=
  match params with
  | Some ps => bool_decide (lit "no-resolve" ∈ ps)
  | None => false
  end.

(* @src clash-lib/src/config/internal/rule.rs ~pub fn new~ RuleType::new *)
Definition rt_new (proto payload target : str) (params : option (list str)) : res RuleType :=
  let ty s := bool_decide (proto = lit s) in
  if ty "DOMAIN" then Ok (RtDomain payload target)
  else if ty "DOMAIN-REGEX" then
    x ← ok_or (regex_new payload) "invalid regex"; Ok (RtDomainRegex x target)
  else if ty "DOMAIN-SUFFIX" then Ok (RtDomainSuffix payload target)
  else if ty "DOMAIN-KEYWORD" then Ok (RtDomainKeyword payload target)
  else if ty "GEOSITE" then Ok (RtGeoSite target payload)
  else if ty "GEOIP" then Ok (RtGeoIP target payload (has_no_resolve params))
  else if ty "IP-CIDR" || ty "IP-CIDR6" then
    n ← ok_or (ipnet_parse payload) "invalid IP address syntax";
    Ok (RtIpCidr n target (has_no_resolve params))
  else if ty "SRC-IP-CIDR" then
    n ← ok_or (ipnet_parse payload) "invalid IP address syntax";
    Ok (RtSrcCidr n target (has_no_resolve params))
  else if ty "SRC-PORT" then p ← or_panic (parse_uint 16 payload); Ok (RtSRCPort target p)
  else if ty "DST-PORT" then p ← or_panic (parse_uint 16 payload); Ok (RtDSTPort target p)
  else if ty "PROCESS-NAME" then Ok (RtProcessName payload target)
  else if ty "PROCESS-PATH" then Ok (RtProcessPath payload target)
  else if ty "RULE-SET" then Ok (RtRuleSet payload target)
  else if ty "MATCH" then Ok (RtMatch target)
  else if ty "NETWORK" then
    if bool_decide (payload = lit "TCP") || bool_decide (payload = lit "tcp")
    then Ok (RtNetwork Tcp target)
    else if bool_decide (payload = lit "UDP") || bool_decide (payload = lit "udp")
    then Ok (RtNetwork Udp target)
    else Err "invalid network type"
  else Err "unsupported rule type".

(* @src clash-lib/src/config/internal/rule.rs ~^impl TryFrom<String> for RuleType~ RuleType::try_from *)
Definition rt_try_from (line : str) : res RuleType :=
  match map trim (split_on 44 line) with
  | [proto; target] => rt_new proto [] target None
  | [proto; payload; target] => rt_new proto payload target None
  | proto :: payload :: target :: params => rt_new proto payload target (Some params)
  | _ => Err "invalid rule line"
  end.

(** * Lemmas *)

(** A field as it can stand in a line: no comma, no outer whitespace. *)
Definition field (s : str) : Prop := Forall (.≠ 44) s /\ trim s = s.
#[global] Instance field_dec s : Decision (field s).
Proof. unfold field. apply _. Defined.

Lemma split_fields fs :
  fs <> [] -> Forall field fs -> map trim (split_on 44 (join [44] fs)) = fs.
Proof.
  intros Hne Hf. rewrite split_on_join; [|done|by eapply Forall_impl; [exact Hf|intros ? []]].
  clear Hne. induction Hf as [|f fs [_ Hf] _ IH]; simpl; congruence.
Qed.

(** The only constructor that can end the process is a port rule. *)
Lemma rt_new_panic proto payload target params :
  rt_new proto payload target params = Panic <->
  (proto = lit "SRC-PORT" \/ proto = lit "DST-PORT") /\ parse_uint 16 payload = None.
Proof.
  unfold rt_new. split.
  - repeat match goal with
      | |- context [if bool_decide (_ = lit "SRC-PORT") then _ else _] => case_bool_decide
      | |- context [if bool_decide (_ = lit "DST-PORT") then _ else _] => case_bool_decide
      | |- context [if ?b then _ else _] => destruct b
      end; try (by intros [=]);
      first [by destruct (regex_new payload)|by destruct (ipnet_parse payload)|idtac];
      destruct (parse_uint 16 payload); by auto.
  - by intros [[->| ->] ->].
Qed.
End rule.

Section rule_theorems.
Context {RX : RegexLib} {NL : IpNetLib}.

Lemma rt_new_target proto payload target params r :
  rt_new proto payload target params = Ok r -> rt_target r = target.
Proof.
  unfold rt_new.
  repeat match goal with |- context [if ?b then _ else _] => destruct b end;
    first [by intros [= <-]|by intros [=]|idtac];
    intros Hr; apply res_bind_ok in Hr as (x & _ & Hr); by injection Hr as <-.
Qed.

(** The fields of a line, as [try_from] assigns them to the arguments of
    [RuleType::new]. *)
Definition line_args (fs : list str) : option (str * str * str * option (list str)) :=
  match fs with
  | [proto; target] => Some (proto, [], target, None)
  | [proto; payload; target] => Some (proto, payload, target, None)
  | proto :: payload :: target :: params => Some (proto, payload, target, Some params)
  | _ => None
  end.

Lemma rt_try_from_args line :
  rt_try_from line =
  match line_args (map trim (split_on 44 line)) with
  | Some (proto, payload, target, params) => rt_new proto payload target params
  | None => Err "invalid rule line"
  end.
Proof. unfold rt_try_from. by destruct (map trim _) as [|? [|? [|? [|? ?]]]]. Qed.

(** Rule lines parse field by field.  A line written from fields without
    commas or outer whitespace is read back as exactly those fields: with
    two of them the payload is empty, with three there are no parameters,
    with more the rest are parameters; the accepted rule carries the target
    field, and a line with fewer than two fields is an error. *)
Theorem rule_line_fields (fs : list str) (Hne : fs <> []) (Hfs : Forall field fs) :
  match line_args fs with
  | Some (proto, payload, target, params) =>
    rt_try_from (join [44] fs) = rt_new proto payload target params /\
    forall r, rt_try_from (join [44] fs) = Ok r -> rt_target r = target
  | None => length fs = 1%nat /\ rt_try_from (join [44] fs) = Err "invalid rule line"
  end.
Proof.
  rewrite rt_try_from_args, (split_fields fs) by done.
  destruct (line_args fs) as [[[[proto payload] target] params]|] eqn:E.
  - split; [done|]. intros r. apply rt_new_target.
  - split; [|done]. by destruct fs as [|? [|? [|? [|? ?]]]].
Qed.

(** Which lines end the process.  Reading a rule line never panics; it
    exits exactly when the line is a SRC-PORT or DST-PORT rule whose payload
    is not a 16-bit number (the payload of a two-field line is empty). *)
Theorem rule_exit_iff (line : str) :
  rt_try_from line = Panic <->
  exists proto payload target params,
    line_args (map trim (split_on 44 line)) = Some (proto, payload, target, params) /\
    (proto = lit "SRC-PORT" \/ proto = lit "DST-PORT") /\ parse_uint 16 payload = None.
Proof.
  rewrite rt_try_from_args.
  destruct (line_args _) as [[[[proto payload] target] params]|].
  - rewrite rt_new_panic. split; [intros; by exists proto, payload, target, params|].
    intros (? & ? & ? & ? & ? & ?). by simplify_eq.
  - split; [done|]. by intros (? & ? & ? & ? & ? & _).
Qed.
End rule_theorems.

Lemma rule_line_fields_witness :
  @rt_try_from demo_regex ref_ipnet (lit "IP-CIDR,10.0.0.0/8,DIRECT,no-resolve") =
  @rt_new demo_regex ref_ipnet (lit "IP-CIDR") (lit "10.0.0.0/8") (lit "DIRECT")
    (Some [lit "no-resolve"]) /\
  is_ok (@rt_try_from demo_regex ref_ipnet (lit "IP-CIDR,10.0.0.0/8,DIRECT,no-resolve")) = true.
Proof.
  split; [|vm_compute; reflexivity].
  apply (@rule_line_fields demo_regex ref_ipnet
           [lit "IP-CIDR"; lit "10.0.0.0/8"; lit "DIRECT"; lit "no-resolve"]).
  - discriminate.
  - apply (bool_decide_unpack _). vm_compute. exact I.
Defined.
