(* ===== verification/Router.v ===== *)
(** * Rules and routing ([clash-lib/src/app/router])

    Every kind of rule implements the [RuleMatcher] trait, here a record of
    operations; a boxed rule is a value of the inductive [Rule].  The router
    walks the rules in order, resolving the destination's name at most once
    and only for a rule that needs an address.

    A rule set delegates to a rule provider: the type [P] of providers and
    their [search] are parameters here, and are instantiated by the rule
    providers' own component.  The process lookup of [sock2proc], the DNS
    resolver and the MaxMind database are parameters too. *)

From S2P Require Import Prelude Str Net Session Trie Geo Rule.

(* @src clash-lib/src/app/router/rules/mod.rs ~pub trait RuleMatcher~ RuleMatcher *)
Record RuleMatcher (Self : Type) : Type := {
  apply : Self -> Session -> res bool;
  target : Self -> str;
  payload : Self -> str;
  type_name : Self -> str;
  should_resolve_ip : Self -> bool;
  display : Self -> str;
}.
Arguments apply {_} _.
Arguments target {_} _.
Arguments payload {_} _.
Arguments type_name {_} _.
Arguments should_resolve_ip {_} _.
Arguments display {_} _.

(* @src clash-lib/src/app/router/rules/mod.rs ~fn as_map~ RuleMatcher::as_map *)
Definition rule_as_map {Self : Type} (I : RuleMatcher Self) (r : Self) : gmap str str :=
  <[lit "payload" := payload I r]> (<[lit "proxy" := target I r]>
    (<[lit "type" := type_name I r]> ∅)).

(** Lookups return an [io::Result]; the error itself is never inspected. *)
(* @src clash-lib/src/common/mmdb.rs ~pub trait MmdbLookupTrait~ MmdbLookupTrait *)
Record MmdbLookup : Type := {
  lookup_country : IpAddr -> option str;
  lookup_asn : IpAddr -> option str;
}.

(** [maxminddb::Reader]: a lookup fails, finds no record, or decodes to a
    record whose string field may be missing. *)
Class MmdbReader : Type := {
  reader_country : IpAddr -> option (option (option str));
  reader_asn : IpAddr -> option (option (option str));
}.

(* @src clash-lib/src/common/mmdb.rs ~impl MmdbLookupTrait for Mmdb~ Mmdb *)
Definition mmdb_of_reader {MR : MmdbReader} : MmdbLookup := {|
  lookup_country ip :=
    c ← reader_country ip;
    match c with Some code => Some (default [] code) | None => None end;
  lookup_asn ip :=
    a ← reader_asn ip;
    match a with Some name => Some (default [] name) | None => None end;
|}.

(** [sock2proc::find_process_name] *)
Class ProcessLookup : Type := {
  find_process_name : option SocketAddr -> option SocketAddr -> Network -> option str;
}.

Section rules.
Context {RX : RegexLib} {NL : IpNetLib} {PL : ProcessLookup} {UC : UnicodeLib}.
Context {P : Type} (search : P -> Session -> res bool).

(** ** The kinds of rules *)
(* @src clash-lib/src/app/router/rules/domain.rs ~pub struct Domain~ Domain *)
Record DomainRule : Type := { d_domain : str; d_target : str }.
(* @src clash-lib/src/app/router/rules/domain.rs 11 36 impl RuleMatcher for Domain *)
Definition domain_rule : RuleMatcher DomainRule := {|
  apply r sess := Ok match destination sess with
                     | Ip _ => false
                     | Domain domain _ => bool_decide (d_domain r = domain)
                     end;
  target := d_target;
  payload := d_domain;
  type_name _ := lit "Domain";
  should_resolve_ip _ := false;
  display r := d_target r ++ lit " domain " ++ d_domain r;
|}.

(* @src clash-lib/src/app/router/rules/domain_suffix.rs ~pub struct DomainSuffix~ DomainSuffix *)
Record DomainSuffix : Type := { ds_suffix : str; ds_target : str }.
(* @src clash-lib/src/app/router/rules/domain_suffix.rs 12 40 impl RuleMatcher for DomainSuffix *)
Definition domain_suffix_rule : RuleMatcher DomainSuffix := {|
  apply r sess := Ok match destination sess with
                     | Ip _ => false
                     | Domain domain _ =>
                       ends_with (lit "." ++ ds_suffix r) domain ||
                       bool_decide (domain = ds_suffix r)
                     end;
  target := ds_target;
  payload := ds_suffix;
  type_name _ := lit "DomainSuffix";
  should_resolve_ip _ := false;
  display r := ds_target r ++ lit " suffix " ++ ds_suffix r;
|}.

(* @src clash-lib/src/app/router/rules/domain_keyword.rs ~pub struct DomainKeyword~ DomainKeyword *)
Record DomainKeyword : Type := { dk_keyword : str; dk_target : str }.
(* @src clash-lib/src/app/router/rules/domain_keyword.rs 13 38 impl RuleMatcher for DomainKeyword *)
Definition domain_keyword_rule : RuleMatcher DomainKeyword := {|
  apply r sess := Ok match destination sess with
                     | Ip _ => false
                     | Domain domain _ => contains (dk_keyword r) domain
                     end;
  target := dk_target;
  payload := dk_keyword;
  type_name _ := lit "DomainKeyword";
  should_resolve_ip _ := false;
  display r := dk_target r ++ lit " keyword " ++ dk_keyword r;
|}.

(* @src clash-lib/src/app/router/rules/domain_regex.rs ~pub struct DomainRegex~ DomainRegex *)
Record DomainRegex : Type := { dr_regex : Regex; dr_target : str }.
(* @src clash-lib/src/app/router/rules/domain_regex.rs 12 37 impl RuleMatcher for DomainRegex *)
Definition domain_regex_rule : RuleMatcher DomainRegex := {|
  apply r sess := Ok match destination sess with
                     | Ip _ => false
                     | Domain domain _ => regex_is_match (dr_regex r) domain
                     end;
  target := dr_target;
  payload r := regex_show (dr_regex r);
  type_name _ := lit "DomainRegex";
  should_resolve_ip _ := false;
  display r := dr_target r ++ lit " suffix " ++ regex_show (dr_regex r);
|}.

(* @src clash-lib/src/app/router/rules/final_.rs ~pub struct Final~ Final *)
Record Final : Type := { f_target : str }.
(* @src clash-lib/src/app/router/rules/final_.rs 8 30 impl RuleMatcher for Final *)
Definition final_rule : RuleMatcher Final := {|
  apply _ _ := Ok true;
  target := f_target;
  payload _ := [];
  type_name _ := lit "Match";
  should_resolve_ip _ := false;
  display r := f_target r ++ lit " final";
|}.

(** [sess.resolved_ip.or(sess.destination.ip())] *)
Definition maybe_ip (sess : Session) : option IpAddr :=
  match resolved_ip sess with Some ip => Some ip | None => socks_ip (destination sess) end.

(* @src clash-lib/src/app/router/rules/geoip.rs ~pub struct GeoIP~ GeoIP *)
Record GeoIP : Type := {
  gi_target : str; gi_country_code : str; gi_no_resolve : bool; gi_mmdb : option MmdbLookup }.
(* @src clash-lib/src/app/router/rules/geoip.rs 14 56 impl RuleMatcher for GeoIP *)
Definition geoip_rule : RuleMatcher GeoIP := {|
  apply r sess := Ok match maybe_ip sess with
                     | Some ip =>
                       match gi_mmdb r with
                       | Some mmdb =>
                         match lookup_country mmdb ip with
                         | Some code => bool_decide (code = gi_country_code r)
                         | None => false
                         end
                       | None => false
                       end
                     | None => false
                     end;
  target := gi_target;
  payload := gi_country_code;
  type_name _ := lit "GeoIP";
  should_resolve_ip r := negb (gi_no_resolve r);
  display r := lit "GeoIP(" ++ gi_target r ++ lit " - " ++ gi_country_code r ++ lit ")";
|}.

(* @src clash-lib/src/app/router/rules/ipcidr.rs ~pub struct IpCidr~ IpCidr *)
Record IpCidr : Type := {
  ic_ipnet : IpNet; ic_target : str; ic_match_src : bool; ic_no_resolve : bool }.
(* @src clash-lib/src/app/router/rules/ipcidr.rs 11 53 impl RuleMatcher for IpCidr *)
Definition ipcidr_rule : RuleMatcher IpCidr := {|
  apply r sess :=
    Ok (if ic_match_src r then ipnet_contains (ic_ipnet r) (sa_ip (source sess))
        else match maybe_ip sess with
             | Some ip => ipnet_contains (ic_ipnet r) ip
             | None => false
             end);
  target := ic_target;
  payload r := ipnet_show (ic_ipnet r);
  type_name _ := lit "IPCIDR";
  should_resolve_ip r := negb (ic_no_resolve r);
  display r := ic_target r ++ lit " " ++ (if ic_match_src r then lit "src" else lit "dst")
                 ++ lit " " ++ ipnet_show (ic_ipnet r);
|}.

(* @src clash-lib/src/app/router/rules/port.rs ~pub struct Port~ Port *)
Record Port : Type := { p_port : Z; p_target : str; p_is_src : bool }.
(* @src clash-lib/src/app/router/rules/port.rs 10 42 impl RuleMatcher for Port *)
Definition port_rule : RuleMatcher Port := {|
  apply r sess := Ok (if p_is_src r then sa_port (source sess) =? p_port r
                      else socks_port (destination sess) =? p_port r);
  target := p_target;
  payload r := dec (p_port r);
  type_name _ := lit "Port";
  should_resolve_ip _ := false;
  display r := p_target r ++ lit " " ++ (if p_is_src r then lit "src" else lit "dst")
                 ++ lit " port " ++ dec (p_port r);
|}.

(* @src clash-lib/src/app/router/rules/network.rs ~pub struct NetworkRule~ NetworkRule *)
Record NetworkRule : Type := { n_network : Network; n_target : str }.
(* @src clash-lib/src/app/router/rules/network.rs 12 34 impl RuleMatcher for NetworkRule *)
Definition network_rule : RuleMatcher NetworkRule := {|
  apply r sess := Ok (bool_decide (network sess = n_network r));
  target := n_target;
  payload r := network_to_string (n_network r);
  type_name _ := lit "Network";
  should_resolve_ip _ := false;
  display r := n_target r ++ lit " network " ++ network_to_string (n_network r);
|}.

(* @src clash-lib/src/app/router/rules/process.rs ~pub struct Process~ Process *)
Record Process : Type := { pr_name : str; pr_target : str; pr_name_only : bool }.
(** On the platforms [sock2proc] supports; the destination is cloned first. *)
(* @src clash-lib/src/app/router/rules/process.rs 10 64 impl RuleMatcher for Process *)
Definition process_rule : RuleMatcher Process := {|
  apply r sess :=
    dst ← socks_clone (destination sess);
    Ok match find_process_name (Some (source sess)) (try_into_socket_addr dst) (network sess) with
       | Some proc => if pr_name_only r then bool_decide (proc = pr_name r)
                      else contains (pr_name r) proc
       | None => false
       end;
  target := pr_target;
  payload := pr_name;
  type_name _ := lit "Process";
  should_resolve_ip _ := false;
  display r := pr_target r ++ lit " process " ++ pr_name r;
|}.

(* @src clash-lib/src/app/router/rules/ruleset.rs ~pub struct RuleSet~ RuleSet *)
Record RuleSet : Type := { rs_rule_set : str; rs_target : str; rs_rule_provider : P }.
(* @src clash-lib/src/app/router/rules/ruleset.rs 30 52 impl RuleMatcher for RuleSet *)
Definition ruleset_rule : RuleMatcher RuleSet := {|
  apply r sess := search (rs_rule_provider r) sess;
  target := rs_target;
  payload := rs_rule_set;
  type_name _ := lit "RuleSet";
  should_resolve_ip _ := false;
  display r := rs_target r ++ lit " rule-set " ++ rs_rule_set r;
|}.

(* @src clash-lib/src/app/router/rules/geodata/mod.rs 85 112 impl RuleMatcher for GeoSiteMatcher *)
Definition geosite_rule : RuleMatcher GeoSiteMatcher := {|
  apply r sess := Ok match destination sess with
                     | Ip _ => false
                     | Domain domain _ => smg_apply (gsm_matcher r) domain
                     end;
  target := gsm_target;
  payload := gsm_country_code;
  type_name _ := lit "GeoSite";
  should_resolve_ip _ := false;
  display r := lit "GeoSite(" ++ gsm_country_code r ++ lit ")";
|}.

(** ** Boxed rules *)
(** [Box<dyn RuleMatcher>] *)
Inductive Rule : Type :=
| RDomain (r : DomainRule)
| RDomainSuffix (r : DomainSuffix)
| RDomainRegex (r : DomainRegex)
| RDomainKeyword (r : DomainKeyword)
| RGeoIP (r : GeoIP)
| RGeoSite (r : GeoSiteMatcher)
| RIpCidr (r : IpCidr)
| RPort (r : Port)
| RProcess (r : Process)
| RRuleSet (r : RuleSet)
| RFinal (r : Final)
| RNetwork (r : NetworkRule).

(** Dynamic dispatch: run [f] on the implementation behind the box. *)
Definition dispatch {B : Type} (f : forall Self, RuleMatcher Self -> Self -> B) (r : Rule) : B :=
  match r with
  | RDomain r => f _ domain_rule r
  | RDomainSuffix r => f _ domain_suffix_rule r
  | RDomainRegex r => f _ domain_regex_rule r
  | RDomainKeyword r => f _ domain_keyword_rule r
  | RGeoIP r => f _ geoip_rule r
  | RGeoSite r => f _ geosite_rule r
  | RIpCidr r => f _ ipcidr_rule r
  | RPort r => f _ port_rule r
  | RProcess r => f _ process_rule r
  | RRuleSet r => f _ ruleset_rule r
  | RFinal r => f _ final_rule r
  | RNetwork r => f _ network_rule r
  end.
Definition rule : RuleMatcher Rule := {|
  apply := dispatch (@apply);
  target := dispatch (@target);
  payload := dispatch (@payload);
  type_name := dispatch (@type_name);
  should_resolve_ip := dispatch (@should_resolve_ip);
  display := dispatch (@display);
|}.

(** An unknown rule set exits, a bad GEOSITE payload panics, and a rule set
    inside a provider is unreachable code. *)
(* @src clash-lib/src/app/router/mod.rs ~^pub fn map_rule_type~ map_rule_type *)
Definition map_rule_type (rule_type : RuleType) (mmdb : option MmdbLookup)
    (geodata : option (str -> option GeoSite)) (registry : option (gmap str P)) : res Rule :=
  match rule_type with
  | RtDomain domain target => Ok (RDomain {| d_domain := domain; d_target := target |})
  | RtDomainRegex regex target => Ok (RDomainRegex {| dr_regex := regex; dr_target := target |})
  | RtDomainSuffix domain_suffix target =>
    Ok (RDomainSuffix {| ds_suffix := domain_suffix; ds_target := target |})
  | RtDomainKeyword domain_keyword target =>
    Ok (RDomainKeyword {| dk_keyword := domain_keyword; dk_target := target |})
  | RtIpCidr ipnet target no_resolve =>
    Ok (RIpCidr {| ic_ipnet := ipnet; ic_target := target; ic_match_src := false;
                   ic_no_resolve := no_resolve |})
  | RtSrcCidr ipnet target no_resolve =>
    Ok (RIpCidr {| ic_ipnet := ipnet; ic_target := target; ic_match_src := true;
                   ic_no_resolve := no_resolve |})
  | RtGeoIP target country_code no_resolve =>
    Ok (RGeoIP {| gi_target := target; gi_country_code := country_code;
                  gi_no_resolve := no_resolve; gi_mmdb := mmdb |})
  | RtGeoSite target country_code =>
    m ← or_panic (res_ok (geosite_new country_code target geodata)); Ok (RGeoSite m)
  | RtSRCPort target port => Ok (RPort {| p_port := port; p_target := target; p_is_src := true |})
  | RtDSTPort target port => Ok (RPort {| p_port := port; p_target := target; p_is_src := false |})
  | RtProcessName process_name target =>
    Ok (RProcess {| pr_name := process_name; pr_target := target; pr_name_only := true |})
  | RtProcessPath process_path target =>
    Ok (RProcess {| pr_name := process_path; pr_target := target; pr_name_only := false |})
  | RtRuleSet rule_set target =>
    match registry with
    | Some registry =>
      p ← or_panic (registry !! rule_set);
      Ok (RRuleSet {| rs_rule_set := rule_set; rs_target := target; rs_rule_provider := p |})
    | None => Panic
    end
  | RtMatch target => Ok (RFinal {| f_target := target |})
  | RtNetwork network target => Ok (RNetwork {| n_network := network; n_target := target |})
  end.
End rules.
Arguments Rule {_ _} P.

(** ** The router *)
(** The DNS client as the router sees it: a lookup may change its state. *)
Class Resolver : Type := {
  dns_state : Type;
  resolve : dns_state -> str -> bool -> res (option IpAddr) * dns_state;
}.

Section router.
Context {RX : RegexLib} {NL : IpNetLib} {PL : ProcessLookup} {UC : UnicodeLib} {DNS : Resolver}.
Context {P : Type} (search : P -> Session -> res bool).

(* @src clash-lib/src/app/router/mod.rs ~^pub struct Router~ Router *)
Record Router : Type := {
  rules : list (Rule P);
  asn_mmdb : option MmdbLookup;
}.

(* @src clash-lib/src/app/router/mod.rs ~^const MATCH~ MATCH *)
Definition MATCH : str := lit "MATCH".

(** The rules of a configuration, mapped one by one; the providers are those
    of the registry. *)
(* @src clash-lib/src/app/router/mod.rs 41 80 Router::new *)
Definition router_new (rts : list RuleType) (registry : gmap str P)
    (country_mmdb asn : option MmdbLookup) (geodata : option (str -> option GeoSite)) :
    res Router :=
  rs ← res_fold (fun acc r => x ← map_rule_type r country_mmdb geodata (Some registry);
                              Ok (acc ++ [x])) [] rts;
  Ok {| rules := rs; asn_mmdb := asn |}.

(** The name lookup before a rule. *)
(* @src clash-lib/src/app/router/mod.rs 90 100 Router::match_route (resolution) *)
Definition route_resolve (r : Rule P) (sess : Session) (resolved : bool) (st : dns_state) :
    res (Session * bool * dns_state) :=
  if is_domain (destination sess) && should_resolve_ip (rule search) r && negb resolved then
    host ← or_panic (domain_of (destination sess));
    let '(a, st) := resolve st host false in
    match a with
    | Ok (Some ip) => Ok (set_resolved_ip (Some ip) sess, true, st)
    | Panic => Panic
    | _ => Ok (sess, resolved, st)
    end
  else Ok (sess, resolved, st).

(** The ASN annotation before a rule. *)
(* @src clash-lib/src/app/router/mod.rs 102 121 Router::match_route (ASN) *)
Definition route_annotate (asn_mmdb : option MmdbLookup) (sess : Session) : Session :=
  match maybe_ip sess, asn_mmdb with
  | Some ip, Some db =>
    let sess := match lookup_country db ip with
                | Some code => set_asn (Some code) sess
                | None => sess
                end in
    match asn sess with
    | None => match lookup_asn db ip with
              | Some name => set_asn (Some name) sess
              | None => sess
              end
    | Some _ => sess
    end
  | _, _ => sess
  end.

(* @src clash-lib/src/app/router/mod.rs ~for r in self.rules.iter~ Router::match_route (loop) *)
Fixpoint route_loop (asn_mmdb : option MmdbLookup) (rs : list (Rule P)) (sess : Session)
    (resolved : bool) (st : dns_state) :
    res (str * option (Rule P) * Session * dns_state) :=
  match rs with
  | [] => Ok (MATCH, None, sess, st)
  | r :: rs' =>
    '(sess, resolved, st) ← route_resolve r sess resolved st;
    let sess := route_annotate asn_mmdb sess in
    m ← apply (rule search) r sess;
    if (m : bool) then Ok (target (rule search) r, Some r, sess, st)
    else route_loop asn_mmdb rs' sess resolved st
  end.

(* @src clash-lib/src/app/router/mod.rs ~pub async fn match_route~ Router::match_route *)
Definition match_route (r : Router) (sess : Session) (st : dns_state) :
    res (str * option (Rule P) * Session * dns_state) :=
  route_loop (asn_mmdb r) (rules r) sess false st.
End router.

(** * Lemmas *)
Section router_lemmas.
Context {RX : RegexLib} {NL : IpNetLib} {PL : ProcessLookup} {UC : UnicodeLib} {DNS : Resolver}.
Context {P : Type} (search : P -> Session -> res bool).
Implicit Types (r : Rule P) (rs : list (Rule P)) (sess : Session).

Lemma annotate_destination db sess : destination (route_annotate db sess) = destination sess.
Proof. unfold route_annotate. repeat case_match; done. Qed.
Lemma annotate_resolved_ip db sess : resolved_ip (route_annotate db sess) = resolved_ip sess.
Proof. unfold route_annotate. repeat case_match; done. Qed.
Lemma annotate_maybe_ip db sess : maybe_ip (route_annotate db sess) = maybe_ip sess.
Proof. unfold maybe_ip. by rewrite annotate_resolved_ip, annotate_destination. Qed.

Lemma set_asn_twice a b sess : set_asn a (set_asn b sess) = set_asn a sess.
Proof. done. Qed.
Lemma set_asn_same a sess : asn sess = a -> set_asn a sess = sess.
Proof. destruct sess; simpl; by intros <-. Qed.

Lemma annotate_idem db sess : route_annotate db (route_annotate db sess) = route_annotate db sess.
Proof.
  unfold route_annotate at 1. rewrite annotate_maybe_ip. unfold route_annotate.
  destruct (maybe_ip sess) as [ip|], db as [db|]; try done.
  destruct (lookup_country db ip) as [c|] eqn:Ec; [done|].
  destruct (asn sess) as [a|] eqn:Ea; [by rewrite Ea|].
  destruct (lookup_asn db ip) as [n|] eqn:En; simpl; [done|by rewrite Ea, ?En].
Qed.

(** [a] is the answer of every lookup of [host]. *)
Definition answers (host : str) (a : option IpAddr) : Prop :=
  forall st, match (resolve st host false).1 with
             | Ok o => o = a
             | Err _ => a = None
             | Panic => False
             end.

(** The session as the rules see it once the name has been looked up. *)
Definition with_answer (a : option IpAddr) (sess : Session) : Session :=
  match a with Some ip => set_resolved_ip (Some ip) sess | None => sess end.

(** The session shown to the last rule of [seen]: the name has been looked
    up exactly when the destination is a domain and one of these rules asks
    for an address. *)
Definition route_view (db : option MmdbLookup) (a : option IpAddr) (seen : list (Rule P))
    (sess : Session) : Session :=
  route_annotate db
    (if is_domain (destination sess) && existsb (should_resolve_ip (rule search)) seen
     then with_answer a sess else sess).

Lemma route_resolve_answers r sess resolved st a :
  (forall host, domain_of (destination sess) = Some host -> answers host a) ->
  (exists st', route_resolve search r sess resolved st =
    if is_domain (destination sess) && should_resolve_ip (rule search) r && negb resolved
    then Ok (with_answer a sess, bool_decide (is_Some a), st')
    else Ok (sess, resolved, st')).
Proof.
  intros Ha. unfold route_resolve. destruct (is_domain (destination sess)) eqn:Ed; [|by exists st].
  destruct (destination sess) as [|host port] eqn:E; [done|].
  destruct (should_resolve_ip (rule search) r); cbn [andb]; [|by exists st].
  destruct resolved; simpl; [by exists st|].
  specialize (Ha host eq_refl st). destruct (resolve st host false) as [[o|e|] st']; [| |done];
    simpl in *; subst; [|by exists st'].
  destruct a as [ip|]; by exists st'.
Qed.

Definition asked (seen : list (Rule P)) (sess : Session) : bool :=
  is_domain (destination sess) && existsb (should_resolve_ip (rule search)) seen.

(** The loop's state after the rules [seen] have been passed over. *)
Definition route_inv (db : option MmdbLookup) (a : option IpAddr) (sess0 : Session)
    (seen : list (Rule P)) (sess : Session) (resolved : bool) : Prop :=
  destination sess = destination sess0 /\
  resolved = asked seen sess0 && bool_decide (is_Some a) /\
  route_annotate db sess = route_view db a seen sess0 /\
  (is_domain (destination sess0) = true -> asked seen sess0 = false -> sess = sess0).

Lemma annotate_no_ip db sess : maybe_ip sess = None -> route_annotate db sess = sess.
Proof. unfold route_annotate. by intros ->. Qed.

Lemma asked_snoc seen r sess :
  asked (seen ++ [r]) sess =
  asked seen sess || (is_domain (destination sess) && should_resolve_ip (rule search) r).
Proof.
  unfold asked. rewrite existsb_app. cbn [existsb]. rewrite orb_false_r.
  by destruct (is_domain _).
Qed.

Lemma route_view_asked db a seen sess :
  route_view db a seen sess =
  route_annotate db (if asked seen sess then with_answer a sess else sess).
Proof. done. Qed.

Lemma route_step db a sess0 seen sess resolved st r :
  (is_domain (destination sess0) = true -> maybe_ip sess0 = None) ->
  (forall host, domain_of (destination sess0) = Some host -> answers host a) ->
  route_inv db a sess0 seen sess resolved ->
  exists sess1 resolved1 st1,
    route_resolve search r sess resolved st = Ok (sess1, resolved1, st1) /\
    route_annotate db sess1 = route_view db a (seen ++ [r]) sess0 /\
    route_inv db a sess0 (seen ++ [r]) (route_annotate db sess1) resolved1.
Proof.
  intros Hfresh Ha (Hd & Hr & Hv & Hs).
  destruct (route_resolve_answers r sess resolved st a) as [st1 E]; [by rewrite Hd|].
  rewrite Hd in E. rewrite E. clear E. rewrite route_view_asked in Hv.
  assert (is_domain (destination sess0) = true -> route_annotate db sess0 = sess0) as Hno.
  { intros Hdom. by apply annotate_no_ip, Hfresh. }
  unfold route_inv. setoid_rewrite annotate_idem. setoid_rewrite annotate_destination.
  setoid_rewrite route_view_asked. rewrite asked_snoc.
  destruct (is_domain (destination sess0)) eqn:Hdom; cbn [andb].
  2: { unfold asked in *. rewrite Hdom in *. simpl in *. subst resolved.
       eexists _, _, _. split_and!; [done..| |done|done]. done. }
  destruct (should_resolve_ip (rule search) r) eqn:Er; cbn [andb].
  - rewrite orb_true_r. simpl. destruct resolved; simpl.
    + symmetry in Hr. apply andb_true_iff in Hr as [Hk Hsome]. rewrite Hk in Hv.
      eexists _, _, _. split_and!; [done..|by rewrite Hsome|done|done].
    + eexists _, _, _. split; [done|].
      assert (route_annotate db (with_answer a sess) = route_annotate db (with_answer a sess0)) as Hw.
      { destruct (asked seen sess0) eqn:Hk; [|by rewrite (Hs eq_refl eq_refl)].
        destruct a; [done|]. done. }
      split_and!; [done| |done|done|done]. by destruct a.
  - rewrite orb_false_r. eexists _, _, _. split_and!; [done..|].
    intros _ Hk. rewrite (Hs eq_refl Hk). by apply Hno.
Qed.

Lemma route_loop_spec db a sess0 rs seen sess resolved st :
  (is_domain (destination sess0) = true -> maybe_ip sess0 = None) ->
  (forall host, domain_of (destination sess0) = Some host -> answers host a) ->
  route_inv db a sess0 seen sess resolved ->
  (Forall (fun x => forall s, is_ok (apply (rule search) x s) = true) rs ->
     is_ok (route_loop search db rs sess resolved st) = true) /\
  forall t m sess' st',
    route_loop search db rs sess resolved st = Ok (t, m, sess', st') ->
    match m with
    | Some x => exists i, rs !! i = Some x /\ t = target (rule search) x /\
        sess' = route_view db a (seen ++ take (S i) rs) sess0 /\
        apply (rule search) x sess' = Ok true /\
        forall j y, (j < i)%nat -> rs !! j = Some y ->
          apply (rule search) y (route_view db a (seen ++ take (S j) rs) sess0) = Ok false
    | None => t = MATCH /\ forall j y, rs !! j = Some y ->
          apply (rule search) y (route_view db a (seen ++ take (S j) rs) sess0) = Ok false
    end.
Proof.
  intros Hfresh Ha. revert seen sess resolved st.
  induction rs as [|r rs IH]; intros seen sess resolved st Hinv; cbn [route_loop].
  { split; [done|]. intros t m sess' st' H. simplify_eq. by split. }
  destruct (route_step db a sess0 seen sess resolved st r Hfresh Ha Hinv)
    as (sess1 & resolved1 & st1 & -> & Hv & Hinv1). rstep.
  destruct (IH _ _ _ st1 Hinv1) as [IHok IHspec]. clear IH.
  destruct (apply (rule search) r (route_annotate db sess1)) as [[]| |] eqn:Eap; rstep.
  - split; [done|]. intros t m sess' st' H. simplify_eq. exists 0%nat. simpl.
    rewrite take_0. split_and!; [done..|]. intros. lia.
  - split; [intros Hall; apply Forall_cons in Hall as [_ Hall]; by apply IHok|].
    intros t m sess' st' H. specialize (IHspec _ _ _ _ H). rewrite Hv in Eap.
    destruct m as [x|].
    + destruct IHspec as (i & Hi & Ht & Hs & Hx & Hbefore). exists (S i).
      rewrite (firstn_cons (S i)), <- app_assoc in *. split_and!; [done..|].
      intros [|j] y Hj Hy.
      * simpl in Hy. simplify_eq. by rewrite (firstn_cons 0), take_0.
      * rewrite (firstn_cons (S j)). specialize (Hbefore j y ltac:(lia) Hy).
        by rewrite <- app_assoc in Hbefore.
    + destruct IHspec as [Ht Hbefore]. split; [done|]. intros [|j] y Hy.
      * simpl in Hy. simplify_eq. by rewrite (firstn_cons 0), take_0.
      * rewrite (firstn_cons (S j)). specialize (Hbefore j y Hy).
        by rewrite <- app_assoc in Hbefore.
  - split; [|done]. intros Hall. apply Forall_cons in Hall as [Hr _].
    specialize (Hr (route_annotate db sess1)). by rewrite Eap in Hr.
  - split; [|done]. intros Hall. apply Forall_cons in Hall as [Hr _].
    specialize (Hr (route_annotate db sess1)). by rewrite Eap in Hr.
Qed.

Lemma route_inv_init db a sess : route_inv db a sess [] sess false.
Proof.
  unfold route_inv, route_view, asked. simpl. rewrite !andb_false_r. by split_and!.
Qed.
End router_lemmas.

Section router_more.
Context {RX : RegexLib} {NL : IpNetLib} {PL : ProcessLookup} {UC : UnicodeLib} {DNS : Resolver}.
Context {P : Type} (search : P -> Session -> res bool).
Implicit Types (r : Rule P) (rs : list (Rule P)) (sess : Session).

Lemma map_rule_type_target rt mmdb geodata registry r :
  map_rule_type rt mmdb geodata registry = Ok r -> target (rule search) r = rt_target rt.
Proof.
  destruct rt; simpl; try (intros H; simplify_eq; done).
  - destruct (geosite_new _ _ geodata) as [m| |] eqn:E; simpl; try done.
    intros H; simplify_eq. simpl. unfold geosite_new in E.
    apply res_bind_ok in E as ([[neg code] attrs] & _ & E).
    apply res_bind_ok in E as (get & _ & E). apply res_bind_ok in E as (l & _ & E).
    apply res_bind_ok in E as (g & _ & E). by simplify_eq.
  - destruct registry as [reg|]; simpl; [|done]. destruct (reg !! rule_set); simpl; [|done].
    intros H. by simplify_eq.
Qed.

Lemma map_rules_spec rts mmdb geodata registry acc rs :
  res_fold (fun acc (rt : RuleType) => x ← map_rule_type rt mmdb geodata registry; Ok (acc ++ [x])) acc rts = Ok rs ->
  exists rs', rs = acc ++ rs' /\
    Forall2 (fun rt r => map_rule_type rt mmdb geodata registry = Ok r) rts rs'.
Proof.
  revert acc. induction rts as [|rt rts IH]; intros acc; cbn [res_fold].
  - intros H. simplify_eq. exists []. by rewrite app_nil_r.
  - destruct (map_rule_type rt mmdb geodata registry) as [x| |] eqn:E; simpl; try done.
    intros H. apply IH in H as (rs' & -> & H). exists (x :: rs').
    by rewrite <- app_assoc; split; [|constructor].
Qed.

(** What a lookup sequence can do to the resolver's state. *)
Lemma route_loop_dns db rs sess resolved st t m sess' st' :
  route_loop search db rs sess resolved st = Ok (t, m, sess', st') ->
  (is_domain (destination sess) = false \/ resolved = true \/
     existsb (should_resolve_ip (rule search)) rs = false -> st' = st) /\
  (forall host ip, domain_of (destination sess) = Some host ->
     (resolve st host false).1 = Ok (Some ip) -> st' = st \/ st' = (resolve st host false).2).
Proof.
  revert sess resolved st. induction rs as [|r rs IH]; intros sess resolved st; cbn [route_loop].
  { intros H. simplify_eq. split; [done|by left]. }
  intros H. apply res_bind_ok in H as ([[sess1 resolved1] st1] & Hres & H).
  apply res_bind_ok in H as (b & _ & H). unfold route_resolve in Hres.
  assert (forall s, destination (route_annotate db s) = destination s) as Hd
    by apply annotate_destination.
  destruct (is_domain (destination sess) && should_resolve_ip (rule search) r && negb resolved)
    eqn:Eq.
  2: { simplify_eq. destruct b; [simplify_eq; split; [done|by left]|]. apply IH in H.
       rewrite Hd in H. destruct H as [H1 H2]. split; [|exact H2].
       intros [?|[?|Hex]]; apply H1; [by left|by right; left|].
       cbn [existsb] in Hex. apply orb_false_iff in Hex as [_ ?]. by right; right. }
  apply andb_true_iff in Eq as [Eq Hnr]. apply andb_true_iff in Eq as [Hdom Hsr].
  destruct resolved; [done|].
  assert (forall host ip, domain_of (destination sess) = Some host ->
     (resolve st host false).1 = Ok (Some ip) -> st' = (resolve st host false).2) as Hgo.
  { intros host ip Hh Hr. rewrite Hh in Hres. rstep. simpl in Hres.
    destruct (resolve st host false) as [o st2]; simpl in *. simplify_eq.
    destruct b; [by simplify_eq|]. apply IH in H as [H _]. apply H. by right; left. }
  split; [|intros; right; eauto].
  intros [?|[?|Hex]]; [congruence|done|]. cbn [existsb] in Hex.
  apply orb_false_iff in Hex as [? _]. congruence.
Qed.
End router_more.

(** * Theorems *)

(** C1: routing takes the first rule that applies.  For a session whose domain
    destination carries no address yet, and a resolver that answers its name
    consistently, [match_route] returns a rule exactly as: the rule applies
    to the session as it is shown at that point, no earlier rule applied,
    and its target is returned; or no rule applied and the target is MATCH.
    The session shown to a rule (and returned) has the looked-up address
    exactly when the destination is a domain and this rule or an earlier one
    asks for it.  If no rule's own code panics, routing returns. *)
Theorem match_route_first {RX : RegexLib} {NL : IpNetLib} {PL : ProcessLookup} {UC : UnicodeLib}
    {DNS : Resolver} {P : Type} (search : P -> Session -> res bool)
    (R : Router) (sess : Session) (st : dns_state) (a : option IpAddr)
    (Hfresh : is_domain (destination sess) = true -> maybe_ip sess = None)
    (Hans : forall host, domain_of (destination sess) = Some host -> answers host a) :
  let view i := route_view search (asn_mmdb R) a (take (S i) (rules R)) sess in
  (Forall (fun x => forall s, is_ok (apply (rule search) x s) = true) (rules R) ->
     is_ok (match_route search R sess st) = true) /\
  forall t m sess' st',
    match_route search R sess st = Ok (t, m, sess', st') ->
    match m with
    | Some x => exists i, rules R !! i = Some x /\ t = target (rule search) x /\
        sess' = view i /\ apply (rule search) x (view i) = Ok true /\
        forall j y, (j < i)%nat -> rules R !! j = Some y -> apply (rule search) y (view j) = Ok false
    | None => t = MATCH /\ forall j y, rules R !! j = Some y -> apply (rule search) y (view j) = Ok false
    end.
Proof.
  intros view. destruct (route_loop_spec search (asn_mmdb R) a sess (rules R) [] sess false st
    Hfresh Hans (route_inv_init search _ _ _)) as [Hok Hspec]. split; [exact Hok|].
  intros t m sess' st' H. specialize (Hspec t m sess' st' H). simpl in Hspec.
  destruct m as [x|]; [|exact Hspec].
  destruct Hspec as (i & Hi & Ht & -> & Hx & Hb). by exists i.
Qed.

(** C37: at most one successful name lookup.  Routing leaves the resolver alone
    when the destination is an address or no rule asks for one; and when the
    first lookup of the name succeeds, it is the only one, however many
    rules ask. *)
Theorem match_route_lookups {RX : RegexLib} {NL : IpNetLib} {PL : ProcessLookup} {UC : UnicodeLib}
    {DNS : Resolver} {P : Type} (search : P -> Session -> res bool)
    (R : Router) (sess : Session) (st : dns_state) t m sess' st'
    (Hroute : match_route search R sess st = Ok (t, m, sess', st')) :
  (is_domain (destination sess) = false \/
     existsb (should_resolve_ip (rule search)) (rules R) = false -> st' = st) /\
  (forall host ip, domain_of (destination sess) = Some host ->
     (resolve st host false).1 = Ok (Some ip) -> st' = st \/ st' = (resolve st host false).2).
Proof.
  apply route_loop_dns in Hroute as [H1 H2]. split; [|exact H2].
  intros [?|?]; apply H1; auto.
Qed.

(** A configuration's rules keep their order and targets.  When every rule
    of the configuration maps to a matcher, the router holds one matcher per
    rule, in order, with the same target; and if one of them is MATCH,
    routing never falls through to the implicit MATCH. *)
Theorem router_new_rules {RX : RegexLib} {NL : IpNetLib} {PL : ProcessLookup} {UC : UnicodeLib}
    {DNS : Resolver} {P : Type} (search : P -> Session -> res bool)
    (rts : list RuleType) (registry : gmap str P) country asn geodata (R : Router)
    (Hnew : router_new rts registry country asn geodata = Ok R) :
  (target (rule search)) <$> rules R = rt_target <$> rts /\
  forall tgt sess st t m sess' st',
    RtMatch tgt ∈ rts -> match_route search R sess st = Ok (t, m, sess', st') -> is_Some m.
Proof.
  unfold router_new in Hnew. apply res_bind_ok in Hnew as (rs & Hrs & Hnew). simplify_eq. simpl.
  apply map_rules_spec in Hrs as (rs' & -> & Hrs). simpl. split.
  - induction Hrs as [|rt r rts rs' Hr _ IH]; [done|]. simpl. f_equal; [|exact IH].
    by eapply map_rule_type_target.
  - intros tgt sess st t m sess' st' Hin. unfold match_route. simpl.
    generalize false. revert sess st.
    induction Hrs as [|rt r rts rs' Hr _ IH]; intros sess st b H; [by apply elem_of_nil in Hin|].
    cbn [route_loop] in H. apply res_bind_ok in H as ([[s1 b1] st1] & _ & H).
    apply res_bind_ok in H as (b2 & Hap & H). destruct b2; [by simplify_eq|].
    apply elem_of_cons in Hin as [<-|Hin]; [|by eapply IH]. simpl in Hr. by simplify_eq.
Qed.

(** A resolver that counts its lookups and knows one name. *)
Definition demo_resolver : Resolver := {|
  dns_state := nat;
  resolve n host _ :=
    (if bool_decide (host = lit "china.com") then Ok (Some (V4 0x72727272)) else Ok None, S n);
|}.
Definition demo_process : ProcessLookup := {| find_process_name _ _ _ := None |}.

Definition demo_session (d : SocksAddr) : Session := set_destination d (session_default 0 0).1.

Definition demo_rules : list (@RuleType demo_regex ref_ipnet) :=
  [RtDomainSuffix (lit "t.me") (lit "DS");
   RtGeoIP (lit "GEO") (lit "CN") false;
   RtMatch (lit "DIRECT")].
Definition demo_mmdb : MmdbLookup := {|
  lookup_country ip := if bool_decide (ip = V4 0x72727272) then Some (lit "CN") else None;
  lookup_asn _ := None;
|}.

Section demo.
#[local] Existing Instances demo_regex ref_ipnet demo_process demo_unicode demo_resolver.

Definition demo_search : unit -> Session -> res bool := fun _ _ => Ok false.
Definition demo_router : Router (P := unit) := {|
  rules := [RDomainSuffix {| ds_suffix := lit "t.me"; ds_target := lit "DS" |};
            RGeoIP {| gi_target := lit "GEO"; gi_country_code := lit "CN"; gi_no_resolve := false;
                      gi_mmdb := Some demo_mmdb |};
            RFinal {| f_target := lit "DIRECT" |}];
  asn_mmdb := None |}.
Definition demo_sess : Session := demo_session (Domain (lit "china.com") 1111).
Definition demo_routed : res (str * option (Rule unit) * Session * nat) :=
  Ok (lit "GEO", rules demo_router !! 1%nat, set_resolved_ip (Some (V4 0x72727272)) demo_sess, 1%nat).

Lemma demo_new : router_new demo_rules ∅ (Some demo_mmdb) None None = Ok demo_router.
Proof. reflexivity. Qed.
Lemma demo_route : match_route (DNS := demo_resolver) demo_search demo_router demo_sess 0%nat = demo_routed.
Proof. reflexivity. Qed.

Lemma match_route_first_witness :
  exists x i, rules demo_router !! i = Some x /\ lit "GEO" = target (rule demo_search) x.
Proof.
  pose proof (match_route_first (DNS := demo_resolver) demo_search demo_router demo_sess 0%nat (Some (V4 0x72727272))) as H.
  destruct H as [_ H].
  - intros _. reflexivity.
  - intros host Hh st. injection Hh as <-. reflexivity.
  - specialize (H _ _ _ _ demo_route). destruct H as (i & Hi & Ht & _). eexists _, i. split; [exact Hi|exact Ht].
Defined.

Lemma match_route_lookups_witness : 1%nat = 0%nat \/ 1%nat = 1%nat.
Proof.
  apply (proj2 (match_route_lookups (DNS := demo_resolver) demo_search demo_router demo_sess 0%nat _ _ _ _ demo_route)
           (lit "china.com") (V4 0x72727272)); reflexivity.
Defined.

Lemma router_new_rules_witness :
  target (rule demo_search) <$> rules demo_router = [lit "DS"; lit "GEO"; lit "DIRECT"].
Proof. apply (router_new_rules demo_search _ _ _ _ _ demo_router demo_new). Defined.
End demo.
