(* ===== verification/Profile.v ===== *)
(** * The cache file ([clash-lib/src/app/profile/mod.rs])

    The persistent key-value state: the selected proxy of each group, the
    fake-ip bindings in both directions, the smart groups' statistics and
    the country codes of domains.  The statistics are stored and returned
    as they are, so their type is a parameter.  The writer task that flushes
    the file every ten seconds is not modelled: it reads the state only. *)

From S2P Require Import Prelude Str.

(* @src clash-lib/src/app/profile/mod.rs ~pub struct GeoIPCacheEntry~ GeoIPCacheEntry *)
Record GeoIPCacheEntry : Type := { code : str; expires_at : Z }.

Section profile.
Context {SmartStateData : Type}.

(* @src clash-lib/src/app/profile/mod.rs ~^struct Db~ Db *)
Record Db : Type := {
  selected : gmap str str;
  ip_to_host : gmap str str;
  host_to_ip : gmap str str;
  smart_stats : gmap str SmartStateData;
  smart_policy_priority : gmap str str;
  domain_geoip : gmap str GeoIPCacheEntry;
}.
Definition db_empty : Db := {|
  selected := ∅; ip_to_host := ∅; host_to_ip := ∅; smart_stats := ∅;
  smart_policy_priority := ∅; domain_geoip := ∅ |}.

(* @src clash-lib/src/app/profile/mod.rs ~^struct CacheFile~ CacheFile *)
Record CacheFile : Type := { db : Db; store_selected : bool }.

(** [content] is what reading the file gave, [from_yaml] is [serde_yaml]. *)
(* @src clash-lib/src/app/profile/mod.rs ~    pub fn new\(path~#2 CacheFile::new *)
Definition cache_file_new (from_yaml : str -> option Db) (content : option str)
    (store_selected : bool) : CacheFile :=
  {| db := match content with
           | Some s => default db_empty (from_yaml s)
           | None => db_empty
           end;
     store_selected := store_selected |}.

Definition with_db (f : Db -> Db) (c : CacheFile) : CacheFile :=
  {| db := f (db c); store_selected := store_selected c |}.

(* @src clash-lib/src/app/profile/mod.rs ~    pub fn set_selected~ CacheFile::set_selected *)
Definition cf_set_selected (group server : str) : CacheFile -> CacheFile := with_db (fun d => {|
  selected := <[group := server]> (selected d); ip_to_host := ip_to_host d;
  host_to_ip := host_to_ip d; smart_stats := smart_stats d;
  smart_policy_priority := smart_policy_priority d; domain_geoip := domain_geoip d |}).
(* @src clash-lib/src/app/profile/mod.rs ~    pub fn get_selected_map~ CacheFile::get_selected_map *)
Definition cf_get_selected_map (c : CacheFile) : gmap str str := selected (db c).
(* @src clash-lib/src/app/profile/mod.rs ~    pub fn set_ip_to_host~ CacheFile::set_ip_to_host *)
Definition cf_set_ip_to_host (ip host : str) : CacheFile -> CacheFile := with_db (fun d => {|
  selected := selected d; ip_to_host := <[ip := host]> (ip_to_host d);
  host_to_ip := host_to_ip d; smart_stats := smart_stats d;
  smart_policy_priority := smart_policy_priority d; domain_geoip := domain_geoip d |}).
(* @src clash-lib/src/app/profile/mod.rs ~    pub fn set_host_to_ip~ CacheFile::set_host_to_ip *)
Definition cf_set_host_to_ip (host ip : str) : CacheFile -> CacheFile := with_db (fun d => {|
  selected := selected d; ip_to_host := ip_to_host d;
  host_to_ip := <[host := ip]> (host_to_ip d); smart_stats := smart_stats d;
  smart_policy_priority := smart_policy_priority d; domain_geoip := domain_geoip d |}).
(* @src clash-lib/src/app/profile/mod.rs ~    pub fn get_fake_ip~ CacheFile::get_fake_ip *)
Definition cf_get_fake_ip (ip_or_host : str) (c : CacheFile) : option str :=
  match ip_to_host (db c) !! ip_or_host with
  | Some v => Some v
  | None => host_to_ip (db c) !! ip_or_host
  end.
(* @src clash-lib/src/app/profile/mod.rs ~    pub fn delete_fake_ip_pair~ CacheFile::delete_fake_ip_pair *)
Definition cf_delete_fake_ip_pair (ip host : str) : CacheFile -> CacheFile := with_db (fun d => {|
  selected := selected d; ip_to_host := delete ip (ip_to_host d);
  host_to_ip := delete host (host_to_ip d); smart_stats := smart_stats d;
  smart_policy_priority := smart_policy_priority d; domain_geoip := domain_geoip d |}).
(* @src clash-lib/src/app/profile/mod.rs ~    pub fn set_smart_stats~ CacheFile::set_smart_stats *)
Definition cf_set_smart_stats (group_name : str) (stats : SmartStateData) :
    CacheFile -> CacheFile := with_db (fun d => {|
  selected := selected d; ip_to_host := ip_to_host d; host_to_ip := host_to_ip d;
  smart_stats := <[group_name := stats]> (smart_stats d);
  smart_policy_priority := smart_policy_priority d; domain_geoip := domain_geoip d |}).
(* @src clash-lib/src/app/profile/mod.rs ~    pub fn get_smart_stats~ CacheFile::get_smart_stats *)
Definition cf_get_smart_stats (group_name : str) (c : CacheFile) : option SmartStateData :=
  smart_stats (db c) !! group_name.

(** ** [ThreadSafeCacheFile]: each operation under the lock *)
(* @src clash-lib/src/app/profile/mod.rs ~pub async fn set_selected~ ThreadSafeCacheFile::set_selected *)
Definition ts_set_selected (group server : str) (c : CacheFile) : CacheFile :=
  if store_selected c then cf_set_selected group server c else c.
(* @src clash-lib/src/app/profile/mod.rs ~pub async fn get_selected\(~ ThreadSafeCacheFile::get_selected *)
Definition ts_get_selected (group : str) (c : CacheFile) : option str :=
  if store_selected c then selected (db c) !! group else None.
(* @src clash-lib/src/app/profile/mod.rs ~pub async fn get_selected_map~ ThreadSafeCacheFile::get_selected_map *)
Definition ts_get_selected_map (c : CacheFile) : gmap str str :=
  if store_selected c then cf_get_selected_map c else ∅.
(* @src clash-lib/src/app/profile/mod.rs ~pub async fn get_domain_geoip~ ThreadSafeCacheFile::get_domain_geoip *)
Definition ts_get_domain_geoip (domain : str) (c : CacheFile) : option GeoIPCacheEntry :=
  if store_selected c then domain_geoip (db c) !! domain else None.
(* @src clash-lib/src/app/profile/mod.rs ~pub async fn set_domain_geoip~ ThreadSafeCacheFile::set_domain_geoip *)
Definition ts_set_domain_geoip (domain : str) (entry : GeoIPCacheEntry) (c : CacheFile) : CacheFile :=
  if store_selected c then
    with_db (fun d => {|
      selected := selected d; ip_to_host := ip_to_host d; host_to_ip := host_to_ip d;
      smart_stats := smart_stats d; smart_policy_priority := smart_policy_priority d;
      domain_geoip := <[domain := entry]> (domain_geoip d) |}) c
  else c.
End profile.
Arguments Db : clear implicits.
Arguments CacheFile : clear implicits.

(** The remembered selection of a group reads back, unless persistence is
    off, in which case nothing is stored or returned. *)
Lemma ts_selected_get_set {D} (c : CacheFile D) (group server g : str) :
  ts_get_selected g (ts_set_selected group server c) =
  if store_selected c then (if decide (g = group) then Some server else ts_get_selected g c)
  else None.
Proof.
  unfold ts_set_selected, ts_get_selected. destruct (store_selected c) eqn:E; simpl.
  - rewrite E. case_decide; subst; [by rewrite lookup_insert_eq|by rewrite lookup_insert_ne].
  - by rewrite E.
Qed.
