(* ===== verification/FakeIp.v ===== *)
(** * Fake addresses ([clash-lib/src/app/dns/fakeip])

    [FakeDns] hands out addresses of a pool to host names and remembers the
    pairing in a [Store].  The store is an interface ([StoreOps] with
    [StoreLaws]); the pool's theorems are proved against it, and the two
    stores of the source, in memory and in the cache file, implement it. *)

From S2P Require Import Prelude Str Net Trie Profile.

(* @src clash-lib/src/app/dns/fakeip/mod.rs ~pub trait Store~ Store *)
Class StoreOps (S : Type) : Type := {
  get_by_host : S -> str -> option IpAddr * S;
  pub_by_host : S -> str -> IpAddr -> S;
  get_by_ip : S -> IpAddr -> option str * S;
  put_by_ip : S -> IpAddr -> str -> S;
  del_by_ip : S -> IpAddr -> S;
  exist : S -> IpAddr -> bool * S;
  copy_to : forall T : Type, S -> T -> T;
}.

(** ** The pool *)
Section fakedns.
Context {NL : IpNetLib} {S : Type} {SO : StoreOps S}.
(** Overflow checks of the build. *)
Context (oc : bool).

(* @src clash-lib/src/app/dns/fakeip/mod.rs ~pub struct FakeDns~ FakeDns *)
Record FakeDns : Type := {
  fd_max : Z;
  fd_min : Z;
  fd_gateway : Z;
  fd_offset : Z;
  fd_skipped_hostnames : option (StringTrie bool);
  fd_ipnet : IpNet;
  fd_store : S;
}.

Definition with_store (s : S) (f : FakeDns) : FakeDns :=
  {| fd_max := fd_max f; fd_min := fd_min f; fd_gateway := fd_gateway f; fd_offset := fd_offset f;
     fd_skipped_hostnames := fd_skipped_hostnames f; fd_ipnet := fd_ipnet f; fd_store := s |}.
Definition with_offset (o : Z) (f : FakeDns) : FakeDns :=
  {| fd_max := fd_max f; fd_min := fd_min f; fd_gateway := fd_gateway f; fd_offset := o;
     fd_skipped_hostnames := fd_skipped_hostnames f; fd_ipnet := fd_ipnet f; fd_store := fd_store f |}.

(** A range that is not IPv4 is unreachable code; the arithmetic is on [u32]. *)
(* @src clash-lib/src/app/dns/fakeip/mod.rs ~    pub fn new~ FakeDns::new *)
Definition fakedns_new (ipnet : IpNet) (skipped : option (StringTrie bool)) (store : S) :
    res FakeDns :=
  ip ← match ipnet_network ipnet with V4 ip => Ok ip | V6 _ => Panic end;
  min ← arith oc 32 (ip + 2);
  let prefix_len := ipnet_prefix_len ipnet in
  let max_prefix_len := ip_width (ipnet_addr ipnet) in
  one ← shl oc 32 1 (max_prefix_len - prefix_len);
  total ← arith oc 32 (one - 2);
  m ← arith oc 32 (min + total);
  max ← arith oc 32 (m - 1);
  gateway ← arith oc 32 (min - 1);
  Ok {| fd_max := max; fd_min := min; fd_gateway := gateway; fd_offset := 0;
        fd_skipped_hostnames := skipped; fd_ipnet := ipnet; fd_store := store |}.

(** [(self.offset + 1) % (self.max - self.min)] *)
(* @src clash-lib/src/app/dns/fakeip/mod.rs ~self.offset = ~ FakeDns::get (next offset) *)
Definition next_offset (f : FakeDns) (offset : Z) : res Z :=
  o ← arith oc 32 (offset + 1);
  n ← arith oc 32 (fd_max f - fd_min f);
  if n =? 0 then Panic else Ok (o mod n).

(** [net::Ipv4Addr::from(self.min + self.offset - 1)] *)
(* @src clash-lib/src/app/dns/fakeip/mod.rs ~let ip = net::Ipv4Addr::from~ FakeDns::get (address) *)
Definition offset_ip (f : FakeDns) (offset : Z) : res IpAddr :=
  s ← arith oc 32 (fd_min f + offset);
  a ← arith oc 32 (s - 1);
  Ok (V4 a).

(** The search loop; [None] is running out of fuel. *)
(* @src clash-lib/src/app/dns/fakeip/mod.rs ~        loop ~ FakeDns::get (loop) *)
Fixpoint get_loop (fuel : nat) (current : Z) (f : FakeDns) : option (res FakeDns) :=
  match fuel with
  | O => None
  | Datatypes.S fuel' =>
    match next_offset f (fd_offset f) with
    | Ok o =>
      if o =? current then
        Some (o' ← next_offset f o;
              ip ← offset_ip f o';
              Ok (with_store (del_by_ip (fd_store f) ip) (with_offset o' f)))
      else
        match offset_ip f o with
        | Ok ip =>
          let '(e, s) := exist (fd_store f) ip in
          let f := with_store s (with_offset o f) in
          if e then get_loop fuel' current f else Some (Ok f)
        | Err e => Some (Err e)
        | Panic => Some Panic
        end
    | Err e => Some (Err e)
    | Panic => Some Panic
    end
  end.

(* @src clash-lib/src/app/dns/fakeip/mod.rs ~    async fn get~ FakeDns::get *)
Definition fakedns_get (fuel : nat) (host : str) (f : FakeDns) : option (res (IpAddr * FakeDns)) :=
  match get_loop fuel (fd_offset f) f with
  | None => None
  | Some r =>
    Some (f ← r; ip ← offset_ip f (fd_offset f);
          Ok (ip, with_store (put_by_ip (fd_store f) ip host) f))
  end.

(** Enough iterations to go round the pool once. *)
Definition pool_fuel (f : FakeDns) : nat := Datatypes.S (Z.to_nat (wrap 32 (fd_max f - fd_min f))).

(* @src clash-lib/src/app/dns/fakeip/mod.rs ~    pub async fn lookup~ FakeDns::lookup *)
Definition fakedns_lookup (host : str) (f : FakeDns) : option (res (IpAddr * FakeDns)) :=
  let '(o, s) := get_by_host (fd_store f) host in
  let f := with_store s f in
  match o with
  | Some ip => Some (Ok (ip, f))
  | None =>
    match fakedns_get (pool_fuel f) host f with
    | None => None
    | Some r => Some ('(ip, f) ← r; Ok (ip, with_store (pub_by_host (fd_store f) host ip) f))
    end
  end.

(* @src clash-lib/src/app/dns/fakeip/mod.rs ~    pub async fn reverse_lookup~ FakeDns::reverse_lookup *)
Definition reverse_lookup (ip : IpAddr) (f : FakeDns) : option str * FakeDns :=
  if negb (is_ipv4 ip) then (None, f)
  else let '(o, s) := get_by_ip (fd_store f) ip in (o, with_store s f).

(* @src clash-lib/src/app/dns/fakeip/mod.rs ~    pub fn should_skip~ FakeDns::should_skip *)
Definition should_skip (domain : str) (f : FakeDns) : bool :=
  match fd_skipped_hostnames f with
  | None => false
  | Some host => bool_decide (is_Some (trie_search host domain))
  end.

(* @src clash-lib/src/app/dns/fakeip/mod.rs ~    pub async fn exist~ FakeDns::exist *)
Definition fakedns_exist (ip : IpAddr) (f : FakeDns) : bool * FakeDns :=
  if negb (is_ipv4 ip) then (false, f)
  else let '(b, s) := exist (fd_store f) ip in (b, with_store s f).

(* @src clash-lib/src/app/dns/fakeip/mod.rs ~    pub async fn is_fake_ip~ FakeDns::is_fake_ip *)
Definition is_fake_ip (ip : IpAddr) (f : FakeDns) : bool :=
  if negb (is_ipv4 ip) then false else ipnet_contains (fd_ipnet f) ip.
End fakedns.

(** ** The in-memory store: two LRU caches *)

(** [lru_time_cache::LruCache] with a capacity.  [lru_list] lists the entries
    from the least to the most recently used. *)
Class LruLib : Type := {
  lru : Type -> Type -> Type;
  lru_with_capacity : forall K V, Z -> lru K V;
  lru_get_mut : forall K V `{EqDecision K}, lru K V -> K -> option V * lru K V;
  lru_insert : forall K V `{EqDecision K}, lru K V -> K -> V -> lru K V;
  lru_remove : forall K V `{EqDecision K}, lru K V -> K -> option V * lru K V;
  lru_contains_key : forall K V `{EqDecision K}, lru K V -> K -> bool;
}.
Arguments lru_with_capacity {_ _ _}.
Arguments lru_get_mut {_ _ _ _}.
Arguments lru_insert {_ _ _ _}.
Arguments lru_remove {_ _ _ _}.
Arguments lru_contains_key {_ _ _ _}.

Section mem_store.
Context {LL : LruLib}.

(* @src clash-lib/src/app/dns/fakeip/mem_store.rs ~pub struct InMemStore~ InMemStore *)
Record InMemStore : Type := { itoh : lru IpAddr str; htoi : lru str IpAddr }.
(* @src clash-lib/src/app/dns/fakeip/mem_store.rs ~    pub fn new~ InMemStore::new *)
Definition in_mem_new (size : Z) : InMemStore :=
  {| itoh := lru_with_capacity size; htoi := lru_with_capacity size |}.

(* @src clash-lib/src/app/dns/fakeip/mem_store.rs ~impl Store for InMemStore~ impl Store for InMemStore *)
Definition in_mem_store : StoreOps InMemStore := {|
  get_by_host s host :=
    let '(o, h) := lru_get_mut (htoi s) host in
    match o with
    | Some ip => (Some ip, {| itoh := (lru_get_mut (itoh s) ip).2; htoi := h |})
    | None => (None, {| itoh := itoh s; htoi := h |})
    end;
  pub_by_host s host ip := {| itoh := itoh s; htoi := lru_insert (htoi s) host ip |};
  get_by_ip s ip :=
    let '(o, i) := lru_get_mut (itoh s) ip in
    match o with
    | Some h => (Some h, {| itoh := i; htoi := (lru_get_mut (htoi s) h).2 |})
    | None => (None, {| itoh := i; htoi := htoi s |})
    end;
  put_by_ip s ip host := {| itoh := lru_insert (itoh s) ip host; htoi := htoi s |};
  del_by_ip s ip :=
    let '(o, i) := lru_remove (itoh s) ip in
    match o with
    | Some host => {| itoh := i; htoi := (lru_remove (htoi s) host).2 |}
    | None => {| itoh := i; htoi := htoi s |}
    end;
  exist s ip := (lru_contains_key (itoh s) ip, s);
  copy_to _ _ store := store;
|}.
End mem_store.

(** ** The store in the cache file *)
Section file_store.
Context {D : Type}.

(* @src clash-lib/src/app/dns/fakeip/file_store.rs ~impl Store for FileStore~ impl Store for FileStore *)
Definition file_store : StoreOps (CacheFile D) := {|
  get_by_host s host := (cf_get_fake_ip host s ≫= parse_ip, s);
  pub_by_host s host ip := cf_set_host_to_ip host (show_ip ip) s;
  get_by_ip s ip := (cf_get_fake_ip (show_ip ip) s, s);
  put_by_ip s ip host := cf_set_ip_to_host (show_ip ip) host s;
  del_by_ip s ip :=
    let host := default [] (cf_get_fake_ip (show_ip ip) s) in
    cf_delete_fake_ip_pair (show_ip ip) host s;
  exist s ip := (bool_decide (is_Some (cf_get_fake_ip (show_ip ip) s)), s);
  copy_to _ _ store := store;
|}.
End file_store.

(** * What a store promises

    A store holds a one-to-one pairing [bound] of host names and addresses.
    [ok_host] are the names a store can hold, [room] says that a new binding
    will not push out an old one. *)
Definition pool_ip (ip : IpAddr) : Prop := is_ipv4 ip = true /\ wf_ip ip.

Class StoreLaws (S : Type) {SO : StoreOps S} : Type := {
  st_inv : S -> Prop;
  bound : S -> str -> IpAddr -> Prop;
  ok_host : str -> Prop;
  room : S -> Prop;
  bound_host_inj s h1 h2 ip : st_inv s -> bound s h1 ip -> bound s h2 ip -> h1 = h2;
  bound_ip_inj s h ip1 ip2 : st_inv s -> bound s h ip1 -> bound s h ip2 -> ip1 = ip2;
  (** Two states hold the same pairing. *)
  same_view s s' := st_inv s' /\ (forall h ip, bound s' h ip <-> bound s h ip) /\ (room s -> room s');
  get_by_host_law s h : st_inv s -> ok_host h ->
    (forall ip, (get_by_host s h).1 = Some ip <-> bound s h ip) /\ same_view s (get_by_host s h).2;
  get_by_ip_law s ip : st_inv s -> pool_ip ip ->
    (forall h, (get_by_ip s ip).1 = Some h <-> bound s h ip) /\ same_view s (get_by_ip s ip).2;
  exist_law s ip : st_inv s -> pool_ip ip ->
    ((exist s ip).1 = true <-> exists h, bound s h ip) /\ same_view s (exist s ip).2;
  del_law s ip : st_inv s -> pool_ip ip ->
    st_inv (del_by_ip s ip) /\ (room s -> room (del_by_ip s ip)) /\
    forall h i, bound (del_by_ip s ip) h i <-> bound s h i /\ i <> ip;
  bind_law s h ip : st_inv s -> ok_host h -> pool_ip ip ->
    (forall i, ~ bound s h i) -> (forall h', ~ bound s h' ip) ->
    let s' := pub_by_host (put_by_ip s ip h) h ip in
    st_inv s' /\ bound s' h ip /\
    (forall h' i', bound s' h' i' -> (h' = h /\ i' = ip) \/ bound s h' i') /\
    (room s -> forall h' i', bound s h' i' -> bound s' h' i');
}.

(** ** The cache file keeps the promise *)
Section file_laws.
Context {D : Type}.
Implicit Types (s : CacheFile D).

(** A name that is not an address literal: literals would be confused with
    the keys of the other map. *)
Definition plain_host (h : str) : Prop := parse_ip h = None /\ h <> [].

Definition file_inv s : Prop :=
  (forall k h, ip_to_host (db s) !! k = Some h ->
     exists a, u32 a /\ k = show_ipv4 a /\ plain_host h /\ host_to_ip (db s) !! h = Some k) /\
  (forall h k, host_to_ip (db s) !! h = Some k ->
     exists a, u32 a /\ k = show_ipv4 a /\ plain_host h /\ ip_to_host (db s) !! k = Some h).

Definition file_bound s (h : str) (ip : IpAddr) : Prop :=
  exists a, ip = V4 a /\ u32 a /\ host_to_ip (db s) !! h = Some (show_ipv4 a).

#[local] Opaque parse_ip show_ipv4.

Lemma parse_show_v4 a : u32 a -> parse_ip (show_ipv4 a) = Some (V4 a).
Proof. apply parse_show_ipv4. Qed.
Lemma show_ipv4_inj a b : u32 a -> u32 b -> show_ipv4 a = show_ipv4 b -> a = b.
Proof.
  intros Ha Hb H. apply (f_equal parse_ip) in H. rewrite !parse_show_v4 in H by done. by injection H.
Qed.
Lemma plain_not_show a : u32 a -> ~ plain_host (show_ipv4 a).
Proof. intros Ha [Hp _]. by rewrite parse_show_v4 in Hp. Qed.

Lemma file_get_host s h :
  file_inv s -> plain_host h -> cf_get_fake_ip h s = host_to_ip (db s) !! h.
Proof.
  intros [Hi _] Hp. unfold cf_get_fake_ip. destruct (ip_to_host (db s) !! h) as [v|] eqn:E; [|done].
  apply Hi in E as (a & Ha & -> & _). by apply plain_not_show in Hp.
Qed.

Lemma file_get_ip s a :
  file_inv s -> u32 a -> cf_get_fake_ip (show_ipv4 a) s = ip_to_host (db s) !! show_ipv4 a.
Proof.
  intros [_ Hh] Ha. unfold cf_get_fake_ip.
  destruct (ip_to_host (db s) !! show_ipv4 a); [done|].
  destruct (host_to_ip (db s) !! show_ipv4 a) eqn:E; [|done].
  apply Hh in E as (b & Hb & -> & Hp & _). by apply plain_not_show in Hp.
Qed.

Lemma file_bound_ip s h a :
  file_inv s -> u32 a -> file_bound s h (V4 a) <-> ip_to_host (db s) !! show_ipv4 a = Some h.
Proof.
  intros [Hi Hh] Ha. split.
  - intros (b & [= <-] & _ & Hb). by apply Hh in Hb as (c & ? & -> & _ & ?).
  - intros H. apply Hi in H as (b & Hb & He & _ & H). by exists a.
Qed.

Lemma pool_ip_v4 ip : pool_ip ip -> exists a, ip = V4 a /\ u32 a.
Proof. destruct ip as [a|a]; intros [Hv Hw]; [by exists a|done]. Qed.

Lemma file_del s a :
  file_inv s -> u32 a ->
  file_inv (@del_by_ip _ file_store s (V4 a)) /\
  forall h i, file_bound (@del_by_ip _ file_store s (V4 a)) h i <-> file_bound s h i /\ i <> V4 a.
Proof.
  intros Hs Ha. assert (Hs' := Hs). destruct Hs' as [Hi Hh]. cbn. rewrite file_get_ip by done.
  set (h0 := default [] (ip_to_host (db s) !! show_ipv4 a)).
  (** the deleted name is the one bound to [a], if any *)
  assert (forall h k, host_to_ip (db s) !! h = Some k -> h = h0 <-> k = show_ipv4 a) as Hdel.
  { intros h k Hk. apply Hh in Hk as (b & Hb & -> & [_ Hne] & Hk). subst h0. split.
    - intros ->. destruct (ip_to_host (db s) !! show_ipv4 a) as [v|] eqn:E; [|done]. simpl in *.
      apply Hi in E as (c & Hc & He & _ & E). apply Hi in Hk as (d & ? & ? & _ & Hk). congruence.
    - intros He. by rewrite <- He, Hk. }
  split; [split|]; simpl.
  - intros k h. rewrite lookup_delete_Some. intros [Hk H].
    destruct (Hi _ _ H) as (b & Hb & -> & Hp & H'). exists b. split_and!; [done..|].
    rewrite lookup_delete_ne; [done|]. intros <-. by apply Hk, eq_sym, (Hdel h0).
  - intros h k. rewrite lookup_delete_Some. intros [Hne H].
    destruct (Hh _ _ H) as (b & Hb & -> & Hp & H'). exists b. split_and!; [done..|].
    rewrite lookup_delete_ne; [done|]. intros He. apply Hne, eq_sym, (Hdel h _ H). done.
  - intros h i. unfold file_bound. simpl. split.
    + intros (b & -> & Hb & H). apply lookup_delete_Some in H as [Hne H]. split; [by exists b|].
      intros [= ->]. apply Hne, eq_sym, (Hdel h _ H). done.
    + intros [(b & -> & Hb & H) Hne]. exists b. split_and!; [done..|].
      rewrite lookup_delete_ne; [done|]. intros He.
      apply Hne. f_equal. apply show_ipv4_inj; [done..|]. by apply (Hdel h _ H).
Qed.

Lemma file_bind s h a :
  file_inv s -> plain_host h -> u32 a ->
  (forall i, ~ file_bound s h i) -> (forall h', ~ file_bound s h' (V4 a)) ->
  let s' := @pub_by_host _ file_store (@put_by_ip _ file_store s (V4 a) h) h (V4 a) in
  file_inv s' /\
  forall h' i', file_bound s' h' i' <-> (h' = h /\ i' = V4 a) \/ file_bound s h' i'.
Proof.
  intros Hs Hp Ha Hnh Hni. assert (Hs' := Hs). destruct Hs' as [Hi Hh]. cbn.
  assert (host_to_ip (db s) !! h = None) as Eh.
  { destruct (host_to_ip (db s) !! h) as [k|] eqn:E; [|done]. exfalso.
    destruct (Hh _ _ E) as (b & Hb & -> & _). apply (Hnh (V4 b)). by exists b. }
  assert (ip_to_host (db s) !! show_ipv4 a = None) as Ei.
  { destruct (ip_to_host (db s) !! show_ipv4 a) as [v|] eqn:E; [|done]. exfalso.
    apply (Hni v). by apply file_bound_ip. }
  split; [split|]; simpl.
  - intros k v. rewrite lookup_insert_Some. intros [[<- <-]|[Hne H]].
    + exists a. by rewrite lookup_insert_eq.
    + destruct (Hi _ _ H) as (b & Hb & -> & Hpv & H'). exists b. split_and!; [done..|].
      rewrite lookup_insert_ne; [done|congruence].
  - intros v k. rewrite lookup_insert_Some. intros [[<- <-]|[Hne H]].
    + exists a. by rewrite lookup_insert_eq.
    + destruct (Hh _ _ H) as (b & Hb & -> & Hpv & H'). exists b. split_and!; [done..|].
      rewrite lookup_insert_ne; [done|congruence].
  - intros h' i'. unfold file_bound. simpl. split.
    + intros (b & -> & Hb & H). apply lookup_insert_Some in H as [[<- He]|[Hne H]].
      * left. split; [done|]. f_equal. symmetry. by apply show_ipv4_inj.
      * right. by exists b.
    + intros [[-> ->]|(b & -> & Hb & H)].
      * exists a. by rewrite lookup_insert_eq.
      * exists b. rewrite lookup_insert_ne; [done|congruence].
Qed.

#[global] Instance file_store_laws : @StoreLaws (CacheFile D) file_store.
Proof.
  refine {| st_inv := file_inv; bound := file_bound; ok_host := plain_host; room _ := True |}.
  - intros s h1 h2 ip Hs (a & -> & Ha & H1) H2. 
    assert (file_bound s h1 (V4 a)) as H1' by by exists a.
    rewrite file_bound_ip in H1', H2 by done. congruence.
  - intros s h ip1 ip2 Hs (a & -> & Ha & H1) (b & -> & Hb & H2). f_equal.
    apply show_ipv4_inj; [done..|congruence].
  - intros s h Hs Hp. cbn. rewrite file_get_host by done. split; [|done]. intros ip. split.
    + destruct (host_to_ip (db s) !! h) as [k|] eqn:E; [|done]. simpl. intros H.
      destruct (proj2 Hs _ _ E) as (a & Ha & -> & _). rewrite parse_show_v4 in H by done.
      injection H as <-. by exists a.
    + intros (a & -> & Ha & ->). simpl. by apply parse_show_v4.
  - intros s ip Hs (a & -> & Ha)%pool_ip_v4. cbn. rewrite file_get_ip by done. split; [|done].
    intros h. by rewrite file_bound_ip.
  - intros s ip Hs (a & -> & Ha)%pool_ip_v4. cbn. rewrite file_get_ip by done. split; [|done].
    rewrite bool_decide_eq_true. unfold is_Some. setoid_rewrite file_bound_ip; done.
  - intros s ip Hs (a & -> & Ha)%pool_ip_v4. destruct (file_del s a Hs Ha). by split_and!.
  - intros s h ip Hs Hp (a & -> & Ha)%pool_ip_v4 Hnh Hni.
    destruct (file_bind s h a Hs Hp Ha Hnh Hni) as [Hs' Hb]. split_and!; [done|by apply Hb; left| |].
    + intros h' i' H. by apply Hb.
    + intros _ h' i' H. apply Hb. by right.
Defined.
End file_laws.

(** ** The in-memory store keeps the promise

    What is documented of the LRU cache, on the list of its entries from the
    least to the most recently used: reading an entry makes it the most
    recent, inserting a new key first evicts the oldest entries until there
    is room. *)
Section lru_spec.
Context {K V : Type} `{EqDecision K}.
Definition lru_without (k : K) (l : list (K * V)) : list (K * V) := filter (fun p => p.1 <> k) l.
Definition lru_touch (k : K) (l : list (K * V)) : list (K * V) :=
  match alist_get k l with Some v => lru_without k l ++ [(k, v)] | None => l end.
Definition lru_put (cap : nat) (k : K) (v : V) (l : list (K * V)) : list (K * V) :=
  match alist_get k l with
  | Some _ => lru_without k l ++ [(k, v)]
  | None => drop (length l + 1 - cap) l ++ [(k, v)]
  end.
End lru_spec.

Class LruLaws (L : LruLib) : Type := {
  lru_list : forall {K V}, lru K V -> list (K * V);
  lru_cap : forall {K V}, lru K V -> nat;
  lru_new_law K V n : lru_list (@lru_with_capacity L K V n) = [] /\
    lru_cap (@lru_with_capacity L K V n) = Z.to_nat n;
  lru_get_law K V `{EqDecision K} (c : lru K V) k :
    (lru_get_mut c k).1 = alist_get k (lru_list c) /\
    lru_list (lru_get_mut c k).2 = lru_touch k (lru_list c) /\
    lru_cap (lru_get_mut c k).2 = lru_cap c;
  lru_insert_law K V `{EqDecision K} (c : lru K V) k v : (1 <= lru_cap c)%nat ->
    lru_list (lru_insert c k v) = lru_put (lru_cap c) k v (lru_list c) /\
    lru_cap (lru_insert c k v) = lru_cap c;
  lru_remove_law K V `{EqDecision K} (c : lru K V) k :
    (lru_remove c k).1 = alist_get k (lru_list c) /\
    lru_list (lru_remove c k).2 = lru_without k (lru_list c) /\
    lru_cap (lru_remove c k).2 = lru_cap c;
  lru_contains_law K V `{EqDecision K} (c : lru K V) k :
    lru_contains_key c k = bool_decide (is_Some (alist_get k (lru_list c)));
}.

Section lru_lemmas.
Implicit Types (l : list (str * IpAddr)).

Definition swap (p : str * IpAddr) : IpAddr * str := (p.2, p.1).

Lemma swap_elem l h ip : (ip, h) ∈ swap <$> l <-> (h, ip) ∈ l.
Proof.
  rewrite list_elem_of_fmap. split.
  - intros ([h' ip'] & Heq & Hin). unfold swap in Heq. simpl in Heq. by simplify_eq.
  - intros Hin. by exists (h, ip).
Qed.

Lemma alist_get_iff {K V} `{EqDecision K} (l : list (K * V)) k v :
  NoDup l.*1 -> alist_get k l = Some v <-> (k, v) ∈ l.
Proof. intros Hnd. split; [apply alist_get_elem|by apply alist_elem_get]. Qed.

Lemma alist_get_swap l h ip :
  NoDup l.*1 -> NoDup (swap <$> l).*1 ->
  alist_get ip (swap <$> l) = Some h <-> alist_get h l = Some ip.
Proof. intros H1 H2. rewrite !alist_get_iff by done. apply swap_elem. Qed.

Lemma without_nodup {K V} `{EqDecision K} (k : K) (l : list (K * V)) :
  NoDup l.*1 -> NoDup (lru_without k l).*1.
Proof.
  induction l as [|[a b] l IH]; simpl; [done|]. rewrite NoDup_cons. intros [Ha Hnd].
  unfold lru_without in *. rewrite filter_cons. case_decide; simpl; [|auto].
  apply NoDup_cons. split; [|auto]. intros ([k' v] & -> & Hin)%list_elem_of_fmap.
  apply list_elem_of_filter in Hin as [_ Hin]. apply Ha. by apply (list_elem_of_fmap_2 fst) in Hin.
Qed.

Lemma without_key {K V} `{EqDecision K} (k : K) (l : list (K * V)) : k ∉ (lru_without k l).*1.
Proof.
  unfold lru_without. intros ([k' v] & -> & Hin)%list_elem_of_fmap.
  by apply list_elem_of_filter in Hin as [Hne _].
Qed.

Lemma snoc_nodup {K V} (l : list (K * V)) k v : NoDup l.*1 -> k ∉ l.*1 -> NoDup (l ++ [(k, v)]).*1.
Proof.
  intros Hnd Hk. rewrite fmap_app. apply NoDup_app. split_and!; [done| |apply NoDup_singleton].
  intros x Hx Hin. apply list_elem_of_singleton in Hin as ->. done.
Qed.

(** Removing a pair by its name or by its address is the same. *)
Lemma without_swap l h ip :
  NoDup l.*1 -> NoDup (swap <$> l).*1 -> (h, ip) ∈ l ->
  lru_without ip (swap <$> l) = swap <$> lru_without h l.
Proof.
  intros H1 H2 Hin.
  assert (forall h' ip', (h', ip') ∈ l -> h' = h <-> ip' = ip) as Hiff.
  { intros h' ip' Hin'. split; intros ->.
    - apply (alist_get_iff _ _ _ H1) in Hin, Hin'. congruence.
    - apply swap_elem in Hin, Hin'. apply (alist_get_iff _ _ _ H2) in Hin, Hin'. congruence. }
  clear H1 H2 Hin. unfold lru_without. induction l as [|[h' ip'] l IH]; [done|].
  rewrite fmap_cons, !filter_cons. simpl. specialize (Hiff h' ip') as Hx.
  rewrite IH by (intros; apply Hiff; by right).
  destruct (decide (ip' <> ip)), (decide (h' <> h)); try done; exfalso;
    (assert (h' = h <-> ip' = ip) by (apply Hx; by left)); tauto.
Qed.

Lemma touch_swap l h ip :
  NoDup l.*1 -> NoDup (swap <$> l).*1 -> (h, ip) ∈ l ->
  lru_touch ip (swap <$> l) = swap <$> lru_touch h l.
Proof.
  intros H1 H2 Hin. unfold lru_touch.
  rewrite (proj2 (alist_get_iff l h ip H1) Hin).
  rewrite (proj2 (alist_get_iff (swap <$> l) ip h H2)) by by apply swap_elem.
  by rewrite (without_swap l h ip), fmap_app.
Qed.

Lemma elem_of_without {K V} `{EqDecision K} (k : K) (l : list (K * V)) k' v :
  (k', v) ∈ lru_without k l <-> k' <> k /\ (k', v) ∈ l.
Proof. unfold lru_without. by rewrite list_elem_of_filter. Qed.

Lemma without_absent {K V} `{EqDecision K} (k : K) (l : list (K * V)) :
  k ∉ l.*1 -> lru_without k l = l.
Proof.
  unfold lru_without. induction l as [|[c d] l IH]; intros Ha; [done|].
  rewrite filter_cons. simpl in *. apply not_elem_of_cons in Ha as [? ?].
  by rewrite decide_True, IH.
Qed.

Lemma touch_same {K V} `{EqDecision K} (k : K) (l : list (K * V)) :
  NoDup l.*1 ->
  NoDup (lru_touch k l).*1 /\ length (lru_touch k l) = length l /\
  forall k' v, (k', v) ∈ lru_touch k l <-> (k', v) ∈ l.
Proof.
  intros Hnd. unfold lru_touch. destruct (alist_get k l) as [v|] eqn:E; [|done].
  assert (Hin := E). apply (alist_get_iff l k v Hnd) in Hin.
  split_and!.
  - apply snoc_nodup; [by apply without_nodup|apply without_key].
  - rewrite length_app. simpl. clear E. induction l as [|[a b] l IH]; [by apply elem_of_nil in Hin|].
    apply NoDup_cons in Hnd as [Ha Hnd]. simpl in Ha. unfold lru_without in *. rewrite filter_cons. simpl.
    apply elem_of_cons in Hin as [Heq|Hin].
    + simplify_eq. rewrite decide_False by tauto.
      fold (lru_without a l). rewrite without_absent by done. simpl. lia.
    + rewrite decide_True; [simpl; specialize (IH Hnd Hin); lia|]. intros ->. apply Ha.
      by apply (list_elem_of_fmap_2 fst) in Hin.
  - intros k' v'. rewrite elem_of_app, elem_of_without, list_elem_of_singleton. split.
    + intros [[_ ?]|?]; [done|by simplify_eq].
    + intros H. destruct (decide (k' = k)) as [->|]; [|by left]. right.
      apply (alist_get_iff l k v' Hnd) in H. congruence.
Qed.

Lemma drop_nodup {K V} n (l : list (K * V)) : NoDup l.*1 -> NoDup (drop n l).*1.
Proof.
  rewrite fmap_drop. intros Hnd. rewrite <- (take_drop n (l.*1)) in Hnd.
  by apply NoDup_app in Hnd as (_ & _ & ?).
Qed.
Lemma elem_of_drop_sub {A} n (l : list A) x : x ∈ drop n l -> x ∈ l.
Proof. intros H. rewrite <- (take_drop n l). apply elem_of_app. by right. Qed.
End lru_lemmas.

Section mem_laws.
Context {LL : LruLib} {LW : LruLaws LL}.
Implicit Types (s : InMemStore).

(** The two caches hold the same pairs in the same order of use. *)
Record mem_inv s : Prop := {
  mi_swap : lru_list (itoh s) = swap <$> lru_list (htoi s);
  mi_hosts : NoDup (lru_list (htoi s)).*1;
  mi_ips : NoDup (swap <$> lru_list (htoi s)).*1;
  mi_cap : lru_cap (itoh s) = lru_cap (htoi s);
  mi_pos : (1 <= lru_cap (htoi s))%nat;
}.
Definition mem_bound s (h : str) (ip : IpAddr) : Prop := (h, ip) ∈ lru_list (htoi s).
Definition mem_room s : Prop := (length (lru_list (htoi s)) < lru_cap (htoi s))%nat.

(** Reading a bound pair moves it to the recent end of both caches. *)
Lemma mem_touch s h ip s' :
  mem_inv s -> mem_bound s h ip ->
  lru_list (htoi s') = lru_touch h (lru_list (htoi s)) ->
  lru_list (itoh s') = lru_touch ip (lru_list (itoh s)) ->
  lru_cap (htoi s') = lru_cap (htoi s) -> lru_cap (itoh s') = lru_cap (itoh s) ->
  mem_inv s' /\ (forall h i, mem_bound s' h i <-> mem_bound s h i) /\ (mem_room s -> mem_room s').
Proof.
  intros [] Hb Hh Hi Hch Hci.
  destruct (touch_same h (lru_list (htoi s)) mi_hosts0) as (Hnd & Hlen & Hel).
  destruct (touch_same ip (swap <$> lru_list (htoi s)) mi_ips0) as (Hnd' & _ & _).
  pose proof (touch_swap _ h ip mi_hosts0 mi_ips0 Hb) as Hsw.
  split_and!.
  - split; rewrite ?Hh, ?Hi, ?Hch, ?Hci, ?mi_swap0; try done. by rewrite <- Hsw.
  - intros h' i'. unfold mem_bound. by rewrite Hh.
  - unfold mem_room. by rewrite Hh, Hch, Hlen.
Qed.

Lemma mem_get_host s h :
  mem_inv s ->
  (forall ip, (@get_by_host _ in_mem_store s h).1 = Some ip <-> mem_bound s h ip) /\
  mem_inv (@get_by_host _ in_mem_store s h).2 /\
  (forall h' i, mem_bound (@get_by_host _ in_mem_store s h).2 h' i <-> mem_bound s h' i) /\
  (mem_room s -> mem_room (@get_by_host _ in_mem_store s h).2).
Proof.
  intros Hs. cbn. destruct (lru_get_law _ _ (htoi s) h) as (E1 & E2 & E3).
  destruct (lru_get_mut (htoi s) h) as [o c]. cbn [fst snd] in *. subst o.
  destruct (alist_get h (lru_list (htoi s))) as [ip|] eqn:E; cbn [fst snd].
  - assert (mem_bound s h ip) as Hb by by apply alist_get_elem.
    destruct (lru_get_law _ _ (itoh s) ip) as (F1 & F2 & F3). split.
    + intros ip'. unfold mem_bound. rewrite <- alist_get_iff by apply Hs. rewrite E. done.
    + by eapply mem_touch.
  - assert (lru_list c = lru_list (htoi s)) as Ec by (rewrite E2; unfold lru_touch; by rewrite E).
    split; [|split_and!].
    + intros ip'. unfold mem_bound. rewrite <- alist_get_iff by apply Hs. by rewrite E.
    + destruct Hs. split; simpl; rewrite ?Ec, ?E3; done.
    + intros h' i. unfold mem_bound. simpl. by rewrite Ec.
    + unfold mem_room. simpl. by rewrite Ec, E3.
Qed.

Lemma mem_get_ip s ip :
  mem_inv s ->
  (forall h, (@get_by_ip _ in_mem_store s ip).1 = Some h <-> mem_bound s h ip) /\
  mem_inv (@get_by_ip _ in_mem_store s ip).2 /\
  (forall h' i, mem_bound (@get_by_ip _ in_mem_store s ip).2 h' i <-> mem_bound s h' i) /\
  (mem_room s -> mem_room (@get_by_ip _ in_mem_store s ip).2).
Proof.
  intros Hs. cbn. destruct (lru_get_law _ _ (itoh s) ip) as (E1 & E2 & E3).
  destruct (lru_get_mut (itoh s) ip) as [o c]. cbn [fst snd] in *. subst o.
  rewrite (mi_swap s Hs) in *.
  destruct (alist_get ip (swap <$> lru_list (htoi s))) as [h|] eqn:E; cbn [fst snd].
  - assert (mem_bound s h ip) as Hb by (apply swap_elem; by apply alist_get_elem).
    destruct (lru_get_law _ _ (htoi s) h) as (F1 & F2 & F3). split.
    + intros h'. unfold mem_bound. rewrite <- swap_elem, <- alist_get_iff by apply Hs. by rewrite E.
    + eapply mem_touch; [done|done|done| |done|done]. by rewrite (mi_swap s Hs).
  - assert (lru_list c = swap <$> lru_list (htoi s)) as Ec by (rewrite E2; unfold lru_touch; by rewrite E).
    split; [|split_and!; [|done|done]].
    + intros h'. unfold mem_bound. rewrite <- swap_elem, <- alist_get_iff by apply Hs. by rewrite E.
    + destruct Hs. split; simpl; rewrite ?Ec, ?E3; done.
Qed.

Lemma mem_del s ip :
  mem_inv s ->
  mem_inv (@del_by_ip _ in_mem_store s ip) /\
  (mem_room s -> mem_room (@del_by_ip _ in_mem_store s ip)) /\
  forall h i, mem_bound (@del_by_ip _ in_mem_store s ip) h i <-> mem_bound s h i /\ i <> ip.
Proof.
  intros Hs. cbn. destruct (lru_remove_law _ _ (itoh s) ip) as (E1 & E2 & E3).
  destruct (lru_remove (itoh s) ip) as [o c]. cbn [fst snd] in *. subst o.
  rewrite (mi_swap s Hs) in *.
  assert (forall h i, mem_bound s h i -> i = ip ->
    alist_get ip (swap <$> lru_list (htoi s)) = Some h) as Hget.
  { intros h i Hb ->. apply alist_get_iff; [apply Hs|]. by apply swap_elem. }
  destruct (alist_get ip (swap <$> lru_list (htoi s))) as [h|] eqn:E; cbn [fst snd].
  - assert (mem_bound s h ip) as Hb by (apply swap_elem; by apply alist_get_elem).
    destruct (lru_remove_law _ _ (htoi s) h) as (F1 & F2 & F3).
    pose proof (without_swap _ h ip (mi_hosts s Hs) (mi_ips s Hs) Hb) as Hsw. split_and!.
    + split; simpl; rewrite ?F2, ?F3, ?E2, ?E3, <- ?Hsw; try done; try apply Hs.
      * by apply without_nodup, Hs.
      * by apply without_nodup, Hs.
    + unfold mem_room. simpl. rewrite F2, F3. unfold lru_without. intros Hr.
      eapply Nat.le_lt_trans; [apply length_filter|done].
    + intros h' i. unfold mem_bound. simpl. rewrite F2, elem_of_without. split.
      * intros [Hne Hin]. split; [done|]. intros Heq. apply Hne.
        specialize (Hget h' i Hin Heq). congruence.
      * intros [Hin Hne]. split; [|done]. intros ->. apply Hne.
        apply (alist_get_iff _ _ _ (mi_hosts s Hs)) in Hin, Hb. congruence.
  - assert (lru_without ip (swap <$> lru_list (htoi s)) = swap <$> lru_list (htoi s)) as Hid.
    { apply without_absent. intros ([i h] & Heq & Hin)%list_elem_of_fmap. simpl in Heq. subst i.
      apply swap_elem in Hin. by specialize (Hget _ _ Hin eq_refl). }
    split_and!; [|done|].
    + destruct Hs. split; simpl; rewrite ?E2, ?E3, ?Hid; done.
    + intros h i. split; [|by intros [? _]]. intros Hb. split; [done|].
      intros Heq. by specialize (Hget h i Hb Heq).
Qed.

Lemma mem_bind s h ip :
  mem_inv s -> (forall i, ~ mem_bound s h i) -> (forall h', ~ mem_bound s h' ip) ->
  let s' := @pub_by_host _ in_mem_store (@put_by_ip _ in_mem_store s ip h) h ip in
  mem_inv s' /\ mem_bound s' h ip /\
  (forall h' i', mem_bound s' h' i' -> (h' = h /\ i' = ip) \/ mem_bound s h' i') /\
  (mem_room s -> forall h' i', mem_bound s h' i' -> mem_bound s' h' i').
Proof.
  intros Hs Hnh Hni. cbn.
  assert (alist_get h (lru_list (htoi s)) = None) as Eh.
  { destruct (alist_get h _) as [i|] eqn:E; [|done]. by destruct (Hnh i); apply alist_get_elem. }
  assert (alist_get ip (swap <$> lru_list (htoi s)) = None) as Ei.
  { destruct (alist_get ip _) as [h'|] eqn:E; [|done].
    destruct (Hni h'). by apply swap_elem, alist_get_elem. }
  destruct (lru_insert_law _ _ (htoi s) h ip (mi_pos s Hs)) as [F1 F2].
  destruct (lru_insert_law _ _ (itoh s) ip h) as [G1 G2]; [rewrite (mi_cap s Hs); apply Hs|].
  unfold lru_put in F1, G1. rewrite Eh in F1. rewrite (mi_swap s Hs), Ei, length_fmap in G1.
  rewrite (mi_cap s Hs) in *. set (n := (length (lru_list (htoi s)) + 1 - lru_cap (htoi s))%nat) in *.
  assert (forall x, x ∈ drop n (lru_list (htoi s)) -> x ∈ lru_list (htoi s)) as Hsub
    by (intros; by eapply elem_of_drop_sub).
  assert (swap <$> drop n (lru_list (htoi s)) ++ [(h, ip)] =
          drop n (swap <$> lru_list (htoi s)) ++ [(ip, h)]) as Hsw by by rewrite fmap_app, fmap_drop.
  unfold mem_bound. cbn [htoi itoh]. split_and!.
  - split; cbn [htoi itoh]; rewrite ?F1, ?F2, ?G1, ?G2, ?Hsw; try done; try apply Hs.
    + apply snoc_nodup; [by apply drop_nodup, Hs|]. intros ([h' i] & -> & Hin)%list_elem_of_fmap.
      apply (Hnh i). by apply Hsub.
    + apply snoc_nodup; [by apply drop_nodup, Hs|]. intros ([i h'] & -> & Hin)%list_elem_of_fmap.
      apply (Hni h'). apply elem_of_drop_sub in Hin. by apply swap_elem.
  - rewrite F1. apply elem_of_app. right. by constructor.
  - intros h' i' Hin. rewrite F1 in Hin. apply elem_of_app in Hin as [Hin|Hin]; [right; auto|].
    apply list_elem_of_singleton in Hin. left. by simplify_eq.
  - intros Hroom h' i' Hin. rewrite F1. apply elem_of_app. left.
    unfold mem_room in Hroom. replace n with 0%nat by lia. by rewrite drop_0.
Qed.

#[global] Instance in_mem_store_laws : @StoreLaws InMemStore in_mem_store.
Proof.
  refine {| st_inv := mem_inv; bound := mem_bound; ok_host _ := True; room := mem_room |}.
  - intros s h1 h2 ip Hs H1 H2. apply swap_elem in H1, H2.
    apply (alist_get_iff _ _ _ (mi_ips s Hs)) in H1, H2. congruence.
  - intros s h ip1 ip2 Hs H1 H2. apply (alist_get_iff _ _ _ (mi_hosts s Hs)) in H1, H2. congruence.
  - intros s h Hs _. apply mem_get_host, Hs.
  - intros s ip Hs _. apply mem_get_ip, Hs.
  - intros s ip Hs _. cbn. rewrite lru_contains_law, (mi_swap s Hs). split; [|done].
    rewrite bool_decide_eq_true. unfold is_Some, mem_bound. setoid_rewrite <- swap_elem.
    setoid_rewrite <- alist_get_iff; [done|apply Hs].
  - intros s ip Hs _. apply mem_del, Hs.
  - intros s h ip Hs _ _ Hnh Hni. by apply mem_bind.
Defined.
End mem_laws.

(** A reference LRU cache: a capacity and the list of entries. *)
Definition ref_lru : LruLib := {|
  lru K V := (nat * list (K * V))%type;
  lru_with_capacity K V n := (Z.to_nat n, []);
  lru_get_mut K V _ c k := (alist_get k c.2, (c.1, lru_touch k c.2));
  lru_insert K V _ c k v := (c.1, lru_put c.1 k v c.2);
  lru_remove K V _ c k := (alist_get k c.2, (c.1, lru_without k c.2));
  lru_contains_key K V _ c k := bool_decide (is_Some (alist_get k c.2));
|}.
Definition ref_lru_laws : LruLaws ref_lru.
Proof.
  by refine {| lru_list K V (c : @lru ref_lru K V) := c.2; lru_cap K V (c : @lru ref_lru K V) := c.1 |}.
Defined.

Lemma in_mem_new_ok {LL : LruLib} {LW : LruLaws LL} (size : Z) :
  1 <= size -> mem_inv (in_mem_new size) /\ forall h i, ~ mem_bound (in_mem_new size) h i.
Proof.
  intros Hsz. unfold in_mem_new. destruct (lru_new_law IpAddr str size) as [E1 E2].
  destruct (lru_new_law str IpAddr size) as [F1 F2]. split.
  - split; simpl; rewrite ?E1, ?E2, ?F1, ?F2; simpl; try done; [constructor|constructor|lia].
  - intros h i. unfold mem_bound. simpl. rewrite F1. apply not_elem_of_nil.
Qed.
