(* ===== verification/FakePool.v ===== *)
(** * The fake address pool: its invariant and theorems

    The pool of [FakeIp] over any store that meets [StoreLaws]: the search
    loop ends within one round, lookups read back, the pairing of names and
    addresses stays one-to-one over any sequence of operations. *)

From S2P Require Import Prelude Str Net Trie Profile FakeIp.

(** * The pool *)
Section pool.
Context {NL : IpNetLib} {S : Type} {SO : StoreOps S} {SL : StoreLaws S}.
Context (oc : bool).
Implicit Types (f : @FakeDns NL S).

(** The number of addresses of the pool, and the address at an offset. *)
Definition pool_size f : Z := fd_max f - fd_min f.
Definition ip_at f (o : Z) : IpAddr := V4 (fd_min f + o - 1).

Record pool_wf f : Prop := {
  pw_min : 2 <= fd_min f;
  pw_size : 1 <= pool_size f;
  pw_max : fd_max f < 2 ^ 32;
  pw_offset : 0 <= fd_offset f < pool_size f;
  pw_contains o : 0 <= o < pool_size f -> ipnet_contains (fd_ipnet f) (ip_at f o) = true;
  pw_store : st_inv (fd_store f);
}.

(** The pool is the same one; offset and store may differ. *)
Definition frame f f' : Prop :=
  fd_max f' = fd_max f /\ fd_min f' = fd_min f /\ fd_gateway f' = fd_gateway f /\
  fd_skipped_hostnames f' = fd_skipped_hostnames f /\ fd_ipnet f' = fd_ipnet f.

Lemma frame_with f o s : frame f (with_store s (with_offset o f)).
Proof. done. Qed.
Lemma frame_trans f1 f2 f3 : frame f1 f2 -> frame f2 f3 -> frame f1 f3.
Proof. unfold frame. intuition congruence. Qed.
Lemma frame_size f f' : frame f f' -> pool_size f' = pool_size f.
Proof. unfold frame, pool_size. intros (-> & -> & _). done. Qed.
Lemma frame_ip_at f f' o : frame f f' -> ip_at f' o = ip_at f o.
Proof. unfold frame, ip_at. by intros (_ & -> & _). Qed.

Lemma frame_wf f f' :
  pool_wf f -> frame f f' -> 0 <= fd_offset f' < pool_size f -> st_inv (fd_store f') -> pool_wf f'.
Proof.
  intros [] Hf Ho Hs. pose proof (frame_size _ _ Hf) as Hsz.
  destruct Hf as (E1 & E2 & E3 & E4 & E5).
  split; rewrite ?Hsz, ?E1, ?E2, ?E5; try done.
  intros o Hr. unfold ip_at. rewrite E2. by apply pw_contains0.
Qed.

Lemma next_offset_ok f o :
  pool_wf f -> 0 <= o < pool_size f -> next_offset oc f o = Ok ((o + 1) mod pool_size f).
Proof.
  intros [] Ho. unfold next_offset, pool_size in *.
  rewrite (arith_ok oc 32 (o + 1)) by (unfold in_width; lia). rstep.
  rewrite arith_ok by (unfold in_width; lia). rstep.
  by rewrite (proj2 (Z.eqb_neq _ _)) by lia.
Qed.

Lemma offset_ip_ok f o :
  pool_wf f -> 0 <= o < pool_size f -> offset_ip oc f o = Ok (ip_at f o) /\ pool_ip (ip_at f o).
Proof.
  intros [] Ho. unfold offset_ip, pool_size in *.
  rewrite (arith_ok oc 32 (fd_min f + o)) by (unfold in_width; lia). rstep.
  rewrite arith_ok by (unfold in_width; lia). rstep.
  split; [done|]. split; [done|]. simpl. unfold in_width. lia.
Qed.

Lemma mod_range f z : pool_wf f -> 0 <= z mod pool_size f < pool_size f.
Proof. intros []. apply Z.mod_pos_bound. lia. Qed.

Definition taken f (o : Z) : Prop := exists h, bound (fd_store f) h (ip_at f o).

(** What [get] leaves behind: an address nobody holds, either found free, or
    freed after a full round in which every other address was taken. *)
Definition found f f' (visited : Z -> Prop) : Prop :=
  frame f f' /\ pool_wf f' /\ (room (fd_store f) -> room (fd_store f')) /\
  (forall h, ~ bound (fd_store f') h (ip_at f' (fd_offset f'))) /\
  ((forall h i, bound (fd_store f') h i <-> bound (fd_store f) h i) \/
   (forall o, visited o -> taken f o) /\
   forall h i, bound (fd_store f') h i <->
               bound (fd_store f) h i /\ i <> ip_at f' (fd_offset f')).

Lemma mod_same_shift N x i k :
  1 <= N -> 1 <= i <= N -> 1 <= k <= N -> (x + i) mod N = (x + k) mod N -> i = k.
Proof.
  intros HN Hi Hk H. pose proof (Z.div_mod (x + i) N). pose proof (Z.div_mod (x + k) N).
  assert (i - k = N * ((x + i) / N - (x + k) / N)) by lia.
  assert ((x + i) / N - (x + k) / N = 0) by nia. nia.
Qed.

Lemma get_loop_spec fuel current f j :
  pool_wf f -> 1 <= j <= pool_size f -> j <= Z.of_nat fuel ->
  (fd_offset f + j) mod pool_size f = current ->
  exists f', get_loop oc fuel current f = Some (Ok f') /\
    found f f' (fun o => exists i, 1 <= i < j /\ o = (fd_offset f + i) mod pool_size f).
Proof.
  revert f j. induction fuel as [|fuel IH]; intros f j Hwf Hj Hfuel Hcur; [lia|].
  pose proof (pw_offset f Hwf) as Ho. pose proof (pw_store f Hwf) as Hst.
  pose proof (pw_size f Hwf) as HN.
  cbn [get_loop]. rewrite next_offset_ok by done. set (o := (fd_offset f + 1) mod pool_size f).
  assert (0 <= o < pool_size f) as Hor by by apply mod_range.
  destruct (o =? current) eqn:Eq.
  - rewrite next_offset_ok by done. rstep. set (o' := (o + 1) mod pool_size f).
    assert (0 <= o' < pool_size f) as Ho' by by apply mod_range.
    destruct (offset_ip_ok f o' Hwf Ho') as [-> Hip]. rstep.
    destruct (del_law (fd_store f) (ip_at f o') Hst Hip) as (Hst' & Hroom & Hb).
    eexists. split; [done|]. split_and!; [done|by eapply frame_wf|done| |].
    + intros h H. by apply Hb in H as [_ H].
    + right. split; [|exact Hb]. intros x (i & Hi & ->).
      assert (1 = j) by (apply (mod_same_shift (pool_size f) (fd_offset f)); lia). lia.
  - apply Z.eqb_neq in Eq. destruct (offset_ip_ok f o Hwf Hor) as [-> Hip].
    destruct (exist_law (fd_store f) (ip_at f o) Hst Hip) as [He (Hst' & Hb & Hroom)].
    destruct (exist (fd_store f) (ip_at f o)) as [e s]. cbn [fst snd] in *.
    set (f1 := with_store s (with_offset o f)).
    assert (pool_wf f1) as Hwf1 by by eapply frame_wf.
    destruct e.
    + assert (1 <> j) by (intros <-; done).
      destruct (IH f1 (j - 1) Hwf1) as (f' & -> & Hfr & Hwf' & Hr' & Hfree & Hor').
      * change (pool_size f1) with (pool_size f). lia.
      * lia.
      * rewrite <- Hcur. change (pool_size f1) with (pool_size f). change (fd_offset f1) with o.
        unfold o. rewrite Zplus_mod_idemp_l. f_equal. lia.
      * exists f'. split; [done|]. split_and!; [done..|auto|done|].
        destruct Hor' as [Hv|[Hvis Hv]].
        { left. intros h i. rewrite Hv. apply Hb. }
        right. split; [|intros h i; rewrite Hv; change (fd_store f1) with s; by rewrite Hb].
        intros x (i & Hi & ->). destruct (decide (i = 1)) as [->|].
        { destruct He as [He _]. destruct He as [h Hh]; [done|]. by exists h. }
        destruct (Hvis ((fd_offset f + i) mod pool_size f)) as [h Hh].
        { exists (i - 1). split; [lia|]. change (fd_offset f1) with o.
          change (pool_size f1) with (pool_size f).
          unfold o. rewrite Zplus_mod_idemp_l. f_equal. lia. }
        exists h. by apply Hb.
    + exists f1. split; [done|]. split_and!; [done|done|done| |by left].
      intros h H. assert (false = true); [|done]. apply He. exists h. by apply Hb.
Qed.

(** The loop started at the current offset. *)
Lemma get_loop_round f :
  pool_wf f ->
  exists f', get_loop oc (pool_fuel f) (fd_offset f) f = Some (Ok f') /\
    found f f' (fun o => 0 <= o < pool_size f /\ o <> fd_offset f).
Proof.
  intros Hwf. pose proof (pw_size f Hwf) as HN. pose proof (pw_offset f Hwf) as Ho.
  destruct (get_loop_spec (pool_fuel f) (fd_offset f) f (pool_size f) Hwf) as (f' & E & Hf).
  - lia.
  - unfold pool_fuel. fold (pool_size f). pose proof (pw_max f Hwf). pose proof (pw_min f Hwf).
    rewrite wrap_small; unfold in_width, pool_size in *; lia.
  - rewrite <- (Z.mul_1_l (pool_size f)) at 1. rewrite Z.mod_add by lia. by apply Z.mod_small.
  - exists f'. split; [done|]. destruct Hf as (? & ? & ? & ? & Hor). split_and!; [done..|].
    destruct Hor as [?|[Hvis ?]]; [by left|]. right. split; [|done]. intros o [Hr Hne].
    apply Hvis. exists ((o - fd_offset f) mod pool_size f).
    assert (0 <= (o - fd_offset f) mod pool_size f < pool_size f) by by apply mod_range.
    split.
    + assert ((o - fd_offset f) mod pool_size f <> 0); [|lia]. intros Hz.
      apply Hne. apply Z.mod_divide in Hz as [q Hq]; [|lia].
      destruct (Z.lt_trichotomy q 0) as [?|[->|?]]; nia.
    + rewrite Zplus_mod_idemp_r. replace (fd_offset f + (o - fd_offset f)) with o by lia.
      symmetry. by apply Z.mod_small.
Qed.

Lemma lookup_new f host :
  pool_wf f -> ok_host host -> (forall i, ~ bound (fd_store f) host i) ->
  exists o f', fakedns_lookup oc host f = Some (Ok (ip_at f o, f')) /\
    0 <= o < pool_size f /\ frame f f' /\ pool_wf f' /\ bound (fd_store f') host (ip_at f o) /\
    (forall h i, bound (fd_store f') h i -> (h = host /\ i = ip_at f o) \/ bound (fd_store f) h i) /\
    (room (fd_store f) -> (exists x, 0 <= x < pool_size f /\ x <> fd_offset f /\ ~ taken f x) ->
       forall h i, bound (fd_store f) h i -> bound (fd_store f') h i).
Proof.
  intros Hwf Hok Hnb. unfold fakedns_lookup.
  destruct (get_by_host_law (fd_store f) host (pw_store f Hwf) Hok) as [Hg (Hst & Hb & Hroom)].
  destruct (get_by_host (fd_store f) host) as [o s]. cbn [fst snd] in *.
  destruct o as [ip|]; [by edestruct Hnb; apply Hg|]. set (f0 := with_store s f).
  assert (pool_wf f0) as Hwf0 by by (eapply frame_wf; [done|done|apply (pw_offset f Hwf)|]).
  unfold fakedns_get. destruct (get_loop_round f0 Hwf0)
    as (f1 & -> & Hfr & Hwf1 & Hroom1 & Hfree & Hv). rstep.
  pose proof (pw_offset f1 Hwf1) as Ho1.
  destruct (offset_ip_ok f1 (fd_offset f1) Hwf1 Ho1) as [-> Hip]. rstep.
  assert (forall h i, bound (fd_store f1) h i -> bound (fd_store f) h i) as Hsub.
  { intros h i H. apply Hb. destruct Hv as [Hv|[_ Hv]]; by apply Hv in H; destruct_and?. }
  destruct (bind_law (fd_store f1) host (ip_at f1 (fd_offset f1)) (pw_store f1 Hwf1) Hok Hip)
    as (Hst' & Hbd & Hnew & Hkeep).
  { intros i H. by apply (Hnb i), Hsub. }
  { done. }
  assert (frame f f1) as Hfr' by (eapply frame_trans; [|exact Hfr]; done).
  rewrite (frame_ip_at _ _ _ Hfr') in *. rewrite (frame_size _ _ Hfr') in *.
  exists (fd_offset f1). eexists. split; [done|]. split_and!; [lia|lia|done| |done| |].
  - eapply frame_wf; [exact Hwf|done|exact Ho1|done].
  - intros h i H. apply Hnew in H as [H|H]; auto.
  - intros Hr (x & Hx & Hne & Hnt) h i H. apply Hkeep; [auto|].
    destruct Hv as [Hv|[Hvis _]]; [by apply Hv, Hb|]. exfalso. apply Hnt.
    destruct (Hvis x) as [h' H']; [done|]. exists h'. by apply Hb.
Qed.
End pool.

Section pool_new.
Context {NL : IpNetLib} {NLaws : IpNetLaws NL} {S : Type} {SO : StoreOps S} {SL : StoreLaws S}.

Lemma shl_one oc k : 0 <= k < 32 -> shl oc 32 1 k = Ok (2 ^ k).
Proof.
  intros Hk. unfold shl. rewrite bool_decide_true by done. f_equal.
  rewrite Z.shiftl_1_l. apply wrap_small. split; [lia|]. by apply Z.pow_lt_mono_r; lia.
Qed.

Lemma shiftr_block a k o :
  0 <= k -> 0 <= o < 2 ^ k -> Z.shiftr (Z.shiftl (Z.shiftr a k) k + o) k = Z.shiftr a k.
Proof.
  intros Hk Ho. rewrite !Z.shiftr_div_pow2, Z.shiftl_mul_pow2 by lia.
  rewrite Z.div_add_l by lia. rewrite (Z.div_small o) by lia. lia.
Qed.

Lemma block_base_bounds a k :
  0 <= k <= 32 -> u32 a ->
  0 <= Z.shiftl (Z.shiftr a k) k /\ Z.shiftl (Z.shiftr a k) k + 2 ^ k <= 2 ^ 32.
Proof.
  intros Hk Ha. unfold in_width in Ha. rewrite Z.shiftr_div_pow2, Z.shiftl_mul_pow2 by lia.
  pose proof (Z.pow_pos_nonneg 2 k). pose proof (Z.div_pos a (2 ^ k)).
  assert (2 ^ 32 = 2 ^ (32 - k) * 2 ^ k) as E by (rewrite <- Z.pow_add_r by lia; f_equal; lia).
  assert (a / 2 ^ k < 2 ^ (32 - k)); [|nia].
  apply Z.div_lt_upper_bound; [lia|]. lia.
Qed.

(** [min + total - 1]: the sum overflows exactly for the last block of the
    address space, where wrapping twice gives the right value. *)
Lemma max_ok oc net k :
  0 <= net -> 4 <= 2 ^ k -> net + 2 ^ k <= 2 ^ 32 -> (oc = true -> net + 2 ^ k < 2 ^ 32) ->
  (m ← arith oc 32 (net + 2 + (2 ^ k - 2)); arith oc 32 (m - 1)) = Ok (net + 2 ^ k - 1).
Proof.
  intros Hn Hk Hle Hoc. replace (net + 2 + (2 ^ k - 2)) with (net + 2 ^ k) by lia.
  destruct (decide (net + 2 ^ k < 2 ^ 32)) as [Hlt|Hge].
  - rewrite arith_ok by (unfold in_width; lia). rstep. apply arith_ok. unfold in_width. lia.
  - assert (net + 2 ^ k = 2 ^ 32) as -> by lia. destruct oc; [by exfalso; lia|]. reflexivity.
Qed.

Lemma new_ok oc n a sk (s : S) :
  let k := 32 - ipnet_prefix_len n in
  let net := Z.shiftl (Z.shiftr a k) k in
  ipnet_addr n = V4 a -> 1 <= ipnet_prefix_len n <= 30 -> st_inv s ->
  (oc = true -> net + 2 ^ k < 2 ^ 32) ->
  exists f, fakedns_new oc n sk s = Ok f /\ pool_wf f /\ fd_store f = s /\
    fd_min f = net + 2 /\ fd_gateway f = net + 1 /\ pool_size f = 2 ^ k - 3 /\
    fd_skipped_hostnames f = sk /\ fd_offset f = 0.
Proof.
  intros k net Ea Hlen Hs Hoc. unfold fakedns_new. rewrite ipnet_network_spec, Ea. cbn [net_of].
  fold k. fold net. rstep. change (ip_width (V4 a)) with 32. fold k.
  pose proof (ipnet_addr_wf n) as Hwf. rewrite Ea in Hwf. simpl in Hwf.
  destruct (block_base_bounds a k ltac:(lia) Hwf) as [Hn1 Hn2]. fold net in Hn1, Hn2.
  assert (2 ^ 2 <= 2 ^ k) by (apply Z.pow_le_mono_r; lia). change (2 ^ 2) with 4 in *.
  rewrite (arith_ok oc 32 (net + 2)) by (unfold in_width; lia). rstep.
  rewrite shl_one by lia. rstep.
  rewrite (arith_ok oc 32 (2 ^ k - 2)) by (unfold in_width; lia). rstep.
  pose proof (max_ok oc net k Hn1 ltac:(lia) Hn2 Hoc) as Hmax.
  apply res_bind_ok in Hmax as (m & -> & Hmax). rstep. rewrite Hmax. rstep.
  rewrite arith_ok by (unfold in_width; lia). rstep.
  eexists. split; [done|].
  split_and!; [|done|done|simpl; lia|unfold pool_size; simpl; lia|done|done].
  split; unfold pool_size, ip_at; simpl; try lia; [|done].
  intros o Ho. rewrite ipnet_contains_spec, Ea. unfold in_block. simpl.
  change (ip_width (V4 a)) with 32. fold k. apply Z.eqb_eq.
  replace (net + 2 + o - 1) with (net + (1 + o)) by lia. symmetry. apply shiftr_block; lia.
Qed.
End pool_new.

(** ** Sequences of operations *)
Section pool_steps.
Context {NL : IpNetLib} {S : Type} {SO : StoreOps S} {SL : StoreLaws S}.
Context (oc : bool).
Implicit Types (f : @FakeDns NL S).

(** One call of a client on the shared pool. *)
Inductive fd_step : FakeDns -> FakeDns -> Prop :=
| step_lookup f host ip f' :
    ok_host host -> fakedns_lookup oc host f = Some (Ok (ip, f')) -> fd_step f f'
| step_reverse f ip : pool_ip ip -> fd_step f (reverse_lookup ip f).2
| step_exist f ip : pool_ip ip -> fd_step f (fakedns_exist ip f).2.

(** Every binding is an address of the pool. *)
Definition pool_inv f : Prop :=
  pool_wf f /\
  forall h i, bound (fd_store f) h i -> exists o, 0 <= o < pool_size f /\ i = ip_at f o.

Lemma lookup_known f host ip :
  pool_wf f -> ok_host host -> bound (fd_store f) host ip ->
  exists f', fakedns_lookup oc host f = Some (Ok (ip, f')) /\ frame f f' /\ pool_wf f' /\
    forall h i, bound (fd_store f') h i <-> bound (fd_store f) h i.
Proof.
  intros Hwf Hok Hb. unfold fakedns_lookup.
  destruct (get_by_host_law (fd_store f) host (pw_store f Hwf) Hok) as [Hg (Hst & Hv & _)].
  destruct (get_by_host (fd_store f) host) as [o s]. cbn [fst snd] in *.
  apply Hg in Hb. subst o. eexists. split; [done|]. split_and!; [done| |done].
  eapply frame_wf; [done|done|apply (pw_offset f Hwf)|done].
Qed.

(** A host is either bound or not, as the store itself tells. *)
Lemma bound_or_not f host :
  pool_wf f -> ok_host host ->
  (exists ip, bound (fd_store f) host ip) \/ (forall ip, ~ bound (fd_store f) host ip).
Proof.
  intros Hwf Hok. destruct (get_by_host_law (fd_store f) host (pw_store f Hwf) Hok) as [Hg _].
  destruct (get_by_host (fd_store f) host).1 as [ip|] eqn:E.
  - left. exists ip. by apply Hg.
  - right. intros ip Hb. apply Hg in Hb. congruence.
Qed.

Lemma reverse_spec f ip :
  pool_wf f -> pool_ip ip ->
  (forall h, (reverse_lookup ip f).1 = Some h <-> bound (fd_store f) h ip) /\
  frame f (reverse_lookup ip f).2 /\ pool_wf (reverse_lookup ip f).2 /\
  forall h i, bound (fd_store (reverse_lookup ip f).2) h i <-> bound (fd_store f) h i.
Proof.
  intros Hwf Hip. unfold reverse_lookup. destruct Hip as [Hv4 Hw]. rewrite Hv4. cbn [negb].
  destruct (get_by_ip_law (fd_store f) ip (pw_store f Hwf) (conj Hv4 Hw)) as [Hg (Hst & Hv & _)].
  destruct (get_by_ip (fd_store f) ip) as [o s]. cbn [fst snd] in *. split_and!; [done|done| |done].
  eapply frame_wf; [done|done|apply (pw_offset f Hwf)|done].
Qed.

Lemma exist_spec f ip :
  pool_wf f -> pool_ip ip ->
  ((fakedns_exist ip f).1 = true <-> exists h, bound (fd_store f) h ip) /\
  frame f (fakedns_exist ip f).2 /\ pool_wf (fakedns_exist ip f).2 /\
  forall h i, bound (fd_store (fakedns_exist ip f).2) h i <-> bound (fd_store f) h i.
Proof.
  intros Hwf Hip. unfold fakedns_exist. destruct Hip as [Hv4 Hw]. rewrite Hv4. cbn [negb].
  destruct (exist_law (fd_store f) ip (pw_store f Hwf) (conj Hv4 Hw)) as [Hg (Hst & Hv & _)].
  destruct (exist (fd_store f) ip) as [o s]. cbn [fst snd] in *. split_and!; [done|done| |done].
  eapply frame_wf; [done|done|apply (pw_offset f Hwf)|done].
Qed.

Lemma pool_inv_sub f f' :
  frame f f' -> pool_wf f' ->
  (forall h i, bound (fd_store f') h i ->
     bound (fd_store f) h i \/ exists o, 0 <= o < pool_size f /\ i = ip_at f o) ->
  pool_inv f -> pool_inv f'.
Proof.
  intros Hfr Hwf Hsub [_ Hin]. split; [done|]. intros h i H. rewrite (frame_size _ _ Hfr).
  setoid_rewrite (frame_ip_at _ _ _ Hfr). apply Hsub in H as [H|H]; eauto.
Qed.

Lemma step_inv f f' : fd_step f f' -> pool_inv f -> pool_inv f'.
Proof.
  intros Hstep Hinv. assert (Hwf := proj1 Hinv). destruct Hstep as [f host ip f' Hok Hl|f ip Hip|f ip Hip].
  - destruct (bound_or_not f host Hwf Hok) as [[ip0 Hb]|Hnb].
    + destruct (lookup_known f host ip0 Hwf Hok Hb) as (f1 & E & Hfr & Hwf1 & Hv). simplify_eq.
      eapply pool_inv_sub; [done..| |done]. intros h i H. left. by apply Hv.
    + destruct (lookup_new oc f host Hwf Hok Hnb) as (o & f1 & E & Ho & Hfr & Hwf1 & _ & Hn & _).
      simplify_eq. eapply pool_inv_sub; [done..| |done].
      intros h i H. apply Hn in H as [[-> ->]|H]; [right; by exists o|by left].
  - destruct (reverse_spec f ip Hwf Hip) as (_ & Hfr & Hwf' & Hv).
    eapply pool_inv_sub; [done..| |done]. intros h i H. left. by apply Hv.
  - destruct (exist_spec f ip Hwf Hip) as (_ & Hfr & Hwf' & Hv).
    eapply pool_inv_sub; [done..| |done]. intros h i H. left. by apply Hv.
Qed.

Lemma steps_inv f f' : rtc fd_step f f' -> pool_inv f -> pool_inv f'.
Proof. induction 1; eauto using step_inv. Qed.
(** A lookup, of a name known or not. *)
Lemma lookup_any f host :
  pool_inv f -> ok_host host ->
  exists a f', fakedns_lookup oc host f = Some (Ok (V4 a, f')) /\ pool_inv f' /\ is_fake_ip (V4 a) f' = true /\
    bound (fd_store f') host (V4 a) /\ (reverse_lookup (V4 a) f').1 = Some host /\
    (forall ip0, bound (fd_store f) host ip0 -> V4 a = ip0).
Proof.
  intros Hinv Hhost. assert (Hwf := proj1 Hinv).
  assert (exists o f', fakedns_lookup oc host f = Some (Ok (ip_at f o, f')) /\ 0 <= o < pool_size f /\
    frame f f' /\ pool_wf f' /\ bound (fd_store f') host (ip_at f o) /\
    (forall ip0, bound (fd_store f) host ip0 -> ip_at f o = ip0)) as H.
  { destruct (bound_or_not f host Hwf Hhost) as [[ip Hb]|Hnb].
    - destruct (proj2 Hinv _ _ Hb) as (o & Ho & ->).
      destruct (lookup_known f host _ Hwf Hhost Hb) as (f' & ? & ? & ? & Hv).
      exists o, f'. split_and!; try done; [lia..|by apply Hv|].
      intros ip0. by apply bound_ip_inj; [apply Hwf|].
    - destruct (lookup_new oc f host Hwf Hhost Hnb) as (o & f' & ? & ? & ? & ? & ? & _).
      exists o, f'. split_and!; try done; [lia..|]. intros ip0 Hb0. by apply Hnb in Hb0. }
  destruct H as (o & f' & E & Ho & Hfr & Hwf' & Hb & Hsame).
  assert (pool_inv f') as Hinv' by (eapply step_inv; [by econstructor|done]).
  destruct (offset_ip_ok oc f o Hwf Ho) as [_ Hip].
  exists (fd_min f + o - 1), f'. change (V4 (fd_min f + o - 1)) with (ip_at f o). split_and!; [done|done| |done| |done].
  - unfold is_fake_ip. destruct Hip as [-> _]. simpl. rewrite <- (frame_ip_at _ _ _ Hfr).
    apply (pw_contains f' Hwf'). by rewrite (frame_size _ _ Hfr).
  - by apply reverse_spec.
Qed.
End pool_steps.

(** * Theorems *)

(** Looking up a host always succeeds, and reads back.  In a well-formed
    pool the search loop ends within one round, so [lookup] returns an
    address of the pool (one [is_fake_ip] accepts) in either build; the pool
    stays well-formed; a host that already had an address gets the same one;
    and immediately afterwards the reverse lookup of the address gives the
    host and another lookup of the host gives the address. *)
Theorem fakeip_lookup_spec {NL : IpNetLib} {S : Type} {SO : StoreOps S} {SL : StoreLaws S}
    (oc : bool) (f : @FakeDns NL S) (host : str) (Hinv : pool_inv f) (Hhost : ok_host host) :
  exists ip f', fakedns_lookup oc host f = Some (Ok (ip, f')) /\ pool_inv f' /\
    is_fake_ip ip f' = true /\
    (forall ip0, bound (fd_store f) host ip0 -> ip = ip0) /\
    (reverse_lookup ip f').1 = Some host /\
    exists f'', fakedns_lookup oc host f' = Some (Ok (ip, f'')).
Proof.
  destruct (lookup_any oc f host Hinv Hhost) as (a & f' & E & Hinv' & Hfake & Hb & Hrev & Hsame).
  exists (V4 a), f'. split_and!; [done..|].
  destruct (lookup_known oc f' host _ (proj1 Hinv') Hhost Hb) as (f'' & ? & _). by exists f''.
Qed.

(** C13: the pairing stays one-to-one.  Starting from a pool with no bindings,
    after any sequence of lookups, reverse lookups and existence checks, two
    hosts never share an address, a host never has two addresses, and every
    address in use belongs to the pool. *)
Theorem fakeip_pairing_reachable {NL : IpNetLib} {S : Type} {SO : StoreOps S} {SL : StoreLaws S}
    (oc : bool) (f0 f : @FakeDns NL S) (Hwf : pool_wf f0)
    (Hempty : forall h i, ~ bound (fd_store f0) h i) (Hsteps : rtc (fd_step oc) f0 f) :
  (forall h1 h2 ip, bound (fd_store f) h1 ip -> bound (fd_store f) h2 ip -> h1 = h2) /\
  (forall h ip1 ip2, bound (fd_store f) h ip1 -> bound (fd_store f) h ip2 -> ip1 = ip2) /\
  (forall h ip, bound (fd_store f) h ip -> is_fake_ip ip f = true).
Proof.
  assert (pool_inv f) as [Hwf' Hin].
  { eapply steps_inv; [done|]. split; [done|]. intros h i H. by apply Hempty in H. }
  split_and!.
  - intros h1 h2 ip. apply bound_host_inj, Hwf'.
  - intros h ip1 ip2. apply bound_ip_inj, Hwf'.
  - intros h ip H. apply Hin in H as (o & Ho & ->). by apply (pw_contains f Hwf').
Qed.

(** The two LRU caches never drift apart.  In a pool over a new in-memory
    store of at least one entry, after any sequence of operations the two
    caches hold the same pairs in the same order of use, so an eviction
    always removes both halves of one pair. *)
Theorem fakeip_mem_in_sync {NL : IpNetLib} {LL : LruLib} {LW : LruLaws LL} (oc : bool)
    (size : Z) (f0 f : @FakeDns NL InMemStore) (Hsize : 1 <= size)
    (Hstore : fd_store f0 = in_mem_new size)
    (Hwf : @pool_wf NL InMemStore in_mem_store in_mem_store_laws f0)
    (Hsteps : rtc (@fd_step NL InMemStore in_mem_store in_mem_store_laws oc) f0 f) :
  lru_list (itoh (fd_store f)) = swap <$> lru_list (htoi (fd_store f)).
Proof.
  assert (@pool_inv NL InMemStore in_mem_store in_mem_store_laws f) as [Hf _].
  { eapply steps_inv; [done|]. split; [done|]. intros h i H. rewrite Hstore in H.
    by destruct (proj2 (in_mem_new_ok size Hsize) h i). }
  exact (mi_swap _ (@pw_store _ _ _ _ f Hf)).
Qed.

(** A binding is dropped only when the pool is full.  When the store has
    room and some address other than the last one handed out is unused, a
    lookup keeps every existing binding. *)
Theorem fakeip_keeps_bindings {NL : IpNetLib} {S : Type} {SO : StoreOps S} {SL : StoreLaws S}
    (oc : bool) (f : @FakeDns NL S) (host : str) ip f' (Hwf : pool_wf f) (Hhost : ok_host host)
    (Hroom : room (fd_store f))
    (Hfree : exists x, 0 <= x < pool_size f /\ x <> fd_offset f /\ ~ taken f x)
    (Hl : fakedns_lookup oc host f = Some (Ok (ip, f'))) :
  forall h i, bound (fd_store f) h i -> bound (fd_store f') h i.
Proof.
  destruct (bound_or_not f host Hwf Hhost) as [[ip0 Hb]|Hnb].
  - destruct (lookup_known oc f host ip0 Hwf Hhost Hb) as (f1 & E & _ & _ & Hv).
    rewrite E in Hl. simplify_eq. intros h i. by apply Hv.
  - destruct (lookup_new oc f host Hwf Hhost Hnb) as (o & f1 & E & _ & _ & _ & _ & _ & Hk).
    rewrite E in Hl. simplify_eq. auto.
Qed.

(** The range check of a new pool.  For an IPv4 range of prefix length 1
    to 30 a pool is built with the gateway at the second address and
    2^(32-len) - 3 addresses; with overflow checks this needs the block not
    to be the last one of the address space.  Prefix lengths 0 and 32 panic
    in a checked build, and a pool of length 31 panics at the first lookup. *)
Theorem fakeip_new_bounds {NL : IpNetLib} {NLaws : IpNetLaws NL} {S : Type} {SO : StoreOps S}
    {SL : StoreLaws S} (oc : bool) (n : IpNet) (a : Z) (sk : option (StringTrie bool)) (s : S)
    (Haddr : ipnet_addr n = V4 a) (Hs : st_inv s) :
  let k := 32 - ipnet_prefix_len n in
  let net := Z.shiftl (Z.shiftr a k) k in
  (1 <= ipnet_prefix_len n <= 30 -> (oc = true -> net + 2 ^ k < 2 ^ 32) ->
     exists f, fakedns_new oc n sk s = Ok f /\ pool_wf f /\ fd_gateway f = net + 1 /\
       pool_size f = 2 ^ k - 3) /\
  (ipnet_prefix_len n = 0 \/ ipnet_prefix_len n = 32 -> fakedns_new true n sk s = Panic) /\
  (ipnet_prefix_len n = 31 -> forall f host, fakedns_new true n sk s = Ok f -> ok_host host ->
     (forall ip, ~ bound s host ip) -> fakedns_lookup true host f = Some Panic).
Proof.
  intros k net. split_and!.
  - intros Hlen Hoc. destruct (new_ok oc n a sk s Haddr Hlen Hs Hoc) as (f & ? & ? & ? & ? & ? & ? & _).
    by exists f.
  - intros Hlen. pose proof (ipnet_addr_wf n) as Hwf. rewrite Haddr in Hwf. simpl in Hwf.
    unfold fakedns_new. rewrite ipnet_network_spec, Haddr. cbn [net_of]. rstep.
    destruct (arith true 32 _) as [m|e|] eqn:E; rstep; [| |done].
    + by destruct Hlen as [-> | ->].
    + unfold arith in E. by case_bool_decide.
  - intros Hlen f host Hf Hok Hnb.
    assert (fd_store f = s /\ fd_max f - fd_min f = -1) as [Hst Hsz].
    { unfold fakedns_new in Hf. rewrite Hlen, Haddr in Hf.
      apply res_bind_ok in Hf as (ip & _ & Hf). apply res_bind_ok in Hf as (mn & _ & Hf).
      change (shl true 32 1 (ip_width (V4 a) - 31)) with (Ok 2) in Hf. cbn [mbind res_mbind res_bind] in Hf.
      change (arith true 32 (2 - 2)) with (Ok 0) in Hf. cbn [mbind res_mbind res_bind] in Hf.
      apply res_bind_ok in Hf as (m & Em & Hf). apply res_bind_ok in Hf as (mx & Emx & Hf).
      apply res_bind_ok in Hf as (g & _ & Hf). injection Hf as <-. simpl. split; [done|].
      unfold arith in Em, Emx. repeat case_bool_decide; simplify_eq. lia. }
    unfold fakedns_lookup. subst s.
    destruct (get_by_host_law (fd_store f) host Hs Hok) as [Hg _].
    destruct (get_by_host (fd_store f) host) as [[ip|] s']; cbn [fst snd] in *; [by edestruct Hnb; apply Hg|].
    assert (next_offset true (with_store s' f) (fd_offset f) = Panic) as E.
    { unfold next_offset. cbn [with_store fd_max fd_min]. rewrite Hsz.
      destruct (arith true 32 (fd_offset f + 1)) as [o|e|] eqn:E; rstep; [reflexivity| |reflexivity].
      unfold arith in E. by case_bool_decide. }
    unfold fakedns_get, pool_fuel. cbn [get_loop].
    change (fd_offset (with_store s' f)) with (fd_offset f). by rewrite E.
Qed.

(** The gateway is handed out.  In a pool of at least two addresses, the
    lookup that wraps around gives a new host the pool's own gateway
    address. *)
Theorem fakeip_hands_out_gateway {NL : IpNetLib} {S : Type} {SO : StoreOps S} {SL : StoreLaws S}
    (oc : bool) (f : @FakeDns NL S) (host : str) (Hwf : pool_wf f) (Hhost : ok_host host)
    (Hnew : forall ip, ~ bound (fd_store f) host ip)
    (Hsize : 2 <= pool_size f) (Hlast : fd_offset f = pool_size f - 1)
    (Hfree : ~ taken f 0) (Hgw : fd_gateway f = fd_min f - 1) :
  exists f', fakedns_lookup oc host f = Some (Ok (V4 (fd_gateway f), f')).
Proof.
  unfold fakedns_lookup.
  destruct (get_by_host_law (fd_store f) host (pw_store f Hwf) Hhost) as [Hg (Hst & Hv & _)].
  destruct (get_by_host (fd_store f) host) as [[ip|] s]; cbn [fst snd] in *; [by edestruct Hnew; apply Hg|].
  set (f0 := with_store s f).
  assert (pool_wf f0) as Hwf0 by by (eapply frame_wf; [done|done|apply (pw_offset f Hwf)|]).
  assert (0 <= 0 < pool_size f0) as Hz by (change (pool_size f0) with (pool_size f); lia).
  unfold fakedns_get, pool_fuel. cbn [get_loop].
  rewrite next_offset_ok by (try done; apply (pw_offset f0 Hwf0)).
  replace ((fd_offset f0 + 1) mod pool_size f0) with 0.
  2: { change (fd_offset f0) with (fd_offset f). change (pool_size f0) with (pool_size f).
       rewrite Hlast. replace (pool_size f - 1 + 1) with (pool_size f) by lia. by rewrite Z.mod_same by lia. }
  change (fd_offset f0) with (fd_offset f). rewrite (proj2 (Z.eqb_neq _ _)) by lia.
  destruct (offset_ip_ok oc f0 0 Hwf0 Hz) as [-> Hip].
  destruct (exist_law (fd_store f0) (ip_at f0 0) Hst Hip) as [He _].
  destruct (exist (fd_store f0) (ip_at f0 0)) as [e s'] eqn:Ee. cbn [fst snd] in *. destruct e.
  { exfalso. apply Hfree. destruct (proj1 He eq_refl) as [h Hh]. exists h. by apply Hv. }
  rstep.
  assert (pool_wf (with_store s' (with_offset 0 f0))) as Hwf1.
  { destruct (exist_law (fd_store f0) (ip_at f0 0) Hst Hip) as [_ [Hst' _]]. rewrite Ee in Hst'.
    by eapply frame_wf. }
  destruct (offset_ip_ok oc (with_store s' (with_offset 0 f0)) 0 Hwf1 Hz) as [E _].
  cbn [fd_offset with_store with_offset] in *. rewrite E. rstep. eexists.
  do 4 f_equal. unfold ip_at. simpl. f_equal. lia.
Qed.

(** ** A pool on 192.168.0.0/29 over an empty cache file *)
Section demo.
#[local] Existing Instances ref_ipnet ref_ipnet_laws file_store.

Lemma demo_net_ok :
  wf_ip (V4 0xC0A80000, 29).1 /\ 0 <= (V4 0xC0A80000, 29).2 <= ip_width (V4 0xC0A80000, 29).1.
Proof. apply (bool_decide_unpack _). vm_compute. exact I. Qed.
Definition demo_net : @IpNet ref_ipnet := dexist (V4 0xC0A80000, 29) demo_net_ok.
Definition demo_cache : CacheFile unit := {| db := db_empty; store_selected := true |}.
Definition demo_pool : @FakeDns ref_ipnet (CacheFile unit) := {|
  fd_max := 0xC0A80007; fd_min := 0xC0A80002; fd_gateway := 0xC0A80001; fd_offset := 0;
  fd_skipped_hostnames := None; fd_ipnet := demo_net; fd_store := demo_cache |}.

Lemma demo_lookup (k v : str) :
  ~ ip_to_host (db demo_cache) !! k = Some v /\ ~ host_to_ip (db demo_cache) !! k = Some v.
Proof. split; exact (lookup_empty_Some (M := gmap str) k v). Qed.
Lemma demo_cache_inv : st_inv demo_cache.
Proof. split; intros ? ? H; by apply demo_lookup in H. Qed.
Lemma demo_cache_empty h i : ~ bound demo_cache h i.
Proof. intros (a & _ & _ & H). by apply demo_lookup in H. Qed.
Lemma demo_pool_wf : pool_wf demo_pool.
Proof.
  destruct (new_ok true demo_net 0xC0A80000 None demo_cache) as (f & E & Hwf & _);
    [reflexivity|by vm_compute|apply demo_cache_inv|by vm_compute|].
  assert (fakedns_new true demo_net None demo_cache = Ok demo_pool) as E' by reflexivity.
  rewrite E' in E. by injection E as <-.
Qed.
Lemma demo_host : @ok_host (CacheFile unit) file_store file_store_laws (lit "foo.com").
Proof. by split; [vm_compute|]. Qed.

Lemma fakeip_lookup_spec_witness :
  exists ip f', fakedns_lookup true (lit "foo.com") demo_pool = Some (Ok (ip, f')) /\
    (reverse_lookup ip f').1 = Some (lit "foo.com").
Proof.
  destruct (fakeip_lookup_spec true demo_pool (lit "foo.com")) as (ip & f' & H & _ & _ & _ & Hr & _).
  - split; [apply demo_pool_wf|]. intros h i H. by apply demo_cache_empty in H.
  - apply demo_host.
  - exists ip, f'. split; [exact H|exact Hr].
Defined.

Lemma fakeip_pairing_reachable_witness :
  exists f, rtc (fd_step true) demo_pool f /\
    forall h1 h2 ip, bound (fd_store f) h1 ip -> bound (fd_store f) h2 ip -> h1 = h2.
Proof.
  exists (reverse_lookup (V4 0xC0A80002) demo_pool).2.
  assert (rtc (fd_step true) demo_pool (reverse_lookup (V4 0xC0A80002) demo_pool).2) as Hr.
  { apply rtc_once. constructor. split; [done|]. by vm_compute. }
  split; [exact Hr|].
  apply (fakeip_pairing_reachable true demo_pool _ demo_pool_wf demo_cache_empty Hr).
Defined.

Lemma fakeip_keeps_bindings_witness :
  exists ip f', fakedns_lookup true (lit "foo.com") demo_pool = Some (Ok (ip, f')) /\
    forall h i, bound (fd_store demo_pool) h i -> bound (fd_store f') h i.
Proof.
  destruct (lookup_new true demo_pool (lit "foo.com") demo_pool_wf demo_host (demo_cache_empty _))
    as (o & f' & E & _).
  exists (ip_at demo_pool o), f'. split; [exact E|].
  apply (fakeip_keeps_bindings true demo_pool (lit "foo.com") (ip_at demo_pool o) f'
           demo_pool_wf demo_host).
  - exact I.
  - exists 1. split; [by vm_compute|]. split; [done|]. intros [h H]. by apply demo_cache_empty in H.
  - exact E.
Defined.

Lemma fakeip_new_bounds_witness :
  exists f, fakedns_new true demo_net None demo_cache = Ok f /\ pool_size f = 5.
Proof.
  destruct (fakeip_new_bounds true demo_net 0xC0A80000 None demo_cache eq_refl demo_cache_inv)
    as [H _].
  destruct H as (f & E & _ & _ & Hs); [by vm_compute|by vm_compute|].
  exists f. split; [exact E|exact Hs].
Defined.

Lemma fakeip_hands_out_gateway_witness :
  exists f', fakedns_lookup true (lit "foo.com") (with_offset 4 demo_pool)
             = Some (Ok (V4 0xC0A80001, f')).
Proof.
  apply (fakeip_hands_out_gateway true (with_offset 4 demo_pool) (lit "foo.com")).
  - apply (frame_wf demo_pool); [apply demo_pool_wf|done|by vm_compute|apply demo_cache_inv].
  - apply demo_host.
  - intros ip H. by apply demo_cache_empty in H.
  - by vm_compute.
  - reflexivity.
  - intros [h H]. by apply demo_cache_empty in H.
  - reflexivity.
Defined.

Definition demo_mem_pool : @FakeDns ref_ipnet (@InMemStore ref_lru) :=
  {| fd_max := 0xC0A80007; fd_min := 0xC0A80002; fd_gateway := 0xC0A80001; fd_offset := 0;
     fd_skipped_hostnames := None; fd_ipnet := demo_net; fd_store := @in_mem_new ref_lru 2 |}.

Lemma fakeip_mem_in_sync_witness :
  exists f, rtc (@fd_step ref_ipnet _ (@in_mem_store ref_lru) (@in_mem_store_laws _ ref_lru_laws) true)
              demo_mem_pool f /\
    @lru_list _ ref_lru_laws _ _ (itoh (fd_store f)) =
    swap <$> @lru_list _ ref_lru_laws _ _ (htoi (fd_store f)).
Proof.
  destruct (@in_mem_new_ok ref_lru ref_lru_laws 2 ltac:(done)) as [Hinv _].
  assert (@pool_wf ref_ipnet _ (@in_mem_store ref_lru) (@in_mem_store_laws _ ref_lru_laws) demo_mem_pool)
    as Hwf.
  { pose proof demo_pool_wf as []. by split. }
  destruct (@bound_or_not ref_ipnet _ _ (@in_mem_store_laws _ ref_lru_laws) demo_mem_pool
              (lit "foo.com") Hwf I) as [[ip Hb]|Hnb].
  { by destruct (proj2 (@in_mem_new_ok ref_lru ref_lru_laws 2 ltac:(done)) (lit "foo.com") ip). }
  destruct (@lookup_new ref_ipnet _ _ (@in_mem_store_laws _ ref_lru_laws) true demo_mem_pool
              (lit "foo.com") Hwf I Hnb) as (o & f & E & _).
  exists f.
  assert (rtc (@fd_step ref_ipnet _ (@in_mem_store ref_lru) (@in_mem_store_laws _ ref_lru_laws) true)
            demo_mem_pool f) as Hr by (apply rtc_once; by eapply step_lookup).
  split; [exact Hr|].
  exact (@fakeip_mem_in_sync ref_ipnet ref_lru ref_lru_laws true 2 demo_mem_pool f
           ltac:(done) eq_refl Hwf Hr).
Defined.
End demo.
