(* ===== verification/SuccinctSet.v ===== *)
(** * Succinct domain sets ([clash-lib/src/common/succinct_set.rs])

    A set of reversed domains laid out as a level-order trie: for each node a
    zero bit per child and a closing one bit, the children's labels, and a
    bitmap of the nodes that end a key.  [ranks] and [selects] are the
    indexes that make counting zeros and finding the i-th one fast; they are
    shown to compute exactly that. *)

From S2P Require Import Prelude Str Trie.

(* @src clash-lib/src/common/succinct_set.rs 7 7 COMPLEX_WILDCARD *)
Definition PLUS_BYTE : Z := 43.
(* @src clash-lib/src/common/succinct_set.rs 8 8 WILDCARD *)
Definition STAR_BYTE : Z := 42.
(* @src clash-lib/src/common/succinct_set.rs 9 9 DOMAIN_STEP *)
Definition STEP_BYTE : Z := 46.

(* @src clash-lib/src/common/succinct_set.rs ~pub struct DomainSet~ DomainSet *)
Record DomainSet : Type := {
  leaves : list Z;
  label_bit_map : list Z;
  labels : list Z;
  ranks : list Z;
  selects : list Z;
}.
Definition domain_set_default : DomainSet :=
  {| leaves := []; label_bit_map := []; labels := []; ranks := []; selects := [] |}.

(** ** Bits *)
(** [u64::count_ones] *)
Definition count_ones (w : Z) : Z := zlen (filter (fun i => Z.testbit w i = true) (seqZ 0 64)).
(** [u64::trailing_zeros] *)
Fixpoint trailing_from (n : nat) (i w : Z) : Z :=
  match n with
  | O => i
  | S n' => if Z.testbit w i then i else trailing_from n' (i + 1) w
  end.
Definition trailing_zeros (width : nat) (w : Z) : Z := trailing_from width 0 w.

(* @src clash-lib/src/common/succinct_set.rs ~^fn get_bit~ get_bit *)
Definition get_bit (bm : list Z) (i : Z) : res bool :=
  match bm with
  | [] => Ok false
  | _ => w ← zidx bm (Z.shiftr i 6); Ok (negb (Z.land w (Z.shiftl 1 (Z.land i 63)) =? 0))
  end.

(* @src clash-lib/src/common/succinct_set.rs ~^fn set_bit~ set_bit *)
Definition set_bit (bm : list Z) (i : Z) (v : bool) : list Z :=
  let k := Z.to_nat (Z.shiftr i 6) in
  let bm := bm ++ replicate (S k - length bm) 0 in
  alter (fun w => Z.lor w (Z.shiftl (if v then 1 else 0) (Z.land i 63))) k bm.

Section index.
(** Overflow checks of the build. *)
Context (oc : bool).

(* @src clash-lib/src/common/succinct_set.rs ~^fn count_zeros~ count_zeros *)
Definition count_zeros (bm ranks : list Z) (i : Z) : res Z :=
  r ← zidx ranks (Z.shiftr i 6);
  a ← arith oc 64 (i - wrap 64 r);
  w ← zidx bm (Z.shiftr i 6);
  arith oc 64 (a - count_ones (Z.land w (Z.shiftl 1 (Z.land i 63) - 1))).

(** The inner loop over the bits of a word: the position of the wanted one
    bit in the word, or what is left to find after it.  Each round drops at
    least one bit of the 64. *)
(* @src clash-lib/src/common/succinct_set.rs ~while w > 0~ select_ith_one (word) *)
Fixpoint select_word (fuel : nat) (w bit_idx find : Z) : Z + Z :=
  match fuel with
  | O => inr find
  | S fuel' =>
    if w =? 0 then inr find
    else
      let find := find - Z.land w 1 in
      if find <? 0 then inl bit_idx
      else
        let t0 := trailing_zeros 64 (Z.land w (Z.lnot 1)) in
        select_word fuel' (if t0 <? 64 then Z.shiftr w t0 else 0) (bit_idx + t0) find
  end.

Fixpoint select_words (ws : list Z) (i find : Z) : res Z :=
  match ws with
  | [] => Panic
  | w :: ws' =>
    match select_word 65 w 0 find with
    | inl bit_idx => Ok (Z.shiftl i 6 + bit_idx)
    | inr find => select_words ws' (i + 1) find
    end
  end.

(* @src clash-lib/src/common/succinct_set.rs ~^fn select_ith_one~ select_ith_one *)
Definition select_ith_one (bm ranks selects : list Z) (i : Z) : res Z :=
  s ← zidx selects (Z.shiftr i 6);
  let base := Z.land s (Z.lnot 63) in
  r ← zidx ranks (Z.shiftr base 6);
  select_words (drop (Z.to_nat (Z.shiftr base 6)) bm) (Z.shiftr base 6) (i - r).

(** ** Building the indexes *)
(** A rank is an [i32]; a sum beyond it overflows. *)
Definition arith_i32 (z : Z) : res Z :=
  if bool_decide (- 2 ^ 31 <= z < 2 ^ 31) then Ok z
  else if oc then Panic else Ok (wrap 32 (z + 2 ^ 31) - 2 ^ 31).

Definition init_ranks (bm : list Z) : res (list Z) :=
  res_fold (fun ranks w => r ← arith_i32 (default 0 (last ranks) + count_ones w); Ok (ranks ++ [r]))
    [0] bm.

Definition init_selects (bm : list Z) : list Z :=
  (foldl (fun '(n, sel) i =>
     match zget bm (Z.shiftr i 6) with
     | None => (n, sel)
     | Some w =>
       if Z.land (Z.shiftr w (Z.land i 63)) 1 =? 1 then
         (n + 1, if Z.land n 63 =? 0 then sel ++ [as_i32 i] else sel)
       else (n, sel)
     end) (0, []) (seqZ 0 (64 * zlen bm))).2.

(* @src clash-lib/src/common/succinct_set.rs ~    fn init~ DomainSet::init *)
Definition init (s : DomainSet) : res DomainSet :=
  rs ← init_ranks (label_bit_map s);
  Ok {| leaves := leaves s; label_bit_map := label_bit_map s; labels := labels s;
        ranks := rs; selects := init_selects (label_bit_map s) |}.

(* @src clash-lib/src/common/succinct_set.rs ~fn from_mrs_parts~ DomainSet::from_mrs_parts *)
Definition from_mrs_parts (leaves label_bit_map labels : list Z) : res DomainSet :=
  init {| leaves := leaves; label_bit_map := label_bit_map; labels := labels;
          ranks := []; selects := [] |}.
End index.

(** ** Lookup *)
Section lookup.
Context (oc : bool).

(* @src clash-lib/src/common/succinct_set.rs ~struct Cursor~ Cursor *)
Record Cursor : Type := { cur_bm_idx : Z; cur_index : Z }.

(** The variables of [has]; the top of the stack is the head of the list. *)
(* @src clash-lib/src/common/succinct_set.rs 28 45 DomainSet::has (locals) *)
Record HasState : Type := { h_i : Z; h_node_id : Z; h_bm_idx : Z; h_stack : list Cursor }.

(** The child entered through the label at [bm_idx]: its node number and the
    position of its first child. *)
(* @src clash-lib/src/common/succinct_set.rs 117 132 DomainSet::has (descend) *)
Definition descend (s : DomainSet) (bm_idx : Z) : res (Z * Z) :=
  node_id ← count_zeros oc (label_bit_map s) (ranks s) (bm_idx + 1);
  k ← arith oc 64 (node_id - 1);
  p ← select_ith_one (label_bit_map s) (ranks s) (selects s) k;
  Ok (node_id, p + 1).

(** The first dot of the key at or after [j]. *)
(* @src clash-lib/src/common/succinct_set.rs ~while j < key.len~ DomainSet::has (skip label) *)
Fixpoint skip_label (n : nat) (key : str) (j : Z) : Z :=
  match n with
  | O => j
  | S n' => match zget key j with
            | Some c => if c =? STEP_BYTE then j else skip_label n' key (j + 1)
            | None => j
            end
  end.

(** The first dot label from position [next_bm_idx] on. *)
(* @src clash-lib/src/common/succinct_set.rs ~while next_bm_idx - next_node_id~ DomainSet::has (find dot) *)
Fixpoint find_step (n : nat) (s : DomainSet) (next_node_id next_bm_idx : Z) : res (option Z) :=
  match n with
  | O => Ok None
  | S n' =>
    d ← arith oc 64 (next_bm_idx - next_node_id);
    if d <? zlen (labels s) then
      l ← zidx (labels s) d;
      if l =? STEP_BYTE then Ok (Some next_bm_idx) else find_step n' s next_node_id (next_bm_idx + 1)
    else Ok None
  end.

(** One round of the innermost loop, for [i] inside the key: a new state or
    the answer. *)
(* @src clash-lib/src/common/succinct_set.rs 46 135 DomainSet::has (round) *)
Definition has_step (s : DomainSet) (key : str) (st : HasState) : res (HasState + bool) :=
  c ← zidx key (h_i st);
  closed ← get_bit (label_bit_map s) (h_bm_idx st);
  if (closed : bool) then
    match h_stack st with
    | [] => Ok (inr false)
    | cursor :: stack =>
      '(next_node_id, next_bm_idx) ← descend s (cur_bm_idx cursor);
      let j := skip_label (length key) key (cur_index cursor) in
      if j =? zlen key then
        leaf ← get_bit (leaves s) next_node_id;
        if (leaf : bool) then Ok (inr true)
        else Ok (inl {| h_i := h_i st; h_node_id := h_node_id st; h_bm_idx := h_bm_idx st;
                        h_stack := stack |})
      else
        o ← find_step (S (length (labels s))) s next_node_id next_bm_idx;
        match o with
        | Some b => Ok (inl {| h_i := j; h_node_id := next_node_id; h_bm_idx := b; h_stack := stack |})
        | None => Ok (inr false)
        end
    end
  else
    match labels s with
    | [] => Ok (inr false)
    | _ =>
      d ← arith oc 64 (h_bm_idx st - h_node_id st);
      l ← zidx (labels s) d;
      if l =? PLUS_BYTE then Ok (inr true)
      else if l =? STAR_BYTE then
        Ok (inl {| h_i := h_i st; h_node_id := h_node_id st; h_bm_idx := h_bm_idx st + 1;
                   h_stack := {| cur_bm_idx := h_bm_idx st; cur_index := h_i st |} :: h_stack st |})
      else if l =? wrap 8 c then
        '(node_id, bm_idx) ← descend s (h_bm_idx st);
        Ok (inl {| h_i := h_i st + 1; h_node_id := node_id; h_bm_idx := bm_idx;
                   h_stack := h_stack st |})
      else Ok (inl {| h_i := h_i st; h_node_id := h_node_id st; h_bm_idx := h_bm_idx st + 1;
                      h_stack := h_stack st |})
    end.

(** The loops of [has]; [None] is running out of fuel. *)
Fixpoint has_loop (fuel : nat) (s : DomainSet) (key : str) (st : HasState) : option (res bool) :=
  match fuel with
  | O => None
  | S fuel' =>
    if h_i st <? zlen key then
      match has_step s key st with
      | Ok (inl st') => has_loop fuel' s key st'
      | Ok (inr b) => Some (Ok b)
      | Err e => Some (Err e)
      | Panic => Some Panic
      end
    else Some (get_bit (leaves s) (h_node_id st))
  end.

Definition has_key (key : str) : str := map to_ascii_lowercase_char (reverse key).
(* @src clash-lib/src/common/succinct_set.rs ~    pub fn has~ DomainSet::has *)
Definition has (fuel : nat) (s : DomainSet) (key : str) : option (res bool) :=
  has_loop fuel s (has_key key) {| h_i := 0; h_node_id := 0; h_bm_idx := 0; h_stack := [] |}.

(** ** From a trie *)
(* @src clash-lib/src/common/succinct_set.rs ~^struct QElt~ QElt *)
Record QElt : Type := { q_s : nat; q_e : nat; q_col : nat }.

Fixpoint key_leb (a b : str) : bool :=
  match a, b with
  | [], _ => true
  | _, [] => false
  | x :: a', y :: b' => (x <? y) || ((x =? y) && key_leb a' b')
  end.
(** [keys.sort()] *)
Definition sort_keys (keys : list str) : list str :=
  foldr (fun k => fix ins (l : list str) : list str :=
           match l with
           | [] => [k]
           | x :: l' => if key_leb k x then k :: l else x :: ins l'
           end) [] keys.

(** The end of the group of keys from [j] on whose character at [col] is [c]. *)
(* @src clash-lib/src/common/succinct_set.rs ~while j < e && keys\[j\]~ DomainSet::from (group) *)
Fixpoint group_end (n : nat) (keys : list str) (e col : nat) (c : option char) (j : nat) : nat :=
  match n with
  | O => j
  | S n' => if bool_decide (j < e)%nat && bool_decide ((default [] (keys !! j)) !! col = c)
            then group_end n' keys e col c (S j) else j
  end.

(** The children of one node: new queue entries and labels. *)
(* @src clash-lib/src/common/succinct_set.rs ~            while j < e \{~ DomainSet::from (children) *)
Fixpoint children (n : nat) (keys : list str) (e col j : nat) (rv : DomainSet) (l_idx : Z) :
    list QElt * DomainSet * Z :=
  match n with
  | O => ([], rv, l_idx)
  | S n' =>
    if bool_decide (j < e)%nat then
      let c := (default [] (keys !! j)) !! col in
      let j' := group_end (S e) keys e col c j in
      let '(rv, l_idx) :=
        match c with
        | Some c => ({| leaves := leaves rv; label_bit_map := set_bit (label_bit_map rv) l_idx false;
                        labels := labels rv ++ [wrap 8 c]; ranks := ranks rv; selects := selects rv |},
                     l_idx + 1)
        | None => (rv, l_idx)
        end in
      let '(qs, rv, l_idx) := children n' keys e col j' rv l_idx in
      ({| q_s := j; q_e := j'; q_col := S col |} :: qs, rv, l_idx)
    else ([], rv, l_idx)
  end.

(** One round: the queue is the list of the nodes still to lay out, [i] the
    number of the first of them.  Taking the first key of an empty list of
    keys is out of range. *)
(* @src clash-lib/src/common/succinct_set.rs ~        loop \{~#2 DomainSet::from (loop) *)
Fixpoint from_loop (fuel : nat) (keys : list str) (i : Z) (queue : list QElt) (rv : DomainSet)
    (l_idx : Z) : option (res DomainSet) :=
  match fuel, queue with
  | O, _ => None
  | _, [] => Some (Ok rv)
  | S fuel', elt :: queue =>
    match keys !! q_s elt with
    | None => Some Panic
    | Some k =>
      let '(s, rv) :=
        if Z.of_nat (q_col elt) =? str_len k then
          (S (q_s elt), {| leaves := set_bit (leaves rv) i true; label_bit_map := label_bit_map rv;
                           labels := labels rv; ranks := ranks rv; selects := selects rv |})
        else (q_s elt, rv) in
      let '(qs, rv, l_idx) := children (q_e elt) keys (q_e elt) (q_col elt) s rv l_idx in
      let rv := {| leaves := leaves rv; label_bit_map := set_bit (label_bit_map rv) l_idx true;
                   labels := labels rv; ranks := ranks rv; selects := selects rv |} in
      from_loop fuel' keys (i + 1) (queue ++ qs) rv (l_idx + 1)
    end
  end.

Definition trie_keys {T : Type} (t : StringTrie T) : list str :=
  sort_keys (map (fun kd => reverse kd.1) (trie_entries t)).

(* @src clash-lib/src/common/succinct_set.rs ~^impl<T> From<StringTrie~ DomainSet::from *)
Definition domain_set_from {T : Type} (t : StringTrie T) : option (res DomainSet) :=
  let keys := trie_keys t in
  let fuel := (2 + sum_list (map length keys))%nat in
  match from_loop fuel keys 0 [{| q_s := 0; q_e := length keys; q_col := 0 |}]
          domain_set_default 0 with
  | None => None
  | Some r => Some (rv ← r; init oc rv)
  end.
End lookup.

(** * Rank and select *)

(** The bits of a word, lowest first, and of a bitmap. *)
Definition word_bits (w : Z) : list bool := Z.testbit w <$> seqZ 0 64.
Definition bm_bits (bm : list Z) : list bool := bm ≫= word_bits.
Definition ones (bs : list bool) : nat := length (filter (fun b => b = true) bs).
Definition zeros (bs : list bool) : nat := length (filter (fun b => b = false) bs).

(** The position of the [n]-th one. *)
Fixpoint ith_one (bs : list bool) (n : nat) : option nat :=
  match bs with
  | [] => None
  | true :: bs' => match n with O => Some O | S n' => S <$> ith_one bs' n' end
  | false :: bs' => S <$> ith_one bs' n
  end.

Lemma ones_app a b : ones (a ++ b) = (ones a + ones b)%nat.
Proof. unfold ones. by rewrite filter_app, length_app. Qed.
Lemma ones_zeros bs : (ones bs + zeros bs = length bs)%nat.
Proof.
  unfold ones, zeros. induction bs as [|[] bs IH]; [done|..];
    rewrite !filter_cons; simpl; lia.
Qed.
Lemma word_bits_length w : length (word_bits w) = 64%nat.
Proof. unfold word_bits. rewrite length_fmap. by rewrite length_seqZ. Qed.
Lemma bm_bits_cons w bm : bm_bits (w :: bm) = word_bits w ++ bm_bits bm.
Proof. done. Qed.
Lemma bm_bits_length bm : length (bm_bits bm) = (64 * length bm)%nat.
Proof.
  induction bm as [|w bm IH]; [done|].
  rewrite bm_bits_cons, length_app, word_bits_length, IH. simpl. lia.
Qed.
Lemma bm_bits_app a b : bm_bits (a ++ b) = bm_bits a ++ bm_bits b.
Proof. unfold bm_bits. by rewrite bind_app. Qed.

Lemma ones_fmap {A} (f : A -> bool) (l : list A) :
  ones (f <$> l) = length (filter (fun x => f x = true) l).
Proof.
  unfold ones. induction l as [|x l IH]; [done|]. rewrite fmap_cons, !filter_cons.
  destruct (f x); simpl; by rewrite IH.
Qed.
Lemma count_ones_spec w : count_ones w = Z.of_nat (ones (word_bits w)).
Proof. unfold count_ones, zlen, word_bits. by rewrite ones_fmap. Qed.
Lemma ones_le bs : (ones bs <= length bs)%nat.
Proof. apply length_filter. Qed.

Lemma ith_one_app a b n :
  ith_one (a ++ b) n =
  if decide (n < ones a)%nat then ith_one a n
  else (Nat.add (length a)) <$> ith_one b (n - ones a).
Proof.
  revert n. induction a as [|[] a IH]; intros n.
  - change (ones []) with 0%nat. rewrite decide_False by lia. rewrite Nat.sub_0_r.
    cbn [app length]. by destruct (ith_one b n).
  - change (ones (true :: a)) with (S (ones a)). simpl. destruct n as [|n].
    + by rewrite decide_True by lia.
    + rewrite IH. destruct (decide (n < ones a)%nat).
      * by rewrite decide_True by lia.
      * rewrite decide_False by lia. change (S n - S (ones a))%nat with (n - ones a)%nat.
        by destruct (ith_one b (n - ones a)).
  - change (ones (false :: a)) with (ones a). simpl. rewrite IH.
    destruct (decide (n < ones a)%nat); [done|]. by destruct (ith_one b (n - ones a)).
Qed.

Lemma ith_one_some bs n : is_Some (ith_one bs n) <-> (n < ones bs)%nat.
Proof.
  revert n. induction bs as [|[] bs IH]; intros n.
  - split; [by intros [? ?]|]. change (ones []) with 0%nat. lia.
  - change (ones (true :: bs)) with (S (ones bs)). destruct n as [|n]; simpl.
    + split; [lia|by eexists].
    + rewrite fmap_is_Some, IH. lia.
  - change (ones (false :: bs)) with (ones bs). simpl. by rewrite fmap_is_Some.
Qed.

(** The [n]-th one is a one, with [n] ones before it. *)
Lemma ith_one_spec bs n p :
  ith_one bs n = Some p <-> bs !! p = Some true /\ ones (take p bs) = n.
Proof.
  revert n p. induction bs as [|b bs IH]; intros n p.
  - split; [done|]. intros [? _]. by destruct p.
  - destruct p as [|p].
    + simpl. destruct b; simpl; [destruct n; simpl|].
      * split; [by split|done].
      * split; [|by intros [_ ?]]. intros H. by apply fmap_Some in H as (? & _ & ?).
      * split; [|by intros [? _]]. intros H. by apply fmap_Some in H as (? & _ & ?).
    + simpl. assert (forall m, S <$> ith_one bs m = Some (S p) <-> ith_one bs m = Some p) as Hs.
      { intros m. rewrite fmap_Some. split; [intros (x & ? & [= ->]); done|by exists p]. }
      destruct b; simpl.
      * change (ones (true :: take p bs)) with (S (ones (take p bs))).
        destruct n as [|n]; simpl; [split; [done|intros [_ ?]; done]|].
        rewrite Hs, IH. split; intros [? ?]; split; congruence.
      * change (ones (false :: take p bs)) with (ones (take p bs)). by rewrite Hs, IH.
Qed.

Lemma lookup_word_bits w i :
  word_bits w !! i = if decide (i < 64)%nat then Some (Z.testbit w (Z.of_nat i)) else None.
Proof.
  unfold word_bits. rewrite list_lookup_fmap. destruct (decide (i < 64)%nat).
  - rewrite lookup_seqZ_lt by lia. done.
  - by rewrite lookup_seqZ_ge by lia.
Qed.

Lemma ones_replicate n : ones (replicate n false) = 0%nat.
Proof. induction n; simpl; [done|]. by change (ones (false :: replicate n false)) with (ones (replicate n false)). Qed.

(** Masking a word keeps its first [k] bits. *)
Lemma count_ones_mask w k :
  0 <= k < 64 ->
  count_ones (Z.land w (Z.shiftl 1 k - 1)) = Z.of_nat (ones (take (Z.to_nat k) (word_bits w))).
Proof.
  intros Hk. rewrite count_ones_spec. f_equal.
  replace (word_bits (Z.land w (Z.shiftl 1 k - 1)))
    with (take (Z.to_nat k) (word_bits w) ++ replicate (64 - Z.to_nat k) false).
  { by rewrite ones_app, ones_replicate, Nat.add_0_r. }
  apply list_eq. intros i. rewrite lookup_word_bits.
  rewrite Z.shiftl_1_l. replace (2 ^ k - 1) with (Z.ones k) by (rewrite Z.ones_equiv; lia).
  rewrite Z.land_spec.
  destruct (decide (i < Z.to_nat k)%nat).
  - rewrite lookup_app_l by (rewrite length_take, word_bits_length; lia).
    rewrite lookup_take_lt, lookup_word_bits, !decide_True by lia.
    rewrite Z.ones_spec_low by lia. by rewrite andb_true_r.
  - rewrite lookup_app_r by (rewrite length_take, word_bits_length; lia).
    rewrite length_take, word_bits_length. rewrite Nat.min_l by lia.
    destruct (decide (i < 64)%nat).
    + rewrite lookup_replicate_2 by lia. rewrite Z.ones_spec_high by lia. by rewrite andb_false_r.
    + apply lookup_ge_None_2. rewrite length_replicate. lia.
Qed.

Lemma take_bm_bits bm k r :
  (k < length bm)%nat -> (r <= 64)%nat ->
  take (64 * k + r) (bm_bits bm) = bm_bits (take k bm) ++ take r (word_bits (default 0 (bm !! k))).
Proof.
  intros Hk Hr. destruct (lookup_lt_is_Some_2 bm k Hk) as [w Hw]. rewrite Hw. simpl default.
  rewrite <- (take_drop_middle bm k w Hw) at 1. rewrite bm_bits_app, bm_bits_cons.
  rewrite take_app_ge by (rewrite bm_bits_length, length_take; lia).
  f_equal. rewrite bm_bits_length, length_take. rewrite take_app_le by (rewrite word_bits_length; lia).
  f_equal. lia.
Qed.

(** ** The indexes *)
Record indexed (bm ranks selects : list Z) : Prop := {
  ix_ranks k : (k <= length bm)%nat -> ranks !! k = Some (Z.of_nat (ones (bm_bits (take k bm))));
  ix_selects m : (64 * m < ones (bm_bits bm))%nat ->
    exists p, ith_one (bm_bits bm) (64 * m) = Some p /\ selects !! m = Some (Z.of_nat p);
}.

Lemma shiftr6 i : 0 <= i -> Z.to_nat (Z.shiftr i 6) = (Z.to_nat i / 64)%nat.
Proof.
  intros Hi. rewrite Z.shiftr_div_pow2 by lia. change (2 ^ 6) with 64.
  by rewrite Z2Nat.inj_div by lia.
Qed.
Lemma land63 i : 0 <= i -> Z.land i 63 = Z.of_nat (Z.to_nat i mod 64).
Proof.
  intros Hi. change 63 with (Z.ones 6). rewrite Z.land_ones by lia. change (2 ^ 6) with 64.
  rewrite Nat2Z.inj_mod. by rewrite Z2Nat.id.
Qed.

Lemma zidx_nat {A} (l : list A) i x : 0 <= i -> l !! Z.to_nat i = Some x -> zidx l i = Ok x.
Proof. intros Hi H. unfold zidx, zget. by rewrite bool_decide_true, H by done. Qed.

Lemma count_zeros_ok oc bm ranks selects i :
  indexed bm ranks selects -> 0 <= i < 64 * zlen bm -> zlen bm < 2 ^ 32 ->
  count_zeros oc bm ranks i = Ok (Z.of_nat (zeros (take (Z.to_nat i) (bm_bits bm)))).
Proof.
  intros [Hr _] Hi Hlen. unfold count_zeros, zlen in *.
  set (n := Z.to_nat i). set (k := (n / 64)%nat).
  assert (n = (64 * k + n mod 64)%nat) as En by (unfold k; apply Nat.div_mod; lia).
  assert (n mod 64 < 64)%nat as Hm by (apply Nat.mod_upper_bound; lia).
  assert (k < length bm)%nat as Hk by (unfold k, n; apply Nat.Div0.div_lt_upper_bound; lia).
  destruct (lookup_lt_is_Some_2 bm k Hk) as [w Hw].
  assert (0 <= Z.shiftr i 6) as Hs by (apply Z.shiftr_nonneg; lia).
  assert (Z.to_nat (Z.shiftr i 6) = k) as Ek by (apply shiftr6; lia).
  rewrite (zidx_nat ranks _ (Z.of_nat (ones (bm_bits (take k bm))))) by
    (try done; rewrite Ek; apply Hr; lia). rstep.
  pose proof (ones_le (bm_bits (take k bm))) as Ho. rewrite bm_bits_length, length_take in Ho.
  rewrite wrap_small by (unfold in_width; lia).
  rewrite arith_ok by (unfold in_width; lia). rstep.
  rewrite (zidx_nat bm _ w) by (try done; by rewrite Ek). rstep.
  rewrite land63 by lia. fold n. rewrite count_ones_mask, Nat2Z.id by lia.
  pose proof (take_bm_bits bm k (n mod 64) Hk ltac:(lia)) as Ht. rewrite <- En, Hw in Ht.
  simpl default in Ht. pose proof (ones_zeros (take n (bm_bits bm))) as Hz. rewrite length_take, bm_bits_length in Hz.
  pose proof (ones_le (take (n mod 64) (word_bits w))) as Ho2. rewrite length_take, word_bits_length in Ho2.
  assert (ones (take n (bm_bits bm)) =
    (ones (bm_bits (take k bm)) + ones (take (n mod 64) (word_bits w)))%nat) as Hsum
    by (by rewrite Ht, ones_app).
  rewrite arith_ok by (unfold in_width; lia). f_equal. lia.
Qed.

Lemma trailing_from_spec n i w :
  let t := trailing_from n i w in
  i <= t <= i + Z.of_nat n /\ (forall j, i <= j < t -> Z.testbit w j = false) /\
  (t < i + Z.of_nat n -> Z.testbit w t = true).
Proof.
  revert i. induction n as [|n IH]; intros i; cbn [trailing_from].
  - split_and!; [lia|lia|intros; lia|lia].
  - destruct (Z.testbit w i) eqn:E.
    + split_and!; [lia|lia|intros; lia|done].
    + destruct (IH (i + 1)) as (H1 & H2 & H3). split_and!; [lia|lia| |].
      * intros j Hj. destruct (decide (j = i)) as [->|]; [done|]. apply H2. lia.
      * intros Ht. apply H3. lia.
Qed.

Lemma drop_word_bits w b :
  (b < 64)%nat ->
  drop b (word_bits w) = Z.testbit w (Z.of_nat b) :: drop (S b) (word_bits w).
Proof.
  intros Hb. apply drop_S. rewrite lookup_word_bits. by rewrite decide_True.
Qed.

(** A stretch of zero bits holds no one. *)
Lemma ones_false bs : (forall i, bs !! i <> Some true) -> ones bs = 0%nat.
Proof.
  intros H. destruct (decide (ones bs = 0%nat)) as [|Hne]; [done|].
  destruct (proj2 (ith_one_some bs 0)) as [p Hp]; [lia|].
  apply ith_one_spec in Hp as [Hp _]. by apply H in Hp.
Qed.

Lemma ith_one_skip bs k n :
  (k <= length bs)%nat -> (forall i, (i < k)%nat -> bs !! i <> Some true) ->
  ith_one bs n = Nat.add k <$> ith_one (drop k bs) n /\ ones bs = ones (drop k bs).
Proof.
  intros Hk H. assert (ones (take k bs) = 0%nat) as H0.
  { apply ones_false. intros i. destruct (decide (i < k)%nat).
    - rewrite lookup_take_lt by done. by apply H.
    - by rewrite lookup_take_ge by lia. }
  rewrite <- (take_drop k bs) at 1 3. rewrite ith_one_app, ones_app, H0.
  rewrite decide_False by lia. rewrite Nat.sub_0_r, length_take, Nat.min_l by lia. done.
Qed.

Lemma lookup_drop_word w b i :
  drop b (word_bits w) !! i =
  if decide (b + i < 64)%nat then Some (Z.testbit w (Z.of_nat b + Z.of_nat i)) else None.
Proof.
  rewrite lookup_drop, lookup_word_bits. case_decide; [|done]. do 2 f_equal. lia.
Qed.

Lemma testbit_high w i : u64 w -> 64 <= i -> Z.testbit w i = false.
Proof.
  intros [Hw1 Hw2] Hi. destruct (decide (w = 0)) as [->|]; [apply Z.bits_0|].
  apply Z.bits_above_log2; [lia|]. pose proof (Z.log2_lt_pow2 w 64). lia.
Qed.

Lemma land_1 w : Z.land w 1 = Z.b2z (Z.testbit w 0).
Proof. change 1 with (Z.ones 1) at 1. rewrite Z.land_ones by lia. by rewrite Z.bit0_mod. Qed.

Lemma land_not1 w j : 0 <= j -> Z.testbit (Z.land w (Z.lnot 1)) j = Z.testbit w j && negb (j =? 0).
Proof.
  intros Hj. rewrite Z.land_spec, Z.lnot_spec by done. f_equal.
Qed.

Lemma testbit_shifted w b i : Z.testbit w (Z.of_nat b + Z.of_nat i) = Z.testbit (Z.shiftr w (Z.of_nat b)) (Z.of_nat i).
Proof. rewrite Z.shiftr_spec by lia. f_equal. lia. Qed.

(** The distance to the next one bit above bit [b]. *)
Lemma next_one w b :
  u64 w -> (b < 64)%nat ->
  let t0 := trailing_zeros 64 (Z.land (Z.shiftr w (Z.of_nat b)) (Z.lnot 1)) in
  1 <= t0 <= 64 /\ (t0 < 64 -> Z.of_nat b + t0 < 64) /\
  forall i, Z.of_nat i + 1 < t0 -> drop (S b) (word_bits w) !! i <> Some true.
Proof.
  intros Hw Hb. set (u := Z.shiftr w (Z.of_nat b)).
  destruct (trailing_from_spec 64 0 (Z.land u (Z.lnot 1))) as (Ht1 & Ht2 & Ht3).
  intros t0. fold (trailing_zeros 64 (Z.land u (Z.lnot 1))) in Ht1, Ht2, Ht3. fold t0 in Ht1, Ht2, Ht3.
  assert (1 <= t0) as Ht.
  { destruct (decide (t0 = 0)) as [E|]; [|lia]. rewrite E, land_not1 in Ht3 by lia.
    rewrite andb_false_r in Ht3. by discriminate Ht3. }
  split_and!; [lia|lia| |].
  - intros Hlt. specialize (Ht3 ltac:(lia)). rewrite land_not1 in Ht3 by lia.
    apply andb_true_iff in Ht3 as [Ht3 _]. unfold u in Ht3. rewrite Z.shiftr_spec in Ht3 by lia.
    destruct (decide (64 <= t0 + Z.of_nat b)); [|lia]. by rewrite testbit_high in Ht3.
  - intros i Hi. rewrite lookup_drop_word. case_decide; [|done].
    replace (Z.of_nat (S b) + Z.of_nat i) with (Z.of_nat b + Z.of_nat (S i)) by lia.
    rewrite testbit_shifted. fold u. specialize (Ht2 (Z.of_nat (S i)) ltac:(lia)).
    rewrite land_not1 in Ht2 by lia. rewrite (proj2 (Z.eqb_neq _ _)) in Ht2 by lia.
    rewrite andb_true_r in Ht2. by rewrite Ht2.
Qed.

(** The answer of [select_word] on the bits [bs] that start at bit [b]. *)
Definition select_answer (b n : nat) (bs : list bool) : Z + Z :=
  match ith_one bs n with
  | Some p => inl (Z.of_nat (b + p))
  | None => inr (Z.of_nat n - Z.of_nat (ones bs))
  end.

Lemma select_answer_none b n bs :
  (forall i, bs !! i <> Some true) -> select_answer b n bs = inr (Z.of_nat n).
Proof.
  intros H. apply ones_false in H. unfold select_answer. destruct (ith_one bs n) eqn:E.
  - assert (is_Some (ith_one bs n)) as Hs by by eexists. apply ith_one_some in Hs. lia.
  - rewrite H. f_equal. lia.
Qed.

Lemma select_answer_skip b n k bs :
  (k <= length bs)%nat -> (forall i, (i < k)%nat -> bs !! i <> Some true) ->
  select_answer b n bs = select_answer (b + k) n (drop k bs).
Proof.
  intros Hk H. unfold select_answer. destruct (ith_one_skip bs k n Hk H) as [-> ->].
  destruct (ith_one (drop k bs) n); simpl; f_equal; lia.
Qed.

Lemma select_word_spec fuel w b n :
  u64 w -> (b <= 64)%nat -> (64 < fuel + b)%nat ->
  select_word fuel (Z.shiftr w (Z.of_nat b)) (Z.of_nat b) (Z.of_nat n) =
  select_answer b n (drop b (word_bits w)).
Proof.
  intros Hw. revert b n. induction fuel as [|fuel IH]; intros b n Hb Hf; [lia|].
  cbn [select_word]. set (u := Z.shiftr w (Z.of_nat b)). destruct (Z.eqb_spec u 0) as [Hu|Hu].
  { symmetry. apply select_answer_none. intros i. rewrite lookup_drop_word. case_decide; [|done].
    rewrite testbit_shifted. fold u. by rewrite Hu, Z.bits_0. }
  assert (b < 64)%nat as Hb'.
  { destruct (decide (b < 64)%nat); [done|]. exfalso. apply Hu. apply Z.bits_inj_0. intros i.
    destruct (decide (0 <= i)); [|by rewrite Z.testbit_neg_r by lia].
    unfold u. rewrite Z.shiftr_spec by lia. apply testbit_high; [done|lia]. }
  destruct (next_one w b Hw Hb') as (Ht1 & Ht2 & Hlow). fold u in Ht1, Ht2, Hlow.
  set (t0 := trailing_zeros 64 (Z.land u (Z.lnot 1))) in *.
  assert (forall m, select_word fuel (if t0 <? 64 then Z.shiftr u t0 else 0) (Z.of_nat b + t0) (Z.of_nat m)
    = select_answer (S b) m (drop (S b) (word_bits w))) as Hk.
  { intros m. destruct (Z.ltb_spec t0 64) as [Hlt|Hge].
    - unfold u. rewrite Z.shiftr_shiftr by lia.
      replace (Z.of_nat b + t0) with (Z.of_nat (b + Z.to_nat t0)) by lia.
      specialize (Ht2 Hlt). rewrite IH by lia.
      rewrite (select_answer_skip (S b) m (Z.to_nat t0 - 1)).
      + rewrite drop_drop. f_equal; [lia|f_equal; lia].
      + rewrite length_drop, word_bits_length. lia.
      + intros i Hi. apply Hlow. lia.
    - destruct fuel as [|fuel]; [lia|]. cbn [select_word]. rewrite Z.eqb_refl.
      symmetry. apply select_answer_none. intros i. destruct (decide (Z.of_nat i + 1 < t0)); [by apply Hlow|].
      rewrite lookup_drop_word. by rewrite decide_False by lia. }
  rewrite land_1, drop_word_bits by done.
  replace (Z.testbit u 0) with (Z.testbit w (Z.of_nat b))
    by (unfold u; rewrite Z.shiftr_spec by lia; f_equal; lia).
  unfold select_answer. destruct (Z.testbit w (Z.of_nat b)); cbn [Z.b2z ith_one].
  - destruct n as [|n]; [rewrite Nat.add_0_r; done|].
    rewrite (proj2 (Z.ltb_ge _ _)) by lia.
    replace (Z.of_nat (S n) - 1) with (Z.of_nat n) by lia. rewrite Hk. unfold select_answer.
    change (ones (true :: drop (S b) (word_bits w))) with (S (ones (drop (S b) (word_bits w)))).
    destruct (ith_one (drop (S b) (word_bits w)) n); simpl; f_equal; lia.
  - rewrite Z.sub_0_r. rewrite (proj2 (Z.ltb_ge _ _)) by lia. rewrite Hk. unfold select_answer.
    change (ones (false :: drop (S b) (word_bits w))) with (ones (drop (S b) (word_bits w))).
    destruct (ith_one (drop (S b) (word_bits w)) n); simpl; f_equal; lia.
Qed.

Lemma select_words_spec ws i n p :
  Forall u64 ws -> 0 <= i -> ith_one (bm_bits ws) n = Some p ->
  select_words ws i (Z.of_nat n) = Ok (64 * i + Z.of_nat p).
Proof.
  intros Hws. revert i n p. induction Hws as [|w ws Hw _ IH]; intros i n p Hi H; [done|].
  rewrite bm_bits_cons, ith_one_app in H. cbn [select_words].
  pose proof (select_word_spec 65 w 0 n Hw ltac:(lia) ltac:(lia)) as E.
  change (Z.of_nat 0) with 0 in E. rewrite Z.shiftr_0_r, drop_0 in E. rewrite E. clear E.
  unfold select_answer. rewrite Z.shiftl_mul_pow2 by lia. change (2 ^ 6) with 64.
  destruct (decide (n < ones (word_bits w))%nat) as [Hlt|Hge].
  - rewrite H. f_equal. lia.
  - apply fmap_Some in H as (q & Hq & ->). rewrite word_bits_length.
    destruct (ith_one (word_bits w) n) eqn:En.
    { assert (is_Some (ith_one (word_bits w) n)) as Hs by by eexists. by apply ith_one_some in Hs. }
    replace (Z.of_nat n - Z.of_nat (ones (word_bits w))) with (Z.of_nat (n - ones (word_bits w))) by lia.
    rewrite (IH _ _ q) by (done || lia). f_equal. lia.
Qed.

Lemma bm_bits_split bm k : bm_bits bm = bm_bits (take k bm) ++ bm_bits (drop k bm).
Proof. by rewrite <- bm_bits_app, take_drop. Qed.

Lemma clear_low6 p : 0 <= p -> Z.shiftr (Z.land p (Z.lnot 63)) 6 = Z.shiftr p 6.
Proof.
  intros Hp. apply Z.bits_inj'. intros i Hi. rewrite !Z.shiftr_spec, Z.land_spec, Z.lnot_spec by lia.
  rewrite (Z.bits_above_log2 63) by (try (change (Z.log2 63) with 5); lia). by rewrite andb_true_r.
Qed.

Lemma select_ith_one_ok bm ranks selects i p :
  indexed bm ranks selects -> Forall u64 bm -> ith_one (bm_bits bm) i = Some p ->
  select_ith_one bm ranks selects (Z.of_nat i) = Ok (Z.of_nat p).
Proof.
  intros [Hr Hs] Hbm Hp.
  assert (i < ones (bm_bits bm))%nat as Hi by (apply ith_one_some; by eexists).
  pose proof (Nat.div_mod i 64 ltac:(lia)) as Hdm.
  destruct (Hs (i / 64)%nat ltac:(lia)) as (q & Hq & Hsel).
  apply ith_one_spec in Hq as [Hq1 Hq2]. set (k := (q / 64)%nat).
  pose proof (Nat.div_mod q 64 ltac:(lia)) as Hdq. fold k in Hdq.
  assert (q < 64 * length bm)%nat as Hqlt by (apply lookup_lt_Some in Hq1; by rewrite bm_bits_length in Hq1).
  assert (k < length bm)%nat as Hk by (unfold k; apply Nat.Div0.div_lt_upper_bound; lia).
  assert (length (bm_bits (take k bm)) = (64 * k)%nat) as Hlen by (rewrite bm_bits_length, length_take; lia).
  assert (ones (bm_bits (take k bm)) <= i)%nat as Hle.
  { rewrite (bm_bits_split bm k), take_app_ge in Hq2 by lia. rewrite ones_app in Hq2. lia. }
  unfold select_ith_one.
  rewrite (zidx_nat selects _ (Z.of_nat q)) by
    (try apply Z.shiftr_nonneg; try lia; by rewrite shiftr6, Nat2Z.id by lia). rstep.
  rewrite clear_low6 by lia.
  assert (0 <= Z.shiftr (Z.of_nat q) 6) as Hsr by (apply Z.shiftr_nonneg; lia).
  assert (Z.to_nat (Z.shiftr (Z.of_nat q) 6) = k) as Ek by (rewrite shiftr6, Nat2Z.id by lia; done).
  rewrite (zidx_nat ranks _ (Z.of_nat (ones (bm_bits (take k bm))))) by
    (try done; rewrite Ek; apply Hr; lia). rstep.
  rewrite Ek. rewrite (bm_bits_split bm k), ith_one_app, decide_False in Hp by lia.
  apply fmap_Some in Hp as (x & Hx & ->).
  replace (Z.of_nat i - Z.of_nat (ones (bm_bits (take k bm))))
    with (Z.of_nat (i - ones (bm_bits (take k bm)))) by lia.
  rewrite (select_words_spec _ _ _ x); [|by apply Forall_drop|done|done].
  f_equal. rewrite Hlen. lia.
Qed.

(** ** Building the indexes *)
Lemma arith_i32_ok oc z : - 2 ^ 31 <= z < 2 ^ 31 -> arith_i32 oc z = Ok z.
Proof. intros. unfold arith_i32. by rewrite bool_decide_true. Qed.

Lemma init_ranks_ok oc bm acc r :
  last acc = Some r -> 0 <= r -> r + Z.of_nat (ones (bm_bits bm)) < 2 ^ 31 ->
  exists rs, res_fold (fun ranks w => r ← arith_i32 oc (default 0 (last ranks) + count_ones w);
                                     Ok (ranks ++ [r])) acc bm = Ok (acc ++ rs) /\
    length rs = length bm /\
    forall k, (k < length bm)%nat -> rs !! k = Some (r + Z.of_nat (ones (bm_bits (take (S k) bm)))).
Proof.
  revert acc r. induction bm as [|w bm IH]; intros acc r Hl Hr Hb; cbn [res_fold].
  { exists []. rewrite app_nil_r. split_and!; [done|done|]. simpl. intros; lia. }
  rewrite bm_bits_cons, ones_app in Hb. rewrite Hl. simpl default. rewrite count_ones_spec.
  rewrite (arith_i32_ok oc (r + _)) by lia. rstep.
  destruct (IH (acc ++ [r + Z.of_nat (ones (word_bits w))]) (r + Z.of_nat (ones (word_bits w))))
    as (rs & E & Hlen & Hk); [by rewrite last_snoc|lia|lia|].
  rewrite E, <- app_assoc. eexists. split; [done|].
  split; [simpl; lia|]. intros [|k] Hlt.
  - cbn [take]. rewrite bm_bits_cons, ones_app. change (ones (bm_bits [])) with 0%nat.
    by rewrite Nat.add_0_r.
  - simpl lookup. rewrite Hk by (simpl in Hlt; lia). f_equal.
    rewrite (firstn_cons (S k)), bm_bits_cons, ones_app. lia.
Qed.

Definition sel_step (bm : list Z) : Z * list Z -> Z -> Z * list Z :=
  fun '(n, sel) i =>
     match zget bm (Z.shiftr i 6) with
     | None => (n, sel)
     | Some w =>
       if Z.land (Z.shiftr w (Z.land i 63)) 1 =? 1 then
         (n + 1, if Z.land n 63 =? 0 then sel ++ [as_i32 i] else sel)
       else (n, sel)
     end.

Lemma zget_bit bm i :
  (i < 64 * length bm)%nat ->
  exists w, zget bm (Z.shiftr (Z.of_nat i) 6) = Some w /\
    bm_bits bm !! i = Some (Z.land (Z.shiftr w (Z.land (Z.of_nat i) 63)) 1 =? 1).
Proof.
  intros Hi. pose proof (Nat.div_mod i 64 ltac:(lia)) as Hdm.
  assert (i / 64 < length bm)%nat as Hk by (apply Nat.Div0.div_lt_upper_bound; lia).
  assert (i mod 64 < 64)%nat as Hm by (apply Nat.mod_upper_bound; lia).
  destruct (lookup_lt_is_Some_2 bm (i / 64) Hk) as [w Hw]. exists w. split.
  - unfold zget. rewrite bool_decide_true by (apply Z.shiftr_nonneg; lia).
    by rewrite shiftr6, Nat2Z.id by lia.
  - rewrite <- (take_drop_middle bm (i / 64) w Hw) at 1. rewrite bm_bits_app, bm_bits_cons.
    assert (length (bm_bits (take (i / 64) bm)) = (64 * (i / 64))%nat) as Hlen
      by (rewrite bm_bits_length, length_take; lia).
    rewrite lookup_app_r by lia. rewrite lookup_app_l by (rewrite word_bits_length; lia).
    rewrite lookup_word_bits, Hlen, decide_True by lia. f_equal.
    rewrite land_1, land63, Nat2Z.id by lia. rewrite Z.shiftr_spec by lia.
    replace (0 + Z.of_nat (i mod 64)) with (Z.of_nat (i - 64 * (i / 64))) by lia.
    by destruct (Z.testbit w _).
Qed.

(** After the first [n] bits: the count of ones, and the position of every
    64th of them. *)
Lemma sel_fold bm n :
  (n <= 64 * length bm)%nat -> 64 * zlen bm < 2 ^ 31 ->
  exists sel, foldl (sel_step bm) (0, []) (seqZ 0 (Z.of_nat n)) =
      (Z.of_nat (ones (take n (bm_bits bm))), sel) /\
    (64 * length sel < ones (take n (bm_bits bm)) + 64 /\ ones (take n (bm_bits bm)) <= 64 * length sel)%nat /\
    forall m, (m < length sel)%nat -> exists p, ith_one (bm_bits bm) (64 * m) = Some p /\ sel !! m = Some (Z.of_nat p).
Proof.
  intros Hn Hlen. unfold zlen in Hlen. induction n as [|n IH].
  { exists []. rewrite take_0. change (ones []) with 0%nat.
    split_and!; [done|simpl; lia|simpl; lia|simpl; intros; lia]. }
  destruct IH as (sel & E & [Hl1 Hl2] & Hm); [lia|].
  rewrite seqZ_S. rewrite foldl_app, E. cbn [foldl].
  destruct (zget_bit bm n ltac:(lia)) as (w & Hw & Hb). rewrite Z.add_0_l.
  unfold sel_step. rewrite Hw. rewrite (take_S_r _ _ _ Hb). set (o := ones (take n (bm_bits bm))) in *.
  destruct (Z.land (Z.shiftr w (Z.land (Z.of_nat n) 63)) 1 =? 1) eqn:Eb.
  2: { exists sel. rewrite ones_app. change (ones [false]) with 0%nat. fold o. rewrite Nat.add_0_r. done. }
  rewrite ones_app. change (ones [true]) with 1%nat. fold o.
  rewrite land63, Nat2Z.id by lia. pose proof (Nat.div_mod o 64 ltac:(lia)) as Hdm.
  assert (o mod 64 < 64)%nat by (apply Nat.mod_upper_bound; lia).
  destruct (Z.eqb_spec (Z.of_nat (o mod 64)) 0) as [E0|E0].
  - assert (o = (64 * length sel)%nat) as Eo by lia.
    exists (sel ++ [as_i32 (Z.of_nat n)]). rewrite length_app. simpl length.
    split_and!; [f_equal; lia|lia|lia|]. intros m Hlt.
    destruct (decide (m < length sel)%nat) as [Hs|Hs].
    + rewrite lookup_app_l by done. by apply Hm.
    + assert (m = length sel) as -> by lia. rewrite list_lookup_middle by done.
      exists n. rewrite as_i32_small by lia. split; [|done]. apply ith_one_spec. split; [done|]. fold o. lia.
  - exists sel. split_and!; [f_equal; lia|lia|lia|done].
Qed.

Lemma init_indexed oc s :
  Forall u64 (label_bit_map s) -> 64 * zlen (label_bit_map s) < 2 ^ 31 ->
  exists s', init oc s = Ok s' /\ leaves s' = leaves s /\ labels s' = labels s /\
    label_bit_map s' = label_bit_map s /\ indexed (label_bit_map s) (ranks s') (selects s').
Proof.
  intros Hbm Hlen. unfold init, init_ranks. set (bm := label_bit_map s) in *.
  pose proof (ones_le (bm_bits bm)) as Ho. rewrite bm_bits_length in Ho.
  destruct (init_ranks_ok oc bm [0] 0) as (rs & -> & Hrl & Hrk); [done|lia|unfold zlen in *; lia|]. rstep.
  eexists. split; [done|]. split_and!; [done..|]. simpl ranks. simpl selects. split.
  - intros [|k] Hk; [done|]. simpl lookup. rewrite Hrk by lia. f_equal; lia.
  - intros m Hm. destruct (sel_fold bm (64 * length bm)) as (sel & E & [_ Hl] & Hsel); [lia|done|].
    unfold init_selects. unfold zlen. replace (64 * Z.of_nat (length bm)) with (Z.of_nat (64 * length bm)) by lia.
    fold (sel_step bm). rewrite E. simpl snd. apply Hsel.
    rewrite take_ge in Hl by (rewrite bm_bits_length; lia). lia.
Qed.

(** * Theorems *)

(** The rank and select indexes are exact.  For a bitmap of 64-bit words
    with fewer than 2^31 bits, loading a set builds indexes with which
    [count_zeros] returns the number of zero bits before a position and
    [select_ith_one] the position of the i-th one bit: the one bit there,
    with exactly [i] ones before it. *)
Theorem domain_set_index_exact (oc : bool) (lv bm lb : list Z)
    (Hbm : Forall u64 bm) (Hlen : 64 * zlen bm < 2 ^ 31) :
  exists s, from_mrs_parts oc lv bm lb = Ok s /\
    label_bit_map s = bm /\ leaves s = lv /\ labels s = lb /\
    (forall i, 0 <= i < 64 * zlen bm ->
       count_zeros oc bm (ranks s) i = Ok (Z.of_nat (zeros (take (Z.to_nat i) (bm_bits bm))))) /\
    (forall i, (i < ones (bm_bits bm))%nat ->
       exists p, select_ith_one bm (ranks s) (selects s) (Z.of_nat i) = Ok (Z.of_nat p) /\
         bm_bits bm !! p = Some true /\ ones (take p (bm_bits bm)) = i).
Proof.
  destruct (init_indexed oc {| leaves := lv; label_bit_map := bm; labels := lb; ranks := [];
    selects := [] |} Hbm Hlen) as (s & E & Hlv & Hlb & Hb & Hix). simpl in *.
  exists s. split; [exact E|]. split_and!; [done..| |].
  - intros i Hi. apply (count_zeros_ok _ _ _ _ _ Hix Hi). lia.
  - intros i Hi. apply ith_one_some in Hi as [p Hp]. exists p.
    split; [by apply select_ith_one_ok|]. by apply ith_one_spec.
Qed.

Lemma domain_set_index_exact_witness :
  exists s, from_mrs_parts true [] [0x5a] [] = Ok s /\
    exists p, select_ith_one [0x5a] (ranks s) (selects s) (Z.of_nat 2) = Ok (Z.of_nat p).
Proof.
  destruct (domain_set_index_exact true [] [0x5a] []) as (s & E & _ & _ & _ & _ & H).
  - repeat constructor; discriminate.
  - reflexivity.
  - exists s. split; [exact E|]. destruct (H 2%nat) as (p & Hp & _); [vm_compute; repeat constructor|].
    exists p. exact Hp.
Defined.

(** An empty domain set cannot be built.  Converting a trie that holds no
    entry (an empty list, or a list of invalid patterns only) indexes the
    first of no keys and panics. *)
Theorem domain_set_empty_panics {T : Type} (oc : bool) (t : StringTrie T)
    (Hempty : trie_entries t = []) :
  domain_set_from oc t = Some Panic.
Proof. unfold domain_set_from, trie_keys. by rewrite Hempty. Qed.

Lemma domain_set_empty_panics_witness :
  domain_set_from true (build [(lit "invalid..pattern", true)]) = Some Panic.
Proof. apply domain_set_empty_panics. vm_compute. reflexivity. Defined.

(** The set built from the patterns of a list, and its answer for a domain. *)
Definition set_answer (pats : list str) (dom : str) : option (res bool) :=
  match domain_set_from true (build ((fun p => (p, true)) <$> pats)) with
  | Some (Ok s) => has true 1000 s dom
  | _ => None
  end.

(** A domain set can miss a domain its trie matches.  With the patterns
    [*.a] and [b.c.a], the trie matches [c.a] through [*.a], but the set
    answers no: the key ends inside the branch of [b.c.a] and the wildcard
    remembered on the stack is not tried. *)
Theorem domain_set_misses_wildcard :
  let pats := [lit "*.a"; lit "b.c.a"] in
  is_Some (trie_search (build ((fun p => (p, true)) <$> pats)) (lit "c.a")) /\
  set_answer pats (lit "c.a") = Some (Ok false) /\ set_answer pats (lit "x.a") = Some (Ok true).
Proof. split_and!; [by eexists; vm_compute|by vm_compute|by vm_compute]. Qed.
