(* ===== verification/Mrs.v ===== *)
(** * Binary rule sets ([rule_provider/mrs.rs], [rule_provider/cidr_trie.rs])

    The MRS container is a zstd stream with a fixed header and a payload: a
    succinct domain set, or a list of address ranges that are split into
    CIDR blocks and put into a longest-prefix-match table.  The splitting is
    shown to cover each range exactly. *)

From S2P Require Import Prelude Str Net Session Trie Geo Router SuccinctSet.

(* @src clash-lib/src/app/remote_content_manager/providers/rule_provider/provider.rs ~pub enum RuleSetBehavior~ RuleSetBehavior *)
Inductive RuleSetBehavior : Type := BDomain | BIpcidr | BClassical.
#[global] Instance behavior_eq_dec : EqDecision RuleSetBehavior.
Proof. solve_decision. Defined.

(** [ip_network_table_deps_treebitmap::IpLookupTable] for addresses of a
    given width: entries are an address and a mask length, a lookup finds the
    longest entry that contains an address. *)
Class LpmLib : Type := {
  lpm : Z -> Type;
  lpm_new : forall w, lpm w;
  lpm_insert : forall w, lpm w -> Z -> Z -> lpm w;
  lpm_longest_match : forall w, lpm w -> Z -> option (Z * Z);
}.
Arguments lpm_new {_}.
Arguments lpm_insert {_ w}.
Arguments lpm_longest_match {_ w}.

(** zstd decompression of the whole stream. *)
Class ZstdLib : Type := { zstd_decode : list Z -> option (list Z) }.

Section cidr_trie.
Context {NL : IpNetLib} {LP : LpmLib}.

(* @src clash-lib/src/app/remote_content_manager/providers/rule_provider/cidr_trie.rs ~pub struct CidrTrie~ CidrTrie *)
Record CidrTrie : Type := { ct_v4 : lpm 32; ct_v6 : lpm 128 }.
(* @src clash-lib/src/app/remote_content_manager/providers/rule_provider/cidr_trie.rs ~pub fn new~ CidrTrie::new *)
Definition cidr_trie_new : CidrTrie := {| ct_v4 := lpm_new 32; ct_v6 := lpm_new 128 |}.

(** [trunc().addr()] is the first address of the block. *)
(* @src clash-lib/src/app/remote_content_manager/providers/rule_provider/cidr_trie.rs ~pub fn insert~ CidrTrie::insert *)
Definition cidr_trie_insert (t : CidrTrie) (cidr : str) : bool * CidrTrie :=
  match ipnet_parse cidr with
  | Some n =>
    match ipnet_network n with
    | V4 a => (true, {| ct_v4 := lpm_insert (ct_v4 t) a (ipnet_prefix_len n); ct_v6 := ct_v6 t |})
    | V6 a => (true, {| ct_v4 := ct_v4 t; ct_v6 := lpm_insert (ct_v6 t) a (ipnet_prefix_len n) |})
    end
  | None => (false, t)
  end.

(* @src clash-lib/src/app/remote_content_manager/providers/rule_provider/cidr_trie.rs ~pub fn contains~ CidrTrie::contains *)
Definition cidr_trie_contains (t : CidrTrie) (ip : IpAddr) : bool :=
  match ip with
  | V4 a => bool_decide (is_Some (lpm_longest_match (ct_v4 t) a))
  | V6 a => bool_decide (is_Some (lpm_longest_match (ct_v6 t) a))
  end.
End cidr_trie.

(** What a provider holds; the rules of a classical provider cannot be rule
    sets themselves, so their provider type is empty. *)
(* @src clash-lib/src/app/remote_content_manager/providers/rule_provider/provider.rs ~pub enum RuleContent~ RuleContent *)
Inductive RuleContent {RX : RegexLib} {NL : IpNetLib} {LP : LpmLib} : Type :=
| RcDomain (set : DomainSet)
| RcIpcidr (trie : CidrTrie)
| RcClassical (rules : list (Rule Empty_set)).

(** ** Ranges to CIDR blocks *)
(** [leading_zeros] of a [w]-bit value. *)
Definition leading_zeros (w z : Z) : Z := if z =? 0 then w else w - 1 - Z.log2 z.

Section ranges.
Context {NL : IpNetLib}.
(** Overflow checks of the build. *)
Context (oc : bool).

(** One block of the v4 loop: the block's size in bits. *)
(* @src clash-lib/src/app/remote_content_manager/providers/rule_provider/mrs.rs 299 314 range_to_cidrs_v4 (block size) *)
Definition block_bits_v4 (current end_u32 : Z) : res Z :=
  let tz := if current =? 0 then 32 else trailing_zeros 32 current in
  d ← arith oc 32 (end_u32 - current);
  remaining_ips ← arith oc 32 (d + 1);
  max_bits ← arith oc 32 (31 - leading_zeros 32 remaining_ips);
  Ok (Z.min tz max_bits).

(** The loop; [None] is running out of fuel. *)
(* @src clash-lib/src/app/remote_content_manager/providers/rule_provider/mrs.rs ~^fn range_to_cidrs_v4~ range_to_cidrs_v4 *)
Fixpoint cidrs_v4_loop (fuel : nat) (current end_u32 : Z) (result : list IpNet) :
    option (res (list IpNet)) :=
  match fuel with
  | O => None
  | S fuel' =>
    if current <=? end_u32 then
      match
        block_size_bits ← block_bits_v4 current end_u32;
        prefix_len ← arith oc 32 (32 - block_size_bits);
        cidr ← ipnet_new (V4 current) (wrap 8 prefix_len);
        block_size ← shl oc 64 1 block_size_bits;
        next ← arith oc 64 (current + block_size);
        Ok (cidr, next)
      with
      | Ok (cidr, next) =>
        if (end_u32 <? next) || (2 ^ 32 - 1 <? next) then Some (Ok (result ++ [cidr]))
        else cidrs_v4_loop fuel' (wrap 32 next) end_u32 (result ++ [cidr])
      | Err e => Some (Err e)
      | Panic => Some Panic
      end
    else Some (Ok result)
  end.

(* @src clash-lib/src/app/remote_content_manager/providers/rule_provider/mrs.rs 341 356 range_to_cidrs_v6 (block size) *)
Definition block_bits_v6 (current end_u128 : Z) : res Z :=
  let tz := if current =? 0 then 128 else trailing_zeros 128 current in
  d ← arith oc 128 (end_u128 - current);
  remaining_ips ← arith oc 128 (d + 1);
  max_bits ← arith oc 32 (127 - leading_zeros 128 remaining_ips);
  Ok (Z.min tz max_bits).

(** [debug_assert!] is checked in the same builds as overflows. *)
(* @src clash-lib/src/app/remote_content_manager/providers/rule_provider/mrs.rs ~^fn range_to_cidrs_v6~ range_to_cidrs_v6 *)
Fixpoint cidrs_v6_loop (fuel : nat) (current end_u128 : Z) (result : list IpNet) :
    option (res (list IpNet)) :=
  match fuel with
  | O => None
  | S fuel' =>
    if current <=? end_u128 then
      match
        block_size_bits ← block_bits_v6 current end_u128;
        prefix_len ← arith oc 32 (128 - block_size_bits);
        cidr ← ipnet_new (V6 current) (wrap 8 prefix_len);
        _ ← (if oc && negb (block_size_bits <? 128) then Panic else Ok tt);
        block_size ← shl oc 128 1 block_size_bits;
        Ok (cidr, block_size)
      with
      | Ok (cidr, block_size) =>
        let next := current + block_size in
        if (next <? 2 ^ 128) && (next <=? end_u128)
        then cidrs_v6_loop fuel' next end_u128 (result ++ [cidr])
        else Some (Ok (result ++ [cidr]))
      | Err e => Some (Err e)
      | Panic => Some Panic
      end
    else Some (Ok result)
  end.

(* @src clash-lib/src/app/remote_content_manager/providers/rule_provider/mrs.rs ~let normalize = ~ range_to_cidrs (normalize) *)
Definition normalize (ip : IpAddr) : IpAddr :=
  match ip with
  | V6 a => match to_ipv4_mapped a with Some b => V4 b | None => V6 a end
  | V4 a => V4 a
  end.

(** Enough rounds for any range: the block size first grows, then shrinks. *)
Definition V4_FUEL : nat := 66.
Definition V6_FUEL : nat := 300.

(* @src clash-lib/src/app/remote_content_manager/providers/rule_provider/mrs.rs ~^fn range_to_cidrs\(~ range_to_cidrs *)
Definition range_to_cidrs (start end_ : IpAddr) : option (res (list IpNet)) :=
  if ip_ltb end_ start then Some (Ok [])
  else match normalize start, normalize end_ with
       | V4 s, V4 e => cidrs_v4_loop V4_FUEL s e []
       | V6 s, V6 e => cidrs_v6_loop V6_FUEL s e []
       | _, _ => Some (Err "Start and end IP addresses must be of the same family")
       end.
End ranges.

(** * Exact cover *)

(** [tiles c e bs]: the aligned blocks [bs], each a start and a size in bits,
    cover the addresses from [c] to [e] one after the other, exactly. *)
Fixpoint tiles (c e : Z) (bs : list (Z * Z)) : Prop :=
  match bs with
  | [] => c = e + 1
  | (a, k) :: bs' => a = c /\ 0 <= k /\ (2 ^ k | a) /\ tiles (c + 2 ^ k) e bs'
  end.

Lemma tiles_le c e bs : tiles c e bs -> c <= e + 1.
Proof.
  revert c. induction bs as [|[a k] bs IH]; intros c; simpl; [lia|].
  intros (-> & Hk & _ & H). apply IH in H. pose proof (Z.pow_pos_nonneg 2 k). lia.
Qed.

Lemma tiles_cover c e bs x :
  tiles c e bs -> c <= x <= e <-> exists a k, (a, k) ∈ bs /\ a <= x < a + 2 ^ k.
Proof.
  revert c. induction bs as [|[a k] bs IH]; intros c; simpl.
  - intros ->. split; [lia|]. intros (? & ? & H & _). by apply elem_of_nil in H.
  - intros (-> & Hk & _ & H). pose proof (tiles_le _ _ _ H). pose proof (Z.pow_pos_nonneg 2 k).
    specialize (IH _ H). split.
    + intros Hx. destruct (decide (x < c + 2 ^ k)).
      * exists c, k. split; [by left|lia].
      * destruct (proj1 IH ltac:(lia)) as (a' & k' & ? & ?). exists a', k'. split; [by right|done].
    + intros (a' & k' & Hin & Hx). apply elem_of_cons in Hin as [?|Hin]; [simplify_eq; lia|].
      assert (c + 2 ^ k <= x <= e) by (apply IH; by exists a', k'). lia.
Qed.

Lemma tiles_aligned c e bs a k : tiles c e bs -> (a, k) ∈ bs -> 0 <= k /\ (2 ^ k | a).
Proof.
  revert c. induction bs as [|[a' k'] bs IH]; intros c; simpl; [by intros _ H%elem_of_nil|].
  intros (-> & Hk & Hd & H) [?|Hin]%elem_of_cons; [by simplify_eq|]. by eapply IH.
Qed.

(** ** Trailing zeros *)
Section trailing.
Context (n : nat) (c : Z) (Hc : 0 < c < 2 ^ Z.of_nat n).

Lemma tz_bit : trailing_zeros n c < Z.of_nat n /\ Z.testbit c (trailing_zeros n c) = true /\
  0 <= trailing_zeros n c.
Proof.
  destruct (trailing_from_spec n 0 c) as (H1 & H2 & H3).
  fold (trailing_zeros n c) in H1, H2, H3. set (t := trailing_zeros n c) in *.
  destruct (decide (t < Z.of_nat n)) as [Hlt|Hge]; [split_and!; [done|apply H3; lia|lia]|].
  exfalso. assert (Z.testbit c (Z.log2 c) = true) as Hb by (apply Z.bit_log2; lia).
  rewrite H2 in Hb; [done|]. pose proof (Z.log2_nonneg c). pose proof (Z.log2_lt_pow2 c (Z.of_nat n)). lia.
Qed.

Lemma div_bits m : 0 <= m -> (2 ^ m | c) <-> forall j, 0 <= j < m -> Z.testbit c j = false.
Proof.
  intros Hm. rewrite <- Z.mod_divide by (apply Z.pow_nonzero; lia).
  rewrite <- Z.land_ones by done. split.
  - intros H j Hj. assert (Z.testbit (Z.land c (Z.ones m)) j = false) as E by (rewrite H; apply Z.bits_0).
    rewrite Z.land_spec, Z.ones_spec_low, andb_true_r in E by lia. done.
  - intros H. apply Z.bits_inj_0. intros j. rewrite Z.land_spec.
    destruct (decide (j < 0)); [by rewrite Z.testbit_neg_r by lia|].
    destruct (decide (j < m)); [rewrite H by lia; done|]. rewrite Z.ones_spec_high by lia.
    by rewrite andb_false_r.
Qed.

Lemma tz_div : (2 ^ trailing_zeros n c | c).
Proof.
  destruct (trailing_from_spec n 0 c) as (H1 & H2 & H3). apply div_bits; [apply H1|].
  intros j Hj. by apply H2.
Qed.

Lemma tz_ge m : 0 <= m -> (2 ^ m | c) -> m <= trailing_zeros n c.
Proof.
  intros Hm Hd. destruct tz_bit as (_ & Hb & H0).
  destruct (decide (m <= trailing_zeros n c)); [done|]. exfalso.
  rewrite (proj1 (div_bits m Hm) Hd) in Hb; [done|lia].
Qed.
End trailing.

(** The sum of an odd multiple of [2^t] and [2^t] is a multiple of [2^(t+1)]. *)
Lemma carry_div c t :
  0 <= t -> (2 ^ t | c) -> Z.testbit c t = true -> (2 ^ (t + 1) | c + 2 ^ t).
Proof.
  intros Ht [q ->] Hb. rewrite Z.mul_pow2_bits, Z.sub_diag in Hb by lia.
  rewrite Z.bit0_odd in Hb. apply Z.odd_spec in Hb as [m ->]. exists (m + 1).
  rewrite Z.pow_add_r by lia. lia.
Qed.

(** ** The block size and the progress of the loop *)
Section block.
Context (n : nat).
Let w := Z.of_nat n.

Definition align (c : Z) : Z := if c =? 0 then w else trailing_zeros n c.
Definition block_bits (c e : Z) : Z := Z.min (align c) (Z.log2 (e - c + 1)).

(** Rounds left: the alignment grows until the block is limited by the end of
    the range, and then shrinks. *)
Definition rounds (c e : Z) : Z :=
  if align c <=? Z.log2 (e - c + 1) then 2 * w + 1 - align c else Z.log2 (e - c + 1) + 1.

Context (c e : Z) (Hc : 0 <= c <= e) (He : e < 2 ^ w) (Hfull : e - c + 1 < 2 ^ w).

Lemma log_lt : 0 <= Z.log2 (e - c + 1) < w.
Proof. split; [apply Z.log2_nonneg|]. apply Z.log2_lt_pow2; lia. Qed.

Lemma align_nonneg : 0 <= align c <= w /\ (2 ^ align c | c).
Proof.
  unfold align. destruct (Z.eqb_spec c 0) as [E|].
  - split; [pose proof log_lt; lia|]. rewrite E. apply Z.divide_0_r.
  - destruct (tz_bit n c ltac:(fold w; lia)) as (? & _ & ?). split; [lia|]. apply tz_div.
Qed.

Lemma block_ok :
  let k := block_bits c e in 0 <= k < w /\ (2 ^ k | c) /\ c + 2 ^ k <= e + 1.
Proof.
  intros k. pose proof log_lt as Hl. destruct align_nonneg as [Ha Hd].
  assert (0 <= k <= Z.log2 (e - c + 1) /\ k <= align c) as [Hk1 Hk2] by (unfold k, block_bits; lia).
  split; [lia|]. split.
  - etrans; [|exact Hd]. exists (2 ^ (align c - k)). rewrite <- Z.pow_add_r by lia. f_equal. lia.
  - assert (2 ^ k <= 2 ^ Z.log2 (e - c + 1)) by (apply Z.pow_le_mono_r; lia).
    pose proof (Z.log2_spec (e - c + 1)). lia.
Qed.

Lemma rounds_pos : 1 <= rounds c e <= 2 * w + 1.
Proof.
  pose proof log_lt. destruct align_nonneg. unfold rounds. destruct (Z.leb_spec (align c) (Z.log2 (e - c + 1))); lia.
Qed.

Lemma rounds_decrease :
  let c' := c + 2 ^ block_bits c e in c' <= e -> rounds c' e < rounds c e.
Proof.
  intros c' Hc'. destruct block_ok as (Hk & Hd & Hle). pose proof log_lt as Hl.
  pose proof (Z.pow_pos_nonneg 2 (block_bits c e)) as Hp.
  assert (0 < c' < 2 ^ w) as Hr by lia.
  assert (forall m, 0 <= m -> (2 ^ m | c') -> m <= align c') as Hge.
  { intros m Hm H. unfold align. rewrite (proj2 (Z.eqb_neq _ _)) by lia. apply tz_ge; [fold w; lia|done|done]. }
  assert (Z.log2 (e - c' + 1) < w) as Hl' by (apply Z.log2_lt_pow2; lia).
  pose proof (Z.log2_nonneg (e - c' + 1)).
  unfold rounds. destruct (Z.leb_spec (align c) (Z.log2 (e - c + 1))) as [H1|H1].
  - (** limited by the alignment *)
    assert (c <> 0) as Hc0 by (intros E; unfold align in H1; rewrite E in H1; simpl in H1; rewrite E in Hl; lia).
    assert (block_bits c e = trailing_zeros n c) as Eb.
    { unfold block_bits, align in *. rewrite (proj2 (Z.eqb_neq c 0)) in * by done. lia. }
    destruct (tz_bit n c ltac:(fold w; lia)) as (_ & Hb & ?).
    assert (align c = trailing_zeros n c) as Ea by (unfold align; by rewrite (proj2 (Z.eqb_neq c 0))).
    assert (trailing_zeros n c + 1 <= align c') as Hgt.
    { apply Hge; [lia|]. unfold c'. rewrite Eb. apply carry_div; [lia|apply tz_div|done]. }
    destruct (Z.leb_spec (align c') (Z.log2 (e - c' + 1))); lia.
  - (** limited by the end *)
    assert (block_bits c e = Z.log2 (e - c + 1)) as Eb by (unfold block_bits; lia).
    pose proof (Z.log2_spec (e - c + 1) ltac:(lia)) as [_ Hs].
    assert (Z.log2 (e - c' + 1) < Z.log2 (e - c + 1)) as Hlt.
    { apply Z.log2_lt_pow2; [lia|]. unfold c'. rewrite Eb.
      rewrite Z.pow_succ_r in Hs by lia. lia. }
    assert (Z.log2 (e - c + 1) <= align c').
    { apply Hge; [lia|]. unfold c'. rewrite Eb in *. apply Z.divide_add_r; [done|reflexivity]. }
    destruct (Z.leb_spec (align c') (Z.log2 (e - c' + 1))); lia.
Qed.
End block.

(** ** The two loops *)
Section loops.
Context {NL : IpNetLib} {NLaws : IpNetLaws NL} (oc : bool).

(** The network of a block of [k] bits at [a]. *)
Definition net_is (mk : Z -> IpAddr) (n : IpNet) (b : Z * Z) : Prop :=
  ipnet_addr n = mk b.1 /\ ipnet_prefix_len n = ip_width (mk b.1) - b.2.

Lemma leading_log w r : 0 < r -> w - 1 - leading_zeros w r = Z.log2 r.
Proof. intros Hr. unfold leading_zeros. rewrite (proj2 (Z.eqb_neq _ _)) by lia. lia. Qed.

Lemma block_bits_v4_ok c e :
  0 <= c <= e -> e < 2 ^ 32 -> e - c + 1 < 2 ^ 32 ->
  block_bits_v4 oc c e = Ok (block_bits 32 c e).
Proof.
  intros Hc He Hf. unfold block_bits_v4.
  rewrite (arith_ok oc 32 (e - c)) by (unfold in_width; lia). rstep.
  rewrite arith_ok by (unfold in_width; lia). rstep.
  pose proof (log_lt 32 c e Hc Hf) as Hl. change (31 - leading_zeros 32 (e - c + 1))
    with (32 - 1 - leading_zeros 32 (e - c + 1)). rewrite leading_log by lia.
  rewrite arith_ok by (unfold in_width; lia). rstep. done.
Qed.

Lemma block_bits_v6_ok c e :
  0 <= c <= e -> e < 2 ^ 128 -> e - c + 1 < 2 ^ 128 ->
  block_bits_v6 oc c e = Ok (block_bits 128 c e).
Proof.
  intros Hc He Hf. unfold block_bits_v6.
  rewrite (arith_ok oc 128 (e - c)) by (unfold in_width; lia). rstep.
  rewrite arith_ok by (unfold in_width; lia). rstep.
  pose proof (log_lt 128 c e Hc Hf) as Hl. change (127 - leading_zeros 128 (e - c + 1))
    with (128 - 1 - leading_zeros 128 (e - c + 1)). rewrite leading_log by lia.
  rewrite arith_ok by (unfold in_width; lia). rstep. done.
Qed.

Lemma shl_pow w k : 0 <= k < w -> shl oc w 1 k = Ok (2 ^ k).
Proof.
  intros Hk. unfold shl. rewrite bool_decide_true by done. f_equal.
  rewrite Z.shiftl_1_l. apply wrap_small. split; [lia|]. by apply Z.pow_lt_mono_r; lia.
Qed.

Lemma cidrs_v4_spec fuel c e acc :
  0 <= c <= e -> e < 2 ^ 32 -> e - c + 1 < 2 ^ 32 -> rounds 32 c e <= Z.of_nat fuel ->
  exists nets bs, cidrs_v4_loop oc fuel c e acc = Some (Ok (acc ++ nets)) /\
    tiles c e bs /\ Forall2 (net_is V4) nets bs.
Proof.
  revert c acc. induction fuel as [|fuel IH]; intros c acc Hc He Hf Hr.
  { pose proof (rounds_pos 32 c e Hc He Hf). lia. }
  cbn [cidrs_v4_loop]. rewrite (proj2 (Z.leb_le _ _)) by lia.
  rewrite block_bits_v4_ok by done. rstep.
  destruct (block_ok 32 c e Hc He Hf) as (Hk & Hd & Hle). set (k := block_bits 32 c e) in *.
  change (Z.of_nat 32) with 32 in *.
  rewrite arith_ok by (unfold in_width; lia). rstep. rewrite wrap_small by (unfold in_width; lia).
  destruct (ipnet_new_ok (V4 c) (32 - k)) as (net & -> & Ha & Hl);
    [simpl; unfold in_width; lia|change (ip_width (V4 c)) with 32; lia|]. rstep.
  rewrite shl_pow by lia. rstep. rewrite arith_ok by (unfold in_width; lia). rstep.
  assert (net_is V4 net (c, k)) as Hnet by (split; simpl; [done|rewrite Hl; reflexivity]).
  destruct (decide (c + 2 ^ k <= e)) as [Hle'|Hgt].
  - rewrite (proj2 (Z.ltb_ge _ _)), (proj2 (Z.ltb_ge _ _)) by lia. cbn [orb].
    rewrite wrap_small by (unfold in_width; lia).
    pose proof (Z.pow_pos_nonneg 2 k).
    destruct (IH (c + 2 ^ k) (acc ++ [net])) as (nets & bs & -> & Ht & HF); [lia|done|lia| |].
    { pose proof (rounds_decrease 32 c e Hc He Hf Hle'). fold k in H0. lia. }
    exists (net :: nets), ((c, k) :: bs). rewrite <- app_assoc. split_and!; [done| |by constructor].
    simpl. split_and!; [done|lia|done|done].
  - rewrite (proj2 (Z.ltb_lt e _)) by lia. cbn [orb].
    exists [net], [(c, k)]. split_and!; [done| |by repeat constructor].
    simpl. split_and!; [done|lia|done|lia].
Qed.

Lemma cidrs_v6_spec fuel c e acc :
  0 <= c <= e -> e < 2 ^ 128 -> e - c + 1 < 2 ^ 128 -> rounds 128 c e <= Z.of_nat fuel ->
  exists nets bs, cidrs_v6_loop oc fuel c e acc = Some (Ok (acc ++ nets)) /\
    tiles c e bs /\ Forall2 (net_is V6) nets bs.
Proof.
  revert c acc. induction fuel as [|fuel IH]; intros c acc Hc He Hf Hr.
  { pose proof (rounds_pos 128 c e Hc He Hf). lia. }
  cbn [cidrs_v6_loop]. rewrite (proj2 (Z.leb_le _ _)) by lia.
  rewrite block_bits_v6_ok by done. rstep.
  destruct (block_ok 128 c e Hc He Hf) as (Hk & Hd & Hle). set (k := block_bits 128 c e) in *.
  change (Z.of_nat 128) with 128 in *.
  rewrite arith_ok by (unfold in_width; lia). rstep. rewrite wrap_small by (unfold in_width; lia).
  destruct (ipnet_new_ok (V6 c) (128 - k)) as (net & -> & Ha & Hl);
    [simpl; unfold in_width; lia|change (ip_width (V6 c)) with 128; lia|]. rstep.
  rewrite (proj2 (Z.ltb_lt k 128)), andb_false_r by lia. rstep.
  rewrite shl_pow by lia. rstep.
  assert (net_is V6 net (c, k)) as Hnet by (split; simpl; [done|rewrite Hl; reflexivity]).
  destruct (decide (c + 2 ^ k <= e)) as [Hle'|Hgt].
  - rewrite (proj2 (Z.ltb_lt _ _)), (proj2 (Z.leb_le _ _)) by lia. cbn [andb].
    pose proof (Z.pow_pos_nonneg 2 k).
    destruct (IH (c + 2 ^ k) (acc ++ [net])) as (nets & bs & -> & Ht & HF); [lia|done|lia| |].
    { pose proof (rounds_decrease 128 c e Hc He Hf Hle'). fold k in H0. lia. }
    exists (net :: nets), ((c, k) :: bs). rewrite <- app_assoc. split_and!; [done| |by constructor].
    simpl. split_and!; [done|lia|done|done].
  - rewrite (proj2 (Z.leb_gt _ _)), andb_false_r by lia.
    exists [net], [(c, k)]. split_and!; [done| |by repeat constructor].
    simpl. split_and!; [done|lia|done|lia].
Qed.

Lemma block_mem a k x : 0 <= k -> (2 ^ k | a) -> Z.shiftr a k = Z.shiftr x k <-> a <= x < a + 2 ^ k.
Proof.
  intros Hk [q ->]. rewrite !Z.shiftr_div_pow2 by done. pose proof (Z.pow_pos_nonneg 2 k).
  rewrite Z.div_mul by lia. pose proof (Z.div_mod x (2 ^ k)). pose proof (Z.mod_pos_bound x (2 ^ k)).
  split; intros; nia.
Qed.

(** The networks of a tiling contain exactly the addresses of the range. *)
Lemma nets_cover mk c e bs nets x :
  (forall a, ip_val (mk a) = a /\ same_family (mk a) (mk x) = true) ->
  tiles c e bs -> Forall2 (net_is mk) nets bs ->
  existsb (fun n => ipnet_contains n (mk x)) nets = true <-> c <= x <= e.
Proof.
  intros Hmk Ht HF. rewrite (tiles_cover _ _ _ x Ht), existsb_exists.
  assert (forall n a k, 0 <= k -> (2 ^ k | a) -> net_is mk n (a, k) ->
    ipnet_contains n (mk x) = true <-> a <= x < a + 2 ^ k) as Hin.
  { intros n a k Hk Hd [Ha Hl]. simpl in *. rewrite ipnet_contains_spec, Ha, Hl. unfold in_block.
    destruct (Hmk a) as [-> ->]. destruct (Hmk x) as [-> _]. simpl. rewrite Z.eqb_eq.
    replace (ip_width (mk a) - (ip_width (mk a) - k)) with k by lia. by apply block_mem. }
  split.
  - intros (n & Hn & Hc). apply list_elem_of_In in Hn. apply list_elem_of_lookup in Hn as [i Hi].
    destruct (Forall2_lookup_l _ _ _ _ _ HF Hi) as ([a k] & Hb & Hnet).
    apply list_elem_of_lookup_2 in Hb. destruct (tiles_aligned _ _ _ _ _ Ht Hb) as [Hk Hd].
    exists a, k. split; [done|]. by apply (Hin n a k).
  - intros (a & k & Hb & Hx). apply list_elem_of_lookup in Hb as [i Hi].
    destruct (Forall2_lookup_r _ _ _ _ _ HF Hi) as (n & Hn & Hnet).
    apply list_elem_of_lookup_2 in Hn, Hi. destruct (tiles_aligned _ _ _ _ _ Ht Hi) as [Hk Hd].
    exists n. split; [by apply list_elem_of_In|]. by apply (Hin n a k).
Qed.
End loops.

(** ** The container *)
Section mrs.
Context {RX : RegexLib} {NL : IpNetLib} {LP : LpmLib} {ZL : ZstdLib}.
Context (oc : bool).

(* @src clash-lib/src/app/remote_content_manager/providers/rule_provider/mrs.rs ~^const MRS_MAGIC_BYTES~ MRS_MAGIC_BYTES *)
Definition MRS_MAGIC_BYTES : list Z := [77; 82; 83; 1].
(* @src clash-lib/src/app/remote_content_manager/providers/rule_provider/mrs.rs ~^const DOMAIN_SET_VERSION~ DOMAIN_SET_VERSION *)
Definition DOMAIN_SET_VERSION : Z := 0x01.
(* @src clash-lib/src/app/remote_content_manager/providers/rule_provider/mrs.rs ~^const IP_CIDR_SET_VERSION~ IP_CIDR_SET_VERSION *)
Definition IP_CIDR_SET_VERSION : Z := 0x01.

(* @src clash-lib/src/app/remote_content_manager/providers/rule_provider/mrs.rs ~pub fn to_mrs_byte~ RuleSetBehavior::to_mrs_byte *)
Definition to_mrs_byte (b : RuleSetBehavior) : option Z :=
  match b with BDomain => Some 0x00 | BIpcidr => Some 0x01 | BClassical => None end.
(* @src clash-lib/src/app/remote_content_manager/providers/rule_provider/mrs.rs ~pub fn from_mrs_byte~ RuleSetBehavior::from_mrs_byte *)
Definition from_mrs_byte (b : Z) : res RuleSetBehavior :=
  if b =? 0x00 then Ok BDomain else if b =? 0x01 then Ok BIpcidr
  else Err "Invalid MRS behavior byte".

(** [read_i64::<BigEndian>] *)
Definition read_i64 (r : list Z) : res (Z * list Z) :=
  '(v, r) ← read_uint 8 r; Ok (if v <? 2 ^ 63 then v else v - 2 ^ 64, r).

(* @src clash-lib/src/app/remote_content_manager/providers/rule_provider/mrs.rs ~^fn read_u64_length~ read_u64_length *)
Definition read_u64_length (r : list Z) : res (Z * list Z) :=
  '(len, r) ← read_i64 r;
  if len <? 0 then Err "Invalid negative length" else Ok (len, r).

(** Each round reads eight bytes, so one round per byte is enough. *)
Fixpoint read_u64s (fuel : nat) (count : Z) (r : list Z) : res (list Z * list Z) :=
  match fuel with
  | O => Err EOF_MSG
  | S fuel' =>
    if count =? 0 then Ok ([], r)
    else '(v, r) ← read_uint 8 r; '(vs, r) ← read_u64s fuel' (count - 1) r; Ok (v :: vs, r)
  end.
(** [Vec::with_capacity] panics when the bytes asked for exceed [isize::MAX]. *)
(* @src clash-lib/src/app/remote_content_manager/providers/rule_provider/mrs.rs ~^fn read_u64_vec~ read_u64_vec *)
Definition read_u64_vec (r : list Z) (count : Z) : res (list Z * list Z) :=
  if 2 ^ 63 - 1 <? 8 * count then Panic else read_u64s (S (length r)) count r.

(* @src clash-lib/src/app/remote_content_manager/providers/rule_provider/mrs.rs ~^fn read_byte_vec~ read_byte_vec *)
Definition read_byte_vec (r : list Z) (len : Z) : res (list Z * list Z) :=
  if 512 * 1024 * 1024 <? len then Err "data length exceeds maximum allowed size"
  else if zlen r <? len then Err EOF_MSG
  else read_bytes (Z.to_nat len) r.

(* @src clash-lib/src/app/remote_content_manager/providers/rule_provider/mrs.rs ~^fn parse_domain_payload~ parse_domain_payload *)
Definition parse_domain_payload (r : list Z) : res RuleContent :=
  '(version, r) ← read_uint 1 r;
  if negb (version =? DOMAIN_SET_VERSION) then Err "Unsupported DomainSet version" else
  '(leaves_len, r) ← read_u64_length r;
  '(leaves, r) ← read_u64_vec r leaves_len;
  '(label_bitmap_len, r) ← read_u64_length r;
  '(label_bitmap, r) ← read_u64_vec r label_bitmap_len;
  '(labels_len, r) ← read_u64_length r;
  '(labels, r) ← read_byte_vec r labels_len;
  set ← from_mrs_parts oc leaves label_bitmap labels;
  Ok (RcDomain set).

(** One range: its two addresses, the blocks between them, and their
    insertion through the text form. *)
Definition insert_cidrs (t : CidrTrie) (cidrs : list IpNet) : CidrTrie :=
  foldl (fun t cidr => (cidr_trie_insert t (ipnet_show cidr)).2) t cidrs.
(* @src clash-lib/src/app/remote_content_manager/providers/rule_provider/mrs.rs ~for i in 0..ranges_len~ parse_ipcidr_payload (range) *)
Definition read_range (r : list Z) (t : CidrTrie) : res (CidrTrie * list Z) :=
  '(range_buf, r) ← read_bytes 32 r;
  let from_ip := V6 (be_val (take 16 range_buf)) in
  let to_ip := V6 (be_val (drop 16 range_buf)) in
  cidrs ← default Panic (range_to_cidrs oc from_ip to_ip);
  Ok (insert_cidrs t cidrs, r).
Fixpoint read_ranges (fuel : nat) (count : Z) (r : list Z) (t : CidrTrie) : res CidrTrie :=
  match fuel with
  | O => Err EOF_MSG
  | S fuel' =>
    if count =? 0 then Ok t
    else '(t, r) ← read_range r t; read_ranges fuel' (count - 1) r t
  end.
(* @src clash-lib/src/app/remote_content_manager/providers/rule_provider/mrs.rs ~^fn parse_ipcidr_payload~ parse_ipcidr_payload *)
Definition parse_ipcidr_payload (r : list Z) : res RuleContent :=
  '(version, r) ← read_uint 1 r;
  if negb (version =? IP_CIDR_SET_VERSION) then Err "Unsupported IpCidrSet version" else
  '(ranges_len, r) ← read_u64_length r;
  t ← read_ranges (S (length r)) ranges_len r cidr_trie_new;
  Ok (RcIpcidr t).

(** [zstd_decode] gives the bytes decoded before the end or an error of the
    stream, both of which end the reader's input. *)
(* @src clash-lib/src/app/remote_content_manager/providers/rule_provider/mrs.rs ~^pub fn rules_mrs_parse~ rules_mrs_parse *)
Definition rules_mrs_parse (buf : list Z) (expected_behavior : RuleSetBehavior) : res RuleContent :=
  r ← ok_or (zstd_decode buf) "Failed to create zstd decoder";
  '(magic, r) ← read_bytes 4 r;
  if negb (bool_decide (magic = MRS_MAGIC_BYTES)) then Err "Invalid MRS magic bytes" else
  '(behavior_byte, r) ← read_uint 1 r;
  actual_behavior ← from_mrs_byte behavior_byte;
  if negb (bool_decide (actual_behavior = expected_behavior)) then Err "MRS behavior mismatch" else
  '(count, r) ← read_i64 r;
  if count <? 0 then Err "Invalid MRS rule count" else
  '(extra_length, r) ← read_i64 r;
  if negb (extra_length =? 0) then Err "Invalid MRS extra length for v1" else
  match actual_behavior with
  | BDomain => parse_domain_payload r
  | BIpcidr => parse_ipcidr_payload r
  | BClassical => Err "Classical behavior is not supported by MRS format"
  end.
End mrs.

(** ** The table and the container's contents *)

(** What is documented of the table: a lookup finds something exactly when
    some entry contains the address. *)
Class LpmLaws (L : LpmLib) : Type := {
  lpm_has : forall w, lpm w -> Z -> Z -> Prop;
  lpm_new_law w a l : ~ lpm_has w (lpm_new w) a l;
  lpm_insert_law w (t : lpm w) a l a' l' :
    lpm_has w (lpm_insert t a l) a' l' <-> (a' = a /\ l' = l) \/ lpm_has w t a' l';
  lpm_match_law w (t : lpm w) x :
    is_Some (lpm_longest_match t x) <->
    exists a l, lpm_has w t a l /\ Z.shiftr a (w - l) = Z.shiftr x (w - l);
}.
(** The text form of a network reads back. *)
Class IpNetText (L : IpNetLib) : Prop := { ipnet_parse_show n : ipnet_parse (ipnet_show n) = Some n }.

Section trie_laws.
Context {NL : IpNetLib} {NLaws : IpNetLaws NL} {LP : LpmLib} {LL : LpmLaws LP}.

Lemma net_of_shiftr a k : 0 <= k -> Z.shiftr (Z.shiftl (Z.shiftr a k) k) k = Z.shiftr a k.
Proof.
  intros Hk. rewrite !Z.shiftr_div_pow2, Z.shiftl_mul_pow2 by done. rewrite Z.div_mul; [done|].
  apply Z.pow_nonzero; lia.
Qed.

(** Inserting a network adds exactly its addresses. *)
Lemma cidr_insert_parsed t s n ip :
  ipnet_parse s = Some n ->
  cidr_trie_contains (cidr_trie_insert t s).2 ip = ipnet_contains n ip || cidr_trie_contains t ip.
Proof.
  intros Hs. unfold cidr_trie_insert. rewrite Hs, ipnet_network_spec, ipnet_contains_spec.
  pose proof (ipnet_prefix_bounds n) as Hb. set (l := ipnet_prefix_len n) in *.
  unfold in_block, same_family. apply eq_true_iff_eq.
  destruct (ipnet_addr n) as [a|a]; destruct ip as [x|x]; cbn [net_of snd is_ipv4 Bool.eqb andb];
    unfold cidr_trie_contains; simpl ct_v4; simpl ct_v6; try done;
    rewrite orb_true_iff, Z.eqb_eq, !bool_decide_eq_true, !lpm_match_law;
    setoid_rewrite lpm_insert_law.
  - change (ip_width (V4 a)) with 32 in *. split.
    + intros (a' & l' & [[-> ->]|Hh] & He); [left|right; eauto].
      simpl. rewrite net_of_shiftr in He by lia. done.
    + intros [He|(a' & l' & Hh & He)]; [|exists a', l'; auto].
      eexists _, _. split; [by left|]. rewrite net_of_shiftr by lia. done.
  - change (ip_width (V6 a)) with 128 in *. split.
    + intros (a' & l' & [[-> ->]|Hh] & He); [left|right; eauto].
      simpl. rewrite net_of_shiftr in He by lia. done.
    + intros [He|(a' & l' & Hh & He)]; [|exists a', l'; auto].
      eexists _, _. split; [by left|]. rewrite net_of_shiftr by lia. done.
Qed.

Lemma cidr_insert_contains {NT : IpNetText NL} t n ip :
  cidr_trie_contains (cidr_trie_insert t (ipnet_show n)).2 ip =
  ipnet_contains n ip || cidr_trie_contains t ip.
Proof. apply cidr_insert_parsed, ipnet_parse_show. Qed.

Lemma insert_cidrs_contains {NT : IpNetText NL} cidrs t ip :
  cidr_trie_contains (insert_cidrs t cidrs) ip =
  existsb (fun n => ipnet_contains n ip) cidrs || cidr_trie_contains t ip.
Proof.
  unfold insert_cidrs. revert t. induction cidrs as [|n cidrs IH]; intros t; simpl; [done|].
  rewrite IH, cidr_insert_contains. by destruct (ipnet_contains n ip), (existsb _ cidrs).
Qed.

Lemma cidr_new_contains ip : cidr_trie_contains cidr_trie_new ip = false.
Proof.
  destruct ip; simpl; apply bool_decide_eq_false; rewrite lpm_match_law;
    intros (? & ? & H & _); by apply lpm_new_law in H.
Qed.
End trie_laws.

(** An address of a range of one family. *)
Definition in_range (s e ip : IpAddr) : bool :=
  same_family s ip && (ip_val s <=? ip_val ip) && (ip_val ip <=? ip_val e).

(** A range that is not the whole address space of its family. *)
Definition proper_range (s e : IpAddr) : Prop :=
  same_family s e = true /\ ip_val e - ip_val s + 1 < 2 ^ ip_width s.

Section range_spec.
Context {NL : IpNetLib} {NLaws : IpNetLaws NL} (oc : bool).

Lemma nets_other_family mk nets bs ip :
  (forall a, same_family (mk a) ip = false) -> Forall2 (net_is mk) nets bs ->
  existsb (fun n => ipnet_contains n ip) nets = false.
Proof.
  intros Hf. induction 1 as [|n b nets bs [Ha _] _ IH]; [done|]. simpl. rewrite IH.
  rewrite ipnet_contains_spec, Ha. unfold in_block. by rewrite Hf.
Qed.

Lemma mapped_split a b : to_ipv4_mapped a = Some b -> a = 0xffff * 2 ^ 32 + b /\ u32 b.
Proof.
  unfold to_ipv4_mapped. destruct (Z.eqb_spec (Z.shiftr a 32) 0xffff) as [E|]; [|done].
  intros H. injection H as <-. split; [|by apply wrap_range].
  rewrite Z.shiftr_div_pow2 in E by lia. unfold wrap.
  pose proof (Z.div_mod a (2 ^ 32)). lia.
Qed.

Lemma normalize_cases ip :
  wf_ip ip ->
  (exists a, normalize ip = V4 a /\ u32 a) \/ (exists a, normalize ip = V6 a /\ ip = V6 a /\ u128 a).
Proof.
  intros Hip. destruct ip as [a|a]; cbn [normalize wf_ip] in *; [left; by exists a|].
  destruct (to_ipv4_mapped a) as [b|] eqn:E; [left|right; by exists a].
  exists b. split; [done|]. by apply mapped_split in E as [_ ?].
Qed.

(** Within one family the order survives normalization. *)
Lemma normalize_lt s e :
  same_family s e = true -> ip_ltb e s = true ->
  same_family (normalize s) (normalize e) = true -> ip_val (normalize e) < ip_val (normalize s).
Proof.
  destruct s as [a|a], e as [b|b]; cbn [same_family is_ipv4 Bool.eqb ip_ltb]; try done;
    intros _ Hlt%Z.ltb_lt; cbn [normalize]; [done|].
  destruct (to_ipv4_mapped a) eqn:Ea, (to_ipv4_mapped b) eqn:Eb; try done.
  apply mapped_split in Ea as [-> _], Eb as [-> _]. intros _. cbn [ip_val]. lia.
Qed.

Lemma in_range_empty s e ip : ip_val e < ip_val s -> in_range s e ip = false.
Proof.
  intros H. unfold in_range. destruct (same_family s ip); [|done]. cbn [andb].
  destruct (Z.leb_spec (ip_val s) (ip_val ip)); [|done]. apply Z.leb_gt. lia.
Qed.

Lemma v4_cover a b :
  u32 a -> u32 b -> b - a + 1 < 2 ^ 32 ->
  exists nets, cidrs_v4_loop oc V4_FUEL a b [] = Some (Ok nets) /\
    forall ip, existsb (fun n => ipnet_contains n ip) nets = in_range (V4 a) (V4 b) ip.
Proof.
  intros [Ha1 Ha2] [Hb1 Hb2] Hf. destruct (decide (a <= b)) as [Hle|Hgt].
  - destruct (cidrs_v4_spec oc V4_FUEL a b []) as (nets & bs & E & Ht & HF); [lia|lia|lia| |].
    { pose proof (rounds_pos 32 a b ltac:(lia) ltac:(lia) ltac:(lia)). unfold V4_FUEL. lia. }
    exists nets. split; [done|]. intros [x|x].
    + apply eq_true_iff_eq. rewrite (nets_cover V4 a b bs nets x) by done.
      unfold in_range. cbn [same_family is_ipv4 Bool.eqb andb ip_val].
      rewrite andb_true_iff, !Z.leb_le. lia.
    + by rewrite (nets_other_family V4 nets bs).
  - exists []. split; [|intros; by rewrite in_range_empty by (cbn [ip_val]; lia)].
    unfold V4_FUEL. cbn [cidrs_v4_loop]. by rewrite (proj2 (Z.leb_gt _ _)) by lia.
Qed.

Lemma v6_cover a b :
  u128 a -> u128 b -> b - a + 1 < 2 ^ 128 ->
  exists nets, cidrs_v6_loop oc V6_FUEL a b [] = Some (Ok nets) /\
    forall ip, existsb (fun n => ipnet_contains n ip) nets = in_range (V6 a) (V6 b) ip.
Proof.
  intros [Ha1 Ha2] [Hb1 Hb2] Hf. destruct (decide (a <= b)) as [Hle|Hgt].
  - destruct (cidrs_v6_spec oc V6_FUEL a b []) as (nets & bs & E & Ht & HF); [lia|lia|lia| |].
    { pose proof (rounds_pos 128 a b ltac:(lia) ltac:(lia) ltac:(lia)). unfold V6_FUEL. lia. }
    exists nets. split; [done|]. intros [x|x].
    + by rewrite (nets_other_family V6 nets bs).
    + apply eq_true_iff_eq. rewrite (nets_cover V6 a b bs nets x) by done.
      unfold in_range. cbn [same_family is_ipv4 Bool.eqb andb ip_val].
      rewrite andb_true_iff, !Z.leb_le. lia.
  - exists []. split; [|intros; by rewrite in_range_empty by (cbn [ip_val]; lia)].
    unfold V6_FUEL. cbn [cidrs_v6_loop]. by rewrite (proj2 (Z.leb_gt _ _)) by lia.
Qed.

Lemma range_cover s e :
  wf_ip s -> wf_ip e -> same_family s e = true -> proper_range (normalize s) (normalize e) ->
  exists nets, range_to_cidrs oc s e = Some (Ok nets) /\
    forall ip, existsb (fun n => ipnet_contains n ip) nets = in_range (normalize s) (normalize e) ip.
Proof.
  intros Hs He Hsf [Hf Hp]. unfold range_to_cidrs. destruct (ip_ltb e s) eqn:Elt.
  - exists []. split; [done|]. intros ip. symmetry. apply in_range_empty. by apply normalize_lt.
  - destruct (normalize_cases s Hs) as [(a & Ea & Ha)|(a & Ea & _ & Ha)];
      destruct (normalize_cases e He) as [(b & Eb & Hb)|(b & Eb & _ & Hb)]; rewrite Ea, Eb in *; try done.
    + by apply v4_cover.
    + by apply v6_cover.
Qed.
End range_spec.

Section mrs_lemmas.
Context {RX : RegexLib} {NL : IpNetLib} {NLaws : IpNetLaws NL} {NT : IpNetText NL}.
Context {LP : LpmLib} {LL : LpmLaws LP} (oc : bool).

(** The bytes of the ranges, as pairs of 128-bit addresses. *)
Definition range_bytes (r : Z * Z) : list Z := be_bytes 16 r.1 ++ be_bytes 16 r.2.
Definition range_in (r : Z * Z) (ip : IpAddr) : bool :=
  in_range (normalize (V6 r.1)) (normalize (V6 r.2)) ip.
Definition range_ok (r : Z * Z) : Prop :=
  u128 r.1 /\ u128 r.2 /\ proper_range (normalize (V6 r.1)) (normalize (V6 r.2)).

Lemma range_bytes_length r : length (range_bytes r) = 32%nat.
Proof. unfold range_bytes. by rewrite length_app, !be_bytes_length. Qed.

Lemma range_bytes_read r rest :
  u128 r.1 -> u128 r.2 ->
  exists bs, read_bytes 32 (range_bytes r ++ rest) = Ok (bs, rest) /\
    be_val (take 16 bs) = r.1 /\ be_val (drop 16 bs) = r.2.
Proof.
  intros Hs He. exists (range_bytes r). split_and!.
  - rewrite <- (range_bytes_length r) at 1. apply read_bytes_app.
  - unfold range_bytes. rewrite take_app_length' by by rewrite be_bytes_length. by apply be_val_bytes.
  - unfold range_bytes. rewrite drop_app_length' by by rewrite be_bytes_length. by apply be_val_bytes.
Qed.

Lemma read_range_ok r rest t :
  range_ok r ->
  exists t', read_range oc (range_bytes r ++ rest) t = Ok (t', rest) /\
    forall ip, cidr_trie_contains t' ip = range_in r ip || cidr_trie_contains t ip.
Proof.
  intros (Hs & He & Hp).
  destruct (range_bytes_read r rest Hs He) as (bs & E & E1 & E2).
  destruct (range_cover oc (V6 r.1) (V6 r.2) Hs He eq_refl Hp) as (nets & E3 & Hn).
  exists (insert_cidrs t nets). split.
  - unfold read_range. rewrite E. rstep. by rewrite E1, E2, E3.
  - intros ip. by rewrite insert_cidrs_contains, Hn.
Qed.

Lemma read_ranges_ok rs fuel t :
  Forall range_ok rs -> (length rs < fuel)%nat ->
  exists t', read_ranges oc fuel (zlen rs) (rs ≫= range_bytes) t = Ok t' /\
    forall ip, cidr_trie_contains t' ip = existsb (fun r => range_in r ip) rs || cidr_trie_contains t ip.
Proof.
  intros Hrs. revert fuel t. induction Hrs as [|r rs Hr _ IH]; intros [|fuel] t Hf; simpl in Hf; try lia.
  { by exists t. }
  cbn [read_ranges]. rewrite (proj2 (Z.eqb_neq _ _)) by (unfold zlen; simpl; lia).
  cbn [mbind list_bind]. destruct (read_range_ok r (rs ≫= range_bytes) t Hr) as (t1 & -> & H1). rstep.
  replace (zlen (r :: rs) - 1) with (zlen rs) by (unfold zlen; simpl; lia).
  destruct (IH fuel t1) as (t' & E & H'); [lia|]. exists t'. split; [exact E|].
  intros ip. rewrite H', H1. cbn [existsb]. by destruct (range_in r ip), (existsb _ rs).
Qed.

Lemma read_i64_be v rest : 0 <= v < 2 ^ 63 -> read_i64 (be_bytes 8 v ++ rest) = Ok (v, rest).
Proof.
  intros Hv. unfold read_i64. rewrite read_uint_be by (unfold in_width; change (8 * Z.of_nat 8) with 64; lia).
  rstep. by rewrite (proj2 (Z.ltb_lt _ _)) by lia.
Qed.

Lemma ranges_bytes_length rs : length (rs ≫= range_bytes) = (32 * length rs)%nat.
Proof.
  induction rs as [|r rs IH]; [done|]. rewrite bind_cons, length_app, range_bytes_length, IH.
  simpl. lia.
Qed.
End mrs_lemmas.

(** * Theorems *)

(** A range becomes exactly its addresses.  For two addresses of one
    family that do not span the whole address space, [range_to_cidrs] ends
    within its bound of rounds, in a checked build as well as in a release
    build, and the blocks it returns contain exactly the addresses between
    the two (IPv4-mapped ones taken as IPv4); an inverted range gives no
    blocks. *)
Theorem range_to_cidrs_exact {NL : IpNetLib} {NLaws : IpNetLaws NL} (oc : bool) (s e : IpAddr)
    (Hs : wf_ip s) (He : wf_ip e) (Hfam : same_family s e = true)
    (Hproper : proper_range (normalize s) (normalize e)) :
  exists nets, range_to_cidrs oc s e = Some (Ok nets) /\
    forall ip, existsb (fun n => ipnet_contains n ip) nets =
               in_range (normalize s) (normalize e) ip.
Proof. by apply range_cover. Qed.

Lemma range_to_cidrs_exact_witness :
  exists nets, @range_to_cidrs ref_ipnet true (V4 0xC0A80101) (V4 0xC0A80105) = Some (Ok nets) /\
    existsb (fun n => @ipnet_contains ref_ipnet n (V4 0xC0A80105)) nets = true /\
    existsb (fun n => @ipnet_contains ref_ipnet n (V4 0xC0A80106)) nets = false.
Proof.
  destruct (@range_to_cidrs_exact ref_ipnet ref_ipnet_laws true (V4 0xC0A80101) (V4 0xC0A80105))
    as (nets & E & H).
  - apply (bool_decide_unpack _). vm_compute. exact I.
  - apply (bool_decide_unpack _). vm_compute. exact I.
  - reflexivity.
  - split; [reflexivity|]. vm_compute. reflexivity.
  - exists nets. split; [exact E|]. rewrite !H. split; reflexivity.
Defined.

(** The whole IPv4 space.  The range of all IPv4 addresses overflows the
    count of remaining addresses: a build with overflow checks panics, a
    release build wraps twice and returns the single block of length 0,
    which contains every IPv4 address. *)
Theorem range_full_space {NL : IpNetLib} {NLaws : IpNetLaws NL} :
  range_to_cidrs true (V4 0) (V4 (2 ^ 32 - 1)) = Some Panic /\
  exists n, range_to_cidrs false (V4 0) (V4 (2 ^ 32 - 1)) = Some (Ok [n]) /\
    forall a, u32 a -> ipnet_contains n (V4 a) = true.
Proof.
  split; [reflexivity|].
  destruct (ipnet_new_ok (V4 0) 0) as (n & E & Ha & Hl); [split; done|split; done|].
  exists n. split.
  - unfold range_to_cidrs, V4_FUEL. cbn [ip_ltb normalize cidrs_v4_loop].
    change (block_bits_v4 false 0 (2 ^ 32 - 1)) with (Ok 32).
    change (0 <? 2 ^ 32 - 1) with true. cbn [Z.ltb Z.leb]. rstep.
    change (arith false 32 (32 - 32)) with (Ok 0). rstep. change (wrap 8 0) with 0. by rewrite E.
  - intros a [Ha1 Ha2]. rewrite ipnet_contains_spec, Ha, Hl. unfold in_block.
    cbn [same_family is_ipv4 Bool.eqb andb ip_val]. change (ip_width (V4 0) - 0) with 32.
    rewrite !Z.shiftr_div_pow2 by lia. rewrite !Z.div_small by lia. done.
Qed.

Lemma range_full_space_witness :
  @range_to_cidrs ref_ipnet true (V4 0) (V4 (2 ^ 32 - 1)) = Some Panic /\
  exists n, @range_to_cidrs ref_ipnet false (V4 0) (V4 (2 ^ 32 - 1)) = Some (Ok [n]).
Proof.
  destruct (@range_full_space ref_ipnet ref_ipnet_laws) as [H (n & Hn & _)].
  split; [exact H|]. exists n. exact Hn.
Defined.

(** The bytes of an IP-CIDR container, before compression. *)
Definition mrs_ipcidr_bytes (count : Z) (rs : list (Z * Z)) : list Z :=
  MRS_MAGIC_BYTES ++ [0x01] ++ be_bytes 8 count ++ be_bytes 8 0 ++ [IP_CIDR_SET_VERSION] ++
  be_bytes 8 (zlen rs) ++ (rs ≫= range_bytes).

(** C36: an IP-CIDR container loads as its ranges.  A container that holds
    well-formed ranges is accepted, and the table it becomes contains an
    address exactly when one of the ranges does; asked for as a domain set,
    the same container is refused. *)
Theorem mrs_ipcidr_roundtrip {RX : RegexLib} {NL : IpNetLib} {NLaws : IpNetLaws NL}
    {NT : IpNetText NL} {LP : LpmLib} {LL : LpmLaws LP} {ZL : ZstdLib} (oc : bool)
    (buf : list Z) (count : Z) (rs : list (Z * Z))
    (Hbuf : zstd_decode buf = Some (mrs_ipcidr_bytes count rs))
    (Hcount : 0 <= count < 2 ^ 63) (Hlen : zlen rs < 2 ^ 63) (Hrs : Forall range_ok rs) :
  (exists t, rules_mrs_parse oc buf BIpcidr = Ok (RcIpcidr t) /\
     forall ip, cidr_trie_contains t ip = existsb (fun r => range_in r ip) rs) /\
  rules_mrs_parse oc buf BDomain = Err "MRS behavior mismatch".
Proof.
  unfold rules_mrs_parse. rewrite Hbuf. cbn [ok_or]. rstep. unfold mrs_ipcidr_bytes.
  change 4%nat with (length MRS_MAGIC_BYTES). rewrite read_bytes_app. rstep.
  rewrite bool_decide_true by done. cbn [negb app]. rewrite read_u8_cons. rstep.
  change (from_mrs_byte 1) with (Ok BIpcidr). rstep. split; [|done].
  rewrite bool_decide_true by done. cbn [negb]. rewrite read_i64_be by done. rstep.
  rewrite (proj2 (Z.ltb_ge _ _)) by lia. rewrite read_i64_be by lia. rstep. cbn [Z.eqb negb].
  unfold parse_ipcidr_payload. rewrite read_u8_cons. rstep. rewrite Z.eqb_refl. cbn [negb].
  unfold read_u64_length. pose proof (zlen_nonneg rs). rewrite read_i64_be by lia. rstep.
  rewrite (proj2 (Z.ltb_ge _ _)) by lia. rstep.
  destruct (read_ranges_ok oc rs (S (length (rs ≫= range_bytes))) cidr_trie_new Hrs) as (t & -> & Ht).
  { rewrite ranges_bytes_length. lia. }
  rstep. exists t. split; [done|]. intros ip. by rewrite Ht, cidr_new_contains, orb_false_r.
Qed.

(** ** A concrete table and text form *)
(** A table as the list of its entries. *)
Definition ref_lpm : LpmLib := {|
  lpm _ := list (Z * Z);
  lpm_new _ := [];
  lpm_insert _ t a l := (a, l) :: t;
  lpm_longest_match w t x :=
    find (fun '(a, l) => Z.shiftr a (w - l) =? Z.shiftr x (w - l)) t;
|}.
Definition ref_lpm_laws : LpmLaws ref_lpm.
Proof.
  refine {| lpm_has w (t : @lpm ref_lpm w) a l := (a, l) ∈ (t : list (Z * Z)) |}.
  - intros w a l. apply not_elem_of_nil.
  - intros w t a l a' l'. simpl. rewrite elem_of_cons. split; intros [H|H]; auto; left.
    + by injection H.
    + by destruct H as [-> ->].
  - intros w t x. simpl. split.
    + intros [[a l] H]. apply find_some in H as [Hin He]. exists a, l.
      split; [by apply list_elem_of_In|by apply Z.eqb_eq].
    + intros (a & l & Hin & He). destruct (find _ t) eqn:E; [by eexists|].
      pose proof (find_none _ _ E (a, l) (proj1 (list_elem_of_In _ _) Hin)) as Hn. simpl in Hn.
      by apply Z.eqb_neq in Hn.
Defined.

(** The reference networks with a text form that is easy to read back: the
    family, the address as a number, and the length. *)
Definition num_show (n : ref_net) : str :=
  (if is_ipv4 (`n).1 then 52 else 54) :: dec (ip_val (`n).1) ++ 47 :: dec (`n).2.
Definition num_parse (s : str) : option ref_net :=
  match s with
  | f :: s =>
    '(a, l) ← split_once 47 s; v ← parse_uint 128 a; len ← parse_uint 128 l;
    res_ok (ref_net_new (if f =? 52 then V4 v else V6 v) len)
  | [] => None
  end.
Definition num_ipnet : IpNetLib := {|
  IpNet := ref_net;
  ipnet_new := ref_net_new;
  ipnet_addr n := (`n).1;
  ipnet_prefix_len n := (`n).2;
  ipnet_network n := net_of (`n).1 (`n).2;
  ipnet_contains n ip := in_block (`n).1 (`n).2 ip;
  ipnet_parse := num_parse;
  ipnet_show := num_show;
|}.
Lemma num_ipnet_laws : IpNetLaws num_ipnet.
Proof. destruct ref_ipnet_laws as [H1 H2 H3 H4 H5]. by split. Qed.

Lemma split_once_digits a b : Forall is_digit a -> split_once 47 (a ++ 47 :: b) = Some (a, b).
Proof.
  induction 1 as [|c a Hc _ IH]; [done|]. cbn [split_once app]. unfold is_digit in Hc.
  rewrite (proj2 (Z.eqb_neq _ _)) by lia. by rewrite IH.
Qed.

Lemma num_ipnet_text : IpNetText num_ipnet.
Proof.
  split. intros n. cbn [ipnet_parse ipnet_show num_ipnet]. unfold num_show, num_parse.
  destruct (proj2_dsig n) as [Hw Hl]. destruct (`n) as [ip len] eqn:En. cbn [fst snd] in *.
  assert (u128 (ip_val ip) /\ u128 len) as [Hv Hlen].
  { unfold in_width. destruct ip as [a|a]; cbn [wf_ip ip_val ip_width is_ipv4] in *;
      unfold in_width, ip_width in *; cbn [is_ipv4] in *; lia. }
  rewrite split_once_digits by (apply dec_digits, Hv). cbn [mbind option_bind].
  rewrite !parse_uint_dec by done. cbn [mbind option_bind].
  replace (if (if is_ipv4 ip then 52 else 54) =? 52 then V4 (ip_val ip) else V6 (ip_val ip)) with ip
    by by destruct ip.
  unfold ref_net_new. destruct (decide _) as [H|H]; [|by destruct H].
  cbn [res_ok]. f_equal. apply dsig_eq. by rewrite En.
Qed.

Definition demo_zstd : ZstdLib := {| zstd_decode := Some |}.

Lemma mrs_ipcidr_roundtrip_witness :
  exists t, @rules_mrs_parse demo_regex num_ipnet ref_lpm demo_zstd true
      (mrs_ipcidr_bytes 1 [(0xffffC0A80100, 0xffffC0A801ff)]) BIpcidr = Ok (RcIpcidr t) /\
    cidr_trie_contains t (V4 0xC0A80155) = true.
Proof.
  destruct (@mrs_ipcidr_roundtrip demo_regex num_ipnet num_ipnet_laws num_ipnet_text ref_lpm
    ref_lpm_laws demo_zstd true (mrs_ipcidr_bytes 1 [(0xffffC0A80100, 0xffffC0A801ff)]) 1
    [(0xffffC0A80100, 0xffffC0A801ff)]) as [(t & E & H) _].
  - reflexivity.
  - split; [discriminate|reflexivity].
  - reflexivity.
  - constructor; [|constructor]. split_and!; [split; [discriminate|reflexivity]..|].
    split; [reflexivity|]. vm_compute. reflexivity.
  - exists t. split; [exact E|]. rewrite H. vm_compute. reflexivity.
Defined.
