(* ===== verification/Fetcher.v ===== *)
(** * Provider contents ([remote_content_manager/providers])

    A provider keeps the parsed contents of a file or URL.  [Fetcher] loads
    them at start (a local copy first), and re-reads them on request or from
    a timer, telling by an MD5 whether anything changed; the provider
    replaces its contents only then.  The parser and MD5 are parameters; what
    the outside world does during one call (the bytes the vehicle returns,
    the clock, the outcome of file writes) is an argument of the call. *)

From S2P Require Import Prelude Str.

(* @src clash-lib/src/app/remote_content_manager/providers/mod.rs ~pub enum ProviderVehicleType~ ProviderVehicleType *)
Inductive ProviderVehicleType : Type := VtFile | VtHttp | VtCompatible | VtInline.
#[global] Instance vehicle_type_eq_dec : EqDecision ProviderVehicleType.
Proof. solve_decision. Defined.
(* @src clash-lib/src/app/remote_content_manager/providers/mod.rs ~impl Display for ProviderVehicleType~ ProviderVehicleType::fmt *)
Definition vehicle_type_to_string (v : ProviderVehicleType) : str :=
  match v with
  | VtFile => lit "File" | VtHttp => lit "HTTP" | VtCompatible => lit "Compatible"
  | VtInline => lit "Inline"
  end.
(* @src clash-lib/src/app/remote_content_manager/providers/mod.rs ~pub enum ProviderType~ ProviderType *)
Inductive ProviderType : Type := PtProxy | PtRule.
(* @src clash-lib/src/app/remote_content_manager/providers/mod.rs ~impl Display for ProviderType~ ProviderType::fmt *)
Definition provider_type_to_string (p : ProviderType) : str :=
  match p with PtProxy => lit "Proxy" | PtRule => lit "Rule" end.

(** The world during one call. *)
Record FetchEnv : Type := {
  env_read : res (list Z);     (* vehicle.read() *)
  env_local : res unit;        (* fs::read and meta.modified() of an existing local copy *)
  env_now : Z;                 (* SystemTime::now() *)
  env_write : res unit;        (* create_dir_all and write of the local copy *)
  env_touch : res unit;        (* set_file_times *)
}.

Section fetcher.
Context {T : Type} (parser : list Z -> res T) (md5 : list Z -> list Z).

(** [fs_file] is the file at the vehicle's path, with its modification time. *)
(* @src clash-lib/src/app/remote_content_manager/providers/fetcher.rs ~^struct Inner~ Inner *)
Record FetcherState : Type := {
  updated_at : Z;
  hash : list Z;
  fs_file : option (list Z * Z);
}.
(* @src clash-lib/src/app/remote_content_manager/providers/fetcher.rs ~^pub struct Fetcher~ Fetcher *)
Record FetcherConf : Type := { fc_interval : Z; fc_vehicle_type : ProviderVehicleType }.

(* @src clash-lib/src/app/remote_content_manager/providers/fetcher.rs ~    pub fn new~ Fetcher::new *)
Definition fetcher_new (file : option (list Z * Z)) : FetcherState :=
  {| updated_at := 0; hash := replicate 16 0; fs_file := file |}.

Definition set_hash (h : list Z) (s : FetcherState) : FetcherState :=
  {| updated_at := updated_at s; hash := h; fs_file := fs_file s |}.
Definition set_updated (t : Z) (s : FetcherState) : FetcherState :=
  {| updated_at := t; hash := hash s; fs_file := fs_file s |}.
Definition set_file (c : list Z) (t : Z) (s : FetcherState) : FetcherState :=
  {| updated_at := updated_at s; hash := hash s; fs_file := Some (c, t) |}.

(** The parsed contents, whether a first update is due at once, and the new
    state; a modification time in the future panics.  A local copy that does
    not parse is replaced by what the vehicle returns, but the hash stays
    that of the local copy. *)
(* @src clash-lib/src/app/remote_content_manager/providers/fetcher.rs ~    pub async fn initial~ Fetcher::initial *)
Definition initial (f : FetcherConf) (env : FetchEnv) (s : FetcherState) :
    res (T * bool) * FetcherState :=
  match fs_file s with
  | Some (content, mtime) =>
    match env_local env with
    | Ok _ =>
      let s := set_updated mtime s in
      if env_now env <? mtime then (Panic, s)
      else
        let immediately_update := fc_interval f <? env_now env - mtime in
        match parser content with
        | Ok items => (Ok (items, immediately_update), set_hash (md5 content) s)
        | Err _ =>
          match env_read env ≫= parser with
          | Ok items => (Ok (items, immediately_update), set_hash (md5 content) s)
          | Err e => (Err e, s)
          | Panic => (Panic, s)
          end
        | Panic => (Panic, s)
        end
    | Err e => (Err e, s)
    | Panic => (Panic, s)
    end
  | None =>
    match env_read env with
    | Ok content =>
      match parser content with
      | Ok items =>
        if bool_decide (fc_vehicle_type f <> VtFile) then
          match env_write env with
          | Ok _ => (Ok (items, false), set_hash (md5 content) (set_file content (env_now env) s))
          | Err e => (Err e, s)
          | Panic => (Panic, s)
          end
        else (Ok (items, false), set_hash (md5 content) s)
      | Err e => (Err e, s)
      | Panic => (Panic, s)
      end
    | Err e => (Err e, s)
    | Panic => (Panic, s)
    end
  end.

(* @src clash-lib/src/app/remote_content_manager/providers/fetcher.rs ~    async fn update_inner~ Fetcher::update_inner *)
Definition update_inner (f : FetcherConf) (env : FetchEnv) (s : FetcherState) :
    res (T * bool) * FetcherState :=
  match env_read env with
  | Ok content =>
    match parser content with
    | Ok items =>
      let h := md5 content in
      if bool_decide (h = hash s) then
        let s := set_updated (env_now env) s in
        match env_touch env with
        | Ok _ => (Ok (items, true), s)
        | Err e => (Err e, s)
        | Panic => (Panic, s)
        end
      else if bool_decide (fc_vehicle_type f <> VtFile) then
        match env_write env with
        | Ok _ => (Ok (items, false),
                   set_updated (env_now env) (set_hash h (set_file content (env_now env) s)))
        | Err e => (Err e, s)
        | Panic => (Panic, s)
        end
      else (Ok (items, false), set_updated (env_now env) (set_hash h s))
    | Err e => (Err e, s)
    | Panic => (Panic, s)
    end
  | Err e => (Err e, s)
  | Panic => (Panic, s)
  end.

(** ** A provider's contents *)
Record Cell : Type := { cell_fetch : FetcherState; cell_content : T }.

(** [Provider::initialize] with a fetcher: the updater stores what [initial]
    returns. *)
(* @src clash-lib/src/app/remote_content_manager/providers/rule_provider/provider.rs ~        if let Some\(fetcher\) = &self.fetcher \{~#2 RuleProviderImpl::initialize (fetcher) *)
Definition cell_initialize (f : FetcherConf) (env : FetchEnv) (c : Cell) : res unit * Cell :=
  match initial f env (cell_fetch c) with
  | (Ok (items, _), s) => (Ok tt, {| cell_fetch := s; cell_content := items |})
  | (Err e, s) => (Err e, {| cell_fetch := s; cell_content := cell_content c |})
  | (Panic, s) => (Panic, {| cell_fetch := s; cell_content := cell_content c |})
  end.

(** [Provider::update], and one tick of the timer loop: the updater stores
    the contents unless they are the same. *)
(* @src clash-lib/src/app/remote_content_manager/providers/fetcher.rs ~let update = ~ Fetcher::pull_loop (update) *)
Definition cell_update (f : FetcherConf) (env : FetchEnv) (c : Cell) : res unit * Cell :=
  match update_inner f env (cell_fetch c) with
  | (Ok (items, same), s) =>
    (Ok tt, {| cell_fetch := s; cell_content := if (same : bool) then cell_content c else items |})
  | (Err e, s) => (Err e, {| cell_fetch := s; cell_content := cell_content c |})
  | (Panic, s) => (Panic, {| cell_fetch := s; cell_content := cell_content c |})
  end.

(** * Lemmas *)
(** Contents that occur, among which MD5 has no collision. *)
Context (occurs : list Z -> Prop)
  (md5_nocoll : forall x y, occurs x -> occurs y -> md5 x = md5 y -> x = y).

Definition env_ok (env : FetchEnv) : Prop := forall c, env_read env = Ok c -> occurs c.

(** The hash belongs to contents that parse to what is held, or to contents
    that do not parse. *)
Definition cell_inv (c : Cell) : Prop :=
  exists b, occurs b /\ hash (cell_fetch c) = md5 b /\
    (parser b = Ok (cell_content c) \/ forall t, parser b <> Ok t).

Definition file_ok (s : FetcherState) : Prop :=
  forall b t, fs_file s = Some (b, t) -> occurs b.

Lemma initialize_inv f env c c' :
  env_ok env -> file_ok (cell_fetch c) -> cell_initialize f env c = (Ok tt, c') -> cell_inv c'.
Proof.
  intros Henv Hfile. unfold cell_initialize, initial.
  destruct (fs_file (cell_fetch c)) as [[content mtime]|] eqn:Ef.
  - apply Hfile in Ef. destruct (env_local env); try done. destruct (env_now env <? mtime); [done|].
    destruct (parser content) as [items| |] eqn:Ep; [|destruct (env_read env ≫= parser)|]; try done.
    + intros [= <-]. exists content. split_and!; [done|done|by left].
    + intros [= <-]. exists content. split_and!; [done|done|]. right. by intros t; rewrite Ep.
  - destruct (env_read env) as [content| |] eqn:Er; try done. apply Henv in Er.
    destruct (parser content) as [items| |] eqn:Ep; try done.
    destruct (bool_decide _); [destruct (env_write env); try done|];
      intros [= <-]; exists content; (split_and!; [done|done|by left]).
Qed.

(** The outcome of an update: nothing changed on failure; on success the
    contents are those of the bytes just read. *)
Lemma update_spec f env c r c' :
  env_ok env -> cell_inv c -> cell_update f env c = (r, c') ->
  cell_inv c' /\
  match r with
  | Ok _ => exists b, env_read env = Ok b /\ parser b = Ok (cell_content c')
  | _ => cell_content c' = cell_content c
  end.
Proof.
  intros Henv (b & Hb & Hh & Hp). unfold cell_update, update_inner.
  assert (cell_inv {| cell_fetch := cell_fetch c; cell_content := cell_content c |}) as Hsame
    by by exists b.
  destruct (env_read env) as [content| |] eqn:Er; [|by intros [= <- <-]..]. apply Henv in Er.
  destruct (parser content) as [items| |] eqn:Ep; [|by intros [= <- <-]..].
  case_bool_decide as Heq.
  - assert (content = b) as -> by (apply md5_nocoll; [done|done|congruence]).
    destruct Hp as [Hp|Hp]; [|by apply Hp in Ep]. rewrite Hp in Ep. injection Ep as <-.
    destruct (env_touch env); intros [= <- <-]; (split; [by exists b; auto|]); simpl; eauto.
  - assert (forall s, hash s = md5 content ->
      cell_inv {| cell_fetch := s; cell_content := items |}) as Hnew.
    { intros s Hs. exists content. split_and!; [done|done|by left]. }
    case_bool_decide; [destruct (env_write env)|]; intros [= <- <-]; simpl; eauto.
Qed.

Inductive cell_step (f : FetcherConf) : Cell -> Cell -> Prop :=
| cell_step_update env r c c' :
    env_ok env -> cell_update f env c = (r, c') -> cell_step f c c'.

Lemma cell_steps_inv f c c' : rtc (cell_step f) c c' -> cell_inv c -> cell_inv c'.
Proof.
  induction 1 as [|c1 c2 c3 Hst _ IH]; [done|]. intros Hinv. apply IH.
  destruct Hst as [env r c1 c2 Henv E]. by destruct (update_spec f env c1 r c2 Henv Hinv E).
Qed.
End fetcher.
Arguments Cell : clear implicits.

(** * Theorems *)

(** A provider serves what was read last.  After a successful start and any
    number of updates, failed ones included, an update that succeeds leaves
    the provider holding the parsed form of the bytes it just read, even when
    it skipped the replacement because the hash was unchanged; an update that
    fails leaves the contents alone.  The contents that occur are assumed to
    have no MD5 collision. *)
Theorem provider_serves_latest {T : Type} (parser : list Z -> res T) (md5 : list Z -> list Z)
    (occurs : list Z -> Prop)
    (Hmd5 : forall x y, occurs x -> occurs y -> md5 x = md5 y -> x = y)
    (f : FetcherConf) (env0 env : FetchEnv) (c0 c1 c2 c3 : Cell T) (r : res unit)
    (Hfile : file_ok occurs (cell_fetch c0)) (Henv0 : env_ok occurs env0) (Henv : env_ok occurs env)
    (Hinit : cell_initialize parser md5 f env0 c0 = (Ok tt, c1))
    (Hsteps : rtc (cell_step parser md5 occurs f) c1 c2)
    (Hupdate : cell_update parser md5 f env c2 = (r, c3)) :
  match r with
  | Ok _ => exists b, env_read env = Ok b /\ parser b = Ok (cell_content c3)
  | _ => cell_content c3 = cell_content c2
  end.
Proof.
  pose proof (initialize_inv parser md5 occurs f env0 c0 c1 Henv0 Hfile Hinit) as Hinv.
  pose proof (cell_steps_inv parser md5 occurs Hmd5 f c1 c2 Hsteps Hinv) as Hinv2.
  by destruct (update_spec parser md5 occurs Hmd5 f env c2 r c3 Henv Hinv2 Hupdate).
Qed.

(** A parser that refuses empty contents, and the identity for MD5. *)
Definition demo_parser (b : list Z) : res Z :=
  match b with [] => Err "empty" | x :: _ => Ok x end.

Definition demo_conf : FetcherConf := {| fc_interval := 5; fc_vehicle_type := VtHttp |}.
Definition demo_env (b : list Z) : FetchEnv :=
  {| env_read := Ok b; env_local := Ok tt; env_now := 10; env_write := Ok tt; env_touch := Ok tt |}.
Definition demo_cell : Cell Z := {| cell_fetch := fetcher_new (Some ([], 3)); cell_content := 0 |}.

Lemma provider_serves_latest_witness :
  let c1 := (cell_initialize demo_parser id demo_conf (demo_env [5]) demo_cell).2 in
  let c3 := (cell_update demo_parser id demo_conf (demo_env [7]) c1).2 in
  exists b, env_read (demo_env [7]) = Ok b /\ demo_parser b = Ok (cell_content c3).
Proof.
  apply (provider_serves_latest demo_parser id (fun _ => True) (fun x y _ _ H => H) demo_conf
    (demo_env [5]) (demo_env [7]) demo_cell
    (cell_initialize demo_parser id demo_conf (demo_env [5]) demo_cell).2
    (cell_initialize demo_parser id demo_conf (demo_env [5]) demo_cell).2 _ (Ok tt)).
  - intros b t _. exact I.
  - intros b _. exact I.
  - intros b _. exact I.
  - reflexivity.
  - apply rtc_refl.
  - reflexivity.
Defined.
