(* ===== verification/RuleProvider.v ===== *)
(** * Rule providers ([rule_provider/provider.rs])

    A rule provider turns a list of lines, or an MRS container, into one of
    three contents (a domain set, an address table, classical rules) and
    answers whether a session matches them.  The YAML reader is a parameter. *)

From S2P Require Import Prelude Str Net Session Trie Geo Rule Router SuccinctSet Mrs Fetcher.

(* @src clash-lib/src/app/remote_content_manager/providers/rule_provider/provider.rs ~pub enum RuleSetFormat~ RuleSetFormat *)
Inductive RuleSetFormat : Type := FYaml | FText | FMrs.
(* @src clash-lib/src/app/remote_content_manager/providers/rule_provider/provider.rs ~impl Display for RuleSetFormat~ RuleSetFormat::fmt *)
Definition format_to_string (f : RuleSetFormat) : str :=
  match f with FYaml => lit "yaml" | FText => lit "text" | FMrs => lit "mrs" end.
(* @src clash-lib/src/app/remote_content_manager/providers/rule_provider/provider.rs ~impl Display for RuleSetBehavior~ RuleSetBehavior::fmt *)
Definition behavior_to_string (b : RuleSetBehavior) : str :=
  match b with BDomain => lit "Domain" | BIpcidr => lit "IPCIDR" | BClassical => lit "Classical" end.

(** [serde_yaml::from_slice::<ProviderScheme>]: the [payload] list. *)
Class YamlLib : Type := { yaml_payload : list Z -> option (list str) }.

(** [str::lines]: split at newlines, dropping a carriage return before each
    and an empty last line. *)
Definition strip_cr (l : str) : str :=
  match last l with Some 13 => take (length l - 1) l | _ => l end.
Definition str_lines (s : str) : list str :=
  let ls := split_on 10 s in
  let ls := match last ls with Some [] => take (length ls - 1) ls | _ => ls end in
  map strip_cr ls.

Section provider.
Context {RX : RegexLib} {NL : IpNetLib} {PL : ProcessLookup} {UC : UnicodeLib}.
Context {LP : LpmLib} {ZL : ZstdLib} {YL : YamlLib}.
Context (oc : bool).

(* @src clash-lib/src/app/remote_content_manager/providers/rule_provider/provider.rs ~^fn make_domain_rules~ make_domain_rules *)
Definition make_domain_rules (rules : list str) : StringTrie bool :=
  foldl (fun t r => (trie_insert t r true).1) trie_new rules.

(* @src clash-lib/src/app/remote_content_manager/providers/rule_provider/provider.rs ~^fn make_ip_cidr_rules~ make_ip_cidr_rules *)
Definition make_ip_cidr_rules (rules : list str) : CidrTrie :=
  foldl (fun t r => (cidr_trie_insert t r).2) cidr_trie_new rules.

(** A line of a classical rule set has no target of its own. *)
(* @src clash-lib/src/app/remote_content_manager/providers/rule_provider/provider.rs ~let rule_type = match parts~ make_classical_rules (line) *)
Definition classical_rule_type (line : str) : res RuleType :=
  match map trim (split_on 44 line) with
  | [proto; payload] => rt_new proto payload [] None
  | proto :: payload :: params => rt_new proto payload [] (Some params)
  | _ => Err "invalid rule line"
  end.
Definition classical_add (mmdb : option MmdbLookup) (geodata : option (str -> option GeoSite))
    (rv : list (Rule Empty_set)) (line : str) : res (list (Rule Empty_set)) :=
  rt ← classical_rule_type line;
  m ← map_rule_type rt mmdb geodata None;
  Ok (rv ++ [m]).
(* @src clash-lib/src/app/remote_content_manager/providers/rule_provider/provider.rs ~^fn make_classical_rules~ make_classical_rules *)
Definition make_classical_rules (rules : list str) (mmdb : option MmdbLookup)
    (geodata : option (str -> option GeoSite)) : res (list (Rule Empty_set)) :=
  res_fold (classical_add mmdb geodata) [] rules.

(** The conversion of the trie into a domain set cannot run out of fuel on
    the keys of a trie; running out is reported as a panic. *)
(* @src clash-lib/src/app/remote_content_manager/providers/rule_provider/provider.rs ~^fn make_rules~ make_rules *)
Definition make_rules (behavior : RuleSetBehavior) (rules : list str) (mmdb : option MmdbLookup)
    (geodata : option (str -> option GeoSite)) : res RuleContent :=
  match behavior with
  | BDomain => s ← default Panic (domain_set_from oc (make_domain_rules rules)); Ok (RcDomain s)
  | BIpcidr => Ok (RcIpcidr (make_ip_cidr_rules rules))
  | BClassical => rs ← make_classical_rules rules mmdb geodata; Ok (RcClassical rs)
  end.

(** The lines of a text rule set that are rules. *)
(* @src clash-lib/src/app/remote_content_manager/providers/rule_provider/provider.rs ~let mut payload: Vec<String> = text~ RuleProviderImpl::new (text lines) *)
Definition text_rules (text : str) : list str :=
  List.filter (fun line => negb (bool_decide (line = [])) && negb (starts_with (lit "#") line) &&
                      negb (starts_with (lit "//") line))
    (map trim (str_lines text)).

(* @src clash-lib/src/app/remote_content_manager/providers/rule_provider/provider.rs ~let parser: RuleParser~ RuleProviderImpl::new (parser) *)
Definition provider_parser (behavior : RuleSetBehavior) (format : RuleSetFormat)
    (inline_rules : option (list str)) (mmdb : option MmdbLookup)
    (geodata : option (str -> option GeoSite)) (input : list Z) : res RuleContent :=
  match format with
  | FYaml =>
    payload ← ok_or (yaml_payload input) "rule provider parse error (yaml)";
    make_rules behavior (default [] inline_rules ++ payload) mmdb geodata
  | FText =>
    text ← ok_or (from_utf8 input) "invalid utf-8 in text rule provider";
    let payload := text_rules text in
    let payload := match inline_rules with Some inline => payload ++ inline | None => payload end in
    make_rules behavior payload mmdb geodata
  | FMrs =>
    match behavior with
    | BClassical => Err "MRS format is not supported for classical behavior"
    | _ => rules_mrs_parse oc input behavior
    end
  end.

(** The empty contents of a new provider. *)
(* @src clash-lib/src/app/remote_content_manager/providers/rule_provider/provider.rs ~content: match behavior~ RuleProviderImpl::new (content) *)
Definition initial_content (behavior : RuleSetBehavior) : RuleContent :=
  match behavior with
  | BDomain => RcDomain domain_set_default
  | BIpcidr => RcIpcidr cidr_trie_new
  | BClassical => RcClassical []
  end.

(** A provider: its contents, whether a writer holds the lock, and how it is
    loaded ([None] for an inline provider). *)
(* @src clash-lib/src/app/remote_content_manager/providers/rule_provider/provider.rs ~^pub struct RuleProviderImpl~ RuleProviderImpl *)
Record RuleProviderImpl : Type := {
  rp_name : str;
  rp_fetcher : option (FetcherConf * FetcherState);
  rp_content : RuleContent;
  rp_locked : bool;
  rp_behavior : RuleSetBehavior;
  rp_format : RuleSetFormat;
  rp_inline_rules : option (list str);
  rp_mmdb : option MmdbLookup;
  rp_geodata : option (str -> option GeoSite);
}.
Definition with_content (p : RuleProviderImpl) (c : RuleContent)
    (fs : option (FetcherConf * FetcherState)) : RuleProviderImpl :=
  {| rp_name := rp_name p; rp_fetcher := fs; rp_content := c; rp_locked := rp_locked p;
     rp_behavior := rp_behavior p; rp_format := rp_format p; rp_inline_rules := rp_inline_rules p;
     rp_mmdb := rp_mmdb p; rp_geodata := rp_geodata p |}.

(** The rules of a classical provider hold no rule sets. *)
Definition no_search (e : Empty_set) (_ : Session) : res bool := match e with end.
Fixpoint any_applies (rules : list (Rule Empty_set)) (sess : Session) : res bool :=
  match rules with
  | [] => Ok false
  | r :: rules' =>
    b ← apply (rule no_search) r sess; if (b : bool) then Ok true else any_applies rules' sess
  end.

(** [None] is running out of fuel in a domain set. *)
(* @src clash-lib/src/app/remote_content_manager/providers/rule_provider/provider.rs ~^    fn search\(&self, sess: &Session\) -> bool \{~ RuleProviderImpl::search *)
Definition provider_search (fuel : nat) (p : RuleProviderImpl) (sess : Session) : option (res bool) :=
  if rp_locked p then Some (Ok false)
  else match rp_content p with
       | RcDomain set => has oc fuel set (socks_host (destination sess))
       | RcIpcidr trie =>
         Some (Ok (cidr_trie_contains trie (default (V4 0) (socks_ip (destination sess)))))
       | RcClassical rules => Some (any_applies rules sess)
       end.

Definition parser_of (p : RuleProviderImpl) : list Z -> res RuleContent :=
  provider_parser (rp_behavior p) (rp_format p) (rp_inline_rules p) (rp_mmdb p) (rp_geodata p).

(* @src clash-lib/src/app/remote_content_manager/providers/rule_provider/provider.rs ~    async fn initialize~ RuleProviderImpl::initialize *)
Definition provider_initialize (md5 : list Z -> list Z) (env : FetchEnv) (p : RuleProviderImpl) :
    res unit * RuleProviderImpl :=
  match rp_fetcher p with
  | Some (f, s) =>
    let '(r, c) := cell_initialize (parser_of p) md5 f env
                     {| cell_fetch := s; cell_content := rp_content p |} in
    (r, with_content p (cell_content c) (Some (f, cell_fetch c)))
  | None =>
    match make_rules (rp_behavior p) (default [] (rp_inline_rules p)) (rp_mmdb p) (rp_geodata p) with
    | Ok content => (Ok tt, with_content p content None)
    | Err e => (Err "failed to initialize inline rule provider", p)
    | Panic => (Panic, p)
    end
  end.

(* @src clash-lib/src/app/remote_content_manager/providers/rule_provider/provider.rs ~    async fn update~ RuleProviderImpl::update *)
Definition provider_update (md5 : list Z -> list Z) (env : FetchEnv) (p : RuleProviderImpl) :
    res unit * RuleProviderImpl :=
  match rp_fetcher p with
  | Some (f, s) =>
    let '(r, c) := cell_update (parser_of p) md5 f env
                     {| cell_fetch := s; cell_content := rp_content p |} in
    (r, with_content p (cell_content c) (Some (f, cell_fetch c)))
  | None => (Ok tt, p)
  end.
End provider.

(** * Theorems *)
Section theorems.
Context {RX : RegexLib} {NL : IpNetLib} {PL : ProcessLookup} {UC : UnicodeLib}.
Context {LP : LpmLib} {ZL : ZstdLib} {YL : YamlLib}.

Lemma any_applies_true rules sess :
  any_applies rules sess = Ok true <->
  exists i r, rules !! i = Some r /\ apply (rule no_search) r sess = Ok true /\
    forall j r', (j < i)%nat -> rules !! j = Some r' -> apply (rule no_search) r' sess = Ok false.
Proof.
  induction rules as [|r rules IH]; cbn [any_applies].
  - split; [done|]. by intros (? & ? & ? & _).
  - destruct (apply (rule no_search) r sess) as [[]| |] eqn:E; rstep.
    + split; [|done]. intros _. exists 0%nat, r. split_and!; [done..|]. intros; lia.
    + rewrite IH. split.
      * intros (i & r' & Hi & Ha & Hb). exists (S i), r'. split_and!; [done..|].
        intros [|j] r'' Hj Hr; simpl in Hr; [by simplify_eq|]. apply (Hb j); [lia|done].
      * intros ([|i] & r' & Hi & Ha & Hb); simpl in Hi; [simplify_eq; congruence|].
        exists i, r'. split_and!; [done..|]. intros j r'' Hj Hr. apply (Hb (S j)); [lia|done].
    + split; [done|]. intros ([|i] & r' & Hi & Ha & Hb); simpl in Hi; [simplify_eq; congruence|].
      specialize (Hb 0%nat r ltac:(lia) eq_refl). congruence.
    + split; [done|]. intros ([|i] & r' & Hi & Ha & Hb); simpl in Hi; [simplify_eq; congruence|].
      specialize (Hb 0%nat r ltac:(lia) eq_refl). congruence.
Qed.

Lemma ip_rules_contains {NLaws : IpNetLaws NL} {LL : LpmLaws LP} rules t ip :
  cidr_trie_contains (foldl (fun t r => (cidr_trie_insert t r).2) t rules) ip =
  existsb (fun r => match ipnet_parse r with Some n => ipnet_contains n ip | None => false end) rules
  || cidr_trie_contains t ip.
Proof.
  revert t. induction rules as [|r rules IH]; intros t; cbn [foldl existsb]; [done|]. rewrite IH.
  destruct (ipnet_parse r) as [n|] eqn:E.
  - rewrite (cidr_insert_parsed t r n ip E).
    by destruct (ipnet_contains n ip), (existsb _ rules).
  - unfold cidr_trie_insert. rewrite E. done.
Qed.
End theorems.

(** An IP-CIDR provider matches the networks of its lines.  A provider
    loaded from lines (the ones that are not networks are skipped) matches a
    session exactly when one of the networks contains the destination's
    address; a destination that is a name without an address is looked up as
    0.0.0.0. *)
Theorem ipcidr_provider_search {RX : RegexLib} {NL : IpNetLib} {NLaws : IpNetLaws NL}
    {PL : ProcessLookup} {UC : UnicodeLib} {LP : LpmLib} {LL : LpmLaws LP} (oc : bool)
    (rules : list str) mmdb geodata (fuel : nat) (p : RuleProviderImpl) (sess : Session)
    (Hcontent : make_rules oc BIpcidr rules mmdb geodata = Ok (rp_content p))
    (Hfree : rp_locked p = false) :
  provider_search oc fuel p sess =
  Some (Ok (existsb (fun r => match ipnet_parse r with
                              | Some n => ipnet_contains n (default (V4 0) (socks_ip (destination sess)))
                              | None => false
                              end) rules)).
Proof.
  unfold provider_search. rewrite Hfree. simpl in Hcontent. injection Hcontent as <-.
  unfold make_ip_cidr_rules. by rewrite ip_rules_contains, cidr_new_contains, orb_false_r.
Qed.

(** A classical provider matches its first applicable rule.  An inline
    classical provider that initializes matches a session exactly when one
    of its rules applies after all earlier ones were evaluated and did not;
    while a writer holds the lock it matches nothing. *)
Theorem classical_provider_search {RX : RegexLib} {NL : IpNetLib} {PL : ProcessLookup}
    {UC : UnicodeLib} {LP : LpmLib} {ZL : ZstdLib} {YL : YamlLib} (oc : bool)
    (md5 : list Z -> list Z) (env : FetchEnv) (p p' : RuleProviderImpl) (fuel : nat) (sess : Session)
    (Hinline : rp_fetcher p = None) (Hbehavior : rp_behavior p = BClassical)
    (Hinit : provider_initialize oc md5 env p = (Ok tt, p')) :
  exists rules,
    make_classical_rules (default [] (rp_inline_rules p)) (rp_mmdb p) (rp_geodata p) = Ok rules /\
    (provider_search oc fuel p' sess = Some (Ok true) <->
     rp_locked p = false /\
     exists i r, rules !! i = Some r /\ apply (rule no_search) r sess = Ok true /\
       forall j r', (j < i)%nat -> rules !! j = Some r' -> apply (rule no_search) r' sess = Ok false).
Proof.
  unfold provider_initialize in Hinit. rewrite Hinline, Hbehavior in Hinit. cbn [make_rules] in Hinit.
  destruct (make_classical_rules _ _ _) as [rules| |] eqn:E; rstep; simpl in Hinit; [|done..].
  injection Hinit as <-. exists rules. split; [done|].
  unfold provider_search, with_content. cbn [rp_locked rp_content]. destruct (rp_locked p).
  - split; [done|]. by intros [? _].
  - rewrite <- any_applies_true. split.
    + intros [= H]. done.
    + by intros [_ ->].
Qed.

(** Remote lines that stop the program.  A classical rule set is read from
    a file or URL; when its lines up to some point are fine and the next one
    is a RULE-SET rule, loading it reaches code marked unreachable and
    panics instead of returning an error. *)
Theorem nested_rule_set_panics {RX : RegexLib} {NL : IpNetLib} {PL : ProcessLookup}
    {UC : UnicodeLib} (before after : list str) (line : str) mmdb geodata rules x y
    (Hbefore : make_classical_rules before mmdb geodata = Ok rules)
    (Hline : classical_rule_type line = Ok (RtRuleSet x y)) :
  make_classical_rules (before ++ line :: after) mmdb geodata = Panic.
Proof.
  revert Hbefore. unfold make_classical_rules. generalize (@nil (Rule Empty_set)).
  induction before as [|l before IH]; intros acc; cbn [app res_fold].
  - intros _. unfold classical_add at 2. by rewrite Hline.
  - destruct (classical_add mmdb geodata acc l) as [acc'| |]; cbn [res_bind]; [|done..]. apply IH.
Qed.

(** ** Concrete providers *)
Section demo.
#[local] Existing Instances demo_regex num_ipnet demo_process demo_unicode ref_lpm demo_zstd.
Definition demo_yaml : YamlLib := {| yaml_payload _ := None |}.
#[local] Existing Instance demo_yaml.

Definition demo_provider (b : RuleSetBehavior) (c : RuleContent) (inline : list str) :
    RuleProviderImpl := {|
  rp_name := lit "test"; rp_fetcher := None; rp_content := c; rp_locked := false;
  rp_behavior := b; rp_format := FText; rp_inline_rules := Some inline;
  rp_mmdb := None; rp_geodata := None |}.

(** Networks in the numeric text form of [num_ipnet]: 10.0.0.0/8. *)
Definition demo_lines : list str := [lit "not a network"; lit "4167772160/8"].

Lemma ipcidr_provider_search_witness :
  provider_search true 0
    (demo_provider BIpcidr (RcIpcidr (make_ip_cidr_rules demo_lines)) [])
    (demo_session (Ip (SV4 0x0A010203 80))) = Some (Ok true).
Proof.
  rewrite (@ipcidr_provider_search demo_regex num_ipnet num_ipnet_laws demo_process demo_unicode
    ref_lpm ref_lpm_laws true demo_lines None None 0
    (demo_provider BIpcidr (RcIpcidr (make_ip_cidr_rules demo_lines)) [])
    (demo_session (Ip (SV4 0x0A010203 80))) eq_refl eq_refl).
  reflexivity.
Defined.

Definition demo_classical : RuleProviderImpl :=
  demo_provider BClassical (RcClassical []) [lit "DOMAIN-SUFFIX, google.com"].
Definition demo_loaded : list (Rule Empty_set) :=
  [RDomainSuffix {| ds_suffix := lit "google.com"; ds_target := [] |}].

Lemma classical_provider_search_witness :
  exists rules,
    make_classical_rules [lit "DOMAIN-SUFFIX, google.com"] None None = Ok rules /\
    exists i r, rules !! i = Some r /\
      apply (rule no_search) r (demo_session (Domain (lit "test.google.com") 443)) = Ok true.
Proof.
  destruct (classical_provider_search true id (demo_env []) demo_classical
    (demo_provider BClassical (RcClassical demo_loaded) [lit "DOMAIN-SUFFIX, google.com"]) 0
    (demo_session (Domain (lit "test.google.com") 443)) eq_refl eq_refl) as (rules & E & H).
  - reflexivity.
  - exists rules. split; [exact E|]. destruct (proj1 H) as (_ & i & r & Hi & Ha & _).
    + reflexivity.
    + exists i, r. split; [exact Hi|exact Ha].
Defined.

Lemma nested_rule_set_panics_witness :
  make_classical_rules [lit "DOMAIN,a.com"; lit "RULE-SET,other"] None None = Panic.
Proof.
  apply (nested_rule_set_panics [lit "DOMAIN,a.com"] [] (lit "RULE-SET,other") None None
    [RDomain {| d_domain := lit "a.com"; d_target := [] |}] (lit "other") []); reflexivity.
Defined.
End demo.
