(* ===== verification/RingBuffer.v ===== *)
(** * The lock-free ring buffer ([clash-netstack/src/ring_buffer.rs])

    One producer and one consumer share a byte buffer and two positions.
    The two operations are modelled twice: as whole functions, and as the
    steps at which the threads touch shared memory (load the positions, copy
    the bytes, store the own position), interleaved arbitrarily.  Loads and
    stores are sequentially consistent in the model. *)

From S2P Require Import Prelude.

(* @src clash-netstack/src/ring_buffer.rs ~^pub struct LockFreeRingBuffer~ LockFreeRingBuffer *)
Record RingBuffer : Type := {
  buffer : list Z;
  capacity : Z;
  write_pos : Z;
  read_pos : Z;
}.

(* @src clash-netstack/src/ring_buffer.rs ~    pub fn new~ LockFreeRingBuffer::new *)
Definition ring_new (cap : Z) : RingBuffer :=
  {| buffer := replicate (Z.to_nat cap) 0; capacity := cap; write_pos := 0; read_pos := 0 |}.

(** [dst[a..b].copy_from_slice(src)]: panics unless the range fits and has the
    length of [src]. *)
Definition copy_at (dst : list Z) (a b : Z) (src : list Z) : res (list Z) :=
  if bool_decide (0 <= a <= b /\ b <= zlen dst /\ zlen src = b - a)
  then Ok (take (Z.to_nat a) dst ++ src ++ drop (Z.to_nat b) dst)
  else Panic.

Section ops.
Context (oc : bool).

(* @src clash-netstack/src/ring_buffer.rs 31 41 enqueue_slice (available) *)
Definition enqueue_count (cap write_pos read_pos len : Z) : res Z :=
  available ← (if read_pos <=? write_pos then
                 a ← arith oc 64 (cap - write_pos); b ← arith oc 64 (a + read_pos);
                 arith oc 64 (b - 1)
               else a ← arith oc 64 (read_pos - write_pos); arith oc 64 (a - 1));
  Ok (Z.min len available).

(* @src clash-netstack/src/ring_buffer.rs 43 58 enqueue_slice (copy) *)
Definition enqueue_copy (buf : list Z) (cap write_pos to_write : Z) (data : list Z) : res (list Z) :=
  if write_pos + to_write <=? cap then
    d ← zslice data 0 to_write;
    copy_at buf write_pos (write_pos + to_write) d
  else
    first_part ← arith oc 64 (cap - write_pos);
    d1 ← zslice data 0 first_part;
    buf ← copy_at buf write_pos (zlen buf) d1;
    n ← arith oc 64 (to_write - first_part);
    d2 ← zslice data first_part to_write;
    copy_at buf 0 n d2.

(** [(pos + n) % capacity].  Both terms are below the capacity, which is the
    size of an allocation and so below 2^63: their sum does not overflow. *)
Definition advance (cap pos n : Z) : res Z :=
  if cap =? 0 then Panic else Ok ((pos + n) mod cap).

(* @src clash-netstack/src/ring_buffer.rs ~    pub fn enqueue_slice~ LockFreeRingBuffer::enqueue_slice *)
Definition enqueue_slice (s : RingBuffer) (data : list Z) : res (Z * RingBuffer) :=
  to_write ← enqueue_count (capacity s) (write_pos s) (read_pos s) (zlen data);
  if to_write =? 0 then Ok (0, s)
  else
    buf ← enqueue_copy (buffer s) (capacity s) (write_pos s) to_write data;
    w ← advance (capacity s) (write_pos s) to_write;
    Ok (to_write, {| buffer := buf; capacity := capacity s; write_pos := w; read_pos := read_pos s |}).

(* @src clash-netstack/src/ring_buffer.rs 72 82 dequeue_slice (available) *)
Definition dequeue_count (cap write_pos read_pos len : Z) : res Z :=
  available ← (if read_pos <=? write_pos then arith oc 64 (write_pos - read_pos)
               else a ← arith oc 64 (cap - read_pos); arith oc 64 (a + write_pos));
  Ok (Z.min len available).

(** The bytes copied to the caller's buffer. *)
(* @src clash-netstack/src/ring_buffer.rs 84 99 dequeue_slice (copy) *)
Definition dequeue_copy (buf : list Z) (cap read_pos to_read : Z) : res (list Z) :=
  if read_pos + to_read <=? cap then zslice buf read_pos (read_pos + to_read)
  else
    first_part ← arith oc 64 (cap - read_pos);
    b1 ← zslice buf read_pos (zlen buf);
    if negb (zlen b1 =? first_part) then Panic else
    n ← arith oc 64 (to_read - first_part);
    b2 ← zslice buf 0 n;
    Ok (b1 ++ b2).

(* @src clash-netstack/src/ring_buffer.rs ~    pub fn dequeue_slice~ LockFreeRingBuffer::dequeue_slice *)
Definition dequeue_slice (s : RingBuffer) (len : Z) : res (list Z * RingBuffer) :=
  to_read ← dequeue_count (capacity s) (write_pos s) (read_pos s) len;
  if to_read =? 0 then Ok ([], s)
  else
    bytes ← dequeue_copy (buffer s) (capacity s) (read_pos s) to_read;
    r ← advance (capacity s) (read_pos s) to_read;
    Ok (bytes, {| buffer := buffer s; capacity := capacity s; write_pos := write_pos s; read_pos := r |}).
End ops.

(* @src clash-netstack/src/ring_buffer.rs ~    pub fn is_empty~ LockFreeRingBuffer::is_empty *)
Definition ring_is_empty (s : RingBuffer) : bool := read_pos s =? write_pos s.
(* @src clash-netstack/src/ring_buffer.rs ~    pub fn is_full~ LockFreeRingBuffer::is_full *)
Definition ring_is_full (s : RingBuffer) : res bool :=
  next ← advance (capacity s) (write_pos s) 1;
  Ok (next =? read_pos s).

(** * Positions as counters

    [W] and [R] count the bytes written and read since the start; the
    positions are their remainders, and the buffer holds the bytes of the
    input stream between them. *)
Section counters.
Context (cap : Z) (Hcap : 1 <= cap) (Hmax : cap < 2 ^ 63).

Definition holds (buf : list Z) (input : list Z) (R : Z) : Prop :=
  zlen buf = cap /\
  forall i, R <= i < zlen input -> zget buf (i mod cap) = zget input i.

(** The distance between two counters less than a round apart. *)
Lemma mod_dist R W :
  0 <= R <= W -> W - R < cap ->
  W - R = if R mod cap <=? W mod cap then W mod cap - R mod cap
          else cap - R mod cap + W mod cap.
Proof.
  intros HR HW. pose proof (Z.div_mod R cap). pose proof (Z.div_mod W cap).
  pose proof (Z.mod_pos_bound R cap). pose proof (Z.mod_pos_bound W cap).
  destruct (Z.leb_spec (R mod cap) (W mod cap)).
  - assert (W / cap - R / cap = 0) by nia. nia.
  - assert (W / cap - R / cap = 1) by nia. nia.
Qed.

Lemma enqueue_count_ok oc R W len :
  0 <= R <= W -> W - R < cap ->
  enqueue_count oc cap (W mod cap) (R mod cap) len = Ok (Z.min len (cap - 1 - (W - R))).
Proof.
  intros HR HW. pose proof (mod_dist R W HR HW) as Hd. unfold enqueue_count.
  pose proof (Z.mod_pos_bound R cap). pose proof (Z.mod_pos_bound W cap).
  destruct (Z.leb_spec (R mod cap) (W mod cap)).
  - rewrite (arith_ok oc 64 (cap - W mod cap)) by (unfold in_width; lia). rstep.
    rewrite arith_ok by (unfold in_width; lia). rstep.
    rewrite arith_ok by (unfold in_width; lia). rstep. do 2 f_equal. lia.
  - rewrite arith_ok by (unfold in_width; lia). rstep.
    rewrite arith_ok by (unfold in_width; lia). rstep. do 2 f_equal. lia.
Qed.

Lemma dequeue_count_ok oc R W len :
  0 <= R <= W -> W - R < cap ->
  dequeue_count oc cap (W mod cap) (R mod cap) len = Ok (Z.min len (W - R)).
Proof.
  intros HR HW. pose proof (mod_dist R W HR HW) as Hd. unfold dequeue_count.
  pose proof (Z.mod_pos_bound R cap). pose proof (Z.mod_pos_bound W cap).
  destruct (Z.leb_spec (R mod cap) (W mod cap)).
  - rewrite arith_ok by (unfold in_width; lia). rstep. do 2 f_equal. lia.
  - rewrite arith_ok by (unfold in_width; lia). rstep.
    rewrite arith_ok by (unfold in_width; lia). rstep. do 2 f_equal. lia.
Qed.

Lemma zget_app_l {A} (l k : list A) i : i < zlen l -> zget (l ++ k) i = zget l i.
Proof.
  intros Hi. unfold zget, zlen in *. case_bool_decide; [|done]. rewrite lookup_app_l; [done|lia].
Qed.
Lemma zget_app_r {A} (l k : list A) i : zlen l <= i -> zget (l ++ k) i = zget k (i - zlen l).
Proof.
  intros Hi. unfold zget, zlen in *. rewrite !bool_decide_true by lia.
  rewrite lookup_app_r by lia. f_equal. lia.
Qed.
Lemma zget_take {A} (l : list A) n i : i < n -> zget (take (Z.to_nat n) l) i = zget l i.
Proof.
  intros Hi. unfold zget. case_bool_decide; [|done]. rewrite lookup_take_lt; [done|lia].
Qed.
Lemma zget_drop {A} (l : list A) n i : 0 <= n -> 0 <= i -> zget (drop (Z.to_nat n) l) i = zget l (n + i).
Proof.
  intros Hn Hi. unfold zget. rewrite !bool_decide_true by lia. rewrite lookup_drop. f_equal. lia.
Qed.
Lemma zlen_take {A} (l : list A) n : 0 <= n <= zlen l -> zlen (take (Z.to_nat n) l) = n.
Proof. unfold zlen. rewrite length_take. lia. Qed.
Lemma zlen_drop {A} (l : list A) n : 0 <= n <= zlen l -> zlen (drop (Z.to_nat n) l) = zlen l - n.
Proof. unfold zlen. rewrite length_drop. lia. Qed.
Lemma zlen_app {A} (l k : list A) : zlen (l ++ k) = zlen l + zlen k.
Proof. unfold zlen. rewrite length_app. lia. Qed.

Lemma copy_at_get dst a b src :
  0 <= a <= b -> b <= zlen dst -> zlen src = b - a ->
  exists dst', copy_at dst a b src = Ok dst' /\ zlen dst' = zlen dst /\
    forall i, zget dst' i = if decide (a <= i < b) then zget src (i - a) else zget dst i.
Proof.
  intros Ha Hb Hs. unfold copy_at. rewrite bool_decide_true by done. eexists. split; [done|].
  pose proof (zlen_nonneg dst).
  assert (zlen (take (Z.to_nat a) dst) = a) as Ht by (apply zlen_take; lia). split.
  - rewrite !zlen_app, Ht, Hs, zlen_drop by lia. lia.
  - intros i. case_decide.
    + rewrite zget_app_r, Ht, zget_app_l by lia. done.
    + destruct (decide (i < a)).
      * rewrite zget_app_l by lia. by apply zget_take.
      * rewrite zget_app_r, Ht, zget_app_r, Hs by lia.
        rewrite zget_drop by lia. f_equal. lia.
Qed.

Lemma zslice_get {A} (l : list A) a b :
  0 <= a <= b -> b <= zlen l ->
  exists l', zslice l a b = Ok l' /\ zlen l' = b - a /\
    forall i, 0 <= i < b - a -> zget l' i = zget l (a + i).
Proof.
  intros Ha Hb. rewrite zslice_ok by done. eexists. split; [done|]. split.
  - apply zlen_take. rewrite zlen_drop by lia. lia.
  - intros i Hi. rewrite zget_take by lia. apply zget_drop; lia.
Qed.

Lemma mod_shift W i : 0 <= i -> (W mod cap) + i < cap -> (W + i) mod cap = W mod cap + i.
Proof.
  intros Hi Hlt. pose proof (Z.mod_pos_bound W cap). rewrite <- Zplus_mod_idemp_l.
  apply Z.mod_small. lia.
Qed.
Lemma mod_wrap W i : 0 <= i < cap -> cap <= (W mod cap) + i -> (W + i) mod cap = W mod cap + i - cap.
Proof.
  intros Hi Hge. pose proof (Z.mod_pos_bound W cap). rewrite <- Zplus_mod_idemp_l.
  symmetry. apply Z.mod_unique with 1; lia.
Qed.

(** The copy of the producer writes the next [n] cells of the ring. *)
Lemma enqueue_copy_ok oc buf W n data :
  zlen buf = cap -> 0 <= W -> 0 < n < cap -> n <= zlen data ->
  exists buf', enqueue_copy oc buf cap (W mod cap) n data = Ok buf' /\ zlen buf' = cap /\
    (forall j, 0 <= j < n -> zget buf' ((W + j) mod cap) = zget data j) /\
    (forall x, 0 <= x < cap -> (forall j, 0 <= j < n -> (W + j) mod cap <> x) ->
       zget buf' x = zget buf x).
Proof.
  intros Hb HW Hn Hd. pose proof (Z.mod_pos_bound W cap ltac:(lia)) as Hw.
  unfold enqueue_copy. destruct (Z.leb_spec (W mod cap + n) cap) as [Hle|Hgt].
  - destruct (zslice_get data 0 n) as (d & -> & Hdl & Hdg); [lia|lia|]. rstep.
    destruct (copy_at_get buf (W mod cap) (W mod cap + n) d) as (buf' & -> & Hl & Hg); [lia|lia|lia|].
    exists buf'. split_and!; [done|lia| |].
    + intros j Hj. rewrite mod_shift by lia. rewrite Hg, decide_True by lia.
      rewrite Hdg by lia. f_equal. lia.
    + intros x Hx Hne. rewrite Hg. destruct (decide _); [|done]. exfalso.
      apply (Hne (x - W mod cap)); [lia|]. rewrite mod_shift by lia. lia.
  - rewrite arith_ok by (unfold in_width; lia). rstep.
    destruct (zslice_get data 0 (cap - W mod cap)) as (d1 & -> & Hl1 & Hg1); [lia|lia|]. rstep.
    destruct (copy_at_get buf (W mod cap) (zlen buf) d1) as (b1 & -> & Hlb1 & Hgb1); [lia|lia|lia|]. rstep.
    rewrite arith_ok by (unfold in_width; lia). rstep.
    destruct (zslice_get data (cap - W mod cap) n) as (d2 & -> & Hl2 & Hg2); [lia|lia|]. rstep.
    destruct (copy_at_get b1 0 (n - (cap - W mod cap)) d2) as (b2 & -> & Hlb2 & Hgb2); [lia|lia|lia|].
    exists b2. split_and!; [done|lia| |].
    + intros j Hj. destruct (decide (W mod cap + j < cap)).
      * rewrite mod_shift by lia. rewrite Hgb2, decide_False by lia.
        rewrite Hgb1, decide_True by lia. rewrite Hg1 by lia. f_equal. lia.
      * rewrite mod_wrap by lia. rewrite Hgb2, decide_True by lia. rewrite Hg2 by lia. f_equal. lia.
    + intros x Hx Hne. rewrite Hgb2. destruct (decide (0 <= x < _)).
      { exfalso. apply (Hne (x + cap - W mod cap)); [lia|]. rewrite mod_wrap by lia. lia. }
      rewrite Hgb1. destruct (decide _); [|done]. exfalso.
      apply (Hne (x - W mod cap)); [lia|]. rewrite mod_shift by lia. lia.
Qed.

(** The copy of the consumer reads the next [n] cells. *)
Lemma dequeue_copy_ok oc buf R n :
  zlen buf = cap -> 0 <= R -> 0 < n < cap ->
  exists bytes, dequeue_copy oc buf cap (R mod cap) n = Ok bytes /\ zlen bytes = n /\
    forall j, 0 <= j < n -> zget bytes j = zget buf ((R + j) mod cap).
Proof.
  intros Hb HR Hn. pose proof (Z.mod_pos_bound R cap ltac:(lia)) as Hr.
  unfold dequeue_copy. destruct (Z.leb_spec (R mod cap + n) cap) as [Hle|Hgt].
  - destruct (zslice_get buf (R mod cap) (R mod cap + n)) as (d & -> & Hdl & Hdg); [lia|lia|].
    exists d. split_and!; [done|lia|]. intros j Hj. rewrite mod_shift by lia. apply Hdg. lia.
  - rewrite arith_ok by (unfold in_width; lia). rstep.
    destruct (zslice_get buf (R mod cap) (zlen buf)) as (d1 & -> & Hl1 & Hg1); [lia|lia|]. rstep.
    rewrite (proj2 (Z.eqb_eq _ _)) by lia. cbn [negb].
    rewrite arith_ok by (unfold in_width; lia). rstep.
    destruct (zslice_get buf 0 (n - (cap - R mod cap))) as (d2 & -> & Hl2 & Hg2); [lia|lia|]. rstep.
    exists (d1 ++ d2). split_and!; [done|rewrite zlen_app; lia|]. intros j Hj.
    destruct (decide (R mod cap + j < cap)).
    + rewrite mod_shift by lia. rewrite zget_app_l by lia. apply Hg1. lia.
    + rewrite mod_wrap by lia. rewrite zget_app_r by lia. rewrite Hg2 by lia. f_equal. lia.
Qed.

Lemma mod_distinct a b : a < b < a + cap -> b mod cap <> a mod cap.
Proof.
  intros H E. assert ((b - a) mod cap = 0) as Hz by (rewrite Zminus_mod, E, Z.sub_diag; apply Z.mod_0_l; lia).
  rewrite Z.mod_small in Hz by lia. lia.
Qed.
End counters.

Lemma zget_list_eq {A} (l k : list A) :
  zlen l = zlen k -> (forall i, 0 <= i < zlen l -> zget l i = zget k i) -> l = k.
Proof.
  intros Hl H. apply list_eq. intros i. destruct (decide (Z.of_nat i < zlen l)).
  - specialize (H (Z.of_nat i) ltac:(lia)). unfold zget in H.
    rewrite !bool_decide_true, Nat2Z.id in H by lia. done.
  - unfold zlen in *. rewrite !lookup_ge_None_2; [done|lia|lia].
Qed.

(** * Interleavings *)

(** Where each thread is inside its operation. *)
Inductive Producer : Type :=
| PIdle
| PLoaded (data : list Z) (w r : Z)          (* positions loaded *)
| PCopied (data : list Z) (w n : Z).         (* bytes copied *)
Inductive Consumer : Type :=
| CIdle
| CLoaded (len w r : Z)
| CCopied (r n : Z) (bytes : list Z).

(** The shared ring, the two threads, and what was accepted from the producer
    and delivered to the consumer so far. *)
Record World : Type := {
  ring : RingBuffer;
  producer : Producer;
  consumer : Consumer;
  accepted : list Z;
  delivered : list Z;
}.

Section steps.
Context (oc : bool).

Inductive ring_step : World -> World -> Prop :=
| p_load s data c a d :
    ring_step {| ring := s; producer := PIdle; consumer := c; accepted := a; delivered := d |}
              {| ring := s; producer := PLoaded data (write_pos s) (read_pos s); consumer := c;
                 accepted := a; delivered := d |}
| p_full s data w r c a d :
    enqueue_count oc (capacity s) w r (zlen data) = Ok 0 ->
    ring_step {| ring := s; producer := PLoaded data w r; consumer := c; accepted := a; delivered := d |}
              {| ring := s; producer := PIdle; consumer := c; accepted := a; delivered := d |}
| p_copy s data w r n buf c a d :
    enqueue_count oc (capacity s) w r (zlen data) = Ok n -> n <> 0 ->
    enqueue_copy oc (buffer s) (capacity s) w n data = Ok buf ->
    ring_step {| ring := s; producer := PLoaded data w r; consumer := c; accepted := a; delivered := d |}
              {| ring := {| buffer := buf; capacity := capacity s; write_pos := write_pos s;
                            read_pos := read_pos s |};
                 producer := PCopied data w n; consumer := c; accepted := a; delivered := d |}
| p_store s data w n w' c a d :
    advance (capacity s) w n = Ok w' ->
    ring_step {| ring := s; producer := PCopied data w n; consumer := c; accepted := a; delivered := d |}
              {| ring := {| buffer := buffer s; capacity := capacity s; write_pos := w';
                            read_pos := read_pos s |};
                 producer := PIdle; consumer := c;
                 accepted := a ++ take (Z.to_nat n) data; delivered := d |}
| c_load s len p a d :
    0 <= len ->
    ring_step {| ring := s; producer := p; consumer := CIdle; accepted := a; delivered := d |}
              {| ring := s; producer := p; consumer := CLoaded len (write_pos s) (read_pos s);
                 accepted := a; delivered := d |}
| c_empty s len w r p a d :
    dequeue_count oc (capacity s) w r len = Ok 0 ->
    ring_step {| ring := s; producer := p; consumer := CLoaded len w r; accepted := a; delivered := d |}
              {| ring := s; producer := p; consumer := CIdle; accepted := a; delivered := d |}
| c_copy s len w r n bytes p a d :
    dequeue_count oc (capacity s) w r len = Ok n -> n <> 0 ->
    dequeue_copy oc (buffer s) (capacity s) r n = Ok bytes ->
    ring_step {| ring := s; producer := p; consumer := CLoaded len w r; accepted := a; delivered := d |}
              {| ring := s; producer := p; consumer := CCopied r n bytes; accepted := a; delivered := d |}
| c_store s r n bytes r' p a d :
    advance (capacity s) r n = Ok r' ->
    ring_step {| ring := s; producer := p; consumer := CCopied r n bytes; accepted := a; delivered := d |}
              {| ring := {| buffer := buffer s; capacity := capacity s; write_pos := write_pos s;
                            read_pos := r' |};
                 producer := p; consumer := CIdle; accepted := a; delivered := d ++ bytes |}.

(** The threads' local views are never ahead of the shared counters. *)
Definition producer_inv (cap : Z) (buf a : list Z) (R : Z) (p : Producer) : Prop :=
  match p with
  | PIdle => True
  | PLoaded data w r => exists R0, w = zlen a mod cap /\ r = R0 mod cap /\ 0 <= R0 <= R /\ zlen a - R0 < cap
  | PCopied data w n => w = zlen a mod cap /\ 0 < n <= zlen data /\ zlen a + n < R + cap /\ forall j, 0 <= j < n -> zget buf ((zlen a + j) mod cap) = zget data j
  end.
Definition consumer_inv (cap : Z) (a : list Z) (R : Z) (c : Consumer) : Prop :=
  match c with
  | CIdle => True
  | CLoaded len w r => exists W0, w = W0 mod cap /\ r = R mod cap /\ R <= W0 <= zlen a /\ 0 <= len
  | CCopied r n bytes => r = R mod cap /\ 0 < n /\ zlen bytes = n /\ R + n <= zlen a /\ forall j, 0 <= j < n -> zget bytes j = zget a (R + j)
  end.

Record ring_inv (cap : Z) (x : World) : Prop := {
  ri_cap : capacity (ring x) = cap;
  ri_prefix : exists rest, accepted x = delivered x ++ rest;
  ri_room : zlen (accepted x) - zlen (delivered x) < cap;
  ri_w : write_pos (ring x) = zlen (accepted x) mod cap;
  ri_r : read_pos (ring x) = zlen (delivered x) mod cap;
  ri_buf : holds cap (buffer (ring x)) (accepted x) (zlen (delivered x));
  ri_p : producer_inv cap (buffer (ring x)) (accepted x) (zlen (delivered x)) (producer x);
  ri_c : consumer_inv cap (accepted x) (zlen (delivered x)) (consumer x);
}.
End steps.

Section ring_proofs.
Context (oc : bool) (cap : Z) (Hcap : 1 <= cap) (Hmax : cap < 2 ^ 63).
Implicit Types (x : World).

Lemma advance_ok W n : 0 <= n -> advance cap (W mod cap) n = Ok ((W + n) mod cap).
Proof.
  intros Hn. unfold advance. rewrite (proj2 (Z.eqb_neq _ _)) by lia.
  by rewrite Zplus_mod_idemp_l.
Qed.

(** What the loaded positions allow the producer to write. *)
Lemma loaded_room (a : list Z) R0 R n len :
  0 <= len -> 0 <= R0 <= R -> R <= zlen a -> zlen a - R0 < cap ->
  n = Z.min len (cap - 1 - (zlen a - R0)) -> n <> 0 ->
  0 < n < cap /\ n <= len /\ zlen a + n < R + cap.
Proof. lia. Qed.

Lemma p_copy_inv s data w r n buf c a d :
  let x := {| ring := s; producer := PLoaded data w r; consumer := c; accepted := a; delivered := d |} in
  ring_inv cap x -> enqueue_count oc (capacity s) w r (zlen data) = Ok n -> n <> 0 ->
  enqueue_copy oc (buffer s) (capacity s) w n data = Ok buf ->
  ring_inv cap {| ring := {| buffer := buf; capacity := capacity s; write_pos := write_pos s;
                             read_pos := read_pos s |};
                  producer := PCopied data w n; consumer := c; accepted := a; delivered := d |}.
Proof.
  intros x Hx En Hn0 Ec. subst x.
  destruct Hx as [Hc [rest Hp] Hroom Hw Hr [Hbl Hb] (R0 & Ew & Er & HR0 & Hd) Hcons].
  cbn [ring producer consumer accepted delivered] in *. subst w r. rewrite Hc in *.
  assert (zlen d <= zlen a) as Hda by (rewrite Hp, zlen_app; pose proof (zlen_nonneg rest); lia).
  rewrite (enqueue_count_ok cap Hcap Hmax) in En by lia. injection En as En.
  pose proof (zlen_nonneg data) as Hdl. pose proof (zlen_nonneg a) as Hal.
  destruct (loaded_room a R0 (zlen d) n (zlen data)) as (Hn & Hnl & Hlt); [lia..|].
  destruct (enqueue_copy_ok cap Hcap Hmax oc (buffer s) (zlen a) n data Hbl Hal Hn Hnl)
    as (buf' & E & Hl' & Hnew & Hold).
  rewrite E in Ec. injection Ec as <-.
  split; cbn [ring producer consumer accepted delivered buffer capacity write_pos read_pos]; try done.
  - by exists rest.
  - split; [done|]. intros i Hi. rewrite <- Hb by done. apply Hold.
    + apply Z.mod_pos_bound. lia.
    + intros j Hj. apply mod_distinct; lia.
  - split_and!; [done|lia|lia|lia|done].
Qed.

Lemma p_store_inv s data w n w' c a d :
  let x := {| ring := s; producer := PCopied data w n; consumer := c; accepted := a; delivered := d |} in
  ring_inv cap x -> advance (capacity s) w n = Ok w' ->
  ring_inv cap {| ring := {| buffer := buffer s; capacity := capacity s; write_pos := w';
                             read_pos := read_pos s |};
                  producer := PIdle; consumer := c;
                  accepted := a ++ take (Z.to_nat n) data; delivered := d |}.
Proof.
  intros x Hx Ea. subst x.
  destruct Hx as [Hc [rest Hp] Hroom Hw Hr [Hbl Hb] (Ew & Hn & Hlt & Hcopied) Hcons].
  cbn [ring producer consumer accepted delivered] in *. subst w. rewrite Hc in *.
  rewrite advance_ok in Ea by lia. injection Ea as <-.
  assert (zlen (a ++ take (Z.to_nat n) data) = zlen a + n) as Hlen
    by (rewrite zlen_app, zlen_take by lia; done).
  split; cbn [ring producer consumer accepted delivered buffer capacity write_pos read_pos];
    rewrite ?Hlen; try done; try lia.
  - exists (rest ++ take (Z.to_nat n) data). by rewrite Hp, <- app_assoc.
  - split; [done|]. intros i Hi. rewrite Hlen in Hi. destruct (decide (i < zlen a)).
    + rewrite zget_app_l by lia. apply Hb. lia.
    + rewrite zget_app_r, zget_take by lia. rewrite <- Hcopied by lia. do 2 f_equal. lia.
  - destruct c as [|len w r|r m bytes]; simpl in *; [done| |].
    + destruct Hcons as (W0 & -> & -> & ? & ?). exists W0. rewrite Hlen. split_and!; [done|done|lia..].
    + destruct Hcons as (-> & ? & ? & ? & Hby). rewrite Hlen. split_and!; [done|lia|done|lia|].
      intros j Hj. rewrite zget_app_l by lia. by apply Hby.
Qed.

Lemma c_copy_inv s len w r n bytes p a d :
  let x := {| ring := s; producer := p; consumer := CLoaded len w r; accepted := a; delivered := d |} in
  ring_inv cap x -> dequeue_count oc (capacity s) w r len = Ok n -> n <> 0 ->
  dequeue_copy oc (buffer s) (capacity s) r n = Ok bytes ->
  ring_inv cap {| ring := s; producer := p; consumer := CCopied r n bytes; accepted := a; delivered := d |}.
Proof.
  intros x Hx En Hn0 Ec. subst x.
  destruct Hx as [Hc [rest Hp] Hroom Hw Hr [Hbl Hb] Hprod (W0 & Ew & Er & HW & Hlen)].
  cbn [ring producer consumer accepted delivered] in *. subst w r. rewrite Hc in *.
  pose proof (zlen_nonneg d). rewrite (dequeue_count_ok cap Hcap Hmax) in En by lia. injection En as En.
  assert (0 < n < cap) as Hn by lia.
  destruct (dequeue_copy_ok cap Hcap Hmax oc (buffer s) (zlen d) n Hbl ltac:(lia) Hn) as (b & E & Hl & Hg).
  rewrite E in Ec. injection Ec as <-.
  split; cbn [ring producer consumer accepted delivered]; try done; [by exists rest|].
  split_and!; [done|lia|done|lia|]. intros j Hj. rewrite Hg by lia. apply Hb. lia.
Qed.

Lemma c_store_inv s r n bytes r' p a d :
  let x := {| ring := s; producer := p; consumer := CCopied r n bytes; accepted := a; delivered := d |} in
  ring_inv cap x -> advance (capacity s) r n = Ok r' ->
  ring_inv cap {| ring := {| buffer := buffer s; capacity := capacity s; write_pos := write_pos s;
                             read_pos := r' |};
                  producer := p; consumer := CIdle; accepted := a; delivered := d ++ bytes |}.
Proof.
  intros x Hx Ea. subst x.
  destruct Hx as [Hc [rest Hp] Hroom Hw Hr [Hbl Hb] Hprod (Er & Hn & Hbn & Hle & Hby)].
  cbn [ring producer consumer accepted delivered] in *. subst r. rewrite Hc in *.
  rewrite advance_ok in Ea by lia. injection Ea as <-.
  assert (zlen (d ++ bytes) = zlen d + n) as Hlen by (rewrite zlen_app; lia).
  split; cbn [ring producer consumer accepted delivered buffer capacity write_pos read_pos];
    rewrite ?Hlen; try done; try lia.
  - exists (drop (Z.to_nat n) rest). rewrite Hp, <- app_assoc. f_equal.
    rewrite Hp, zlen_app in Hle.
    rewrite <- (take_drop (Z.to_nat n) rest) at 1. f_equal. symmetry.
    apply zget_list_eq; [rewrite zlen_take; lia|]. intros j Hj.
    rewrite zget_take, Hby, Hp, zget_app_r by lia. f_equal. lia.
  - split; [done|]. intros i Hi. apply Hb. lia.
  - destruct p as [|data w r|data w m]; simpl in *; [done| |].
    + destruct Hprod as (R0 & ? & ? & ? & ?). exists R0. split_and!; [done|done|lia..].
    + destruct Hprod as (? & ? & ? & ?). split_and!; [done|lia|lia|lia|done].
Qed.

Lemma ring_step_inv x x' : ring_step oc x x' -> ring_inv cap x -> ring_inv cap x'.
Proof.
  intros Hst Hinv. destruct Hst; try (by eapply p_copy_inv); try (by eapply p_store_inv);
    try (by eapply c_copy_inv); try (by eapply c_store_inv);
    destruct Hinv as [Hc [rest Hp] Hroom Hw Hr Hb Hprod Hcons];
    cbn [ring producer consumer accepted delivered] in *.
  - pose proof (zlen_nonneg rest). pose proof (zlen_nonneg d).
    split; cbn [ring producer consumer accepted delivered]; try done; [by exists rest|].
    exists (zlen d). split_and!; [done|done|lia|lia|lia].
  - split; cbn [ring producer consumer accepted delivered]; try done. by exists rest.
  - pose proof (zlen_nonneg rest).
    split; cbn [ring producer consumer accepted delivered]; try done; [by exists rest|].
    exists (zlen a). split_and!; [done|done| |lia|lia]. rewrite Hp, zlen_app. lia.
  - split; cbn [ring producer consumer accepted delivered]; try done. by exists rest.
Qed.

Lemma ring_init_inv :
  ring_inv cap {| ring := ring_new cap; producer := PIdle; consumer := CIdle;
                  accepted := []; delivered := [] |}.
Proof.
  split; cbn [ring producer consumer accepted delivered ring_new capacity write_pos read_pos buffer];
    try done; [by exists []|unfold zlen; simpl; lia|].
  split; [unfold zlen; rewrite length_replicate; lia|]. unfold zlen. simpl. intros; lia.
Qed.

(** A thread inside an operation can always go on. *)
Lemma ring_progress x :
  ring_inv cap x ->
  (producer x <> PIdle -> exists x', ring_step oc x x' /\ consumer x' = consumer x) /\
  (consumer x <> CIdle -> exists x', ring_step oc x x' /\ producer x' = producer x).
Proof.
  intros [Hc [rest Hp] Hroom Hw Hr [Hbl Hb] Hprod Hcons].
  destruct x as [s p c a d]. cbn [ring producer consumer accepted delivered] in *.
  assert (zlen d <= zlen a) as Hda by (rewrite Hp, zlen_app; pose proof (zlen_nonneg rest); lia).
  pose proof (zlen_nonneg d). split; intros Hne.
  - destruct p as [|data w r|data w n]; [done| |].
    + destruct Hprod as (R0 & -> & -> & HR0 & Hd). pose proof (zlen_nonneg data).
      pose proof (enqueue_count_ok cap Hcap Hmax oc R0 (zlen a) (zlen data) ltac:(lia) Hd) as En.
      set (n := Z.min (zlen data) (cap - 1 - (zlen a - R0))) in *.
      destruct (decide (n = 0)) as [E0|E0].
      { eexists. split; [apply p_full; rewrite Hc, En; by f_equal|done]. }
      destruct (loaded_room a R0 (zlen d) n (zlen data)) as (Hn & Hnl & Hlt); [lia..|].
      destruct (enqueue_copy_ok cap Hcap Hmax oc (buffer s) (zlen a) n data Hbl ltac:(lia) Hn Hnl)
        as (buf & E & _).
      eexists. split; [eapply p_copy; [rewrite Hc; exact En|exact E0|rewrite Hc; exact E]|done].
    + destruct Hprod as (-> & Hn & _). eexists.
      split; [eapply p_store; rewrite Hc; apply advance_ok; lia|done].
  - destruct c as [|len w r|r n bytes]; [done| |].
    + destruct Hcons as (W0 & -> & -> & HW & Hlen).
      pose proof (dequeue_count_ok cap Hcap Hmax oc (zlen d) W0 len ltac:(lia) ltac:(lia)) as En.
      set (n := Z.min len (W0 - zlen d)) in *.
      destruct (decide (n = 0)) as [E0|E0].
      { eexists. split; [apply c_empty; rewrite Hc, En; by f_equal|done]. }
      destruct (dequeue_copy_ok cap Hcap Hmax oc (buffer s) (zlen d) n Hbl ltac:(lia) ltac:(lia)) as (b & E & _).
      eexists. split; [eapply c_copy; [rewrite Hc; exact En|exact E0|rewrite Hc; exact E]|done].
    + destruct Hcons as (-> & Hn & _). eexists.
      split; [eapply c_store; rewrite Hc; apply advance_ok; lia|done].
Qed.
End ring_proofs.

(** * The whole operations as queue operations *)
Section sequential.
Context (oc : bool) (cap : Z) (Hcap : 1 <= cap) (Hmax : cap < 2 ^ 63).

Definition quiescent (s : RingBuffer) (a d : list Z) : World :=
  {| ring := s; producer := PIdle; consumer := CIdle; accepted := a; delivered := d |}.

(** The bytes in flight of a quiescent ring. *)
Definition represents (s : RingBuffer) (q : list Z) : Prop :=
  capacity s = cap /\ exists d, ring_inv cap (quiescent s (d ++ q) d).

Lemma represents_new : represents (ring_new cap) [].
Proof. split; [done|]. exists []. by apply ring_init_inv. Qed.

Lemma represents_bound s q : represents s q -> zlen q < cap.
Proof.
  intros [_ [d [_ _ Hroom _ _ _ _ _]]]. cbn [accepted delivered quiescent] in Hroom.
  rewrite zlen_app in Hroom. lia.
Qed.

Lemma enqueue_slice_ok s q data :
  represents s q ->
  exists s', enqueue_slice oc s data = Ok (Z.min (zlen data) (cap - 1 - zlen q), s') /\
    represents s' (q ++ take (Z.to_nat (Z.min (zlen data) (cap - 1 - zlen q))) data).
Proof.
  intros Hrep. pose proof (represents_bound s q Hrep) as Hq. destruct Hrep as [Hc [d Hinv]].
  set (n := Z.min (zlen data) (cap - 1 - zlen q)).
  pose proof (ring_step_inv oc cap Hcap Hmax _ _ (p_load oc s data _ _ _) Hinv) as K1.
  pose proof Hinv as [_ _ _ Hw Hr [Hbl _] _ _].
  cbn [quiescent ring accepted delivered] in Hw, Hr, Hbl. rewrite zlen_app in Hw.
  pose proof (zlen_nonneg q). pose proof (zlen_nonneg d). pose proof (zlen_nonneg data).
  assert (enqueue_count oc (capacity s) (write_pos s) (read_pos s) (zlen data) = Ok n) as En.
  { rewrite Hc, Hw, Hr, (enqueue_count_ok cap Hcap Hmax) by lia. unfold n. do 2 f_equal. lia. }
  unfold enqueue_slice. rewrite En. rstep. destruct (Z.eqb_spec n 0) as [E0|E0].
  { exists s. rewrite E0. split; [done|]. simpl. rewrite app_nil_r. split; [done|by exists d]. }
  destruct (enqueue_copy_ok cap Hcap Hmax oc (buffer s) (zlen d + zlen q) n data Hbl)
    as (buf & Ecopy & _); [lia..|].
  rewrite <- Hw, <- Hc in Ecopy. rewrite Ecopy. rstep.
  assert (advance (capacity s) (write_pos s) n = Ok ((zlen d + zlen q + n) mod cap)) as Eadv.
  { rewrite Hc, Hw. apply advance_ok; lia. }
  rewrite Eadv. rstep. eexists. split; [done|]. split; [done|]. exists d.
  pose proof (ring_step_inv oc cap Hcap Hmax _ _ (p_copy oc _ _ _ _ _ _ _ _ _ En E0 Ecopy) K1) as K2.
  pose proof (ring_step_inv oc cap Hcap Hmax _ _ (p_store oc {| buffer := buf; capacity := capacity s; write_pos := write_pos s;
    read_pos := read_pos s |} _ _ _ _ _ _ _ Eadv) K2) as K3.
  unfold quiescent. by rewrite app_assoc.
Qed.

Lemma dequeue_slice_ok s q len :
  0 <= len -> represents s q ->
  exists s', dequeue_slice oc s len = Ok (take (Z.to_nat (Z.min len (zlen q))) q, s') /\
    represents s' (drop (Z.to_nat (Z.min len (zlen q))) q).
Proof.
  intros Hlen Hrep. pose proof (represents_bound s q Hrep) as Hq. destruct Hrep as [Hc [d Hinv]].
  set (n := Z.min len (zlen q)).
  pose proof (ring_step_inv oc cap Hcap Hmax _ _ (c_load oc s len _ _ _ Hlen) Hinv) as K1.
  pose proof Hinv as [_ _ _ Hw Hr [Hbl Hb] _ _].
  cbn [quiescent ring accepted delivered] in Hw, Hr, Hbl, Hb. rewrite zlen_app in Hw, Hb.
  pose proof (zlen_nonneg q). pose proof (zlen_nonneg d).
  assert (dequeue_count oc (capacity s) (write_pos s) (read_pos s) len = Ok n) as En.
  { rewrite Hc, Hw, Hr, (dequeue_count_ok cap Hcap Hmax) by lia. unfold n. do 2 f_equal. lia. }
  unfold dequeue_slice. rewrite En. rstep. destruct (Z.eqb_spec n 0) as [E0|E0].
  { exists s. rewrite E0. split; [done|]. split; [done|by exists d]. }
  destruct (dequeue_copy_ok cap Hcap Hmax oc (buffer s) (zlen d) n Hbl) as (bytes & Ecopy & Hl & Hg); [lia..|].
  assert (bytes = take (Z.to_nat n) q) as ->.
  { apply zget_list_eq; [rewrite zlen_take; lia|]. intros j Hj.
    rewrite zget_take, Hg, Hb, zget_app_r by lia. f_equal. lia. }
  rewrite <- Hr, <- Hc in Ecopy. rewrite Ecopy. rstep.
  assert (advance (capacity s) (read_pos s) n = Ok ((zlen d + n) mod cap)) as Eadv.
  { rewrite Hc, Hr. apply advance_ok; lia. }
  rewrite Eadv. rstep. eexists. split; [done|]. split; [done|]. exists (d ++ take (Z.to_nat n) q).
  pose proof (ring_step_inv oc cap Hcap Hmax _ _ (c_copy oc _ _ _ _ _ _ _ _ _ En E0 Ecopy) K1) as K2.
  pose proof (ring_step_inv oc cap Hcap Hmax _ _ (c_store oc _ _ _ _ _ _ _ _ Eadv) K2) as K3.
  unfold quiescent. by rewrite <- app_assoc, take_drop.
Qed.

Lemma flags_ok s q :
  represents s q -> (ring_is_empty s = true <-> q = []) /\ ring_is_full s = Ok (bool_decide (zlen q = cap - 1)).
Proof.
  intros Hrep. pose proof (represents_bound s q Hrep) as Hq. destruct Hrep as [Hc [d Hinv]].
  pose proof Hinv as [_ _ _ Hw Hr _ _ _].
  cbn [quiescent ring accepted delivered] in Hw, Hr. rewrite zlen_app in Hw.
  pose proof (zlen_nonneg q). pose proof (zlen_nonneg d).
  pose proof (mod_dist cap Hcap (zlen d) (zlen d + zlen q) ltac:(lia) ltac:(lia)) as Hd.
  pose proof (Z.mod_pos_bound (zlen d) cap ltac:(lia)).
  pose proof (Z.mod_pos_bound (zlen d + zlen q) cap ltac:(lia)).
  unfold ring_is_empty, ring_is_full. rewrite Hc, Hw, Hr. split.
  - rewrite Z.eqb_eq. split; intros E.
    + apply length_zero_iff_nil. rewrite E, Z.leb_refl in Hd. unfold zlen in *. lia.
    + rewrite E. unfold zlen at 2. simpl. by rewrite Z.add_0_r.
  - rewrite advance_ok by lia. rstep. f_equal.
    assert ((zlen d + zlen q + 1) mod cap = zlen d mod cap <-> zlen q = cap - 1) as Hfull.
    { rewrite <- Z.add_assoc. split; intros E.
      - destruct (decide (zlen q + 1 = cap)) as [|Hne]; [lia|exfalso].
        pose proof (mod_dist cap Hcap (zlen d) (zlen d + (zlen q + 1)) ltac:(lia) ltac:(lia)) as Hd'.
        rewrite E, Z.leb_refl in Hd'. lia.
      - replace (zlen q + 1) with cap by lia.
        by rewrite <- Zplus_mod_idemp_r, Z.mod_same, Z.add_0_r by lia. }
    case_bool_decide as Eq; [by apply Z.eqb_eq, Hfull|]. apply Z.eqb_neq. intros E. by apply Eq, Hfull.
Qed.
End sequential.

(** * Theorems *)

(** C14: the ring buffer is a bounded queue under every interleaving.  From an
    empty ring of any usable capacity, whatever steps the two threads take,
    the bytes delivered to the consumer are a prefix of the bytes accepted
    from the producer (nothing is lost, reordered or overwritten), at most
    [capacity - 1] bytes are in flight, and a thread inside an operation can
    always take its next step: no slice or subtraction panics. *)
Theorem ring_is_fifo (oc : bool) (cap : Z) (x : World) (Hcap : 1 <= cap) (Hmax : cap < 2 ^ 63)
    (Hreach : rtc (ring_step oc)
      {| ring := ring_new cap; producer := PIdle; consumer := CIdle; accepted := []; delivered := [] |} x) :
  (exists rest, accepted x = delivered x ++ rest /\ zlen rest < cap) /\
  (producer x <> PIdle -> exists x', ring_step oc x x' /\ consumer x' = consumer x) /\
  (consumer x <> CIdle -> exists x', ring_step oc x x' /\ producer x' = producer x).
Proof.
  assert (ring_inv cap x) as Hinv.
  { revert Hreach. generalize (ring_init_inv cap Hcap).
    generalize {| ring := ring_new cap; producer := PIdle; consumer := CIdle; accepted := []; delivered := [] |}.
    intros x0 Hi. induction 1 as [|x1 x2 x3 Hst _ IH]; [done|]. apply IH. by eapply ring_step_inv. }
  split; [|by eapply ring_progress].
  destruct Hinv as [_ [rest Hp] Hroom _ _ _ _ _]. exists rest. split; [done|].
  rewrite Hp, zlen_app in Hroom. lia.
Qed.

Lemma ring_is_fifo_witness :
  exists rest, [1; 2] = [] ++ rest /\ zlen rest < 4.
Proof.
  destruct (ring_is_fifo true 4
    {| ring := {| buffer := [1; 2; 0; 0]; capacity := 4; write_pos := 2; read_pos := 0 |};
       producer := PIdle; consumer := CIdle; accepted := [1; 2]; delivered := [] |}) as [H _].
  - discriminate.
  - reflexivity.
  - eapply rtc_l; [apply (p_load true (ring_new 4) [1; 2])|].
    eapply rtc_l; [eapply p_copy; [reflexivity|discriminate|reflexivity]|].
    eapply rtc_l; [eapply p_store; reflexivity|]. apply rtc_refl.
  - exact H.
Defined.

(** Used one call at a time, the ring buffer is a queue of at most
    [capacity - 1] bytes: a new ring is empty, [enqueue_slice] never panics,
    appends as many bytes of its argument as fit and returns their number,
    [dequeue_slice] never panics, removes and returns the oldest bytes, and
    [is_empty] and [is_full] answer for the queue. *)
Theorem ring_is_queue (oc : bool) (cap : Z) (Hcap : 1 <= cap) (Hmax : cap < 2 ^ 63) :
  represents cap (ring_new cap) [] /\
  forall s q, represents cap s q ->
    zlen q < cap /\
    (forall data, exists s',
       enqueue_slice oc s data = Ok (Z.min (zlen data) (cap - 1 - zlen q), s') /\
       represents cap s' (q ++ take (Z.to_nat (Z.min (zlen data) (cap - 1 - zlen q))) data)) /\
    (forall len, 0 <= len -> exists s',
       dequeue_slice oc s len = Ok (take (Z.to_nat (Z.min len (zlen q))) q, s') /\
       represents cap s' (drop (Z.to_nat (Z.min len (zlen q))) q)) /\
    (ring_is_empty s = true <-> q = []) /\ ring_is_full s = Ok (bool_decide (zlen q = cap - 1)).
Proof.
  split; [by apply represents_new|]. intros s q Hrep. split_and!.
  - by eapply represents_bound.
  - intros data. by apply enqueue_slice_ok.
  - intros len Hlen. by apply dequeue_slice_ok.
  - by eapply flags_ok.
  - by eapply flags_ok.
Qed.

Lemma ring_is_queue_witness :
  exists s', enqueue_slice true (ring_new 4) [7; 8; 9; 10] = Ok (3, s') /\ represents 4 s' [7; 8; 9].
Proof.
  destruct (ring_is_queue true 4) as [Hnew Hops]; [discriminate|reflexivity|].
  destruct (Hops _ _ Hnew) as (_ & Henq & _). exact (Henq [7; 8; 9; 10]).
Defined.
