(* ===== verification/Netstack.v ===== *)
(** * The user-space network stack ([clash-netstack])

    IP packets of the tun device are sorted into UDP and TCP; TCP goes
    through smoltcp, whose sockets exchange bytes with the streams of the
    proxy through two ring buffers ([RingBuffer]).  The packet parsers of
    smoltcp and the packet builder of etherparse are parameters; a smoltcp
    socket is its two byte queues and its state. *)

From S2P Require Import Prelude Net RingBuffer.

(** ** The packet crates *)
Record IpPacket : Type := { ip_src : IpAddr; ip_dst : IpAddr; ip_protocol : Z; ip_payload : list Z }.
Record TcpHead : Type := { th_src_port : Z; th_dst_port : Z; th_syn : bool; th_ack : bool }.
(** [of_packet] is the version, [new_checked] the packet of that version;
    [None] is an error.  A built UDP packet may be too long. *)
Class WireLib : Type := {
  ip_version : list Z -> option bool;
  ipv4_new_checked : list Z -> option IpPacket;
  ipv6_new_checked : list Z -> option IpPacket;
  tcp_new_checked : list Z -> option TcpHead;
  udp_new_checked : list Z -> option (Z * Z * list Z);
  udp_build_v4 : Z -> Z -> Z -> Z -> list Z -> res (list Z);
  udp_build_v6 : Z -> Z -> Z -> Z -> list Z -> res (list Z);
}.
Definition PROTO_ICMP : Z := 1.
Definition PROTO_TCP : Z := 6.
Definition PROTO_UDP : Z := 17.
Definition PROTO_ICMPV6 : Z := 58.

Section stack.
Context {WL : WireLib}.

(** [ip_version]: [true] for version 6. *)
(* @src clash-netstack/src/packet.rs ~    pub fn new_checked~ IpPacket::new_checked *)
Definition ip_new_checked (data : list Z) : option IpPacket :=
  match ip_version data with
  | Some false => ipv4_new_checked data
  | Some true => ipv6_new_checked data
  | None => None
  end.

(** ** The sink and the stream of the device side ([stack.rs]) *)
(** A sending half: what was sent, and whether the receiver is there. *)
Record Sender : Type := { sn_queue : list (list Z); sn_open : bool }.
Definition push (p : list Z) (s : Sender) : option Sender :=
  if sn_open s then Some {| sn_queue := sn_queue s ++ [p]; sn_open := true |} else None.
(* @src clash-netstack/src/stack.rs ~^pub struct StackSplitSink~ StackSplitSink *)
Record StackSplitSink : Type := { udp_inbound : Sender; tcp_inbound : Sender; packet_container : option (list Z * Z) }.
(* @src clash-netstack/src/stack.rs ~    pub fn new\($~#1 StackSplitSink::new *)
Definition sink_new (u t : Sender) : StackSplitSink := {| udp_inbound := u; tcp_inbound := t; packet_container := None |}.
(** [false] is pending. *)
(* @src clash-netstack/src/stack.rs ~    fn poll_ready~ StackSplitSink::poll_ready *)
Definition sink_poll_ready (s : StackSplitSink) : bool := match packet_container s with None => true | Some _ => false end.
(* @src clash-netstack/src/stack.rs ~    fn start_send~ StackSplitSink::start_send *)
Definition sink_start_send (item : list Z) (s : StackSplitSink) : res unit * StackSplitSink :=
  if bool_decide (item = []) then (Ok tt, s)
  else
    match ip_new_checked item with
    | None => (Err "invalid data", s)
    | Some packet =>
      let protocol := ip_protocol packet in
      if (protocol =? PROTO_TCP) || (protocol =? PROTO_UDP) || (protocol =? PROTO_ICMP) || (protocol =? PROTO_ICMPV6) then
        (Ok tt, {| udp_inbound := udp_inbound s; tcp_inbound := tcp_inbound s; packet_container := Some (item, protocol) |})
      else (Ok tt, s)
    end.
(* @src clash-netstack/src/stack.rs ~    fn poll_flush~ StackSplitSink::poll_flush *)
Definition sink_poll_flush (s : StackSplitSink) : res unit * StackSplitSink :=
  match packet_container s with
  | None => (Ok tt, s)
  | Some (item, proto) =>
    if proto =? PROTO_UDP then
      match push item (udp_inbound s) with
      | Some u => (Ok tt, {| udp_inbound := u; tcp_inbound := tcp_inbound s; packet_container := None |})
      | None => (Ok tt, s)
      end
    else
      match push item (tcp_inbound s) with
      | Some t => (Ok tt, {| udp_inbound := udp_inbound s; tcp_inbound := t; packet_container := None |})
      | None => (Err "broken pipe", {| udp_inbound := udp_inbound s; tcp_inbound := tcp_inbound s; packet_container := None |})
      end
  end.
(** [SinkExt::send]: ready, start, flush; [None] waits, and nobody wakes it. *)
Definition sink_send (item : list Z) (s : StackSplitSink) : option (res unit * StackSplitSink) :=
  if sink_poll_ready s then
    match sink_start_send item s with
    | (Ok _, s) => Some (sink_poll_flush s)
    | r => Some r
    end
  else None.

(** ** UDP ([udp_socket.rs]) *)
(* @src clash-netstack/src/udp_socket.rs ~^pub struct UdpPacket~ UdpPacket *)
Record NetUdpPacket : Type := { nu_data : list Z; nu_local_addr : SocketAddr; nu_remote_addr : SocketAddr }.
(** One packet of the channel; [None] is also what its end gives. *)
(* @src clash-netstack/src/udp_socket.rs ~    pub async fn recv~ SplitRead::recv *)
Definition udp_recv (data : list Z) : option NetUdpPacket :=
  packet ← ip_new_checked data;
  '(src_port, dst_port, payload) ← udp_new_checked (ip_payload packet);
  Some {| nu_data := payload; nu_local_addr := sa_new (ip_src packet) src_port; nu_remote_addr := sa_new (ip_dst packet) dst_port |}.
(* @src clash-netstack/src/udp_socket.rs ~    pub async fn send~ SplitWrite::send *)
Definition udp_send (packet : NetUdpPacket) (out : Sender) : res Sender :=
  if bool_decide (nu_data packet = []) then Ok out
  else
    bytes ← match nu_local_addr packet, nu_remote_addr packet with
            | SV4 src sp, SV4 dst dp => udp_build_v4 src dst sp dp (nu_data packet)
            | SV6 src sp _ _, SV6 dst dp _ _ => udp_build_v6 src dst sp dp (nu_data packet)
            | _, _ => Err "UDP socket only supports IPv4 and IPv6"
            end;
    ok_or (push bytes out) "send error".

(** ** The device of smoltcp ([device.rs]) *)
Inductive IfaceEvent : Type := EvIcmp | EvTcpStream (id : nat) | EvTcpSocketReady | EvTcpSocketClosed | EvDeviceReady.
(** [tx_room]: the free places of the channel towards the tun device. *)
(* @src clash-netstack/src/device.rs ~^pub struct NetstackDevice~ NetstackDevice *)
Record NetstackDevice : Type := { rx_queue : list (list Z); tx_sent : list (list Z); tx_room : nat; dev_events : list IfaceEvent }.
(** A packet is taken before the place for an answer is asked for. *)
(* @src clash-netstack/src/device.rs ~    fn receive~ NetstackDevice::receive *)
Definition dev_receive (d : NetstackDevice) : option (list Z) * NetstackDevice :=
  match rx_queue d with
  | [] => (None, d)
  | p :: q =>
    if (0 <? tx_room d)%nat then (Some p, {| rx_queue := q; tx_sent := tx_sent d; tx_room := tx_room d; dev_events := dev_events d ++ [EvDeviceReady] |})
    else (None, {| rx_queue := q; tx_sent := tx_sent d; tx_room := tx_room d; dev_events := dev_events d |})
  end.
(** A token is a place in the channel; using it sends the packet. *)
(* @src clash-netstack/src/device.rs ~    fn transmit~ NetstackDevice::transmit *)
Definition dev_transmit (p : list Z) (d : NetstackDevice) : option NetstackDevice :=
  if (0 <? tx_room d)%nat then
    Some {| rx_queue := rx_queue d; tx_sent := tx_sent d ++ [p]; tx_room := tx_room d - 1; dev_events := dev_events d |}
  else None.

(** ** Incoming TCP packets ([tcp_listener.rs]) *)
(** What the loop over the packets fills: the queue of the device, the
    events for the other loop, the streams for the proxy.  The receivers of
    the first two live as long as this loop; a stream without a receiver is
    dropped. *)
Record Packets : Type := { pk_device : list (list Z); pk_events : list IfaceEvent; pk_streams : list (nat * SocketAddr * SocketAddr); pk_next : nat }.
Definition pk_event (e : IfaceEvent) (p : Packets) : Packets :=
  {| pk_device := pk_device p; pk_events := pk_events p ++ [e]; pk_streams := pk_streams p; pk_next := pk_next p |}.
Definition pk_inject (f : list Z) (p : Packets) : Packets :=
  {| pk_device := pk_device p ++ [f]; pk_events := pk_events p; pk_streams := pk_streams p; pk_next := pk_next p |}.
Definition pk_stream (src dst : SocketAddr) (p : Packets) : Packets :=
  {| pk_device := pk_device p; pk_events := pk_events p ++ [EvTcpStream (pk_next p)]; pk_streams := pk_streams p ++ [(pk_next p, src, dst)];
     pk_next := S (pk_next p) |}.

(** One frame; a socket cannot listen on port 0. *)
(* @src clash-netstack/src/tcp_listener.rs 144 251 TcpListener::poll_packets (frame) *)
Definition poll_packet (frame : list Z) (p : Packets) : Packets :=
  match ip_new_checked frame with
  | None => p
  | Some packet =>
    if (ip_protocol packet =? PROTO_ICMP) || (ip_protocol packet =? PROTO_ICMPV6) then pk_event EvIcmp (pk_inject frame p)
    else
      match tcp_new_checked (ip_payload packet) with
      | None => p
      | Some h =>
        let src_addr := sa_new (ip_src packet) (th_src_port h) in
        let dst_addr := sa_new (ip_dst packet) (th_dst_port h) in
        if th_syn h && negb (th_ack h) then
          if th_dst_port h =? 0 then p else pk_inject frame (pk_stream src_addr dst_addr p)
        else pk_inject frame p
      end
  end.
(** A batch of at most 32 packets, after which the sockets are polled. *)
(* @src clash-netstack/src/tcp_listener.rs ~    async fn poll_packets~ TcpListener::poll_packets *)
Definition poll_packets (batch : list (list Z)) (p : Packets) : Packets :=
  pk_event EvDeviceReady (foldl (fun p f => poll_packet f p) p batch).
End stack.

(** ** Sockets and streams ([tcp_listener.rs], [tcp_stream.rs]) *)
(* @src clash-netstack/src/tcp_listener.rs 20 21 DEFAULT_TCP_*_BUFFER_SIZE *)
Definition DEFAULT_TCP_BUFFER_SIZE : Z := 256 * 1024.
(** The wakers are the number of times they were woken. *)
(* @src clash-netstack/src/tcp_listener.rs ~^pub\(crate\) struct TcpStreamHandle~ TcpStreamHandle *)
Record TcpStreamHandle : Type := { recv_buffer : RingBuffer; recv_wakes : nat; send_buffer : RingBuffer; send_wakes : nat; socket_dropped : bool }.
(* @src clash-netstack/src/tcp_listener.rs ~    pub fn new\(\) -> Self~ TcpStreamHandle::new *)
Definition handle_new : TcpStreamHandle :=
  {| recv_buffer := ring_new DEFAULT_TCP_BUFFER_SIZE; recv_wakes := 0; send_buffer := ring_new DEFAULT_TCP_BUFFER_SIZE; send_wakes := 0;
     socket_dropped := false |}.
(** A socket of smoltcp: the bytes received and not taken, the bytes to
    transmit (which are kept until acknowledged) and the room for more, and
    what its state lets it do. *)
Record Socket : Type := { so_rx : list Z; so_tx : list Z; so_room : nat; so_active : bool; so_may_send : bool }.
Definition can_recv (s : Socket) : bool := bool_decide (so_rx s <> []).
Definition can_send (s : Socket) : bool := so_may_send s && (0 <? so_room s)%nat.

Section sockets.
Context (oc : bool).
(** How much of the bytes received, and of the room, is one piece in the
    buffers of smoltcp. *)
Context (rx_piece : list Z -> nat) (tx_piece : list Z -> nat -> nat).

Definition with_rx (rx : list Z) (s : Socket) : Socket :=
  {| so_rx := rx; so_tx := so_tx s; so_room := so_room s; so_active := so_active s; so_may_send := so_may_send s |}.
Definition with_tx (bs : list Z) (s : Socket) : Socket :=
  {| so_rx := so_rx s; so_tx := so_tx s ++ bs; so_room := so_room s - length bs; so_active := so_active s; so_may_send := so_may_send s |}.

(** Every round takes a byte off the socket. *)
(* @src clash-netstack/src/tcp_listener.rs 314 327 TcpListener::poll_sockets (receive) *)
Fixpoint recv_loop (fuel : nat) (s : Socket) (buf : RingBuffer) (notify : bool) : res (Socket * RingBuffer * bool) :=
  full ← ring_is_full buf;
  if can_recv s && negb full then
    match fuel with
    | O => Panic
    | S fuel' =>
      '(n, buf) ← enqueue_slice oc buf (take (rx_piece (so_rx s)) (so_rx s));
      recv_loop fuel' (with_rx (drop (Z.to_nat n) (so_rx s)) s) buf true
    end
  else Ok (s, buf, notify).
(** Every round fills a byte of the room. *)
(* @src clash-netstack/src/tcp_listener.rs 329 343 TcpListener::poll_sockets (send) *)
Fixpoint send_loop (fuel : nat) (s : Socket) (buf : RingBuffer) (notify : bool) : res (Socket * RingBuffer * bool) :=
  if can_send s && negb (ring_is_empty buf) then
    match fuel with
    | O => Panic
    | S fuel' =>
      '(bs, buf) ← dequeue_slice oc buf (Z.of_nat (tx_piece (so_tx s) (so_room s)));
      send_loop fuel' (with_tx bs s) buf true
    end
  else Ok (s, buf, notify).

(** A waker that is woken when something moved. *)
Definition woken (notify : bool) : nat := if notify then 1 else 0.

(** A connection: the socket while the stack has it, and the handle that it
    shares with the stream. *)
Record Conn : Type := { cn_socket : option Socket; cn_handle : TcpStreamHandle }.
(* @src clash-netstack/src/tcp_listener.rs 304 364 TcpListener::poll_sockets (one socket) *)
Definition pump (c : Conn) : res Conn :=
  match cn_socket c with
  | None => Ok c
  | Some s =>
    let h := cn_handle c in
    '(s, rb, nr) ← recv_loop (length (so_rx s)) s (recv_buffer h) false;
    '(s, sb, nw) ← send_loop (so_room s) s (send_buffer h) false;
    Ok {| cn_socket := if socket_dropped h then None else if so_active s then Some s else None;
          cn_handle := {| recv_buffer := rb; recv_wakes := recv_wakes h + woken nr; send_buffer := sb;
                          send_wakes := send_wakes h + woken nw; socket_dropped := socket_dropped h |} |}
  end%nat.

(** The stream of the proxy. *)
Definition set_recv (rb : RingBuffer) (h : TcpStreamHandle) : TcpStreamHandle :=
  {| recv_buffer := rb; recv_wakes := recv_wakes h; send_buffer := send_buffer h; send_wakes := send_wakes h; socket_dropped := socket_dropped h |}.
Definition set_send (sb : RingBuffer) (h : TcpStreamHandle) : TcpStreamHandle :=
  {| recv_buffer := recv_buffer h; recv_wakes := recv_wakes h; send_buffer := sb; send_wakes := send_wakes h; socket_dropped := socket_dropped h |}.
(** Every operation tells the loops of the listener, over a channel whose
    receiver goes with them: [open] is false once the listener was dropped or
    its loops have ended.  Sending then fails, for which all but the drop
    panic. *)
(* @src clash-netstack/src/tcp_stream.rs 83 85 TcpStream::poll_read (notify) *)
Definition notify_ready (open : bool) : res (list IfaceEvent) := if open then Ok [EvTcpSocketReady] else Panic.
(** [None]: pending. *)
(* @src clash-netstack/src/tcp_stream.rs ~    fn poll_read~ TcpStream::poll_read *)
Definition stream_read (open : bool) (cap : nat) (h : TcpStreamHandle) : res (option (list Z) * list IfaceEvent * TcpStreamHandle) :=
  if ring_is_empty (recv_buffer h) then Ok (None, [], h)
  else
    '(bs, rb) ← dequeue_slice oc (recv_buffer h) (Z.of_nat cap);
    ev ← notify_ready open;
    Ok (Some bs, ev, set_recv rb h).
(* @src clash-netstack/src/tcp_stream.rs ~    fn poll_write~ TcpStream::poll_write *)
Definition stream_write (open : bool) (buf : list Z) (h : TcpStreamHandle) : res (option Z * list IfaceEvent * TcpStreamHandle) :=
  full ← ring_is_full (send_buffer h);
  if (full : bool) then ev ← notify_ready open; Ok (None, ev, h)
  else
    '(n, sb) ← enqueue_slice oc (send_buffer h) buf;
    ev ← notify_ready open;
    Ok (Some n, ev, set_send sb h).
(* @src clash-netstack/src/tcp_stream.rs ~    fn poll_flush~ TcpStream::poll_flush *)
Definition stream_flush (open : bool) (h : TcpStreamHandle) : res (list IfaceEvent * TcpStreamHandle) :=
  ev ← notify_ready open; Ok (ev, h).
(* @src clash-netstack/src/tcp_stream.rs ~    fn poll_shutdown~ TcpStream::poll_shutdown *)
Definition stream_shutdown (open : bool) (h : TcpStreamHandle) : res (list IfaceEvent * TcpStreamHandle) := stream_flush open h.
(** A notice that cannot be sent is logged. *)
(* @src clash-netstack/src/tcp_stream.rs ~^impl Drop for TcpStream~ TcpStream::drop *)
Definition stream_drop (open : bool) (h : TcpStreamHandle) : list IfaceEvent * TcpStreamHandle :=
  (if open then [EvTcpSocketClosed] else [],
   {| recv_buffer := recv_buffer h; recv_wakes := recv_wakes h; send_buffer := send_buffer h; send_wakes := send_wakes h; socket_dropped := true |}).

(** *** The loop over the sockets *)
(** [next_poll]: the time to wait before the next poll, none for at once. *)
(* @src clash-netstack/src/tcp_listener.rs 283 296 TcpListener::poll_sockets (should_poll_now) *)
Definition should_poll_now (next_poll : option Z) (sockets : nat) : bool :=
  match next_poll, sockets with
  | None, O => false
  | None, _ => true
  | Some _, _ => false
  end.
(* @src clash-netstack/src/tcp_listener.rs 366 373 TcpListener::poll_sockets (next_poll) *)
Definition next_poll_of (delay : option Z) : option Z := match delay with Some d => if d =? 0 then None else Some d | None => None end.

(** smoltcp: a poll takes the packets of the device and works on the
    sockets; then it tells when it wants to be polled again. *)
Context (iface_poll : Z -> NetstackDevice -> list Conn -> NetstackDevice * list Conn) (poll_delay : Z -> list Conn -> option Z).
Record Loop : Type := { lp_device : NetstackDevice; lp_conns : list Conn; lp_next_poll : option Z }.
Definition live (l : list Conn) : nat := length (omap cn_socket l).
(** What wakes the loop when it does not poll: an event, or the time. *)
Inductive Wake : Type := WakeEvent (e : IfaceEvent) | WakeTime.
(** A round of the loop: a poll, or the wait ended by [wake].  A new socket
    comes with its event. *)
(* @src clash-netstack/src/tcp_listener.rs ~    async fn poll_sockets~ TcpListener::poll_sockets *)
Definition poll_sockets_round (now : Z) (wake : Wake) (fresh : Socket) (l : Loop) : res Loop :=
  if should_poll_now (lp_next_poll l) (live (lp_conns l)) then
    let '(d, conns) := iface_poll now (lp_device l) (lp_conns l) in
    conns ← res_fold (fun (acc : list Conn) (c : Conn) => c ← pump c; Ok (acc ++ [c])) [] conns;
    Ok {| lp_device := d; lp_conns := conns; lp_next_poll := next_poll_of (poll_delay now conns) |}
  else
    Ok {| lp_device := lp_device l;
          lp_conns := match wake with
                      | WakeEvent (EvTcpStream _) => lp_conns l ++ [ {| cn_socket := Some fresh; cn_handle := handle_new |} ]
                      | _ => lp_conns l
                      end;
          lp_next_poll := None |}.
End sockets.

(** * Theorems *)

(** ** Bytes between the sockets and the streams *)
Section moves.
Context (oc : bool) (rx_piece : list Z -> nat) (tx_piece : list Z -> nat -> nat).
Hypothesis rx_piece_some : forall l, l <> [] -> (0 < rx_piece l)%nat.
Hypothesis tx_piece_fits : forall l room, (0 < room)%nat -> (0 < tx_piece l room <= room)%nat.
Abbreviation BUF := DEFAULT_TCP_BUFFER_SIZE.
Abbreviation holds_queue := (represents BUF).

Lemma buf_size : 1 <= BUF /\ BUF < 2 ^ 63.
Proof. unfold DEFAULT_TCP_BUFFER_SIZE. lia. Qed.
Lemma take_min_take {A} (l : list A) k n : 0 <= n -> take (Z.to_nat (Z.min (zlen (take k l)) n)) (take k l) = take (Z.to_nat (Z.min (zlen (take k l)) n)) l.
Proof. intros Hn. rewrite take_take. f_equal. unfold zlen. rewrite length_take. lia. Qed.

Lemma nothing_moved (b : bool) : b = b || bool_decide (([] : list Z) <> []).
Proof. rewrite bool_decide_eq_false_2 by tauto. by rewrite orb_false_r. Qed.

(** Receiving moves bytes into the ring until the socket has no more or the
    ring is full. *)
Lemma recv_loop_ok fuel s rb q notify : holds_queue rb q -> (length (so_rx s) <= fuel)%nat ->
  exists moved rest rb' n, so_rx s = moved ++ rest /\ recv_loop oc rx_piece fuel s rb notify = Ok (with_rx rest s, rb', n) /\
    holds_queue rb' (q ++ moved) /\ (rest = [] \/ zlen (q ++ moved) = BUF - 1) /\ n = notify || bool_decide (moved <> []).
Proof.
  destruct buf_size as [Hcap Hmax]. revert s rb q notify. induction fuel as [|fuel IH]; intros s rb q notify Hq Hf;
    cbn [recv_loop]; rewrite (proj2 (flags_ok BUF Hcap rb q Hq)); cbn [mbind res_mbind res_bind]; unfold can_recv.
  - destruct (so_rx s) as [|b l] eqn:E; [|cbn in Hf; lia]. rewrite bool_decide_eq_false_2 by tauto. cbn [andb].
    exists [], [], rb, notify. rewrite !app_nil_r. split_and!; [done| |done|by left|apply nothing_moved].
    destruct s; cbn in E; by subst.
  - destruct (decide (so_rx s = [])) as [E|E].
    { rewrite E, bool_decide_eq_false_2 by tauto. cbn [andb]. exists [], [], rb, notify. rewrite !app_nil_r.
      split_and!; [done| |done|by left|apply nothing_moved]. destruct s; cbn in E; by subst. }
    rewrite (bool_decide_eq_true_2 (so_rx s <> [])) by done. cbn [andb]. case_bool_decide as Hfull; cbn [negb].
    { exists [], (so_rx s), rb, notify. rewrite !app_nil_r. split_and!; [done| |done|by right|apply nothing_moved]. by destruct s. }
    pose proof (represents_bound BUF rb q Hq) as Hb. pose proof (zlen_nonneg q).
    destruct (enqueue_slice_ok oc BUF Hcap Hmax rb q (take (rx_piece (so_rx s)) (so_rx s)) Hq) as (rb1 & He & Hq1).
    rewrite He. cbn [mbind res_mbind res_bind]. rewrite take_min_take in Hq1 by lia.
    set (n := Z.to_nat (Z.min (zlen (take (rx_piece (so_rx s)) (so_rx s))) (BUF - 1 - zlen q))) in *.
    assert (0 < n)%nat as Hn.
    { unfold n, zlen. rewrite length_take. pose proof (rx_piece_some _ E). unfold zlen in *. destruct (so_rx s); [done|cbn [length]; lia]. }
    assert (0 < length (so_rx s))%nat by (destruct (so_rx s); [done|cbn; lia]).
    destruct (IH (with_rx (drop n (so_rx s)) s) rb1 _ true Hq1) as (moved & rest & rb' & k & Hm & Hr & Hq' & Hend & ->).
    { cbn [so_rx with_rx]. rewrite length_drop. lia. }
    cbn [so_rx with_rx] in Hm. exists (take n (so_rx s) ++ moved), rest, rb', true. rewrite <- app_assoc, <- Hm, take_drop, app_assoc.
    split_and!; [done|exact Hr|done|done|]. rewrite bool_decide_eq_true_2; [by rewrite orb_true_r|].
    intros E'. apply app_nil in E' as [E' _]. apply (f_equal length) in E'. rewrite length_take in E'. cbn [length] in E'. lia.
Qed.

(** Sending moves bytes out of the ring until it is empty or the socket takes
    no more. *)
Lemma send_loop_ok fuel s sb q notify : holds_queue sb q -> (so_room s <= fuel)%nat ->
  exists moved rest sb' n, q = moved ++ rest /\ send_loop oc tx_piece fuel s sb notify = Ok (with_tx moved s, sb', n) /\
    holds_queue sb' rest /\ (rest = [] \/ can_send (with_tx moved s) = false) /\ n = notify || bool_decide (moved <> []).
Proof.
  destruct buf_size as [Hcap Hmax]. assert (forall s, with_tx [] s = s) as Hnil.
  { intros [rx tx room a m]. unfold with_tx. cbn. by rewrite app_nil_r, Nat.sub_0_r. }
  revert s sb q notify. induction fuel as [|fuel IH]; intros s sb q notify Hq Hf; cbn [send_loop].
  all: pose proof (proj1 (flags_ok BUF Hcap sb q Hq)) as He.
  all: destruct (can_send s) eqn:Ec; cbn [andb].
  2, 4: exists [], q, sb, notify; rewrite Hnil; split_and!; [done|done|done|by right|apply nothing_moved].
  { unfold can_send in Ec. destruct (Nat.ltb_spec 0 (so_room s)); [lia|]. by rewrite andb_false_r in Ec. }
  destruct (ring_is_empty sb) eqn:Eb; cbn [negb].
  { exists [], q, sb, notify. rewrite Hnil. split_and!; [done|done|done|left; by apply He|apply nothing_moved]. }
  assert (q <> []) as Hne by (intros E; apply He in E; congruence). clear He.
  unfold can_send in Ec. apply andb_prop in Ec as [Ems Hroom]. apply Nat.ltb_lt in Hroom.
  pose proof (tx_piece_fits (so_tx s) (so_room s) Hroom) as Hp.
  destruct (dequeue_slice_ok oc BUF Hcap Hmax sb q (Z.of_nat (tx_piece (so_tx s) (so_room s))) ltac:(lia) Hq) as (sb1 & Hd & Hq1).
  rewrite Hd. cbn [mbind res_mbind res_bind]. set (n := Z.to_nat (Z.min (Z.of_nat (tx_piece (so_tx s) (so_room s))) (zlen q))) in *.
  assert (0 < length q)%nat by (destruct q; [done|cbn; lia]).
  assert (0 < n <= so_room s /\ n <= length q)%nat as Hn by (unfold n, zlen; lia).
  destruct (IH (with_tx (take n q) s) sb1 _ true Hq1) as (moved & rest & sb' & k & Hm & Hr & Hq' & Hend & ->).
  { cbn [so_room with_tx]. rewrite length_take. lia. }
  assert (with_tx moved (with_tx (take n q) s) = with_tx (take n q ++ moved) s) as Hw.
  { unfold with_tx. cbn. rewrite app_assoc, length_app. f_equal. lia. }
  rewrite Hw in *. exists (take n q ++ moved), rest, sb', true. rewrite <- app_assoc, <- Hm, take_drop.
  split_and!; [done|exact Hr|done|done|]. rewrite bool_decide_eq_true_2; [by rewrite orb_true_r|].
  intros E'. apply app_nil in E' as [E' _]. apply (f_equal length) in E'. rewrite length_take in E'. cbn [length] in E'. lia.
Qed.

(** One turn of a socket in the loop. *)
Lemma pump_ok c s qi qo : cn_socket c = Some s -> holds_queue (recv_buffer (cn_handle c)) qi -> holds_queue (send_buffer (cn_handle c)) qo ->
  exists mi ri mo ro c', so_rx s = mi ++ ri /\ qo = mo ++ ro /\ pump oc rx_piece tx_piece c = Ok c' /\
    holds_queue (recv_buffer (cn_handle c')) (qi ++ mi) /\ holds_queue (send_buffer (cn_handle c')) ro /\
    cn_socket c' = (if socket_dropped (cn_handle c) then None else if so_active s then Some (with_tx mo (with_rx ri s)) else None) /\
    socket_dropped (cn_handle c') = socket_dropped (cn_handle c) /\
    (ri = [] \/ zlen (qi ++ mi) = BUF - 1) /\ (ro = [] \/ can_send (with_tx mo s) = false) /\
    (mi <> [] -> recv_wakes (cn_handle c') = S (recv_wakes (cn_handle c))) /\
    (mo <> [] -> send_wakes (cn_handle c') = S (send_wakes (cn_handle c))).
Proof.
  intros Hs Hi Ho. destruct (recv_loop_ok (length (so_rx s)) s _ qi false Hi (Nat.le_refl _)) as (mi & ri & rb & nr & E1 & E2 & E3 & E4 & ->).
  destruct (send_loop_ok (so_room s) (with_rx ri s) _ qo false Ho (Nat.le_refl _)) as (mo & ro & sb & nw & F1 & F2 & F3 & F4 & ->).
  exists mi, ri, mo, ro. unfold pump. rewrite Hs, E2. cbn [mbind res_mbind res_bind]. cbn [so_room with_rx] in F2 |- *. rewrite F2.
  cbn [mbind res_mbind res_bind]. eexists. split_and!; [done|done|reflexivity|done|done|done|done|done|done| |]; cbn [cn_handle recv_wakes send_wakes].
  - intros Hm. rewrite bool_decide_eq_true_2 by done. cbn. lia.
  - intros Hm. rewrite bool_decide_eq_true_2 by done. cbn. lia.
Qed.

(** ** A connection from end to end

    What the network brought and took, and what the proxy read and wrote;
    [fl_open]: the loops of the listener run. *)
Record Flow : Type := { fl_open : bool; fl_conn : Conn; fl_arrived : list Z; fl_read : list Z; fl_written : list Z; fl_sent : list Z }.
Definition set_sock (s : Socket) (f : Flow) (arrived sent : list Z) : Flow :=
  {| fl_open := fl_open f; fl_conn := {| cn_socket := Some s; cn_handle := cn_handle (fl_conn f) |}; fl_arrived := fl_arrived f ++ arrived; fl_read := fl_read f;
     fl_written := fl_written f; fl_sent := fl_sent f ++ sent |}.
Definition set_handle (h : TcpStreamHandle) (f : Flow) (bs written : list Z) : Flow :=
  {| fl_open := fl_open f; fl_conn := {| cn_socket := cn_socket (fl_conn f); cn_handle := h |}; fl_arrived := fl_arrived f; fl_read := fl_read f ++ bs;
     fl_written := fl_written f ++ written; fl_sent := fl_sent f |}.
(** smoltcp receives bytes in order, has bytes acknowledged, changes the
    state of the socket; the loop moves bytes; the proxy reads, writes and
    drops its stream; the listener is dropped, or its loops end, and the
    sockets go with them while the stream stays. *)
Inductive flow_step (f : Flow) : Flow -> Prop :=
| fs_arrive s bs : cn_socket (fl_conn f) = Some s -> flow_step f (set_sock (with_rx (so_rx s ++ bs) s) f bs [])
| fs_transmit s n : cn_socket (fl_conn f) = Some s -> (n <= length (so_tx s))%nat ->
    flow_step f (set_sock {| so_rx := so_rx s; so_tx := drop n (so_tx s); so_room := so_room s + n; so_active := so_active s; so_may_send := so_may_send s |}
                   f [] (take n (so_tx s)))
| fs_state s active may_send : cn_socket (fl_conn f) = Some s ->
    flow_step f (set_sock {| so_rx := so_rx s; so_tx := so_tx s; so_room := so_room s; so_active := active; so_may_send := may_send |} f [] [])
| fs_pump c : pump oc rx_piece tx_piece (fl_conn f) = Ok c ->
    flow_step f {| fl_open := fl_open f; fl_conn := c; fl_arrived := fl_arrived f; fl_read := fl_read f; fl_written := fl_written f; fl_sent := fl_sent f |}
| fs_read cap bs ev h : stream_read oc (fl_open f) cap (cn_handle (fl_conn f)) = Ok (Some bs, ev, h) -> flow_step f (set_handle h f bs [])
| fs_write buf n ev h : stream_write oc (fl_open f) buf (cn_handle (fl_conn f)) = Ok (Some n, ev, h) -> flow_step f (set_handle h f [] (take (Z.to_nat n) buf))
| fs_drop : flow_step f (set_handle (snd (stream_drop (fl_open f) (cn_handle (fl_conn f)))) f [] [])
| fs_stop : flow_step f {| fl_open := false; fl_conn := {| cn_socket := None; cn_handle := cn_handle (fl_conn f) |}; fl_arrived := fl_arrived f;
                           fl_read := fl_read f; fl_written := fl_written f; fl_sent := fl_sent f |}.

(** A new connection, with the socket as it was made. *)
Definition flow_new (room : nat) : Flow :=
  {| fl_open := true; fl_conn := {| cn_socket := Some {| so_rx := []; so_tx := []; so_room := room; so_active := true; so_may_send := true |}; cn_handle := handle_new |};
     fl_arrived := []; fl_read := []; fl_written := []; fl_sent := [] |}.

Definition flow_inv (f : Flow) : Prop := exists qi qo,
  holds_queue (recv_buffer (cn_handle (fl_conn f))) qi /\ holds_queue (send_buffer (cn_handle (fl_conn f))) qo /\
  match cn_socket (fl_conn f) with
  | Some s => fl_arrived f = fl_read f ++ qi ++ so_rx s /\ fl_written f = fl_sent f ++ so_tx s ++ qo
  | None => (fl_read f ++ qi) `prefix_of` fl_arrived f /\ fl_sent f `prefix_of` fl_written f
  end.

Lemma flow_new_inv room : flow_inv (flow_new room).
Proof. destruct buf_size as [Hcap Hmax]. exists [], []. split_and!; [apply represents_new; lia..|]. by split. Qed.

Lemma flow_step_inv f f' : flow_step f f' -> flow_inv f -> flow_inv f'.
Proof.
  destruct buf_size as [Hcap Hmax]. intros Hst (qi & qo & Hi & Ho & Hf).
  destruct Hst as [s bs Es|s n Es _|s a m Es|c Hp|cap bs ev h Hr|buf n ev h Hw| |].
  - exists qi, qo. rewrite Es in Hf. destruct Hf as [F1 F2]. split_and!; [done|done|]. cbn. rewrite F1, F2, !app_nil_r. split; [by rewrite <- !app_assoc|done].
  - exists qi, qo. rewrite Es in Hf. destruct Hf as [F1 F2]. split_and!; [done|done|]. cbn. rewrite F1, F2, !app_nil_r. split; [done|].
    rewrite <- !app_assoc. f_equal. by rewrite app_assoc, take_drop.
  - exists qi, qo. rewrite Es in Hf. destruct Hf as [F1 F2]. split_and!; [done|done|]. cbn. by rewrite F1, F2, !app_nil_r.
  - destruct (cn_socket (fl_conn f)) as [s|] eqn:Es.
    + destruct (pump_ok _ s qi qo Es Hi Ho) as (mi & ri & mo & ro & c' & E1 & E2 & E3 & E4 & E5 & E6 & _). rewrite E3 in Hp. injection Hp as <-.
      exists (qi ++ mi), ro. split_and!; [done|done|]. cbn [fl_conn fl_arrived fl_read fl_written fl_sent]. rewrite E6. destruct Hf as [F1 F2].
      assert (fl_arrived f = fl_read f ++ (qi ++ mi) ++ ri) as G1 by (rewrite F1, E1; by rewrite <- !app_assoc).
      assert (fl_written f = fl_sent f ++ (so_tx s ++ mo) ++ ro) as G2 by (rewrite F2, E2; by rewrite <- !app_assoc).
      assert ((fl_read f ++ qi ++ mi) `prefix_of` fl_arrived f /\ fl_sent f `prefix_of` fl_written f) as G3.
      { split; [exists ri; by rewrite G1, !app_assoc|eexists; exact G2]. }
      destruct (socket_dropped _); [done|]. by destruct (so_active s).
    + unfold pump in Hp. rewrite Es in Hp. injection Hp as <-. exists qi, qo. split; [done|]. split; [done|]. cbn. rewrite Es. exact Hf.
  - unfold stream_read in Hr. destruct (ring_is_empty _); [done|].
    destruct (dequeue_slice_ok oc BUF Hcap Hmax _ qi (Z.of_nat cap) ltac:(lia) Hi) as (rb & Hd & Hq). rewrite Hd in Hr. cbn [mbind res_mbind res_bind] in Hr.
    apply res_bind_ok in Hr as (ev' & _ & Hr). injection Hr as <- _ <-. set (k := Z.to_nat (Z.min (Z.of_nat cap) (zlen qi))) in *. exists (drop k qi), qo. split_and!; [done|done|].
    cbn. rewrite app_nil_r. destruct (cn_socket (fl_conn f)).
    + destruct Hf as [F1 F2]. split; [|done]. rewrite F1. rewrite <- (take_drop k qi) at 1. by rewrite <- !app_assoc.
    + destruct Hf as [F1 F2]. split; [|done]. by rewrite <- app_assoc, take_drop.
  - unfold stream_write in Hw. rewrite (proj2 (flags_ok BUF Hcap _ _ Ho)) in Hw. cbn [mbind res_mbind res_bind] in Hw. destruct (bool_decide _); [by apply res_bind_ok in Hw as (? & _ & ?)|].
    destruct (enqueue_slice_ok oc BUF Hcap Hmax _ qo buf Ho) as (sb & He & Hq). rewrite He in Hw. cbn [mbind res_mbind res_bind] in Hw.
    apply res_bind_ok in Hw as (ev' & _ & Hw). injection Hw as <- _ <-. eexists qi, _. split_and!; [done|exact Hq|]. cbn. rewrite app_nil_r. destruct (cn_socket (fl_conn f)).
    + destruct Hf as [F1 F2]. split; [done|]. rewrite F2. by rewrite <- !app_assoc.
    + destruct Hf as [F1 F2]. split; [done|]. by apply prefix_app_r.
  - exists qi, qo. split_and!; [done|done|]. cbn. rewrite !app_nil_r. destruct (cn_socket (fl_conn f)); done.
  - exists qi, qo. split_and!; [done|done|]. cbn. destruct (cn_socket (fl_conn f)); [|done]. destruct Hf as [F1 F2].
    split; eexists; [|exact F2]. by rewrite F1, <- app_assoc.
Qed.

(** What a read and a write do on rings that represent queues. *)
Lemma stream_read_ok open cap h qi : holds_queue (recv_buffer h) qi -> qi <> [] ->
  exists rb, holds_queue rb (drop (Z.to_nat (Z.min (Z.of_nat cap) (zlen qi))) qi) /\
    stream_read oc open cap h =
      (ev ← notify_ready open; Ok (Some (take (Z.to_nat (Z.min (Z.of_nat cap) (zlen qi))) qi), ev, set_recv rb h)).
Proof.
  destruct buf_size as [Hcap Hmax]. intros Hi Hne. unfold stream_read.
  destruct (ring_is_empty _) eqn:E; [by apply (proj1 (flags_ok BUF Hcap _ _ Hi)) in E|].
  destruct (dequeue_slice_ok oc BUF Hcap Hmax _ qi (Z.of_nat cap) ltac:(lia) Hi) as (rb & -> & Hq). by exists rb.
Qed.
Lemma stream_write_ok open buf h qo : holds_queue (send_buffer h) qo ->
  exists x, stream_write oc open buf h = (ev ← notify_ready open; Ok (fst x, ev, snd x)).
Proof.
  destruct buf_size as [Hcap Hmax]. intros Ho. unfold stream_write. rewrite (proj2 (flags_ok _ Hcap _ _ Ho)). cbn [mbind res_mbind res_bind].
  destruct (bool_decide _); [by exists (None, h)|].
  destruct (enqueue_slice_ok oc _ Hcap Hmax _ qo buf Ho) as (sb & -> & _). by eexists (Some _, _).
Qed.
End moves.

(** C15: the streams of the network stack are transparent.  Whatever the
    network brings and takes, whenever the loop turns and the proxy reads and
    writes, what the proxy has read is a prefix of what arrived and what was
    transmitted a prefix of what it wrote, in order; while the stack keeps
    the socket nothing is lost, all of the rest being in the socket's buffer
    or the ring, which holds less than its capacity.  No turn of the loop
    panics, and while the loops of the listener run no read or write does;
    once they have stopped (the listener dropped, or its packets ended) a
    read of what is left and every write panics, and a read of an empty ring
    waits. *)
Theorem stream_transparent (oc : bool) (rx_piece : list Z -> nat) (tx_piece : list Z -> nat -> nat) (room : nat) (f : Flow)
    (Hrx : forall l, l <> [] -> (0 < rx_piece l)%nat) (Htx : forall l room, (0 < room)%nat -> (0 < tx_piece l room <= room)%nat)
    (Hreach : rtc (flow_step oc rx_piece tx_piece) (flow_new room) f) :
  fl_read f `prefix_of` fl_arrived f /\ fl_sent f `prefix_of` fl_written f /\
  (forall s, cn_socket (fl_conn f) = Some s -> exists qi qo,
     fl_arrived f = fl_read f ++ qi ++ so_rx s /\ fl_written f = fl_sent f ++ so_tx s ++ qo /\
     zlen qi < DEFAULT_TCP_BUFFER_SIZE /\ zlen qo < DEFAULT_TCP_BUFFER_SIZE) /\
  (exists c, pump oc rx_piece tx_piece (fl_conn f) = Ok c) /\
  (forall cap,
     if ring_is_empty (recv_buffer (cn_handle (fl_conn f))) then
       stream_read oc (fl_open f) cap (cn_handle (fl_conn f)) = Ok (None, [], cn_handle (fl_conn f))
     else if fl_open f then exists bs h, stream_read oc (fl_open f) cap (cn_handle (fl_conn f)) = Ok (Some bs, [EvTcpSocketReady], h)
     else stream_read oc (fl_open f) cap (cn_handle (fl_conn f)) = Panic) /\
  (forall buf,
     if fl_open f then exists n h, stream_write oc (fl_open f) buf (cn_handle (fl_conn f)) = Ok (n, [EvTcpSocketReady], h)
     else stream_write oc (fl_open f) buf (cn_handle (fl_conn f)) = Panic).
Proof.
  destruct buf_size as [Hcap Hmax]. assert (flow_inv f) as (qi & qo & Hi & Ho & Hf).
  { revert Hreach. generalize (flow_new_inv room). generalize (flow_new room). intros f0 H0. induction 1 as [|f1 f2 f3 Hs _ IH]; [done|].
    apply IH. by eapply (flow_step_inv oc rx_piece tx_piece). }
  split; [|split; [|split; [|split; [|split]]]].
  - destruct (cn_socket (fl_conn f)); destruct Hf as [F1 F2]; [by eexists|]. by eapply prefix_app_l.
  - destruct (cn_socket (fl_conn f)); destruct Hf as [F1 F2]; [by eexists|done].
  - intros s Es. rewrite Es in Hf. exists qi, qo. destruct Hf as [F1 F2]. split_and!; [done|done|by eapply represents_bound..].
  - destruct (cn_socket (fl_conn f)) as [s|] eqn:Es.
    + destruct (pump_ok oc rx_piece tx_piece Hrx Htx _ s qi qo Es Hi Ho) as (? & ? & ? & ? & c & _ & _ & E & _). by exists c.
    + exists (fl_conn f). unfold pump. by rewrite Es.
  - intros cap. destruct (ring_is_empty _) eqn:E; [unfold stream_read; by rewrite E|].
    destruct (stream_read_ok oc (fl_open f) cap _ qi Hi) as (rb & _ & ->).
    { intros ->. by rewrite (proj2 (proj1 (flags_ok _ Hcap _ _ Hi))) in E. }
    destruct (fl_open f); [by do 2 eexists|done].
  - intros buf. destruct (stream_write_ok oc (fl_open f) buf _ qo Ho) as ([n h] & ->). destruct (fl_open f); [by do 2 eexists|done].
Qed.

Section netstack_witness.
Abbreviation whole := (fun l : list Z => length l).
Abbreviation all_room := (fun (_ : list Z) (room : nat) => room).
Lemma stream_transparent_witness :
  exists f, rtc (flow_step true whole all_room) (flow_new 4) f /\ fl_arrived f = [1; 2] /\ fl_read f `prefix_of` [1; 2].
Proof.
  assert (forall l : list Z, l <> [] -> (0 < length l)%nat) as Hrx by (intros [|b l] H; [congruence|cbn; lia]).
  assert (forall (l : list Z) room, (0 < room)%nat -> (0 < room <= room)%nat) as Htx by (intros; lia).
  set (f1 := set_sock (with_rx [1; 2] {| so_rx := []; so_tx := []; so_room := 4; so_active := true; so_may_send := true |}) (flow_new 4) [1; 2] []).
  assert (rtc (flow_step true whole all_room) (flow_new 4) f1) as R1.
  { eapply rtc_l; [|apply rtc_refl]. exact (fs_arrive true whole all_room (flow_new 4) _ [1; 2] eq_refl). }
  destruct (stream_transparent true whole all_room 4 f1 Hrx Htx R1) as (_ & _ & _ & [c Hc] & _).
  eexists. assert (rtc (flow_step true whole all_room) (flow_new 4)
    {| fl_open := true; fl_conn := c; fl_arrived := [1; 2]; fl_read := []; fl_written := []; fl_sent := [] |}) as R2.
  { eapply rtc_r; [exact R1|]. exact (fs_pump true whole all_room f1 c Hc). }
  split; [exact R2|]. split; [reflexivity|]. exact (proj1 (stream_transparent true whole all_room 4 _ Hrx Htx R2)).
Defined.
End netstack_witness.

(** ** What the stack does not do *)
Section faults.
Context (oc : bool) (rx_piece : list Z -> nat) (tx_piece : list Z -> nat -> nat).

(** Once the stack has let a socket go: nothing more is transmitted, and a
    stream whose ring is empty waits for ever, unwoken. *)
Lemma removed_for_good f f' : cn_socket (fl_conn f) = None -> rtc (flow_step oc rx_piece tx_piece) f f' ->
  cn_socket (fl_conn f') = None /\ fl_sent f' = fl_sent f /\
  (ring_is_empty (recv_buffer (cn_handle (fl_conn f))) = true ->
   recv_wakes (cn_handle (fl_conn f')) = recv_wakes (cn_handle (fl_conn f)) /\
   forall open cap, stream_read oc open cap (cn_handle (fl_conn f')) = Ok (None, [], cn_handle (fl_conn f'))).
Proof.
  intros Hn Hr. cut (cn_socket (fl_conn f') = None /\ fl_sent f' = fl_sent f /\ (ring_is_empty (recv_buffer (cn_handle (fl_conn f))) = true ->
    recv_wakes (cn_handle (fl_conn f')) = recv_wakes (cn_handle (fl_conn f)) /\ ring_is_empty (recv_buffer (cn_handle (fl_conn f'))) = true)).
  { intros (H1 & H2 & H3). split_and!; [done|done|]. intros He. destruct (H3 He) as [H4 H5]. split; [done|]. intros open cap. unfold stream_read. by rewrite H5. }
  induction Hr as [f|f f1 f2 Hs _ IH]; [done|].
  assert (cn_socket (fl_conn f1) = None /\ fl_sent f1 = fl_sent f /\ (ring_is_empty (recv_buffer (cn_handle (fl_conn f))) = true ->
    recv_wakes (cn_handle (fl_conn f1)) = recv_wakes (cn_handle (fl_conn f)) /\ ring_is_empty (recv_buffer (cn_handle (fl_conn f1))) = true)) as (H1 & H2 & H3).
  { destruct Hs as [s bs Es|s n Es _|s a m Es|c Hp|cap bs ev h Hrd|buf n ev h Hw| |]; try congruence.
    - unfold pump in Hp. rewrite Hn in Hp. by injection Hp as <-.
    - cbn. split_and!; [done|done|]. intros He. unfold stream_read in Hrd. by rewrite He in Hrd.
    - cbn. split_and!; [done|done|]. unfold stream_write in Hw. apply res_bind_ok in Hw as (full & _ & Hw). destruct full; [by apply res_bind_ok in Hw as (? & _ & ?)|].
      apply res_bind_ok in Hw as ([k sb] & _ & Hw). apply res_bind_ok in Hw as (ev' & _ & Hw). by injection Hw as _ _ <-.
    - by split_and!.
    - by split_and!. }
  destruct (IH H1) as (G1 & G2 & G3). split_and!; [done|congruence|]. intros He. destruct (H3 He) as [K1 K2]. destruct (G3 K2) as [K3 K4]. split; [congruence|done].
Qed.

(** When the loops of the listener have stopped, every stream that is left
    panics at its next write, whatever its rings hold. *)
Lemma stopped_loops_panic f buf : flow_inv f ->
  flow_step oc rx_piece tx_piece f {| fl_open := false; fl_conn := {| cn_socket := None; cn_handle := cn_handle (fl_conn f) |};
    fl_arrived := fl_arrived f; fl_read := fl_read f; fl_written := fl_written f; fl_sent := fl_sent f |} /\
  stream_write oc false buf (cn_handle (fl_conn f)) = Panic.
Proof.
  intros (qi & qo & _ & Ho & _). split; [apply fs_stop|]. by destruct (stream_write_ok oc false buf _ qo Ho) as (x & ->).
Qed.

(** When the application has closed its end, or reset it, and everything it
    sent was read, the socket goes without the reader being woken: it never
    sees the end of the stream. *)
Lemma end_of_stream_unseen c s : cn_socket c = Some s -> so_rx s = [] -> so_active s = false -> (exists qi qo,
    represents DEFAULT_TCP_BUFFER_SIZE (recv_buffer (cn_handle c)) qi /\ represents DEFAULT_TCP_BUFFER_SIZE (send_buffer (cn_handle c)) qo) ->
  (forall l, l <> [] -> (0 < rx_piece l)%nat) -> (forall l room, (0 < room)%nat -> (0 < tx_piece l room <= room)%nat) ->
  exists c', pump oc rx_piece tx_piece c = Ok c' /\ cn_socket c' = None /\ recv_wakes (cn_handle c') = recv_wakes (cn_handle c).
Proof.
  intros Hs Hrx Ha (qi & qo & Hi & Ho) Hp1 Hp2.
  destruct (recv_loop_ok oc rx_piece Hp1 (length (so_rx s)) s _ qi false Hi (Nat.le_refl _)) as (mi & ri & rb & nr & E1 & E2 & E3 & E4 & ->).
  destruct (send_loop_ok oc tx_piece Hp2 (so_room s) (with_rx ri s) _ qo false Ho (Nat.le_refl _)) as (mo & ro & sb & nw & F1 & F2 & _).
  rewrite Hrx in E1. symmetry in E1. apply app_nil in E1 as [-> ->]. unfold pump. rewrite Hs, E2. cbn [mbind res_mbind res_bind].
  cbn [so_room with_rx] in F2 |- *. rewrite F2. cbn [mbind res_mbind res_bind]. eexists. split; [reflexivity|]. cbn [cn_socket cn_handle recv_wakes so_active with_tx with_rx].
  rewrite Ha. split; [by destruct (socket_dropped _)|]. rewrite bool_decide_eq_false_2 by tauto. cbn. lia.
Qed.

(** A stream that is dropped takes its socket with it at the next turn: what
    was still in the ring or the socket is never transmitted. *)
Lemma dropped_socket_removed c c' : socket_dropped (cn_handle c) = true -> pump oc rx_piece tx_piece c = Ok c' -> cn_socket c' = None.
Proof.
  intros Hd. unfold pump. destruct (cn_socket c) as [s|] eqn:E; [|by intros [= <-]].
  intros H. apply res_bind_ok in H as ([[s1 rb] nr] & _ & H). apply res_bind_ok in H as ([[s2 sb] nw] & _ & H). injection H as <-. by rewrite Hd.
Qed.

(** Without connections the device is never polled: pings, and packets of
    connections that are gone, stay in its queue unanswered. *)
Lemma idle_stack_polls_nothing iface_poll poll_delay now wake fresh l : live (lp_conns l) = 0%nat -> (forall id, wake <> WakeEvent (EvTcpStream id)) ->
  poll_sockets_round oc rx_piece tx_piece iface_poll poll_delay now wake fresh l =
    Ok {| lp_device := lp_device l; lp_conns := lp_conns l; lp_next_poll := None |}.
Proof.
  intros Hl Hw. unfold poll_sockets_round. rewrite Hl. replace (should_poll_now (lp_next_poll l) 0) with false by by destruct (lp_next_poll l).
  destruct wake as [[]|]; try done. by destruct (Hw id).
Qed.
End faults.

Section packet_faults.
Context {WL : WireLib}.
(** A packet taken from the queue while the channel to the tun device is full
    is lost. *)
Lemma full_channel_drops_packet d p q : rx_queue d = p :: q -> tx_room d = 0%nat -> fst (dev_receive d) = None /\ rx_queue (snd (dev_receive d)) = q.
Proof. intros Hq Hr. unfold dev_receive. by rewrite Hq, Hr. Qed.
(** A first segment that is sent again makes a second connection. *)
Lemma syn_again_is_another_stream frame packet h p : ip_new_checked frame = Some packet -> ip_protocol packet = PROTO_TCP ->
  tcp_new_checked (ip_payload packet) = Some h -> th_syn h = true -> th_ack h = false -> th_dst_port h <> 0 ->
  length (pk_streams (poll_packets [frame; frame] p)) = S (S (length (pk_streams p))).
Proof.
  intros H1 H2 H3 H4 H5 H6. assert (forall p, pk_streams (poll_packet frame p) = pk_streams p ++ [(pk_next p, sa_new (ip_src packet) (th_src_port h), sa_new (ip_dst packet) (th_dst_port h))]) as Hone.
  { intros p'. unfold poll_packet. rewrite H1, H2, H3, H4, H5. cbn. destruct (Z.eqb_spec (th_dst_port h) 0); [done|]. done. }
  unfold poll_packets. cbn [foldl pk_streams pk_event]. rewrite !Hone, !length_app. cbn. lia.
Qed.
(** A packet that is not IP fails the sink, for which the tun inbound stops. *)
Lemma bad_packet_fails_sink item s : packet_container s = None -> item <> [] -> ip_new_checked item = None -> sink_send item s = Some (Err "invalid data", s).
Proof. intros Hc Hi Hn. unfold sink_send, sink_poll_ready, sink_start_send. rewrite Hc, Hn. by rewrite bool_decide_eq_false_2. Qed.
(** One without a UDP header, as the second fragment of a datagram, looks to
    the reader like the end of the channel. *)
Lemma bad_udp_looks_like_the_end data packet : ip_new_checked data = Some packet -> udp_new_checked (ip_payload packet) = None -> udp_recv data = None.
Proof. intros H1 H2. unfold udp_recv. rewrite H1. cbn. by rewrite H2. Qed.
(** When the UDP side is gone the packet is kept and reported as sent, and
    the sink is never ready again. *)
Lemma closed_udp_blocks_sink s item packet : packet_container s = None -> item <> [] -> ip_new_checked item = Some packet -> ip_protocol packet = PROTO_UDP ->
  sn_open (udp_inbound s) = false -> exists s', sink_send item s = Some (Ok tt, s') /\ forall item', sink_send item' s' = None.
Proof.
  intros Hc Hi Hp Hu Ho. unfold sink_send, sink_poll_ready, sink_start_send. rewrite Hc, Hp, Hu, bool_decide_eq_false_2 by done. cbn.
  unfold sink_poll_flush, push. cbn. rewrite Ho. eexists. split; [reflexivity|]. done.
Qed.
End packet_faults.
