(* ===== verification/Louds.v ===== *)
(** * Domain sets are exact

    The construction of [SuccinctSet] lays the sorted keys out as a trie in
    level order.  This file shows the layout correct: the bitmap, the labels
    and the leaf marks describe the trie of the keys, moving down through
    rank and select reaches the child, and so [has] answers membership,
    with the meaning the set gives to a [+] label. *)

From Stdlib Require Import Sorted.
From S2P Require Import Prelude Str Trie Geo SuccinctSet.

(** ** Bitmaps as lists of bits *)
Definition bit_at (bm : list Z) (j : nat) : bool := default false (bm_bits bm !! j).

(** A bitmap holds the bits [bs], padded with zeros to whole words. *)
Record holds_bits (bm : list Z) (bs : list bool) : Prop := {
  hb_words : Forall u64 bm;
  hb_bits : bm_bits bm = bs ++ replicate (64 * length bm - length bs) false;
  hb_cover : (length bs <= 64 * length bm)%nat;
  hb_tight : (64 * length bm < length bs + 64)%nat;
}.

Lemma lookup_bm_bits bm j :
  bm_bits bm !! j =
  (fun w => Z.testbit w (Z.of_nat (j mod 64))) <$> bm !! (j / 64)%nat.
Proof.
  pose proof (Nat.div_mod j 64 ltac:(lia)) as Hdm.
  assert (j mod 64 < 64)%nat as Hm by (apply Nat.mod_upper_bound; lia).
  destruct (decide (j < 64 * length bm)%nat) as [Hj|Hj].
  - assert (j / 64 < length bm)%nat as Hk by (apply Nat.Div0.div_lt_upper_bound; lia).
    destruct (lookup_lt_is_Some_2 bm (j / 64) Hk) as [w Hw]. rewrite Hw.
    rewrite <- (take_drop_middle bm (j / 64) w Hw), bm_bits_app, bm_bits_cons.
    assert (length (bm_bits (take (j / 64) bm)) = (64 * (j / 64))%nat) as Hl
      by (rewrite bm_bits_length, length_take; lia).
    rewrite lookup_app_r by lia. rewrite lookup_app_l by (rewrite word_bits_length; lia).
    rewrite lookup_word_bits, Hl, decide_True by lia. cbn [fmap option_fmap option_map]. do 3 f_equal. lia.
  - rewrite (lookup_ge_None_2 (bm_bits bm)) by (rewrite bm_bits_length; lia).
    rewrite (lookup_ge_None_2 bm); [done|]. apply Nat.div_le_lower_bound; lia.
Qed.

Lemma set_bit_length bm (i : nat) v :
  length (set_bit bm (Z.of_nat i) v) = (length bm `max` S (i / 64))%nat.
Proof.
  unfold set_bit. rewrite length_alter, length_app, length_replicate, shiftr6, Nat2Z.id by lia. lia.
Qed.

Lemma bit_word v k : (k < 64)%nat -> u64 (Z.shiftl (if (v : bool) then 1 else 0) (Z.of_nat k)).
Proof.
  intros Hk. unfold in_width. destruct v; [|rewrite Z.shiftl_0_l; lia].
  rewrite Z.shiftl_1_l. split; [apply Z.pow_nonneg; lia|]. apply Z.pow_lt_mono_r; lia.
Qed.

Lemma lor_u64 a b : u64 a -> u64 b -> u64 (Z.lor a b).
Proof.
  intros [Ha1 Ha2] [Hb1 Hb2]. split; [by apply Z.lor_nonneg|].
  destruct (decide (Z.lor a b = 0)) as [->|Hne]; [done|].
  assert (0 <= Z.lor a b) by by apply Z.lor_nonneg.
  apply Z.log2_lt_pow2; [lia|]. rewrite Z.log2_lor by done.
  destruct (decide (a = 0)) as [->|]; destruct (decide (b = 0)) as [->|];
    try apply Z.max_lub_lt; try (change (Z.log2 0) with 0; lia); apply Z.log2_lt_pow2; lia.
Qed.

Lemma set_bit_u64 bm (i : nat) v : Forall u64 bm -> Forall u64 (set_bit bm (Z.of_nat i) v).
Proof.
  intros H. unfold set_bit. apply Forall_alter.
  - apply Forall_app_2; [done|]. apply Forall_replicate. unfold in_width; lia.
  - intros w _ Hw. apply lor_u64; [done|]. rewrite land63, Nat2Z.id by lia. apply bit_word.
    apply Nat.mod_upper_bound. lia.
Qed.

Lemma bit_at_pad bm n j : bit_at (bm ++ replicate n 0) j = bit_at bm j.
Proof.
  unfold bit_at. rewrite !lookup_bm_bits. destruct (decide (j / 64 < length bm)%nat) as [H|H].
  - by rewrite lookup_app_l.
  - rewrite lookup_app_r by lia. rewrite (lookup_ge_None_2 bm) by lia. simpl.
    destruct (replicate n 0 !! _) eqn:E; [|done]. apply lookup_replicate in E as [-> _].
    simpl. by rewrite Z.testbit_0_l.
Qed.

Lemma testbit_flag v k j :
  Z.testbit (Z.shiftl (if (v : bool) then 1 else 0) (Z.of_nat k)) (Z.of_nat j) = bool_decide (j = k) && v.
Proof.
  rewrite Z.shiftl_spec by lia. case_bool_decide as E.
  - subst. rewrite Z.sub_diag. by destruct v.
  - simpl. destruct v; [|apply Z.testbit_0_l].
    destruct (decide (j < k)%nat); [apply Z.testbit_neg_r; lia|].
    destruct (Z.of_nat j - Z.of_nat k) eqn:?; [lia|done|lia].
Qed.

Lemma bit_at_set bm (i : nat) v j :
  bit_at (set_bit bm (Z.of_nat i) v) j = if decide (j = i) then bit_at bm i || v else bit_at bm j.
Proof.
  unfold set_bit. rewrite shiftr6, Nat2Z.id, land63, Nat2Z.id by lia.
  set (bm' := bm ++ replicate (S (i / 64) - length bm) 0).
  assert (forall x, bit_at bm x = bit_at bm' x) as Hpad by (intros; symmetry; apply bit_at_pad).
  assert (i / 64 < length bm')%nat as Hlen.
  { unfold bm'. rewrite length_app, length_replicate. lia. }
  rewrite !Hpad. clearbody bm'. clear Hpad bm.
  unfold bit_at. rewrite !lookup_bm_bits.
  destruct (decide (j / 64 = i / 64)%nat) as [E|E].
  - rewrite E, list_lookup_alter_eq. destruct (lookup_lt_is_Some_2 bm' _ Hlen) as [w Hw]. rewrite Hw. cbn [fmap option_fmap option_map default from_option].
    rewrite Z.lor_spec, testbit_flag. case_decide as Ej.
    + subst. by rewrite bool_decide_true.
    + rewrite bool_decide_false; [by rewrite orb_false_r|].
      pose proof (Nat.div_mod i 64 ltac:(lia)). pose proof (Nat.div_mod j 64 ltac:(lia)).
      intros ?. apply Ej. lia.
  - rewrite list_lookup_alter_ne by done. rewrite decide_False; [done|]. by intros ->.
Qed.

Lemma lookup_padded (bs : list bool) k j :
  default false ((bs ++ replicate k false) !! j) = default false (bs !! j).
Proof.
  destruct (decide (j < length bs)%nat).
  - by rewrite lookup_app_l.
  - rewrite lookup_app_r, (lookup_ge_None_2 bs) by lia.
    destruct (replicate k false !! _) eqn:E; [|done]. by apply lookup_replicate in E as [-> _].
Qed.

(** Appending a bit. *)
Lemma holds_bits_set bm bs v :
  holds_bits bm bs -> holds_bits (set_bit bm (Z.of_nat (length bs)) v) (bs ++ [v]).
Proof.
  intros [Hw Hb Hc Ht]. set (n := length bs) in *.
  pose proof (Nat.div_mod n 64 ltac:(lia)) as Hdm.
  assert (n mod 64 < 64)%nat as Hm by (apply Nat.mod_upper_bound; lia).
  assert (length (set_bit bm (Z.of_nat n) v) = S (n / 64)) as Hl by (rewrite set_bit_length; lia).
  assert (length (bs ++ [v]) = S n) as Hs by (rewrite length_app; cbn [length]; fold n; lia).
  split; [by apply set_bit_u64| |lia|lia].
  apply list_eq_same_length with (64 * S (n / 64))%nat.
  - rewrite length_app, length_replicate, Hl, Hs. lia.
  - rewrite bm_bits_length. lia.
  - intros j x y Hj Hx Hy. pose proof (bit_at_set bm n v j) as E. unfold bit_at in E.
    pose proof (lookup_padded (bs ++ [v]) (64 * length (set_bit bm (Z.of_nat n) v) - length (bs ++ [v])) j) as E'.
    rewrite Hx, Hb, !lookup_padded in E. rewrite Hy in E'. cbn [default from_option id] in E, E'.
    rewrite E, E'. case_decide as Ej.
    + subst j. rewrite (lookup_ge_None_2 bs) by (fold n; lia). unfold n. by rewrite list_lookup_middle.
    + destruct (decide (j < n)%nat); [by rewrite lookup_app_l|].
      rewrite !lookup_ge_None_2; [done|lia|fold n; lia].
Qed.

Lemma holds_bits_nil : holds_bits [] [].
Proof. split; [constructor|done|simpl; lia|simpl; lia]. Qed.

Lemma get_bit_ok bm (i : nat) b : bm_bits bm !! i = Some b -> get_bit bm (Z.of_nat i) = Ok b.
Proof.
  intros H. rewrite lookup_bm_bits in H. apply fmap_Some in H as (w & Hw & ->).
  unfold get_bit. destruct bm as [|w0 bm']; [by rewrite lookup_nil in Hw|].
  rewrite (zidx_nat _ _ w).
  2: { apply Z.shiftr_nonneg. lia. }
  2: { by rewrite shiftr6, Nat2Z.id by lia. }
  rstep. f_equal. rewrite land63, Nat2Z.id by lia. set (k := (i mod 64)%nat).
  pose proof (testbit_flag true k) as Hf. cbn [andb] in Hf.
  destruct (Z.testbit w (Z.of_nat k)) eqn:E.
  - apply negb_true_iff, Z.eqb_neq. intros E0.
    assert (Z.testbit (Z.land w (Z.shiftl 1 (Z.of_nat k))) (Z.of_nat k) = true) as E1.
    { rewrite Z.land_spec, E, Hf. by rewrite bool_decide_true. }
    by rewrite E0, Z.testbit_0_l in E1.
  - apply negb_false_iff, Z.eqb_eq. apply Z.bits_inj'. intros x Hx. rewrite Z.land_spec, Z.testbit_0_l.
    rewrite <- (Z2Nat.id x) by done. rewrite Hf. case_bool_decide as Ek; [|by rewrite andb_false_r].
    by rewrite Ek, E.
Qed.

(** ** Sorted keys *)
Lemma key_leb_refl a : key_leb a a = true.
Proof. induction a as [|x a IH]; [done|]. cbn [key_leb]. by rewrite Z.eqb_refl, IH, orb_true_r. Qed.

Lemma key_leb_total a b : key_leb a b = false -> key_leb b a = true.
Proof.
  revert b. induction a as [|x a IH]; intros [|y b]; cbn [key_leb]; try done.
  destruct (Z.ltb_spec x y), (Z.ltb_spec y x), (Z.eqb_spec x y), (Z.eqb_spec y x); simpl; try done; try lia.
  apply IH.
Qed.

Lemma key_leb_trans a b c : key_leb a b = true -> key_leb b c = true -> key_leb a c = true.
Proof.
  revert b c. induction a as [|x a IH]; intros [|y b] [|z c]; cbn [key_leb]; try done.
  destruct (Z.ltb_spec x y), (Z.ltb_spec y z), (Z.ltb_spec x z), (Z.eqb_spec x y), (Z.eqb_spec y z),
    (Z.eqb_spec x z); simpl; try done; try lia. apply IH.
Qed.

Lemma key_leb_antisym a b : key_leb a b = true -> key_leb b a = true -> a = b.
Proof.
  revert b. induction a as [|x a IH]; intros [|y b]; cbn [key_leb]; try done.
  destruct (Z.ltb_spec x y), (Z.ltb_spec y x), (Z.eqb_spec x y), (Z.eqb_spec y x); simpl; try done; try lia.
  intros. f_equal; [done|]. by apply IH.
Qed.

Lemma key_leb_prefix p x : key_leb p (p ++ x) = true.
Proof. induction p as [|c p IH]; [done|]. cbn [app key_leb]. by rewrite Z.eqb_refl, IH, orb_true_r. Qed.

(** Keys that share a prefix are ordered by their next characters. *)
Lemma key_leb_next p x y a b : key_leb (p ++ x :: a) (p ++ y :: b) = true -> x <= y.
Proof.
  induction p as [|c p IH]; cbn [app key_leb].
  - destruct (Z.ltb_spec x y), (Z.eqb_spec x y); simpl; try done; lia.
  - rewrite Z.eqb_refl, Z.ltb_irrefl. apply IH.
Qed.

Definition key_ins (k : str) : list str -> list str :=
  fix ins (l : list str) : list str :=
    match l with
    | [] => [k]
    | x :: l' => if key_leb k x then k :: l else x :: ins l'
    end.
Lemma sort_keys_cons k l : sort_keys (k :: l) = key_ins k (sort_keys l).
Proof. done. Qed.

Lemma key_ins_perm k l : key_ins k l ≡ₚ k :: l.
Proof.
  induction l as [|x l IH]; [done|]. cbn [key_ins]. destruct (key_leb k x); [done|].
  fold (key_ins k). rewrite IH. constructor.
Qed.
Lemma key_ins_sorted k l :
  StronglySorted (fun a b => key_leb a b = true) l ->
  StronglySorted (fun a b => key_leb a b = true) (key_ins k l).
Proof.
  induction 1 as [|x l Hl IH Hx]; cbn [key_ins]; [by repeat constructor|].
  destruct (key_leb k x) eqn:E.
  - constructor; [by constructor|]. constructor; [done|].
    eapply Forall_impl; [exact Hx|]. intros y. by apply key_leb_trans.
  - fold (key_ins k). constructor; [done|]. rewrite key_ins_perm. constructor; [|done].
    by apply key_leb_total.
Qed.
Lemma sort_keys_sorted l : StronglySorted (fun a b => key_leb a b = true) (sort_keys l).
Proof. induction l as [|k l IH]; [constructor|]. rewrite sort_keys_cons. by apply key_ins_sorted. Qed.
Lemma sort_keys_perm l : sort_keys l ≡ₚ l.
Proof. induction l as [|k l IH]; [done|]. by rewrite sort_keys_cons, key_ins_perm, IH. Qed.

Lemma sorted_lookup {A} (R : A -> A -> Prop) l i j x y :
  StronglySorted R l -> (i < j)%nat -> l !! i = Some x -> l !! j = Some y -> R x y.
Proof.
  intros Hs. revert i j. induction Hs as [|a l Hl IH Ha]; intros i j Hij Hi Hj; [done|].
  destruct j as [|j]; [lia|]. destruct i as [|i]; simpl in *.
  - simplify_eq. by eapply Forall_lookup_1 in Hj.
  - apply (IH i j); [lia|done|done].
Qed.

(** ** The trie of the keys

    A queue entry is the node of a prefix: its range holds exactly the keys
    with that prefix. *)
Section keys.
Context (keys : list str).
Context (Hsorted : StronglySorted (fun a b => key_leb a b = true) keys).
Context (Hnodup : NoDup keys).
Context (Hascii : Forall (Forall ascii) keys).

Record node_of (p : str) (q : QElt) : Prop := {
  no_col : q_col q = length p;
  no_ne : (q_s q < q_e q)%nat;
  no_len : (q_e q <= length keys)%nat;
  no_range i k : keys !! i = Some k -> (q_s q <= i < q_e q)%nat <-> p `prefix_of` k;
}.

Definition is_end (q : QElt) : bool :=
  bool_decide (length (default [] (keys !! q_s q)) = q_col q).

(** The first key of a node that goes on below it. *)
Definition below (q : QElt) : nat := if is_end q then S (q_s q) else q_s q.

Fixpoint groups (n : nat) (e col j : nat) : list (char * QElt) :=
  match n with
  | O => []
  | S n' =>
    if bool_decide (j < e)%nat then
      let c := (default [] (keys !! j)) !! col in
      let j' := group_end (S e) keys e col c j in
      (default 0 c, {| q_s := j; q_e := j'; q_col := S col |}) :: groups n' e col j'
    else []
  end.
Definition kids (q : QElt) : list (char * QElt) := groups (q_e q) (q_e q) (q_col q) (below q).

Lemma is_end_iff p q : node_of p q -> is_end q = true <-> p ∈ keys.
Proof.
  intros [Hc Hne Hlen Hr]. unfold is_end. rewrite bool_decide_eq_true, Hc.
  destruct (lookup_lt_is_Some_2 keys (q_s q)) as [k Hk]; [lia|]. rewrite Hk. cbn [default from_option id].
  destruct (proj1 (Hr _ _ Hk) ltac:(lia)) as [x ->]. rewrite length_app. split.
  - intros Hx. assert (x = []) as -> by (apply length_zero_iff_nil; lia).
    rewrite app_nil_r in Hk. by eapply list_elem_of_lookup_2.
  - intros [i Hi]%list_elem_of_lookup. assert (i = q_s q) as ->.
    { destruct (proj2 (Hr _ _ Hi)) as [Hge _]; [done|].
      destruct (decide (i = q_s q)) as [|Hn]; [done|]. exfalso.
      assert (p ++ x = p) as Ep.
      { apply key_leb_antisym; [|by apply key_leb_prefix].
        by apply (sorted_lookup _ _ (q_s q) i _ _ Hsorted ltac:(lia)). }
      apply Hn. eapply NoDup_lookup; [exact Hnodup|exact Hi|]. by rewrite Hk, Ep. }
    rewrite Hk in Hi. injection Hi as Hi. apply (f_equal length) in Hi. rewrite length_app in Hi. lia.
Qed.

(** Below a node every key has a next character, and these are ordered. *)
Lemma below_char p q i :
  node_of p q -> (below q <= i < q_e q)%nat ->
  exists k c r, keys !! i = Some k /\ k = p ++ c :: r /\ k !! q_col q = Some c.
Proof.
  intros Hq Hi. pose proof Hq as [Hc Hne Hlen Hr].
  destruct (lookup_lt_is_Some_2 keys i) as [k Hk]; [lia|].
  assert (q_s q <= i)%nat as Hge by (unfold below in Hi; destruct (is_end q); lia).
  destruct (proj1 (Hr _ _ Hk) ltac:(lia)) as [[|c r] ->].
  - exfalso. rewrite app_nil_r in Hk. unfold below in Hi.
    assert (is_end q = true) as E by (eapply is_end_iff; [done|]; by eapply list_elem_of_lookup_2).
    rewrite E in Hi. unfold is_end in E. apply bool_decide_eq_true in E.
    destruct (lookup_lt_is_Some_2 keys (q_s q)) as [k Hk']; [lia|]. rewrite Hk' in E.
    cbn [default from_option id] in E.
    destruct (proj1 (Hr _ _ Hk') ltac:(lia)) as [x ->]. rewrite length_app in E.
    assert (x = []) as -> by (apply length_zero_iff_nil; lia). rewrite app_nil_r in Hk'.
    pose proof (NoDup_lookup _ _ _ _ Hnodup Hk Hk'). lia.
  - exists (p ++ c :: r), c, r. split_and!; [done|done|]. rewrite Hc. by apply list_lookup_middle.
Qed.

Definition char_at (q : QElt) (i : nat) : option char := default [] (keys !! i) !! q_col q.

Lemma char_at_mono p q i j :
  node_of p q -> (below q <= i)%nat -> (i <= j)%nat -> (j < q_e q)%nat ->
  exists c d, char_at q i = Some c /\ char_at q j = Some d /\ c <= d.
Proof.
  intros Hq Hi Hij Hj.
  destruct (below_char p q i Hq ltac:(lia)) as (k1 & c & r1 & Hk1 & E1 & Hc1).
  destruct (below_char p q j Hq ltac:(lia)) as (k2 & d & r2 & Hk2 & E2 & Hc2).
  exists c, d. unfold char_at. rewrite Hk1, Hk2. split_and!; [done|done|].
  destruct (decide (i = j)) as [->|Hne]; [simplify_eq; lia|].
  apply (key_leb_next p _ _ r1 r2). rewrite <- E1, <- E2.
  by apply (sorted_lookup _ _ i j _ _ Hsorted ltac:(lia)).
Qed.

Lemma group_end_spec n e col c j :
  (j <= e)%nat -> (e - j <= n)%nat ->
  let j' := group_end n keys e col c j in
  (j <= j' <= e)%nat /\
  (forall i, (j <= i < j')%nat -> default [] (keys !! i) !! col = c) /\
  ((j' < e)%nat -> default [] (keys !! j') !! col <> c).
Proof.
  revert j. induction n as [|n IH]; intros j Hj Hn; cbn [group_end].
  { split_and!; [lia|lia|intros; lia|lia]. }
  destruct (bool_decide_reflect (j < e)%nat) as [Hlt|Hge]; cbn [andb].
  2: { split_and!; [lia|lia|intros; lia|lia]. }
  case_bool_decide as Ec.
  - destruct (IH (S j)) as (H1 & H2 & H3); [lia|lia|]. split_and!; [lia|lia| |done].
    intros i Hi. destruct (decide (i = j)) as [->|]; [done|]. apply H2. lia.
  - split_and!; [lia|lia|intros; lia|done].
Qed.

(** The labels and ranges of the groups from key [j] on. *)
Record group_ok (q : QElt) (j : nat) (g : char * QElt) : Prop := {
  gk_col : q_col g.2 = S (q_col q);
  gk_ne : (j <= q_s g.2 < q_e g.2)%nat;
  gk_len : (q_e g.2 <= q_e q)%nat;
  gk_range i : (j <= i < q_e q)%nat -> (q_s g.2 <= i < q_e g.2)%nat <-> char_at q i = Some g.1;
}.

Lemma groups_spec p q n j :
  node_of p q -> (below q <= j <= q_e q)%nat -> (q_e q - j <= n)%nat ->
  let gs := groups n (q_e q) (q_col q) j in
  Forall (group_ok q j) gs /\
  (forall i, (j <= i < q_e q)%nat -> exists g, g ∈ gs /\ char_at q i = Some g.1) /\
  StronglySorted Z.lt gs.*1.
Proof.
  intros Hq. revert j. induction n as [|n IH]; intros j Hj Hn; cbn [groups].
  { split_and!; [constructor|intros; lia|constructor]. }
  destruct (bool_decide_reflect (j < q_e q)%nat) as [Hlt|Hge].
  2: { split_and!; [constructor|intros; lia|constructor]. }
  destruct (char_at_mono p q j j Hq) as (c & _ & Ec & _); [lia..|].
  fold (char_at q j). rewrite Ec. cbn [default from_option id].
  destruct (group_end_spec (S (q_e q)) (q_e q) (q_col q) (Some c) j) as (H1 & H2 & H3); [lia|lia|].
  set (j' := group_end (S (q_e q)) keys (q_e q) (q_col q) (Some c) j) in *.
  assert (j < j')%nat as Hj'.
  { destruct (decide (j' = j)) as [E|]; [|lia]. exfalso. apply H3; [lia|]. by rewrite E. }
  assert (forall i, (j' <= i < q_e q)%nat -> exists d, char_at q i = Some d /\ c < d) as Hgt.
  { intros i Hi. destruct (char_at_mono p q j j' Hq) as (c' & d & E1 & E2 & Hle); [lia..|].
    destruct (char_at_mono p q j' i Hq) as (d' & x & E3 & E4 & Hle'); [lia..|].
    exists x. split; [done|]. specialize (H3 ltac:(lia)). fold (char_at q j') in H3.
    assert (c' = c) as -> by congruence. assert (d' = d) as -> by congruence.
    assert (d <> c) by congruence. lia. }
  destruct (IH j') as (G1 & G2 & G3); [lia|lia|]. split_and!.
  - constructor.
    + split; cbn [fst snd q_s q_e q_col]; [done|lia|lia|]. intros i Hi. split.
      * intros Hr. apply H2. lia.
      * intros E. destruct (decide (i < j')%nat); [lia|].
        destruct (Hgt i ltac:(lia)) as (d & Ed & Hd). rewrite E in Ed. injection Ed as ->. lia.
    + eapply Forall_impl; [exact G1|]. intros g [K1 K2 K3 K4]. split; [done|lia|done|].
      intros i Hi. destruct (decide (i < j')%nat); [|apply K4; lia]. split; [lia|].
      intros E. exfalso. unfold char_at in E. rewrite H2 in E by lia.
      injection E as E. destruct (Hgt (q_s g.2) ltac:(lia)) as (d & Ed & Hd).
      rewrite (proj1 (K4 (q_s g.2) ltac:(lia))) in Ed by lia. injection Ed as Ed. lia.
  - intros i Hi. destruct (decide (i < j')%nat).
    + eexists. split; [left|]. apply H2. lia.
    + destruct (G2 i ltac:(lia)) as (g & Hg & Eg). exists g. split; [by right|done].
  - cbn [fmap list_fmap fst]. constructor; [done|]. apply Forall_fmap. eapply Forall_impl; [exact G1|].
    intros g [K1 K2 K3 K4]. destruct (Hgt (q_s g.2) ltac:(lia)) as (d & Ed & Hd).
    rewrite (proj1 (K4 (q_s g.2) ltac:(lia))) in Ed by lia. injection Ed as Ed. simpl. lia.
Qed.

(** The kids of the node of [p] are the nodes of the prefixes one longer. *)
Lemma kids_spec p q :
  node_of p q ->
  Forall (fun g => node_of (p ++ [g.1]) g.2) (kids q) /\
  StronglySorted Z.lt (kids q).*1 /\
  (forall c, c ∈ (kids q).*1 <-> exists k, k ∈ keys /\ (p ++ [c]) `prefix_of` k).
Proof.
  intros Hq. pose proof Hq as [Hc Hne Hlen Hr].
  assert (q_s q <= below q <= q_e q)%nat as Hb by (unfold below; destruct (is_end q); lia).
  destruct (groups_spec p q (q_e q) (below q) Hq) as (G1 & G2 & G3); [lia|lia|].
  fold (kids q) in G1, G2, G3.
  assert (forall i k c, keys !! i = Some k -> (p ++ [c]) `prefix_of` k ->
    (below q <= i < q_e q)%nat /\ char_at q i = Some c) as Hin.
  { intros i k c Hk [r Er]. rewrite <- app_assoc in Er. cbn [app] in Er.
    assert (char_at q i = Some c) as Ech.
    { unfold char_at. rewrite Hk, Hc, Er. by apply list_lookup_middle. }
    split; [|done]. destruct (proj2 (Hr _ _ Hk)) as [Hge Hlt]; [rewrite Er; by eexists|].
    split; [|done]. unfold below. destruct (is_end q) eqn:Ee; [|done].
    destruct (decide (i = q_s q)) as [->|]; [|lia]. unfold is_end in Ee.
    apply bool_decide_eq_true in Ee. rewrite Hk in Ee. cbn [default from_option id] in Ee.
    apply (f_equal length) in Er. rewrite length_app in Er. cbn [length] in Er. lia. }
  split_and!; [|done|].
  - eapply Forall_impl; [exact G1|]. intros g [K1 K2 K3 K4]. split.
    + rewrite K1, Hc, length_app. cbn [length]. lia.
    + lia.
    + lia.
    + intros i k Hk. split.
      * intros Hi. assert (char_at q i = Some g.1) as E by (apply K4; lia).
        destruct (proj1 (Hr _ _ Hk) ltac:(lia)) as [x ->]. unfold char_at in E. rewrite Hk, Hc in E.
        cbn [default from_option id] in E. rewrite lookup_app_r, Nat.sub_diag in E by lia.
        destruct x as [|y x]; [done|]. injection E as ->. exists x. by rewrite <- app_assoc.
      * intros Hp. destruct (Hin _ _ _ Hk Hp) as [Hi E]. by apply K4.
  - intros c. split.
    + intros (g & -> & Hg)%list_elem_of_fmap. rewrite Forall_forall in G1.
      destruct (G1 g Hg) as [K1 K2 K3 K4].
      destruct (below_char p q (q_s g.2) Hq) as (k & d & r & Hk & Ek & Hd); [lia|].
      exists k. split; [by eapply list_elem_of_lookup_2|].
      assert (char_at q (q_s g.2) = Some g.1) as E by (apply K4; lia).
      unfold char_at in E. rewrite Hk in E. cbn [default from_option id] in E.
      rewrite Hd in E. injection E as ->. exists r. by rewrite Ek, <- app_assoc.
    + intros (k & Hk & Hp). apply list_elem_of_lookup in Hk as [i Hi].
      destruct (Hin _ _ _ Hi Hp) as [Hrange E]. destruct (G2 i Hrange) as (g & Hg & Eg).
      rewrite E in Eg. injection Eg as ->. by apply list_elem_of_fmap_2.
Qed.

Lemma is_end_or_kids p q : node_of p q -> kids q = [] -> is_end q = true.
Proof.
  intros Hq Hk. destruct (is_end q) eqn:E; [done|]. exfalso. pose proof Hq as [Hc Hne Hlen Hr].
  destruct (below_char p q (q_s q) Hq) as (k & c & r & Hl & Ek & _); [unfold below; rewrite E; lia|].
  assert (c ∈ (kids q).*1) as Hin.
  { apply (kids_spec p q Hq). exists k. split; [by eapply list_elem_of_lookup_2|].
    exists r. by rewrite Ek, <- app_assoc. }
  rewrite Hk in Hin. by apply not_elem_of_nil in Hin.
Qed.

(** ** Termination: a node weighs its keys' remaining characters *)
Definition ksum (a b col : nat) : nat :=
  sum_list_with (fun i => length (default [] (keys !! i)) - col)%nat (seq a (b - a)).
Definition weight (q : QElt) : nat := S (ksum (q_s q) (q_e q) (q_col q)).
Definition total_weight (qs : list QElt) : nat := sum_list_with weight qs.

Lemma ksum_cons a b col :
  (a < b)%nat -> ksum a b col = (length (default [] (keys !! a)) - col + ksum (S a) b col)%nat.
Proof.
  intros H. unfold ksum. replace (b - a)%nat with (S (b - S a)) by lia. done.
Qed.
Lemma ksum_nil a col : ksum a a col = 0%nat.
Proof. unfold ksum. by rewrite Nat.sub_diag. Qed.
Lemma ksum_split a b c col :
  (a <= b <= c)%nat -> ksum a c col = (ksum a b col + ksum b c col)%nat.
Proof.
  intros H. unfold ksum.
  replace (c - a)%nat with ((b - a) + (c - b))%nat by lia.
  rewrite seq_app, sum_list_with_app. do 3 f_equal. lia.
Qed.
Lemma ksum_S a b col :
  (forall i, (a <= i < b)%nat -> (col < length (default [] (keys !! i)))%nat) -> (a <= b)%nat ->
  ksum a b col = (b - a + ksum a b (S col))%nat.
Proof.
  intros H Hab. remember (b - a)%nat as n eqn:E. revert a E H Hab.
  induction n as [|n IH]; intros a E H Hab.
  - assert (b = a) as -> by lia. by rewrite !ksum_nil.
  - rewrite !(ksum_cons a b) by lia. rewrite (IH (S a)); [|lia| |lia].
    + pose proof (H a ltac:(lia)). lia.
    + intros i Hi. apply H. lia.
Qed.

Lemma groups_weight p q n j :
  node_of p q -> (below q <= j <= q_e q)%nat ->
  (total_weight (groups n (q_e q) (q_col q) j).*2 <= ksum j (q_e q) (q_col q))%nat.
Proof.
  intros Hq. revert j. induction n as [|n IH]; intros j Hj; cbn [groups]; [unfold total_weight; simpl; lia|].
  destruct (bool_decide_reflect (j < q_e q)%nat) as [Hlt|Hge]; [|unfold total_weight; simpl; lia].
  set (c := default [] (keys !! j) !! q_col q).
  destruct (group_end_spec (S (q_e q)) (q_e q) (q_col q) c j) as (H1 & H2 & H3); [lia|lia|].
  set (j' := group_end (S (q_e q)) keys (q_e q) (q_col q) c j) in *.
  assert (j < j')%nat as Hj'.
  { destruct (decide (j' = j)) as [E|]; [|lia]. exfalso. apply H3; [lia|]. by rewrite E. }
  rewrite (ksum_split j j' (q_e q)) by lia. unfold total_weight. cbn [fmap list_fmap snd sum_list_with].
  specialize (IH j' ltac:(lia)). unfold total_weight in IH.
  unfold weight at 1. cbn [q_s q_e q_col]. rewrite (ksum_S j j' (q_col q)); [|intros i Hi|lia].
  - lia.
  - destruct (below_char p q i Hq ltac:(lia)) as (k & d & r & Hk & Ek & Hd). rewrite Hk.
    cbn [default from_option id]. by apply lookup_lt_Some in Hd.
Qed.

Lemma kids_weight p q : node_of p q -> (S (total_weight (kids q).*2) <= weight q)%nat.
Proof.
  intros Hq. pose proof Hq as [Hc Hne Hlen Hr].
  assert (q_s q <= below q <= q_e q)%nat as Hb by (unfold below; destruct (is_end q); lia).
  unfold weight. rewrite (ksum_split (q_s q) (below q) (q_e q)) by lia.
  pose proof (groups_weight p q (q_e q) (below q) Hq ltac:(lia)) as H. fold (kids q) in H. lia.
Qed.

(** ** The layout *)
Definition kid_nodes (N : list QElt) : list QElt := N ≫= (fun q => (kids q).*2).
Definition kid_labels (N : list QElt) : list char := N ≫= (fun q => (kids q).*1).
Definition node_bits (q : QElt) : list bool := replicate (length (kids q)) false ++ [true].
Definition layout (N : list QElt) : list bool := N ≫= node_bits.

Definition holds_ends (lv : list Z) (ts : list bool) : Prop :=
  (forall j, bit_at lv j = default false (ts !! j)) /\
  (last ts = Some true -> (length ts <= 64 * length lv)%nat).

Lemma holds_ends_nil : holds_ends [] [].
Proof. split; [done|done]. Qed.
Lemma holds_ends_add lv ts (b : bool) :
  holds_ends lv ts ->
  holds_ends (if b then set_bit lv (Z.of_nat (length ts)) true else lv) (ts ++ [b]).
Proof.
  intros [H1 H2]. split.
  - intros j. destruct (decide (j = length ts)) as [->|Hne].
    + rewrite list_lookup_middle by done. cbn [default from_option id]. destruct b.
      * rewrite bit_at_set, decide_True by done. by rewrite orb_true_r.
      * rewrite H1, lookup_ge_None_2 by done. done.
    + assert (default false ((ts ++ [b]) !! j) = default false (ts !! j)) as ->.
      { destruct (decide (j < length ts)%nat); [by rewrite lookup_app_l|].
        rewrite !lookup_ge_None_2; [done|lia|]. rewrite length_app. cbn [length]. lia. }
      destruct b; [|done]. by rewrite bit_at_set, decide_False.
  - rewrite last_snoc. intros [= ->]. rewrite set_bit_length, length_app. cbn [length].
    pose proof (Nat.div_mod (length ts) 64 ltac:(lia)).
    pose proof (Nat.mod_upper_bound (length ts) 64 ltac:(lia)). lia.
Qed.

Lemma children_spec q n j rv bs :
  (forall i, (j <= i < q_e q)%nat -> exists c, char_at q i = Some c /\ ascii c) ->
  (j <= q_e q)%nat -> holds_bits (label_bit_map rv) bs ->
  let gs := groups n (q_e q) (q_col q) j in
  exists bm, children n keys (q_e q) (q_col q) j rv (Z.of_nat (length bs)) =
      (gs.*2, {| leaves := leaves rv; label_bit_map := bm; labels := labels rv ++ gs.*1;
                 ranks := ranks rv; selects := selects rv |}, Z.of_nat (length bs + length gs)) /\
    holds_bits bm (bs ++ replicate (length gs) false).
Proof.
  revert j rv bs. induction n as [|n IH]; intros j rv bs Hch Hj Hb; cbn [children groups].
  { exists (label_bit_map rv). cbn [fmap list_fmap length replicate]. rewrite !app_nil_r, Nat.add_0_r.
    split; [by destruct rv|done]. }
  destruct (bool_decide_reflect (j < q_e q)%nat) as [Hlt|Hge].
  2: { exists (label_bit_map rv). cbn [fmap list_fmap length replicate]. rewrite !app_nil_r, Nat.add_0_r.
    split; [by destruct rv|done]. }
  destruct (Hch j ltac:(lia)) as (c & Ec & Hc). fold (char_at q j). rewrite Ec. cbn [default from_option id].
  destruct (group_end_spec (S (q_e q)) (q_e q) (q_col q) (Some c) j) as (H1 & _ & _); [lia|lia|].
  set (j' := group_end (S (q_e q)) keys (q_e q) (q_col q) (Some c) j) in *.
  pose proof (holds_bits_set _ _ false Hb) as Hb'.
  destruct (IH j' {| leaves := leaves rv; label_bit_map := set_bit (label_bit_map rv) (Z.of_nat (length bs)) false;
      labels := labels rv ++ [wrap 8 c]; ranks := ranks rv; selects := selects rv |} (bs ++ [false]))
    as (bm & E & Hbm); [intros i Hi; apply Hch; lia|lia|done|].
  exists bm. rewrite length_app in E. cbn [length] in E.
  replace (Z.of_nat (length bs + 1)) with (Z.of_nat (length bs) + 1) in E by lia. rewrite E.
  cbn [fmap list_fmap length leaves labels label_bit_map ranks selects fst snd].
  rewrite <- app_assoc in Hbm. split; [|exact Hbm].
  assert (wrap 8 c = c) as -> by (apply wrap_small; unfold ascii, in_width in *; lia).
  rewrite <- app_assoc. cbn [app]. f_equal. lia.
Qed.

Lemma key_ascii i k : keys !! i = Some k -> Forall ascii k.
Proof. intros Hk. by eapply Forall_lookup_1 in Hk. Qed.

Lemma char_at_ascii p q i :
  node_of p q -> (below q <= i < q_e q)%nat -> exists c, char_at q i = Some c /\ ascii c.
Proof.
  intros Hq Hi. destruct (below_char p q i Hq Hi) as (k & c & r & Hk & Ek & Hc). exists c.
  unfold char_at. rewrite Hk. split; [done|]. pose proof (key_ascii _ _ Hk) as Ha.
  by eapply Forall_lookup_1 in Hc.
Qed.

(** One round of the construction. *)
Lemma from_round p q rv bs ts fuel queue :
  node_of p q -> holds_bits (label_bit_map rv) bs -> holds_ends (leaves rv) ts ->
  exists rv', from_loop (S fuel) keys (Z.of_nat (length ts)) (q :: queue) rv (Z.of_nat (length bs)) =
      from_loop fuel keys (Z.of_nat (length (ts ++ [is_end q]))) (queue ++ (kids q).*2) rv'
        (Z.of_nat (length (bs ++ node_bits q))) /\
    holds_bits (label_bit_map rv') (bs ++ node_bits q) /\
    holds_ends (leaves rv') (ts ++ [is_end q]) /\ labels rv' = labels rv ++ (kids q).*1.
Proof.
  intros Hq Hb He. pose proof Hq as [Hc Hne Hlen Hr].
  destruct (lookup_lt_is_Some_2 keys (q_s q)) as [k Hk]; [lia|].
  assert ((Z.of_nat (q_col q) =? str_len k) = is_end q) as Eend.
  { unfold is_end, str_len, zlen. rewrite Hk, utf8_ascii by by eapply key_ascii.
    cbn [default from_option id]. destruct (Z.eqb_spec (Z.of_nat (q_col q)) (Z.of_nat (length k)));
      symmetry; [apply bool_decide_eq_true|apply bool_decide_eq_false]; lia. }
  cbn [from_loop]. rewrite Hk, Eend.
  set (rv1 := if is_end q then _ else (q_s q, rv)).
  assert (rv1 = (below q, {| leaves := if is_end q then set_bit (leaves rv) (Z.of_nat (length ts)) true
                                        else leaves rv; label_bit_map := label_bit_map rv;
                             labels := labels rv; ranks := ranks rv; selects := selects rv |})) as ->.
  { unfold rv1, below. destruct (is_end q); [done|by destruct rv]. }
  cbv beta iota.
  destruct (children_spec q (q_e q) (below q) {| leaves := if is_end q then set_bit (leaves rv) (Z.of_nat (length ts)) true
                                        else leaves rv; label_bit_map := label_bit_map rv;
                             labels := labels rv; ranks := ranks rv; selects := selects rv |} bs)
    as (bm & E & Hbm); [intros i Hi; by eapply char_at_ascii|unfold below; destruct (is_end q); lia|done|].
  fold (kids q) in E, Hbm. rewrite E. cbv beta iota.
  cbn [leaves label_bit_map labels ranks selects].
  pose proof (holds_bits_set _ _ true Hbm) as Hbm'. rewrite length_app, length_replicate in Hbm'.
  eexists. split_and!.
  - f_equal; [rewrite length_app; cbn [length]; lia|].
    unfold node_bits. rewrite !length_app, length_replicate. cbn [length]. lia.
  - cbn [label_bit_map]. unfold node_bits. by rewrite app_assoc.
  - cbn [leaves]. by apply holds_ends_add.
  - done.
Qed.

Record laid_out (q0 : list QElt) (N : list QElt) : Prop := {
  lo_order : N = q0 ++ kid_nodes N;
  lo_nodes : Forall (fun q => exists p, node_of p q) N;
  lo_last q : last N = Some q -> kids q = [];
  lo_count : (length N <= total_weight q0)%nat;
}.

Lemma from_loop_spec fuel queue rv bs ts :
  Forall (fun q => exists p, node_of p q) queue -> (total_weight queue < fuel)%nat ->
  holds_bits (label_bit_map rv) bs -> holds_ends (leaves rv) ts ->
  exists rv' N, from_loop fuel keys (Z.of_nat (length ts)) queue rv (Z.of_nat (length bs)) = Some (Ok rv') /\
    laid_out queue N /\ holds_bits (label_bit_map rv') (bs ++ layout N) /\
    holds_ends (leaves rv') (ts ++ (is_end <$> N)) /\ labels rv' = labels rv ++ kid_labels N.
Proof.
  revert queue rv bs ts. induction fuel as [|fuel IH]; intros queue rv bs ts Hok Hw Hb He; [lia|].
  destruct queue as [|q queue].
  { exists rv, []. unfold layout, kid_labels. cbn [fmap list_fmap mbind list_bind]. rewrite !app_nil_r.
    split_and!; try done. }
  apply Forall_cons in Hok as [[p Hq] Hok].
  destruct (from_round p q rv bs ts fuel queue Hq Hb He) as (rv1 & -> & Hb1 & He1 & Hl1).
  pose proof (kids_weight p q Hq) as Hkw. unfold total_weight in Hw, Hkw. cbn [sum_list_with] in Hw.
  destruct (IH (queue ++ (kids q).*2) rv1 (bs ++ node_bits q) (ts ++ [is_end q]))
    as (rv' & N & E & [L1 L2 L3 L4] & Hb' & He' & Hl'); [| |done|done|].
  { apply Forall_app_2; [done|]. apply Forall_fmap. eapply Forall_impl; [apply (kids_spec p q Hq)|].
    intros g Hg. exists (p ++ [g.1]). exact Hg. }
  { unfold total_weight. rewrite sum_list_with_app. lia. }
  exists rv', (q :: N). split; [done|]. split_and!.
  - split.
    + unfold kid_nodes. cbn [mbind list_bind app]. f_equal. rewrite L1 at 1. by rewrite <- app_assoc.
    + constructor; [by exists p|done].
    + intros x Hx. destruct N as [|y N]; [|by apply L3]. simpl in Hx. injection Hx as <-.
      unfold kid_nodes in L1. cbn [mbind list_bind] in L1. rewrite app_nil_r in L1. symmetry in L1.
      apply app_eq_nil in L1 as [_ L1]. by apply fmap_nil_inv in L1.
    + cbn [length]. unfold total_weight in *. rewrite sum_list_with_app in L4. cbn [sum_list_with]. lia.
  - unfold layout. cbn [mbind list_bind]. rewrite app_assoc. exact Hb'.
  - cbn [fmap list_fmap]. change (is_end q :: (is_end <$> N)) with ([is_end q] ++ (is_end <$> N)).
    by rewrite app_assoc.
  - unfold kid_labels. cbn [mbind list_bind]. rewrite app_assoc, <- Hl1. exact Hl'.
Qed.

(** ** Lookup as a walk down the trie *)
Fixpoint pick (ks : list (char * QElt)) (c : char) : option (char * QElt) :=
  match ks with
  | [] => None
  | g :: ks' => if (g.1 =? PLUS_BYTE) || (g.1 =? c) then Some g else pick ks' c
  end.
Fixpoint walk (key : str) (q : QElt) : bool :=
  match key with
  | [] => is_end q
  | c :: rest => match pick (kids q) c with
                 | None => false
                 | Some g => (g.1 =? PLUS_BYTE) || walk rest g.2
                 end
  end.

Context (Hplus : Forall (Forall (fun c => PLUS_BYTE <= c)) keys).

Lemma kid_label_ge p q j g : node_of p q -> kids q !! j = Some g -> PLUS_BYTE <= g.1.
Proof.
  intros Hq Hg. destruct (proj1 (proj2 (proj2 (kids_spec p q Hq)) g.1)) as (k & Hk & [r Er]).
  { apply list_elem_of_fmap_2. by eapply list_elem_of_lookup_2. }
  rewrite Forall_forall in Hplus. specialize (Hplus k Hk). rewrite Er in Hplus.
  apply Forall_app in Hplus as [H _]. apply Forall_app in H as [_ H]. by apply Forall_cons in H as [H _].
Qed.

Lemma pick_spec (ks : list (char * QElt)) c :
  StronglySorted Z.lt ks.*1 -> Forall (fun g => PLUS_BYTE <= g.1) ks ->
  match pick ks c with
  | Some g => g ∈ ks /\ (g.1 = PLUS_BYTE \/ g.1 = c /\ PLUS_BYTE ∉ ks.*1)
  | None => c ∉ ks.*1 /\ PLUS_BYTE ∉ ks.*1
  end.
Proof.
  induction ks as [|g ks IH]; cbn [pick fmap list_fmap]; intros Hs Hge; [set_solver|].
  apply Forall_cons in Hge as [Hg Hge]. inversion Hs as [|x l Hs' Hlt]; subst.
  destruct (Z.eqb_spec g.1 PLUS_BYTE) as [Ep|Ep]; cbn [orb].
  { split; [left|by left]. }
  assert (PLUS_BYTE ∉ g.1 :: ks.*1) as Hnp.
  { rewrite elem_of_cons. intros [?|Hin]; [done|].
    rewrite Forall_forall in Hlt. specialize (Hlt _ Hin). lia. }
  destruct (Z.eqb_spec g.1 c) as [Ec|Ec].
  { split; [left|]. right. split; [done|exact Hnp]. }
  specialize (IH Hs' Hge). destruct (pick ks c) as [h|].
  - destruct IH as [Hin [?|[? Hn]]]; (split; [by right|]); [by left|]. right. split; [done|exact Hnp].
  - destruct IH as [Hn1 Hn2]. split; [|exact Hnp]. rewrite elem_of_cons. intros [?|?]; [congruence|done].
Qed.

(** A key below the node of [p] is found when it is in the set, or when the
    set has a [+] where the key still goes on. *)
Definition found_below (p key : str) : Prop :=
  p ++ key ∈ keys \/
  exists x c r k, key = x ++ c :: r /\ k ∈ keys /\ (p ++ x ++ [PLUS_BYTE]) `prefix_of` k.

Lemma walk_spec key p q : node_of p q -> walk key q = true <-> found_below p key.
Proof.
  revert p q. induction key as [|c rest IH]; intros p q Hq; cbn [walk].
  { rewrite (is_end_iff p q Hq). unfold found_below. rewrite app_nil_r. split; [by left|].
    intros [?|([|? ?] & c & r & k & E & _)]; [done|discriminate E..]. }
  destruct (kids_spec p q Hq) as (K1 & K2 & K3).
  pose proof (pick_spec (kids q) c K2) as Hpick.
  assert (Forall (fun g => PLUS_BYTE <= g.1) (kids q)) as Hge.
  { apply Forall_lookup_2. intros j g Hg. by eapply kid_label_ge. }
  specialize (Hpick Hge). rewrite Forall_forall in K1.
  destruct (pick (kids q) c) as [g|].
  - destruct Hpick as [Hin [Ep|[Ec Hn]]].
    + rewrite (proj2 (Z.eqb_eq _ _) Ep). split; [|done]. intros _. right.
      destruct (proj1 (K3 PLUS_BYTE)) as (k & Hk & Hpre).
      { rewrite <- Ep. by apply list_elem_of_fmap_2. }
      exists [], c, rest, k. split_and!; done.
    + assert (g.1 <> PLUS_BYTE) as Hne by (intros E; apply Hn; rewrite <- E; by apply list_elem_of_fmap_2).
      rewrite (proj2 (Z.eqb_neq _ _) Hne). cbn [orb].
      rewrite (IH (p ++ [g.1]) g.2 (K1 _ Hin)). unfold found_below. rewrite <- app_assoc, Ec. cbn [app].
      apply or_iff_compat_l. split.
      * intros (x & d & r & k & -> & Hk & Hpre). exists (c :: x), d, r, k.
        rewrite <- app_assoc in Hpre. done.
      * intros ([|y x] & d & r & k & E & Hk & Hpre).
        { exfalso. apply Hn, K3. by exists k. }
        cbn [app] in E. injection E as -> ->. exists x, d, r, k. by rewrite <- app_assoc.
  - destruct Hpick as [Hn1 Hn2]. split; [done|]. intros [Hk|([|y x] & d & r & k & E & Hk & Hpre)]; exfalso.
    + apply Hn1, K3. exists (p ++ c :: rest). split; [done|]. exists rest. by rewrite <- app_assoc.
    + apply Hn2, K3. by exists k.
    + cbn [app] in E. injection E as -> ->. apply Hn1, K3. exists k. split; [done|].
      destruct Hpre as [z ->]. exists ((x ++ [PLUS_BYTE]) ++ z). by rewrite <- !app_assoc.
Qed.
(** ** Moving through the layout *)
Lemma zeros_app a b : zeros (a ++ b) = (zeros a + zeros b)%nat.
Proof. unfold zeros. by rewrite filter_app, length_app. Qed.
Lemma zeros_replicate n : zeros (replicate n false) = n.
Proof.
  pose proof (ones_zeros (replicate n false)) as H. rewrite ones_replicate, length_replicate in H. lia.
Qed.

Lemma layout_app M M' : layout (M ++ M') = layout M ++ layout M'.
Proof. apply bind_app. Qed.
Lemma layout_cons q M : layout (q :: M) = replicate (length (kids q)) false ++ true :: layout M.
Proof. unfold layout, node_bits. cbn [mbind list_bind]. by rewrite <- app_assoc. Qed.
Lemma kid_nodes_cons q M : length (kid_nodes (q :: M)) = (length (kids q) + length (kid_nodes M))%nat.
Proof. unfold kid_nodes. cbn [mbind list_bind]. by rewrite length_app, length_fmap. Qed.
Lemma layout_zeros M : zeros (layout M) = length (kid_nodes M).
Proof.
  induction M as [|q M IH]; [done|]. rewrite layout_cons, kid_nodes_cons, zeros_app, zeros_replicate.
  change (zeros (true :: layout M)) with (zeros (layout M)). lia.
Qed.
Lemma layout_ones M : ones (layout M) = length M.
Proof.
  induction M as [|q M IH]; [done|]. rewrite layout_cons, ones_app, ones_replicate.
  change (ones (true :: layout M)) with (S (ones (layout M))). cbn [length]. lia.
Qed.
Lemma layout_length M : length (layout M) = (length (kid_nodes M) + length M)%nat.
Proof. rewrite <- ones_zeros, layout_zeros, layout_ones. lia. Qed.

Lemma kid_labels_length M : length (kid_labels M) = length (kid_nodes M).
Proof.
  induction M as [|q M IH]; [done|]. rewrite kid_nodes_cons. unfold kid_labels in *.
  cbn [mbind list_bind]. rewrite length_app, length_fmap. f_equal. exact IH.
Qed.

Section walk.
Context (N : list QElt) (s : DomainSet) (oc : bool).
Definition root_node : QElt := {| q_s := 0; q_e := length keys; q_col := 0 |}.
Context (HN : laid_out [root_node] N).
Context (Hbm : holds_bits (label_bit_map s) (layout N)).
Context (Hends : holds_ends (leaves s) (is_end <$> N)).
Context (Hlabels : labels s = kid_labels N).
Context (Hix : indexed (label_bit_map s) (ranks s) (selects s)).
Context (Hsize : Z.of_nat (length N) < 2 ^ 31).

(** Where the block of node [n] starts, and how many nodes are reached from
    the nodes before it. *)
Definition start (n : nat) : nat := length (layout (take n N)).
Definition reached (n : nat) : nat := length (kid_nodes (take n N)).

Lemma start_reached n : (n <= length N)%nat -> start n = (reached n + n)%nat.
Proof. intros Hn. unfold start, reached. rewrite layout_length, length_take. lia. Qed.

Lemma nodes_order : exists M, N = root_node :: M /\ M = kid_nodes N.
Proof.
  destruct HN as [H _ _ _]. exists (kid_nodes N). split; [exact H|done].
Qed.

Lemma reached_bound n q j :
  N !! n = Some q -> (j < length (kids q))%nat -> (S (reached n + j) < length N)%nat.
Proof.
  intros Hn Hj. destruct nodes_order as (M & E & EM). apply (f_equal length) in E, EM.
  cbn [length] in E. rewrite <- (take_drop_middle N n q Hn) in EM at 1. unfold kid_nodes in EM.
  rewrite bind_app, length_app in EM. fold (kid_nodes (take n N)) in EM.
  fold (kid_nodes (q :: drop (S n) N)) in EM. rewrite kid_nodes_cons in EM.
  fold (reached n) in EM. lia.
Qed.

Lemma layout_at n q :
  N !! n = Some q ->
  layout N = layout (take n N) ++ replicate (length (kids q)) false ++ true :: layout (drop (S n) N).
Proof.
  intros Hn. rewrite <- (take_drop_middle N n q Hn) at 1. by rewrite layout_app, layout_cons.
Qed.

Lemma block_bit n q j :
  N !! n = Some q -> (j <= length (kids q))%nat ->
  get_bit (label_bit_map s) (Z.of_nat (start n + j)) = Ok (bool_decide (j = length (kids q))).
Proof.
  intros Hn Hj. apply get_bit_ok. destruct Hbm as [_ -> _ _]. rewrite (layout_at n q Hn).
  rewrite <- app_assoc. rewrite lookup_app_r by (unfold start; lia).
  replace (start n + j - length (layout (take n N)))%nat with j by (unfold start; lia).
  rewrite <- app_assoc. case_bool_decide as E.
  - rewrite lookup_app_r by (rewrite length_replicate; lia).
    rewrite length_replicate, E, Nat.sub_diag. done.
  - rewrite lookup_app_l by (rewrite length_replicate; lia). by rewrite lookup_replicate_2 by lia.
Qed.

Lemma label_at n q j g :
  N !! n = Some q -> kids q !! j = Some g -> labels s !! (reached n + j)%nat = Some g.1.
Proof.
  intros Hn Hg. rewrite Hlabels. rewrite <- (take_drop_middle N n q Hn). unfold kid_labels.
  rewrite bind_app. assert (length (take n N ≫= (fun q => (kids q).*1)) = reached n) as E.
  { apply kid_labels_length. }
  rewrite lookup_app_r by lia. rewrite E. replace (reached n + j - reached n)%nat with j by lia.
  cbn [mbind list_bind]. rewrite lookup_app_l.
  - by rewrite list_lookup_fmap, Hg.
  - rewrite length_fmap. by apply lookup_lt_Some in Hg.
Qed.

Lemma child_at n q j g :
  N !! n = Some q -> kids q !! j = Some g -> N !! S (reached n + j) = Some g.2.
Proof.
  intros Hn Hg. destruct nodes_order as (M & E & EM). rewrite E at 1.
  change (M !! (reached n + j)%nat = Some g.2). rewrite EM. rewrite <- (take_drop_middle N n q Hn). unfold kid_nodes. rewrite bind_app.
  fold (kid_nodes (take n N)). rewrite lookup_app_r by (unfold reached; lia).
  replace (reached n + j - length (kid_nodes (take n N)))%nat with j by (unfold reached; lia).
  cbn [mbind list_bind]. rewrite lookup_app_l.
  - by rewrite list_lookup_fmap, Hg.
  - rewrite length_fmap. by apply lookup_lt_Some in Hg.
Qed.

(** The one bit that closes node [m - 1] comes just before node [m]. *)
Lemma block_end m :
  (m < length N)%nat -> exists e, ith_one (bm_bits (label_bit_map s)) m = Some e /\ start (S m) = S e.
Proof.
  intros Hm. destruct (lookup_lt_is_Some_2 N m Hm) as [q Hq].
  exists (start m + length (kids q))%nat. split.
  - apply ith_one_spec. destruct Hbm as [_ -> _ _]. rewrite (layout_at m q Hq), <- app_assoc. split.
    + rewrite lookup_app_r by (unfold start; lia).
      replace (start m + length (kids q) - length (layout (take m N)))%nat with (length (kids q))
        by (unfold start; lia).
      rewrite <- app_assoc. rewrite lookup_app_r by (rewrite length_replicate; lia).
      by rewrite length_replicate, Nat.sub_diag.
    + rewrite take_app_ge by (unfold start; lia).
      replace (start m + length (kids q) - length (layout (take m N)))%nat with (length (kids q))
        by (unfold start; lia).
      rewrite <- app_assoc, take_app_length' by (by rewrite length_replicate).
      rewrite ones_app, ones_replicate, layout_ones, length_take. lia.
  - unfold start. rewrite (take_S_r _ _ _ Hq), layout_app, length_app, layout_cons, length_app, length_replicate.
    cbn [length]. unfold layout at 2. cbn [mbind list_bind length]. lia.
Qed.

Lemma descend_ok n q j g :
  N !! n = Some q -> kids q !! j = Some g ->
  descend oc s (Z.of_nat (start n + j)) =
    Ok (Z.of_nat (S (reached n + j)), Z.of_nat (start (S (reached n + j)))).
Proof.
  intros Hn Hg. pose proof (lookup_lt_Some _ _ _ Hg) as Hj.
  pose proof (reached_bound n q j Hn Hj) as Hb. pose proof (lookup_lt_Some _ _ _ Hn) as HnN.
  destruct (block_end (reached n + j)) as (e & He & Hs); [lia|].
  pose proof Hbm as [Hw Hbits Hc Ht]. pose proof (layout_length N) as HL.
  destruct nodes_order as (M & EN & EM). apply (f_equal length) in EN, EM. cbn [length] in EN.
  assert (start n + j + 1 < length (layout N))%nat as Hlt.
  { rewrite (layout_at n q Hn), !length_app, length_replicate. cbn [length]. unfold start. lia. }
  unfold descend. replace (Z.of_nat (start n + j) + 1) with (Z.of_nat (start n + j + 1)) by lia.
  rewrite (count_zeros_ok oc _ _ (selects s)) by (done || (unfold zlen; lia)). rewrite Nat2Z.id. rstep.
  assert (zeros (take (start n + j + 1) (bm_bits (label_bit_map s))) = S (reached n + j)) as ->.
  { rewrite Hbits, (layout_at n q Hn), <- app_assoc, take_app_ge by (unfold start; lia).
    replace (start n + j + 1 - length (layout (take n N)))%nat with (j + 1)%nat by (unfold start; lia).
    rewrite <- app_assoc, take_app_le by (rewrite length_replicate; lia).
    rewrite take_replicate, zeros_app, zeros_replicate, layout_zeros. fold (reached n). lia. }
  rewrite arith_ok by (unfold in_width; lia). rstep.
  replace (Z.of_nat (S (reached n + j)) - 1) with (Z.of_nat (reached n + j)) by lia.
  rewrite (select_ith_one_ok _ _ _ _ e Hix Hw He). rstep. rewrite Hs. do 2 f_equal. lia.
Qed.

Lemma end_at n q : N !! n = Some q -> get_bit (leaves s) (Z.of_nat n) = Ok (is_end q).
Proof.
  intros Hn. apply get_bit_ok. destruct Hends as [Hbit Hlast]. specialize (Hbit n).
  rewrite list_lookup_fmap, Hn in Hbit. cbn [fmap option_fmap option_map default from_option id] in Hbit.
  assert (length N <= 64 * length (leaves s))%nat as Hcov.
  { rewrite length_fmap in Hlast. apply Hlast. rewrite fmap_last.
    destruct (last N) as [x|] eqn:E; [|apply last_None in E; by subst].
    pose proof HN as [_ Hok Hnk _]. cbn [fmap option_fmap option_map]. f_equal.
    apply last_Some in E as E'. destruct E' as [l' El].
    assert (x ∈ N) as Hx by (rewrite El; set_solver).
    rewrite Forall_forall in Hok. destruct (Hok x Hx) as [p Hp].
    apply (is_end_or_kids p x Hp). by apply Hnk. }
  unfold bit_at in Hbit. pose proof (lookup_lt_Some _ _ _ Hn).
  destruct (lookup_lt_is_Some_2 (bm_bits (leaves s)) n) as [b Hb]; [rewrite bm_bits_length; lia|].
  rewrite Hb in Hbit. cbn [default from_option id] in Hbit. by rewrite Hb, Hbit.
Qed.

Definition walk_cost (key : str) : nat := (length key * S (length (labels s)) + 1)%nat.

Lemma kids_le_labels n q : N !! n = Some q -> (length (kids q) <= length (labels s))%nat.
Proof.
  intros Hn. rewrite Hlabels, kid_labels_length. rewrite <- (take_drop_middle N n q Hn). unfold kid_nodes.
  rewrite bind_app, length_app. fold (kid_nodes (q :: drop (S n) N)). rewrite kid_nodes_cons. lia.
Qed.

Definition at_label (i n j : nat) : HasState :=
  {| h_i := Z.of_nat i; h_node_id := Z.of_nat n; h_bm_idx := Z.of_nat (start n + j); h_stack := [] |}.

Lemma has_step_scan key i c n q j :
  N !! n = Some q -> key !! i = Some c -> (j <= length (kids q))%nat ->
  has_step oc s key (at_label i n j) =
    Ok match kids q !! j with
       | None => inr false
       | Some g => if g.1 =? PLUS_BYTE then inr true
                   else if g.1 =? wrap 8 c then inl (at_label (S i) (S (reached n + j)) 0)
                   else inl (at_label i n (S j))
       end.
Proof.
  intros Hn Hc Hj. unfold has_step, at_label. cbn [h_i h_node_id h_bm_idx h_stack].
  rewrite (zidx_nat key _ c) by (try lia; by rewrite Nat2Z.id). rstep.
  rewrite (block_bit n q j Hn Hj). rstep. destruct (kids q !! j) as [g|] eqn:Hg.
  2: { apply lookup_ge_None in Hg. by rewrite bool_decide_true by lia. }
  pose proof (lookup_lt_Some _ _ _ Hg) as Hlt. rewrite bool_decide_false by lia.
  pose proof (label_at n q j g Hn Hg) as Hl. pose proof (lookup_lt_Some _ _ _ Hl) as Hlen.
  pose proof (lookup_lt_Some _ _ _ Hn) as HnN. rewrite (start_reached n) by lia.
  pose proof (reached_bound n q j Hn Hlt) as Hrb.
  destruct (labels s) as [|l0 ls] eqn:El; [simpl in Hlen; lia|]. rewrite <- El in *.
  rewrite arith_ok by (unfold in_width; lia). rstep.
  rewrite (zidx_nat _ _ g.1) by (try lia; rewrite <- Hl; f_equal; lia). rstep.
  destruct HN as [_ Hok _ _]. rewrite Forall_forall in Hok.
  destruct (Hok q) as [p Hp]; [by eapply list_elem_of_lookup_2|].
  pose proof (kid_label_ge p q j g Hp Hg) as Hge. unfold PLUS_BYTE, STAR_BYTE in *.
  destruct (Z.eqb_spec g.1 43) as [|Hne]; [done|]. rewrite (proj2 (Z.eqb_neq g.1 42)) by lia.
  destruct (Z.eqb_spec g.1 (wrap 8 c)) as [Ec|Ec].
  - rewrite <- (start_reached n) by lia. rewrite (descend_ok n q j g Hn Hg). rstep.
    rewrite Nat.add_0_r. do 3 f_equal. lia.
  - do 3 f_equal. lia.
Qed.

Lemma has_loop_walk key i n q fuel :
  N !! n = Some q -> (i <= length key)%nat -> (walk_cost (drop i key) <= fuel)%nat ->
  has_loop oc fuel s key (at_label i n 0) = Some (Ok (walk (wrap 8 <$> drop i key) q)).
Proof.
  remember (drop i key) as rest eqn:Er. revert i n q fuel Er.
  induction rest as [|c rest IH]; intros i n q fuel Er Hn Hi Hf.
  { destruct fuel as [|fuel]; [unfold walk_cost in Hf; lia|]. cbn [has_loop at_label h_i h_node_id].
    symmetry in Er. assert (length (drop i key) = 0%nat) as El by by rewrite Er.
    rewrite length_drop in El. unfold zlen. rewrite (proj2 (Z.ltb_ge _ _)) by lia.
    rewrite (end_at n q Hn). done. }
  assert (key !! i = Some c /\ drop (S i) key = rest) as [Hc Hrest].
  { assert (drop i key !! 0%nat = Some c) as H by by rewrite <- Er. rewrite lookup_drop, Nat.add_0_r in H.
    split; [done|]. rewrite (drop_S key c i H) in Er. by injection Er. }
  pose proof (lookup_lt_Some _ _ _ Hc) as Hilt. pose proof (kids_le_labels n q Hn) as HL.
  assert (forall ks j fuel, drop j (kids q) = ks -> (j <= length (kids q))%nat ->
    (length ks + 1 + walk_cost rest <= fuel)%nat ->
    has_loop oc fuel s key (at_label i n j) =
      Some (Ok match pick ks (wrap 8 c) with
               | None => false
               | Some g => (g.1 =? PLUS_BYTE) || walk (wrap 8 <$> rest) g.2
               end)) as Hscan.
  { clear fuel Hf. induction ks as [|g ks IHks]; intros j fuel Ej Hj Hf;
      (destruct fuel as [|fuel]; [lia|]); cbn [has_loop]; unfold at_label at 1; cbn [h_i];
      unfold zlen; rewrite (proj2 (Z.ltb_lt _ _)) by lia; rewrite (has_step_scan key i c n q j Hn Hc Hj).
    - assert (length (drop j (kids q)) = 0%nat) as El by by rewrite Ej. rewrite length_drop in El.
      rewrite lookup_ge_None_2 by lia. done.
    - assert (kids q !! j = Some g) as Hg.
      { assert (drop j (kids q) !! 0%nat = Some g) as H by by rewrite Ej.
        by rewrite lookup_drop, Nat.add_0_r in H. }
      rewrite Hg. cbn [pick length] in *. destruct (g.1 =? PLUS_BYTE) eqn:Ep; cbn [orb]; [by rewrite Ep|].
      destruct (g.1 =? wrap 8 c) eqn:Ec.
      + rewrite Ep. cbn [orb]. apply IH; [done|by eapply child_at|lia|lia].
      + apply IHks; [|apply lookup_lt_Some in Hg; lia|lia].
        rewrite (drop_S _ _ _ Hg) in Ej. by injection Ej. }
  cbn [fmap list_fmap walk]. apply Hscan; [by rewrite drop_0|lia|].
  unfold walk_cost in *. cbn [length] in Hf. lia.
Qed.

End walk.

Lemma root_node_of : keys <> [] -> node_of [] root_node.
Proof.
  intros Hne. split; cbn [q_col q_s q_e root_node length]; [done| |done|].
  - destruct keys; [done|]. simpl. lia.
  - intros i k Hk. split; [intros _; apply prefix_nil|]. intros _. split; [lia|]. by apply lookup_lt_Some in Hk.
Qed.
End keys.

Lemma ksum_all keys : ksum keys 0 (length keys) 0 = sum_list_with length keys.
Proof.
  induction keys as [|k keys IH]; [done|]. rewrite ksum_cons by (simpl; lia).
  cbn [lookup list_lookup default from_option id sum_list_with]. rewrite <- IH. rewrite Nat.sub_0_r. f_equal.
  unfold ksum. cbn [length]. rewrite Nat.sub_0_r. rewrite <- (fmap_S_seq 0).
  replace (S (length keys) - 1)%nat with (length keys) by lia.
  induction (seq 0 (length keys)) as [|i l IHl]; [done|]. cbn [fmap list_fmap sum_list_with]. by rewrite IHl.
Qed.

(** ** The answer of the set *)

(** The characters a key may have: ASCII, and none below the [+]. *)
Definition key_char (c : char) : Prop := PLUS_BYTE <= c < 128.

(** A domain (its characters cut to bytes, reversed) is in the set when it is
    a key, or when some key has a [+] at a place where the domain goes on. *)
Definition set_matches (keys : list str) (key : str) : Prop :=
  key ∈ keys \/
  exists x c r k, key = x ++ c :: r /\ k ∈ keys /\ (x ++ [PLUS_BYTE]) `prefix_of` k.

Definition set_cost (keys : list str) (dom : str) : nat :=
  (length dom * S (sum_list_with length keys) + 1)%nat.

Lemma domain_set_from_exact {T} oc (t : StringTrie T) :
  let keys := trie_keys t in
  keys <> [] -> NoDup keys -> Forall (Forall key_char) keys ->
  Z.of_nat (sum_list_with length keys) < 2 ^ 29 ->
  exists s, domain_set_from oc t = Some (Ok s) /\
    forall dom fuel, (set_cost keys dom <= fuel)%nat ->
      exists b, has oc fuel s dom = Some (Ok b) /\
        (b = true <-> set_matches keys (wrap 8 <$> has_key dom)).
Proof.
  intros keys Hne Hnd Hch Hsize.
  assert (StronglySorted (fun a b => key_leb a b = true) keys) as Hs by apply sort_keys_sorted.
  assert (Forall (Forall ascii) keys) as Ha.
  { eapply Forall_impl; [exact Hch|]. intros k Hk. eapply Forall_impl; [exact Hk|].
    unfold key_char, ascii, PLUS_BYTE. lia. }
  assert (Forall (Forall (fun c => PLUS_BYTE <= c)) keys) as Hp.
  { eapply Forall_impl; [exact Hch|]. intros k Hk. eapply Forall_impl; [exact Hk|]. unfold key_char. lia. }
  assert (total_weight keys [root_node keys] = S (sum_list_with length keys)) as Hw.
  { unfold total_weight, weight, root_node. cbn [sum_list_with q_s q_e q_col]. rewrite ksum_all. lia. }
  destruct (from_loop_spec keys Hs Hnd Ha (2 + sum_list_with length keys) [root_node keys]
    domain_set_default [] []) as (rv & N & E & HN & Hbm & Hen & Hlab).
  { constructor; [|done]. exists []. by apply root_node_of. }
  { rewrite Hw. lia. }
  { apply holds_bits_nil. }
  { apply holds_ends_nil. }
  pose proof HN as [HN1 _ _ HN4]. rewrite Hw in HN4.
  pose proof (layout_length keys N) as HL. pose proof (f_equal length HN1) as HN1'.
  cbn [app length domain_set_default labels] in HN1', Hbm, Hen, Hlab. pose proof Hbm as [Hwords _ _ Htight].
  destruct (init_indexed oc rv Hwords) as (s & Ei & Els & Ell & Elb & Hix).
  { unfold zlen. lia. }
  exists s. split.
  { unfold domain_set_from. fold keys. change (Z.of_nat (length (@nil bool))) with 0 in E.
    assert (sum_list (map length keys) = sum_list_with length keys) as ->.
    { clear. induction keys as [|k l IH]; [done|]. cbn [map sum_list_with]. by rewrite IH. }
    unfold root_node in E. rewrite E. rstep. by rewrite Ei. }
  rewrite <- Elb in Hbm, Hix. rewrite <- Els in Hen. rewrite <- Ell in Hlab.
  intros dom fuel Hf. unfold has.
  assert (N !! 0%nat = Some (root_node keys)) as H0 by (by rewrite HN1).
  pose proof (has_loop_walk keys Hs Hnd Ha Hp N s oc HN Hbm Hen Hlab Hix ltac:(lia) (has_key dom) 0 0
    (root_node keys) fuel H0 ltac:(lia)) as Hwalk.
  assert (length (has_key dom) = length dom) as Hkl by (unfold has_key; by rewrite length_map, length_reverse).
  rewrite drop_0 in Hwalk. eexists. split.
  - apply Hwalk. unfold walk_cost, set_cost in *. rewrite Hlab, kid_labels_length, Hkl.
    etrans; [|exact Hf]. apply Nat.add_le_mono_r, Nat.mul_le_mono_l. lia.
  - apply (walk_spec keys Hs Hnd Ha Hp _ [] (root_node keys)). by apply root_node_of.
Qed.

(** ** The keys of a trie *)
Section paths.
Context {T : Type}.

Definition data_path (k : str) (c : Node T) : list (list str) :=
  match get_data c with Some _ => [[k]] | None => [] end.
Fixpoint node_paths (n : Node T) : list (list str) :=
  match n with
  | mkNode cs _ =>
    (fix go (cs : list (str * Node T)) : list (list str) :=
      match cs with
      | [] => []
      | (k, c) :: cs' => data_path k c ++ ((k ::.) <$> node_paths c) ++ go cs'
      end) cs
  end.
Definition child_paths (kc : str * Node T) : list (list str) :=
  data_path kc.1 kc.2 ++ ((kc.1 ::.) <$> node_paths kc.2).

Lemma node_paths_bind cs d : node_paths (mkNode cs d) = cs ≫= child_paths.
Proof.
  cbn [node_paths]. induction cs as [|[k c] cs IH]; [done|]. cbn [mbind list_bind].
  unfold child_paths at 1. cbn [fst snd]. rewrite <- app_assoc. do 2 f_equal. exact IH.
Qed.

Lemma node_paths_cons (n : Node T) : Forall (fun p => p <> []) (node_paths n).
Proof.
  destruct n as [cs d]. rewrite node_paths_bind. apply Forall_forall. intros p Hp.
  apply list_elem_of_bind in Hp as ([k c] & Hp & _). unfold child_paths, data_path in Hp.
  apply elem_of_app in Hp as [Hp|Hp].
  - cbn [fst snd] in Hp. destruct (get_data c); [|by apply elem_of_nil in Hp].
    apply list_elem_of_singleton in Hp. by subst.
  - apply list_elem_of_fmap in Hp as (x & -> & _). done.
Qed.

Lemma node_entries_paths (n : Node T) keys :
  (node_entries keys n).*1 = (fun p => traverse_key (reverse p ++ keys)) <$> node_paths n.
Proof.
  revert keys. induction n as [cs d IH] using node_ind'. intros keys. cbn [node_entries node_paths].
  induction IH as [|[k c] cs Hc _ IHcs]; [done|]. cbn [snd] in Hc.
  rewrite !fmap_app, Hc, IHcs, <- list_fmap_compose. f_equal.
  - unfold here, data_path. by destruct (get_data c).
  - f_equal. apply list_fmap_ext. intros i p _. cbn [compose]. by rewrite reverse_cons, <- app_assoc.
Qed.

Lemma trie_entries_paths (t : StringTrie T) :
  (trie_entries t).*1 ≡ₚ entry_key <$> node_paths (root t).
Proof.
  rewrite trie_entries_root. unfold root_entries. destruct (root t) as [cs d]. cbn [get_children].
  rewrite node_paths_bind. induction cs as [|[k c] cs IH]; [done|]. cbn [mbind list_bind].
  rewrite !fmap_app, IH. apply Permutation_app; [|done].
  unfold child_paths. cbn [fst snd]. rewrite fmap_app, (Permutation_app_comm (node_entries [k] c).*1). apply Permutation_app.
  - unfold here, data_path. by destruct (get_data c).
  - rewrite node_entries_paths, <- list_fmap_compose. apply Permutation_refl'. apply list_fmap_ext.
    intros i p Hp. cbn [compose]. unfold entry_key. assert (p <> []) as Hne.
    { apply (Forall_lookup_1 _ _ _ _ (node_paths_cons c) Hp). }
    destruct p as [|x p]; [done|]. by rewrite (reverse_cons (x :: p)).
Qed.

Lemma child_paths_head kc p : p ∈ child_paths kc -> exists q, p = kc.1 :: q.
Proof.
  unfold child_paths, data_path. intros [Hp|Hp]%elem_of_app.
  - destruct (get_data kc.2); [|by apply elem_of_nil in Hp]. apply list_elem_of_singleton in Hp. by exists [].
  - apply list_elem_of_fmap in Hp as (x & -> & _). by exists x.
Qed.

Lemma node_paths_nodup (n : Node T) : wf_node n -> NoDup (node_paths n).
Proof.
  induction n as [cs d IH] using node_ind'. intros Hwf. inv Hwf as [? ? Hnd Hall].
  rewrite node_paths_bind. induction cs as [|[k c] cs IHcs]; [constructor|].
  apply Forall_cons in IH as [Hc IH], Hall as [Hwc Hall]. cbn [fmap list_fmap fst snd] in *.
  apply NoDup_cons in Hnd as [Hk Hnd]. cbn [mbind list_bind]. apply NoDup_app. split_and!.
  - unfold child_paths. cbn [fst snd]. apply NoDup_app. split_and!.
    + unfold data_path. destruct (get_data c); [apply NoDup_singleton|constructor].
    + intros p Hp Hq. apply list_elem_of_fmap in Hq as (x & -> & Hx). unfold data_path in Hp.
      destruct (get_data c); [|by apply elem_of_nil in Hp].
      apply list_elem_of_singleton in Hp. injection Hp as ->.
      pose proof (node_paths_cons c) as Hf. rewrite Forall_forall in Hf. by apply (Hf [] Hx).
    + apply NoDup_fmap_2; [|by apply Hc]. intros ? ? [= ->]. done.
  - intros p Hp Hq. apply child_paths_head in Hp as [q ->].
    apply list_elem_of_bind in Hq as ([k' c'] & Hq & Hin). apply child_paths_head in Hq as [q' Eq].
    cbn [fst] in Eq. injection Eq as -> _. apply Hk. by apply (list_elem_of_fmap_2 fst) in Hin.
  - by apply IHcs.
Qed.

Lemma node_paths_data (n : Node T) p : wf_node n -> p ∈ node_paths n -> is_Some (node_data_at n p).
Proof.
  revert p. induction n as [cs d IH] using node_ind'. intros p Hwf Hp. inv Hwf as [? ? Hnd Hall].
  rewrite node_paths_bind in Hp. apply list_elem_of_bind in Hp as ([k c] & Hp & Hin).
  rewrite Forall_forall in IH, Hall. unfold child_paths, data_path in Hp. cbn [fst snd] in Hp.
  pose proof (alist_elem_get k c cs Hnd Hin) as Hget.
  apply elem_of_app in Hp as [Hp|Hp].
  - destruct (get_data c) eqn:Ed; [|by apply elem_of_nil in Hp]. apply list_elem_of_singleton in Hp as ->.
    cbn [node_data_at]. unfold get_child. cbn [get_children]. rewrite Hget. cbn. by rewrite Ed.
  - apply list_elem_of_fmap in Hp as (q & -> & Hq).
    cbn [node_data_at]. unfold get_child. cbn [get_children]. rewrite Hget. cbn [mbind option_bind].
    apply (IH _ Hin); [by apply (Hall _ Hin)|done].
Qed.
End paths.

(** ** Lists of domains, with or without [+.] and [.] *)

(** A domain of a list: ordinary labels, ASCII characters above the [+]. *)
Definition set_domain (v : str) : Prop := plain_domain v /\ Forall (fun c => PLUS_BYTE < c < 128) v.
Definition list_pattern (pat : str) : Prop :=
  exists v, set_domain v /\ (pat = v \/ pat = lit "+." ++ v \/ pat = lit "." ++ v).

(** The path of a domain, and that of a domain's subdomains. *)
Definition path_of (v : str) : list str := reverse (split_on 46 v).

Lemma path_of_inj v w : path_of v = path_of w -> v = w.
Proof. intros H. by apply (inj reverse), split_on_inj in H. Qed.
Lemma path_of_plain v : set_domain v -> Forall plain_label (path_of v).
Proof. intros [H _]. by apply Forall_reverse. Qed.
Lemma path_of_ne v : path_of v <> [].
Proof.
  unfold path_of. intros H. apply (f_equal reverse) in H. rewrite reverse_involutive in H.
  by apply split_on_nonempty in H.
Qed.

Lemma set_domain_chars v c : set_domain v -> c ∈ v -> PLUS_BYTE < c < 128.
Proof. intros [_ H] Hc. rewrite Forall_forall in H. by apply H. Qed.
Lemma set_domain_no_plus v : set_domain v -> PLUS_BYTE ∉ v.
Proof. intros Hv Hin. pose proof (set_domain_chars v _ Hv Hin). lia. Qed.

Lemma exact_pattern_paths v : set_domain v -> pattern_paths v = [path_of v].
Proof.
  intros Hv. pose proof Hv as [Hp _]. pose proof (plain_search_labels v Hp) as Hs.
  unfold search_labels in Hs. unfold pattern_paths.
  destruct (valid_and_split_domain v) as [[[|p rest]|] []] eqn:E; try done.
  case_bool_decide; [done|]. injection Hs as Hs. rewrite bool_decide_false; [by rewrite Hs|].
  intros Ep. apply (set_domain_no_plus v Hv). rewrite <- (join_split_on 46 v).
  unfold valid_and_split_domain in E. apply (f_equal reverse) in Hs. rewrite !reverse_involutive in Hs.
  rewrite <- Hs. rewrite Ep. destruct rest; simpl; left.
Qed.

Lemma dot_pattern_paths v : set_domain v -> pattern_paths (lit "." ++ v) = [path_of v ++ [DOT_WILDCARD]].
Proof.
  intros [Hv Hc]. destruct (plain_domain_ends v Hv) as [Hne He].
  unfold pattern_paths, valid_and_split_domain. change (lit "." ++ v) with ([] ++ 46 :: v).
  assert (ends_with [46] ([] ++ 46 :: v) = false) as ->.
  { apply not_true_iff_false. rewrite ends_with_spec. intros [k Hk].
    apply not_true_iff_false in He. apply He. apply ends_with_spec.
    destruct v as [|x v] using rev_ind; [done|].
    exists v. cbn [app] in Hk. rewrite app_comm_cons in Hk. by apply app_inj_2 in Hk as [_ ->]. }
  rewrite andb_false_r. unfold DOMAIN_STEP. rewrite split_on_app.
  pose proof (plain_domain_no_empty v Hv) as Hno. change (split_on 46 []) with [@nil char].
  unfold path_of. pose proof (split_on_nonempty 46 v). destruct (split_on 46 v) as [|p ps]; [done|].
  simpl length. simpl drop. cbv iota. rewrite Hno. simpl. by rewrite (reverse_cons (p :: ps)).
Qed.

Lemma entry_key_exact v : set_domain v -> entry_key (path_of v) = v.
Proof.
  intros [Hv _]. unfold entry_key. pose proof (join_split_on 46 v) as Hj.
  assert (traverse_key (split_on 46 v) = v) as Ht.
  { unfold traverse_key, DOMAIN_STEP. rewrite Hj. destruct (starts_with [46] v) eqn:E; [|done].
    apply starts_with_spec in E as [k ->]. exfalso. unfold plain_domain in Hv.
    change ([46] ++ k) with ([] ++ 46 :: k) in Hv. rewrite split_on_app in Hv.
    by inv Hv as [|? ? [_ Hd] _]. }
  unfold path_of. destruct (reverse (split_on 46 v)) as [|k [|k' p]] eqn:E.
  - apply (f_equal reverse) in E. rewrite reverse_involutive in E. by apply split_on_nonempty in E.
  - apply (f_equal reverse) in E. rewrite reverse_involutive in E. rewrite E in Hj. exact Hj.
  - rewrite <- E, reverse_involutive. done.
Qed.

Lemma entry_key_dot v : entry_key (path_of v ++ [DOT_WILDCARD]) = lit "+." ++ v.
Proof.
  unfold entry_key. pose proof (path_of_ne v) as Hne. destruct (path_of v) as [|k p] eqn:E; [done|].
  assert (match (k :: p) ++ [DOT_WILDCARD] with [k] => k | _ => traverse_key (reverse ((k :: p) ++ [DOT_WILDCARD])) end
    = traverse_key (reverse ((k :: p) ++ [DOT_WILDCARD]))) as -> by by destruct p.
  rewrite <- E, reverse_app. unfold path_of. rewrite reverse_involutive. unfold traverse_key.
  assert (join [DOMAIN_STEP] (reverse [DOT_WILDCARD] ++ split_on 46 v) = 46 :: v) as ->; [|done].
  pose proof (split_on_nonempty 46 v). rewrite <- (join_split_on 46 v) at 2.
  by destruct (split_on 46 v).
Qed.

Section agreement.
Context {T : Type} (ps : list (str * T)) (Hps : Forall (fun pd => list_pattern pd.1) ps).

Definition stored (p : list str) : Prop := is_Some (data_at (build ps) p).

Lemma stored_shape p :
  stored p -> exists v, set_domain v /\ (p = path_of v \/ p = path_of v ++ [DOT_WILDCARD]).
Proof.
  intros (pat & d & Hin & Hp)%data_at_build. rewrite Forall_forall in Hps.
  destruct (Hps _ Hin) as (v & Hv & Hpat). cbn [fst] in Hpat. exists v. split; [done|].
  destruct Hpat as [->|[->| ->]].
  - rewrite exact_pattern_paths in Hp by done. apply list_elem_of_singleton in Hp. by left.
  - rewrite plus_pattern_paths in Hp by apply Hv. fold (path_of v) in Hp.
    apply elem_of_cons in Hp as [->|Hp]; [by right|]. apply list_elem_of_singleton in Hp. by left.
  - rewrite dot_pattern_paths in Hp by done. apply list_elem_of_singleton in Hp. by right.
Qed.

Lemma entry_key_inj p q : stored p -> stored q -> entry_key p = entry_key q -> p = q.
Proof.
  intros Hp Hq. destruct (stored_shape p Hp) as (v & Hv & Ep), (stored_shape q Hq) as (w & Hw & Eq).
  pose proof (set_domain_no_plus v Hv) as Nv. pose proof (set_domain_no_plus w Hw) as Nw.
  destruct Ep as [->| ->], Eq as [->| ->]; rewrite ?entry_key_exact, ?entry_key_dot by done; intros E.
  - by rewrite E.
  - exfalso. apply Nv. rewrite E. left.
  - exfalso. apply Nw. rewrite <- E. left.
  - apply (inj (app (lit "+."))) in E. by rewrite E.
Qed.

Lemma trie_keys_elem k : k ∈ trie_keys (build ps) <-> exists p, p <> [] /\ stored p /\ k = reverse (entry_key p).
Proof.
  unfold trie_keys. rewrite sort_keys_perm. rewrite list_elem_of_fmap. split.
  - intros ([x d] & -> & Hx). apply elem_of_trie_entries in Hx as (p & Hp & Hd & ->); [|apply wf_build].
    exists p. split_and!; [done|by exists d|done].
  - intros (p & Hp & [d Hd] & ->). exists (entry_key p, d). split; [done|].
    apply elem_of_trie_entries; [apply wf_build|]. by exists p.
Qed.

Lemma trie_keys_nodup : NoDup (trie_keys (build ps)).
Proof.
  unfold trie_keys. rewrite sort_keys_perm.
  change (map (fun kd => reverse kd.1) (trie_entries (build ps)))
    with (reverse ∘ fst <$> trie_entries (build ps)).
  rewrite list_fmap_compose. apply NoDup_fmap_2; [apply _|].
  rewrite trie_entries_paths. apply NoDup_fmap_2_strong; [|apply node_paths_nodup, wf_build].
  intros p q Hp Hq. apply entry_key_inj; apply node_paths_data; done || apply wf_build.
Qed.

Lemma trie_keys_chars : Forall (Forall key_char) (trie_keys (build ps)).
Proof.
  apply Forall_forall. intros k Hk. apply trie_keys_elem in Hk as (p & _ & Hp & ->).
  apply Forall_reverse. destruct (stored_shape p Hp) as (v & Hv & Ep).
  assert (Forall key_char v) as Hc.
  { destruct Hv as [_ Hv]. eapply Forall_impl; [exact Hv|]. unfold key_char. lia. }
  destruct Ep as [->| ->]; rewrite ?entry_key_exact, ?entry_key_dot by done; [done|].
  apply Forall_app_2; [|done]. repeat constructor; unfold key_char, PLUS_BYTE; simpl; lia.
Qed.

Lemma trie_keys_ne : ps <> [] -> trie_keys (build ps) <> [].
Proof.
  intros Hne. destruct ps as [|[pat d] ps'] eqn:E; [done|]. rewrite <- E in *.
  assert (exists p, p <> [] /\ stored p) as (p & Hp & Hs).
  { pose proof Hps as Hps'. rewrite E in Hps'. apply Forall_cons in Hps' as [(v & Hv & Hpat) _].
    assert ((pat, d) ∈ ps) as Hin by (rewrite E; left).
    assert (exists p, p <> [] /\ p ∈ pattern_paths pat) as (p & Hp & Hpp).
    { cbn [fst] in Hpat. destruct Hpat as [->|[->| ->]].
      - exists (path_of v). split; [apply path_of_ne|]. rewrite exact_pattern_paths by done. left.
      - exists (path_of v). split; [apply path_of_ne|]. rewrite plus_pattern_paths by apply Hv. right. left.
      - exists (path_of v ++ [DOT_WILDCARD]). split; [|rewrite dot_pattern_paths by done; left].
        by destruct (path_of v). }
    exists p. split; [done|]. apply data_at_build. by exists pat, d. }
  intros Ek. assert (reverse (entry_key p) ∈ trie_keys (build ps)) as Hin by (apply trie_keys_elem; by exists p).
  rewrite Ek in Hin. by apply elem_of_nil in Hin.
Qed.

Lemma search_stored dom :
  set_domain dom ->
  is_Some (trie_search (build ps) dom) <-> exists p, stored p /\ path_matches p (path_of dom).
Proof.
  intros [Hd _]. destruct (trie_search_spec (build ps) dom) as [Hf Hs]. rewrite Hs, Hf.
  rewrite plain_search_labels by done. cbn [mbind option_bind]. apply find_best_complete.
Qed.

Lemma plus_at_end (x y z : str) : PLUS_BYTE ∉ y -> x ++ PLUS_BYTE :: z = y ++ [PLUS_BYTE] -> x = y.
Proof.
  revert y. induction x as [|a x IH]; intros [|b y] Hy E; cbn [app] in E.
  - done.
  - injection E as E _. exfalso. apply Hy. rewrite <- E. left.
  - injection E as _ E. by destruct x.
  - injection E as -> E. f_equal. apply IH; [|done]. intros ?. apply Hy. by right.
Qed.

Lemma keys_match_iff dom :
  set_domain dom ->
  set_matches (trie_keys (build ps)) (reverse dom) <->
  exists p, stored p /\ path_matches p (path_of dom).
Proof.
  intros Hd. pose proof (set_domain_no_plus dom Hd) as Nd. split.
  - intros [Hk|(x & c & r & k & Ex & Hk & [z Hpre])]; apply trie_keys_elem in Hk as (p & _ & Hp & Ek);
      exists p; (split; [done|]); destruct (stored_shape p Hp) as (v & Hv & Ep);
      pose proof (set_domain_no_plus v Hv) as Nv.
    + apply (inj reverse) in Ek. destruct Ep as [->| ->].
      * rewrite entry_key_exact in Ek by done. subst v. apply path_matches_plain; [by apply path_of_plain|done].
      * rewrite entry_key_dot in Ek. exfalso. apply Nd. rewrite Ek. left.
    + destruct Ep as [->| ->].
      * rewrite entry_key_exact in Ek by done. exfalso. apply Nv.
        rewrite <- elem_of_reverse, <- Ek, Hpre. rewrite !elem_of_app. left. right. left.
      * rewrite entry_key_dot, reverse_app in Ek. change (reverse (lit "+.")) with [46; 43] in Ek.
        rewrite Ek, <- app_assoc in Hpre. cbn [app] in Hpre.
        change (reverse v ++ [46; 43]) with (reverse v ++ [46] ++ [PLUS_BYTE]) in Hpre.
        rewrite app_assoc in Hpre. symmetry in Hpre. apply plus_at_end in Hpre as ->.
        2: { rewrite elem_of_app, elem_of_reverse. intros [?|?%list_elem_of_singleton]; [done|discriminate]. }
        apply path_matches_plain_dot; [by apply path_of_plain|].
        assert ((46 :: v) `suffix_of` dom) as Hs.
        { exists (reverse (c :: r)). apply (f_equal reverse) in Ex. rewrite reverse_involutive in Ex.
          rewrite Ex. rewrite !reverse_app, reverse_involutive. done. }
        apply split_on_suffix in Hs as (q & Hq & Es). exists (reverse q). unfold path_of.
        rewrite Es, reverse_app. split; [|done]. intros H. apply (f_equal reverse) in H.
        by rewrite reverse_involutive in H.
  - intros (p & Hp & Hm). destruct (stored_shape p Hp) as (v & Hv & [->| ->]).
    + apply path_matches_plain in Hm; [|by apply path_of_plain]. apply path_of_inj in Hm as ->. left.
      apply trie_keys_elem. exists (path_of dom). split_and!; [apply path_of_ne|done|].
      by rewrite entry_key_exact.
    + apply path_matches_plain_dot in Hm as (r & Hr & Em); [|by apply path_of_plain]. right.
      assert ((46 :: v) `suffix_of` dom) as [k Ek].
      { apply split_on_suffix. exists (reverse r). apply (f_equal reverse) in Em. unfold path_of in Em.
        rewrite reverse_app, !reverse_involutive in Em. split; [|done].
        intros H. apply (f_equal reverse) in H. by rewrite reverse_involutive in H. }
      destruct (reverse k) as [|c l] eqn:Ekr.
      { apply (f_equal reverse) in Ekr. rewrite reverse_involutive in Ekr. change (reverse []) with (@nil Z) in Ekr. subst k. exfalso.
        destruct Hd as [Hd _]. unfold plain_domain in Hd. rewrite Ek, split_on_app in Hd.
        by inv Hd as [|? ? [_ Hx] _]. }
      exists (reverse v ++ [46]), c, l, (reverse (lit "+." ++ v)). split_and!.
      * rewrite Ek, reverse_app, Ekr, reverse_cons. done.
      * apply trie_keys_elem. exists (path_of v ++ [DOT_WILDCARD]). split_and!; [by destruct (path_of v)|done|].
        by rewrite entry_key_dot.
      * rewrite reverse_app. change (reverse (lit "+.")) with [46; 43]. rewrite <- app_assoc. done.
Qed.
End agreement.

Definition not_upper (c : char) : Prop := ~ 65 <= c <= 90.

Lemma has_key_lower dom : set_domain dom -> Forall not_upper dom -> wrap 8 <$> has_key dom = reverse dom.
Proof.
  intros [_ Hc] Hu. unfold has_key. rewrite <- (list_fmap_id (reverse dom)) at 2.
  change (map to_ascii_lowercase_char (reverse dom)) with (to_ascii_lowercase_char <$> reverse dom).
  rewrite <- list_fmap_compose. apply list_fmap_ext. intros i c Hi. cbn [compose].
  apply list_elem_of_lookup_2 in Hi. rewrite elem_of_reverse in Hi. rewrite Forall_forall in Hc, Hu.
  specialize (Hc c Hi). specialize (Hu c Hi). unfold not_upper in Hu.
  unfold to_ascii_lowercase_char. destruct (between 65 90 c) eqn:E; [apply between_iff in E; lia|].
  apply wrap_small. unfold in_width, id, PLUS_BYTE in *. lia.
Qed.

(** The set and the trie of a list agree. *)
Lemma domain_set_agrees {T : Type} (oc : bool) (ps : list (str * T))
    (Hne : ps <> []) (Hps : Forall (fun pd => list_pattern pd.1) ps)
    (Hsize : Z.of_nat (sum_list_with length (trie_keys (build ps))) < 2 ^ 29) :
  exists s, domain_set_from oc (build ps) = Some (Ok s) /\
    forall dom fuel, set_domain dom -> Forall not_upper dom ->
      (set_cost (trie_keys (build ps)) dom <= fuel)%nat ->
      has oc fuel s dom = Some (Ok (bool_decide (is_Some (trie_search (build ps) dom)))).
Proof.
  destruct (domain_set_from_exact oc (build ps)) as (s & E & H).
  - by apply trie_keys_ne.
  - by apply trie_keys_nodup.
  - by apply trie_keys_chars.
  - done.
  - exists s. split; [done|]. intros dom fuel Hd Hu Hf. destruct (H dom fuel Hf) as (b & Hb & Hiff).
    rewrite has_key_lower, (keys_match_iff ps Hps), <- search_stored in Hiff by done.
    rewrite Hb. do 2 f_equal. case_bool_decide as Ht; [by apply Hiff|].
    destruct b; [|done]. exfalso. apply Ht. by apply Hiff.
Qed.

(** * Theorems *)

(** A domain set answers membership.  For a trie with at least one key,
    whose keys are distinct and made of ASCII characters from [+] up (so
    none contains a star), the conversion to a domain set succeeds and lays
    out a set whose lookups, within the stated number of rounds, end without
    a panic and answer true exactly for the domains that are a key or go on
    where some key has a [+]. *)
Theorem domain_set_exact {T : Type} (oc : bool) (t : StringTrie T)
    (Hne : trie_keys t <> []) (Hnd : NoDup (trie_keys t))
    (Hch : Forall (Forall key_char) (trie_keys t))
    (Hsize : Z.of_nat (sum_list_with length (trie_keys t)) < 2 ^ 29) :
  exists s, domain_set_from oc t = Some (Ok s) /\
    forall dom fuel, (set_cost (trie_keys t) dom <= fuel)%nat ->
      exists b, has oc fuel s dom = Some (Ok b) /\
        (b = true <-> set_matches (trie_keys t) (wrap 8 <$> has_key dom)).
Proof. by apply domain_set_from_exact. Qed.

(** C5: a domain set agrees with the trie it is built from.  For any non-empty
    list of patterns that are domains, [+.] domains or [.] domains, the set
    built from the trie of the list answers for every lower-case domain what
    a search in the trie answers. *)
Theorem domain_set_agrees_with_trie {T : Type} (oc : bool) (ps : list (str * T))
    (Hne : ps <> []) (Hps : Forall (fun pd => list_pattern pd.1) ps)
    (Hsize : Z.of_nat (sum_list_with length (trie_keys (build ps))) < 2 ^ 29) :
  exists s, domain_set_from oc (build ps) = Some (Ok s) /\
    forall dom fuel, set_domain dom -> Forall not_upper dom ->
      (set_cost (trie_keys (build ps)) dom <= fuel)%nat ->
      has oc fuel s dom = Some (Ok (bool_decide (is_Some (trie_search (build ps) dom)))).
Proof. by apply domain_set_agrees. Qed.

Lemma set_domain_check v :
  forallb (fun c => (PLUS_BYTE <? c) && (c <? 128)) v = true ->
  bool_decide (Forall plain_label (split_on 46 v)) = true -> set_domain v.
Proof.
  intros Hc Hp. split; [by apply bool_decide_eq_true in Hp|]. apply Forall_forall. intros c Hin.
  rewrite forallb_forall in Hc. apply list_elem_of_In, Hc, andb_true_iff in Hin as [H1 H2].
  apply Z.ltb_lt in H1, H2. lia.
Qed.

Lemma domain_set_exact_witness :
  exists s, domain_set_from true (build [(lit "+.b.c", tt)]) = Some (Ok s) /\
    exists b, has true 200 s (lit "a.b.c") = Some (Ok b).
Proof.
  destruct (domain_set_exact true (build [(lit "+.b.c", tt)])) as (s & E & H).
  - vm_compute. discriminate.
  - apply (bool_decide_unpack _). vm_compute. exact I.
  - apply (bool_decide_unpack _). vm_compute. exact I.
  - vm_compute. reflexivity.
  - exists s. split; [exact E|]. destruct (H (lit "a.b.c") 200%nat) as (b & Hb & _).
    + apply Nat.leb_le. vm_compute. reflexivity.
    + exists b. exact Hb.
Defined.

Lemma domain_set_agrees_with_trie_witness :
  exists s, domain_set_from true (build [(lit "a.com", 1); (lit "+.b.c", 2)]) = Some (Ok s) /\
    has true 400 s (lit "x.b.c") = Some (Ok true) /\ has true 400 s (lit "x.a.com") = Some (Ok false).
Proof.
  destruct (domain_set_agrees_with_trie true [(lit "a.com", 1); (lit "+.b.c", 2)]) as (s & E & H).
  - discriminate.
  - repeat constructor.
    + exists (lit "a.com"). split; [apply set_domain_check; reflexivity|]. left. reflexivity.
    + exists (lit "b.c"). split; [apply set_domain_check; reflexivity|]. right. left. reflexivity.
  - vm_compute. reflexivity.
  - exists s. split; [exact E|]. split.
    + rewrite H; [vm_compute; reflexivity|apply set_domain_check; reflexivity| |].
      * unfold not_upper. apply (bool_decide_unpack _). vm_compute. exact I.
      * apply Nat.leb_le. vm_compute. reflexivity.
    + rewrite H; [vm_compute; reflexivity|apply set_domain_check; reflexivity| |].
      * unfold not_upper. apply (bool_decide_unpack _). vm_compute. exact I.
      * apply Nat.leb_le. vm_compute. reflexivity.
Defined.
