(* ===== verification/DagSort.v ===== *)
(** * Ordering of proxy groups ([app/outbound/utils.rs])

    A proxy group lists proxies and other groups by name.  Before the groups
    are created they are sorted so that every group comes after the groups
    it lists; a cyclic configuration is refused.  The iteration order of a
    [HashMap] is arbitrary: each of the four loops over the graph takes its
    order as a parameter, any listing of the names of the graph. *)

From S2P Require Import Prelude Str.

(** ** Groups of the configuration ([config/internal/proxy.rs])

    A floating-point field is held by its bit pattern. *)
(* @src clash-lib/src/config/internal/proxy.rs ~pub struct OutboundGroupRelay~ OutboundGroupRelay *)
Record OutboundGroupRelay : Type := {
  relay_name : str; relay_proxies : option (list str); relay_use_provider : option (list str);
  relay_icon : option str; relay_url : option str;
}.
(* @src clash-lib/src/config/internal/proxy.rs ~pub struct OutboundGroupUrlTest~ OutboundGroupUrlTest *)
Record OutboundGroupUrlTest : Type := {
  urltest_name : str; urltest_proxies : option (list str); urltest_use_provider : option (list str);
  urltest_url : str; urltest_interval : Z; urltest_lazy : option bool; urltest_tolerance : option Z;
  urltest_icon : option str;
}.
(* @src clash-lib/src/config/internal/proxy.rs ~pub struct OutboundGroupFallback~ OutboundGroupFallback *)
Record OutboundGroupFallback : Type := {
  fallback_name : str; fallback_proxies : option (list str); fallback_use_provider : option (list str);
  fallback_url : str; fallback_interval : Z; fallback_lazy : option bool; fallback_icon : option str;
}.
(* @src clash-lib/src/config/internal/proxy.rs ~pub enum LoadBalanceStrategy~ LoadBalanceStrategy *)
Inductive LoadBalanceStrategy : Type := ConsistentHashing | RoundRobin | StickySession.
(* @src clash-lib/src/config/internal/proxy.rs ~pub struct OutboundGroupLoadBalance~ OutboundGroupLoadBalance *)
Record OutboundGroupLoadBalance : Type := {
  lb_name : str; lb_proxies : option (list str); lb_use_provider : option (list str);
  lb_url : str; lb_interval : Z; lb_lazy : option bool; lb_strategy : option LoadBalanceStrategy;
  lb_icon : option str;
}.
(* @src clash-lib/src/config/internal/proxy.rs ~pub struct OutboundGroupSmart~ OutboundGroupSmart *)
Record OutboundGroupSmart : Type := {
  smart_name : str; smart_proxies : option (list str); smart_udp : option bool;
  smart_use_provider : option (list str); smart_lazy : option bool; smart_icon : option str;
  smart_url : option str; smart_max_retries : option Z; smart_site_stickiness : option Z;
  smart_bandwidth_weight : option Z;
}.
(* @src clash-lib/src/config/internal/proxy.rs ~pub struct OutboundGroupSelect~ OutboundGroupSelect *)
Record OutboundGroupSelect : Type := {
  select_name : str; select_proxies : option (list str); select_use_provider : option (list str);
  select_udp : option bool; select_url : option str; select_icon : option str;
}.
(* @src clash-lib/src/config/internal/proxy.rs ~pub enum OutboundGroupProtocol~ OutboundGroupProtocol *)
Inductive OutboundGroupProtocol : Type :=
| Relay (g : OutboundGroupRelay)
| UrlTest (g : OutboundGroupUrlTest)
| Fallback (g : OutboundGroupFallback)
| LoadBalance (g : OutboundGroupLoadBalance)
| Smart (g : OutboundGroupSmart)
| Select (g : OutboundGroupSelect).

(* @src clash-lib/src/config/internal/proxy.rs ~    pub fn name\(&self\) -> &str~ OutboundGroupProtocol::name *)
Definition group_name (g : OutboundGroupProtocol) : str :=
  match g with
  | Relay g => relay_name g
  | UrlTest g => urltest_name g
  | Fallback g => fallback_name g
  | LoadBalance g => lb_name g
  | Smart g => smart_name g
  | Select g => select_name g
  end.
(* @src clash-lib/src/config/internal/proxy.rs ~pub fn proxies\(&self\)~ OutboundGroupProtocol::proxies *)
Definition group_proxies (g : OutboundGroupProtocol) : option (list str) :=
  match g with
  | Relay g => relay_proxies g
  | UrlTest g => urltest_proxies g
  | Fallback g => fallback_proxies g
  | LoadBalance g => lb_proxies g
  | Smart g => smart_proxies g
  | Select g => select_proxies g
  end.

(** ** The sort

    The degrees are [i32] in the source; they count names of the
    configuration and are kept unbounded. *)
(* @src clash-lib/src/app/outbound/utils.rs 12 21 Node *)
Record Node : Type := {
  in_degree : Z;
  proto : option OutboundGroupProtocol;
  outdegree : Z;
  from : list str;
}.
Abbreviation Graph := (gmap str Node).

Definition with_in_degree (d : Z) (n : Node) : Node :=
  {| in_degree := d; proto := proto n; outdegree := outdegree n; from := from n |}.
Definition with_proto (p : option OutboundGroupProtocol) (n : Node) : Node :=
  {| in_degree := in_degree n; proto := p; outdegree := outdegree n; from := from n |}.
Definition with_outdegree (d : Z) (n : Node) : Node :=
  {| in_degree := in_degree n; proto := proto n; outdegree := d; from := from n |}.
Definition with_from (l : list str) (n : Node) : Node :=
  {| in_degree := in_degree n; proto := proto n; outdegree := outdegree n; from := l |}.

(* @src clash-lib/src/app/outbound/utils.rs 51 65 proxy_groups_dag_sort (count a reference) *)
Definition count_ref (graph : Graph) (proxy : str) : Graph :=
  match graph !! proxy with
  | Some node => <[proxy := with_in_degree (in_degree node + 1) node]> graph
  | None => <[proxy := {| in_degree := 1; proto := None; outdegree := 0; from := [] |}]> graph
  end.

(* @src clash-lib/src/app/outbound/utils.rs 25 67 proxy_groups_dag_sort (add a group) *)
Definition add_group (graph : Graph) (group : OutboundGroupProtocol) : res Graph :=
  let name := group_name group in
  graph ← match graph !! name with
          | Some node =>
            if bool_decide (is_Some (proto node)) then Err "duplicate proxy group name"
            else Ok (<[name := with_proto (Some group) node]> graph)
          | None =>
            Ok (<[name := {| in_degree := 0; proto := Some group; outdegree := 0; from := [] |}]> graph)
          end;
  Ok (match group_proxies group with
      | Some proxies => foldl count_ref graph proxies
      | None => graph
      end).

(** One listed name of a group taken out of the graph: its degree drops, and
    it joins the queue when no group lists it any more. *)
(* @src clash-lib/src/app/outbound/utils.rs 94 100 proxy_groups_dag_sort (release a reference) *)
Definition release_ref (st : Graph * list str) (proxy : str) : res (Graph * list str) :=
  let '(graph, queue) := st in
  node ← or_panic (graph !! proxy);
  let d := in_degree node - 1 in
  Ok (<[proxy := with_in_degree d node]> graph, if d =? 0 then queue ++ [proxy] else queue).

(** The first loop.  [index] counts the groups placed, from the end of the
    slice.  Each round removes a node, so the number of nodes bounds the
    rounds. *)
(* @src clash-lib/src/app/outbound/utils.rs 80 104 proxy_groups_dag_sort (sort loop) *)
Fixpoint sort_loop (fuel : nat) (graph : Graph) (queue : list str) (index : nat)
    (groups : list OutboundGroupProtocol) : option (res (Graph * list OutboundGroupProtocol)) :=
  match queue with
  | [] => Some (Ok (graph, groups))
  | name :: queue =>
    match fuel with
    | O => None
    | S fuel' =>
      match graph !! name with
      | None => Some Panic
      | Some node =>
        match proto node with
        | None => sort_loop fuel' (delete name graph) queue index groups
        | Some g =>
          let index := S index in
          if bool_decide (length groups < index)%nat then Some Panic
          else
            let groups := <[(length groups - index)%nat := g]> groups in
            let graph := <[name := with_proto None node]> graph in
            match group_proxies g with
            | None => sort_loop fuel' (delete name graph) queue index groups
            | Some proxies =>
              match res_fold release_ref (graph, queue) proxies with
              | Ok (graph, queue) => sort_loop fuel' (delete name graph) queue index groups
              | Err e => Some (Err e)
              | Panic => Some Panic
              end
            end
        end
      end
    end
  end.

(** The groups left over: count what each lists and who lists it. *)
(* @src clash-lib/src/app/outbound/utils.rs 128 136 proxy_groups_dag_sort (link) *)
Definition link_ref (name : str) (graph : Graph) (proxy : str) : res Graph :=
  node ← or_panic (graph !! name);
  let graph := <[name := with_outdegree (outdegree node + 1) node]> graph in
  target ← or_panic (graph !! proxy);
  Ok (<[proxy := with_from (from target ++ [name]) target]> graph).
(* @src clash-lib/src/app/outbound/utils.rs 110 137 proxy_groups_dag_sort (link a group) *)
Definition link_group (graph : Graph) (name : str) : res Graph :=
  node ← or_panic (graph !! name);
  match proto node with
  | None => Ok graph
  | Some g => match group_proxies g with
              | None => Ok graph
              | Some proxies => res_fold (link_ref name) graph proxies
              end
  end.

(* @src clash-lib/src/app/outbound/utils.rs 152 157 proxy_groups_dag_sort (release a parent) *)
Definition release_parent (st : Graph * list str) (parent : str) : res (Graph * list str) :=
  let '(graph, queue) := st in
  node ← or_panic (graph !! parent);
  let d := outdegree node - 1 in
  Ok (<[parent := with_outdegree d node]> graph, if d =? 0 then queue ++ [parent] else queue).

(* @src clash-lib/src/app/outbound/utils.rs 146 162 proxy_groups_dag_sort (peel loop) *)
Fixpoint peel_loop (fuel : nat) (graph : Graph) (queue : list str) : option (res Graph) :=
  match queue with
  | [] => Some (Ok graph)
  | name :: queue =>
    match fuel with
    | O => None
    | S fuel' =>
      match graph !! name with
      | None => Some Panic
      | Some node =>
        match res_fold release_parent (graph, queue) (from node) with
        | Ok (graph, queue) => peel_loop fuel' (delete name graph) queue
        | Err e => Some (Err e)
        | Panic => Some Panic
        end
      end
    end
  end.

(** The orders in which the four loops over the map visit its names. *)
Record Orders : Type := {
  order_queue : Graph -> list str;
  order_link : Graph -> list str;
  order_peel : Graph -> list str;
  order_names : Graph -> list str;
}.
Definition lists_names (f : Graph -> list str) : Prop :=
  forall g, f g ≡ₚ (map_to_list g).*1.
Record orders_ok (o : Orders) : Prop := {
  oo_queue : lists_names (order_queue o);
  oo_link : lists_names (order_link o);
  oo_peel : lists_names (order_peel o);
  oo_names : lists_names (order_names o);
}.

Definition names_with (P : Node -> bool) (names : list str) (graph : Graph) : list str :=
  filter (fun n => default false (P <$> graph !! n) = true) names.

(** What the caller sees: the sorted slice, one of the two configuration
    errors (a loop with the names it reports), or a panic. *)
Inductive SortOutcome : Type :=
| Sorted (groups : list OutboundGroupProtocol)
| InvalidConfig (message : string)
| LoopDetected (looped_groups : list str)
| SortPanic.

Definition outcome_of {A} (r : res A) (k : A -> option SortOutcome) : option SortOutcome :=
  match r with
  | Ok a => k a
  | Err e => Some (InvalidConfig e)
  | Panic => Some SortPanic
  end.

(** [None] is a loop out of fuel; the two loops remove a node per round. *)
(* @src clash-lib/src/app/outbound/utils.rs ~^pub fn proxy_groups_dag_sort~ proxy_groups_dag_sort *)
Definition proxy_groups_dag_sort (o : Orders) (groups : list OutboundGroupProtocol) : option SortOutcome :=
  outcome_of (res_fold add_group ∅ groups) (fun graph =>
  let queue := names_with (fun n => in_degree n =? 0) (order_queue o graph) graph in
  r ← sort_loop (size graph) graph queue 0 groups;
  outcome_of r (fun '(graph, groups) =>
  if bool_decide (graph = ∅) then Some (Sorted groups)
  else
    outcome_of (res_fold link_group graph (order_link o graph)) (fun graph =>
    let queue := names_with (fun n => outdegree n =? 0) (order_peel o graph) graph in
    r ← peel_loop (size graph) graph queue;
    outcome_of r (fun graph => Some (LoopDetected (order_names o graph)))))).

(** * Counting references *)
Definition listed (g : OutboundGroupProtocol) : list str := default [] (group_proxies g).
Definition occ (n : str) (l : list str) : nat := length (filter (fun x => x = n) l).
Definition refs (gs : list OutboundGroupProtocol) (n : str) : nat :=
  sum_list_with (fun g => occ n (listed g)) gs.
Fixpoint find_group (gs : list OutboundGroupProtocol) (n : str) : option OutboundGroupProtocol :=
  match gs with
  | [] => None
  | g :: gs' => if decide (group_name g = n) then Some g else find_group gs' n
  end.

Lemma occ_cons n x l : occ n (x :: l) = ((if decide (x = n) then 1 else 0) + occ n l)%nat.
Proof. unfold occ. rewrite filter_cons. by destruct (decide (x = n)). Qed.
Lemma occ_app n l k : occ n (l ++ k) = (occ n l + occ n k)%nat.
Proof. unfold occ. by rewrite filter_app, length_app. Qed.
Lemma occ_pos n l : (0 < occ n l)%nat <-> n ∈ l.
Proof.
  induction l as [|x l IH]; [unfold occ; simpl; rewrite elem_of_nil; lia|].
  rewrite occ_cons, elem_of_cons. destruct (decide (x = n)) as [->|Hne].
  - split; [by left|lia].
  - rewrite Nat.add_0_l, IH. split; [by right|]. intros [?|?]; [congruence|done].
Qed.
Lemma refs_app gs hs n : refs (gs ++ hs) n = (refs gs n + refs hs n)%nat.
Proof. apply sum_list_with_app. Qed.
Lemma refs_pos gs n : (0 < refs gs n)%nat <-> exists g, g ∈ gs /\ n ∈ listed g.
Proof.
  unfold refs. induction gs as [|g gs IH]; cbn [sum_list_with].
  - split; [lia|]. intros (g & Hg & _). by apply elem_of_nil in Hg.
  - pose proof (occ_pos n (listed g)) as Ho. split.
    + intros H. destruct (decide (0 < occ n (listed g))%nat) as [Hp|Hp].
      * exists g. split; [left|by apply Ho].
      * destruct (proj1 IH ltac:(lia)) as (h & Hh & Hn). exists h. split; [by right|done].
    + intros (h & [->|Hh]%elem_of_cons & Hn); [apply Ho in Hn; lia|].
      pose proof (proj2 IH (ex_intro _ h (conj Hh Hn))). lia.
Qed.
Lemma find_group_some gs n g : find_group gs n = Some g -> g ∈ gs /\ group_name g = n.
Proof.
  induction gs as [|h gs IH]; [done|]. cbn [find_group]. case_decide as E.
  - intros [= ->]. split; [left|done].
  - intros H. apply IH in H as [? ?]. split; [by right|done].
Qed.
Lemma find_group_none gs n : find_group gs n = None <-> n ∉ group_name <$> gs.
Proof.
  induction gs as [|h gs IH]; cbn [find_group fmap list_fmap]; [set_solver|].
  rewrite not_elem_of_cons. case_decide as E; [split; [done|intros [? _]; congruence]|].
  rewrite IH. split; [|by intros [_ ?]]. intros ?. split; [congruence|done].
Qed.
Lemma find_group_app gs hs n :
  find_group (gs ++ hs) n = match find_group gs n with Some g => Some g | None => find_group hs n end.
Proof. induction gs as [|g gs IH]; [done|]. cbn [app find_group]. by case_decide. Qed.
Lemma find_group_in gs g :
  NoDup (group_name <$> gs) -> g ∈ gs -> find_group gs (group_name g) = Some g.
Proof.
  induction gs as [|h gs IH]; [by intros _ ?%elem_of_nil|]. cbn [fmap list_fmap find_group].
  intros [Hn Hnd]%NoDup_cons [->|Hg]%elem_of_cons; [by rewrite decide_True|].
  rewrite decide_False; [by apply IH|]. intros E. apply Hn. rewrite E. by apply list_elem_of_fmap_2.
Qed.

(** * The graph while it is built and sorted

    [c] counts the references of each name, [p] gives its group.  A name that
    is not in the graph has neither. *)
Definition upd {A} (f : str -> A) (x : str) (a : A) : str -> A := fun n => if decide (n = x) then a else f n.

Definition gstate (graph : Graph) (c : str -> nat) (p : str -> option OutboundGroupProtocol) : Prop :=
  forall n, graph !! n = Some {| in_degree := Z.of_nat (c n); proto := p n; outdegree := 0; from := [] |} \/
            (graph !! n = None /\ c n = 0%nat /\ p n = None).

Lemma gstate_ext graph c c' p p' :
  (forall n, c n = c' n) -> (forall n, p n = p' n) -> gstate graph c p -> gstate graph c' p'.
Proof. intros Hc Hp H n. rewrite <- Hc, <- Hp. apply H. Qed.

Lemma gstate_some graph c p n node :
  gstate graph c p -> graph !! n = Some node ->
  node = {| in_degree := Z.of_nat (c n); proto := p n; outdegree := 0; from := [] |}.
Proof. intros H Hn. destruct (H n) as [E|[E _]]; congruence. Qed.
Lemma gstate_live graph c p n :
  gstate graph c p -> (0 < c n)%nat \/ p n <> None ->
  graph !! n = Some {| in_degree := Z.of_nat (c n); proto := p n; outdegree := 0; from := [] |}.
Proof. intros H Hn. destruct (H n) as [E|(_ & E1 & E2)]; [done|]. destruct Hn; [lia|done]. Qed.

(** Writing a node. *)
Lemma gstate_insert graph c p x k q node :
  gstate graph c p ->
  node = {| in_degree := Z.of_nat k; proto := q; outdegree := 0; from := [] |} ->
  gstate (<[x := node]> graph) (upd c x k) (upd p x q).
Proof.
  intros H -> n. unfold upd. destruct (decide (n = x)) as [->|Hne].
  - left. by rewrite lookup_insert_eq.
  - rewrite lookup_insert_ne by done. apply H.
Qed.
Lemma gstate_delete graph c p x :
  gstate graph c p -> c x = 0%nat -> p x = None -> gstate (delete x graph) c p.
Proof.
  intros H Hc Hp n. destruct (decide (n = x)) as [->|Hne].
  - right. by rewrite lookup_delete_eq.
  - rewrite lookup_delete_ne by done. apply H.
Qed.
Lemma upd_id {A} (f : str -> A) x n : upd f x (f x) n = f n.
Proof. unfold upd. by destruct (decide (n = x)) as [->|]. Qed.

Lemma count_ref_ok graph c p x :
  gstate graph c p -> gstate (count_ref graph x) (upd c x (S (c x))) p.
Proof.
  intros H. unfold count_ref.
  apply (gstate_ext _ (upd c x (S (c x))) _ (upd p x (p x))); [done|apply upd_id|].
  destruct (H x) as [->|(-> & E1 & E2)]; apply gstate_insert; try done.
  - unfold with_in_degree. cbn [in_degree proto outdegree from]. f_equal. lia.
  - by rewrite E1, E2.
Qed.
Lemma count_refs_ok l graph c p :
  gstate graph c p -> gstate (foldl count_ref graph l) (fun n => c n + occ n l)%nat p.
Proof.
  revert graph c. induction l as [|x l IH]; intros graph c H; cbn [foldl].
  - eapply gstate_ext; [| |exact H]; [|done]. intros n. unfold occ. simpl. lia.
  - eapply gstate_ext; [| |apply IH, count_ref_ok, H]; [|done]. intros n. cbv beta.
    rewrite occ_cons. unfold upd. destruct (decide (n = x)) as [->|Hne].
    + rewrite decide_True by done. lia.
    + rewrite decide_False by congruence. lia.
Qed.

Lemma add_group_ok gs graph g :
  gstate graph (refs gs) (find_group gs) ->
  match find_group gs (group_name g) with
  | Some _ => add_group graph g = Err "duplicate proxy group name"
  | None => exists graph', add_group graph g = Ok graph' /\
              gstate graph' (refs (gs ++ [g])) (find_group (gs ++ [g]))
  end.
Proof.
  intros H. unfold add_group. set (x := group_name g).
  destruct (find_group gs x) as [h|] eqn:Ef.
  - rewrite (gstate_live _ _ _ x H) by (right; by rewrite Ef). cbn [proto]. by rewrite Ef, bool_decide_true.
  - assert (exists graph', (match graph !! x with
          | Some node => if bool_decide (is_Some (proto node)) then Err "duplicate proxy group name"
                         else Ok (<[x := with_proto (Some g) node]> graph)
          | None => Ok (<[x := {| in_degree := 0; proto := Some g; outdegree := 0; from := [] |}]> graph)
          end) = Ok graph' /\ gstate graph' (refs gs) (upd (find_group gs) x (Some g))) as (g1 & -> & H1).
    { destruct (H x) as [E|(E & E1 & E2)]; rewrite E; cbn [proto]; rewrite ?Ef, ?bool_decide_false by (by intros [? ?]);
        (eexists; split; [done|]);
        apply (gstate_ext _ (upd (refs gs) x (refs gs x)) _ (upd (find_group gs) x (Some g)));
        try apply upd_id; try done; apply gstate_insert; try done.
      by rewrite E1. }
    rstep. eexists. split; [done|].
    assert (forall l, listed g = l -> gstate (foldl count_ref g1 l) (refs (gs ++ [g])) (find_group (gs ++ [g]))) as Hk.
    { intros l El. eapply gstate_ext; [| |apply count_refs_ok, H1]; intros n; cbv beta.
      - rewrite refs_app. unfold refs at 3. cbn [sum_list_with]. rewrite El. lia.
      - rewrite find_group_app. unfold upd. cbn [find_group]. fold x.
        destruct (decide (n = x)) as [->|Hne]; [by rewrite Ef, decide_True|].
        destruct (find_group gs n); [done|]. by rewrite decide_False by done. }
    unfold listed in Hk. destruct (group_proxies g) as [l|]; cbn [default from_option id] in Hk;
      [by apply Hk|by apply (Hk [])].
Qed.

Lemma build_ok gs :
  (NoDup (group_name <$> gs) -> exists graph, res_fold add_group ∅ gs = Ok graph /\
     gstate graph (refs gs) (find_group gs)) /\
  (~ NoDup (group_name <$> gs) -> res_fold add_group ∅ gs = Err "duplicate proxy group name").
Proof.
  assert (gstate ∅ (refs []) (find_group [])) as H0 by (intros n; right; by rewrite lookup_empty).
  assert (forall gs done graph, gstate graph (refs done) (find_group done) ->
    NoDup (group_name <$> done) ->
    (NoDup (group_name <$> done ++ gs) -> exists graph', res_fold add_group graph gs = Ok graph' /\
       gstate graph' (refs (done ++ gs)) (find_group (done ++ gs))) /\
    (~ NoDup (group_name <$> done ++ gs) -> res_fold add_group graph gs = Err "duplicate proxy group name")) as H.
  { clear. intros gs. induction gs as [|g gs IH]; intros done graph Hg Hnd; cbn [res_fold].
    - rewrite app_nil_r. split; [by intros _; exists graph|done].
    - pose proof (add_group_ok done graph g Hg) as Ha.
      destruct (find_group done (group_name g)) as [h|] eqn:Ef.
      + rewrite Ha. rstep. split; [|done]. intros H. exfalso.
        assert (group_name g ∉ group_name <$> done) as Hn.
        { rewrite fmap_app in H. cbn [fmap list_fmap] in H. apply NoDup_app in H as (_ & H & _).
          intros Hin. apply (H _ Hin). left. }
        apply find_group_none in Hn. congruence.
      + destruct Ha as (g1 & -> & H1). rstep. rewrite (app_assoc done [g] gs : done ++ g :: gs = _).
        apply (IH (done ++ [g]) g1 H1). rewrite fmap_app. apply NoDup_app. split_and!; [done| |].
        * apply find_group_none in Ef. intros x Hx Hy. cbn [fmap list_fmap] in Hy.
          apply list_elem_of_singleton in Hy as ->. done.
        * apply NoDup_singleton. }
  apply (H gs [] ∅ H0). constructor.
Qed.

(** * The queue

    It holds, once each, the names of the graph that nothing lists any more,
    except the one being worked on. *)
Definition qstate (busy : option str) (graph : Graph) (queue : list str) (c : str -> nat) : Prop :=
  NoDup queue /\ forall n, n ∈ queue <-> Some n <> busy /\ is_Some (graph !! n) /\ c n = 0%nat.

Lemma qstate_push (busy : option str) (graph : Graph) (queue : list str) (c : str -> nat) x k node :
  qstate busy graph queue c -> is_Some (graph !! x) -> (0 < c x)%nat -> Some x <> busy ->
  qstate busy (<[x := node]> graph) (if decide (k = 0%nat) then queue ++ [x] else queue) (upd c x k).
Proof.
  intros [Hnd Hq] Hx Hc Hb. assert (x ∉ queue) as Hnx by (intros H; apply Hq in H as (_ & _ & ?); lia).
  split.
  - case_decide; [|done]. apply NoDup_app. split_and!; [done| |apply NoDup_singleton].
    intros y Hy ->%list_elem_of_singleton. done.
  - intros n. unfold upd. destruct (decide (n = x)) as [->|Hne].
    + rewrite lookup_insert_eq. case_decide as Ek.
      * rewrite elem_of_app, list_elem_of_singleton. split; [|by right]. intros _. done.
      * split; [done|]. intros (_ & _ & ?). done.
    + rewrite lookup_insert_ne by done.
      assert (n ∈ (if decide (k = 0%nat) then queue ++ [x] else queue) <-> n ∈ queue) as ->; [|apply Hq].
      case_decide; [|done]. rewrite elem_of_app, list_elem_of_singleton. tauto.
Qed.

Lemma release_ref_ok busy graph queue c p x :
  gstate graph c p -> qstate busy graph queue c -> (0 < c x)%nat -> Some x <> busy ->
  exists graph' queue', release_ref (graph, queue) x = Ok (graph', queue') /\
    gstate graph' (upd c x (c x - 1)%nat) p /\ qstate busy graph' queue' (upd c x (c x - 1)%nat).
Proof.
  intros Hg Hq Hc Hb. unfold release_ref. pose proof (gstate_live _ _ _ x Hg (or_introl Hc)) as E.
  rewrite E. cbn [or_panic]. rstep. cbn [in_degree]. eexists _, _. split; [done|].
  unfold with_in_degree. cbn [proto outdegree from]. split.
  - apply (gstate_ext _ (upd c x (c x - 1)%nat) _ (upd p x (p x))); [done|apply upd_id|].
    apply gstate_insert; [done|]. f_equal. lia.
  - pose proof (qstate_push busy graph queue c x (c x - 1)%nat
      {| in_degree := Z.of_nat (c x) - 1; proto := p x; outdegree := 0; from := [] |} Hq) as H.
    rewrite E in H. specialize (H ltac:(done) Hc Hb).
    destruct (Z.eqb_spec (Z.of_nat (c x) - 1) 0), (decide (c x - 1 = 0)%nat); (done || lia).
Qed.

Lemma release_refs_ok busy l graph queue c p :
  gstate graph c p -> qstate busy graph queue c -> (forall n, occ n l <= c n)%nat ->
  (forall n, n ∈ l -> Some n <> busy) ->
  exists graph' queue', res_fold release_ref (graph, queue) l = Ok (graph', queue') /\
    gstate graph' (fun n => c n - occ n l)%nat p /\ qstate busy graph' queue' (fun n => c n - occ n l)%nat /\
    dom graph' = dom graph.
Proof.
  revert graph queue c. induction l as [|x l IH]; intros graph queue c Hg Hq Hle Hb; cbn [res_fold].
  - exists graph, queue. split; [done|].
    assert (forall n, c n = (c n - occ n [])%nat) as E by (intros n; unfold occ; simpl; lia).
    split_and!; [by eapply gstate_ext|destruct Hq as [? Hq]; split; [done|]; intros n; by rewrite <- E|done].
  - pose proof (Hle x) as Hx. rewrite occ_cons, decide_True in Hx by done.
    destruct (release_ref_ok busy graph queue c p x Hg Hq) as (g1 & q1 & E & Hg1 & Hq1);
      [lia|apply Hb; left|].
    assert (forall n, (upd c x (c x - 1)%nat n - occ n l = c n - occ n (x :: l))%nat) as En.
    { intros n. rewrite occ_cons. unfold upd. destruct (decide (n = x)) as [->|Hne].
      - rewrite decide_True by done. lia.
      - rewrite decide_False by congruence. lia. }
    destruct (IH g1 q1 (upd c x (c x - 1)%nat) Hg1 Hq1) as (g2 & q2 & E2 & Hg2 & Hq2 & Hd).
    { intros n. specialize (Hle n). rewrite occ_cons in Hle. unfold upd.
      destruct (decide (n = x)) as [->|Hne]; [rewrite decide_True in Hle by done; lia|].
      rewrite decide_False in Hle by congruence. lia. }
    { intros n Hn. apply Hb. by right. }
    exists g2, q2. rewrite E. cbn [res_bind]. rewrite E2. split; [done|]. split_and!.
    + eapply gstate_ext; [exact En|done|exact Hg2].
    + destruct Hq2 as [? Hq2]. split; [done|]. intros n. by rewrite <- En.
    + rewrite Hd. unfold release_ref in E. rewrite (gstate_live _ _ _ x Hg) in E by (left; lia).
      cbn [or_panic] in E. revert E. rstep. intros [= <- _]. apply dom_insert_lookup_L.
      rewrite (gstate_live _ _ _ x Hg) by (left; lia). done.
Qed.

(** * The first loop *)
Lemma find_group_split gs n g :
  find_group gs n = Some g -> NoDup (group_name <$> gs) ->
  exists l k, gs = l ++ g :: k /\ NoDup (group_name <$> l ++ k) /\
    (forall m, find_group (l ++ k) m = upd (find_group gs) n None m) /\
    (forall m, refs gs m = occ m (listed g) + refs (l ++ k) m)%nat.
Proof.
  intros Hf Hnd. apply find_group_some in Hf as Hg. destruct Hg as [Hin En].
  apply list_elem_of_split in Hin as (l & k & ->). exists l, k. split; [done|].
  rewrite fmap_app in Hnd. cbn [fmap list_fmap] in Hnd. apply NoDup_app in Hnd as (H1 & H2 & H3).
  apply NoDup_cons in H3 as [H3 H4]. rewrite En in *. split_and!.
  - rewrite fmap_app. apply NoDup_app. split_and!; [done| |done]. intros x Hx Hy. apply (H2 x Hx). by right.
  - intros m. unfold upd. destruct (decide (m = n)) as [->|Hne].
    + apply find_group_none. rewrite fmap_app, elem_of_app. intros [?|?]; [|done].
      apply (H2 n); [done|left].
    + rewrite !find_group_app. destruct (find_group l m); [done|]. cbn [find_group].
      by rewrite decide_False by congruence.
  - intros m. rewrite !refs_app. unfold refs. cbn [sum_list_with]. lia.
Qed.

(** [gs] are the groups of the configuration, [done] those placed so far, in
    the order in which they were placed. *)
Record sort_inv (gs : list OutboundGroupProtocol) (graph : Graph) (queue : list str) (index : nat)
    (groups rest done : list OutboundGroupProtocol) : Prop := {
  si_graph : gstate graph (refs rest) (find_group rest);
  si_queue : qstate None graph queue (refs rest);
  si_names : NoDup (group_name <$> rest);
  si_perm : done ++ rest ≡ₚ gs;
  si_index : index = length done;
  si_len : length groups = length gs;
  si_placed : drop (length groups - index) groups = reverse done;
  si_order i g h : done !! i = Some g -> h ∈ gs -> group_name g ∈ listed h ->
    exists j, (j < i)%nat /\ done !! j = Some h;
}.

Lemma qstate_pop graph name queue c node :
  qstate None graph (name :: queue) c -> 
  qstate (Some name) (<[name := node]> graph) queue c.
Proof.
  intros [Hnd Hq]. apply NoDup_cons in Hnd as [Hn Hnd]. split; [done|]. intros n.
  specialize (Hq n). rewrite elem_of_cons in Hq. destruct (decide (n = name)) as [->|Hne].
  - split; [done|]. intros (? & _ & _). done.
  - rewrite lookup_insert_ne by done. split.
    + intros H. split; [congruence|]. apply Hq. by right.
    + intros (_ & H1 & H2). destruct (proj2 Hq) as [?|?]; done.
Qed.
Lemma qstate_delete graph name queue c :
  qstate (Some name) graph queue c -> qstate None (delete name graph) queue c.
Proof.
  intros [Hnd Hq]. split; [done|]. intros n. rewrite (Hq n). destruct (decide (n = name)) as [->|Hne].
  - rewrite lookup_delete_eq. split; [by intros (? & _)|]. by intros (_ & [? ?] & _).
  - rewrite lookup_delete_ne by done. split; (intros (_ & H1 & H2); split; [congruence|done]).
Qed.

Lemma drop_place {A} (l : list A) (n : nat) (x : A) (r : list A) :
  (S n <= length l)%nat -> drop (length l - n) l = r ->
  drop (length l - S n) (<[(length l - S n)%nat := x]> l) = x :: r.
Proof.
  intros Hn Hd. set (k := (length l - S n)%nat). assert (k < length l)%nat as Hk by (unfold k; lia).
  rewrite (drop_S _ x k); [|by apply list_lookup_insert_eq]. f_equal.
  rewrite drop_insert_lt by lia. rewrite <- Hd. f_equal. unfold k. lia.
Qed.

(** A name of the queue that is no group is dropped. *)
Lemma sort_drop gs graph name queue index groups rest done :
  sort_inv gs graph (name :: queue) index groups rest done -> find_group rest name = None ->
  sort_inv gs (delete name graph) queue index groups rest done.
Proof.
  intros [Hg Hq Hn Hp Hi Hl Hpl Ho] Hf.
  destruct (proj1 (proj2 Hq name) ltac:(left)) as (_ & [node Hnode] & Hc).
  split; try done.
  - by apply gstate_delete.
  - apply (qstate_pop _ _ _ _ node) in Hq. rewrite insert_id in Hq by done. by apply qstate_delete.
Qed.

(** A group of the queue is placed and its references are released. *)
Lemma sort_place gs graph name queue index groups rest done g :
  sort_inv gs graph (name :: queue) index groups rest done -> find_group rest name = Some g ->
  exists graph' queue' rest',
    res_fold release_ref (<[name := {| in_degree := 0; proto := None; outdegree := 0; from := [] |}]> graph, queue)
      (listed g) = Ok (graph', queue') /\
    (S index <= length groups)%nat /\ dom graph' = dom graph /\
    sort_inv gs (delete name graph') queue' (S index) (<[(length groups - S index)%nat := g]> groups)
      rest' (done ++ [g]).
Proof.
  intros [Hg Hq Hn Hp Hi Hl Hpl Ho] Hf.
  destruct (proj1 (proj2 Hq name) ltac:(left)) as (_ & [node Hnode] & Hc).
  destruct (find_group_split rest name g Hf Hn) as (l & k & -> & Hn' & Hf' & Hr').
  apply find_group_some in Hf as Hgn. destruct Hgn as [Hin En].
  set (node' := {| in_degree := 0; proto := None; outdegree := 0; from := [] |}).
  assert (gstate (<[name := node']> graph) (refs (l ++ g :: k)) (find_group (l ++ k))) as Hg1.
  { apply (gstate_ext _ (upd (refs (l ++ g :: k)) name 0%nat) _ (upd (find_group (l ++ g :: k)) name None)).
    - intros n. rewrite <- Hc. apply upd_id.
    - intros n. by rewrite Hf'.
    - by apply gstate_insert. }
  pose proof (qstate_pop _ _ _ _ node' Hq) as Hq1.
  destruct (release_refs_ok (Some name) (listed g) _ queue _ _ Hg1 Hq1) as (g2 & q2 & E & Hg2 & Hq2 & Hd).
  { intros n. rewrite Hr'. lia. }
  { intros n Hnl [= ->]. assert (0 < refs (l ++ g :: k) name)%nat; [|lia].
    apply refs_pos. by exists g. }
  exists g2, q2, (l ++ k). split; [done|].
  assert (length gs = length done + S (length (l ++ k)))%nat as Hlen.
  { rewrite <- Hp. rewrite !length_app. cbn [length]. lia. }
  split; [lia|]. split.
  { rewrite Hd. apply dom_insert_lookup_L. by rewrite Hnode. }
  assert (forall n, (refs (l ++ g :: k) n - occ n (listed g) = refs (l ++ k) n)%nat) as Er
    by (intros n; rewrite Hr'; lia).
  split.
  - apply gstate_delete.
    + eapply gstate_ext; [exact Er|done|exact Hg2].
    + rewrite <- Er. lia.
    + rewrite Hf'. unfold upd. by rewrite decide_True.
  - apply qstate_delete. destruct Hq2 as [? Hq2]. split; [done|]. intros n. by rewrite <- Er.
  - done.
  - rewrite <- Hp, <- app_assoc. apply Permutation_app_head. cbn [app]. apply Permutation_middle.
  - rewrite length_app. cbn [length]. lia.
  - by rewrite length_insert.
  - rewrite length_insert, reverse_snoc. apply drop_place; [lia|done].
  - intros i x h Hx Hh Hlst. apply lookup_app_Some in Hx as [Hx|[Hge Hx]].
    + destruct (Ho i x h Hx Hh Hlst) as (j & Hj & Hd'). exists j. split; [done|]. by apply lookup_app_l_Some.
    + apply list_lookup_singleton_Some in Hx as [Hx <-]. rewrite <- Hp in Hh.
      apply elem_of_app in Hh as [Hh|Hh].
      * apply list_elem_of_lookup in Hh as [j Hj]. exists j. pose proof (lookup_lt_Some _ _ _ Hj).
        split; [lia|]. by apply lookup_app_l_Some.
      * exfalso. assert (0 < refs (l ++ g :: k) name)%nat; [|lia]. apply refs_pos. exists h.
        rewrite <- En. done.
Qed.

Lemma sort_loop_ok fuel gs graph queue index groups rest done :
  sort_inv gs graph queue index groups rest done -> (size graph <= fuel)%nat ->
  exists graph' index' groups' rest' done',
    sort_loop fuel graph queue index groups = Some (Ok (graph', groups')) /\
    sort_inv gs graph' [] index' groups' rest' done'.
Proof.
  revert graph queue index groups rest done.
  induction fuel as [|fuel IH]; intros graph queue index groups rest done Hinv Hsize.
  - destruct queue as [|name queue]; [by exists graph, index, groups, rest, done|].
    destruct Hinv as [_ [_ Hq] _ _ _ _ _ _]. destruct (proj1 (Hq name) ltac:(left)) as (_ & [node Hn] & _).
    assert (graph = ∅) as -> by (apply map_size_empty_inv; lia). by rewrite lookup_empty in Hn.
  - destruct queue as [|name queue]; [by exists graph, index, groups, rest, done|].
    pose proof Hinv as [Hg [_ Hq] _ _ _ _ _ _].
    destruct (proj1 (Hq name) ltac:(left)) as (_ & [node Hn] & Hc).
    pose proof (gstate_some _ _ _ _ _ Hg Hn) as Enode.
    assert (forall graph1 : Graph, dom graph1 = dom graph -> (size (delete name graph1) <= fuel)%nat) as Hs.
    { intros graph1 Hd. assert (is_Some (graph1 !! name)) as [node1 H1].
      { apply elem_of_dom. rewrite Hd. apply elem_of_dom. by exists node. }
      rewrite (map_size_delete_Some name graph1) by by exists node1.
      rewrite <- size_dom, Hd, size_dom. lia. }
    cbn [sort_loop]. rewrite Hn, Enode. cbn [proto]. unfold with_proto. cbn [in_degree outdegree from]. rewrite Hc.
    destruct (find_group rest name) as [g|] eqn:Ef.
    2: { apply (IH _ _ _ _ rest done); [by apply sort_drop|by apply Hs]. }
    destruct (sort_place _ _ _ _ _ _ _ _ _ Hinv Ef) as (graph1 & queue1 & rest1 & E & Hle & Hd & Hinv1).
    rewrite bool_decide_false by lia. unfold listed in E. change (Z.of_nat 0) with 0.
    destruct (group_proxies g) as [l|]; cbn [default from_option id] in E.
    + rewrite E. apply (IH _ _ _ _ _ _ Hinv1). by apply Hs.
    + cbn [res_fold] in E. injection E as -> ->. apply (IH _ _ _ _ _ _ Hinv1). by apply Hs.
Qed.

(** * Cycles *)
Definition refers (gs : list OutboundGroupProtocol) (n m : str) : Prop :=
  exists g, g ∈ gs /\ group_name g = n /\ m ∈ listed g.
Definition acyclic (gs : list OutboundGroupProtocol) : Prop := forall n, ~ tc (refers gs) n n.

(** Every group comes after the groups it lists. *)
Definition dependencies_first (sorted : list OutboundGroupProtocol) : Prop :=
  forall i j g h, sorted !! i = Some g -> sorted !! j = Some h -> group_name h ∈ listed g -> (j < i)%nat.

Lemma tc_flip {A} (R : relation A) x y : tc (flip R) x y -> tc R y x.
Proof. induction 1 as [x y H|x y z H _ IH]; [by apply tc_once|]. eapply tc_r; [exact IH|exact H]. Qed.

(** A non-empty set of names closed under predecessors holds a cycle. *)
Lemma no_source_cycle (gs : list OutboundGroupProtocol) (S : gset str) :
  S <> ∅ -> (forall n, n ∈ S -> exists m, m ∈ S /\ refers gs m n) -> ~ acyclic gs.
Proof.
  intros Hne Hpred Hac. destruct (set_choose_L S Hne) as [x Hx].
  assert (sn (flip (refers gs)) x) as Hsn.
  { apply tc_finite_sn.
    - intros n Hn. apply (Hac n). by apply tc_flip.
    - exists (group_name <$> gs). intros y Hy. apply tc_flip in Hy.
      assert (exists z, refers gs y z) as (z & g & Hg & <- & _) by (by inv Hy; eexists).
      by apply list_elem_of_fmap_2. }
  induction Hsn as [x _ IH]. destruct (Hpred x Hx) as (m & Hm & Href). by apply (IH m).
Qed.

Lemma finished gs graph index groups rest done :
  NoDup (group_name <$> gs) -> sort_inv gs graph [] index groups rest done -> graph = ∅ ->
  groups ≡ₚ gs /\ dependencies_first groups /\ acyclic gs.
Proof.
  intros Hnd [Hg _ _ Hp Hi Hl Hpl Ho] ->.
  assert (rest = []) as ->.
  { destruct rest as [|g rest]; [done|]. exfalso.
    assert (find_group (g :: rest) (group_name g) <> None) as Hf by (cbn [find_group]; by rewrite decide_True).
    pose proof (gstate_live _ _ _ _ Hg (or_intror Hf)) as H. by rewrite lookup_empty in H. }
  rewrite app_nil_r in Hp. pose proof (Permutation_length Hp) as Hpl'.
  replace (length groups - index)%nat with 0%nat in Hpl by lia. rewrite drop_0 in Hpl.
  split_and!.
  - rewrite Hpl, reverse_Permutation. done.
  - intros i j g h Hgi Hhj Hlst. rewrite Hpl in Hgi, Hhj.
    apply reverse_lookup_Some in Hgi as [Hgi Hi'], Hhj as [Hhj Hj'].
    destruct (Ho _ h g Hhj) as (k & Hk & Hdk); [rewrite <- Hp; by eapply list_elem_of_lookup_2|done|].
    assert (k = length done - S i)%nat as ->; [|lia].
    assert (NoDup done) as Hndd.
    { apply (NoDup_fmap_1 group_name). by rewrite Hp. }
    by eapply NoDup_lookup.
  - assert (forall n m, tc (refers gs) n m -> forall i h, done !! i = Some h -> group_name h = m ->
      exists j g, (j < i)%nat /\ done !! j = Some g /\ group_name g = n) as Htc.
    { intros n m H. induction H as [n m (g & Hgs & <- & Hm)|n y m (g & Hgs & <- & Hy) _ IH]; intros i h Hh <-.
      - destruct (Ho i h g Hh Hgs Hm) as (j & Hj & Hd). by exists j, g.
      - destruct (IH i h Hh eq_refl) as (j & g' & Hj & Hd & <-).
        destruct (Ho j g' g Hd Hgs Hy) as (k & Hk & Hd'). exists k, g. split_and!; [lia|done|done]. }
    intros n Hn. assert (exists g, g ∈ gs /\ group_name g = n) as (g & Hgs & En).
    { inv Hn as [? ? (g & ? & ? & _)|? ? ? (g & ? & ? & _)]; by exists g. }
    rewrite <- Hp in Hgs. apply list_elem_of_lookup in Hgs as [i Hgi].
    revert g Hgi En. induction i as [i IHi] using lt_wf_ind. intros g Hgi En.
    destruct (Htc n n Hn i g Hgi En) as (j & h & Hj & Hd & Eh). by apply (IHi j Hj h).
Qed.

Lemma stuck gs graph index groups rest done :
  sort_inv gs graph [] index groups rest done ->
  (forall n, is_Some (graph !! n) -> (0 < refs rest n)%nat) /\ (graph <> ∅ -> ~ acyclic gs).
Proof.
  intros [Hg [_ Hq] Hn Hp _ _ _ _].
  assert (forall n, is_Some (graph !! n) -> (0 < refs rest n)%nat) as Hpos.
  { intros n Hs. destruct (decide (refs rest n = 0%nat)) as [E|]; [|lia].
    assert (n ∈ []) as H by (by apply Hq). by apply elem_of_nil in H. }
  split; [done|]. intros Hne. apply (no_source_cycle gs (dom graph)).
  { intros E. apply Hne. by apply dom_empty_inv_L. }
  intros n Hd. apply elem_of_dom, Hpos, refs_pos in Hd as (g & Hgr & Hl).
  exists (group_name g). split.
  - apply elem_of_dom. eexists. apply (gstate_live _ _ _ _ Hg). right. by rewrite find_group_in.
  - exists g. split_and!; [|done|done]. rewrite <- Hp. apply elem_of_app. by right.
Qed.

(** * The groups left over *)
Section leftover.
Context (rest : list OutboundGroupProtocol).

(** What a name lists. *)
Definition out_names (n : str) : list str :=
  match find_group rest n with Some g => listed g | None => [] end.

Definition lstate (graph : Graph) (o : str -> nat) (fr : str -> list str) : Prop :=
  forall n node, graph !! n = Some node ->
    outdegree node = Z.of_nat (o n) /\ from node = fr n /\ proto node = find_group rest n.

Lemma lstate_insert graph o fr x node k l :
  lstate graph o fr -> outdegree node = Z.of_nat k -> from node = l -> proto node = find_group rest x ->
  lstate (<[x := node]> graph) (upd o x k) (upd fr x l).
Proof.
  intros H H1 H2 H3 n y Hy. unfold upd. destruct (decide (n = x)) as [->|Hne].
  - rewrite lookup_insert_eq in Hy. by injection Hy as <-.
  - rewrite lookup_insert_ne in Hy by done. by apply H.
Qed.
Lemma lstate_ext graph o o' fr fr' :
  (forall n, o n = o' n) -> (forall n, fr n = fr' n) -> lstate graph o fr -> lstate graph o' fr'.
Proof. intros Ho Hf H n node Hn. rewrite <- Ho, <- Hf. by apply H. Qed.

Lemma link_ref_ok graph o fr name x :
  lstate graph o fr -> name ∈ dom graph -> x ∈ dom graph ->
  exists graph', link_ref name graph x = Ok graph' /\ dom graph' = dom graph /\
    lstate graph' (upd o name (S (o name))) (upd fr x (fr x ++ [name])).
Proof.
  intros H [node Hn]%elem_of_dom [target Ht]%elem_of_dom. unfold link_ref. rewrite Hn. cbn [or_panic]. rstep.
  destruct (H _ _ Hn) as (H1 & H2 & H3). set (node' := with_outdegree (outdegree node + 1) node).
  assert (lstate (<[name := node']> graph) (upd o name (S (o name))) fr) as Hl.
  { apply (lstate_ext _ (upd o name (S (o name))) _ (upd fr name (fr name))); [done|apply upd_id|].
    apply lstate_insert; try done. simpl. lia. }
  assert (is_Some (<[name := node']> graph !! x)) as [t' Ht'].
  { apply elem_of_dom. rewrite dom_insert_lookup_L by (by rewrite Hn). by apply elem_of_dom. }
  rewrite Ht'. cbn [or_panic]. rstep. eexists. split; [done|]. split.
  - rewrite !dom_insert_lookup_L; [done|by rewrite Hn|by rewrite Ht'].
  - destruct (Hl _ _ Ht') as (K1 & K2 & K3).
    apply (lstate_ext _ (upd (upd o name (S (o name))) x (upd o name (S (o name)) x)) _ (upd fr x (fr x ++ [name])));
      [apply upd_id|done|].
    apply lstate_insert; try done. simpl. by rewrite K2.
Qed.

Lemma link_refs_ok name l graph o fr :
  lstate graph o fr -> name ∈ dom graph -> (forall x, x ∈ l -> x ∈ dom graph) ->
  exists graph', res_fold (link_ref name) graph l = Ok graph' /\ dom graph' = dom graph /\
    lstate graph' (upd o name (o name + length l)%nat) (fun m => fr m ++ replicate (occ m l) name).
Proof.
  revert graph o fr. induction l as [|x l IH]; intros graph o fr H Hn Hl; cbn [res_fold].
  - exists graph. split_and!; [done|done|]. eapply lstate_ext; [| |exact H]; intros n.
    + cbn [length]. rewrite Nat.add_0_r. by rewrite upd_id.
    + unfold occ. simpl. by rewrite app_nil_r.
  - destruct (link_ref_ok graph o fr name x H Hn (Hl x ltac:(left))) as (g1 & -> & Hd1 & H1). cbn [res_bind].
    destruct (IH g1 _ _ H1) as (g2 & -> & Hd2 & H2); [by rewrite Hd1|intros y Hy; rewrite Hd1; apply Hl; by right|].
    exists g2. split_and!; [done|by rewrite Hd2|]. eapply lstate_ext; [| |exact H2]; intros n; cbv beta.
    + unfold upd. destruct (decide (n = name)) as [->|]; [|done]. rewrite decide_True by done. cbn [length]. lia.
    + rewrite occ_cons. unfold upd. destruct (decide (n = x)) as [->|Hne].
      * rewrite decide_True by done. rewrite <- app_assoc. done.
      * by rewrite decide_False by congruence.
Qed.

Lemma link_group_ok graph o fr name :
  lstate graph o fr -> name ∈ dom graph -> (forall x, x ∈ out_names name -> x ∈ dom graph) ->
  exists graph', link_group graph name = Ok graph' /\ dom graph' = dom graph /\
    lstate graph' (upd o name (o name + length (out_names name))%nat)
      (fun m => fr m ++ replicate (occ m (out_names name)) name).
Proof.
  intros H Hn Hl. pose proof Hn as [node Hnode]%elem_of_dom. destruct (H _ _ Hnode) as (_ & _ & H3).
  pose proof (link_refs_ok name (out_names name) graph o fr H Hn Hl) as Hr.
  unfold link_group. rewrite Hnode. cbn [or_panic]. rstep. rewrite H3. unfold out_names, listed in Hr |- *.
  destruct (find_group rest name) as [g|]; [|exact Hr].
  destruct (group_proxies g) as [l|]; exact Hr.
Qed.

(** After linking every name, [from m] lists [p] as often as [p] lists [m]. *)
Lemma link_all_ok names graph o fr :
  NoDup names -> lstate graph o fr -> (forall n, n ∈ names -> n ∈ dom graph) ->
  (forall n x, n ∈ dom graph -> x ∈ out_names n -> x ∈ dom graph) ->
  exists graph' fr', res_fold link_group graph names = Ok graph' /\ dom graph' = dom graph /\
    lstate graph' (fun n => o n + (if decide (n ∈ names) then length (out_names n) else 0))%nat fr' /\
    forall p m, occ p (fr' m) = (occ p (fr m) + if decide (p ∈ names) then occ m (out_names p) else 0)%nat.
Proof.
  revert graph o fr. induction names as [|x names IH]; intros graph o fr Hnd H Hn Hcl; cbn [res_fold].
  - exists graph, fr. split_and!; [done|done| |].
    + eapply lstate_ext; [| |exact H]; [|done]. intros n. rewrite decide_False by apply not_elem_of_nil. lia.
    + intros p m. rewrite decide_False by apply not_elem_of_nil. lia.
  - apply NoDup_cons in Hnd as [Hx Hnd]. pose proof (Hn x ltac:(left)) as Hxd.
    destruct (link_group_ok graph o fr x H Hxd (fun y => Hcl x y Hxd)) as (g1 & -> & Hd1 & H1). cbn [res_bind].
    destruct (IH g1 _ _ Hnd H1) as (g2 & fr2 & -> & Hd2 & H2 & Hocc).
    { intros n Hin. rewrite Hd1. apply Hn. by right. }
    { intros n y. rewrite Hd1. apply Hcl. }
    exists g2, fr2. split_and!; [done|by rewrite Hd2| |].
    + eapply lstate_ext; [| |exact H2]; [|done]. intros n. cbv beta. unfold upd.
      destruct (decide (n = x)) as [->|Hne].
      * rewrite (decide_False (P := x ∈ names)), decide_True by (done || left). lia.
      * rewrite (decide_ext (n ∈ names) (n ∈ x :: names)) by (rewrite elem_of_cons; tauto). done.
    + intros p m. rewrite Hocc, occ_app.
      assert (occ p (replicate (occ m (out_names x)) x) = if decide (p = x) then occ m (out_names x) else 0%nat) as ->.
      { induction (occ m (out_names x)) as [|k IHk]; [by destruct (decide (p = x))|]. cbn [replicate].
        rewrite occ_cons, IHk. destruct (decide (p = x)) as [->|]; [by rewrite decide_True|].
        by rewrite decide_False by congruence. }
      destruct (decide (p = x)) as [->|Hne].
      * rewrite (decide_False (P := x ∈ names)), decide_True by (done || left). lia.
      * rewrite (decide_ext (p ∈ names) (p ∈ x :: names)) by (rewrite elem_of_cons; tauto). lia.
Qed.

(** ** Peeling *)
Definition alive_out (graph : Graph) (n : str) : nat :=
  length (filter (fun m => is_Some (graph !! m)) (out_names n)).

Lemma alive_out_dom (g1 g2 : Graph) n : dom g1 = dom g2 -> alive_out g1 n = alive_out g2 n.
Proof.
  intros H. unfold alive_out. f_equal. apply list_filter_iff. intros m. rewrite <- !elem_of_dom. by rewrite H.
Qed.
Lemma alive_out_delete (graph : Graph) m n :
  is_Some (graph !! m) -> alive_out graph n = (occ m (out_names n) + alive_out (delete m graph) n)%nat.
Proof.
  intros Hm. unfold alive_out, occ. induction (out_names n) as [|x l IH]; [done|].
  rewrite !filter_cons. destruct (decide (x = m)) as [->|Hne].
  - rewrite (decide_True (P := is_Some (graph !! m))) by done.
    rewrite decide_False by (rewrite lookup_delete_eq; by intros [? ?]). cbn [length]. lia.
  - rewrite (decide_ext (is_Some (delete m graph !! x)) (is_Some (graph !! x)))
      by (by rewrite lookup_delete_ne by done).
    case_decide; cbn [length]; lia.
Qed.
Lemma alive_out_all (graph : Graph) n :
  (forall m, m ∈ out_names n -> is_Some (graph !! m)) -> alive_out graph n = length (out_names n).
Proof.
  unfold alive_out. induction (out_names n) as [|x l IH]; intros H; [done|].
  rewrite filter_cons, decide_True by (apply H; left). cbn [length]. f_equal. apply IH.
  intros m Hm. apply H. by right.
Qed.
Lemma alive_out_pos (graph : Graph) m n : is_Some (graph !! m) -> m ∈ out_names n -> (0 < alive_out graph n)%nat.
Proof.
  intros Hm Hin. rewrite (alive_out_delete graph m n Hm). apply occ_pos in Hin. lia.
Qed.

Definition pstate (graph : Graph) (c : str -> nat) (fr : str -> list str) : Prop :=
  forall n node, graph !! n = Some node -> outdegree node = Z.of_nat (c n) /\ from node = fr n.

Lemma release_parents_ok busy l graph queue c fr :
  pstate graph c fr -> qstate busy graph queue c ->
  (forall n, occ n l <= c n)%nat -> (forall n, n ∈ l -> Some n <> busy /\ n ∈ dom graph) ->
  exists graph' queue', res_fold release_parent (graph, queue) l = Ok (graph', queue') /\
    dom graph' = dom graph /\ pstate graph' (fun n => c n - occ n l)%nat fr /\
    qstate busy graph' queue' (fun n => c n - occ n l)%nat.
Proof.
  revert graph queue c. induction l as [|x l IH]; intros graph queue c Hp Hq Hle Hb; cbn [res_fold].
  - exists graph, queue. assert (forall n, (c n - occ n [])%nat = c n) as E by (intros n; unfold occ; simpl; lia).
    split_and!; [done|done| |].
    + intros n node Hn. rewrite E. by apply Hp.
    + destruct Hq as [? Hq]. split; [done|]. intros n. by rewrite E.
  - pose proof (Hle x) as Hx. rewrite occ_cons, decide_True in Hx by done.
    destruct (Hb x ltac:(left)) as [Hxb Hxd]. pose proof Hxd as [node Hnode]%elem_of_dom.
    destruct (Hp _ _ Hnode) as [P1 P2].
    set (node' := with_outdegree (outdegree node - 1) node).
    set (q1 := if decide (c x - 1 = 0)%nat then queue ++ [x] else queue).
    assert (release_parent (graph, queue) x = Ok (<[x := node']> graph, q1)) as ->.
    { unfold release_parent. rewrite Hnode. cbn [or_panic]. rstep. do 2 f_equal. unfold q1.
      rewrite P1. destruct (Z.eqb_spec (Z.of_nat (c x) - 1) 0), (decide (c x - 1 = 0)%nat); (done || lia). }
    cbn [res_bind]. assert (dom (<[x := node']> graph) = dom graph) as Hd1 by (apply dom_insert_lookup_L; by rewrite Hnode).
    assert (forall n, (upd c x (c x - 1)%nat n - occ n l = c n - occ n (x :: l))%nat) as En.
    { intros n. rewrite occ_cons. unfold upd. destruct (decide (n = x)) as [->|Hne].
      - rewrite decide_True by done. lia.
      - rewrite decide_False by congruence. lia. }
    destruct (IH (<[x := node']> graph) q1 (upd c x (c x - 1)%nat)) as (g2 & q2 & E2 & Hd2 & Hp2 & Hq2).
    { intros n y Hy. unfold upd. destruct (decide (n = x)) as [->|Hne].
      - rewrite lookup_insert_eq in Hy. injection Hy as <-. simpl. split; [lia|done].
      - rewrite lookup_insert_ne in Hy by done. by apply Hp. }
    { apply qstate_push; [done|by rewrite Hnode|lia|done]. }
    { intros n. specialize (Hle n). rewrite occ_cons in Hle. unfold upd.
      destruct (decide (n = x)) as [->|Hne]; [rewrite decide_True in Hle by done; lia|].
      rewrite decide_False in Hle by congruence. lia. }
    { intros n Hn. rewrite Hd1. apply Hb. by right. }
    exists g2, q2. split_and!; [done|by rewrite Hd2| |].
    + intros n y Hy. rewrite <- En. by apply Hp2.
    + destruct Hq2 as [? Hq2]. split; [done|]. intros n. by rewrite <- En.
Qed.

Context (fr : str -> list str) (D : gset str).
Context (Hfr : forall p m, occ p (fr m) = occ m (out_names p)).
Context (Hpred : forall m, m ∈ D -> exists p, m ∈ out_names p).

Record peel_inv (graph : Graph) (queue : list str) : Prop := {
  pi_state : pstate graph (alive_out graph) fr;
  pi_dead n : graph !! n = None -> alive_out graph n = 0%nat;
  pi_queue : qstate None graph queue (alive_out graph);
  pi_ne : graph <> ∅;
  pi_dom : dom graph ⊆ D;
}.

Lemma peel_loop_ok fuel graph queue :
  peel_inv graph queue -> (size graph <= fuel)%nat ->
  exists graph', peel_loop fuel graph queue = Some (Ok graph') /\ peel_inv graph' [].
Proof.
  revert graph queue. induction fuel as [|fuel IH]; intros graph queue Hinv Hsize;
    (destruct queue as [|m queue]; [by exists graph|]); pose proof Hinv as [Hp Hdead Hq Hne Hdom].
  { exfalso. apply Hne. apply map_size_empty_inv. lia. }
  destruct (proj1 (proj2 Hq m) ltac:(left)) as (_ & [node Hm] & Hc). cbn [peel_loop]. rewrite Hm.
  destruct (Hp _ _ Hm) as [_ Ef]. rewrite Ef.
  assert (forall p, p ∈ fr m -> p <> m /\ p ∈ dom graph) as Hpar.
  { intros p Hin. apply occ_pos in Hin. rewrite Hfr in Hin. apply occ_pos in Hin.
    pose proof (alive_out_pos graph m p ltac:(by rewrite Hm) Hin) as Hpos. split.
    - intros ->. lia.
    - apply elem_of_dom. destruct (graph !! p) eqn:E; [done|]. apply Hdead in E. lia. }
  assert (forall p, alive_out (delete m graph) p = (alive_out graph p - occ p (fr m))%nat) as Ed.
  { intros p. rewrite Hfr, (alive_out_delete graph m p) by by rewrite Hm. lia. }
  apply (qstate_pop _ _ _ _ node) in Hq as Hq1. rewrite insert_id in Hq1 by done.
  destruct (release_parents_ok (Some m) (fr m) graph queue _ _ Hp Hq1) as (g1 & q1 & -> & Hd1 & Hp1 & Hq2).
  { intros p. rewrite Hfr, (alive_out_delete graph m p) by by rewrite Hm. lia. }
  { intros p Hin. destruct (Hpar p Hin). split; [congruence|done]. }
  assert (forall p, alive_out (delete m g1) p = alive_out (delete m graph) p) as Ea.
  { intros p. apply alive_out_dom. by rewrite !dom_delete_L, Hd1. }
  apply IH.
  - split.
    + intros n y Hy. rewrite Ea, Ed. apply Hp1. by apply lookup_delete_Some in Hy as [_ ?].
    + intros n Hy. rewrite Ea, Ed. apply lookup_delete_None in Hy as [->|Hy]; [lia|].
      assert (graph !! n = None) as E by (apply not_elem_of_dom; rewrite <- Hd1; by apply not_elem_of_dom).
      apply Hdead in E. lia.
    + apply qstate_delete. destruct Hq2 as [? Hq2]. split; [done|]. intros n. by rewrite Ea, Ed.
    + destruct (Hpred m) as [p Hin]; [apply Hdom, elem_of_dom; by rewrite Hm|].
      assert (p ∈ fr m) as Hin' by (apply occ_pos; rewrite Hfr; by apply occ_pos).
      destruct (Hpar p Hin') as [Hpm Hpd]. intros E.
      assert (delete m g1 !! p = None) as E' by (by rewrite E, lookup_empty).
      apply lookup_delete_None in E' as [?|E']; [done|]. apply not_elem_of_dom in E'. by rewrite Hd1 in E'.
    + rewrite dom_delete_L, Hd1. set_solver.
  - assert (is_Some (g1 !! m)) as Hs by (apply elem_of_dom; rewrite Hd1; apply elem_of_dom; by rewrite Hm).
    rewrite (map_size_delete_Some m g1 Hs). rewrite <- size_dom, Hd1, size_dom. lia.
Qed.
End leftover.

Lemma names_with_queue P f graph (c : str -> nat) :
  lists_names f -> (forall n node, graph !! n = Some node -> P node = (Z.of_nat (c n) =? 0)) ->
  qstate None graph (names_with P (f graph) graph) c.
Proof.
  intros Hf HP. unfold names_with. split.
  - apply NoDup_filter. rewrite (Hf graph). apply NoDup_fst_map_to_list.
  - intros n. rewrite list_elem_of_filter, (Hf graph), list_elem_of_fmap. split.
    + intros [E ([x node] & -> & Hin)]. apply elem_of_map_to_list in Hin. cbn [fst] in *. rewrite Hin in E.
      cbn [fmap option_fmap option_map default from_option id] in E. rewrite (HP _ _ Hin) in E.
      apply Z.eqb_eq in E. split_and!; [done|done|lia].
    + intros (_ & [node Hn] & Hc). rewrite Hn. cbn [fmap option_fmap option_map default from_option id].
      rewrite (HP _ _ Hn). split; [apply Z.eqb_eq; lia|]. exists (n, node). split; [done|].
      by apply elem_of_map_to_list.
Qed.

Lemma loop_reported gs graph index groups rest done o :
  orders_ok o -> sort_inv gs graph [] index groups rest done -> graph <> ∅ ->
  exists graph2 graph3,
    res_fold link_group graph (order_link o graph) = Ok graph2 /\
    peel_loop (size graph2) graph2 (names_with (fun n => outdegree n =? 0) (order_peel o graph2) graph2)
      = Some (Ok graph3) /\ graph3 <> ∅ /\ dom graph3 ⊆ dom graph.
Proof.
  intros Hord Hinv Hne. destruct (stuck _ _ _ _ _ _ Hinv) as [Hpos _]. destruct Hinv as [Hg _ Hn _ _ _ _ _].
  assert (forall n, n ∈ order_link o graph <-> n ∈ dom graph) as Hnames.
  { intros n. rewrite (oo_link o Hord graph), elem_of_dom, list_elem_of_fmap. split.
    - intros ([x y] & -> & Hin). apply elem_of_map_to_list in Hin. by exists y.
    - intros [y Hy]. exists (n, y). split; [done|]. by apply elem_of_map_to_list. }
  assert (forall n, n ∉ dom graph -> out_names rest n = []) as Hout.
  { intros n Hd. unfold out_names. apply not_elem_of_dom in Hd. destruct (Hg n) as [E|(_ & _ & ->)]; congruence. }
  assert (forall n x, n ∈ dom graph -> x ∈ out_names rest n -> x ∈ dom graph) as Hclosed.
  { intros n x _ Hx. apply elem_of_dom. eexists. apply (gstate_live _ _ _ _ Hg). left. apply refs_pos.
    unfold out_names in Hx. destruct (find_group rest n) as [g|] eqn:E; [|by apply elem_of_nil in Hx].
    apply find_group_some in E as [? _]. by exists g. }
  destruct (link_all_ok rest (order_link o graph) graph (fun _ => 0%nat) (fun _ => []))
    as (g2 & fr & -> & Hd2 & Hl2 & Hocc).
  { rewrite (oo_link o Hord graph). apply NoDup_fst_map_to_list. }
  { intros n node E. by rewrite (gstate_some _ _ _ _ _ Hg E). }
  { intros n. apply Hnames. }
  { done. }
  exists g2. assert (forall n, n ∈ dom graph -> alive_out rest g2 n = length (out_names rest n)) as Hal.
  { intros n Hd. apply alive_out_all. intros x Hx. apply elem_of_dom. rewrite Hd2.
    by apply (Hclosed n). }
  assert (forall n node, g2 !! n = Some node -> outdegree node = Z.of_nat (alive_out rest g2 n) /\ from node = fr n) as Hst.
  { intros n node E. destruct (Hl2 _ _ E) as (E1 & E2 & _). split; [|done].
    assert (n ∈ dom graph) as Hd by (rewrite <- Hd2; apply elem_of_dom; by exists node).
    rewrite E1, Hal, decide_True by (done || by apply Hnames). done. }
  destruct (peel_loop_ok rest fr (dom graph)) with (fuel := size g2) (graph := g2)
    (queue := names_with (fun n => outdegree n =? 0) (order_peel o g2) g2) as (g3 & E3 & [_ _ _ Hne3 Hdom3]).
  - intros p m. rewrite Hocc. unfold occ at 2. simpl. case_decide as Hp; [done|].
    rewrite Hnames in Hp. by rewrite (Hout p Hp).
  - intros m Hm. apply elem_of_dom, Hpos, refs_pos in Hm as (g & Hgr & Hlst). exists (group_name g).
    unfold out_names. by rewrite find_group_in.
  - split.
    + exact Hst.
    + intros n E. apply not_elem_of_dom in E. rewrite Hd2 in E. unfold alive_out. by rewrite (Hout n E).
    + apply names_with_queue; [apply Hord|]. intros n node E. by rewrite (proj1 (Hst n node E)).
    + intros ->. apply Hne. apply dom_empty_inv_L. by rewrite <- Hd2, dom_empty_L.
    + by rewrite Hd2.
  - done.
  - by exists g3.
Qed.

Lemma sort_start gs graph o :
  orders_ok o -> NoDup (group_name <$> gs) -> gstate graph (refs gs) (find_group gs) ->
  sort_inv gs graph (names_with (fun n => in_degree n =? 0) (order_queue o graph) graph) 0 gs gs [].
Proof.
  intros Hord Hnd Hg. split; try done.
  - apply names_with_queue; [apply Hord|]. intros n node E. by rewrite (gstate_some _ _ _ _ _ Hg E).
  - by rewrite Nat.sub_0_r, drop_all.
Qed.

(** ** Every outcome of the sort *)
Lemma dag_sort_outcome (o : Orders) (gs : list OutboundGroupProtocol) (Hord : orders_ok o) :
  (~ NoDup (group_name <$> gs) /\
     proxy_groups_dag_sort o gs = Some (InvalidConfig "duplicate proxy group name")) \/
  (NoDup (group_name <$> gs) /\ acyclic gs /\
     exists sorted, proxy_groups_dag_sort o gs = Some (Sorted sorted) /\
       sorted ≡ₚ gs /\ dependencies_first sorted) \/
  (NoDup (group_name <$> gs) /\ ~ acyclic gs /\
     exists names, proxy_groups_dag_sort o gs = Some (LoopDetected names) /\ names <> []).
Proof.
  unfold proxy_groups_dag_sort. destruct (build_ok gs) as [Hok Hdup].
  destruct (decide (NoDup (group_name <$> gs))) as [Hnd|Hnd]; [right|left; by rewrite Hdup].
  destruct (Hok Hnd) as (graph & -> & Hg). cbn [outcome_of].
  destruct (sort_loop_ok (size graph) gs graph _ _ _ _ _ (sort_start gs graph o Hord Hnd Hg))
    as (graph' & index & groups & rest & placed & E & Hinv); [done|].
  rewrite E. cbn [mbind option_bind outcome_of].
  destruct (decide (graph' = ∅)) as [He|He]; [left|right].
  - rewrite bool_decide_true by done.
    destruct (finished gs graph' index groups rest placed Hnd Hinv He) as (Hp & Hdep & Hac).
    split_and!; [done|done|]. by exists groups.
  - rewrite bool_decide_false by done. split_and!; [done|by eapply stuck|].
    destruct (loop_reported _ _ _ _ _ _ o Hord Hinv He) as (g2 & g3 & -> & E3 & Hne & _).
    cbn [outcome_of]. rewrite E3. cbn [mbind option_bind outcome_of]. eexists. split; [done|].
    intros En. apply Hne. apply map_to_list_empty_iff. pose proof (oo_names o Hord g3) as Hp.
    rewrite En in Hp. apply Permutation_nil_l in Hp. symmetry in Hp. by apply fmap_nil_inv in Hp.
Qed.

(** C6: the group sort is a topological sort.  Whatever order the hash map is
    iterated in, the function ends without a panic; two groups of one name
    are refused; otherwise the groups are sorted exactly when no group
    reaches itself through the names it lists, and then the result is a
    rearrangement of the groups in which every group comes after the groups
    it lists; a cyclic configuration is refused with a non-empty list of
    names. *)
Theorem dag_sort_topological (o : Orders) (gs : list OutboundGroupProtocol) (Hord : orders_ok o) :
  (~ NoDup (group_name <$> gs) /\
     proxy_groups_dag_sort o gs = Some (InvalidConfig "duplicate proxy group name")) \/
  (NoDup (group_name <$> gs) /\ acyclic gs /\
     exists sorted, proxy_groups_dag_sort o gs = Some (Sorted sorted) /\
       sorted ≡ₚ gs /\ dependencies_first sorted) \/
  (NoDup (group_name <$> gs) /\ ~ acyclic gs /\
     exists names, proxy_groups_dag_sort o gs = Some (LoopDetected names) /\ names <> []).
Proof. by apply dag_sort_outcome. Qed.

(** The order in which [map_to_list] visits the names. *)
Definition listing_orders : Orders :=
  let f := fun g : Graph => (map_to_list g).*1 in
  {| order_queue := f; order_link := f; order_peel := f; order_names := f |}.

Definition select_group (name : str) (proxies : list str) : OutboundGroupProtocol :=
  Select {| select_name := name; select_proxies := Some proxies; select_use_provider := None;
            select_udp := None; select_url := None; select_icon := None |}.

Lemma dag_sort_topological_witness :
  exists sorted, proxy_groups_dag_sort listing_orders
      [select_group (lit "relay") [lit "auto"; lit "ss"]; select_group (lit "auto") [lit "ss"]]
    = Some (Sorted sorted) /\ dependencies_first sorted.
Proof.
  destruct (dag_sort_topological listing_orders
    [select_group (lit "relay") [lit "auto"; lit "ss"]; select_group (lit "auto") [lit "ss"]])
    as [[_ E]|[(_ & _ & sorted & E & _ & H)|(_ & _ & names & E & _)]].
  - split; intros g; reflexivity.
  - exfalso. vm_compute in E. discriminate E.
  - exists sorted. split; [exact E|exact H].
  - exfalso. vm_compute in E. discriminate E.
Defined.
