(* ===== verification/System.v ===== *)
(** * Routing by rule sets, end to end

    The components composed: the lines of domain rule sets go through the
    domain trie and the succinct set into rule providers, the providers into
    the router's RULE-SET rules, and the router picks a target for a
    session. *)

From S2P Require Import Prelude Str Net Session Trie Geo Rule Router SuccinctSet Mrs Fetcher RuleProvider Louds.

Section system.
Context {RX : RegexLib} {NL : IpNetLib} {PL : ProcessLookup} {UC : UnicodeLib}.
Context {LP : LpmLib} {DNS : Resolver}.
Context (oc : bool).

(** The provider behind a RULE-SET rule, as the router calls it; running out
    of rounds counts as a panic. *)
Definition provider_answer (fuel : nat) (p : RuleProviderImpl) (sess : Session) : res bool :=
  default Panic (provider_search oc fuel p sess).

Lemma make_domain_rules_build lines :
  make_domain_rules lines = build ((fun l => (l, true)) <$> lines).
Proof.
  unfold make_domain_rules, build. generalize (@trie_new bool). induction lines as [|l lines IH]; intros t; [done|].
  cbn [fmap list_fmap foldl]. apply IH.
Qed.

(** A list of domain lines a provider can be loaded from. *)
Record domain_lines (lines : list str) : Prop := {
  dl_ne : lines <> [];
  dl_patterns : Forall list_pattern lines;
  dl_size : Z.of_nat (sum_list_with length (trie_keys (make_domain_rules lines))) < 2 ^ 29;
}.
Definition lines_match (lines : list str) (v : str) : Prop :=
  exists l, l ∈ lines /\ pattern_matches l v.

Lemma lines_match_search lines v :
  lines_match lines v <-> is_Some (trie_search (make_domain_rules lines) v).
Proof.
  rewrite make_domain_rules_build, build_search. unfold lines_match. split.
  - intros (l & Hl & Hm). exists l, true. split; [|done]. apply list_elem_of_fmap. by exists l.
  - intros (l & d & Hl & Hm). apply list_elem_of_fmap in Hl as (x & [= -> ->] & Hx). by exists x.
Qed.

(** Loading a domain provider, and what it then answers. *)
Lemma domain_lines_loaded lines mmdb geodata :
  domain_lines lines ->
  exists s, make_rules oc BDomain lines mmdb geodata = Ok (RcDomain s) /\
    forall v fuel, set_domain v -> Forall not_upper v ->
      (set_cost (trie_keys (make_domain_rules lines)) v <= fuel)%nat ->
      exists b, has oc fuel s v = Some (Ok b) /\ (b = true <-> lines_match lines v).
Proof.
  intros [Hne Hpat Hsize]. pose proof (lines_match_search lines) as Hsearch.
  unfold make_rules. rewrite make_domain_rules_build in *.
  destruct (domain_set_agrees oc ((fun l => (l, true)) <$> lines)) as (s & E & H).
  - by destruct lines.
  - by apply Forall_fmap.
  - done.
  - exists s. rewrite E. split; [done|]. intros v fuel Hv Hu Hf. eexists. split; [by apply H|].
    rewrite bool_decide_eq_true, Hsearch. done.
Qed.

(** A configuration of rule sets: name, lines and target of each. *)
Record SetSpec : Type := { sp_name : str; sp_lines : list str; sp_target : str }.

(** A registry that holds a loaded provider for a rule set. *)
Definition serves (registry : gmap str RuleProviderImpl) (sp : SetSpec) : Prop :=
  domain_lines (sp_lines sp) /\
  exists p mmdb geodata, registry !! sp_name sp = Some p /\ rp_locked p = false /\
    make_rules oc BDomain (sp_lines sp) mmdb geodata = Ok (rp_content p).

Definition set_rule (sp : SetSpec) : RuleType := RtRuleSet (sp_name sp) (sp_target sp).

(** The target a destination should get: that of the first rule set with a
    matching line, or the last rule's. *)
Inductive chosen (v final : str) : list SetSpec -> str -> Prop :=
| chosen_final : chosen v final [] final
| chosen_here sp sps : lines_match (sp_lines sp) v -> chosen v final (sp :: sps) (sp_target sp)
| chosen_later sp sps t : ~ lines_match (sp_lines sp) v -> chosen v final sps t -> chosen v final (sp :: sps) t.

Lemma set_rules_built registry sps final mmdb geodata :
  Forall (serves registry) sps ->
  exists ps, length ps = length sps /\
    (forall i sp p, sps !! i = Some sp -> ps !! i = Some p -> registry !! sp_name sp = Some p) /\
    forall acc, res_fold (fun acc r => x ← map_rule_type r mmdb geodata (Some registry); Ok (acc ++ [x])) acc
      ((set_rule <$> sps) ++ [RtMatch final]) =
    Ok (acc ++ zip_with (fun sp p => RRuleSet {| rs_rule_set := sp_name sp; rs_target := sp_target sp;
                                               rs_rule_provider := p |}) sps ps
         ++ [RFinal {| f_target := final |}]).
Proof.
  induction 1 as [|sp sps [_ (p & m & g & Hp & _)] _ IH].
  - exists []. split_and!; [done|done|]. intros acc. done.
  - destruct IH as (ps & Hl & Hps & E). exists (p :: ps). split_and!; [simpl; by f_equal| |].
    + intros [|i] sp' p' H1 H2; simpl in *; [by simplify_eq|by eapply Hps].
    + intros acc. cbn [fmap list_fmap app res_fold set_rule map_rule_type]. rewrite Hp. cbn [or_panic].
      rstep. rewrite E. cbn [zip_with]. by rewrite <- app_assoc.
Qed.

Lemma final_route db fuel final sess resolved (st : dns_state) :
  route_loop (provider_answer fuel) db [RFinal {| f_target := final |}] sess resolved st =
  Ok (final, Some (RFinal {| f_target := final |}), route_annotate db sess, st).
Proof. cbn [route_loop]. unfold route_resolve. cbn [rule should_resolve_ip dispatch final_rule]. by rewrite andb_false_r. Qed.

Lemma set_route_step db fuel sp p rs sess resolved (st : dns_state) v port b :
  destination sess = Domain v port -> rp_locked p = false ->
  provider_answer fuel p (route_annotate db sess) = Ok b ->
  route_loop (provider_answer fuel) db
    (RRuleSet {| rs_rule_set := sp_name sp; rs_target := sp_target sp; rs_rule_provider := p |} :: rs)
    sess resolved st =
  if b then Ok (sp_target sp, Some (RRuleSet {| rs_rule_set := sp_name sp; rs_target := sp_target sp;
                                                rs_rule_provider := p |}), route_annotate db sess, st)
  else route_loop (provider_answer fuel) db rs (route_annotate db sess) resolved st.
Proof.
  intros Hd Hl Ha. cbn [route_loop]. unfold route_resolve.
  cbn [rule should_resolve_ip dispatch ruleset_rule]. rewrite andb_false_r. cbn [andb]. rstep.
  cbn [apply target rule dispatch ruleset_rule rs_rule_provider rs_target]. rewrite Ha. rstep. by destruct b.
Qed.

Lemma set_rules_route registry db fuel final v port sps ps (st : dns_state) :
  Forall (serves registry) sps -> length ps = length sps ->
  (forall i sp p, sps !! i = Some sp -> ps !! i = Some p -> registry !! sp_name sp = Some p) ->
  set_domain v -> Forall not_upper v ->
  Forall (fun sp => set_cost (trie_keys (make_domain_rules (sp_lines sp))) v <= fuel)%nat sps ->
  forall sess resolved, destination sess = Domain v port ->
  exists t m sess',
    route_loop (provider_answer fuel) db
      (zip_with (fun sp p => RRuleSet {| rs_rule_set := sp_name sp; rs_target := sp_target sp;
                                         rs_rule_provider := p |}) sps ps
       ++ [RFinal {| f_target := final |}]) sess resolved st = Ok (t, m, sess', st) /\
    chosen v final sps t.
Proof.
  intros Hs. revert ps. induction Hs as [|sp sps Hsp Hs IH]; intros ps Hlen Hps Hv Hu Hf sess resolved Hd.
  { destruct ps; [|done]. eexists _, _, _. split; [apply final_route|constructor]. }
  destruct ps as [|p ps]; [done|]. apply Forall_cons in Hf as [Hf Hfs].
  destruct Hsp as [Hlines (p' & mmdb & geodata & Hp' & Hlock & Hmake)].
  pose proof (Hps 0%nat sp p eq_refl eq_refl) as Hp. rewrite Hp in Hp'. injection Hp' as <-.
  destruct (domain_lines_loaded (sp_lines sp) mmdb geodata Hlines) as (s & E & Hhas).
  rewrite Hmake in E. injection E as Econt.
  destruct (Hhas v fuel Hv Hu Hf) as (b & Hb & Hiff).
  assert (destination (route_annotate db sess) = Domain v port) as Hd' by (by rewrite annotate_destination).
  cbn [zip_with app]. rewrite (set_route_step db fuel sp p _ sess resolved st v port b Hd Hlock).
  2: { unfold provider_answer, provider_search. rewrite Hlock, Econt, Hd'. cbn [socks_host]. by rewrite Hb. }
  destruct b.
  - eexists _, _, _. split; [done|]. apply chosen_here. by apply Hiff.
  - destruct (IH ps ltac:(simpl in Hlen; lia)) with (sess := route_annotate db sess) (resolved := resolved)
      as (t & m & sess' & Er & Hc); try done.
    { intros i sp' q H1 H2. by apply (Hps (S i)). }
    exists t, m, sess'. split; [done|]. apply chosen_later; [|done]. intros Hm. apply Hiff in Hm. done.
Qed.
End system.

(** * Theorems *)

(** A domain rule provider matches the patterns of its lines.  From any
    non-empty list of domains, [+.] domains and [.] domains a provider's
    contents can be built, and a provider with these contents matches a
    session to a lower-case domain exactly when one of the lines matches it;
    the lookup ends within the stated number of rounds. *)
Theorem domain_provider_search {RX : RegexLib} {NL : IpNetLib} {PL : ProcessLookup} {UC : UnicodeLib}
    {LP : LpmLib} (oc : bool) (lines : list str) mmdb geodata (Hlines : domain_lines lines) :
  exists content, make_rules oc BDomain lines mmdb geodata = Ok content /\
    forall p sess v port fuel,
      rp_content p = content -> rp_locked p = false -> destination sess = Domain v port ->
      set_domain v -> Forall not_upper v ->
      (set_cost (trie_keys (make_domain_rules lines)) v <= fuel)%nat ->
      exists b, provider_search oc fuel p sess = Some (Ok b) /\ (b = true <-> lines_match lines v).
Proof.
  destruct (domain_lines_loaded oc lines mmdb geodata Hlines) as (s & E & H). exists (RcDomain s).
  split; [done|]. intros p sess v port fuel Hc Hl Hd Hv Hu Hf. unfold provider_search.
  rewrite Hl, Hc, Hd. by apply H.
Qed.

(** C3: routing by rule sets, from the lines to the target.  For a
    configuration of RULE-SET rules over loaded domain providers followed by
    a MATCH rule, the router is built, routing a session to a lower-case
    domain asks no resolver and returns, and the target is that of the first
    rule set one of whose lines matches the domain, or the MATCH rule's when
    none does. *)
Theorem rule_set_routing {RX : RegexLib} {NL : IpNetLib} {PL : ProcessLookup} {UC : UnicodeLib}
    {LP : LpmLib} {DNS : Resolver} (oc : bool) (registry : gmap str RuleProviderImpl)
    (sps : list SetSpec) (final : str) mmdb asn geodata (sess : Session) (v : str) (port : Z)
    (fuel : nat) (st : dns_state)
    (Hserves : Forall (serves oc registry) sps) (Hdest : destination sess = Domain v port)
    (Hv : set_domain v) (Hlower : Forall not_upper v)
    (Hfuel : Forall (fun sp => set_cost (trie_keys (make_domain_rules (sp_lines sp))) v <= fuel)%nat sps) :
  exists R t m sess',
    router_new ((set_rule <$> sps) ++ [RtMatch final]) registry mmdb asn geodata = Ok R /\
    match_route (provider_answer oc fuel) R sess st = Ok (t, m, sess', st) /\
    chosen v final sps t.
Proof.
  destruct (set_rules_built oc registry sps final mmdb geodata Hserves) as (ps & Hl & Hps & E).
  destruct (set_rules_route oc registry asn fuel final v port sps ps st Hserves Hl Hps Hv Hlower Hfuel
    sess false Hdest) as (t & m & sess' & Er & Hc).
  unfold router_new. rewrite (E []). rstep. eexists _, t, m, sess'. split; [done|]. by split.
Qed.

(** ** A concrete configuration *)
Section demo.
#[local] Existing Instances demo_regex num_ipnet demo_process demo_unicode ref_lpm demo_resolver.

Definition proxy_lines : list str := [lit "+.b.c"; lit "d.e"].
Definition proxy_spec : SetSpec :=
  {| sp_name := lit "set"; sp_lines := proxy_lines; sp_target := lit "PROXY" |}.

Lemma proxy_domain_lines : domain_lines proxy_lines.
Proof.
  split.
  - discriminate.
  - repeat constructor.
    + exists (lit "b.c"). split; [apply set_domain_check; reflexivity|]. right. left. reflexivity.
    + exists (lit "d.e"). split; [apply set_domain_check; reflexivity|]. left. reflexivity.
  - reflexivity.
Qed.
Lemma demo_lower : Forall not_upper (lit "a.b.c").
Proof. unfold not_upper. apply (bool_decide_unpack _). vm_compute. exact I. Qed.

Lemma domain_provider_search_witness :
  exists content, make_rules true BDomain proxy_lines None None = Ok content /\
    exists b, provider_search true 300 (demo_provider BDomain content proxy_lines)
                (demo_session (Domain (lit "a.b.c") 443)) = Some (Ok b).
Proof.
  destruct (domain_provider_search true proxy_lines None None proxy_domain_lines) as (c & E & H).
  exists c. split; [exact E|].
  destruct (H (demo_provider BDomain c proxy_lines) (demo_session (Domain (lit "a.b.c") 443))
    (lit "a.b.c") 443 300%nat) as (b & Hb & _).
  - reflexivity.
  - reflexivity.
  - reflexivity.
  - apply set_domain_check; reflexivity.
  - exact demo_lower.
  - apply Nat.leb_le. reflexivity.
  - exists b. exact Hb.
Defined.

Lemma rule_set_routing_witness :
  exists registry R t m sess',
    router_new [RtRuleSet (lit "set") (lit "PROXY"); RtMatch (lit "DIRECT")]
      registry None None None = Ok R /\
    match_route (DNS := demo_resolver) (provider_answer true 300) R
      (demo_session (Domain (lit "a.b.c") 443)) 0%nat = Ok (t, m, sess', 0%nat) /\
    chosen (lit "a.b.c") (lit "DIRECT") [proxy_spec] t.
Proof.
  destruct (domain_lines_loaded true proxy_lines None None proxy_domain_lines) as (s & E & _).
  exists {[lit "set" := demo_provider BDomain (RcDomain s) proxy_lines]}.
  apply (rule_set_routing (DNS := demo_resolver) true _ [proxy_spec] (lit "DIRECT") None None None
    (demo_session (Domain (lit "a.b.c") 443)) (lit "a.b.c") 443 300 0%nat).
  - constructor; [|constructor]. split; [exact proxy_domain_lines|].
    exists (demo_provider BDomain (RcDomain s) proxy_lines), None, None.
    split; [apply lookup_insert_eq|]. split; [reflexivity|exact E].
  - reflexivity.
  - apply set_domain_check; reflexivity.
  - exact demo_lower.
  - constructor; [|constructor]. apply Nat.leb_le. reflexivity.
Defined.
End demo.
