(* ===== verification/Hy2.v ===== *)
(** * Hysteria2 frames ([clash-lib/src/proxy/hysteria2])

    The TCP request and response, UDP packets with their fragmentation and
    reassembly ([codec.rs]), and the Salamander obfuscation
    ([salamander.rs]).  The QUIC variable-length integers of [quinn_proto] and
    BLAKE2b are parameters, random bytes are arguments. *)

From S2P Require Import Prelude Str Net Ipv6 Session.

(** [quinn_proto::VarInt]: integers below 2^62, encoded as in RFC 9000. *)
Class VarIntLib : Type := {
  var_encode : Z -> list Z;
  var_decode : list Z -> option (Z * list Z);
}.

(** The first bytes of a buffer, which panics when they are missing
    ([BytesMut::split_to]). *)
Definition split_to (n : Z) (buf : list Z) : res (list Z * list Z) :=
  if bool_decide (0 <= n <= zlen buf) then Ok (take (Z.to_nat n) buf, drop (Z.to_nat n) buf) else Panic.

(* @src clash-lib/src/proxy/hysteria2/codec.rs ~^pub fn var_size~ var_size *)
Definition var_size (x : Z) : res Z :=
  if x <? 2 ^ 6 then Ok 1
  else if x <? 2 ^ 14 then Ok 2
  else if x <? 2 ^ 30 then Ok 4
  else if x <? 2 ^ 62 then Ok 8
  else Panic.

Section codec.
Context {VL : VarIntLib} (oc : bool).

(** ** TCP *)
(* @src clash-lib/src/proxy/hysteria2/codec.rs ~^pub struct Hy2TcpResp~ Hy2TcpResp *)
Record Hy2TcpResp : Type := { status : Z; msg : str }.

(** The response and the bytes after it. *)
(* @src clash-lib/src/proxy/hysteria2/codec.rs ~^impl Decoder for Hy2TcpCodec~ Hy2TcpCodec::decode *)
Definition tcp_decode (src : list Z) : res (Hy2TcpResp * list Z) :=
  if bool_decide (src = []) then Err "unexpected end of file"
  else
    '(status, src) ← get_uint 1 src;
    '(msg_len, src) ← ok_or (var_decode src) "invalid data";
    if zlen src <? msg_len then Err "unexpected end of file"
    else
      '(m, src) ← split_to msg_len src;
      m ← ok_or (from_utf8 m) "invalid data";
      '(padding_len, src) ← ok_or (var_decode src) "unexpected end of file";
      if zlen src <? padding_len then Err "unexpected end of file"
      else
        '(_, src) ← split_to padding_len src;
        Ok ({| status := status; msg := m |}, src).

(** The request for an address, with the random padding. *)
(* @src clash-lib/src/proxy/hysteria2/codec.rs ~^impl Encoder<&'_ SocksAddr> for Hy2TcpCodec~ Hy2TcpCodec::encode *)
Definition tcp_encode (item : SocksAddr) (padding buf : list Z) : list Z :=
  let addr := utf8 (socks_to_string item) in
  buf ++ var_encode 0x401 ++ var_encode (wrap 32 (zlen addr)) ++ addr
      ++ var_encode (wrap 32 (zlen padding)) ++ padding.

(** ** UDP packets *)
(* @src clash-lib/src/proxy/hysteria2/codec.rs ~^pub struct HysUdpPacket~ HysUdpPacket *)
Record HysUdpPacket : Type := {
  session_id : Z; pkt_id : Z; frag_id : Z; frag_count : Z; addr : SocksAddr; data : list Z;
}.

(* @src clash-lib/src/proxy/hysteria2/codec.rs ~^fn to_socksaddr~ to_socksaddr *)
Definition to_socksaddr (bytes : list Z) : res SocksAddr :=
  addr_str ← ok_or (from_utf8 bytes) "Invalid UTF-8 in address";
  '(host, port_str) ← ok_or (rsplit_once 58 addr_str) "Address must be in host:port format";
  port ← ok_or (parse_uint 16 port_str) "Invalid port number";
  Ok (match parse_socket_addr addr_str with
      | Some sock_addr => Ip sock_addr
      | None => Domain host port
      end).

(* @src clash-lib/src/proxy/hysteria2/codec.rs ~    pub fn decode\(buf~ HysUdpPacket::decode *)
Definition udp_decode (buf : list Z) : res HysUdpPacket :=
  if zlen buf <? 4 + 2 + 1 + 1 then Err "packet too short"
  else
    '(session_id, buf) ← get_uint 4 buf;
    '(pkt_id, buf) ← get_uint 2 buf;
    '(frag_id, buf) ← get_uint 1 buf;
    '(frag_count, buf) ← get_uint 1 buf;
    '(addr_len, buf) ← ok_or (var_decode buf) "";
    '(addr, data) ← split_to addr_len buf;
    addr ← to_socksaddr addr;
    Ok {| session_id := session_id; pkt_id := pkt_id; frag_id := frag_id; frag_count := frag_count;
          addr := addr; data := data |}.

(** ** Fragmentation *)
(* @src clash-lib/src/proxy/hysteria2/codec.rs ~^pub struct Fragments~ Fragments *)
Record Fragments : Type := {
  f_session_id : Z; f_pkt_id : Z; f_addr : list Z; f_addr_var : Z;
  frag_total : Z; next_frag_id : Z; next_frag_start : Z; payload : list Z;
  max_pkt_size : Z; fixed_size : Z;
}.

(* @src clash-lib/src/proxy/hysteria2/codec.rs ~    pub fn new\(~ Fragments::new *)
Definition fragments_new (session_id pkt_id : Z) (a : SocksAddr) (max_pkt_size : Z) (payload : list Z) :
    res Fragments :=
  let addr := utf8 (socks_to_string a) in
  let addr_var := wrap 32 (zlen addr) in
  v ← var_size addr_var;
  fixed ← arith oc 64 (4 + 2 + 1 + 1 + zlen addr + v);
  max_data_size ← arith oc 64 (max_pkt_size - fixed);
  if max_data_size =? 0 then Panic
  else
    Ok {| f_session_id := session_id; f_pkt_id := pkt_id; f_addr := addr; f_addr_var := addr_var;
          frag_total := wrap 8 ((zlen payload + max_data_size - 1) / max_data_size);
          next_frag_id := 0; next_frag_start := 0; payload := payload;
          max_pkt_size := max_pkt_size; fixed_size := fixed |}.

(* @src clash-lib/src/proxy/hysteria2/codec.rs ~    fn next\(&mut self\)~ Fragments::next *)
Definition fragments_next (f : Fragments) : res (option (list Z) * Fragments) :=
  if next_frag_id f <? frag_total f then
    max_payload_size ← arith oc 64 (max_pkt_size f - fixed_size f);
    e ← arith oc 64 (next_frag_start f + max_payload_size);
    let next_frag_end := Z.min e (zlen (payload f)) in
    part ← zslice (payload f) (next_frag_start f) next_frag_end;
    let frag := be_bytes 4 (f_session_id f) ++ be_bytes 2 (f_pkt_id f) ++ be_bytes 1 (next_frag_id f)
                ++ be_bytes 1 (frag_total f) ++ var_encode (f_addr_var f) ++ f_addr f ++ part in
    id ← arith oc 8 (next_frag_id f + 1);
    Ok (Some frag,
        {| f_session_id := f_session_id f; f_pkt_id := f_pkt_id f; f_addr := f_addr f;
           f_addr_var := f_addr_var f; frag_total := frag_total f; next_frag_id := id;
           next_frag_start := next_frag_end; payload := payload f;
           max_pkt_size := max_pkt_size f; fixed_size := fixed_size f |})
  else Ok (None, f).

(** [for frag in fragments]: the datagrams sent for one packet.  An index of
    eight bits allows at most 255 of them. *)
(* @src clash-lib/src/proxy/hysteria2/mod.rs ~        for frag in fragments \{~ HysteriaConnection::send_packet (loop) *)
Fixpoint fragments_all (fuel : nat) (f : Fragments) : option (res (list (list Z))) :=
  match fuel with
  | O => None
  | S fuel' =>
    match fragments_next f with
    | Ok (None, _) => Some (Ok [])
    | Ok (Some frag, f) =>
      match fragments_all fuel' f with
      | Some (Ok frags) => Some (Ok (frag :: frags))
      | r => r
      end
    | Err e => Some (Err e)
    | Panic => Some Panic
    end
  end.

(** The datagrams of a packet when every one of them is accepted by the
    connection; [mtu] is the configured or negotiated datagram size. *)
(* @src clash-lib/src/proxy/hysteria2/mod.rs ~    pub fn send_packet~ HysteriaConnection::send_packet *)
Definition send_packet (mtu : option Z) (pkt : list Z) (a : SocksAddr) (session_id pkt_id : Z) :
    option (res (list (list Z))) :=
  match mtu with
  | None => Some (Err "hysteria2 udp mtu not set, please check your disable_mtu_discovery and udp_mtu option")
  | Some max_frag_size =>
    match fragments_new session_id pkt_id a max_frag_size pkt with
    | Ok f => fragments_all 256 f
    | Err e => Some (Err e)
    | Panic => Some Panic
    end
  end.

(** ** Reassembly *)
(* @src clash-lib/src/proxy/hysteria2/codec.rs ~^pub struct Defragger~ Defragger *)
Record Defragger : Type := { d_pkt_id : Z; frags : list (option HysUdpPacket); cnt : Z }.
Definition defragger_default : Defragger := {| d_pkt_id := 0; frags := []; cnt := 0 |}.

Fixpoint unwrap_all (l : list (option HysUdpPacket)) : res (list HysUdpPacket) :=
  match l with
  | [] => Ok []
  | x :: l' => x ← or_panic x; l' ← unwrap_all l'; Ok (x :: l')
  end.
Definition whole (pkt0 : HysUdpPacket) (rest : list HysUdpPacket) : HysUdpPacket :=
  {| session_id := session_id pkt0; pkt_id := pkt_id pkt0; frag_id := 0; frag_count := 1;
     addr := addr pkt0; data := data pkt0 ++ (rest ≫= data) |}.

(* @src clash-lib/src/proxy/hysteria2/codec.rs ~    pub fn feed~ Defragger::feed *)
Definition feed (d : Defragger) (pkt : HysUdpPacket) : res (option HysUdpPacket * Defragger) :=
  if frag_count pkt =? 1 then Ok (Some pkt, d)
  else if frag_count pkt <=? frag_id pkt then Ok (None, d)
  else
    let i := Z.to_nat (frag_id pkt) in
    if negb (pkt_id pkt =? d_pkt_id d) || negb (frag_count pkt =? zlen (frags d)) then
      let empty := replicate (Z.to_nat (frag_count pkt)) None in
      Ok (None, {| d_pkt_id := pkt_id pkt; frags := <[i := Some pkt]> empty; cnt := 1 |})
    else
      match frags d !! i with
      | Some None =>
        let frags' := <[i := Some pkt]> (frags d) in
        c ← arith oc 16 (cnt d + 1);
        if c =? zlen frags' then
          pkts ← unwrap_all frags';
          match pkts with
          | [] => Panic
          | pkt0 :: rest => Ok (Some (whole pkt0 rest), {| d_pkt_id := d_pkt_id d; frags := []; cnt := c |})
          end
        else Ok (None, {| d_pkt_id := d_pkt_id d; frags := frags'; cnt := c |})
      | _ => Ok (None, d)
      end.

(** ** Sessions *)
(* @src clash-lib/src/proxy/hysteria2/datagram.rs ~^pub struct UdpSession~ UdpSession *)
Record UdpSession : Type := { local_addr : SocksAddr; defragger : Defragger }.

(** A received datagram: the packet passed to the session it belongs to, if
    one is complete.  A frame that does not decode panics ([unwrap]). *)
(* @src clash-lib/src/proxy/hysteria2/mod.rs ~    pub async fn recv_packet~ HysteriaConnection::recv_packet *)
Definition recv_packet (sessions : gmap Z UdpSession) (pkt : list Z) :
    res (option (Z * UdpPacket) * gmap Z UdpSession) :=
  match udp_decode pkt with
  | Ok pkt =>
    match sessions !! session_id pkt with
    | Some session =>
      '(o, d) ← feed (defragger session) pkt;
      let sessions := <[session_id pkt := {| local_addr := local_addr session; defragger := d |}]> sessions in
      match o with
      | Some p =>
        dst ← socks_clone (local_addr session);
        Ok (Some (session_id pkt, {| up_data := data p; up_src_addr := addr p; up_dst_addr := dst |}), sessions)
      | None => Ok (None, sessions)
      end
    | None => Ok (None, sessions)
    end
  | _ => Panic
  end.

(** The task of a connection: datagrams are handled one after another, a
    panic ends it. *)
(* @src clash-lib/src/proxy/hysteria2/mod.rs ~    async fn spawn_tasks~ HysteriaConnection::spawn_tasks *)
Fixpoint spawn_tasks (sessions : gmap Z UdpSession) (datagrams : list (list Z)) :
    res (list (option (Z * UdpPacket)) * gmap Z UdpSession) :=
  match datagrams with
  | [] => Ok ([], sessions)
  | pkt :: rest =>
    '(o, sessions) ← recv_packet sessions pkt;
    '(os, sessions) ← spawn_tasks sessions rest;
    Ok (o :: os, sessions)
  end.
End codec.

(** ** Salamander *)
(** BLAKE2b with 32 bytes of output. *)
Class Blake2Lib : Type := { blake2b256 : list Z -> list Z }.

Section salamander.
Context {BL : Blake2Lib}.

(* @src clash-lib/src/proxy/hysteria2/salamander.rs ~    pub fn obfs~ SalamanderObfs::obfs *)
Definition obfs (key sale data : list Z) : list Z :=
  let r := blake2b256 (key ++ sale) in
  imap (fun i v => Z.lxor v (default 0 (r !! (i mod 32)%nat))) data.

(** With the random salt. *)
(* @src clash-lib/src/proxy/hysteria2/salamander.rs ~    fn encrypt~ SalamanderObfs::encrypt *)
Definition encrypt (key salt data : list Z) : list Z := salt ++ obfs key salt data.

(* @src clash-lib/src/proxy/hysteria2/salamander.rs ~    fn decrypt~ SalamanderObfs::decrypt *)
Definition decrypt (key data : list Z) : res (list Z) :=
  if zlen data <=? 8 then Panic
  else
    let salt := take 8 data in
    Ok (salt ++ obfs key salt (drop 8 data)).

(** One received buffer of [poll_recv]: obfuscated packets lose their salt,
    packets too short to carry one are passed on as they are. *)
(* @src clash-lib/src/proxy/hysteria2/salamander.rs 113 130 Salamander::poll_recv (packet) *)
Definition recv_one (key buf : list Z) : res (list Z) :=
  if 8 <? zlen buf then x ← decrypt key buf; Ok (drop 8 x) else Ok buf.
End salamander.

(** * Laws of the libraries *)
Class VarIntLaws (VL : VarIntLib) : Prop := {
  var_roundtrip x r : 0 <= x < 2 ^ 62 -> var_decode (var_encode x ++ r) = Some (x, r);
  var_encode_len x : 0 <= x < 2 ^ 62 -> var_size x = Ok (zlen (var_encode x));
  var_decode_len b x r : var_decode b = Some (x, r) -> 0 <= x < 2 ^ 62 /\ zlen r <= zlen b;
}.

(** A reference implementation: two bits for the length, then the value. *)
Definition ref_var_encode (x : Z) : list Z :=
  if x <? 2 ^ 6 then be_bytes 1 x
  else if x <? 2 ^ 14 then be_bytes 2 (x + 2 ^ 14)
  else if x <? 2 ^ 30 then be_bytes 4 (x + 2 * 2 ^ 30)
  else be_bytes 8 (x + 3 * 2 ^ 62).
Definition ref_var_decode (b : list Z) : option (Z * list Z) :=
  match b with
  | [] => None
  | b0 :: _ =>
    let n := (2 ^ Z.to_nat ((b0 / 64) mod 4))%nat in
    if decide (n <= length b)%nat then Some (be_val (take n b) mod 2 ^ (8 * Z.of_nat n - 2), drop n b) else None
  end.
Definition ref_varint : VarIntLib := {| var_encode := ref_var_encode; var_decode := ref_var_decode |}.

Lemma ref_var_decode_be n tag x r :
  n = (2 ^ Z.to_nat tag)%nat -> 0 <= tag < 4 -> 0 <= x < 2 ^ (8 * Z.of_nat n - 2) ->
  ref_var_decode (be_bytes n (x + tag * 2 ^ (8 * Z.of_nat n - 2)) ++ r) = Some (x, r).
Proof.
  intros Hn Ht Hx. set (k := 8 * Z.of_nat n - 2) in *. set (y := x + tag * 2 ^ k).
  assert (0 < n)%nat as Hn0 by (rewrite Hn; apply Nat.neq_0_lt_0, Nat.pow_nonzero; lia).
  assert (2 ^ (8 * Z.of_nat n) = 4 * 2 ^ k) as Hpow.
  { replace (8 * Z.of_nat n) with (2 + k) by lia. rewrite Z.pow_add_r by lia. lia. }
  assert (in_width (8 * Z.of_nat n) y) as Hy by (unfold in_width, y; nia).
  destruct n as [|n']; [lia|]. cbn [be_bytes].
  assert ((wrap 8 (Z.shiftr y (8 * Z.of_nat n')) / 64) mod 4 = tag) as Htag.
  { assert (8 * Z.of_nat n' + 6 = k) as Hk by lia.
    rewrite wrap_small.
    2: { unfold in_width in *. rewrite Z.shiftr_div_pow2 by lia. split; [apply Z.div_pos; lia|].
         apply Z.div_lt_upper_bound; [lia|]. rewrite <- Z.pow_add_r by lia.
         replace (8 * Z.of_nat n' + 8) with (8 * Z.of_nat (S n')) by lia. lia. }
    rewrite Z.shiftr_div_pow2 by lia. change 64 with (2 ^ 6). rewrite Z.div_div by lia.
    rewrite <- Z.pow_add_r by lia. rewrite Hk. unfold y. rewrite Z.div_add by lia.
    rewrite Z.div_small by lia. rewrite Z.add_0_l. by apply Z.mod_small. }
  unfold ref_var_decode. change (wrap 8 (Z.shiftr y (8 * Z.of_nat n')) :: be_bytes n' y) with (be_bytes (S n') y).
  destruct (be_bytes (S n') y ++ r) as [|b0 bs] eqn:E.
  { apply (f_equal length) in E. rewrite length_app, be_bytes_length in E. simpl in E. lia. }
  assert (b0 = wrap 8 (Z.shiftr y (8 * Z.of_nat n'))) as -> by (cbn [be_bytes app] in E; by injection E).
  rewrite Htag, <- Hn, <- E. rewrite decide_True by (rewrite length_app, be_bytes_length; lia).
  rewrite take_app_length', drop_app_length' by by rewrite be_bytes_length.
  rewrite be_val_bytes by done. fold k. unfold y. rewrite Z.mod_add by lia. by rewrite Z.mod_small.
Qed.

Lemma ref_varint_laws : VarIntLaws ref_varint.
Proof.
  split.
  - intros x r Hx. cbn [var_decode var_encode ref_varint]. unfold ref_var_encode.
    destruct (Z.ltb_spec x (2 ^ 6)); [|destruct (Z.ltb_spec x (2 ^ 14)); [|destruct (Z.ltb_spec x (2 ^ 30))]].
    + rewrite <- (Z.add_0_r x) at 1. apply (ref_var_decode_be 1 0); [done|lia|simpl; lia].
    + apply (ref_var_decode_be 2 1); [done|lia|simpl; lia].
    + apply (ref_var_decode_be 4 2); [done|lia|simpl; lia].
    + apply (ref_var_decode_be 8 3); [done|lia|simpl; lia].
  - intros x Hx. cbn [var_encode ref_varint]. unfold ref_var_encode, var_size.
    destruct (Z.ltb_spec x (2 ^ 6)); [done|]. destruct (Z.ltb_spec x (2 ^ 14)); [done|].
    destruct (Z.ltb_spec x (2 ^ 30)); [done|]. by rewrite (proj2 (Z.ltb_lt x (2 ^ 62))) by lia.
  - intros b x r. cbn [var_decode ref_varint]. unfold ref_var_decode. destruct b as [|b0 bs]; [done|].
    set (n := (2 ^ Z.to_nat ((b0 / 64) mod 4))%nat). set (b := b0 :: bs). case_decide; [|done]. intros [= <- <-].
    split; [|unfold zlen; rewrite length_drop; lia].
    pose proof (Z.mod_pos_bound (b0 / 64) 4 ltac:(lia)) as Ht.
    assert (1 <= n <= 8)%nat as Hn.
    { unfold n. set (t := Z.to_nat ((b0 / 64) mod 4)). assert (t < 4)%nat as Ht' by lia. clearbody t.
      destruct t as [|[|[|[|]]]]; simpl; lia. }
    pose proof (Z.mod_pos_bound (be_val (take n b)) (2 ^ (8 * Z.of_nat n - 2)) ltac:(lia)) as Hm.
    pose proof (Z.pow_le_mono_r 2 (8 * Z.of_nat n - 2) 62 ltac:(lia) ltac:(lia)). lia.
Qed.

(** * Addresses *)

(** A well-formed address: a domain is any string of characters. *)
Definition hy2_addr (a : SocksAddr) : Prop :=
  match a with
  | Ip sa => wf_sa sa
  | Domain d p => Forall scalar d /\ u16 p
  end.
(** What the text of [a] is read as: the flow label of an IPv6 address is not
    in it, and a domain whose text is a socket address is read as that. *)
Definition received (a : SocksAddr) : SocksAddr :=
  match a with
  | Ip (SV4 ip p) => Ip (SV4 ip p)
  | Ip (SV6 ip p _ sc) => Ip (SV6 ip p 0 sc)
  | Domain d p => match parse_socket_addr (d ++ 58 :: dec p) with Some sa => Ip sa | None => Domain d p end
  end.

Lemma dec_not_colon p : 0 <= p -> Forall (.≠ 58) (dec p).
Proof. intros. eapply Forall_impl; [by apply dec_digits|]. unfold is_digit. intros; lia. Qed.
Lemma dec_scalar p : 0 <= p -> Forall scalar (dec p).
Proof.
  intros. eapply Forall_impl; [by apply dec_digits|]. unfold is_digit, scalar. intros; lia.
Qed.

Lemma show_ipv4_scalar ip : Forall scalar (show_ipv4 ip).
Proof.
  unfold show_ipv4. destruct (be_bytes_4 ip) as (b0 & b1 & b2 & b3 & -> & H0 & H1 & H2 & H3).
  cbn [map join]. rewrite !Forall_app, ?Forall_singleton.
  split_and!; try (apply dec_scalar; unfold in_width in *; lia); unfold scalar; lia.
Qed.

Lemma show_hex16_scalar z : u16 z -> Forall scalar (show_hex16 z).
Proof.
  intros Hz. destruct (hex16_digits z Hz) as (ds & -> & Hn & _). apply Forall_map. eapply Forall_impl; [exact Hn|]. intros d Hd. cbn.
  unfold scalar. destruct (hex_digit_cases d Hd) as [[? ->]|[? ->]]; lia.
Qed.
Lemma groups_scalar gs : Forall (in_width 16) gs -> Forall scalar (join [58] (map show_hex16 gs)).
Proof.
  induction 1 as [|g gs Hg Hgs IH]; [constructor|]. cbn [map]. destruct (map show_hex16 gs) as [|t ts]; [by apply show_hex16_scalar|].
  change (join [58] (show_hex16 g :: t :: ts)) with (show_hex16 g ++ [58] ++ join [58] (t :: ts)).
  rewrite !Forall_app, Forall_singleton. split_and!; [by apply show_hex16_scalar|unfold scalar; lia|done].
Qed.
Lemma show_ipv6_scalar ip : u128 ip -> Forall scalar (show_ipv6 ip).
Proof.
  intros Hip. unfold show_ipv6. destruct (to_ipv4_mapped ip) as [v4|].
  - apply Forall_app. split; [apply (bool_decide_unpack _); by vm_compute|apply show_ipv4_scalar].
  - destruct (segments_ok ip Hip) as [Hg _]. destruct (zero_span _ _ _ _) as [st len]. destruct (1 <? len)%nat; [|by apply groups_scalar].
    rewrite !Forall_app. split_and!; [by apply groups_scalar, Forall_take|apply (bool_decide_unpack _); by vm_compute|by apply groups_scalar, Forall_drop].
Qed.

(** A text that ends with a port. *)
Lemma to_socksaddr_port host p : Forall scalar host -> u16 p ->
  to_socksaddr (utf8 (host ++ 58 :: dec p)) =
  Ok (match parse_socket_addr (host ++ 58 :: dec p) with Some sa => Ip sa | None => Domain host p end).
Proof.
  intros Hh Hp. unfold to_socksaddr. rewrite from_utf8_utf8.
  2: { rewrite Forall_app, Forall_cons. split_and!; [done|unfold scalar; lia|by apply dec_scalar, Hp]. }
  cbn [ok_or]. rstep. rewrite rsplit_once_app by by apply dec_not_colon, Hp. cbn [ok_or]. rstep.
  rewrite parse_uint_dec by done. cbn [ok_or]. by rstep.
Qed.
Lemma to_socksaddr_text a : hy2_addr a -> to_socksaddr (utf8 (socks_to_string a)) = Ok (received a).
Proof.
  destruct a as [[ip p|ip p f sc]|d p]; cbn [hy2_addr socks_to_string received].
  - intros Hw. pose proof Hw as [Hip Hp]. change (show_socket_addr (SV4 ip p)) with (show_ipv4 ip ++ 58 :: dec p).
    rewrite to_socksaddr_port by (done || apply show_ipv4_scalar).
    change (show_ipv4 ip ++ 58 :: dec p) with (show_socket_addr (SV4 ip p)). by rewrite parse_show_socket_v4.
  - intros Hw. pose proof Hw as (Hip & Hp & _ & Hsc). set (host := [91] ++ show_ipv6 ip ++ (if sc =? 0 then [] else 37 :: dec sc) ++ [93]).
    assert (show_socket_addr (SV6 ip p f sc) = host ++ 58 :: dec p) as E.
    { unfold host. cbn [show_socket_addr]. by rewrite <- !app_assoc. }
    assert (Forall scalar host) as Hh.
    { unfold host. rewrite !Forall_app, !Forall_singleton. split_and!; [unfold scalar; lia|by apply show_ipv6_scalar| |unfold scalar; lia].
      destruct (sc =? 0); [constructor|]. constructor; [unfold scalar; lia|by apply dec_scalar, Hsc]. }
    pose proof (parse_show_socket_v6 ip p f sc Hw) as Ep. rewrite E in Ep. by rewrite E, to_socksaddr_port, Ep.
  - intros [Hd Hp]. by rewrite to_socksaddr_port.
Qed.

Lemma to_socksaddr_no_panic bytes : to_socksaddr bytes <> Panic.
Proof.
  unfold to_socksaddr. destruct (from_utf8 bytes) as [s|]; cbn [ok_or]; rstep; [|done].
  destruct (rsplit_once 58 s) as [[h p]|]; cbn [ok_or]; rstep; [|done].
  by destruct (parse_uint 16 p).
Qed.

(** * Delivery of a packet *)
Section delivery.
Context {VL : VarIntLib} (HVL : VarIntLaws VL) (oc : bool).
Context (a : SocksAddr) (sid pid mtu : Z) (body : list Z).

Definition addr_bytes : list Z := utf8 (socks_to_string a).
Definition header_size : Z := 8 + zlen addr_bytes + zlen (var_encode (zlen addr_bytes)).
Definition chunk_size : Z := mtu - header_size.
Definition frag_num : Z := (zlen body + chunk_size - 1) / chunk_size.

(** The packet fits: the address is one the program makes, a datagram has room for data,
    there are between 1 and 255 fragments and no size overflows. *)
Record sendable : Prop := {
  s_addr : hy2_addr a;
  s_addr_len : zlen addr_bytes < 2 ^ 32;
  s_sid : u32 sid;
  s_pid : u16 pid;
  s_room : 1 <= chunk_size;
  s_num : 1 <= frag_num <= 255;
  s_size : zlen body + mtu < 2 ^ 64;
}.
Context (Hs : sendable).

Definition chunk (i : nat) : list Z := take (Z.to_nat chunk_size) (drop (i * Z.to_nat chunk_size) body).
Definition frame (i : nat) : list Z :=
  be_bytes 4 sid ++ be_bytes 2 pid ++ be_bytes 1 (Z.of_nat i) ++ be_bytes 1 frag_num
  ++ var_encode (zlen addr_bytes) ++ addr_bytes ++ chunk i.
Definition fragment (i : nat) : HysUdpPacket :=
  {| session_id := sid; pkt_id := pid; frag_id := Z.of_nat i; frag_count := frag_num; addr := received a; data := chunk i |}.
Definition fragments_at (i : nat) : Fragments :=
  {| f_session_id := sid; f_pkt_id := pid; f_addr := addr_bytes; f_addr_var := zlen addr_bytes;
     frag_total := frag_num; next_frag_id := Z.of_nat i;
     next_frag_start := Z.min (Z.of_nat i * chunk_size) (zlen body); payload := body;
     max_pkt_size := mtu; fixed_size := header_size |}.
Abbreviation num := (Z.to_nat frag_num).

Lemma addr_len_62 : 0 <= zlen addr_bytes < 2 ^ 62.
Proof. pose proof (s_addr_len Hs). pose proof (zlen_nonneg addr_bytes). lia. Qed.

Lemma frag_num_bounds : (frag_num - 1) * chunk_size < zlen body <= frag_num * chunk_size.
Proof.
  pose proof (s_room Hs). unfold frag_num.
  pose proof (Z.div_mod (zlen body + chunk_size - 1) chunk_size ltac:(lia)).
  pose proof (Z.mod_pos_bound (zlen body + chunk_size - 1) chunk_size ltac:(lia)). nia.
Qed.

Lemma fragments_new_at : fragments_new oc sid pid a mtu body = Ok (fragments_at 0).
Proof.
  pose proof (s_room Hs) as Hr. pose proof (s_size Hs). pose proof (s_num Hs) as Hn.
  pose proof addr_len_62. pose proof (s_addr_len Hs). pose proof (zlen_nonneg body).
  unfold fragments_new. fold addr_bytes. rewrite wrap_small by (unfold in_width; lia).
  rewrite (var_encode_len (zlen addr_bytes)) by done. rstep.
  replace (4 + 2 + 1 + 1 + zlen addr_bytes + zlen (var_encode (zlen addr_bytes))) with header_size
    by (unfold header_size; lia).
  pose proof (zlen_nonneg (var_encode (zlen addr_bytes))).
  assert (0 <= header_size < mtu) by (unfold chunk_size, header_size in *; lia).
  rewrite arith_ok by (unfold in_width; lia). rstep.
  rewrite arith_ok by (unfold in_width; lia). rstep. fold chunk_size.
  rewrite (proj2 (Z.eqb_neq chunk_size 0)) by lia. fold frag_num.
  rewrite (wrap_small 8) by (unfold in_width; lia). unfold fragments_at.
  change (Z.of_nat 0) with 0. rewrite Z.mul_0_l, Z.min_l by lia. done.
Qed.

Lemma fragments_next_at i :
  (i < num)%nat -> fragments_next oc (fragments_at i) = Ok (Some (frame i), fragments_at (S i)).
Proof.
  intros Hi. pose proof (s_room Hs) as Hr. pose proof (s_size Hs). pose proof (s_num Hs) as Hn.
  pose proof frag_num_bounds as Hb. pose proof (zlen_nonneg body).
  unfold fragments_next. cbn [next_frag_id frag_total fragments_at max_pkt_size fixed_size next_frag_start
    payload f_session_id f_pkt_id f_addr_var f_addr].
  rewrite (proj2 (Z.ltb_lt _ _)) by lia.
  assert (Z.of_nat i * chunk_size < zlen body) as Hst by nia. rewrite Z.min_l by lia.
  fold chunk_size. pose proof (zlen_nonneg addr_bytes). pose proof (zlen_nonneg (var_encode (zlen addr_bytes))).
  assert (chunk_size <= mtu) by (unfold chunk_size, header_size; lia).
  rewrite (arith_ok oc 64 chunk_size) by (unfold in_width; lia). rstep.
  rewrite (arith_ok oc 64 (_ + _)) by (unfold in_width; lia). rstep.
  replace (Z.of_nat i * chunk_size + chunk_size) with (Z.of_nat (S i) * chunk_size) by lia.
  rewrite zslice_ok by lia. rstep.
  rewrite arith_ok by (unfold in_width; lia). rstep.
  replace (Z.of_nat i + 1) with (Z.of_nat (S i)) by lia. unfold frame.
  do 4 f_equal. do 6 f_equal. unfold chunk.
  replace (Z.to_nat (Z.of_nat i * chunk_size)) with (i * Z.to_nat chunk_size)%nat by lia.
  destruct (Z.le_gt_cases (Z.of_nat (S i) * chunk_size) (zlen body)).
  - f_equal. lia.
  - unfold zlen in *. rewrite !take_ge by (rewrite length_drop; lia). done.
Qed.

Lemma fragments_all_at fuel i :
  (i <= num)%nat -> (num - i < fuel)%nat ->
  fragments_all oc fuel (fragments_at i) = Some (Ok (frame <$> seq i (num - i))).
Proof.
  revert i. induction fuel as [|fuel IH]; intros i Hi Hf; [lia|]. cbn [fragments_all].
  destruct (decide (i = num)) as [->|].
  - unfold fragments_next. cbn [next_frag_id frag_total fragments_at].
    pose proof (s_num Hs). rewrite (proj2 (Z.ltb_ge _ _)) by lia. by rewrite Nat.sub_diag.
  - rewrite fragments_next_at by lia. rewrite IH by lia.
    replace (num - i)%nat with (S (num - S i)) by lia. done.
Qed.

Lemma send_packet_frames : send_packet oc (Some mtu) body a sid pid = Some (Ok (frame <$> seq 0 num)).
Proof.
  unfold send_packet. rewrite fragments_new_at. pose proof (s_num Hs).
  rewrite fragments_all_at by lia. by rewrite Nat.sub_0_r.
Qed.

Lemma frame_len i : zlen (frame i) <= mtu.
Proof.
  pose proof (s_room Hs). unfold frame, zlen. autorewrite with clash. unfold chunk. rewrite length_take.
  unfold chunk_size, header_size, zlen in *. lia.
Qed.

Lemma udp_decode_frame i : (i < num)%nat -> udp_decode (frame i) = Ok (fragment i).
Proof.
  intros Hi. pose proof (s_num Hs). pose proof (s_sid Hs). pose proof (s_pid Hs). unfold udp_decode.
  rewrite (proj2 (Z.ltb_ge _ _)) by (unfold frame, zlen; autorewrite with clash; lia).
  unfold frame. rewrite get_uint_be by done. rstep. rewrite get_uint_be by done. rstep.
  rewrite get_uint_be by (unfold in_width; lia). rstep. rewrite get_uint_be by (unfold in_width; lia). rstep.
  rewrite var_roundtrip by apply addr_len_62. cbn [ok_or]. rstep.
  unfold split_to. rewrite bool_decide_true by (unfold zlen; rewrite length_app; lia).
  unfold zlen. rewrite Nat2Z.id, take_app_length, drop_app_length. rstep.
  unfold addr_bytes. by rewrite to_socksaddr_text by apply Hs.
Qed.

(** The chunks make up the payload. *)
Lemma chunks_concat k n' : (seq k n' ≫= chunk) = take (n' * Z.to_nat chunk_size) (drop (k * Z.to_nat chunk_size) body).
Proof.
  revert k. induction n' as [|n' IH]; intros k; [done|]. cbn [seq mbind list_bind]. change (list_bind ?A ?B ?f ?l) with (l ≫= f).
  rewrite IH. unfold chunk. set (m := Z.to_nat chunk_size).
  replace (S k * m)%nat with (k * m + m)%nat by lia. rewrite <- drop_drop.
  replace (S n' * m)%nat with (m + n' * m)%nat by lia. by rewrite take_take_drop.
Qed.
Lemma chunks_all : (seq 0 num ≫= chunk) = body.
Proof.
  rewrite chunks_concat, Nat.mul_0_l, drop_0. pose proof frag_num_bounds. pose proof (s_room Hs).
  pose proof (s_num Hs). apply take_ge. unfold zlen in *. nia.
Qed.

(** Reassembly has the fragments [S] of the packet. *)
Record dstate (d : Defragger) (S : gset nat) : Prop := {
  ds_id : d_pkt_id d = pid;
  ds_frags : frags d = (fun i => if decide (i ∈ S) then Some (fragment i) else None) <$> seq 0 num;
  ds_sub : S ⊆ set_seq 0 num;
  ds_cnt : cnt d = Z.of_nat (size S);
}.

Lemma frags_insert (S : gset nat) i :
  (i < num)%nat ->
  <[i := Some (fragment i)]> ((fun j => if decide (j ∈ S) then Some (fragment j) else None) <$> seq 0 num) =
  (fun j => if decide (j ∈ {[i]} ∪ S) then Some (fragment j) else None) <$> seq 0 num.
Proof.
  intros Hi. apply list_eq. intros j. destruct (decide (i = j)) as [<-|Hne].
  - rewrite list_lookup_insert_eq by by rewrite length_fmap, length_seq.
    rewrite list_lookup_fmap, lookup_seq_lt by done. simpl. by rewrite decide_True by set_solver.
  - rewrite list_lookup_insert_ne by done. rewrite !list_lookup_fmap.
    destruct (seq 0 num !! j) as [j'|] eqn:E; [|done]. apply lookup_seq in E as [-> _]. simpl.
    do 2 f_equal. do 2 case_decide; (done || set_solver).
Qed.

Lemma set_seq_size (n : nat) : size (set_seq 0 n : gset nat) = n.
Proof.
  induction n as [|n IH]; [done|]. rewrite set_seq_S_end_union_L, size_union by (rewrite disjoint_singleton_l; intros H%elem_of_set_seq; lia).
  rewrite size_singleton, IH. lia.
Qed.

Lemma feed_first d i :
  (i < num)%nat -> frag_num <> 1 -> d_pkt_id d <> pid \/ zlen (frags d) <> frag_num ->
  exists d', feed oc d (fragment i) = Ok (None, d') /\ dstate d' {[i]}.
Proof.
  intros Hi Hn1 Hfresh. pose proof (s_num Hs). unfold feed. cbn [frag_count frag_id pkt_id fragment].
  rewrite (proj2 (Z.eqb_neq _ _)), (proj2 (Z.leb_gt _ _)) by lia.
  assert (negb (pid =? d_pkt_id d) || negb (frag_num =? zlen (frags d)) = true) as ->.
  { destruct (Z.eqb_spec pid (d_pkt_id d)), (Z.eqb_spec frag_num (zlen (frags d))); simpl; lia || done. }
  eexists. split; [done|]. split; cbn [d_pkt_id frags cnt]; [done| |set_unfold; intros ? ->; lia|by rewrite size_singleton].
  rewrite Nat2Z.id. rewrite <- (right_id_L ∅ (∪) {[i]}), <- (frags_insert ∅ i) by done. f_equal.
  apply list_eq. intros j. rewrite list_lookup_fmap. destruct (decide (j < num)%nat).
  - rewrite lookup_replicate_2, lookup_seq_lt by done. simpl. by rewrite decide_False by set_solver.
  - rewrite lookup_seq_ge by lia. simpl. apply lookup_replicate_None. lia.
Qed.

Lemma feed_known d S i :
  dstate d S -> i ∈ S -> frag_num <> 1 -> feed oc d (fragment i) = Ok (None, d).
Proof.
  intros [H1 H2 H3 H4] Hi Hn1. pose proof (s_num Hs).
  assert (i < num)%nat as Hlt by (apply H3, elem_of_set_seq in Hi; lia).
  unfold feed. cbn [frag_count frag_id pkt_id fragment].
  rewrite (proj2 (Z.eqb_neq _ _)), (proj2 (Z.leb_gt _ _)) by lia.
  rewrite H1, H2, Z.eqb_refl. unfold zlen. rewrite length_fmap, length_seq.
  rewrite Z2Nat.id, Z.eqb_refl, Nat2Z.id by lia. simpl.
  rewrite list_lookup_fmap, lookup_seq_lt by done. simpl. by rewrite decide_True.
Qed.

Lemma unwrap_all_some l : unwrap_all (Some <$> l) = Ok l.
Proof. induction l as [|x l IH]; [done|]. change (Some <$> x :: l) with (Some x :: (Some <$> l)).
  cbn [unwrap_all or_panic]. rstep. by rewrite IH. Qed.

Lemma feed_new d S i :
  dstate d S -> i ∉ S -> (i < num)%nat -> frag_num <> 1 ->
  exists d', feed oc d (fragment i) =
    Ok (if decide ({[i]} ∪ S = set_seq 0 num) then Some (whole (fragment 0) (fragment <$> seq 1 (num - 1))) else None, d')
    /\ ({[i]} ∪ S <> set_seq 0 num -> dstate d' ({[i]} ∪ S)).
Proof.
  intros [H1 H2 H3 H4] Hi Hlt Hn1. pose proof (s_num Hs).
  assert ({[i]} ∪ S ⊆ set_seq 0 num) as Hsub.
  { apply union_subseteq. split; [|done]. apply singleton_subseteq_l, elem_of_set_seq. lia. }
  assert (size ({[i]} ∪ S) = 1 + size S)%nat as Hsz by (rewrite size_union by set_solver; by rewrite size_singleton).
  pose proof (subseteq_size _ _ Hsub) as Hle. rewrite set_seq_size in Hle.
  unfold feed. cbn [frag_count frag_id pkt_id fragment].
  rewrite (proj2 (Z.eqb_neq _ _)), (proj2 (Z.leb_gt _ _)) by lia.
  rewrite H1, H2, Z.eqb_refl. unfold zlen. rewrite !length_fmap, !length_seq.
  rewrite Z2Nat.id, Z.eqb_refl, Nat2Z.id by lia. cbn [negb orb].
  rewrite list_lookup_fmap, lookup_seq_lt by done. simpl. rewrite decide_False by done.
  rewrite frags_insert, H4, arith_ok by (done || (unfold in_width; lia)). rstep.
  rewrite length_fmap, length_seq, Z2Nat.id by lia. case_decide as Hall.
  - assert (size S + 1 = num)%nat by (rewrite <- (set_seq_size num), <- Hall; lia).
    rewrite (proj2 (Z.eqb_eq _ _)) by lia.
    replace ((fun j => if decide (j ∈ {[i]} ∪ S) then Some (fragment j) else None) <$> seq 0 num)
      with (Some <$> (fragment <$> seq 0 num)).
    2: { rewrite <- list_fmap_compose. apply list_fmap_ext. intros k j Hj%lookup_seq. simpl.
         rewrite decide_True; [done|]. rewrite Hall. apply elem_of_set_seq. lia. }
    rewrite unwrap_all_some. rstep. 
    assert (fragment <$> seq 0 num = fragment 0 :: (fragment <$> seq 1 (num - 1))) as ->
      by (destruct num; [lia|by rewrite Nat.sub_1_r]).
    eexists. split; [done|]. by intros [].
  - assert (size S + 1 <> num)%nat.
    { intros Heq. apply Hall. apply set_subseteq_size_eq; [done|]. rewrite set_seq_size. lia. }
    rewrite (proj2 (Z.eqb_neq _ _)) by lia. eexists. split; [done|]. intros _. split; simpl; try done.
    by rewrite Hsz; lia.
Qed.

Lemma whole_body : (0 < num)%nat -> data (whole (fragment 0) (fragment <$> seq 1 (num - 1))) = body.
Proof.
  intros Hn. cbn [whole data fragment]. rewrite <- chunks_all.
  replace num with (S (num - 1)) at 2 by lia. cbn [seq mbind list_bind]. f_equal.
  change (list_bind _ _ chunk ?l) with (l ≫= chunk). by induction (seq 1 (num - 1)) as [|i l IH]; [|cbn; f_equal].
Qed.

Definition deliver (dst : SocksAddr) (p : HysUdpPacket) : Z * UdpPacket :=
  (sid, {| up_data := data p; up_src_addr := addr p; up_dst_addr := dst |}).

Lemma recv_frame sessions s i o d' dst :
  (i < num)%nat -> sessions !! sid = Some s -> feed oc (defragger s) (fragment i) = Ok (o, d') ->
  socks_clone (local_addr s) = Ok dst ->
  recv_packet oc sessions (frame i) =
    Ok (deliver dst <$> o, <[sid := {| local_addr := local_addr s; defragger := d' |}]> sessions).
Proof.
  intros Hi Hsess Hf Hc. unfold recv_packet. rewrite udp_decode_frame by done. cbn [session_id fragment].
  rewrite Hsess, Hf. rstep. destruct o as [p|]; [|done]. by rewrite Hc.
Qed.

Lemma spawn_tasks_app sessions l1 l2 os1 sessions1 os2 sessions2 :
  spawn_tasks oc sessions l1 = Ok (os1, sessions1) -> spawn_tasks oc sessions1 l2 = Ok (os2, sessions2) ->
  spawn_tasks oc sessions (l1 ++ l2) = Ok (os1 ++ os2, sessions2).
Proof.
  revert sessions os1. induction l1 as [|p l1 IH]; intros sessions os1; cbn [spawn_tasks app].
  { by intros [= <- <-] ->. }
  intros ([o s1] & -> & ([os s2] & H1 & [= <- <-])%res_bind_ok)%res_bind_ok H2. rstep.
  by rewrite (IH _ _ H1 H2).
Qed.

(** Fragments that do not complete the packet are kept. *)
Lemma recv_some sessions s (S : gset nat) l dst :
  sessions !! sid = Some s -> socks_clone (local_addr s) = Ok dst -> dstate (defragger s) S -> frag_num <> 1 ->
  Forall (fun i => i < num)%nat l -> S ∪ list_to_set l <> set_seq 0 num ->
  exists sessions' s', spawn_tasks oc sessions (frame <$> l) = Ok (replicate (length l) None, sessions') /\
    sessions' !! sid = Some s' /\ local_addr s' = local_addr s /\ dstate (defragger s') (S ∪ list_to_set l).
Proof.
  intros Hs1 Hc Hd Hn1 Hl. revert sessions s S Hs1 Hc Hd. induction Hl as [|i l Hi Hl IH]; intros sessions s S Hs1 Hc Hd Hne.
  { exists sessions, s. cbn [list_to_set]. by rewrite (right_id_L ∅ (∪)). }
  cbn [list_to_set] in *. rewrite (assoc_L (∪)), (comm_L (∪) S) in Hne. rewrite (assoc_L (∪)), (comm_L (∪) S).
  assert (exists d', feed oc (defragger s) (fragment i) = Ok (None, d') /\ dstate d' ({[i]} ∪ S)) as (d' & Hf & Hd').
  { destruct (decide (i ∈ S)).
    - exists (defragger s). rewrite (feed_known _ _ _ Hd) by done. split; [done|].
      by replace ({[i]} ∪ S) with S by set_solver.
    - destruct (feed_new _ _ _ Hd ltac:(done) Hi Hn1) as (d' & Hf & Hd').
      assert ({[i]} ∪ S <> set_seq 0 num) as Hneq.
      { intros Heq. apply Hne. rewrite Heq, (comm_L (∪)). apply subseteq_union_1_L.
        intros j Hj%elem_of_list_to_set. apply elem_of_set_seq.
        rewrite Forall_forall in Hl. specialize (Hl j Hj). lia. }
      rewrite decide_False in Hf by done. eauto. }
  cbn [fmap list_fmap spawn_tasks]. rewrite (recv_frame _ _ _ _ _ _ Hi Hs1 Hf Hc). rstep.
  destruct (IH (<[sid := {| local_addr := local_addr s; defragger := d' |}]> sessions)
              {| local_addr := local_addr s; defragger := d' |} ({[i]} ∪ S)) as (sessions' & s' & H1 & H2 & H3 & H4);
    [by rewrite lookup_insert_eq|done|done|done|].
  exists sessions', s'. change (list_fmap _ _ frame l) with (frame <$> l). by rewrite H1.
Qed.

(** The packet completes with the first arrival of its last fragment. *)
Lemma recv_last sessions s l last dst :
  sessions !! sid = Some s -> socks_clone (local_addr s) = Ok dst ->
  d_pkt_id (defragger s) <> pid \/ zlen (frags (defragger s)) <> frag_num ->
  Forall (fun i => i < num)%nat l -> (last < num)%nat -> last ∉ l ->
  {[last]} ∪ list_to_set l = (set_seq 0 num : gset nat) ->
  exists sessions', spawn_tasks oc sessions (frame <$> (l ++ [last])) =
    Ok (replicate (length l) None ++
        [Some (sid, {| up_data := body; up_src_addr := received a; up_dst_addr := dst |})], sessions').
Proof.
  intros Hs1 Hc Hfresh Hl Hlast Hnew Hall. pose proof (s_num Hs). rewrite fmap_app.
  destruct (decide (frag_num = 1)) as [Hn|Hn].
  - assert (num = 1%nat) as Hnum by lia. rewrite Hnum in Hl, Hlast.
    assert (last = 0%nat) as -> by lia. destruct l as [|i l].
    2: { apply Forall_cons in Hl as [Hi _]. assert (i = 0%nat) as -> by lia. set_solver. }
    eexists. cbn [fmap list_fmap app spawn_tasks length replicate].
    rewrite (recv_frame _ _ 0 (Some (fragment 0)) (defragger s) dst) by
      (lia || done || (unfold feed; cbn [frag_count fragment]; by rewrite Hn)).
    rstep. cbn [deliver fmap option_fmap option_map data addr fragment]. unfold deliver. cbn [data addr fragment].
    assert (chunk 0 = body) as ->; [|done]. rewrite <- chunks_all, Hnum. symmetry. apply app_nil_r.
  - destruct l as [|i l].
    { assert (size ({[last]} ∪ ∅ : gset nat) = num) as Hsz by (cbn [list_to_set] in Hall; rewrite Hall; apply set_seq_size).
      rewrite (right_id_L ∅ (∪)), size_singleton in Hsz. lia. }
    apply Forall_cons in Hl as [Hi Hl]. apply not_elem_of_cons in Hnew as [Hni Hnl].
    destruct (feed_first (defragger s) i Hi Hn Hfresh) as (d1 & Hf1 & Hd1).
    set (s1 := {| local_addr := local_addr s; defragger := d1 |}). set (sess1 := <[sid := s1]> sessions).
    destruct (recv_some sess1 s1 {[i]} l dst) as (sess2 & s2 & Hr & Hs2 & Hloc & Hd2);
      [by apply lookup_insert_eq|done|done|done|done|..].
    { intros Heq. assert (last ∈ {[i]} ∪ (list_to_set l : gset nat)) by (rewrite Heq; apply elem_of_set_seq; lia). set_solver. }
    destruct (feed_new _ _ last Hd2 ltac:(set_solver) Hlast Hn) as (d3 & Hf3 & _).
    rewrite decide_True in Hf3 by (rewrite <- Hall; cbn [list_to_set]; done).
    eexists. eapply spawn_tasks_app.
    + cbn [fmap list_fmap spawn_tasks]. rewrite (recv_frame _ _ _ _ _ _ Hi Hs1 Hf1 Hc). rstep.
      change (list_fmap _ _ frame l) with (frame <$> l). fold s1 sess1. rewrite Hr. rstep. done.
    + cbn [fmap list_fmap spawn_tasks]. assert (socks_clone (local_addr s2) = Ok dst) as Hc2 by (by rewrite Hloc).
      rewrite (recv_frame _ _ _ _ _ _ Hlast Hs2 Hf3 Hc2). rstep.
      cbn [fmap option_fmap option_map]. unfold deliver. rewrite whole_body by lia. done.
Qed.

Lemma frame_inj i j : (i < num)%nat -> (j < num)%nat -> frame i = frame j -> i = j.
Proof.
  intros Hi Hj E. apply (f_equal udp_decode) in E. rewrite !udp_decode_frame in E by done.
  injection E. lia.
Qed.

Lemma arrived_indices arrived :
  (forall f, f ∈ arrived -> f ∈ (frame <$> seq 0 num)) ->
  exists l, arrived = frame <$> l /\ Forall (fun i => i < num)%nat l.
Proof.
  induction arrived as [|f arrived IH]; intros Hsub.
  { exists []. by split. }
  destruct IH as (l & -> & Hl); [set_solver|].
  assert (f ∈ (frame <$> seq 0 num)) as (i & -> & Hi%elem_of_seq)%list_elem_of_fmap by (apply Hsub; set_solver).
  exists (i :: l). split; [done|]. constructor; [lia|done].
Qed.
End delivery.

(** C34: delivery of a Hysteria2 datagram to any address, IPv4, IPv6 or name.
    A packet that fits in 1 to 255 fragments is sent as that many datagrams,
    none longer than the MTU.  The receiver gives out the packet, whole and
    with its address, exactly when the last missing fragment arrives, in
    whatever order and however often the others were received before, if it
    was not already reassembling a packet with that number and as many
    fragments.  The address travels as text: a name that reads as a socket
    address comes out as that address, and the flow label of an IPv6 address
    is not sent. *)
Theorem hy2_udp_delivery {VL : VarIntLib} (HVL : VarIntLaws VL) (oc : bool)
    (a : SocksAddr) (sid pid mtu : Z) (body : list Z) (Hs : sendable a sid pid mtu body) :
  exists frames, send_packet oc (Some mtu) body a sid pid = Some (Ok frames) /\
    zlen frames = frag_num a mtu body /\ Forall (fun f => zlen f <= mtu) frames /\
    forall sessions s dst arrived last,
      sessions !! sid = Some s -> socks_clone (local_addr s) = Ok dst ->
      d_pkt_id (defragger s) <> pid \/ zlen (Hy2.frags (defragger s)) <> frag_num a mtu body ->
      (forall f, f ∈ arrived ++ [last] <-> f ∈ frames) -> last ∉ arrived ->
      exists sessions', spawn_tasks oc sessions (arrived ++ [last]) =
        Ok (replicate (length arrived) None ++
            [Some (sid, {| up_data := body; up_src_addr := received a; up_dst_addr := dst |})], sessions').
Proof.
  pose proof (s_num _ _ _ _ _ Hs). set (num := Z.to_nat (frag_num a mtu body)).
  exists (frame a sid pid mtu body <$> seq 0 num). split_and!.
  - by apply send_packet_frames.
  - unfold zlen. rewrite length_fmap, length_seq. lia.
  - apply Forall_fmap, Forall_true. intros i. by apply frame_len.
  - intros sessions s dst arrived last Hsess Hc Hfresh Hset Hnew.
    destruct (arrived_indices HVL a sid pid mtu body Hs arrived) as (l & -> & Hl).
    { intros f Hf. apply Hset. set_solver. }
    assert (last ∈ (frame a sid pid mtu body <$> seq 0 num)) as (j & -> & Hj%elem_of_seq)%list_elem_of_fmap
      by (apply Hset; set_solver).
    set (F := frame a sid pid mtu body) in *. rewrite length_fmap.
    change ((F <$> l) ++ [F j]) with ((F <$> l) ++ (F <$> [j])) in *. rewrite <- fmap_app in *.
    apply (recv_last HVL oc a sid pid mtu body Hs sessions s l j dst); try done; [lia| |].
    { intros Hin. apply Hnew. by apply list_elem_of_fmap_2. }
    fold num. apply set_eq. intros i. rewrite elem_of_union, elem_of_singleton, elem_of_list_to_set, elem_of_set_seq.
    split.
    { intros [->|Hi]; [lia|]. rewrite Forall_forall in Hl. specialize (Hl i Hi). fold num in Hl. lia. }
    intros Hi. assert (F i ∈ F <$> (l ++ [j])) as (k & Hk & Hin)%list_elem_of_fmap.
    { apply Hset, list_elem_of_fmap_2, elem_of_seq. lia. }
    assert (k < num)%nat as Hkn.
    { apply elem_of_app in Hin as [Hin| ->%list_elem_of_singleton]; [|lia].
      rewrite Forall_forall in Hl. by apply Hl. }
    apply (frame_inj HVL a sid pid mtu body Hs) in Hk as ->; [|lia|done].
    apply elem_of_app in Hin as [?| ->%list_elem_of_singleton]; auto.
Qed.

Definition demo_dns : SocksAddr := Ip (SV6 1 53 0 0).
Definition demo_sessions : gmap Z UdpSession :=
  {[7 := {| local_addr := any_ipv4; defragger := defragger_default |}]}.
Lemma demo_sendable : sendable (VL := ref_varint) demo_dns 7 9 20 [1; 2; 3; 4; 5; 6; 7].
Proof.
  split; vm_compute; intuition discriminate.
Qed.

Lemma hy2_udp_delivery_witness :
  exists f0 f1 f2,
    send_packet (VL := ref_varint) true (Some 20) [1; 2; 3; 4; 5; 6; 7] demo_dns 7 9 = Some (Ok [f0; f1; f2]) /\
    exists sessions', spawn_tasks (VL := ref_varint) true demo_sessions [f2; f0; f2; f1] =
      Ok ([None; None; None;
           Some (7, {| up_data := [1; 2; 3; 4; 5; 6; 7]; up_src_addr := demo_dns; up_dst_addr := any_ipv4 |})],
          sessions').
Proof.
  destruct (@hy2_udp_delivery ref_varint ref_varint_laws true demo_dns 7 9 20 _ demo_sendable)
    as (frames & Hsend & _ & _ & Hdel).
  vm_compute in Hsend. injection Hsend as <-. do 3 eexists. split; [by vm_compute|].
  match type of Hdel with context [_ ∈ [?f0; ?f1; ?f2]] =>
    apply (Hdel demo_sessions {| local_addr := any_ipv4; defragger := defragger_default |} any_ipv4 [f2; f0; f2] f1)
  end; [done|done|by left|set_solver|].
  apply (bool_decide_unpack _). by vm_compute.
Defined.

(** What a malformed datagram does.  Bytes that are long enough for the
    header panic [HysUdpPacket::decode] exactly when the address length they
    carry exceeds what is left, and the task reading the connection panics
    on every datagram that does not decode. *)
Theorem hy2_bad_datagram_panics {VL : VarIntLib} (HVL : VarIntLaws VL) (oc : bool)
    (sessions : gmap Z UdpSession) (buf : list Z) (Hlen : 8 <= zlen buf) :
  (udp_decode buf = Panic <->
   exists n rest, var_decode (drop 8 buf) = Some (n, rest) /\ zlen rest < n) /\
  (is_ok (udp_decode buf) = false -> recv_packet oc sessions buf = Panic).
Proof.
  split; [|unfold recv_packet; by destruct (udp_decode buf)].
  unfold udp_decode. rewrite (proj2 (Z.ltb_ge _ _)) by lia. unfold zlen in Hlen.
  do 4 (rewrite get_uint_long by (rewrite ?length_drop; lia); rstep). rewrite !drop_drop. cbn [Nat.add].
  destruct (var_decode (drop 8 buf)) as [[n rest]|] eqn:E; cbn [ok_or]; rstep.
  2: { split; [done|]. by intros (n & rest & ? & _). }
  apply var_decode_len in E as [Hn _]. unfold split_to. case_bool_decide as Hb; rstep.
  - split.
    + intros Hp. exfalso. apply (to_socksaddr_no_panic (take (Z.to_nat n) rest)).
      by destruct (to_socksaddr (take (Z.to_nat n) rest)).
    + intros (n' & rest' & ? & ?). simplify_eq. lia.
  - split; [|done]. intros _. exists n, rest. split; [done|]. lia.
Qed.

Lemma hy2_bad_datagram_panics_witness :
  recv_packet (VL := ref_varint) true ∅ [0; 0; 0; 7; 0; 9; 0; 1; 5; 97] = Panic.
Proof.
  apply (@hy2_bad_datagram_panics ref_varint ref_varint_laws true ∅ [0; 0; 0; 7; 0; 9; 0; 1; 5; 97]); by vm_compute.
Defined.

(** * Salamander *)
Section salamander_roundtrip.
Context {BL : Blake2Lib}.

Lemma obfs_involutive key salt d : obfs key salt (obfs key salt d) = d.
Proof.
  unfold obfs. apply list_eq. intros i. rewrite !list_lookup_imap.
  destruct (d !! i) as [v|]; simpl; [|done]. by rewrite Z.lxor_assoc, Z.lxor_nilpotent, Z.lxor_0_r.
Qed.
Lemma obfs_length key salt d : length (obfs key salt d) = length d.
Proof. apply length_imap. Qed.

(** The Salamander layer.  A non-empty packet, obfuscated with any salt
    of eight bytes, is received back unchanged under the same key. *)
Theorem salamander_roundtrip (key salt d : list Z) (Hsalt : length salt = 8%nat) (Hd : d <> []) :
  recv_one key (encrypt key salt d) = Ok d.
Proof.
  unfold recv_one, encrypt, decrypt, zlen. rewrite length_app, obfs_length, Hsalt.
  assert (length d <> 0%nat) by by destruct d.
  rewrite (proj2 (Z.ltb_lt _ _)), (proj2 (Z.leb_gt _ _)) by lia. rstep.
  rewrite take_app_length', drop_app_length', drop_app_length' by done.
  by rewrite obfs_involutive.
Qed.
End salamander_roundtrip.

Lemma salamander_roundtrip_witness :
  recv_one (BL := {| blake2b256 := fun l => l |}) [1; 2]
    (encrypt (BL := {| blake2b256 := fun l => l |}) [1; 2] [1; 2; 3; 4; 5; 6; 7; 8] [42]) = Ok [42].
Proof. by apply (@salamander_roundtrip {| blake2b256 := fun l => l |}). Defined.
