(* ===== verification/ProxyManager.v ===== *)
(** * The latency registry ([app/remote_content_manager/mod.rs])

    What is known of each proxy (alive, the last delays), the URL test that
    feeds it, and the recognition of traffic patterns that tunes the smart
    group.  The steps of a URL test that need the network are a record of
    their outcomes; a [Duration] is its number of nanoseconds. *)

From S2P Require Import Prelude F64 Str Net Session.

(** ** The registry *)

(* @src clash-lib/src/app/remote_content_manager/mod.rs ~^pub struct DelayHistory~ DelayHistory *)
Record DelayHistory : Type := { dh_time : Z; delay : Z }.
(* @src clash-lib/src/app/remote_content_manager/mod.rs ~^struct ProxyState~ ProxyState *)
Record ProxyState : Type := { ps_alive : bool; ps_history : list DelayHistory }.
Definition proxy_state_default : ProxyState := {| ps_alive := false; ps_history := [] |}.

(** The map behind the [RwLock] of a [ProxyManager]. *)
Abbreviation ProxyManager := (gmap str ProxyState).

(** [entry(name).or_default()] followed by a write. *)
Definition update_state (f : ProxyState -> ProxyState) (name : str) (pm : ProxyManager) : ProxyManager :=
  <[name := f (default proxy_state_default (pm !! name))]> pm.

(* @src clash-lib/src/app/remote_content_manager/mod.rs ~    pub async fn alive~ ProxyManager::alive *)
Definition alive (pm : ProxyManager) (name : str) : bool :=
  match pm !! name with Some s => ps_alive s | None => true end.

(* @src clash-lib/src/app/remote_content_manager/mod.rs ~    pub async fn report_alive~ ProxyManager::report_alive *)
Definition report_alive (name : str) (b : bool) (pm : ProxyManager) : ProxyManager :=
  update_state (fun s => {| ps_alive := b; ps_history := ps_history s |}) name pm.

(* @src clash-lib/src/app/remote_content_manager/mod.rs ~    pub async fn delay_history~ ProxyManager::delay_history *)
Definition delay_history (pm : ProxyManager) (name : str) : list DelayHistory :=
  match pm !! name with Some s => ps_history s | None => [] end.

(* @src clash-lib/src/app/remote_content_manager/mod.rs ~    pub async fn last_delay~ ProxyManager::last_delay *)
Definition last_delay (pm : ProxyManager) (name : str) : option Z :=
  if negb (alive pm name) then None else delay <$> last (delay_history pm name).

(* @src clash-lib/src/app/remote_content_manager/mod.rs ~    pub async fn get_packet_loss~ ProxyManager::get_packet_loss *)
Definition get_packet_loss (pm : ProxyManager) (name : str) : option f64 :=
  match delay_history pm name with
  | [] => None
  | history =>
    let failed_count := zlen (filter (fun x => delay x = 0) history) in
    Some (fdiv (f_of_Z failed_count) (f_of_Z (zlen history)))
  end.

(* @src clash-lib/src/app/remote_content_manager/mod.rs ~    pub async fn get_rtt~ ProxyManager::get_rtt *)
Definition get_rtt (pm : ProxyManager) (name : str) : option f64 :=
  match delay_history pm name with
  | [] => None
  | history => Some (fdiv (fsum ((fun x => as_millis_f64 (delay x)) <$> history)) (f_of_Z (zlen history)))
  end.

(** ** URL tests *)

(** What [http::Uri] gives for the URL. *)
Record Uri : Type := { uri_host : option str; uri_port : option Z; uri_scheme : option str }.

(** The outcomes of one test: each stage returns the time it took, or its
    error (a timeout included). *)
Record Probe : Type := {
  pr_uri : option Uri;
  pr_connect : SocksAddr -> option Z;
  pr_valid_sni : str -> bool;
  pr_tls : option Z;
  pr_handshake : bool;
  pr_request : option Z;
}.

(* @src clash-lib/src/app/remote_content_manager/mod.rs ~        let tester = async move~ ProxyManager::url_test (tester) *)
Definition tester (p : Probe) : res (Z * Z) :=
  uri ← ok_or (pr_uri p) "invalid url";
  host ← ok_or (uri_host uri) "no host found";
  default_port ← match uri_scheme uri with
                 | None => Ok 80
                 | Some s => if bool_decide (s = lit "http") then Ok 80
                             else if bool_decide (s = lit "https") then Ok 443
                             else Err "unsupported scheme"
                 end;
  let port := default default_port (uri_port uri) in
  dest ← match try_from_host_port host port with Ok d => Ok d | _ => Panic end;
  connect_delay ← ok_or (pr_connect p dest) "URL test timeout";
  tls_handshake_delay ←
    (if bool_decide (uri_scheme uri = Some (lit "http")) then
       if pr_handshake p then Ok None else Err "failed to handshake"
     else if bool_decide (uri_scheme uri = Some (lit "https")) then
       if negb (pr_valid_sni p host) then Panic
       else
         d ← ok_or (pr_tls p) "deadline has elapsed";
         if pr_handshake p then Ok (Some d) else Err "failed to handshake"
     else Err "unsupported scheme");
  d ← ok_or (pr_request p) "timeout";
  Ok (d, connect_delay + default 0 tls_handshake_delay + d).

(** The two writes a test ends with; the lock is released between them. *)
(* @src clash-lib/src/app/remote_content_manager/mod.rs 855 862 ProxyManager::url_test (history) *)
Definition push_history (name : str) (ins : DelayHistory) (pm : ProxyManager) : ProxyManager :=
  update_state (fun s =>
    let h := ps_history s ++ [ins] in
    {| ps_alive := ps_alive s; ps_history := if 10 <? zlen h then tail h else h |}) name pm.

(* @src clash-lib/src/app/remote_content_manager/mod.rs ~    pub async fn url_test~ ProxyManager::url_test *)
Definition url_test (name : str) (p : Probe) (now : Z) (pm : ProxyManager) : res (Z * Z) * ProxyManager :=
  match tester p with
  | Panic => (Panic, pm)
  | result =>
    let pm := report_alive name (is_ok result) pm in
    let ins := {| dh_time := now; delay := match result with Ok (actual, _) => actual | _ => 0 end |} in
    (result, push_history name ins pm)
  end.

(** The tests of [check], in the order in which they finish. *)
(* @src clash-lib/src/app/remote_content_manager/mod.rs ~    pub async fn check~ ProxyManager::check *)
Fixpoint check (tests : list (str * Probe * Z)) (pm : ProxyManager) : list (res (Z * Z)) * ProxyManager :=
  match tests with
  | [] => ([], pm)
  | (name, p, now) :: tests' =>
    let '(r, pm) := url_test name p now pm in
    let '(rs, pm) := check tests' pm in
    ((match r with Panic => Err "task panicked" | _ => r end) :: rs, pm)
  end.

(** ** Traffic patterns *)

(* @src clash-lib/src/app/remote_content_manager/mod.rs ~^pub enum TrafficPatternType~ TrafficPatternType *)
Inductive TrafficPatternType : Type :=
| WebBrowsing | VideoStreaming | FileDownload | FileUpload | Gaming | VoiceCall | VideoCall
| Messaging | Unknown.
(* @src clash-lib/src/app/remote_content_manager/mod.rs ~^pub struct TrafficPattern ~ TrafficPattern *)
Record TrafficPattern : Type := { pattern_type : TrafficPatternType; confidence : f64 }.

(** [confidence += n / 100] under a condition. *)
Definition bump (b : bool) (n : Z) (c : f64) : f64 := if b then fadd c (flit n 100) else c.
Definition contains_any (words : list string) (host : str) : bool := existsb (fun w => contains (lit w) host) words.

Section patterns.
Context {U : UnicodeLib} (oc : bool).
Definition lower_host (sess : Session) : str := to_lowercase (socks_host (destination sess)).

(** [bytes_uploaded + bytes_downloaded], a [u64]. *)
Definition total_bytes (stats : TrafficStats) : res Z := arith oc 64 (bytes_uploaded stats + bytes_downloaded stats).

(** The share of [part] in all bytes. *)
Definition byte_ratio (part : Z) (stats : TrafficStats) : res f64 :=
  t ← total_bytes stats;
  Ok (if 0 <? t then fdiv (f_of_Z part) (f_of_Z t) else fzero).
Definition up_down_ratio (stats : TrafficStats) : f64 :=
  if 0 <? bytes_downloaded stats then fdiv (f_of_Z (bytes_uploaded stats)) (f_of_Z (bytes_downloaded stats)) else finf.
(** [lo < x && x < hi] *)
Definition fbetween (lo hi x : f64) : bool := fgt x lo && flt x hi.

(* @src clash-lib/src/app/remote_content_manager/mod.rs ~    fn detect_streaming_pattern~ ProxyManager::detect_streaming_pattern *)
Definition detect_streaming_pattern (stats : TrafficStats) (sess : Session) : res TrafficPattern :=
  download_ratio ← byte_ratio (bytes_downloaded stats) stats;
  let duration_secs := as_secs (connection_duration stats) in
  let c := bump (contains_any ["youtube"; "netflix"; "twitch"; "video"; "stream"; "hls"]%string (lower_host sess)) 20 fzero in
  let c := bump (fgt download_ratio (flit 88 100)) 30 c in
  let c := if between 0 60 duration_secs then c
           else if between 61 300 duration_secs then fadd c (flit 10 100)
           else if between 301 1800 duration_secs then fadd c (flit 25 100)
           else fadd c (flit 30 100) in
  let c := bump (fbetween (f_of_Z 500000) (f_of_Z 100000000) (average_throughput stats)) 25 c in
  let c := if fgt (peak_throughput stats) fzero && fgt (average_throughput stats) fzero then
             bump (flt (fdiv (peak_throughput stats) (average_throughput stats)) (f_of_Z 4)) 15 c
           else c in
  Ok {| pattern_type := VideoStreaming; confidence := c |}.

(* @src clash-lib/src/app/remote_content_manager/mod.rs ~    fn detect_download_pattern~ ProxyManager::detect_download_pattern *)
Definition detect_download_pattern (stats : TrafficStats) (sess : Session) : res TrafficPattern :=
  download_ratio ← byte_ratio (bytes_downloaded stats) stats;
  let c := bump (contains_any ["cdn"; "download"; "files"; "github"; "releases"]%string (lower_host sess)) 20 fzero in
  let c := bump (fgt download_ratio (flit 94 100)) 40 c in
  let c := bump (fgt (average_throughput stats) (f_of_Z 5000000)) 30 c in
  let c := if between 10000000 100000000 (bytes_downloaded stats) then fadd c (flit 20 100)
           else if 100000001 <=? bytes_downloaded stats then fadd c (flit 30 100)
           else c in
  Ok {| pattern_type := FileDownload; confidence := c |}.

(* @src clash-lib/src/app/remote_content_manager/mod.rs ~    fn detect_upload_pattern~ ProxyManager::detect_upload_pattern *)
Definition detect_upload_pattern (stats : TrafficStats) (sess : Session) : res TrafficPattern :=
  upload_ratio ← byte_ratio (bytes_uploaded stats) stats;
  let c := bump (contains_any ["upload"; "cloud"; "drive"; "storage"; "backup"]%string (lower_host sess)) 20 fzero in
  let c := bump (fgt upload_ratio (flit 75 100)) 40 c in
  let c := bump (fgt (average_throughput stats) (f_of_Z 2000000)) 30 c in
  let c := bump (20000000 <? bytes_uploaded stats) 30 c in
  Ok {| pattern_type := FileUpload; confidence := c |}.

(* @src clash-lib/src/app/remote_content_manager/mod.rs ~    fn detect_gaming_pattern~ ProxyManager::detect_gaming_pattern *)
Definition detect_gaming_pattern (stats : TrafficStats) (sess : Session) : TrafficPattern :=
  let port := socks_port (destination sess) in
  let c := bump (contains_any ["game"; "steam"; "riot"; "blizzard"; "xbox"; "playstation"]%string (lower_host sess)) 30 fzero in
  let c := bump (between 3478 3480 port || between 27000 28000 port || between 7777 7784 port) 20 c in
  let c := bump (fgt (request_frequency stats) (f_of_Z 20)) 30 c in
  let c := bump (flt (average_throughput stats) (f_of_Z 1000000) && is_bidirectional stats) 30 c in
  let c := bump (600 <? as_secs (connection_duration stats)) 20 c in
  {| pattern_type := Gaming; confidence := c |}.

(* @src clash-lib/src/app/remote_content_manager/mod.rs ~    fn detect_voip_pattern~ ProxyManager::detect_voip_pattern *)
Definition detect_voip_pattern (stats : TrafficStats) (sess : Session) : TrafficPattern :=
  let secs := as_secs (connection_duration stats) in
  let c := bump (contains_any ["skype"; "zoom"; "teams"; "discord"; "webex"; "voip"]%string (lower_host sess)) 30 fzero in
  let c := bump (fbetween (flit 4 10) (flit 25 10) (up_down_ratio stats)) 40 c in
  let c := bump (fbetween (f_of_Z 16000) (f_of_Z 320000) (average_throughput stats)) 30 c in
  let c := if between 60 3600 secs then fadd c (flit 30 100)
           else if 3601 <=? secs then fadd c (flit 20 100)
           else c in
  {| pattern_type := VoiceCall; confidence := c |}.

(* @src clash-lib/src/app/remote_content_manager/mod.rs ~    fn detect_video_call_pattern~ ProxyManager::detect_video_call_pattern *)
Definition detect_video_call_pattern (stats : TrafficStats) (sess : Session) : TrafficPattern :=
  let c := bump (contains_any ["zoom"; "teams"; "meet"; "webex"; "facetime"; "hangouts"]%string (lower_host sess)) 30 fzero in
  let c := bump (fbetween (flit 2 10) (f_of_Z 5) (up_down_ratio stats)) 30 c in
  let c := bump (fbetween (f_of_Z 200000) (f_of_Z 15000000) (average_throughput stats)) 40 c in
  let c := bump (120 <? as_secs (connection_duration stats)) 30 c in
  {| pattern_type := VideoCall; confidence := c |}.

(* @src clash-lib/src/app/remote_content_manager/mod.rs ~    fn detect_web_browsing_pattern~ ProxyManager::detect_web_browsing_pattern *)
Definition detect_web_browsing_pattern (stats : TrafficStats) (sess : Session) : res TrafficPattern :=
  let port := socks_port (destination sess) in
  let host := lower_host sess in
  let c := bump ((port =? 80) || (port =? 443)) 40 fzero in
  let c := bump (contains_any ["www"; "com"; "org"; "net"]%string host || ends_with (lit ".io") host) 10 c in
  download_ratio ← byte_ratio (bytes_downloaded stats) stats;
  let c := bump (fbetween (flit 65 100) (flit 93 100) download_ratio) 30 c in
  let c := bump (fbetween (f_of_Z 50000) (f_of_Z 8000000) (average_throughput stats)) 20 c in
  let c := bump (as_secs (connection_duration stats) <? 1800) 10 c in
  Ok {| pattern_type := WebBrowsing; confidence := c |}.

(* @src clash-lib/src/app/remote_content_manager/mod.rs ~    fn detect_messaging_pattern~ ProxyManager::detect_messaging_pattern *)
Definition detect_messaging_pattern (stats : TrafficStats) (sess : Session) : res TrafficPattern :=
  let c := bump (contains_any ["whatsapp"; "telegram"; "signal"; "messenger"; "slack"; "discord"]%string (lower_host sess)) 30 fzero in
  let c := bump (flt (average_throughput stats) (f_of_Z 100000)) 40 c in
  small ← (if is_bidirectional stats then t ← total_bytes stats; Ok (t <? 5000000) else Ok false);
  let c := bump small 30 c in
  let c := bump (300 <? as_secs (connection_duration stats)) 30 c in
  Ok {| pattern_type := Messaging; confidence := c |}.

(** [Iterator::max_by] on the confidence: of equals the last one wins. *)
Definition max_pattern (l : list TrafficPattern) : option TrafficPattern :=
  match l with
  | [] => None
  | p :: l =>
    Some (foldl (fun a b => match fcmp_or_eq (confidence a) (confidence b) with Gt => a | _ => b end) p l)
  end.

(* @src clash-lib/src/app/remote_content_manager/mod.rs ~    pub async fn analyze_traffic_pattern~ ProxyManager::analyze_traffic_pattern *)
Definition analyze_traffic_pattern (stats : TrafficStats) (sess : Session) : res TrafficPattern :=
  t ← total_bytes stats;
  if t <? 1024 then Ok {| pattern_type := Unknown; confidence := flit 1 10 |}
  else
    streaming ← detect_streaming_pattern stats sess;
    download ← detect_download_pattern stats sess;
    upload ← detect_upload_pattern stats sess;
    let gaming := detect_gaming_pattern stats sess in
    let voip := detect_voip_pattern stats sess in
    let video := detect_video_call_pattern stats sess in
    web ← detect_web_browsing_pattern stats sess;
    messaging ← detect_messaging_pattern stats sess;
    Ok (default {| pattern_type := Unknown; confidence := fzero |}
          (max_pattern [streaming; download; upload; gaming; voip; video; web; messaging])).

(* @src clash-lib/src/app/remote_content_manager/mod.rs ~    fn calculate_data_size_factor~ ProxyManager::calculate_data_size_factor *)
Definition calculate_data_size_factor (stats : TrafficStats) : res f64 :=
  t ← total_bytes stats;
  Ok (if between 0 1000000 t then f_of_Z 1
      else if between 1000001 100000000 t then flit 12 10
      else if between 100000001 1000000000 t then flit 15 10
      else f_of_Z 2).

(** ** Tuning *)
(* @src clash-lib/src/app/remote_content_manager/mod.rs ~^pub struct SiteTuning~ SiteTuning *)
Record SiteTuning : Type := {
  delay_weight : option f64; packet_loss_weight : option f64; rtt_weight : option f64; alive_penalty : option f64;
}.
Definition site_tuning_default : SiteTuning :=
  {| delay_weight := None; packet_loss_weight := None; rtt_weight := None; alive_penalty := None |}.
(** Weights in tenths, the loss weight and the penalty as integers. *)
Definition weights (d l r a : Z) : SiteTuning :=
  {| delay_weight := Some (flit d 10); packet_loss_weight := Some (f_of_Z l);
     rtt_weight := Some (flit r 10); alive_penalty := Some (f_of_Z a) |}.

(* @src clash-lib/src/app/remote_content_manager/mod.rs ~    fn get_fallback_tuning~ ProxyManager::get_fallback_tuning *)
Definition get_fallback_tuning (sess : Session) : SiteTuning :=
  let port := socks_port (destination sess) in
  if bool_decide (network sess = Udp) then weights 3 3000 3 15000
  else if (port =? 80) || (port =? 443) then weights 7 2000 7 8000
  else if bool_decide (port ∈ [21; 22; 115; 989; 990]) then weights 12 1000 12 5000
  else site_tuning_default.

(* @src clash-lib/src/app/remote_content_manager/mod.rs ~    pub async fn get_site_tuning~ ProxyManager::get_site_tuning *)
Definition get_site_tuning (sess : Session) : res SiteTuning :=
  match traffic_stats sess with
  | Some stats =>
    pattern ← analyze_traffic_pattern stats sess;
    if fgt (confidence pattern) (flit 6 10) then
      let tuning := match pattern_type pattern with
                    | Gaming => weights 1 8000 1 20000
                    | VoiceCall => weights 2 6000 2 15000
                    | VideoCall => weights 4 5000 3 12000
                    | VideoStreaming => weights 5 4000 4 10000
                    | WebBrowsing => weights 6 2000 5 6000
                    | Messaging => weights 8 1500 4 5000
                    | FileUpload => weights 12 800 8 4000
                    | FileDownload => weights 15 500 10 3000
                    | Unknown => get_fallback_tuning sess
                    end in
      data_size_factor ← calculate_data_size_factor stats;
      Ok {| delay_weight := (fun w => fmul w data_size_factor) <$> delay_weight tuning;
            packet_loss_weight := packet_loss_weight tuning; rtt_weight := rtt_weight tuning;
            alive_penalty := alive_penalty tuning |}
    else Ok (get_fallback_tuning sess)
  | None => Ok (get_fallback_tuning sess)
  end.
End patterns.

(** * The registry *)

Definition last_ten {A} (l : list A) : list A := drop (length l - 10) l.

Lemma push_keep {A} (l : list A) x :
  (length l <= 10)%nat -> (if 10 <? zlen (l ++ [x]) then tail (l ++ [x]) else l ++ [x]) = last_ten (l ++ [x]).
Proof.
  intros Hl. unfold last_ten, zlen. rewrite length_app. cbn [length].
  destruct (Z.ltb_spec 10 (Z.of_nat (length l + 1))).
  - replace (length l + 1 - 10)%nat with 1%nat by lia. by destruct l.
  - by replace (length l + 1 - 10)%nat with 0%nat by lia.
Qed.

Lemma last_ten_last {A} (l : list A) x : last (last_ten (l ++ [x])) = Some x.
Proof.
  unfold last_ten. rewrite length_app. cbn [length]. rewrite drop_app_le by lia. apply last_snoc.
Qed.
Lemma last_ten_len {A} (l : list A) : (length (last_ten l) <= 10)%nat.
Proof. unfold last_ten. rewrite length_drop. lia. Qed.

(** The writes to the registry, as each holder of the lock does them. *)
Inductive write : Type := WAlive (name : str) (b : bool) | WPush (name : str) (ins : DelayHistory).
Definition target (w : write) : str := match w with WAlive n _ => n | WPush n _ => n end.
Definition apply (pm : ProxyManager) (w : write) : ProxyManager :=
  match w with WAlive n b => report_alive n b pm | WPush n ins => push_history n ins pm end.
Definition run (ws : list write) (pm : ProxyManager) : ProxyManager := foldl apply pm ws.

Lemma update_state_eq f name pm :
  update_state f name pm !! name = Some (f (default proxy_state_default (pm !! name))).
Proof. apply lookup_insert_eq. Qed.
Lemma update_state_ne f name n pm : n <> name -> update_state f name pm !! n = pm !! n.
Proof. intros. by apply lookup_insert_ne. Qed.

Definition bounded (pm : ProxyManager) : Prop := forall n s, pm !! n = Some s -> (length (ps_history s) <= 10)%nat.

Lemma bounded_default pm n : bounded pm -> (length (ps_history (default proxy_state_default (pm !! n))) <= 10)%nat.
Proof. intros Hb. destruct (pm !! n) eqn:E; simpl; [by eapply Hb|lia]. Qed.
Lemma history_default pm n : ps_history (default proxy_state_default (pm !! n)) = delay_history pm n.
Proof. unfold delay_history. by destruct (pm !! n). Qed.

Lemma apply_bounded pm w : bounded pm -> bounded (apply pm w).
Proof.
  intros Hb n s. pose proof (bounded_default pm (target w) Hb) as Hd.
  destruct (decide (n = target w)) as [->|Hne].
  - destruct w as [m b|m ins]; cbn [apply target] in *; unfold report_alive, push_history;
      rewrite update_state_eq; intros [= <-]; cbn [ps_history]; [done|].
    rewrite push_keep by done. apply last_ten_len.
  - destruct w; cbn [apply target] in *; unfold report_alive, push_history; rewrite update_state_ne by done; apply Hb.
Qed.
Lemma run_bounded ws pm : bounded pm -> bounded (run ws pm).
Proof. revert pm. induction ws; intros pm Hb; [done|]. by apply IHws, apply_bounded. Qed.
Lemma run_app ws1 ws2 pm : run (ws1 ++ ws2) pm = run ws2 (run ws1 pm).
Proof. apply foldl_app. Qed.

(** Only the writes to a name matter for it. *)
Definition at_name (n : str) (ws : list write) : list write := filter (fun w => target w = n) ws.

Lemma apply_local pm1 pm2 w n : pm1 !! n = pm2 !! n -> target w = n -> apply pm1 w !! n = apply pm2 w !! n.
Proof.
  intros He <-. destruct w; cbn [apply target] in *; unfold report_alive, push_history;
    rewrite !update_state_eq; by rewrite He.
Qed.
Lemma apply_other pm w n : target w <> n -> apply pm w !! n = pm !! n.
Proof. intros. destruct w; cbn [apply target] in *; apply update_state_ne; congruence. Qed.

Lemma run_local ws pm1 pm2 n : pm1 !! n = pm2 !! n -> run ws pm1 !! n = run (at_name n ws) pm2 !! n.
Proof.
  revert pm1 pm2. induction ws as [|w ws IH]; intros pm1 pm2 He; [done|]. unfold at_name in *.
  cbn [run foldl]. destruct (decide (target w = n)).
  - rewrite filter_cons_True by done. apply IH. by apply apply_local.
  - rewrite filter_cons_False by done. apply IH. by rewrite apply_other.
Qed.

Lemma run_same_writes ws1 ws2 pm : (forall n, at_name n ws1 = at_name n ws2) -> run ws1 pm = run ws2 pm.
Proof. intros Heq. apply map_eq. intros n. rewrite (run_local ws1 pm pm n), (run_local ws2 pm pm n) by done. by rewrite Heq. Qed.

(** The writes of a finished test. *)
Definition test_delay (r : res (Z * Z)) : Z := match r with Ok (actual, _) => actual | _ => 0 end.
Definition test_writes (t : str * Probe * Z) : list write :=
  let '(name, p, now) := t in
  match tester p with
  | Panic => []
  | r => [WAlive name (is_ok r); WPush name {| dh_time := now; delay := test_delay r |}]
  end.

Lemma url_test_writes name p now pm : (url_test name p now pm).2 = run (test_writes (name, p, now)) pm.
Proof. unfold url_test, test_writes. by destruct (tester p) as [[]| |]. Qed.
Lemma check_writes tests pm : (check tests pm).2 = run (tests ≫= test_writes) pm.
Proof.
  revert pm. induction tests as [|[[name p] now] tests IH]; intros pm; [done|]. cbn [check].
  pose proof (url_test_writes name p now pm) as Hu. destruct (url_test name p now pm) as [r pm1]. cbn [snd] in Hu.
  specialize (IH pm1). destruct (check tests pm1) as [rs pm2]. cbn [snd] in *. rewrite IH, Hu.
  change (((name, p, now) :: tests) ≫= test_writes) with (test_writes (name, p, now) ++ (tests ≫= test_writes)).
  by rewrite run_app.
Qed.

(** A URL test and the registry.  A test that does not panic leaves the
    proxy alive exactly if it succeeded, adds its delay (0 for a failure) at
    the end of the history, of which the last ten entries are kept, makes
    the last delay its own or none, and touches no other proxy. *)
Theorem url_test_spec (name : str) (p : Probe) (now : Z) (pm : ProxyManager)
    (Hb : bounded pm) (Hp : tester p <> Panic) :
  let pm' := (url_test name p now pm).2 in
  let r := tester p in
  (url_test name p now pm).1 = r /\ bounded pm' /\ alive pm' name = is_ok r /\
  delay_history pm' name = last_ten (delay_history pm name ++ [{| dh_time := now; delay := test_delay r |}]) /\
  last_delay pm' name = (if is_ok r then Some (test_delay r) else None) /\
  forall n, n <> name -> pm' !! n = pm !! n.
Proof.
  intros pm' r. assert ((url_test name p now pm).1 = r) as H1.
  { unfold url_test, r. by destruct (tester p) as [[]| |]. }
  set (ins := {| dh_time := now; delay := test_delay r |}).
  assert (pm' = push_history name ins (report_alive name (is_ok r) pm)) as Hpm.
  { unfold pm'. rewrite url_test_writes. unfold test_writes, ins, r. by destruct (tester p) as [[]| |]. }
  assert (pm' !! name = Some {| ps_alive := is_ok r; ps_history := last_ten (delay_history pm name ++ [ins]) |}) as Hn.
  { rewrite Hpm. unfold push_history. rewrite update_state_eq. unfold report_alive. rewrite update_state_eq.
    cbn [from_option id ps_alive ps_history]. rewrite history_default, push_keep; [done|].
    rewrite <- history_default. by apply bounded_default. }
  split_and!; [done| | | | |].
  - rewrite Hpm. apply (run_bounded [WAlive name (is_ok r); WPush name ins] pm Hb).
  - unfold alive. by rewrite Hn.
  - unfold delay_history at 1. by rewrite Hn.
  - unfold last_delay, alive, delay_history at 1. rewrite Hn. cbn [ps_alive ps_history].
    destruct (is_ok r); [|done]. simpl. by rewrite last_ten_last.
  - intros n Hne. rewrite Hpm. unfold push_history, report_alive. by rewrite !update_state_ne.
Qed.

Definition probe_ok (d : Z) : Probe := {|
  pr_uri := Some {| uri_host := Some (lit "www.gstatic.com"); uri_port := None; uri_scheme := Some (lit "http") |};
  pr_connect := fun _ => Some 5; pr_valid_sni := fun _ => true; pr_tls := None; pr_handshake := true;
  pr_request := Some d |}.
Definition probe_timeout : Probe := {|
  pr_uri := Some {| uri_host := Some (lit "www.gstatic.com"); uri_port := None; uri_scheme := Some (lit "http") |};
  pr_connect := fun _ => None; pr_valid_sni := fun _ => true; pr_tls := None; pr_handshake := true;
  pr_request := None |}.

Lemma bounded_empty : bounded ∅.
Proof. intros n s. by rewrite lookup_empty. Qed.

Lemma url_test_spec_witness : last_delay (url_test (lit "ss") (probe_ok 80) 1 ∅).2 (lit "ss") = Some 80.
Proof. apply (url_test_spec (lit "ss") (probe_ok 80) 1 ∅ bounded_empty). by vm_compute. Defined.

(** Interleavings of concurrent tests, which run in tasks of their own. *)
Inductive interleave : list (list write) -> list write -> Prop :=
| interleave_done ls : Forall (fun l => l = []) ls -> interleave ls []
| interleave_step l1 w l l2 ws : interleave (l1 ++ l :: l2) ws -> interleave (l1 ++ (w :: l) :: l2) (w :: ws).

Definition owned (l : list write) (n : str) : Prop := Forall (fun w => target w = n) l.

Lemma at_name_other l n m : owned l m -> n <> m -> at_name n l = [].
Proof. induction 1 as [|w l <- _ IH]; intros Hne; [done|]. unfold at_name. rewrite filter_cons_False by done. by apply IH. Qed.
Lemma at_name_app n l1 l2 : at_name n (l1 ++ l2) = at_name n l1 ++ at_name n l2.
Proof. apply filter_app. Qed.
Lemma at_name_concat_other ls names n : Forall2 owned ls names -> n ∉ names -> at_name n (concat ls) = [].
Proof.
  induction 1 as [|l m ls names Ho _ IH]; intros Hn; [done|]. apply not_elem_of_cons in Hn as [Hne Hn].
  cbn [concat]. rewrite at_name_app, (at_name_other l n m) by done. by apply IH.
Qed.

Lemma interleave_at_name ls ws names n :
  interleave ls ws -> Forall2 owned ls names -> NoDup names -> at_name n ws = at_name n (concat ls).
Proof.
  intros Hi. revert names. induction Hi as [ls Hl|l1 w l l2 ws Hi IH]; intros names Ho Hnd.
  - assert (concat ls = []) as ->; [|done]. clear Ho. by induction Hl as [|l ls -> _ IH].
  - apply Forall2_app_inv_l in Ho as (n1 & n2' & Ho1 & Ho2 & ->).
    apply Forall2_cons_inv_l in Ho2 as (m & n2 & Hom & Ho2 & ->). apply Forall_cons in Hom as [<- Hom].
    assert (at_name n ws = at_name n (concat (l1 ++ l :: l2))) as IH'.
    { apply (IH (n1 ++ target w :: n2)); [|done]. apply Forall2_app; [done|by constructor]. }
    rewrite concat_app in *. cbn [concat app] in *. rewrite at_name_app in *.
    apply NoDup_app in Hnd as (_ & Hd & _). destruct (decide (target w = n)) as [<-|Hne].
    + assert (at_name (target w) (concat l1) = []) as H1.
      { apply (at_name_concat_other _ n1); [done|]. intros Hin. apply (Hd _ Hin). set_solver. }
      rewrite H1 in *. unfold at_name. rewrite !filter_cons_True by done. cbn [app] in *. f_equal. exact IH'.
    + unfold at_name at 1 3. rewrite !filter_cons_False by done. exact IH'.
Qed.

Lemma test_writes_owned t : owned (test_writes t) t.1.1.
Proof. destruct t as [[name p] now]. unfold test_writes, owned. destruct (tester p) as [[]| |]; repeat constructor. Qed.

(** C40: concurrent tests of one round.  The tests that [check] spawns write
    the registry in two steps each, interleaved in any way; for distinct
    proxies the registry ends as if they had run one after another. *)
Theorem check_interleaving (tests : list (str * Probe * Z)) (ws : list write) (pm : ProxyManager)
    (Hn : NoDup ((fun t => t.1.1) <$> tests)) (Hi : interleave (test_writes <$> tests) ws) :
  run ws pm = (check tests pm).2.
Proof.
  rewrite check_writes. apply run_same_writes. intros n.
  rewrite (interleave_at_name _ _ ((fun t => t.1.1) <$> tests) n Hi); [|..|done].
  - f_equal. clear. induction tests as [|t tests IH]; [done|]. cbn. by rewrite IH.
  - apply Forall2_fmap, Forall_Forall2_diag, Forall_true. intros t. apply test_writes_owned.
Qed.

Lemma check_interleaving_witness :
  run [WAlive (lit "b") false; WAlive (lit "a") true; WPush (lit "a") {| dh_time := 1; delay := 80 |};
       WPush (lit "b") {| dh_time := 2; delay := 0 |}] ∅ =
  (check [(lit "a", probe_ok 80, 1); (lit "b", probe_timeout, 2)] ∅).2.
Proof.
  apply (check_interleaving [(lit "a", probe_ok 80, 1); (lit "b", probe_timeout, 2)]).
  - apply (bool_decide_unpack _). by vm_compute.
  - change (test_writes <$> _) with
      [[WAlive (lit "a") true; WPush (lit "a") {| dh_time := 1; delay := 80 |}];
       [WAlive (lit "b") false; WPush (lit "b") {| dh_time := 2; delay := 0 |}]].
    apply (interleave_step [_] _ _ []). cbn [app]. apply (interleave_step [] _ _ [_]). cbn [app].
    apply (interleave_step [] _ _ [_]). cbn [app]. apply (interleave_step [_] _ _ []). cbn [app].
    repeat constructor.
Defined.

(** * Traffic patterns *)
Section pattern_facts.
Context {U : UnicodeLib} (oc : bool).

(** [q] is what one of the eight detectors finds. *)
Definition detected (stats : TrafficStats) (sess : Session) (q : TrafficPattern) : Prop :=
  detect_streaming_pattern oc stats sess = Ok q \/ detect_download_pattern oc stats sess = Ok q \/
  detect_upload_pattern oc stats sess = Ok q \/ detect_gaming_pattern stats sess = q \/
  detect_voip_pattern stats sess = q \/ detect_video_call_pattern stats sess = q \/
  detect_web_browsing_pattern oc stats sess = Ok q \/ detect_messaging_pattern oc stats sess = Ok q.

(** A confidence is a number between 0 and 1.3. *)
Definition conf_ok (c : f64) : bool := negb (is_nan c) && negb (flt c fzero) && negb (fgt c (flit 13 10)).

Ltac by_flags :=
  repeat match goal with
  | |- context [bump ?b _ _] => destruct b; cbn [bump]
  | |- context [if ?b then _ else _] => destruct b
  end; by vm_compute.

Lemma detected_conf stats sess q : detected stats sess q -> conf_ok (confidence q) = true.
Proof.
  intros [H|[H|[H|[<-|[<-|[<-|[H|H]]]]]]].
  1,2,3,7: unfold detect_streaming_pattern, detect_download_pattern, detect_upload_pattern, detect_web_browsing_pattern in H;
    apply res_bind_ok in H as (r & _ & [= <-]); cbn [confidence]; by_flags.
  1,2,3: unfold detect_gaming_pattern, detect_voip_pattern, detect_video_call_pattern; cbn [confidence]; by_flags.
  unfold detect_messaging_pattern in H. apply res_bind_ok in H as (r & _ & [= <-]). cbn [confidence]. by_flags.
Qed.

Lemma max_pattern_spec p l :
  Forall (fun q => is_nan (confidence q) = false) (p :: l) ->
  exists r, max_pattern (p :: l) = Some r /\ r ∈ p :: l /\
    Forall (fun q => flt (confidence r) (confidence q) = false) (p :: l).
Proof.
  cbn [max_pattern]. revert p. induction l as [|q l IH]; intros p Hn.
  { exists p. apply Forall_cons in Hn as [Hp _]. split_and!; [done|set_solver|].
    constructor; [|constructor]. apply flt_false_key; [done..|]. unfold klt. lia. }
  apply Forall_cons in Hn as [Hp Hn]. apply Forall_cons in Hn as [Hq Hn]. cbn [foldl].
  set (b := match fcmp_or_eq (confidence p) (confidence q) with Gt => p | _ => q end).
  assert (is_nan (confidence b) = false /\ b ∈ [p; q] /\ ~ klt (fkey (confidence b)) (fkey (confidence p)) /\
    ~ klt (fkey (confidence b)) (fkey (confidence q))) as (Hb & Hbin & Hbp & Hbq).
  { unfold b, fcmp_or_eq. rewrite SFcompare_key by done. cbn [from_option id].
    destruct (kcmp_spec (fkey (confidence p)) (fkey (confidence q))) as [E|E|E]; unfold klt in *;
      (split_and!; [done|set_solver|try rewrite E; lia..]). }
  destruct (IH b) as (r & -> & Hin & Hall); [by constructor|]. exists r.
  assert (is_nan (confidence r) = false) as Hr.
  { apply elem_of_cons in Hin as [->|Hin]; [done|]. rewrite Forall_forall in Hn. by apply Hn. }
  apply Forall_cons in Hall as [Hrb Hall]. split_and!; [done|set_solver|].
  rewrite flt_false_key in Hrb by done. unfold klt in *.
  repeat (constructor; [apply flt_false_key; [done..|unfold klt; lia]|]). done.
Qed.

(** The traffic pattern of a session with at least 1024 bytes is the
    finding of one of the detectors, none of them is more confident, and its
    confidence is a number between 0 and 1.3. *)
Theorem traffic_pattern_best (stats : TrafficStats) (sess : Session) (p : TrafficPattern)
    (Hbig : 1024 <= bytes_uploaded stats + bytes_downloaded stats < 2 ^ 64)
    (Hp : analyze_traffic_pattern oc stats sess = Ok p) :
  detected stats sess p /\ conf_ok (confidence p) = true /\
  forall q, detected stats sess q -> fgt (confidence q) (confidence p) = false.
Proof.
  unfold analyze_traffic_pattern, total_bytes in Hp. rewrite arith_ok in Hp by (unfold in_width; lia).
  cbn [mbind res_mbind res_bind] in Hp. rewrite (proj2 (Z.ltb_ge _ _)) in Hp by lia.
  apply res_bind_ok in Hp as (q1 & H1 & Hp). apply res_bind_ok in Hp as (q2 & H2 & Hp).
  apply res_bind_ok in Hp as (q3 & H3 & Hp). apply res_bind_ok in Hp as (q7 & H7 & Hp).
  apply res_bind_ok in Hp as (q8 & H8 & Hp). set (l := [q2; q3; _; _; _; q7; q8]) in Hp.
  assert (forall q, q ∈ q1 :: l <-> detected stats sess q) as Hl.
  { intros q. unfold l, detected. rewrite H1, H2, H3, H7, H8, !elem_of_cons, elem_of_nil.
    rewrite !(inj_iff Ok). rewrite (eq_comm q q1), (eq_comm q q2), (eq_comm q q3), (eq_comm q q7), (eq_comm q q8).
    rewrite (eq_comm q (detect_gaming_pattern _ _)), (eq_comm q (detect_voip_pattern _ _)), (eq_comm q (detect_video_call_pattern _ _)).
    clear. tauto. }
  destruct (max_pattern_spec q1 l) as (r & Hr & Hin & Hall).
  { apply Forall_forall. intros q Hq%Hl%detected_conf. unfold conf_ok in Hq. by destruct (is_nan _). }
  rewrite Hr in Hp. injection Hp as ->. apply Hl in Hin as Hd. split_and!; [done|by eapply detected_conf|].
  intros q Hq%Hl. rewrite Forall_forall in Hall. by apply Hall.
Qed.
End pattern_facts.

Definition ascii_lower : UnicodeLib := {| to_lowercase := to_ascii_lowercase; to_uppercase := to_ascii_uppercase |}.
Definition call_stats : TrafficStats := {|
  bytes_uploaded := 4000000; bytes_downloaded := 4000000; connection_duration := 600 * 10 ^ 9;
  average_throughput := f_of_Z 100000; peak_throughput := f_of_Z 120000; request_frequency := fzero;
  is_bidirectional := true |}.
Definition call_session : Session := set_destination (Domain (lit "Zoom.us") 8801) (session_default 0 0).1.

Lemma traffic_pattern_best_witness :
  fgt (confidence (detect_gaming_pattern (U := ascii_lower) call_stats call_session))
      (confidence (detect_voip_pattern (U := ascii_lower) call_stats call_session)) = false.
Proof.
  apply (@traffic_pattern_best ascii_lower true call_stats call_session
           (detect_voip_pattern (U := ascii_lower) call_stats call_session)).
  - by vm_compute.
  - by vm_compute.
  - unfold detected. tauto.
Defined.

(** The confidence of a call exceeds the documented range of 0 to 1. *)
Lemma confidence_above_one :
  exists p, analyze_traffic_pattern (U := ascii_lower) true call_stats call_session = Ok p /\
    fgt (confidence p) (f_of_Z 1) = true.
Proof. eexists. split; [by vm_compute|]. by vm_compute. Qed.
