(* ===== verification/Groups.v ===== *)
(** * Proxy groups ([proxy/group], [proxy/utils], [app/remote_content_manager])

    Providers and their health checks, and the groups built on them:
    selector, fallback, URL test, load balancing and relay.  A proxy is
    anything that implements the interface [Outbound]; a connection is the
    chain of names it was built through. *)

From S2P Require Import Prelude F64 Str Net Session ProxyManager.

(** ** Outbound handlers *)

(* @src clash-lib/src/proxy/mod.rs ~^pub enum ConnectorType~ ConnectorType *)
Inductive ConnectorType : Type := CtTcp | CtAll | CtNone.

(** How a relayed connection reaches its server: directly, or through a
    proxy that is itself reached through a connector. *)
(* @src clash-lib/src/proxy/utils/proxy_connector.rs ~^pub struct ProxyConnector~ ProxyConnector *)
Inductive Connector (P : Type) : Type :=
| DirectConnector
| ProxyConnector (proxy : P) (connector : Connector P).
Arguments DirectConnector {P}.
Arguments ProxyConnector {P} proxy connector.

Abbreviation Chain := (list str).

(** What the groups use of a proxy. *)
(* @src clash-lib/src/proxy/mod.rs ~^pub trait OutboundHandler~ OutboundHandler *)
Class Outbound (P : Type) : Type := {
  ob_name : P -> str;
  ob_support_udp : P -> bool;
  ob_support_connector : P -> ConnectorType;
  ob_connect_stream : P -> Session -> res Chain;
  ob_connect_datagram : P -> Session -> res Chain;
  ob_stream_with_connector : P -> Session -> Connector P -> res Chain;
  ob_datagram_with_connector : P -> Session -> Connector P -> res Chain;
}.

Section groups.
Context {P : Type} {OB : Outbound P}.

(** ** Health checks *)

(** [hc_task]: the proxies the background task of [kick_off] has captured. *)
(* @src clash-lib/src/app/remote_content_manager/healthcheck.rs ~^struct HealCheckInner~ HealthCheck *)
Record HealthCheck : Type := {
  hc_interval : Z; hc_lazy : bool; hc_last_check : Z; hc_proxies : list P; hc_task : option (list P);
}.

(* @src clash-lib/src/app/remote_content_manager/healthcheck.rs ~    pub fn new\(~ HealthCheck::new *)
Definition hc_new (proxies : list P) (interval : Z) (lazy : bool) (now : Z) : HealthCheck :=
  {| hc_interval := interval; hc_lazy := lazy; hc_last_check := now; hc_proxies := proxies; hc_task := None |}.

(** The proxies tested at once, and the state. *)
(* @src clash-lib/src/app/remote_content_manager/healthcheck.rs ~    pub async fn kick_off~ HealthCheck::kick_off *)
Definition hc_kick_off (hc : HealthCheck) : list P * HealthCheck :=
  (hc_proxies hc,
   {| hc_interval := hc_interval hc; hc_lazy := hc_lazy hc; hc_last_check := hc_last_check hc;
      hc_proxies := hc_proxies hc; hc_task := Some (hc_proxies hc) |}).

(** One tick of the background task. *)
(* @src clash-lib/src/app/remote_content_manager/healthcheck.rs 67 76 HealthCheck::kick_off (tick) *)
Definition hc_tick (now : Z) (hc : HealthCheck) : option (list P) * HealthCheck :=
  match hc_task hc with
  | Some proxies =>
    if negb (hc_lazy hc) || (hc_interval hc <=? as_secs (now - hc_last_check hc)) then
      (Some proxies,
       {| hc_interval := hc_interval hc; hc_lazy := hc_lazy hc; hc_last_check := now;
          hc_proxies := hc_proxies hc; hc_task := hc_task hc |})
    else (None, hc)
  | None => (None, hc)
  end.

(* @src clash-lib/src/app/remote_content_manager/healthcheck.rs ~    pub async fn touch~ HealthCheck::touch *)
Definition hc_touch (now : Z) (hc : HealthCheck) : HealthCheck :=
  {| hc_interval := hc_interval hc; hc_lazy := hc_lazy hc; hc_last_check := now;
     hc_proxies := hc_proxies hc; hc_task := hc_task hc |}.

(** The proxies tested. *)
(* @src clash-lib/src/app/remote_content_manager/healthcheck.rs ~    pub async fn check~ HealthCheck::check *)
Definition hc_check (hc : HealthCheck) : list P := hc_proxies hc.

(* @src clash-lib/src/app/remote_content_manager/healthcheck.rs ~    pub async fn update~ HealthCheck::update *)
Definition hc_update (proxies : list P) (hc : HealthCheck) : HealthCheck :=
  {| hc_interval := hc_interval hc; hc_lazy := hc_lazy hc; hc_last_check := hc_last_check hc;
     hc_proxies := proxies; hc_task := hc_task hc |}.

(* @src clash-lib/src/app/remote_content_manager/healthcheck.rs ~    pub fn auto~ HealthCheck::auto *)
Definition hc_auto (hc : HealthCheck) : bool := negb (hc_interval hc =? 0).

(** ** Providers *)

(* @src clash-lib/src/app/remote_content_manager/providers/proxy_provider/plain_provider.rs ~^pub struct PlainProvider~ PlainProvider *)
Record Provider : Type := { pv_proxies : list P; pv_hc : HealthCheck }.

(* @src clash-lib/src/app/remote_content_manager/providers/proxy_provider/plain_provider.rs ~    pub fn new\(~ PlainProvider::new *)
Definition plain_provider_new (proxies : list P) (hc : HealthCheck) : res Provider :=
  if bool_decide (length proxies = 0%nat) then Err "proxies is empty"
  else Ok {| pv_proxies := proxies; pv_hc := if hc_auto hc then (hc_kick_off hc).2 else hc |}.

(** A provider of fetched proxies starts without any. *)
(* @src clash-lib/src/app/remote_content_manager/providers/proxy_provider/proxy_set_provider.rs 65 86 ProxySetProvider::new *)
Definition proxy_set_new (hc : HealthCheck) : Provider :=
  {| pv_proxies := []; pv_hc := if hc_auto hc then (hc_kick_off hc).2 else hc |}.

(** The updater: the proxies tested once, and the provider. *)
(* @src clash-lib/src/app/remote_content_manager/providers/proxy_provider/proxy_set_provider.rs 91 107 ProxySetProvider::new (updater) *)
Definition proxy_set_update (input : list P) (pv : Provider) : list P * Provider :=
  let hc := hc_update input (pv_hc pv) in
  (hc_check hc, {| pv_proxies := input; pv_hc := hc |}).

(** [retain] with [HashSet::insert]: the names seen are not repeated. *)
Fixpoint retain_new (seen : gset str) (l : list P) : list P * gset str :=
  match l with
  | [] => ([], seen)
  | p :: l' =>
    if bool_decide (ob_name p ∈ seen) then retain_new seen l'
    else let '(kept, seen) := retain_new ({[ob_name p]} ∪ seen) l' in (p :: kept, seen)
  end.
Fixpoint collect (seen : gset str) (providers : list Provider) : list P :=
  match providers with
  | [] => []
  | pv :: rest => let '(kept, seen) := retain_new seen (pv_proxies pv) in kept ++ collect seen rest
  end.
Definition touch_provider (now : Z) (pv : Provider) : Provider :=
  {| pv_proxies := pv_proxies pv; pv_hc := hc_touch now (pv_hc pv) |}.

(* @src clash-lib/src/proxy/utils/provider_helper.rs ~^pub async fn get_proxies_from_providers~ get_proxies_from_providers *)
Definition get_proxies_from_providers (providers : list Provider) (touch : bool) (now : Z) : list P * list Provider :=
  (collect ∅ providers, if touch then touch_provider now <$> providers else providers).

Definition first_or_panic (proxies : list P) : res P := or_panic (head proxies).
Definition position (name : str) (proxies : list P) : option nat :=
  fst <$> list_find (fun p => ob_name p = name) proxies.

(** ** Selector *)
(* @src clash-lib/src/proxy/group/selector/mod.rs ~    pub async fn new\(~ selector::Handler::new *)
Definition selector_new (providers : list Provider) (selected : option str) : res Z :=
  provider ← or_panic (head providers);
  let proxies := pv_proxies provider in
  Ok (wrap 16 (Z.of_nat (default 0%nat (selected ≫= fun s => position s proxies)))).

(* @src clash-lib/src/proxy/group/selector/mod.rs ~    async fn selected_proxy~ selector::Handler::selected_proxy *)
Definition selected_proxy (index : Z) (proxies : list P) : res P :=
  match zget proxies index with
  | Some proxy => Ok proxy
  | None => first_or_panic proxies
  end.

(* @src clash-lib/src/proxy/group/selector/mod.rs ~    async fn select\(&self, name: &str\) -> Result<\(\), Error> \{~ selector::Handler::select *)
Definition select (name : str) (index : Z) (proxies : list P) : res unit * Z :=
  match position name proxies with
  | Some i => (Ok tt, wrap 16 (Z.of_nat i))
  | None => (Err "proxy not found", index)
  end.

(** ** Fallback *)
(* @src clash-lib/src/proxy/group/fallback/mod.rs ~    async fn find_alive_proxy~ fallback::Handler::find_alive_proxy *)
Definition find_alive_proxy (pm : ProxyManager) (proxies : list P) : res P :=
  match list_find (fun p => alive pm (ob_name p) = true) proxies with
  | Some (_, p) => Ok p
  | None => first_or_panic proxies
  end.

(** ** URL test *)
(** [Duration::from_secs(u64::MAX)] and the sum of durations, which panics
    on overflow. *)
Definition max_delay : Z := (2 ^ 64 - 1) * 10 ^ 9.
Definition duration_add (a b : Z) : res Z := if a + b <? 2 ^ 64 * 10 ^ 9 then Ok (a + b) else Panic.

(** The variables of the loop. *)
Record Best : Type := { fastest : P; fastest_delay : Z; fast_not_exist : bool; best_index : Z }.

(* @src clash-lib/src/proxy/group/urltest/mod.rs ~        for proxy in proxies.iter\(\).skip\(1\)~ urltest::Handler::fastest (loop) *)
Definition urltest_step (pm : ProxyManager) (tolerance : Z) (proxies : list P) (current : Z) (b : Best) (proxy : P) :
    res Best :=
  cur ← zidx proxies current;
  let fast_not_exist := if bool_decide (ob_name proxy = ob_name cur) then false else fast_not_exist b in
  if negb (alive pm (ob_name proxy)) then
    Ok {| fastest := fastest b; fastest_delay := fastest_delay b; fast_not_exist := fast_not_exist;
          best_index := best_index b |}
  else
    let '(fastest, fastest_delay) :=
      match last_delay pm (ob_name proxy) with
      | Some d => if d <? fastest_delay b then (proxy, d) else (fastest b, fastest_delay b)
      | None => (fastest b, fastest_delay b)
      end in
    store ← (if fast_not_exist then Ok true
             else if alive pm (ob_name fastest) then Ok true
             else match last_delay pm (ob_name cur) with
                  | Some d => limit ← duration_add fastest_delay (tolerance * 10 ^ 6); Ok (limit <? d)
                  | None => Ok false
                  end);
    index ← (if store : bool then
               i ← or_panic (position (ob_name fastest) proxies); Ok (wrap 16 (Z.of_nat i))
             else Ok (best_index b));
    Ok {| fastest := fastest; fastest_delay := fastest_delay; fast_not_exist := fast_not_exist; best_index := index |}.

(* @src clash-lib/src/proxy/group/urltest/mod.rs ~    async fn fastest~ urltest::Handler::fastest *)
Definition urltest_fastest (oc : bool) (pm : ProxyManager) (tolerance index : Z) (proxies : list P) : res (P * Z) :=
  first ← first_or_panic proxies;
  last_index ← arith oc 16 (wrap 16 (zlen proxies) - 1);
  let current := Z.min index last_index in
  b ← res_fold (urltest_step pm tolerance proxies current)
        {| fastest := first; fastest_delay := default max_delay (last_delay pm (ob_name first));
           fast_not_exist := true; best_index := index |}
        (tail proxies);
  Ok (fastest b, best_index b).

(** ** Load balancing *)

(* @src clash-lib/src/proxy/group/loadbalance/helpers.rs ~    while j < buckets as i64~ jump_hash (loop) *)
Fixpoint jump_loop (fuel : nat) (key b j buckets : Z) : option Z :=
  match fuel with
  | O => None
  | S fuel' =>
    if j <? buckets then
      let b := j in
      let key := wrap 64 (wrap 64 (key * 2862933555777941757) + 1) in
      let j := f_to_i64 (fdiv (fmul (f_of_Z (b + 1)) (f_of_Z (2 ^ 31))) (f_of_Z (Z.shiftr key 33 + 1))) in
      jump_loop fuel' key b j buckets
    else Some b
  end.

(* @src clash-lib/src/proxy/group/loadbalance/helpers.rs ~^fn jump_hash~ jump_hash *)
Definition jump_hash (key buckets : Z) : option Z :=
  as_i32 <$> jump_loop (S (Z.to_nat buckets)) key (-1) 0 buckets.

(** The closure keeps [index] between calls. *)
(* @src clash-lib/src/proxy/group/loadbalance/helpers.rs ~^pub fn strategy_rr~ strategy_rr *)
Definition strategy_rr (index : Z) (proxies : list P) : res (P * Z) :=
  let len := zlen proxies in
  if len =? 0 then Panic
  else
    let index := (index + 1) mod len in
    p ← zidx proxies index; Ok (p, index).
End groups.

(** MurmurHash3 of 32 bits with seed 0, and the public suffix list. *)
Class HashLib : Type := { murmur3_32 : list Z -> Z; effective_tld_plus_one : str -> option str }.

(** [lru_time_cache::LruCache<u64, usize>] with an expiry; the time is an
    argument. *)
Class TimedLru : Type := {
  tlru : Type;
  tl_get : Z -> tlru -> Z -> option Z * tlru;
  tl_insert : Z -> tlru -> Z -> Z -> tlru;
}.

Section hashing.
Context {P : Type} {OB : Outbound P} {HL : HashLib} {TL : TimedLru} (oc : bool).

(* @src clash-lib/src/proxy/group/loadbalance/helpers.rs ~^fn get_key\(~ get_key *)
Definition get_key (sess : Session) : str :=
  match destination sess with
  | Ip addr => show_ip (sa_ip addr)
  | Domain host _ => default [] (effective_tld_plus_one host)
  end.

(* @src clash-lib/src/proxy/group/loadbalance/helpers.rs ~^fn get_key_src_and_dst~ get_key_src_and_dst *)
Definition get_key_src_and_dst (sess : Session) : str :=
  show_ip (sa_ip (source sess)) ++ lit "-" ++ get_key sess.

Fixpoint hashring_loop (n : nat) (key buckets : Z) (proxies : list P) : option (res P) :=
  match n with
  | O => Some (Err "no proxy found")
  | S n' =>
    index ← jump_hash key buckets;
    match zget proxies (wrap 64 index) with
    | Some p => Some (Ok p)
    | None => hashring_loop n' key buckets proxies
    end
  end.

(* @src clash-lib/src/proxy/group/loadbalance/helpers.rs ~^pub fn strategy_consistent_hashring~ strategy_consistent_hashring *)
Definition strategy_consistent_hashring (proxies : list P) (sess : Session) : option (res P) :=
  let key := murmur3_32 (utf8 (get_key sess)) in
  hashring_loop 5 key (as_i32 (zlen proxies)) proxies.

(** The retries of a sticky session.  [clock] gives the time stamps in the
    order they are taken, [now] is the time for the cache. *)
(* @src clash-lib/src/proxy/group/loadbalance/helpers.rs 130 164 strategy_sticky_session (retries) *)
Fixpoint sticky_loop (n : nat) (pm : ProxyManager) (clock : nat -> Z) (k : nat) (now : Z) (cache : tlru)
    (key index start_index : Z) (hit : bool) (proxies : list P) : option (res P * tlru) :=
  match n with
  | O => Some (Err "no proxy found", tl_insert now cache key 0)
  | S n' =>
    match (p ← zget proxies index; if alive pm (ob_name p) then Some p else None) with
    | Some p => Some (Ok p, if negb (index =? start_index) || negb hit then tl_insert now cache key index else cache)
    | None =>
      match arith oc 64 (key + clock k) with
      | Ok h => i ← jump_hash h (as_i32 (zlen proxies));
                sticky_loop n' pm clock (S k) now cache key (wrap 64 i) start_index hit proxies
      | _ => Some (Panic, cache)
      end
    end
  end.

(* @src clash-lib/src/proxy/group/loadbalance/helpers.rs ~^pub fn strategy_sticky_session~ strategy_sticky_session *)
Definition strategy_sticky_session (pm : ProxyManager) (clock : nat -> Z) (now : Z) (cache : tlru)
    (proxies : list P) (sess : Session) : option (res P * tlru) :=
  let key := murmur3_32 (utf8 (get_key_src_and_dst sess)) in
  match tl_get now cache key with
  | (Some index, cache) => sticky_loop 5 pm clock 0 now cache key index index true proxies
  | (None, cache) =>
    match arith oc 64 (key + clock 0%nat) with
    | Ok h => i ← jump_hash h (as_i32 (zlen proxies));
              sticky_loop 5 pm clock 1 now cache key (wrap 64 i) (wrap 64 i) false proxies
    | _ => Some (Panic, cache)
    end
  end.
End hashing.

(** ** Connecting through a group *)
Section connect.
Context {P : Type} {OB : Outbound P}.

(** [s.append_to_chain(self.name())] *)
Definition appended (group : str) (c : res Chain) : res Chain := chain ← c; Ok (chain ++ [group]).

(* @src clash-lib/src/proxy/group/selector/mod.rs ~    async fn connect_stream\(~ selector::Handler::connect_stream *)
Definition selector_connect_stream (group : str) (index now : Z) (providers : list Provider) (sess : Session) :
    res Chain * list Provider :=
  let '(proxies, providers) := get_proxies_from_providers providers true now in
  (selected ← selected_proxy index proxies; appended group (ob_connect_stream selected sess), providers).
(* @src clash-lib/src/proxy/group/selector/mod.rs ~    async fn connect_datagram\(~ selector::Handler::connect_datagram *)
Definition selector_connect_datagram (group : str) (index now : Z) (providers : list Provider) (sess : Session) :
    res Chain * list Provider :=
  let '(proxies, providers) := get_proxies_from_providers providers true now in
  (selected ← selected_proxy index proxies; appended group (ob_connect_datagram selected sess), providers).
(* @src clash-lib/src/proxy/group/selector/mod.rs ~    async fn support_udp~ selector::Handler::support_udp *)
Definition selector_support_udp (udp : bool) (index now : Z) (providers : list Provider) : res bool :=
  if udp then selected ← selected_proxy index (get_proxies_from_providers providers false now).1; Ok (ob_support_udp selected)
  else Ok false.

(* @src clash-lib/src/proxy/group/fallback/mod.rs ~    async fn connect_stream\(~ fallback::Handler::connect_stream *)
Definition fallback_connect_stream (group : str) (pm : ProxyManager) (now : Z) (providers : list Provider) (sess : Session) :
    res Chain * list Provider :=
  let '(proxies, providers) := get_proxies_from_providers providers true now in
  (proxy ← find_alive_proxy pm proxies; appended group (ob_connect_stream proxy sess), providers).
(* @src clash-lib/src/proxy/group/fallback/mod.rs ~    async fn connect_datagram\(~ fallback::Handler::connect_datagram *)
Definition fallback_connect_datagram (group : str) (pm : ProxyManager) (now : Z) (providers : list Provider) (sess : Session) :
    res Chain * list Provider :=
  let '(proxies, providers) := get_proxies_from_providers providers true now in
  (proxy ← find_alive_proxy pm proxies; appended group (ob_connect_datagram proxy sess), providers).

(** The URL test group does not touch its providers here. *)
(* @src clash-lib/src/proxy/group/urltest/mod.rs ~    async fn connect_stream\(~ urltest::Handler::connect_stream *)
Definition urltest_connect_stream (oc : bool) (group : str) (pm : ProxyManager) (tolerance index now : Z)
    (providers : list Provider) (sess : Session) : res (Chain * Z) :=
  '(proxy, index) ← urltest_fastest oc pm tolerance index (get_proxies_from_providers providers false now).1;
  chain ← appended group (ob_connect_stream proxy sess);
  Ok (chain, index).

(** ** Relay *)
(* @src clash-lib/src/proxy/group/relay/mod.rs 103 114 relay::Handler::connect_stream (connector) *)
Definition relay_connector (proxies : list P) : Connector P :=
  foldl (fun connector proxy => ProxyConnector proxy connector) DirectConnector proxies.

(** With more than one proxy the stream is wrapped, which starts a new
    chain. *)
(* @src clash-lib/src/proxy/group/relay/mod.rs ~    async fn connect_stream\(~ relay::Handler::connect_stream *)
Definition relay_connect_stream (group : str) (proxies : list P) (sess : Session) : res Chain :=
  match proxies with
  | [] => Err "no proxy available"
  | [proxy] => ob_connect_stream proxy sess
  | _ =>
    last ← or_panic (last proxies);
    _ ← ob_stream_with_connector last sess (relay_connector (removelast proxies));
    Ok [group]
  end.
(* @src clash-lib/src/proxy/group/relay/mod.rs ~    async fn connect_datagram\(~ relay::Handler::connect_datagram *)
Definition relay_connect_datagram (group : str) (proxies : list P) (sess : Session) : res Chain :=
  match proxies with
  | [] => Err "no proxy available"
  | [proxy] => ob_connect_datagram proxy sess
  | _ =>
    last ← or_panic (last proxies);
    _ ← ob_datagram_with_connector last sess (relay_connector (removelast proxies));
    Ok [group]
  end.

(* @src clash-lib/src/proxy/group/relay/mod.rs ~    async fn support_udp~ relay::Handler::support_udp *)
Fixpoint relay_support_udp (proxies : list P) : bool :=
  match proxies with
  | [] => true
  | proxy :: rest =>
    match ob_support_connector proxy with
    | CtAll => true
    | CtNone | CtTcp => if negb (ob_support_udp proxy) then false else relay_support_udp rest
    end
  end.

(** The hops of a connection made through a connector, first hop first. *)
Fixpoint hops (c : Connector P) : list str :=
  match c with
  | DirectConnector => []
  | ProxyConnector p c => hops c ++ [ob_name p]
  end.
End connect.

(** * The jump hash *)

Lemma jump_next b key : 0 <= b < 2 ^ 31 -> u64 key ->
  b + 1 <= f_to_i64 (fdiv (fmul (f_of_Z (b + 1)) (f_of_Z (2 ^ 31))) (f_of_Z (Z.shiftr key 33 + 1))).
Proof.
  intros Hb Hkey. unfold f_to_i64. apply fge_trunc; [|lia..]. apply scaled_div_ge; [lia| |lia].
  unfold in_width in Hkey. rewrite Z.shiftr_div_pow2 by lia.
  assert (0 <= key / 2 ^ 33 < 2 ^ 31); [|lia]. split; [apply Z.div_pos; lia|].
  apply Z.div_lt_upper_bound; lia.
Qed.

Lemma jump_loop_total fuel key b j n :
  0 <= j -> n <= 2 ^ 31 -> (0 < fuel)%nat -> n - j < Z.of_nat fuel ->
  exists r, jump_loop fuel key b j n = Some r /\ (if j <? n then 0 <= r < n else r = b).
Proof.
  revert key b j. induction fuel as [|fuel IH]; intros key b j Hj Hn H0 Hf; [lia|].
  cbn [jump_loop]. destruct (Z.ltb_spec j n) as [Hlt|]; [|by eexists].
    set (key' := wrap 64 _). pose proof (wrap_range 64 (wrap 64 (key * 2862933555777941757) + 1) ltac:(lia)) as Hk.
    pose proof (jump_next j key' ltac:(lia) Hk) as Hnext. set (j' := f_to_i64 _) in *.
    destruct (IH key' j j' ltac:(lia) Hn ltac:(lia) ltac:(lia)) as (r & -> & Hr).
    exists r. split; [done|]. destruct (Z.ltb_spec j' n); lia.
Qed.

(** One more bucket either takes the key or leaves it where it was. *)
Lemma jump_loop_grow fuel fuel' key b j n r :
  0 <= j -> n < 2 ^ 31 -> (0 < fuel')%nat -> n + 1 - j < Z.of_nat fuel' -> jump_loop fuel key b j n = Some r ->
  jump_loop fuel' key b j (n + 1) = Some r \/ jump_loop fuel' key b j (n + 1) = Some n.
Proof.
  revert fuel' key b j. induction fuel as [|fuel IH]; intros fuel' key b j Hj Hn H0 Hf; [done|].
  destruct fuel' as [|fuel']; [lia|].
  cbn [jump_loop]. set (key' := wrap 64 _).
  pose proof (wrap_range 64 (wrap 64 (key * 2862933555777941757) + 1) ltac:(lia)) as Hk.
  destruct (Z.ltb_spec j n) as [Hlt|Hge].
  - rewrite (proj2 (Z.ltb_lt j (n + 1))) by lia. pose proof (jump_next j key' ltac:(lia) Hk). apply IH; lia.
  - intros [= ->]. destruct (Z.ltb_spec j (n + 1)) as [Hlt|]; [|by left].
    assert (j = n) as -> by lia. right. pose proof (jump_next n key' ltac:(lia) Hk) as Hnext.
    destruct fuel' as [|fuel']; [lia|]. cbn [jump_loop]. by rewrite (proj2 (Z.ltb_ge _ _)) by lia.
Qed.

Lemma jump_hash_total key n : 1 <= n <= 2 ^ 31 -> exists r, jump_hash key n = Some r /\ 0 <= r < n.
Proof.
  intros Hn. destruct (jump_loop_total (S (Z.to_nat n)) key (-1) 0 n) as (r & Hr & Hrange); [lia..|].
  rewrite (proj2 (Z.ltb_lt 0 n)) in Hrange by lia. exists r. unfold jump_hash. rewrite Hr. cbn.
  rewrite as_i32_small by lia. done.
Qed.

(** C35: the jump hash.  For up to 2^31 - 1 buckets the loop, computed in
    binary64, ends after at most as many rounds as there are buckets and
    yields a bucket; adding a bucket moves a key to the new bucket or not at
    all. *)
Theorem jump_hash_consistent (key n : Z) (Hn : 1 <= n < 2 ^ 31) :
  exists r, jump_hash key n = Some r /\ 0 <= r < n /\
    (jump_hash key (n + 1) = Some r \/ jump_hash key (n + 1) = Some n).
Proof.
  destruct (jump_loop_total (S (Z.to_nat n)) key (-1) 0 n) as (r & Hr & Hrange); [lia..|].
  rewrite (proj2 (Z.ltb_lt 0 n)) in Hrange by lia. exists r. unfold jump_hash. rewrite Hr. cbn [fmap option_fmap option_map].
  rewrite as_i32_small by lia. split_and!; [done|lia..|].
  destruct (jump_loop_grow _ (S (Z.to_nat (n + 1))) key (-1) 0 n r ltac:(lia) ltac:(lia) ltac:(lia) ltac:(lia) Hr) as [-> | ->];
    cbn [fmap option_fmap option_map]; rewrite as_i32_small by lia; auto.
Qed.

Lemma jump_hash_consistent_witness : exists r, jump_hash 12345 10 = Some r /\ 0 <= r < 10.
Proof. destruct (jump_hash_consistent 12345 10) as (r & H1 & H2 & _); [lia|]. exists r. exact (conj H1 H2). Defined.

Example jump_hash_10863919174838991_11 : jump_hash 10863919174838991 11 = Some 6.
Proof. by vm_compute. Qed.

(** * Choosing a proxy *)
Section choice.
Context {P : Type} {OB : Outbound P}.

(** ** The proxies of a group *)

Lemma retain_new_spec seen l :
  let '(kept, seen') := retain_new seen l in
  seen' = list_to_set (ob_name <$> l) ∪ seen /\ kept `sublist_of` l /\ NoDup (ob_name <$> kept) /\
  (forall n, n ∈ (ob_name <$> kept) <-> n ∈ (ob_name <$> l) /\ n ∉ seen).
Proof.
  revert seen. induction l as [|p l IH]; intros seen; cbn [retain_new].
  { split_and!; [cbn; by rewrite (left_id_L ∅ (∪))|done|constructor|set_solver]. }
  case_bool_decide as Hin.
  - specialize (IH seen). destruct (retain_new seen l) as [kept seen']. destruct IH as (-> & Hsub & Hnd & Hm).
    split_and!; [cbn; set_solver|by constructor|done|]. intros n. rewrite Hm. cbn. set_solver.
  - specialize (IH ({[ob_name p]} ∪ seen)). destruct (retain_new _ l) as [kept seen'].
    destruct IH as (-> & Hsub & Hnd & Hm). split_and!; [cbn; set_solver|by constructor| |].
    + cbn. constructor; [|done]. intros H%Hm. set_solver.
    + intros n. cbn. rewrite !elem_of_cons, Hm. destruct (decide (n = ob_name p)) as [->|]; set_solver.
Qed.

Lemma collect_spec seen pvs :
  NoDup (ob_name <$> collect seen pvs) /\
  forall n, n ∈ (ob_name <$> collect seen pvs) <-> (exists pv, pv ∈ pvs /\ n ∈ (ob_name <$> pv_proxies pv)) /\ n ∉ seen.
Proof.
  revert seen. induction pvs as [|pv pvs IH]; intros seen; cbn [collect].
  { split; [constructor|]. set_solver. }
  pose proof (retain_new_spec seen (pv_proxies pv)) as Hr. destruct (retain_new seen (pv_proxies pv)) as [kept seen'].
  destruct Hr as (-> & _ & Hnd & Hm). destruct (IH (list_to_set (ob_name <$> pv_proxies pv) ∪ seen)) as [Hnd' Hm'].
  rewrite fmap_app. split.
  - apply NoDup_app. split_and!; [done| |done]. intros n Hn Hn'. apply Hm' in Hn' as [_ Hn']. apply Hm in Hn as [Hn _]. set_solver.
  - intros n. rewrite elem_of_app, Hm, Hm'. setoid_rewrite elem_of_cons.
    destruct (decide (n ∈ ob_name <$> pv_proxies pv)) as [Hin|Hin]; [|set_solver].
    split; [|intros [_ ?]; by left]. intros [[_ ?]|[_ ?]]; [|set_solver]. split; [|done]. exists pv. by split; [left|].
Qed.

(** Two lists with the same names in the same order choose alike, so the
    rest speaks about the list. *)
Lemma position_spec name l :
  match position name l with
  | Some i => exists p, l !! i = Some p /\ ob_name p = name /\ forall j q, l !! j = Some q -> (j < i)%nat -> ob_name q <> name
  | None => name ∉ (ob_name <$> l)
  end.
Proof.
  unfold position. destruct (list_find _ l) as [[i p]|] eqn:E; cbn [fmap option_fmap option_map fst].
  - apply list_find_Some in E as (H1 & H2 & H3). exists p. split_and!; [done|done|]. intros j q Hq Hj. by eapply H3.
  - apply list_find_None in E. intros (p & -> & Hp)%list_elem_of_fmap. rewrite Forall_forall in E. by eapply E.
Qed.

(** The selector.  [select] of a name in the group makes that proxy the
    one connections use, of a name outside it is an error that changes
    nothing; whatever the stored index, a non-empty group selects one of its
    members. *)
Theorem selector_select_spec (name : str) (index : Z) (proxies : list P) (Hlen : zlen proxies <= 2 ^ 16) :
  (name ∈ (ob_name <$> proxies) -> exists index' p, select name index proxies = (Ok tt, index') /\
     selected_proxy index' proxies = Ok p /\ p ∈ proxies /\ ob_name p = name) /\
  (name ∉ (ob_name <$> proxies) -> exists e, select name index proxies = (Err e, index)) /\
  (proxies <> [] -> exists p, selected_proxy index proxies = Ok p /\ p ∈ proxies) /\
  selected_proxy index ([] : list P) = Panic.
Proof.
  pose proof (position_spec name proxies) as Hpos. unfold select. split_and!.
  - intros Hin. destruct (position name proxies) as [i|]; [|done]. destruct Hpos as (p & Hp & Hn & _).
    apply lookup_lt_Some in Hp as Hi. unfold zlen in Hlen. rewrite wrap_small by (unfold in_width; lia).
    exists (Z.of_nat i), p. split_and!; [done| |by eapply list_elem_of_lookup_2|done].
    unfold selected_proxy, zget. rewrite bool_decide_true by lia. by rewrite Nat2Z.id, Hp.
  - intros Hin. destruct (position name proxies) as [i|]; [|by eexists]. destruct Hpos as (p & Hp & <- & _).
    destruct Hin. by apply list_elem_of_fmap_2, list_elem_of_lookup_2 with i.
  - intros Hne. unfold selected_proxy, first_or_panic. destruct (zget proxies index) as [p|] eqn:E.
    + exists p. split; [done|]. unfold zget in E. case_bool_decide; [|done]. by eapply list_elem_of_lookup_2.
    + destruct proxies as [|p ps]; [done|]. exists p. split; [done|]. by left.
  - unfold selected_proxy, zget. by case_bool_decide.
Qed.

(** The fallback group uses the first proxy that is alive, and its first
    proxy when none is. *)
Theorem fallback_first_alive (pm : ProxyManager) (proxies : list P) (p : P) (Hp : find_alive_proxy pm proxies = Ok p) :
  (exists i, proxies !! i = Some p /\ alive pm (ob_name p) = true /\
     forall j q, proxies !! j = Some q -> (j < i)%nat -> alive pm (ob_name q) = false) \/
  (proxies !! 0%nat = Some p /\ forall q, q ∈ proxies -> alive pm (ob_name q) = false).
Proof.
  unfold find_alive_proxy in Hp. destruct (list_find _ proxies) as [[i q]|] eqn:E.
  - injection Hp as ->. left. apply list_find_Some in E as (H1 & H2 & H3). exists i. split_and!; [done..|].
    intros j q Hq Hj. specialize (H3 j q Hq Hj). by destruct (alive pm (ob_name q)).
  - right. apply list_find_None in E. rewrite Forall_forall in E. destruct proxies as [|q proxies]; [done|].
    injection Hp as ->. split; [done|]. intros q Hq. specialize (E q Hq). by destruct (alive pm (ob_name q)).
Qed.

(** ** URL test *)
Section urltest.
Context (pm : ProxyManager).
(** Measured delays are far below the largest [Duration]. *)
Definition sane : Prop := forall n d, last_delay pm n = Some d -> 0 <= d < 2 ^ 63 * 10 ^ 9.
Context (Hsane : sane).

(** The delay a proxy counts with. *)
Definition eff_delay (p : P) : Z := default max_delay (last_delay pm (ob_name p)).

(** [p] is the first of the fastest of [l]. *)
Definition is_fastest (l : list P) (p : P) : Prop :=
  exists i, l !! i = Some p /\ forall j q, l !! j = Some q -> eff_delay p <= eff_delay q /\ ((j < i)%nat -> eff_delay p < eff_delay q).

Lemma eff_delay_range p : 0 <= eff_delay p <= max_delay.
Proof.
  unfold eff_delay. destruct (last_delay pm (ob_name p)) as [d|] eqn:E; cbn.
  - apply Hsane in E. unfold max_delay. lia.
  - unfold max_delay. lia.
Qed.
Lemma eff_delay_dead p : alive pm (ob_name p) = false -> last_delay pm (ob_name p) = None.
Proof. unfold last_delay. by intros ->. Qed.
Lemma eff_delay_max p : eff_delay p = max_delay -> last_delay pm (ob_name p) = None.
Proof.
  unfold eff_delay. destruct (last_delay pm (ob_name p)) as [d|] eqn:E; [|done]. apply Hsane in E. cbn. unfold max_delay. lia.
Qed.

Lemma is_fastest_snoc l p x :
  is_fastest l p -> is_fastest (l ++ [x]) (if eff_delay x <? eff_delay p then x else p).
Proof.
  intros (i & Hi & Hmin). apply lookup_lt_Some in Hi as Hlt. destruct (Z.ltb_spec (eff_delay x) (eff_delay p)).
  - exists (length l). rewrite list_lookup_middle by done. split; [done|]. intros j q Hq.
    apply lookup_app_Some in Hq as [Hq|[Hj Hq]].
    + specialize (Hmin j q Hq). lia.
    + apply list_lookup_singleton_Some in Hq as [Hj' <-]. lia.
  - exists i. rewrite lookup_app_l by done. split; [done|]. intros j q Hq.
    apply lookup_app_Some in Hq as [Hq|[Hj Hq]]; [by apply Hmin|].
    apply list_lookup_singleton_Some in Hq as [Hj' <-]. lia.
Qed.

(** The loop: the proxies [before] have been compared. *)
Definition loop_inv (before : list P) (cur : P) (b : Best) : Prop :=
  is_fastest before (fastest b) /\ fastest_delay b = eff_delay (fastest b) /\
  (fast_not_exist b = false -> exists q, q ∈ before /\ ob_name q = ob_name cur).

Lemma urltest_step_ok proxies current cur before b x :
  zidx proxies current = Ok cur -> loop_inv before cur b -> before ++ [x] `sublist_of` proxies ->
  exists b', (forall tolerance, urltest_step pm tolerance proxies current b x = Ok b') /\ loop_inv (before ++ [x]) cur b'.
Proof.
  intros Hcur (Hmin & Hd & Hex) Hsub. pose proof (is_fastest_snoc before (fastest b) x Hmin) as Hmin'.
  set (p' := if eff_delay x <? eff_delay (fastest b) then x else fastest b) in *.
  set (ne := if bool_decide (ob_name x = ob_name cur) then false else fast_not_exist b).
  assert (ne = false -> exists q, q ∈ before ++ [x] /\ ob_name q = ob_name cur) as Hex'.
  { unfold ne. case_bool_decide; [exists x; set_solver|]. intros (q & Hq & Hqn)%Hex. exists q. set_solver. }
  assert (p' ∈ proxies) as Hp'.
  { destruct Hmin' as (i & Hi & _). eapply elem_of_submseteq; [by eapply list_elem_of_lookup_2|]. by apply sublist_submseteq. }
  pose proof (position_spec (ob_name p') proxies) as Hpos.
  destruct (position (ob_name p') proxies) as [i|] eqn:Ei.
  2: { destruct Hpos. by apply list_elem_of_fmap_2. }
  unfold urltest_step. rewrite Hcur. rstep. fold ne.
  destruct (alive pm (ob_name x)) eqn:Ha; cbn [negb].
  2: { eexists. split; [done|]. unfold loop_inv. cbn [fastest fastest_delay fast_not_exist]. split_and!; [|done|done].
       assert (p' = fastest b) as <-; [|done]. unfold p'. rewrite (proj2 (Z.ltb_ge _ _)); [done|].
       unfold eff_delay at 2. rewrite eff_delay_dead by done. apply eff_delay_range. }
  assert (match last_delay pm (ob_name x) with
          | Some d => if d <? fastest_delay b then (x, d) else (fastest b, fastest_delay b)
          | None => (fastest b, fastest_delay b)
          end = (p', eff_delay p')) as ->.
  { rewrite Hd. unfold p'. pose proof (eff_delay_range (fastest b)).
    destruct (last_delay pm (ob_name x)) as [d|] eqn:E.
    - assert (eff_delay x = d) as Hx by (unfold eff_delay; by rewrite E). rewrite Hx. by destruct (d <? _); [rewrite <- Hx|].
    - assert (eff_delay x = max_delay) as -> by (unfold eff_delay; by rewrite E).
      by rewrite (proj2 (Z.ltb_ge max_delay _)) by lia. }
  destruct ne eqn:Ene.
  { rewrite Ei. cbn [or_panic]. eexists. split; [done|]. by split_and!. }
  destruct (alive pm (ob_name p')) eqn:Hap.
  { rewrite Ei. cbn [or_panic]. eexists. split; [done|]. by split_and!. }
  assert (last_delay pm (ob_name cur) = None) as ->.
  { destruct (Hex' eq_refl) as (q & Hq & <-). apply eff_delay_max. pose proof (eff_delay_range q).
    assert (eff_delay p' = max_delay) by (unfold eff_delay; by rewrite eff_delay_dead).
    destruct Hmin' as (k & Hk & Hmin'). apply list_elem_of_lookup in Hq as (j & Hj). specialize (Hmin' j q Hj). lia. }
  eexists. split; [done|]. by split_and!.
Qed.

Lemma urltest_loop_ok proxies current cur before rest b :
  zidx proxies current = Ok cur -> loop_inv before cur b -> before ++ rest `sublist_of` proxies ->
  exists b', (forall tolerance, res_fold (urltest_step pm tolerance proxies current) b rest = Ok b') /\
    loop_inv (before ++ rest) cur b'.
Proof.
  intros Hcur. revert before b. induction rest as [|x rest IH]; intros before b Hinv Hsub.
  { exists b. rewrite app_nil_r. done. }
  change (before ++ x :: rest) with (before ++ [x] ++ rest) in *. rewrite (assoc_L (++)) in *.
  destruct (urltest_step_ok proxies current cur before b x Hcur Hinv) as (b1 & H1 & Hinv1).
  { etrans; [|done]. by apply sublist_inserts_r. }
  destruct (IH (before ++ [x]) b1 Hinv1 Hsub) as (b2 & H2 & Hinv2). exists b2. split; [|done].
  intros tol. cbn [res_fold]. rewrite H1. cbn [res_bind]. apply H2.
Qed.

(** The URL test group.  For up to 65535 proxies the choice never
    panics and is the first proxy with the smallest delay, where a proxy
    that is dead or was never measured counts with the largest; neither the
    tolerance nor the index of the last choice has any influence on it. *)
Theorem urltest_picks_fastest (oc : bool) (proxies : list P) (Hne : proxies <> []) (Hlen : zlen proxies < 2 ^ 16) :
  exists p, is_fastest proxies p /\
    forall index, in_width 16 index -> exists index', forall tolerance,
      urltest_fastest oc pm tolerance index proxies = Ok (p, index').
Proof.
  destruct proxies as [|first rest]; [done|]. clear Hne.
  assert (exists p, is_fastest (first :: rest) p) as (p & Hp).
  { clear Hlen. induction rest as [|x rest (p & Hp)] using rev_ind.
    - exists first, 0%nat. split; [done|]. intros j q Hq%list_lookup_singleton_Some. destruct Hq as [-> <-]. lia.
    - eexists. change (first :: rest ++ [x]) with ((first :: rest) ++ [x]). apply is_fastest_snoc, Hp. }
  exists p. split; [done|]. intros index Hi. unfold urltest_fastest, first_or_panic. cbn [head or_panic]. rstep.
  unfold zlen in *. cbn [length] in *. rewrite wrap_small by (unfold in_width; lia).
  rewrite arith_ok by (unfold in_width; lia). rstep. set (current := Z.min index _).
  assert (0 <= current < Z.of_nat (S (length rest))) as Hc by (unfold in_width in Hi; lia).
  destruct (lookup_lt_is_Some_2 (first :: rest) (Z.to_nat current)) as (cur & Hcur); [cbn [length]; lia|].
  destruct (urltest_loop_ok (first :: rest) current cur [first] rest
    {| fastest := first; fastest_delay := default max_delay (last_delay pm (ob_name first));
       fast_not_exist := true; best_index := index |}) as (b & Hb & Hmin & _).
  { unfold zidx, zget. rewrite bool_decide_true by lia. by rewrite Hcur. }
  { split_and!; [|done|done]. exists 0%nat. split; [done|]. intros j q Hq%list_lookup_singleton_Some. destruct Hq as [-> <-]. cbn. lia. }
  { done. }
  exists (best_index b). intros tol. cbn [tail]. rewrite Hb. rstep. cbn [app] in Hmin.
  assert (fastest b = p) as ->; [|done].
  destruct Hp as (i & Hi1 & Hi2), Hmin as (j & Hj1 & Hj2). destruct (Nat.lt_trichotomy i j) as [Hij|[->|Hij]]; [|congruence|].
  - specialize (Hi2 j _ Hj1). specialize (Hj2 i _ Hi1). lia.
  - specialize (Hi2 j _ Hj1). specialize (Hj2 i _ Hi1). lia.
Qed.
End urltest.
End choice.

(** * Load balancing *)
Section balancing.
Context {P : Type} {OB : Outbound P}.

(** [n] calls of the round-robin strategy. *)
Fixpoint rr_run (n : nat) (index : Z) (proxies : list P) : res (list P * Z) :=
  match n with
  | O => Ok ([], index)
  | S n' =>
    '(p, index) ← strategy_rr index proxies;
    '(ps, index) ← rr_run n' index proxies;
    Ok (p :: ps, index)
  end.

Lemma rr_run_lookup n index proxies :
  proxies <> [] -> 0 <= index ->
  exists chosen index', rr_run n index proxies = Ok (chosen, index') /\ length chosen = n /\ 0 <= index' /\
    forall k, (k < n)%nat -> chosen !! k = proxies !! Z.to_nat ((index + 1 + Z.of_nat k) mod zlen proxies).
Proof.
  intros Hne. assert (0 < zlen proxies) as Hpos by (unfold zlen; destruct proxies; [done|cbn; lia]).
  revert index. induction n as [|n IH]; intros index Hi.
  { exists [], index. split_and!; [done..|lia]. }
  cbn [rr_run]. unfold strategy_rr. rewrite (proj2 (Z.eqb_neq _ _)) by lia.
  set (i := (index + 1) mod zlen proxies). pose proof (Z.mod_pos_bound (index + 1) (zlen proxies) Hpos) as Hb. fold i in Hb.
  destruct (lookup_lt_is_Some_2 proxies (Z.to_nat i)) as (p & Hp); [unfold zlen in *; lia|].
  assert (zidx proxies i = Ok p) as -> by (unfold zidx, zget; rewrite bool_decide_true by lia; by rewrite Hp).
  rstep. destruct (IH i ltac:(lia)) as (chosen & index' & -> & Hlen & Hi' & Hk). rstep.
  exists (p :: chosen), index'. split_and!; [done|cbn; lia|done|]. intros [|k] Hkn.
  - rewrite Z.add_0_r. fold i. by rewrite Hp.
  - change ((p :: chosen) !! S k) with (chosen !! k). rewrite Hk by lia. f_equal. f_equal. unfold i.
    rewrite <- Z.add_assoc, Z.add_mod_idemp_l by lia. f_equal. lia.
Qed.

(** Round robin.  As many consecutive calls as there are proxies use
    every proxy exactly once, from wherever the strategy stands. *)
Theorem round_robin_fair (index : Z) (proxies : list P) (Hne : proxies <> []) (Hi : 0 <= index) :
  exists chosen index', rr_run (length proxies) index proxies = Ok (chosen, index') /\ chosen ≡ₚ proxies.
Proof.
  destruct (rr_run_lookup (length proxies) index proxies Hne Hi) as (chosen & index' & Hrun & Hlen & _ & Hk).
  exists chosen, index'. split; [done|].
  assert (0 < zlen proxies) as Hpos by (unfold zlen; destruct proxies; [done|cbn; lia]).
  set (s := Z.to_nat ((index + 1) mod zlen proxies)).
  pose proof (Z.mod_pos_bound (index + 1) (zlen proxies) Hpos) as Hs.
  assert (chosen = drop s proxies ++ take s proxies) as ->.
  2: { rewrite Permutation_app_comm. by rewrite take_drop. }
  assert (s < length proxies)%nat by (unfold s, zlen in *; lia).
  apply list_eq. intros k. destruct (decide (k < length proxies)%nat) as [Hkl|Hkl].
  2: { rewrite !lookup_ge_None_2; [done| |lia]. rewrite length_app, length_drop, length_take. lia. }
  rewrite Hk by done. assert ((index + 1 + Z.of_nat k) mod zlen proxies = (Z.of_nat s + Z.of_nat k) mod zlen proxies) as ->.
  { unfold s. rewrite Z2Nat.id by lia. by rewrite Z.add_mod_idemp_l by lia. }
  unfold zlen in *. destruct (decide (k < length proxies - s)%nat).
  - rewrite Z.mod_small by lia. rewrite lookup_app_l by (rewrite length_drop; lia). rewrite lookup_drop. f_equal. lia.
  - rewrite lookup_app_r by (rewrite length_drop; lia). rewrite length_drop, lookup_take_lt by lia.
    replace (Z.of_nat s + Z.of_nat k) with (Z.of_nat (k - (length proxies - s)) + 1 * Z.of_nat (length proxies)) by lia.
    rewrite Z.mod_add, Z.mod_small by lia. f_equal. lia.
Qed.

(** ** Sticky sessions *)

(** What [lru_time_cache] promises: for ten minutes after a key was inserted
    or read, reading it again gives its value. *)
Definition expiry : Z := 600 * 10 ^ 9.
Class TimedLruLaws (TL : TimedLru) : Prop := {
  tl_get_inserted c k v now now' : now <= now' < now + expiry -> (tl_get now' (tl_insert now c k v) k).1 = Some v;
  tl_get_again c k v c' now now' :
    tl_get now c k = (Some v, c') -> now <= now' < now + expiry -> (tl_get now' c' k).1 = Some v;
}.

Context {HL : HashLib} {TL : TimedLru} (oc : bool).

(** The environment of the retries: the hashed keys do not overflow. *)
Definition clock_ok (key : Z) (clock : nat -> Z) : Prop := forall k, in_width 64 (key + clock k).

Lemma sticky_loop_ok n pm clock k now cache key index start hit proxies :
  1 <= zlen proxies < 2 ^ 31 -> clock_ok key clock ->
  exists r c', sticky_loop oc n pm clock k now cache key index start hit proxies = Some (r, c') /\ r <> Panic /\
    forall p, r = Ok p -> exists i, zget proxies i = Some p /\ alive pm (ob_name p) = true /\
      (c' = tl_insert now cache key i \/ (c' = cache /\ hit = true /\ i = start)).
Proof.
  intros Hlen Hclock. revert k index. induction n as [|n IH]; intros k index; cbn [sticky_loop].
  { do 2 eexists. split_and!; [done|done|]. done. }
  destruct (p ← zget proxies index; if alive pm (ob_name p) then Some p else None) as [p|] eqn:E.
  - apply bind_Some in E as (p' & Hp & E). destruct (alive pm (ob_name p')) eqn:Ha; [|done]. injection E as ->.
    do 2 eexists. split_and!; [done|done|]. intros q [= <-]. exists index. split_and!; [done|done|].
    destruct (Z.eqb_spec index start); [|by left]. destruct hit; [by right|by left].
  - rewrite arith_ok by apply Hclock. rewrite as_i32_small by lia.
    destruct (jump_hash_total (key + clock k) (zlen proxies)) as (i & -> & _); [lia|]. apply IH.
Qed.

Lemma sticky_session_ok pm clock now cache proxies sess :
  1 <= zlen proxies < 2 ^ 31 -> clock_ok (murmur3_32 (utf8 (get_key_src_and_dst sess))) clock ->
  exists r c', strategy_sticky_session oc pm clock now cache proxies sess = Some (r, c') /\ r <> Panic /\
    forall p, r = Ok p -> p ∈ proxies /\ alive pm (ob_name p) = true.
Proof.
  intros Hlen Hclock. unfold strategy_sticky_session. set (key := murmur3_32 _) in *.
  assert (forall n k cache index start hit, exists r c',
    sticky_loop oc n pm clock k now cache key index start hit proxies = Some (r, c') /\ r <> Panic /\
    forall p, r = Ok p -> p ∈ proxies /\ alive pm (ob_name p) = true) as Hloop.
  { intros. destruct (sticky_loop_ok n pm clock k now cache0 key index start hit proxies Hlen Hclock)
      as (r & c' & H1 & H2 & H3). exists r, c'. split_and!; [done..|]. intros p Hp.
    destruct (H3 p Hp) as (i & Hi & Ha & _). split; [|done]. unfold zget in Hi. case_bool_decide; [|done].
    by eapply list_elem_of_lookup_2. }
  destruct (tl_get now cache key) as [[i|] c]; [apply Hloop|].
  rewrite arith_ok by apply Hclock. rewrite as_i32_small by lia.
  destruct (jump_hash_total (key + clock 0%nat) (zlen proxies)) as (i & -> & _); [lia|]. apply Hloop.
Qed.

(** Sticky sessions.  The strategy never panics and only returns proxies
    that are alive; as long as that proxy stays alive and in its place, the
    same client and site get it again for ten minutes. *)
Theorem sticky_session_sticks (HTL : TimedLruLaws TL) (pm pm' : ProxyManager) (clock clock' : nat -> Z) (now now' : Z)
    (cache : tlru) (proxies : list P) (sess : Session) (p : P) (c' : tlru)
    (Hlen : 1 <= zlen proxies < 2 ^ 31) (Hclock : clock_ok (murmur3_32 (utf8 (get_key_src_and_dst sess))) clock)
    (Hp : strategy_sticky_session oc pm clock now cache proxies sess = Some (Ok p, c'))
    (Halive : alive pm' (ob_name p) = true) (Hnow : now <= now' < now + expiry) :
  p ∈ proxies /\ alive pm (ob_name p) = true /\
  exists c'', strategy_sticky_session oc pm' clock' now' c' proxies sess = Some (Ok p, c'').
Proof.
  destruct (sticky_session_ok pm clock now cache proxies sess Hlen Hclock) as (r & c0 & H1 & _ & H3).
  rewrite Hp in H1. injection H1 as <- <-. destruct (H3 p eq_refl) as [Hin Ha]. split_and!; [done|done|].
  unfold strategy_sticky_session in *. set (key := murmur3_32 _) in *.
  assert (exists i, zget proxies i = Some p /\ (tl_get now' c' key).1 = Some i) as (i & Hi & Hget).
  { destruct (tl_get now cache key) as [[j|] c] eqn:Eg.
    - destruct (sticky_loop_ok 5 pm clock 0 now c key j j true proxies Hlen Hclock) as (r & c1 & E1 & _ & E3).
      rewrite E1 in Hp. injection Hp as -> ->. destruct (E3 p eq_refl) as (i & Hi & _ & [-> |(-> & _ & ->)]).
      + exists i. split; [done|]. by apply tl_get_inserted.
      + exists j. split; [done|]. by eapply tl_get_again.
    - rewrite arith_ok in Hp by apply Hclock. rewrite as_i32_small in Hp by lia.
      destruct (jump_hash_total (key + clock 0%nat) (zlen proxies)) as (j & Ej & _); [lia|]. rewrite Ej in Hp. cbn in Hp.
      destruct (sticky_loop_ok 5 pm clock 1 now c key (wrap 64 j) (wrap 64 j) false proxies Hlen Hclock)
        as (r & c1 & E1 & _ & E3).
      cbn in E1. rewrite E1 in Hp. injection Hp as -> ->. destruct (E3 p eq_refl) as (i & Hi & _ & [-> |(_ & ? & _)]); [|done].
      exists i. split; [done|]. by apply tl_get_inserted. }
  destruct (tl_get now' c' key) as [o c2]. cbn in Hget. subst o. cbn [sticky_loop]. rewrite Hi. cbn.
  rewrite Halive. by eexists.
Qed.
End balancing.

(** * Relay and health checks *)
Section relay_health.
Context {P : Type} {OB : Outbound P}.

Lemma relay_connector_hops proxies : hops (relay_connector proxies) = ob_name <$> proxies.
Proof.
  unfold relay_connector. induction proxies as [|p proxies IH] using rev_ind; [done|].
  rewrite foldl_app, fmap_app. cbn [foldl hops fmap list_fmap]. by rewrite IH.
Qed.

(** A relay of several proxies dials the last one through a connector
    whose hops are the others in their order, and reports only itself as the
    chain; a single proxy is used directly, no proxy is an error. *)
Theorem relay_path (group : str) (proxies : list P) (sess : Session) :
  match proxies with
  | [] => relay_connect_stream group proxies sess = Err "no proxy available"
  | [p] => relay_connect_stream group proxies sess = ob_connect_stream p sess
  | _ => exists before p connector, proxies = before ++ [p] /\ hops connector = ob_name <$> before /\
      relay_connect_stream group proxies sess =
        match ob_stream_with_connector p sess connector with Ok _ => Ok [group] | Err e => Err e | Panic => Panic end
  end.
Proof.
  destruct proxies as [|p1 [|p2 rest]]; [done|done|].
  destruct (exists_last (l := p2 :: rest)) as (before & p & E); [done|].
  exists (p1 :: before), p, (relay_connector (p1 :: before)). split_and!; [by rewrite E|apply relay_connector_hops|].
  unfold relay_connect_stream. rewrite E, app_comm_cons, last_snoc, removelast_last. cbn [or_panic]. rstep.
  by destruct (ob_stream_with_connector p sess _).
Qed.

(** The events of a health check with a running task. *)
Inductive hc_event : Type := Touched (now : Z) | Updated (proxies : list P).
Definition hc_apply (hc : HealthCheck) (e : hc_event) : HealthCheck :=
  match e with Touched now => hc_touch now hc | Updated proxies => hc_update proxies hc end.

(** The task of a health check tests the proxies it was started with, for
    ever: later updates do not reach it. *)
Lemma hc_task_stale proxies interval lazy now0 events now :
  let hc := foldl hc_apply (hc_kick_off (hc_new proxies interval lazy now0)).2 events in
  (hc_tick now hc).1 = Some proxies \/ (hc_tick now hc).1 = None.
Proof.
  intros hc. assert (hc_task hc = Some proxies) as Ht.
  { unfold hc. assert (forall h, hc_task h = Some proxies -> hc_task (foldl hc_apply h events) = Some proxies) as H; [|by apply H].
    induction events as [|[|] events IH]; intros h Hh; cbn [foldl]; [done|by apply IH..]. }
  unfold hc_tick. rewrite Ht. destruct (_ || _); auto.
Qed.

(** A provider of fetched proxies starts its task with none, so that its
    ticks never test a proxy, whatever is fetched. *)
Lemma proxy_set_never_ticked interval lazy now0 input now tested :
  interval <> 0 ->
  (hc_tick now (pv_hc (proxy_set_update input (proxy_set_new (hc_new [] interval lazy now0))).2)).1 = Some tested ->
  tested = ([] : list P).
Proof.
  intros Hi. unfold proxy_set_new, hc_auto. cbn [hc_interval hc_new]. rewrite (proj2 (Z.eqb_neq _ _)) by done.
  pose proof (hc_task_stale [] interval lazy now0 [Updated input] now) as H. cbn in *. intros Ht. rewrite Ht in H.
  destruct H as [[= ->]|]; [done|congruence].
Qed.

(** The background health checks.  Whatever happens after the task was
    started, a tick tests the proxies it was started with or nothing; a lazy
    check skips the tick when the group was used within the interval and
    runs it when it was idle, a check that is not lazy always runs it. *)
Theorem health_check_ticks (proxies : list P) (interval : Z) (lazy : bool) (now0 now : Z) (events : list hc_event) :
  let hc := foldl hc_apply (hc_kick_off (hc_new proxies interval lazy now0)).2 events in
  (hc_tick now hc).1 = (if negb lazy || (interval <=? as_secs (now - hc_last_check hc)) then Some proxies else None) /\
  (forall t, last events = Some (Touched t) -> hc_last_check hc = t).
Proof.
  intros hc. set (h0 := (hc_kick_off (hc_new proxies interval lazy now0)).2) in hc.
  assert (forall h, hc_task h = Some proxies -> hc_lazy h = lazy -> hc_interval h = interval ->
    let h' := foldl hc_apply h events in hc_task h' = Some proxies /\ hc_lazy h' = lazy /\ hc_interval h' = interval) as H.
  { induction events as [|[|] events IH]; intros h H1 H2 H3; cbn [foldl]; [done|by apply IH..]. }
  destruct (H h0) as (H1 & H2 & H3); [done..|]. fold hc in H1, H2, H3. split.
  - unfold hc_tick. rewrite H1, H2, H3. by destruct (_ || _).
  - intros t Ht. destruct (exists_last (l := events)) as (ev & e & ->); [by intros ->|].
    rewrite last_snoc in Ht. injection Ht as ->. unfold hc. by rewrite foldl_app.
Qed.
End relay_health.

(** * A concrete setting *)
Record demo_proxy : Type := { dp_name : str; dp_up : bool }.
Definition demo_outbound : Outbound demo_proxy := {|
  ob_name := dp_name;
  ob_support_udp := fun _ => true;
  ob_support_connector := fun _ => CtTcp;
  ob_connect_stream := fun p _ => if dp_up p then Ok [dp_name p] else Err "refused";
  ob_connect_datagram := fun p _ => if dp_up p then Ok [dp_name p] else Err "refused";
  ob_stream_with_connector := fun p _ _ => if dp_up p then Ok [dp_name p] else Err "refused";
  ob_datagram_with_connector := fun p _ _ => Err "udp relay not supported";
|}.
#[local] Existing Instance demo_outbound.
Definition demo_proxies : list demo_proxy :=
  [{| dp_name := lit "a"; dp_up := true |}; {| dp_name := lit "b"; dp_up := true |}; {| dp_name := lit "c"; dp_up := false |}].
Definition demo_registry : ProxyManager := (check [(lit "a", probe_timeout, 1); (lit "b", probe_ok 80, 2)] ∅).2.

Lemma selector_select_spec_witness :
  exists index' p, select (lit "b") 0 demo_proxies = (Ok tt, index') /\ selected_proxy index' demo_proxies = Ok p /\
    p ∈ demo_proxies /\ ob_name p = lit "b".
Proof.
  apply (selector_select_spec (lit "b") 0 demo_proxies); [by vm_compute|].
  apply (bool_decide_unpack _). by vm_compute.
Defined.

Lemma fallback_first_alive_witness : exists p,
  find_alive_proxy demo_registry demo_proxies = Ok p /\
  ((exists i, demo_proxies !! i = Some p /\ alive demo_registry (ob_name p) = true /\
     forall j q, demo_proxies !! j = Some q -> (j < i)%nat -> alive demo_registry (ob_name q) = false) \/
   (demo_proxies !! 0%nat = Some p /\ forall q, q ∈ demo_proxies -> alive demo_registry (ob_name q) = false)).
Proof.
  exists {| dp_name := lit "b"; dp_up := true |}. split; [by vm_compute|].
  apply (fallback_first_alive demo_registry demo_proxies). by vm_compute.
Defined.

Lemma demo_sane : sane demo_registry.
Proof.
  intros n d. unfold last_delay, alive, delay_history.
  destruct (demo_registry !! n) as [s|] eqn:E; [|done].
  assert (map_Forall (fun _ s => Is_true (match last (ps_history s) with Some h => between 0 100 (delay h) | None => true end))
    demo_registry) as H.
  { apply (bool_decide_unpack _). by vm_compute. }
  specialize (H n s E). cbv beta in H. destruct (negb _); [done|]. destruct (last (ps_history s)); [|done].
  apply Is_true_true, between_iff in H. intros [= <-]. lia.
Qed.

Lemma urltest_picks_fastest_witness :
  exists p, is_fastest demo_registry demo_proxies p /\
    forall index, in_width 16 index -> exists index', forall tolerance,
      urltest_fastest true demo_registry tolerance index demo_proxies = Ok (p, index').
Proof. apply (urltest_picks_fastest demo_registry demo_sane true demo_proxies); [done|by vm_compute]. Defined.

Lemma round_robin_fair_witness :
  exists chosen index', rr_run 3 0 demo_proxies = Ok (chosen, index') /\ chosen ≡ₚ demo_proxies.
Proof. apply (round_robin_fair 0 demo_proxies); [done|lia]. Defined.

(** A cache of insertion times. *)
Definition ref_tlru : TimedLru := {|
  tlru := gmap Z (Z * Z);
  tl_get := fun now c k =>
    match c !! k with
    | Some (v, t) => if now <? t + expiry then (Some v, <[k := (v, now)]> c) else (None, delete k c)
    | None => (None, c)
    end;
  tl_insert := fun now c k v => <[k := (v, now)]> c;
|}.
Lemma ref_tlru_laws : TimedLruLaws ref_tlru.
Proof.
  split.
  - intros c k v now now' H. cbn [tl_get tl_insert ref_tlru]. rewrite lookup_insert_eq.
    by rewrite (proj2 (Z.ltb_lt _ _)) by lia.
  - intros c k v c' now now' Hg H. cbn [tl_get ref_tlru tlru] in *. repeat case_match; simplify_eq.
    all: rewrite lookup_insert_eq in *; simplify_eq; done || lia.
Qed.
Definition demo_hash : HashLib := {| murmur3_32 := fun bs => wrap 32 (be_val bs); effective_tld_plus_one := Some |}.

Definition demo_clock (k : nat) : Z := match k with O => 7 | 1%nat => 104729 | 2%nat => 1299709 | _ => 15485863 end.
Lemma sticky_session_sticks_witness : exists p c' c'',
  strategy_sticky_session (HL := demo_hash) (TL := ref_tlru) true demo_registry demo_clock 0 ∅ demo_proxies call_session
    = Some (Ok p, c') /\
  strategy_sticky_session (HL := demo_hash) (TL := ref_tlru) true demo_registry (fun _ => 9) 5 c' demo_proxies call_session
    = Some (Ok p, c'').
Proof.
  assert (1 <= zlen demo_proxies < 2 ^ 31) as Hlen by by vm_compute.
  assert (clock_ok (@murmur3_32 demo_hash (utf8 (@get_key_src_and_dst demo_hash call_session))) demo_clock) as Hclock.
  { intros k. apply (bool_decide_unpack _). by destruct k as [|[|[|k]]]; vm_compute. }
  assert (exists p c', strategy_sticky_session (HL := demo_hash) (TL := ref_tlru) true demo_registry demo_clock 0 ∅
    demo_proxies call_session = Some (Ok p, c') /\ alive demo_registry (ob_name p) = true) as (p & c' & Hp & Ha).
  { do 2 eexists. split; [vm_compute; reflexivity|by vm_compute]. }
  destruct (@sticky_session_sticks demo_proxy demo_outbound demo_hash ref_tlru true ref_tlru_laws demo_registry demo_registry
    demo_clock (fun _ => 9) 0 5 ∅ demo_proxies call_session p c' Hlen Hclock Hp Ha ltac:(unfold expiry; lia)) as (_ & _ & c'' & Hc).
  exists p, c', c''. exact (conj Hp Hc).
Defined.
