(* ===== verification/Smart.v ===== *)
(** * The smart group ([proxy/group/smart])

    Penalties, per-site statistics, traffic collection and the choice of the
    proxy with the lowest score, with retries.  Time is an argument: [secs]
    is the Unix time of [current_timestamp_secs], [now] an [Instant] in
    nanoseconds, and the readings of one call coincide.  [exp] and [powf]
    come from [LibM]. *)

From S2P Require Import Prelude F64 Str Net Session ProxyManager Groups.

Section smart.
Context {LM : LibM} (oc : bool).

Definition saturating_sub (a b : Z) : Z := Z.max 0 (a - b).

(** ** Penalties *)
(* @src clash-lib/src/proxy/group/smart/penalty.rs ~^pub struct ProxyPenalty~ ProxyPenalty *)
Record ProxyPenalty : Type := { pen_value : f64; last_update_secs : Z }.

(* @src clash-lib/src/proxy/group/smart/penalty.rs ~    pub fn new\(~ ProxyPenalty::new *)
Definition penalty_new (secs : Z) : ProxyPenalty := {| pen_value := fzero; last_update_secs := secs |}.

(* @src clash-lib/src/proxy/group/smart/penalty.rs ~    pub fn add_penalty~ ProxyPenalty::add_penalty *)
Definition add_penalty (secs : Z) (p : ProxyPenalty) : ProxyPenalty :=
  {| pen_value := fmul (fadd (pen_value p) (f_of_Z 1)) (f_of_Z 2); last_update_secs := secs |}.

(* @src clash-lib/src/proxy/group/smart/penalty.rs ~    pub fn decay~ ProxyPenalty::decay *)
Definition decay (secs : Z) (p : ProxyPenalty) : ProxyPenalty :=
  let elapsed_secs := f_of_Z (saturating_sub secs (last_update_secs p)) in
  {| pen_value :=
       if flt (pen_value p) (flit 1 100) || fgt elapsed_secs (f_of_Z 300) then fzero
       else if fgt elapsed_secs fzero then
         fmul (pen_value p) (fpowf (flit 5 10) (fdiv elapsed_secs (f_of_Z 10)))
       else pen_value p;
     last_update_secs := secs |}.

(* @src clash-lib/src/proxy/group/smart/penalty.rs ~    pub fn reward~ ProxyPenalty::reward *)
Definition reward (secs : Z) (p : ProxyPenalty) : ProxyPenalty :=
  {| pen_value := fmul (pen_value p) (flit 2 10); last_update_secs := secs |}.

(** ** Site statistics *)
(* @src clash-lib/src/proxy/group/smart/stats.rs ~^pub struct SiteStats~ SiteStats *)
Record SiteStats : Type := { delays : list f64; successes : list bool; last_attempt_secs : Z }.

(* @src clash-lib/src/proxy/group/smart/stats.rs ~^const MAX_HISTORY_SIZE~ MAX_HISTORY_SIZE *)
Definition MAX_HISTORY_SIZE : Z := 10.

(* @src clash-lib/src/proxy/group/smart/stats.rs ~    pub fn new\(~ SiteStats::new *)
Definition site_stats_new (secs : Z) : SiteStats := {| delays := []; successes := []; last_attempt_secs := secs |}.

(* @src clash-lib/src/proxy/group/smart/stats.rs ~    pub fn success_rate~ SiteStats::success_rate *)
Definition success_rate (s : SiteStats) : f64 :=
  match successes s with
  | [] => fzero
  | h => fdiv (f_of_Z (zlen (filter (fun x => x = true) h))) (f_of_Z (zlen h))
  end.

(** [if len >= MAX { remove(0) }; push(x)] *)
Definition push_bounded {A} (x : A) (l : list A) : list A :=
  (if MAX_HISTORY_SIZE <=? zlen l then tail l else l) ++ [x].

(* @src clash-lib/src/proxy/group/smart/stats.rs ~    pub fn add_result~ SiteStats::add_result *)
Definition add_result (secs : Z) (delay : f64) (success : bool) (s : SiteStats) : SiteStats :=
  {| delays := if success then push_bounded delay (delays s) else delays s;
     successes := push_bounded success (successes s);
     last_attempt_secs := secs |}.

(* @src clash-lib/src/proxy/group/smart/stats.rs ~    pub fn is_stale~ SiteStats::is_stale *)
Definition is_stale (secs : Z) (s : SiteStats) : bool := 300 <? saturating_sub secs (last_attempt_secs s).

(* @src clash-lib/src/proxy/group/smart/stats.rs ~    pub fn get_delay_score~ SiteStats::get_delay_score *)
Definition get_delay_score (secs : Z) (s : SiteStats) : f64 :=
  match delays s with
  | [] => f_of_Z 9999
  | history =>
    let age_secs := f_of_Z (saturating_sub secs (last_attempt_secs s)) in
    let '(sum, weight_sum) :=
      foldl (fun '(sum, weight_sum) delay =>
        let time_weight := fexp_ (fmul (fneg (flit 1 10)) age_secs) in
        let delay_weight := fexp_ (fmul (fneg (flit 1 1000)) delay) in
        let weight := fmul time_weight delay_weight in
        (fadd sum (fmul delay weight), fadd weight_sum weight)) (fzero, fzero) history in
    let avg_delay := if fgt weight_sum fzero then fdiv sum weight_sum else f_of_Z 9999 in
    fmul avg_delay (fsub (f_of_Z 2) (success_rate s))
  end.

(* @src clash-lib/src/proxy/group/smart/stats.rs ~    pub fn get_trend~ SiteStats::get_trend *)
Definition get_trend (s : SiteStats) : Z :=
  if zlen (delays s) <? 3 then 0
  else
    let n := f_of_Z (zlen (delays s)) in
    let '(_, sum_x, sum_y, sum_xy, sum_x2) :=
      foldl (fun '(i, sum_x, sum_y, sum_xy, sum_x2) y =>
        let x := f_of_Z i in
        (i + 1, fadd sum_x x, fadd sum_y y, fadd sum_xy (fmul x y), fadd sum_x2 (fmul x x)))
        (0, fzero, fzero, fzero, fzero) (delays s) in
    let slope := fdiv (fsub (fmul n sum_xy) (fmul sum_x sum_y)) (fsub (fmul n sum_x2) (fmul sum_x sum_x)) in
    if flt slope (fneg (flit 5 10)) then 1
    else if fgt slope (flit 5 10) then -1
    else 0.

(* @src clash-lib/src/proxy/group/smart/stats.rs ~    pub fn latency_stability~ SiteStats::latency_stability *)
Definition latency_stability (s : SiteStats) : f64 :=
  match delays s with
  | [] => fzero
  | history =>
    let n := f_of_Z (zlen history) in
    let mean := fdiv (fsum history) n in
    let variance := fdiv (fsum ((fun d => fmul (fsub d mean) (fsub d mean)) <$> history)) n in
    fsqrt variance
  end.

(** ** Traffic collection *)
(* @src clash-lib/src/proxy/group/smart/stats.rs ~^pub struct TrafficStatsCollector~ TrafficStatsCollector *)
Record TrafficStatsCollector : Type := {
  connection_start : gmap str Z;
  session_bytes : gmap str (Z * Z);
  request_counts : gmap str (list Z);
  throughput_samples : gmap str (list (Z * f64));
}.
Definition collector_new : TrafficStatsCollector :=
  {| connection_start := ∅; session_bytes := ∅; request_counts := ∅; throughput_samples := ∅ |}.

(* @src clash-lib/src/proxy/group/smart/stats.rs ~    pub fn start_session~ TrafficStatsCollector::start_session *)
Definition start_session (id : str) (now : Z) (c : TrafficStatsCollector) : TrafficStatsCollector :=
  {| connection_start := <[id := now]> (connection_start c);
     session_bytes := <[id := (0, 0)]> (session_bytes c);
     request_counts := <[id := []]> (request_counts c);
     throughput_samples := <[id := []]> (throughput_samples c) |}.

(* @src clash-lib/src/proxy/group/smart/stats.rs ~    pub fn record_transfer~ TrafficStatsCollector::record_transfer *)
Definition record_transfer (id : str) (uploaded downloaded now : Z) (c : TrafficStatsCollector) :
    res TrafficStatsCollector :=
  match session_bytes c !! id with
  | Some (up, down) =>
    up ← arith oc 64 (up + uploaded);
    down ← arith oc 64 (down + downloaded);
    let bytes := <[id := (up, down)]> (session_bytes c) in
    match connection_start c !! id with
    | Some start_time =>
      let elapsed := as_secs_f64 (saturating_sub now start_time) in
      if fgt elapsed fzero then
        total ← arith oc 64 (uploaded + downloaded);
        let current_throughput := fdiv (f_of_Z total) elapsed in
        Ok {| connection_start := connection_start c; session_bytes := bytes; request_counts := request_counts c;
              throughput_samples :=
                alter (fun samples =>
                  let samples := samples ++ [(now, current_throughput)] in
                  if 10 <? zlen samples then tail samples else samples) id (throughput_samples c) |}
      else Ok {| connection_start := connection_start c; session_bytes := bytes; request_counts := request_counts c;
                 throughput_samples := throughput_samples c |}
    | None => Ok {| connection_start := connection_start c; session_bytes := bytes; request_counts := request_counts c;
                    throughput_samples := throughput_samples c |}
    end
  | None => Ok c
  end.

Fixpoint drop_before (cutoff : Z) (l : list Z) : list Z :=
  match l with
  | t :: l' => if t <? cutoff then drop_before cutoff l' else l
  | [] => []
  end.

(* @src clash-lib/src/proxy/group/smart/stats.rs ~    pub fn record_request~ TrafficStatsCollector::record_request *)
Definition record_request (id : str) (now : Z) (c : TrafficStatsCollector) : TrafficStatsCollector :=
  {| connection_start := connection_start c; session_bytes := session_bytes c;
     request_counts := alter (fun requests => drop_before (now - 60 * 10 ^ 9) (requests ++ [now])) id (request_counts c);
     throughput_samples := throughput_samples c |}.

(* @src clash-lib/src/proxy/group/smart/stats.rs ~    pub fn get_stats~ TrafficStatsCollector::get_stats *)
Definition get_stats (id : str) (now : Z) (c : TrafficStatsCollector) : res (option TrafficStats) :=
  match connection_start c !! id, session_bytes c !! id with
  | Some start_time, Some (uploaded, downloaded) =>
    let duration := saturating_sub now start_time in
    total_bytes ← arith oc 64 (uploaded + downloaded);
    let average_throughput :=
      if fgt (as_secs_f64 duration) fzero then fdiv (f_of_Z total_bytes) (as_secs_f64 duration) else fzero in
    let peak_throughput :=
      match throughput_samples c !! id with
      | Some samples => foldl (fun a '(_, t) => fmax a t) fzero samples
      | None => fzero
      end in
    let request_frequency :=
      match request_counts c !! id with
      | Some requests => fdiv (f_of_Z (zlen requests)) (f_of_Z 60)
      | None => fzero
      end in
    let is_bidirectional :=
      if 0 <? total_bytes then
        let upload_ratio := fdiv (f_of_Z uploaded) (f_of_Z total_bytes) in
        fgt upload_ratio (flit 1 10) && flt upload_ratio (flit 9 10)
      else false in
    Ok (Some {| bytes_uploaded := uploaded; bytes_downloaded := downloaded; connection_duration := duration;
                average_throughput := average_throughput; peak_throughput := peak_throughput;
                request_frequency := request_frequency; is_bidirectional := is_bidirectional |})
  | _, _ => Ok None
  end.

(* @src clash-lib/src/proxy/group/smart/stats.rs ~    pub fn cleanup_old_sessions~ TrafficStatsCollector::cleanup_old_sessions *)
Definition cleanup_old_sessions (now : Z) (c : TrafficStatsCollector) : TrafficStatsCollector :=
  let cutoff := now - 300 * 10 ^ 9 in
  let starts := filter (fun '(_, t) => cutoff < t) (connection_start c) in
  {| connection_start := starts;
     session_bytes := filter (fun '(id, _) => id ∈ dom starts) (session_bytes c);
     request_counts := filter (fun '(id, _) => id ∈ dom starts) (request_counts c);
     throughput_samples := filter (fun '(id, _) => id ∈ dom starts) (throughput_samples c) |}.

(** ** The state of a group *)
(* @src clash-lib/src/proxy/group/smart/state.rs ~^pub struct SmartState ~ SmartState *)
Record SmartState : Type := {
  penalty : gmap str ProxyPenalty;
  site_stats : gmap str (gmap str SiteStats);
  traffic_collector : TrafficStatsCollector;
}.
(* @src clash-lib/src/proxy/group/smart/state.rs ~^pub struct SmartStateData~ SmartStateData *)
Record SmartStateData : Type := { sd_penalty : gmap str ProxyPenalty; sd_site_stats : gmap str (gmap str SiteStats) }.

(* @src clash-lib/src/proxy/group/smart/state.rs ~    pub fn new\(~ SmartState::new *)
Definition smart_state_new : SmartState :=
  {| penalty := ∅; site_stats := ∅; traffic_collector := collector_new |}.
(* @src clash-lib/src/proxy/group/smart/state.rs ~    pub fn new_with_imported_data~ SmartState::new_with_imported_data *)
Definition new_with_imported_data (data : option SmartStateData) : SmartState :=
  match data with
  | Some d => {| penalty := sd_penalty d; site_stats := sd_site_stats d; traffic_collector := collector_new |}
  | None => smart_state_new
  end.
(* @src clash-lib/src/proxy/group/smart/state.rs ~    pub fn export_data~ SmartState::export_data *)
Definition export_data (st : SmartState) : SmartStateData :=
  {| sd_penalty := penalty st; sd_site_stats := site_stats st |}.

(* @src clash-lib/src/proxy/group/smart/state.rs ~    pub fn get_penalty\(~ SmartState::get_penalty *)
Definition get_penalty (name : str) (st : SmartState) : option ProxyPenalty := penalty st !! name.
(* @src clash-lib/src/proxy/group/smart/state.rs ~    pub fn get_penalty_mut~ SmartState::get_penalty_mut *)
Definition update_penalty (f : ProxyPenalty -> ProxyPenalty) (name : str) (secs : Z) (st : SmartState) : SmartState :=
  {| penalty := <[name := f (default (penalty_new secs) (penalty st !! name))]> (penalty st);
     site_stats := site_stats st; traffic_collector := traffic_collector st |}.

(* @src clash-lib/src/proxy/group/smart/state.rs ~    pub fn get_site_stats\(~ SmartState::get_site_stats *)
Definition get_site_stats (name site : str) (st : SmartState) : option SiteStats :=
  sites ← site_stats st !! name; sites !! site.
(* @src clash-lib/src/proxy/group/smart/state.rs ~    pub fn get_site_stats_mut~ SmartState::get_site_stats_mut *)
Definition update_site_stats (f : SiteStats -> SiteStats) (name site : str) (secs : Z) (st : SmartState) : SmartState :=
  let sites := default ∅ (site_stats st !! name) in
  {| penalty := penalty st;
     site_stats := <[name := <[site := f (default (site_stats_new secs) (sites !! site))]> sites]> (site_stats st);
     traffic_collector := traffic_collector st |}.

(* @src clash-lib/src/proxy/group/smart/state.rs ~    pub fn record_connection_result~ SmartState::record_connection_result *)
Definition record_connection_result (name site : str) (dest_ip : option str) (delay : f64) (success : bool) (secs : Z)
    (st : SmartState) : SmartState :=
  let st := update_penalty (if success then reward secs else add_penalty secs) name secs st in
  let st := update_site_stats (add_result secs delay success) name site secs st in
  match dest_ip with
  | Some ip => update_site_stats (add_result secs delay success) name ip secs st
  | None => st
  end.

Definition with_collector (c : TrafficStatsCollector) (st : SmartState) : SmartState :=
  {| penalty := penalty st; site_stats := site_stats st; traffic_collector := c |}.

(* @src clash-lib/src/proxy/group/smart/state.rs ~    pub fn generate_session_id~ SmartState::generate_session_id *)
Definition generate_session_id (sess : Session) : str :=
  network_to_string (network sess) ++ lit ":" ++ show_socket_addr (source sess) ++ lit "->"
  ++ socks_to_string (destination sess).
(* @src clash-lib/src/proxy/group/smart/state.rs ~    pub fn start_traffic_tracking~ SmartState::start_traffic_tracking *)
Definition start_traffic_tracking (sess : Session) (now : Z) (st : SmartState) : SmartState :=
  with_collector (start_session (generate_session_id sess) now (traffic_collector st)) st.
(* @src clash-lib/src/proxy/group/smart/state.rs ~    pub fn record_traffic~ SmartState::record_traffic *)
Definition record_traffic (sess : Session) (uploaded downloaded now : Z) (st : SmartState) : res SmartState :=
  c ← record_transfer (generate_session_id sess) uploaded downloaded now (traffic_collector st);
  Ok (with_collector c st).
(* @src clash-lib/src/proxy/group/smart/state.rs ~    pub fn record_request~ SmartState::record_request *)
Definition state_record_request (sess : Session) (now : Z) (st : SmartState) : SmartState :=
  with_collector (record_request (generate_session_id sess) now (traffic_collector st)) st.
(* @src clash-lib/src/proxy/group/smart/state.rs ~    pub fn get_traffic_stats~ SmartState::get_traffic_stats *)
Definition get_traffic_stats (sess : Session) (now : Z) (st : SmartState) : res (option TrafficStats) :=
  get_stats (generate_session_id sess) now (traffic_collector st).

(* @src clash-lib/src/proxy/group/smart/state.rs ~    pub fn cleanup_stale~ SmartState::cleanup_stale *)
Definition cleanup_stale (secs now : Z) (st : SmartState) : SmartState :=
  {| site_stats :=
       omap (fun sites =>
         let sites := filter (fun '(_, s) => is_stale secs s = false) sites in
         if bool_decide (sites = ∅) then None else Some sites) (site_stats st);
     traffic_collector := cleanup_old_sessions now (traffic_collector st);
     penalty :=
       omap (fun p => let p := decay secs p in if fgt (pen_value p) (flit 1 100) then Some p else None) (penalty st) |}.

(** ** The score of a proxy *)
Section pick.
Context {P : Type} {OB : Outbound P} {U : UnicodeLib}.

Definition trend_multiplier (t : Z) : f64 := if t =? 1 then flit 9 10 else if t =? -1 then flit 11 10 else f_of_Z 1.
(** What past connections to a site or address add. *)
Definition history_delay (secs : Z) (delay : f64) (s : option SiteStats) : f64 :=
  match s with
  | Some s => fmul (fmul (get_delay_score secs s) (fsub (f_of_Z 2) (success_rate s))) (trend_multiplier (get_trend s))
  | None => delay
  end.
Definition instability (s : option SiteStats) : f64 :=
  match s with Some s => fmul (latency_stability s) (flit 5 10) | None => fzero end.

(* @src clash-lib/src/proxy/group/smart/mod.rs 248 417 Handler::pick_smart (score) *)
Definition score (pm : ProxyManager) (tuning : SiteTuning) (bandwidth : option f64) (secs : Z)
    (site : str) (dest_ip : option str) (st : SmartState) (name : str) : f64 :=
  let delay := match last_delay pm name with Some d => as_millis_f64 d | None => f_of_Z 9999 end in
  let packet_loss := default (f_of_Z 1) (get_packet_loss pm name) in
  let rtt := default (f_of_Z 9999) (get_rtt pm name) in
  let alive := alive pm name in
  let delay_weight := default (f_of_Z 1) (delay_weight tuning) in
  let packet_loss_weight := default (f_of_Z 1000) (packet_loss_weight tuning) in
  let rtt_weight := default (f_of_Z 1) (rtt_weight tuning) in
  let alive_penalty := default (f_of_Z 5000) (alive_penalty tuning) in
  let bandwidth_weight := default fzero bandwidth in
  let site_stats := get_site_stats name site st in
  let ip_stats := ip ← dest_ip; get_site_stats name ip st in
  let penalty_score := match get_penalty name st with Some p => pen_value p | None => fzero end in
  let site_delay := history_delay secs delay site_stats in
  let ip_delay := history_delay secs delay ip_stats in
  let stability_penalty := fadd (instability site_stats) (instability ip_stats) in
  let base_score :=
    fadd (fadd (fadd (fadd (fadd
      (fmul (fdiv (fadd site_delay ip_delay) (f_of_Z 2)) delay_weight)
      (fmul packet_loss packet_loss_weight))
      (fmul rtt rtt_weight))
      stability_penalty)
      (if alive then fzero else alive_penalty))
      penalty_score in
  if fgt bandwidth_weight fzero then fadd base_score (fmul (fmul delay (flit 1 10)) bandwidth_weight) else base_score.

(** [sort_by] on the score, which is stable. *)
Fixpoint insert_by (x : f64 * P) (l : list (f64 * P)) : list (f64 * P) :=
  match l with
  | [] => [x]
  | y :: l' => match fcmp_or_eq y.1 x.1 with Lt => y :: insert_by x l' | _ => x :: y :: l' end
  end.
Definition sort_by_score (l : list (f64 * P)) : list (f64 * P) := foldr insert_by [] l.

(** What a group is configured with. *)
(* @src clash-lib/src/proxy/group/smart/mod.rs ~^pub struct HandlerOptions~ HandlerOptions *)
Record HandlerOptions : Type := { opt_name : str; opt_max_retries : option Z; opt_bandwidth_weight : option f64 }.

(** The proxy, and the state. *)
(* @src clash-lib/src/proxy/group/smart/mod.rs ~    async fn pick_smart~ Handler::pick_smart *)
Definition pick_smart (opts : HandlerOptions) (proxies : list P) (pm : ProxyManager) (secs now : Z) (sess : Session)
    (st : SmartState) : res (option P * SmartState) :=
  match proxies with
  | [] => Ok (None, st)
  | _ =>
    let site := socks_host (destination sess) in
    let dest_ip := show_ip <$> socks_ip (destination sess) in
    let st := cleanup_stale secs now st in
    enhanced ← session_clone sess;
    stats ← get_traffic_stats sess now st;
    let enhanced := match stats with Some t => set_traffic_stats (Some t) enhanced | None => enhanced end in
    tuning ← get_site_tuning oc enhanced;
    let candidates :=
      (fun p => (score pm tuning (opt_bandwidth_weight opts) secs site dest_ip st (ob_name p), p)) <$> proxies in
    match sort_by_score candidates with
    | [] => Ok (None, st)
    | (_, p) :: _ => Ok (Some p, st)
    end
  end.

(** ** Retries *)

(** [values()] of the map gives the statistics in some order. *)
(* @src clash-lib/src/proxy/group/smart/mod.rs ~    async fn calculate_max_retries~ Handler::calculate_max_retries *)
Definition calculate_max_retries (values : gmap str (gmap str SiteStats) -> list (gmap str SiteStats))
    (opts : HandlerOptions) (site : str) (st : SmartState) : Z :=
  let stats := omap (fun sites : gmap str SiteStats => sites !! site) (values (site_stats st)) in
  let avg_success_rate :=
    match stats with
    | [] => flit 5 10
    | _ => fdiv (fsum (success_rate <$> stats)) (f_of_Z (zlen stats))
    end in
  let configured_max := default 0 (opt_max_retries opts) in
  let calculated_max := f_to_u32 (fround (fmul (f_of_Z 3) (fsub (f_of_Z 2) avg_success_rate))) in
  if 0 <? configured_max then configured_max else Z.max 2 (Z.min 6 calculated_max).

(* @src clash-lib/src/proxy/group/smart/mod.rs ~    async fn record_success~ Handler::record_success *)
Definition record_success (name site : str) (dest_ip : option str) (delay : f64) (sess : Session) (secs now : Z)
    (st : SmartState) : res SmartState :=
  record_traffic sess 500 500 now (record_connection_result name site dest_ip delay true secs st).
(* @src clash-lib/src/proxy/group/smart/mod.rs ~    async fn record_failure~ Handler::record_failure *)
Definition record_failure (name site : str) (dest_ip : option str) (sess : Session) (secs now : Z)
    (st : SmartState) : SmartState :=
  state_record_request sess now (record_connection_result name site dest_ip (f_of_Z 9999) false secs st).

(** What the outside contributes to one round of the loop. *)
Record Round : Type := {
  rd_pm : ProxyManager; rd_proxies : list P; rd_secs : Z; rd_now : Z;
  rd_connect : P -> res Chain; rd_elapsed : Z;
}.

(** The loop: [left] rounds remain of [max_retries]; the names tried, the
    pauses made in milliseconds, the outcome ([None] when the loop ends
    without a connection) and the state. *)
(* @src clash-lib/src/proxy/group/smart/mod.rs ~        while retries < max_retries~ Handler::adaptive_retry (loop) *)
Fixpoint retry_loop (opts : HandlerOptions) (sess : Session) (env : nat -> Round) (left : nat) (k : nat)
    (retry_delay : Z) (tried : list str) (st : SmartState) :
    res (list str * list Z * option Chain * SmartState) :=
  match left with
  | O => Ok (tried, [], None, st)
  | S left' =>
    let e := env k in
    '(picked, st) ← pick_smart opts (rd_proxies e) (rd_pm e) (rd_secs e) (rd_now e) sess st;
    match picked with
    | Some proxy =>
      let name := ob_name proxy in
      if bool_decide (name ∈ tried) then retry_loop opts sess env left' (S k) retry_delay tried st
      else
        let tried := tried ++ [name] in
        let site := socks_host (destination sess) in
        let dest_ip := show_ip <$> socks_ip (destination sess) in
        match rd_connect e proxy with
        | Ok stream =>
          let delay := fmul (as_secs_f64 (rd_elapsed e)) (f_of_Z 1000) in
          st ← record_success name site dest_ip delay sess (rd_secs e) (rd_now e) st;
          Ok (tried, [], Some (stream ++ [opt_name opts]), st)
        | Err _ =>
          let st := record_failure name site dest_ip sess (rd_secs e) (rd_now e) st in
          let next_delay := Z.min (retry_delay * 2) 5000 in
          '(tried, pauses, stream, st) ← retry_loop opts sess env left' (S k) next_delay tried st;
          Ok (tried, retry_delay :: pauses, stream, st)
        | Panic => Panic
        end
    | None => Ok (tried, [], None, st)
    end
  end.

(* @src clash-lib/src/proxy/group/smart/mod.rs ~    async fn adaptive_retry~ Handler::adaptive_retry *)
Definition adaptive_retry (values : gmap str (gmap str SiteStats) -> list (gmap str SiteStats))
    (opts : HandlerOptions) (sess : Session) (env : nat -> Round) (now : Z) (st : SmartState) :
    res (list str * list Z * res Chain * SmartState) :=
  let st := state_record_request sess now (start_traffic_tracking sess now st) in
  let max_retries := calculate_max_retries values opts (socks_host (destination sess)) st in
  '(tried, pauses, stream, st) ← retry_loop opts sess env (Z.to_nat max_retries) 0 100 [] st;
  Ok (tried, pauses,
      match stream with
      | Some chain => Ok chain
      | None => if bool_decide (tried = []) then Err "no available proxy in smart group"
                else Err "smart proxy selection failed"
      end, st).
End pick.
End smart.

(** * Invariants of the state *)
Section facts.
Context {LM : LibM} (oc : bool).

Definition stats_ok (s : SiteStats) : Prop := zlen (delays s) <= 10 /\ zlen (successes s) <= 10.
Definition collector_ok (c : TrafficStatsCollector) : Prop :=
  dom (session_bytes c) = dom (connection_start c) /\ dom (request_counts c) = dom (connection_start c) /\
  dom (throughput_samples c) = dom (connection_start c) /\
  map_Forall (fun _ l => zlen l <= 10) (throughput_samples c).

(** Histories are bounded, and the maps of the collector have the same
    sessions. *)
Definition state_ok (st : SmartState) : Prop :=
  map_Forall (fun _ sites => map_Forall (fun _ s => stats_ok s) sites) (site_stats st) /\ collector_ok (traffic_collector st).

Lemma push_bounded_len {A} (x : A) l : zlen l <= 10 -> zlen (push_bounded x l) <= 10.
Proof.
  unfold push_bounded, zlen, MAX_HISTORY_SIZE. rewrite length_app. cbn [length].
  destruct (Z.leb_spec 10 (Z.of_nat (length l))); [|lia]. destruct l; cbn; lia.
Qed.

Lemma add_result_ok secs d b s : stats_ok s -> stats_ok (add_result secs d b s).
Proof. intros [H1 H2]. split; cbn [add_result delays successes]; [destruct b|]; auto using push_bounded_len. Qed.

Lemma update_site_stats_ok f name site secs st :
  (forall s, stats_ok s -> stats_ok (f s)) -> state_ok st -> state_ok (update_site_stats f name site secs st).
Proof.
  intros Hf [H1 H2]. split; [|done]. cbn [update_site_stats site_stats].
  assert (map_Forall (fun _ s => stats_ok s) (default ∅ (site_stats st !! name))) as Hd.
  { destruct (site_stats st !! name) as [m|] eqn:E; [by eapply H1|]. apply map_Forall_empty. }
  apply map_Forall_insert_2; [|done]. apply map_Forall_insert_2; [|done]. apply Hf.
  destruct (default ∅ (site_stats st !! name) !! site) as [s|] eqn:E; cbn; [by eapply Hd|]. by split.
Qed.
Lemma record_connection_result_ok name site ip d b secs st :
  state_ok st -> state_ok (record_connection_result name site ip d b secs st).
Proof.
  intros Hst. unfold record_connection_result.
  assert (state_ok (update_penalty (if b then reward secs else add_penalty secs) name secs st)) as H1 by exact Hst.
  destruct ip; repeat apply update_site_stats_ok; auto using add_result_ok.
Qed.

Lemma start_session_ok id now c : collector_ok c -> collector_ok (start_session id now c).
Proof.
  intros (H1 & H2 & H3 & H4). unfold collector_ok. cbn [start_session connection_start session_bytes request_counts throughput_samples].
  rewrite !dom_insert_L, H1, H2, H3. split_and!; [done..|]. apply map_Forall_insert_2; [by vm_compute|done].
Qed.
Lemma record_request_ok id now c : collector_ok c -> collector_ok (record_request id now c).
Proof.
  intros (H1 & H2 & H3 & H4). unfold collector_ok. cbn [record_request connection_start session_bytes request_counts throughput_samples].
  by rewrite dom_alter_L.
Qed.
Lemma record_transfer_ok id up down now c c' : collector_ok c -> record_transfer oc id up down now c = Ok c' -> collector_ok c'.
Proof.
  intros (H1 & H2 & H3 & H4) Hr. unfold record_transfer in Hr.
  destruct (session_bytes c !! id) as [[u d]|] eqn:Eb; [|by injection Hr as <-].
  apply res_bind_ok in Hr as (u' & _ & Hr). apply res_bind_ok in Hr as (d' & _ & Hr).
  assert (dom (<[id := (u', d')]> (session_bytes c)) = dom (connection_start c)) as Hb.
  { by rewrite dom_insert_lookup_L by (rewrite Eb; by eexists). }
  destruct (connection_start c !! id); [|by injection Hr as <-].
  destruct (fgt _ fzero); [|by injection Hr as <-]. apply res_bind_ok in Hr as (t & _ & [= <-]).
  unfold collector_ok. cbn. rewrite dom_alter_L. split_and!; [done..|].
  intros i l. rewrite lookup_alter_Some. intros [(<- & l' & Hl & ->)|[_ Hl]]; [|by eapply H4].
  specialize (H4 _ _ Hl). cbv beta in H4. unfold zlen in *. rewrite length_app. cbn [length].
  destruct (Z.ltb_spec 10 (Z.of_nat (length l' + 1))); [|rewrite length_app; cbn; lia]. destruct l'; cbn in *; [lia|].
  rewrite length_app. cbn. lia.
Qed.
Lemma cleanup_old_sessions_ok now c : collector_ok c -> collector_ok (cleanup_old_sessions now c).
Proof.
  intros (H1 & H2 & H3 & H4). unfold collector_ok, cleanup_old_sessions. cbn.
  assert (forall V (m : gmap str V) (S : gset str), S ⊆ dom m -> dom (filter (fun '(id, _) => id ∈ S) m) = S) as Hdom.
  { intros V m S HS. apply set_eq. intros i. rewrite elem_of_dom. split.
    - intros (v & Hv%map_lookup_filter_Some). by destruct Hv.
    - intros Hi. destruct (proj1 (elem_of_dom m i) (HS i Hi)) as (v & Hv). exists v. by apply map_lookup_filter_Some. }
  pose proof (dom_filter_subseteq (fun '(_, t) => now - 300 * 10 ^ 9 < t) (connection_start c)) as Hsub.
  split_and!; try (apply Hdom; by rewrite ?H1, ?H2, ?H3).
  intros i l (Hl & _)%map_lookup_filter_Some. by eapply H4.
Qed.

Lemma cleanup_stale_ok secs now st : state_ok st -> state_ok (cleanup_stale secs now st).
Proof.
  intros [H1 H2]. split; [|by apply cleanup_old_sessions_ok]. cbn [cleanup_stale site_stats].
  intros name sites. rewrite lookup_omap_Some. intros (sites' & Hs & Hl). case_bool_decide; [done|]. injection Hs as <-.
  intros site s (Hl' & _)%map_lookup_filter_Some. by eapply (H1 _ _ Hl).
Qed.

(** ** The choice *)
Section choice.
Context {P : Type} {OB : Outbound P} {U : UnicodeLib}.

(** [h] is the first of the lowest scores. *)
Definition first_lowest (l : list (f64 * P)) (h : f64 * P) : Prop :=
  exists i, l !! i = Some h /\ forall j q, l !! j = Some q ->
    flt q.1 h.1 = false /\ ((j < i)%nat -> flt h.1 q.1 = true).

Lemma sort_by_score_head l :
  Forall (fun x => is_nan x.1 = false) l -> l <> [] -> exists h t, sort_by_score l = h :: t /\ first_lowest l h.
Proof.
  induction 1 as [|x l Hx Hl IH]; [done|]. intros _. cbn [sort_by_score foldr]. fold (sort_by_score l).
  destruct (decide (l = [])) as [->|Hne].
  { exists x, []. split; [done|]. exists 0%nat. split; [done|]. intros j q Hq%list_lookup_singleton_Some.
    destruct Hq as [-> <-]. split; [|lia]. apply flt_false_key; [done..|]. unfold klt. lia. }
  destruct (IH Hne) as (y & t & -> & i & Hi & Hmin). assert (is_nan y.1 = false) as Hy.
  { rewrite Forall_forall in Hl. apply Hl. by eapply list_elem_of_lookup_2. }
  cbn [insert_by]. unfold fcmp_or_eq. rewrite SFcompare_key by done. cbn [from_option id].
  assert (forall j q, l !! j = Some q -> is_nan q.1 = false) as Hn.
  { intros j q Hq. rewrite Forall_forall in Hl. apply Hl. by eapply list_elem_of_lookup_2. }
  destruct (kcmp_spec (fkey y.1) (fkey x.1)) as [E|E|E].
  2: { do 2 eexists. split; [done|]. exists (S i). split; [done|]. intros [|j] q Hq; cbn in Hq.
       - injection Hq as <-. rewrite flt_false_key, flt_key by done. unfold klt in *. split; [lia|done].
       - destruct (Hmin j q Hq) as [H1 H2]. split; [done|]. intros Hj. apply H2. lia. }
  all: do 2 eexists; split; [done|]; exists 0%nat; (split; [done|]); intros [|j] q Hq; cbn in Hq;
    [injection Hq as <-; split; [apply flt_false_key; [done..|]; unfold klt; lia|lia]|].
  all: destruct (Hmin j q Hq) as [H1 _]; split; [|lia]; pose proof (Hn j q Hq);
    rewrite flt_false_key in H1 |- * by done; unfold klt in *; try rewrite <- E; lia.
Qed.

(** The smart choice.  With proxies to choose from, a choice that does
    not panic is a proxy whose score is the lowest, the first of those; the
    scores are those of the cleaned state under some tuning, and are numbers
    (not NaN). *)
Theorem pick_smart_lowest (opts : HandlerOptions) (proxies : list P) (pm : ProxyManager) (secs now : Z)
    (sess : Session) (st st' : SmartState) (o : option P) (Hne : proxies <> [])
    (Hpick : pick_smart oc opts proxies pm secs now sess st = Ok (o, st')) :
  st' = cleanup_stale secs now st /\
  exists tuning, let sc p := score pm tuning (opt_bandwidth_weight opts) secs (socks_host (destination sess))
                               (show_ip <$> socks_ip (destination sess)) st' (ob_name p) in
    (forall p, p ∈ proxies -> is_nan (sc p) = false) ->
    exists i p, o = Some p /\ proxies !! i = Some p /\
      forall j q, proxies !! j = Some q -> flt (sc q) (sc p) = false /\ ((j < i)%nat -> flt (sc p) (sc q) = true).
Proof.
  destruct proxies as [|p0 ps]; [done|]. cbn [pick_smart] in Hpick.
  apply res_bind_ok in Hpick as (enh & _ & Hpick). apply res_bind_ok in Hpick as (stats & _ & Hpick).
  apply res_bind_ok in Hpick as (tuning & _ & Hpick). set (l := _ <$> (p0 :: ps)) in Hpick.
  assert (st' = cleanup_stale secs now st) as Hst'.
  { destruct (sort_by_score l) as [|[? ?] ?]; by injection Hpick as _ <-. }
  split; [done|]. exists tuning. intros sc Hnum.
  assert (l = (fun p => (sc p, p)) <$> (p0 :: ps)) as Hl by (unfold sc; by rewrite Hst').
  destruct (sort_by_score_head l) as ([s p] & t & Hsort & i & Hi & Hmin); [|by rewrite Hl|].
  { rewrite Hl. apply Forall_fmap, Forall_forall. exact Hnum. }
  rewrite Hsort in Hpick. injection Hpick as <- _. rewrite Hl, list_lookup_fmap in Hi.
  destruct ((p0 :: ps) !! i) as [p'|] eqn:Ei; [|done]. injection Hi as <- ->. exists i, p. split_and!; [done|done|].
  intros j q Hq. apply (Hmin j (sc q, q)). by rewrite Hl, list_lookup_fmap, Hq.
Qed.

Lemma pick_smart_in opts proxies pm secs now sess st p st' :
  pick_smart oc opts proxies pm secs now sess st = Ok (Some p, st') -> p ∈ proxies.
Proof.
  destruct proxies as [|p0 ps]; [done|]. cbn [pick_smart]. intros Hpick.
  apply res_bind_ok in Hpick as (enh & _ & Hpick). apply res_bind_ok in Hpick as (stats & _ & Hpick).
  apply res_bind_ok in Hpick as (tuning & _ & Hpick). set (f := fun p => (_, p)) in Hpick.
  assert (forall (x : f64 * P) l, x ∈ sort_by_score l -> x ∈ l) as Hs.
  { intros x l. induction l as [|y l IH]; [done|]. cbn [sort_by_score foldr]. fold (sort_by_score l).
    assert (forall z l', x ∈ insert_by z l' -> x = z \/ x ∈ l') as Hi.
    { intros z l'. induction l' as [|w l' IH']; cbn [insert_by]; [set_solver|]. destruct (fcmp_or_eq w.1 z.1); set_solver. }
    intros [->|?]%Hi; set_solver. }
  destruct (sort_by_score (f <$> (p0 :: ps))) as [|[s q] t] eqn:E; [done|]. injection Hpick as <- _.
  assert ((s, q) ∈ f <$> (p0 :: ps)) as Hin by (apply Hs; rewrite E; by left).
  apply list_elem_of_fmap in Hin as (q' & [= _ ->] & Hq). done.
Qed.

(** ** Retries *)
Lemma max_retries_range values opts site st :
  opt_max_retries opts = None -> 2 <= calculate_max_retries values opts site st <= 6.
Proof. intros Ho. unfold calculate_max_retries. rewrite Ho. cbn. lia. Qed.

Lemma retry_loop_spec opts sess env left k delay tried st tried' pauses stream st' :
  0 <= delay <= 5000 -> NoDup tried ->
  retry_loop oc opts sess env left k delay tried st = Ok (tried', pauses, stream, st') ->
  NoDup tried' /\ (length tried' <= length tried + left)%nat /\ Forall (fun d => 0 <= d <= 5000) pauses /\
  (exists new, tried' = tried ++ new /\
     Forall (fun n => exists j p, (k <= j < k + left)%nat /\ p ∈ rd_proxies (env j) /\ ob_name p = n) new) /\
  forall chain, stream = Some chain -> exists j p s, (k <= j < k + left)%nat /\ last tried' = Some (ob_name p) /\
    rd_connect (env j) p = Ok s /\ chain = s ++ [opt_name opts].
Proof.
  revert k delay tried st tried' pauses stream st'.
  induction left as [|left IH]; intros k delay tried st tried' pauses stream st' Hd Hnd Hrun; cbn [retry_loop] in Hrun.
  { injection Hrun as <- <- <- <-. split_and!; [done|lia|constructor| |done]. exists []. by rewrite app_nil_r. }
  apply res_bind_ok in Hrun as ([picked st1] & Hpick & Hrun). destruct picked as [proxy|].
  2: { injection Hrun as <- <- <- <-. split_and!; [done|lia|constructor| |done]. exists []. by rewrite app_nil_r. }
  apply pick_smart_in in Hpick as Hin. case_bool_decide as Htried.
  { destruct (IH (S k) delay tried st1 tried' pauses stream st' Hd Hnd Hrun) as (H1 & H2 & H3 & (new & H4 & H4') & H5).
    split_and!; [done|lia|done| |].
    - exists new. split; [done|]. eapply Forall_impl; [done|]. cbv beta. intros n (j & p & Hj & Hp). exists j, p. split; [lia|done].
    - intros chain Hc. destruct (H5 chain Hc) as (j & p & s & Hj & Hp). exists j, p, s. split; [lia|done]. }
  assert (NoDup (tried ++ [ob_name proxy])) as Hnd'.
  { apply NoDup_app. split_and!; [done|set_solver|apply NoDup_singleton]. }
  destruct (rd_connect (env k) proxy) as [s|e|] eqn:Ec; [| |done].
  - apply res_bind_ok in Hrun as (st2 & _ & Hrun). injection Hrun as <- <- <- <-.
    split_and!; [done|rewrite length_app; cbn; lia|constructor| |].
    + exists [ob_name proxy]. split; [done|]. constructor; [|constructor]. exists k, proxy. split_and!; [lia|lia|done|done].
    + intros chain [= <-]. exists k, proxy, s. split_and!; [lia|lia|by rewrite last_snoc|done|done].
  - apply res_bind_ok in Hrun as ([[[tr pa] so] s2] & Hrec & Hrun). injection Hrun as <- <- <- <-.
    apply IH in Hrec as (H1 & H2 & H3 & (new & H4 & H4') & H5); [|lia|done]. rewrite length_app in H2. cbn in H2.
    split_and!; [done|lia|by constructor| |].
    + exists (ob_name proxy :: new). rewrite H4, <- (assoc_L (++)). split; [done|]. constructor.
      * exists k, proxy. split_and!; [lia|lia|done|done].
      * eapply Forall_impl; [done|]. cbv beta. intros n (j & p & Hj & Hp). exists j, p. split; [lia|done].
    + intros chain Hc. destruct (H5 chain Hc) as (j & p & s & Hj & Hp). exists j, p, s. split; [lia|done].
Qed.

(** Connecting through the smart group.  Unless something panics, the
    retries end: no proxy is dialled twice, at most the computed number of
    them is dialled (2 to 6 without a configured maximum), a pause between
    two is at most five seconds, and a connection is the one made by the
    last proxy dialled, with the group added to its chain. *)
Theorem adaptive_retry_bounded (values : gmap str (gmap str SiteStats) -> list (gmap str SiteStats))
    (opts : HandlerOptions) (sess : Session) (env : nat -> Round) (now : Z) (st st' : SmartState)
    (tried : list str) (pauses : list Z) (r : res Chain)
    (Hrun : adaptive_retry oc values opts sess env now st = Ok (tried, pauses, r, st')) :
  NoDup tried /\ Forall (fun d => 0 <= d <= 5000) pauses /\
  (exists n, (length tried <= Z.to_nat n)%nat /\ (opt_max_retries opts = None -> 2 <= n <= 6) /\
     (forall m, opt_max_retries opts = Some m -> 0 < m -> n = m)) /\
  Forall (fun n => exists j p, p ∈ rd_proxies (env j) /\ ob_name p = n) tried /\
  forall chain, r = Ok chain -> exists j p s, last tried = Some (ob_name p) /\ rd_connect (env j) p = Ok s /\
    chain = s ++ [opt_name opts].
Proof.
  unfold adaptive_retry in Hrun. set (st0 := state_record_request _ _ _) in Hrun.
  set (n := calculate_max_retries _ _ _ _) in Hrun.
  apply res_bind_ok in Hrun as ([[[tr pa] so] s2] & Hloop & Hrun). injection Hrun as <- <- <- <-.
  apply retry_loop_spec in Hloop as (H1 & H2 & H3 & (new & H4 & H4') & H5); [|lia|constructor].
  cbn in H2, H4. subst new. split_and!; [done|done| | |].
  - exists n. split_and!; [done|by apply max_retries_range|]. intros m Hm Hpos. unfold n, calculate_max_retries. rewrite Hm.
    cbn [from_option id]. by rewrite (proj2 (Z.ltb_lt 0 m)).
  - eapply Forall_impl; [done|]. cbv beta. intros x (j & p & _ & Hp). by exists j, p.
  - intros chain Hc. destruct so as [c|]; [|by case_bool_decide]. injection Hc as ->.
    destruct (H5 chain eq_refl) as (j & p & s & _ & Hp). by exists j, p, s.
Qed.

(** ** Every reachable state is bounded *)
Lemma with_collector_ok c st : state_ok st -> collector_ok c -> state_ok (with_collector c st).
Proof. intros [H1 _] H2. by split. Qed.

Lemma pick_smart_ok opts proxies pm secs now sess st o st' :
  state_ok st -> pick_smart oc opts proxies pm secs now sess st = Ok (o, st') -> state_ok st'.
Proof.
  intros Hst Hpick. destruct proxies as [|p0 ps]; [by injection Hpick as _ <-|]. cbn [pick_smart] in Hpick.
  apply res_bind_ok in Hpick as (enh & _ & Hpick). apply res_bind_ok in Hpick as (stats & _ & Hpick).
  apply res_bind_ok in Hpick as (tuning & _ & Hpick). assert (st' = cleanup_stale secs now st) as ->.
  { destruct (sort_by_score _) as [|[? ?] ?]; by injection Hpick as _ <-. }
  by apply cleanup_stale_ok.
Qed.

Lemma retry_loop_ok opts sess env left k delay tried st tried' pauses stream st' :
  state_ok st -> retry_loop oc opts sess env left k delay tried st = Ok (tried', pauses, stream, st') -> state_ok st'.
Proof.
  revert k delay tried st tried' pauses stream st'.
  induction left as [|left IH]; intros k delay tried st tried' pauses stream st' Hst Hrun; cbn [retry_loop] in Hrun.
  { by injection Hrun as _ _ _ <-. }
  apply res_bind_ok in Hrun as ([picked st1] & Hpick & Hrun). apply pick_smart_ok in Hpick; [|done].
  destruct picked as [proxy|]; [|by injection Hrun as _ _ _ <-]. case_bool_decide; [by eapply IH|].
  destruct (rd_connect (env k) proxy) as [s|e|]; [| |done].
  - apply res_bind_ok in Hrun as (st2 & Hrec & Hrun). injection Hrun as _ _ _ <-.
    apply res_bind_ok in Hrec as (c & Hc & [= <-]).
    eapply (record_connection_result_ok) in Hpick as Hr. apply with_collector_ok; [exact Hr|].
    eapply record_transfer_ok; [apply Hr|done].
  - apply res_bind_ok in Hrun as ([[[tr pa] so] s2] & Hrec & Hrun). injection Hrun as _ _ _ <-.
    eapply IH; [|exact Hrec]. unfold record_failure, state_record_request. apply with_collector_ok.
    + by apply record_connection_result_ok.
    + apply record_request_ok. by eapply (record_connection_result_ok).
Qed.

(** The states a group can be in: new, used, or saved and loaded again. *)
Inductive smart_reachable : SmartState -> Prop :=
| reach_new : smart_reachable smart_state_new
| reach_load st : smart_reachable st -> smart_reachable (new_with_imported_data (Some (export_data st)))
| reach_pick opts proxies pm secs now sess st o st' :
    smart_reachable st -> pick_smart oc opts proxies pm secs now sess st = Ok (o, st') -> smart_reachable st'
| reach_connect values opts sess env now st tried pauses r st' :
    smart_reachable st -> adaptive_retry oc values opts sess env now st = Ok (tried, pauses, r, st') -> smart_reachable st'.

(** The state of a smart group stays small.  In every reachable state
    the delay and result histories of a site and the throughput samples of a
    session have at most ten entries, and the four maps of the traffic
    collector have the same sessions. *)
Theorem smart_state_bounded (st : SmartState) (Hr : smart_reachable st) : state_ok st.
Proof.
  assert (collector_ok collector_new) as Hnew by (split_and!; try done; apply map_Forall_empty).
  induction Hr as [|st _ IH|opts proxies pm secs now sess st o st' _ IH Hp|values opts sess env now st tried pauses r st' _ IH Ha].
  - split; [apply map_Forall_empty|done].
  - split; [apply IH|done].
  - by eapply pick_smart_ok.
  - unfold adaptive_retry in Ha. apply res_bind_ok in Ha as ([[[tr pa] so] s2] & Hloop & Ha). injection Ha as _ _ _ <-.
    eapply retry_loop_ok; [|exact Hloop]. unfold state_record_request, start_traffic_tracking.
    assert (collector_ok (start_session (generate_session_id sess) now (traffic_collector st))) as Hc by by apply start_session_ok, IH.
    apply with_collector_ok; [by apply with_collector_ok|]. by apply record_request_ok.
Qed.
End choice.

(** A connection to an IP address is counted twice: the address is also the
    host under which its site is recorded. *)
Lemma ip_destination_counted_twice name ip port delay secs :
  let dest := Ip (sa_new ip port) in
  exists s, get_site_stats name (socks_host dest)
    (record_connection_result name (socks_host dest) (show_ip <$> socks_ip dest) delay true secs smart_state_new) = Some s /\
    successes s = [true; true].
Proof.
  intros dest. assert (socks_ip dest = Some ip /\ socks_host dest = show_ip ip) as [-> ->] by by destruct ip.
  unfold record_connection_result. cbn [fmap option_fmap option_map]. unfold get_site_stats, update_site_stats at 1.
  cbn [site_stats]. rewrite lookup_insert_eq. cbn [mbind option_bind]. rewrite lookup_insert_eq. eexists. split; [done|].
  unfold update_site_stats. cbn [site_stats]. rewrite lookup_insert_eq. cbn [from_option id]. rewrite lookup_insert_eq.
  cbn [from_option id]. cbn [site_stats update_penalty smart_state_new]. rewrite lookup_empty. cbn [from_option id]. by rewrite lookup_empty.
Qed.
End facts.

(** * A concrete run *)
#[local] Existing Instances demo_outbound ascii_lower.
#[local] Instance demo_libm : LibM := {| fexp_ := fun _ => f_of_Z 1; fpowf := fun _ _ => f_of_Z 1 |}.
Definition demo_opts : HandlerOptions := {| opt_name := lit "smart"; opt_max_retries := None; opt_bandwidth_weight := None |}.
Definition smart_proxies : list demo_proxy := [{| dp_name := lit "c"; dp_up := false |}; {| dp_name := lit "b"; dp_up := true |}].
Definition demo_round (k : nat) : Round := {|
  rd_pm := ∅; rd_proxies := smart_proxies; rd_secs := 1000; rd_now := 10 ^ 12;
  rd_connect := fun p => ob_connect_stream p call_session; rd_elapsed := 2 * 10 ^ 8 |}.
Definition demo_values (m : gmap str (gmap str SiteStats)) : list (gmap str SiteStats) := snd <$> map_to_list m.
Definition demo_run : res (list str * list Z * res Chain * SmartState) :=
  adaptive_retry true demo_values demo_opts call_session demo_round (10 ^ 12) smart_state_new.

(** The first proxy fails and is avoided, the second one connects. *)
Lemma demo_run_ok : exists st, demo_run = Ok ([lit "c"; lit "b"], [100], Ok [lit "b"; lit "smart"], st).
Proof. eexists. vm_compute. reflexivity. Qed.

Lemma pick_smart_lowest_witness : exists o st', pick_smart true demo_opts smart_proxies ∅ 1000 (10 ^ 12) call_session smart_state_new
    = Ok (o, st') /\ st' = cleanup_stale 1000 (10 ^ 12) smart_state_new.
Proof.
  assert (exists o st', pick_smart true demo_opts smart_proxies ∅ 1000 (10 ^ 12) call_session smart_state_new = Ok (o, st'))
    as (o & st' & H) by (do 2 eexists; vm_compute; reflexivity).
  exists o, st'. split; [exact H|].
  exact (proj1 (pick_smart_lowest true demo_opts smart_proxies ∅ 1000 (10 ^ 12) call_session smart_state_new st' o ltac:(done) H)).
Defined.

Lemma adaptive_retry_bounded_witness : NoDup [lit "c"; lit "b"].
Proof.
  destruct demo_run_ok as (st & H). unfold demo_run in H.
  exact (proj1 (adaptive_retry_bounded true demo_values demo_opts call_session demo_round (10 ^ 12) smart_state_new st
           [lit "c"; lit "b"] [100] (Ok [lit "b"; lit "smart"]) H)).
Defined.

Lemma smart_state_bounded_witness : exists st, demo_run = Ok ([lit "c"; lit "b"], [100], Ok [lit "b"; lit "smart"], st) /\ state_ok st.
Proof.
  destruct demo_run_ok as (st & H). exists st. split; [exact H|]. unfold demo_run in H.
  apply (smart_state_bounded (P := demo_proxy) true).
  exact (reach_connect true demo_values demo_opts call_session demo_round (10 ^ 12) smart_state_new
           [lit "c"; lit "b"] [100] (Ok [lit "b"; lit "smart"]) st (reach_new true) H).
Defined.
