(* ===== verification/DnsConfig.v ===== *)
(** * The configuration of the DNS component ([clash-lib/src/app/dns/config.rs])

    Name servers written as URLs, the policies and hosts, the fallback
    filter, and the conversion of the configuration file's [dns] section.
    The choice of the outbound interface ([app/net/mod.rs]) is here too.

    The URL parser, the network types of [ipnet] and the deserialisers of the
    encrypted listeners are parameters.  A map of the file is a list of its
    entries in the order of iteration. *)

From stdpp Require Import sorting.
From S2P Require Import Prelude Str Net Session Trie Geo.

(** ** Outbound interfaces *)

(** The interfaces of the system are an argument. *)
(* @src clash-lib/src/app/net/mod.rs ~^pub fn get_interface_by_name~ get_interface_by_name *)
Definition get_interface_by_name (ifaces : list OutboundInterface) (name : str) : option OutboundInterface :=
  List.find (fun i => bool_decide (oi_name i = name)) ifaces.

(** [Ipv6Addr::is_unicast_global] of the standard library. *)
Definition is_unicast_global (a : Z) : bool :=
  let s k := nth k (segments a) 0 in
  negb (Z.shiftr a 120 =? 0xff) && negb (a =? 1) &&
  negb (Z.land (s 0%nat) 0xffc0 =? 0xfe80) && negb (Z.land (s 0%nat) 0xfe00 =? 0xfc00) && negb (a =? 0) &&
  negb (((s 0%nat =? 0x2001) && (s 1%nat =? 0xdb8)) || ((s 0%nat =? 0x3fff) && (s 1%nat <=? 0xfff))).

(* @src clash-lib/src/app/net/mod.rs 146 156 get_outbound_interface (priority) *)
Definition priority : list str :=
  map lit ["eth"; "en"; "pdp_ip"; "WLAN"; "wlp"; "Ethernet"; "vEthernet"; "Wi-Fi"; "Tailscale"]%string.

Fixpoint position_by {A} (f : A -> bool) (i : Z) (l : list A) : option Z :=
  match l with
  | [] => None
  | x :: l' => if f x then Some i else position_by f (i + 1) l'
  end.

Definition priority_of (i : OutboundInterface) : Z :=
  default (2 ^ 64 - 1) (position_by (fun p => contains p (oi_name i)) 0 priority).

(* @src clash-lib/src/app/net/mod.rs 158 181 get_outbound_interface (order) *)
Definition iface_cmp (left right : OutboundInterface) : comparison :=
  match oi_addr_v6 left, oi_addr_v6 right with
  | Some _, None => Lt
  | None, Some _ => Gt
  | Some l, Some r =>
    if is_unicast_global l && negb (is_unicast_global r) then Lt
    else if negb (is_unicast_global l) && is_unicast_global r then Gt
    else priority_of left ?= priority_of right
  | None, None => priority_of left ?= priority_of right
  end.

(** [sort_by] is stable. *)
Fixpoint insert_by {A} (cmp : A -> A -> comparison) (x : A) (l : list A) : list A :=
  match l with
  | [] => [x]
  | y :: l' => match cmp x y with Gt => y :: insert_by cmp x l' | _ => x :: l end
  end.
Definition sort_by {A} (cmp : A -> A -> comparison) (l : list A) : list A := foldr (insert_by cmp) [] l.

(* @src clash-lib/src/app/net/mod.rs ~^pub fn get_outbound_interface~ get_outbound_interface *)
Definition get_outbound_interface (ifaces : list OutboundInterface) : option OutboundInterface :=
  head (sort_by iface_cmp (base.filter (fun i => negb (contains (lit "tun") (oi_name i)) &&
    (bool_decide (is_Some (oi_addr_v4 i)) || bool_decide (is_Some (oi_addr_v6 i))) = true) ifaces)).

(** ** Name servers *)

(* @src clash-lib/src/app/dns/dns_client.rs ~^pub enum DNSNetMode~ DNSNetMode *)
Inductive DNSNetMode : Type := NmUdp | NmTcp | NmDoT | NmDoH | NmDhcp.
#[global] Instance dns_net_mode_eq_dec : EqDecision DNSNetMode.
Proof. solve_decision. Defined.

(* @src clash-lib/src/app/dns/dns_client.rs ~^impl Display for DNSNetMode~ DNSNetMode::fmt *)
Definition net_mode_show (m : DNSNetMode) : str :=
  lit match m with NmUdp => "UDP" | NmTcp => "TCP" | NmDoT => "DoT" | NmDoH => "DoH" | NmDhcp => "DHCP" end.

(* @src clash-lib/src/app/dns/dns_client.rs ~^impl FromStr for DNSNetMode~ DNSNetMode::from_str *)
Definition net_mode_from_str (s : str) : res DNSNetMode :=
  if bool_decide (s = lit "UDP") then Ok NmUdp
  else if bool_decide (s = lit "TCP") then Ok NmTcp
  else if bool_decide (s = lit "DoH") then Ok NmDoH
  else if bool_decide (s = lit "DoT") then Ok NmDoT
  else if bool_decide (s = lit "DHCP") then Ok NmDhcp
  else Err "unsupported protocol".

(* @src clash-lib/src/app/dns/config.rs ~^pub struct NameServer~ NameServer *)
Record NameServer : Type := {
  ns_net : DNSNetMode;
  ns_address : str;
  ns_interface : option OutboundInterface;
  ns_proxy : option str;
}.

(** The [url] crate. *)
Class UrlLib : Type := {
  Url : Type;
  url_parse : str -> option Url;
  url_scheme : Url -> str;
  url_host_str : Url -> option str;
  url_fragment : Url -> option str;
}.

Section nameservers.
Context {UL : UrlLib} {RX : RegexLib} (ifaces : list OutboundInterface).

(* @src clash-lib/src/app/dns/config.rs ~    pub fn host_with_default_port~ Config::host_with_default_port *)
Definition host_with_default_port (host port : str) : res str :=
  r ← or_panic (regex_new (lit ":\d+$"));
  if regex_is_match r host then Ok host else Ok (host ++ lit ":" ++ port).

Fixpoint find_proxy_pair (pairs : list str) : option str :=
  match pairs with
  | [] => None
  | p :: rest =>
    if starts_with (lit "proxy=") p then Some (trim_start_matches (lit "proxy=") p)
    else if negb (contains (lit "=") p) then Some p
    else find_proxy_pair rest
  end.

(* @src clash-lib/src/app/dns/config.rs ~    pub fn parse_outbound_proxy~ Config::parse_outbound_proxy *)
Definition parse_outbound_proxy (url : Url) : option str :=
  frag ← url_fragment url; find_proxy_pair (split_on 38 frag).

Fixpoint find_interface_pair (pairs : list str) : option str :=
  match pairs with
  | [] => None
  | first :: rest =>
    if starts_with (lit "interface=") first then Some (trim_start_matches (lit "interface=") first)
    else find_interface_pair rest
  end.

(* @src clash-lib/src/app/dns/config.rs ~    pub fn parse_outbound_interface~ Config::parse_outbound_interface *)
Definition parse_outbound_interface (url : Url) : option str :=
  frag ← url_fragment url; find_interface_pair (split_on 38 frag).

(* @src clash-lib/src/app/dns/config.rs 93 121 Config::parse_nameserver (scheme) *)
Definition scheme_address (scheme host : str) : res (str * str) :=
  if bool_decide (scheme = lit "udp") then addr ← host_with_default_port host (lit "53"); Ok (addr, lit "UDP")
  else if bool_decide (scheme = lit "tcp") then addr ← host_with_default_port host (lit "53"); Ok (addr, lit "TCP")
  else if bool_decide (scheme = lit "tls") then addr ← host_with_default_port host (lit "853"); Ok (addr, lit "DoT")
  else if bool_decide (scheme = lit "https") then addr ← host_with_default_port host (lit "443"); Ok (addr, lit "DoH")
  else if bool_decide (scheme = lit "dhcp") then Ok (host, lit "DHCP")
  else Err "DNS nameserver unsupported scheme".

(* @src clash-lib/src/app/dns/config.rs 127 141 Config::parse_nameserver (interface) *)
Definition server_interface (iface : option str) : res (option OutboundInterface) :=
  match iface with
  | None => Ok None
  | Some name =>
    if bool_decide (name = lit "auto") then
      i ← ok_or (get_outbound_interface ifaces) "DNS nameserver [auto] no outbound interface found"; Ok (Some i)
    else i ← ok_or (get_interface_by_name ifaces name) "DNS nameserver invalid interface"; Ok (Some i)
  end.

(* @src clash-lib/src/app/dns/config.rs 73 144 Config::parse_nameserver (one server) *)
Definition parse_one (server : str) : res NameServer :=
  let server := if negb (contains (lit "://") server) then lit "udp://" ++ server else server in
  url ← ok_or (url_parse server) "invalid dns server";
  host ← or_panic (url_host_str url);
  let iface := parse_outbound_interface url in
  let proxy := parse_outbound_proxy url in
  '(addr, net) ← scheme_address (url_scheme url) host;
  net ← net_mode_from_str net;
  interface ← server_interface iface;
  Ok {| ns_net := net; ns_address := addr; ns_interface := interface; ns_proxy := proxy |}.

(* @src clash-lib/src/app/dns/config.rs ~    pub fn parse_nameserver\(~ Config::parse_nameserver *)
Definition parse_nameserver (servers : list str) : res (list NameServer) :=
  res_fold (fun acc server => ns ← parse_one server; Ok (acc ++ [ns])) [] servers.

(* @src clash-lib/src/app/dns/config.rs ~    pub fn parse_nameserver_policy~ Config::parse_nameserver_policy *)
Definition parse_nameserver_policy (policy_map : list (str * str)) : res (gmap str NameServer) :=
  res_fold (fun policy '(domain, server) =>
    nameservers ← parse_nameserver [server];
    if negb (valid_and_split_domain domain).2 then Err "DNS ResolverRule invalid domain"
    else ns ← or_panic (head nameservers); Ok (<[domain := ns]> policy)) ∅ policy_map.
End nameservers.

(** ** Hosts, filters, subnets *)

(* @src clash-lib/src/app/dns/config.rs ~    pub fn parse_fallback_ip_cidr~ Config::parse_fallback_ip_cidr *)
Definition parse_fallback_ip_cidr {NL : IpNetLib} (ipcidr : list str) : res (list IpNet) :=
  res_fold (fun output ip => net ← ok_or (ipnet_parse ip) "invalid IP address syntax"; Ok (output ++ [net])) [] ipcidr.

Definition localhost_hosts : StringTrie IpAddr := (trie_insert trie_new (lit "localhost") (V4 0x7f000001)).1.

(* @src clash-lib/src/app/dns/config.rs ~    pub fn parse_hosts~ Config::parse_hosts *)
Definition parse_hosts (hosts_mapping : list (str * str)) : res (StringTrie IpAddr) :=
  res_fold (fun tree '(host, ip_str) =>
    ip ← ok_or (parse_ip ip_str) "invalid IP address syntax"; Ok (trie_insert tree host ip).1)
    localhost_hosts hosts_mapping.

(** [Ipv4Net] and [Ipv6Net] of [ipnet]. *)
Class FamilyNetLib : Type := {
  Ipv4Net : Type; Ipv6Net : Type;
  v4net_parse : str -> option Ipv4Net; v6net_parse : str -> option Ipv6Net;
  v4net_network : Ipv4Net -> Z; v6net_network : Ipv6Net -> Z;
  v4net_prefix_len : Ipv4Net -> Z; v6net_prefix_len : Ipv6Net -> Z;
}.

(* @src clash-lib/src/app/dns/config.rs ~^pub struct EdnsClientSubnet~ EdnsClientSubnet *)
Record EdnsClientSubnet {FN : FamilyNetLib} : Type := { ecs_ipv4 : option Ipv4Net; ecs_ipv6 : option Ipv6Net }.

Definition parse_opt {A} (f : str -> option A) (e : string) (o : option str) : res (option A) :=
  match o with
  | None => Ok None
  | Some value => a ← ok_or (f value) e; Ok (Some a)
  end.

(* @src clash-lib/src/app/dns/config.rs ~^fn parse_edns_client_subnet~ parse_edns_client_subnet *)
Definition parse_edns_client_subnet {FN : FamilyNetLib} (ipv4 ipv6 : option str) : res EdnsClientSubnet :=
  ipv4 ← parse_opt v4net_parse "invalid edns-client-subnet ipv4 network" ipv4;
  ipv6 ← parse_opt v6net_parse "invalid edns-client-subnet ipv6 network" ipv6;
  match ipv4, ipv6 with
  | None, None => Err "edns-client-subnet requires at least one of ipv4/ipv6"
  | _, _ => Ok {| ecs_ipv4 := ipv4; ecs_ipv6 := ipv6 |}
  end.

(** ** The [dns] section *)

(* @src clash-lib/src/config/def.rs ~^pub enum DNSMode~ DNSMode *)
Inductive DNSMode : Type := MdNormal | MdFakeIp | MdRedirHost.

(* @src clash-lib/src/config/def.rs ~^pub struct FallbackFilter~ def::FallbackFilter *)
Record DefFallbackFilter : Type := {
  df_geo_ip : bool; df_geo_ip_code : str; df_geo_ip_cache_expiration : option Z;
  df_match_noproxy : bool; df_ip_cidr : list str; df_domain : list str;
}.

(** A value of the file: a string, or something only a deserialiser reads. *)
Inductive Value : Type := VStr (s : str) | VOther (tag : Z).

(* @src clash-lib/src/config/def.rs ~^pub enum DNSListen~ DNSListen *)
Inductive DNSListen : Type := LsUdp (s : str) | LsMultiple (m : list (str * Value)).

(* @src clash-lib/src/config/def.rs ~^pub struct DNS ~ DNS *)
Record DNS : Type := {
  d_enable : bool; d_ipv6 : bool; d_user_hosts : bool;
  d_nameserver : list str; d_fallback : list str; d_fallback_filter : DefFallbackFilter;
  d_listen : option DNSListen; d_enhanced_mode : DNSMode;
  d_fake_ip_range : str; d_fake_ip_filter : list str; d_default_nameserver : list str;
  d_nameserver_policy : list (str * str);
  d_edns_client_subnet : option (option str * option str);
}.

(** The fields of the file outside the [dns] section that are read. *)
Record DefConfig : Type := {
  c_dns : DNS; c_ipv6 : bool; c_routing_mark : option Z; c_hosts : list (str * str);
  c_store_fake_ip : bool; c_store_smart_stats : bool;
}.

(** [DoHConfig], [DoTConfig] and [DoH3Config] of the listener crate with their
    derived deserialisers. *)
Class ListenLib : Type := {
  DoHConfig : Type; DoTConfig : Type; DoH3Config : Type;
  doh_deserialize : Value -> option DoHConfig;
  dot_deserialize : Value -> option DoTConfig;
  doh3_deserialize : Value -> option DoH3Config;
}.

(* @src clash-dns/src/lib.rs ~^pub struct DNSListenAddr~ DNSListenAddr *)
Record DNSListenAddr {LL : ListenLib} : Type := {
  l_udp : option SocketAddr; l_tcp : option SocketAddr;
  l_doh : option DoHConfig; l_dot : option DoTConfig; l_doh3 : option DoH3Config;
}.

Section config.
Context {UL : UrlLib} {RX : RegexLib} {NL : IpNetLib} {FN : FamilyNetLib} {UC : UnicodeLib} {LL : ListenLib}.
Context (ifaces : list OutboundInterface).

(* @src clash-lib/src/app/dns/config.rs ~^pub struct FallbackFilter~ FallbackFilter *)
Record FallbackFilter : Type := {
  ff_geo_ip : bool; ff_geo_ip_code : str; ff_geo_ip_cache_expiration : option Z;
  ff_match_noproxy : bool; ff_ip_cidr : option (list IpNet); ff_domain : list str;
}.

(* @src clash-lib/src/app/dns/config.rs ~^impl From<crate::config::def::FallbackFilter> for FallbackFilter~ FallbackFilter::from *)
Definition fallback_filter_from (c : DefFallbackFilter) : FallbackFilter := {|
  ff_geo_ip := df_geo_ip c;
  ff_geo_ip_code := to_uppercase (df_geo_ip_code c);
  ff_geo_ip_cache_expiration := df_geo_ip_cache_expiration c;
  ff_match_noproxy := df_match_noproxy c;
  ff_ip_cidr := res_ok (parse_fallback_ip_cidr (df_ip_cidr c));
  ff_domain := df_domain c;
|}.

(* @src clash-lib/src/app/dns/config.rs ~^pub struct Config~ Config *)
Record Config : Type := {
  enable : bool; ipv6 : bool;
  nameserver : list NameServer; fallback : list NameServer; fallback_filter : FallbackFilter;
  listen : DNSListenAddr; enhance_mode : DNSMode; default_nameserver : list NameServer;
  fake_ip_range : IpNet; fake_ip_filter : list str; store_fake_ip : bool; store_smart_stats : bool;
  hosts : option (StringTrie IpAddr); nameserver_policy : gmap str NameServer;
  edns_client_subnet : option EdnsClientSubnet; fw_mark : option Z;
}.

Definition listen_default : DNSListenAddr :=
  {| l_udp := None; l_tcp := None; l_doh := None; l_dot := None; l_doh3 := None |}.

Definition value_addr (v : Value) : res SocketAddr :=
  match v with
  | VStr s => ok_or (parse_socket_addr s) "invalid dns listen address"
  | VOther _ => Err "invalid dns listen address - must be string"
  end.

(* @src clash-lib/src/app/dns/config.rs ~                        for \(k, v\) in map~ Config::try_from (listen) *)
Definition listen_entry (l : DNSListenAddr) (kv : str * Value) : res DNSListenAddr :=
  let '(k, v) := kv in
  if bool_decide (k = lit "udp") then
    a ← value_addr v; Ok {| l_udp := Some a; l_tcp := l_tcp l; l_doh := l_doh l; l_dot := l_dot l; l_doh3 := l_doh3 l |}
  else if bool_decide (k = lit "tcp") then
    a ← value_addr v; Ok {| l_udp := l_udp l; l_tcp := Some a; l_doh := l_doh l; l_dot := l_dot l; l_doh3 := l_doh3 l |}
  else if bool_decide (k = lit "doh") then
    c ← ok_or (doh_deserialize v) "invalid doh dns listen config";
    Ok {| l_udp := l_udp l; l_tcp := l_tcp l; l_doh := Some c; l_dot := l_dot l; l_doh3 := l_doh3 l |}
  else if bool_decide (k = lit "dot") then
    c ← ok_or (dot_deserialize v) "invalid dot dns listen config";
    Ok {| l_udp := l_udp l; l_tcp := l_tcp l; l_doh := l_doh l; l_dot := Some c; l_doh3 := l_doh3 l |}
  else if bool_decide (k = lit "doh3") then
    c ← ok_or (doh3_deserialize v) "invalid doh3 dns listen config";
    Ok {| l_udp := l_udp l; l_tcp := l_tcp l; l_doh := l_doh l; l_dot := l_dot l; l_doh3 := Some c |}
  else Err "invalid dns listen address".

(* @src clash-lib/src/app/dns/config.rs 291 395 Config::try_from (listen) *)
Definition parse_listen (l : option DNSListen) : res DNSListenAddr :=
  match l with
  | None => Ok listen_default
  | Some (LsUdp u) =>
    addr ← ok_or (parse_socket_addr u) "invalid dns udp listen address";
    Ok {| l_udp := Some addr; l_tcp := None; l_doh := None; l_dot := None; l_doh3 := None |}
  | Some (LsMultiple m) => res_fold listen_entry listen_default m
  end.

(* @src clash-lib/src/app/dns/config.rs ~^impl TryFrom<&crate::config::def::Config> for Config~ Config::try_from *)
Definition config_try_from (c : DefConfig) : res Config :=
  let dc := c_dns c in
  if d_enable dc && bool_decide (d_nameserver dc = []) then Err "dns enabled, no nameserver specified" else
  nameservers ← parse_nameserver ifaces (d_nameserver dc);
  fallback ← parse_nameserver ifaces (d_fallback dc);
  nameserver_policy ← parse_nameserver_policy ifaces (d_nameserver_policy dc);
  if bool_decide (d_default_nameserver dc = []) then Err "default nameserver empty" else
  default_nameserver ← parse_nameserver ifaces (d_default_nameserver dc);
  _ ← res_fold (fun _ ns => _ ← ok_or (parse_socket_addr (ns_address ns)) "default dns must be ip address"; Ok tt)
        tt default_nameserver;
  edns_client_subnet ← match d_edns_client_subnet dc with
                       | None => Ok None
                       | Some (v4, v6) => s ← parse_edns_client_subnet v4 v6; Ok (Some s)
                       end;
  listen ← parse_listen (d_listen dc);
  fake_ip_range ← ok_or (ipnet_parse (d_fake_ip_range dc)) "invalid fake ip range";
  Ok {| enable := d_enable dc; ipv6 := c_ipv6 c && d_ipv6 dc;
        nameserver := nameservers; fallback := fallback;
        fallback_filter := fallback_filter_from (d_fallback_filter dc);
        listen := listen; enhance_mode := d_enhanced_mode dc; default_nameserver := default_nameserver;
        fake_ip_range := fake_ip_range; fake_ip_filter := d_fake_ip_filter dc;
        store_fake_ip := c_store_fake_ip c; store_smart_stats := c_store_smart_stats c;
        hosts := if d_user_hosts dc && negb (bool_decide (c_hosts c = []))
                 then res_ok (parse_hosts (c_hosts c)) else Some localhost_hosts;
        nameserver_policy := nameserver_policy; edns_client_subnet := edns_client_subnet;
        fw_mark := c_routing_mark c |}.
End config.

(** * Theorems *)

(** ** Sorting by a key *)
Lemma sort_by_ext {A} (f g : A -> A -> comparison) (H : forall a b, f a b = g a b) l : sort_by f l = sort_by g l.
Proof.
  induction l as [|x l IH]; simpl; [done|]. rewrite IH. generalize (sort_by g l).
  intros l'. induction l' as [|y l' IH']; simpl; [done|]. rewrite H. destruct (g x y); [done|done|]. by rewrite IH'.
Qed.

Section sorting.
Context {A : Type} (key : A -> Z).
Let cmp (a b : A) : comparison := key a ?= key b.
Let le (a b : A) : Prop := key a <= key b.

Lemma insert_by_perm x l : insert_by cmp x l ≡ₚ x :: l.
Proof.
  induction l as [|y l IH]; simpl; [done|]. destruct (cmp x y); [done|done|].
  by rewrite IH, Permutation_swap.
Qed.

Lemma sort_by_perm l : sort_by cmp l ≡ₚ l.
Proof. induction l as [|x l IH]; simpl; [done|]. rewrite insert_by_perm. by f_equiv. Qed.

Lemma insert_by_sorted x l : StronglySorted le l -> StronglySorted le (insert_by cmp x l).
Proof.
  induction 1 as [|y l Hl IH Hy]; simpl; [repeat constructor|].
  assert (forall l', Forall (le y) l' -> le x y -> Forall (le x) (y :: l')) as Htr.
  { intros l' Hf Hxy. constructor; [done|]. eapply Forall_impl; [done|]. unfold le in *. intros z Hz. lia. }
  pose proof (Z.compare_spec (key x) (key y)) as Hc. change (key x ?= key y) with (cmp x y) in Hc. destruct Hc.
  1,2: constructor; [by constructor|apply Htr; [done|unfold le; lia]].
  constructor; [done|]. rewrite insert_by_perm. constructor; [unfold le; lia|done].
Qed.

Lemma sort_by_sorted l : StronglySorted le (sort_by cmp l).
Proof. induction l as [|x l IH]; simpl; [constructor|by apply insert_by_sorted]. Qed.
End sorting.

Lemma res_fold_ind {A B} (P : A -> list B -> Prop) (f : A -> B -> res A) a l a' :
  P a [] -> (forall x pre b y, P x pre -> b ∈ l -> f x b = Ok y -> P y (pre ++ [b])) -> res_fold f a l = Ok a' -> P a' l.
Proof.
  intros H0 Hstep. assert (forall pre l2 x, l = pre ++ l2 -> P x pre -> res_fold f x l2 = Ok a' -> P a' l) as Hgen.
  { intros pre l2. revert pre. induction l2 as [|b l2 IH]; intros pre x Hl Hx; simpl.
    - intros [= <-]. by rewrite Hl, app_nil_r.
    - destruct (f x b) as [y| |] eqn:E; simpl; try done. intros Hr. apply (IH (pre ++ [b]) y).
      + by rewrite Hl, <- (assoc_L app).
      + apply (Hstep x pre b y); [done| |done]. rewrite Hl. set_solver.
      + done. }
  apply (Hgen [] l a); done.
Qed.

Section valid.
Context {UL : UrlLib} {RX : RegexLib} {NL : IpNetLib} {FN : FamilyNetLib} {UC : UnicodeLib} {LL : ListenLib}.
Context (ifaces : list OutboundInterface).

Lemma parse_nameserver_length servers l : parse_nameserver ifaces servers = Ok l -> length l = length servers.
Proof.
  apply (res_fold_ind (fun l pre => length l = length pre)); [done|].
  intros x pre b y Hx _ E. destruct (parse_one ifaces b); simpl in E; simplify_eq. rewrite !length_app. simpl. lia.
Qed.

Lemma parse_policy_keys entries m : parse_nameserver_policy ifaces entries = Ok m ->
  dom m = list_to_set entries.*1 /\ forall d, d ∈ dom m -> (valid_and_split_domain d).2 = true.
Proof.
  apply (res_fold_ind (fun m pre => dom m = list_to_set pre.*1 /\ forall d, d ∈ dom m -> (valid_and_split_domain d).2 = true)).
  { split; [done|]. set_solver. }
  intros x pre [domain server] y [Hd Hv] _ E.
  destruct (parse_nameserver ifaces [server]) as [nss| |]; simpl in E; try done.
  destruct (valid_and_split_domain domain) as [parts []] eqn:Ev; simpl in E; [|done].
  destruct (head nss); simpl in E; simplify_eq. rewrite dom_insert_L, fmap_app, list_to_set_app_L. simpl.
  split; [set_solver|]. intros d [->%elem_of_singleton|Hin]%elem_of_union; [by rewrite Ev|by apply Hv].
Qed.

Lemma default_servers_parse (l : list NameServer) u :
  res_fold (fun (_ : unit) ns => _ ← ok_or (parse_socket_addr (ns_address ns)) "default dns must be ip address"; Ok tt) tt l = Ok u ->
  Forall (fun ns => is_Some (parse_socket_addr (ns_address ns))) l.
Proof.
  apply (res_fold_ind (fun _ pre => Forall (fun ns => is_Some (parse_socket_addr (ns_address ns))) pre)); [done|].
  intros x pre b y Hx _ E. apply Forall_app. split; [done|]. apply Forall_singleton.
  destruct (parse_socket_addr (ns_address b)); [by eexists|done].
Qed.
End valid.

(** A configuration the resolver can be built from. *)
Record wf_config {NL : IpNetLib} {FN : FamilyNetLib} {LL : ListenLib} (c : DefConfig) (cfg : Config) : Prop := {
  wf_servers : enable cfg = true -> nameserver cfg <> [];
  wf_counts : length (nameserver cfg) = length (d_nameserver (c_dns c)) /\ length (fallback cfg) = length (d_fallback (c_dns c));
  wf_default : default_nameserver cfg <> [] /\
    Forall (fun ns => is_Some (parse_socket_addr (ns_address ns))) (default_nameserver cfg);
  wf_policy : dom (nameserver_policy cfg) = list_to_set (d_nameserver_policy (c_dns c)).*1 /\
    forall d, d ∈ dom (nameserver_policy cfg) -> (valid_and_split_domain d).2 = true;
  wf_ecs : forall s, edns_client_subnet cfg = Some s -> is_Some (ecs_ipv4 s) \/ is_Some (ecs_ipv6 s);
  wf_ipv6 : ipv6 cfg = true -> c_ipv6 c = true /\ d_ipv6 (c_dns c) = true;
  wf_range : ipnet_parse (d_fake_ip_range (c_dns c)) = Some (fake_ip_range cfg);
}.

(** C39: a configuration of the DNS component that loads is well formed: one
    server per entry, at least one when the component is enabled, default
    servers that are addresses, policies for exactly the configured domains,
    all of them valid, a client subnet of some family, and IPv6 only when
    both switches are on. *)
Theorem dns_config_wf {UL : UrlLib} {RX : RegexLib} {NL : IpNetLib} {FN : FamilyNetLib} {UC : UnicodeLib} {LL : ListenLib}
    (ifaces : list OutboundInterface) (c : DefConfig) (cfg : Config) (H : config_try_from ifaces c = Ok cfg) :
  wf_config c cfg.
Proof.
  unfold config_try_from in H. case_match eqn:He; [done|].
  destruct (parse_nameserver ifaces (d_nameserver (c_dns c))) as [ns| |] eqn:E1; simpl in H; try done.
  destruct (parse_nameserver ifaces (d_fallback (c_dns c))) as [fb| |] eqn:E2; simpl in H; try done.
  destruct (parse_nameserver_policy ifaces _) as [pol| |] eqn:E3; simpl in H; try done.
  case_bool_decide as Hdef; [done|].
  destruct (parse_nameserver ifaces (d_default_nameserver (c_dns c))) as [dn| |] eqn:E4; simpl in H; try done.
  destruct (res_fold _ tt dn) as [u| |] eqn:E5; simpl in H; try done.
  destruct (match d_edns_client_subnet (c_dns c) with None => Ok None | Some (v4, v6) => _ end) as [ecs| |] eqn:E6;
    simpl in H; try done.
  destruct (parse_listen _) as [ls| |]; simpl in H; try done.
  destruct (ipnet_parse _) as [rg|] eqn:E7; simpl in H; try done. injection H as <-.
  apply parse_nameserver_length in E1, E2, E4. apply default_servers_parse in E5. apply parse_policy_keys in E3.
  split; simpl; try done.
  - intros Hen ->. rewrite Hen in He. apply andb_false_iff in He as [?|He]; [done|].
    apply bool_decide_eq_false in He. by destruct (d_nameserver (c_dns c)).
  - split; [|done]. intros ->. by destruct (d_default_nameserver (c_dns c)).
  - intros s ->. destruct (d_edns_client_subnet (c_dns c)) as [[v4 v6]|]; [|done].
    destruct (parse_edns_client_subnet v4 v6) as [s'| |] eqn:Ep; simplify_eq. unfold parse_edns_client_subnet in Ep.
    destruct (parse_opt v4net_parse _ v4) as [a| |]; simpl in Ep; try done.
    destruct (parse_opt v6net_parse _ v6) as [b| |]; simpl in Ep; try done.
    simpl in E6. injection E6 as <-. destruct a, b; simplify_eq; simpl; [left; by eexists|left; by eexists|right; by eexists].
  - by intros [? ?]%andb_prop.
Qed.

(** ** Ports of name servers *)

(** Lower case letters, digits, hyphens and dots. *)
Definition host_char (c : Z) : bool := between 97 122 c || between 48 57 c || (c =? 45) || (c =? 46).

(** A URL of a scheme without a parser of its own splits into the scheme, the
    host, which does not contain the port, and the rest. *)
Class UrlLaws (UL : UrlLib) : Prop := {
  url_authority scheme host port :
    scheme ∈ [lit "udp"; lit "tcp"; lit "tls"] -> host <> [] -> forallb host_char host = true -> u16 port ->
    exists u, url_parse (scheme ++ lit "://" ++ host ++ lit ":" ++ dec port) = Some u /\ url_scheme u = scheme /\
      url_host_str u = Some host /\ url_fragment u = None;
}.
(** The expression for a port suffix compiles and needs a colon to match. *)
Class PortRegexLaws (RX : RegexLib) : Prop := {
  port_regex : exists r, regex_new (lit ":\d+$") = Some r /\
    forall s, contains_char 58 s = false -> regex_is_match r s = false;
}.

Definition default_port (scheme : str) : str := if bool_decide (scheme = lit "tls") then lit "853" else lit "53".

Lemma host_no_colon host : forallb host_char host = true -> contains_char 58 host = false.
Proof.
  induction host as [|c host IH]; [done|]. cbn [forallb contains_char existsb]. intros [Hc Hh]%andb_prop.
  unfold contains_char in IH. rewrite IH by done. rewrite orb_false_r. unfold host_char, between in Hc. lia.
Qed.

(** The port written for a name server is not used: the server is always
    contacted at the default port of its scheme. *)
Theorem nameserver_port_ignored {UL : UrlLib} {RX : RegexLib} (HU : UrlLaws UL) (HR : PortRegexLaws RX)
    (ifaces : list OutboundInterface) (scheme host : str) (port : Z)
    (Hs : scheme ∈ [lit "udp"; lit "tcp"; lit "tls"]) (Hne : host <> []) (Hh : forallb host_char host = true) (Hp : u16 port) :
  exists net, parse_nameserver ifaces [scheme ++ lit "://" ++ host ++ lit ":" ++ dec port] =
    Ok [ {| ns_net := net; ns_address := host ++ lit ":" ++ default_port scheme; ns_interface := None; ns_proxy := None |} ].
Proof.
  destruct (url_authority scheme host port Hs Hne Hh Hp) as (u & Hu & Hsch & Hhost & Hfr).
  destruct port_regex as (rx & Hrx & Hno). specialize (Hno host (host_no_colon _ Hh)).
  assert (forall p, host_with_default_port host p = Ok (host ++ lit ":" ++ p)) as Hdef.
  { intros p. unfold host_with_default_port. rewrite Hrx. cbn. by rewrite Hno. }
  assert (contains (lit "://") (scheme ++ lit "://" ++ host ++ lit ":" ++ dec port) = true) as Hc by (apply contains_spec; eauto).
  unfold parse_nameserver. cbn [res_fold]. unfold parse_one. rewrite Hc. cbn [negb]. rewrite Hu. cbn [ok_or mbind res_mbind res_bind].
  rewrite Hhost. cbn [or_panic mbind res_mbind res_bind].
  unfold parse_outbound_interface, parse_outbound_proxy. rewrite Hfr, Hsch. cbn [mbind option_bind server_interface].
  unfold scheme_address, default_port. rewrite !Hdef. apply elem_of_cons in Hs as [->|Hs]; [by eexists|].
  apply elem_of_cons in Hs as [->|Hs]; [by eexists|]. apply list_elem_of_singleton in Hs as ->. by eexists.
Qed.

(** ** The outbound interface *)

(** The order is lexicographic: an address of IPv6, a global one first, then
    the place in the list of names. *)
Definition iface_key (i : OutboundInterface) : Z :=
  match oi_addr_v6 i with Some a => if is_unicast_global a then 0 else 1 | None => 2 end * 2 ^ 64 + priority_of i.

Lemma position_by_bounds {A} (f : A -> bool) i l p : position_by f i l = Some p -> i <= p < i + zlen l.
Proof.
  revert i. induction l as [|x l IH]; intros i; simpl; [done|]. unfold zlen. cbn [length].
  destruct (f x); [intros [= ->]; lia|]. intros H%IH. unfold zlen in H. lia.
Qed.
Lemma priority_bounds i : 0 <= priority_of i < 2 ^ 64.
Proof.
  unfold priority_of. destruct (position_by _ 0 priority) eqn:E; cbn [from_option id]; [|lia].
  apply position_by_bounds in E. change (zlen priority) with 9 in E. lia.
Qed.

Lemma iface_cmp_key a b : iface_cmp a b = (iface_key a ?= iface_key b).
Proof.
  unfold iface_cmp, iface_key. pose proof (priority_bounds a). pose proof (priority_bounds b). symmetry.
  destruct (oi_addr_v6 a) as [x|], (oi_addr_v6 b) as [y|];
    [destruct (is_unicast_global x), (is_unicast_global y)|destruct (is_unicast_global x)|destruct (is_unicast_global y)|];
    cbn [andb negb]; try (apply Z.compare_lt_iff; lia); try (apply Z.compare_gt_iff; lia);
    destruct (Z.compare_spec (priority_of a) (priority_of b));
    (apply Z.compare_eq_iff || apply Z.compare_lt_iff || apply Z.compare_gt_iff); lia.
Qed.

(** An interface that can be used. *)
Definition suitable (i : OutboundInterface) : bool :=
  negb (contains (lit "tun") (oi_name i)) && (bool_decide (is_Some (oi_addr_v4 i)) || bool_decide (is_Some (oi_addr_v6 i))).

(** The interface chosen is a suitable one that comes first in the order;
    there is one if any interface is suitable. *)
Theorem outbound_interface_best (ifaces : list OutboundInterface) :
  match get_outbound_interface ifaces with
  | Some i => (i ∈ ifaces /\ suitable i = true) /\
              forall j, j ∈ ifaces -> suitable j = true -> iface_key i <= iface_key j
  | None => forall j, j ∈ ifaces -> suitable j = false
  end.
Proof.
  unfold get_outbound_interface. rewrite (sort_by_ext _ _ iface_cmp_key).
  set (l := base.filter _ ifaces).
  assert (forall x, x ∈ sort_by (fun a b => iface_key a ?= iface_key b) l <-> x ∈ ifaces /\ suitable x = true) as Hel.
  { intros x. rewrite (sort_by_perm iface_key). subst l. rewrite list_elem_of_filter. unfold suitable. tauto. }
  pose proof (sort_by_sorted iface_key l) as Hs. destruct (sort_by _ l) as [|i l'] eqn:E; cbn [head].
  - intros j Hj. destruct (suitable j) eqn:Ej; [|done]. assert (j ∈ []) as Hn by by apply Hel. set_solver.
  - split; [apply Hel; set_solver|]. intros j Hj Hsu. assert (j ∈ i :: l') as Hin by by apply Hel.
    apply elem_of_cons in Hin as [->|Hin]; [lia|].
    inversion Hs as [|? ? ? Hle]; subst. rewrite Forall_forall in Hle. by apply Hle.
Qed.

(** ** A URL library for the examples *)

Lemma split_once_app c h t : Forall (.≠ c) h -> split_once c (h ++ c :: t) = Some (h, t).
Proof.
  induction 1 as [|x h Hx _ IH]; simpl; [by rewrite Z.eqb_refl|].
  by rewrite (proj2 (Z.eqb_neq _ _) Hx), IH.
Qed.
Lemma split_once_none c h : Forall (.≠ c) h -> split_once c h = None.
Proof. induction 1 as [|x h Hx _ IH]; simpl; [done|]. by rewrite (proj2 (Z.eqb_neq _ _) Hx), IH. Qed.

Definition simple_parse (s : str) : option (str * str * option str) :=
  scheme ← List.find (fun sch => starts_with (sch ++ lit "://") s) [lit "udp"; lit "tcp"; lit "tls"];
  let rest := drop (length scheme + 3) s in
  let '(auth, frag) := match split_once 35 rest with Some (a, f) => (a, Some f) | None => (rest, None) end in
  Some (scheme, match split_once 58 auth with Some (h, _) => h | None => auth end, frag).
Definition simple_url : UrlLib := {|
  Url := str * str * option str; url_parse := simple_parse;
  url_scheme u := u.1.1; url_host_str u := Some u.1.2; url_fragment u := u.2 |}.

Lemma host_chars_not c host : forallb host_char host = true -> host_char c = false -> Forall (.≠ c) host.
Proof.
  intros H Hc. apply Forall_forall. intros x Hx ->. rewrite forallb_forall in H.
  specialize (H c). rewrite <- list_elem_of_In in H. by rewrite H in Hc.
Qed.

Lemma simple_url_laws : UrlLaws simple_url.
Proof.
  split. intros scheme host port Hs _ Hh Hp. set (rest := host ++ lit ":" ++ dec port).
  assert (split_once 35 rest = None) as H35.
  { apply split_once_none. subst rest. apply Forall_app. split; [by apply host_chars_not|].
    apply Forall_app. split; [by repeat constructor|]. eapply Forall_impl; [apply dec_digits; unfold in_width in Hp; lia|].
    unfold is_digit. intros. lia. }
  assert (split_once 58 rest = Some (host, dec port)) as H58 by (by apply split_once_app, host_chars_not).
  assert (forall sch, sch ∈ [lit "udp"; lit "tcp"; lit "tls"] -> simple_parse (sch ++ lit "://" ++ rest) = Some (sch, host, None)) as Hgo.
  { clear scheme Hs Hh. clearbody rest. intros scheme Hs. unfold simple_parse.
    repeat (apply elem_of_cons in Hs as [->|Hs]); [..|by apply elem_of_nil in Hs];
      lazy -[split_once]; by rewrite H35, H58. }
  exists (scheme, host, None). cbn [url_parse simple_url]. by rewrite Hgo.
Qed.

Lemma demo_port_regex : PortRegexLaws demo_regex.
Proof.
  split. exists (lit ":\d+$"). split; [done|]. intros s Hs. cbn [regex_is_match demo_regex].
  destruct (contains (lit ":\d+$") s) eqn:E; [|done]. apply contains_spec in E as (l & r & ->).
  change (l ++ lit ":\d+$" ++ r) with (l ++ 58 :: lit "\d+$" ++ r) in Hs. by rewrite contains_char_app in Hs.
Qed.

Lemma nameserver_port_ignored_witness :
  exists net, @parse_nameserver simple_url demo_regex [] [lit "udp://dns.example:5353"] =
    Ok [ {| ns_net := net; ns_address := lit "dns.example:53"; ns_interface := None; ns_proxy := None |} ].
Proof.
  apply (nameserver_port_ignored simple_url_laws demo_port_regex [] (lit "udp") (lit "dns.example") 5353);
    [by left|done|reflexivity|by split].
Defined.

(** ** A small configuration *)
Definition pair_net : IpNetLib := {|
  IpNet := IpAddr * Z; ipnet_new ip len := Ok (ip, len); ipnet_addr := fst; ipnet_prefix_len := snd;
  ipnet_network n := net_of n.1 n.2; ipnet_contains n ip := in_block n.1 n.2 ip;
  ipnet_parse s := '(a, l) ← split_once 47 s; ip ← parse_ip a; len ← parse_uint 8 l; Some (ip, len);
  ipnet_show n := show_ip n.1 ++ [47] ++ dec n.2 |}.
Definition pair_family_net : FamilyNetLib := {|
  Ipv4Net := Z * Z; Ipv6Net := Z * Z;
  v4net_parse s := '(a, l) ← split_once 47 s; ip ← parse_ip a; len ← parse_uint 8 l;
                   match ip with V4 a => Some (a, len) | V6 _ => None end;
  v6net_parse s := '(a, l) ← split_once 47 s; ip ← parse_ip a; len ← parse_uint 8 l;
                   match ip with V6 a => Some (a, len) | V4 _ => None end;
  v4net_network := fst; v6net_network := fst; v4net_prefix_len := snd; v6net_prefix_len := snd |}.
Definition no_listeners : ListenLib := {|
  DoHConfig := unit; DoTConfig := unit; DoH3Config := unit;
  doh_deserialize _ := None; dot_deserialize _ := None; doh3_deserialize _ := None |}.
Definition small_config : DefConfig := {|
  c_dns := {| d_enable := true; d_ipv6 := true; d_user_hosts := true;
              d_nameserver := [lit "tls://dns.example"]; d_fallback := [lit "8.8.8.8"];
              d_fallback_filter := {| df_geo_ip := false; df_geo_ip_code := lit "cn"; df_geo_ip_cache_expiration := None;
                                      df_match_noproxy := false; df_ip_cidr := []; df_domain := [] |};
              d_listen := Some (LsUdp (lit "127.0.0.1:53")); d_enhanced_mode := MdFakeIp;
              d_fake_ip_range := lit "198.18.0.1/16"; d_fake_ip_filter := []; d_default_nameserver := [lit "1.1.1.1"];
              d_nameserver_policy := [(lit "+.corp.example", lit "10.0.0.1")];
              d_edns_client_subnet := Some (Some (lit "1.2.3.0/24"), None) |};
  c_ipv6 := true; c_routing_mark := None; c_hosts := []; c_store_fake_ip := false; c_store_smart_stats := false |}.

Lemma dns_config_wf_witness :
  exists cfg, @config_try_from simple_url demo_regex pair_net pair_family_net demo_unicode no_listeners [] small_config = Ok cfg /\
    @wf_config pair_net pair_family_net no_listeners small_config cfg.
Proof.
  destruct (@config_try_from simple_url demo_regex pair_net pair_family_net demo_unicode no_listeners [] small_config)
    as [cfg| |] eqn:E.
  - exists cfg. split; [reflexivity|]. exact (dns_config_wf [] small_config cfg E).
  - exfalso. assert (is_ok (@config_try_from simple_url demo_regex pair_net pair_family_net demo_unicode no_listeners [] small_config)
      = true) as Hok by (vm_compute; reflexivity). rewrite E in Hok. discriminate Hok.
  - exfalso. assert (is_ok (@config_try_from simple_url demo_regex pair_net pair_family_net demo_unicode no_listeners [] small_config)
      = true) as Hok by (vm_compute; reflexivity). rewrite E in Hok. discriminate Hok.
Defined.
