(* ===== verification/Resolver.v ===== *)
(** * The enhanced resolver ([clash-lib/src/app/dns])

    DNS clients and their construction ([dns_client.rs], [helper.rs]), the
    fallback filters ([filters.rs]), the enhanced resolver
    ([resolver/enhanced.rs]) and the answers of the DNS server
    ([server/handler.rs]).

    Messages are records of the fields the program reads and writes; names,
    the record cache and the network are parameters.  The network is a
    function from a client, a message and the time to an answer and the time
    it takes; the clock of the resolver's state advances by it.  An
    operation of the resolver is a state transformer with an outcome; [None]
    is the search loop of the fake-address pool running out of fuel. *)

From S2P Require Import Prelude Str Net Session Trie Geo Router Profile FakeIp FakePool DnsConfig.

(** ** Messages (the [hickory_proto] crate) *)
Class NameLib : Type := {
  Name : Type;
  name_eq_dec :: EqDecision Name;
  name_from_str_relaxed : str -> option Name;
  name_append_root : Name -> option Name;
  name_to_ascii : Name -> str;
  name_to_utf8 : Name -> str;
}.

Inductive RecordType : Type := RtA | RtAAAA | RtTXT | RtOther (n : Z).
#[global] Instance record_type_eq_dec : EqDecision RecordType.
Proof. solve_decision. Defined.

(** [Update0] is a record without data, of any type. *)
Inductive RData : Type := RdA (v4 : Z) | RdAAAA (v6 : Z) | RdUpdate0 (t : RecordType) | RdOther (t : RecordType) (bytes : list Z).
Definition rdata_type (d : RData) : RecordType :=
  match d with RdA _ => RtA | RdAAAA _ => RtAAAA | RdUpdate0 t => t | RdOther t _ => t end.

Inductive EdnsOption : Type := EoSubnet (addr : IpAddr) (source scope : Z) | EoOther (bytes : list Z).
Definition EDNS_SUBNET : Z := 8.
Definition EDNS_PADDING : Z := 12.

Section messages.
Context {NM : NameLib}.

Record Query : Type := { q_name : Name; q_type : RecordType; q_class_in : bool }.
Record RR : Type := { rr_name : Name; rr_ttl : Z; rr_data : RData }.
Record Message : Type := {
  m_id : Z; m_op_code : Z; m_response : bool;
  m_recursion_desired : bool; m_recursion_available : bool; m_authoritative : bool; m_checking_disabled : bool;
  m_response_code : Z; m_answer_count : Z;
  m_queries : list Query; m_answers : list RR;
  m_edns : option (gmap Z EdnsOption);
}.

(** [Message::new]: a query with no questions. *)
Definition message_new : Message := {|
  m_id := 0; m_op_code := 0; m_response := false; m_recursion_desired := false; m_recursion_available := false;
  m_authoritative := false; m_checking_disabled := false; m_response_code := 0; m_answer_count := 0;
  m_queries := []; m_answers := []; m_edns := None |}.

Definition query_of (m : Message) : option Query := head (m_queries m).

Definition set_answers (answers : list RR) (m : Message) : Message := {|
  m_id := m_id m; m_op_code := m_op_code m; m_response := m_response m;
  m_recursion_desired := m_recursion_desired m; m_recursion_available := m_recursion_available m;
  m_authoritative := m_authoritative m; m_checking_disabled := m_checking_disabled m;
  m_response_code := m_response_code m; m_answer_count := m_answer_count m;
  m_queries := m_queries m; m_answers := answers; m_edns := m_edns m |}.
Definition set_edns (e : option (gmap Z EdnsOption)) (m : Message) : Message := {|
  m_id := m_id m; m_op_code := m_op_code m; m_response := m_response m;
  m_recursion_desired := m_recursion_desired m; m_recursion_available := m_recursion_available m;
  m_authoritative := m_authoritative m; m_checking_disabled := m_checking_disabled m;
  m_response_code := m_response_code m; m_answer_count := m_answer_count m;
  m_queries := m_queries m; m_answers := m_answers m; m_edns := e |}.
Definition set_code (code count : Z) (m : Message) : Message := {|
  m_id := m_id m; m_op_code := m_op_code m; m_response := m_response m;
  m_recursion_desired := m_recursion_desired m; m_recursion_available := m_recursion_available m;
  m_authoritative := m_authoritative m; m_checking_disabled := m_checking_disabled m;
  m_response_code := code; m_answer_count := count;
  m_queries := m_queries m; m_answers := m_answers m; m_edns := m_edns m |}.
Definition add_answers (rs : list RR) (m : Message) : Message := set_answers (m_answers m ++ rs) m.
Definition strip_padding (m : Message) : Message := set_edns (delete EDNS_PADDING <$> m_edns m) m.

(* @src clash-lib/src/app/dns/helper.rs ~^pub fn build_dns_response_message~ build_dns_response_message *)
Definition build_dns_response_message (req : Message) (recursive_available authoritative : bool) : Message := {|
  m_id := m_id req; m_op_code := m_op_code req; m_response := true;
  m_recursion_desired := m_recursion_desired req; m_recursion_available := recursive_available;
  m_authoritative := authoritative; m_checking_disabled := m_checking_disabled req;
  m_response_code := 0; m_answer_count := 0;
  m_queries := m_queries req; m_answers := [];
  m_edns := delete EDNS_PADDING <$> m_edns req |}.

(* @src clash-lib/src/app/dns/resolver/enhanced.rs ~    fn is_ip_request~ EnhancedResolver::is_ip_request *)
Definition is_ip_request (q : Query) : bool :=
  q_class_in q && (bool_decide (q_type q = RtA) || bool_decide (q_type q = RtAAAA)).

(* @src clash-lib/src/app/dns/resolver/enhanced.rs ~    fn domain_name_of_message~ EnhancedResolver::domain_name_of_message *)
Definition domain_name_of_message (m : Message) : option str :=
  (fun q => trim_end_matches 46 (name_to_ascii (q_name q))) <$> query_of m.

(** A record of type A or AAAA that carries no address is unreachable code. *)
Definition record_ip (r : RR) : res IpAddr :=
  match rr_data r with RdA a => Ok (V4 a) | RdAAAA a => Ok (V6 a) | _ => Panic end.

(* @src clash-lib/src/app/dns/resolver/enhanced.rs ~    pub\(crate\) fn ip_list_of_message~ EnhancedResolver::ip_list_of_message *)
Definition ip_list_of_message (m : Message) : res (list IpAddr) :=
  res_fold (fun acc r => ip ← record_ip r; Ok (acc ++ [ip])) []
    (base.filter (fun r => rdata_type (rr_data r) = RtA \/ rdata_type (rr_data r) = RtAAAA) (m_answers m)).
End messages.

(** ** Clients *)
Section clients.
Context {NM : NameLib} {FN : FamilyNetLib}.

Definition subnet_v4 (n : Ipv4Net) : IpAddr * Z := (V4 (v4net_network n), v4net_prefix_len n).
Definition subnet_v6 (n : Ipv6Net) : IpAddr * Z := (V6 (v6net_network n), v6net_prefix_len n).

(* @src clash-lib/src/app/dns/dns_client.rs ~    fn apply_edns_client_subnet~ DnsClient::apply_edns_client_subnet *)
Definition apply_edns_client_subnet (ecs : option EdnsClientSubnet) (message : Message) : Message :=
  match ecs with
  | None => message
  | Some ecs =>
    match ecs_ipv4 ecs, ecs_ipv6 ecs with
    | None, None => message
    | _, _ =>
      if bool_decide (is_Some (m_edns message ≫= (.!! EDNS_SUBNET))) then message else
      let prefer_ipv6 := bool_decide (q_type <$> query_of message = Some RtAAAA) in
      let v4 := subnet_v4 <$> ecs_ipv4 ecs in
      let v6 := subnet_v6 <$> ecs_ipv6 ecs in
      let candidate := if prefer_ipv6 then match v6 with Some c => Some c | None => v4 end
                       else match v4 with Some c => Some c | None => v6 end in
      match candidate with
      | None => message
      | Some (addr, prefix) =>
        let options := delete EDNS_SUBNET (default ∅ (m_edns message)) in
        set_edns (Some (<[EDNS_SUBNET := EoSubnet addr prefix prefix]> options)) message
      end
    end
  end.

(** An outbound is known by its name here. *)
(* @src clash-lib/src/app/dns/dns_client.rs ~^pub struct Opts~ Opts *)
Record Opts : Type := {
  o_host : str; o_port : Z; o_net : DNSNetMode; o_iface : option OutboundInterface; o_proxy : str;
  o_ecs : option EdnsClientSubnet; o_fw_mark : option Z;
}.

(** The interface, outbound and mark of a configuration are those of the
    options the client is built from and are kept there. *)
(* @src clash-lib/src/app/dns/dns_client.rs ~^enum DnsConfig~ DnsConfig *)
Inductive ClientConfig : Type :=
| CcUdp (addr : SocketAddr) | CcTcp (addr : SocketAddr)
| CcTls (addr : SocketAddr) (host : str) | CcHttps (addr : SocketAddr) (host : str).

(* @src clash-lib/src/app/dns/dns_client.rs ~^pub struct DnsClient~ DnsClient *)
Inductive Client : Type :=
| DnsClient (cfg : ClientConfig) (opts : Opts)
| DhcpClient (iface : str) (fw_mark : option Z).

(** [resolver] is the default resolver's lookup of a server's own name. *)
(* @src clash-lib/src/app/dns/dns_client.rs ~    pub async fn new_client~ DnsClient::new_client *)
Definition new_client (resolver : option (str -> res (option IpAddr))) (opts : Opts) : res Client :=
  match o_net opts with
  | NmDhcp => Ok (DhcpClient (o_host opts) (o_fw_mark opts))
  | other =>
    ip ← match resolver with
         | Some r =>
           match r (o_host opts) with
           | Ok (Some ip) => Ok ip
           | Ok None => Err "can't resolve default DNS"
           | Err _ => Err "resolve hostname failure"
           | Panic => Panic
           end
         | None => ok_or (parse_ip (o_host opts)) "resolve DNS hostname error"
         end;
    let addr := sa_new ip (o_port opts) in
    match other with
    | NmUdp => Ok (DnsClient (CcUdp addr) opts)
    | NmTcp => Ok (DnsClient (CcTcp addr) opts)
    | NmDoT => Ok (DnsClient (CcTls addr (o_host opts)) opts)
    | NmDoH => Ok (DnsClient (CcHttps addr (o_host opts)) opts)
    | NmDhcp => Panic
    end
  end.

(** The address of a server split into host and port; [None] ends the
    process. *)
(* @src clash-lib/src/app/dns/helper.rs 34 45 make_clients (address) *)
Definition split_address (net : DNSNetMode) (address : str) : option (str * str) :=
  if bool_decide (net = NmDhcp) then Some (address, lit "0")
  else
    port ← last (split_on 58 address);
    host ← strip_suffix (lit ":" ++ port) address;
    Some (host, port).

Definition PROXY_DIRECT : str := lit "DIRECT".

(** One server: an outbound that does not exist is replaced by a direct
    one; the inner [None] is the end of the process. *)
Definition make_client (resolver : option (str -> res (option IpAddr))) (outbounds : gset str)
    (default_iface : option OutboundInterface) (ecs : option EdnsClientSubnet) (fw_mark : option Z) (s : NameServer) :
    option (res Client) :=
  let name := default PROXY_DIRECT (ns_proxy s) in
  let proxy := if bool_decide (name ∈ outbounds) then name else PROXY_DIRECT in
  '(host, port) ← split_address (ns_net s) (ns_address s);
  port ← parse_uint 16 port;
  Some (new_client resolver
    {| o_host := host; o_port := port; o_net := ns_net s;
       o_iface := match ns_interface s with Some i => Some i | None => default_iface end;
       o_proxy := proxy; o_ecs := ecs; o_fw_mark := fw_mark |}).

(** A server whose client cannot be built is skipped with a warning. *)
(* @src clash-lib/src/app/dns/helper.rs ~^pub async fn make_clients~ make_clients *)
Fixpoint make_clients (resolver : option (str -> res (option IpAddr))) (outbounds : gset str)
    (default_iface : option OutboundInterface) (ecs : option EdnsClientSubnet) (fw_mark : option Z)
    (servers : list NameServer) : option (res (list Client)) :=
  match servers with
  | [] => Some (Ok [])
  | s :: rest =>
    c ← make_client resolver outbounds default_iface ecs fw_mark s;
    match c with
    | Panic => Some Panic
    | Err _ => make_clients resolver outbounds default_iface ecs fw_mark rest
    | Ok c =>
      cs ← make_clients resolver outbounds default_iface ecs fw_mark rest;
      Some (cs ← cs; Ok (c :: cs))
    end
  end.

(** *** The connection of a client

    [Conn] is a connected client with its background task. *)
Section connection.
Context {Conn : Type} (finished : Conn -> bool).

(** The client and the task, which are stored by separate writes. *)
(* @src clash-lib/src/app/dns/dns_client.rs ~^struct Inner~ Inner *)
Record Inner : Type := { i_c : option Conn; i_bg : option Conn }.

(* @src clash-lib/src/app/dns/dns_client.rs 518 522 DnsClient::exchange (check) *)
Definition need_initialize (i : Inner) : bool :=
  match i_c i with None => true | Some _ => match i_bg i with None => true | Some bg => finished bg end end.

(** Under the write lock the task is looked at again; [connect] is the
    outcome of a connection attempt. *)
(* @src clash-lib/src/app/dns/dns_client.rs 523 551 DnsClient::exchange (connect) *)
Definition initialize (connect : res Conn) (i : Inner) : res unit * Inner :=
  let fresh := match connect with
               | Ok c => (Ok tt, {| i_c := Some c; i_bg := Some c |})
               | Err e => (Err e, i)
               | Panic => (Panic, i)
               end in
  match i_bg i with
  | Some bg => if finished bg then fresh else (Ok tt, i)
  | None => fresh
  end.

(* @src clash-lib/src/app/dns/dns_client.rs ~    async fn exchange\(&self, msg: &Message\)~ DnsClient::exchange *)
Definition client_exchange (send : Conn -> Message -> res Message) (random_id : Z) (ecs : option EdnsClientSubnet)
    (connect : res Conn) (msg : Message) (i : Inner) : res Message * Inner :=
  let '(r, i) := if need_initialize i then initialize connect i else (Ok tt, i) in
  (_ ← r;
   let outbound := apply_edns_client_subnet ecs msg in
   let req := if m_id outbound =? 0 then
     {| m_id := random_id; m_op_code := m_op_code outbound; m_response := m_response outbound;
        m_recursion_desired := m_recursion_desired outbound; m_recursion_available := m_recursion_available outbound;
        m_authoritative := m_authoritative outbound; m_checking_disabled := m_checking_disabled outbound;
        m_response_code := m_response_code outbound; m_answer_count := m_answer_count outbound;
        m_queries := m_queries outbound; m_answers := m_answers outbound; m_edns := m_edns outbound |} else outbound in
   c ← or_panic (i_c i); send c req, i).
End connection.
End clients.

(** ** Filters *)
Section filters.
Context {NL : IpNetLib}.

(* @src clash-lib/src/app/dns/filters.rs ~^impl DomainFilter~ DomainFilter::new *)
Definition domain_filter_new (domains : list str) : StringTrie (option str) :=
  foldl (fun f d => (trie_insert f d None).1) trie_new domains.
(* @src clash-lib/src/app/dns/filters.rs ~^impl FallbackDomainFilter for DomainFilter~ DomainFilter::apply *)
Definition domain_filter_apply (f : StringTrie (option str)) (domain : str) : bool :=
  bool_decide (is_Some (trie_search f domain)).

(* @src clash-lib/src/app/dns/filters.rs ~^pub trait FallbackIPFilter~ FallbackIPFilter *)
Inductive FallbackIPFilter : Type :=
| GeoIPFilter (code : str) (mmdb : option MmdbLookup)
| IPNetFilter (net : IpNet).

(* @src clash-lib/src/app/dns/filters.rs ~^impl FallbackIPFilter for GeoIPFilter~ GeoIPFilter::apply *)
Definition geoip_filter_apply (code : str) (mmdb : option MmdbLookup) (ip : IpAddr) : bool :=
  negb match mmdb with
       | Some m => match lookup_country m ip with Some x => bool_decide (x = code) | None => false end
       | None => false
       end.

(* @src clash-lib/src/app/dns/filters.rs ~^impl FallbackIPFilter for IPNetFilter~ IPNetFilter::apply *)
Definition ip_filter_apply (f : FallbackIPFilter) (ip : IpAddr) : bool :=
  match f with
  | GeoIPFilter code mmdb => geoip_filter_apply code mmdb ip
  | IPNetFilter net => ipnet_contains net ip
  end.
End filters.

(** ** The resolver *)

(** [hickory_resolver::dns_lru::DnsLru] with a clock, and the timed LRU map
    of the reverse lookups. *)
Class RecordCache {NM : NameLib} : Type := {
  DnsLru : Type;
  dlru_get : DnsLru -> Query -> Z -> option (option (list RR));
  dlru_insert_records : DnsLru -> Query -> list RR -> Z -> DnsLru;
  RevLru : Type;
  rev_insert : RevLru -> IpAddr -> str -> Z -> RevLru;
  rev_peek : RevLru -> IpAddr -> Z -> option str;
}.

(** The network: what a client answers to a message sent at some time, and
    how long it takes ([None]: never). *)
Class Upstream {NM : NameLib} (C : Type) : Type := {
  ask : C -> Message -> Z -> option (Z * res Message);
}.

Section batch.
Context {NM : NameLib} {C : Type} {UP : Upstream C}.

Definition TIMEOUT : Z := 10 * 10 ^ 9.

(** The answers that arrive in time, in the order of their arrival; those of
    the same instant in the order of the clients. *)
Definition arrivals (clients : list C) (message : Message) (now : Z) : list (Z * res Message) :=
  sort_by (fun a b => a.1 ?= b.1)
    (omap (fun c => a ← ask c message now; if a.1 <? TIMEOUT then Some a else None) clients).

Fixpoint first_ok (l : list (Z * res Message)) : option (Z * res Message) :=
  match l with
  | [] => None
  | (t, Err _) :: l' => first_ok l'
  | a :: _ => Some a
  end.

(** [select_ok] panics without futures; without a success it ends with the
    last error, if every client has answered. *)
(* @src clash-lib/src/app/dns/resolver/enhanced.rs ~    pub async fn batch_exchange~ EnhancedResolver::batch_exchange *)
Definition batch_exchange (clients : list C) (message : Message) (now : Z) : Z * res Message :=
  if bool_decide (clients = []) then (0, Panic) else
  let l := arrivals clients message now in
  match first_ok l with
  | Some a => a
  | None => if (length l =? length clients)%nat then default (TIMEOUT, Err "DNS query timeout") (last l)
            else (TIMEOUT, Err "DNS query timeout")
  end.
End batch.

Section resolver.
Context {NM : NameLib} {NL : IpNetLib} {FN : FamilyNetLib} {LL : ListenLib} {RC : RecordCache}.
Context {C : Type} {UP : Upstream C}.
Context {S : Type} {SO : StoreOps S} {D : Type}.
(** Overflow checks of the build. *)
Context (oc : bool).

(** The parts that never change. *)
(* @src clash-lib/src/app/dns/resolver/enhanced.rs ~^pub struct EnhancedResolver~ EnhancedResolver *)
Record EnhancedResolver : Type := {
  r_hosts : option (StringTrie IpAddr);
  r_main : list C;
  r_fallback : option (list C);
  r_fallback_domain_filters : option (list (StringTrie (option str)));
  r_fallback_ip_filters : option (list FallbackIPFilter);
  r_policy : option (StringTrie (list C));
  r_geo_ip_cache_expiration : option Z;
  r_geo_ip_code : option str;
  r_mmdb : option MmdbLookup;
  r_match_noproxy : bool;
}.

(** The parts that change, and the clocks: a monotonic one in nanoseconds and
    the seconds since 1970 at its zero.  The pool of fake addresses with the
    file store writes two other tables of the cache file; no operation of
    the resolver touches both, and the model keeps them apart. *)
Record St : Type := {
  s_ipv6 : bool;
  s_lru_cache : option DnsLru;
  s_fake_dns : option (@FakeDns NL S);
  s_reverse : option RevLru;
  s_store : option (CacheFile D);
  s_now : Z;
  s_epoch : Z;
}.
Definition set_lru c (s : St) : St := {| s_ipv6 := s_ipv6 s; s_lru_cache := c; s_fake_dns := s_fake_dns s;
  s_reverse := s_reverse s; s_store := s_store s; s_now := s_now s; s_epoch := s_epoch s |}.
Definition set_fake f (s : St) : St := {| s_ipv6 := s_ipv6 s; s_lru_cache := s_lru_cache s; s_fake_dns := f;
  s_reverse := s_reverse s; s_store := s_store s; s_now := s_now s; s_epoch := s_epoch s |}.
Definition set_reverse c (s : St) : St := {| s_ipv6 := s_ipv6 s; s_lru_cache := s_lru_cache s;
  s_fake_dns := s_fake_dns s; s_reverse := c; s_store := s_store s; s_now := s_now s; s_epoch := s_epoch s |}.
Definition set_store c (s : St) : St := {| s_ipv6 := s_ipv6 s; s_lru_cache := s_lru_cache s;
  s_fake_dns := s_fake_dns s; s_reverse := s_reverse s; s_store := c; s_now := s_now s; s_epoch := s_epoch s |}.
Definition set_now t (s : St) : St := {| s_ipv6 := s_ipv6 s; s_lru_cache := s_lru_cache s;
  s_fake_dns := s_fake_dns s; s_reverse := s_reverse s; s_store := s_store s; s_now := t; s_epoch := s_epoch s |}.
(** [SystemTime::now().duration_since(UNIX_EPOCH).as_secs()] *)
Definition unix_secs (s : St) : Z := s_epoch s + s_now s / 10 ^ 9.

(** State transformers with an outcome. *)
Definition M (A : Type) : Type := St -> option (res A * St).
#[local] Instance m_ret : MRet M := fun A a s => Some (Ok a, s).
#[local] Instance m_bind : MBind M := fun A B f m s =>
  match m s with
  | Some (Ok a, s') => f a s'
  | Some (Err e, s') => Some (Err e, s')
  | Some (Panic, s') => Some (Panic, s')
  | None => None
  end.
Definition lift {A} (r : res A) : M A := fun s => Some (r, s).
Definition gets {A} (f : St -> A) : M A := fun s => Some (Ok (f s), s).
Definition modify (f : St -> St) : M unit := fun s => Some (Ok tt, f s).
(** The outcome of a call as a value; a panic still ends everything. *)
Definition attempt {A} (m : M A) : M (res A) := fun s =>
  match m s with
  | Some (Panic, s') => Some (Panic, s')
  | Some (r, s') => Some (Ok r, s')
  | None => None
  end.

(** A batch takes time. *)
Definition batch (clients : list C) (message : Message) : M Message := fun s =>
  let '(t, r) := batch_exchange clients message (s_now s) in Some (r, set_now (s_now s + t) s).

Definition fake_lookup (host : str) : M IpAddr := fun s =>
  match s_fake_dns s with
  | None => Some (Panic, s)
  | Some f =>
    match fakedns_lookup oc host f with
    | None => None
    | Some (Ok (ip, f')) => Some (Ok ip, set_fake (Some f') s)
    | Some (Err e) => Some (Err e, s)
    | Some Panic => Some (Panic, s)
    end
  end.

Implicit Types (r : EnhancedResolver).

(* @src clash-lib/src/app/dns/resolver/enhanced.rs ~    fn match_policy~ EnhancedResolver::match_policy *)
Definition match_policy r (m : Message) : res (option (list C)) :=
  match r_fallback r, r_fallback_domain_filters r, r_policy r, domain_name_of_message m with
  | Some _, Some _, Some policy, Some domain =>
    match trie_search policy domain with
    | Some n => cs ← or_panic (get_data n); Ok (Some cs)
    | None => Ok None
    end
  | _, _, _, _ => Ok None
  end.

(* @src clash-lib/src/app/dns/resolver/enhanced.rs ~    fn should_only_query_fallback~ EnhancedResolver::should_only_query_fallback *)
Definition should_only_query_fallback r (message : Message) : bool :=
  match r_fallback r, r_fallback_domain_filters r, domain_name_of_message message with
  | Some _, Some filters, Some domain => existsb (fun f => domain_filter_apply f domain) filters
  | _, _, _ => false
  end.

(* @src clash-lib/src/app/dns/resolver/enhanced.rs ~    fn should_ip_fallback~ EnhancedResolver::should_ip_fallback *)
Definition should_ip_fallback r (ip : IpAddr) : bool :=
  match r_fallback_ip_filters r with
  | Some filters => existsb (fun f => ip_filter_apply f ip) filters
  | None => false
  end.

(* @src clash-lib/src/app/dns/resolver/enhanced.rs ~    async fn update_geoip_cache~ EnhancedResolver::update_geoip_cache *)
Definition update_geoip_cache r (domain : str) (ip : IpAddr) : M unit := fun s =>
  match s_store s, r_mmdb r with
  | Some store, Some mmdb =>
    match lookup_country mmdb ip with
    | Some code =>
      match arith oc 64 (unix_secs s + default (24 * 3600) (r_geo_ip_cache_expiration r)) with
      | Ok e => Some (Ok tt, set_store (Some (ts_set_domain_geoip domain {| code := code; expires_at := e |} store)) s)
      | _ => Some (Panic, s)
      end
    | None => Some (Ok tt, s)
    end
  | _, _ => Some (Ok tt, s)
  end.

(** An answer with a fake address, of the family of the pool. *)
(* @src clash-lib/src/app/dns/resolver/enhanced.rs 460 471 EnhancedResolver::ip_exchange (fake answer) *)
Definition fake_reply (domain : str) (message : Message) : M Message :=
  ip ← fake_lookup domain;
  let reply := build_dns_response_message message true false in
  name ← lift (or_panic (n ← name_from_str_relaxed domain; name_append_root n));
  mret (add_answers [ {| rr_name := name; rr_ttl := 10;
                         rr_data := match ip with V4 a => RdA a | V6 a => RdAAAA a end |} ] reply).

(** What the country cache says of a domain. *)
Inductive CacheVerdict : Type := CvForeign | CvHome | CvUnknown.
(* @src clash-lib/src/app/dns/resolver/enhanced.rs 445 456 EnhancedResolver::ip_exchange (country cache) *)
Definition cache_verdict r (message : Message) (s : St) : CacheVerdict :=
  match s_store s, r_geo_ip_code r, domain_name_of_message message with
  | Some store, Some home, Some domain =>
    match ts_get_domain_geoip domain store with
    | Some entry =>
      if unix_secs s <? expires_at entry then
        if bool_decide (code entry = home) then CvHome else CvForeign
      else CvUnknown
    | None => CvUnknown
    end
  | _, _, _ => CvUnknown
  end.

(** The fallback servers after a main answer that is not trusted. *)
Definition main_rejected r (message : Message) : M Message :=
  fallback ← lift (or_panic (r_fallback r)); batch fallback message.

(** A main answer with an address. *)
(* @src clash-lib/src/app/dns/resolver/enhanced.rs 500 529 EnhancedResolver::ip_exchange (main answer) *)
Definition check_main r (message main_result : Message) (ip : IpAddr) (skip_ip_check : bool) : M Message :=
  _ ← (if skip_ip_check then mret tt
       else match domain_name_of_message message with
            | Some domain => update_geoip_cache r domain ip
            | None => mret tt
            end);
  if skip_ip_check || negb (should_ip_fallback r ip) then mret main_result
  else
    fake ← gets s_fake_dns;
    match fake with
    | Some _ => if r_match_noproxy r then fake_reply (default [] (domain_name_of_message message)) message
                else main_rejected r message
    | None => main_rejected r message
    end.

(* @src clash-lib/src/app/dns/resolver/enhanced.rs ~    async fn ip_exchange~ EnhancedResolver::ip_exchange *)
Definition ip_exchange r (message : Message) : M Message :=
  matched ← lift (match_policy r message);
  match matched with
  | Some clients => batch clients message
  | None =>
    if should_only_query_fallback r message then main_rejected r message else
    verdict ← gets (cache_verdict r message);
    fake ← gets s_fake_dns;
    match verdict with
    | CvForeign =>
      match fake with
      | Some _ => if r_match_noproxy r then fake_reply (default [] (domain_name_of_message message)) message
                  else main_rejected r message
      | None => main_rejected r message
      end
    | _ =>
      let skip_ip_check := match verdict with CvHome => true | _ => false end in
      match r_fallback r with
      | None => batch (r_main r) message
      | Some _ =>
        main ← attempt (batch (r_main r) message);
        match main with
        | Ok main_result =>
          ip_list ← lift (ip_list_of_message main_result);
          match ip_list with
          | ip :: _ => check_main r message main_result ip skip_ip_check
          | [] => main_rejected r message
          end
        | _ => main_rejected r message
        end
      end
    end
  end.

Definition acme_challenge (q : Query) : bool :=
  bool_decide (q_type q = RtTXT) && starts_with (lit "_acme-challenge.") (name_to_ascii (q_name q)).

(* @src clash-lib/src/app/dns/resolver/enhanced.rs ~    async fn exchange_no_cache~ EnhancedResolver::exchange_no_cache *)
Definition exchange_no_cache r (message : Message) : M Message :=
  q ← lift (or_panic (query_of message));
  rv ← attempt (if is_ip_request q then ip_exchange r message
                else matched ← lift (match_policy r message);
                     match matched with
                     | Some clients => batch clients message
                     | None => batch (r_main r) message
                     end);
  _ ← match rv with
      | Ok msg =>
        modify (fun s => match s_lru_cache s with
                         | Some lru => if acme_challenge q then s
                                       else set_lru (Some (dlru_insert_records lru q (m_answers msg) (s_now s))) s
                         | None => s
                         end)
      | _ => mret tt
      end;
  lift rv.

(** The cache answers only a query that does not ask for recursion. *)
(* @src clash-lib/src/app/dns/resolver/enhanced.rs ~    async fn exchange\(&self, message: &op::Message\)~#1 EnhancedResolver::exchange *)
Definition exchange_inner r (message : Message) : M Message :=
  match query_of message with
  | None => lift (Err "invalid query")
  | Some q =>
    s ← gets id;
    match s_lru_cache s ≫= (fun lru => dlru_get lru q (s_now s)), m_recursion_desired message with
    | Some (Some records), false => mret (add_answers records (build_dns_response_message message true false))
    | _, _ => m ← exchange_no_cache r message; mret (strip_padding m)
    end
  end.

(* @src clash-lib/src/app/dns/resolver/enhanced.rs ~    async fn lookup_ip~ EnhancedResolver::lookup_ip *)
Definition lookup_ip r (host : str) (record_type : RecordType) : M (list IpAddr) :=
  name ← lift (ok_or (name_from_str_relaxed host) "invalid domain");
  name ← lift (ok_or (name_append_root name) "invalid domain");
  let q := {| q_name := name; q_type := record_type; q_class_in := true |} in
  let m := {| m_id := 0; m_op_code := 0; m_response := false; m_recursion_desired := true; m_recursion_available := false;
              m_authoritative := false; m_checking_disabled := false; m_response_code := 0; m_answer_count := 0;
              m_queries := [q]; m_answers := []; m_edns := None |} in
  result ← exchange_inner r m;
  ip_list ← lift (ip_list_of_message result);
  if bool_decide (ip_list = []) then lift (Err "no record for hostname") else mret ip_list.

(** [choose] picks one element; [pick] is the random index. *)
Definition choose {A} (pick : nat -> nat) (l : list A) : res A := or_panic (l !! (pick (length l) `mod` length l)%nat).

Definition expect_v4 (ip : IpAddr) : res Z := match ip with V4 a => Ok a | V6 _ => Panic end.
Definition expect_v6 (ip : IpAddr) : res Z := match ip with V6 a => Ok a | V4 _ => Panic end.
(** The entry of the hosts file for a name, of the family [expect]. *)
Definition hosts_entry r (expect : IpAddr -> res Z) (host : str) : option (res (option Z)) :=
  hosts ← r_hosts r; v ← trie_search hosts host;
  Some match get_data v with Some ip => a ← expect ip; Ok (Some a) | None => Ok None end.

Definition parse_v4 (host : str) : option Z := parse_with read_ipv4_addr host.
Definition parse_v6 (host : str) : option Z := parse_with read_ipv6_addr host.

Definition lookup_v4 r (pick : nat -> nat) (host : str) : M (option Z) :=
  result ← lookup_ip r host RtA; ip ← lift (choose pick result); a ← lift (expect_v4 ip); mret (Some a).

(* @src clash-lib/src/app/dns/resolver/enhanced.rs ~    async fn resolve_v4~ EnhancedResolver::resolve_v4 *)
Definition resolve_v4 r (pick : nat -> nat) (host : str) (enhanced : bool) : M (option Z) :=
  match (if enhanced then hosts_entry r expect_v4 host else None) with
  | Some a => lift a
  | None =>
    match parse_v4 host with
    | Some ip => mret (Some ip)
    | None =>
      fake ← gets s_fake_dns;
      match fake with
      | Some f =>
        if enhanced && negb (should_skip host f) then
          ip ← fake_lookup host; a ← lift (expect_v4 ip); mret (Some a)
        else lookup_v4 r pick host
      | None => lookup_v4 r pick host
      end
    end
  end.

(* @src clash-lib/src/app/dns/resolver/enhanced.rs ~    async fn resolve_v6~ EnhancedResolver::resolve_v6 *)
Definition resolve_v6 r (pick : nat -> nat) (host : str) (enhanced : bool) : M (option Z) :=
  on ← gets s_ipv6;
  if negb on then lift (Err "ipv6 disabled") else
  match (if enhanced then hosts_entry r expect_v6 host else None) with
  | Some a => lift a
  | None =>
    match parse_v6 host with
    | Some ip => mret (Some ip)
    | None =>
      result ← lookup_ip r host RtAAAA; ip ← lift (choose pick result); a ← lift (expect_v6 ip); mret (Some a)
    end
  end.

(* @src clash-lib/src/app/dns/resolver/enhanced.rs ~    async fn save_reverse_lookup~ EnhancedResolver::save_reverse_lookup *)
Definition save_reverse_lookup (ip : IpAddr) (domain : str) : M unit :=
  modify (fun s => match s_reverse s with
                   | Some lru => set_reverse (Some (rev_insert lru ip domain (s_now s))) s
                   | None => s
                   end).

Fixpoint save_all (ips : list IpAddr) (domain : str) : M unit :=
  match ips with
  | [] => mret tt
  | ip :: ips' => _ ← save_reverse_lookup ip domain; save_all ips' domain
  end.

(* @src clash-lib/src/app/dns/resolver/enhanced.rs ~    async fn exchange\(&self, message: &op::Message\)~#2 ClashResolver::exchange *)
Definition exchange r (message : Message) : M Message :=
  rv ← exchange_inner r message;
  q ← lift (or_panic (query_of message));
  let hostname := trim_end_matches 46 (name_to_utf8 (q_name q)) in
  ip_list ← lift (ip_list_of_message rv);
  _ ← save_all ip_list hostname;
  mret rv.

(* @src clash-lib/src/app/dns/resolver/enhanced.rs ~    async fn cached_for~ EnhancedResolver::cached_for *)
Definition cached_for (ip : IpAddr) (s : St) : option str :=
  lru ← s_reverse s; rev_peek lru ip (s_now s).

(* @src clash-lib/src/app/dns/resolver/enhanced.rs ~    fn fake_ip_enabled~ EnhancedResolver::fake_ip_enabled *)
Definition fake_ip_enabled (s : St) : bool := bool_decide (is_Some (s_fake_dns s)).
(* @src clash-lib/src/app/dns/resolver/enhanced.rs ~    async fn is_fake_ip~ EnhancedResolver::is_fake_ip *)
Definition resolver_is_fake_ip (ip : IpAddr) (s : St) : bool :=
  match s_fake_dns s with Some f => is_fake_ip ip f | None => false end.
(* @src clash-lib/src/app/dns/resolver/enhanced.rs ~    async fn reverse_lookup~ EnhancedResolver::reverse_lookup *)
Definition resolver_reverse_lookup (ip : IpAddr) (s : St) : option str * St :=
  match s_fake_dns s with
  | Some f => let '(o, f') := reverse_lookup ip f in (o, set_fake (Some f') s)
  | None => (None, s)
  end.
(* @src clash-lib/src/app/dns/resolver/enhanced.rs ~    fn set_ipv6~ EnhancedResolver::set_ipv6 *)
Definition set_ipv6 (on : bool) (s : St) : St := {| s_ipv6 := on; s_lru_cache := s_lru_cache s;
  s_fake_dns := s_fake_dns s; s_reverse := s_reverse s; s_store := s_store s; s_now := s_now s; s_epoch := s_epoch s |}.

(** [resolve] runs the two lookups at once when IPv6 is on.  [r6] and [r4]
    are their outcomes with the times they take; the first success wins, one
    without an address waits for the other, and waiting for nothing panics. *)
(* @src clash-lib/src/app/dns/resolver/enhanced.rs ~    async fn resolve\(~ EnhancedResolver::resolve *)
Definition resolve_race (on : bool) (r6 r4 : Z * res (option IpAddr)) : res (option IpAddr) :=
  if on then
    let '(a, b) := if r4.1 <? r6.1 then (r4, r6) else (r6, r4) in
    match a.2 with
    | Ok (Some ip) => Ok (Some ip)
    | Ok None => b.2
    | Err _ => match b.2 with Ok (Some ip) => Ok (Some ip) | Ok None => Panic | Err e => Err e | Panic => Panic end
    | Panic => Panic
    end
  else r4.2.

Definition DEFAULT_DNS_SERVER_TTL : Z := 60.

(* @src clash-lib/src/app/dns/server/handler.rs ~^pub async fn exchange_with_resolver~ exchange_with_resolver *)
Definition exchange_with_resolver r (pick : nat -> nat) (req : Message) (enhanced : bool) : M Message :=
  on ← gets fake_ip_enabled;
  if bool_decide (q_type <$> query_of req = Some RtAAAA) || negb on then exchange r req
  else
    q ← lift (ok_or (query_of req) "malformed query message");
    let host := trim_end_matches 46 (name_to_ascii (q_name q)) in
    let reply := build_dns_response_message req false false in
    resp ← resolve_v4 r pick host enhanced;
    match resp with
    | Some ip =>
      let records := [ {| rr_name := q_name q; rr_ttl := DEFAULT_DNS_SERVER_TTL; rr_data := RdA ip |} ] in
      mret (add_answers records (set_code 0 (wrap 16 (zlen records)) reply))
    | None => mret (set_code 3 0 reply)
    end.
End resolver.

(** ** Construction *)
Section construction.
Context {NM : NameLib} {NL : IpNetLib} {FN : FamilyNetLib} {LL : ListenLib} {RC : RecordCache}.
Context {S : Type} {SO : StoreOps S} {D : Type}.
Context (oc : bool).

(** The filter by country is installed whenever there is a list of networks,
    which there is unless one of them does not parse. *)
(* @src clash-lib/src/app/dns/resolver/enhanced.rs 171 191 EnhancedResolver::new (address filters) *)
Definition ip_filters_of (ff : FallbackFilter) (mmdb : option MmdbLookup) : option (list FallbackIPFilter) :=
  if bool_decide (is_Some (ff_ip_cidr ff)) || ff_geo_ip ff then
    Some (GeoIPFilter (ff_geo_ip_code ff) mmdb :: match ff_ip_cidr ff with Some l => map IPNetFilter l | None => [] end)
  else None.

(* @src clash-lib/src/app/dns/resolver/enhanced.rs 160 170 EnhancedResolver::new (domain filters) *)
Definition domain_filters_of (ff : FallbackFilter) : option (list (StringTrie (option str))) :=
  if bool_decide (ff_domain ff = []) then None else Some [domain_filter_new (ff_domain ff)].

(** The policies in the order the map yields them. *)
Fixpoint policy_trie (mk : list NameServer -> option (res (list Client))) (t : StringTrie (list Client))
    (entries : list (str * NameServer)) : option (res (StringTrie (list Client))) :=
  match entries with
  | [] => Some (Ok t)
  | (domain, ns) :: rest =>
    cs ← mk [ns];
    match cs with
    | Ok cs => policy_trie mk (trie_insert t domain cs).1 rest
    | Err e => Some (Err e)
    | Panic => Some Panic
    end
  end.

(* @src clash-lib/src/app/dns/resolver/enhanced.rs 224 252 EnhancedResolver::new (fake addresses) *)
Definition fake_dns_of (cfg : Config) (store : S) : res (option (@FakeDns NL S)) :=
  match enhance_mode cfg with
  | MdFakeIp =>
    let skipped := if bool_decide (fake_ip_filter cfg = []) then None
                   else Some (foldl (fun h d => (trie_insert h d true).1) trie_new (fake_ip_filter cfg)) in
    match fakedns_new oc (fake_ip_range cfg) skipped store with
    | Ok f => Ok (Some f)
    | _ => Panic
    end
  | _ => Ok None
  end.

(** [default_resolve] is [resolve] of the default resolver, which has the
    default servers as its clients and nothing else. *)
(* @src clash-lib/src/app/dns/resolver/enhanced.rs ~    pub async fn new\(~ EnhancedResolver::new *)
Definition resolver_new (cfg : Config) (mmdb : option MmdbLookup) (outbounds : gset str)
    (default_iface : option OutboundInterface) (default_resolve : list Client -> str -> res (option IpAddr))
    (lru0 : DnsLru) (rev0 : RevLru) (store : CacheFile D) (fake_store : S) (policies : list (str * NameServer))
    (now epoch : Z) : option (res (EnhancedResolver (C := Client) * St (D := D))) :=
  let make r := make_clients r outbounds default_iface (edns_client_subnet cfg) (fw_mark cfg) in
  defaults ← make None (default_nameserver cfg);
  match defaults with
  | Ok defaults =>
    let mk := make (Some (default_resolve defaults)) in
    main ← mk (nameserver cfg);
    fb ← (if bool_decide (fallback cfg = []) then Some (Ok None)
          else cs ← mk (fallback cfg); Some (cs ← cs; Ok (Some cs)));
    pol ← (if bool_decide (policies = []) then Some (Ok None)
           else t ← policy_trie mk trie_new policies; Some (t ← t; Ok (Some t)));
    let ff := fallback_filter cfg in
    Some (main ← main; fb ← fb; pol ← pol;
          fake ← fake_dns_of cfg fake_store;
          Ok ({| r_hosts := hosts cfg; r_main := main; r_fallback := fb;
                 r_fallback_domain_filters := domain_filters_of ff;
                 r_fallback_ip_filters := ip_filters_of ff mmdb;
                 r_policy := pol;
                 r_geo_ip_cache_expiration := ff_geo_ip_cache_expiration ff;
                 r_geo_ip_code := if ff_geo_ip ff then Some (ff_geo_ip_code ff) else None;
                 r_mmdb := if ff_geo_ip ff then mmdb else None;
                 r_match_noproxy := ff_match_noproxy ff |},
              {| s_ipv6 := ipv6 cfg; s_lru_cache := Some lru0; s_fake_dns := fake; s_reverse := Some rev0;
                 s_store := Some store; s_now := now; s_epoch := epoch |}))
  | Err e => Some (Err e)
  | Panic => Some Panic
  end.
End construction.
