(* ===== verification/ResolverSpec.v ===== *)
(** * What the resolver promises

    Theorems about [Resolver] and [DnsConfig]: a batch of servers gives the
    earliest success; answers of the main servers are used only when they
    can be trusted, and the country cache remembers the verdict; the server's
    fake answers can be turned back into names; configurations that load
    are well-formed. *)

From stdpp Require Import sorting.
From S2P Require Import Prelude Str Net Session Trie Geo Router Profile FakeIp FakePool DnsConfig Resolver.

(** ** Batches *)
Section batch_spec.
Context {NM : NameLib} {C : Type} {UP : Upstream C}.
Implicit Types (clients : list C) (m msg : Message).

(** A client answers in time. *)
Definition in_time (c : C) m (now t : Z) (a : res Message) : Prop := ask c m now = Some (t, a) /\ t < TIMEOUT.

Lemma arrivals_elem clients m now t a :
  (t, a) ∈ arrivals clients m now <-> exists c, c ∈ clients /\ in_time c m now t a.
Proof.
  unfold arrivals, in_time. rewrite sort_by_perm, list_elem_of_omap. split.
  - intros (c & Hc & E). apply bind_Some in E as ([t' a'] & E & E'). cbn [fst] in E'. destruct (Z.ltb_spec t' TIMEOUT); [|done].
    injection E' as -> ->. by exists c.
  - intros (c & Hc & E & Ht). exists c. split; [done|]. rewrite E. cbn [mbind option_bind fst]. by rewrite (proj2 (Z.ltb_lt _ _)).
Qed.

Lemma first_ok_split l :
  match first_ok l with
  | Some (t, a) => exists l1 l2, l = l1 ++ (t, a) :: l2 /\ Forall (fun x => exists e, x.2 = Err e) l1 /\ forall e, a <> Err e
  | None => Forall (fun x => exists e, x.2 = Err e) l
  end.
Proof.
  induction l as [|[t [msg|e|]] l IH]; simpl; [done| | |].
  - by exists [], l.
  - destruct (first_ok l) as [[t' a]|]; [|constructor; [by exists e|done]].
    destruct IH as (l1 & l2 & -> & H1 & Ha). exists ((t, Err e) :: l1), l2. split_and!; [done| |done].
    constructor; [by exists e|done].
  - by exists [], l.
Qed.

(** The successes of a batch are those of its clients, and the earliest is
    taken. *)
Lemma batch_ok clients m now t msg :
  batch_exchange clients m now = (t, Ok msg) ->
  (exists c, c ∈ clients /\ in_time c m now t (Ok msg)) /\
  forall c t' msg', c ∈ clients -> in_time c m now t' (Ok msg') -> t <= t'.
Proof.
  unfold batch_exchange. case_bool_decide; [done|].
  pose proof (first_ok_split (arrivals clients m now)) as Hf.
  destruct (first_ok _) as [[t0 a]|] eqn:E.
  - intros [= -> ->]. destruct Hf as (l1 & l2 & Hl & H1 & _).
    assert ((t, Ok msg) ∈ arrivals clients m now) as Hin by (rewrite Hl; set_solver).
    split; [by apply arrivals_elem|]. intros c t' msg' Hc Ht'.
    assert ((t', Ok msg') ∈ arrivals clients m now) as Hin' by (apply arrivals_elem; eauto).
    rewrite Hl in Hin'. apply elem_of_app in Hin' as [Hin'|Hin'].
    { rewrite Forall_forall in H1. by destruct (H1 _ Hin') as [e ?]. }
    assert (StronglySorted (fun a b : Z * res Message => a.1 <= b.1) (arrivals clients m now)) as Hs
      by apply (sort_by_sorted fst).
    rewrite Hl in Hs. apply StronglySorted_app_1_r in Hs. apply elem_of_cons in Hin' as [[= -> _]|Hin']; [done|].
    inversion Hs as [|? ? ? Hle]; subst. rewrite Forall_forall in Hle. by apply Hle in Hin'.
  - destruct (_ =? _)%nat; [|done]. intros Hlast.
    destruct (last (arrivals clients m now)) as [x|] eqn:El; [|done]. simpl in Hlast. subst x.
    apply last_Some_elem_of in El. rewrite Forall_forall in Hf. by destruct (Hf _ El) as [e ?].
Qed.

Lemma batch_panic clients m now t :
  (forall c, c ∈ clients -> forall t', ~ in_time c m now t' Panic) -> batch_exchange clients m now = (t, Panic) -> clients = [].
Proof.
  unfold batch_exchange. intros Hnp. case_bool_decide; [done|]. intros Hb. exfalso.
  assert (forall t0, (t0, Panic) ∈ arrivals clients m now -> False) as Hno.
  { intros t0 Hp. apply arrivals_elem in Hp as (c' & Hc' & Hp). by destruct (Hnp _ Hc' _ Hp). }
  pose proof (first_ok_split (arrivals clients m now)) as Hf. destruct (first_ok _) as [[t0 a]|].
  - injection Hb as -> ->. destruct Hf as (l1 & l2 & Hl & _). apply (Hno t). rewrite Hl. set_solver.
  - destruct (_ =? _)%nat; [|done]. destruct (last (arrivals clients m now)) as [x|] eqn:El; [|done].
    simpl in Hb. subst x. apply last_Some_elem_of in El. by apply (Hno t).
Qed.

Lemma batch_error clients m now t e :
  batch_exchange clients m now = (t, Err e) -> forall c t' msg, c ∈ clients -> ~ in_time c m now t' (Ok msg).
Proof.
  unfold batch_exchange. case_bool_decide; [done|]. intros Hb c t' msg Hc Hin.
  assert ((t', Ok msg) ∈ arrivals clients m now) as Hel by (apply arrivals_elem; eauto).
  pose proof (first_ok_split (arrivals clients m now)) as Hf. destruct (first_ok _) as [[t0 a]|].
  - destruct Hf as (? & ? & _ & _ & He). injection Hb as -> ->. by destruct (He e).
  - rewrite Forall_forall in Hf. by destruct (Hf _ Hel) as [? ?].
Qed.
End batch_spec.

(** A batch of servers.  When no client panics, asking several servers
    at once succeeds exactly if one of them answers within ten seconds, and
    then with an answer that none of the others beat; only without any server
    does the call panic. *)
Theorem batch_exchange_first {NM : NameLib} {C : Type} {UP : Upstream C} (clients : list C) (m : Message) (now : Z)
    (Hnp : forall c, c ∈ clients -> forall t, ~ in_time c m now t Panic) :
  match batch_exchange clients m now with
  | (t, Ok msg) => (exists c, c ∈ clients /\ in_time c m now t (Ok msg)) /\
                   forall c t' msg', c ∈ clients -> in_time c m now t' (Ok msg') -> t <= t'
  | (_, Err _) => forall c t' msg, c ∈ clients -> ~ in_time c m now t' (Ok msg)
  | (_, Panic) => clients = []
  end.
Proof.
  destruct (batch_exchange clients m now) as [t [msg|e|]] eqn:E.
  - by apply batch_ok.
  - by eapply batch_error.
  - by eapply batch_panic.
Qed.

(** ** Which answer is used *)
Section trust.
Context {NM : NameLib} {NL : IpNetLib} {RC : RecordCache}.
Context {C : Type} {UP : Upstream C}.
Context {S : Type} {SO : StoreOps S} {D : Type}.
Context (oc : bool).
#[local] Notation St := (@St NM NL RC S D).
#[local] Notation M := (@M NM NL RC S D).
Implicit Types (r : @EnhancedResolver NL C) (s : St).

Lemma bind_ok {A B} (m : M A) (f : A -> M B) s b s' :
  m_bind _ _ f m s = Some (Ok b, s') -> exists a s1, m s = Some (Ok a, s1) /\ f a s1 = Some (Ok b, s').
Proof. unfold m_bind. destruct (m s) as [[[a|e|] s1]|]; try done. intros H. by exists a, s1. Qed.
Lemma lift_ok {A} (o : res A) s a s' : lift (NM := NM) (S := S) (D := D) o s = Some (Ok a, s') -> o = Ok a /\ s' = s.
Proof. by intros [= -> ->]. Qed.

(** A message that one of the servers answered. *)
Definition answered (clients : list C) (m msg : Message) : Prop :=
  exists c t d, c ∈ clients /\ ask c m t = Some (d, Ok msg).

Lemma batch_answered clients m s msg s' : batch clients m s = Some (Ok msg, s') ->
  answered clients m msg /\ exists t, s' = set_now t s.
Proof.
  unfold batch. destruct (batch_exchange clients m (s_now s)) as [t a] eqn:E. intros [= -> <-].
  apply batch_ok in E as [(c & Hc & Ha & _) _]. split; [by exists c, (s_now s), t|eauto].
Qed.

Lemma rejected_answered r m s msg s' fb : r_fallback r = Some fb ->
  main_rejected r m s = Some (Ok msg, s') -> answered fb m msg /\ exists t, s' = set_now t s.
Proof. unfold main_rejected. intros ->. apply batch_answered. Qed.

(** A reply with one address, given out by the pool for the name asked for. *)
Definition fake_answer m s msg : Prop :=
  exists f ip f' name, s_fake_dns s = Some f /\
    fakedns_lookup oc (default [] (domain_name_of_message m)) f = Some (Ok (ip, f')) /\
    m_answers msg = [ {| rr_name := name; rr_ttl := 10; rr_data := match ip with V4 a => RdA a | V6 a => RdAAAA a end |} ].

Lemma fake_reply_answer m s msg s' :
  fake_reply oc (default [] (domain_name_of_message m)) m s = Some (Ok msg, s') -> fake_answer m s msg.
Proof.
  unfold fake_reply. intros H. apply bind_ok in H as (ip & s1 & Hl & H). apply bind_ok in H as (name & s2 & Hn & [= <- <-]).
  unfold fake_lookup in Hl. destruct (s_fake_dns s) as [f|] eqn:Ef; [|done].
  destruct (fakedns_lookup _ _ f) as [[[ip' f']| |]|] eqn:El; simplify_eq. unfold fake_answer. by exists f, ip, f', name.
Qed.

(** Where an answer may come from. *)
Inductive trusted r (m : Message) s (msg : Message) : Prop :=
| TrPolicy cs : match_policy r m = Ok (Some cs) -> answered cs m msg -> trusted r m s msg
| TrFallback fb : r_fallback r = Some fb -> answered fb m msg -> trusted r m s msg
| TrFake : r_match_noproxy r = true -> fake_answer m s msg -> trusted r m s msg
| TrOnly : r_fallback r = None -> answered (r_main r) m msg -> trusted r m s msg
| TrHome : should_only_query_fallback r m = false -> cache_verdict r m s = CvHome ->
    answered (r_main r) m msg -> trusted r m s msg
| TrChecked ip ips : should_only_query_fallback r m = false -> cache_verdict r m s = CvUnknown ->
    ip_list_of_message msg = Ok (ip :: ips) -> should_ip_fallback r ip = false ->
    answered (r_main r) m msg -> trusted r m s msg.

Lemma update_cache_state r d ip s s' o : update_geoip_cache oc r d ip s = Some (o, s') ->
  s_fake_dns s' = s_fake_dns s.
Proof. unfold update_geoip_cache. repeat case_match; by intros [= <- <-]. Qed.

(** The two ways out when the main servers are not trusted. *)
Lemma untrusted_answer r m s s0 msg s' fb :
  r_fallback r = Some fb -> s_fake_dns s = s_fake_dns s0 ->
  match s_fake_dns s with
  | Some _ => if r_match_noproxy r then fake_reply oc (default [] (domain_name_of_message m)) m else main_rejected r m
  | None => main_rejected r m
  end s = Some (Ok msg, s') -> trusted r m s0 msg.
Proof.
  intros Hfb Hf. assert (main_rejected r m s = Some (Ok msg, s') -> trusted r m s0 msg) as Hrej.
  { intros H. eapply rejected_answered in H as [H _]; [|done]. by eapply TrFallback. }
  destruct (s_fake_dns s) eqn:Es; [|done]. destruct (r_match_noproxy r) eqn:Hn; [|done].
  intros H. apply fake_reply_answer in H as (f' & ip & f2 & name & E & ? & ?).
  apply TrFake; [done|]. rewrite Es in E. exists f', ip, f2, name. split; [congruence|done].
Qed.

Lemma check_main_trust r m main ip ips (skip : bool) s s0 msg s' fb :
  r_fallback r = Some fb -> s_fake_dns s = s_fake_dns s0 -> should_only_query_fallback r m = false ->
  answered (r_main r) m main -> ip_list_of_message main = Ok (ip :: ips) ->
  cache_verdict r m s0 = (if skip then CvHome else CvUnknown) ->
  check_main oc r m main ip skip s = Some (Ok msg, s') -> trusted r m s0 msg.
Proof.
  intros Hfb Hf Ho Ha Hl Hv H. unfold check_main in H. apply bind_ok in H as (u & s1 & Hu & H).
  assert (s_fake_dns s1 = s_fake_dns s0) as Hf1.
  { rewrite <- Hf. destruct skip; [by injection Hu as _ <-|].
    destruct (domain_name_of_message m); [by apply update_cache_state in Hu|by injection Hu as _ <-]. }
  destruct skip; simpl in H; [injection H as <- <-; by apply TrHome|].
  destruct (should_ip_fallback r ip) eqn:Hip; [|injection H as <- <-; by eapply TrChecked].
  apply bind_ok in H as (o & s2 & [= <- <-] & H). by eapply untrusted_answer.
Qed.

(** C18: which upstream is believed.  The answer to a question for addresses
    is one of the servers a policy names for the domain, of a fallback
    server, or a fake address where that is configured.  An answer of a main
    server is used only if there are no fallback servers, or the domain is
    not reserved for them and either the country cache says the domain is at
    home or no address filter rejects the first address of the answer. *)
Theorem ip_exchange_trust r (m : Message) s (msg : Message) s' (H : ip_exchange oc r m s = Some (Ok msg, s')) :
  trusted r m s msg.
Proof.
  unfold ip_exchange in H. apply bind_ok in H as (matched & s1 & Hm & H). apply lift_ok in Hm as [Hm ->].
  destruct matched as [cs|]; [apply batch_answered in H as [H _]; by eapply TrPolicy|].
  destruct (should_only_query_fallback r m) eqn:Ho.
  { destruct (r_fallback r) as [fb|] eqn:Hfb; [|unfold should_only_query_fallback in Ho; by rewrite Hfb in Ho].
    eapply rejected_answered in H as [H _]; [|done]. by eapply TrFallback. }
  apply bind_ok in H as (v & s1 & [= <- <-] & H). apply bind_ok in H as (fake & s1 & [= <- <-] & H).
  destruct (r_fallback r) as [fb|] eqn:Hfb.
  2:{ destruct (cache_verdict r m s).
      - destruct (s_fake_dns s) eqn:Es.
        + destruct (r_match_noproxy r) eqn:Hn; [by apply TrFake; [|eapply fake_reply_answer]|].
          unfold main_rejected in H. by rewrite Hfb in H.
        + unfold main_rejected in H. by rewrite Hfb in H.
      - apply batch_answered in H as [H _]. by apply TrOnly.
      - apply batch_answered in H as [H _]. by apply TrOnly. }
  assert (forall skip : bool, cache_verdict r m s = (if skip then CvHome else CvUnknown) ->
    m_bind _ _ (fun main : res Message => match main with
      | Ok main_result => m_bind _ _ (fun ip_list : list IpAddr => match ip_list with
          | ip :: _ => check_main oc r m main_result ip skip | [] => main_rejected r m end)
          (lift (ip_list_of_message main_result))
      | _ => main_rejected r m end) (attempt (batch (r_main r) m)) s = Some (Ok msg, s') -> trusted r m s msg) as Hmain.
  { clear H. intros skip Hv H. apply bind_ok in H as (main & s1 & Hb & H). unfold attempt in Hb.
    destruct (batch (r_main r) m s) as [[ [main'|e|] s2]|] eqn:Eb; simplify_eq.
    - apply batch_answered in Eb as [Ha [t ->]]. apply bind_ok in H as (ips & s2 & Hl & H). apply lift_ok in Hl as [Hl ->].
      destruct ips as [|ip ips]; [eapply rejected_answered in H as [H _]; [by eapply TrFallback|done]|].
      by apply (check_main_trust r m main' ip ips skip (set_now t s) s msg s' fb).
    - eapply rejected_answered in H as [H _]; [by eapply TrFallback|done]. }
  destruct (cache_verdict r m s) eqn:Hv; [by eapply untrusted_answer|by apply (Hmain true)|by apply (Hmain false)].
Qed.

(** ** The country cache *)

Lemma update_cache_store r d ip s o s' db cf c :
  r_mmdb r = Some db -> lookup_country db ip = Some c -> s_store s = Some cf ->
  in_width 64 (unix_secs s + default (24 * 3600) (r_geo_ip_cache_expiration r)) ->
  update_geoip_cache oc r d ip s = Some (o, s') ->
  s' = set_store (Some (ts_set_domain_geoip d
         {| code := c; expires_at := unix_secs s + default (24 * 3600) (r_geo_ip_cache_expiration r) |} cf)) s.
Proof.
  intros Hdb Hc Hs Hw. unfold update_geoip_cache. rewrite Hs, Hdb, Hc, arith_ok by exact Hw. by intros [= _ <-].
Qed.

(** The ways out leave the cache alone. *)
Lemma batch_store clients m s o s' : batch clients m s = Some (o, s') -> s_store s' = s_store s.
Proof. unfold batch. destruct (batch_exchange _ _ _). by intros [= _ <-]. Qed.
Lemma rejected_store r m s o s' : main_rejected r m s = Some (o, s') -> s_store s' = s_store s.
Proof.
  unfold main_rejected. destruct (r_fallback r); cbn; [apply batch_store|by intros [= <- <-]].
Qed.
Lemma fake_reply_store d m s o s' : fake_reply oc d m s = Some (o, s') -> s_store s' = s_store s.
Proof.
  unfold fake_reply, mbind, m_bind, fake_lookup, lift. destruct (s_fake_dns s) as [f|]; [|by intros [= <- <-]].
  destruct (fakedns_lookup oc d f) as [[[ip f']| |]|]; [|by intros [= <- <-]|by intros [= <- <-]|done].
  destruct (name_from_str_relaxed d) as [n|]; cbn; [destruct (name_append_root n); cbn|]; by intros [= <- <-].
Qed.

(** The fallback or the pool, as both places of [ip_exchange] choose. *)
Lemma untrusted_store r m s (f : option (@FakeDns NL S)) d o s' :
  match f with
  | Some _ => if r_match_noproxy r then fake_reply oc d m else main_rejected r m
  | None => main_rejected r m
  end s = Some (o, s') -> s_store s' = s_store s.
Proof.
  destruct f; [destruct (r_match_noproxy r)|]; eauto using fake_reply_store, rejected_store.
Qed.

Lemma check_main_store r m main ip s o s' db cf c d :
  r_mmdb r = Some db -> lookup_country db ip = Some c -> s_store s = Some cf -> domain_name_of_message m = Some d ->
  in_width 64 (unix_secs s + default (24 * 3600) (r_geo_ip_cache_expiration r)) ->
  check_main oc r m main ip false s = Some (o, s') ->
  s_store s' = Some (ts_set_domain_geoip d
         {| code := c; expires_at := unix_secs s + default (24 * 3600) (r_geo_ip_cache_expiration r) |} cf).
Proof.
  intros Hdb Hc Hs Hd Hw. unfold check_main. rewrite Hd. cbn [orb].
  destruct (update_geoip_cache oc r d ip s) as [[u s1]|] eqn:Eu.
  2:{ unfold update_geoip_cache in Eu. by rewrite Hs, Hdb, Hc, arith_ok in Eu by exact Hw. }
  assert (u = Ok tt) as ->.
  { unfold update_geoip_cache in Eu. rewrite Hs, Hdb, Hc, arith_ok in Eu by exact Hw. by injection Eu as <-. }
  unfold mbind at 1, m_bind at 1. rewrite Eu.
  eapply update_cache_store in Eu as ->; [|done..].
  destruct (negb (should_ip_fallback r ip)); [by intros [= <- <-]|].
  intros H. unfold mbind, m_bind, gets in H. by apply untrusted_store in H as ->.
Qed.

(** The country cache.  When a question is put to the main servers
    because nothing is known of its domain, the country of the first address
    they answer is remembered: until the entry expires the cache says that
    the domain is at home if that country is the configured one and abroad
    otherwise. *)
Theorem country_cache_remembers r (m : Message) s (o : res Message) s' fb t main ip ips db cf c home d
    (Hpol : match_policy r m = Ok None) (Hfb : r_fallback r = Some fb) (Hf : should_only_query_fallback r m = false)
    (Hv : cache_verdict r m s = CvUnknown) (Hm : batch_exchange (r_main r) m (s_now s) = (t, Ok main))
    (Hip : ip_list_of_message main = Ok (ip :: ips)) (Hdb : r_mmdb r = Some db) (Hc : lookup_country db ip = Some c)
    (Hs : s_store s = Some cf) (Hcf : store_selected cf = true) (Hd : domain_name_of_message m = Some d)
    (Hhome : r_geo_ip_code r = Some home)
    (Hw : in_width 64 (unix_secs (set_now (s_now s + t) s) + default (24 * 3600) (r_geo_ip_cache_expiration r)))
    (H : ip_exchange oc r m s = Some (o, s')) s2 (Hs2 : s_store s2 = s_store s')
    (Ht2 : unix_secs s2 < unix_secs (set_now (s_now s + t) s) + default (24 * 3600) (r_geo_ip_cache_expiration r)) :
  cache_verdict r m s2 = if decide (c = home) then CvHome else CvForeign.
Proof.
  assert (check_main oc r m main ip false (set_now (s_now s + t) s) = Some (o, s')) as Hcm.
  { unfold ip_exchange, mbind, m_bind, lift, gets in H. rewrite Hpol, Hf, Hv, Hfb in H.
    unfold attempt, batch in H. rewrite Hm, Hip in H. exact H. }
  eapply check_main_store in Hcm; [|done..].
  unfold cache_verdict. rewrite Hs2, Hcm, Hhome, Hd. unfold ts_get_domain_geoip, ts_set_domain_geoip. rewrite Hcf. cbn.
  rewrite Hcf, lookup_insert_eq. cbn. rewrite (proj2 (Z.ltb_lt _ _)) by exact Ht2.
  by case_bool_decide; case_decide.
Qed.

(** Without fallback servers a domain that the cache knows to be abroad
    cannot be asked for any more. *)
Theorem foreign_without_fallback_panics r (m : Message) s
    (Hfb : r_fallback r = None) (Hv : cache_verdict r m s = CvForeign) (Hn : r_match_noproxy r = false) :
  ip_exchange oc r m s = Some (Panic, s).
Proof.
  unfold ip_exchange, match_policy, should_only_query_fallback. rewrite Hfb.
  unfold mbind, m_bind, lift, gets. rewrite Hv, Hn. unfold main_rejected. rewrite Hfb. by destruct (s_fake_dns s).
Qed.

(** A policy has no effect unless fallback servers and filtered domains are
    configured too. *)
Theorem policy_needs_fallback r (m : Message)
    (H : r_fallback r = None \/ r_fallback_domain_filters r = None) : match_policy r m = Ok None.
Proof. unfold match_policy. destruct H as [-> | ->]; repeat case_match; done. Qed.
End trust.

(** ** The DNS server with fake addresses *)
Section server.
Context {NM : NameLib} {NL : IpNetLib} {RC : RecordCache}.
Context {C : Type} {UP : Upstream C}.
Context {S : Type} {SO : StoreOps S} {SL : StoreLaws S} {D : Type}.
Context (oc : bool).
Implicit Types (r : @EnhancedResolver NL C) (s : @St NM NL RC S D).

(** The name a question asks for. *)
Definition asked_host (q : Query) : str := trim_end_matches 46 (name_to_ascii (q_name q)).

(** The exchange in fake-ip mode, given what the pool does. *)
Lemma fake_exchange r (pick : nat -> nat) s (f : @FakeDns NL S) (req : Message) (q : Query) a f' :
  s_fake_dns s = Some f -> query_of req = Some q -> q_type q <> RtAAAA ->
  should_skip (asked_host q) f = false -> hosts_entry r expect_v4 (asked_host q) = None -> parse_v4 (asked_host q) = None ->
  fakedns_lookup oc (asked_host q) f = Some (Ok (V4 a, f')) ->
  exists msg, exchange_with_resolver oc r pick req true s = Some (Ok msg, set_fake (Some f') s) /\
    m_answers msg = [ {| rr_name := q_name q; rr_ttl := 60; rr_data := RdA a |} ] /\
    m_id msg = m_id req /\ m_queries msg = m_queries req.
Proof.
  intros Hf Hq Ht Hskip Hhosts Hlit E.
  assert (resolve_v4 oc r pick (asked_host q) true s = Some (Ok (Some a), set_fake (Some f') s)) as Hr.
  { unfold resolve_v4. rewrite Hhosts, Hlit. unfold mbind, m_bind, gets. rewrite Hf, Hskip. cbn [andb negb].
    unfold fake_lookup. by rewrite Hf, E. }
  unfold exchange_with_resolver, mbind, m_bind, gets, lift, fake_ip_enabled. rewrite Hf, Hq.
  rewrite bool_decide_eq_false_2 by (by intros [= ?]). rewrite bool_decide_eq_true_2 by done. cbn [orb negb ok_or].
  fold (asked_host q). rewrite Hr. by eexists.
Qed.

Lemma reverse_of_set_fake s (f' : @FakeDns NL S) ip :
  resolver_reverse_lookup ip (set_fake (Some f') s) =
  ((FakeIp.reverse_lookup ip f').1, set_fake (Some (FakeIp.reverse_lookup ip f').2) s).
Proof. unfold resolver_reverse_lookup. cbn [s_fake_dns set_fake]. by destruct (FakeIp.reverse_lookup ip f'). Qed.

(** Fake answers lead back to names: the answer is one address of the pool,
    under the question's own identifier, and looking it up gives the name. *)
Theorem fake_answer_reverses r (pick : nat -> nat) s (f : @FakeDns NL S) (req : Message) (q : Query)
    (Hf : s_fake_dns s = Some f) (Hinv : pool_inv f) (Hq : query_of req = Some q) (Ht : q_type q <> RtAAAA)
    (Hok : ok_host (asked_host q)) (Hskip : should_skip (asked_host q) f = false)
    (Hhosts : hosts_entry r expect_v4 (asked_host q) = None) (Hlit : parse_v4 (asked_host q) = None) :
  exists a msg s', exchange_with_resolver oc r pick req true s = Some (Ok msg, s') /\
    m_answers msg = [ {| rr_name := q_name q; rr_ttl := 60; rr_data := RdA a |} ] /\
    m_id msg = m_id req /\ m_queries msg = m_queries req /\
    resolver_is_fake_ip (V4 a) s' = true /\ (resolver_reverse_lookup (V4 a) s').1 = Some (asked_host q).
Proof.
  destruct (lookup_any oc f (asked_host q) Hinv Hok) as (a & f' & E & Hinv' & Hfake & _ & Hrev & _).
  destruct (fake_exchange r pick s f req q a f' Hf Hq Ht Hskip Hhosts Hlit E) as (msg & ? & ? & ? & ?).
  exists a, msg, (set_fake (Some f') s). rewrite reverse_of_set_fake. by split_and!.
Qed.

(** With IPv6 on, the name every hosts table contains cannot be looked up:
    its address is of the other family. *)
Theorem localhost_v6_panics r (pick : nat -> nat) s
    (Hh : r_hosts r = Some localhost_hosts) (H6 : s_ipv6 s = true) :
  resolve_v6 oc r pick (lit "localhost") true s = Some (Panic, s).
Proof.
  unfold resolve_v6, mbind, m_bind, gets. rewrite H6. cbn [negb]. unfold hosts_entry. rewrite Hh. reflexivity.
Qed.
End server.

(** ** Reverse lookups of real answers *)
Section reverse.
Context {NM : NameLib} {NL : IpNetLib} {RC : RecordCache}.
Context {C : Type} {UP : Upstream C} {S : Type} {SO : StoreOps S} {D : Type}.
Context (oc : bool).

(** Operations that leave the reverse lookups alone. *)
Definition keeps {A} (m : @M NM NL RC S D A) : Prop :=
  forall s o s', m s = Some (o, s') -> s_reverse s' = s_reverse s.

Lemma keeps_bind {A B} (m : @M NM NL RC S D A) (f : A -> M B) :
  keeps m -> (forall a, keeps (f a)) -> keeps (m_bind _ _ f m).
Proof.
  unfold keeps, m_bind. intros Hm Hf s o s'. destruct (m s) as [[[a|e|] s1]|] eqn:E; [|by intros [= <- <-]; eauto..|done].
  intros H. apply Hf in H as ->. eauto.
Qed.
Lemma keeps_attempt {A} (m : @M NM NL RC S D A) : keeps m -> keeps (attempt m).
Proof.
  unfold keeps, attempt. intros Hm s o s'. destruct (m s) as [[[a|e|] s1]|] eqn:E; [by intros [= <- <-]; eauto..|done].
Qed.
Lemma keeps_lift {A} (a : res A) : keeps (lift a).
Proof. by intros s o s' [= <- <-]. Qed.
Lemma keeps_ret {A} (a : A) : keeps (m_ret _ a).
Proof. by intros s o s' [= <- <-]. Qed.
Lemma keeps_gets {A} (f : _ -> A) : keeps (gets f).
Proof. by intros s o s' [= <- <-]. Qed.
Lemma keeps_modify f : (forall s, s_reverse (f s) = s_reverse s) -> keeps (modify f).
Proof. by intros Hf s o s' [= <- <-]. Qed.
Lemma keeps_batch clients m : keeps (batch clients m).
Proof. intros s o s'. unfold batch. destruct (batch_exchange _ _ _). by intros [= <- <-]. Qed.
Lemma keeps_fake_lookup h : keeps (fake_lookup oc h).
Proof. intros s o s'. unfold fake_lookup. repeat case_match; by intros [= <- <-]. Qed.
Lemma keeps_update r d ip : keeps (update_geoip_cache (C := C) oc r d ip).
Proof. intros s o s'. unfold update_geoip_cache. repeat case_match; by intros [= <- <-]. Qed.
#[local] Hint Resolve keeps_attempt keeps_lift keeps_ret keeps_gets keeps_batch keeps_fake_lookup keeps_update : keeps.
Ltac keeps := unfold mbind, mret; repeat first [solve [eauto with keeps] | case_match | progress intros | apply keeps_bind].

Lemma keeps_fake_reply d m : keeps (fake_reply oc d m).
Proof. unfold fake_reply. keeps. Qed.
Lemma keeps_rejected (r : @EnhancedResolver NL C) m : keeps (main_rejected r m).
Proof. unfold main_rejected. keeps. Qed.
#[local] Hint Resolve keeps_fake_reply keeps_rejected : keeps.
Lemma keeps_check_main (r : @EnhancedResolver NL C) m main ip skip : keeps (check_main oc r m main ip skip).
Proof. unfold check_main. keeps. Qed.
#[local] Hint Resolve keeps_check_main : keeps.
Lemma keeps_ip_exchange (r : @EnhancedResolver NL C) m : keeps (ip_exchange oc r m).
Proof. unfold ip_exchange. keeps. Qed.
#[local] Hint Resolve keeps_ip_exchange : keeps.
Lemma keeps_no_cache (r : @EnhancedResolver NL C) m : keeps (exchange_no_cache oc r m).
Proof.
  unfold exchange_no_cache. apply keeps_bind; [apply keeps_lift|]. intros q. apply keeps_bind; [apply keeps_attempt; keeps|].
  intros rv. apply keeps_bind; [|keeps]. destruct rv; [apply keeps_modify|keeps..].
  intros s. by destruct (s_lru_cache s), (acme_challenge q).
Qed.
#[local] Hint Resolve keeps_no_cache : keeps.
Lemma keeps_exchange_inner (r : @EnhancedResolver NL C) m : keeps (exchange_inner oc r m).
Proof. unfold exchange_inner. keeps. Qed.

(** An entry of the map of reverse lookups reads back for three seconds. *)
Definition rev_expiry : Z := 3 * 10 ^ 9.
Class RevLruLaws : Prop := {
  rev_peek_inserted c ip h now now' :
    now <= now' < now + rev_expiry -> rev_peek (rev_insert c ip h now) ip now' = Some h;
}.

Lemma save_all_last (HL : RevLruLaws) ips ip h s lru :
  s_reverse s = Some lru -> exists lru',
  save_all (NL := NL) (S := S) (D := D) (ips ++ [ip]) h s =
    Some (Ok tt, set_reverse (Some (rev_insert lru' ip h (s_now s))) s).
Proof.
  revert s lru. induction ips as [|i ips IH]; intros s lru Hs; cbn [app save_all];
    unfold mbind, m_bind, save_reverse_lookup, modify; rewrite Hs; [by exists lru|].
  destruct (IH (set_reverse (Some (rev_insert lru i h (s_now s))) s) _ eq_refl) as [lru' ->]. by exists lru'.
Qed.

(** After an exchange the last of the addresses is known by the name that was
    asked for, for three seconds. *)
Theorem exchange_cached_for (HL : RevLruLaws) (r : @EnhancedResolver NL C) m rv (s s' : @St NM NL RC S D) lru q ips ip
    (Hq : query_of m = Some q) (H : exchange oc r m s = Some (Ok rv, s'))
    (Hrev : s_reverse s = Some lru)
    (Hips : ip_list_of_message rv = Ok (ips ++ [ip])) t (Ht : s_now s' <= t < s_now s' + rev_expiry) :
  cached_for ip (set_now t s') = Some (trim_end_matches 46 (name_to_utf8 (q_name q))).
Proof.
  unfold exchange in H. apply bind_ok in H as (rv' & s1 & Hi & H). rewrite Hq in H.
  unfold mbind, m_bind, lift in H. cbn [or_panic] in H.
  destruct (ip_list_of_message rv') as [ips'| |] eqn:Ei; try done.
  destruct (save_all _ _ s1) as [[[u| |] s2]|] eqn:Es; try done. injection H as -> ->.
  rewrite Hips in Ei. injection Ei as <-. apply keeps_exchange_inner in Hi. rewrite Hrev in Hi.
  destruct (save_all_last HL ips ip (trim_end_matches 46 (name_to_utf8 (q_name q))) s1 lru Hi) as [lru' E].
  rewrite E in Es. injection Es as _ <-. unfold cached_for. cbn in *. by apply rev_peek_inserted.
Qed.
End reverse.

(** ** The connection of a client *)
Section connection_spec.
Context {Conn : Type} (finished : Conn -> bool).

(** Exchanges of several tasks initialise the connection in any order. *)
Inductive conn_step : @Inner Conn -> Inner -> Prop :=
| ConnStep connect i : conn_step i (initialize finished connect i).2.

Definition conn_inv (i : @Inner Conn) : Prop := is_Some (i_bg i) <-> is_Some (i_c i).

Lemma conn_inv_step i i' : conn_inv i -> conn_step i i' -> conn_inv i' /\ (is_Some (i_c i) -> is_Some (i_c i')).
Proof.
  unfold conn_inv. intros Hi Hst. revert Hi. destruct Hst as [connect i0]. unfold initialize.
  destruct (i_bg i0) as [bg|] eqn:E; [destruct (finished bg)|]; destruct connect; cbn; rewrite ?E; intros Hi;
    (split; [first [exact Hi | reflexivity]|by eauto]).
Qed.

(** Whatever other tasks do, a client that went through [initialize]
    without an error finds a connection to send on. *)
Lemma initialized_connected i connect i' :
  conn_inv i -> initialize finished connect i = (Ok tt, i') -> forall i'', rtc conn_step i' i'' -> is_Some (i_c i'').
Proof.
  intros Hi He i'' Hs.
  assert (conn_inv i' /\ is_Some (i_c i')) as [Hi' Hc].
  { replace i' with (initialize finished connect i).2 by (by rewrite He).
    split; [by eapply conn_inv_step|]. unfold initialize in *. destruct (i_bg i) as [bg|] eqn:E.
    - destruct (finished bg); [destruct connect; simplify_eq; done|]. apply Hi. by rewrite E.
    - destruct connect; simplify_eq; done. }
  clear He. induction Hs as [|i1 i2 i3 Hst _ IH]; [done|].
  destruct (conn_inv_step _ _ Hi' Hst) as [? Himp]. eauto.
Qed.
End connection_spec.

(** ** A resolver with three servers *)
Section demo.
#[local] Existing Instances ref_ipnet file_store.

(** Names are kept as they are written. *)
Definition plain_names : NameLib := {|
  Name := str; name_from_str_relaxed := Some; name_append_root n := Some (n ++ lit ".");
  name_to_ascii n := n; name_to_utf8 n := n |}.
#[local] Existing Instance plain_names.

Definition plain_caches : RecordCache := {|
  DnsLru := unit; dlru_get _ _ _ := None; dlru_insert_records c _ _ _ := c;
  RevLru := list (IpAddr * (str * Z));
  rev_insert c ip h now := (ip, (h, now)) :: c;
  rev_peek c ip now :=
    match List.find (fun e => bool_decide (e.1 = ip)) c with
    | Some (_, (h, t)) => if now <? t + rev_expiry then Some h else None
    | None => None
    end |}.
#[local] Existing Instance plain_caches.

Lemma plain_caches_laws : RevLruLaws (RC := plain_caches).
Proof.
  split. intros c ip h now now' Ht. cbn. rewrite bool_decide_eq_true_2 by done.
  by rewrite (proj2 (Z.ltb_lt _ _)) by (unfold rev_expiry in *; lia).
Qed.

Definition question (host : str) : Message := {|
  m_id := 7; m_op_code := 0; m_response := false; m_recursion_desired := true; m_recursion_available := false;
  m_authoritative := false; m_checking_disabled := false; m_response_code := 0; m_answer_count := 0;
  m_queries := [ {| q_name := host; q_type := RtA; q_class_in := true |} ]; m_answers := []; m_edns := None |}.
Definition reply (m : Message) (a : Z) : Message :=
  add_answers [ {| rr_name := lit "x."; rr_ttl := 60; rr_data := RdA a |} ] (build_dns_response_message m true false).

(** Server 1 answers at home, server 2 abroad and later, the others never. *)
Definition three_servers : Upstream Z := {| ask c m _ :=
  if c =? 1 then Some (5 * 10 ^ 6, Ok (reply m 0x01010101))
  else if c =? 2 then Some (9 * 10 ^ 6, Ok (reply m 0x08080808)) else None |}.
#[local] Existing Instance three_servers.

Definition countries : MmdbLookup := {|
  lookup_country ip := if bool_decide (ip = V4 0x01010101) then Some (lit "CN") else Some (lit "US");
  lookup_asn _ := None |}.
Definition two_level (home : string) : EnhancedResolver (C := Z) := {|
  r_hosts := Some localhost_hosts; r_main := [3; 1]; r_fallback := Some [2];
  r_fallback_domain_filters := None; r_fallback_ip_filters := Some [GeoIPFilter (lit home) (Some countries)];
  r_policy := None; r_geo_ip_cache_expiration := None; r_geo_ip_code := Some (lit home);
  r_mmdb := Some countries; r_match_noproxy := false |}.
Definition idle (fake : option (@FakeDns ref_ipnet (CacheFile unit))) : St (D := unit) := {|
  s_ipv6 := true; s_lru_cache := None; s_fake_dns := fake; s_reverse := Some [];
  s_store := Some {| db := db_empty; store_selected := true |}; s_now := 0; s_epoch := 1700000000 |}.

Lemma batch_exchange_first_witness :
  batch_exchange [3; 2; 1] (question (lit "a.com.")) 0 = (5 * 10 ^ 6, Ok (reply (question (lit "a.com.")) 0x01010101)) /\
  forall c t' msg', c ∈ [3; 2; 1] -> in_time c (question (lit "a.com.")) 0 t' (Ok msg') -> 5 * 10 ^ 6 <= t'.
Proof.
  assert (batch_exchange [3; 2; 1] (question (lit "a.com.")) 0 =
    (5 * 10 ^ 6, Ok (reply (question (lit "a.com.")) 0x01010101))) as E by (vm_compute; reflexivity).
  split; [exact E|].
  pose proof (batch_exchange_first [3; 2; 1] (question (lit "a.com.")) 0) as H. rewrite E in H.
  apply H. intros c Hc t [Ha _]. revert Ha. cbn [ask three_servers].
  destruct (c =? 1); [done|]. by destruct (c =? 2).
Defined.

(** The outcome of the exchange, without the state. *)
Lemma two_level_outcome :
  fst <$> ip_exchange true (two_level "US") (question (lit "a.com.")) (idle None) =
    Some (Ok (reply (question (lit "a.com.")) 0x08080808)).
Proof. vm_compute. reflexivity. Qed.

Lemma ip_exchange_trust_witness :
  exists s', ip_exchange true (two_level "US") (question (lit "a.com.")) (idle None) =
    Some (Ok (reply (question (lit "a.com.")) 0x08080808), s') /\
  trusted true (two_level "US") (question (lit "a.com.")) (idle None) (reply (question (lit "a.com.")) 0x08080808).
Proof.
  pose proof two_level_outcome as Ho.
  destruct (ip_exchange true (two_level "US") (question (lit "a.com.")) (idle None)) as [[o s']|] eqn:E; [|discriminate Ho].
  injection Ho as ->. exists s'. split; [reflexivity|].
  exact (ip_exchange_trust true (two_level "US") (question (lit "a.com.")) (idle None) _ s' E).
Defined.

Lemma country_cache_remembers_witness :
  exists o s', ip_exchange true (two_level "US") (question (lit "a.com.")) (idle None) = Some (o, s') /\
    cache_verdict (two_level "US") (question (lit "a.com.")) (set_store (s_store s') (idle None)) = CvForeign.
Proof.
  pose proof two_level_outcome as Ho.
  destruct (ip_exchange true (two_level "US") (question (lit "a.com.")) (idle None)) as [[o s']|] eqn:E; [|discriminate Ho].
  exists o, s'. split; [reflexivity|].
  refine (country_cache_remembers true (two_level "US") (question (lit "a.com.")) (idle None) o s'
    [2] (5 * 10 ^ 6) (reply (question (lit "a.com.")) 0x01010101) (V4 0x01010101) [] countries
    {| db := db_empty; store_selected := true |} (lit "CN") (lit "US") (lit "a.com")
    eq_refl eq_refl eq_refl eq_refl _ eq_refl eq_refl eq_refl eq_refl eq_refl eq_refl eq_refl _ E (set_store (s_store s') (idle None)) eq_refl _).
  - vm_compute. reflexivity.
  - vm_compute. split; congruence.
  - reflexivity.
Defined.

Lemma fake_answer_reverses_witness :
  exists a msg s', exchange_with_resolver true (two_level "US") (fun _ => 0%nat) (question (lit "foo.com."))
      true (idle (Some demo_pool)) = Some (Ok msg, s') /\
    (resolver_reverse_lookup (V4 a) s').1 = Some (lit "foo.com").
Proof.
  destruct (fake_answer_reverses true (two_level "US") (fun _ => 0%nat) (idle (Some demo_pool)) demo_pool
    (question (lit "foo.com.")) {| q_name := (lit "foo.com." : @Name plain_names); q_type := RtA; q_class_in := true |})
    as (a & msg & s' & H & _ & _ & _ & _ & Hr).
  - reflexivity.
  - split; [apply demo_pool_wf|]. intros h i H. by apply demo_cache_empty in H.
  - reflexivity.
  - done.
  - apply demo_host.
  - reflexivity.
  - reflexivity.
  - reflexivity.
  - exists a, msg, s'. split; [exact H|exact Hr].
Defined.

(** A default server given by an IPv6 address is accepted by the
    configuration and then skipped: no client is made of it. *)
Lemma ipv6_server_skipped {FN : FamilyNetLib} :
  let ns := {| ns_net := NmUdp; ns_address := lit "[2001:4860:4860::8888]:53"; ns_interface := None; ns_proxy := None |} in
  is_Some (parse_socket_addr (ns_address ns)) /\ make_clients None ∅ None None None [ns] = Some (Ok []).
Proof. split; [by eexists|reflexivity]. Qed.
End demo.
