(* ===== verification/Crypto.v ===== *)
(** * Calls into the ciphers ([clash-lib/src/common/crypto.rs], [utils.rs])

    The hash functions and ciphers are crates outside the repository: they
    are the operations of [CryptoLib], and [CryptoLaws] is what their
    documentation promises (output lengths, and that opening what was sealed
    gives the message back).  The code around them, which chooses the
    algorithm by the length of the key, lays out buffers and slices tags, is
    modelled. *)

From S2P Require Import Prelude Str.

Inductive AeadAlg : Type := AlgAes128Gcm | AlgAes256Gcm | AlgChaCha20Poly1305.
#[global] Instance aead_alg_eq_dec : EqDecision AeadAlg.
Proof. solve_decision. Defined.

Class CryptoLib : Type := {
  md5 : list Z -> list Z;
  sha224 : list Z -> list Z;
  sha256 : list Z -> list Z;
  hmac_md5 : list Z -> list Z -> list Z;
  hmac_sha256 : list Z -> list Z -> list Z;
  hmac_sha1 : list Z -> list Z -> list Z;
  aes128_block : list Z -> list Z -> list Z;
  cfb_encrypt : list Z -> list Z -> list Z -> list Z;
  cfb_decrypt : list Z -> list Z -> list Z -> list Z;
  aead_seal : AeadAlg -> list Z -> list Z -> list Z -> list Z -> list Z * list Z;
  aead_open : AeadAlg -> list Z -> list Z -> list Z -> list Z -> list Z -> option (list Z);
  fnv1a_hash_32 : list Z -> Z;
  crc32 : list Z -> Z;
}.

Class CryptoLaws (CL : CryptoLib) : Prop := {
  md5_length : forall x, length (md5 x) = 16%nat;
  sha224_length : forall x, length (sha224 x) = 28%nat;
  sha256_length : forall x, length (sha256 x) = 32%nat;
  hmac_sha256_length : forall k x, length (hmac_sha256 k x) = 32%nat;
  hmac_sha1_length : forall k x, length (hmac_sha1 k x) = 20%nat;
  sha224_u8 : forall x, Forall u8 (sha224 x);
  aes128_block_length : forall k x, length x = 16%nat -> length (aes128_block k x) = 16%nat;
  cfb_inverse : forall k iv x, cfb_decrypt k iv (cfb_encrypt k iv x) = x;
  cfb_length : forall k iv x, length (cfb_encrypt k iv x) = length x;
  aead_inverse : forall a k n d x, let '(ct, tag) := aead_seal a k n d x in aead_open a k n d ct tag = Some x;
  aead_ct_length : forall a k n d x, length (aead_seal a k n d x).1 = length x;
  aead_tag_length : forall a k n d x, length (aead_seal a k n d x).2 = 16%nat;
}.

Section crypto.
Context {CL : CryptoLib}.

(** [GenericArray::from_slice]: another length panics. *)
Definition exact_len (n : nat) (x : list Z) : res (list Z) := if (length x =? n)%nat then Ok x else Panic.

(* @src clash-lib/src/common/crypto.rs ~^pub fn aes_cfb_encrypt~ aes_cfb_encrypt *)
Definition aes_cfb_encrypt (key iv data : list Z) : res (list Z) :=
  if (length key =? 16)%nat || (length key =? 24)%nat || (length key =? 32)%nat then
    iv ← exact_len 16 iv; Ok (cfb_encrypt key iv data)
  else Err "invalid key length".
(* @src clash-lib/src/common/crypto.rs ~^pub fn aes_cfb_decrypt~ aes_cfb_decrypt *)
Definition aes_cfb_decrypt (key iv data : list Z) : res (list Z) :=
  if (length key =? 16)%nat || (length key =? 24)%nat || (length key =? 32)%nat then
    iv ← exact_len 16 iv; Ok (cfb_decrypt key iv data)
  else Err "invalid key length".

(** The one-shot interface appends the tag and takes it off the end. *)
Definition gcm_alg (key : list Z) : option AeadAlg :=
  if (length key =? 16)%nat then Some AlgAes128Gcm
  else if (length key =? 32)%nat then Some AlgAes256Gcm else None.
(* @src clash-lib/src/common/crypto.rs ~^pub fn aes_gcm_encrypt~ aes_gcm_encrypt *)
Definition aes_gcm_encrypt (key nonce plaintext : list Z) (associated_data : option (list Z)) : res (list Z) :=
  match gcm_alg key with
  | Some alg =>
    nonce ← exact_len 12 nonce;
    let '(ct, tag) := aead_seal alg key nonce (default [] associated_data) plaintext in Ok (ct ++ tag)
  | None => Err "Illegal key size"
  end.
(* @src clash-lib/src/common/crypto.rs ~^pub fn aes_gcm_decrypt~ aes_gcm_decrypt *)
Definition aes_gcm_decrypt (key nonce ciphertext : list Z) (associated_data : option (list Z)) : res (list Z) :=
  match gcm_alg key with
  | Some alg =>
    nonce ← exact_len 12 nonce;
    if (length ciphertext <? 16)%nat then Err "aead error"
    else
      let n := (length ciphertext - 16)%nat in
      match aead_open alg key nonce (default [] associated_data) (take n ciphertext) (drop n ciphertext) with
      | Some x => Ok x
      | None => Err "aead error"
      end
  | None => Err "Illegal key size"
  end.

(** The in-place interface works on a buffer whose last 16 bytes are the
    tag's: the position of the tag is computed without a check. *)
(* @src clash-lib/src/common/crypto.rs ~    fn encrypt_in_place_with_slice~ AeadCipherHelper::encrypt_in_place_with_slice *)
Definition encrypt_in_place_with_slice (alg : AeadAlg) (key nonce aad buffer : list Z) : res (list Z) :=
  if (length buffer <? 16)%nat then Panic
  else
    nonce ← exact_len 12 nonce;
    let '(ct, tag) := aead_seal alg key nonce aad (take (length buffer - 16) buffer) in Ok (ct ++ tag).
(* @src clash-lib/src/common/crypto.rs ~    fn decrypt_in_place_with_slice~ AeadCipherHelper::decrypt_in_place_with_slice *)
Definition decrypt_in_place_with_slice (alg : AeadAlg) (key nonce aad buffer : list Z) : res (list Z) :=
  if (length buffer <? 16)%nat then Panic
  else
    nonce ← exact_len 12 nonce;
    let n := (length buffer - 16)%nat in
    match aead_open alg key nonce aad (take n buffer) (drop n buffer) with
    | Some x => Ok (x ++ drop n buffer)
    | None => Err "aead::Error"
    end.

Context {CW : CryptoLaws CL}.

Lemma exact_len_ok n x : length x = n -> exact_len n x = Ok x.
Proof. intros H. unfold exact_len. by rewrite H, Nat.eqb_refl. Qed.

Lemma seal_open alg key nonce aad x ct tag : aead_seal alg key nonce aad x = (ct, tag) ->
  aead_open alg key nonce aad ct tag = Some x /\ length ct = length x /\ length tag = 16%nat.
Proof.
  intros E. pose proof (aead_inverse alg key nonce aad x) as H1. pose proof (aead_ct_length alg key nonce aad x) as H2.
  pose proof (aead_tag_length alg key nonce aad x) as H3. by rewrite E in H1, H2, H3.
Qed.

(** Sealing in place and opening in place. *)
Lemma in_place_inverse alg key nonce aad x pad : length nonce = 12%nat -> length pad = 16%nat ->
  exists b, encrypt_in_place_with_slice alg key nonce aad (x ++ pad) = Ok b /\ length b = (length x + 16)%nat /\
    exists tag, decrypt_in_place_with_slice alg key nonce aad b = Ok (x ++ tag).
Proof.
  intros Hn Hp. unfold encrypt_in_place_with_slice. rewrite length_app, Hp.
  rewrite (proj2 (Nat.ltb_ge _ _)) by lia. rewrite (exact_len_ok _ _ Hn). rstep.
  replace (length x + 16 - 16)%nat with (length x) by lia. rewrite take_app_length.
  destruct (aead_seal alg key nonce aad x) as [ct tag] eqn:E. destruct (seal_open _ _ _ _ _ _ _ E) as (H1 & H2 & H3).
  eexists. split; [done|]. rewrite length_app, H2, H3. split; [done|].
  exists tag. unfold decrypt_in_place_with_slice. rewrite length_app, H2, H3, (proj2 (Nat.ltb_ge _ _)) by lia.
  rewrite (exact_len_ok _ _ Hn). rstep. rewrite Nat.add_sub, <- H2, take_app_length, drop_app_length. by rewrite H1.
Qed.

Lemma gcm_inverse key nonce x aad : length key = 16%nat -> length nonce = 12%nat ->
  exists c, aes_gcm_encrypt key nonce x aad = Ok c /\ length c = (length x + 16)%nat /\ aes_gcm_decrypt key nonce c aad = Ok x.
Proof.
  intros Hk Hn. unfold aes_gcm_encrypt, aes_gcm_decrypt, gcm_alg. rewrite Hk. cbn [Nat.eqb]. rewrite (exact_len_ok _ _ Hn). rstep.
  destruct (aead_seal AlgAes128Gcm key nonce (default [] aad) x) as [ct tag] eqn:E. destruct (seal_open _ _ _ _ _ _ _ E) as (H1 & H2 & H3).
  eexists. split; [done|]. rewrite length_app, H2, H3. split; [done|]. rewrite (proj2 (Nat.ltb_ge _ _)) by lia.
  rewrite Nat.add_sub, <- H2, take_app_length, drop_app_length. by rewrite H1.
Qed.
End crypto.

(** ** Hexadecimal *)
(** A digit of [{:02x}], as its character code. *)
Definition hex_digit (d : Z) : Z := if d <? 10 then 48 + d else 87 + d.
(* @src clash-lib/src/common/utils.rs ~^pub fn encode_hex~ encode_hex *)
Definition encode_hex (bytes : list Z) : str := bytes ≫= fun b => [hex_digit (b / 16); hex_digit (b mod 16)].

Lemma encode_hex_length bytes : length (encode_hex bytes) = (2 * length bytes)%nat.
Proof. induction bytes as [|b l IH]; [done|]. unfold encode_hex in *. cbn in *. lia. Qed.
Lemma hex_digit_ascii d : 0 <= d < 16 -> 0 <= hex_digit d < 128.
Proof. intros H. unfold hex_digit. destruct (d <? 10); lia. Qed.

(** ** A concrete library

    Not a cipher: sealing keeps the message and appends a tag of zeros.  It
    satisfies the laws, so they can hold. *)
Definition pad_to (n : nat) (x : list Z) : list Z := take n (x ++ replicate n 0).
Lemma pad_to_length n x : length (pad_to n x) = n.
Proof. unfold pad_to. rewrite length_take, length_app, length_replicate. lia. Qed.

#[global] Instance plain_crypto : CryptoLib := {|
  md5 := pad_to 16; sha224 := fun x => pad_to 28 (map (wrap 8) x); sha256 := pad_to 32;
  hmac_md5 := fun k x => pad_to 16 (k ++ x); hmac_sha256 := fun k x => pad_to 32 (x ++ k); hmac_sha1 := fun k x => pad_to 20 (k ++ x);
  aes128_block := fun _ x => x; cfb_encrypt := fun _ _ x => x; cfb_decrypt := fun _ _ x => x;
  aead_seal := fun _ _ _ _ x => (x, replicate 16 0);
  aead_open := fun _ _ _ _ ct tag => if decide (tag = replicate 16 0) then Some ct else None;
  fnv1a_hash_32 := fun x => wrap 32 (zlen x); crc32 := fun x => wrap 32 (zlen x) |}.
#[global] Instance plain_crypto_laws : CryptoLaws plain_crypto.
Proof.
  constructor; cbn; intros; try done; try apply pad_to_length.
  unfold pad_to. apply Forall_take, Forall_app. split; [|by apply Forall_replicate].
  apply Forall_fmap, Forall_true. intros z. cbn. by apply wrap_range.
Qed.
