(* ===== verification/Async.v ===== *)
(** * Polled streams ([tokio::io], [clash-lib/src/common/io/mod.rs])

    A stream is polled: an operation is ready with a result, or pending, and
    is polled again later.  [AsyncRead] and [AsyncWrite] are the traits of
    tokio as state passing; [PM] threads a state through polled operations
    with the [ready!(..)?] discipline of the source.  [Wire] is a stream
    whose segmentation and waiting are given by a schedule: statements about
    every schedule are statements about every way the network can cut and
    delay the bytes. *)

From S2P Require Import Prelude.

Inductive Poll (A : Type) : Type := Ready (a : A) | Pending.
Arguments Ready {A} a.
Arguments Pending {A}.

#[global] Instance poll_eq_dec `{EqDecision A} : EqDecision (Poll A).
Proof. solve_decision. Defined.

(** [poll_read cap] reads into a buffer with [cap] free bytes and gives the
    bytes put there; none means the end of the stream. *)
Class AsyncRead (S : Type) : Type := poll_read : nat -> S -> Poll (res (list Z)) * S.
Class AsyncWrite (S : Type) : Type := {
  poll_write : list Z -> S -> Poll (res nat) * S;
  poll_flush : S -> Poll (res unit) * S;
  poll_shutdown : S -> Poll (res unit) * S;
}.

(** What the buffer types guarantee. *)
Class ReadLaws (S : Type) `{AsyncRead S} : Prop :=
  read_fits : forall cap s bs s', poll_read cap s = (Ready (Ok bs), s') -> (length bs <= cap)%nat.
Class WriteLaws (S : Type) `{AsyncWrite S} : Prop :=
  write_fits : forall bs s n s', poll_write bs s = (Ready (Ok n), s') -> (n <= length bs)%nat.

(** ** Polled computations *)
Definition PM (St A : Type) : Type := St -> Poll (res A) * St.
#[global] Instance pm_ret St : MRet (PM St) := fun A a s => (Ready (Ok a), s).
#[global] Instance pm_bind St : MBind (PM St) := fun A B f m s =>
  match m s with
  | (Ready (Ok a), s') => f a s'
  | (Ready (Err e), s') => (Ready (Err e), s')
  | (Ready Panic, s') => (Ready Panic, s')
  | (Pending, s') => (Pending, s')
  end.
Definition fail {St A} (r : res A) : PM St A := fun s => (Ready r, s).
Definition pending {St A} : PM St A := fun s => (Pending, s).
Definition modify {St} (f : St -> St) : PM St unit := fun s => (Ready (Ok tt), f s).

(** An operation of a part of the state. *)
Definition zoom {St Sub A} (get : St -> Sub) (put : Sub -> St -> St) (m : PM Sub A) : PM St A := fun s =>
  let '(r, sub) := m (get s) in (r, put sub s).

Lemma pm_bind_ready {St A B} (m : PM St A) (f : A -> PM St B) s a s' :
  m s = (Ready (Ok a), s') -> (m ≫= f) s = f a s'.
Proof. unfold mbind, pm_bind. by intros ->. Qed.
Lemma pm_bind_pending {St A B} (m : PM St A) (f : A -> PM St B) s s' :
  m s = (Pending, s') -> (m ≫= f) s = (Pending, s').
Proof. unfold mbind, pm_bind. by intros ->. Qed.

(** ** Reading and writing all of a buffer

    The futures of [AsyncReadExt::read_exact] and [AsyncWriteExt::write_all],
    polled once from their initial state.  A caller that drops the future
    when it is pending loses what it had read or how far it had written. *)
Section futures.
Context {S : Type} {AR : AsyncRead S} {AW : AsyncWrite S}.

Fixpoint read_exact_loop (fuel : nat) (acc : list Z) (need : nat) : PM S (list Z) :=
  match need, fuel with
  | O, _ => mret acc
  | _, O => fail Panic
  | _, Datatypes.S fuel' =>
    bs ← poll_read need;
    match bs with
    | [] => fail (Err EOF_MSG)
    | _ => read_exact_loop fuel' (acc ++ bs) (need - length bs)
    end
  end.
Definition read_exact_fut (n : nat) : PM S (list Z) := read_exact_loop n [] n.
Definition read_uint_fut (n : nat) : PM S Z := bs ← read_exact_fut n; mret (be_val bs).

Fixpoint write_all_loop (fuel : nat) (bs : list Z) : PM S unit :=
  match bs, fuel with
  | [], _ => mret tt
  | _, O => fail Panic
  | _, Datatypes.S fuel' =>
    n ← poll_write bs;
    if (n =? 0)%nat then fail (Err "write zero") else write_all_loop fuel' (drop n bs)
  end.
Definition write_all_fut (bs : list Z) : PM S unit := write_all_loop (length bs) bs.

(** [tokio_util::io::poll_write_buf] *)
Definition poll_write_buf : PM (S * list Z) nat := fun '(s, buf) =>
  match buf with
  | [] => (Ready (Ok 0%nat), (s, buf))
  | _ =>
    match poll_write buf s with
    | (Ready (Ok n), s') => (Ready (Ok n), (s', drop n buf))
    | (r, s') => (r, (s', buf))
    end
  end.
End futures.

(** ** [poll_read_exact]: a read that survives being pending *)
(* @src clash-lib/src/common/io/mod.rs ~^pub trait ReadExactBase~ ReadExactBase *)
Record ReadExactBase (S : Type) : Type := { rx_raw : S; rx_buf : list Z; rx_pos : nat }.
Arguments rx_raw {S} _.
Arguments rx_buf {S} _.
Arguments rx_pos {S} _.

(** [BytesMut::set_len]; bytes never written are shown as zero. *)
Definition set_len (n : nat) (b : list Z) : list Z := take n b ++ replicate (n - length b) 0.

Section read_exact.
Context {S : Type} {AR : AsyncRead S}.

Fixpoint poll_read_exact_loop (fuel size : nat) : PM (ReadExactBase S) unit := fun s =>
  if (rx_pos s <? size)%nat then
    match fuel with
    | O => (Ready Panic, s)
    | Datatypes.S fuel' =>
      let at_pos raw bs pos := {| rx_raw := raw; rx_buf := take (rx_pos s) (rx_buf s) ++ bs ++ drop (rx_pos s + length bs) (rx_buf s); rx_pos := pos |} in
      match poll_read (size - rx_pos s)%nat (rx_raw s) with
      | (Ready (Ok []), raw) => (Ready (Err "unexpected eof"), at_pos raw [] (rx_pos s))
      | (Ready (Ok bs), raw) => poll_read_exact_loop fuel' size (at_pos raw bs (rx_pos s + length bs)%nat)
      | (Ready (Err e), raw) => (Ready (Err e), at_pos raw [] (rx_pos s))
      | (Ready Panic, raw) => (Ready Panic, at_pos raw [] (rx_pos s))
      | (Pending, raw) => (Pending, at_pos raw [] (rx_pos s))
      end
    end
  else if (rx_pos s =? size)%nat then (Ready (Ok tt), {| rx_raw := rx_raw s; rx_buf := rx_buf s; rx_pos := 0 |})
  else (Ready Panic, s).

(** Every round reads a byte, so [size] rounds are enough. *)
(* @src clash-lib/src/common/io/mod.rs ~^impl<T: ReadExactBase> ReadExt for T~ ReadExt::poll_read_exact *)
Definition poll_read_exact (size : nat) : PM (ReadExactBase S) unit := fun s =>
  poll_read_exact_loop size size {| rx_raw := rx_raw s; rx_buf := set_len size (rx_buf s); rx_pos := rx_pos s |}.
End read_exact.

(** ** A stream with a schedule *)
Inductive ReadEv : Type :=
| RdData (b : Z) (bs : list Z)
| RdPending
| RdEof
| RdErr (e : string).
Inductive WriteEv : Type :=
| WrAccept (n : nat)
| WrPending
| WrErr (e : string).

(** [wi_in] and [wi_ev] say what the next polls meet, an empty list that
    they wait forever; [wi_out] is what was written and [wi_shut] whether
    the writing side was shut down. *)
Record Wire : Type := { wi_in : list ReadEv; wi_ev : list WriteEv; wi_out : list Z; wi_shut : bool }.

Definition with_in (i : list ReadEv) (w : Wire) : Wire :=
  {| wi_in := i; wi_ev := wi_ev w; wi_out := wi_out w; wi_shut := wi_shut w |}.
Definition with_ev (e : list WriteEv) (w : Wire) : Wire :=
  {| wi_in := wi_in w; wi_ev := e; wi_out := wi_out w; wi_shut := wi_shut w |}.
Definition push_out (bs : list Z) (w : Wire) : Wire :=
  {| wi_in := wi_in w; wi_ev := wi_ev w; wi_out := wi_out w ++ bs; wi_shut := wi_shut w |}.
Definition shut (w : Wire) : Wire :=
  {| wi_in := wi_in w; wi_ev := wi_ev w; wi_out := wi_out w; wi_shut := true |}.

Definition data_ev (bs : list Z) (i : list ReadEv) : list ReadEv :=
  match bs with [] => i | b :: bs => RdData b bs :: i end.

#[global] Instance wire_read : AsyncRead Wire := fun cap w =>
  match wi_in w with
  | [] => (Pending, w)
  | RdPending :: i => (Pending, with_in i w)
  | RdEof :: _ => (Ready (Ok []), w)
  | RdErr e :: i => (Ready (Err e), with_in i w)
  | RdData b bs :: i => (Ready (Ok (take cap (b :: bs))), with_in (data_ev (drop cap (b :: bs)) i) w)
  end.

Definition wire_ready (w : Wire) (done : Wire) : Poll (res unit) * Wire :=
  match wi_ev w with
  | WrPending :: e => (Pending, with_ev e w)
  | WrErr m :: e => (Ready (Err m), with_ev e w)
  | _ => (Ready (Ok tt), done)
  end.
(** A writer takes at least a byte of what it is offered. *)
Definition accepted (n : nat) (bs : list Z) : nat := (S n `min` length bs)%nat.
Arguments accepted : simpl never.
Lemma accepted_bound n bs : (accepted n bs <= length bs)%nat /\ (bs <> [] -> 0 < accepted n bs)%nat.
Proof. unfold accepted. split; [lia|]. destruct bs; [done|simpl; lia]. Qed.
#[global] Instance wire_write : AsyncWrite Wire := {|
  poll_write := fun bs w =>
    match wi_ev w with
    | [] => (Pending, w)
    | WrPending :: e => (Pending, with_ev e w)
    | WrErr m :: e => (Ready (Err m), with_ev e w)
    | WrAccept n :: e => (Ready (Ok (accepted n bs)), push_out (take (accepted n bs) bs) (with_ev e w))
    end;
  poll_flush := fun w => wire_ready w w;
  poll_shutdown := fun w => wire_ready w (shut w) |}.

#[global] Instance wire_read_laws : ReadLaws Wire.
Proof.
  intros cap w bs w' H. unfold poll_read, wire_read in H. destruct (wi_in w) as [|[] ?]; try done; injection H as <- <-.
  - rewrite length_take. lia.
  - simpl. lia.
Qed.
#[global] Instance wire_write_laws : WriteLaws Wire.
Proof.
  intros bs w n w' H. unfold poll_write, wire_write in H. destruct (wi_ev w) as [|[] ?]; try done. injection H as <- <-. apply accepted_bound.
Qed.

(** ** What a schedule brings *)

(** The bytes that come before an end or an error, and the waits among them. *)
Fixpoint bytes_of (i : list ReadEv) : list Z :=
  match i with
  | [] | RdErr _ :: _ | RdEof :: _ => []
  | RdPending :: i => bytes_of i
  | RdData b bs :: i => (b :: bs) ++ bytes_of i
  end.
Fixpoint waits_of (i : list ReadEv) : nat :=
  match i with
  | [] | RdErr _ :: _ | RdEof :: _ => 0
  | RdPending :: i => S (waits_of i)
  | RdData _ _ :: i => waits_of i
  end.
Lemma bytes_of_data bs i : bytes_of (data_ev bs i) = bs ++ bytes_of i.
Proof. by destruct bs. Qed.
Lemma waits_of_data bs i : waits_of (data_ev bs i) = waits_of i.
Proof. by destruct bs. Qed.

(** How often a writing schedule accepts something, and how often it makes
    its writer wait. *)
Fixpoint accepts (e : list WriteEv) : nat :=
  match e with
  | [] => 0
  | WrAccept _ :: e => S (accepts e)
  | _ :: e => accepts e
  end.
Fixpoint blocks (e : list WriteEv) : nat :=
  match e with
  | [] => 0
  | WrPending :: e => S (blocks e)
  | _ :: e => blocks e
  end.
Definition no_errors (e : list WriteEv) : Prop := Forall (fun x => forall m, x <> WrErr m) e.

(** A schedule cut to pieces anywhere: what a list of segments brings, with
    a wait before each. *)
Definition segments (l : list (list Z)) : list ReadEv := foldr (fun bs i => RdPending :: data_ev bs i) [] l.
Lemma bytes_of_segments l : bytes_of (segments l) = mjoin l.
Proof. induction l as [|bs l IH]; [done|]. unfold segments in *. cbn. by rewrite bytes_of_data, IH. Qed.

(** One read of a stream with a schedule: some of the bytes, or a wait that
    is used up, or nothing more to come. *)
Lemma wire_read_cases cap w : (0 < cap)%nat ->
  (exists bs w', poll_read cap w = (Ready (Ok bs), w') /\ bs <> [] /\ (length bs <= cap)%nat /\ bytes_of (wi_in w) = bs ++ bytes_of (wi_in w') /\
    waits_of (wi_in w') = waits_of (wi_in w) /\ w' = with_in (wi_in w') w) \/
  (exists w', poll_read cap w = (Pending, w') /\ bytes_of (wi_in w') = bytes_of (wi_in w) /\ w' = with_in (wi_in w') w /\
    (S (waits_of (wi_in w')) = waits_of (wi_in w) \/ bytes_of (wi_in w) = [])%nat) \/
  bytes_of (wi_in w) = [].
Proof.
  intros Hc. unfold poll_read, wire_read. destruct w as [i e o sh]. cbn. destruct i as [|[b bs| | |m] i]; cbn.
  - right; left. eexists. split_and!; [done|done|done|by right].
  - left. eexists _, _. split; [done|]. cbn. rewrite bytes_of_data, waits_of_data. split_and!; try done.
    + by destruct cap; [lia|].
    + change (length (take cap (b :: bs)) <= cap)%nat. rewrite length_take. lia.
    + by rewrite app_assoc, take_drop.
  - right; left. eexists. split_and!; [done|done|done|by left].
  - by right; right.
  - by right; right.
Qed.

(** [poll_read_exact]: [got] is what it had collected.  If enough bytes come,
    it completes with exactly the next [size], or it is pending, remembers
    all it has read and has used up a wait. *)
Definition collected {S} (s : ReadExactBase S) (got : list Z) : Prop :=
  length got = rx_pos s /\ take (rx_pos s) (rx_buf s) = got.

Lemma read_exact_loop_spec fuel size (s : ReadExactBase Wire) got :
  collected s got -> length (rx_buf s) = size -> (rx_pos s <= size)%nat -> (size - rx_pos s <= fuel)%nat ->
  (size <= length got + length (bytes_of (wi_in (rx_raw s))))%nat ->
  exists p s' more, poll_read_exact_loop fuel size s = (p, s') /\ rx_raw s' = with_in (wi_in (rx_raw s')) (rx_raw s) /\
    bytes_of (wi_in (rx_raw s)) = more ++ bytes_of (wi_in (rx_raw s')) /\
    ((p = Ready (Ok tt) /\ rx_buf s' = got ++ more /\ rx_pos s' = 0%nat /\ length (got ++ more) = size /\
        waits_of (wi_in (rx_raw s')) = waits_of (wi_in (rx_raw s))) \/
     (p = Pending /\ collected s' (got ++ more) /\ (rx_pos s' < size)%nat /\ (waits_of (wi_in (rx_raw s')) < waits_of (wi_in (rx_raw s)))%nat)).
Proof.
  revert s got. induction fuel as [|fuel IH]; intros s got [Hg1 Hg2] Hb Hp Hf Hn; cbn [poll_read_exact_loop];
    (destruct (rx_pos s <? size)%nat eqn:El; [apply Nat.ltb_lt in El|apply Nat.ltb_ge in El]); try lia;
    try (assert (rx_pos s = size) as Hps by lia; rewrite Hps, Nat.eqb_refl; eexists _, _, []; cbn; split; [done|];
         (split; [by destruct (rx_raw s)|split; [done|]]); left; rewrite app_nil_r; split_and!; [done| |done|lia|done];
         rewrite <- Hg2, Hps, take_ge by lia; done).
  destruct (wire_read_cases (size - rx_pos s) (rx_raw s)) as [(bs & w' & -> & Hne & Hl & Hby & Hw & Hw')|[(w' & -> & Hby & Hw' & Hwt)|Hz]]; [lia| | |].
  - set (s1 := {| rx_raw := w'; rx_buf := take (rx_pos s) (rx_buf s) ++ bs ++ drop (rx_pos s + length bs) (rx_buf s); rx_pos := rx_pos s + length bs |}).
    destruct (IH s1 (got ++ bs)) as (p & s' & more & E & R1 & R2 & R3).
    + split; cbn; [rewrite length_app; lia|]. rewrite Hg2, app_assoc, take_app_le by (rewrite length_app; lia).
      rewrite <- Hg1, <- length_app, take_ge; done.
    + cbn. rewrite Hg2, !length_app, length_drop. lia.
    + cbn. lia.
    + cbn. destruct bs; [done|cbn in *; lia].
    + cbn. rewrite Hby, length_app in Hn. rewrite length_app. lia.
    + exists p, s', (bs ++ more). cbn in *. destruct bs as [|b bs]; [done|]. rewrite E. split; [done|].
      split; [rewrite R1, Hw'; by destruct (rx_raw s)|]. split; [by rewrite Hby, R2, app_assoc|].
      rewrite app_assoc. rewrite <- Hw. destruct R3 as [(? & ? & ? & ? & ?)|(? & ? & ? & ?)]; [left|right]; by split_and!.
  - destruct Hwt as [Hwt|Hz]; [|rewrite Hz in Hn; cbn in Hn; lia].
    eexists _, _, []. split; [done|]. cbn. split; [by rewrite Hw'|]. split; [done|]. right. rewrite app_nil_r. split_and!; [done| |done|lia].
    split; [done|]. cbn. rewrite Hg2, take_app_le by lia. by rewrite take_ge by lia.
  - rewrite Hz in Hn. cbn in Hn. lia.
Qed.

Lemma set_len_take n k b : (k <= n)%nat -> (k <= length b)%nat -> take k (set_len n b) = take k b.
Proof. intros H1 H2. unfold set_len. rewrite take_app_le by (rewrite length_take; lia). rewrite take_take. f_equal. lia. Qed.
Lemma set_len_length n b : length (set_len n b) = n.
Proof. unfold set_len. rewrite length_app, length_take, length_replicate. lia. Qed.

Lemma poll_read_exact_spec size (s : ReadExactBase Wire) got :
  collected s got -> (rx_pos s <= length (rx_buf s))%nat -> (rx_pos s <= size)%nat ->
  (size <= length got + length (bytes_of (wi_in (rx_raw s))))%nat ->
  exists p s' more, poll_read_exact size s = (p, s') /\ rx_raw s' = with_in (wi_in (rx_raw s')) (rx_raw s) /\
    bytes_of (wi_in (rx_raw s)) = more ++ bytes_of (wi_in (rx_raw s')) /\
    ((p = Ready (Ok tt) /\ rx_buf s' = got ++ more /\ rx_pos s' = 0%nat /\ length (got ++ more) = size /\
        waits_of (wi_in (rx_raw s')) = waits_of (wi_in (rx_raw s))) \/
     (p = Pending /\ collected s' (got ++ more) /\ (rx_pos s' < size)%nat /\ (waits_of (wi_in (rx_raw s')) < waits_of (wi_in (rx_raw s)))%nat)).
Proof.
  intros [H1 H2] H3 H4 H5. unfold poll_read_exact.
  apply (read_exact_loop_spec size size {| rx_raw := rx_raw s; rx_buf := set_len size (rx_buf s); rx_pos := rx_pos s |}); cbn; try done.
  - split; [done|]. cbn. by rewrite set_len_take.
  - apply set_len_length.
  - lia.
Qed.

(** ** What is there at once

    The bytes a reader gets without waiting; futures that are made anew on
    every poll work on these. *)
Fixpoint avail (i : list ReadEv) : list Z :=
  match i with
  | RdData b bs :: i => (b :: bs) ++ avail i
  | _ => []
  end.
(** What comes after them. *)
Fixpoint behind (i : list ReadEv) : list ReadEv :=
  match i with
  | RdData _ _ :: i => behind i
  | _ => i
  end.
Lemma avail_data bs i : avail (data_ev bs i) = bs ++ avail i.
Proof. by destruct bs. Qed.
Lemma behind_data bs i : behind (data_ev bs i) = behind i.
Proof. by destruct bs. Qed.

Lemma read_exact_avail_loop fuel acc need (w : Wire) : (need <= fuel)%nat -> (need <= length (avail (wi_in w)))%nat ->
  exists w', read_exact_loop fuel acc need w = (Ready (Ok (acc ++ take need (avail (wi_in w)))), w') /\
    avail (wi_in w') = drop need (avail (wi_in w)) /\ behind (wi_in w') = behind (wi_in w) /\ w' = with_in (wi_in w') w.
Proof.
  revert acc need w. induction fuel as [|fuel IH]; intros acc need w Hf Hn.
  { assert (need = 0)%nat as -> by lia. exists w. cbn. rewrite app_nil_r. by destruct w. }
  destruct need as [|need]; [exists w; cbn; rewrite app_nil_r; by destruct w|].
  cbn [read_exact_loop]. unfold mbind, pm_bind, poll_read, wire_read. destruct w as [[|[b bs| | |m] i] ev o sh]; cbn in Hn; try lia.
  cbn [wi_in]. set (d := take (S need) (b :: bs)). assert (d <> []) as Hd by done.
  destruct d as [|x d'] eqn:Ed; [done|]. rewrite <- Ed.
  set (w1 := with_in (data_ev (drop (S need) (b :: bs)) i) _).
  assert (length d <= S need)%nat as Hl by (unfold d; rewrite length_take; lia).
  assert (0 < length d)%nat as Hp by (rewrite Ed; cbn; lia).
  assert (b :: bs ++ avail i = d ++ avail (wi_in w1)) as Hx.
  { cbn. rewrite avail_data, app_assoc. unfold d. by rewrite take_drop. }
  destruct (IH (acc ++ d) (S need - length d)%nat w1) as (w' & E & A & B & C); [lia| |].
  { apply (f_equal length) in Hx. rewrite length_app in Hx. cbn [length] in Hx. cbn in Hn. lia. }
  assert (take (S need) (b :: bs ++ avail i) = d ++ take (S need - length d) (avail (wi_in w1))) as Ht
    by (by rewrite Hx, take_app, (take_ge d) by lia).
  assert (drop (S need) (b :: bs ++ avail i) = drop (S need - length d) (avail (wi_in w1))) as Hdr
    by (by rewrite Hx, drop_app, (drop_ge d) by lia).
  exists w'. split_and!.
  - etransitivity; [exact E|]. by rewrite <- app_assoc, <- Ht.
  - etransitivity; [exact A|]. symmetry. exact Hdr.
  - etransitivity; [exact B|]. cbn. by rewrite behind_data.
  - etransitivity; [exact C|]. done.
Qed.

Lemma read_exact_fut_avail n (w : Wire) : (n <= length (avail (wi_in w)))%nat ->
  exists w', read_exact_fut n w = (Ready (Ok (take n (avail (wi_in w)))), w') /\
    avail (wi_in w') = drop n (avail (wi_in w)) /\ behind (wi_in w') = behind (wi_in w) /\ w' = with_in (wi_in w') w.
Proof. intros H. exact (read_exact_avail_loop n [] n w ltac:(lia) H). Qed.

(** A stream that has no more bytes waits, ends or fails. *)
Lemma drained_wire cap w : bytes_of (wi_in w) = [] ->
  (exists w', poll_read cap w = (Pending, w') /\ bytes_of (wi_in w') = []) \/ (exists w', poll_read cap w = (Ready (Ok []), w')) \/
  (exists e w', poll_read cap w = (Ready (Err e), w')).
Proof.
  unfold poll_read, wire_read. destruct w as [[|[b bs| | |m] i] e o sh]; cbn; try done; intros H.
  - left. by eexists.
  - left. by eexists.
  - right; left. by eexists.
  - right; right. by do 2 eexists.
Qed.
(** Some of the buffer is written, or nothing and the buffer is kept. *)
Lemma write_buf_cases w (buf : list Z) : buf <> [] ->
  (exists n w', poll_write_buf (w, buf) = (Ready (Ok n), (w', drop n buf)) /\ (0 < n <= length buf)%nat /\ wi_out w' = wi_out w ++ take n buf) \/
  (exists p w', poll_write_buf (w, buf) = (p, (w', buf)) /\ wi_out w' = wi_out w /\ (p = Pending \/ exists e, p = Ready (Err e))).
Proof.
  intros Hne. unfold poll_write_buf. destruct buf as [|x buf]; [done|]. set (b := x :: buf) in *.
  unfold poll_write, wire_write. destruct (wi_ev w) as [|[n| |e] ev]; cbn.
  - right. exists Pending, w. split_and!; try done. by left.
  - left. pose proof (accepted_bound n b) as [H1 H2]. exists (accepted n b). eexists. split; [done|]. split; [|done]. split; [by apply H2|done].
  - right. eexists Pending, _. split_and!; try done. by left.
  - right. eexists (Ready (Err e)), _. split_and!; try done. right. by exists e.
Qed.
