(* ===== verification/Copy.v ===== *)
(** * Copying between two streams ([clash-lib/src/common/io/mod.rs])

    Every proxied connection ends in [copy_bidirectional]: two copy loops
    over the client's stream and the outbound's, each with a buffer, the
    half-close of a side when its source ends, and a timeout for the other
    direction once one has finished. *)

From S2P Require Import Prelude Async.

(** ** One direction *)
(* @src clash-lib/src/common/io/mod.rs ~^pub struct CopyBuffer~ CopyBuffer *)
Record CopyBuffer : Type := {
  read_done : bool;
  need_flush : bool;
  pos : nat;
  cap : nat;
  amt : Z;
  buf : list Z;
}.

(* @src clash-lib/src/common/io/mod.rs ~    pub fn new_with_capacity~ CopyBuffer::new_with_capacity *)
Definition new_with_capacity (size : nat) : CopyBuffer := {|
  read_done := false; need_flush := false; pos := 0; cap := 0; amt := 0; buf := replicate size 0 |}.

(* @src clash-lib/src/common/io/mod.rs ~    pub fn amount_transferred~ CopyBuffer::amount_transferred *)
Definition amount_transferred (c : CopyBuffer) : Z := amt c.

Definition set_read_done (c : CopyBuffer) : CopyBuffer := {|
  read_done := true; need_flush := need_flush c; pos := pos c; cap := cap c; amt := amt c; buf := buf c |}.
Definition set_need_flush (b : bool) (c : CopyBuffer) : CopyBuffer := {|
  read_done := read_done c; need_flush := b; pos := pos c; cap := cap c; amt := amt c; buf := buf c |}.
Definition filled (bs : list Z) (c : CopyBuffer) : CopyBuffer := {|
  read_done := read_done c; need_flush := need_flush c; pos := 0; cap := length bs; amt := amt c;
  buf := bs ++ drop (length bs) (buf c) |}.
Definition written (n : nat) (a : Z) (c : CopyBuffer) : CopyBuffer := {|
  read_done := read_done c; need_flush := true; pos := pos c + n; cap := cap c; amt := a; buf := buf c |}.
Definition unwritten (c : CopyBuffer) : list Z := take (cap c - pos c) (drop (pos c) (buf c)).
Arguments unwritten : simpl never.

Section copy.
Context {R W : Type} {AR : AsyncRead R} {AW : AsyncWrite W} (oc : bool).

Abbreviation St := (CopyBuffer * R * W)%type.
Definition reading {A} (m : PM R A) : PM St A := zoom (fun s => s.1.2) (fun r s => (s.1.1, r, s.2)) m.
Definition writing {A} (m : PM W A) : PM St A := zoom (fun s => s.2) (fun w s => (s.1, w)) m.
Definition with_buf {A} (f : CopyBuffer -> PM St A) : PM St A := fun s => f s.1.1 s.
Definition set_buf (f : CopyBuffer -> CopyBuffer) : PM St unit := modify (fun s => (f s.1.1, s.1.2, s.2)).

(** The part of the loop that reads. *)
(* @src clash-lib/src/common/io/mod.rs 110 139 CopyBuffer::poll_copy (read) *)
Definition copy_fill : PM St unit := with_buf (fun c =>
  if (pos c =? cap c)%nat && negb (read_done c) then fun s =>
    match reading (poll_read (length (buf c))) s with
    | (Ready (Ok []), s) => set_buf set_read_done s
    | (Ready (Ok bs), s) => set_buf (filled bs) s
    | (Ready (Err e), s) => (Ready (Err e), s)
    | (Ready Panic, s) => (Ready Panic, s)
    | (Pending, s) =>
      if need_flush c then (_ ← writing poll_flush; _ ← set_buf (set_need_flush false); pending : PM St unit) s
      else (Pending, s)
    end
  else mret tt).

(** The part that writes: every round writes a byte, so as many rounds as
    there are bytes are enough. *)
(* @src clash-lib/src/common/io/mod.rs 141 156 CopyBuffer::poll_copy (write) *)
Fixpoint copy_drain (fuel : nat) : PM St unit := with_buf (fun c =>
  if (pos c <? cap c)%nat then
    match fuel with
    | O => fail Panic
    | S fuel' =>
      i ← writing (poll_write (unwritten c));
      if (i =? 0)%nat then fail (Err "write zero byte into writer")
      else
        a ← fail (arith oc 64 (amt c + Z.of_nat i));
        _ ← set_buf (written i a);
        copy_drain fuel'
    end
  else mret tt).

(** One round of the loop; [Some] is its result. *)
Definition copy_round : PM St (option Z) :=
  _ ← copy_fill;
  _ ← with_buf (fun c => copy_drain (cap c - pos c));
  _ ← with_buf (fun c => if oc && (cap c <? pos c)%nat then fail Panic else mret tt);
  with_buf (fun c =>
    if (pos c =? cap c)%nat && read_done c then _ ← writing poll_flush; mret (Some (amt c))
    else mret None).

(** [None]: the loop is still running after [fuel] rounds. *)
(* @src clash-lib/src/common/io/mod.rs ~    pub fn poll_copy~ CopyBuffer::poll_copy *)
Fixpoint poll_copy (fuel : nat) (s : St) : option (Poll (res Z) * St) :=
  match fuel with
  | O => None
  | S fuel' =>
    match copy_round s with
    | (Ready (Ok None), s) => poll_copy fuel' s
    | (Ready (Ok (Some n)), s) => Some (Ready (Ok n), s)
    | (Ready (Err e), s) => Some (Ready (Err e), s)
    | (Ready Panic, s) => Some (Ready Panic, s)
    | (Pending, s) => Some (Pending, s)
    end
  end.
End copy.

(** ** Both directions *)
(* @src clash-lib/src/common/io/mod.rs ~^enum TransferState~ TransferState *)
Inductive TransferState : Type := Running (c : CopyBuffer) | ShuttingDown (count : Z) | Done.

(* @src clash-lib/src/common/io/mod.rs ~^pub enum CopyBidirectionalError~ CopyBidirectionalError *)
Inductive CopyBidirectionalError : Type := LeftClosed (e : string) | RightClosed (e : string) | Other (e : string).

(** A delay is the time it ends. *)
(* @src clash-lib/src/common/io/mod.rs ~^struct CopyBidirectional~ CopyBidirectional *)
Record CopyBidirectional (A B : Type) : Type := {
  cb_a : A;
  cb_b : B;
  a_to_b : TransferState;
  b_to_a : TransferState;
  a_to_b_count : Z;
  b_to_a_count : Z;
  a_to_b_delay : option Z;
  b_to_a_delay : option Z;
  a_to_b_timeout_duration : Z;
  b_to_a_timeout_duration : Z;
}.
Arguments cb_a {A B} _.
Arguments cb_b {A B} _.
Arguments a_to_b {A B} _.
Arguments b_to_a {A B} _.
Arguments a_to_b_count {A B} _.
Arguments b_to_a_count {A B} _.
Arguments a_to_b_delay {A B} _.
Arguments b_to_a_delay {A B} _.
Arguments a_to_b_timeout_duration {A B} _.
Arguments b_to_a_timeout_duration {A B} _.

(** What a direction's match arm ends in: the next round of the loop (with
    the direction just shut down or not), the rest of the round, or a
    return with an error. *)
Inductive Flow : Type := Again (closed : bool) | Fall | Closed (e : string) | Crashed.
#[global] Instance flow_eq_dec : EqDecision Flow.
Proof. solve_decision. Defined.

Definition delay_over (now : Z) (d : option Z) : bool := match d with Some t => t <=? now | None => false end.

Section half.
Context {R W : Type} {AR : AsyncRead R} {AW : AsyncWrite W} (oc : bool).

(* @src clash-lib/src/common/io/mod.rs 221 270 CopyBidirectional::poll (a_to_b) *)
Definition transfer (fuel : nat) (now : Z) (delay : option Z) (t : TransferState) (count : Z) (r : R) (w : W) :
    option (Flow * TransferState * Z * R * W) :=
  match t with
  | Running c =>
    '(p, (c, r, w)) ← poll_copy oc fuel (c, r, w);
    Some match p with
    | Ready (Ok n) => (Again false, ShuttingDown n, count, r, w)
    | Ready (Err e) => (Closed e, Running c, count, r, w)
    | Ready Panic => (Crashed, Running c, count, r, w)
    | Pending => if delay_over now delay then (Again false, ShuttingDown (amount_transferred c), count, r, w)
                 else (Fall, Running c, count, r, w)
    end
  | ShuttingDown n =>
    let '(p, w) := poll_shutdown w in
    Some match p with
    | Ready (Ok _) =>
      match arith oc 64 (count + n) with
      | Ok count => (Again true, Done, count, r, w)
      | _ => (Crashed, ShuttingDown n, count, r, w)
      end
    | Ready (Err e) => (Closed e, ShuttingDown n, count, r, w)
    | Ready Panic => (Crashed, ShuttingDown n, count, r, w)
    | Pending => (Fall, ShuttingDown n, count, r, w)
    end
  | Done => Some (Fall, Done, count, r, w)
  end.
End half.

Inductive CopyPoll : Type :=
| CpReady (a_to_b b_to_a : Z)
| CpErr (e : CopyBidirectionalError)
| CpPanic
| CpPending.

Section bidirectional.
Context {A B : Type} {RA : AsyncRead A} {WA : AsyncWrite A} {RB : AsyncRead B} {WB : AsyncWrite B} (oc : bool).
Abbreviation CB := (CopyBidirectional A B).

(** The direction from [a] to [b]; shutting it down starts the other's
    timeout. *)
Definition left_half (fuel : nat) (now : Z) (s : CB) : option (Flow * CB) :=
  '(f, t, n, a, b) ← transfer oc fuel now (a_to_b_delay s) (a_to_b s) (a_to_b_count s) (cb_a s) (cb_b s);
  Some (f, {| cb_a := a; cb_b := b; a_to_b := t; b_to_a := b_to_a s; a_to_b_count := n; b_to_a_count := b_to_a_count s;
              a_to_b_delay := a_to_b_delay s;
              b_to_a_delay := if f is Again true then Some (now + b_to_a_timeout_duration s) else b_to_a_delay s;
              a_to_b_timeout_duration := a_to_b_timeout_duration s; b_to_a_timeout_duration := b_to_a_timeout_duration s |}).
(* @src clash-lib/src/common/io/mod.rs 272 321 CopyBidirectional::poll (b_to_a) *)
Definition right_half (fuel : nat) (now : Z) (s : CB) : option (Flow * CB) :=
  '(f, t, n, b, a) ← transfer oc fuel now (b_to_a_delay s) (b_to_a s) (b_to_a_count s) (cb_b s) (cb_a s);
  Some (f, {| cb_a := a; cb_b := b; a_to_b := a_to_b s; b_to_a := t; a_to_b_count := a_to_b_count s; b_to_a_count := n;
              a_to_b_delay := if f is Again true then Some (now + a_to_b_timeout_duration s) else a_to_b_delay s;
              b_to_a_delay := b_to_a_delay s;
              a_to_b_timeout_duration := a_to_b_timeout_duration s; b_to_a_timeout_duration := b_to_a_timeout_duration s |}).

(** [rounds] of the outer loop (a direction takes at most two before it is
    done), each with [fuel] for the copy loops. *)
(* @src clash-lib/src/common/io/mod.rs ~    fn poll\(mut self: Pin<&mut Self>, cx~ CopyBidirectional::poll *)
Fixpoint poll_rounds (rounds fuel : nat) (now : Z) (s : CB) : option (CopyPoll * CB) :=
  match rounds with
  | O => None
  | S rounds' =>
    '(f, s) ← left_half fuel now s;
    match f with
    | Again _ => poll_rounds rounds' fuel now s
    | Closed e => Some (CpErr (LeftClosed e), s)
    | Crashed => Some (CpPanic, s)
    | Fall =>
      '(f, s) ← right_half fuel now s;
      match f with
      | Again _ => poll_rounds rounds' fuel now s
      | Closed e => Some (CpErr (RightClosed e), s)
      | Crashed => Some (CpPanic, s)
      | Fall =>
        match a_to_b s, b_to_a s with
        | Done, Done => Some (CpReady (a_to_b_count s) (b_to_a_count s), s)
        | _, _ => Some (CpPending, s)
        end
      end
    end
  end.
Definition copy_poll (fuel : nat) (now : Z) (s : CB) : option (CopyPoll * CB) := poll_rounds 5 fuel now s.

(* @src clash-lib/src/common/io/mod.rs ~^pub async fn copy_buf_bidirectional_with_timeout~ copy_buf_bidirectional_with_timeout *)
Definition copy_buf_bidirectional_with_timeout (a : A) (b : B) (size : nat) (ta tb : Z) : CB := {|
  cb_a := a; cb_b := b;
  a_to_b := Running (new_with_capacity size); b_to_a := Running (new_with_capacity size);
  a_to_b_count := 0; b_to_a_count := 0; a_to_b_delay := None; b_to_a_delay := None;
  a_to_b_timeout_duration := ta; b_to_a_timeout_duration := tb |}.
End bidirectional.

(** * Theorems *)

(** ** Streams that keep a log

    [lg_in] are the bytes read from the stream, [lg_out] those it accepted,
    [lg_eof] tells whether its end was seen, [lg_shut] whether it was shut
    down and [lg_late] whether something was written after that. *)
Record Logged (S : Type) : Type := { lg : S; lg_in : list Z; lg_out : list Z; lg_eof : bool; lg_shut : bool; lg_late : bool }.
Arguments lg {S} _.
Arguments lg_in {S} _.
Arguments lg_out {S} _.
Arguments lg_eof {S} _.
Arguments lg_shut {S} _.
Arguments lg_late {S} _.

Definition logged {S} (s : S) : Logged S := {| lg := s; lg_in := []; lg_out := []; lg_eof := false; lg_shut := false; lg_late := false |}.
Definition set_lg {S} (l : Logged S) (s : S) : Logged S :=
  {| lg := s; lg_in := lg_in l; lg_out := lg_out l; lg_eof := lg_eof l; lg_shut := lg_shut l; lg_late := lg_late l |}.

#[global] Instance logged_read {S} {AR : AsyncRead S} : AsyncRead (Logged S) := fun cap l =>
  let '(p, s) := poll_read cap (lg l) in
  (p, match p with
      | Ready (Ok bs) => {| lg := s; lg_in := lg_in l ++ bs; lg_out := lg_out l;
                            lg_eof := lg_eof l || (length bs =? 0)%nat; lg_shut := lg_shut l; lg_late := lg_late l |}
      | _ => set_lg l s
      end).
#[global] Instance logged_write {S} {AW : AsyncWrite S} : AsyncWrite (Logged S) := {|
  poll_write := fun bs l =>
    let '(p, s) := poll_write bs (lg l) in
    (p, match p with
        | Ready (Ok n) => {| lg := s; lg_in := lg_in l; lg_out := lg_out l ++ take n bs; lg_eof := lg_eof l;
                             lg_shut := lg_shut l; lg_late := lg_late l || lg_shut l |}
        | _ => set_lg l s
        end);
  poll_flush := fun l => let '(p, s) := poll_flush (lg l) in (p, set_lg l s);
  poll_shutdown := fun l =>
    let '(p, s) := poll_shutdown (lg l) in
    (p, match p with
        | Ready (Ok _) => {| lg := s; lg_in := lg_in l; lg_out := lg_out l; lg_eof := lg_eof l; lg_shut := true; lg_late := lg_late l |}
        | _ => set_lg l s
        end) |}.

#[global] Instance logged_read_laws {S} `{ReadLaws S} : ReadLaws (Logged S).
Proof.
  intros cap l bs l' E. unfold poll_read, logged_read in E. destruct (poll_read cap (lg l)) as [p s] eqn:Ep.
  injection E as -> _. by eapply read_fits.
Qed.
#[global] Instance logged_write_laws {S} `{WriteLaws S} : WriteLaws (Logged S).
Proof.
  intros bs l n l' E. unfold poll_write, logged_write in E. destruct (poll_write bs (lg l)) as [p s] eqn:Ep.
  injection E as -> _. by eapply write_fits.
Qed.

Lemma arith_wrap oc w z a : 0 <= w -> arith oc w z = Ok a -> a = wrap w z.
Proof.
  intros Hw. unfold arith. case_bool_decide as Hr; [|destruct oc; [done|by intros [= <-]]].
  intros [= <-]. by rewrite wrap_small.
Qed.
Lemma arith_not_err oc w z e : arith oc w z <> Err e.
Proof. unfold arith. case_bool_decide; [done|by destruct oc]. Qed.
Lemma wrap_add_l w x y : wrap w (wrap w x + y) = wrap w (x + y).
Proof. apply Zplus_mod_idemp_l. Qed.

(** ** One direction loses, repeats and reorders nothing *)
Section direction.
Context {R W : Type} {AR : AsyncRead R} {RL : ReadLaws R} {AW : AsyncWrite W} {WL : WriteLaws W} (oc : bool).
Abbreviation St := (CopyBuffer * Logged R * Logged W)%type.

Record copying (s : St) : Prop := {
  cp_pos : (pos s.1.1 <= cap s.1.1)%nat;
  cp_cap : (cap s.1.1 <= length (buf s.1.1))%nat;
  cp_log : lg_in s.1.2 = lg_out s.2 ++ unwritten s.1.1;
  cp_amt : amt s.1.1 = wrap 64 (zlen (lg_out s.2));
  cp_eof : read_done s.1.1 = true -> lg_eof s.1.2 = true;
}.

(** A direction touches neither what its source wrote nor what its target
    read. *)
Record frame (s s' : St) : Prop := {
  fr_out : lg_out s'.1.2 = lg_out s.1.2;
  fr_in : lg_in s'.2 = lg_in s.2;
  fr_eof : lg_eof s'.2 = lg_eof s.2;
  fr_shut : lg_shut s'.1.2 = lg_shut s.1.2 /\ lg_shut s'.2 = lg_shut s.2;
  fr_late : lg_late s'.1.2 = lg_late s.1.2 /\ (lg_shut s.2 = false -> lg_late s'.2 = lg_late s.2);
}.
#[global] Instance frame_refl : Reflexive frame.
Proof. by constructor. Qed.
#[global] Instance frame_trans : Transitive frame.
Proof.
  intros s1 s2 s3 [A1 A2 A3 [A4 A5] [A6 A7]] [B1 B2 B3 [B4 B5] [B6 B7]]. constructor; try congruence.
  - split; congruence.
  - split; [congruence|]. intros Hs. rewrite B7, A7; congruence.
Qed.
Definition keeps (s s' : St) : Prop := copying s' /\ frame s s'.

Lemma keeps_trans s s1 s2 : keeps s s1 -> (copying s1 -> keeps s1 s2) -> keeps s s2.
Proof. intros [H1 F1] H. destruct (H H1) as [H2 F2]. split; [done|]. by transitivity s1. Qed.

Lemma unwritten_length c : (cap c <= length (buf c))%nat -> length (unwritten c) = (cap c - pos c)%nat.
Proof. intros H. unfold unwritten. rewrite length_take, length_drop. lia. Qed.
Lemma unwritten_filled bs c : unwritten (filled bs c) = bs.
Proof. unfold unwritten. cbn [pos cap buf filled]. by rewrite drop_0, Nat.sub_0_r, take_app_length. Qed.
Lemma unwritten_written n a c : unwritten (written n a c) = drop n (unwritten c).
Proof.
  unfold unwritten. cbn [pos cap buf written]. rewrite skipn_firstn_comm, drop_drop. f_equal; lia.
Qed.
Lemma unwritten_flush b c : unwritten (set_need_flush b c) = unwritten c.
Proof. done. Qed.
Lemma unwritten_end c : unwritten (set_read_done c) = unwritten c.
Proof. done. Qed.
Lemma unwritten_none c : pos c = cap c -> unwritten c = [].
Proof. intros H. unfold unwritten. by rewrite H, Nat.sub_diag. Qed.

(** Reading: the bytes go to an empty buffer. *)
Lemma fill_keeps s : copying s -> keeps s (copy_fill s).2.
Proof.
  destruct s as [[c r] w]. intros Hc. pose proof Hc as [Hp Hb Hl Ha He]. unfold copy_fill, with_buf. cbn in *.
  destruct ((pos c =? cap c)%nat && negb (read_done c)) eqn:Eg; [|by split].
  apply andb_prop in Eg as [Eg%Nat.eqb_eq _]. unfold reading, zoom. cbn.
  destruct (poll_read (length (buf c)) r) as [p r'] eqn:Ep. pose proof Ep as Ep'.
  unfold poll_read, logged_read in Ep'. destruct (poll_read (length (buf c)) (lg r)) as [p' r0] eqn:E0. injection Ep' as -> <-.
  assert (keeps (c, r, w) (c, set_lg r r0, w)) as Hk by (split; [by constructor|by constructor]).
  destruct p as [[bs| |]|]; [|done..|].
  - pose proof (read_fits _ _ _ _ Ep) as Hf. rewrite (unwritten_none c Eg), app_nil_r in Hl.
    destruct bs as [|b bs]; (split; [|by constructor]); constructor; cbn in *; try done.
    + change (unwritten (set_read_done c)) with (unwritten c). by rewrite app_nil_r, (unwritten_none c Eg), app_nil_r.
    + intros _. by rewrite orb_true_r.
    + lia.
    + rewrite length_app, length_drop. lia.
    + by rewrite unwritten_filled, Hl.
    + intros Hd. by rewrite He.
  - destruct (need_flush c); [|done]. unfold mbind, pm_bind, writing, zoom. cbn.
    destruct (poll_flush (lg w)) as [[[]|] w0]; cbn; (split; [by constructor|by constructor]).
Qed.

(** A panic ends the task; otherwise the invariant holds. *)
Definition safe {A} (s : St) (o : Poll (res A) * St) : Prop := o.1 <> Ready Panic -> keeps s o.2.

Lemma safe_bind {A B} (m : PM St A) (f : A -> PM St B) s :
  safe s (m s) -> (forall a s', m s = (Ready (Ok a), s') -> copying s' -> safe s' (f a s')) -> safe s ((m ≫= f) s).
Proof.
  unfold safe, mbind, pm_bind. intros Hm Hf. destruct (m s) as [[[a| |]|] s']; cbn in *; [|by intros; apply Hm..].
  intros Hp. eapply keeps_trans; [by apply Hm|]. intros Hc. by eapply Hf.
Qed.

Lemma same_keeps s : copying s -> keeps s s.
Proof. intros H. by split. Qed.

Lemma fill_safe s : copying s -> safe s (copy_fill s).
Proof. intros H _. by apply fill_keeps. Qed.

Lemma drain_safe fuel s : copying s -> safe s (copy_drain oc fuel s).
Proof.
  revert s. induction fuel as [|fuel IH]; intros [[c r] w] Hc; cbn [copy_drain]; unfold with_buf; cbn [fst snd];
    (destruct (pos c <? cap c)%nat eqn:Eg; [|by intros _; apply same_keeps]); [by intros []|].
  pose proof Hc as [Hp Hb Hl Ha He]. cbn in *. intros Hnp. unfold mbind, pm_bind, writing, zoom in *. cbn in *.
  destruct (poll_write (unwritten c) (lg w)) as [p w0] eqn:Ep.
  destruct p as [[n| |]|]; cbn in *; [|by (split; [by constructor|by constructor])..].
  pose proof (write_fits _ _ _ _ Ep) as Hf. pose proof (unwritten_length c Hb) as Hul. apply Nat.ltb_lt in Eg.
  destruct (n =? 0)%nat eqn:En.
  { apply Nat.eqb_eq in En as ->. cbn. split; constructor; cbn; rewrite ?app_nil_r; try done. split; [done|]. intros ->. by rewrite orb_false_r. }
  destruct (arith oc 64 (amt c + Z.of_nat n)) as [a| |] eqn:Ea; cbn in *; [|by apply arith_not_err in Ea|by destruct Hnp].
  apply arith_wrap in Ea; [|lia].
  eapply keeps_trans; [|intros Hc2; by apply IH].
  split; constructor; cbn; try done.
  - lia.
  - rewrite unwritten_written, Hl, <- app_assoc. by rewrite take_drop.
  - rewrite Ea, Ha, wrap_add_l. unfold zlen. rewrite length_app, length_take. f_equal. lia.
  - split; [done|]. intros ->. by rewrite orb_false_r.
Qed.

Lemma flush_safe s : copying s -> safe s (writing poll_flush s).
Proof.
  destruct s as [[c r] w]. intros [Hp Hb Hl Ha He] _. cbn in *. unfold writing, zoom. cbn.
  destruct (poll_flush (lg w)) as [p w0]. split; by constructor.
Qed.

Lemma round_safe s : copying s -> safe s (copy_round oc s).
Proof.
  intros Hc. apply safe_bind; [by apply fill_safe|]. intros [] s1 _ H1.
  apply safe_bind; [by apply drain_safe|]. intros [] s2 _ H2.
  apply safe_bind.
  { unfold with_buf. destruct (oc && _); [by intros []|]. intros _. by apply same_keeps. }
  intros [] s3 _ H3. unfold with_buf. destruct (_ && _); [|by intros _; apply same_keeps].
  apply safe_bind; [by apply flush_safe|]. intros [] s4 _ H4 _. by apply same_keeps.
Qed.

Lemma round_finished (s : St) n (s' : St) : copy_round oc s = (Ready (Ok (Some n)), s') ->
  n = amt s'.1.1 /\ pos s'.1.1 = cap s'.1.1 /\ read_done s'.1.1 = true.
Proof.
  unfold copy_round, mbind, pm_bind. intros H.
  destruct (copy_fill s) as [[[[]| |]|] s1]; try done. unfold with_buf in H.
  destruct (copy_drain oc _ s1) as [[[[]| |]|] s2]; try done.
  destruct (oc && _); [done|]. cbn in H.
  destruct ((pos s2.1.1 =? cap s2.1.1)%nat && read_done s2.1.1) eqn:E; [|done].
  apply andb_prop in E as [E1%Nat.eqb_eq E2]. unfold writing, zoom in H.
  destruct (poll_flush (lg s2.2)) as [[[[]| |]|] w3]; try done. cbn in H. by injection H as <- <-.
Qed.

(** The copy loop: whatever it returns but a panic, the target has accepted
    a prefix of what was read, in order, and the rest is in the buffer; when
    it finishes, the end of the source was seen, the target has everything
    and the result is the number of bytes. *)
Lemma poll_copy_safe fuel s p s' (Hc : copying s) (H : poll_copy oc fuel s = Some (p, s')) (Hp : p <> Ready Panic) :
  keeps s s' /\ forall n, p = Ready (Ok n) -> n = wrap 64 (zlen (lg_out s'.2)) /\ lg_in s'.1.2 = lg_out s'.2 /\ lg_eof s'.1.2 = true.
Proof.
  revert s Hc H. induction fuel as [|fuel IH]; intros s Hc H; [done|]. cbn in H.
  pose proof (round_safe s Hc) as Hs. destruct (copy_round oc s) as [q s1] eqn:E. unfold safe in Hs. cbn in Hs.
  destruct q as [[[n|]| |]|]; try (injection H as <- <-; split; [by apply Hs|done]).
  - injection H as <- <-. assert (keeps s s1) as Hk by by apply Hs. split; [done|]. intros m [= <-].
    destruct Hk as [[Hp1 Hb Hl Ha He] _]. destruct (round_finished _ _ _ E) as (-> & He1 & Hd).
    rewrite (unwritten_none _ He1), app_nil_r in Hl. split_and!; [done|done|by apply He].
  - assert (keeps s s1) as Hk by by apply Hs. destruct (IH s1 (proj1 Hk) H) as [Hk2 Hn]. split; [|done].
    by eapply keeps_trans.
Qed.
End direction.

(** ** Both directions *)

(** The end of the source was seen and the target accepted everything. *)
Definition complete {R W} (r : Logged R) (w : Logged W) : Prop := lg_in r = lg_out w /\ lg_eof r = true.

(** A finished direction: its target accepted a prefix of what was read; all
    of it unless the other direction had been completed and shut down. *)
Definition delivered {R W} (r : Logged R) (w : Logged W) : Prop :=
  lg_out w `prefix_of` lg_in r /\ (complete r w \/ (lg_shut r = true /\ complete w r)).

Record dir_ok {R W} (t : TransferState) (count : Z) (delay : option Z) (r : Logged R) (w : Logged W) : Prop := {
  do_late : lg_late w = false;
  do_shut : lg_shut w = if t is Done then true else false;
  do_delay : is_Some delay -> lg_shut r = true /\ (t = Done \/ complete w r);
  do_state : match t with
             | Running c => copying (c, r, w) /\ count = 0
             | ShuttingDown n => n = wrap 64 (zlen (lg_out w)) /\ delivered r w /\ count = 0
             | Done => count = wrap 64 (zlen (lg_out w)) /\ delivered r w
             end;
}.

(** What the other direction sees of a step of this one: nothing. *)
Record apart {R W} (r : Logged R) (w : Logged W) (r' : Logged R) (w' : Logged W) : Prop := {
  ap_out : lg_out r' = lg_out r;
  ap_in : lg_in w' = lg_in w;
  ap_eof : lg_eof w' = lg_eof w;
  ap_shut : lg_shut r' = lg_shut r;
  ap_late : lg_late r' = lg_late r;
  ap_mono : lg_shut w = true -> lg_shut w' = true;
  ap_frozen : lg_shut w = true -> lg_in r' = lg_in r /\ lg_eof r' = lg_eof r /\ lg_out w' = lg_out w;
}.

Lemma copying_prefix {R W} (c : CopyBuffer) (r : Logged R) (w : Logged W) : copying (c, r, w) -> lg_out w `prefix_of` lg_in r.
Proof. intros [_ _ Hl _ _]. cbn in Hl. rewrite Hl. by exists (unwritten c). Qed.

Lemma apart_complete {R W} (r r' : Logged R) (w w' : Logged W) : apart r w r' w' -> complete w r -> complete w' r'.
Proof. intros Ha [H1 H2]. destruct Ha as [A1 A2 A3 _ _ _ _]. split; congruence. Qed.
Lemma apart_timeout {R W} (r r' : Logged R) (w w' : Logged W) :
  apart r w r' w' -> lg_shut w = true /\ complete r w -> lg_shut w' = true /\ complete r' w'.
Proof. intros [_ _ _ _ _ A6 A7] [H1 [H2 H3]]. destruct (A7 H1) as (B1 & B2 & B3). split; [by apply A6|]. split; congruence. Qed.
Lemma apart_delivered {R W} (r r' : Logged R) (w w' : Logged W) : apart r w r' w' -> delivered w r -> delivered w' r'.
Proof.
  intros Ha [H1 H2]. split; [by rewrite (ap_out _ _ _ _ Ha), (ap_in _ _ _ _ Ha)|].
  destruct H2 as [H2|H2]; [left; by eapply apart_complete|right; by eapply apart_timeout].
Qed.

Lemma apart_dir_ok {R W} t n d (r r' : Logged R) (w w' : Logged W) :
  apart r w r' w' -> dir_ok t n d w r -> dir_ok t n d w' r'.
Proof.
  intros Ha [B1 B2 B3 B4]. pose proof Ha as [A1 A2 A3 A4 A5 A6 A7]. constructor; [congruence|congruence| |].
  { intros Hd. destruct (B3 Hd) as [H1 [->|H2]]; [split; [by apply A6|by left]|].
    destruct (apart_timeout _ _ _ _ Ha (conj H1 H2)). split; [done|by right]. }
  destruct t as [c|m|].
  - destruct B4 as [[C1 C2 C3 C4 C5] ->]. split; [|done]. cbn in *. constructor; cbn; try done; [congruence|congruence|by rewrite A3].
  - rewrite A1. destruct B4 as (-> & H1 & ->). split_and!; [done|by eapply apart_delivered|done].
  - rewrite A1. destruct B4 as (-> & H1). split; [done|by eapply apart_delivered].
Qed.

Section transfers.
Context {R W : Type} {AR : AsyncRead R} {RL : ReadLaws R} {AW : AsyncWrite W} {WL : WriteLaws W} (oc : bool).

Lemma keeps_apart (c c' : CopyBuffer) (r r' : Logged R) (w w' : Logged W) : 
  lg_shut w = false -> keeps (c, r, w) (c', r', w') -> apart r w r' w'.
Proof. intros Hs [_ [F1 F2 F3 [F4 F5] [F6 F7]]]. cbn in *. constructor; congruence. Qed.

Lemma shutdown_dir n d (r : Logged R) (w : Logged W) (cnt : Z) p w' m :
  dir_ok (ShuttingDown n) cnt d r w -> poll_shutdown w = (p, w') ->
  (p = Ready (Ok m) -> dir_ok Done n d r w') /\ (p <> Ready (Ok m) -> dir_ok (ShuttingDown n) cnt d r w') /\ apart r w r w'.
Proof.
  intros [H1 H2 H3 (H4 & H5 & H6)] E. cbn in E. destruct (poll_shutdown (lg w)) as [q w0]. injection E as <- <-.
  assert (is_Some d -> lg_shut r = true /\ (Done = Done \/ complete w r)) as H3' by (intros Hs; destruct (H3 Hs); auto).
  destruct m. destruct q as [[[]| |]|]; (split_and!; [intros Hm; constructor|intros Hm; constructor|constructor]); cbn; try done;
    try (intros ?; congruence); auto.
Qed.

Lemma transfer_ok fuel now d t n (r : Logged R) (w : Logged W) f t' n' r' w' :
  dir_ok t n d r w -> transfer oc fuel now d t n r w = Some (f, t', n', r', w') -> f <> Crashed ->
  dir_ok t' n' d r' w' /\ apart r w r' w' /\ (f = Again true -> lg_shut w' = true).
Proof.
  intros Hd H Hf. pose proof Hd as [H1 H2 H3 H4]. destruct t as [c|m|]; cbn in H.
  - destruct H4 as [Hc ->]. destruct (poll_copy oc fuel (c, r, w)) as [[p [[c' r1] w1]]|] eqn:E; [|done]. cbn in H.
    injection H as H. destruct (decide (p = Ready Panic)) as [->|Hp]; [by injection H as <- <- <- <- <-|].
    destruct (poll_copy_safe oc fuel _ _ _ Hc E Hp) as [Hk Hn]. pose proof (keeps_apart _ _ _ _ _ _ H2 Hk) as Hap.
    destruct Hk as [Hc' [_ _ _ [_ F5] [_ F7]]]. cbn in *.
    assert (lg_late w1 = false) as Hl by (rewrite F7; [done|by rewrite H2]).
    assert (is_Some d -> lg_shut r1 = true /\ complete w1 r1) as Hd1.
    { intros Hd1. destruct (H3 Hd1) as [Hd2 [?|Hd3]]; [done|]. split; [by rewrite (ap_shut _ _ _ _ Hap)|by eapply apart_complete]. }
    assert (forall t', is_Some d -> lg_shut r1 = true /\ (t' = Done \/ complete w1 r1)) as Hd2.
    { intros t0 Hs. destruct (Hd1 Hs). split; [done|by right]. }
    destruct p as [[k| |]|]; [| |done|].
    + injection H as <- <- <- <- <-. split_and!; [|done|done]. destruct (Hn k eq_refl) as (-> & Hin & He).
      constructor; [done|by rewrite F5, H2|apply Hd2|]. split_and!; [done| |done]. split; [by rewrite Hin|by left].
    + injection H as <- <- <- <- <-. split_and!; [|done|done]. constructor; [done|by rewrite F5, H2|apply Hd2|done].
    + destruct (delay_over now d) eqn:Eo; injection H as <- <- <- <- <-; (split_and!; [|done|done]);
        (constructor; [done|by rewrite F5, H2|apply Hd2|]); [|done].
      split_and!; [by destruct Hc'|split; [by eapply copying_prefix|right]|done].
      apply Hd1. by destruct d.
  - destruct (poll_shutdown (lg w)) as [p w0] eqn:E.
    assert (exists w2, @poll_shutdown (Logged W) _ w = (p, w2)) as [w2 E2] by (cbn; rewrite E; by eexists).
    destruct (shutdown_dir m d r w n p w2 tt Hd E2) as (Hs1 & Hs2 & Hap). cbn in E2. rewrite E in E2. injection E2 as E2.
    rewrite E2 in H. injection H as H. destruct H4 as (Hm & Hdl & ->).
    destruct p as [[[]| |]|].
    + specialize (Hs1 eq_refl). rewrite Z.add_0_l in H. rewrite arith_ok in H by (rewrite Hm; by apply wrap_range).
      injection H as <- <- <- <- <-. split_and!; [done|done|]. intros _. by destruct Hs1.
    + injection H as <- <- <- <- <-. split_and!; [by apply Hs2|done|done].
    + by injection H as <- <- <- <- <-.
    + injection H as <- <- <- <- <-. split_and!; [by apply Hs2|done|done].
  - injection H as <- <- <- <- <-. split_and!; [done|by constructor|done].
Qed.
End transfers.

Lemma dir_ok_delay {R W} t n d d' (r : Logged R) (w : Logged W) : dir_ok t n d r w ->
  (is_Some d' -> lg_shut r = true /\ (t = Done \/ complete w r)) -> dir_ok t n d' r w.
Proof. intros [H1 H2 _ H4] Hr. by constructor. Qed.

(** The timeout of a direction starts when the other one is done. *)
Lemma other_delay {R W} t n d t2 n2 d2 new (r r' : Logged R) (w w' : Logged W) f :
  dir_ok t n d r' w' -> dir_ok t2 n2 d2 w r -> apart r w r' w' -> (f = Again true -> lg_shut w' = true) ->
  is_Some (if f is Again true then Some new else d2) -> lg_shut w' = true /\ (t2 = Done \/ complete r' w').
Proof.
  intros H1 H2 Ha Hf Hd. destruct (decide (f = Again true)) as [->|Hn].
  - specialize (Hf eq_refl). split; [done|]. destruct H1 as [_ Hs _ Hst]. rewrite Hf in Hs. destruct t; [done|done|].
    destruct Hst as [_ [_ [Hc|[Hr _]]]]; [by right|left].
    destruct H2 as [_ Hs2 _ _]. rewrite <- (ap_shut _ _ _ _ Ha), Hr in Hs2. by destruct t2.
  - assert (is_Some d2) as Hd2 by (by destruct f as [[]| | |]).
    by destruct (apart_dir_ok _ _ _ _ _ _ _ Ha H2) as [_ _ H3 _]; apply H3.
Qed.

Section both.
Context {A B : Type} {RA : AsyncRead A} {WA : AsyncWrite A} {RB : AsyncRead B} {WB : AsyncWrite B}.
Context {RLA : ReadLaws A} {WLA : WriteLaws A} {RLB : ReadLaws B} {WLB : WriteLaws B} (oc : bool).
Abbreviation CB := (CopyBidirectional (Logged A) (Logged B)).

Definition both_ok (s : CB) : Prop :=
  dir_ok (a_to_b s) (a_to_b_count s) (a_to_b_delay s) (cb_a s) (cb_b s) /\
  dir_ok (b_to_a s) (b_to_a_count s) (b_to_a_delay s) (cb_b s) (cb_a s).

Lemma left_ok fuel now (s : CB) f s' : both_ok s -> left_half oc fuel now s = Some (f, s') -> f <> Crashed -> both_ok s'.
Proof.
  intros [H1 H2] H Hf. unfold left_half in H. destruct (transfer _ _ _ _ _ _ _ _) as [[[[[f' t] n] a] b]|] eqn:E; [|done].
  cbn in H. injection H as <- <-. destruct (transfer_ok oc _ _ _ _ _ _ _ _ _ _ _ _ H1 E Hf) as (Hd & Hap & Hsh).
  split; cbn; [done|]. eapply dir_ok_delay; [by eapply apart_dir_ok|].
  intros Hdel. exact (other_delay _ _ _ _ _ _ _ _ _ _ _ _ Hd H2 Hap Hsh Hdel).
Qed.
Lemma right_ok fuel now (s : CB) f s' : both_ok s -> right_half oc fuel now s = Some (f, s') -> f <> Crashed -> both_ok s'.
Proof.
  intros [H1 H2] H Hf. unfold right_half in H. destruct (transfer _ _ _ _ _ _ _ _) as [[[[[f' t] n] b] a]|] eqn:E; [|done].
  cbn in H. injection H as <- <-. destruct (transfer_ok oc _ _ _ _ _ _ _ _ _ _ _ _ H2 E Hf) as (Hd & Hap & Hsh).
  split; cbn; [|done]. eapply dir_ok_delay; [by eapply apart_dir_ok|].
  intros Hdel. exact (other_delay _ _ _ _ _ _ _ _ _ _ _ _ Hd H1 Hap Hsh Hdel).
Qed.

Lemma rounds_ok rounds fuel now (s s' : CB) p : both_ok s -> poll_rounds oc rounds fuel now s = Some (p, s') -> p <> CpPanic ->
  both_ok s' /\ forall x y, p = CpReady x y -> a_to_b s' = Done /\ b_to_a s' = Done /\ x = a_to_b_count s' /\ y = b_to_a_count s'.
Proof.
  revert s. induction rounds as [|rounds IH]; intros s Hs H Hp; [done|]. cbn in H.
  destruct (left_half oc fuel now s) as [[f s1]|] eqn:E1; [|done]. cbn in H.
  assert (f <> Crashed -> both_ok s1) as Hs1 by by eapply left_ok.
  destruct f as [x| |e|]; [by apply (IH s1); [apply Hs1|..]| |injection H as <- <-; split; [by apply Hs1|done]|by injection H as <- <-].
  destruct (right_half oc fuel now s1) as [[f s2]|] eqn:E2; [|done]. cbn in H.
  assert (f <> Crashed -> both_ok s2) as Hs2 by (intros ?; eapply right_ok; [by apply Hs1|done|done]).
  destruct f as [x| |e|]; [by apply (IH s2); [apply Hs2|..]| |injection H as <- <-; split; [by apply Hs2|done]|by injection H as <- <-].
  destruct (a_to_b s2) eqn:Ea, (b_to_a s2) eqn:Eb; injection H as <- <-; (split; [by apply Hs2|]); try done.
  intros ? ? [= <- <-]. by rewrite Ea, Eb.
Qed.

(** The copy future, polled any number of times without panicking. *)
Definition polled (s s' : CB) : Prop := exists fuel now p, copy_poll oc fuel now s = Some (p, s') /\ p <> CpPanic.
End both.

(** C21: copying is transparent.  However the two streams cut and delay the
    bytes, and whenever the future is polled: what a side accepted is a
    prefix of what was read from the other, in order; a side is shut down
    only after it accepted everything up to the other's end of stream, or
    when the opposite direction was completed that way and shut down first;
    nothing is written after a shutdown; and when the copy returns, both
    sides are shut down and the two results are the numbers of bytes. *)
Theorem copy_transparent {A B : Type} {RA : AsyncRead A} {WA : AsyncWrite A} {RB : AsyncRead B} {WB : AsyncWrite B}
    {RLA : ReadLaws A} {WLA : WriteLaws A} {RLB : ReadLaws B} {WLB : WriteLaws B} (oc : bool)
    (a : A) (b : B) (size : nat) (ta tb : Z) (s : CopyBidirectional (Logged A) (Logged B))
    (Hr : rtc (polled oc) (copy_buf_bidirectional_with_timeout (logged a) (logged b) size ta tb) s) :
  lg_out (cb_b s) `prefix_of` lg_in (cb_a s) /\ lg_out (cb_a s) `prefix_of` lg_in (cb_b s) /\
  (lg_shut (cb_b s) = true -> complete (cb_a s) (cb_b s) \/ (lg_shut (cb_a s) = true /\ complete (cb_b s) (cb_a s))) /\
  (lg_shut (cb_a s) = true -> complete (cb_b s) (cb_a s) \/ (lg_shut (cb_b s) = true /\ complete (cb_a s) (cb_b s))) /\
  lg_late (cb_a s) = false /\ lg_late (cb_b s) = false /\
  forall fuel now x y s', copy_poll oc fuel now s = Some (CpReady x y, s') ->
    lg_shut (cb_a s') = true /\ lg_shut (cb_b s') = true /\
    x = wrap 64 (zlen (lg_out (cb_b s'))) /\ y = wrap 64 (zlen (lg_out (cb_a s'))).
Proof.
  assert (both_ok s) as Hs.
  { assert (both_ok (copy_buf_bidirectional_with_timeout (logged a) (logged b) size ta tb)) as H0.
    { split; (constructor; cbn; [done|done|by intros []|split; [|done]]); constructor; cbn; try done; lia. }
    revert H0. induction Hr as [|s1 s2 s3 (fuel & now & p & E & Hp) _ IH]; [done|]. intros H1. apply IH.
    by eapply rounds_ok in E as [E _]. }
  assert (forall R W t n d (r : Logged R) (w : Logged W), dir_ok t n d r w -> lg_out w `prefix_of` lg_in r /\
    (lg_shut w = true -> complete r w \/ (lg_shut r = true /\ complete w r))) as Hdir.
  { intros R W t n d r w [_ Hsh _ Hst]. destruct t; [|by destruct Hst as (_ & [H1 H2] & _)|by destruct Hst as (_ & H1 & H2)].
    destruct Hst as [Hst _]. split; [by eapply copying_prefix|by rewrite Hsh]. }
  destruct Hs as [H1 H2]. destruct (Hdir _ _ _ _ _ _ _ H1) as [P1 P2], (Hdir _ _ _ _ _ _ _ H2) as [P3 P4].
  split_and!; try done; [by destruct H2|by destruct H1|].
  intros fuel now x y s' E. eapply rounds_ok in E as [[Ha Hb] E]; [|by split|done].
  destruct (E x y eq_refl) as (Ea & Eb & -> & ->). rewrite Ea in Ha. rewrite Eb in Hb.
  destruct Ha as [_ Ha1 _ [Ha2 _]], Hb as [_ Hb1 _ [Hb2 _]]. done.
Qed.
