(* ===== verification/CopyLive.v ===== *)
(** * Copying finishes ([clash-lib/src/common/io/mod.rs])

    On streams that end without an error and take what they are offered, the
    copy future of [Copy] returns after finitely many polls, with everything
    delivered on both sides. *)

From S2P Require Import Prelude Async Copy.

(** ** Schedules *)

(** The bytes a reading schedule brings before the end of the stream; none
    if it has an error or no end. *)
Fixpoint incoming (i : list ReadEv) : option (list Z) :=
  match i with
  | [] | RdErr _ :: _ => None
  | RdEof :: _ => Some []
  | RdPending :: i => incoming i
  | RdData b bs :: i => app (b :: bs) <$> incoming i
  end.
Fixpoint waits (i : list ReadEv) : nat :=
  match i with
  | [] | RdErr _ :: _ | RdEof :: _ => 0
  | RdPending :: i => S (waits i)
  | RdData _ _ :: i => waits i
  end.
Lemma incoming_data bs i : incoming (data_ev bs i) = app bs <$> incoming i.
Proof. destruct bs; cbn; [by destruct (incoming i)|done]. Qed.
Lemma waits_data bs i : waits (data_ev bs i) = waits i.
Proof. by destruct bs. Qed.

(** ** The state of a direction that still copies

    [rest] is what its source will still bring, [tgt] what its target has to
    have in the end, [total] how many bytes that will be. *)
Section wires.
Context (oc : bool) (tgt : list Z) (total : Z) (Htotal : 0 <= total < 2 ^ 64).
Abbreviation St := (CopyBuffer * Wire * Wire)%type.

Record running (s : St) (rest : list Z) : Prop := {
  ru_pos : (pos s.1.1 <= cap s.1.1)%nat;
  ru_cap : (cap s.1.1 <= length (buf s.1.1))%nat;
  ru_size : (0 < length (buf s.1.1))%nat;
  ru_rest : incoming (wi_in s.1.2) = Some rest;
  ru_out : wi_out s.2 ++ unwritten s.1.1 ++ rest = tgt;
  ru_acc : (length (unwritten s.1.1) + length rest <= accepts (wi_ev s.2))%nat;
  ru_err : no_errors (wi_ev s.2);
  ru_amt : 0 <= amt s.1.1 /\ amt s.1.1 + zlen (unwritten s.1.1) + zlen rest = total;
  ru_done : read_done s.1.1 = true -> rest = [];
}.
Definition pend (s : St) : nat := waits (wi_in s.1.2) + blocks (wi_ev s.2).

(** What a direction leaves alone. *)
Record only (s s' : St) : Prop := {
  on_ev : wi_ev s'.1.2 = wi_ev s.1.2;
  on_out : wi_out s'.1.2 = wi_out s.1.2;
  on_shut : wi_shut s'.1.2 = wi_shut s.1.2;
  on_in : wi_in s'.2 = wi_in s.2;
  on_shut' : wi_shut s'.2 = wi_shut s.2;
}.
#[local] Instance only_refl : Reflexive only.
Proof. by constructor. Qed.
#[local] Instance only_trans : Transitive only.
Proof. intros s1 s2 s3 [] []. constructor; congruence. Qed.

(** A ready result goes on, a pending one has used up a wait. *)
Definition goes {A} (s : St) (P : A -> St -> Prop) (o : Poll (res A) * St) : Prop :=
  only s o.2 /\
  match o with
  | (Ready (Ok x), s') => (pend s' <= pend s)%nat /\ P x s'
  | (Pending, s') => (exists rest, running s' rest) /\ (pend s' < pend s)%nat
  | _ => False
  end.

Lemma goes_bind {A B} (m : PM St A) (f : A -> PM St B) s P Q :
  goes s P (m s) -> (forall x s', P x s' -> goes s' Q (f x s')) -> goes s Q ((m ≫= f) s).
Proof.
  unfold goes, mbind, pm_bind. intros [Ho Hm] Hf. destruct (m s) as [[[x| |]|] s']; cbn in *; try done.
  destruct Hm as [Hp HP]. destruct (Hf x s' HP) as [Ho2 H2]. split; [by transitivity s'|].
  destruct (f x s') as [[[y| |]|] s2]; cbn in *; try done; [destruct H2; split; [lia|done]|].
  destruct H2 as [? ?]. split; [done|lia].
Qed.
Lemma goes_ret {A} (x : A) s (P : A -> St -> Prop) : P x s -> goes s P (mret (M := PM St) x s).
Proof. intros H. split; [done|]. cbn. by split. Qed.


Lemma flush_goes s rest : running s rest -> goes s (fun _ s' => s' = s) (writing poll_flush s).
Proof.
  destruct s as [[c r] w]. intros Hr. unfold writing, zoom, goes. cbn. unfold wire_ready.
  destruct Hr as [H1 H2 H3 H4 H5 H6 H7 H8 H9]. cbn in *.
  destruct (wi_ev w) as [|[n| |m] e] eqn:E; cbn; (split; [by constructor|]).
  - by split.
  - by split.
  - unfold pend. cbn. rewrite E. split; [|cbn; lia]. exists rest. constructor; cbn; try done. by inversion H7.
  - inversion H7 as [|? ? H _]. by destruct (H m).
Qed.

(** Reading takes from the schedule; the buffer has no room to be empty. *)
Definition filled_from (s : St) (rest : list Z) (_ : unit) (s' : St) : Prop :=
  (exists bs rest', rest = bs ++ rest' /\ bs <> [] /\ running s' rest') \/
  (running s' rest /\ (pos s.1.1 < cap s.1.1 \/ read_done s'.1.1 = true)%nat).

Lemma fill_goes s rest : running s rest -> goes s (filled_from s rest) (copy_fill s).
Proof.
  destruct s as [[c r] w]. intros Hr. unfold copy_fill, with_buf. cbn [fst snd].
  destruct ((pos c =? cap c)%nat && negb (read_done c)) eqn:Eg.
  2:{ apply goes_ret. right. split; [done|]. destruct Hr as [Hp _ _ _ _ _ _ _ _]. cbn in *.
      apply andb_false_iff in Eg as [Eg%Nat.eqb_neq|Eg%negb_false_iff]; [left; lia|by right]. }
  apply andb_prop in Eg as [Eg%Nat.eqb_eq Ed%negb_true_iff].
  pose proof Hr as [H1 H2 H3 H4 H5 H6 H7 H8 H9]. cbn in *. rewrite (unwritten_none c Eg) in *. cbn in *.
  unfold reading, zoom. cbn. unfold poll_read, wire_read. destruct (wi_in r) as [|[b bs| | |m] i] eqn:Ei; try done.
  - cbn in H4. destruct (incoming i) as [rest'|] eqn:Ei'; [|done]. injection H4 as <-.
    destruct (take (length (buf c)) (b :: bs)) as [|b' bs'] eqn:Et; [destruct (buf c); cbn in *; [lia|done]|]. cbn.
    assert (b :: bs ++ rest' = (b' :: bs') ++ drop (length (buf c)) (b :: bs) ++ rest') as Eb.
    { by rewrite app_assoc, <- Et, take_drop. }
    unfold goes. cbn. split; [by constructor|]. unfold pend. cbn. rewrite Ei, waits_data. split; [cbn; lia|]. left.
    exists (b' :: bs'), (drop (length (buf c)) (b :: bs) ++ rest'). split_and!; [done|done|].
    assert (length (b' :: bs') <= length (buf c))%nat as Hl by (rewrite <- Et, length_take; lia).
    constructor; cbn [fst snd]; rewrite ?unwritten_filled; cbn [pos cap buf filled amt read_done wi_in with_in] in *; try done.
    + lia.
    + rewrite length_app, length_drop. lia.
    + rewrite length_app. cbn. lia.
    + by rewrite incoming_data, Ei'.
    + by rewrite <- Eb.
    + rewrite Eb, length_app in H6. done.
    + rewrite Eb in H8. unfold zlen in *. rewrite length_app in H8. cbn [length] in *. lia.
    + by rewrite Ed.
  - assert (running (c, with_in i r, w) rest) as Hr' by (constructor; cbn; rewrite ?(unwritten_none c Eg); done).
    assert (pend (c, with_in i r, w) < pend (c, r, w))%nat as Hp by (unfold pend; cbn; rewrite Ei; cbn; lia).
    assert (only (c, r, w) (c, with_in i r, w)) as Ho by by constructor.
    destruct (need_flush c); [|split; [done|by split; [eexists|]]].
    destruct (flush_goes _ _ Hr') as [Ho2 Hf]. unfold mbind, pm_bind. cbn in Ho2, Hf |- *.
    destruct (writing _ (c, with_in i r, w)) as [[[[]| |]|] s2]; cbn in *; try done.
    + destruct Hf as [_ ->]. split; [by constructor|]. cbn. split; [|done].
      exists rest. constructor; cbn; rewrite ?unwritten_flush, ?(unwritten_none c Eg); done.
    + destruct Hf as [Hf1 Hf2]. split; [by transitivity (c, with_in i r, w)|]. cbn. split; [done|]. lia.
  - cbn in H4. injection H4 as <-. unfold goes. cbn. split; [by constructor|]. unfold pend. cbn. rewrite Ei. split; [done|]. right.
    split; [|by right]. constructor; cbn; rewrite ?Ei, ?unwritten_end, ?(unwritten_none c Eg); done.
Qed.

Lemma drain_goes fuel s rest : running s rest -> (cap s.1.1 - pos s.1.1 <= fuel)%nat ->
  goes s (fun _ s' => running s' rest /\ pos s'.1.1 = cap s'.1.1 /\ read_done s'.1.1 = read_done s.1.1) (copy_drain oc fuel s).
Proof.
  revert s. induction fuel as [|fuel IH]; intros [[c r] w] Hr Hf; cbn [copy_drain]; unfold with_buf; cbn [fst snd] in *;
    (destruct (pos c <? cap c)%nat eqn:Eg; [apply Nat.ltb_lt in Eg|apply Nat.ltb_ge in Eg]); try lia;
    try (apply goes_ret; split_and!; [done| |done]; destruct Hr as [Hp _ _ _ _ _ _ _ _]; cbn in *; lia).
  pose proof Hr as [H1 H2 H3 H4 H5 H6 H7 H8 H9]. cbn in *. pose proof (unwritten_length c H2) as Hul.
  unfold mbind, pm_bind, writing, zoom. cbn [fst snd]. unfold poll_write, wire_write.
  destruct (wi_ev w) as [|[n| |m] e] eqn:Ee; [cbn in *; lia| | |].
  - pose proof (accepted_bound n (unwritten c)) as [Hk1 Hk2]. set (k := accepted n (unwritten c)) in *.
    assert (0 < k)%nat as Hk0 by (apply Hk2; intros Hn; rewrite Hn in Hul; cbn in Hul; lia).
    destruct (k =? 0)%nat eqn:Ek; [apply Nat.eqb_eq in Ek; lia|].
    assert (in_width 64 (amt c + Z.of_nat k)) as Hw by (unfold in_width, zlen in *; lia).
    unfold fail. rewrite (arith_ok oc 64 _ Hw). cbn.
    pose (s1 := (written k (amt c + Z.of_nat k) c, r, push_out (take k (unwritten c)) (with_ev e w)) : St).
    assert (running s1 rest) as Hr1.
    { constructor; cbn; rewrite ?unwritten_written; try done.
      - lia.
      - by rewrite <- app_assoc, (app_assoc (take k _)), take_drop.
      - rewrite length_drop. cbn in H6. lia.
      - by inversion H7.
      - unfold zlen in *. rewrite length_drop. lia. }
    assert (only (c, r, w) s1) as Ho by by constructor.
    assert (pend s1 <= pend (c, r, w))%nat as Hp by (unfold pend; cbn; rewrite Ee; cbn; lia).
    destruct (IH s1 Hr1) as [Ho2 H2']; [cbn; lia|]. split; [by transitivity s1|].
    fold s1. destruct (copy_drain oc fuel s1) as [[[[]| |]|] s2]; cbn in *; try done; destruct H2' as [K1 K2].
    + split; [lia|done].
    + split; [done|lia].
  - split; [by constructor|]. cbn. split; [|unfold pend; cbn; rewrite Ee; cbn; lia].
    exists rest. constructor; cbn; try done. by inversion H7.
  - inversion H7 as [|? ? H _]. by destruct (H m).
Qed.

(** One round: the end, or less is left. *)
Definition round_post (s : St) (rest : list Z) (o : option Z) (s' : St) : Prop :=
  match o with
  | Some n => n = total /\ wi_out s'.2 = tgt /\ no_errors (wi_ev s'.2)
  | None => exists rest', running s' rest' /\ pos s'.1.1 = cap s'.1.1 /\
              (length rest' < length rest \/ (rest' = rest /\ pos s.1.1 < cap s.1.1))%nat
  end.

Lemma round_goes s rest : running s rest -> goes s (round_post s rest) (copy_round oc s).
Proof.
  intros Hr. unfold copy_round.
  eapply goes_bind; [by apply fill_goes|]. intros [] s1 H1. unfold with_buf.
  assert (exists rest', running s1 rest' /\
    (length rest' < length rest \/ (rest' = rest /\ (pos s.1.1 < cap s.1.1 \/ read_done s1.1.1 = true)))%nat) as (rest' & Hr' & Hc).
  { destruct H1 as [(bs & rest' & -> & Hne & Hr')|[Hr' Hc]]; [|exists rest; auto].
    exists rest'. split; [done|]. left. rewrite length_app. destruct bs; [done|cbn; lia]. }
  eapply goes_bind; [by eapply (drain_goes _ s1)|]. intros [] s2 (Hr2 & Hp & Hd).
  eapply (goes_bind _ _ _ (fun _ s' => s' = s2)).
  { rewrite Hp, Nat.ltb_irrefl, andb_false_r. by apply goes_ret. }
  intros [] ? ->. rewrite Hp, Nat.eqb_refl. cbn [andb]. rewrite <- Hd in Hc. destruct (read_done s2.1.1) eqn:Ed.
  - eapply goes_bind; [by eapply flush_goes|]. intros [] ? ->. apply goes_ret.
    destruct Hr2 as [_ _ _ _ K5 _ K7 K8 K9]. rewrite (K9 Ed), (unwritten_none _ Hp) in *.
    rewrite !app_nil_r in K5. split_and!; [unfold zlen in K8; cbn in K8; lia|done|done].
  - apply goes_ret. exists rest'. split_and!; [done|done|]. destruct Hc as [Hc|[-> [Hc|Hc]]]; [by left|by right|done].
Qed.

(** The copy loop returns after as many rounds as there are bytes to read and
    two more. *)
Lemma poll_copy_goes fuel s rest : running s rest -> (length rest + (if decide (pos s.1.1 < cap s.1.1)%nat then 1 else 0) < fuel)%nat ->
  exists o, poll_copy oc fuel s = Some o /\ goes s (fun n s' => n = total /\ wi_out s'.2 = tgt /\ no_errors (wi_ev s'.2)) o.
Proof.
  revert s rest. induction fuel as [|fuel IH]; intros s rest Hr Hf; [lia|]. cbn.
  pose proof (round_goes s rest Hr) as [Ho Hg]. destruct (copy_round oc s) as [[[[n|]| |]|] s1]; cbn in Ho, Hg; try done.
  - eexists. split; [done|]. by split.
  - destruct Hg as (Hp & rest' & Hr' & Hpc & Hm).
    destruct (IH s1 rest' Hr') as (o & -> & Ho2 & Hg2).
    { destruct (decide (pos s1.1.1 < cap s1.1.1)%nat); [lia|]. destruct (decide _), Hm as [Hm|[-> Hm]]; lia. }
    exists o. split; [done|]. split; [by transitivity s1|].
    destruct o as [[[n| |]|] s2]; cbn in *; try done; [destruct Hg2; split; [lia|done]|destruct Hg2; split; [done|lia]].
  - eexists. split; [done|]. by split.
Qed.

Lemma running_short s rest : running s rest -> (length rest <= Z.to_nat total)%nat.
Proof. intros [_ _ _ _ _ _ _ H _]. unfold zlen in H. lia. Qed.

(** ** The states of a direction *)
Definition progress (t : TransferState) (count : Z) (r w : Wire) : Prop :=
  match t with
  | Running c => count = 0 /\ exists rest, running (c, r, w) rest
  | ShuttingDown n => count = 0 /\ n = total /\ wi_out w = tgt /\ no_errors (wi_ev w)
  | Done => count = total /\ wi_out w = tgt /\ wi_shut w = true
  end.
Definition rank (t : TransferState) : nat := match t with Running _ => 2 | ShuttingDown _ => 1 | Done => 0 end.

(** What a step of a direction does: it comes closer to its end, or is done,
    or has used up a wait; it leaves the other half of the streams alone. *)
Record stepped (f : Flow) (t : TransferState) (r w : Wire) (t' : TransferState) (r' w' : Wire) : Prop := {
  sp_ev : wi_ev r' = wi_ev r;
  sp_out : wi_out r' = wi_out r;
  sp_shut : wi_shut r' = wi_shut r;
  sp_in : wi_in w' = wi_in w;
  sp_pend : (waits (wi_in r') + blocks (wi_ev w') <= waits (wi_in r) + blocks (wi_ev w))%nat;
  sp_flow : match f with
            | Again _ => (rank t' < rank t)%nat
            | Fall => (t = Done /\ t' = Done) \/
                      (rank t' = rank t /\ waits (wi_in r') + blocks (wi_ev w') < waits (wi_in r) + blocks (wi_ev w))%nat
            | _ => False
            end;
}.

Lemma shutdown_goes fuel now d m r w : progress (ShuttingDown m) 0 r w ->
  exists f t' n' w', transfer oc fuel now d (ShuttingDown m) 0 r w = Some (f, t', n', r, w') /\ progress t' n' r w' /\
    stepped f (ShuttingDown m) r w t' r w'.
Proof.
  intros (_ & -> & Hout & Hne). cbn. unfold wire_ready. assert (in_width 64 (0 + total)) as Hw by (unfold in_width; lia).
  destruct (wi_ev w) as [|[k| |e] ev] eqn:E; rewrite ?(arith_ok oc 64 _ Hw).
  - do 4 eexists. split; [done|]. split; [done|]. constructor; cbn; try done; lia.
  - do 4 eexists. split; [done|]. split; [done|]. constructor; cbn; try done; lia.
  - do 4 eexists. split; [done|]. split; [cbn; split_and!; try done; by inversion Hne|]. constructor; cbn; rewrite ?E; cbn; try done; [lia|].
    right. split; [done|lia].
  - inversion Hne as [|? ? H _]. by destruct (H e).
Qed.

Lemma transfer_goes fuel now d t n r w : progress t n r w -> delay_over now d = false -> (Z.to_nat total + 1 < fuel)%nat ->
  exists f t' n' r' w', transfer oc fuel now d t n r w = Some (f, t', n', r', w') /\ progress t' n' r' w' /\ stepped f t r w t' r' w'.
Proof.
  intros Hp Hd Hf. destruct t as [c|m|].
  - destruct Hp as (-> & rest & Hr). pose proof (running_short _ _ Hr) as Hl. cbn [transfer].
    destruct (poll_copy_goes fuel _ _ Hr) as (o & -> & Ho & Hg); [destruct (decide _); lia|].
    destruct o as [p [[c' r'] w']]. destruct Ho as [O1 O2 O3 O4 O5]. unfold pend in Hg. cbn in *.
    destruct p as [[k| |]|]; try done.
    + destruct Hg as (Hpe & -> & Hout & Hne). do 5 eexists. split; [done|]. split; [done|]. by constructor; cbn; try lia.
    + destruct Hg as ((rest' & Hr') & Hpe). rewrite Hd. do 5 eexists. split; [done|]. split; [by split; [|eexists]|].
      constructor; try done; [lia|by right].
  - pose proof Hp as (-> & _). destruct (shutdown_goes fuel now d m r w Hp) as (f & t' & n' & w' & H). by exists f, t', n', r, w'.
  - destruct Hp as (-> & Ho & Hs). do 5 eexists. split; [done|]. split; [done|]. constructor; try done. by left.
Qed.
End wires.

Lemma progress_ext tgt total t n r w r' w' : progress tgt total t n r w ->
  wi_in r' = wi_in r -> wi_out w' = wi_out w -> wi_ev w' = wi_ev w -> wi_shut w' = wi_shut w -> progress tgt total t n r' w'.
Proof.
  intros Hp H1 H2 H3 H4. destruct t as [c|m|]; cbn in *; rewrite ?H2, ?H3, ?H4; [|done|done].
  destruct Hp as (-> & rest & [K1 K2 K3 K4 K5 K6 K7 K8 K9]). split; [done|]. exists rest. cbn in *.
  constructor; cbn; rewrite ?H1, ?H2, ?H3; done.
Qed.

(** ** Both directions *)
Section both.
Context (oc : bool) (oa ob da db : list Z) (t0 window : Z).
Hypothesis Hda : zlen da < 2 ^ 64.
Hypothesis Hdb : zlen db < 2 ^ 64.
Abbreviation CB := (CopyBidirectional Wire Wire).

(** [oa] and [ob] are what had been written before, [da] and [db] what the
    streams bring; all polls are within [window] after [t0], and the
    timeouts are longer. *)
Record going (s : CB) : Prop := {
  go_left : progress (ob ++ da) (zlen da) (a_to_b s) (a_to_b_count s) (cb_a s) (cb_b s);
  go_right : progress (oa ++ db) (zlen db) (b_to_a s) (b_to_a_count s) (cb_b s) (cb_a s);
  go_ld : forall d, a_to_b_delay s = Some d -> t0 + window <= d;
  go_rd : forall d, b_to_a_delay s = Some d -> t0 + window <= d;
  go_lt : window <= a_to_b_timeout_duration s;
  go_rt : window <= b_to_a_timeout_duration s;
}.
Definition total_pend (s : CB) : nat :=
  waits (wi_in (cb_a s)) + blocks (wi_ev (cb_b s)) + (waits (wi_in (cb_b s)) + blocks (wi_ev (cb_a s))).
Definition enough (fuel : nat) : Prop := (length da + length db + 1 < fuel)%nat.

Lemma not_over now d : t0 <= now < t0 + window -> (forall x, d = Some x -> t0 + window <= x) -> delay_over now d = false.
Proof. intros Hn Hd. destruct d as [x|]; cbn; [|done]. apply Z.leb_gt. specialize (Hd x eq_refl). lia. Qed.

(** Half a round: the direction gets closer to its end, or a wait is used
    up, or it is done. *)
Definition half_post (mine : CB -> TransferState) (s : CB) (f : Flow) (s' : CB) : Prop :=
  going s' /\ (total_pend s' <= total_pend s)%nat /\
  match f with
  | Again _ => (rank (mine s') < rank (mine s))%nat
  | Fall => rank (mine s') = rank (mine s) /\ (mine s' = Done \/ (total_pend s' < total_pend s)%nat)
  | _ => False
  end.

Lemma zlen_nat {A} (l : list A) : Z.to_nat (zlen l) = length l.
Proof. unfold zlen. lia. Qed.

Lemma new_delay now dur (f : Flow) (old : option Z) : t0 <= now -> window <= dur -> (forall d, old = Some d -> t0 + window <= d) ->
  forall d, (if f is Again true then Some (now + dur) else old) = Some d -> t0 + window <= d.
Proof. intros Hn Hd Ho d. destruct f as [[]| | |]; try apply Ho. intros [= <-]. lia. Qed.

Lemma left_goes fuel now s : going s -> enough fuel -> t0 <= now < t0 + window ->
  exists f s', left_half oc fuel now s = Some (f, s') /\ half_post a_to_b s f s' /\ b_to_a s' = b_to_a s.
Proof.
  intros Hg Hf Hn. pose proof Hg as [G1 G2 G3 G4 G5 G6]. unfold enough in Hf.
  destruct (transfer_goes oc (ob ++ da) (zlen da) (conj (zlen_nonneg _) Hda) fuel now _ _ _ _ _ G1 (not_over now _ Hn G3))
    as (f & t' & n' & r' & w' & E & Hp & [S1 S2 S3 S4 S5 S6]); [rewrite zlen_nat; lia|].
  unfold left_half. rewrite E. cbn. do 2 eexists. split; [done|]. split; [|done]. split_and!.
  - constructor; cbn; try done; [by eapply progress_ext|]. apply new_delay; [lia|done|done].
  - unfold total_pend. cbn. rewrite S1, S4. lia.
  - unfold total_pend. cbn. rewrite S1, S4. destruct f; try done. destruct S6 as [[-> ->]|[-> S6]]; [by split; [|left]|split; [done|right; lia]].
Qed.
Lemma right_goes fuel now s : going s -> enough fuel -> t0 <= now < t0 + window ->
  exists f s', right_half oc fuel now s = Some (f, s') /\ half_post b_to_a s f s' /\ a_to_b s' = a_to_b s.
Proof.
  intros Hg Hf Hn. pose proof Hg as [G1 G2 G3 G4 G5 G6]. unfold enough in Hf.
  destruct (transfer_goes oc (oa ++ db) (zlen db) (conj (zlen_nonneg _) Hdb) fuel now _ _ _ _ _ G2 (not_over now _ Hn G4))
    as (f & t' & n' & r' & w' & E & Hp & [S1 S2 S3 S4 S5 S6]); [rewrite zlen_nat; lia|].
  unfold right_half. rewrite E. cbn. do 2 eexists. split; [done|]. split; [|done]. split_and!.
  - constructor; cbn; try done; [by eapply progress_ext|]. apply new_delay; [lia|done|done].
  - unfold total_pend. cbn. rewrite S1, S4. lia.
  - unfold total_pend. cbn. rewrite S1, S4. destruct f; try done. destruct S6 as [[-> ->]|[-> S6]]; [by split; [|left]|split; [done|right; lia]].
Qed.

(** A poll returns both counts or has used up a wait. *)
Lemma rounds_go rounds fuel now s : going s -> enough fuel -> t0 <= now < t0 + window ->
  (rank (a_to_b s) + rank (b_to_a s) < rounds)%nat ->
  exists p s', poll_rounds oc rounds fuel now s = Some (p, s') /\ going s' /\
    ((p = CpReady (zlen da) (zlen db) /\ a_to_b s' = Done /\ b_to_a s' = Done) \/ (p = CpPending /\ total_pend s' < total_pend s)%nat).
Proof.
  intros Hg Hf Hn. revert s Hg. induction rounds as [|rounds IH]; intros s Hg Hr; [lia|]. cbn.
  destruct (left_goes fuel now s Hg Hf Hn) as (f & s1 & -> & (Hg1 & Hp1 & Hf1) & Hb). cbn.
  destruct f as [x| |e|]; [| |done|done].
  { destruct (IH s1 Hg1) as (p & s' & E & Hg' & H); [rewrite Hb; lia|]. exists p, s'. split_and!; [done|done|]. destruct H as [?|[? ?]]; [by left|right; split; [done|lia]]. }
  destruct (right_goes fuel now s1 Hg1 Hf Hn) as (f & s2 & -> & (Hg2 & Hp2 & Hf2) & Ha). cbn.
  destruct f as [x| |e|]; [| |done|done].
  { destruct (IH s2 Hg2) as (p & s' & E & Hg' & H); [rewrite Ha; rewrite Hb in Hf2; lia|]. exists p, s'. split_and!; [done|done|]. destruct H as [?|[? ?]]; [by left|right; split; [done|lia]]. }
  destruct Hf1 as [R1 Hf1], Hf2 as [R2 Hf2]. rewrite <- Ha in Hf1.
  destruct (a_to_b s2) eqn:Ea; [destruct Hf1 as [?|Hf1]; [done|]; do 2 eexists; (split_and!; [done|done|right; split; [done|lia]])..|].
  destruct (b_to_a s2) eqn:Eb; [destruct Hf2 as [?|Hf2]; [done|]; do 2 eexists; (split_and!; [done|done|right; split; [done|lia]])..|].
  do 2 eexists. split_and!; [done|done|]. left. destruct Hg2 as [K1 K2 _ _ _ _]. rewrite Ea in K1. rewrite Eb in K2.
  by destruct K1 as [-> _], K2 as [-> _].
Qed.

(** The future polled at given times until it is ready. *)
Fixpoint run_polls (fuel : nat) (nows : list Z) (s : CB) : option (CopyPoll * CB) :=
  match nows with
  | [] => Some (CpPending, s)
  | now :: nows' =>
    match copy_poll oc fuel now s with
    | Some (CpPending, s') => run_polls fuel nows' s'
    | r => r
    end
  end.

Lemma polls_finish fuel nows s : going s -> enough fuel -> Forall (fun now => t0 <= now < t0 + window) nows ->
  (total_pend s < length nows)%nat ->
  exists s', run_polls fuel nows s = Some (CpReady (zlen da) (zlen db), s') /\ going s' /\ a_to_b s' = Done /\ b_to_a s' = Done.
Proof.
  intros Hg Hf Hn. revert s Hg. induction nows as [|now nows IH]; intros s Hg Hl; cbn in Hl; [lia|].
  inversion Hn as [|? ? Hnow Hnows]; subst. cbn [run_polls]. unfold copy_poll.
  destruct (rounds_go 5 fuel now s Hg Hf Hnow) as (p & s1 & -> & Hg1 & H).
  { assert (forall t, rank t <= 2)%nat as Hrk by (intros []; cbn; lia). pose proof (Hrk (a_to_b s)). pose proof (Hrk (b_to_a s)). lia. }
  destruct H as [(-> & H1 & H2)|[-> H]]; [by exists s1|]. apply IH; [done|done|lia].
Qed.
End both.

(** C22: copying finishes.  If both streams end without an error and take
    what they are offered, however they cut and delay the bytes, then
    polling the copy returns after at most one more poll than there are
    waits, before a timeout is reached, with the two byte counts; each side
    has then received exactly what the other brought and is shut down. *)
Theorem copy_finishes (oc : bool) (a b : Wire) (da db : list Z) (size : nat) (ta tb t0 : Z) (nows : list Z)
    (Ha : incoming (wi_in a) = Some da) (Hb : incoming (wi_in b) = Some db)
    (Hea : no_errors (wi_ev a)) (Heb : no_errors (wi_ev b))
    (Hda : (length da <= accepts (wi_ev b))%nat) (Hdb : (length db <= accepts (wi_ev a))%nat)
    (Hsize : (0 < size)%nat) (Hla : zlen da < 2 ^ 64) (Hlb : zlen db < 2 ^ 64)
    (Hnows : Forall (fun now => t0 <= now < t0 + Z.min ta tb) nows)
    (Hmany : (waits (wi_in a) + blocks (wi_ev b) + (waits (wi_in b) + blocks (wi_ev a)) < length nows)%nat) :
  exists s, run_polls oc (length da + length db + 2) nows (copy_buf_bidirectional_with_timeout a b size ta tb) =
      Some (CpReady (zlen da) (zlen db), s) /\
    wi_out (cb_b s) = wi_out b ++ da /\ wi_out (cb_a s) = wi_out a ++ db /\
    wi_shut (cb_a s) = true /\ wi_shut (cb_b s) = true.
Proof.
  destruct (polls_finish oc (wi_out a) (wi_out b) da db t0 (Z.min ta tb) Hla Hlb (length da + length db + 2) nows
    (copy_buf_bidirectional_with_timeout a b size ta tb)) as (s & E & [G1 G2 _ _ _ _] & Ed1 & Ed2).
  - assert (forall r w d (o : list Z), incoming (wi_in r) = Some d -> no_errors (wi_ev w) -> (length d <= accepts (wi_ev w))%nat ->
      zlen d < 2 ^ 64 -> running (wi_out w ++ d) (zlen d) (new_with_capacity size, r, w) d) as Hrun.
    { intros r w d _ H1 H2 H3 H4. constructor; cbn; try done; rewrite ?length_replicate; try lia. }
    constructor; cbn; try done; [split; [done|exists da; by apply Hrun]|split; [done|exists db; by apply Hrun]|lia|lia].
  - unfold enough. lia.
  - done.
  - done.
  - exists s. rewrite Ed1 in G1. rewrite Ed2 in G2. destruct G1 as (_ & ? & ?), G2 as (_ & ? & ?). by split_and!.
Qed.

(** ** Witnesses *)
Definition demo_left : Wire := {|
  wi_in := [RdData 1 [2; 3]; RdPending; RdData 4 []; RdEof];
  wi_ev := [WrPending; WrAccept 0; WrAccept 5]; wi_out := []; wi_shut := false |}.
Definition demo_right : Wire := {|
  wi_in := [RdPending; RdData 9 [8]; RdEof];
  wi_ev := [WrAccept 0; WrAccept 1; WrPending; WrAccept 0; WrAccept 7]; wi_out := [7]; wi_shut := false |}.

Lemma copy_finishes_witness : exists s,
  run_polls true 8 [0; 1; 2; 3; 4] (copy_buf_bidirectional_with_timeout demo_left demo_right 2 10 10) = Some (CpReady 4 2, s) /\
  wi_out (cb_b s) = [7; 1; 2; 3; 4] /\ wi_out (cb_a s) = [9; 8] /\ wi_shut (cb_a s) = true /\ wi_shut (cb_b s) = true.
Proof.
  apply (copy_finishes true demo_left demo_right [1; 2; 3; 4] [9; 8] 2 10 10 0 [0; 1; 2; 3; 4]);
    [reflexivity|reflexivity|by repeat constructor|by repeat constructor|cbn; lia|cbn; lia|lia|reflexivity|reflexivity| |cbn; lia].
  repeat constructor; lia.
Defined.

Definition demo_logged : CopyBidirectional (Logged Wire) (Logged Wire) :=
  copy_buf_bidirectional_with_timeout (logged demo_left) (logged demo_right) 2 10 10.
Definition demo_after : CopyBidirectional (Logged Wire) (Logged Wire) :=
  from_option snd demo_logged (copy_poll true 8 0 demo_logged).
Lemma copy_transparent_witness : rtc (polled true) demo_logged demo_after /\
  lg_in (cb_a demo_after) = [1; 2; 3] /\ lg_out (cb_b demo_after) `prefix_of` lg_in (cb_a demo_after).
Proof.
  assert (rtc (polled true) demo_logged demo_after) as Hr.
  { apply rtc_once. exists 8%nat, 0, CpPending. split; [vm_compute; reflexivity|done]. }
  split; [done|]. split; [vm_compute; reflexivity|].
  apply (copy_transparent true demo_left demo_right 2 10 10 demo_after Hr).
Defined.
