(* ===== verification/Splice.v ===== *)
(** * Zero copy between two TCP connections ([clash-lib/src/common/io/splice.rs])

    On Linux, when the client and the outbound are both plain TCP
    connections, [copy_bidirectional] moves the bytes through two kernel
    pipes with [splice] instead of buffers of its own.  The socket and the
    pipe are modelled as the kernel shows them, and the loop is shown to do
    exactly what the buffered copy of [Copy] does over the same sockets. *)

From S2P Require Import Prelude Async Copy.

(** ** The socket

    What the next attempts to read and write meet: the socket is not ready
    and the task sleeps, it is ready but the call would block, or it moves
    bytes.  An empty schedule is never ready again. *)
Inductive InEv : Type := InNotReady | InAgain | InData (b : Z) (bs : list Z) | InEof | InErr (e : string).
Inductive OutEv : Type := OutNotReady | OutAgain | OutTake (n : nat) | OutErr (e : string).
Record TcpStream : Type := { ts_in : list InEv; ts_ev : list OutEv; ts_out : list Z; ts_shutdown : res unit; ts_shut : bool }.
Definition with_in (i : list InEv) (s : TcpStream) : TcpStream :=
  {| ts_in := i; ts_ev := ts_ev s; ts_out := ts_out s; ts_shutdown := ts_shutdown s; ts_shut := ts_shut s |}.
Definition with_out (e : list OutEv) (bs : list Z) (s : TcpStream) : TcpStream :=
  {| ts_in := ts_in s; ts_ev := e; ts_out := ts_out s ++ bs; ts_shutdown := ts_shutdown s; ts_shut := ts_shut s |}.

(** The outcome of a system call that does not block. *)
Inductive Try (A : Type) : Type := TryDone (a : A) | WouldBlock | TryFailed (e : string).
Arguments TryDone {A} a.
Arguments WouldBlock {A}.
Arguments TryFailed {A} e.

(* @src clash-lib/src/common/io/splice.rs 402 404 Stream::poll_read_ready_n *)
Definition poll_read_ready (s : TcpStream) : Poll (res unit) * TcpStream :=
  match ts_in s with
  | [] => (Pending, s)
  | InNotReady :: i => (Pending, with_in i s)
  | _ => (Ready (Ok tt), s)
  end.
(* @src clash-lib/src/common/io/splice.rs 407 409 Stream::poll_write_ready_n *)
Definition poll_write_ready (s : TcpStream) : Poll (res unit) * TcpStream :=
  match ts_ev s with
  | [] => (Pending, s)
  | OutNotReady :: e => (Pending, with_out e [] s)
  | _ => (Ready (Ok tt), s)
  end.
(** At most [room] bytes of the socket; without room, or bytes, the call
    would block. *)
Definition try_recv (room : nat) (s : TcpStream) : Try (list Z) * TcpStream :=
  if (room =? 0)%nat then (WouldBlock, s) else
  match ts_in s with
  | InData b bs :: i => (TryDone (take room (b :: bs)), with_in (match drop room (b :: bs) with [] => i | b' :: bs' => InData b' bs' :: i end) s)
  | InEof :: _ => (TryDone [], s)
  | InErr e :: i => (TryFailed e, with_in i s)
  | _ :: i => (WouldBlock, with_in i s)
  | [] => (WouldBlock, s)
  end.
(** The socket takes at least a byte of what it is offered; with nothing to
    offer (an empty pipe) the call would block. *)
Definition try_send (bs : list Z) (s : TcpStream) : Try nat * TcpStream :=
  match bs with
  | [] => (WouldBlock, s)
  | _ =>
    match ts_ev s with
    | OutTake n :: e => (TryDone (accepted n bs), with_out e (take (accepted n bs) bs) s)
    | OutErr m :: e => (TryFailed m, with_out e [] s)
    | _ :: e => (WouldBlock, with_out e [] s)
    | [] => (WouldBlock, s)
    end
  end.

(** The loop around such a call: wait until the socket is ready, try, and
    wait again when it would have blocked.  [fuel] rounds; without an end the
    thread spins. *)
Fixpoint ready_loop {A} (fuel : nat) (ready : TcpStream -> Poll (res unit) * TcpStream) (try : TcpStream -> Try A * TcpStream) : PM TcpStream A := fun s =>
  match fuel with
  | O => (Ready Panic, s)
  | S fuel' =>
    match ready s with
    | (Ready (Ok _), s) =>
      match try s with
      | (TryDone a, s) => (Ready (Ok a), s)
      | (WouldBlock, s) => ready_loop fuel' ready try s
      | (TryFailed e, s) => (Ready (Err e), s)
      end
    | (Ready (Err e), s) => (Ready (Err e), s)
    | (Ready Panic, s) => (Ready Panic, s)
    | (Pending, s) => (Pending, s)
    end
  end.
(** tokio's own reads and writes of the socket. *)
#[global] Instance tcp_read : AsyncRead TcpStream := fun cap s =>
  if (cap =? 0)%nat then (Ready (Ok []), s) else ready_loop (S (length (ts_in s))) poll_read_ready (try_recv cap) s.
#[global] Instance tcp_write : AsyncWrite TcpStream := {|
  poll_write := fun bs s =>
    match bs with [] => (Ready (Ok 0%nat), s) | _ => ready_loop (S (length (ts_ev s))) poll_write_ready (try_send bs) s end;
  poll_flush := fun s => (Ready (Ok tt), s);
  poll_shutdown := fun s =>
    (Ready (ts_shutdown s), match ts_shutdown s with
      | Ok _ => {| ts_in := ts_in s; ts_ev := ts_ev s; ts_out := ts_out s; ts_shutdown := ts_shutdown s; ts_shut := true |}
      | _ => s end) |}.

(** ** One direction *)
(* @src clash-lib/src/common/io/splice.rs 22 22 PIPE_SIZE *)
Definition PIPE_SIZE : nat := Z.to_nat 65536.
(** The pipe is the bytes in it; it holds [PIPE_SIZE]. *)
(* @src clash-lib/src/common/io/splice.rs ~^struct CopyBuffer<R, W> ~ CopyBuffer *)
Record PipeBuffer : Type := { zread_done : bool; zneed_flush : bool; zpos : nat; zcap : nat; zamt : Z; zpipe : list Z }.
(* @src clash-lib/src/common/io/splice.rs ~    fn new\(buf: Pipe\)~ CopyBuffer::new *)
Definition pipe_new : PipeBuffer := {| zread_done := false; zneed_flush := false; zpos := 0; zcap := 0; zamt := 0; zpipe := [] |}.

Definition zreset (z : PipeBuffer) : PipeBuffer :=
  {| zread_done := zread_done z; zneed_flush := zneed_flush z; zpos := 0; zcap := 0; zamt := zamt z; zpipe := zpipe z |}.
Definition zfilled (bs : list Z) (z : PipeBuffer) : PipeBuffer :=
  {| zread_done := if (zcap z =? length bs)%nat then true else zread_done z; zneed_flush := zneed_flush z; zpos := zpos z;
     zcap := length bs; zamt := zamt z; zpipe := zpipe z ++ bs |}.
Definition zdrained (n : nat) (z : PipeBuffer) : PipeBuffer :=
  {| zread_done := zread_done z; zneed_flush := zneed_flush z; zpos := zpos z; zcap := zcap z; zamt := zamt z; zpipe := drop n (zpipe z) |}.
Definition zwritten (n : nat) (a : Z) (z : PipeBuffer) : PipeBuffer :=
  {| zread_done := zread_done z; zneed_flush := true; zpos := zpos z + n; zcap := zcap z; zamt := a; zpipe := zpipe z |}.
Definition zset_flush (b : bool) (z : PipeBuffer) : PipeBuffer :=
  {| zread_done := zread_done z; zneed_flush := b; zpos := zpos z; zcap := zcap z; zamt := zamt z; zpipe := zpipe z |}.

Section splice.
Context (oc : bool).
Abbreviation ZS := (PipeBuffer * TcpStream * TcpStream)%type.
Definition zreading {A} (m : PM TcpStream A) : PM ZS A := zoom (fun s => s.1.2) (fun r s => (s.1.1, r, s.2)) m.
Definition zwriting {A} (m : PM TcpStream A) : PM ZS A := zoom (fun s => s.2) (fun w s => (s.1, w)) m.
Definition zwith {A} (f : PipeBuffer -> PM ZS A) : PM ZS A := fun s => f s.1.1 s.
Definition zset (f : PipeBuffer -> PipeBuffer) : PM ZS unit := modify (fun s => (f s.1.1, s.1.2, s.2)).

(** [splice] from the socket into the pipe. *)
(* @src clash-lib/src/common/io/splice.rs ~    fn poll_fill_buf~ CopyBuffer::poll_fill_buf *)
Definition poll_fill_buf : PM ZS nat := zwith (fun z =>
  bs ← zreading (fun r => ready_loop (S (length (ts_in r))) poll_read_ready (try_recv (PIPE_SIZE - length (zpipe z))) r);
  _ ← zset (zfilled bs);
  mret (length bs)).
(** [splice] from the pipe into the socket. *)
(* @src clash-lib/src/common/io/splice.rs ~    fn poll_write_buf~ CopyBuffer::poll_write_buf *)
Definition poll_write_buf : PM ZS nat := zwith (fun z =>
  n ← zwriting (fun w => ready_loop (S (length (ts_ev w))) poll_write_ready (try_send (take (zcap z - zpos z) (zpipe z))) w);
  _ ← zset (zdrained n);
  mret n).
(* @src clash-lib/src/common/io/splice.rs ~    fn poll_flush_buf~ CopyBuffer::poll_flush_buf *)
Definition poll_flush_buf : PM ZS unit := zwriting poll_flush.

(* @src clash-lib/src/common/io/splice.rs 292 313 CopyBuffer::poll_copy (read) *)
Definition zfill : PM ZS unit := zwith (fun z =>
  if (zpos z =? zcap z)%nat && negb (zread_done z) then
    _ ← zset zreset;
    ((fun s => match poll_fill_buf s with
      | (Ready (Ok _), s) => (Ready (Ok tt), s)
      | (Ready (Err e), s) => (Ready (Err e), s)
      | (Ready Panic, s) => (Ready Panic, s)
      | (Pending, s) =>
        if zneed_flush s.1.1 then (_ ← poll_flush_buf; _ ← zset (zset_flush false); pending : PM ZS unit) s
        else (Pending, s)
      end) : PM ZS unit)
  else mret tt).
(** Every round writes a byte, so as many rounds as there are bytes are
    enough. *)
(* @src clash-lib/src/common/io/splice.rs 315 330 CopyBuffer::poll_copy (write) *)
Fixpoint zdrain (fuel : nat) : PM ZS unit := zwith (fun z =>
  if (zpos z <? zcap z)%nat then
    match fuel with
    | O => fail Panic
    | S fuel' =>
      size ← poll_write_buf;
      if (size =? 0)%nat then fail (Err "write zero byte into writer")
      else
        a ← fail (arith oc 64 (zamt z + Z.of_nat size));
        _ ← zset (zwritten size a);
        zdrain fuel'
    end
  else mret tt).
Definition zround : PM ZS (option Z) :=
  _ ← zfill;
  _ ← zwith (fun z => zdrain (zcap z - zpos z));
  _ ← zwith (fun z => if oc && (zcap z <? zpos z)%nat then fail Panic else mret tt);
  zwith (fun z =>
    if (zpos z =? zcap z)%nat && zread_done z then _ ← poll_flush_buf; mret (Some (zamt z))
    else mret None).
(* @src clash-lib/src/common/io/splice.rs ~    fn poll_copy\(~ CopyBuffer::poll_copy *)
Fixpoint zpoll_copy (fuel : nat) (s : ZS) : option (Poll (res Z) * ZS) :=
  match fuel with
  | O => None
  | S fuel' =>
    match zround s with
    | (Ready (Ok None), s) => zpoll_copy fuel' s
    | (Ready (Ok (Some n)), s) => Some (Ready (Ok n), s)
    | (Ready (Err e), s) => Some (Ready (Err e), s)
    | (Ready Panic, s) => Some (Ready Panic, s)
    | (Pending, s) => Some (Pending, s)
    end
  end.
End splice.

(** ** Both directions *)
(* @src clash-lib/src/common/io/splice.rs ~^enum TransferState~ TransferState *)
Inductive ZTransfer : Type := ZRunning (z : PipeBuffer) | ZShuttingDown (count : Z) | ZDone.
(** [write_tracked] and [read_tracked]: what the trackers were told, from
    [a] to [b] and from [b] to [a]. *)
(* @src clash-lib/src/common/io/splice.rs ~^struct CopyBidirectional~ CopyBidirectional *)
Record ZCopy : Type := {
  za : TcpStream; zb : TcpStream; za_to_b : ZTransfer; zb_to_a : ZTransfer; za_to_b_count : Z; zb_to_a_count : Z;
  za_to_b_delay : option Z; zb_to_a_delay : option Z; za_to_b_timeout : Z; zb_to_a_timeout : Z;
  write_tracked : list Z; read_tracked : list Z }.
(* @src clash-lib/src/common/io/splice.rs 443 471 CopyBidirectional::new *)
Definition zcopy_new (a b : TcpStream) (ta tb : Z) : ZCopy := {|
  za := a; zb := b; za_to_b := ZRunning pipe_new; zb_to_a := ZRunning pipe_new; za_to_b_count := 0; zb_to_a_count := 0;
  za_to_b_delay := None; zb_to_a_delay := None; za_to_b_timeout := ta; zb_to_a_timeout := tb; write_tracked := []; read_tracked := [] |}.
(** Two pipes are made first; a failure ends the copy before it begins. *)
(* @src clash-lib/src/common/io/splice.rs ~^pub async fn zero_copy_bidirectional~ zero_copy_bidirectional *)
Definition zero_copy_bidirectional (pipe1 pipe2 : res unit) (a b : TcpStream) (ta tb : Z) : res ZCopy :=
  _ ← pipe1; _ ← pipe2; Ok (zcopy_new a b ta tb).

(** What a match arm ends in, with the error it returns. *)
Inductive ZFlow : Type := ZAgain (closed : bool) | ZFall | ZClosed (e : string) | ZFailed (e : string) | ZCrashed.
Section half.
Context (oc : bool).
(** One direction, with what its tracker was told. *)
(* @src clash-lib/src/common/io/splice.rs 498 546 CopyBidirectional::poll (a_to_b) *)
Definition ztransfer (fuel : nat) (now : Z) (delay : option Z) (t : ZTransfer) (count : Z) (tracked : list Z) (r w : TcpStream) :
    option (ZFlow * ZTransfer * Z * list Z * TcpStream * TcpStream) :=
  match t with
  | ZRunning z =>
    '(p, (z, r, w)) ← zpoll_copy oc fuel (z, r, w);
    Some match p with
    | Ready (Ok n) => (ZAgain false, ZShuttingDown n, count, tracked, r, w)
    | Ready (Err e) => (ZFailed e, ZRunning z, count, tracked ++ [zamt z], r, w)
    | Ready Panic => (ZCrashed, ZRunning z, count, tracked, r, w)
    | Pending => if delay_over now delay then (ZAgain false, ZShuttingDown (zamt z), count, tracked, r, w)
                 else (ZFall, ZRunning z, count, tracked, r, w)
    end
  | ZShuttingDown n =>
    let '(p, w) := poll_shutdown w in
    Some match p with
    | Ready (Ok _) =>
      match arith oc 64 (count + n) with
      | Ok count => (ZAgain true, ZDone, count, tracked ++ [n], r, w)
      | _ => (ZCrashed, ZShuttingDown n, count, tracked, r, w)
      end
    | Ready (Err e) => (ZClosed e, ZShuttingDown n, count, tracked, r, w)
    | Ready Panic => (ZCrashed, ZShuttingDown n, count, tracked, r, w)
    | Pending => (ZFall, ZShuttingDown n, count, tracked, r, w)
    end
  | ZDone => Some (ZFall, ZDone, count, tracked, r, w)
  end.
Definition zleft (fuel : nat) (now : Z) (s : ZCopy) : option (ZFlow * ZCopy) :=
  '(f, t, n, tr, a, b) ← ztransfer fuel now (za_to_b_delay s) (za_to_b s) (za_to_b_count s) (write_tracked s) (za s) (zb s);
  Some (f, {| za := a; zb := b; za_to_b := t; zb_to_a := zb_to_a s; za_to_b_count := n; zb_to_a_count := zb_to_a_count s;
              za_to_b_delay := za_to_b_delay s;
              zb_to_a_delay := if f is ZAgain true then Some (now + zb_to_a_timeout s) else zb_to_a_delay s;
              za_to_b_timeout := za_to_b_timeout s; zb_to_a_timeout := zb_to_a_timeout s; write_tracked := tr; read_tracked := read_tracked s |}).
(* @src clash-lib/src/common/io/splice.rs 548 600 CopyBidirectional::poll (b_to_a) *)
Definition zright (fuel : nat) (now : Z) (s : ZCopy) : option (ZFlow * ZCopy) :=
  '(f, t, n, tr, b, a) ← ztransfer fuel now (zb_to_a_delay s) (zb_to_a s) (zb_to_a_count s) (read_tracked s) (zb s) (za s);
  Some (f, {| za := a; zb := b; za_to_b := za_to_b s; zb_to_a := t; za_to_b_count := za_to_b_count s; zb_to_a_count := n;
              za_to_b_delay := if f is ZAgain true then Some (now + za_to_b_timeout s) else za_to_b_delay s;
              zb_to_a_delay := zb_to_a_delay s;
              za_to_b_timeout := za_to_b_timeout s; zb_to_a_timeout := zb_to_a_timeout s; write_tracked := write_tracked s; read_tracked := tr |}).

(* @src clash-lib/src/common/io/splice.rs ~    fn poll\(mut self: Pin<&mut Self>, cx~ CopyBidirectional::poll *)
Fixpoint zpoll_rounds (rounds fuel : nat) (now : Z) (s : ZCopy) : option (CopyPoll * ZCopy) :=
  match rounds with
  | O => None
  | S rounds' =>
    '(f, s) ← zleft fuel now s;
    match f with
    | ZAgain _ => zpoll_rounds rounds' fuel now s
    | ZClosed e => Some (CpErr (LeftClosed e), s)
    | ZFailed e => Some (CpErr (Other e), s)
    | ZCrashed => Some (CpPanic, s)
    | ZFall =>
      '(f, s) ← zright fuel now s;
      match f with
      | ZAgain _ => zpoll_rounds rounds' fuel now s
      | ZClosed e => Some (CpErr (RightClosed e), s)
      | ZFailed e => Some (CpErr (Other e), s)
      | ZCrashed => Some (CpPanic, s)
      | ZFall =>
        match za_to_b s, zb_to_a s with
        | ZDone, ZDone => Some (CpReady (za_to_b_count s) (zb_to_a_count s), s)
        | _, _ => Some (CpPending, s)
        end
      end
    end
  end.
Definition zcopy_poll (fuel : nat) (now : Z) (s : ZCopy) : option (CopyPoll * ZCopy) := zpoll_rounds 5 fuel now s.
End half.

(** ** The choice ([copy_bidirectional] of [common/io/mod.rs]) *)
(** A stream is a plain TCP connection, or anything else; only for two of
    the first kind the kernel copies, past the [TrackedStream]. *)
Inductive AnyCopy (A B : Type) : Type := ZeroCopy (z : ZCopy) | Buffered (c : CopyBidirectional A B).
Arguments ZeroCopy {A B} z.
Arguments Buffered {A B} c.
(* @src clash-lib/src/common/io/mod.rs ~^pub async fn copy_bidirectional~ copy_bidirectional *)
Definition copy_bidirectional {A B} (zero_copy : bool) (a : A) (b : B) (a_raw b_raw : option TcpStream) (pipe1 pipe2 : res unit) (size : nat) (ta tb : Z) : res (AnyCopy A B) :=
  match zero_copy, a_raw, b_raw with
  | true, Some ra, Some rb => z ← zero_copy_bidirectional pipe1 pipe2 ra rb ta tb; Ok (ZeroCopy z)
  | _, _, _ => Ok (Buffered (copy_buf_bidirectional_with_timeout a b size ta tb))
  end.

(** * Theorems *)

(** ** The loops around the calls end *)
Lemma read_loop_ends room s fuel : (0 < room)%nat -> (length (ts_in s) < fuel)%nat -> fst (ready_loop fuel poll_read_ready (try_recv room) s) <> Ready Panic.
Proof.
  intros Hr. revert s. induction fuel as [|fuel IH]; intros s Hf; [lia|]. cbn [ready_loop]. unfold poll_read_ready at 1, try_recv at 1.
  destruct (Nat.eqb_spec room 0); [lia|]. destruct (ts_in s) as [|[] l] eqn:E; cbn [fst]; try done.
  - rewrite E. apply IH. cbn in *. lia.
  - by rewrite E.
  - by rewrite E.
  - by rewrite E.
Qed.
Lemma write_loop_ends bs s fuel : bs <> [] -> (length (ts_ev s) < fuel)%nat -> fst (ready_loop fuel poll_write_ready (try_send bs) s) <> Ready Panic.
Proof.
  intros Hb. revert s. induction fuel as [|fuel IH]; intros s Hf; [lia|]. cbn [ready_loop]. unfold poll_write_ready at 1, try_send at 1.
  destruct bs as [|b bs]; [done|]. destruct (ts_ev s) as [|[] l] eqn:E; cbn [fst]; try done.
  - rewrite E. apply IH. cbn in *. lia.
  - by rewrite E.
  - by rewrite E.
Qed.

Lemma ready_loop_law {A} (P : A -> Prop) fuel ready try s a s' : (forall s b s', try s = (TryDone b, s') -> P b) ->
  ready_loop fuel ready try s = (Ready (Ok a), s') -> P a.
Proof.
  intros Hp. revert s. induction fuel as [|fuel IH]; intros s; [done|]. cbn [ready_loop].
  destruct (ready s) as [[[[]|e|]|] s1]; try done. destruct (try s1) as [[b| |e] s2] eqn:E; try done; [|apply IH].
  intros [= -> _]. eauto.
Qed.
Lemma try_recv_fits room s bs s' : try_recv room s = (TryDone bs, s') -> (length bs <= room)%nat.
Proof.
  unfold try_recv. destruct (room =? 0)%nat; [done|]. destruct (ts_in s) as [|[] l]; try done; intros [= <- _]; [|cbn; lia].
  rewrite length_take. lia.
Qed.
Lemma try_send_fits bs s n s' : try_send bs s = (TryDone n, s') -> (n <= length bs)%nat.
Proof. unfold try_send. destruct bs as [|b bs]; [done|]. destruct (ts_ev s) as [|[] l]; try done; intros [= <- _]. apply accepted_bound. Qed.
#[global] Instance tcp_read_laws : ReadLaws TcpStream.
Proof.
  intros cap s bs s'. unfold poll_read, tcp_read. destruct (Nat.eqb_spec cap 0) as [->|]; [intros [= <- _]; cbn; lia|].
  apply (ready_loop_law (fun b => length b <= cap)%nat). intros ? ? ?. apply try_recv_fits.
Qed.
#[global] Instance tcp_write_laws : WriteLaws TcpStream.
Proof.
  intros bs s n s'. cbn [poll_write tcp_write]. destruct bs as [|b bs]; [intros [= <- _]; cbn; lia|].
  apply (ready_loop_law (fun n => n <= length (b :: bs))%nat). intros ? ? ?. apply try_send_fits.
Qed.

(** ** One direction of the zero copy is one direction of the buffered copy *)
Record simulates (z : PipeBuffer) (c : CopyBuffer) : Prop := {
  sm_done : zread_done z = read_done c;
  sm_flush : zneed_flush z = need_flush c;
  sm_amt : zamt z = amt c;
  sm_range : in_width 64 (zamt z);
  sm_pos : (zpos z <= zcap z)%nat /\ (pos c <= cap c)%nat;
  sm_left : (zcap z - zpos z)%nat = (cap c - pos c)%nat;
  sm_buf : length (buf c) = PIPE_SIZE /\ (cap c <= PIPE_SIZE)%nat;
  sm_pipe : zpipe z = unwritten c;
}.
Lemma pipe_new_simulates : simulates pipe_new (new_with_capacity PIPE_SIZE).
Proof.
  constructor; try done; cbn [cap pos new_with_capacity buf].
  - by rewrite length_replicate; split; [|lia].
Qed.
Lemma simulates_empty z c : simulates z c -> (zpos z =? zcap z)%nat = (pos c =? cap c)%nat.
Proof. intros [? ? ? ? ? ? ? ?]. destruct (Nat.eqb_spec (zpos z) (zcap z)), (Nat.eqb_spec (pos c) (cap c)); try done; lia. Qed.
Lemma simulates_more z c : simulates z c -> (zpos z <? zcap z)%nat = (pos c <? cap c)%nat.
Proof. intros [? ? ? ? ? ? ? ?]. destruct (Nat.ltb_spec (zpos z) (zcap z)), (Nat.ltb_spec (pos c) (cap c)); try done; lia. Qed.

Abbreviation ZS := (PipeBuffer * TcpStream * TcpStream)%type.
Abbreviation CS := (CopyBuffer * TcpStream * TcpStream)%type.
Definition agree (x : ZS) (y : CS) : Prop := simulates x.1.1 y.1.1 /\ x.1.2 = y.1.2 /\ x.2 = y.2.
(** The same result, and unless that is a panic the same sockets and buffers
    that agree. *)
Definition same {A} (x : Poll (res A) * ZS) (y : Poll (res A) * CS) : Prop :=
  fst x = fst y /\ (fst x <> Ready Panic -> agree (snd x) (snd y)).

Lemma same_bind {A B} (m : PM ZS A) (f : A -> PM ZS B) (m' : PM CS A) (f' : A -> PM CS B) s s' :
  same (m s) (m' s') -> (forall a s s', agree s s' -> same (f a s) (f' a s')) ->
  same ((m ≫= f) s) ((m' ≫= f') s').
Proof.
  intros [H1 H2] Hf. unfold mbind, pm_bind. destruct (m s) as [p s1], (m' s') as [p' s1']. cbn [fst snd] in *. subst p'.
  destruct p as [[a|e|]|]; [by apply Hf, H2| | |]; split; try done; intros _; by apply H2.
Qed.

Lemma same_intro {A} (p : Poll (res A)) z c r w : simulates z c -> same (p, (z, r, w)) (p, (c, r, w)).
Proof. by split. Qed.

Lemma zfill_same s s' : agree s s' -> same (zfill s) (copy_fill s').
Proof.
  destruct s as [[z r] w], s' as [[c r'] w']. intros (Hs & E1 & E2). cbn [fst snd] in *. subst r' w'. unfold zfill, copy_fill, zwith, with_buf. cbn [fst snd].
  rewrite (simulates_empty z c Hs), (sm_done z c Hs). destruct ((pos c =? cap c)%nat && negb (read_done c)) eqn:E.
  2:{ by apply same_intro. }
  apply andb_prop in E as [He Hd]. apply Nat.eqb_eq in He. apply negb_true_iff in Hd. destruct Hs as [H1 H2 H3 H0 [H4 H5] H6 [H7 H8] H9].
  rewrite (unwritten_none c He) in H9.
  unfold mbind, pm_bind, zset, modify. cbn [fst snd]. unfold poll_fill_buf, zwith. cbn [fst snd zpipe zreset].
  rewrite H9. unfold mbind, pm_bind, zreading, zoom, reading. cbn [fst snd].
  unfold poll_read at 1, tcp_read. rewrite H7. destruct (Nat.eqb_spec PIPE_SIZE 0) as [E0|_]; [unfold PIPE_SIZE in E0; lia|].
  cbn [length]. rewrite Nat.sub_0_r. unfold zoom. cbn [fst snd].
  destruct (ready_loop (S (length (ts_in r))) poll_read_ready (try_recv PIPE_SIZE) r) as [p r1] eqn:Er.
  destruct p as [[bs|e|]|]; cbn [fst snd].
  - assert (length bs <= PIPE_SIZE)%nat as Hbs.
    { eapply (ready_loop_law (fun b => length b <= PIPE_SIZE)%nat); [|exact Er]. intros ? ? ?. apply try_recv_fits. }
    unfold zset, modify, mret, pm_ret. cbn [fst snd]. destruct bs as [|b bs].
    + unfold set_buf, modify. apply same_intro; constructor; cbn; try done; try lia.
      by rewrite H9, unwritten_end, (unwritten_none c He).
    + unfold set_buf, modify. apply same_intro; constructor; cbn [zread_done zfilled zreset zcap zneed_flush zamt zpos zpipe]; try done.
      * cbn. lia.
      * cbn [fst snd buf cap filled]. rewrite length_app, length_drop. lia.
      * by rewrite unwritten_filled, H9.
  - apply same_intro; constructor; cbn; try done; try lia. by rewrite H9, unwritten_none.
  - apply same_intro; constructor; cbn; try done; try lia. by rewrite H9, unwritten_none.
  - cbn [zneed_flush zreset]. rewrite H2. destruct (need_flush c) eqn:En.
    + apply same_intro; constructor; cbn; try done; try lia. by rewrite unwritten_flush, H9, unwritten_none.
    + apply same_intro; constructor; cbn; try done; try lia; [congruence|]. by rewrite H9, unwritten_none.
Qed.

Lemma zdrain_same oc fuel s s' : agree s s' -> same (zdrain oc fuel s) (copy_drain oc fuel s').
Proof.
  revert s s'. induction fuel as [|fuel IH]; intros [[z r] w] [[c r'] w']; intros (Hs & E1 & E2); cbn [fst snd] in *; subst r' w'; cbn [zdrain copy_drain];
    unfold zwith, with_buf; cbn [fst snd]; rewrite (simulates_more z c Hs); destruct (Nat.ltb_spec (pos c) (cap c)) as [Hlt|Hge]; try by apply same_intro.
  destruct Hs as [H1 H2 H3 H0 [H4 H5] H6 [H7 H8] H9].
  assert (length (unwritten c) = (cap c - pos c)%nat) as Hl by (apply unwritten_length; lia).
  assert (unwritten c <> []) as Hne by (intros E; rewrite E in Hl; cbn in Hl; lia).
  assert (take (zcap z - zpos z) (zpipe z) = unwritten c) as Ht by (rewrite H9, take_ge; [done|lia]).
  unfold mbind, pm_bind, poll_write_buf, zwith, zwriting, writing, zoom. cbn [fst snd]. rewrite Ht.
  unfold mbind, pm_bind, zoom. cbn [fst snd]. cbn [poll_write tcp_write].
  destruct (unwritten c) as [|b bs] eqn:Eu; [done|]. rewrite <- Eu in *. clear Hne.
  destruct (ready_loop (S (length (ts_ev w))) poll_write_ready (try_send (unwritten c)) w) as [p w1] eqn:Ew.
  destruct p as [[n|e|]|]; cbn [fst snd]; try by apply same_intro.
  assert (n <= length (unwritten c))%nat as Hn.
  { eapply (ready_loop_law (fun n => n <= length (unwritten c))%nat); [|exact Ew]. intros ? ? ?. apply try_send_fits. }
  unfold zset, modify, mret, pm_ret, fail. cbn [fst snd]. destruct (Nat.eqb_spec n 0) as [->|Hn0].
  { by apply same_intro; constructor. }
  cbn [zamt zdrained]. rewrite H3.
  destruct (arith oc 64 (amt c + Z.of_nat n)) as [a|e|] eqn:Ea; cbn [fst snd].
  - unfold set_buf, modify. cbn [fst snd]. apply IH. split_and!; try done. cbn [fst snd].
    constructor; cbn [zread_done zwritten zdrained zneed_flush zamt zpos zcap zpipe]; try done.
    + rewrite (arith_wrap oc 64 _ a) by done. by apply wrap_range.
    + cbn. lia.
    + cbn. lia.
    + by rewrite unwritten_written, H9.
  - by apply arith_not_err in Ea.
  - by split.
Qed.

Lemma zround_same oc s s' : agree s s' -> same (zround oc s) (copy_round oc s').
Proof.
  intros Ha. apply same_bind; [by apply zfill_same|]. clear s s' Ha. intros _ s s' Ha. apply same_bind.
  { unfold zwith, with_buf. destruct Ha as (Hs & E1 & E2). rewrite (sm_left _ _ Hs). by apply zdrain_same. }
  clear s s' Ha. intros _ s s' Ha. apply same_bind.
  { unfold zwith, with_buf. destruct Ha as (Hs & E1 & E2). pose proof (sm_pos _ _ Hs) as [H1 H2].
    destruct (Nat.ltb_spec (zcap s.1.1) (zpos s.1.1)), (Nat.ltb_spec (cap s'.1.1) (pos s'.1.1)); try lia. rewrite andb_false_r. by split. }
  clear s s' Ha. intros _ s s' Ha. destruct s as [[z r] w], s' as [[c r'] w'], Ha as (Hs & E1 & E2). cbn [fst snd] in *. subst r' w'.
  unfold zwith, with_buf. cbn [fst snd]. rewrite (simulates_empty z c Hs), (sm_done z c Hs), (sm_amt z c Hs).
  destruct (_ && _); by apply same_intro.
Qed.

Lemma pm_bind_ok {St A B} (m : PM St A) (f : A -> PM St B) s b s2 :
  (m ≫= f) s = (Ready (Ok b), s2) -> exists a s1, m s = (Ready (Ok a), s1) /\ f a s1 = (Ready (Ok b), s2).
Proof. unfold mbind, pm_bind. destruct (m s) as [[[a|e|]|] s1]; try done. eauto. Qed.
Lemma zround_amount oc s n s1 : zround oc s = (Ready (Ok (Some n)), s1) -> n = zamt s1.1.1.
Proof.
  intros H. apply pm_bind_ok in H as (? & s2 & _ & H). apply pm_bind_ok in H as (? & s3 & _ & H). apply pm_bind_ok in H as (? & s4 & _ & H).
  unfold zwith in H. destruct (_ && _); [|done]. by injection H as <- <-.
Qed.

(** Both loops stop, or neither. *)
Lemma zpoll_copy_same oc fuel s s' : agree s s' ->
  match zpoll_copy oc fuel s, poll_copy oc fuel s' with
  | Some x, Some y => same x y /\ forall n, fst x = Ready (Ok n) -> in_width 64 n
  | None, None => True
  | _, _ => False
  end.
Proof.
  revert s s'. induction fuel as [|fuel IH]; intros s s' Ha; [done|]. cbn [zpoll_copy poll_copy].
  pose proof (zround_same oc s s' Ha) as [H1 H2]. pose proof (zround_amount oc s) as Hn.
  destruct (zround oc s) as [p s1], (copy_round oc s') as [p' s1']. cbn [fst snd] in *. subst p'.
  destruct p as [[[n|]|e|]|]; [|by apply IH, H2|..]; (split; [split; [done|]|]); cbn [fst snd]; try (intros _; by apply H2).
  - intros m [= <-]. rewrite (Hn n s1 eq_refl). destruct H2 as (Hs & _ & _); [done|]. apply Hs.
  - done.
  - by intros [].
  - done.
  - done.
Qed.

(** ** Both directions *)
Definition transfers (t : ZTransfer) (t' : TransferState) (count : Z) (tracked : list Z) : Prop :=
  match t, t' with
  | ZRunning z, Running c => simulates z c /\ count = 0 /\ tracked = []
  | ZShuttingDown n, ShuttingDown n' => n = n' /\ in_width 64 n /\ count = 0 /\ tracked = []
  | ZDone, Done => tracked = [count]
  | _, _ => False
  end.
Definition flows (f : ZFlow) (f' : Flow) : Prop :=
  match f, f' with
  | ZAgain b, Again b' => b = b'
  | ZFall, Fall => True
  | ZClosed e, Closed e' | ZFailed e, Closed e' => e = e'
  | ZCrashed, Crashed => True
  | _, _ => False
  end.
Definition goes_on (f : ZFlow) : bool := match f with ZAgain _ | ZFall => true | _ => false end.

Lemma ztransfer_same oc fuel now d t t' n tr r w : transfers t t' n tr ->
  match ztransfer oc fuel now d t n tr r w, transfer oc fuel now d t' n r w with
  | Some (f, t1, n1, tr1, r1, w1), Some (f', t1', n1', r1', w1') =>
    flows f f' /\ n1 = n1' /\ (f <> ZCrashed -> r1 = r1' /\ w1 = w1') /\ (goes_on f = true -> transfers t1 t1' n1 tr1)
  | None, None => True
  | _, _ => False
  end.
Proof.
  destruct t as [z|k|], t' as [c|k'|]; cbn [transfers]; try done.
  - intros (Hs & -> & ->). cbn [ztransfer transfer]. assert (agree (z, r, w) (c, r, w)) as Ha by by split_and!. pose proof (zpoll_copy_same oc fuel _ _ Ha) as H.
    destruct (zpoll_copy oc fuel (z, r, w)) as [[p [[z1 r1] w1]]|], (poll_copy oc fuel (c, r, w)) as [[p' [[c1 r1'] w1']]|]; cbn; try done.
    destruct H as [[E H] Hn]. cbn [fst snd] in *. subst p'. destruct p as [[k|e|]|].
    + destruct H as (Hz & E1 & E2); [done|]. split_and!; try done. intros _. split_and!; try done. by apply Hn.
    + by destruct H as (Hz & E1 & E2).
    + by split_and!.
    + destruct H as (Hz & E1 & E2); [done|]. cbn [fst snd] in *. destruct (delay_over now d).
      * split_and!; try done. intros _. split_and!; try done; [apply (sm_amt _ _ Hz)|apply (sm_range _ _ Hz)].
      * by split_and!.
  - intros (<- & Hk & -> & ->). cbn [ztransfer transfer]. destruct (poll_shutdown w) as [[[[]|e|]|] w1]; try by split_and!.
    unfold arith. rewrite Z.add_0_l. rewrite bool_decide_eq_true_2 by exact Hk. by split_and!.
Qed.

(** The whole state. *)
Record zsame (s : ZCopy) (s' : CopyBidirectional TcpStream TcpStream) : Prop := {
  zs_a : za s = cb_a s'; zs_b : zb s = cb_b s';
  zs_left : transfers (za_to_b s) (a_to_b s') (za_to_b_count s) (write_tracked s);
  zs_right : transfers (zb_to_a s) (b_to_a s') (zb_to_a_count s) (read_tracked s);
  zs_counts : za_to_b_count s = a_to_b_count s' /\ zb_to_a_count s = b_to_a_count s';
  zs_delays : za_to_b_delay s = a_to_b_delay s' /\ zb_to_a_delay s = b_to_a_delay s';
  zs_timeouts : za_to_b_timeout s = a_to_b_timeout_duration s' /\ zb_to_a_timeout s = b_to_a_timeout_duration s';
}.
Definition sockets_same (s : ZCopy) (s' : CopyBidirectional TcpStream TcpStream) : Prop := za s = cb_a s' /\ zb s = cb_b s'.

Lemma zleft_same oc fuel now s s' : zsame s s' ->
  match zleft oc fuel now s, left_half oc fuel now s' with
  | Some (f, s1), Some (f', s1') => flows f f' /\ (f <> ZCrashed -> sockets_same s1 s1') /\ (goes_on f = true -> zsame s1 s1')
  | None, None => True
  | _, _ => False
  end.
Proof.
  intros [Ha Hb Hl Hr [C1 C2] [D1 D2] [T1 T2]]. unfold zleft, left_half. rewrite <- Ha, <- Hb, <- C1, <- D1.
  pose proof (ztransfer_same oc fuel now (za_to_b_delay s) _ _ _ _ (za s) (zb s) Hl) as H.
  destruct (ztransfer _ _ _ _ _ _ _ _ _) as [[[[[[f t] n] tr] r] w]|], (transfer _ _ _ _ _ _ _ _) as [[[[[f' t'] n'] r'] w']|]; cbn; try done.
  destruct H as (Hf & -> & Hrw & Ht). split_and!; [done| |].
  - intros Hc. by destruct (Hrw Hc).
  - intros Hc. destruct Hrw as [-> ->]; [by intros ->|]. constructor; cbn; try done; [by apply Ht|]. rewrite T2. split; [done|].
    destruct f as [[]| | | |], f' as [[]| | |]; cbn in Hf; try done; congruence.
Qed.
Lemma zright_same oc fuel now s s' : zsame s s' ->
  match zright oc fuel now s, right_half oc fuel now s' with
  | Some (f, s1), Some (f', s1') => flows f f' /\ (f <> ZCrashed -> sockets_same s1 s1') /\ (goes_on f = true -> zsame s1 s1')
  | None, None => True
  | _, _ => False
  end.
Proof.
  intros [Ha Hb Hl Hr [C1 C2] [D1 D2] [T1 T2]]. unfold zright, right_half. rewrite <- Ha, <- Hb, <- C2, <- D2.
  pose proof (ztransfer_same oc fuel now (zb_to_a_delay s) _ _ _ _ (zb s) (za s) Hr) as H.
  destruct (ztransfer _ _ _ _ _ _ _ _ _) as [[[[[[f t] n] tr] r] w]|], (transfer _ _ _ _ _ _ _ _) as [[[[[f' t'] n'] r'] w']|]; cbn; try done.
  destruct H as (Hf & -> & Hrw & Ht). split_and!; [done| |].
  - intros Hc. by destruct (Hrw Hc).
  - intros Hc. destruct Hrw as [-> ->]; [by intros ->|]. constructor; cbn; try done; [by apply Ht|]. rewrite T1. split; [|done].
    destruct f as [[]| | | |], f' as [[]| | |]; cbn in Hf; try done; congruence.
Qed.

(** The same result; an error keeps its message, but not the side it names. *)
Definition message (e : CopyBidirectionalError) : string := match e with LeftClosed m | RightClosed m | Other m => m end.
Definition outcome_same (p p' : CopyPoll) : Prop :=
  match p, p' with
  | CpErr e, CpErr e' => message e = message e'
  | _, _ => p = p'
  end.
Definition polled_same (x : option (CopyPoll * ZCopy)) (y : option (CopyPoll * CopyBidirectional TcpStream TcpStream)) : Prop :=
  match x, y with
  | Some (p, s), Some (p', s') =>
    outcome_same p p' /\ (p <> CpPanic -> sockets_same s s') /\ (p = CpPending -> zsame s s') /\
    forall n m, p = CpReady n m -> write_tracked s = [n] /\ read_tracked s = [m]
  | None, None => True
  | _, _ => False
  end.

Lemma zpoll_rounds_same oc rounds fuel now s s' : zsame s s' ->
  polled_same (zpoll_rounds oc rounds fuel now s) (poll_rounds oc rounds fuel now s').
Proof.
  revert s s'. induction rounds as [|rounds IH]; intros s s' Hs; [done|]. cbn [zpoll_rounds poll_rounds].
  pose proof (zleft_same oc fuel now s s' Hs) as H.
  destruct (zleft oc fuel now s) as [[f s1]|], (left_half oc fuel now s') as [[f' s1']|]; cbn [mbind option_bind]; try done.
  destruct H as (Hf & Hc & Hg). destruct f as [x| |e|e|], f' as [x'| |e'|]; cbn [flows] in Hf; try done; [by apply IH, Hg| |split_and!; [done|intros _; by apply Hc|done|done]..].
  pose proof (zright_same oc fuel now s1 s1' (Hg eq_refl)) as H. clear Hc Hg Hs.
  destruct (zright oc fuel now s1) as [[f s2]|], (right_half oc fuel now s1') as [[f' s2']|]; cbn [mbind option_bind]; try done.
  destruct H as (Hf2 & Hc & Hg). destruct f as [x| |e|e|], f' as [x'| |e'|]; cbn [flows] in Hf2; try done; [by apply IH, Hg| |split_and!; [done|intros _; by apply Hc|done|done]..].
  specialize (Hg eq_refl). pose proof Hg as [Ha Hb Hl Hr [C1 C2] _ _]. rewrite C1 in *. rewrite C2 in *.
  destruct (za_to_b s2), (a_to_b s2'), (zb_to_a s2), (b_to_a s2'); try done; unfold polled_same; split_and!; try done.
  intros n m [= <- <-]. by split.
Qed.

(** The future of the kernel copy polled at given times until it is ready. *)
Fixpoint run_zpolls (oc : bool) (fuel : nat) (nows : list Z) (s : ZCopy) : option (CopyPoll * ZCopy) :=
  match nows with
  | [] => Some (CpPending, s)
  | now :: nows' =>
    match zcopy_poll oc fuel now s with
    | Some (CpPending, s') => run_zpolls oc fuel nows' s'
    | r => r
    end
  end.
Fixpoint run_cpolls (oc : bool) (fuel : nat) (nows : list Z) (s : CopyBidirectional TcpStream TcpStream) :
    option (CopyPoll * CopyBidirectional TcpStream TcpStream) :=
  match nows with
  | [] => Some (CpPending, s)
  | now :: nows' =>
    match copy_poll oc fuel now s with
    | Some (CpPending, s') => run_cpolls oc fuel nows' s'
    | r => r
    end
  end.

(** C23: the kernel copy refines the buffered one: over the same two sockets,
    polled at the same times, with buffers of the size of the pipe, both
    futures return together and with the same numbers of bytes, or fail
    together with the same error, or wait together; the bytes taken from and
    given to each socket and the half-closes are the same; and the numbers
    returned are exactly what the two trackers were told. *)
Theorem zero_copy_refines (oc : bool) (fuel : nat) (nows : list Z) (a b : TcpStream) (ta tb : Z) :
  match run_zpolls oc fuel nows (zcopy_new a b ta tb),
        run_cpolls oc fuel nows (copy_buf_bidirectional_with_timeout a b PIPE_SIZE ta tb) with
  | Some (p, s), Some (p', s') =>
    outcome_same p p' /\ (p <> CpPanic -> za s = cb_a s' /\ zb s = cb_b s') /\
    forall n m, p = CpReady n m -> write_tracked s = [n] /\ read_tracked s = [m]
  | None, None => True
  | _, _ => False
  end.
Proof.
  assert (zsame (zcopy_new a b ta tb) (copy_buf_bidirectional_with_timeout a b PIPE_SIZE ta tb)) as Hs.
  { constructor; try done; (split; [exact pipe_new_simulates|done]). }
  revert Hs. generalize (zcopy_new a b ta tb), (copy_buf_bidirectional_with_timeout a b PIPE_SIZE ta tb).
  induction nows as [|now nows IH]; intros s s' Hs; cbn [run_zpolls run_cpolls].
  { split_and!; [done|intros _; by destruct Hs|done]. }
  pose proof (zpoll_rounds_same oc 5 fuel now s s' Hs) as H. unfold zcopy_poll, copy_poll.
  destruct (zpoll_rounds oc 5 fuel now s) as [[p s1]|], (poll_rounds oc 5 fuel now s') as [[p' s1']|]; try done.
  destruct H as (Ho & Hk & Hp & Hn). destruct p as [n m|e| |], p' as [n' m'|e'| |]; cbn [outcome_same] in Ho; try done.
  by apply IH, Hp.
Qed.

(** ** What the trackers are not told *)
(** The client's three bytes are with the other side when that fails: the
    direction that failed is counted, the other one never. *)
Definition busy (i : list InEv) (e : list OutEv) : TcpStream := {| ts_in := i; ts_ev := e; ts_out := []; ts_shutdown := Ok tt; ts_shut := false |}.
Lemma failed_copy_loses_count oc :
  exists s, zcopy_poll oc 4 0 (zcopy_new (busy [InData 1 [2; 3]] []) (busy [InErr "reset"] [OutTake 9]) 10 10) = Some (CpErr (Other "reset"), s) /\
    ts_out (zb s) = [1; 2; 3] /\ write_tracked s = [] /\ read_tracked s = [0].
Proof.
  remember PIPE_SIZE as n eqn:E. destruct oc; eexists; (split; [vm_compute; reflexivity|done]).
Qed.
