(* ===== verification/Vmess.v ===== *)
(** * The VMess stream ([clash-lib/src/proxy/vmess/vmess_impl])

    Identifiers and keys ([user.rs], [kdf.rs]), the sealed request header
    ([header.rs]), the chunk cipher ([cipher.rs]) and the stream with its two
    state machines for reading and writing ([stream.rs]).  Random bytes and
    the clock are arguments. *)

From S2P Require Import Prelude Str Net Session Crypto Async.

(* @src clash-lib/src/proxy/vmess/vmess_impl/mod.rs ~const VERSION:~ VERSION *)
Definition VERSION : Z := 1.
(* @src clash-lib/src/proxy/vmess/vmess_impl/mod.rs ~const OPTION_CHUNK_STREAM:~ OPTION_CHUNK_STREAM *)
Definition OPTION_CHUNK_STREAM : Z := 1.
(* @src clash-lib/src/proxy/vmess/vmess_impl/mod.rs ~const SECURITY_AES_128_GCM:~ SECURITY_AES_128_GCM *)
Definition SECURITY_AES_128_GCM : Z := 3.
(* @src clash-lib/src/proxy/vmess/vmess_impl/mod.rs ~const SECURITY_CHACHA20_POLY1305:~ SECURITY_CHACHA20_POLY1305 *)
Definition SECURITY_CHACHA20_POLY1305 : Z := 4.
(* @src clash-lib/src/proxy/vmess/vmess_impl/mod.rs ~const SECURITY_NONE:~ SECURITY_NONE *)
Definition SECURITY_NONE : Z := 5.
(* @src clash-lib/src/proxy/vmess/vmess_impl/mod.rs ~const COMMAND_TCP:~ COMMAND_TCP *)
Definition COMMAND_TCP : Z := 1.
(* @src clash-lib/src/proxy/vmess/vmess_impl/mod.rs ~const COMMAND_UDP:~ COMMAND_UDP *)
Definition COMMAND_UDP : Z := 2.
(* @src clash-lib/src/proxy/vmess/vmess_impl/mod.rs ~const CHUNK_SIZE:~ CHUNK_SIZE *)
Definition CHUNK_SIZE : Z := 2 ^ 14.
(* @src clash-lib/src/proxy/vmess/vmess_impl/mod.rs ~const MAX_CHUNK_SIZE:~ MAX_CHUNK_SIZE *)
Definition MAX_CHUNK_SIZE : Z := 17 * 1024.

(* @src clash-lib/src/proxy/vmess/vmess_impl/mod.rs ~    pub\(crate\) fn write_to_buf_vmess~ SocksAddr::write_to_buf_vmess *)
Definition write_to_buf_vmess (a : SocksAddr) (buf : list Z) : list Z :=
  match a with
  | Ip s =>
    match sa_ip s with
    | V4 ip => buf ++ be_bytes 2 (sa_port s) ++ [1] ++ be_bytes 4 ip
    | V6 ip => buf ++ be_bytes 2 (sa_port s) ++ [3] ++ be_bytes 16 ip
    end
  | Domain domain port => buf ++ be_bytes 2 port ++ [2] ++ [wrap 8 (str_len domain)] ++ utf8 domain
  end.

Section vmess.
Context {CL : CryptoLib}.

(** ** Keys *)
(* @src clash-lib/src/proxy/vmess/vmess_impl/user.rs ~^pub struct ID~ ID *)
Record ID : Type := { uuid : list Z; cmd_key : list Z }.
(* @src clash-lib/src/proxy/vmess/vmess_impl/user.rs ~^pub fn new_id~ new_id *)
Definition new_id (u : list Z) : ID :=
  {| uuid := u; cmd_key := md5 (u ++ utf8 (lit "c48619fe-8f02-49e0-b9e9-edf763e17e21")) |}.
(* @src clash-lib/src/proxy/vmess/vmess_impl/user.rs ~^fn next_id~ next_id *)
Definition next_id (i : list Z) : list Z := md5 (i ++ utf8 (lit "16167dc8-16b6-4e6d-b8bb-65dd68113a81")).
Fixpoint alter_ids (n : nat) (prev key : list Z) : list ID :=
  match n with
  | O => []
  | S n' => {| uuid := next_id prev; cmd_key := key |} :: alter_ids n' (next_id prev) key
  end.
(* @src clash-lib/src/proxy/vmess/vmess_impl/user.rs ~^pub fn new_alter_id_list~ new_alter_id_list *)
Definition new_alter_id_list (primary : ID) (alter_id_count : Z) : list ID :=
  alter_ids (Z.to_nat alter_id_count) (uuid primary) (cmd_key primary) ++ [primary].

(** ** Key derivation: HMAC whose hash is HMAC *)
Class Hasher (H : Type) : Type := { h_update : H -> list Z -> H; h_finalize : H -> list Z }.

(* @src clash-lib/src/proxy/vmess/vmess_impl/kdf.rs ~const KDF_SALT_CONST_VMESS_AEAD_KDF:~ KDF_SALT_CONST_VMESS_AEAD_KDF *)
Definition KDF_SALT_CONST_VMESS_AEAD_KDF : list Z := utf8 (lit "VMess AEAD KDF").
(* @src clash-lib/src/proxy/vmess/vmess_impl/kdf.rs ~const KDF_SALT_CONST_AUTH_ID_ENCRYPTION_KEY:~ KDF_SALT_CONST_AUTH_ID_ENCRYPTION_KEY *)
Definition KDF_SALT_CONST_AUTH_ID_ENCRYPTION_KEY : list Z := utf8 (lit "AES Auth ID Encryption").
(* @src clash-lib/src/proxy/vmess/vmess_impl/kdf.rs ~const KDF_SALT_CONST_AEAD_RESP_HEADER_LEN_KEY:~ KDF_SALT_CONST_AEAD_RESP_HEADER_LEN_KEY *)
Definition KDF_SALT_CONST_AEAD_RESP_HEADER_LEN_KEY : list Z := utf8 (lit "AEAD Resp Header Len Key").
(* @src clash-lib/src/proxy/vmess/vmess_impl/kdf.rs ~const KDF_SALT_CONST_AEAD_RESP_HEADER_LEN_IV:~ KDF_SALT_CONST_AEAD_RESP_HEADER_LEN_IV *)
Definition KDF_SALT_CONST_AEAD_RESP_HEADER_LEN_IV : list Z := utf8 (lit "AEAD Resp Header Len IV").
(* @src clash-lib/src/proxy/vmess/vmess_impl/kdf.rs ~const KDF_SALT_CONST_AEAD_RESP_HEADER_PAYLOAD_KEY:~ KDF_SALT_CONST_AEAD_RESP_HEADER_PAYLOAD_KEY *)
Definition KDF_SALT_CONST_AEAD_RESP_HEADER_PAYLOAD_KEY : list Z := utf8 (lit "AEAD Resp Header Key").
(* @src clash-lib/src/proxy/vmess/vmess_impl/kdf.rs ~const KDF_SALT_CONST_AEAD_RESP_HEADER_PAYLOAD_IV:~ KDF_SALT_CONST_AEAD_RESP_HEADER_PAYLOAD_IV *)
Definition KDF_SALT_CONST_AEAD_RESP_HEADER_PAYLOAD_IV : list Z := utf8 (lit "AEAD Resp Header IV").
(* @src clash-lib/src/proxy/vmess/vmess_impl/kdf.rs ~const KDF_SALT_CONST_VMESS_HEADER_PAYLOAD_AEAD_KEY:~ KDF_SALT_CONST_VMESS_HEADER_PAYLOAD_AEAD_KEY *)
Definition KDF_SALT_CONST_VMESS_HEADER_PAYLOAD_AEAD_KEY : list Z := utf8 (lit "VMess Header AEAD Key").
(* @src clash-lib/src/proxy/vmess/vmess_impl/kdf.rs ~const KDF_SALT_CONST_VMESS_HEADER_PAYLOAD_AEAD_IV:~ KDF_SALT_CONST_VMESS_HEADER_PAYLOAD_AEAD_IV *)
Definition KDF_SALT_CONST_VMESS_HEADER_PAYLOAD_AEAD_IV : list Z := utf8 (lit "VMess Header AEAD Nonce").
(* @src clash-lib/src/proxy/vmess/vmess_impl/kdf.rs ~const KDF_SALT_CONST_VMESS_HEADER_PAYLOAD_LENGTH_AEAD_KEY:~ KDF_SALT_CONST_VMESS_HEADER_PAYLOAD_LENGTH_AEAD_KEY *)
Definition KDF_SALT_CONST_VMESS_HEADER_PAYLOAD_LENGTH_AEAD_KEY : list Z := utf8 (lit "VMess Header AEAD Key_Length").
(* @src clash-lib/src/proxy/vmess/vmess_impl/kdf.rs ~const KDF_SALT_CONST_VMESS_HEADER_PAYLOAD_LENGTH_AEAD_IV:~ KDF_SALT_CONST_VMESS_HEADER_PAYLOAD_LENGTH_AEAD_IV *)
Definition KDF_SALT_CONST_VMESS_HEADER_PAYLOAD_LENGTH_AEAD_IV : list Z := utf8 (lit "VMess Header AEAD Nonce_Length").

(** HMAC-SHA256 with a key, and what it was fed. *)
Record HmacSha256 : Type := { hs_key : list Z; hs_fed : list Z }.
#[global] Instance hmac_sha256_hasher : Hasher HmacSha256 := {|
  h_update := fun h m => {| hs_key := hs_key h; hs_fed := hs_fed h ++ m |};
  h_finalize := fun h => hmac_sha256 (hs_key h) (hs_fed h) |}.

(* @src clash-lib/src/proxy/vmess/vmess_impl/kdf.rs ~const IPAD:~ IPAD *)
Definition IPAD : Z := 0x36.
(* @src clash-lib/src/proxy/vmess/vmess_impl/kdf.rs ~const OPAD:~ OPAD *)
Definition OPAD : Z := 0x5c.
Definition BLOCK_LEN : nat := 64.
Definition TAG_LEN : nat := 32.

(** [VmessKdf1], and what the macro makes of a hasher. *)
(* @src clash-lib/src/proxy/vmess/vmess_impl/kdf.rs ~^pub struct VmessKdf1~ VmessKdf1 *)
Record VmessKdf (H : Type) : Type := { okey : list Z; hasher : H; hasher_outer : H }.
Arguments okey {H} _.
Arguments hasher {H} _.
Arguments hasher_outer {H} _.

(** [dst[..n].copy_from_slice(src)] on a zeroed block. *)
Definition block_of (key : list Z) : list Z := key ++ replicate (BLOCK_LEN - length key) 0.

(* @src clash-lib/src/proxy/vmess/vmess_impl/kdf.rs ~    pub fn new\(mut hasher: HmacSha256, key~ VmessKdf1::new *)
Definition kdf_new {H} {HH : Hasher H} (h : H) (key : list Z) : res (VmessKdf H) :=
  key ← (if (BLOCK_LEN <? length key)%nat then
           hkey ← zslice (h_finalize (h_update h key)) 0 (Z.of_nat TAG_LEN); Ok (block_of hkey)
         else Ok (block_of key));
  Ok {| okey := Z.lxor OPAD <$> key; hasher := h_update h (Z.lxor IPAD <$> key); hasher_outer := h |}.
(* @src clash-lib/src/proxy/vmess/vmess_impl/kdf.rs ~    pub fn update\(&mut self, m: &\[u8\]\)~#2 VmessKdf1::update *)
Definition kdf_update {H} {HH : Hasher H} (k : VmessKdf H) (m : list Z) : VmessKdf H :=
  {| okey := okey k; hasher := h_update (hasher k) m; hasher_outer := hasher_outer k |}.
(* @src clash-lib/src/proxy/vmess/vmess_impl/kdf.rs ~    pub fn finalize\(mut self\)~#2 VmessKdf1::finalize *)
Definition kdf_finalize {H} {HH : Hasher H} (k : VmessKdf H) : list Z :=
  let h1 := h_finalize (hasher k) in
  h_finalize (h_update (h_update (hasher_outer k) (okey k)) h1).
#[global] Instance vmess_kdf_hasher {H} {HH : Hasher H} : Hasher (VmessKdf H) := {| h_update := kdf_update; h_finalize := kdf_finalize |}.

(* @src clash-lib/src/proxy/vmess/vmess_impl/kdf.rs ~^fn get_vmess_kdf_1~ get_vmess_kdf_1 *)
Definition get_vmess_kdf_1 (key1 : list Z) : res (VmessKdf HmacSha256) :=
  kdf_new {| hs_key := KDF_SALT_CONST_VMESS_AEAD_KDF; hs_fed := [] |} key1.
(* @src clash-lib/src/proxy/vmess/vmess_impl/kdf.rs ~^fn get_vmess_kdf_2~ get_vmess_kdf_2 *)
Definition get_vmess_kdf_2 (key1 key2 : list Z) : res (VmessKdf (VmessKdf HmacSha256)) :=
  h ← get_vmess_kdf_1 key1; kdf_new h key2.
(* @src clash-lib/src/proxy/vmess/vmess_impl/kdf.rs ~^fn get_vmess_kdf_3~ get_vmess_kdf_3 *)
Definition get_vmess_kdf_3 (key1 key2 key3 : list Z) : res (VmessKdf (VmessKdf (VmessKdf HmacSha256))) :=
  h ← get_vmess_kdf_2 key1 key2; kdf_new h key3.
(* @src clash-lib/src/proxy/vmess/vmess_impl/kdf.rs ~^pub fn vmess_kdf_1_one_shot~ vmess_kdf_1_one_shot *)
Definition vmess_kdf_1_one_shot (id key1 : list Z) : res (list Z) :=
  h ← get_vmess_kdf_1 key1; Ok (h_finalize (h_update h id)).
(* @src clash-lib/src/proxy/vmess/vmess_impl/kdf.rs ~^pub fn vmess_kdf_3_one_shot~ vmess_kdf_3_one_shot *)
Definition vmess_kdf_3_one_shot (id key1 key2 key3 : list Z) : res (list Z) :=
  h ← get_vmess_kdf_3 key1 key2 key3; Ok (h_finalize (h_update h id)).

(** ** The request header *)
(* @src clash-lib/src/proxy/vmess/vmess_impl/header.rs ~^fn create_auth_id~ create_auth_id *)
Definition create_auth_id (cmd_key : list Z) (timestamp : Z) (random : list Z) : res (list Z) :=
  let buf := be_bytes 8 timestamp ++ random in
  let buf := buf ++ be_bytes 4 (crc32 buf) in
  pk ← vmess_kdf_1_one_shot cmd_key KDF_SALT_CONST_AUTH_ID_ENCRYPTION_KEY;
  pk ← zslice pk 0 16;
  block ← exact_len 16 buf;
  zslice (aes128_block pk block) 0 16.

(* @src clash-lib/src/proxy/vmess/vmess_impl/header.rs ~^pub\(crate\) fn seal_vmess_aead_header~ seal_vmess_aead_header *)
Definition seal_vmess_aead_header (key data : list Z) (timestamp : Z) (random connection_nonce : list Z) : res (list Z) :=
  auth_id ← create_auth_id key timestamp random;
  let kdf salt n := k ← vmess_kdf_3_one_shot key salt auth_id connection_nonce; zslice k 0 n in
  len_key ← kdf KDF_SALT_CONST_VMESS_HEADER_PAYLOAD_LENGTH_AEAD_KEY 16;
  len_nonce ← kdf KDF_SALT_CONST_VMESS_HEADER_PAYLOAD_LENGTH_AEAD_IV 12;
  header_len_encrypted ← aes_gcm_encrypt len_key len_nonce (be_bytes 2 (zlen data)) (Some auth_id);
  payload_key ← kdf KDF_SALT_CONST_VMESS_HEADER_PAYLOAD_AEAD_KEY 16;
  payload_nonce ← kdf KDF_SALT_CONST_VMESS_HEADER_PAYLOAD_AEAD_IV 12;
  payload_encrypted ← aes_gcm_encrypt payload_key payload_nonce data (Some auth_id);
  Ok (auth_id ++ header_len_encrypted ++ connection_nonce ++ payload_encrypted).
End vmess.
Arguments okey {H} _.
Arguments hasher {H} _.
Arguments hasher_outer {H} _.

(** ** The chunk cipher *)
(* @src clash-lib/src/proxy/vmess/vmess_impl/cipher.rs ~^pub\(crate\) struct AeadCipher~ AeadCipher *)
Record AeadCipher : Type := { ac_alg : AeadAlg; ac_key : list Z; ac_iv : list Z; ac_count : Z }.
(* @src clash-lib/src/proxy/vmess/vmess_impl/cipher.rs ~    pub fn overhead_len~ VmessSecurity::overhead_len *)
Definition overhead_len : nat := 16.
(* @src clash-lib/src/proxy/vmess/vmess_impl/cipher.rs ~    pub fn new\(iv: ~ AeadCipher::new *)
Definition cipher_new (iv : list Z) (alg : AeadAlg) (key : list Z) : AeadCipher :=
  {| ac_alg := alg; ac_key := key; ac_iv := iv; ac_count := 0 |}.

Section cipher.
Context {CL : CryptoLib} (oc : bool).

Definition counted (n : Z) (c : AeadCipher) : AeadCipher :=
  {| ac_alg := ac_alg c; ac_key := ac_key c; ac_iv := ac_iv c; ac_count := n |}.
(** The first 12 bytes of the nonce: the counter and part of the iv. *)
Definition cipher_nonce (c : AeadCipher) : res (list Z) := iv ← zslice (ac_iv c) 2 12; Ok (be_bytes 2 (ac_count c) ++ iv).
Definition with_cipher (f : AeadAlg -> list Z -> list Z -> list Z -> list Z -> res (list Z)) (c : AeadCipher) (buf : list Z) :
    res (list Z) * AeadCipher :=
  match (nonce ← cipher_nonce c; n ← arith oc 16 (ac_count c + 1); Ok (nonce, n)) with
  | Ok (nonce, n) => (f (ac_alg c) (ac_key c) nonce [] buf, counted n c)
  | Err e => (Err e, c)
  | Panic => (Panic, c)
  end.
(* @src clash-lib/src/proxy/vmess/vmess_impl/cipher.rs ~    pub fn decrypt_inplace~ AeadCipher::decrypt_inplace *)
Definition decrypt_inplace : AeadCipher -> list Z -> res (list Z) * AeadCipher := with_cipher decrypt_in_place_with_slice.
(* @src clash-lib/src/proxy/vmess/vmess_impl/cipher.rs ~    pub fn encrypt_inplace~ AeadCipher::encrypt_inplace *)
Definition encrypt_inplace : AeadCipher -> list Z -> res (list Z) * AeadCipher := with_cipher encrypt_in_place_with_slice.
End cipher.

(** ** The stream *)
(* @src clash-lib/src/proxy/vmess/vmess_impl/stream.rs ~^enum ReadState~ ReadState *)
Inductive ReadState : Type :=
| AeadWaitingHeaderSize
| AeadWaitingHeader (header_size : nat)
| StreamWaitingLength
| StreamWaitingData (size : nat)
| StreamFlushingData (size : nat).
(* @src clash-lib/src/proxy/vmess/vmess_impl/stream.rs ~^enum WriteState~ WriteState *)
Inductive WriteState : Type :=
| BuildingData
| FlushingData (consumed total written : nat).

(* @src clash-lib/src/proxy/vmess/vmess_impl/stream.rs ~^pub struct VmessStream~ VmessStream *)
Record VmessStream (S : Type) : Type := {
  vs_stream : S;
  aead_read_cipher : option AeadCipher;
  aead_write_cipher : option AeadCipher;
  vs_dst : SocksAddr;
  vs_id : ID;
  req_body_iv : list Z;
  req_body_key : list Z;
  resp_body_iv : list Z;
  resp_body_key : list Z;
  resp_v : Z;
  vs_security : Z;
  is_aead : bool;
  is_udp : bool;
  read_state : ReadState;
  read_pos : nat;
  read_buf : list Z;
  write_state : WriteState;
  vs_write_buf : list Z;
}.
Arguments vs_stream {S} _.
Arguments aead_read_cipher {S} _.
Arguments aead_write_cipher {S} _.
Arguments vs_dst {S} _.
Arguments vs_id {S} _.
Arguments req_body_iv {S} _.
Arguments req_body_key {S} _.
Arguments resp_body_iv {S} _.
Arguments resp_body_key {S} _.
Arguments resp_v {S} _.
Arguments vs_security {S} _.
Arguments is_aead {S} _.
Arguments is_udp {S} _.
Arguments read_state {S} _.
Arguments read_pos {S} _.
Arguments read_buf {S} _.
Arguments write_state {S} _.
Arguments vs_write_buf {S} _.

(** The reading half and the writing half are updated apart. *)
Definition set_reader {S} (st : S) (c : option AeadCipher) (rs : ReadState) (pos : nat) (b : list Z) (v : VmessStream S) : VmessStream S := {|
  vs_stream := st; aead_read_cipher := c; aead_write_cipher := aead_write_cipher v; vs_dst := vs_dst v; vs_id := vs_id v;
  req_body_iv := req_body_iv v; req_body_key := req_body_key v; resp_body_iv := resp_body_iv v; resp_body_key := resp_body_key v;
  resp_v := resp_v v; vs_security := vs_security v; is_aead := is_aead v; is_udp := is_udp v;
  read_state := rs; read_pos := pos; read_buf := b; write_state := write_state v; vs_write_buf := vs_write_buf v |}.
Definition set_writer {S} (st : S) (c : option AeadCipher) (ws : WriteState) (b : list Z) (v : VmessStream S) : VmessStream S := {|
  vs_stream := st; aead_read_cipher := aead_read_cipher v; aead_write_cipher := c; vs_dst := vs_dst v; vs_id := vs_id v;
  req_body_iv := req_body_iv v; req_body_key := req_body_key v; resp_body_iv := resp_body_iv v; resp_body_key := resp_body_key v;
  resp_v := resp_v v; vs_security := vs_security v; is_aead := is_aead v; is_udp := is_udp v;
  read_state := read_state v; read_pos := read_pos v; read_buf := read_buf v; write_state := ws; vs_write_buf := b |}.

Definition set_state {S} (rs : ReadState) (v : VmessStream S) : VmessStream S :=
  set_reader (vs_stream v) (aead_read_cipher v) rs (read_pos v) (read_buf v) v.
Definition set_read_buf {S} (b : list Z) (v : VmessStream S) : VmessStream S :=
  set_reader (vs_stream v) (aead_read_cipher v) (read_state v) (read_pos v) b v.

Section stream.
Context {CL : CryptoLib} {S : Type} {AR : AsyncRead S} {AW : AsyncWrite S} (oc : bool).
Abbreviation VS := (VmessStream S).

(* @src clash-lib/src/proxy/vmess/vmess_impl/stream.rs ~^impl<S: AsyncRead \+ Unpin> ReadExactBase~ VmessStream::decompose *)
Definition decompose (v : VS) : ReadExactBase S := {| rx_raw := vs_stream v; rx_buf := read_buf v; rx_pos := read_pos v |}.
Definition recompose (r : ReadExactBase S) (v : VS) : VS :=
  set_reader (rx_raw r) (aead_read_cipher v) (read_state v) (rx_pos r) (rx_buf r) v.
Definition vs_read_exact (size : nat) : PM VS unit := zoom decompose recompose (poll_read_exact size).

(** [this.read_buf.split()] *)
Definition split_buf : PM VS (list Z) := fun v => (Ready (Ok (read_buf v)), set_read_buf [] v).
Definition at_index (b : list Z) (i : Z) : PM VS Z := fail (zidx b i).
Definition resp_key (from : list Z) (salt : list Z) (n : Z) : PM VS (list Z) :=
  fail (k ← vmess_kdf_1_one_shot from salt; zslice k 0 n).

(* @src clash-lib/src/proxy/vmess/vmess_impl/stream.rs 293 361 VmessStream::poll_read (header size) *)
Definition read_header_size : PM VS unit := fun v =>
  (if is_aead v then
     _ ← vs_read_exact 18;
     key ← resp_key (resp_body_key v) KDF_SALT_CONST_AEAD_RESP_HEADER_LEN_KEY 16;
     iv ← resp_key (resp_body_iv v) KDF_SALT_CONST_AEAD_RESP_HEADER_LEN_IV 12;
     b ← split_buf;
     len ← fail (aes_gcm_decrypt key iv b None);
     if (length len <? 2)%nat then fail (Err "invalid response header length")
     else modify (set_state (AeadWaitingHeader (Z.to_nat (be_val (take 2 len)))))
   else
     _ ← vs_read_exact 4;
     b ← split_buf;
     b ← fail (aes_cfb_decrypt (resp_body_key v) (resp_body_iv v) b);
     b0 ← at_index b 0;
     if negb (b0 =? resp_v v) then fail (Err "invalid response - non aead invalid resp_v")
     else
       b2 ← at_index b 2;
       if negb (b2 =? 0) then fail (Err "invalid response - dynamic port not supported")
       else modify (set_state StreamWaitingLength) : PM VS unit) v.

(* @src clash-lib/src/proxy/vmess/vmess_impl/stream.rs 363 411 VmessStream::poll_read (header) *)
Definition read_header (header_size : nat) : PM VS unit := fun v =>
  (_ ← vs_read_exact (header_size + 16);
   key ← resp_key (resp_body_key v) KDF_SALT_CONST_AEAD_RESP_HEADER_PAYLOAD_KEY 16;
   iv ← resp_key (resp_body_iv v) KDF_SALT_CONST_AEAD_RESP_HEADER_PAYLOAD_IV 12;
   b ← split_buf;
   b ← fail (aes_gcm_decrypt key iv b None);
   if (length b <? 4)%nat then fail (Err "invalid response - header too short")
   else
     b0 ← at_index b 0;
     if negb (b0 =? resp_v v) then fail (Err "invalid response - version mismatch")
     else
       b2 ← at_index b 2;
       if negb (b2 =? 0) then fail (Err "invalid response - dynamic port not supported")
       else modify (set_state StreamWaitingLength) : PM VS unit) v.

(* @src clash-lib/src/proxy/vmess/vmess_impl/stream.rs 413 428 VmessStream::poll_read (length) *)
Definition read_length : PM VS unit :=
  _ ← vs_read_exact 2;
  b ← split_buf;
  let len := be_val b in
  if MAX_CHUNK_SIZE <? len then fail (Err "invalid response - chunk size too large")
  else modify (set_state (StreamWaitingData (Z.to_nat len))).

(** A chunk that is in the buffer is decrypted in place. *)
Definition open_chunk (size : nat) : PM VS unit := fun v =>
  match aead_read_cipher v with
  | Some cipher =>
    match decrypt_inplace oc cipher (read_buf v) with
    | (Ok b, cipher) =>
      let data_len := (size - overhead_len)%nat in
      (Ready (Ok tt), set_reader (vs_stream v) (Some cipher) (StreamFlushingData data_len) (read_pos v) (take data_len b) v)
    | (Err e, cipher) => (Ready (Err e), set_reader (vs_stream v) (Some cipher) (read_state v) (read_pos v) (read_buf v) v)
    | (Panic, cipher) => (Ready Panic, v)
    end
  | None => (Ready (Ok tt), set_state (StreamFlushingData size) v)
  end.
(* @src clash-lib/src/proxy/vmess/vmess_impl/stream.rs 430 446 VmessStream::poll_read (data) *)
Definition read_data (size : nat) : PM VS unit := _ ← vs_read_exact size; open_chunk size.

(* @src clash-lib/src/proxy/vmess/vmess_impl/stream.rs 448 462 VmessStream::poll_read (flush) *)
Definition read_flush (cap size : nat) : PM VS (list Z) := fun v =>
  let to_read := (cap `min` size)%nat in
  if (length (read_buf v) <? to_read)%nat then (Ready Panic, v)
  else
    let rs := if (to_read <? size)%nat then StreamFlushingData (size - to_read) else StreamWaitingLength in
    (Ready (Ok (take to_read (read_buf v))), set_state rs (set_read_buf (drop to_read (read_buf v)) v)).

(** The states are passed in one order and the last returns, so five rounds
    are enough from any of them. *)
(* @src clash-lib/src/proxy/vmess/vmess_impl/stream.rs ~^impl<S> AsyncRead for VmessStream~ VmessStream::poll_read *)
Fixpoint read_rounds (rounds cap : nat) : PM VS (list Z) := fun v =>
  match read_state v with
  | StreamFlushingData size => read_flush cap size v
  | _ =>
    match rounds with
    | O => (Ready Panic, v)
    | Datatypes.S rounds' =>
      ((match read_state v with
        | AeadWaitingHeaderSize => read_header_size
        | AeadWaitingHeader header_size => read_header header_size
        | StreamWaitingLength => read_length
        | StreamWaitingData size => read_data size
        | StreamFlushingData _ => mret tt
        end) ≫= fun _ => read_rounds rounds' cap) v
    end
  end.
#[global] Instance vmess_read : AsyncRead VS := read_rounds 4.

(** ** Writing *)
(* @src clash-lib/src/proxy/vmess/vmess_impl/stream.rs 479 511 VmessStream::poll_write (build) *)
Definition write_build (buf : list Z) : PM VS unit := fun v =>
  let overhead := match aead_write_cipher v with Some _ => overhead_len | None => 0%nat end in
  let max_payload_size := (Z.to_nat CHUNK_SIZE - overhead)%nat in
  let consume_len := (length buf `min` max_payload_size)%nat in
  let payload_len := (consume_len + overhead)%nat in
  let b := vs_write_buf v ++ be_bytes 2 (wrap 16 (Z.of_nat payload_len)) in
  let piece2 := drop 2 b ++ take consume_len buf in
  let built cipher piece2 :=
    let b := take 2 b ++ piece2 in
    (Ready (Ok tt), set_writer (vs_stream v) cipher (FlushingData consume_len (length b) 0) b v) in
  match aead_write_cipher v with
  | Some cipher =>
    match encrypt_inplace oc cipher (piece2 ++ replicate overhead_len 0) with
    | (Ok piece2, cipher) => built (Some cipher) piece2
    | (Err e, cipher) => (Ready (Err e), set_writer (vs_stream v) (Some cipher) BuildingData (take 2 b) v)
    | (Panic, _) => (Ready Panic, v)
    end
  | None => built None piece2
  end.

(** Every round writes a byte, so as many rounds as there are bytes are
    enough. *)
(* @src clash-lib/src/proxy/vmess/vmess_impl/stream.rs 517 545 VmessStream::poll_write (flush) *)
Fixpoint write_flush (fuel : nat) : PM VS nat := fun v =>
  match write_state v with
  | BuildingData => (Ready Panic, v)
  | FlushingData consumed total written =>
    match poll_write_buf (vs_stream v, vs_write_buf v) with
    | (Ready (Ok nw), (st, b)) =>
      if (nw =? 0)%nat then (Ready (Err "failed to write whole data"), set_writer st (aead_write_cipher v) (write_state v) b v)
      else if (total <=? written + nw)%nat then (Ready (Ok consumed), set_writer st (aead_write_cipher v) BuildingData b v)
      else
        let v := set_writer st (aead_write_cipher v) (FlushingData consumed total (written + nw)) b v in
        match fuel with
        | O => (Ready Panic, v)
        | Datatypes.S fuel' => write_flush fuel' v
        end
    | (Ready (Err e), (st, b)) => (Ready (Err e), set_writer st (aead_write_cipher v) (write_state v) b v)
    | (Ready Panic, (st, b)) => (Ready Panic, v)
    | (Pending, (st, b)) => (Pending, set_writer st (aead_write_cipher v) (write_state v) b v)
    end
  end.

Definition write_out : PM VS nat := fun v => write_flush (length (vs_write_buf v)) v.
(* @src clash-lib/src/proxy/vmess/vmess_impl/stream.rs ~    fn poll_write\(~ VmessStream::poll_write *)
Definition vmess_poll_write (buf : list Z) : PM VS nat := fun v =>
  ((match write_state v with BuildingData => write_build buf | _ => mret tt end) ≫= fun _ => write_out) v.
#[global] Instance vmess_write : AsyncWrite VS := {|
  poll_write := vmess_poll_write;
  poll_flush := zoom vs_stream (fun st v => set_writer st (aead_write_cipher v) (write_state v) (vs_write_buf v) v) poll_flush;
  poll_shutdown := zoom vs_stream (fun st v => set_writer st (aead_write_cipher v) (write_state v) (vs_write_buf v) v) poll_shutdown |}.
End stream.

(** ** The handshake *)
Section handshake.
Context {CL : CryptoLib} {S : Type} {AW : AsyncWrite S}.
Abbreviation VS := (VmessStream S).

(* @src clash-lib/src/proxy/vmess/vmess_impl/stream.rs ~^fn hash_timestamp~ hash_timestamp *)
Definition hash_timestamp (timestamp : Z) : list Z :=
  let t := be_bytes 8 timestamp in md5 (t ++ t ++ t ++ t).

(** What is drawn at random for a request: the padding length and the
    padding, and the two random parts of the sealed header. *)
Record Draw : Type := { dr_p : Z; dr_padding : list Z; dr_random : list Z; dr_nonce : list Z }.

(** The plain request. *)
(* @src clash-lib/src/proxy/vmess/vmess_impl/stream.rs 225 252 VmessStream::send_handshake_request (body) *)
Definition request_body (v : VS) (d : Draw) : list Z :=
  let buf := [VERSION] ++ req_body_iv v ++ req_body_key v ++ [resp_v v; OPTION_CHUNK_STREAM] in
  let buf := buf ++ [Z.lor (wrap 8 (Z.shiftl (dr_p d) 4)) (vs_security v); 0; if is_udp v then COMMAND_UDP else COMMAND_TCP] in
  let buf := write_to_buf_vmess (vs_dst v) buf in
  let buf := if 0 <? dr_p d then buf ++ dr_padding d else buf in
  buf ++ be_bytes 4 (fnv1a_hash_32 buf).

(** The bytes that are sent. *)
(* @src clash-lib/src/proxy/vmess/vmess_impl/stream.rs ~    async fn send_handshake_request~ VmessStream::send_handshake_request *)
Definition send_handshake_request (v : VS) (now : Z) (d : Draw) : res (list Z) :=
  let buf := request_body v d in
  if is_aead v then seal_vmess_aead_header (cmd_key (vs_id v)) buf now (dr_random d) (dr_nonce d)
  else
    let mbuf := hmac_md5 (uuid (vs_id v)) (be_bytes 8 now) in
    data ← aes_cfb_encrypt (cmd_key (vs_id v)) (hash_timestamp now) buf;
    Ok (mbuf ++ data).

(** The ChaCha key is made of the MD5 of the key and the MD5 of that. *)
Definition chacha_key (k : list Z) : list Z := let h := md5 k in h ++ md5 h.

(* @src clash-lib/src/proxy/vmess/vmess_impl/stream.rs ~    pub\(crate\) async fn new~ VmessStream::new *)
Definition vmess_new (stream : S) (id : ID) (dst : SocksAddr) (security : Z) (aead udp : bool) (rand_bytes : list Z) : res VS :=
  iv ← zslice rand_bytes 0 16;
  key ← zslice rand_bytes 16 32;
  v ← zidx rand_bytes 32;
  '(rkey, riv) ← (if aead then rkey ← zslice (sha256 key) 0 16; riv ← zslice (sha256 iv) 0 16; Ok (rkey, riv)
                  else Ok (md5 key, md5 iv));
  '(rc, wc) ← (if security =? SECURITY_NONE then Ok (None, None)
               else if security =? SECURITY_AES_128_GCM then
                 Ok (Some (cipher_new riv AlgAes128Gcm rkey), Some (cipher_new iv AlgAes128Gcm key))
               else if security =? SECURITY_CHACHA20_POLY1305 then
                 Ok (Some (cipher_new riv AlgChaCha20Poly1305 (chacha_key rkey)), Some (cipher_new iv AlgChaCha20Poly1305 (chacha_key key)))
               else Err "unsupported security");
  dst ← socks_clone dst;
  Ok {| vs_stream := stream; aead_read_cipher := rc; aead_write_cipher := wc; vs_dst := dst; vs_id := id;
        req_body_iv := iv; req_body_key := key; resp_body_iv := riv; resp_body_key := rkey; resp_v := v;
        vs_security := security; is_aead := aead; is_udp := udp;
        read_state := AeadWaitingHeaderSize; read_pos := 0; read_buf := [];
        write_state := BuildingData; vs_write_buf := [] |}.

(** [VmessStream::new] sends the request before it returns. *)
Definition vmess_connect (stream : S) (id : ID) (dst : SocksAddr) (security : Z) (aead udp : bool) (rand_bytes : list Z) (now : Z) (d : Draw) :
    res (VS * list Z) :=
  v ← vmess_new stream id dst security aead udp rand_bytes;
  req ← send_handshake_request v now d;
  Ok (v, req).

(** ** The client *)
(* @src clash-lib/src/proxy/vmess/vmess_impl/client.rs ~^pub struct Builder~ Builder *)
Record Builder : Type := { bl_user : list ID; bl_security : Z; bl_is_aead : bool; bl_is_udp : bool; bl_dst : SocksAddr }.
(** [x86_64], [s390x] and [aarch64] have fast AES. *)
(* @src clash-lib/src/proxy/vmess/vmess_impl/client.rs ~    pub fn new\(opt~ Builder::new *)
Definition builder_new {UL : UnicodeLib} (fast_aes : bool) (u : option (list Z)) (alter_id : Z) (security : str) (udp : bool) (dst : SocksAddr) : res Builder :=
  u ← ok_or u "invalid uuid format, should be xxxxxxxx-xxxx-xxxx-xxxx-xxxxxxxxxxxx";
  let s := to_lowercase security in
  security ← (if bool_decide (s = lit "chacha20-poly1305") then Ok SECURITY_CHACHA20_POLY1305
              else if bool_decide (s = lit "aes-128-gcm") then Ok SECURITY_AES_128_GCM
              else if bool_decide (s = lit "none") then Ok SECURITY_NONE
              else if bool_decide (s = lit "auto") then Ok (if fast_aes then SECURITY_AES_128_GCM else SECURITY_CHACHA20_POLY1305)
              else Err "invalid security");
  dst ← socks_clone dst;
  Ok {| bl_user := new_alter_id_list (new_id u) alter_id; bl_security := security; bl_is_aead := alter_id =? 0; bl_is_udp := udp; bl_dst := dst |}.
(* @src clash-lib/src/proxy/vmess/vmess_impl/client.rs ~    pub async fn proxy_stream~ Builder::proxy_stream *)
Definition proxy_stream (b : Builder) (stream : S) (idx : nat) (rand_bytes : list Z) (now : Z) (d : Draw) : res (VS * list Z) :=
  id ← or_panic (bl_user b !! idx);
  vmess_connect stream id (bl_dst b) (bl_security b) (bl_is_aead b) (bl_is_udp b) rand_bytes now d.
End handshake.
