(* ===== verification/VmessSpec.v ===== *)
(** * The VMess stream carries its data unchanged

    What [Vmess] puts on the wire and what it reads from it, for every way
    the bytes are cut and delayed. *)

From S2P Require Import Prelude Str Net Session Crypto Async Vmess.

(** ** Key derivation *)
Section kdf.
Context {CL : CryptoLib} {CW : CryptoLaws CL}.

(** HMAC over a hash function with blocks of 64 bytes (RFC 2104), for keys of
    at most a block. *)
Definition hmac (H : list Z -> list Z) (key m : list Z) : list Z :=
  let k := key ++ replicate (64 - length key) 0 in
  H ((Z.lxor 0x5c <$> k) ++ H ((Z.lxor 0x36 <$> k) ++ m)).

(** A hasher that was fed [fed] computes [H] on what it is fed in all. *)
Definition computes {T} {HH : Hasher T} (h : T) (H : list Z -> list Z) : Prop :=
  forall ms, h_finalize (foldl h_update h ms) = H (mjoin ms).

Lemma kdf_foldl {T} {HH : Hasher T} (k : VmessKdf T) ms :
  foldl h_update k ms = {| okey := okey k; hasher := foldl h_update (hasher k) ms; hasher_outer := hasher_outer k |}.
Proof. revert k. induction ms as [|m ms IH]; intros k; cbn; [by destruct k|]. by rewrite IH. Qed.

Lemma kdf_new_computes {T} {HH : Hasher T} (h : T) H key : computes h H -> (length key <= 64)%nat ->
  exists k, kdf_new h key = Ok k /\ computes k (hmac H key).
Proof.
  intros Hh Hk. unfold kdf_new. rewrite (proj2 (Nat.ltb_ge _ _)) by (unfold BLOCK_LEN; lia). rstep. eexists. split; [done|].
  intros ms. rewrite kdf_foldl. cbn. unfold kdf_finalize. cbn.
  change (h_update h (Z.lxor IPAD <$> block_of key)) with (foldl h_update h [Z.lxor IPAD <$> block_of key]).
  rewrite <- foldl_app, Hh.
  change (h_update (h_update h ?a) ?b) with (foldl h_update h [a; b]). rewrite Hh. cbn. by rewrite app_nil_r.
Qed.

Lemma sha256_computes key : computes {| hs_key := key; hs_fed := [] |} (hmac_sha256 key).
Proof.
  intros ms. assert (forall fed, foldl h_update {| hs_key := key; hs_fed := fed |} ms = {| hs_key := key; hs_fed := fed ++ mjoin ms |}) as Hf.
  { induction ms as [|m ms IH]; intros fed; cbn; [by rewrite app_nil_r|]. by rewrite IH, <- app_assoc. }
  by rewrite Hf.
Qed.

(** The derived keys are nested HMACs: HMAC whose hash function is HMAC, over
    HMAC-SHA256 with the fixed salt. *)
Theorem vmess_kdf_nested (id key1 key2 key3 : list Z)
    (H1 : (length key1 <= 64)%nat) (H2 : (length key2 <= 64)%nat) (H3 : (length key3 <= 64)%nat) :
  let H := hmac_sha256 (utf8 (lit "VMess AEAD KDF")) in
  vmess_kdf_1_one_shot id key1 = Ok (hmac H key1 id) /\
  vmess_kdf_3_one_shot id key1 key2 key3 = Ok (hmac (hmac (hmac H key1) key2) key3 id).
Proof.
  pose proof (sha256_computes KDF_SALT_CONST_VMESS_AEAD_KDF) as H0.
  destruct (kdf_new_computes _ _ key1 H0 H1) as (k1 & E1 & C1). destruct (kdf_new_computes _ _ key2 C1 H2) as (k2 & E2 & C2).
  destruct (kdf_new_computes _ _ key3 C2 H3) as (k3 & E3 & C3).
  assert (forall T (HT : Hasher T) (k : T) H m, computes k H -> h_finalize (h_update k m) = H m) as Hone.
  { intros T HT k H m Hc. rewrite <- (app_nil_r m) at 2. exact (Hc [m]). }
  unfold vmess_kdf_1_one_shot, vmess_kdf_3_one_shot, get_vmess_kdf_3, get_vmess_kdf_2, get_vmess_kdf_1.
  rewrite E1. rstep. rewrite E2. rstep. rewrite E3. rstep. by rewrite (Hone _ _ _ _ _ C1), (Hone _ _ _ _ _ C3).
Qed.

Lemma vmess_kdf_length id key1 k : vmess_kdf_1_one_shot id key1 = Ok k -> length k = 32%nat.
Proof.
  unfold vmess_kdf_1_one_shot, get_vmess_kdf_1. intros H. destruct (kdf_new _ key1) as [h| |]; try done.
  cbn in H. injection H as <-. unfold kdf_finalize. cbn. apply hmac_sha256_length.
Qed.
End kdf.

(** ** Chunks *)
Section chunks.
Context {CL : CryptoLib} {CW : CryptoLaws CL} (oc : bool).

(** A chunk's body under a cipher, and the cipher for the next one. *)
Definition sealed (c : option AeadCipher) (p : list Z) : res (list Z * option AeadCipher) :=
  match c with
  | None => Ok (p, None)
  | Some c =>
    match encrypt_inplace oc c (p ++ replicate 16 0) with
    | (Ok b, c') => Ok (b, Some c')
    | (Err e, _) => Err e
    | (Panic, _) => Panic
    end
  end.
Definition overhead (c : option AeadCipher) : nat := if c then 16 else 0.

(** The wire format of a sequence of chunks. *)
Inductive framed : option AeadCipher -> list Z -> list (list Z) -> Prop :=
| framed_nil c : framed c [] []
| framed_cons c p b c' w ps : sealed c p = Ok (b, c') -> p <> [] -> zlen b <= MAX_CHUNK_SIZE -> framed c' w ps ->
    framed c (be_bytes 2 (zlen b) ++ b ++ w) (p :: ps).

Lemma cipher_nonce_length c n : cipher_nonce c = Ok n -> length n = 12%nat.
Proof.
  unfold cipher_nonce. intros En. destruct (zslice (ac_iv c) 2 12) as [iv| |] eqn:Ei; try done. cbn in En. injection En as <-.
  cbn. unfold zslice in Ei. case_bool_decide as Hb; [|done]. injection Ei as <-.
  rewrite length_take, length_drop. unfold zlen in Hb. lia.
Qed.

(** The same cipher opens what it sealed, and then is the one that seals the
    next chunk. *)
Lemma sealed_some c p b c' : sealed (Some c) p = Ok (b, c') ->
  exists c2 tag, c' = Some c2 /\ decrypt_inplace oc c b = (Ok (p ++ tag), c2) /\ length b = (length p + 16)%nat.
Proof.
  unfold sealed, encrypt_inplace, decrypt_inplace, with_cipher.
  destruct (cipher_nonce c) as [nonce| |] eqn:En; try done. destruct (arith oc 16 _) as [n| |]; try done. cbn [mbind res_mbind res_bind].
  destruct (in_place_inverse (ac_alg c) (ac_key c) nonce [] p (replicate 16 0) (cipher_nonce_length _ _ En) eq_refl) as (b' & -> & Hl & tag & E).
  intros [= <- <-]. exists (counted n c), tag. by rewrite E.
Qed.

Lemma sealed_length c p b c' : sealed c p = Ok (b, c') -> length b = (length p + overhead c)%nat.
Proof.
  destruct c as [c|]; [|intros [= <- <-]; cbn; lia]. intros H. by destruct (sealed_some _ _ _ _ H) as (_ & _ & _ & _ & ->).
Qed.
End chunks.

(** ** Reading *)
Section reader.
Context {CL : CryptoLib} {CW : CryptoLaws CL} (oc : bool).
Abbreviation VS := (VmessStream Wire).

(** A response header the client accepts. *)
Definition accepted_payload (v : VS) (payload : list Z) : Prop :=
  (4 <= length payload)%nat /\ payload !! 0%nat = Some (resp_v v) /\ payload !! 2%nat = Some 0.
Definition header_key (v : VS) (key_salt iv_salt key iv : list Z) : Prop :=
  (k ← vmess_kdf_1_one_shot (resp_body_key v) key_salt; zslice k 0 16) = Ok key /\
  (k ← vmess_kdf_1_one_shot (resp_body_iv v) iv_salt; zslice k 0 12) = Ok iv.
Definition good_header (v : VS) (hdr : list Z) : Prop :=
  exists key iv payload, header_key v KDF_SALT_CONST_AEAD_RESP_HEADER_PAYLOAD_KEY KDF_SALT_CONST_AEAD_RESP_HEADER_PAYLOAD_IV key iv /\
    aes_gcm_decrypt key iv hdr None = Ok payload /\ accepted_payload v payload.
Definition good_length (v : VS) (hlen : list Z) (n : nat) : Prop :=
  exists key iv, header_key v KDF_SALT_CONST_AEAD_RESP_HEADER_LEN_KEY KDF_SALT_CONST_AEAD_RESP_HEADER_LEN_IV key iv /\
    aes_gcm_decrypt key iv hlen None = Ok (be_bytes 2 (Z.of_nat n)) /\ Z.of_nat n < 2 ^ 16.

(** How many bytes a state reads, and how far it is from data. *)
Definition needed (rs : ReadState) : nat :=
  match rs with
  | AeadWaitingHeaderSize => 18
  | AeadWaitingHeader n => n + 16
  | StreamWaitingLength => 2
  | StreamWaitingData n => n
  | StreamFlushingData _ => 0
  end.
Definition distance (rs : ReadState) : nat :=
  match rs with
  | AeadWaitingHeaderSize => 4
  | AeadWaitingHeader _ => 3
  | StreamWaitingLength => 2
  | StreamWaitingData _ => 1
  | StreamFlushingData _ => 0
  end.

(** What is still to be delivered: [got] was read but not used, [pt] is the
    rest of the data. *)
Definition state_inv (v : VS) (all pt : list Z) : Prop :=
  match read_state v with
  | AeadWaitingHeaderSize => is_aead v = true /\
      exists hlen n hdr w ps, all = hlen ++ hdr ++ w /\ length hlen = 18%nat /\ good_length v hlen n /\ length hdr = (n + 16)%nat /\
        good_header v hdr /\ framed oc (aead_read_cipher v) w ps /\ pt = mjoin ps
  | AeadWaitingHeader n =>
      exists hdr w ps, all = hdr ++ w /\ length hdr = (n + 16)%nat /\ good_header v hdr /\ framed oc (aead_read_cipher v) w ps /\ pt = mjoin ps
  | StreamWaitingLength => exists ps, framed oc (aead_read_cipher v) all ps /\ pt = mjoin ps
  | StreamWaitingData n =>
      exists p b c' w ps, sealed oc (aead_read_cipher v) p = Ok (b, c') /\ p <> [] /\ length b = n /\ all = b ++ w /\
        framed oc c' w ps /\ pt = p ++ mjoin ps
  | StreamFlushingData n => False
  end.
Definition reader_inv (v : VS) (pt : list Z) : Prop :=
  match read_state v with
  | StreamFlushingData n => read_pos v = 0%nat /\ length (read_buf v) = n /\ (0 < n)%nat /\
      exists ps, framed oc (aead_read_cipher v) (bytes_of (wi_in (vs_stream v))) ps /\ pt = read_buf v ++ mjoin ps
  | _ => exists got, collected (decompose v) got /\ (read_pos v <= needed (read_state v))%nat /\ state_inv v (got ++ bytes_of (wi_in (vs_stream v))) pt
  end.
Definition vwaits (v : VS) : nat := waits_of (wi_in (vs_stream v)).

(** The keys of the stream do not change while it reads. *)
Record same_keys (v v' : VS) : Prop := {
  sk_key : resp_body_key v' = resp_body_key v;
  sk_iv : resp_body_iv v' = resp_body_iv v;
  sk_v : resp_v v' = resp_v v;
  sk_aead : is_aead v' = is_aead v;
}.

(** Reading exactly [n] bytes, of which enough are on their way. *)
Lemma vs_read_exact_spec n (v : VS) got :
  collected (decompose v) got -> (read_pos v <= n)%nat -> (n <= length (got ++ bytes_of (wi_in (vs_stream v))))%nat ->
  exists p v' more, vs_read_exact n v = (p, v') /\ bytes_of (wi_in (vs_stream v)) = more ++ bytes_of (wi_in (vs_stream v')) /\
    aead_read_cipher v' = aead_read_cipher v /\ read_state v' = read_state v /\ same_keys v v' /\
    ((p = Ready (Ok tt) /\ read_buf v' = got ++ more /\ read_pos v' = 0%nat /\ length (got ++ more) = n /\ vwaits v' = vwaits v) \/
     (p = Pending /\ collected (decompose v') (got ++ more) /\ (read_pos v' < n)%nat /\ (vwaits v' < vwaits v)%nat)).
Proof.
  intros Hc Hp Hn. rewrite length_app in Hn. pose proof Hc as [Hc1 Hc2]. cbn in Hc1, Hc2.
  destruct (poll_read_exact_spec n (decompose v) got Hc) as (p & s' & more & E & R1 & R2 & R3); [|done|done|].
  { cbn. rewrite <- Hc1, <- Hc2, length_take. lia. }
  exists p, (recompose s' v), more. unfold vs_read_exact, zoom. rewrite E. split; [done|]. cbn. split_and!; try done.
Qed.

Lemma state_inv_ext v v' all pt : state_inv v all pt -> read_state v' = read_state v -> aead_read_cipher v' = aead_read_cipher v ->
  same_keys v v' -> state_inv v' all pt.
Proof.
  intros H Hs Hc [K1 K2 K3 K4]. unfold state_inv, good_length, good_header, header_key, accepted_payload in *.
  by rewrite Hs, Hc, K1, K2, K3, ?K4.
Qed.

(** A round of the loop: closer to data, or a wait is used up. *)
Definition round_ok (v : VS) (pt : list Z) (o : Poll (res unit) * VS) : Prop :=
  match o with
  | (Ready (Ok _), v') => reader_inv v' pt /\ vwaits v' = vwaits v /\ (distance (read_state v') < distance (read_state v))%nat
  | (Pending, v') => reader_inv v' pt /\ (vwaits v' < vwaits v)%nat
  | _ => False
  end.

(** Every state reads exactly what it needs and goes on with it. *)
Lemma exact_round (v : VS) got pt (f : PM VS unit) : collected (decompose v) got -> (read_pos v <= needed (read_state v))%nat ->
  distance (read_state v) <> 0%nat -> state_inv v (got ++ bytes_of (wi_in (vs_stream v))) pt ->
  (needed (read_state v) <= length (got ++ bytes_of (wi_in (vs_stream v))))%nat ->
  (forall v' frame, read_state v' = read_state v -> aead_read_cipher v' = aead_read_cipher v -> same_keys v v' -> vwaits v' = vwaits v ->
     read_buf v' = frame -> read_pos v' = 0%nat -> length frame = needed (read_state v) ->
     got ++ bytes_of (wi_in (vs_stream v)) = frame ++ bytes_of (wi_in (vs_stream v')) -> round_ok v pt (f v')) ->
  round_ok v pt ((vs_read_exact (needed (read_state v)) ≫= fun _ => f) v).
Proof.
  intros Hc Hp Hd Hi Hn Hf. destruct (vs_read_exact_spec _ v got Hc Hp Hn) as (p & v' & more & E & Hb & Hci & Hst & Hk & H).
  destruct H as [(-> & Hbuf & Hpos & Hlen & Hw)|(-> & Hcol & Hpos & Hw)].
  - rewrite (pm_bind_ready _ _ _ _ _ E). apply (Hf v' (got ++ more)); try done. by rewrite Hb, app_assoc.
  - rewrite (pm_bind_pending _ _ _ _ E). cbn. split; [|done]. unfold reader_inv. rewrite Hst.
    assert (exists got0, collected (decompose v') got0 /\ (read_pos v' <= needed (read_state v))%nat /\
      state_inv v' (got0 ++ bytes_of (wi_in (vs_stream v'))) pt) as Hex.
    { exists (got ++ more). split_and!; [done|lia|]. rewrite <- app_assoc, <- Hb. by eapply state_inv_ext. }
    by destruct (read_state v).
Qed.

(** The four steps before data. *)
Lemma split_steps {A} (v : VS) (f : list Z -> PM VS A) : (split_buf ≫= f) v = f (read_buf v) (set_read_buf [] v).
Proof. done. Qed.
Lemma fail_steps {A B} (x : A) (v : VS) (f : A -> PM VS B) : (fail (Ok x) ≫= f) v = f x v.
Proof. done. Qed.

Lemma fresh_state rs v pt : (0 < distance rs)%nat -> read_pos v = 0%nat -> state_inv (set_state rs v) (bytes_of (wi_in (vs_stream v))) pt ->
  reader_inv (set_state rs v) pt.
Proof.
  intros Hd Hp Hi. unfold reader_inv. cbn.
  assert (exists got, collected (decompose (set_state rs v)) got /\ (read_pos v <= needed rs)%nat /\
    state_inv (set_state rs v) (got ++ bytes_of (wi_in (vs_stream v))) pt) as Hex.
  { exists []. split_and!; [|lia|done]. split; cbn; by rewrite Hp. }
  by destruct rs.
Qed.

Lemma header_size_round v pt : reader_inv v pt -> read_state v = AeadWaitingHeaderSize -> round_ok v pt (read_header_size v).
Proof.
  intros Hi Hs. unfold reader_inv in Hi. rewrite Hs in Hi. destruct Hi as (got & Hc & Hp & Hi). pose proof Hi as Hi'.
  unfold state_inv in Hi. rewrite Hs in Hi. destruct Hi as (Ha & hlen & n & hdr & w & ps & Hall & Hl & (key & iv & [Hk1 Hk2] & Hd & Hn) & Hh & Hg & Hf & ->).
  unfold read_header_size. rewrite Ha.
  assert (needed (read_state v) = 18%nat) as Hne by by rewrite Hs. rewrite <- Hne.
  apply (exact_round v got); try done; [by rewrite Hs|by rewrite Hs| |].
  { rewrite Hne, Hall, !length_app. lia. }
  intros v' frame Hs' Hc' Hk Hw Hb Hpos Hlf Heq. rewrite Hall in Heq.
  apply app_inj_1 in Heq as [<- Heq]; [|by rewrite Hl, Hlf].
  unfold resp_key. rewrite Hk1, Hk2, !fail_steps, split_steps, Hb, Hd, fail_steps.
  rewrite be_bytes_length. cbn [Nat.ltb Nat.leb]. unfold modify. cbn [round_ok]. rewrite take_ge by (by rewrite be_bytes_length).
  rewrite be_val_bytes by (unfold in_width; lia). rewrite Nat2Z.id. split_and!; [|done|rewrite Hs; cbn; lia].
  apply fresh_state; [cbn; lia|done|]. cbn. rewrite <- Heq. exists hdr, w, ps. split_and!; try done.
  - destruct Hg as (k & i & pl & [G1 G2] & G3 & G4). exists k, i, pl. destruct Hk as [K1 K2 K3 K4]. unfold header_key, accepted_payload. cbn. by rewrite K1, K2, K3.
  - cbn. by rewrite Hc'.
Qed.

Lemma header_round v pt n : reader_inv v pt -> read_state v = AeadWaitingHeader n -> round_ok v pt (read_header n v).
Proof.
  intros Hi Hs. unfold reader_inv in Hi. rewrite Hs in Hi. destruct Hi as (got & Hc & Hp & Hi). pose proof Hi as Hi'.
  unfold state_inv in Hi. rewrite Hs in Hi. destruct Hi as (hdr & w & ps & Hall & Hl & (key & iv & pl & [Hk1 Hk2] & Hd & Hlen & Hp0 & Hp2) & Hf & ->).
  unfold read_header. assert (needed (read_state v) = (n + 16)%nat) as Hne by by rewrite Hs. rewrite <- Hne.
  apply (exact_round v got); try done; [by rewrite Hs|by rewrite Hs| |].
  { rewrite Hne, Hall, length_app. lia. }
  intros v' frame Hs' Hc' Hk Hw Hb Hpos Hlf Heq. rewrite Hall in Heq.
  apply app_inj_1 in Heq as [<- Heq]; [|by rewrite Hl, Hlf].
  unfold resp_key. rewrite Hk1, Hk2, !fail_steps, split_steps, Hb, Hd, fail_steps.
  rewrite (proj2 (Nat.ltb_ge _ _)) by done. unfold at_index, zidx.
  change (zget pl 0) with (pl !! 0%nat). rewrite Hp0. cbn [or_panic]. rewrite fail_steps, Z.eqb_refl. cbn [negb].
  change (zget pl 2) with (pl !! 2%nat). rewrite Hp2. cbn [or_panic]. rewrite fail_steps. cbn [Z.eqb negb]. unfold modify. cbn [round_ok].
  split_and!; [|done|rewrite Hs; cbn; lia].
  apply fresh_state; [cbn; lia|done|]. cbn. rewrite <- Heq. exists ps. by rewrite Hc'.
Qed.

Lemma framed_cases c w ps : framed oc c w ps -> mjoin ps <> [] ->
  exists p b c' w' ps', w = be_bytes 2 (zlen b) ++ b ++ w' /\ ps = p :: ps' /\ sealed oc c p = Ok (b, c') /\ p <> [] /\
    zlen b <= MAX_CHUNK_SIZE /\ framed oc c' w' ps'.
Proof. intros H Hne. destruct H as [|c p b c' w ps H1 H2 H3 H4]; [done|]. by exists p, b, c', w, ps. Qed.

Lemma length_round v pt : reader_inv v pt -> pt <> [] -> read_state v = StreamWaitingLength -> round_ok v pt (read_length v).
Proof.
  intros Hi Hpt Hs. unfold reader_inv in Hi. rewrite Hs in Hi. destruct Hi as (got & Hc & Hp & Hi). pose proof Hi as Hi'.
  unfold state_inv in Hi. rewrite Hs in Hi. destruct Hi as (ps & Hf & ->).
  destruct (framed_cases _ _ _ Hf Hpt) as (p & b & c' & w & ps' & Hall & -> & Hse & Hpne & Hmax & Hf').
  unfold read_length. assert (needed (read_state v) = 2%nat) as Hne by by rewrite Hs. rewrite <- Hne.
  apply (exact_round v got); try done; [by rewrite Hs|by rewrite Hs| |].
  { rewrite Hne, Hall, length_app, be_bytes_length. lia. }
  intros v' frame Hs' Hc' Hk Hw Hb Hpos Hlf Heq. rewrite Hall in Heq.
  apply app_inj_1 in Heq as [<- Heq]; [|by rewrite be_bytes_length, Hlf].
  rewrite split_steps, Hb. assert (in_width (8 * Z.of_nat 2) (zlen b)) as Hwd by (unfold in_width, MAX_CHUNK_SIZE, zlen in *; lia).
  rewrite (be_val_bytes 2 _ Hwd), (proj2 (Z.ltb_ge _ _)) by done. unfold modify. cbn [round_ok].
  split_and!; [|done|rewrite Hs; cbn; lia]. apply fresh_state; [cbn; lia|done|]. cbn. rewrite <- Heq.
  exists p, b, c', w, ps'. rewrite Hc'. split_and!; try done. unfold zlen. lia.
Qed.

Lemma data_round v pt n : reader_inv v pt -> read_state v = StreamWaitingData n -> round_ok v pt (read_data oc n v).
Proof.
  intros Hi Hs. unfold reader_inv in Hi. rewrite Hs in Hi. destruct Hi as (got & Hc & Hp & Hi). pose proof Hi as Hi'.
  unfold state_inv in Hi. rewrite Hs in Hi. destruct Hi as (p & b & c' & w & ps & Hse & Hpne & Hl & Hall & Hf & ->).
  unfold read_data. assert (needed (read_state v) = n) as Hne by by rewrite Hs. rewrite <- Hne at 1.
  apply (exact_round v got); try done; [by rewrite Hs|by rewrite Hs| |].
  { rewrite Hne, Hall, length_app. lia. }
  intros v' frame Hs' Hc' Hk Hw Hb Hpos Hlf Heq. rewrite Hall in Heq.
  apply app_inj_1 in Heq as [<- Heq]; [|by rewrite Hl, Hlf].
  assert (0 < length p)%nat as Hp0 by (destruct p; [done|cbn; lia]).
  unfold open_chunk. rewrite Hc'. destruct (aead_read_cipher v) as [c|] eqn:Eci.
  - destruct (sealed_some oc _ _ _ _ Hse) as (c2 & tag & -> & Hdec & Hlb). rewrite Hb, Hdec. cbn [round_ok].
    assert (n - overhead_len = length p)%nat as -> by (unfold overhead_len; lia). rewrite take_app_length.
    split_and!; [|done|rewrite Hs; cbn; lia]. unfold reader_inv. cbn. split_and!; try done. exists ps. by rewrite <- Heq.
  - injection Hse as <- <-. cbn [round_ok]. split_and!; [|done|rewrite Hs; cbn; lia]. unfold reader_inv. cbn.
    rewrite Hb. split_and!; [done|done|lia|]. exists ps. by rewrite Hc', <- Heq.
Qed.

(** A poll of the stream: data, in order, or a wait is used up. *)
Definition read_ok (v : VS) (pt : list Z) (o : Poll (res (list Z)) * VS) : Prop :=
  match o with
  | (Ready (Ok d), v') => d <> [] /\ vwaits v' = vwaits v /\ exists pt', pt = d ++ pt' /\ reader_inv v' pt'
  | (Pending, v') => reader_inv v' pt /\ (vwaits v' < vwaits v)%nat
  | _ => False
  end.

Lemma flush_ok v pt cap n : reader_inv v pt -> read_state v = StreamFlushingData n -> (0 < cap)%nat -> read_ok v pt (read_flush cap n v).
Proof.
  intros Hi Hs Hcap. unfold reader_inv in Hi. rewrite Hs in Hi. destruct Hi as (Hp & Hl & Hn & ps & Hf & ->).
  unfold read_flush. rewrite (proj2 (Nat.ltb_ge _ _)) by lia. cbn [read_ok]. set (k := (cap `min` n)%nat).
  assert (0 < k <= n)%nat as Hk by (unfold k; lia). split_and!.
  - intros Hz. apply (f_equal length) in Hz. rewrite length_take in Hz. cbn in Hz. lia.
  - done.
  - exists (drop k (read_buf v) ++ mjoin ps). rewrite app_assoc, take_drop. split; [done|]. destruct (k <? n)%nat eqn:E.
    + apply Nat.ltb_lt in E. unfold reader_inv. cbn. rewrite length_drop. split_and!; [done|lia|lia|]. by exists ps.
    + apply Nat.ltb_ge in E. assert (k = n) as -> by lia. rewrite drop_ge by lia.
      apply fresh_state; [cbn; lia|done|]. cbn. by exists ps.
Qed.

Lemma rounds_read rounds v pt cap : reader_inv v pt -> pt <> [] -> (0 < cap)%nat -> (distance (read_state v) <= rounds)%nat ->
  read_ok v pt (read_rounds oc rounds cap v).
Proof.
  revert v. induction rounds as [|rounds IH]; intros v Hi Hpt Hcap Hd; cbn [read_rounds].
  { destruct (read_state v) eqn:Hs; cbn in Hd; try lia. by apply flush_ok. }
  assert (forall f : PM VS unit, round_ok v pt (f v) -> distance (read_state v) <> 0%nat ->
    read_ok v pt ((f ≫= fun _ => read_rounds oc rounds cap) v)) as Hgo.
  { intros f Hf Hd0. unfold mbind, pm_bind. unfold round_ok in Hf. destruct (f v) as [[[[]| |]|] v1]; try done.
    destruct Hf as (Hi1 & Hw & Hd1). assert (read_ok v1 pt (read_rounds oc rounds cap v1)) as H1 by (apply IH; [done..|lia]).
    unfold read_ok in *. destruct (read_rounds oc rounds cap v1) as [[[d| |]|] v2]; try done; rewrite <- Hw; done. }
  destruct (read_state v) eqn:Hs; try (apply Hgo; [|done]).
  - by apply header_size_round.
  - by apply header_round.
  - by apply length_round.
  - by apply data_round.
  - by apply flush_ok.
Qed.

Lemma poll_read_ok v pt cap : reader_inv v pt -> pt <> [] -> (0 < cap)%nat -> read_ok v pt (vmess_read oc cap v).
Proof. intros. apply rounds_read; [done..|]. destruct (read_state v); cbn; lia. Qed.

(** When everything was delivered, a poll waits or reports an error. *)
Definition read_end (o : Poll (res (list Z)) * VS) : Prop :=
  match o with
  | (Ready (Ok _), _) => False
  | (Ready _, _) => True
  | (Pending, v') => reader_inv v' []
  end.

Lemma length_end v : reader_inv v [] -> read_state v = StreamWaitingLength ->
  match read_length v with (Ready (Ok _), _) => False | (Ready _, _) => True | (Pending, v') => reader_inv v' [] /\ read_state v' = StreamWaitingLength end.
Proof.
  intros Hi Hs. unfold reader_inv in Hi. rewrite Hs in Hi. destruct Hi as (got & [Hc1 Hc2] & Hp & Hi).
  unfold state_inv in Hi. rewrite Hs in Hi. destruct Hi as (ps & Hf & Hps).
  assert (got = [] /\ bytes_of (wi_in (vs_stream v)) = []) as [-> Hb].
  { inversion Hf as [? E1 E2 E3|c p b c' w ps' H1 H2 H3 H4 E1 E2 E3].
    - symmetry in E2. by apply app_nil in E2.
    - rewrite <- E3 in Hps. cbn in Hps. by destruct p. }
  cbn in Hc1. unfold read_length, vs_read_exact, zoom, poll_read_exact, mbind, pm_bind. cbn. rewrite <- Hc1. cbn.
  destruct (drained_wire 2 (vs_stream v) Hb) as [(w' & -> & Hb')|[(w' & ->)|(e & w' & ->)]]; cbn; try done.
  split; [|done]. unfold reader_inv. cbn. rewrite Hs. exists []. split_and!; [by split|lia|].
  cbn. unfold state_inv. cbn. rewrite Hs. exists []. rewrite Hb'. split; [constructor|done].
Qed.

Lemma rounds_end rounds v cap : reader_inv v [] -> read_end (read_rounds oc rounds cap v).
Proof.
  revert v. induction rounds as [|rounds IH]; intros v Hi; cbn [read_rounds].
  { destruct (read_state v) eqn:Hs; try done. unfold reader_inv in Hi. rewrite Hs in Hi. destruct Hi as (_ & Hl & Hn & ps & _ & E).
    symmetry in E. apply app_nil in E as [E _]. rewrite E in Hl. cbn in Hl. lia. }
  assert (forall f : PM VS unit, (round_ok v [] (f v) \/
    match f v with (Ready (Ok _), _) => False | (Ready _, _) => True | (Pending, v') => reader_inv v' [] /\ read_state v' = StreamWaitingLength end) ->
    read_end ((f ≫= fun _ => read_rounds oc rounds cap) v)) as Hgo.
  { intros f Hf. unfold mbind, pm_bind. unfold round_ok in Hf. destruct (f v) as [[[[]| |]|] v1]; try done; destruct Hf as [Hf|Hf]; try done.
    - apply IH. by destruct Hf.
    - by destruct Hf.
    - by destruct Hf. }
  destruct (read_state v) eqn:Hs; try apply Hgo.
  - left. by apply header_size_round.
  - left. by apply header_round.
  - right. by apply length_end.
  - left. by apply data_round.
  - unfold reader_inv in Hi. rewrite Hs in Hi. destruct Hi as (_ & Hl & Hn & ps & _ & E).
    symmetry in E. apply app_nil in E as [E _]. rewrite E in Hl. cbn in Hl. lia.
Qed.

(** The stream read with buffers of the given sizes until it fails. *)
Fixpoint read_many (caps : list nat) (v : VS) : list Z :=
  match caps with
  | [] => []
  | cap :: caps' =>
    match vmess_read oc cap v with
    | (Ready (Ok d), v') => d ++ read_many caps' v'
    | (Pending, v') => read_many caps' v'
    | _ => []
    end
  end.

Lemma read_many_end caps v : reader_inv v [] -> read_many caps v = [].
Proof.
  revert v. induction caps as [|cap caps IH]; intros v Hi; [done|]. cbn [read_many]. pose proof (rounds_end 4 v cap Hi) as H.
  change (read_rounds oc 4 cap v) with (vmess_read oc cap v) in H. unfold read_end in H.
  destruct (vmess_read oc cap v) as [[[d| |]|] v']; try done. by apply IH.
Qed.

Lemma read_many_ok caps v pt : reader_inv v pt -> Forall (fun c => 0 < c)%nat caps ->
  read_many caps v `prefix_of` pt /\ ((length pt + vwaits v <= length caps)%nat -> read_many caps v = pt).
Proof.
  revert v pt. induction caps as [|cap caps IH]; intros v pt Hi Hcs.
  { split; [apply prefix_nil|]. cbn. intros H. destruct pt; [done|cbn in H; lia]. }
  inversion Hcs as [|? ? Hcap Hcaps]; subst. destruct (decide (pt = [])) as [->|Hpt].
  { by rewrite read_many_end. }
  cbn [read_many]. pose proof (poll_read_ok v pt cap Hi Hpt Hcap) as H. unfold read_ok in H.
  destruct (vmess_read oc cap v) as [[[d| |]|] v']; try done.
  - destruct H as (Hd & Hw & pt' & -> & Hi'). destruct (IH v' pt' Hi' Hcaps) as [H1 H2]. split; [by apply prefix_app|].
    rewrite length_app. intros Hn. rewrite H2; [done|]. destruct d; [done|cbn in *; lia].
  - destruct H as [Hi' Hw]. destruct (IH v' pt Hi' Hcaps) as [H1 H2]. split; [done|]. intros Hn. apply H2. cbn [length] in Hn. lia.
Qed.
End reader.

(** ** Writing *)
Section writer.
Context {CL : CryptoLib} {CW : CryptoLaws CL} (oc : bool).
Abbreviation VS := (VmessStream Wire).

(** The wire format of chunks, and the cipher after them. *)
Fixpoint frames (c : option AeadCipher) (ps : list (list Z)) : res (list Z * option AeadCipher) :=
  match ps with
  | [] => Ok ([], c)
  | p :: ps =>
    '(b, c') ← sealed oc c p;
    '(w, c'') ← frames c' ps;
    Ok (be_bytes 2 (zlen b) ++ b ++ w, c'')
  end.
Definition chunk_ok (c : option AeadCipher) (p : list Z) : Prop := p <> [] /\ Z.of_nat (length p + overhead c) <= CHUNK_SIZE.

Lemma sealed_overhead c p b c' : sealed oc c p = Ok (b, c') -> overhead c' = overhead c.
Proof. destruct c as [c|]; [|by intros [= <- <-]]. intros H. by destruct (sealed_some oc _ _ _ _ H) as (c2 & _ & -> & _). Qed.

Lemma frames_app c ps qs : frames c (ps ++ qs) = ('(w, c') ← frames c ps; '(w', c'') ← frames c' qs; Ok (w ++ w', c'')).
Proof.
  revert c. induction ps as [|p ps IH]; intros c.
  - cbn. destruct (frames c qs) as [[w c']| |]; done.
  - cbn. destruct (sealed oc c p) as [[b c1]| |]; try done. cbn. rewrite IH. destruct (frames c1 ps) as [[w c2]| |]; try done. cbn.
    destruct (frames c2 qs) as [[w' c3]| |]; try done. cbn. by rewrite <- !app_assoc.
Qed.

Lemma frames_framed c ps w c' : frames c ps = Ok (w, c') -> Forall (chunk_ok c) ps -> framed oc c w ps.
Proof.
  revert c w. induction ps as [|p ps IH]; intros c w H Hf; cbn in H; [injection H as <- _; constructor|].
  destruct (sealed oc c p) as [[b c1]| |] eqn:E; try done. cbn in H. destruct (frames c1 ps) as [[w' c2]| |] eqn:E2; try done.
  cbn in H. injection H as <- <-. inversion Hf as [|? ? [Hp1 Hp2] Hps]; subst. econstructor; [done|done| |].
  - unfold zlen. rewrite (sealed_length oc _ _ _ _ E). unfold CHUNK_SIZE, MAX_CHUNK_SIZE in *. lia.
  - apply IH; [done|]. eapply Forall_impl; [done|]. intros q. unfold chunk_ok. by rewrite (sealed_overhead _ _ _ _ E).
Qed.

(** [base] was on the wire before, [done] has been accepted since, [rest] is
    what the caller is still offering. *)
Definition writer_inv (base : list Z) (c0 : option AeadCipher) (v : VS) (done rest : list Z) : Prop :=
  overhead (aead_write_cipher v) = overhead c0 /\
  exists ps, Forall (chunk_ok c0) ps /\ mjoin ps = done /\
  match write_state v with
  | BuildingData => vs_write_buf v = [] /\ exists F, frames c0 ps = Ok (F, aead_write_cipher v) /\ wi_out (vs_stream v) = base ++ F
  | FlushingData consumed total written =>
    chunk_ok c0 (take consumed rest) /\ (consumed <= length rest)%nat /\
    (exists F, frames c0 (ps ++ [take consumed rest]) = Ok (F, aead_write_cipher v) /\ wi_out (vs_stream v) ++ vs_write_buf v = base ++ F) /\
    (written + length (vs_write_buf v) = total)%nat /\ vs_write_buf v <> []
  end.

(** Building a chunk takes a prefix of what is offered. *)
Lemma build_eq (v : VS) rest v' : vs_write_buf v = [] -> write_build oc rest v = (Ready (Ok tt), v') ->
  let k := (length rest `min` (Z.to_nat CHUNK_SIZE - overhead (aead_write_cipher v)))%nat in
  exists b c', sealed oc (aead_write_cipher v) (take k rest) = Ok (b, c') /\
    v' = let f := be_bytes 2 (zlen b) ++ b in set_writer (vs_stream v) c' (FlushingData k (length f) 0) f v.
Proof.
  intros Hb H k. unfold write_build in H. rewrite Hb in H. cbn [app] in H.
  rewrite (take_ge (be_bytes 2 _)), (drop_ge (be_bytes 2 _)) in H by (by rewrite be_bytes_length). cbn [app] in H.
  assert (forall b c', sealed oc (aead_write_cipher v) (take k rest) = Ok (b, c') -> wrap 16 (Z.of_nat (k + overhead (aead_write_cipher v))) = zlen b) as Hz.
  { intros b c' Hs. pose proof (sealed_length oc _ _ _ _ Hs) as Hl. rewrite length_take in Hl.
    rewrite wrap_small; [unfold zlen; lia|]. unfold in_width, k, CHUNK_SIZE. destruct (aead_write_cipher v); cbn [overhead]; lia. }
  change (match aead_write_cipher v with Some _ => overhead_len | None => 0%nat end) with (overhead (aead_write_cipher v)) in H.
  fold k in H. unfold sealed in Hz |- *. destruct (aead_write_cipher v) as [c|] eqn:Ec; change (replicate overhead_len 0) with (replicate 16 0) in H.
  - destruct (encrypt_inplace oc c (take k rest ++ replicate 16 0)) as [[b| |] c2] eqn:Ee; try done. injection H as <-.
    exists b, (Some c2). split; [done|]. cbv zeta. by rewrite <- (Hz b (Some c2) eq_refl).
  - injection H as <-. exists (take k rest), None. split; [done|]. cbv zeta. by rewrite <- (Hz _ None eq_refl).
Qed.

Lemma write_build_ok base c0 v dn rest v' : writer_inv base c0 v dn rest -> write_state v = BuildingData -> rest <> [] ->
  write_build oc rest v = (Ready (Ok tt), v') -> writer_inv base c0 v' dn rest /\ vs_stream v' = vs_stream v /\ write_state v' <> BuildingData.
Proof.
  intros (Hov & ps & Hps & Hdone & Hi) Hs Hne H. rewrite Hs in Hi. destruct Hi as (Hb & F & HF & Hout).
  destruct (build_eq v rest v' Hb H) as (b & c' & Hse & ->). rewrite Hov in Hse |- *. cbn zeta.
  set (k := (length rest `min` (Z.to_nat CHUNK_SIZE - overhead c0))%nat) in *. split_and!; [|done|done].
  assert (0 < length rest)%nat by (destruct rest; [done|cbn; lia]).
  assert (0 < k)%nat as Hk by (unfold k, CHUNK_SIZE; destruct c0; cbn [overhead]; lia).
  split; [by rewrite <- Hov, <- (sealed_overhead _ _ _ _ Hse)|]. exists ps. split_and!; [done|done|]. cbn [write_state set_writer].
  split; [split; [by destruct rest, k; try done; lia|rewrite length_take; unfold k, CHUNK_SIZE; destruct c0; cbn [overhead]; lia]|].
  split; [lia|]. split; [|split; [done|by rewrite <- (app_nil_l b)]].
  exists (F ++ be_bytes 2 (zlen b) ++ b). rewrite frames_app, HF. cbn. rewrite Hse. cbn. rewrite app_nil_r. split; [done|]. by rewrite Hout, <- app_assoc.
Qed.

(** What a poll for writing leaves: a chunk accepted, or the same chunk still
    on its way. *)
Definition write_ok (base : list Z) (c0 : option AeadCipher) (dn rest : list Z) (o : Poll (res nat) * VS) : Prop :=
  match o with
  | (Ready (Ok k), v') => (0 < k <= length rest)%nat /\ writer_inv base c0 v' (dn ++ take k rest) (drop k rest)
  | (Ready Panic, _) => False
  | (_, v') => writer_inv base c0 v' dn rest
  end.

Lemma flush_written base c0 dn rest fuel v : writer_inv base c0 v dn rest -> write_state v <> BuildingData ->
  (length (vs_write_buf v) <= fuel)%nat -> write_ok base c0 dn rest (write_flush fuel v).
Proof.
  revert v. induction fuel as [|fuel IH]; intros v (Hov & ps & Hps & Hdone & Hi) Hs Hf;
    (destruct (write_state v) as [|k total wr] eqn:Ews; [done|]); destruct Hi as (Hch & Hk & (F & HF & Hout) & Htot & Hne);
    [destruct (vs_write_buf v); [done|cbn in Hf; lia]|].
  cbn [write_flush]. rewrite Ews.
  destruct (write_buf_cases (vs_stream v) (vs_write_buf v) Hne) as [(n & w' & -> & Hn & Hw)|(p & w' & -> & Hw & Hp)].
  - rewrite (proj2 (Nat.eqb_neq _ _)) by lia. destruct (total <=? wr + n)%nat eqn:E.
    + apply Nat.leb_le in E. assert (n = length (vs_write_buf v)) as -> by lia. cbn [write_ok].
      assert (k <> 0%nat) as Hk0 by (intros ->; by destruct Hch). split; [lia|]. split; [done|].
      exists (ps ++ [take k rest]). split_and!; [apply Forall_app; split; [done|by constructor]|by rewrite list.join_app, Hdone; cbn; rewrite app_nil_r|].
      cbn. split; [by apply drop_ge|]. exists F. split; [done|]. rewrite Hw, take_ge by done. done.
    + apply Nat.leb_gt in E. apply IH.
      * split; [done|]. exists ps. split_and!; try done. cbn. split_and!; try done.
        -- exists F. split; [done|]. rewrite Hw, <- app_assoc, take_drop. done.
        -- rewrite length_drop. lia.
        -- intros Hz. apply (f_equal length) in Hz. rewrite length_drop in Hz. cbn in Hz. lia.
      * done.
      * cbn. rewrite length_drop. lia.
  - assert (writer_inv base c0 (set_writer w' (aead_write_cipher v) (write_state v) (vs_write_buf v) v) dn rest) as Hinv.
    { split; [done|]. exists ps. split_and!; try done. cbn. rewrite Ews. split_and!; try done. exists F. by rewrite Hw. }
    rewrite Ews in Hinv. destruct Hp as [->|[e ->]]; exact Hinv.
Qed.

Lemma poll_write_ok base c0 dn rest v : writer_inv base c0 v dn rest -> rest <> [] ->
  (vmess_poll_write oc rest v).1 <> Ready Panic ->
  (forall e, (vmess_poll_write oc rest v).1 <> Ready (Err e)) -> write_ok base c0 dn rest (vmess_poll_write oc rest v).
Proof.
  intros Hi Hne Hp He. unfold vmess_poll_write in *. destruct (write_state v) as [|k t wr] eqn:Es.
  - unfold mbind, pm_bind in *. destruct (write_build oc rest v) as [[[[]| |]|] v1] eqn:Eb; cbn in Hp, He; try done.
    + destruct (write_build_ok _ _ _ _ _ _ Hi Es Hne Eb) as (Hi1 & _ & Hs1). by apply flush_written.
    + by destruct (He e).
    + unfold write_build in Eb. destruct (aead_write_cipher v) as [c|]; [|done]. by destruct (encrypt_inplace oc c _) as [[| |] ?].
  - apply flush_written; [done|by rewrite Es|done].
Qed.

(** [write_all]: the data is offered again and again until all of it was
    accepted, at most [n] times; the result is the stream when it was. *)
Fixpoint write_many (n : nat) (data : list Z) (v : VS) : option VS :=
  match data with
  | [] => Some v
  | _ =>
    match n with
    | O => None
    | S n' =>
      match vmess_poll_write oc data v with
      | (Ready (Ok k), v') => write_many n' (drop k data) v'
      | (Pending, v') => write_many n' data v'
      | _ => None
      end
    end
  end.

Lemma write_many_ok n base c0 dn data v v' : writer_inv base c0 v dn data -> write_state v = BuildingData \/ data <> [] ->
  write_many n data v = Some v' ->
  exists ps F, frames c0 ps = Ok (F, aead_write_cipher v') /\ Forall (chunk_ok c0) ps /\ mjoin ps = dn ++ data /\
    wi_out (vs_stream v') = base ++ F /\ write_state v' = BuildingData /\ vs_write_buf v' = [].
Proof.
  revert dn data v. induction n as [|n IH]; intros dn data v Hi Hs H; (destruct data as [|x data]; [|cbn in H; try done]).
  1, 2: destruct Hs as [Hs|]; [|done]; injection H as <-; destruct Hi as (_ & ps & Hps & Hdn & Hi); rewrite Hs in Hi;
    destruct Hi as (Hb & F & HF & Hout); exists ps, F; rewrite app_nil_r; done.
  pose proof (poll_write_ok base c0 dn (x :: data) v Hi ltac:(done)) as Hw.
  destruct (vmess_poll_write oc (x :: data) v) as [[[k| |]|] v1] eqn:E; try done.
  - destruct Hw as [Hk Hi1]; [done|done|]. destruct (IH _ _ _ Hi1) with (2 := H) as (ps & F & H1 & H2 & H3 & H4).
    + destruct (drop k (x :: data)) eqn:Ed; [left|by right]. destruct Hi1 as (_ & ps & _ & _ & Hi1). destruct (write_state v1) as [|c t wr]; [done|].
      destruct Hi1 as ([Hz _] & _). by destruct c.
    + exists ps, F. rewrite <- app_assoc, take_drop in H3. done.
  - destruct (IH _ _ _ (Hw ltac:(done) ltac:(done)) ltac:(by right) H) as (ps & F & H1). by exists ps, F.
Qed.

(** ** Writing ends

    The cipher can seal [k] more chunks: its iv is long enough, and where
    overflow is checked its 16-bit counter does not run out. *)
Definition lasting (c : option AeadCipher) (k : nat) : Prop :=
  match c with None => True | Some c => 12 <= zlen (ac_iv c) /\ 0 <= ac_count c /\ (oc = true -> ac_count c + Z.of_nat k < 2 ^ 16) end.

Lemma sealed_total c k p : lasting c (S k) -> exists b c', sealed oc c p = Ok (b, c') /\ lasting c' k.
Proof.
  destruct c as [c|]; [|by do 2 eexists]. intros (H1 & H2 & H3). unfold sealed, encrypt_inplace, with_cipher, cipher_nonce.
  rewrite zslice_ok by lia. cbn [mbind res_mbind res_bind].
  assert (exists n, arith oc 16 (ac_count c + 1) = Ok n /\ 0 <= n /\ (oc = true -> n = ac_count c + 1)) as (n & -> & Hn1 & Hn2).
  { unfold arith. case_bool_decide as Hw; [exists (ac_count c + 1); split_and!; [done|lia|done]|].
    destruct oc; [|exists (wrap 16 (ac_count c + 1)); split_and!; [done|by apply wrap_range|done]].
    destruct Hw. unfold in_width. specialize (H3 eq_refl). lia. }
  cbn [mbind res_mbind res_bind]. set (nonce := be_bytes 2 (ac_count c) ++ _).
  destruct (in_place_inverse (ac_alg c) (ac_key c) nonce [] p (replicate 16 0)) as (b & -> & _); [|done|].
  { unfold nonce. rewrite length_app, be_bytes_length, length_take, length_drop. unfold zlen in H1. lia. }
  exists b, (Some (counted n c)). split; [done|]. cbn. split_and!; [done|done|]. intros Ho. rewrite Hn2 by done. specialize (H3 Ho). lia.
Qed.

Lemma build_total (v : VS) rest k : vs_write_buf v = [] -> lasting (aead_write_cipher v) (S k) ->
  exists v', write_build oc rest v = (Ready (Ok tt), v') /\ lasting (aead_write_cipher v') k.
Proof.
  intros Hb Hl. unfold write_build. rewrite Hb. cbn [app].
  rewrite (take_ge (be_bytes 2 _)), (drop_ge (be_bytes 2 _)) by (by rewrite be_bytes_length). cbn [app].
  change (replicate overhead_len 0) with (replicate 16 0). destruct (aead_write_cipher v) as [c|] eqn:Ec.
  - set (p := take _ rest). destruct (sealed_total (Some c) k p Hl) as (b & c' & Hs & Hl'). unfold sealed in Hs.
    destruct (encrypt_inplace oc c (p ++ replicate 16 0)) as [[b'| |] c2]; try done. injection Hs as <- <-. by eexists.
  - by eexists.
Qed.

(** Flushing on a wire that accepts enough: it finishes or a wait is used up. *)
Lemma flush_total fuel v k total wr : write_state v = FlushingData k total wr -> (wr + length (vs_write_buf v) = total)%nat ->
  vs_write_buf v <> [] -> (length (vs_write_buf v) <= fuel)%nat -> no_errors (wi_ev (vs_stream v)) ->
  (length (vs_write_buf v) <= accepts (wi_ev (vs_stream v)))%nat ->
  exists p v', write_flush fuel v = (p, v') /\ no_errors (wi_ev (vs_stream v')) /\ aead_write_cipher v' = aead_write_cipher v /\
    (accepts (wi_ev (vs_stream v)) + length (vs_write_buf v') <= accepts (wi_ev (vs_stream v')) + length (vs_write_buf v))%nat /\
    ((p = Ready (Ok k) /\ write_state v' = BuildingData /\ blocks (wi_ev (vs_stream v')) <= blocks (wi_ev (vs_stream v)))%nat \/
     (p = Pending /\ (exists wr', write_state v' = FlushingData k total wr') /\ blocks (wi_ev (vs_stream v')) < blocks (wi_ev (vs_stream v)))%nat).
Proof.
  revert v wr. induction fuel as [|fuel IH]; intros v wr Hs Ht Hne Hf He Ha; [destruct (vs_write_buf v); [done|cbn in Hf; lia]|].
  cbn [write_flush]. rewrite Hs. unfold poll_write_buf. destruct (vs_write_buf v) as [|x buf] eqn:Eb; [done|]. set (b := x :: buf) in *.
  unfold poll_write, wire_write. destruct (wi_ev (vs_stream v)) as [|[n| |e] ev] eqn:Ee; [cbn in Ha; lia| | |].
  - pose proof (accepted_bound n b) as [H1 H2]. specialize (H2 ltac:(done)). set (m := accepted n b) in *.
    rewrite (proj2 (Nat.eqb_neq _ _)) by lia. inversion He as [|? ? _ He']; subst. cbn [accepts blocks] in *.
    destruct (wr + length b <=? wr + m)%nat eqn:El.
    + apply Nat.leb_le in El. do 2 eexists. split; [done|]. cbn. rewrite length_drop. split_and!; try done; [lia|]. left. split_and!; [done|done|lia].
    + apply Nat.leb_gt in El. assert (length b = S (length buf)) as Hlb by done.
      set (v1 := set_writer _ _ _ _ _). destruct (IH v1 (wr + m)%nat) as (p & v' & E & R1 & R2 & R3 & R4); cbn; rewrite ?length_drop; try done; try lia.
      * intros Hz. apply (f_equal length) in Hz. rewrite length_drop in Hz. cbn [length] in Hz. lia.
      * exists p, v'. split; [done|]. cbn in R2, R3, R4. rewrite length_drop in R3. split_and!; try done. lia.
  - inversion He as [|? ? _ He']; subst. do 2 eexists. split; [done|]. cbn. split_and!; try done. right. split_and!; [done|by exists wr|lia].
  - inversion He as [|? ? H _]. by destruct (H e).
Qed.

(** How many acceptances are enough for what is left: a chunk adds at most 18
    bytes to at least one. *)
Definition work (v : VS) (rest : list Z) : nat :=
  match write_state v with
  | BuildingData => 19 * length rest
  | FlushingData k _ _ => length (vs_write_buf v) + 19 * (length rest - k)
  end.

Lemma build_work base c0 v dn rest v' : writer_inv base c0 v dn rest -> write_state v = BuildingData -> rest <> [] ->
  write_build oc rest v = (Ready (Ok tt), v') -> (work v' rest <= work v rest)%nat.
Proof.
  intros (Hov & ps & _ & _ & Hi) Hs Hne H. rewrite Hs in Hi. destruct Hi as (Hb & _).
  destruct (build_eq v rest v' Hb H) as (b & c' & Hse & ->). unfold work. rewrite Hs. cbn [write_state set_writer vs_write_buf].
  pose proof (sealed_length oc _ _ _ _ Hse) as Hl. rewrite length_take in Hl. rewrite length_app, be_bytes_length, Hl.
  assert (0 < length rest)%nat by (destruct rest; [done|cbn; lia]). unfold CHUNK_SIZE. destruct (aead_write_cipher v); cbn [overhead]; lia.
Qed.

Lemma lasting_le c k j : lasting c k -> (j <= k)%nat -> lasting c j.
Proof. destruct c as [c|]; [|done]. intros (H1 & H2 & H3) Hj. split_and!; [done|done|]. intros Ho. specialize (H3 Ho). lia. Qed.

(** Enough of everything is left to write [rest]. *)
Definition supplied (v : VS) (rest : list Z) : Prop :=
  no_errors (wi_ev (vs_stream v)) /\ (work v rest <= accepts (wi_ev (vs_stream v)))%nat /\
  lasting (aead_write_cipher v) (match write_state v with BuildingData => length rest | FlushingData k _ _ => length rest - k end).
Definition vblocks (v : VS) : nat := blocks (wi_ev (vs_stream v)).

Definition write_goes (v : VS) (rest : list Z) (o : Poll (res nat) * VS) : Prop :=
  match o with
  | (Ready (Ok k), v') => supplied v' (drop k rest) /\ (vblocks v' <= vblocks v)%nat /\ write_state v' = BuildingData
  | (Pending, v') => supplied v' rest /\ (vblocks v' < vblocks v)%nat
  | _ => False
  end.

Lemma flush_goes_on base c0 dn rest v : writer_inv base c0 v dn rest -> write_state v <> BuildingData -> supplied v rest ->
  write_goes v rest (write_out v).
Proof.
  intros (_ & ps & _ & _ & Hi) Hs (He & Hw & Hl). destruct (write_state v) as [|k total wr] eqn:Es; [done|].
  destruct Hi as (_ & Hk & _ & Ht & Hne). unfold work in Hw. rewrite Es in Hw.
  destruct (flush_total (length (vs_write_buf v)) v k total wr Es Ht Hne) as (p & v' & E & R1 & R2 & R3 & R4); [done|done|lia|].
  unfold write_out. rewrite E. unfold write_goes, supplied, work.
  destruct R4 as [(-> & Hst & Hb)|(-> & (wr' & Hst) & Hb)]; rewrite Hst, R2, ?length_drop; split_and!; try done; lia.
Qed.

Lemma poll_write_goes base c0 dn rest v : writer_inv base c0 v dn rest -> rest <> [] -> supplied v rest ->
  write_goes v rest (vmess_poll_write oc rest v).
Proof.
  intros Hi Hne Hsup. unfold vmess_poll_write. destruct (write_state v) as [|k total wr] eqn:Es.
  2:{ by eapply flush_goes_on; [|rewrite Es|]. }
  pose proof Hsup as (He & Hw & Hl). rewrite Es in Hl.
  assert (exists m, length rest = S m) as [m Hm] by (destruct rest; [done|by eexists]). rewrite Hm in Hl.
  pose proof Hi as (_ & ps & _ & _ & Hi0). rewrite Es in Hi0. destruct Hi0 as [Hb _].
  destruct (build_total v rest m Hb Hl) as (v1 & Eb & Hl1). rewrite (pm_bind_ready _ _ _ _ _ Eb).
  destruct (write_build_ok _ _ _ _ _ _ Hi Es Hne Eb) as (Hi1 & Hst & Hs1).
  assert (write_goes v1 rest (write_out v1)) as Hg.
  { eapply flush_goes_on; [done|done|]. split_and!; [by rewrite Hst| |].
    - rewrite Hst. pose proof (build_work _ _ _ _ _ _ Hi Es Hne Eb). lia.
    - pose proof Hi1 as (_ & ps1 & _ & _ & Hi2). destruct (write_state v1) as [|k t w]; [done|]. destruct Hi2 as ([Hz _] & _).
      eapply lasting_le; [done|]. destruct k; [done|lia]. }
  unfold write_goes, vblocks in *. by rewrite <- Hst.
Qed.

(** With enough polls, everything is written. *)
Lemma write_many_total n base c0 dn rest v : writer_inv base c0 v dn rest -> supplied v rest -> (length rest + vblocks v <= n)%nat ->
  exists v', write_many n rest v = Some v'.
Proof.
  revert dn rest v. induction n as [|n IH]; intros dn rest v Hi Hsup Hn; (destruct rest as [|x rest]; [by eexists|]); [cbn in Hn; lia|].
  set (data := x :: rest) in *. assert (data <> []) as Hne by done.
  pose proof (poll_write_goes _ _ _ _ _ Hi Hne Hsup) as Hg. pose proof (poll_write_ok _ _ _ _ _ Hi Hne) as Hok.
  cbn [write_many]. fold data. destruct (vmess_poll_write oc data v) as [[[k| |]|] v1] eqn:E; try done.
  - destruct Hok as [Hk Hi1]; [done|done|]. destruct Hg as (Hs1 & Hb & _). apply (IH _ _ _ Hi1 Hs1). rewrite length_drop. lia.
  - destruct Hg as (Hs1 & Hb). specialize (Hok ltac:(done) ltac:(done)). apply (IH _ _ _ Hok Hs1). lia.
Qed.
End writer.

(** What a reader meets before the data: nothing if it has passed the
    response header, or a header it accepts. *)
Definition preamble {CL : CryptoLib} (r : VmessStream Wire) (pre : list Z) : Prop :=
  (read_state r = StreamWaitingLength /\ pre = []) \/
  (read_state r = AeadWaitingHeaderSize /\ is_aead r = true /\
   exists hlen n hdr, pre = hlen ++ hdr /\ length hlen = 18%nat /\ good_length r hlen n /\ length hdr = (n + 16)%nat /\ good_header r hdr).

(** C24: the VMess stream carries its data.  On a wire that takes what it is
    offered, however it cuts and delays the bytes, all data offered to the
    stream is written; and a stream that reads with the same cipher, behind
    a response header it accepts, gets exactly that data, however the bytes
    are cut, however small the buffers are, after at most as many polls as
    there are bytes and waits. *)
Theorem vmess_stream_roundtrip {CL : CryptoLib} {CW : CryptoLaws CL} (oc : bool) (w : VmessStream Wire) (data : list Z) (n : nat)
    (Hws : write_state w = BuildingData) (Hwb : vs_write_buf w = [])
    (Hsup : supplied oc w data) (Hn : (length data + vblocks w <= n)%nat) :
  exists w' sent, write_many oc n data w = Some w' /\ wi_out (vs_stream w') = wi_out (vs_stream w) ++ sent /\
    forall (r : VmessStream Wire) (pre : list Z) (caps : list nat),
      aead_read_cipher r = aead_write_cipher w -> read_pos r = 0%nat -> preamble r pre ->
      bytes_of (wi_in (vs_stream r)) = pre ++ sent -> Forall (fun c => 0 < c)%nat caps ->
      read_many oc caps r `prefix_of` data /\
      ((length data + vwaits r <= length caps)%nat -> read_many oc caps r = data).
Proof.
  set (c0 := aead_write_cipher w). assert (writer_inv oc (wi_out (vs_stream w)) c0 w [] data) as Hi.
  { split; [done|]. exists []. split_and!; [done|done|]. rewrite Hws. split; [done|]. exists []. by rewrite app_nil_r. }
  destruct (write_many_total oc n _ _ _ _ _ Hi Hsup Hn) as [w' Hw'].
  destruct (write_many_ok oc _ _ _ _ _ _ _ Hi (or_introl Hws) Hw') as (ps & F & HF & Hps & Hj & Hout & _).
  exists w', F. split_and!; [done|done|]. intros r pre caps Hci Hpos Hpre Hb Hcaps. apply read_many_ok; [|done].
  assert (framed oc (aead_read_cipher r) F ps) as Hfr by (rewrite Hci; by eapply frames_framed).
  assert (collected (decompose r) []) as Hcol by (split; cbn; by rewrite Hpos).
  cbn in Hj. unfold reader_inv, state_inv. destruct Hpre as [[Hrs ->]|(Hrs & Ha & hlen & k & hdr & -> & H1 & H2 & H3 & H4)]; rewrite Hrs; exists [];
    (split; [done|]; split; [cbn; lia|]); cbn [app]; rewrite Hb.
  - by exists ps.
  - split; [done|]. exists hlen, k, hdr, F, ps. by rewrite <- app_assoc.
Qed.

(** ** Witnesses *)
Definition demo_cipher : AeadCipher := cipher_new (replicate 16 7) AlgAes128Gcm (replicate 16 1).
Definition demo_vmess (io : Wire) : VmessStream Wire := {|
  vs_stream := io; aead_read_cipher := Some demo_cipher; aead_write_cipher := Some demo_cipher;
  vs_dst := Domain (lit "a.b") 80; vs_id := {| uuid := []; cmd_key := [] |};
  req_body_iv := []; req_body_key := []; resp_body_iv := replicate 16 7; resp_body_key := replicate 16 1; resp_v := 9;
  vs_security := SECURITY_AES_128_GCM; is_aead := true; is_udp := false;
  read_state := StreamWaitingLength; read_pos := 0; read_buf := []; write_state := BuildingData; vs_write_buf := [] |}.
Definition demo_out : Wire := {| wi_in := []; wi_ev := WrPending :: WrAccept 2 :: replicate 60 (WrAccept 4); wi_out := []; wi_shut := false |}.

Lemma vmess_stream_roundtrip_witness : exists w' sent, write_many true 4 [1; 2; 3] (demo_vmess demo_out) = Some w' /\
  wi_out (vs_stream w') = sent /\
  read_many true [2; 2; 2; 2; 2; 2]%nat (demo_vmess {| wi_in := segments [take 1 sent; drop 1 sent]; wi_ev := []; wi_out := []; wi_shut := false |}) = [1; 2; 3].
Proof.
  destruct (vmess_stream_roundtrip true (demo_vmess demo_out) [1; 2; 3] 4 eq_refl eq_refl) as (w' & sent & E & Ho & H).
  - split_and!; [cbn; by repeat constructor|cbn; lia|cbn; split_and!; [vm_compute; discriminate|lia|intros _; lia]].
  - cbn. lia.
  - exists w', sent. split; [exact E|]. cbn in Ho. split; [exact Ho|].
    refine (proj2 (H (demo_vmess _) [] [2; 2; 2; 2; 2; 2]%nat eq_refl eq_refl (or_introl (conj eq_refl eq_refl)) _ _) _).
    + cbn [vs_stream demo_vmess wi_in]. rewrite bytes_of_segments. cbn [mjoin list_join]. rewrite app_nil_r. apply take_drop.
    + repeat constructor.
    + vm_compute in E. injection E as <-. cbn in Ho. subst sent. vm_compute. repeat constructor.
Defined.

(** A peer that announces a chunk shorter than a tag stops the client: the
    position of the tag is computed without a check. *)
Lemma short_chunk_panics : let r := demo_vmess {| wi_in := [RdData 0 [3; 1; 2; 3]]; wi_ev := []; wi_out := []; wi_shut := false |} in
  (vmess_read false 10%nat r).1 = Ready Panic.
Proof. reflexivity. Qed.

(** The counter in the nonce has 16 bits: the first 65536 chunks have
    different nonces; the next one panics where overflow is checked and
    otherwise uses the first nonce again. *)
Lemma nonces_differ (c : AeadCipher) i j n : 0 <= i < 2 ^ 16 -> 0 <= j < 2 ^ 16 ->
  cipher_nonce (counted i c) = Ok n -> cipher_nonce (counted j c) = Ok n -> i = j.
Proof.
  unfold cipher_nonce. cbn [ac_iv counted ac_count]. destruct (zslice (ac_iv c) 2 12) as [iv| |]; try done. cbn [mbind res_mbind res_bind].
  intros Hi Hj E1 E2. rewrite <- E2 in E1. apply (inj Ok) in E1. apply app_inj_2 in E1 as [H _]; [|done].
  rewrite <- (be_val_bytes 2 i), <- (be_val_bytes 2 j) by (unfold in_width; lia). by rewrite H.
Qed.
Lemma nonce_wraps {CL : CryptoLib} (c : AeadCipher) b : ac_count c = 2 ^ 16 - 1 -> 12 <= zlen (ac_iv c) ->
  (encrypt_inplace true c b).1 = Panic /\ ac_count (encrypt_inplace false c b).2 = 0.
Proof.
  intros Hc Hl. unfold encrypt_inplace, with_cipher, cipher_nonce. rewrite zslice_ok by lia. rewrite Hc. done.
Qed.
