(* ===== verification/Vless.v ===== *)
(** * VLESS ([proxy/vless/{stream,datagram}.rs])

    The stream sends its header with the first write and takes the server's
    response off before the first read; both are futures made anew on every
    poll.  Datagrams are length-prefixed in the stream; the sink keeps what
    it still has to write between polls, the reader keeps how much of a
    packet is missing but not half of a length. *)

From S2P Require Import Prelude Str Net Session Crypto Async Vmess.

(* @src clash-lib/src/proxy/vless/stream.rs ~^const VLESS_VERSION~ VLESS_VERSION *)
Definition VLESS_VERSION : Z := 0.
(* @src clash-lib/src/proxy/vless/stream.rs ~^const VLESS_COMMAND_TCP~ VLESS_COMMAND_TCP *)
Definition VLESS_COMMAND_TCP : Z := 1.
(* @src clash-lib/src/proxy/vless/stream.rs ~^const VLESS_COMMAND_UDP~ VLESS_COMMAND_UDP *)
Definition VLESS_COMMAND_UDP : Z := 2.

(* @src clash-lib/src/proxy/vless/stream.rs ~^pub struct VlessStream~ VlessStream *)
Record VlessStream (S : Type) : Type := {
  vl_inner : S; handshake_done : bool; handshake_sent : bool; response_received : bool;
  vl_uuid : list Z; vl_destination : SocksAddr; vl_is_udp : bool;
}.
Arguments vl_inner {S} _.
Arguments handshake_done {S} _.
Arguments handshake_sent {S} _.
Arguments response_received {S} _.
Arguments vl_uuid {S} _.
Arguments vl_destination {S} _.
Arguments vl_is_udp {S} _.

(* @src clash-lib/src/proxy/vless/datagram.rs ~^const MAX_PACKET_LENGTH~ MAX_PACKET_LENGTH *)
Definition MAX_PACKET_LENGTH : nat := Z.to_nat 8192.
(* @src clash-lib/src/proxy/vless/datagram.rs ~^pub struct OutboundDatagramVless~ OutboundDatagramVless *)
Record OutboundDatagramVless (S : Type) : Type := {
  vd_inner : S; vd_remote_addr : SocksAddr; vd_write_buf : list Z; vd_pending_packet : option UdpPacket;
  vd_remaining_bytes : nat; vd_flushed : bool;
}.
Arguments vd_inner {S} _.
Arguments vd_remote_addr {S} _.
Arguments vd_write_buf {S} _.
Arguments vd_pending_packet {S} _.
Arguments vd_remaining_bytes {S} _.
Arguments vd_flushed {S} _.

Section vless.
Context {S : Type} {AR : AsyncRead S} {AW : AsyncWrite S}.
Notation VL := (VlessStream S).
Notation VD := (OutboundDatagramVless S).

(** ** The stream *)

(** [uuid] is the result of [Uuid::parse_str]. *)
(* @src clash-lib/src/proxy/vless/stream.rs ~    pub fn new\(~ VlessStream::new *)
Definition vless_new (stream : S) (uuid : option (list Z)) (dst : SocksAddr) (is_udp : bool) : res VL :=
  u ← ok_or uuid "invalid UUID format";
  d ← socks_clone dst;
  Ok {| vl_inner := stream; handshake_done := false; handshake_sent := false; response_received := false;
        vl_uuid := u; vl_destination := d; vl_is_udp := is_udp |}.

Definition set_stream (i : S) (v : VL) : VL := {|
  vl_inner := i; handshake_done := handshake_done v; handshake_sent := handshake_sent v; response_received := response_received v;
  vl_uuid := vl_uuid v; vl_destination := vl_destination v; vl_is_udp := vl_is_udp v |}.
Definition set_sent (v : VL) : VL := {|
  vl_inner := vl_inner v; handshake_done := handshake_done v; handshake_sent := true; response_received := response_received v;
  vl_uuid := vl_uuid v; vl_destination := vl_destination v; vl_is_udp := vl_is_udp v |}.
Definition set_received (v : VL) : VL := {|
  vl_inner := vl_inner v; handshake_done := true; handshake_sent := handshake_sent v; response_received := true;
  vl_uuid := vl_uuid v; vl_destination := vl_destination v; vl_is_udp := vl_is_udp v |}.
Definition on_stream {A} (m : PM S A) : PM VL A := zoom vl_inner set_stream m.

(* @src clash-lib/src/proxy/vless/stream.rs ~    fn build_handshake_header~ VlessStream::build_handshake_header *)
Definition build_handshake_header (v : VL) : list Z :=
  write_to_buf_vmess (vl_destination v)
    ([VLESS_VERSION] ++ vl_uuid v ++ [0] ++ [if vl_is_udp v then VLESS_COMMAND_UDP else VLESS_COMMAND_TCP]).

(* @src clash-lib/src/proxy/vless/stream.rs ~    async fn send_handshake_with_data~ VlessStream::send_handshake_with_data *)
Definition send_handshake_with_data (data : list Z) : PM VL nat := fun v =>
  if handshake_sent v then (Ready (Ok 0%nat), v)
  else (_ ← on_stream (write_all_fut (build_handshake_header v ++ data)); _ ← modify set_sent; mret (length data)) v.
(* @src clash-lib/src/proxy/vless/stream.rs ~    async fn receive_response~ VlessStream::receive_response *)
Definition receive_response : PM VL unit := fun v =>
  if response_received v then (Ready (Ok tt), v)
  else
    (response ← on_stream (read_exact_fut 2);
     if negb (default 0 (response !! 0%nat) =? VLESS_VERSION) then fail (Err "invalid VLESS response version")
     else
       let additional_info_len := default 0 (response !! 1%nat) in
       _ ← (if 0 <? additional_info_len then on_stream (read_exact_fut (Z.to_nat additional_info_len)) else mret []);
       modify set_received) v.

(* @src clash-lib/src/proxy/vless/stream.rs ~    fn poll_read\(~ VlessStream::poll_read *)
Definition vless_poll_read (cap : nat) : PM VL (list Z) := fun v =>
  if handshake_sent v && negb (response_received v) then (_ ← receive_response; on_stream (poll_read cap)) v
  else on_stream (poll_read cap) v.
(* @src clash-lib/src/proxy/vless/stream.rs ~    fn poll_write\(~ VlessStream::poll_write *)
Definition vless_poll_write (buf : list Z) : PM VL nat := fun v =>
  if negb (handshake_sent v) then send_handshake_with_data buf v else on_stream (poll_write buf) v.
#[global] Instance vless_read : AsyncRead VL := vless_poll_read.
#[global] Instance vless_write : AsyncWrite VL := {|
  poll_write := vless_poll_write; poll_flush := on_stream poll_flush; poll_shutdown := on_stream poll_shutdown |}.

(** ** Datagrams *)
(* @src clash-lib/src/proxy/vless/datagram.rs ~    pub fn new\(inner~ OutboundDatagramVless::new *)
Definition vless_datagram_new (inner : S) (remote_addr : SocksAddr) : VD := {|
  vd_inner := inner; vd_remote_addr := remote_addr; vd_write_buf := []; vd_pending_packet := None; vd_remaining_bytes := 0; vd_flushed := true |}.
Definition set_dinner (i : S) (d : VD) : VD := {|
  vd_inner := i; vd_remote_addr := vd_remote_addr d; vd_write_buf := vd_write_buf d; vd_pending_packet := vd_pending_packet d;
  vd_remaining_bytes := vd_remaining_bytes d; vd_flushed := vd_flushed d |}.
Definition set_write (b : list Z) (p : option UdpPacket) (f : bool) (d : VD) : VD := {|
  vd_inner := vd_inner d; vd_remote_addr := vd_remote_addr d; vd_write_buf := b; vd_pending_packet := p;
  vd_remaining_bytes := vd_remaining_bytes d; vd_flushed := f |}.
Definition set_remaining (n : nat) (d : VD) : VD := {|
  vd_inner := vd_inner d; vd_remote_addr := vd_remote_addr d; vd_write_buf := vd_write_buf d; vd_pending_packet := vd_pending_packet d;
  vd_remaining_bytes := n; vd_flushed := vd_flushed d |}.
Definition on_dinner {A} (m : PM S A) : PM VD A := zoom vd_inner set_dinner m.

Definition length_prefixed (payload : list Z) : list Z := be_bytes 2 (wrap 16 (zlen payload)) ++ payload.
(** [write_packet]; the callers never pass more than the limit. *)
(* @src clash-lib/src/proxy/vless/datagram.rs ~    fn write_packet~ OutboundDatagramVless::write_packet *)
Definition write_packet (payload : list Z) : res (list Z) :=
  if (MAX_PACKET_LENGTH <? length payload)%nat then Err "packet too large" else Ok (length_prefixed payload).
(* @src clash-lib/src/proxy/vless/datagram.rs ~    fn start_send~ OutboundDatagramVless::start_send *)
Definition vless_start_send (item : UdpPacket) (d : VD) : res VD :=
  match vd_pending_packet d with
  | Some _ => Err "previous packet not yet sent"
  | None =>
    let total_len := length (up_data item) in
    if (total_len =? 0)%nat then Ok d
    else
      let chunk_size := if (total_len <=? MAX_PACKET_LENGTH)%nat then total_len else MAX_PACKET_LENGTH in
      b ← write_packet (take chunk_size (up_data item));
      Ok (set_write b (Some item) false d)
  end.

(* @src clash-lib/src/proxy/vless/datagram.rs 144 153 OutboundDatagramVless::poll_flush (loop) *)
Fixpoint write_out (fuel : nat) : PM VD unit := fun d =>
  match vd_write_buf d, fuel with
  | [], _ => (Ready (Ok tt), d)
  | _, O => (Ready Panic, d)
  | _, Datatypes.S fuel =>
    (n ← on_dinner (poll_write (vd_write_buf d));
     if (n =? 0)%nat then fail (Err "failed to write packet data")
     else
       _ ← modify (fun d => set_write (drop n (vd_write_buf d)) (vd_pending_packet d) (vd_flushed d) d);
       write_out fuel) d
  end.
(* @src clash-lib/src/proxy/vless/datagram.rs ~    fn poll_flush\(~ OutboundDatagramVless::poll_flush *)
Definition vless_flush : PM VD unit := fun d =>
  if vd_flushed d then (Ready (Ok tt), d)
  else
    match vd_write_buf d with
    | [] => (Ready (Ok tt), set_write [] None true d)
    | b => (_ ← write_out (length b); _ ← on_dinner poll_flush; modify (fun d => set_write (vd_write_buf d) None true d)) d
    end.
(* @src clash-lib/src/proxy/vless/datagram.rs ~    fn poll_ready\(~ OutboundDatagramVless::poll_ready *)
Definition vless_ready : PM VD unit := fun d => if negb (vd_flushed d) then vless_flush d else (Ready (Ok tt), d).
(* @src clash-lib/src/proxy/vless/datagram.rs ~    fn poll_close\(~ OutboundDatagramVless::poll_close *)
Definition vless_close : PM VD unit := _ ← vless_flush; on_dinner poll_shutdown.

(** One read is asked for the rest of a packet, or for a length; a length of
    zero is skipped, so the loop ends when the stream has nothing more. *)
(* @src clash-lib/src/proxy/vless/datagram.rs ~    fn poll_next\(~ OutboundDatagramVless::poll_next *)
Fixpoint vless_next (fuel : nat) : PM VD (option UdpPacket) := fun d =>
  match fuel with
  | O => (Ready Panic, d)
  | Datatypes.S fuel =>
    if (0 <? vd_remaining_bytes d)%nat then
      let to_read := (vd_remaining_bytes d `min` Z.to_nat 65536)%nat in
      match on_dinner (poll_read to_read) d with
      | (Pending, d) => (Pending, d)
      | (Ready Panic, d) => (Ready Panic, d)
      | (Ready (Err _), d) => (Ready (Ok None), d)
      | (Ready (Ok []), d) => (Ready (Ok None), d)
      | (Ready (Ok data), d) =>
        let d := set_remaining (vd_remaining_bytes d - length data) d in
        match socks_clone (vd_remote_addr d) with
        | Ok a => (Ready (Ok (Some {| up_data := data; up_src_addr := a; up_dst_addr := a |})), d)
        | Err e => (Ready (Err e), d)
        | Panic => (Ready Panic, d)
        end
      end
    else
      match on_dinner (poll_read 2) d with
      | (Pending, d) => (Pending, d)
      | (Ready Panic, d) => (Ready Panic, d)
      | (Ready (Err _), d) => (Ready (Ok None), d)
      | (Ready (Ok [b0; b1]), d) =>
        let packet_len := Z.to_nat (be_val [b0; b1]) in
        if (packet_len =? 0)%nat then vless_next fuel d
        else if (MAX_PACKET_LENGTH <? packet_len)%nat then (Ready (Ok None), d)
        else vless_next fuel (set_remaining packet_len d)
      | (Ready (Ok _), d) => (Ready (Ok None), d)
      end
  end.
End vless.

(** * Theorems *)
Section wire.
Notation VD := (OutboundDatagramVless Wire).

(** ** The sink, under every schedule *)

(** [buf] is still to be written after [out], and the schedule takes it
    sooner or later. *)
Definition owes (out buf : list Z) (room : nat) (d : VD) : Prop :=
  wi_out (vd_inner d) = out /\ vd_write_buf d = buf /\ no_errors (wi_ev (vd_inner d)) /\ (length buf + room <= accepts (wi_ev (vd_inner d)))%nat.

Lemma write_out_spec fuel out buf room (d : VD) : (length buf <= fuel)%nat -> owes out buf room d -> vd_flushed d = false ->
  exists p d', write_out fuel d = (p, d') /\ vd_flushed d' = false /\
    ((p = Ready (Ok tt) /\ owes (out ++ buf) [] room d' /\ (blocks (wi_ev (vd_inner d')) <= blocks (wi_ev (vd_inner d)))%nat) \/
     (p = Pending /\ (exists k, owes (out ++ take k buf) (drop k buf) room d') /\ (blocks (wi_ev (vd_inner d')) < blocks (wi_ev (vd_inner d)))%nat)).
Proof.
  revert out buf d. induction fuel as [|fuel IH]; intros out buf d Hf (Ho & Hb & He & Ha) Hfl.
  { destruct buf; [|cbn in Hf; lia]. exists (Ready (Ok tt)), d. cbn [write_out]. rewrite Hb. split_and!; [done|done|].
    left. rewrite app_nil_r. split_and!; [done|done|lia]. }
  cbn [write_out]. rewrite Hb. destruct buf as [|x buf].
  { exists (Ready (Ok tt)), d. split_and!; [done|done|]. left. rewrite app_nil_r. split_and!; [done|done|lia]. }
  set (b := x :: buf) in *. unfold mbind, pm_bind, on_dinner, zoom, poll_write, wire_write.
  destruct (wi_ev (vd_inner d)) as [|[n| |m] ev] eqn:Ee; [cbn in Ha; lia| | |].
  - destruct (accepted_bound n b) as [Hle Hpos]. specialize (Hpos ltac:(done)). destruct (Nat.eqb_spec (accepted n b) 0); [lia|].
    unfold modify. set (d1 := set_write _ _ _ _). apply Forall_cons in He as [_ He].
    destruct (IH (out ++ take (accepted n b) b) (drop (accepted n b) b) d1) as (p & d' & E & Hfl' & H).
    { rewrite length_drop. lia. }
    { split_and!; cbn; [by rewrite Ho|by rewrite Hb|done|]. rewrite length_drop. cbn [accepts] in Ha. lia. }
    { done. }
    exists p, d'. split; [exact E|]. split; [done|]. cbn [blocks]. rewrite <- app_assoc, take_drop in H.
    destruct H as [(-> & H1 & H2)|(-> & (k & H1) & H2)]; [left; split_and!; done|right]. split_and!; [done| |done].
    exists (accepted n b + k)%nat. by rewrite <- app_assoc, take_take_drop, drop_drop in H1.
  - eexists Pending, _. split; [reflexivity|]. split; [done|]. right. apply Forall_cons in He as [_ He]. split_and!; [done| |cbn; lia].
    exists 0%nat. rewrite app_nil_r. by split_and!.
  - apply Forall_cons in He as [He _]. by destruct (He m).
Qed.

(** Polled again and again until it is done. *)
Fixpoint flush_until (n : nat) (d : VD) : option VD :=
  match n with
  | O => None
  | S n => match vless_flush d with
           | (Ready (Ok tt), d') => Some d'
           | (Pending, d') => flush_until n d'
           | _ => None
           end
  end.

Lemma flush_until_spec n out buf room (d : VD) : owes out buf room d -> vd_flushed d = false -> (blocks (wi_ev (vd_inner d)) < n)%nat ->
  exists d', flush_until n d = Some d' /\ owes (out ++ buf) [] room d' /\ vd_flushed d' = true /\ vd_pending_packet d' = None /\
    (blocks (wi_ev (vd_inner d')) <= blocks (wi_ev (vd_inner d)))%nat.
Proof.
  revert out buf d. induction n as [|n IH]; intros out buf d Hd Hfl Hn; [lia|]. cbn [flush_until]. unfold vless_flush. rewrite Hfl.
  destruct (vd_write_buf d) as [|x b] eqn:Eb.
  { eexists. split; [reflexivity|]. destruct Hd as (? & Hb & ? & ?). rewrite Eb in Hb. subst buf. rewrite app_nil_r. by split_and!. }
  assert (buf = x :: b) as -> by (destruct Hd as (_ & Hb & _); congruence).
  destruct (write_out_spec (length (x :: b)) out (x :: b) room d ltac:(done) Hd Hfl) as (p & d1 & E & Hfl1 & H).
  unfold mbind, pm_bind. rewrite E. destruct H as [(-> & H1 & H2)|(-> & (k & H1) & H2)].
  - unfold on_dinner, zoom, poll_flush, wire_write, wire_ready. destruct H1 as (Ho & Hb & He & Ha).
    destruct (wi_ev (vd_inner d1)) as [|[m| |m] ev] eqn:Ee.
    + eexists. split; [reflexivity|]. split_and!; try done; [split_and!; cbn; by rewrite ?Ee|cbn; by rewrite Ee].
    + eexists. split; [reflexivity|]. split_and!; try done; [split_and!; cbn; by rewrite ?Ee|cbn; by rewrite Ee].
    + apply Forall_cons in He as [_ He]. set (d2 := set_dinner _ _). destruct (IH (out ++ x :: b) [] d2) as (d' & E' & H1' & H2' & H3' & H4').
      { split_and!; done. }
      { done. }
      { cbn in *. lia. }
      exists d'. rewrite app_nil_r in H1'. split_and!; try done. cbn in *. lia.
    + apply Forall_cons in He as [He _]. by destruct (He m).
  - destruct (IH _ _ d1 H1 Hfl1) as (d' & E' & H1' & H2' & H3' & H4'); [lia|]. exists d'. rewrite <- app_assoc, take_drop in H1'. split_and!; try done. lia.
Qed.

(** Packets one after the other; each waits for the one before. *)
Fixpoint send_until (n : nat) (ps : list UdpPacket) (d : VD) : option VD :=
  match ps with
  | [] => Some d
  | p :: ps =>
    match vless_start_send p d with
    | Ok d' => d'' ← flush_until n d'; send_until n ps d''
    | _ => None
    end
  end.
(** What is sent of a packet: nothing of an empty one, and no more than the limit. *)
Definition sent_as (p : UdpPacket) : list Z :=
  if (length (up_data p) =? 0)%nat then [] else length_prefixed (take MAX_PACKET_LENGTH (up_data p)).

Lemma send_until_spec n ps out room (d : VD) : owes out [] (length (mjoin (sent_as <$> ps)) + room) d ->
  vd_flushed d = true -> vd_pending_packet d = None -> (blocks (wi_ev (vd_inner d)) < n)%nat ->
  exists d', send_until n ps d = Some d' /\ wi_out (vd_inner d') = out ++ mjoin (sent_as <$> ps).
Proof.
  revert out d. induction ps as [|p ps IH]; intros out d Hd Hf Hp Hn; [exists d; cbn; rewrite app_nil_r; split; [done|apply Hd]|].
  cbn [send_until]. unfold vless_start_send. rewrite Hp. change (mjoin (sent_as <$> p :: ps)) with (sent_as p ++ mjoin (sent_as <$> ps)) in *.
  rewrite length_app in Hd. unfold sent_as at 1 in Hd. unfold sent_as at 1. destruct (Nat.eqb_spec (length (up_data p)) 0) as [|Hne].
  - rewrite app_nil_l. destruct (flush_until n d) as [d1|] eqn:E; [|destruct n; [lia|]; cbn in E; unfold vless_flush in E; by rewrite Hf in E].
    assert (d1 = d) as -> by (destruct n; [lia|]; cbn in E; unfold vless_flush in E; rewrite Hf in E; by injection E). by apply IH.
  - set (c := take MAX_PACKET_LENGTH (up_data p)).
    assert (take (if (length (up_data p) <=? MAX_PACKET_LENGTH)%nat then length (up_data p) else MAX_PACKET_LENGTH) (up_data p) = c) as ->.
    { unfold c. destruct (Nat.leb_spec (length (up_data p)) MAX_PACKET_LENGTH); [by rewrite !take_ge by lia|done]. }
    assert (write_packet c = Ok (length_prefixed c)) as ->.
    { unfold write_packet. destruct (Nat.ltb_spec MAX_PACKET_LENGTH (length c)) as [H|]; [unfold c in H; rewrite length_take in H; lia|done]. }
    rstep. set (d1 := set_write _ _ _ _). destruct Hd as (Ho & Hb & He & Ha). cbn [length] in Ha.
    destruct (flush_until_spec n out (length_prefixed c) (length (mjoin (sent_as <$> ps)) + room) d1) as (d2 & -> & H1 & H2 & H3 & H4); [|done|done|].
    { split_and!; try done. cbn. fold c in Ha. lia. }
    destruct (IH _ d2 H1 H2 H3) as (d3 & E3 & H3'); [change (wi_ev (vd_inner d1)) with (wi_ev (vd_inner d)) in H4; lia|]. exists d3. by rewrite app_assoc.
Qed.

(** Whatever the schedule of the connection, as long as it takes the
    bytes in the end, polling the VLESS sink until it is done sends the
    packets in order, each with its length in front, no byte lost, repeated
    or out of place; the number of polls is bounded by the waits. *)
Theorem vless_udp_sink_exact ps ev remote (Hne : no_errors ev)
    (Hroom : (length (mjoin (sent_as <$> ps)) <= accepts ev)%nat) :
  exists d, send_until (S (blocks ev)) ps (vless_datagram_new {| wi_in := []; wi_ev := ev; wi_out := []; wi_shut := false |} remote) = Some d /\
    wi_out (vd_inner d) = mjoin (sent_as <$> ps).
Proof. apply (send_until_spec _ ps [] 0); [split_and!; cbn; [done|done|done|lia]|done|done|cbn; lia]. Qed.

Lemma vless_udp_sink_exact_witness : exists d,
  send_until 3 [{| up_data := [7; 8]; up_src_addr := any_ipv4; up_dst_addr := any_ipv4 |}]
    (vless_datagram_new {| wi_in := []; wi_ev := [WrAccept 0; WrPending; WrAccept 0; WrPending; WrAccept 0; WrAccept 9]; wi_out := []; wi_shut := false |} any_ipv4) = Some d /\
  wi_out (vd_inner d) = [0; 2; 7; 8].
Proof.
  apply (vless_udp_sink_exact [{| up_data := [7; 8]; up_src_addr := any_ipv4; up_dst_addr := any_ipv4 |}]
    [WrAccept 0; WrPending; WrAccept 0; WrPending; WrAccept 0; WrAccept 9] any_ipv4).
  - repeat constructor; by intros.
  - vm_compute. lia.
Defined.

(** ** The reader *)
Definition receiver (i : list ReadEv) (remaining : nat) (d : VD) : Prop := wi_in (vd_inner d) = i /\ vd_remaining_bytes d = remaining.

(** A packet that arrives in one piece is delivered as it was sent, and the
    reader is ready for the next. *)
Lemma whole_packet_read data rest b bs i src fuel (d : VD) :
  receiver (RdData b bs :: i) 0 d -> b :: bs = length_prefixed data ++ rest ->
  (0 < length data <= MAX_PACKET_LENGTH)%nat -> socks_clone (vd_remote_addr d) = Ok src ->
  exists d', vless_next (S (S fuel)) d = (Ready (Ok (Some {| up_data := data; up_src_addr := src; up_dst_addr := src |})), d') /\ receiver (data_ev rest i) 0 d'.
Proof.
  intros [Hi Hr] Hb Hl Hs. assert (0 <= zlen data < 2 ^ 16) as Hz by (unfold zlen, MAX_PACKET_LENGTH in *; lia).
  unfold length_prefixed in Hb. rewrite wrap_small, <- app_assoc in Hb by done.
  assert (take 2 (b :: bs) = be_bytes 2 (zlen data)) as Ht by (rewrite Hb; by apply take_app_length').
  assert (drop 2 (b :: bs) = data ++ rest) as Hdr by (rewrite Hb; by apply drop_app_length').
  set (d1 := set_remaining (length data) (set_dinner (with_in (data_ev (data ++ rest) i) (vd_inner d)) d)).
  assert (vless_next (S (S fuel)) d = vless_next (S fuel) d1) as ->.
  { cbn [vless_next]. rewrite Hr. change (0 <? 0)%nat with false. cbv iota. unfold on_dinner, zoom, poll_read, wire_read. rewrite Hi, Ht, Hdr.
    pose proof (be_val_bytes 2 (zlen data) Hz) as Hv. pose proof (be_bytes_length 2 (zlen data)) as Hlen.
    destruct (be_bytes 2 (zlen data)) as [|b0 [|b1 [|]]]; try done. rewrite Hv.
    replace (Z.to_nat (zlen data)) with (length data) by (unfold zlen; lia). destruct (Nat.eqb_spec (length data) 0); [lia|].
    destruct (Nat.ltb_spec MAX_PACKET_LENGTH (length data)); [lia|]. done. }
  cbn [vless_next]. change (vd_remaining_bytes d1) with (length data). destruct (Nat.ltb_spec 0 (length data)); [|lia].
  replace (length data `min` Z.to_nat 65536)%nat with (length data) by (unfold MAX_PACKET_LENGTH in *; lia).
  unfold on_dinner, zoom, poll_read, wire_read. destruct data as [|x data]; [cbn in *; lia|]. cbn [vd_inner d1 set_remaining set_dinner wi_in with_in app data_ev].
  rewrite app_comm_cons, take_app_length, drop_app_length. cbn [vd_remote_addr set_remaining set_dinner d1]. rewrite Hs.
  eexists. split; [reflexivity|]. split; [done|]. cbn. lia.
Qed.

Definition vless_reader (i : list ReadEv) : VD := vless_datagram_new {| wi_in := i; wi_ev := []; wi_out := []; wi_shut := false |} any_ipv4.
Definition from_any (bs : list Z) : UdpPacket := {| up_data := bs; up_src_addr := any_ipv4; up_dst_addr := any_ipv4 |}.
(** A length that arrives in two pieces ends the stream of packets. *)
Lemma split_length_ends : fst (vless_next 9 (vless_reader [RdData 0 []; RdData 2 [7; 8]])) = Ready (Ok None).
Proof. reflexivity. Qed.
(** A payload that arrives in two pieces becomes two packets. *)
Lemma split_payload_doubles :
  let '(p, d) := vless_next 9 (vless_reader [RdData 0 [2; 7]; RdData 8 []]) in
  p = Ready (Ok (Some (from_any [7]))) /\ fst (vless_next 9 d) = Ready (Ok (Some (from_any [8]))).
Proof. vm_compute. done. Qed.
(** What does not fit into one packet of the protocol is not sent. *)
Lemma large_packet_cut p : (MAX_PACKET_LENGTH < length (up_data p))%nat -> length (sent_as p) = (2 + MAX_PACKET_LENGTH)%nat.
Proof.
  intros H. unfold sent_as. destruct (Nat.eqb_spec (length (up_data p)) 0); [unfold MAX_PACKET_LENGTH in *; lia|].
  unfold length_prefixed. rewrite length_app, be_bytes_length, length_take. lia.
Qed.
(** A pending flush of the connection is not repeated: the second poll
    reports success at once. *)
Lemma pending_flush_skipped :
  let d := set_write [7] None false (vless_datagram_new {| wi_in := []; wi_ev := [WrAccept 0; WrPending; WrErr "reset"]; wi_out := []; wi_shut := false |} any_ipv4) in
  let '(p, d) := vless_flush d in p = Pending /\ fst (vless_flush d) = Ready (Ok tt).
Proof. vm_compute. done. Qed.
End wire.

(** ** The stream *)
Section stream.
Notation VL := (VlessStream Wire).

Lemma write_all_taken fuel bs (w : Wire) : (length bs <= fuel)%nat -> Forall (fun e => exists n, e = WrAccept n) (wi_ev w) ->
  (length bs <= length (wi_ev w))%nat ->
  exists ev, write_all_loop fuel bs w = (Ready (Ok tt), {| wi_in := wi_in w; wi_ev := ev; wi_out := wi_out w ++ bs; wi_shut := wi_shut w |}).
Proof.
  revert bs w. induction fuel as [|fuel IH]; intros bs w Hf Ht Hl.
  { destruct bs; [|cbn in Hf; lia]. exists (wi_ev w). cbn. rewrite app_nil_r. by destruct w. }
  destruct bs as [|b bs]; [exists (wi_ev w); cbn; rewrite app_nil_r; by destruct w|]. cbn [write_all_loop]. set (l := b :: bs) in *.
  destruct w as [i [|e ev] o sh]; [cbn in Hl; lia|]. cbn in Ht. apply Forall_cons in Ht as [[n ->] Ht].
  destruct (accepted_bound n l) as [Hle Hpos]. specialize (Hpos ltac:(done)). unfold mbind, pm_bind, poll_write, wire_write. cbn [wi_ev].
  destruct (Nat.eqb_spec (accepted n l) 0); [lia|]. set (w1 := push_out _ _).
  destruct (IH (drop (accepted n l) l) w1) as (ev' & E); [rewrite length_drop; lia|done|rewrite length_drop; cbn in Hl |- *; lia|].
  exists ev'. etransitivity; [exact E|]. cbn. by rewrite <- app_assoc, take_drop.
Qed.

(** The first write, if it is taken without a wait, puts the header and the
    data on the connection and reports the data as written. *)
Lemma vless_first_write data (v : VL) : handshake_sent v = false -> Forall (fun e => exists n, e = WrAccept n) (wi_ev (vl_inner v)) ->
  (length (build_handshake_header v ++ data) <= length (wi_ev (vl_inner v)))%nat ->
  exists v', vless_poll_write data v = (Ready (Ok (length data)), v') /\ handshake_sent v' = true /\
    wi_out (vl_inner v') = wi_out (vl_inner v) ++ build_handshake_header v ++ data.
Proof.
  intros Hs Ht Hl. unfold vless_poll_write, send_handshake_with_data. rewrite Hs. cbn [negb].
  destruct (write_all_taken (length (build_handshake_header v ++ data)) (build_handshake_header v ++ data) (vl_inner v) ltac:(done) Ht Hl) as (ev & E).
  unfold mbind, pm_bind, on_stream, zoom, write_all_fut. rewrite E. by eexists.
Qed.

(** The response is taken off when it is there, with its extra bytes. *)
Lemma vless_response_read n info r (v : VL) : response_received v = false -> u8 n -> length info = Z.to_nat n ->
  avail (wi_in (vl_inner v)) = VLESS_VERSION :: n :: info ++ r ->
  exists v', receive_response v = (Ready (Ok tt), v') /\ response_received v' = true /\ avail (wi_in (vl_inner v')) = r.
Proof.
  intros Hr Hn Hi Ha. unfold receive_response. rewrite Hr. unfold mbind, pm_bind, on_stream, zoom.
  destruct (read_exact_fut_avail 2 (vl_inner v)) as (w & E & A & _ & _); [rewrite Ha; cbn; lia|]. rewrite E, Ha. cbn [take lookup list_lookup default id].
  change (firstn 2 (VLESS_VERSION :: n :: info ++ r)) with [VLESS_VERSION; n]. cbn [lookup list_lookup default id]. change (negb (VLESS_VERSION =? VLESS_VERSION)) with false. cbv iota.
  rewrite Ha in A. change (drop 2 (VLESS_VERSION :: n :: info ++ r)) with (info ++ r) in A. destruct (Z.ltb_spec 0 n).
  - cbn [vl_inner set_stream]. destruct (read_exact_fut_avail (Z.to_nat n) w) as (w2 & E2 & A2 & _ & _); [rewrite A, length_app; lia|]. rewrite E2.
    eexists. split; [reflexivity|]. split; [done|]. cbn. by rewrite A2, A, <- Hi, drop_app_length.
  - assert (info = []) as -> by (destruct info; [done|cbn in Hi; unfold u8, in_width in Hn; lia]). eexists. split; [reflexivity|]. by split.
Qed.

Definition fresh (ev : list WriteEv) (i : list ReadEv) (sent : bool) : VL := {|
  vl_inner := {| wi_in := i; wi_ev := ev; wi_out := []; wi_shut := false |}; handshake_done := false; handshake_sent := sent;
  response_received := false; vl_uuid := replicate 16 0; vl_destination := any_ipv4; vl_is_udp := false |}.
(** A wait inside the header: it is sent again from its beginning. *)
Lemma vless_header_repeated :
  let v := snd (vless_poll_write [9] (snd (vless_poll_write [9] (fresh [WrAccept 3; WrPending; WrAccept 99] [] false)))) in
  wi_out (vl_inner v) = [0; 0; 0; 0] ++ build_handshake_header v ++ [9].
Proof. vm_compute. reflexivity. Qed.
(** A wait inside the response: its first byte is lost, the second is taken
    for the version and the first byte of data for a length. *)
Lemma vless_response_lost :
  fst (vless_poll_read 8 (snd (vless_poll_read 8 (fresh [] [RdData 0 []; RdPending; RdData 0 [65; 66]] true)))) = Pending.
Proof. vm_compute. reflexivity. Qed.
(** Nothing is sent before the first write: a client that waits for the
    server to speak first never reaches it. *)
Lemma vless_silent_client cap (v : VL) : wi_out (vl_inner (snd (vless_poll_read cap v))) = wi_out (vl_inner v) \/ handshake_sent v = true.
Proof.
  destruct (handshake_sent v) eqn:E; [by right|left]. unfold vless_poll_read. rewrite E. cbn [andb]. unfold on_stream, zoom, poll_read, wire_read.
  by destruct (wi_in (vl_inner v)) as [|[] ?].
Qed.
End stream.
