(* ===== verification/Obfs.v ===== *)
(** * simple-obfs ([proxy/transport/simple_obfs/{http,tls}.rs])

    Two wrappers that make a stream look like HTTP or TLS.  Random bytes and
    the time are arguments.  The second part says what the wrappers keep and
    where they break the contract of a stream. *)

From S2P Require Import Prelude Str Net Session Async.

(** ** TLS *)
Module Tls.
(* @src clash-lib/src/proxy/transport/simple_obfs/tls.rs ~^const CHUNK_SIZE~ CHUNK_SIZE *)
Definition CHUNK_SIZE : nat := Z.to_nat (2 ^ 14).
(* @src clash-lib/src/proxy/transport/simple_obfs/tls.rs ~^enum ReadState~ ReadState *)
Inductive ReadState : Type := RIdle | RParsing | RReading (length : nat).
(* @src clash-lib/src/proxy/transport/simple_obfs/tls.rs ~^enum WriteState~ WriteState *)
Inductive WriteState : Type := WIdle | WWriting (current total : nat).
(* @src clash-lib/src/proxy/transport/simple_obfs/tls.rs ~^pub struct TLSObfs~ TLSObfs *)
Record TLSObfs (S : Type) : Type := {
  inner : S; server : str; remain : Z; first_request : bool; first_response : bool;
  read_state : ReadState; write_state : WriteState;
}.
Arguments inner {S} _.
Arguments server {S} _.
Arguments remain {S} _.
Arguments first_request {S} _.
Arguments first_response {S} _.
Arguments read_state {S} _.
Arguments write_state {S} _.

(** What a hello draws: the time and 28 + 32 random bytes. *)
Record Draw : Type := { dr_time : Z; dr_random : list Z; dr_session : list Z }.

Definition cipher_suites : list Z := [
  0xc0; 0x2c; 0xc0; 0x30; 0x00; 0x9f; 0xcc; 0xa9; 0xcc; 0xa8; 0xcc; 0xaa; 0xc0; 0x2b; 0xc0; 0x2f; 0x00; 0x9e; 0xc0; 0x24; 0xc0; 0x28; 0x00; 0x6b;
  0xc0; 0x23; 0xc0; 0x27; 0x00; 0x67; 0xc0; 0x0a; 0xc0; 0x14; 0x00; 0x39; 0xc0; 0x09; 0xc0; 0x13; 0x00; 0x33; 0x00; 0x9d; 0x00; 0x9c; 0x00; 0x3d;
  0x00; 0x3c; 0x00; 0x35; 0x00; 0x2f; 0x00; 0xff].
Definition tail_extensions : list Z := [
  0x00; 0x0b; 0x00; 0x04; 0x03; 0x01; 0x00; 0x02;
  0x00; 0x0a; 0x00; 0x0a; 0x00; 0x08; 0x00; 0x1d; 0x00; 0x17; 0x00; 0x19; 0x00; 0x18;
  0x00; 0x0d; 0x00; 0x20; 0x00; 0x1e; 0x06; 0x01; 0x06; 0x02; 0x06; 0x03; 0x05; 0x01; 0x05; 0x02; 0x05; 0x03; 0x04; 0x01; 0x04; 0x02; 0x04; 0x03;
  0x03; 0x01; 0x03; 0x02; 0x03; 0x03; 0x02; 0x01; 0x02; 0x02; 0x02; 0x03;
  0x00; 0x16; 0x00; 0x00;
  0x00; 0x17; 0x00; 0x00].
(** [put_u16] of a length: [as u16], big-endian. *)
Definition u16_field (n : Z) : list Z := be_bytes 2 (wrap 16 n).

(* @src clash-lib/src/proxy/transport/simple_obfs/tls.rs ~^fn make_client_hello_msg~ make_client_hello_msg *)
Definition make_client_hello_msg (data : list Z) (server : str) (r : Draw) : list Z :=
  let len := zlen data + str_len server in
  [22] ++ [0x03; 0x01] ++ u16_field (212 + len)
  ++ [1] ++ [0] ++ u16_field (208 + len) ++ [0x03; 0x03]
  ++ be_bytes 4 (wrap 32 (dr_time r)) ++ dr_random r ++ [32] ++ dr_session r
  ++ [0x00; 0x38] ++ cipher_suites
  ++ [0x01; 0x00]
  ++ u16_field (79 + len)
  ++ [0x00; 0x23] ++ u16_field (zlen data) ++ data
  ++ [0x00; 0x00] ++ u16_field (str_len server + 5) ++ u16_field (str_len server + 3) ++ [0] ++ u16_field (str_len server) ++ utf8 server
  ++ tail_extensions.

Section tls.
Context {S : Type} {AR : AsyncRead S} {AW : AsyncWrite S}.
(** Builds with overflow checks panic where others wrap. *)
Context (oc : bool).
Notation TO := (TLSObfs S).

(* @src clash-lib/src/proxy/transport/simple_obfs/tls.rs ~    pub fn new\(inner~ TLSObfs::new *)
Definition obfs_new (i : S) (srv : str) : TO := {|
  inner := i; server := srv; remain := 0; first_request := true; first_response := true; read_state := RIdle; write_state := WIdle |}.
Definition set_inner (i : S) (t : TO) : TO := {|
  inner := i; server := server t; remain := remain t; first_request := first_request t; first_response := first_response t;
  read_state := read_state t; write_state := write_state t |}.
Definition set_remain (n : Z) (t : TO) : TO := {|
  inner := inner t; server := server t; remain := n; first_request := first_request t; first_response := first_response t;
  read_state := read_state t; write_state := write_state t |}.
Definition set_reading (r : ReadState) (t : TO) : TO := {|
  inner := inner t; server := server t; remain := remain t; first_request := first_request t; first_response := first_response t;
  read_state := r; write_state := write_state t |}.
Definition set_writing (w : WriteState) (t : TO) : TO := {|
  inner := inner t; server := server t; remain := remain t; first_request := first_request t; first_response := first_response t;
  read_state := read_state t; write_state := w |}.
Definition requested (t : TO) : TO := {|
  inner := inner t; server := server t; remain := remain t; first_request := false; first_response := first_response t;
  read_state := read_state t; write_state := write_state t |}.
Definition responded (t : TO) : TO := {|
  inner := inner t; server := server t; remain := remain t; first_request := first_request t; first_response := false;
  read_state := read_state t; write_state := write_state t |}.
Definition on_inner {A} (m : PM S A) : PM TO A := zoom inner set_inner m.

Definition record_of (b : list Z) : list Z := [0x17; 0x03; 0x03] ++ u16_field (zlen b) ++ b.
(** The result of the write of a record is dropped, an error included. *)
(* @src clash-lib/src/proxy/transport/simple_obfs/tls.rs ~^fn writing~ writing *)
Definition writing (r : Draw) (b : list Z) : PM TO unit := fun t =>
  if first_request t then (_ ← on_inner (poll_write (make_client_hello_msg b (server t) r)); modify requested) t
  else match on_inner (poll_write (record_of b)) t with
       | (Pending, t) => (Pending, t)
       | (Ready Panic, t) => (Ready Panic, t)
       | (Ready _, t) => (Ready (Ok tt), t)
       end.

(** The chunks of a buffer; [draws] gives the random bytes of every call.
    A slice that is out of range panics: the buffer of a later poll may be
    shorter than the one the state was made for. *)
(* @src clash-lib/src/proxy/transport/simple_obfs/tls.rs 61 83 TLSObfs::poll_write (loop) *)
Fixpoint write_chunks (fuel : nat) (r : Draw) (buf : list Z) : PM TO nat := fun t =>
  match fuel with
  | O => (Ready Panic, t)
  | Datatypes.S fuel =>
    match write_state t with
    | WIdle => write_chunks fuel r buf (set_writing (WWriting 0 (length buf)) t)
    | WWriting current total =>
      let end_ := ((current + CHUNK_SIZE) `min` total)%nat in
      if (length buf <? end_)%nat || (end_ <? current)%nat then (Ready Panic, t)
      else
        (_ ← writing r (drop current (take end_ buf));
         if (end_ =? total)%nat then _ ← modify (set_writing WIdle); mret total
         else _ ← modify (set_writing (WWriting end_ total)); write_chunks fuel r buf) t
    end
  end.
(* @src clash-lib/src/proxy/transport/simple_obfs/tls.rs ~    fn poll_write\(~ TLSObfs::poll_write *)
Definition tls_poll_write (r : Draw) (buf : list Z) : PM TO nat := write_chunks (2 + length buf) r buf.

(** The states follow each other; the last returns. *)
(* @src clash-lib/src/proxy/transport/simple_obfs/tls.rs ~^fn reading~ reading *)
Fixpoint reading (rounds : nat) (cap discard_n : nat) : PM TO (list Z) := fun t =>
  match rounds with
  | O => (Ready Panic, t)
  | Datatypes.S rounds =>
    match read_state t with
    | RIdle => (_ ← on_inner (read_exact_fut discard_n); _ ← modify (set_reading RParsing); reading rounds cap discard_n) t
    | RParsing => (length ← on_inner (read_uint_fut 2); _ ← modify (set_reading (RReading (Z.to_nat length))); reading rounds cap discard_n) t
    | RReading length =>
      (buffer ← on_inner (read_exact_fut (length `min` cap));
       _ ← modify (fun t => if (cap <? length)%nat then set_remain (Z.of_nat (length - cap)) t else t);
       _ ← modify (set_reading RIdle);
       mret buffer) t
    end
  end.
(* @src clash-lib/src/proxy/transport/simple_obfs/tls.rs ~    fn poll_read\(~ TLSObfs::poll_read *)
Definition tls_poll_read (cap : nat) : PM TO (list Z) := fun t =>
  if 0 <? remain t then
    (bs ← on_inner (poll_read cap);
     n ← fail (arith oc 64 (remain t - zlen bs));
     _ ← modify (set_remain n);
     mret bs) t
  else if first_response t then (bs ← reading 3 cap 105; _ ← modify responded; mret bs) t
  else reading 3 cap 3 t.
End tls.

(** *** Theorems *)

Definition draw_ok (r : Draw) : Prop := length (dr_random r) = 28%nat /\ length (dr_session r) = 32%nat.

(** The three lengths of a hello are those of what follows them, and the
    data and the server name are in it with their own lengths. *)
Lemma client_hello_lengths data srv r : draw_ok r -> zlen data + str_len srv < 2 ^ 16 - 212 ->
  let len := zlen data + str_len srv in
  exists body exts, make_client_hello_msg data srv r = [22; 3; 1] ++ be_bytes 2 (212 + len) ++ [1; 0] ++ be_bytes 2 (208 + len) ++ body ++ be_bytes 2 (79 + len) ++ exts /\
    zlen ([1; 0] ++ be_bytes 2 (208 + len) ++ body ++ be_bytes 2 (79 + len) ++ exts) = 212 + len /\
    zlen (body ++ be_bytes 2 (79 + len) ++ exts) = 208 + len /\ zlen exts = 79 + len /\
    exists names, exts = [0; 0x23] ++ be_bytes 2 (zlen data) ++ data ++ [0; 0] ++ names ++ [0] ++ be_bytes 2 (str_len srv) ++ utf8 srv ++ tail_extensions.
Proof.
  intros [H28 H32] Hlen len. assert (0 <= zlen data) by apply zlen_nonneg. assert (0 <= str_len srv) by apply zlen_nonneg.
  exists ([0x03; 0x03] ++ be_bytes 4 (wrap 32 (dr_time r)) ++ dr_random r ++ [32] ++ dr_session r ++ [0x00; 0x38] ++ cipher_suites ++ [0x01; 0x00]).
  exists ([0; 0x23] ++ be_bytes 2 (zlen data) ++ data ++ [0; 0] ++ (be_bytes 2 (str_len srv + 5) ++ be_bytes 2 (str_len srv + 3)) ++ [0] ++ be_bytes 2 (str_len srv) ++ utf8 srv ++ tail_extensions).
  assert (length cipher_suites = 56%nat) as Hc by reflexivity. assert (length tail_extensions = 66%nat) as Ht by reflexivity.
  unfold make_client_hello_msg, u16_field. fold len. rewrite !(wrap_small 16) by (split; lia).
  generalize dependent cipher_suites. generalize dependent tail_extensions. intros te Ht cs Hc. split; [|split; [|split; [|split]]].
  - rewrite <- !app_assoc. cbn [app]. reflexivity.
  - unfold len, str_len, zlen in *. unfold len, str_len, zlen. repeat (rewrite ?length_app, ?be_bytes_length, ?H28, ?H32, ?Hc, ?Ht; cbn [length app]). lia.
  - unfold len, str_len, zlen in *. unfold len, str_len, zlen. repeat (rewrite ?length_app, ?be_bytes_length, ?H28, ?H32, ?Hc, ?Ht; cbn [length app]). lia.
  - unfold len, str_len, zlen in *. unfold len, str_len, zlen. repeat (rewrite ?length_app, ?be_bytes_length, ?H28, ?H32, ?Hc, ?Ht; cbn [length app]). lia.
  - by eexists.
Qed.

Section wire.
Notation TO := (TLSObfs Wire).
Definition at_hand (t : TO) : list Z := avail (wi_in (inner t)).

Lemma inner_read n (t : TO) l r : at_hand t = l ++ r -> length l = n ->
  exists t', on_inner (read_exact_fut n) t = (Ready (Ok l), t') /\ t' = set_inner (inner t') t /\ at_hand t' = r.
Proof.
  unfold at_hand. intros Ha Hn. destruct (read_exact_fut_avail n (inner t)) as (w & E & A & _ & _); [rewrite Ha, length_app; lia|].
  exists (set_inner w t). unfold on_inner, zoom. rewrite E, Ha, <- Hn, take_app_length. split_and!; [done|done|]. cbn. by rewrite A, Ha, <- Hn, drop_app_length.
Qed.
Lemma inner_read_u16 (t : TO) z r : at_hand t = be_bytes 2 z ++ r -> u16 z ->
  exists t', on_inner (read_uint_fut 2) t = (Ready (Ok z), t') /\ t' = set_inner (inner t') t /\ at_hand t' = r.
Proof.
  intros Ha Hz. destruct (inner_read 2 t (be_bytes 2 z) r Ha) as (t' & E & Ht); [apply be_bytes_length|]. exists t'. split; [|done].
  unfold on_inner, zoom in *. unfold read_uint_fut, mbind, pm_bind. destruct (read_exact_fut 2 (inner t)) as [[[l| |]|] w]; try done.
  injection E as -> <-. cbn. by rewrite be_val_bytes.
Qed.

(** A record that is there is read without its head; what does not fit into
    the reader's buffer is counted as remaining. *)
Lemma record_read cap junk payload r (t : TO) :
  read_state t = RIdle -> at_hand t = junk ++ be_bytes 2 (zlen payload) ++ payload ++ r -> zlen payload < 2 ^ 16 ->
  exists t', reading 3 cap (length junk) t = (Ready (Ok (take cap payload)), t') /\ read_state t' = RIdle /\ at_hand t' = drop cap payload ++ r /\
    remain t' = (if (cap <? length payload)%nat then zlen payload - Z.of_nat cap else remain t) /\
    first_response t' = first_response t /\ first_request t' = first_request t.
Proof.
  intros Hs Ha Hl. assert (0 <= zlen payload) by apply zlen_nonneg. cbn [reading]. rewrite Hs.
  destruct (inner_read (length junk) t _ _ Ha eq_refl) as (t1 & E1 & Ht1 & Ha1).
  rewrite (pm_bind_ready _ _ _ _ _ E1). unfold mbind at 1, pm_bind at 1. cbn [modify read_state set_reading].
  destruct (inner_read_u16 (set_reading RParsing t1) (zlen payload) (payload ++ r) Ha1) as (t2 & E2 & Ht2 & Ha2); [split; cbn; lia|].
  rewrite (pm_bind_ready _ _ _ _ _ E2). unfold mbind at 1, pm_bind at 1. cbn [modify read_state set_reading].
  replace (Z.to_nat (zlen payload)) with (length payload) by (unfold zlen; lia).
  destruct (inner_read (length payload `min` cap) (set_reading (RReading (length payload)) t2) (take cap payload) (drop cap payload ++ r)) as (t3 & E3 & Ht3 & Ha3).
  { rewrite app_assoc, take_drop. exact Ha2. }
  { rewrite length_take. lia. }
  assert (remain t3 = remain t /\ first_response t3 = first_response t /\ first_request t3 = first_request t) as (Hr & Hf & Hq)
    by (rewrite Ht3; cbn; rewrite Ht2; cbn; by rewrite Ht1).
  rewrite (pm_bind_ready _ _ _ _ _ E3). unfold mbind, pm_bind, modify. eexists. split; [reflexivity|].
  unfold at_hand in *. destruct (Nat.ltb_spec cap (length payload)); cbn; split_and!; try done. unfold zlen. lia.
Qed.

(** Reading the rest of a record into a larger buffer takes the head of the
    next record with it, and the count of remaining bytes underflows. *)
Lemma remain_overrun :
  let t := set_remain 1 (responded (obfs_new {| wi_in := [RdData 7 [0x17; 3; 3; 0; 1; 8]]; wi_ev := []; wi_out := []; wi_shut := false |} [])) in
  fst (tls_poll_read true 16 t) = Ready Panic /\
  fst (tls_poll_read false 16 t) = Ready (Ok [7; 0x17; 3; 3; 0; 1; 8]).
Proof. vm_compute. done. Qed.
(** A record that is only partly taken by the connection counts as written. *)
Lemma short_record_lost r :
  let t := requested (obfs_new {| wi_in := []; wi_ev := [WrAccept 2]; wi_out := []; wi_shut := false |} []) in
  let '(p, t') := tls_poll_write r [1; 2; 3] t in p = Ready (Ok 3%nat) /\ wi_out (inner t') = [0x17; 3; 3].
Proof. vm_compute. done. Qed.
(** So does one whose write failed. *)
Lemma failed_write_hidden r e :
  let t := requested (obfs_new {| wi_in := []; wi_ev := [WrErr e]; wi_out := []; wi_shut := false |} []) in
  fst (tls_poll_write r [1; 2; 3] t) = Ready (Ok 3%nat).
Proof. vm_compute. done. Qed.
End wire.
End Tls.

(** ** HTTP *)
Module Http.
(* @src clash-lib/src/proxy/transport/simple_obfs/http.rs ~^pub struct HTTPObfs~ HTTPObfs *)
Record HTTPObfs (S : Type) : Type := {
  inner : S; host : str; port : Z; first_request : bool; first_response : bool; read_buf : list Z;
}.
Arguments inner {S} _.
Arguments host {S} _.
Arguments port {S} _.
Arguments first_request {S} _.
Arguments first_response {S} _.
Arguments read_buf {S} _.

(** The drawn key in base64 and the two numbers of the user agent. *)
Record Draw : Type := { dr_key : str; dr_minor : Z; dr_patch : Z }.

Definition crlf : str := [13; 10].
(* @src clash-lib/src/proxy/transport/simple_obfs/http.rs 45 83 HTTPObfs::poll_write (request) *)
Definition first_message (host : str) (port : Z) (d : Draw) (buf : list Z) : list Z :=
  utf8 (lit "GET / HTTP/1.1" ++ crlf
    ++ lit "Host: " ++ (if negb (port =? 80) then host ++ [58] ++ dec port else host) ++ crlf
    ++ lit "User-Agent: curl/7." ++ dec (dr_minor d) ++ [46] ++ dec (dr_patch d) ++ crlf
    ++ lit "Upgrade: websocket" ++ crlf
    ++ lit "Connection: Upgrade" ++ crlf
    ++ lit "Sec-WebSocket-Key: " ++ dr_key d ++ crlf
    ++ lit "Content-Length: " ++ dec (zlen buf) ++ crlf
    ++ crlf) ++ buf.

(** The position of the first [CRLF CRLF]. *)
Fixpoint find_end (b : list Z) : option nat :=
  if bool_decide (take 4 b = [13; 10; 13; 10]) then Some 0%nat
  else match b with
       | [] => None
       | _ :: b => Datatypes.S <$> find_end b
       end.

Section http.
Context {S : Type} {AR : AsyncRead S} {AW : AsyncWrite S}.
Notation HO := (HTTPObfs S).
(* @src clash-lib/src/proxy/transport/simple_obfs/http.rs ~    pub fn new\(inner~ HTTPObfs::new *)
Definition http_new (i : S) (h : str) (p : Z) : HO := {|
  inner := i; host := h; port := p; first_request := true; first_response := true; read_buf := [] |}.
Definition set_inner (i : S) (t : HO) : HO := {|
  inner := i; host := host t; port := port t; first_request := first_request t; first_response := first_response t; read_buf := read_buf t |}.
Definition requested (t : HO) : HO := {|
  inner := inner t; host := host t; port := port t; first_request := false; first_response := first_response t; read_buf := read_buf t |}.
Definition responded (b : list Z) (t : HO) : HO := {|
  inner := inner t; host := host t; port := port t; first_request := first_request t; first_response := false; read_buf := b |}.
Definition keep (b : list Z) (t : HO) : HO := {|
  inner := inner t; host := host t; port := port t; first_request := first_request t; first_response := first_response t; read_buf := b |}.
Definition on_inner {A} (m : PM S A) : PM HO A := zoom inner set_inner m.

(* @src clash-lib/src/proxy/transport/simple_obfs/http.rs ~    fn poll_write\(~ HTTPObfs::poll_write *)
Definition http_poll_write (d : Draw) (buf : list Z) : PM HO nat := fun t =>
  if first_request t then on_inner (poll_write (first_message (host t) (port t) d buf)) (requested t)
  else on_inner (poll_write buf) t.

(* @src clash-lib/src/proxy/transport/simple_obfs/http.rs ~    fn poll_read\(~ HTTPObfs::poll_read *)
Definition http_poll_read (cap : nat) : PM HO (list Z) := fun t =>
  match read_buf t with
  | _ :: _ =>
    let to_read := (cap `min` length (read_buf t))%nat in
    if (to_read =? 0)%nat then (if (0 <? cap)%nat then (Pending, t) else (Ready Panic, t))
    else (Ready (Ok (take to_read (read_buf t))), keep (drop to_read (read_buf t)) t)
  | [] =>
    if first_response t then
      (b ← on_inner (poll_read (Z.to_nat (20 * 1024)));
       match find_end b with
       | None => fail (Err "EOF")
       | Some idx =>
         let body := drop (idx + 4) b in
         if (length body <? cap)%nat then _ ← modify (responded []); mret body
         else _ ← modify (responded (drop cap body)); mret (take cap body)
       end) t
    else on_inner (poll_read cap) t
  end.
End http.

Section wire.
Notation HO := (HTTPObfs Wire).

(** The end of the head is the first empty line. *)
Lemma find_end_first b n : find_end b = Some n -> take 4 (drop n b) = [13; 10; 13; 10] /\
  forall m, (m < n)%nat -> take 4 (drop m b) <> [13; 10; 13; 10].
Proof.
  revert n. induction b as [|x b IH]; intros n; cbn [find_end].
  - rewrite bool_decide_eq_false_2 by done. done.
  - case_bool_decide as E; [intros [= <-]; split; [done|lia]|]. destruct (find_end b) as [k|]; [|done]. intros [= <-].
    destruct (IH k eq_refl) as [H1 H2]. split; [done|]. intros [|m] Hm; [done|]. apply (H2 m). lia.
Qed.

(** If the head of the answer arrives in one read, the reader gets the body
    and then the rest of the stream, byte for byte. *)
Lemma http_head_stripped cap b bs i n (t : HO) : read_buf t = [] -> first_response t = true -> wi_in (inner t) = RdData b bs :: i ->
  (length (b :: bs) <= Z.to_nat (20 * 1024))%nat -> find_end (b :: bs) = Some n ->
  exists bytes t', http_poll_read cap t = (Ready (Ok bytes), t') /\ first_response t' = false /\ wi_in (inner t') = i /\
    bytes ++ read_buf t' = drop (n + 4) (b :: bs) /\ (length bytes <= cap)%nat.
Proof.
  intros Hb Hf Hi Hl He. unfold http_poll_read. rewrite Hb, Hf. unfold mbind, pm_bind, on_inner, zoom, poll_read, wire_read. rewrite Hi.
  rewrite take_ge, drop_ge by lia. rewrite He. destruct (Nat.ltb_spec (length (drop (n + 4) (b :: bs))) cap).
  - eexists _, _. split; [reflexivity|]. split_and!; [done|done|by rewrite app_nil_r|lia].
  - eexists _, _. split; [reflexivity|]. split_and!; [done|done|apply take_drop|rewrite length_take; lia].
Qed.

Definition fresh (i : list ReadEv) (ev : list WriteEv) : HO := http_new {| wi_in := i; wi_ev := ev; wi_out := []; wi_shut := false |} (lit "a.b") 80.
Definition demo_draw : Draw := {| dr_key := lit "AAAAAAAAAAAAAAAAAAAAAA=="; dr_minor := 1; dr_patch := 0 |}.
(** The first write reports the bytes of the request with it as written:
    more than it was given. *)
Lemma first_write_overcounts : exists n, fst (http_poll_write demo_draw [1; 2] (fresh [] [WrAccept 999])) = Ready (Ok n) /\ (2 < n)%nat.
Proof. eexists. split; [vm_compute; reflexivity|lia]. Qed.
(** A first write that has to wait is repeated without the request. *)
Lemma pending_request_lost :
  let t := snd (http_poll_write demo_draw [1; 2] (snd (http_poll_write demo_draw [1; 2] (fresh [] [WrPending; WrAccept 99])))) in
  wi_out (inner t) = [1; 2].
Proof. vm_compute. reflexivity. Qed.
(** A head that arrives alone looks like the end of the stream; one that is
    cut is an error. *)
Lemma bare_head_is_eof : fst (http_poll_read 16 (fresh [RdData 72 [13; 10; 13; 10]; RdData 1 []] [])) = Ready (Ok []).
Proof. vm_compute. reflexivity. Qed.
Lemma cut_head_fails : fst (http_poll_read 16 (fresh [RdData 72 [13; 10]; RdData 13 [10; 1]] [])) = Ready (Err "EOF").
Proof. vm_compute. reflexivity. Qed.
End wire.
End Http.
