(* ===== verification/ShadowTls.v ===== *)
(** * ShadowTLS ([proxy/transport/shadow_tls/*.rs])

    After a TLS handshake that is relayed to a real server, both sides talk
    in records that look like TLS application data; each carries four bytes
    of a running HMAC that tells the peer's records from the real server's.
    [ProxyTlsStream] sits under the handshake and takes the keys from it;
    [VerifiedStream] carries the data.  The TLS client is a third-party
    crate. *)

From S2P Require Import Prelude Str Crypto Async.

(* @src clash-lib/src/proxy/transport/shadow_tls/prelude.rs 1 19 prelude *)
Definition HMAC_SIZE : nat := 4.
Definition TLS_HEADER_SIZE : nat := 5.
Definition TLS_RANDOM_SIZE : nat := 32.
Definition TLS_SESSION_ID_SIZE : nat := 32.
Definition SERVER_RANDOM_OFFSET : nat := 1 + 3 + 2.
Definition SESSION_ID_LEN_IDX : nat := TLS_HEADER_SIZE + 1 + 3 + 2 + TLS_RANDOM_SIZE.
Definition TLS_MAJOR : Z := 3.
Definition TLS_MINOR_0 : Z := 3.
Definition SERVER_HELLO : Z := 2.
Definition HANDSHAKE : Z := 0x16.
Definition APPLICATION_DATA : Z := 0x17.
Definition SUPPORTED_VERSIONS_TYPE : Z := 43.
Definition TLS_13 : Z := 0x0304.

Section keys.
Context {CL : CryptoLib}.

(** ** The running HMAC: the key and what it was fed *)
(* @src clash-lib/src/proxy/transport/shadow_tls/utils.rs ~^pub\(crate\) struct Hmac~ Hmac *)
Record Hmac : Type := { hm_key : list Z; hm_fed : list Z }.
(* @src clash-lib/src/proxy/transport/shadow_tls/utils.rs ~    pub\(crate\) fn new\(password~ Hmac::new *)
Definition hmac_new (password : str) (a b : list Z) : Hmac := {| hm_key := utf8 password; hm_fed := a ++ b |}.
(* @src clash-lib/src/proxy/transport/shadow_tls/utils.rs ~    pub\(crate\) fn update~ Hmac::update *)
Definition hmac_update (data : list Z) (h : Hmac) : Hmac := {| hm_key := hm_key h; hm_fed := hm_fed h ++ data |}.
(* @src clash-lib/src/proxy/transport/shadow_tls/utils.rs ~    pub\(crate\) fn finalize~ Hmac::finalize *)
Definition hmac_finalize (h : Hmac) : list Z := take HMAC_SIZE (hmac_sha1 (hm_key h) (hm_fed h)).
(* @src clash-lib/src/proxy/transport/shadow_tls/utils.rs ~^pub\(crate\) fn kdf~ kdf *)
Definition kdf (password : str) (server_random : list Z) : list Z := sha256 (utf8 password ++ server_random).
(** The key is repeated as often as needed. *)
(* @src clash-lib/src/proxy/transport/shadow_tls/utils.rs ~^pub\(crate\) fn xor_slice~ xor_slice *)
Definition xor_slice (data key : list Z) : list Z :=
  if (length key =? 0)%nat then data
  else imap (fun i d => Z.lxor d (default 0 (key !! (i mod length key)%nat))) data.

(** Reading a ServerHello; any missing byte means no. *)
Definition skip (n : nat) (cur : list Z) : option (list Z) := if (n <=? length cur)%nat then Some (drop n cur) else None.
Definition cur_uint (n : nat) (cur : list Z) : option (Z * list Z) := rest ← skip n cur; Some (be_val (take n cur), rest).
(* @src clash-lib/src/proxy/transport/shadow_tls/utils.rs 138 151 support_tls13 (extensions) *)
Fixpoint find_versions (cnt : nat) (cur : list Z) : option bool :=
  match cnt with
  | O => Some false
  | S cnt =>
    '(ext_type, cur) ← cur_uint 2 cur;
    if negb (ext_type =? SUPPORTED_VERSIONS_TYPE) then
      '(len, cur) ← cur_uint 2 cur;
      cur ← skip (Z.to_nat len) cur;
      find_versions cnt cur
    else
      '(ext_len, cur) ← cur_uint 2 cur;
      '(ext_val, _) ← cur_uint 2 cur;
      Some ((ext_len =? 2) && (ext_val =? TLS_13))
  end.
(* @src clash-lib/src/proxy/transport/shadow_tls/utils.rs ~^pub\(crate\) fn support_tls13~ support_tls13 *)
Definition support_tls13 (frame : list Z) : bool :=
  if (length frame <? SESSION_ID_LEN_IDX)%nat then false
  else
    default false (
      '(sid, cur) ← cur_uint 1 (drop SESSION_ID_LEN_IDX frame);
      cur ← skip (Z.to_nat sid) cur;
      cur ← skip 3 cur;
      '(cnt, cur) ← cur_uint 2 cur;
      find_versions (Z.to_nat cnt) cur).

(** [random] is the 28 bytes drawn. *)
(* @src clash-lib/src/proxy/transport/shadow_tls/mod.rs ~^fn generate_session_id~ generate_session_id *)
Definition generate_session_id (h : Hmac) (buf random : list Z) : list Z :=
  let start := (1 + 3 + 2 + TLS_RANDOM_SIZE + 1)%nat in
  if (length buf <? start + TLS_SESSION_ID_SIZE)%nat then replicate TLS_SESSION_ID_SIZE 0
  else
    let session_id := random ++ replicate HMAC_SIZE 0 in
    let h := hmac_update (drop (start + TLS_SESSION_ID_SIZE) buf) (hmac_update session_id (hmac_update (take start buf) h)) in
    random ++ hmac_finalize h.
End keys.

(* @src clash-lib/src/proxy/transport/shadow_tls/stream.rs ~^pub enum ReadState~ ReadState *)
Inductive ReadState : Type := WaitingHeader | WaitingData (size : nat) (header : list Z) | FlushingRead.
(* @src clash-lib/src/proxy/transport/shadow_tls/stream.rs ~^pub enum WriteState~ WriteState *)
Inductive WriteState : Type := BuildingData | FlushingWrite (consume total written : nat).
(* @src clash-lib/src/proxy/transport/shadow_tls/stream.rs ~^pub struct Certs~ Certs *)
Record Certs : Type := { ce_server_random : list Z; ce_hmac : Hmac; ce_key : list Z }.

(** What a round of a reading loop asks for: go on, or data for the caller. *)
Definition header_size (header : list Z) : nat := Z.to_nat (be_val (drop 3 header)).

(** ** Under the handshake *)
(* @src clash-lib/src/proxy/transport/shadow_tls/stream.rs ~^pub struct ProxyTlsStream~ ProxyTlsStream *)
Record ProxyTlsStream (S : Type) : Type := {
  pt_raw : S; pt_password : str; pt_state : ReadState; pt_pos : nat; pt_buf : list Z;
  pt_certs : option Certs; pt_authorized : bool; pt_tls13 : bool; pt_fake_request : bool;
}.
Arguments pt_raw {S} _.
Arguments pt_password {S} _.
Arguments pt_state {S} _.
Arguments pt_pos {S} _.
Arguments pt_buf {S} _.
Arguments pt_certs {S} _.
Arguments pt_authorized {S} _.
Arguments pt_tls13 {S} _.
Arguments pt_fake_request {S} _.

(** ** The data stream *)
(* @src clash-lib/src/proxy/transport/shadow_tls/stream.rs ~^pub struct VerifiedStream~ VerifiedStream *)
Record VerifiedStream (S : Type) : Type := {
  vf_raw : S; client_cert : Hmac; server_cert : Hmac; nop_cert : option Hmac;
  vf_buf : list Z; vf_pos : nat; vf_state : ReadState; vf_write_buf : list Z; vf_write_state : WriteState;
}.
Arguments vf_raw {S} _.
Arguments client_cert {S} _.
Arguments server_cert {S} _.
Arguments nop_cert {S} _.
Arguments vf_buf {S} _.
Arguments vf_pos {S} _.
Arguments vf_state {S} _.
Arguments vf_write_buf {S} _.
Arguments vf_write_state {S} _.

Section proxy.
Context {CL : CryptoLib} {S : Type} {AR : AsyncRead S}.
Notation PT := (ProxyTlsStream S).
(* @src clash-lib/src/proxy/transport/shadow_tls/stream.rs ~    pub fn new\(raw: S, password~ ProxyTlsStream::new *)
Definition proxy_new (raw : S) (password : str) : PT := {|
  pt_raw := raw; pt_password := password; pt_state := WaitingHeader; pt_pos := 0; pt_buf := []; pt_certs := None; pt_authorized := false;
  pt_tls13 := false; pt_fake_request := false |}.
Definition pt_decompose (v : PT) : ReadExactBase S := {| rx_raw := pt_raw v; rx_buf := pt_buf v; rx_pos := pt_pos v |}.
Definition pt_recompose (r : ReadExactBase S) (v : PT) : PT := {|
  pt_raw := rx_raw r; pt_password := pt_password v; pt_state := pt_state v; pt_pos := rx_pos r; pt_buf := rx_buf r; pt_certs := pt_certs v;
  pt_authorized := pt_authorized v; pt_tls13 := pt_tls13 v; pt_fake_request := pt_fake_request v |}.
Definition pt_put (st : ReadState) (buf : list Z) (certs : option Certs) (auth tls13 : bool) (v : PT) : PT := {|
  pt_raw := pt_raw v; pt_password := pt_password v; pt_state := st; pt_pos := pt_pos v; pt_buf := buf; pt_certs := certs;
  pt_authorized := auth; pt_tls13 := tls13; pt_fake_request := pt_fake_request v |}.

(** A whole record: the keys are taken from a ServerHello, and the peer's
    records are decoded.  The header and the body that are passed on. *)
(* @src clash-lib/src/proxy/transport/shadow_tls/stream.rs 127 196 ProxyTlsStream::poll_read (record) *)
Definition proxy_record (size : nat) (header body : list Z) (v : PT) : PT :=
  let on_certs := (pt_certs v, pt_authorized v, pt_tls13 v, header, body) in
  let '(certs, auth, tls13, header, body) :=
    match header !! 0%nat with
    | Some t =>
      if t =? HANDSHAKE then
        if (SERVER_RANDOM_OFFSET + TLS_RANDOM_SIZE <? length body)%nat && bool_decide (body !! 0%nat = Some SERVER_HELLO) then
          let server_random := take TLS_RANDOM_SIZE (drop SERVER_RANDOM_OFFSET body) in
          (Some {| ce_server_random := server_random; ce_hmac := hmac_new (pt_password v) server_random []; ce_key := kdf (pt_password v) server_random |},
           pt_authorized v, support_tls13 body, header, body)
        else on_certs
      else if t =? APPLICATION_DATA then
        match (if (HMAC_SIZE <? length body)%nat then pt_certs v else None) with
        | None => (pt_certs v, false, pt_tls13 v, header, body)
        | Some c =>
          let h := hmac_update (drop HMAC_SIZE body) (ce_hmac c) in
          let certs := Some {| ce_server_random := ce_server_random c; ce_hmac := h; ce_key := ce_key c |} in
          if bool_decide (hmac_finalize h = take HMAC_SIZE body) then
            (certs, true, pt_tls13 v, take 3 header ++ be_bytes 2 (wrap 16 (Z.of_nat size - 4)), xor_slice (drop HMAC_SIZE body) (ce_key c))
          else (certs, false, pt_tls13 v, header, body)
        end
      else on_certs
    | None => on_certs
    end in
  pt_put FlushingRead (header ++ body) certs auth tls13 v.

(* @src clash-lib/src/proxy/transport/shadow_tls/stream.rs 96 217 ProxyTlsStream::poll_read *)
Fixpoint proxy_rounds (rounds cap : nat) : PM PT (list Z) := fun v =>
  match rounds with
  | O => (Ready Panic, v)
  | Datatypes.S rounds =>
    match pt_state v with
    | WaitingHeader =>
      (_ ← zoom pt_decompose pt_recompose (poll_read_exact TLS_HEADER_SIZE);
       _ ← modify (fun v => pt_put (WaitingData (header_size (pt_buf v)) (pt_buf v)) [] (pt_certs v) (pt_authorized v) (pt_tls13 v) v);
       proxy_rounds rounds cap) v
    | WaitingData size header =>
      (_ ← zoom pt_decompose pt_recompose (poll_read_exact size);
       _ ← modify (fun v => proxy_record size header (pt_buf v) v);
       proxy_rounds rounds cap) v
    | FlushingRead =>
      let to_read := (cap `min` length (pt_buf v))%nat in
      let st := if (to_read <? length (pt_buf v))%nat then FlushingRead else WaitingHeader in
      (Ready (Ok (take to_read (pt_buf v))), pt_put st (drop to_read (pt_buf v)) (pt_certs v) (pt_authorized v) (pt_tls13 v) v)
    end
  end.
(** The three states follow each other. *)
Definition proxy_poll_read (cap : nat) : PM PT (list Z) := fun v =>
  if pt_fake_request v then
    let '(r, raw) := poll_read cap (pt_raw v) in (r, pt_recompose {| rx_raw := raw; rx_buf := pt_buf v; rx_pos := pt_pos v |} v)
  else proxy_rounds 3 cap v.
End proxy.

Section verified.
Context {CL : CryptoLib} {S : Type} {AR : AsyncRead S} {AW : AsyncWrite S}.
Notation VF := (VerifiedStream S).
(* @src clash-lib/src/proxy/transport/shadow_tls/stream.rs ~    pub\(crate\) fn new\(~ VerifiedStream::new *)
Definition verified_new (raw : S) (client server : Hmac) (nop : option Hmac) : VF := {|
  vf_raw := raw; client_cert := client; server_cert := server; nop_cert := nop; vf_buf := []; vf_pos := 0; vf_state := WaitingHeader;
  vf_write_buf := []; vf_write_state := BuildingData |}.
(* @src clash-lib/src/proxy/transport/shadow_tls/stream.rs ~^impl<S: AsyncRead \+ Unpin> ReadExactBase for VerifiedStream~ VerifiedStream::decompose *)
Definition vf_decompose (v : VF) : ReadExactBase S := {| rx_raw := vf_raw v; rx_buf := vf_buf v; rx_pos := vf_pos v |}.
Definition vf_recompose (r : ReadExactBase S) (v : VF) : VF := {|
  vf_raw := rx_raw r; client_cert := client_cert v; server_cert := server_cert v; nop_cert := nop_cert v; vf_buf := rx_buf r; vf_pos := rx_pos r;
  vf_state := vf_state v; vf_write_buf := vf_write_buf v; vf_write_state := vf_write_state v |}.
Definition set_read (st : ReadState) (buf : list Z) (server : Hmac) (nop : option Hmac) (v : VF) : VF := {|
  vf_raw := vf_raw v; client_cert := client_cert v; server_cert := server; nop_cert := nop; vf_buf := buf; vf_pos := vf_pos v;
  vf_state := st; vf_write_buf := vf_write_buf v; vf_write_state := vf_write_state v |}.
Definition set_write (raw : S) (client : Hmac) (buf : list Z) (st : WriteState) (v : VF) : VF := {|
  vf_raw := raw; client_cert := client; server_cert := server_cert v; nop_cert := nop_cert v; vf_buf := vf_buf v; vf_pos := vf_pos v;
  vf_state := vf_state v; vf_write_buf := buf; vf_write_state := st |}.
Definition vf_read_exact (n : nat) : PM VF unit := zoom vf_decompose vf_recompose (poll_read_exact n).

(** The verdict and the HMAC after it; a body shorter than the HMAC panics. *)
(* @src clash-lib/src/proxy/transport/shadow_tls/stream.rs ~^fn verify_appdata~ verify_appdata *)
Definition verify_appdata (header data : list Z) (h : Hmac) (sep : bool) : res (bool * Hmac) :=
  if negb (bool_decide (header !! 1%nat = Some TLS_MAJOR)) || negb (bool_decide (header !! 2%nat = Some TLS_MINOR_0)) then Ok (false, h)
  else if (length data <? HMAC_SIZE)%nat then Panic
  else
    let h := hmac_update (drop HMAC_SIZE data) h in
    let hmac_real := hmac_finalize h in
    let h := if sep then hmac_update hmac_real h else h in
    Ok (bool_decide (take HMAC_SIZE data = hmac_real), h).

(** A record of the data phase.  One that is not application data changes
    nothing: the reader stays where it is. *)
(* @src clash-lib/src/proxy/transport/shadow_tls/stream.rs 312 348 VerifiedStream::poll_read (record) *)
Definition open_record (size : nat) (header : list Z) : PM VF unit := fun v =>
  let data := vf_buf v in
  let v := set_read (WaitingData size header) [] (server_cert v) (nop_cert v) v in
  if negb (bool_decide (header !! 0%nat = Some APPLICATION_DATA)) then (Ready (Ok tt), v)
  else
    let data_record (v : VF) : Poll (res unit) * VF :=
      match verify_appdata header data (server_cert v) true with
      | Panic => (Ready Panic, v)
      | Err e => (Ready (Err e), v)
      | Ok (true, h) => (Ready (Ok tt), set_read FlushingRead (drop HMAC_SIZE data) h (nop_cert v) v)
      | Ok (false, h) => (Ready (Err "appdata verify failed"), set_read (vf_state v) (vf_buf v) h (nop_cert v) v)
      end in
    match nop_cert v with
    | None => data_record v
    | Some n =>
      match verify_appdata header data n false with
      | Panic => (Ready Panic, v)
      | Err e => (Ready (Err e), v)
      | Ok (true, n) => (Ready (Ok tt), set_read WaitingHeader [] (server_cert v) (Some n) v)
      | Ok (false, _) => data_record (set_read (vf_state v) (vf_buf v) (server_cert v) None v)
      end
    end.

(** Records that are skipped keep the loop going, so [rounds] is a bound the
    caller gives. *)
(* @src clash-lib/src/proxy/transport/shadow_tls/stream.rs 290 367 VerifiedStream::poll_read *)
Fixpoint verified_rounds (rounds cap : nat) : PM VF (list Z) := fun v =>
  match rounds with
  | O => (Ready Panic, v)
  | Datatypes.S rounds =>
    match vf_state v with
    | WaitingHeader =>
      (_ ← vf_read_exact TLS_HEADER_SIZE;
       _ ← modify (fun v => set_read (WaitingData (header_size (vf_buf v)) (vf_buf v)) [] (server_cert v) (nop_cert v) v);
       verified_rounds rounds cap) v
    | WaitingData size header => (_ ← vf_read_exact size; _ ← open_record size header; verified_rounds rounds cap) v
    | FlushingRead =>
      let to_read := (cap `min` length (vf_buf v))%nat in
      let st := if (to_read <? length (vf_buf v))%nat then FlushingRead else WaitingHeader in
      (Ready (Ok (take to_read (vf_buf v))), set_read st (drop to_read (vf_buf v)) (server_cert v) (nop_cert v) v)
    end
  end.

(** The record of a buffer. *)
(* @src clash-lib/src/proxy/transport/shadow_tls/stream.rs 379 406 VerifiedStream::poll_write (build) *)
Definition build_record (buf : list Z) (v : VF) : VF :=
  let h := hmac_update buf (client_cert v) in
  let hmac_val := hmac_finalize h in
  let header_body := [APPLICATION_DATA; TLS_MAJOR; TLS_MINOR_0] ++ be_bytes 2 (wrap 16 (zlen buf + 4)) ++ hmac_val ++ buf in
  set_write (vf_raw v) (hmac_update hmac_val h) (vf_write_buf v ++ header_body) (FlushingWrite (length buf) (length header_body) 0) v.
(** Every round writes a byte. *)
(* @src clash-lib/src/proxy/transport/shadow_tls/stream.rs 407 430 VerifiedStream::poll_write (flush) *)
Fixpoint flush_record (fuel : nat) : PM VF nat := fun v =>
  match vf_write_state v, fuel with
  | BuildingData, _ | _, O => (Ready Panic, v)
  | FlushingWrite consume total written, Datatypes.S fuel =>
    let '(p, (raw, buf)) := poll_write_buf (vf_raw v, vf_write_buf v) in
    let v := set_write raw (client_cert v) buf (vf_write_state v) v in
    match p with
    | Pending => (Pending, v)
    | Ready Panic => (Ready Panic, v)
    | Ready (Err e) => (Ready (Err e), v)
    | Ready (Ok nw) =>
      if (nw =? 0)%nat then (Ready (Err "failed to write whole data"), v)
      else if (total <=? written + nw)%nat then (Ready (Ok consume), set_write raw (client_cert v) buf BuildingData v)
      else flush_record fuel (set_write raw (client_cert v) buf (FlushingWrite consume total (written + nw)) v)
    end
  end.
(* @src clash-lib/src/proxy/transport/shadow_tls/stream.rs ~    fn poll_write\(~#2 VerifiedStream::poll_write *)
Definition verified_poll_write (buf : list Z) : PM VF nat := fun v =>
  let v := match vf_write_state v with BuildingData => build_record buf v | _ => v end in
  flush_record (length (vf_write_buf v)) v.
End verified.
