(* ===== verification/ShadowTlsSpec.v ===== *)
(** * What a ShadowTLS stream carries

    A [VerifiedStream] reads what another one wrote, over any wire. *)

From S2P Require Import Prelude Str Crypto Async ShadowTls.

Section spec.
Context {CL : CryptoLib} {CW : CryptoLaws CL}.
Notation VF := (VerifiedStream Wire).

Lemma mac_length h : length (hmac_finalize h) = 4%nat.
Proof. unfold hmac_finalize, HMAC_SIZE. rewrite length_take, hmac_sha1_length. lia. Qed.

(** ** Records *)
Definition record_of (mac body : list Z) : list Z := [APPLICATION_DATA; TLS_MAJOR; TLS_MINOR_0] ++ be_bytes 2 (zlen body + 4) ++ mac ++ body.
Definition fits (body : list Z) : Prop := zlen body + 4 < 2 ^ 16.
(** The HMAC of a payload, and the state after it. *)
Definition mac_of (h : Hmac) (p : list Z) : list Z := hmac_finalize (hmac_update p h).
Definition after (h : Hmac) (p : list Z) : Hmac := hmac_update (mac_of h p) (hmac_update p h).

(** What a reader with these two HMACs gets from bytes: records of the real
    server are skipped until the first of the peer, which the other HMAC
    must not accept. *)
Inductive carries : option Hmac -> Hmac -> list Z -> list (list Z) -> Prop :=
| carries_nil o s : carries o s [] []
| carries_nop n s b w ps : fits b -> carries (Some (hmac_update b n)) s w ps ->
    carries (Some n) s (record_of (mac_of n b) b ++ w) ps
| carries_data o s p w ps : p <> [] -> fits p -> (forall n, o = Some n -> mac_of s p <> mac_of n p) ->
    carries None (after s p) w ps -> carries o s (record_of (mac_of s p) p ++ w) (p :: ps).

(** The same, behind the header of a record with [size] bytes. *)
Definition carries_body (o : option Hmac) (s : Hmac) (size : nat) (all : list Z) (pt : list Z) : Prop :=
  (exists n b w ps, o = Some n /\ all = mac_of n b ++ b ++ w /\ size = (length b + 4)%nat /\ carries (Some (hmac_update b n)) s w ps /\ pt = mjoin ps) \/
  (exists p w ps, all = mac_of s p ++ p ++ w /\ size = (length p + 4)%nat /\ p <> [] /\ (forall n, o = Some n -> mac_of s p <> mac_of n p) /\
     carries None (after s p) w ps /\ pt = p ++ mjoin ps).

Definition app_header (size : nat) : list Z := [APPLICATION_DATA; TLS_MAJOR; TLS_MINOR_0] ++ be_bytes 2 (Z.of_nat size).

Lemma carries_cases o s all ps : carries o s all ps ->
  (all = [] /\ ps = []) \/
  exists size rest, all = app_header size ++ rest /\ Z.of_nat size < 2 ^ 16 /\ (size <= length rest)%nat /\ carries_body o s size rest (mjoin ps).
Proof.
  intros [|n s' b w ps' Hf Hc|o' s' p w ps' Hp Hf Hn Hc]; [by left| |]; right.
  - exists (length b + 4)%nat, (mac_of n b ++ b ++ w). unfold record_of, app_header, fits, zlen in *.
    replace (Z.of_nat (length b + 4)) with (Z.of_nat (length b) + 4) by lia. rewrite <- !app_assoc. split_and!; [done|lia| |].
    + rewrite !length_app. unfold mac_of. rewrite mac_length. lia.
    + left. by exists n, b, w, ps'.
  - exists (length p + 4)%nat, (mac_of s' p ++ p ++ w). unfold record_of, app_header, fits, zlen in *.
    replace (Z.of_nat (length p + 4)) with (Z.of_nat (length p) + 4) by lia. rewrite <- !app_assoc. split_and!; [done|lia| |].
    + rewrite !length_app. unfold mac_of. rewrite mac_length. lia.
    + right. by exists p, w, ps'.
Qed.

(** ** Reading *)
Definition inb (v : VF) : list Z := bytes_of (wi_in (vf_raw v)).
Definition vwaits (v : VF) : nat := waits_of (wi_in (vf_raw v)).
(** [pt] is still to be delivered. *)
Definition reader_inv (v : VF) (pt : list Z) : Prop :=
  match vf_state v with
  | WaitingHeader => exists got ps, collected (vf_decompose v) got /\ (vf_pos v <= 5)%nat /\
      carries (nop_cert v) (server_cert v) (got ++ inb v) ps /\ pt = mjoin ps
  | WaitingData size header => exists got, collected (vf_decompose v) got /\ (vf_pos v <= size)%nat /\ header = app_header size /\
      (size <= length (got ++ inb v))%nat /\ carries_body (nop_cert v) (server_cert v) size (got ++ inb v) pt
  | FlushingRead => vf_pos v = 0%nat /\ vf_buf v <> [] /\ exists ps, carries (nop_cert v) (server_cert v) (inb v) ps /\ pt = vf_buf v ++ mjoin ps
  end.
(** The bytes that were not used yet. *)
Definition unused (v : VF) : nat := vf_pos v + length (inb v).

(** How many rounds are left before data or a wait: every record takes two,
    and has bytes. *)
Definition rounds_left (v : VF) : nat :=
  match vf_state v with
  | WaitingHeader => 3 + unused v
  | WaitingData _ _ => 2 + unused v
  | FlushingRead => 1
  end.

Definition reads (v : VF) (pt : list Z) (o : Poll (res (list Z)) * VF) : Prop :=
  match o with
  | (Ready (Ok d), v') => d <> [] /\ vwaits v' = vwaits v /\ (unused v' <= unused v)%nat /\ exists pt', pt = d ++ pt' /\ reader_inv v' pt'
  | (Pending, v') => reader_inv v' pt /\ (pt <> [] -> vwaits v' < vwaits v)%nat /\ (vwaits v' <= vwaits v)%nat /\ (unused v' <= unused v)%nat
  | (Ready (Err _), _) => pt = []
  | (Ready Panic, _) => False
  end.

(** Reading exactly [n] bytes, of which enough are on their way. *)
Lemma vf_read_exact_spec n (v : VF) got :
  collected (vf_decompose v) got -> (vf_pos v <= n)%nat -> (n <= length (got ++ inb v))%nat ->
  exists p v' more, vf_read_exact n v = (p, v') /\ inb v = more ++ inb v' /\ vf_state v' = vf_state v /\
    server_cert v' = server_cert v /\ nop_cert v' = nop_cert v /\
    ((p = Ready (Ok tt) /\ vf_buf v' = got ++ more /\ vf_pos v' = 0%nat /\ length (got ++ more) = n /\ vwaits v' = vwaits v) \/
     (p = Pending /\ collected (vf_decompose v') (got ++ more) /\ (vf_pos v' < n)%nat /\ (vwaits v' < vwaits v)%nat)).
Proof.
  intros Hc Hp Hn. rewrite length_app in Hn. pose proof Hc as [Hc1 Hc2]. cbn in Hc1, Hc2.
  destruct (poll_read_exact_spec n (vf_decompose v) got Hc) as (p & s' & more & E & R1 & R2 & R3); [|done|done|].
  { cbn. rewrite <- Hc1, <- Hc2, length_take. lia. }
  exists p, (vf_recompose s' v), more. unfold vf_read_exact, zoom. rewrite E. split; [done|]. by split_and!.
Qed.

Lemma flush_reads cap (v : VF) pt rounds : reader_inv v pt -> vf_state v = FlushingRead -> (0 < cap)%nat -> reads v pt (verified_rounds (S rounds) cap v).
Proof.
  intros Hi Hs Hcap. unfold reader_inv in Hi. rewrite Hs in Hi. destruct Hi as (Hp & Hne & ps & Hc & ->). cbn [verified_rounds]. rewrite Hs.
  cbv zeta. cbn [reads]. set (k := (cap `min` length (vf_buf v))%nat). assert (0 < k)%nat as Hk by (destruct (vf_buf v); [done|cbn in k |- *; lia]).
  assert (k <= length (vf_buf v))%nat as Hle by lia. split_and!; [|done|done|].
  - intros E. apply (f_equal length) in E. rewrite length_take in E. cbn in E. lia.
  - exists (drop k (vf_buf v) ++ mjoin ps). split; [by rewrite app_assoc, take_drop|]. unfold reader_inv. cbn [vf_state set_read].
    destruct (Nat.ltb_spec k (length (vf_buf v))) as [H|H].
    + split_and!; [done| |by exists ps]. cbn [vf_buf set_read]. intros E. apply (f_equal length) in E. rewrite length_drop in E. cbn in E. lia.
    + exists [], ps. rewrite drop_ge by lia. split_and!; [split; cbn; by rewrite Hp|cbn; lia|done|done].
Qed.

Lemma header_size_app n : Z.of_nat n < 2 ^ 16 -> header_size (app_header n) = n.
Proof.
  intros H. unfold header_size, app_header. change (drop 3 ([APPLICATION_DATA; TLS_MAJOR; TLS_MINOR_0] ++ be_bytes 2 (Z.of_nat n))) with (be_bytes 2 (Z.of_nat n)).
  rewrite be_val_bytes by (split; cbn; lia). lia.
Qed.
Lemma app_header_length n : length (app_header n) = 5%nat.
Proof. unfold app_header. rewrite length_app, be_bytes_length. done. Qed.

(** The record that was read is skipped or opened. *)
Lemma open_spec size got_all (v : VF) pt w :
  vf_state v = WaitingData size (app_header size) -> vf_buf v = got_all -> vf_pos v = 0%nat -> length got_all = size -> inb v = w ->
  carries_body (nop_cert v) (server_cert v) size (got_all ++ w) pt ->
  exists v', open_record size (app_header size) v = (Ready (Ok tt), v') /\ reader_inv v' pt /\ inb v' = inb v /\ vwaits v' = vwaits v /\
    vf_pos v' = 0%nat /\ (vf_state v' = FlushingRead \/ vf_state v' = WaitingHeader).
Proof.
  intros Hs Hb Hpos Hl Hw Hc. unfold open_record. rewrite Hb. cbn [app_header app lookup list_lookup].
  change (negb (bool_decide (Some APPLICATION_DATA = Some APPLICATION_DATA))) with false. cbv iota. cbn [nop_cert set_read server_cert].
  assert (forall h sep b mac rest, got_all ++ w = mac ++ b ++ rest -> length mac = 4%nat -> size = (length b + 4)%nat ->
    rest = w /\ verify_appdata (app_header size) got_all h sep =
      Ok (bool_decide (mac = mac_of h b), if sep then after h b else hmac_update b h)) as Hv.
  { intros h sep b mac rest He Hm Hsz. assert (got_all = mac ++ b /\ w = rest) as [-> ->].
    { rewrite app_assoc in He. apply app_inj_1 in He; [done|]. rewrite length_app. lia. }
    split; [done|]. unfold verify_appdata. cbn [app_header app lookup list_lookup]. rewrite !bool_decide_eq_true_2 by done. cbn [negb orb].
    unfold HMAC_SIZE. rewrite length_app, Hm. destruct (Nat.ltb_spec (4 + length b) 4); [lia|]. rewrite (drop_app_length' mac b 4), (take_app_length' mac b 4) by done.
    destruct sep; done. }
  change (APPLICATION_DATA :: TLS_MAJOR :: TLS_MINOR_0 :: be_bytes 2 (Z.of_nat size)) with (app_header size).
  destruct Hc as [(n & b & rest & ps & Hn & Hall & Hsz & Hc & ->)|(p & rest & ps & Hall & Hsz & Hp & Hno & Hc & ->)].
  - rewrite Hn. destruct (Hv n false b (mac_of n b) rest Hall) as [-> ->]; [unfold mac_of; apply mac_length|done|].
    rewrite bool_decide_eq_true_2 by done. eexists. split; [reflexivity|]. split_and!; try done; [|by right].
    unfold reader_inv. cbn. exists [], ps. split_and!; [split; cbn; by rewrite Hpos|lia| |done]. unfold inb in *. cbn. by rewrite Hw.
  - destruct (Hv (server_cert v) true p (mac_of (server_cert v) p) rest Hall) as [-> Hok]; [unfold mac_of; apply mac_length|done|].
    rewrite bool_decide_eq_true_2 in Hok by done.
    assert (drop HMAC_SIZE got_all = p) as Hdrop.
    { rewrite app_assoc in Hall. apply app_inj_1 in Hall as [-> _]; [|rewrite length_app; unfold mac_of; rewrite mac_length; lia].
      unfold HMAC_SIZE. rewrite <- (mac_length (hmac_update p (server_cert v))). apply drop_app_length. }
    assert (forall nc (v1 : VF), reader_inv (set_read FlushingRead p (after (server_cert v) p) None (set_read (WaitingData size (app_header size)) [] (server_cert v) nc v)) (p ++ mjoin ps)) as Hinv.
    { intros nc v1. unfold reader_inv. cbn. split_and!; [done|done|]. exists ps. split; [|done]. unfold inb in *. cbn. by rewrite Hw. }
    destruct (nop_cert v) as [n|] eqn:En.
    + destruct (Hv n false p (mac_of (server_cert v) p) w Hall) as [_ Hnop]; [unfold mac_of; apply mac_length|done|].
      rewrite bool_decide_eq_false_2 in Hnop by (by apply Hno). rewrite Hnop. cbn [set_read server_cert nop_cert vf_state vf_buf]. rewrite Hok, Hdrop.
      eexists. split; [reflexivity|]. split_and!; try done; [|by left]. exact (Hinv None v).
    + rewrite Hok, Hdrop. eexists. split; [reflexivity|]. split_and!; try done; [|by left]. exact (Hinv None v).
Qed.

(** A reader without input waits or fails. *)
Lemma drained_reads cap rounds (v : VF) : vf_state v = WaitingHeader -> collected (vf_decompose v) [] -> inb v = [] ->
  reads v [] (verified_rounds (S rounds) cap v).
Proof.
  intros Hs [Hc1 _] Hb. cbn in Hc1. cbn [verified_rounds]. rewrite Hs.
  unfold vf_read_exact, zoom, poll_read_exact, mbind, pm_bind, TLS_HEADER_SIZE. cbn. rewrite <- Hc1. cbn.
  unfold inb in Hb. destruct (drained_wire 5 (vf_raw v) Hb) as [(w' & E & Hb')|[(w' & E)|(e & w' & E)]]; rewrite E; cbn; try done.
  assert (waits_of (wi_in w') <= waits_of (wi_in (vf_raw v)))%nat as Hw.
  { unfold poll_read, wire_read in E. destruct (vf_raw v) as [[|[b bs| | |m] i] ev o sh]; cbn in *; try done; injection E as <-; cbn; lia. }
  split_and!; try done.
  - unfold reader_inv. cbn. rewrite Hs. exists [], []. unfold inb. cbn. rewrite Hb'. split_and!; [by split|lia|constructor|done].
  - unfold unused, inb. cbn. rewrite Hb'. cbn. lia.
Qed.

(** A poll that has come closer to its end. *)
Lemma reads_later (v v1 : VF) pt o : (vwaits v1 = vwaits v)%nat -> (unused v1 <= unused v)%nat -> reads v1 pt o -> reads v pt o.
Proof.
  intros Hw Hl. destruct o as [[[d| |]|] v']; cbn; try done.
  - intros (H1 & H2 & H3 & H4). split_and!; [done|congruence|lia|done].
  - intros (H1 & H2 & H3 & H4). rewrite Hw in H2, H3. split_and!; [done|done|done|lia].
Qed.

Lemma verified_rounds_read rounds cap (v : VF) pt : reader_inv v pt -> (0 < cap)%nat -> (rounds_left v <= rounds)%nat -> reads v pt (verified_rounds rounds cap v).
Proof.
  revert v. induction rounds as [|rounds IH]; intros v Hi Hcap Hr; [unfold rounds_left in Hr; destruct (vf_state v); lia|].
  destruct (vf_state v) as [|size header|] eqn:Hs; [| |by apply flush_reads].
  - pose proof Hi as Hi0. unfold reader_inv in Hi. rewrite Hs in Hi. destruct Hi as (got & ps & Hc & Hp & Hca & ->).
    destruct (carries_cases _ _ _ _ Hca) as [[Hall ->]|(size & rest & Hall & Hz & Hsz & Hbody)].
    { apply app_nil in Hall as [-> Hb]. by apply drained_reads. }
    destruct (vf_read_exact_spec 5 v got Hc Hp) as (p & v1 & more & E & Hb & Hst & Hsc & Hnc & H).
    { rewrite Hall, length_app, app_header_length. lia. }
    cbn [verified_rounds]. rewrite Hs. unfold TLS_HEADER_SIZE. destruct H as [(-> & Hbuf & Hpos & Hlen & Hw)|(-> & Hcol & Hpos & Hw)].
    + rewrite (pm_bind_ready _ _ _ _ _ E). unfold mbind, pm_bind. cbn [modify].
      rewrite Hb, app_assoc in Hall. apply app_inj_1 in Hall as [Hh Hrest]; [|by rewrite app_header_length].
      set (v2 := set_read _ _ _ _ v1). assert (inb v2 = rest) as Hin by done.
      assert (vf_pos v2 = 0%nat) as Hp2 by done.
      apply (reads_later v v2); [done|unfold unused; rewrite Hp2, Hin, <- Hrest, Hb, length_app; lia|]. apply IH; [|done|].
      * unfold reader_inv. cbn. rewrite Hbuf, Hh, header_size_app by done. exists []. split_and!; [split; cbn; by rewrite Hpos|lia|done| |].
        -- rewrite app_nil_l, Hin. done.
        -- rewrite app_nil_l, Hin. cbn. by rewrite Hsc, Hnc.
      * unfold rounds_left, unused in *. rewrite Hs in Hr. cbn [vf_state v2 set_read]. rewrite Hp2, Hin, <- Hrest. rewrite Hb, length_app in Hr. lia.
    + rewrite (pm_bind_pending _ _ _ _ E). cbn. split_and!; [|done|lia|unfold unused; destruct Hcol as [Hl1 _], Hc as [Hl2 _]; cbn in Hl1, Hl2; rewrite Hb, <- Hl1, <- Hl2, !length_app; lia]. unfold reader_inv. rewrite Hst, Hs.
      exists (got ++ more), ps. rewrite <- app_assoc, <- Hb, Hsc, Hnc. split_and!; [done|lia|done|done].
  - pose proof Hi as Hi0. unfold reader_inv in Hi. rewrite Hs in Hi. destruct Hi as (got & Hc & Hp & -> & Hsz & Hbody).
    destruct (vf_read_exact_spec size v got Hc Hp Hsz) as (p & v1 & more & E & Hb & Hst & Hsc & Hnc & H).
    cbn [verified_rounds]. rewrite Hs. destruct H as [(-> & Hbuf & Hpos & Hlen & Hw)|(-> & Hcol & Hpos & Hw)].
    + rewrite (pm_bind_ready _ _ _ _ _ E). rewrite Hb, app_assoc in Hbody.
      destruct (open_spec size (got ++ more) v1 pt (inb v1)) as (v2 & Eo & Hi2 & Hin & Hw2 & Hpos2 & Hst2); try done; [by rewrite Hst|by rewrite Hsc, Hnc|].
      rewrite (pm_bind_ready _ _ _ _ _ Eo). apply (reads_later v v2); [congruence|unfold unused; rewrite Hpos2, Hin, Hb, length_app; lia|]. apply IH; [done|done|].
      assert (4 <= size)%nat as H4 by (destruct Hbody as [(? & ? & ? & ? & _ & _ & -> & _)|(? & ? & ? & _ & -> & _)]; lia).
      destruct Hc as [Hc1 _]. cbn in Hc1. rewrite length_app in Hlen.
      unfold rounds_left, unused in *. rewrite Hs in Hr. rewrite Hpos2, Hin. rewrite Hb, length_app in Hr. destruct Hst2 as [-> | ->]; lia.
    + rewrite (pm_bind_pending _ _ _ _ E). cbn. split_and!; [|done|lia|unfold unused; destruct Hcol as [Hl1 _], Hc as [Hl2 _]; cbn in Hl1, Hl2; rewrite Hb, <- Hl1, <- Hl2, !length_app; lia]. unfold reader_inv. rewrite Hst, Hs.
      exists (got ++ more). rewrite <- app_assoc, <- Hb, Hsc, Hnc. split_and!; [done|lia|done|done|done].
Qed.

(** The stream read with buffers of the given sizes until it fails. *)
Fixpoint read_many (rounds : nat) (caps : list nat) (v : VF) : list Z :=
  match caps with
  | [] => []
  | cap :: caps' =>
    match verified_rounds rounds cap v with
    | (Ready (Ok d), v') => d ++ read_many rounds caps' v'
    | (Pending, v') => read_many rounds caps' v'
    | _ => []
    end
  end.

Lemma rounds_bound (v : VF) : (rounds_left v <= 3 + unused v)%nat.
Proof. unfold rounds_left. destruct (vf_state v); lia. Qed.

Lemma verified_read_many_ok rounds caps (v : VF) pt : reader_inv v pt -> Forall (fun c => 0 < c)%nat caps -> (3 + unused v <= rounds)%nat ->
  read_many rounds caps v `prefix_of` pt /\ ((length pt + vwaits v <= length caps)%nat -> read_many rounds caps v = pt).
Proof.
  revert v pt. induction caps as [|cap caps IH]; intros v pt Hi Hcs Hr.
  { split; [apply prefix_nil|]. cbn. intros H. destruct pt; [done|cbn in H; lia]. }
  inversion Hcs as [|? ? Hcap Hcaps]; subst. cbn [read_many]. pose proof (rounds_bound v).
  pose proof (verified_rounds_read rounds cap v pt Hi Hcap ltac:(lia)) as H1. unfold reads in H1. destruct (verified_rounds rounds cap v) as [[[d| |]|] v']; try done.
  - destruct H1 as (Hd & Hw & Hu & pt' & -> & Hi'). destruct (IH v' pt' Hi' Hcaps ltac:(lia)) as [H1 H2]. split; [by apply prefix_app|].
    rewrite length_app. intros Hn. rewrite H2; [done|]. destruct d; [done|cbn in *; lia].
  - subst pt. split; [apply prefix_nil|done].
  - destruct H1 as (Hi' & Hw & Hw' & Hu). destruct (IH v' pt Hi' Hcaps ltac:(lia)) as [H1 H2]. split; [done|]. intros Hn.
    destruct (decide (pt = [])) as [->|Hne]; [by apply prefix_nil_inv in H1|]. apply H2. specialize (Hw Hne). cbn [length] in Hn. lia.
Qed.

(** ** Writing *)
Definition vblocks (v : VF) : nat := blocks (wi_ev (vf_raw v)).
(** [buf] is on its way after [out]; the schedule takes it and [room] more. *)
Definition owes (out buf : list Z) (room : nat) (h : Hmac) (v : VF) : Prop :=
  wi_out (vf_raw v) = out /\ vf_write_buf v = buf /\ client_cert v = h /\ no_errors (wi_ev (vf_raw v)) /\
  (length buf + room <= accepts (wi_ev (vf_raw v)))%nat.

Lemma flush_writes fuel out buf room h consume total written (v : VF) :
  (length buf <= fuel)%nat -> buf <> [] -> owes out buf room h v -> vf_write_state v = FlushingWrite consume total written -> (written + length buf = total)%nat ->
  exists p v', flush_record fuel v = (p, v') /\
    ((p = Ready (Ok consume) /\ owes (out ++ buf) [] room h v' /\ vf_write_state v' = BuildingData /\ (vblocks v' <= vblocks v)%nat) \/
     (p = Pending /\ (vblocks v' < vblocks v)%nat /\ exists k w', drop k buf <> [] /\ owes (out ++ take k buf) (drop k buf) room h v' /\
        vf_write_state v' = FlushingWrite consume total w' /\ (w' + length (drop k buf) = total)%nat)).
Proof.
  revert out buf written v. induction fuel as [|fuel IH]; intros out buf written v Hf Hne (Ho & Hb & Hh & He & Ha) Hs Ht; [destruct buf; [done|cbn in Hf; lia]|].
  cbn [flush_record]. rewrite Hs, Hb. unfold poll_write_buf. destruct buf as [|x buf]; [done|]. set (b := x :: buf) in *.
  unfold poll_write, wire_write. destruct (wi_ev (vf_raw v)) as [|[n| |m] ev] eqn:Ee; [cbn in Ha; lia| | |].
  - destruct (accepted_bound n b) as [Hle Hpos]. specialize (Hpos ltac:(done)). apply Forall_cons in He as [_ He]. cbn [accepts] in Ha.
    destruct (Nat.eqb_spec (accepted n b) 0); [lia|]. destruct (Nat.leb_spec total (written + accepted n b)) as [Hdone|Hmore].
    + eexists _, _. split; [reflexivity|]. left. assert (accepted n b = length b) as Hall by lia. rewrite Hall. rewrite drop_ge, take_ge by lia.
      split_and!; try done; [split_and!; cbn; try done; [by rewrite Ho|lia]|unfold vblocks; cbn; by rewrite Ee].
    + set (v1 := set_write _ _ _ _ _). destruct (IH (out ++ take (accepted n b) b) (drop (accepted n b) b) (written + accepted n b)%nat v1) as (p & v' & E & H).
      * rewrite length_drop. lia.
      * intros E. assert (length (drop (accepted n b) b) = 0)%nat as E0 by (by rewrite E). rewrite length_drop in E0. lia.
      * split_and!; cbn; try done; [by rewrite Ho|rewrite length_drop; lia].
      * done.
      * rewrite length_drop. lia.
      * exists p, v'. split; [exact E|]. rewrite <- app_assoc, take_drop in H. assert (vblocks v1 = vblocks v) as Hvb by (unfold vblocks; cbn; by rewrite Ee).
        rewrite Hvb in H. destruct H as [H|(H1 & H2 & k & w' & H3 & H4 & H5 & H6)]; [by left|right]. split_and!; [done|done|].
        exists (accepted n b + k)%nat, w'. rewrite <- app_assoc, take_take_drop in H4. rewrite drop_drop in *. by split_and!.
  - apply Forall_cons in He as [_ He]. eexists _, _. split; [reflexivity|]. right. split_and!; [done|unfold vblocks; cbn; rewrite Ee; cbn; lia|].
    exists 0%nat, written. rewrite app_nil_r. split_and!; try done.
  - apply Forall_cons in He as [He _]. by destruct (He m).
Qed.

(** Polled with the same buffer until it is taken. *)
Fixpoint write_until (n : nat) (buf : list Z) (v : VF) : option VF :=
  match n with
  | O => None
  | S n =>
    match verified_poll_write buf v with
    | (Ready (Ok k), v') => if (k =? length buf)%nat then Some v' else None
    | (Pending, v') => write_until n buf v'
    | _ => None
    end
  end.
Fixpoint write_chunks (n : nat) (ps : list (list Z)) (v : VF) : option VF :=
  match ps with [] => Some v | p :: ps => v' ← write_until n p v; write_chunks n ps v' end.

Lemma flushing_until n out buf rest room h total written (v : VF) :
  rest <> [] -> owes out rest room h v -> vf_write_state v = FlushingWrite (length buf) total written -> (written + length rest = total)%nat -> (vblocks v < n)%nat ->
  exists v', write_until n buf v = Some v' /\ owes (out ++ rest) [] room h v' /\ vf_write_state v' = BuildingData /\ (vblocks v' <= vblocks v)%nat.
Proof.
  revert out rest written v. induction n as [|n IH]; intros out rest written v Hne Hw Hs Ht Hn; [lia|]. cbn [write_until].
  unfold verified_poll_write. rewrite Hs. assert (vf_write_buf v = rest) as -> by apply Hw.
  destruct (flush_writes (length rest) out rest room h _ _ _ v ltac:(done) Hne Hw Hs Ht) as (p & v' & -> & [(-> & H1 & H2 & H3)|(-> & H1 & k & w' & H2 & H3 & H4 & H5)]).
  - rewrite Nat.eqb_refl. eauto.
  - destruct (IH _ _ _ v' H2 H3 H4 H5 ltac:(lia)) as (v2 & E & G1 & G2 & G3). exists v2. rewrite <- app_assoc, take_drop in G1. split_and!; try done. lia.
Qed.

Lemma chunk_written n out p room h (v : VF) : fits p -> owes out [] (length (record_of (mac_of h p) p) + room) h v -> vf_write_state v = BuildingData -> (vblocks v < n)%nat ->
  exists v', write_until n p v = Some v' /\ owes (out ++ record_of (mac_of h p) p) [] room (after h p) v' /\ vf_write_state v' = BuildingData /\ (vblocks v' <= vblocks v)%nat.
Proof.
  intros Hf (Ho & Hb & Hh & He & Ha) Hs Hn. assert (0 <= zlen p) by apply zlen_nonneg.
  set (v1 := build_record p v). assert (vf_write_buf v1 = record_of (mac_of h p) p) as Hb1.
  { unfold v1, build_record. cbn. rewrite Hb, Hh, wrap_small by (unfold fits in Hf; split; lia). done. }
  assert (vf_write_state v1 = FlushingWrite (length p) (length (record_of (mac_of h p) p)) 0) as Hs1.
  { unfold v1, build_record. cbn [vf_write_state set_write]. rewrite Hh, wrap_small by (unfold fits in Hf; split; lia). done. }
  assert (write_until n p v = write_until n p v1) as ->.
  { destruct n as [|n]; [done|]. cbn [write_until]. unfold verified_poll_write. rewrite Hs, Hs1. done. }
  apply (flushing_until n out p (record_of (mac_of h p) p) room (after h p) (length (record_of (mac_of h p) p)) 0 v1); try done.
  split_and!; try done. unfold v1, build_record. cbn. by rewrite Hh.
Qed.

(** The records of some chunks. *)
Fixpoint records (h : Hmac) (ps : list (list Z)) : list Z :=
  match ps with [] => [] | p :: ps => record_of (mac_of h p) p ++ records (after h p) ps end.

Lemma chunks_written n ps out room h (v : VF) : Forall fits ps -> owes out [] (length (records h ps) + room) h v -> vf_write_state v = BuildingData -> (vblocks v < n)%nat ->
  exists v', write_chunks n ps v = Some v' /\ wi_out (vf_raw v') = out ++ records h ps.
Proof.
  intros Hf. revert out h v. induction Hf as [|p ps Hp Hf IH]; intros out h v Hw Hs Hn; [exists v; cbn; rewrite app_nil_r; split; [done|apply Hw]|].
  cbn [write_chunks records] in *. rewrite length_app, <- Nat.add_assoc in Hw.
  destruct (chunk_written n out p _ h v Hp Hw Hs Hn) as (v1 & -> & Hw1 & Hs1 & Hn1). destruct (IH _ _ v1 Hw1 Hs1 ltac:(lia)) as (v2 & E & Ho).
  exists v2. rewrite app_assoc. done.
Qed.

Lemma records_carried o h ps : Forall (fun p => p <> [] /\ fits p) ps -> (forall n p, o = Some n -> head ps = Some p -> mac_of h p <> mac_of n p) ->
  carries o h (records h ps) ps.
Proof.
  intros Hf. revert o h. induction Hf as [|p ps [Hne Hp] _ IH]; intros o h Ho; [constructor|]. cbn [records].
  apply carries_data; [done|done| |by apply IH]. intros n Hn. by apply Ho.
Qed.
Lemma nops_carried n h bs w ps : Forall fits bs -> carries (Some (foldl (fun n b => hmac_update b n) n bs)) h w ps ->
  carries (Some n) h (mjoin (imap (fun i b => record_of (mac_of (foldl (fun n b => hmac_update b n) n (take i bs)) b) b) bs) ++ w) ps.
Proof.
  intros Hf. revert n. induction Hf as [|b bs Hb Hf IH]; intros n Hc; [done|]. cbn. rewrite <- app_assoc.
  apply carries_nop; [done|]. by apply IH.
Qed.

(** C29: A ShadowTLS stream carries its data.  Chunks written to one stream,
    on a wire that takes what it is offered in the end, are all written; and
    a stream whose server HMAC starts where the writer's client HMAC did
    reads exactly that data, behind any number of records of the handshake
    server, however the wire cuts and delays the bytes and however small the
    buffers are, as long as its other HMAC does not accept the first chunk. *)
Theorem shadow_tls_roundtrip (ps nops : list (list Z)) (w r : VF) (nop : Hmac) (caps : list nat) (rounds : nat)
    (Hps : Forall (fun p => p <> [] /\ fits p) ps) (Hnops : Forall fits nops)
    (Hw : vf_write_state w = BuildingData) (Hwb : vf_write_buf w = []) (Hne : no_errors (wi_ev (vf_raw w)))
    (Hroom : (length (records (client_cert w) ps) <= accepts (wi_ev (vf_raw w)))%nat)
    (Hr : vf_state r = WaitingHeader) (Hrp : vf_pos r = 0%nat) (Hkey : server_cert r = client_cert w) (Hnop : nop_cert r = Some nop)
    (Hdiff : forall p, head ps = Some p -> mac_of (client_cert w) p <> mac_of (foldl (fun n b => hmac_update b n) nop nops) p)
    (Hcaps : Forall (fun c => 0 < c)%nat caps)
    (Hbytes : inb r = mjoin (imap (fun i b => record_of (mac_of (foldl (fun n b => hmac_update b n) nop (take i nops)) b) b) nops) ++ records (client_cert w) ps)
    (Hrounds : (3 + length (inb r) <= rounds)%nat) :
  (exists w', write_chunks (S (vblocks w)) ps w = Some w' /\ wi_out (vf_raw w') = wi_out (vf_raw w) ++ records (client_cert w) ps) /\
  read_many rounds caps r `prefix_of` mjoin ps /\
  ((length (mjoin ps) + vwaits r <= length caps)%nat -> read_many rounds caps r = mjoin ps).
Proof.
  split.
  - apply (chunks_written _ ps _ 0 (client_cert w)); [by eapply Forall_impl; [exact Hps|intros ? [? ?]]| |done|lia]. split_and!; try done. cbn. lia.
  - apply verified_read_many_ok; [|done|unfold unused; rewrite Hrp; lia]. unfold reader_inv. rewrite Hr, Hnop, Hkey. exists [], ps.
    split_and!; [split; cbn; by rewrite Hrp|lia| |done]. rewrite app_nil_l, Hbytes. apply nops_carried; [done|]. apply records_carried; [done|].
    intros n p [= <-]. apply Hdiff.
Qed.
End spec.

(** ** Examples *)
Definition demo_key (b : Z) : Hmac := hmac_new [] [b; b; b; b] [].
Definition demo_stream (i : list ReadEv) (ev : list WriteEv) (client : Hmac) : VerifiedStream Wire :=
  verified_new {| wi_in := i; wi_ev := ev; wi_out := []; wi_shut := false |} client (demo_key 1) (Some (demo_key 2)).

Lemma shadow_tls_roundtrip_witness :
  let r := demo_stream [RdData 23 [3; 3; 0; 5; 2]; RdPending; RdData 2 [2; 2; 9; 23; 3; 3; 0; 6; 1; 1; 1; 1; 7]; RdData 8 []] [] (demo_key 1) in
  read_many (CL := plain_crypto) 40 [1; 1; 1; 1]%nat r = [7; 8].
Proof.
  intros r.
  destruct (@shadow_tls_roundtrip plain_crypto plain_crypto_laws [[7; 8]] [[9]] (demo_stream [] (replicate 20 (WrAccept 0)) (demo_key 1)) r
    (demo_key 2) [1; 1; 1; 1]%nat 40) as (_ & _ & H).
  - repeat constructor; try done; vm_compute; by intros.
  - repeat constructor; vm_compute; by intros.
  - reflexivity.
  - reflexivity.
  - apply Forall_replicate. by intros.
  - vm_compute. lia.
  - reflexivity.
  - reflexivity.
  - reflexivity.
  - reflexivity.
  - intros p [= <-]. vm_compute. discriminate.
  - repeat constructor.
  - vm_compute. reflexivity.
  - vm_compute. lia.
  - apply H. vm_compute. lia.
Defined.

(** A record of application data shorter than the HMAC panics. *)
Lemma short_record_panics : fst (verified_rounds (CL := plain_crypto) 9 16 (demo_stream [RdData 23 [3; 3; 0; 2; 1; 1]] [] (demo_key 1))) = Ready Panic.
Proof. vm_compute. reflexivity. Qed.
(** A record of another type, such as an alert, leaves the reader in the
    state of its body: it takes the following bytes for it, as many at a time
    as the record had, and never reads a header again. *)
Lemma alert_never_left {CL : CryptoLib} {S : Type} size header (v : VerifiedStream S) : header !! 0%nat <> Some APPLICATION_DATA ->
  exists v', open_record size header v = (Ready (Ok tt), v') /\ vf_state v' = WaitingData size header /\ vf_buf v' = [].
Proof. intros H. unfold open_record. rewrite bool_decide_eq_false_2 by done. by eexists. Qed.

(** A ServerHello that selects TLS 1.3, as it is passed to the test (without
    the record header) and as the test expects it (with one). *)
Definition hello13 : list Z :=
  [2; 0; 0; 78; 3; 3] ++ replicate 32 7 ++ [32] ++ replicate 32 8 ++ [0x13; 1; 0] ++ [0; 6] ++ [0; 43; 0; 2; 3; 4].
Lemma tls13_missed : support_tls13 hello13 = false /\ support_tls13 ([22; 3; 3; 0; 82] ++ hello13) = true.
Proof. vm_compute. done. Qed.
