(* ===== verification/Transport.v ===== *)
(** * Transports over HTTP/2 and WebSocket ([proxy/transport/{h2,grpc,ws}])

    The streams built on the h2 and tungstenite crates.  What these crates
    deliver is a schedule of frames and waits, what they accept a schedule of
    capacities. *)

From S2P Require Import Prelude Str Net Session Async.

(** ** The crates below *)

(** What [RecvStream::poll_data] gives, poll by poll; then the end. *)
Inductive RecvEv : Type := RvWait | RvData (bs : list Z) | RvErr.
(** What [SendStream::poll_capacity] gives, and whether a [send_data] that
    follows succeeds. *)
Inductive SendEv : Type := SnWait | SnCap (n : nat) (sent : bool) | SnErr (sent : bool) | SnClosed.
(** [RecvStream] with the bytes released to the flow control, and
    [SendStream] with the frames sent and what [poll_reset] answers.  A
    release of bytes that were received does not fail. *)
Record H2Conn : Type := {
  hc_recv : list RecvEv; hc_end_stream : bool; hc_released : nat;
  hc_send : list SendEv; hc_sent : list (list Z); hc_ended : bool; hc_reset : Poll (res unit) }.
Definition with_recv (l : list RecvEv) (released : nat) (c : H2Conn) : H2Conn :=
  {| hc_recv := l; hc_end_stream := hc_end_stream c; hc_released := released; hc_send := hc_send c; hc_sent := hc_sent c;
     hc_ended := hc_ended c; hc_reset := hc_reset c |}.
Definition with_send (l : list SendEv) (sent : list (list Z)) (ended : bool) (c : H2Conn) : H2Conn :=
  {| hc_recv := hc_recv c; hc_end_stream := hc_end_stream c; hc_released := hc_released c; hc_send := l; hc_sent := sent;
     hc_ended := ended; hc_reset := hc_reset c |}.
(** [None]: the end of the stream. *)
Definition poll_data (c : H2Conn) : Poll (option (res (list Z))) * H2Conn :=
  match hc_recv c with
  | [] => (Ready None, c)
  | RvWait :: l => (Pending, with_recv l (hc_released c) c)
  | RvData bs :: l => (Ready (Some (Ok bs)), with_recv l (hc_released c) c)
  | RvErr :: l => (Ready (Some (Err "h2 error")), with_recv l (hc_released c) c)
  end.
Definition release_capacity (n : nat) (c : H2Conn) : H2Conn := with_recv (hc_recv c) (hc_released c + n) c.
(** The capacity, with the outcome of the [send_data] that follows. *)
Definition poll_capacity (c : H2Conn) : Poll (option (res nat * bool)) * H2Conn :=
  match hc_send c with
  | [] => (Pending, c)
  | SnWait :: l => (Pending, with_send l (hc_sent c) (hc_ended c) c)
  | SnCap n sent :: l => (Ready (Some (Ok n, sent)), with_send l (hc_sent c) (hc_ended c) c)
  | SnErr sent :: l => (Ready (Some (Err "h2 error", sent)), with_send l (hc_sent c) (hc_ended c) c)
  | SnClosed :: l => (Ready None, with_send l (hc_sent c) (hc_ended c) c)
  end.
Definition send_data (bs : list Z) (fin : bool) (ok : bool) (c : H2Conn) : bool * H2Conn :=
  if ok then (true, with_send (hc_send c) (hc_sent c ++ [bs]) (hc_ended c || fin) c) else (false, c).

(** ** HTTP/2 ([h2.rs]) *)
Module H2.
(* @src clash-lib/src/proxy/transport/h2.rs ~^pub struct Http2Stream~ Http2Stream *)
Record Http2Stream : Type := { conn : H2Conn; buffer : list Z }.

(* @src clash-lib/src/proxy/transport/h2.rs ~^impl AsyncRead for Http2Stream~ Http2Stream::poll_read *)
#[global] Instance h2_read : AsyncRead Http2Stream := fun cap s =>
  if bool_decide (buffer s <> []) then
    let to_read := (length (buffer s) `min` cap)%nat in
    (Ready (Ok (take to_read (buffer s))), {| conn := conn s; buffer := drop to_read (buffer s) |})
  else
    let '(r, c) := poll_data (conn s) in
    match r with
    | Pending => (Pending, {| conn := c; buffer := buffer s |})
    | Ready (Some (Ok data)) =>
      let to_read := (length data `min` cap)%nat in
      (Ready (Ok (take to_read data)),
       {| conn := release_capacity to_read c;
          buffer := if (to_read <? length data)%nat then buffer s ++ drop to_read data else buffer s |})
    | Ready _ => (Ready (Ok []), {| conn := c; buffer := buffer s |})
    end.

(** [&buf[..to_write]] panics beyond the end. *)
(* @src clash-lib/src/proxy/transport/h2.rs 146 165 Http2Stream::poll_write *)
Definition h2_write (buf : list Z) (s : Http2Stream) : Poll (res nat) * Http2Stream :=
  let '(r, c) := poll_capacity (conn s) in
  match r with
  | Pending => (Pending, {| conn := c; buffer := buffer s |})
  | Ready (Some (Ok to_write, ok)) =>
    if (to_write <=? length buf)%nat then
      let '(sent, c) := send_data (take to_write buf) false ok c in
      (Ready (if sent then Ok to_write else Err "broken pipe"), {| conn := c; buffer := buffer s |})
    else (Ready Panic, {| conn := c; buffer := buffer s |})
  | Ready _ => (Ready (Err "broken pipe"), {| conn := c; buffer := buffer s |})
  end.
(* @src clash-lib/src/proxy/transport/h2.rs 174 192 Http2Stream::poll_shutdown *)
Definition h2_shutdown (s : Http2Stream) : Poll (res unit) * Http2Stream :=
  let '(r, c) := poll_capacity (conn s) in
  match r with
  | Pending => (Pending, {| conn := c; buffer := buffer s |})
  | Ready (Some (_, ok)) =>
    let '(sent, c) := send_data [] true ok c in
    (Ready (if sent then Ok tt else Err "broken pipe"), {| conn := c; buffer := buffer s |})
  | Ready None => (Ready (Err "broken pipe"), {| conn := c; buffer := buffer s |})
  end.
#[global] Instance h2_writer : AsyncWrite Http2Stream :=
  {| poll_write := h2_write; poll_flush := fun s => (Ready (Ok tt), s); poll_shutdown := h2_shutdown |}.
End H2.

(** ** gRPC ([grpc.rs]) *)

(** [prost::encoding]: the decoder gives the value, or nothing, and what it
    leaves of the buffer. *)
Class VarintLib : Type := {
  encode_varint : Z -> list Z;
  decode_varint : list Z -> option Z * list Z;
}.

Module Grpc.
Section grpc.
Context {VL : VarintLib}.

(** [init_waits]: polls before the response has come; [recv] is [None] when
    there was none. *)
(* @src clash-lib/src/proxy/transport/grpc.rs ~^pub struct GrpcStream~ GrpcStream *)
Record GrpcStream : Type := { init_waits : nat; ready_recv : bool; conn : H2Conn; buffer : list Z; payload_len : Z }.
(* @src clash-lib/src/proxy/transport/grpc.rs 137 145 GrpcStream::new *)
Definition grpc_new (waits : nat) (ok : bool) (c : H2Conn) : GrpcStream :=
  {| init_waits := waits; ready_recv := ok; conn := c; buffer := []; payload_len := 0 |}.

(* @src clash-lib/src/proxy/transport/grpc.rs ~    fn encode_buf~ GrpcStream::encode_buf *)
Definition encode_buf (data : list Z) : list Z :=
  let protobuf_header := [0x0a] ++ encode_varint (zlen data) in
  let grpc_payload_len := wrap 32 (zlen protobuf_header + zlen data) in
  [0] ++ be_bytes 4 grpc_payload_len ++ protobuf_header ++ data.

Definition with_buf (b : list Z) (p : Z) (s : GrpcStream) : GrpcStream :=
  {| init_waits := init_waits s; ready_recv := ready_recv s; conn := conn s; buffer := b; payload_len := p |}.
Definition with_conn (c : H2Conn) (s : GrpcStream) : GrpcStream :=
  {| init_waits := init_waits s; ready_recv := ready_recv s; conn := c; buffer := buffer s; payload_len := payload_len s |}.

(** [advance(6)] and the length of the message; nothing if it is not there. *)
Definition next_message (b : list Z) : option Z * list Z := decode_varint (drop 6 b).

(** The loop over the messages in the buffer; [Err] is a length that does not
    decode.  Every round but the last gives out a byte of the buffer. *)
(* @src clash-lib/src/proxy/transport/grpc.rs 217 232 GrpcStream::poll_read (loop) *)
Fixpoint unpack (fuel : nat) (cap : nat) (b : list Z) (p : Z) (out : list Z) : res (list Z) * list Z * Z :=
  match fuel with
  | O => (Panic, b, p)
  | S fuel' =>
    if (0 <? p) || (6 <? zlen b) then
      let '(len, b) := if p =? 0 then next_message b else (Some p, b) in
      match len with
      | None => (Err "invalid varint", b, p)
      | Some p =>
        let to_read := (length b `min` Z.to_nat p `min` cap)%nat in
        if (to_read =? 0)%nat then (Ok out, b, p)
        else unpack fuel' (cap - to_read) (drop to_read b) (p - Z.of_nat to_read) (out ++ take to_read b)
      end
    else (Ok out, b, p)
  end.

(* @src clash-lib/src/proxy/transport/grpc.rs ~^impl AsyncRead for GrpcStream~ GrpcStream::poll_read *)
#[global] Instance grpc_read : AsyncRead GrpcStream := fun cap s =>
  match init_waits s with
  | S n => (Pending, {| init_waits := n; ready_recv := ready_recv s; conn := conn s; buffer := buffer s; payload_len := payload_len s |})
  | O =>
    if negb (ready_recv s) then (Ready (Err "initialization error"), s)
    else if ((0 <? payload_len s) && bool_decide (buffer s <> [])) || ((payload_len s =? 0) && (6 <? zlen (buffer s))) then
      let '(len, b) := if payload_len s =? 0 then next_message (buffer s) else (Some (payload_len s), buffer s) in
      match len with
      | None => (Ready (Err "invalid varint"), with_buf b (payload_len s) s)
      | Some p =>
        let to_read := (cap `min` Z.to_nat p `min` length b)%nat in
        if (to_read =? 0)%nat then (if (cap =? 0)%nat then Ready Panic else Pending, with_buf b p s)
        else (Ready (Ok (take to_read b)), with_buf (drop to_read b) (p - Z.of_nat to_read) s)
      end
    else
      let '(r, c) := poll_data (conn s) in
      match r with
      | Pending => (Pending, with_conn c s)
      | Ready (Some (Ok d)) =>
        let b := buffer s ++ d in
        let '(out, b, p) := unpack (S (length b)) cap b (payload_len s) [] in
        (Ready out, with_buf b p (with_conn (match out with Ok _ => release_capacity (length d) c | _ => c end) s))
      | Ready _ =>
        if negb (payload_len s =? 0) then (Ready Panic, with_conn c s)
        else (if bool_decide (hc_recv c = []) && hc_end_stream c then Ready (Ok []) else Pending, with_conn c s)
      end
  end.

(* @src clash-lib/src/proxy/transport/grpc.rs 262 285 GrpcStream::poll_write *)
Definition grpc_write (buf : list Z) (s : GrpcStream) : Poll (res nat) * GrpcStream :=
  let encoded_buf := encode_buf buf in
  let '(r, c) := poll_capacity (conn s) in
  match r with
  | Pending => (Pending, with_conn c s)
  | Ready (Some (Ok _, ok)) =>
    let '(sent, c) := send_data encoded_buf false ok c in
    (Ready (if sent then Ok (length buf) else Err "broken pipe"), with_conn c s)
  | Ready _ => (Ready (Err "broken pipe"), with_conn c s)
  end.
(** [send_reset] ends the sending half at once. *)
(* @src clash-lib/src/proxy/transport/grpc.rs ~    fn poll_shutdown~ GrpcStream::poll_shutdown *)
Definition grpc_shutdown (s : GrpcStream) : Poll (res unit) * GrpcStream :=
  let c := with_send (hc_send (conn s)) (hc_sent (conn s)) true (conn s) in
  (match hc_reset c with Ready (Ok _) => Ready (Ok tt) | r => r end, with_conn c s).
#[global] Instance grpc_writer : AsyncWrite GrpcStream :=
  {| poll_write := grpc_write; poll_flush := fun s => (Ready (Ok tt), s); poll_shutdown := grpc_shutdown |}.
End grpc.
End Grpc.

(** ** WebSocket ([ws/]) *)
Module Ws.

(** *** [tungstenite] *)
Inductive Message : Type := Text (s : str) | Binary (bs : list Z) | Ping (bs : list Z) | Pong (bs : list Z) | Close | Frame.
Inductive StreamEv : Type := StWait | StMsg (m : Message) | StErr.
(** The answer to one call of the sink. *)
Inductive SinkEv : Type := SkWait | SkOk | SkErr.
(** Messages to come, answers of the sink (then success), and the messages
    the sink accepted.  A message counts as accepted while it waits to be
    flushed. *)
Record WebSocketStream : Type := { ws_in : list StreamEv; ws_sink : list SinkEv; ws_queued : list Message }.
Definition poll_next (w : WebSocketStream) : Poll (option (res Message)) * WebSocketStream :=
  let after l := {| ws_in := l; ws_sink := ws_sink w; ws_queued := ws_queued w |} in
  match ws_in w with
  | [] => (Ready None, w)
  | StWait :: l => (Pending, after l)
  | StMsg m :: l => (Ready (Some (Ok m)), after l)
  | StErr :: l => (Ready (Some (Err "websocket error")), after l)
  end.
Definition sink_step (w : WebSocketStream) : SinkEv * WebSocketStream :=
  match ws_sink w with
  | [] => (SkOk, w)
  | e :: l => (e, {| ws_in := ws_in w; ws_sink := l; ws_queued := ws_queued w |})
  end.
Definition sink_poll (w : WebSocketStream) : Poll (res unit) * WebSocketStream :=
  let '(e, w) := sink_step w in
  (match e with SkWait => Pending | SkOk => Ready (Ok tt) | SkErr => Ready (Err "websocket error") end, w).
Definition start_send (m : Message) (w : WebSocketStream) : res unit * WebSocketStream :=
  let '(e, w) := sink_step w in
  match e with
  | SkErr => (Err "websocket error", w)
  | _ => (Ok tt, {| ws_in := ws_in w; ws_sink := ws_sink w; ws_queued := ws_queued w ++ [m] |})
  end.

(** *** [websocket.rs] *)
(* @src clash-lib/src/proxy/transport/ws/websocket.rs ~^pub struct WebsocketConn~ WebsocketConn *)
Record WebsocketConn : Type := { inner : WebSocketStream; read_buffer : list Z }.
(* @src clash-lib/src/proxy/transport/ws/websocket.rs ~    pub fn from_websocket~ WebsocketConn::from_websocket *)
Definition from_websocket (w : WebSocketStream) : WebsocketConn := {| inner := w; read_buffer := [] |}.

(* @src clash-lib/src/proxy/transport/ws/websocket.rs ~^impl AsyncRead for WebsocketConn~ WebsocketConn::poll_read *)
#[global] Instance ws_read : AsyncRead WebsocketConn := fun cap s =>
  if bool_decide (read_buffer s <> []) then
    let to_read := (cap `min` length (read_buffer s))%nat in
    (Ready (Ok (take to_read (read_buffer s))), {| inner := inner s; read_buffer := drop to_read (read_buffer s) |})
  else
    let '(r, w) := poll_next (inner s) in
    match r with
    | Pending => (Pending, {| inner := w; read_buffer := read_buffer s |})
    | Ready (Some (Ok (Binary data))) =>
      let to_read := (cap `min` length data)%nat in
      (Ready (Ok (take to_read data)),
       {| inner := w; read_buffer := if (to_read <? length data)%nat then read_buffer s ++ drop to_read data else read_buffer s |})
    | Ready (Some (Ok Close)) => (Ready (Ok []), {| inner := w; read_buffer := read_buffer s |})
    | Ready (Some (Ok _)) => (Ready (Err "ws invalid message type"), {| inner := w; read_buffer := read_buffer s |})
    | Ready _ => (Ready (Err "ws broken pipe"), {| inner := w; read_buffer := read_buffer s |})
    end.

Definition on_inner {A} (m : PM WebSocketStream A) : PM WebsocketConn A :=
  zoom inner (fun w s => {| inner := w; read_buffer := read_buffer s |}) m.
Definition queue (m : Message) : PM WebSocketStream unit := fun w => let '(r, w') := start_send m w in (Ready r, w').
(* @src clash-lib/src/proxy/transport/ws/websocket.rs ~    fn poll_flush~ WebsocketConn::poll_flush *)
Definition ws_flush : PM WebsocketConn unit := on_inner sink_poll.
(* @src clash-lib/src/proxy/transport/ws/websocket.rs ~    fn poll_write~ WebsocketConn::poll_write *)
Definition ws_write (buf : list Z) : PM WebsocketConn nat :=
  _ ← on_inner sink_poll;
  _ ← on_inner (queue (Binary buf));
  _ ← ws_flush;
  mret (length buf).
(* @src clash-lib/src/proxy/transport/ws/websocket.rs ~    fn poll_shutdown~ WebsocketConn::poll_shutdown *)
Definition ws_shutdown : PM WebsocketConn unit :=
  on_inner (fun w => let '(_, w) := start_send Close w in sink_poll w).
#[global] Instance ws_writer : AsyncWrite WebsocketConn := {| poll_write := ws_write; poll_flush := ws_flush; poll_shutdown := ws_shutdown |}.

(** *** [mod.rs] *)
(** A [HeaderMap] keeps its names in lower case and may hold one several
    times. *)
Record Request : Type := { rq_method : str; rq_uri : str; rq_headers : list (str * str) }.
Fixpoint header_set_first (name v : str) (hs : list (str * str)) : option (list (str * str)) :=
  match hs with
  | [] => None
  | (k, w) :: hs' => if bool_decide (k = name) then Some ((k, v) :: hs') else cons (k, w) <$> header_set_first name v hs'
  end.

(** The crates: which headers and addresses [http] accepts, base64 without
    padding, and the handshake of [tokio_tungstenite] on a stream, pending
    for a number of polls and then with the status of the response. *)
Class WsLib (S Cfg : Type) : Type := {
  valid_header : str -> str -> bool;
  valid_uri : str -> bool;
  b64_encode : list Z -> str;
  client_async : S -> Request -> option Cfg -> nat * res (Z * WebSocketStream);
}.

Section ws.
Context {S Cfg : Type} {WL : WsLib S Cfg} {AR : AsyncRead S} {AW : AsyncWrite S}.

(* @src clash-lib/src/proxy/transport/ws/mod.rs ~^pub struct Client~ Client *)
Record Client : Type := {
  server : str; port : Z; path : str; headers : list (str * str); ws_config : option Cfg;
  max_early_data : nat; early_data_header_name : str }.

(** [headers] in the order of the map; [body(..).unwrap()] fails on the
    first part that does not parse. *)
(* @src clash-lib/src/proxy/transport/ws/mod.rs 52 63 Client::req (headers) *)
Definition req_headers (key : str) (c : Client) : list (str * str) :=
  [(lit "Connection", lit "Upgrade"); (lit "Upgrade", lit "websocket"); (lit "Sec-WebSocket-Version", lit "13"); (lit "Sec-WebSocket-Key", key)]
  ++ headers c ++ (if (0 <? max_early_data c)%nat then [(early_data_header_name c, lit "xxoo")] else []).
(* @src clash-lib/src/proxy/transport/ws/mod.rs ~    fn req~ Client::req *)
Definition req (key : str) (c : Client) : res Request :=
  let uri := lit "ws://" ++ server c ++ lit ":" ++ dec (port c) ++ path c in
  if valid_uri uri && forallb (fun kv => valid_header (fst kv) (snd kv)) (req_headers key c) then
    Ok {| rq_method := lit "GET"; rq_uri := uri; rq_headers := map (fun kv => (to_ascii_lowercase (fst kv), snd kv)) (req_headers key c) |}
  else Panic.

(** *** [websocket_early_data.rs] *)
Inductive AnyStream : Type := RawStream (s : S) | WsStream (w : WebsocketConn).
(** The future of the handshake; polled once it is done, it panics. *)
Inductive Fut : Type := Running (waits : nat) (r : res WebsocketConn) | Finished.
(** The wakers are kept or not; [wakes] counts the calls of [wake]. *)
(* @src clash-lib/src/proxy/transport/ws/websocket_early_data.rs ~^pub struct WebsocketEarlyDataConn~ WebsocketEarlyDataConn *)
Record WebsocketEarlyDataConn : Type := {
  stream : option AnyStream; request : option Request; stream_future : option Fut;
  early_waker : bool; flush_waker : bool; wakes : nat; config : option Cfg;
  header_name : str; early_data_len : nat; early_data_flushed : bool }.
(* @src clash-lib/src/proxy/transport/ws/websocket_early_data.rs ~    pub fn new~ WebsocketEarlyDataConn::new *)
Definition early_new (s : S) (r : Request) (cfg : option Cfg) (name : str) (len : nat) : WebsocketEarlyDataConn :=
  {| stream := Some (RawStream s); request := Some r; stream_future := None; early_waker := false; flush_waker := false; wakes := 0;
     config := cfg; header_name := name; early_data_len := len; early_data_flushed := false |}.

(* @src clash-lib/src/proxy/transport/ws/websocket_early_data.rs ~    fn proxy_stream~ WebsocketEarlyDataConn::proxy_stream *)
Definition early_proxy_stream (s : S) (r : Request) (cfg : option Cfg) : Fut :=
  let '(waits, out) := client_async s r cfg in
  Running waits ('(status, w) ← out;
    if negb (status =? 101) then Err "msg: websocket early data handshake failed" else Ok (from_websocket w)).

Definition with_stream (st : option AnyStream) (s : WebsocketEarlyDataConn) : WebsocketEarlyDataConn :=
  {| stream := st; request := request s; stream_future := stream_future s; early_waker := early_waker s; flush_waker := flush_waker s;
     wakes := wakes s; config := config s; header_name := header_name s; early_data_len := early_data_len s;
     early_data_flushed := early_data_flushed s |}.
Definition with_wakers (early flush : bool) (s : WebsocketEarlyDataConn) : WebsocketEarlyDataConn :=
  {| stream := stream s; request := request s; stream_future := stream_future s; early_waker := early; flush_waker := flush;
     wakes := wakes s; config := config s; header_name := header_name s; early_data_len := early_data_len s;
     early_data_flushed := early_data_flushed s |}.
Definition with_fut (f : Fut) (s : WebsocketEarlyDataConn) : WebsocketEarlyDataConn :=
  {| stream := stream s; request := request s; stream_future := Some f; early_waker := early_waker s; flush_waker := flush_waker s;
     wakes := wakes s; config := config s; header_name := header_name s; early_data_len := early_data_len s;
     early_data_flushed := early_data_flushed s |}.

(** A call of the stream behind; none there is unreachable. *)
Definition delegate {A} (raw : PM S A) (ws : PM WebsocketConn A) : PM WebsocketEarlyDataConn A := fun s =>
  match stream s with
  | None => (Ready Panic, s)
  | Some (RawStream r) => let '(o, r') := raw r in (o, with_stream (Some (RawStream r')) s)
  | Some (WsStream w) => let '(o, w') := ws w in (o, with_stream (Some (WsStream w')) s)
  end.

(* @src clash-lib/src/proxy/transport/ws/websocket_early_data.rs ~^impl AsyncRead for WebsocketEarlyDataConn~ WebsocketEarlyDataConn::poll_read *)
#[global] Instance early_read : AsyncRead WebsocketEarlyDataConn := fun cap s =>
  if negb (early_data_flushed s) then (Pending, with_wakers true (flush_waker s) s)
  else delegate (poll_read cap) (poll_read cap) s.

(** The first write: the data goes into the request and the handshake
    starts. *)
(* @src clash-lib/src/proxy/transport/ws/websocket_early_data.rs 153 173 WebsocketEarlyDataConn::poll_write (request) *)
Definition early_start (buf : list Z) (s : WebsocketEarlyDataConn) : res unit * WebsocketEarlyDataConn :=
  match request s, stream s with
  | Some r, Some st =>
    let n := (early_data_len s `min` length buf)%nat in
    let '(r, len) :=
      match header_set_first (to_ascii_lowercase (header_name s)) (b64_encode (take n buf)) (rq_headers r) with
      | Some hs => ({| rq_method := rq_method r; rq_uri := rq_uri r; rq_headers := hs |}, n)
      | None => (r, early_data_len s)
      end in
    match st with
    | RawStream raw =>
      (Ok tt, {| stream := None; request := None; stream_future := Some (early_proxy_stream raw r (config s));
                 early_waker := early_waker s; flush_waker := flush_waker s; wakes := wakes s; config := None;
                 header_name := header_name s; early_data_len := len; early_data_flushed := early_data_flushed s |})
    | WsStream _ => (Panic, s)
    end
  | _, _ => (Panic, s)
  end.
(** One poll of the handshake; when it is done both kept wakers are woken. *)
(* @src clash-lib/src/proxy/transport/ws/websocket_early_data.rs 139 152 WebsocketEarlyDataConn::poll_write (handshake) *)
Definition early_poll (f : Fut) (s : WebsocketEarlyDataConn) : Poll (res nat) * WebsocketEarlyDataConn :=
  match f with
  | Finished => (Ready Panic, s)
  | Running (Datatypes.S n) r => (Pending, with_fut (Running n r) s)
  | Running O (Ok w) =>
    (Ready (Ok (early_data_len s)),
     {| stream := Some (WsStream w); request := request s; stream_future := Some Finished; early_waker := false; flush_waker := false;
        wakes := wakes s + (if early_waker s then 1 else 0) + (if flush_waker s then 1 else 0); config := config s;
        header_name := header_name s; early_data_len := early_data_len s; early_data_flushed := true |})
  | Running O r => (Ready (match r with Err e => Err e | _ => Panic end), with_fut Finished s)
  end%nat.
(* @src clash-lib/src/proxy/transport/ws/websocket_early_data.rs 131 182 WebsocketEarlyDataConn::poll_write *)
Definition early_write (buf : list Z) (s : WebsocketEarlyDataConn) : Poll (res nat) * WebsocketEarlyDataConn :=
  if negb (early_data_flushed s) then
    match stream_future s with
    | Some f => early_poll f s
    | None =>
      match early_start buf s with
      | (Ok _, s') => match stream_future s' with Some f => early_poll f s' | None => (Ready Panic, s') end
      | (_, s') => (Ready Panic, s')
      end
    end
  else delegate (poll_write buf) (poll_write buf) s.
(* @src clash-lib/src/proxy/transport/ws/websocket_early_data.rs ~    fn poll_flush~ WebsocketEarlyDataConn::poll_flush *)
Definition early_flush (s : WebsocketEarlyDataConn) : Poll (res unit) * WebsocketEarlyDataConn :=
  if negb (early_data_flushed s) then (Pending, with_wakers (early_waker s) true s)
  else delegate poll_flush poll_flush s.
(* @src clash-lib/src/proxy/transport/ws/websocket_early_data.rs ~    fn poll_shutdown~ WebsocketEarlyDataConn::poll_shutdown *)
Definition early_shutdown : PM WebsocketEarlyDataConn unit := fun s =>
  (_ ← (if negb (early_data_flushed s) then early_flush else mret tt); delegate poll_shutdown poll_shutdown) s.
#[global] Instance early_writer : AsyncWrite WebsocketEarlyDataConn :=
  {| poll_write := early_write; poll_flush := early_flush; poll_shutdown := early_shutdown |}.

(** What the transport gives: a stream that shakes hands with its first
    write, or one that has done it. *)
Inductive Proxied : Type := EarlyConn (c : WebsocketEarlyDataConn) | WsConn (w : WebsocketConn).
(* @src clash-lib/src/proxy/transport/ws/mod.rs ~    async fn proxy_stream~ Client::proxy_stream *)
Definition proxy_stream (key : str) (c : Client) (s : S) : res Proxied :=
  r ← req key c;
  if (0 <? max_early_data c)%nat then Ok (EarlyConn (early_new s r (ws_config c) (early_data_header_name c) (max_early_data c)))
  else
    '(status, w) ← snd (client_async s r (ws_config c));
    if negb (status =? 101) then Err "invalid response" else Ok (WsConn (from_websocket w)).
End ws.
Arguments WebsocketEarlyDataConn : clear implicits.
End Ws.
