(* ===== verification/TransportSpec.v ===== *)
(** * What the HTTP/2, gRPC and WebSocket transports carry

    Which frames the readers of [Transport] turn back into the data that was
    written, the early data of WebSocket, and where the streams break their
    contract. *)

From S2P Require Import Prelude Str Net Session Async.
From S2P Require Import Transport.

(** ** Draining a stream *)
Section drain.
Context {S : Type} {AR : AsyncRead S} (inv : S -> list Z -> Prop) (waits : S -> nat).

(** A reader that polls with buffers of these sizes, whatever it is told,
    until an error. *)
Fixpoint read_many (caps : list nat) (s : S) : list Z :=
  match caps with
  | [] => []
  | cap :: caps' =>
    match poll_read cap s with
    | (Ready (Ok d), s') => d ++ read_many caps' s'
    | (Pending, s') => read_many caps' s'
    | _ => []
    end
  end.

(** One poll with [pt] still to come: some of it, or one of the waits left. *)
Definition delivers (s : S) (pt : list Z) (o : Poll (res (list Z)) * S) : Prop :=
  match o with
  | (Ready (Ok d), s') => (pt = [] \/ d <> []) /\ waits s' = waits s /\ exists pt', pt = d ++ pt' /\ inv s' pt'
  | (Pending, s') => inv s' pt /\ (pt = [] \/ (waits s' < waits s)%nat)
  | (Ready (Err _), _) => pt = []
  | (Ready Panic, _) => False
  end.

Hypothesis poll_delivers : forall s pt cap, inv s pt -> (0 < cap)%nat -> delivers s pt (poll_read cap s).

Lemma read_many_delivers caps s pt : inv s pt -> Forall (fun c => 0 < c)%nat caps ->
  read_many caps s `prefix_of` pt /\ ((length pt + waits s <= length caps)%nat -> read_many caps s = pt).
Proof.
  revert s pt. induction caps as [|cap caps IH]; intros s pt Hi Hc.
  { split; [by exists pt|]. cbn. intros Hl. destruct pt; [done|cbn in Hl; lia]. }
  apply Forall_cons in Hc as [Hcap Hcaps]. pose proof (poll_delivers s pt cap Hi Hcap) as Hd. cbn [read_many].
  destruct (poll_read cap s) as [[[d|e|]|] s']; cbn [delivers] in Hd.
  - destruct Hd as (Hd & Hw & pt' & -> & Hi'). destruct (IH s' pt' Hi' Hcaps) as [Hp Hl]. split; [by apply prefix_app|].
    rewrite length_app, length_cons. intros H. f_equal. destruct Hd as [Hd|Hd].
    + apply app_nil in Hd as [-> ->]. destruct (Hp) as [k Hk]. symmetry in Hk. by apply app_nil in Hk as [-> _].
    + apply Hl. destruct d; [done|]. cbn in H. lia.
  - subst pt. split; [by exists []|done].
  - done.
  - destruct Hd as [Hi' Hw]. destruct (IH s' pt Hi' Hcaps) as [Hp Hl]. split; [done|]. rewrite length_cons. intros H.
    destruct Hw as [->|Hw]; [|apply Hl; lia]. destruct Hp as [k Hk]. symmetry in Hk. by apply app_nil in Hk as [-> _].
Qed.
End drain.

Lemma take_min_nonempty (d : list Z) k cap : d <> [] -> (0 < cap)%nat -> (k = length d `min` cap \/ k = cap `min` length d)%nat -> take k d <> [].
Proof. intros Hd Hc Hk E. apply (f_equal length) in E. rewrite length_take in E. cbn [length] in E. destruct d; [done|]. cbn [length] in *. lia. Qed.
Lemma rest_of_chunk (d : list Z) k : (if (k <? length d)%nat then [] ++ drop k d else []) = drop k d.
Proof. destruct (Nat.ltb_spec k (length d)); [done|]. by rewrite drop_ge. Qed.

(** ** HTTP/2 *)
Definition recv_data (e : RecvEv) : option (list Z) := match e with RvData d => Some d | _ => None end.
(** No error, no empty frame. *)
Definition recv_fine (e : RecvEv) : Prop := match e with RvData d => d <> [] | RvWait => True | RvErr => False end.
Fixpoint recv_waits (l : list RecvEv) : nat :=
  match l with [] => 0 | RvWait :: l' => S (recv_waits l') | _ :: l' => recv_waits l' end%nat.

Module H2Spec.
Import H2.
Definition reader_inv (s : Http2Stream) (pt : list Z) : Prop :=
  Forall recv_fine (hc_recv (conn s)) /\ pt = buffer s ++ mjoin (omap recv_data (hc_recv (conn s))).
Definition waits (s : Http2Stream) : nat := recv_waits (hc_recv (conn s)).

Lemma h2_poll_delivers s pt cap : reader_inv s pt -> (0 < cap)%nat -> delivers reader_inv waits s pt (poll_read cap s).
Proof.
  intros [Hf ->] Hcap. unfold poll_read, h2_read. case_bool_decide as Hb; cbn [negb].
  - cbn [delivers]. split_and!; [right; by eapply take_min_nonempty; eauto|done|].
    exists (drop (length (buffer s) `min` cap) (buffer s) ++ mjoin (omap recv_data (hc_recv (conn s)))).
    split; [by rewrite app_assoc, take_drop|]. by split.
  - assert (buffer s = []) as Hn by (destruct (buffer s); [done|by destruct Hb]). rewrite Hn. clear Hb. unfold poll_data.
    destruct (hc_recv (conn s)) as [|[|d|] l] eqn:El; cbn [delivers].
    + split_and!; [by left|done|]. exists []. split; [done|]. unfold reader_inv. cbn. by rewrite El.
    + apply Forall_cons in Hf as [_ Hf]. split; [by split|]. right. unfold waits. rewrite El. cbn. lia.
    + apply Forall_cons in Hf as [Hd Hf]. cbn in Hd. split_and!; [right; by eapply take_min_nonempty; eauto| |].
      * unfold waits. rewrite El. done.
      * rewrite rest_of_chunk. exists (drop (length d `min` cap) d ++ mjoin (omap recv_data l)). split.
        { cbn. by rewrite app_assoc, take_drop. }
        by split.
    + by apply Forall_cons in Hf as [].
Qed.

(** What was read first is given back to the flow control, what was kept in
    the buffer is not, however it is read later. *)
Lemma h2_buffered_not_released s cap cap' c d l : buffer s = [] -> hc_recv (conn s) = RvData d :: l -> (cap < length d)%nat ->
  conn (snd (poll_read cap s)) = c -> hc_released c = (hc_released (conn s) + cap)%nat /\
  conn (snd (poll_read cap' (snd (poll_read cap s)))) = c.
Proof.
  intros Hb Hr Hc <-. unfold poll_read, h2_read. rewrite Hb. cbn [bool_decide]. rewrite bool_decide_eq_false_2 by tauto.
  unfold poll_data. rewrite Hr. cbn [snd conn buffer]. rewrite rest_of_chunk, Nat.min_r by lia. split; [done|].
  rewrite bool_decide_eq_true_2; [done|]. intros E. apply (f_equal length) in E. rewrite length_drop in E. cbn in E. lia.
Qed.
End H2Spec.

(** ** gRPC *)
Class VarintLaws (VL : VarintLib) : Prop := {
  varint_decode : forall n r, 0 <= n < 2 ^ 64 -> decode_varint (encode_varint n ++ r) = (Some n, r);
}.

Module GrpcSpec.
Import Grpc.
Section spec.
Context {VL : VarintLib} {VW : VarintLaws VL}.

Definition header (len : Z) : list Z :=
  [0] ++ be_bytes 4 (wrap 32 (1 + zlen (encode_varint len) + len)) ++ [0x0a] ++ encode_varint len.
Lemma encode_buf_header data : encode_buf data = header (zlen data) ++ data.
Proof.
  unfold encode_buf, header. change (zlen ([10] ++ encode_varint (zlen data))) with (Z.of_nat (1 + length (encode_varint (zlen data)))).
  rewrite <- !app_assoc. unfold zlen. rewrite Nat2Z.inj_add. done.
Qed.
Lemma next_message_header len d : 0 <= len < 2 ^ 64 -> next_message (header len ++ d) = (Some len, d).
Proof.
  intros H. unfold next_message, header. rewrite <- !app_assoc. rewrite (app_assoc (be_bytes 4 _)), (app_assoc [0]), (drop_app_length' _ _ 6).
  { by apply varint_decode. }
  rewrite !length_app, be_bytes_length. done.
Qed.

(** A frame [f] that finds [left] bytes of the current message missing: it
    brings the bytes [pt] of messages and leaves [left'] missing.  It may hold
    the end of a message, whole messages and the beginning of another; a
    header comes whole and with at least a byte of its message. *)
Inductive chunk : nat -> list Z -> list Z -> nat -> Prop :=
| chunk_stop left : chunk left [] [] left
| chunk_byte x left f pt left' : chunk left f pt left' -> chunk (S left) (x :: f) (x :: pt) left'
| chunk_head n x f pt left' : Z.of_nat (S n) < 2 ^ 64 -> chunk n f pt left' ->
    chunk 0 (header (Z.of_nat (S n)) ++ x :: f) (x :: pt) left'.

(** What is still to come of the frames when [left] bytes of the current
    message are missing. *)
Inductive carries : nat -> list RecvEv -> list Z -> Prop :=
| carries_end : carries 0 [] []
| carries_wait left l pt : carries left l pt -> carries left (RvWait :: l) pt
| carries_frame left f l pt pt' left' : f <> [] -> chunk left f pt left' -> carries left' l pt' ->
    carries left (RvData f :: l) (pt ++ pt').

Lemma grpc_header_length len : (6 <= length (header len))%nat.
Proof. unfold header. rewrite !length_app, be_bytes_length. cbn. lia. Qed.
Lemma chunk_nil left pt left' : chunk left [] pt left' -> pt = [] /\ left' = left.
Proof.
  intros H. by inversion H.
Qed.
Lemma chunk_some left f pt left' : chunk left f pt left' -> f <> [] -> pt <> [].
Proof. by intros []. Qed.
Lemma chunk_head_inv f pt left' : chunk 0 f pt left' -> f = [] \/
  exists n x f' pt', f = header (Z.of_nat (S n)) ++ x :: f' /\ pt = x :: pt' /\ Z.of_nat (S n) < 2 ^ 64 /\ chunk n f' pt' left'.
Proof. intros H. inversion H; subst; [by left|]. right. by do 4 eexists; split_and!. Qed.
Lemma chunk_take k left f pt left' : chunk left f pt left' -> (k <= left)%nat -> (k <= length f)%nat ->
  take k f = take k pt /\ chunk (left - k) (drop k f) (drop k pt) left'.
Proof.
  revert left f pt. induction k as [|k IH]; intros left f pt H Hl Hf; [by rewrite Nat.sub_0_r|].
  inversion H as [l|x l f' pt' l' Hc|]; subst; [cbn in Hf; lia| |lia]. cbn [take drop length Nat.sub] in *.
  destruct (IH _ _ _ Hc ltac:(lia) ltac:(lia)) as [-> ?]. done.
Qed.
Lemma chunk_app left f pt left1 g pt' left2 : chunk left f pt left1 -> chunk left1 g pt' left2 -> chunk left (f ++ g) (pt ++ pt') left2.
Proof.
  induction 1 as [|x l f pt l' H IH|n x f pt l' Hn H IH]; intros Hg; [done| |]; cbn.
  - constructor. by apply IH.
  - rewrite <- app_assoc. cbn. constructor; [done|]. by apply IH.
Qed.

Definition reader_inv (s : GrpcStream) (pt : list Z) : Prop :=
  ready_recv s = true /\ exists left pt0 left' rest, payload_len s = Z.of_nat left /\ chunk left (buffer s) pt0 left' /\
    carries left' (hc_recv (conn s)) rest /\ pt = pt0 ++ rest.
Definition waits (s : GrpcStream) : nat := init_waits s + recv_waits (hc_recv (conn s)).

(** The head of a message is read. *)
Lemma next_message_chunk n x f : Z.of_nat (S n) < 2 ^ 64 -> next_message (header (Z.of_nat (S n)) ++ x :: f) = (Some (Z.of_nat (S n)), x :: f).
Proof. intros H. apply next_message_header. lia. Qed.
Lemma head_long n x f : (6 <? zlen (header (Z.of_nat (S n)) ++ x :: f)) = true.
Proof. apply Z.ltb_lt. unfold zlen. rewrite length_app. pose proof (grpc_header_length (Z.of_nat (S n))). cbn [length]. lia. Qed.

(** One round of the loop inside a message. *)
Lemma unpack_round fuel cap b left out : let k := (length b `min` left `min` cap)%nat in
  (0 < left)%nat ->
  unpack (S fuel) cap b (Z.of_nat left) out =
    if (k =? 0)%nat then (Ok out, b, Z.of_nat left) else unpack fuel (cap - k) (drop k b) (Z.of_nat (left - k)) (out ++ take k b).
Proof.
  intros k Hl. cbn [unpack]. destruct (Z.ltb_spec 0 (Z.of_nat left)); [|lia]. cbn [orb].
  destruct (Z.eqb_spec (Z.of_nat left) 0); [lia|]. rewrite Nat2Z.id. fold k.
  destruct (Nat.eqb_spec k 0); [done|]. do 3 f_equal. unfold k. lia.
Qed.
(** At a message boundary the loop first reads the header. *)
Lemma unpack_head fuel cap n x f out : Z.of_nat (S n) < 2 ^ 64 ->
  unpack (S fuel) cap (header (Z.of_nat (S n)) ++ x :: f) 0 out = unpack (S fuel) cap (x :: f) (Z.of_nat (S n)) out.
Proof.
  intros Hn. cbn [unpack]. rewrite head_long, (next_message_chunk _ _ _ Hn). cbn [Z.ltb Z.eqb Z.compare orb].
  destruct (Z.ltb_spec 0 (Z.of_nat (S n))); [|lia]. cbn [orb]. destruct (Z.eqb_spec (Z.of_nat (S n)) 0); [lia|done].
Qed.

Lemma unpack_chunk fuel cap left b pt left' out : chunk left b pt left' -> (length b < fuel)%nat ->
  exists b' left1, unpack fuel cap b (Z.of_nat left) out = (Ok (out ++ take cap pt), b', Z.of_nat left1) /\
    chunk left1 b' (drop cap pt) left'.
Proof.
  revert cap left b pt out. induction fuel as [|fuel IH]; intros cap left b pt out Hc Hf; [lia|].
  assert (forall left b pt, (length b < S fuel)%nat -> (0 < left)%nat -> chunk left b pt left' ->
    exists b' left1, unpack (S fuel) cap b (Z.of_nat left) out = (Ok (out ++ take cap pt), b', Z.of_nat left1) /\
      chunk left1 b' (drop cap pt) left') as Hin.
  { clear left b pt Hc Hf. intros left b pt Hf Hl Hc. rewrite unpack_round by done.
    set (k := (length b `min` left `min` cap)%nat). destruct (Nat.eqb_spec k 0) as [Hk|Hk].
    - exists b, left. assert (take cap pt = [] /\ drop cap pt = pt) as [-> ->]; [|by rewrite app_nil_r].
      destruct b as [|x b]; [by apply chunk_nil in Hc as [-> _]; destruct cap|]. by replace cap with 0%nat by (unfold k in Hk; cbn [length] in Hk; lia).
    - destruct (chunk_take k _ _ _ _ Hc ltac:(lia) ltac:(lia)) as [Ht Hc']. rewrite Ht.
      destruct (IH (cap - k)%nat _ _ _ (out ++ take k pt) Hc') as (b' & left1 & -> & H1); [rewrite length_drop; lia|].
      exists b', left1. rewrite drop_drop in H1. replace (k + (cap - k))%nat with cap in H1 by lia. split; [|done].
      rewrite <- app_assoc, take_take_drop. by replace (k + (cap - k))%nat with cap by lia. }
  destruct left as [|left]; [|apply Hin; [done|lia|done]]. destruct (chunk_head_inv _ _ _ Hc) as [->|(n & x & f' & pt' & -> & -> & Hn & Hc')].
  - apply chunk_nil in Hc as [-> ->]. exists [], 0%nat. cbn. rewrite take_nil, drop_nil, app_nil_r. split; [done|constructor].
  - change (Z.of_nat 0) with 0. rewrite unpack_head by done. apply Hin; [|lia|by constructor].
    rewrite length_app in Hf. pose proof (grpc_header_length (Z.of_nat (S n))). lia.
Qed.

(** A poll that finds bytes of a message in the buffer. *)
Lemma buffered_delivers s cap b left pt0 left' rest : ready_recv s = true -> (0 < cap)%nat -> (0 < left)%nat -> b <> [] ->
  chunk left b pt0 left' -> carries left' (hc_recv (conn s)) rest ->
  delivers reader_inv waits s (pt0 ++ rest)
    (let to_read := (cap `min` Z.to_nat (Z.of_nat left) `min` length b)%nat in
     if (to_read =? 0)%nat then (if (cap =? 0)%nat then Ready Panic else Pending, with_buf b (Z.of_nat left) s)
     else (Ready (Ok (take to_read b)), with_buf (drop to_read b) (Z.of_nat left - Z.of_nat to_read) s)).
Proof.
  intros Hr Hcap Hl Hb Hc Hrest. cbv zeta. rewrite Nat2Z.id. set (k := (cap `min` left `min` length b)%nat).
  assert (0 < length b)%nat by (destruct b; [done|cbn; lia]). destruct (Nat.eqb_spec k 0); [lia|].
  destruct (chunk_take k _ _ _ _ Hc ltac:(lia) ltac:(lia)) as [Ht Hc']. cbn [delivers]. split_and!.
  - right. intros E. apply (f_equal length) in E. rewrite length_take in E. cbn in E. lia.
  - done.
  - exists (drop k pt0 ++ rest). rewrite Ht, app_assoc, take_drop. split; [done|]. split; [done|].
    exists (left - k)%nat, (drop k pt0), left', rest. cbn. split_and!; [lia|done|done|done].
Qed.

(** A poll that finds the buffer empty. *)
Lemma empty_delivers s cap left rest : init_waits s = 0%nat -> ready_recv s = true -> (0 < cap)%nat -> buffer s = [] -> payload_len s = Z.of_nat left ->
  carries left (hc_recv (conn s)) rest ->
  delivers reader_inv waits s rest (poll_read cap s).
Proof.
  intros Hi Hr Hcap Hb Hp Hc. unfold poll_read, grpc_read. rewrite Hi, Hr, Hb. cbn [negb].
  rewrite (bool_decide_eq_false_2 ([] <> [])) by tauto. rewrite andb_false_r. change (6 <? zlen []) with false.
  rewrite andb_false_r. cbn [orb app]. unfold poll_data.
  inversion Hc as [Hl Hre|left' l pt Hc' Hl Hre|left' f l pt pt' left1 Hf Hch Hc' Hl Hre]; subst.
  - rewrite Hp. cbn [Z.of_nat Z.eqb negb]. assert (reader_inv (with_conn (conn s) s) []) as Hinv.
    { split; [done|]. exists 0%nat, [], 0%nat, []. cbn. rewrite Hb, <- Hre. split_and!; [done|constructor|constructor|done]. }
    destruct (_ && _); cbn [delivers]; [|by split; [|left]]. split_and!; [by left|done|]. by exists [].
  - cbn [delivers]. split; [|right; unfold waits; cbn; rewrite Hi, <- Hre; cbn; lia]. split; [done|].
    exists left, [], left, rest. cbn. rewrite Hb. split_and!; [done|constructor|done|done].
  - destruct (unpack_chunk (S (length f)) cap left f pt left1 [] Hch ltac:(lia)) as (b' & left2 & Hu & Hc2).
    rewrite Hp, Hu. cbn [delivers app]. split_and!.
    + right. pose proof (chunk_some _ _ _ _ Hch Hf). destruct pt; [done|]. by destruct cap; [lia|].
    + unfold waits. cbn. by rewrite Hi, <- Hre.
    + exists (drop cap pt ++ pt'). rewrite app_assoc, take_drop. split; [done|]. split; [done|]. by exists left2, (drop cap pt), left1, pt'.
Qed.

Lemma grpc_poll_delivers s pt cap : reader_inv s pt -> (0 < cap)%nat -> delivers reader_inv waits s pt (poll_read cap s).
Proof.
  intros (Hr & left & pt0 & left' & rest & Hp & Hch & Hc & ->) Hcap. destruct (init_waits s) as [|n] eqn:Ei.
  2:{ unfold poll_read, grpc_read. rewrite Ei. cbn [delivers]. split; [|right; unfold waits; cbn; rewrite Ei; lia]. split; [done|].
      by exists left, pt0, left', rest. }
  destruct (decide (buffer s = [])) as [Hb|Hb].
  { rewrite Hb in Hch. apply chunk_nil in Hch as [-> ->]. by eapply empty_delivers. }
  unfold poll_read, grpc_read. rewrite Ei, Hr, Hp. cbn [negb]. rewrite (bool_decide_eq_true_2 (buffer s <> [])) by done.
  destruct left as [|left].
  - destruct (chunk_head_inv _ _ _ Hch) as [?|(n & x & f & pt & Hf & -> & Hn & Hch')]; [done|]. rewrite Hf, head_long.
    change (Z.of_nat 0 =? 0) with true. cbn [andb orb]. rewrite orb_true_r, (next_message_chunk _ _ _ Hn).
    eapply buffered_delivers; [done|done|lia|done|by constructor|done].
  - destruct (Z.ltb_spec 0 (Z.of_nat (S left))); [|lia]. cbn [andb orb]. destruct (Z.eqb_spec (Z.of_nat (S left)) 0); [lia|].
    eapply buffered_delivers; [done|done|lia|done|done|done].
Qed.

(** *** The writer *)
(** [poll_write] is called again with the same data while it is pending. *)
Fixpoint write_many (fuel : nat) (msgs : list (list Z)) (s : GrpcStream) : option GrpcStream :=
  match msgs, fuel with
  | [], _ => Some s
  | _, O => None
  | m :: msgs', S fuel' =>
    match poll_write m s with
    | (Ready (Ok n), s') => if (n =? length m)%nat then write_many fuel' msgs' s' else None
    | (Pending, s') => write_many fuel' msgs s'
    | _ => None
    end
  end.
Lemma write_many_sent fuel msgs s s' : write_many fuel msgs s = Some s' -> hc_sent (conn s') = hc_sent (conn s) ++ map encode_buf msgs.
Proof.
  revert msgs s. induction fuel as [|fuel IH]; intros [|m msgs] s; cbn [write_many map]; try done.
  - intros [= ->]. by rewrite app_nil_r.
  - intros [= ->]. by rewrite app_nil_r.
  - cbn [poll_write grpc_writer]. unfold grpc_write, poll_capacity.
    destruct (hc_send (conn s)) as [|[|n ok|ok|] l]; cbn [conn with_conn]; [by intros ->%IH|by intros ->%IH| |done|done].
    destruct ok; unfold send_data; [|done]. rewrite Nat.eqb_refl. intros ->%IH. cbn. by rewrite <- app_assoc.
Qed.

(** *** What the frames carry *)

(** The whole stream is one chunk. *)
Lemma carries_chunk left l pt : carries left l pt -> chunk left (mjoin (omap recv_data l)) pt 0.
Proof.
  induction 1 as [|left l pt H IH|left f l pt pt' left' Hf Hc H IH]; [constructor|done|]. cbn. by eapply chunk_app.
Qed.
(** The messages can be read off the bytes that were sent. *)
Lemma chunk_messages msgs d pt : Forall (fun m => zlen m < 2 ^ 64) msgs ->
  chunk (length d) (d ++ mjoin (map encode_buf msgs)) pt 0 -> pt = d ++ mjoin msgs.
Proof.
  intros Hm. revert d pt. induction Hm as [|m msgs Hlen Hm IH]; intros d pt.
  { revert pt. induction d as [|x d IHd]; intros pt; cbn.
    - intros H. by apply chunk_nil in H as [-> _].
    - intros H. inversion H; subst. f_equal. by apply IHd. }
  revert pt. induction d as [|x d IHd]; intros pt; [|cbn; intros H; inversion H; subst; f_equal; by apply IHd].
  cbn [length app map]. change (mjoin (encode_buf m :: map encode_buf msgs)) with (encode_buf m ++ mjoin (map encode_buf msgs)).
  change (mjoin (m :: msgs)) with (m ++ mjoin msgs). rewrite encode_buf_header, <- app_assoc.
  intros [E|(n & x & f & pt' & E & -> & Hn & Hc)]%chunk_head_inv.
  { apply (f_equal length) in E. rewrite length_app in E. pose proof (grpc_header_length (zlen m)). cbn [length] in E. lia. }
  apply (f_equal next_message) in E. rewrite (next_message_chunk _ _ _ Hn) in E.
  rewrite next_message_header in E by (unfold zlen in *; lia). injection E as El Ef. destruct m as [|y m]; [unfold zlen in El; cbn in El; lia|].
  injection Ef as -> <-. assert (n = length m) as -> by (unfold zlen in El; cbn in El; lia). cbn. f_equal. by apply IH.
Qed.

(** The events bring these bytes in frames, none empty, that cut no header and
    leave none without a byte of its message; nothing fails. *)
Definition arrives (bs : list Z) (l : list RecvEv) : Prop := mjoin (omap recv_data l) = bs /\ exists pt, carries 0 l pt.
Lemma arrives_carries msgs l : Forall (fun m => zlen m < 2 ^ 64) msgs -> arrives (mjoin (map encode_buf msgs)) l -> carries 0 l (mjoin msgs).
Proof.
  intros Hm [He [pt Hc]]. pose proof (carries_chunk _ _ _ Hc) as Hch. rewrite He in Hch. by apply (chunk_messages msgs [] pt Hm) in Hch as ->.
Qed.

(** *** Where the reader goes wrong *)
(** A frame with no more than six bytes, or that ends with the header of a
    message, is read as nothing, the end of the stream for its callers. *)
Lemma short_frame_is_eof s d l cap : init_waits s = 0%nat -> ready_recv s = true -> buffer s = [] -> payload_len s = 0 ->
  hc_recv (conn s) = RvData d :: l -> (length d <= 6)%nat -> fst (poll_read cap s) = Ready (Ok []).
Proof.
  intros Hi Hr Hb Hp Hd Hl. unfold poll_read, grpc_read. rewrite Hi, Hr, Hb, Hp. cbn [negb]. rewrite andb_false_r.
  change ((0 =? 0) && (6 <? zlen [])) with false. cbn [orb]. unfold poll_data. rewrite Hd. cbn [app unpack].
  unfold zlen. destruct (Z.ltb_spec 6 (Z.of_nat (length d))); [lia|done].
Qed.
Lemma bare_header_is_eof s len l cap : init_waits s = 0%nat -> ready_recv s = true -> buffer s = [] -> payload_len s = 0 ->
  hc_recv (conn s) = RvData (header len) :: l -> 0 < len < 2 ^ 64 -> fst (poll_read cap s) = Ready (Ok []).
Proof.
  intros Hi Hr Hb Hp Hd Hl. unfold poll_read, grpc_read. rewrite Hi, Hr, Hb, Hp. cbn [negb]. rewrite andb_false_r.
  change ((0 =? 0) && (6 <? zlen [])) with false. cbn [orb]. unfold poll_data. rewrite Hd. cbn [app unpack].
  destruct (0 <? 0) eqn:E; [done|]. cbn [orb]. destruct (6 <? zlen (header len)); [|done].
  cbn [Z.eqb]. pose proof (next_message_header len [] ltac:(lia)) as Hn. rewrite app_nil_r in Hn. rewrite Hn. cbn [length].
  destruct (Nat.eqb_spec (0 `min` Z.to_nat len `min` cap) 0); [done|lia].
Qed.
(** A stream that ends inside a message panics. *)
Lemma truncated_stream_panics s cap : init_waits s = 0%nat -> ready_recv s = true -> buffer s = [] -> 0 < payload_len s ->
  hc_recv (conn s) = [] -> fst (poll_read cap s) = Ready Panic.
Proof.
  intros Hi Hr Hb Hp Hd. unfold poll_read, grpc_read. rewrite Hi, Hr, Hb. cbn [negb]. rewrite (bool_decide_eq_false_2 ([] <> [])) by tauto.
  rewrite andb_false_r. change (6 <? zlen []) with false. rewrite andb_false_r. cbn [orb]. unfold poll_data. rewrite Hd.
  destruct (Z.eqb_spec (payload_len s) 0); [lia|done].
Qed.
End spec.

(** *** A varint *)
Fixpoint leb_encode (fuel : nat) (n : Z) : list Z :=
  match fuel with O => [] | S fuel' => if n <? 128 then [n] else (n mod 128 + 128) :: leb_encode fuel' (n / 128) end.
Fixpoint leb_decode (fuel : nat) (bs : list Z) : option Z * list Z :=
  match fuel, bs with
  | S fuel', b :: r => if b <? 128 then (Some b, r) else let '(v, r') := leb_decode fuel' r in ((fun v => b - 128 + 128 * v) <$> v, r')
  | _, _ => (None, bs)
  end.
#[global] Instance leb128 : VarintLib := {| encode_varint := leb_encode 10; decode_varint := leb_decode 10 |}.
#[global] Instance leb128_laws : VarintLaws leb128.
Proof.
  split. cbn [encode_varint decode_varint leb128]. intros n r Hn.
  assert (0 <= n < 128 ^ Z.of_nat 10) as Hn' by (change (128 ^ Z.of_nat 10) with 1180591620717411303424; lia).
  clear Hn. assert (0 < 10)%nat as H0 by lia. revert n r H0 Hn'. generalize 10%nat. intros fuel. induction fuel as [|fuel IH]; intros n r H0 Hn; [lia|].
  rewrite Nat2Z.inj_succ, Z.pow_succ_r in Hn by lia. cbn [leb_encode]. destruct (Z.ltb_spec n 128).
  - cbn. by destruct (Z.ltb_spec n 128); [|lia].
  - cbn [app leb_decode]. pose proof (Z.mod_pos_bound n 128 ltac:(lia)). destruct (Z.ltb_spec (n mod 128 + 128) 128); [lia|].
    destruct fuel as [|fuel]; [cbn in Hn; lia|]. rewrite IH; [|lia|split; [apply Z.div_pos; lia|apply Z.div_lt_upper_bound; lia]].
    cbn [fmap option_fmap option_map]. do 2 f_equal. pose proof (Z.div_mod n 128 ltac:(lia)). lia.
Qed.
End GrpcSpec.

Section grpc.
Import Grpc GrpcSpec.
Context {VL : VarintLib} {VW : VarintLaws VL}.
(** C30: gRPC carries messages.  What one side wrote, in writes of at least a
    byte, pending writes being tried again, and the connection delivered in
    frames cut anywhere except inside a header or right behind it (several
    messages in a frame or several frames for a message, none of them empty),
    is what the other side reads, in order and unchanged, whatever the sizes
    of its buffers and however the frames wait; nothing else is ever read,
    and enough polls read all of it. *)
Theorem grpc_roundtrip n msgs (w w' : GrpcStream) fuel (c : H2Conn) caps :
  write_many fuel msgs w = Some w' -> hc_sent (conn w) = [] -> Forall (fun m => zlen m < 2 ^ 64) msgs ->
  arrives (mjoin (hc_sent (conn w'))) (hc_recv c) -> Forall (fun cap => 0 < cap)%nat caps ->
  let r := grpc_new n true c in
  read_many caps r `prefix_of` mjoin msgs /\
  ((length (mjoin msgs) + n + recv_waits (hc_recv c) <= length caps)%nat -> read_many caps r = mjoin msgs).
Proof.
  intros Hw H0 Hm Ha Hc r. rewrite (write_many_sent _ _ _ _ Hw), H0 in Ha. cbn [app] in Ha.
  destruct (read_many_delivers reader_inv waits grpc_poll_delivers caps r (mjoin msgs)) as [H1 H2]; [|done|].
  { split; [done|]. exists 0%nat, [], 0%nat, (mjoin msgs). split_and!; [done|constructor|by apply arrives_carries|done]. }
  split; [done|]. intros Hl. apply H2. unfold waits. cbn. lia.
Qed.
End grpc.

Section grpc_witness.
Import Grpc GrpcSpec.
Definition h2_conn (recv : list RecvEv) (send : list SendEv) : H2Conn :=
  {| hc_recv := recv; hc_end_stream := true; hc_released := 0; hc_send := send; hc_sent := []; hc_ended := false; hc_reset := Ready (Ok tt) |}.
Lemma grpc_roundtrip_witness :
  let w := grpc_new 0 true (h2_conn [] [SnWait; SnCap 9 true; SnCap 1 true]) in
  let evs := [RvWait; RvData [0; 0; 0; 0; 4; 10; 2; 7]; RvWait; RvData [8; 0; 0; 0; 0; 3; 10; 1; 9]] in
  exists w', write_many 3 [[7; 8]; [9]] w = Some w' /\ read_many [5; 1; 1; 1; 1; 1; 1]%nat (grpc_new 1 true (h2_conn evs [])) = [7; 8; 9].
Proof.
  intros w evs. eexists. split; [reflexivity|].
  refine (proj2 (grpc_roundtrip 1 [[7; 8]; [9]] w _ 3 (h2_conn evs []) _ eq_refl eq_refl _ _ _) _).
  - repeat constructor.
  - split; [reflexivity|]. exists [7; 8; 9]. cbn [h2_conn hc_recv]. apply carries_wait.
    assert (header 2 = [0; 0; 0; 0; 4; 10; 2]) as E2 by reflexivity. assert (header 1 = [0; 0; 0; 0; 3; 10; 1]) as E1 by reflexivity.
    pose proof (chunk_head 1 7 [] [] 1 eq_refl (chunk_stop 1)) as C2. change (Z.of_nat 2) with 2 in C2. rewrite E2 in C2.
    pose proof (chunk_head 0 9 [] [] 0 eq_refl (chunk_stop 0)) as C1. change (Z.of_nat 1) with 1 in C1. rewrite E1 in C1.
    refine (carries_frame 0 _ _ [7] [8; 9] 1 _ C2 (carries_wait _ _ _ (carries_frame 1 _ _ [8; 9] [] 0 _ (chunk_byte 8 0 _ _ 0 C1) carries_end))); done.
  - repeat constructor.
  - cbn. lia.
Defined.
End grpc_witness.

(** ** WebSocket *)
Module WsSpec.
Import Ws.
Definition st_data (e : StreamEv) : option (list Z) := match e with StMsg (Binary d) => Some d | _ => None end.
Definition st_fine (e : StreamEv) : Prop := match e with StMsg (Binary d) => d <> [] | StWait => True | _ => False end.
Fixpoint st_waits (l : list StreamEv) : nat := match l with [] => 0 | StWait :: l' => S (st_waits l') | _ :: l' => st_waits l' end%nat.

Definition reader_inv (s : WebsocketConn) (pt : list Z) : Prop :=
  Forall st_fine (ws_in (inner s)) /\ pt = read_buffer s ++ mjoin (omap st_data (ws_in (inner s))).
Definition waits (s : WebsocketConn) : nat := st_waits (ws_in (inner s)).
Lemma ws_poll_delivers s pt cap : reader_inv s pt -> (0 < cap)%nat -> delivers reader_inv waits s pt (poll_read cap s).
Proof.
  intros [Hf ->] Hcap. unfold poll_read, ws_read. case_bool_decide as Hb.
  - cbn [delivers]. split_and!; [right; eapply take_min_nonempty; [done|exact Hcap|by right]|done|].
    exists (drop (cap `min` length (read_buffer s)) (read_buffer s) ++ mjoin (omap st_data (ws_in (inner s)))).
    split; [by rewrite app_assoc, take_drop|]. by split.
  - assert (read_buffer s = []) as Hn by (destruct (read_buffer s); [done|by destruct Hb]). rewrite Hn. clear Hb. unfold poll_next.
    destruct (ws_in (inner s)) as [|[|[]|] l] eqn:El; cbn [delivers]; try (by apply Forall_cons in Hf as [[] _]).
    + done.
    + apply Forall_cons in Hf as [_ Hf]. split; [by split|]. right. unfold waits. rewrite El. cbn. lia.
    + apply Forall_cons in Hf as [Hd Hf]. cbn in Hd. split_and!; [right; eapply take_min_nonempty; [done|exact Hcap|by right]| |].
      * unfold waits. by rewrite El.
      * rewrite rest_of_chunk. exists (drop (cap `min` length bs) bs ++ mjoin (omap st_data l)). split; [|by split].
        cbn. by rewrite app_assoc, take_drop.
Qed.

Lemma ws_write_ok buf s : ws_sink (inner s) = [] ->
  poll_write buf s = (Ready (Ok (length buf)),
    {| inner := {| ws_in := ws_in (inner s); ws_sink := []; ws_queued := ws_queued (inner s) ++ [Binary buf] |}; read_buffer := read_buffer s |}).
Proof.
  intros Hs. destruct s as [[i k q] b]. cbn in Hs. subst k. reflexivity.
Qed.

(** A flush that has to wait makes the caller write again, and the message
    goes out twice. *)
Lemma pending_flush_sends_twice buf s l : ws_sink (inner s) = [SkOk; SkOk; SkWait; SkOk; SkOk; SkOk] ++ l ->
  let s1 := snd (poll_write buf s) in
  fst (poll_write buf s) = Pending /\ fst (poll_write buf s1) = Ready (Ok (length buf)) /\
  ws_queued (inner (snd (poll_write buf s1))) = ws_queued (inner s) ++ [Binary buf; Binary buf].
Proof.
  intros Hs. destruct s as [[i k q] b]. cbn in Hs. subst k. cbn. split_and!; [done|done|]. change (ws_queued _) with ((q ++ [Binary buf]) ++ [Binary buf]). by rewrite <- app_assoc.
Qed.
(** A ping, which the crate answers by itself, ends the stream. *)
Lemma ping_is_an_error bs l s cap : read_buffer s = [] -> ws_in (inner s) = StMsg (Ping bs) :: l ->
  fst (poll_read cap s) = Ready (Err "ws invalid message type").
Proof. intros Hb Hi. unfold poll_read, ws_read. rewrite Hb. rewrite bool_decide_eq_false_2 by tauto. unfold poll_next. by rewrite Hi. Qed.

(** *** Early data *)
Definition header_get (name : str) (hs : list (str * str)) : option str := snd <$> find (fun kv => bool_decide (fst kv = name)) hs.
Lemma header_set_found name v hs : name ∈ map fst hs ->
  exists hs', header_set_first name v hs = Some hs' /\ header_get name hs' = Some v.
Proof.
  induction hs as [|[k w] hs IH]; [by intros Hn%elem_of_nil|]. cbn [map fst header_set_first]. case_bool_decide as Hk.
  - intros _. eexists. split; [done|]. unfold header_get. cbn. by rewrite bool_decide_eq_true_2.
  - intros [He|Hin]%elem_of_cons; [by subst|]. destruct (IH Hin) as (hs' & -> & Hg). eexists. split; [done|].
    unfold header_get in *. cbn. by rewrite bool_decide_eq_false_2.
Qed.

Section early.
Context {S Cfg : Type} {WL : WsLib S Cfg} {AR : AsyncRead S} {AW : AsyncWrite S}.
Notation ES := (WebsocketEarlyDataConn S Cfg).

(** A caller that writes [data] to the end, and tries again while a write is
    pending. *)
Fixpoint push (fuel : nat) (data : list Z) (s : ES) : option ES :=
  match data, fuel with
  | [], _ => Some s
  | _, O => None
  | _, Datatypes.S fuel' =>
    match poll_write data s with
    | (Ready (Ok n), s') => push fuel' (drop n data) s'
    | (Pending, s') => push fuel' data s'
    | _ => None
    end
  end.

(** The handshake on its way. *)
Lemma push_handshake n fuel data (s : ES) w : early_data_flushed s = false -> data <> [] -> stream_future s = Some (Running n (Ok w)) ->
  exists s', push (n + 1 + fuel) data s = push fuel (drop (early_data_len s) data) s' /\
    stream s' = Some (WsStream w) /\ early_data_flushed s' = true.
Proof.
  intros Hf Hd. revert s Hf. induction n as [|n IH]; intros s Hf Hs.
  - destruct data as [|b data]; [done|]. cbn [Nat.add push poll_write early_writer]. unfold early_write. rewrite Hf, Hs. cbn [negb early_poll].
    eexists. split; [reflexivity|done].
  - destruct (IH (with_fut (Running n (Ok w)) s)) as (s' & Hp & Hst); [done..|]. exists s'. split; [|done]. etrans; [|exact Hp].
    destruct data as [|b data]; [done|]. cbn [Nat.add push poll_write early_writer]. unfold early_write. by rewrite Hf, Hs.
Qed.

(** Writes that wait until the sink is ready queue nothing. *)
Lemma push_ready j fuel data (s : ES) w : early_data_flushed s = true -> data <> [] -> stream s = Some (WsStream w) ->
  ws_sink (inner w) = replicate j SkWait ->
  exists s' w', push (j + fuel) data s = push fuel data s' /\ early_data_flushed s' = true /\ stream s' = Some (WsStream w') /\
    ws_sink (inner w') = [] /\ ws_queued (inner w') = ws_queued (inner w).
Proof.
  intros Hf Hd. revert s w Hf. induction j as [|j IH]; intros s w Hf Hs Hk; [by exists s, w|].
  set (w1 := {| inner := {| ws_in := ws_in (inner w); ws_sink := replicate j SkWait; ws_queued := ws_queued (inner w) |}; read_buffer := read_buffer w |}).
  destruct (IH (with_stream (Some (WsStream w1)) s) w1) as (s' & w' & Hp & H); [done..|]. exists s', w'. split; [|done].
  etrans; [|exact Hp]. destruct data as [|b data]; [done|]. cbn [Nat.add push poll_write early_writer]. unfold early_write. rewrite Hf. cbn [negb].
  unfold delegate. rewrite Hs. cbn [poll_write ws_writer]. unfold ws_write, on_inner, zoom, sink_poll, sink_step, mbind, pm_bind. by rewrite Hk.
Qed.

Lemma req_has_header key (c : Client) r : req key c = Ok r -> (0 < max_early_data c)%nat ->
  to_ascii_lowercase (early_data_header_name c) ∈ map fst (rq_headers r).
Proof.
  intros H Hm. assert (rq_headers r = map (fun kv => (to_ascii_lowercase (fst kv), snd kv)) (req_headers key c)) as ->.
  { unfold req in H. destruct (_ && _); [|done]. by assert (r = _) as -> by (symmetry; exact (f_equal (fun o => match o with Ok x => x | _ => r end) H)). }
  unfold req_headers. destruct (Nat.ltb_spec 0 (max_early_data c)); [|lia]. rewrite app_assoc, !map_app.
  apply elem_of_app. right. apply list_elem_of_here.
Qed.

(** A reader that waits for the first write is not woken when the handshake
    fails, and the next write panics. *)
Lemma failed_handshake_strands_reader buf buf' cap (s : ES) err : early_data_flushed s = false -> stream_future s = Some (Running 0 (Err err)) ->
  let s1 := snd (poll_read cap s) in let s2 := snd (poll_write buf s1) in
  fst (poll_read cap s) = Pending /\ fst (poll_write buf s1) = Ready (Err err) /\ early_waker s2 = true /\ wakes s2 = wakes s /\
  fst (poll_write buf' s2) = Ready Panic.
Proof.
  intros Hf Hs. cbn [poll_write early_writer]. unfold poll_read, early_read. rewrite Hf. cbn [negb snd fst]. unfold early_write. cbn [with_wakers early_data_flushed stream_future].
  rewrite Hf, Hs. cbn. by rewrite Hf.
Qed.
End early.
End WsSpec.

Section early_data.
Import Ws WsSpec.
Context {S Cfg : Type} {WL : WsLib S Cfg} {AR : AsyncRead S} {AW : AsyncWrite S}.
Notation ES := (WebsocketEarlyDataConn S Cfg).
(** C31: Early data is exact: a client with early data enabled that writes
    its first bytes puts as many of them as the configured maximum allows,
    in base64, into the header it was configured with, and when the server
    switches protocols the rest follows in one binary message: nothing is
    lost, sent twice or left behind, however long the handshake takes and
    however long the websocket then takes to become ready, as long as it
    flushes the message without a wait (after a flush that waits the message
    is sent again, see [pending_flush_sends_twice]). *)
Theorem early_data_exact key (c : Client) (raw : S) (e : ES) data :
  proxy_stream key c raw = Ok (EarlyConn e) -> data <> [] ->
  let k := (max_early_data c `min` length data)%nat in
  exists r, header_get (to_ascii_lowercase (early_data_header_name c)) (rq_headers r) = Some (b64_encode (take k data)) /\
  forall n j w0, client_async raw r (ws_config c) = (n, Ok (101, w0)) -> ws_sink w0 = replicate j SkWait ->
  exists s' conn, push (n + j + 2) data e = Some s' /\ stream s' = Some (WsStream conn) /\ early_data_flushed s' = true /\
    ws_queued (inner conn) = ws_queued w0 ++ (if (k <? length data)%nat then [Binary (drop k data)] else []).
Proof.
  unfold proxy_stream. destruct (req key c) as [r|?|] eqn:Hr; [|done|done]. unfold mbind, res_mbind; cbn [res_bind].
  destruct (Nat.ltb_spec 0 (max_early_data c)) as [Hm|Hm].
  2:{ destruct (snd (client_async raw r (ws_config c))) as [[st w]|?|]; cbn [res_bind]; [destruct (negb (st =? 101))| |]; intros H; congruence. }
  intros [= <-] Hd. set (k := (max_early_data c `min` length data)%nat). destruct (header_set_found _ (b64_encode (take k data)) _ (req_has_header key c r Hr Hm)) as (hs & Hs & Hg).
  exists {| rq_method := rq_method r; rq_uri := rq_uri r; rq_headers := hs |}. split; [done|]. intros n j w0 Hc Hw0.
  set (e := early_new raw r (ws_config c) (early_data_header_name c) (max_early_data c)).
  assert (early_start data e = (Ok tt, {| stream := None; request := None; stream_future := Some (Running n (Ok (from_websocket w0)));
    early_waker := false; flush_waker := false; wakes := 0; config := None; header_name := early_data_header_name c; early_data_len := k;
    early_data_flushed := false |})) as Hst.
  { unfold early_start, e. cbn [early_new request stream early_data_len header_name config early_waker flush_waker wakes early_data_flushed].
    fold k. rewrite Hs. unfold early_proxy_stream. by rewrite Hc. }
  set (s1 := snd (early_start data e)). assert (s1 = snd (early_start data e)) as Hs1 by done. rewrite Hst in Hs1. cbn [snd] in Hs1.
  destruct (push_handshake n (j + 1) data s1 (from_websocket w0)) as (s2 & Hp & Hs2 & Hf2); [by rewrite Hs1|done|by rewrite Hs1..|].
  assert (push (n + j + 2) data e = push (n + 1 + (j + 1)) data s1) as ->.
  { destruct data as [|b data]; [done|]. replace (n + j + 2)%nat with (Datatypes.S (n + j + 1)) by lia.
    replace (n + 1 + (j + 1))%nat with (Datatypes.S (n + j + 1)) by lia.
    cbn [push poll_write early_writer]. unfold early_write. rewrite Hst, Hs1. reflexivity. }
  rewrite Hp. replace (early_data_len s1) with k by by rewrite Hs1. clear Hp.
  destruct (Nat.ltb_spec k (length data)) as [Hk|Hk].
  - destruct (drop k data) as [|b rest] eqn:Ed.
    { apply (f_equal length) in Ed. rewrite length_drop in Ed. cbn in Ed. lia. }
    destruct (push_ready j 1 (b :: rest) s2 (from_websocket w0) Hf2 ltac:(done) Hs2 Hw0) as (s3 & w3 & -> & Hf3 & Hs3 & Hk3 & Hq3).
    cbn [push poll_write early_writer]. unfold early_write. rewrite Hf3. cbn [negb]. unfold delegate. rewrite Hs3. rewrite ws_write_ok by done.
    rewrite drop_ge by done. cbn [push]. eexists _, _. split_and!; [reflexivity|reflexivity|done|]. cbn. by rewrite Hq3.
  - rewrite drop_ge by lia. replace (j + 1)%nat with (Datatypes.S j) by lia. cbn [push].
    eexists _, _. split_and!; [reflexivity|done|done|]. cbn. by rewrite app_nil_r.
Qed.
End early_data.

Section ws_witness.
Import Ws.
Definition plain_ws : WsLib Wire unit :=
  {| valid_header := fun _ _ => true; valid_uri := fun _ => true; b64_encode := fun bs => bs;
     client_async := fun _ _ _ => (1%nat, Ok (101, {| ws_in := []; ws_sink := [SkWait]; ws_queued := [] |})) |}.
#[local] Existing Instance plain_ws.
Definition plain_client : Client (Cfg := unit) :=
  {| server := lit "h"; port := 80; path := lit "/"; headers := []; ws_config := None; max_early_data := 2;
     early_data_header_name := lit "Sec-WebSocket-Protocol" |}.
Definition idle_wire : Wire := {| wi_in := []; wi_ev := []; wi_out := []; wi_shut := false |}.
Definition plain_conn : WebsocketEarlyDataConn Wire unit :=
  match proxy_stream [] plain_client idle_wire with
  | Ok (EarlyConn e) => e
  | _ => early_new idle_wire {| rq_method := []; rq_uri := []; rq_headers := [] |} None [] 0
  end.
Lemma early_data_exact_witness :
  exists s' conn, proxy_stream [] plain_client idle_wire = Ok (EarlyConn plain_conn) /\
    WsSpec.push 4 [7; 8; 9] plain_conn = Some s' /\ stream s' = Some (WsStream conn) /\ ws_queued (inner conn) = [Binary [9]].
Proof.
  destruct (early_data_exact (WL := plain_ws) [] plain_client idle_wire plain_conn [7; 8; 9] eq_refl ltac:(done)) as (r & _ & H).
  destruct (H 1%nat 1%nat _ eq_refl eq_refl) as (s' & conn & H1 & H2 & _ & H3).
  exists s', conn. split; [reflexivity|]. split; [exact H1|]. split; [exact H2|exact H3].
Defined.
End ws_witness.
