(* ===== verification/Conv.v ===== *)
(** * Conversations over a connection

    The handshakes of the source are async functions that read exactly so
    many bytes ([read_exact]) and write buffers ([write_all]) on one
    connection.  An awaited future keeps its progress between polls, so how
    the network cuts the bytes is not visible to them: a handshake is a tree
    of such operations.  Two peers with the buffers between them form a
    network whose steps may be taken in any order; [net_confluent] says that
    the order does not matter. *)

From stdpp Require Import relations.
From S2P Require Import Prelude.

Definition EOF : string := "unexpected end of file".
Definition BROKEN_PIPE : string := "broken pipe".

(** [Recv n k]: [read_exact] of [n] bytes; [Wait k]: a [read] of one byte
    whose outcome is ignored; [Send]: [write_all]; [Shut]: [shutdown].  A
    finished peer that failed has dropped its connection. *)
Inductive Conv (A : Type) : Type :=
| Finish (r : res A)
| Recv (n : nat) (k : list Z -> Conv A)
| Wait (k : Conv A)
| Send (bs : list Z) (k : Conv A)
| Shut (k : Conv A).
Arguments Finish {A} r.
Arguments Recv {A} n k.
Arguments Wait {A} k.
Arguments Send {A} bs k.
Arguments Shut {A} k.

#[global] Instance conv_ret : MRet Conv := fun A a => Finish (Ok a).
Fixpoint conv_then {A B} (f : A -> Conv B) (c : Conv A) : Conv B :=
  match c with
  | Finish (Ok a) => f a
  | Finish (Err e) => Finish (Err e)
  | Finish Panic => Finish Panic
  | Recv n k => Recv n (fun bs => conv_then f (k bs))
  | Wait k => Wait (conv_then f k)
  | Send bs k => Send bs (conv_then f k)
  | Shut k => Shut (conv_then f k)
  end.
#[global] Instance conv_bind : MBind Conv := fun A B f c => conv_then f c.

Definition read_exact (n : nat) : Conv (list Z) := Recv n mret.
Definition read_u (n : nat) : Conv Z := Recv n (fun bs => mret (be_val bs)).
Definition write_all (bs : list Z) : Conv unit := Send bs (mret tt).
Definition shutdown : Conv unit := Shut (mret tt).
Definition wait_read : Conv unit := Wait (mret tt).
Definition throw {A} (r : res A) : Conv A := Finish r.

(** ** One peer

    What a peer does next, given whether it shut its own side down, the
    bytes that arrived and whether no more will come. *)
Definition advance {A} (c : Conv A) (own_shut : bool) (inb : list Z) (eof : bool) : option (Conv A * bool * list Z * list Z) :=
  match c with
  | Finish _ => None
  | Recv n k =>
    if (n <=? length inb)%nat then Some (k (take n inb), own_shut, drop n inb, [])
    else if eof then Some (Finish (Err EOF), own_shut, [], []) else None
  | Wait k =>
    match inb with
    | _ :: inb => Some (k, own_shut, inb, [])
    | [] => if eof then Some (k, own_shut, [], []) else None
    end
  | Send bs k => if own_shut then Some (Finish (Err BROKEN_PIPE), own_shut, inb, []) else Some (k, own_shut, inb, bs)
  | Shut k => Some (k, true, inb, [])
  end.

(** A peer alone, with all it will ever receive: its result, what it left
    unread and what it sent. *)
Fixpoint feed {A} (c : Conv A) (own_shut : bool) (inb : list Z) : res A * list Z * list Z :=
  match c with
  | Finish r => (r, inb, [])
  | Recv n k => if (n <=? length inb)%nat then feed (k (take n inb)) own_shut (drop n inb) else (Err EOF, [], [])
  | Wait k => feed k own_shut (tail inb)
  | Send bs k =>
    if own_shut then (Err BROKEN_PIPE, inb, [])
    else let '(r, rest, out) := feed k own_shut inb in (r, rest, bs ++ out)
  | Shut k => feed k true inb
  end.

(** ** Two peers *)
Record Peer (A : Type) : Type := { prog : Conv A; shut_down : bool }.
Arguments prog {A} _.
Arguments shut_down {A} _.
Definition closed {A} (p : Peer A) : bool :=
  shut_down p || match prog p with Finish (Ok _) => false | Finish _ => true | _ => false end.

Record Net (A B : Type) : Type := { left : Peer A; right : Peer B; to_right : list Z; to_left : list Z }.
Arguments left {A B} _.
Arguments right {A B} _.
Arguments to_right {A B} _.
Arguments to_left {A B} _.

Definition connect {A B} (a : Conv A) (b : Conv B) : Net A B := {|
  left := {| prog := a; shut_down := false |}; right := {| prog := b; shut_down := false |}; to_right := []; to_left := [] |}.

Definition left_turn {A B} (x : Net A B) : option (Net A B) :=
  '(c, sh, inb, out) ← advance (prog (left x)) (shut_down (left x)) (to_left x) (closed (right x));
  Some {| left := {| prog := c; shut_down := sh |}; right := right x; to_right := to_right x ++ out; to_left := inb |}.
Definition right_turn {A B} (x : Net A B) : option (Net A B) :=
  '(c, sh, inb, out) ← advance (prog (right x)) (shut_down (right x)) (to_right x) (closed (left x));
  Some {| left := left x; right := {| prog := c; shut_down := sh |}; to_right := inb; to_left := to_left x ++ out |}.

Inductive net_step {A B} (x : Net A B) : Net A B -> Prop :=
| LeftTurn y : left_turn x = Some y -> net_step x y
| RightTurn y : right_turn x = Some y -> net_step x y.

(** A fixed order, to compute with. *)
Fixpoint run {A B} (fuel : nat) (x : Net A B) : nat * Net A B :=
  match fuel with
  | O => (O, x)
  | S fuel =>
    match left_turn x with
    | Some y => let '(n, z) := run fuel y in (S n, z)
    | None => match right_turn x with Some y => let '(n, z) := run fuel y in (S n, z) | None => (O, x) end
    end
  end.

(** ** The order does not matter *)
Section confluence.
Context {A B : Type}.
Implicit Types x y z t u : Net A B.

(** More input, or the news that no more will come, does not change a step
    that was possible. *)
Lemma advance_more {C} (c : Conv C) sh inb eof c' sh' inb' out more :
  advance c sh inb eof = Some (c', sh', inb', out) -> (eof = true -> more = []) ->
  advance c sh (inb ++ more) eof = Some (c', sh', inb' ++ more, out).
Proof.
  intros H Hm. destruct c as [r|n k|k|bs k|k]; cbn [advance] in *; [done| | | |by simplify_eq].
  - destruct (Nat.leb_spec n (length inb)).
    + simplify_eq. rewrite length_app. destruct (Nat.leb_spec n (length inb + length more)); [|lia].
      by rewrite take_app_le, drop_app_le by lia.
    + destruct eof; [|done]. rewrite Hm, app_nil_r by done. destruct (Nat.leb_spec n (length inb)); [lia|]. simplify_eq. done.
  - destruct inb as [|b inb]; [|by simplify_eq]. destruct eof; [|done]. rewrite Hm by done. by simplify_eq.
  - destruct sh; by simplify_eq.
Qed.
Lemma advance_eof {C} (c : Conv C) sh inb r : advance c sh inb false = Some r -> advance c sh inb true = Some r.
Proof.
  destruct c as [?|n k|k|bs k|k]; cbn; try done.
  - by destruct (n <=? length inb)%nat.
  - by destruct inb.
Qed.

(** A closed peer stays closed and sends nothing more. *)
Lemma advance_closed {C} (c : Conv C) sh inb eof c' sh' inb' out :
  advance c sh inb eof = Some (c', sh', inb', out) -> closed {| prog := c; shut_down := sh |} = true ->
  sh' = true /\ out = [].
Proof.
  unfold closed. destruct c as [r|n k|k|bs k|k]; [done|..]; cbn; rewrite orb_false_r; intros H ->.
  - destruct (n <=? length inb)%nat; [by simplify_eq|]. destruct eof; by simplify_eq.
  - destruct inb; [destruct eof|]; by simplify_eq.
  - by simplify_eq.
  - by simplify_eq.
Qed.

Lemma advance_late {C} (c : Conv C) sh inb eof eof' c' sh' inb' out more :
  advance c sh inb eof = Some (c', sh', inb', out) -> (eof = true -> eof' = true /\ more = []) ->
  advance c sh (inb ++ more) eof' = Some (c', sh', inb' ++ more, out).
Proof.
  intros H Hm. destruct eof; [destruct (Hm eq_refl) as [-> ->]; by apply advance_more|].
  destruct eof'; [apply advance_eof|]; by apply advance_more.
Qed.

Lemma turns_commute x y z : left_turn x = Some y -> right_turn x = Some z ->
  exists w, right_turn y = Some w /\ left_turn z = Some w.
Proof.
  unfold left_turn, right_turn. destruct (advance (prog (left x)) _ _ _) as [[[[c1 s1] i1] o1]|] eqn:E1; [|done].
  destruct (advance (prog (right x)) _ _ _) as [[[[c2 s2] i2] o2]|] eqn:E2; [|done]. cbn. intros [= <-] [= <-]. cbn.
  assert (closed (left x) = true -> closed {| prog := c1; shut_down := s1 |} = true /\ o1 = []) as H1.
  { intros Hc. destruct (advance_closed _ _ _ _ _ _ _ _ E1) as [-> ->]; [by destruct (left x)|done]. }
  assert (closed (right x) = true -> closed {| prog := c2; shut_down := s2 |} = true /\ o2 = []) as H2.
  { intros Hc. destruct (advance_closed _ _ _ _ _ _ _ _ E2) as [-> ->]; [by destruct (right x)|done]. }
  rewrite (advance_late _ _ _ _ _ _ _ _ _ _ E1 H2), (advance_late _ _ _ _ _ _ _ _ _ _ E2 H1). cbn. by eexists.
Qed.

Lemma step_diamond x y z : net_step x y -> net_step x z -> y = z \/ exists w, net_step y w /\ net_step z w.
Proof.
  intros [y' H1|y' H1] [z' H2|z' H2]; [left; congruence| | |left; congruence]; right.
  - destruct (turns_commute _ _ _ H1 H2) as (w & ? & ?). exists w. by split; constructor.
  - destruct (turns_commute _ _ _ H2 H1) as (w & ? & ?). exists w. by split; constructor.
Qed.

Definition stuck x : Prop := left_turn x = None /\ right_turn x = None.
Lemma stuck_no_step x y : stuck x -> ~ net_step x y.
Proof. intros [H1 H2] [? H|? H]; congruence. Qed.

Lemma step_towards n x t y : nsteps net_step (S n) x t -> stuck t -> net_step x y -> nsteps net_step n y t.
Proof.
  revert x y. induction n as [|n IH]; intros x y Hn Ht Hy; inversion Hn as [|? ? z ? Hz Hr]; subst;
    destruct (step_diamond _ _ _ Hy Hz) as [->|(w & W1 & W2)]; try done.
  - inversion Hr; subst. by destruct (stuck_no_step _ _ Ht W2).
  - econstructor; [exact W1|]. by apply (IH z).
Qed.

(** If one order of the steps comes to an end, every order comes to the same
    end, after the same number of steps. *)
Theorem net_confluent n x t m u : nsteps net_step n x t -> stuck t -> nsteps net_step m x u ->
  (m <= n)%nat /\ nsteps net_step (n - m) u t.
Proof.
  intros Hn Ht Hm. revert n Hn. induction Hm as [x|m x y u Hxy Hm IH]; intros n Hn; [split; [lia|by rewrite Nat.sub_0_r]|].
  destruct n as [|n].
  - inversion Hn; subst. by destruct (stuck_no_step _ _ Ht Hxy).
  - destruct (IH n) as [? ?]; [by eapply step_towards|]. split; [lia|]. by replace (S n - S m)%nat with (n - m)%nat by lia.
Qed.

Lemma run_steps fuel x n t : run fuel x = (n, t) -> nsteps net_step n x t.
Proof.
  revert x n. induction fuel as [|fuel IH]; cbn; intros x n H; [simplify_eq; constructor|].
  destruct (left_turn x) as [y|] eqn:E1.
  - destruct (run fuel y) as [n' z] eqn:E. injection H as <- <-. econstructor; [by constructor|by apply IH].
  - destruct (right_turn x) as [y|] eqn:E2; [|injection H as <- <-; constructor].
    destruct (run fuel y) as [n' z] eqn:E. injection H as <- <-. econstructor; [by apply RightTurn|by apply IH].
Qed.
End confluence.

(** [x] ends as [t] whatever the order of the steps. *)
Definition ends_as {A B} (x t : Net A B) : Prop :=
  stuck t /\ exists n, nsteps net_step n x t /\ forall m u, nsteps net_step m x u -> (m <= n)%nat /\ nsteps net_step (n - m) u t.
Lemma run_ends {A B} fuel (x t : Net A B) : snd (run fuel x) = t -> stuck t -> ends_as x t.
Proof.
  intros H Hs. destruct (run fuel x) as [n t'] eqn:E. cbn in H. subst t'. apply run_steps in E.
  split; [done|]. exists n. split; [done|]. intros m u Hu. by apply (net_confluent n x t).
Qed.

Lemma ends_left {A B} (x y t : Net A B) : left_turn x = Some y -> ends_as y t -> ends_as x t.
Proof.
  intros H (Hs & n & Hn & _). split; [done|]. exists (S n). assert (nsteps net_step (S n) x t) as Hx by (econstructor; [by constructor|done]).
  split; [done|]. intros. by apply (net_confluent (S n) x t).
Qed.
Lemma ends_right {A B} (x y t : Net A B) : right_turn x = Some y -> ends_as y t -> ends_as x t.
Proof.
  intros H (Hs & n & Hn & _). split; [done|]. exists (S n). assert (nsteps net_step (S n) x t) as Hx by (econstructor; [by apply RightTurn|done]).
  split; [done|]. intros. by apply (net_confluent (S n) x t).
Qed.
Lemma ends_here {A B} (x : Net A B) : stuck x -> ends_as x x.
Proof. intros H. by apply (run_ends 0). Qed.

(** ** One peer against any other

    What a peer has done in a network is what it does alone with the bytes
    it was sent. *)
Definition extends {A} (b : Conv A) (p : Peer A) (read sent inb more : list Z) : Prop :=
  feed b false (read ++ inb ++ more) =
  let '(r, rest, out) := feed (prog p) (shut_down p) (inb ++ more) in (r, rest, sent ++ out).

Lemma feed_advance {A} (c : Conv A) sh inb eof c' sh' inb' out more :
  advance c sh inb eof = Some (c', sh', inb', out) -> (eof = true -> more = []) -> (forall e, c' <> Finish (Err e)) ->
  exists read, inb = read ++ inb' /\
    feed c sh (inb ++ more) = let '(r, rest, out') := feed c' sh' (inb' ++ more) in (r, rest, out ++ out').
Proof.
  intros H Hm Hne. destruct c as [r|n k|k|bs k|k]; cbn in H; [done| | | |].
  - destruct (Nat.leb_spec n (length inb)); [|destruct eof; simplify_eq; by destruct (Hne EOF)]. simplify_eq.
    exists (take n inb). rewrite take_drop. split; [done|]. cbn. rewrite length_app. destruct (Nat.leb_spec n (length inb + length more)); [|lia].
    rewrite take_app_le, drop_app_le by lia. by destruct (feed _ _ _) as [[]].
  - destruct inb as [|x inb]; [destruct eof; [|done]; rewrite Hm by done; simplify_eq|simplify_eq]; [exists []|exists [x]];
      (split; [done|]); cbn; by destruct (feed _ _ _) as [[]].
  - destruct sh; simplify_eq; [by destruct (Hne BROKEN_PIPE)|]. exists []. split; [done|]. cbn. by destruct (feed _ _ _) as [[]].
  - simplify_eq. exists []. split; [done|]. cbn. by destruct (feed _ _ _) as [[]].
Qed.

Definition right_as_fed {A B} (b : Conv B) (x : Net A B) : Prop :=
  (exists e, prog (right x) = Finish (Err e)) \/
  exists read sent, forall more, (closed (left x) = true -> more = []) -> extends b (right x) read sent (to_right x) more.

Lemma right_as_fed_step {A B} (b : Conv B) (x y : Net A B) : right_as_fed b x -> net_step x y -> right_as_fed b y.
Proof.
  intros Hx [y' H|y' H].
  - unfold left_turn in H. destruct (advance (prog (left x)) _ _ _) as [[[[c sh] inb] out]|] eqn:E; [|done]. injection H as <-.
    destruct Hx as [He|(read & sent & Hx)]; [by left|right]. exists read, sent. intros more Hm. cbn in *. unfold extends. rewrite <- (app_assoc (to_right x)).
    apply Hx. intros Hc. destruct (advance_closed _ _ _ _ _ _ _ _ E) as [-> ->]; [by destruct (left x)|]. by apply Hm.
  - unfold right_turn in H. destruct (advance (prog (right x)) _ _ _) as [[[[c sh] inb] out]|] eqn:E; [|done]. injection H as <-.
    destruct Hx as [[e He]|(read & sent & Hx)]; [by rewrite He in E|]. cbn.
    assert ((exists e, c = Finish (Err e)) \/ forall e, c <> Finish (Err e)) as [Hc|Hc].
    { destruct c as [[| |]| | | |]; try (by right). left. by eexists. }
    { by left. }
    right. cbn. destruct (feed_advance _ _ _ _ _ _ _ _ [] E ltac:(done) Hc) as (rd & Hrd & _). exists (read ++ rd), (sent ++ out).
    intros more Hm. unfold extends. cbn. rewrite <- app_assoc. pose proof (Hx more Hm) as Hf. unfold extends in Hf.
    destruct (feed_advance _ _ _ _ _ _ _ _ more E Hm Hc) as (rd' & Hrd' & Hf'). rewrite Hf' in Hf. rewrite Hrd in Hf at 1. rewrite <- app_assoc in Hf. rewrite Hf.
    destruct (feed c sh (inb ++ more)) as [[]]. by rewrite app_assoc.
Qed.

Lemma right_fed {A B} (a : Conv A) (b : Conv B) n x v : nsteps net_step n (connect a b) x -> prog (right x) = Finish (Ok v) ->
  exists bs sent, feed b false bs = (Ok v, to_right x, sent).
Proof.
  intros Hn Hp. assert (right_as_fed b x) as [[e He]|(read & sent & Hx)]; [|congruence|].
  { assert (right_as_fed b (connect a b)) as H0.
    { right. exists [], []. intros more _. unfold extends. cbn. by destruct (feed b false more) as [[]]. }
    revert H0. induction Hn as [|n x y z Hxy _ IH]; [done|]. intros H0. apply IH; [done|]. by eapply right_as_fed_step. }
  exists (read ++ to_right x), sent. specialize (Hx [] ltac:(done)). unfold extends in Hx. rewrite app_nil_r, Hp in Hx. cbn in Hx. by rewrite app_nil_r in Hx.
Qed.
