(* ===== verification/Inbound.v ===== *)
(** * Accepting connections ([proxy/{socks,http,mixed}/..], [common/auth.rs])

    The accept loops of the inbounds with their checks on the peer, the
    authenticator, and the HTTP proxy's decision on a request.  The SOCKS5
    handshake is in [Socks5]; the HTTP parser and base64 are third-party
    code: a request is a record of what the source asks of it and the
    decoder is an argument. *)

From stdpp Require Import strings.
From S2P Require Import Prelude Str Net Session.

(** ** Addresses of peers *)

(** [Ipv6Addr::to_canonical]: an address in [::ffff:0:0/96] is the IPv4
    address it maps. *)
Definition ip_to_canonical (ip : IpAddr) : IpAddr :=
  match ip with
  | V6 a => if Z.shiftr a 32 =? 0xffff then V4 (a mod 2 ^ 32) else V6 a
  | V4 a => V4 a
  end.
(** [set_ip] keeps the flow information of an address that stays IPv6. *)
(* @src clash-lib/src/proxy/utils/socket_helpers.rs ~    fn to_canonical\(mut self~ ToCanonical for SocketAddr *)
Definition to_canonical (a : SocketAddr) : SocketAddr :=
  match ip_to_canonical (sa_ip a), a with
  | V4 ip, _ => SV4 ip (sa_port a)
  | V6 ip, SV6 _ port flowinfo scope_id => SV6 ip port flowinfo scope_id
  | V6 ip, SV4 _ port => SV6 ip port 0 0
  end.

(** ** The authenticator

    Keys and passwords are compared as the bytes of their strings. *)
(* @src clash-lib/src/common/auth.rs ~^pub struct PlainAuthenticator~ PlainAuthenticator *)
Record PlainAuthenticator : Type := { store : gmap (list Z) (list Z); usernames : list str }.
(* @src clash-lib/src/common/auth.rs ~^pub struct User~ User *)
Record User : Type := { user_name : str; user_password : str }.
(* @src clash-lib/src/common/auth.rs ~    pub fn new\(users~ PlainAuthenticator::new *)
Definition authenticator_new (users : list User) : PlainAuthenticator :=
  foldl (fun a u => {| store := <[utf8 (user_name u) := utf8 (user_password u)]> (store a); usernames := usernames a ++ [user_name u] |})
    {| store := ∅; usernames := [] |} users.
(* @src clash-lib/src/common/auth.rs ~    fn authenticate\(&self, username: &str, password: &str\) -> bool \{~ PlainAuthenticator::authenticate *)
Definition authenticate (a : PlainAuthenticator) (username password : list Z) : bool :=
  match store a !! username with
  | Some p => bool_decide (p = password)
  | None => false
  end.
(* @src clash-lib/src/common/auth.rs ~    fn enabled\(&self\) -> bool \{~ PlainAuthenticator::enabled *)
Definition enabled (a : PlainAuthenticator) : bool := negb (bool_decide (usernames a = [])).
(* @src clash-lib/src/common/auth.rs ~    fn users\(&self\) -> Vec<String> \{~ PlainAuthenticator::users *)
Definition users (a : PlainAuthenticator) : list str := usernames a.

(** ** The accept loops

    One turn of a loop: what [accept], [peer_addr], [local_addr] and
    [apply_tcp_options] return is given; an error value ends the listener,
    [None] goes on to the next connection. *)
Record Accepted : Type := {
  ac_peer : res SocketAddr;
  ac_local : res SocketAddr;
  ac_options : res unit;
  ac_peek : res (list Z);
}.

Definition default_session (now counter : Z) (t : Typ) (src : SocketAddr) (mark : option Z) : Session :=
  let s := (session_default counter now).1 in
  {| sess_id := sess_id s; network := Tcp; typ := t; source := src; destination := destination s; resolved_ip := resolved_ip s;
     so_mark := mark; iface := iface s; asn := asn s; traffic_stats := traffic_stats s; start_time := start_time s |}.

Definition from_lan (allow_lan : bool) (src : SocketAddr) (c : Accepted) : res bool :=
  if allow_lan then Ok false
  else l ← ac_local c; Ok (negb (bool_decide (sa_ip src = ip_to_canonical (sa_ip l)))).

(* @src clash-lib/src/proxy/socks/inbound/mod.rs 67 93 SocksInbound::listen_tcp (loop body) *)
Definition socks_accept (allow_lan : bool) (fw_mark : option Z) (now counter : Z) (accepted : res Accepted) : res (option Session) :=
  c ← accepted;
  peer ← ac_peer c;
  let src_addr := to_canonical peer in
  refused ← from_lan allow_lan src_addr c;
  if (refused : bool) then Ok None
  else
    _ ← ac_options c;
    Ok (Some (default_session now counter TSocks5 src_addr fw_mark)).

(* @src clash-lib/src/proxy/http/inbound/mod.rs 65 91 HttpInbound::listen_tcp (loop body) *)
Definition http_accept (allow_lan : bool) (accepted : res Accepted) : res (option SocketAddr) :=
  c ← accepted;
  peer ← ac_peer c;
  let src_addr := to_canonical peer in
  refused ← from_lan allow_lan src_addr c;
  if (refused : bool) then Ok None
  else
    _ ← ac_options c;
    Ok (Some src_addr).

(** A connection of the mixed port: a SOCKS5 session or an HTTP peer. *)
Inductive Mixed : Type := MixedSocks (s : Session) | MixedHttp (src : SocketAddr).
(* @src clash-lib/src/proxy/mixed/mod.rs 60 139 MixedInbound::listen_tcp (loop body) *)
Definition mixed_accept (allow_lan : bool) (fw_mark : option Z) (now counter : Z) (accepted : res Accepted) : res (option Mixed) :=
  match accepted with
  | Panic => Panic
  | Err _ => Ok None
  | Ok c =>
    match ac_peer c with
    | Panic => Panic
    | Err _ => Ok None
    | Ok peer =>
      let src_addr := to_canonical peer in
      refused ← from_lan allow_lan src_addr c;
      if (refused : bool) then Ok None
      else
        _ ← ac_options c;
        match ac_peek c with
        | Ok [b] =>
          if b =? 5 then Ok (Some (MixedSocks (default_session now counter THttp src_addr fw_mark)))
          else Ok (Some (MixedHttp src_addr))
        | Panic => Panic
        | _ => Ok None
        end
    end
  end.

(** ** The HTTP proxy *)
Record Uri : Type := { uri_scheme : option str; uri_host : option str; uri_port : option Z }.
Record HttpRequest : Type := { rq_connect : bool; rq_uri : Uri; rq_proxy_authorization : option (list Z) }.

(* @src clash-lib/src/proxy/http/inbound/proxy.rs ~^pub fn maybe_socks_addr~ maybe_socks_addr *)
Definition maybe_socks_addr (r : Uri) : option SocksAddr :=
  let scheme := default (lit "http") (uri_scheme r) in
  port ← (if bool_decide (scheme = lit "http") then Some (default 80 (uri_port r))
          else if bool_decide (scheme = lit "https") then Some (default 443 (uri_port r))
          else None);
  x ← uri_host r;
  Some (match parse_ip x with
        | Some ip => Ip (sa_new ip port)
        | None => Domain x port
        end).

(** [HeaderValue::to_str]: visible ASCII and tabs. *)
Definition header_to_str (v : list Z) : option str :=
  if forallb (fun b => ((32 <=? b) && (b <? 127)) || (b =? 9)) v then Some v else None.
Definition strip_prefix (p s : str) : option str :=
  if bool_decide (take (length p) s = p) then Some (drop (length p) s) else None.

(* @src clash-lib/src/proxy/http/inbound/auth.rs ~^fn parse_basic_proxy_authorization~ parse_basic_proxy_authorization *)
Definition parse_basic_proxy_authorization (req : HttpRequest) : option str :=
  v ← rq_proxy_authorization req;
  strip_prefix (lit "Basic ") (default [] (header_to_str v)).

Section http.
(** [base64::engine::general_purpose::STANDARD.decode] *)
Context (b64_decode : str -> option (list Z)).

(* @src clash-lib/src/proxy/http/inbound/auth.rs ~^fn decode_basic_proxy_authorization~ decode_basic_proxy_authorization *)
Definition decode_basic_proxy_authorization (cred : str) : option (str * str) :=
  decoded ← b64_decode cred;
  s ← from_utf8 decoded;
  split_once 58 s.

(** [true]: a response that asks for authentication is sent. *)
(* @src clash-lib/src/proxy/http/inbound/auth.rs ~^pub fn authenticate_req~ authenticate_req *)
Definition authenticate_req (req : HttpRequest) (a : PlainAuthenticator) : bool :=
  match parse_basic_proxy_authorization req with
  | None => true
  | Some cred =>
    match decode_basic_proxy_authorization cred with
    | None => true
    | Some (user, pass) => negb (authenticate a (utf8 user) (utf8 pass))
    end
  end.

(** What the proxy does with a request: [Forward] gives it to the HTTP
    client, whose connector dispatches the session or fails. *)
Inductive HttpAction : Type :=
| AuthRequired
| BadRequest
| Tunnel (s : Session)
| Forward (s : res Session).

Definition http_session (now counter : Z) (t : Typ) (src : SocketAddr) (mark : option Z) (dst : SocksAddr) : Session :=
  set_destination dst (default_session now counter t src mark).

(* @src clash-lib/src/proxy/http/inbound/connector.rs ~    fn call\(&mut self, url: Uri\)~ Connector::call *)
Definition connector_call (src : SocketAddr) (fw_mark : option Z) (now counter : Z) (url : Uri) : res Session :=
  dst ← ok_or (maybe_socks_addr url) "invalid url";
  Ok (http_session now counter THttp src fw_mark dst).

(* @src clash-lib/src/proxy/http/inbound/proxy.rs ~^async fn proxy~ proxy *)
Definition proxy (req : HttpRequest) (src : SocketAddr) (a : PlainAuthenticator) (fw_mark : option Z) (now counter : Z) : HttpAction :=
  if enabled a && authenticate_req req a then AuthRequired
  else if rq_connect req then
    match maybe_socks_addr (rq_uri req) with
    | Some addr => Tunnel (http_session now counter THttpConnect src fw_mark addr)
    | None => BadRequest
    end
  else Forward (connector_call src fw_mark now counter (rq_uri req)).
End http.

(** * Theorems *)
Lemma authenticator_new_app us u : authenticator_new (us ++ [u]) =
  {| store := <[utf8 (user_name u) := utf8 (user_password u)]> (store (authenticator_new us));
     usernames := usernames (authenticator_new us) ++ [user_name u] |}.
Proof. unfold authenticator_new. by rewrite foldl_app. Qed.

(** The password of a name is the one of its last entry. *)
Fixpoint last_password (us : list User) (name : list Z) : option (list Z) :=
  match us with
  | [] => None
  | u :: us =>
    match last_password us name with
    | Some p => Some p
    | None => if bool_decide (utf8 (user_name u) = name) then Some (utf8 (user_password u)) else None
    end
  end.
Lemma last_password_snoc us u name : last_password (us ++ [u]) name =
  if bool_decide (utf8 (user_name u) = name) then Some (utf8 (user_password u)) else last_password us name.
Proof.
  induction us as [|v us IH]; cbn; [by case_bool_decide|]. rewrite IH. by repeat case_bool_decide.
Qed.
Lemma store_spec us name : store (authenticator_new us) !! name = last_password us name.
Proof.
  induction us as [|u us IH] using rev_ind; [apply lookup_empty|]. rewrite authenticator_new_app, last_password_snoc. cbn.
  case_bool_decide as E; [subst; by rewrite lookup_insert_eq|]. by rewrite lookup_insert_ne.
Qed.
Lemma authenticate_spec us name pass : authenticate (authenticator_new us) name pass = bool_decide (last_password us name = Some pass).
Proof. unfold authenticate. rewrite store_spec. destruct (last_password us name); repeat case_bool_decide; by simplify_eq. Qed.
Lemma enabled_spec us : enabled (authenticator_new us) = negb (bool_decide (us = [])).
Proof.
  destruct us as [|u us _] using rev_ind; [done|]. rewrite authenticator_new_app. unfold enabled. cbn.
  rewrite !bool_decide_eq_false_2; [done| |]; intros H; by apply app_nil in H as [_ ?].
Qed.

Lemma to_canonical_idem a : to_canonical (to_canonical a) = to_canonical a.
Proof.
  destruct a as [ip p|ip p f s]; [done|]. unfold to_canonical. cbn.
  destruct (Z.shiftr ip 32 =? 0xffff) eqn:E; [done|]. cbn. by rewrite E.
Qed.

Lemma split_once_some c s a b : split_once c s = Some (a, b) -> s = a ++ [c] ++ b.
Proof.
  revert a b. induction s as [|x s IH]; cbn; [done|]. intros a b. destruct (Z.eqb_spec x c) as [->|].
  - intros [= <- <-]. done.
  - destruct (split_once c s) as [[a' b']|]; [|done]. intros [= <- <-]. cbn. by rewrite (IH a' b').
Qed.

(** With authentication on, the HTTP proxy serves a request only if its
    header carries the base64 form of [user:password] for a known user. *)
Lemma http_proxy_authenticated b64 req src us mark now counter :
  us <> [] -> proxy b64 req src (authenticator_new us) mark now counter <> AuthRequired ->
  exists cred decoded user pass, rq_proxy_authorization req = Some (lit "Basic " ++ cred) /\ b64 cred = Some decoded /\
    from_utf8 decoded = Some (user ++ [58] ++ pass) /\ last_password us (utf8 user) = Some (utf8 pass).
Proof.
  intros Hu. unfold proxy. rewrite enabled_spec, bool_decide_eq_false_2 by done. cbn [negb andb]. unfold authenticate_req.
  destruct (parse_basic_proxy_authorization req) as [cred|] eqn:E1; [|done].
  destruct (decode_basic_proxy_authorization b64 cred) as [[user pass]|] eqn:E2; [|done]. rewrite authenticate_spec.
  case_bool_decide as E3; [|done]. intros _. unfold parse_basic_proxy_authorization in E1.
  destruct (rq_proxy_authorization req) as [v|]; [|done]. cbn [mbind option_bind] in E1. unfold strip_prefix in E1.
  case_bool_decide as E4; [|done]. unfold header_to_str in *. destruct (forallb _ v); [|done]. injection E1 as <-.
  unfold decode_basic_proxy_authorization in E2. destruct (b64 _) as [d|] eqn:E5; [|done]. cbn [mbind option_bind] in E2.
  destruct (from_utf8 d) as [s|] eqn:E6; [|done]. cbn [mbind option_bind] in E2.
  exists (drop (length (lit "Basic ")) v), d, user, pass. cbn [default] in *. split_and!; [|done| |done].
  - f_equal. rewrite <- E4 at 1. cbn [default id]. by rewrite take_drop.
  - rewrite E6. f_equal. by apply split_once_some.
Qed.

(** One connection whose peer address cannot be read, as when the client
    has reset it, ends the SOCKS and HTTP listeners; the mixed one goes on. *)
Lemma lost_peer_stops_listener lan mark now counter e c : ac_peer c = Err e ->
  socks_accept lan mark now counter (Ok c) = Err e /\ http_accept lan (Ok c) = Err e /\
  mixed_accept lan mark now counter (Ok c) = Ok None.
Proof. intros H. unfold socks_accept, http_accept, mixed_accept. cbn. by rewrite H. Qed.

(** SOCKS5 sessions of the mixed port are marked as HTTP. *)
Lemma mixed_socks_type lan mark now counter c s :
  mixed_accept lan mark now counter (Ok c) = Ok (Some (MixedSocks s)) -> typ s = THttp.
Proof.
  unfold mixed_accept. destruct (ac_peer c); [|done|done]. rewrite res_bind_ok. intros ([|] & _ & H); [done|].
  apply res_bind_ok in H as (_ & _ & H). destruct (ac_peek c) as [[|b [|]]| |]; try done. destruct (b =? 5); by simplify_eq.
Qed.
