(* ===== verification/Socks5.v ===== *)
(** * SOCKS5 ([proxy/socks/socks5.rs], [proxy/socks/inbound/*], [proxy/socks/outbound/*])

    Both sides of the handshake as conversations, the UDP codec and the
    outbound's relay address.  The program is client and server of the same
    protocol; the theorems put the two against each other over a connection,
    and the server against any client at all. *)

From stdpp Require Import relations.
From S2P Require Import Prelude Str Net Session Conv Inbound.

(* @src clash-lib/src/proxy/socks/socks5.rs ~^pub const SOCKS5_VERSION~ SOCKS5_VERSION *)
Definition SOCKS5_VERSION : Z := 5.
(* @src clash-lib/src/proxy/socks/socks5.rs ~    pub const NO_AUTH~ auth_methods::NO_AUTH *)
Definition NO_AUTH : Z := 0.
(* @src clash-lib/src/proxy/socks/socks5.rs ~    pub const USER_PASS~ auth_methods::USER_PASS *)
Definition USER_PASS : Z := 2.
(* @src clash-lib/src/proxy/socks/socks5.rs ~    pub const NO_METHODS~ auth_methods::NO_METHODS *)
Definition NO_METHODS : Z := 0xff.
(* @src clash-lib/src/proxy/socks/socks5.rs ~    pub const CONNECT~ socks_command::CONNECT *)
Definition CONNECT : Z := 1.
(* @src clash-lib/src/proxy/socks/socks5.rs ~    pub const UDP_ASSOCIATE~ socks_command::UDP_ASSOCIATE *)
Definition UDP_ASSOCIATE : Z := 3.
(* @src clash-lib/src/proxy/socks/socks5.rs ~    pub const SUCCEEDED~ response_code::SUCCEEDED *)
Definition SUCCEEDED : Z := 0.
(* @src clash-lib/src/proxy/socks/socks5.rs ~    pub const FAILURE~ response_code::FAILURE *)
Definition FAILURE : Z := 1.
(* @src clash-lib/src/proxy/socks/socks5.rs ~    pub const COMMAND_NOT_SUPPORTED~ response_code::COMMAND_NOT_SUPPORTED *)
Definition COMMAND_NOT_SUPPORTED : Z := 7.
(* @src clash-lib/src/proxy/socks/socks5.rs ~^const ERROR_CODE_LOOKUP~ ERROR_CODE_LOOKUP *)
Definition ERROR_CODE_LOOKUP : list string := [
  "succeeded"; "general SOCKS server failure"; "connection not allowed by ruleset"; "network unreachable";
  "host unreachable"; "connection refused"; "TTL expired"; "command not supported"; "address type not supported"]%string.

(** [SocksAddr::read_from] on a connection; [recv_addr_ok] and
    [recv_addr_inv] tie it to [Session.read_from]. *)
Definition recv_addr : Conv SocksAddr :=
  atyp ← read_u 1;
  if atyp =? ATYP_V4 then ip ← read_u 4; port ← read_u 2; mret (Ip (sa_new (V4 ip) port))
  else if atyp =? ATYP_V6 then ip ← read_u 16; port ← read_u 2; mret (Ip (sa_new (V6 ip) port))
  else if atyp =? ATYP_DOMAIN then
    domain_len ← read_u 1;
    buf ← read_exact (Z.to_nat domain_len);
    match from_utf8 buf with
    | None => throw (Err invalid_domain)
    | Some domain => port ← read_u 2; mret (Domain domain port)
    end
  else throw (Err invalid_atyp).

(** ** The server *)

(** What the server hands to the dispatcher. *)
Inductive Served : Type := Connect (s : Session) | Associate (s : Session).

(* @src clash-lib/src/proxy/socks/inbound/stream.rs 51 113 handle_tcp (authentication) *)
Definition serve_auth (a : PlainAuthenticator) (methods : list Z) : Conv unit :=
  if enabled a then
    if negb (bool_decide (USER_PASS ∈ methods)) then
      _ ← write_all [SOCKS5_VERSION; FAILURE]; _ ← shutdown; throw (Err "auth required")
    else
      _ ← write_all [SOCKS5_VERSION; USER_PASS];
      head ← read_exact 2;
      let ulen := default 0 (head !! 1%nat) in
      user ← read_exact (Z.to_nat ulen);
      if ulen =? 0 then throw Panic
      else
        plen ← read_u 1;
        pass ← read_exact (Z.to_nat plen);
        if authenticate a user pass then write_all [1; SUCCEEDED]
        else _ ← write_all [1; FAILURE]; _ ← shutdown; throw (Err "auth failure")
  else if bool_decide (NO_AUTH ∈ methods) then write_all [SOCKS5_VERSION; NO_AUTH]
  else _ ← write_all [SOCKS5_VERSION; NO_METHODS]; _ ← shutdown; throw (Err "auth failure").

(** The session of an association keeps only the mark and the interface. *)
Definition udp_session (sess : Session) (now counter : Z) : Session :=
  let d := (session_default counter now).1 in
  {| sess_id := sess_id d; network := Udp; typ := TSocks5; source := source d; destination := destination d; resolved_ip := resolved_ip d;
     so_mark := so_mark sess; iface := iface sess; asn := asn d; traffic_stats := traffic_stats d; start_time := start_time d |}.

(** [local] and [udp_local] are the addresses the sockets report. *)
(* @src clash-lib/src/proxy/socks/inbound/stream.rs 115 215 handle_tcp (request) *)
Definition serve_request (sess : Session) (local udp_local : res SocketAddr) (now counter : Z) : Conv Served :=
  req ← read_exact 3;
  let cmd := default 0 (req !! 1%nat) in
  if negb (default 0 (req !! 0%nat) =? SOCKS5_VERSION) then throw (Err "unsupported SOCKS version")
  else
    dst ← recv_addr;
    if cmd =? CONNECT then
      bnd ← throw local;
      _ ← write_all (write_buf (Ip bnd) [SOCKS5_VERSION; SUCCEEDED; 0]);
      sess' ← throw (session_clone (set_destination dst sess));
      mret (Connect sess')
    else if cmd =? UDP_ASSOCIATE then
      _ ← throw local;
      bnd ← throw udp_local;
      _ ← write_all (write_buf (Ip bnd) [SOCKS5_VERSION; SUCCEEDED; 0]);
      _ ← wait_read;
      mret (Associate (udp_session sess now counter))
    else
      _ ← write_all (write_buf any_ipv4 [SOCKS5_VERSION; COMMAND_NOT_SUPPORTED; 0]);
      throw (Err "unsupported SOCKS command").

(* @src clash-lib/src/proxy/socks/inbound/stream.rs ~^pub async fn handle_tcp~ handle_tcp *)
Definition handle_tcp (a : PlainAuthenticator) (sess : Session) (local udp_local : res SocketAddr) (now counter : Z) : Conv Served :=
  hello ← read_exact 2;
  let n_methods := default 0 (hello !! 1%nat) in
  if negb (default 0 (hello !! 0%nat) =? SOCKS5_VERSION) then throw (Err "unsupported SOCKS version")
  else if n_methods =? 0 then throw (Err "malformed SOCKS data")
  else
    methods ← read_exact (Z.to_nat n_methods);
    _ ← serve_auth a methods;
    serve_request sess local udp_local now counter.

(** ** The client *)
Definition opt_throw {A} (o : option A) (e : string) : Conv A := throw (ok_or o e).

Definition credentials (username password : str) : list Z :=
  [1; wrap 8 (str_len username)] ++ utf8 username ++ [wrap 8 (str_len password)] ++ utf8 password.
(** The address of a request; an association asks for the family only. *)
Definition request_addr (addr : SocksAddr) (command : Z) : res SocksAddr :=
  if command =? UDP_ASSOCIATE then
    a ← socks_clone addr;
    sa ← must_into_socket_addr a;
    Ok (match sa_ip sa with V4 _ => any_ipv4 | V6 _ => any_ipv6 end)
  else Ok addr.
Definition reply_error (code : Z) : string :=
  String.append "SOCKS5 request failed with "
    (if code <? zlen ERROR_CODE_LOOKUP then default ""%string (ERROR_CODE_LOOKUP !! Z.to_nat code) else "unknown error"%string).

(* @src clash-lib/src/proxy/socks/socks5.rs ~^pub\(crate\) async fn client_handshake~ client_handshake *)
Definition client_handshake (addr : SocksAddr) (command : Z) (username password : option str) : Conv SocksAddr :=
  _ ← write_all [SOCKS5_VERSION; 1; match username, password with Some _, Some _ => USER_PASS | _, _ => NO_AUTH end];
  reply ← read_exact 2;
  let method := default 0 (reply !! 1%nat) in
  if negb (default 0 (reply !! 0%nat) =? SOCKS5_VERSION) then throw (Err "unsupported SOCKS version")
  else
    _ ← (if method =? USER_PASS then
           u ← opt_throw username "missing username";
           p ← opt_throw password "missing password";
           _ ← write_all (credentials u p);
           status ← read_exact 2;
           if default 0 (status !! 1%nat) =? SUCCEEDED then mret tt else throw (Err "SOCKS5 authentication failed")
         else if method =? NO_AUTH then mret tt else throw (Err "unsupported SOCKS5 authentication method"));
    a ← throw (request_addr addr command);
    _ ← write_all (write_buf a [SOCKS5_VERSION; command; 0]);
    head ← read_exact 3;
    if negb (default 0 (head !! 0%nat) =? SOCKS5_VERSION) then throw (Err "unsupported SOCKS version")
    else if negb (default 0 (head !! 1%nat) =? SUCCEEDED) then throw (Err (reply_error (default 0 (head !! 1%nat))))
    else recv_addr.

Definition is_unspecified (ip : IpAddr) : bool := match ip with V4 a | V6 a => a =? 0 end.
(** Where the outbound sends its datagrams: the bound address, or the
    resolved server when that is unspecified. *)
(* @src clash-lib/src/proxy/socks/outbound/mod.rs ~    async fn inner_connect_datagram~ Handler::inner_connect_datagram *)
Definition relay_addr (resolve : res (option IpAddr)) (bind_addr : SocksAddr) : res SocketAddr :=
  bind_ip ← ok_or (socks_ip bind_addr) "missing IP in bind address";
  ip ← (if is_unspecified bind_ip then
          r ← resolve; ok_or r "no bind addr returned from server and failed to resolve server address"
        else Ok bind_ip);
  Ok (sa_new ip (socks_port bind_addr)).

(** ** Datagrams *)
(* @src clash-lib/src/proxy/socks/inbound/datagram.rs ~    fn encode\(~ Socks5UDPCodec::encode *)
Definition udp_encode (data : list Z) (addr : SocksAddr) : list Z := write_buf addr [0; 0; 0] ++ data.
(* @src clash-lib/src/proxy/socks/inbound/datagram.rs ~    fn decode\(~ Socks5UDPCodec::decode *)
Definition udp_decode (src : list Z) : res (option (SocksAddr * list Z)) :=
  if zlen src <? 3 then Ok None
  else if negb (default 0 (src !! 2%nat) =? 0) then Err "unsupported FRAG"
  else
    let src := drop 3 src in
    addr ← peek_read src;
    if zlen src <? socks_size addr then Panic
    else Ok (Some (addr, drop (Z.to_nat (socks_size addr)) src)).

(** The item the framed socket yields for a datagram from [src]. *)
(* @src clash-lib/src/proxy/socks/inbound/datagram.rs ~impl Stream for InboundUdp~ InboundUdp::poll_next *)
Definition inbound_next (item : option (res (SocksAddr * list Z * SocketAddr))) : option UdpPacket :=
  match item with
  | Some (Ok (dst, pkt, src)) => Some {| up_data := pkt; up_src_addr := Ip src; up_dst_addr := dst |}
  | _ => None
  end.
(* @src clash-lib/src/proxy/socks/inbound/datagram.rs ~    fn start_send~ InboundUdp::start_send *)
Definition inbound_send (item : UdpPacket) : res (list Z * SocketAddr) :=
  to ← must_into_socket_addr (up_dst_addr item);
  Ok (udp_encode (up_data item) (up_src_addr item), to).
(* @src clash-lib/src/proxy/socks/outbound/datagram.rs ~impl Stream for Socks5Datagram~ Socks5Datagram::poll_next *)
Definition outbound_next (item : option (res (SocksAddr * list Z * SocketAddr))) : option UdpPacket :=
  match item with
  | None => None
  | Some (Ok (src, data, dst)) => Some {| up_data := data; up_src_addr := src; up_dst_addr := Ip dst |}
  | Some _ => Some {| up_data := []; up_src_addr := any_ipv4; up_dst_addr := any_ipv4 |}
  end.
(* @src clash-lib/src/proxy/socks/outbound/datagram.rs ~    fn start_send~ Socks5Datagram::start_send *)
Definition outbound_send (remote : SocketAddr) (item : UdpPacket) : list Z * SocketAddr :=
  (udp_encode (up_data item) (up_dst_addr item), remote).

(** * Theorems *)

(** ** Reading in one go *)

(** Take the reads that the bytes at hand allow. *)
Fixpoint eat {A} (c : Conv A) (inb : list Z) : Conv A * list Z :=
  match c with
  | Recv n k => if (n <=? length inb)%nat then eat (k (take n inb)) (drop n inb) else (c, inb)
  | _ => (c, inb)
  end.
Lemma eat_recv {A} (k : list Z -> Conv A) l rest n : length l = n -> eat (Recv n k) (l ++ rest) = eat (k l) rest.
Proof.
  intros <-. cbn. rewrite length_app. destruct (Nat.leb_spec (length l) (length l + length rest)); [|lia].
  by rewrite take_app_length, drop_app_length.
Qed.
Lemma eat_bytes {A} n (f : list Z -> Conv A) bs l rest : read_bytes n bs = Ok (l, rest) ->
  eat (conv_then f (read_exact n)) bs = eat (f l) rest.
Proof. intros [-> H]%read_bytes_inv. cbn [read_exact conv_then]. by rewrite eat_recv. Qed.
Lemma eat_u {A} n (f : Z -> Conv A) bs z rest : read_uint n bs = Ok (z, rest) ->
  eat (conv_then f (read_u n)) bs = eat (f z) rest.
Proof.
  unfold read_uint. destruct (read_bytes n bs) as [[l r]| |] eqn:E; [|done|done]. intros [= <- <-].
  apply read_bytes_inv in E as [-> H]. exact (eat_recv (fun bs => f (be_val bs)) l r n H).
Qed.
Lemma feed_bytes {A} n (f : list Z -> Conv A) sh bs :
  feed (conv_then f (read_exact n)) sh bs =
  match read_bytes n bs with Ok (l, rest) => feed (f l) sh rest | _ => (Err EOF, [], []) end.
Proof.
  cbn [read_exact conv_then feed]. unfold read_bytes. destruct (Nat.leb_spec n (length bs)).
  - by rewrite decide_True by lia.
  - by rewrite decide_False by lia.
Qed.
Lemma feed_u {A} n (f : Z -> Conv A) sh bs :
  feed (conv_then f (read_u n)) sh bs =
  match read_uint n bs with Ok (z, rest) => feed (f z) sh rest | _ => (Err EOF, [], []) end.
Proof.
  unfold read_uint. cbn [read_u conv_then feed]. unfold read_bytes. destruct (Nat.leb_spec n (length bs)).
  - by rewrite decide_True by lia.
  - by rewrite decide_False by lia.
Qed.

Lemma feed_eat {A} (c : Conv A) sh bs c' bs' : eat c bs = (c', bs') -> feed c sh bs = feed c' sh bs'.
Proof.
  revert bs. induction c as [r|n k IH|k _|x k _|k _]; cbn; intros bs H; try (by injection H as <- <-).
  destruct (n <=? length bs)%nat eqn:E; [by apply IH|]. injection H as <- <-. cbn. by rewrite E.
Qed.
Lemma ends_right_eat {A B} (l : Peer A) (c : Conv B) sh inb out c' inb' t : eat c inb = (c', inb') ->
  ends_as {| left := l; right := {| prog := c'; shut_down := sh |}; to_right := inb'; to_left := out |} t ->
  ends_as {| left := l; right := {| prog := c; shut_down := sh |}; to_right := inb; to_left := out |} t.
Proof.
  revert inb. induction c as [r|n k IH|k _|bs k _|k _]; cbn; intros inb H Ht; try (by simplify_eq).
  destruct (n <=? length inb)%nat eqn:E; [|by simplify_eq].
  eapply ends_right; [unfold right_turn; cbn; rewrite E; reflexivity|]. cbn. rewrite app_nil_r. by apply (IH (take n inb)).
Qed.
Lemma ends_left_eat {A B} (r : Peer B) (c : Conv A) sh inb out c' inb' t : eat c inb = (c', inb') ->
  ends_as {| left := {| prog := c'; shut_down := sh |}; right := r; to_right := out; to_left := inb' |} t ->
  ends_as {| left := {| prog := c; shut_down := sh |}; right := r; to_right := out; to_left := inb |} t.
Proof.
  revert inb. induction c as [x|n k IH|k _|bs k _|k _]; cbn; intros inb H Ht; try (by simplify_eq).
  destruct (n <=? length inb)%nat eqn:E; [|by simplify_eq].
  eapply ends_left; [unfold left_turn; cbn; rewrite E; reflexivity|]. cbn. rewrite app_nil_r. by apply (IH (take n inb)).
Qed.


Lemma eat_then {A B} (f : B -> Conv A) (c : Conv B) bs b rest : eat c bs = (Finish (Ok b), rest) -> eat (conv_then f c) bs = eat (f b) rest.
Proof.
  revert bs. induction c as [r|n k IH|k _|x k _|k _]; cbn; intros bs H; try done; [by injection H as -> ->|].
  destruct (n <=? length bs)%nat; [by apply IH|done].
Qed.

(** The reads of [recv_addr], under what follows them. *)
Lemma feed_u_in {A B} n (g : Z -> Conv B) (f : B -> Conv A) sh bs :
  feed (conv_then f (conv_then g (read_u n))) sh bs =
  match read_uint n bs with Ok (z, rest) => feed (conv_then f (g z)) sh rest | _ => (Err EOF, [], []) end.
Proof. exact (feed_u n (fun z => conv_then f (g z)) sh bs). Qed.
Lemma feed_bytes_in {A B} n (g : list Z -> Conv B) (f : B -> Conv A) sh bs :
  feed (conv_then f (conv_then g (read_exact n))) sh bs =
  match read_bytes n bs with Ok (l, rest) => feed (conv_then f (g l)) sh rest | _ => (Err EOF, [], []) end.
Proof. exact (feed_bytes n (fun z => conv_then f (g z)) sh bs). Qed.

Lemma read_bytes_zlen n bs l rest : 0 <= n -> read_bytes (Z.to_nat n) bs = Ok (l, rest) -> (zlen l =? n) = true.
Proof. intros Hn [_ H]%read_bytes_inv. unfold zlen. rewrite H. apply Z.eqb_eq. lia. Qed.

Lemma recv_addr_ok bs a rest : read_from bs = Ok (a, rest) ->
  eat recv_addr bs = (Finish (Ok a), rest).
Proof.
  unfold read_from, recv_addr. cbn [mbind conv_bind]. rewrite res_bind_ok. intros ([atyp r] & H & Hk). rewrite (eat_u _ _ _ _ _ H).
  destruct (atyp =? ATYP_V4); [|destruct (atyp =? ATYP_V6); [|destruct (atyp =? ATYP_DOMAIN); [|done]]].
  - apply res_bind_ok in Hk as ([ip r1] & H1 & Hk). apply res_bind_ok in Hk as ([port r2] & H2 & Hk). injection Hk as <- <-.
    by rewrite (eat_u _ _ _ _ _ H1), (eat_u _ _ _ _ _ H2).
  - apply res_bind_ok in Hk as ([ip r1] & H1 & Hk). apply res_bind_ok in Hk as ([port r2] & H2 & Hk). injection Hk as <- <-.
    by rewrite (eat_u _ _ _ _ _ H1), (eat_u _ _ _ _ _ H2).
  - apply res_bind_ok in Hk as ([n r1] & H1 & Hk). apply res_bind_ok in Hk as ([l r2] & H2 & Hk).
    rewrite (eat_u _ _ _ _ _ H1), (eat_bytes _ _ _ _ _ H2). destruct (negb _); [done|].
    destruct (from_utf8 l); [|done]. apply res_bind_ok in Hk as ([port r3] & H3 & Hk). injection Hk as <- <-.
    by rewrite (eat_u _ _ _ _ _ H3).
Qed.

Lemma recv_addr_inv {A} (f : SocksAddr -> Conv A) sh bs v rest' out : Forall u8 bs ->
  feed (conv_then f recv_addr) sh bs = (Ok v, rest', out) ->
  exists a rest, read_from bs = Ok (a, rest) /\ feed (f a) sh rest = (Ok v, rest', out).
Proof.
  intros H8. unfold read_from, recv_addr. cbn [mbind conv_bind]. rewrite feed_u_in. destruct (read_uint 1 bs) as [[atyp r]| |] eqn:E0; [|done|done].
  rstep. destruct (read_uint_inv _ _ _ _ H8 E0) as (_ & _ & Hr).
  destruct (atyp =? ATYP_V4); [|destruct (atyp =? ATYP_V6); [|destruct (atyp =? ATYP_DOMAIN); [|done]]].
  - rewrite feed_u_in. destruct (read_uint 4 r) as [[ip r1]| |]; [|done|done]. rewrite feed_u_in. rstep.
    destruct (read_uint 2 r1) as [[port r2]| |]; [|done|done]. rstep. eauto.
  - rewrite feed_u_in. destruct (read_uint 16 r) as [[ip r1]| |]; [|done|done]. rewrite feed_u_in. rstep.
    destruct (read_uint 2 r1) as [[port r2]| |]; [|done|done]. rstep. eauto.
  - rewrite feed_u_in. destruct (read_uint 1 r) as [[n r1]| |] eqn:E1; [|done|done]. rewrite feed_bytes_in. rstep.
    destruct (read_bytes (Z.to_nat n) r1) as [[l r2]| |] eqn:E2; [|done|done]. rstep.
    destruct (read_uint_inv _ _ _ _ Hr E1) as (_ & [Hn _] & _).
    rewrite (read_bytes_zlen n r1 l r2) by done. cbn [negb]. destruct (from_utf8 l); [|done]. rewrite feed_u_in.
    destruct (read_uint 2 r2) as [[port r3]| |]; [|done|done]. rstep. eauto.
Qed.

Lemma clone_wf a : wf_socks a -> exists a', socks_clone a = Ok a'.
Proof.
  destruct a as [sa|d p]; cbn [wf_socks socks_clone]; [by eexists|]. intros (_ & Hl & _). unfold try_from_host_port.
  destruct (parse_ip d); [by eexists|]. destruct (Z.ltb_spec 0xff (str_len d)); [lia|by eexists].
Qed.
Lemma wire_wf a : wf_socks a -> wf_socks (wire a).
Proof. destruct a as [[]|]; cbn; try done. intros (? & ? & _). by split_and!. Qed.

(** The client may use the server: no users and no credentials, or the
    credentials of a user. *)
Definition authorised (us : list User) (creds : option (str * str)) : bool :=
  match creds with
  | None => bool_decide (us = [])
  | Some (u, p) => bool_decide (us <> []) && bool_decide (last_password us (utf8 u) = Some (utf8 p))
  end.
Definition creds_fit (creds : option (str * str)) : Prop :=
  match creds with
  | None => True
  | Some (u, p) => 1 <= str_len u <= 255 /\ str_len p <= 255
  end.

Ltac lturn := eapply ends_left; [reflexivity|]; cbn [prog shut_down to_left to_right left right].
Ltac rturn := eapply ends_right; [reflexivity|]; cbn [prog shut_down to_left to_right left right].

Section handshake.
Context (us : list User) (sess : Session) (dst : SocksAddr) (local : SocketAddr) (udp_local : res SocketAddr) (now counter : Z).
Hypothesis Hdst : wf_socks dst.
Hypothesis Hlocal : wf_sa local.

Let server : Conv Served := handle_tcp (authenticator_new us) sess (Ok local) udp_local now counter.
Let requests : Conv Served := serve_request sess (Ok local) udp_local now counter.
(** The client when it has sent its request. *)
Let awaits : Conv SocksAddr := head ← read_exact 3;
  if negb (default 0 (head !! 0%nat) =? SOCKS5_VERSION) then throw (Err "unsupported SOCKS version")
  else if negb (default 0 (head !! 1%nat) =? SUCCEEDED) then throw (Err (reply_error (default 0 (head !! 1%nat))))
  else recv_addr.
Let connected (sess' : Session) : Net SocksAddr Served := {|
  left := {| prog := Finish (Ok (wire (Ip local))); shut_down := false |};
  right := {| prog := Finish (Ok (Connect sess')); shut_down := false |}; to_right := []; to_left := [] |}.

Lemma request_eaten sess' : session_clone (set_destination (wire dst) sess) = Ok sess' ->
  eat requests (write_buf dst [5; CONNECT; 0]) = (Send (write_buf (Ip local) [5; SUCCEEDED; 0]) (Finish (Ok (Connect sess'))), []).
Proof.
  intros Hs. rewrite write_buf_app. unfold requests, serve_request. cbn [mbind conv_bind].
  rewrite (eat_bytes _ _ _ [5; CONNECT; 0] (write_buf dst [])) by (apply (read_bytes_app [5; CONNECT; 0])). cbn [lookup list_lookup default id].
  change (negb (5 =? SOCKS5_VERSION)) with false. cbv iota.
  rewrite (eat_then _ _ _ (wire dst) []) by (apply recv_addr_ok; rewrite <- (app_nil_r (write_buf dst [])); by apply read_from_write_buf).
  cbn. by rewrite Hs.
Qed.
Lemma reply_eaten : eat awaits (write_buf (Ip local) [5; SUCCEEDED; 0]) = (Finish (Ok (wire (Ip local))), []).
Proof.
  rewrite write_buf_app. unfold awaits. cbn [mbind conv_bind].
  rewrite (eat_bytes _ _ _ [5; SUCCEEDED; 0] (write_buf (Ip local) [])) by (apply (read_bytes_app [5; SUCCEEDED; 0])).
  cbn [lookup list_lookup default id]. change (negb (5 =? SOCKS5_VERSION)) with false. change (negb (SUCCEEDED =? SUCCEEDED)) with false. cbv iota.
  apply recv_addr_ok. rewrite <- (app_nil_r (write_buf (Ip local) [])). by apply read_from_write_buf.
Qed.
Lemma request_connects sess' : session_clone (set_destination (wire dst) sess) = Ok sess' ->
  ends_as {| left := {| prog := awaits; shut_down := false |}; right := {| prog := requests; shut_down := false |};
             to_right := write_buf dst [5; CONNECT; 0]; to_left := [] |} (connected sess').
Proof.
  intros Hs. eapply ends_right_eat; [by apply request_eaten|]. eapply ends_right; [reflexivity|]. cbn [prog shut_down to_left to_right left right app].
  eapply ends_left_eat; [by apply reply_eaten|]. by apply ends_here.
Qed.

Lemma no_auth_connects sess' : us = [] -> session_clone (set_destination (wire dst) sess) = Ok sess' ->
  ends_as (connect (client_handshake dst CONNECT None None) server) (connected sess').
Proof.
  intros Hu Hs. unfold server, connect. rewrite Hu. lturn. rturn. rturn. rturn. lturn. lturn. by apply request_connects.
Qed.
Lemma auth_unsupported u p : us = [] -> exists e1 e2 x,
  ends_as (connect (client_handshake dst CONNECT (Some u) (Some p)) server)
    {| left := {| prog := Finish (Err e1); shut_down := false |}; right := {| prog := Finish (Err e2); shut_down := true |}; to_right := x; to_left := [] |}.
Proof.
  intros Hu. eexists _, _, _. unfold server, connect. rewrite Hu. lturn. rturn. rturn. rturn. rturn. lturn. by apply ends_here.
Qed.

Hypothesis Hus : us <> [].
Lemma auth_on : enabled (authenticator_new us) = true.
Proof. rewrite enabled_spec. by rewrite bool_decide_eq_false_2. Qed.

Lemma auth_missing : exists e1 e2 x,
  ends_as (connect (client_handshake dst CONNECT None None) server)
    {| left := {| prog := Finish (Err e1); shut_down := false |}; right := {| prog := Finish (Err e2); shut_down := true |}; to_right := x; to_left := [] |}.
Proof.
  eexists _, _, _. unfold server, connect. lturn. rturn.
  eapply ends_right; [unfold right_turn; cbn -[serve_auth]; unfold serve_auth; rewrite auth_on; reflexivity|].
  cbn [prog shut_down to_left to_right left right]. rturn. rturn. lturn. by apply ends_here.
Qed.

(** What the server reads after it asked for credentials. *)
Let checks : Conv Served :=
  conv_then (fun _ => requests)
   (head ← read_exact 2;
    let ulen := default 0 (head !! 1%nat) in
    user ← read_exact (Z.to_nat ulen);
    if ulen =? 0 then throw Panic
    else
      plen ← read_u 1;
      pass ← read_exact (Z.to_nat plen);
      if authenticate (authenticator_new us) user pass then write_all [1; SUCCEEDED]
      else _ ← write_all [1; FAILURE]; _ ← shutdown; throw (Err "auth failure")).
Lemma credentials_eaten u p : 1 <= str_len u <= 255 -> str_len p <= 255 ->
  eat checks (credentials u p) =
    (if bool_decide (last_password us (utf8 u) = Some (utf8 p)) then Send [1; SUCCEEDED] requests
     else Send [1; FAILURE] (Shut (Finish (Err "auth failure"))), []).
Proof.
  intros Hu Hp. assert (0 <= str_len p) by apply zlen_nonneg. unfold credentials. rewrite !wrap_small by (split; lia).
  unfold checks. cbn [mbind conv_bind read_exact read_u conv_then]. rewrite eat_recv by done. cbn [lookup list_lookup default id conv_then mret conv_ret].
  rewrite eat_recv by (unfold str_len, zlen; lia). destruct (Z.eqb_spec (str_len u) 0); [lia|]. cbn [conv_then mret conv_ret].
  rewrite (eat_recv _ [str_len p]) by done. cbn [conv_then mret conv_ret]. rewrite <- (app_nil_r (utf8 p)).
  change (be_val [str_len p]) with (str_len p). rewrite eat_recv by (unfold str_len, zlen; lia). rewrite authenticate_spec, app_nil_r.
  by case_bool_decide.
Qed.

Lemma auth_checked sess' u p : 1 <= str_len u <= 255 -> str_len p <= 255 -> session_clone (set_destination (wire dst) sess) = Ok sess' ->
  exists t, ends_as (connect (client_handshake dst CONNECT (Some u) (Some p)) server) t /\
    if bool_decide (last_password us (utf8 u) = Some (utf8 p)) then t = connected sess'
    else (exists e1 e2, prog (left t) = Finish (Err e1) /\ prog (right t) = Finish (Err e2)).
Proof.
  intros Hu Hp Hs. pose proof (credentials_eaten u p Hu Hp) as He. case_bool_decide as Hl.
  - exists (connected sess'). split; [|done]. unfold server, connect. lturn. rturn.
    eapply ends_right; [unfold right_turn; cbn -[serve_auth]; unfold serve_auth; rewrite auth_on; reflexivity|].
    cbn [prog shut_down to_left to_right left right]. rturn. lturn. lturn. eapply ends_right_eat; [exact He|].
    rturn. lturn. lturn. by apply request_connects.
  - eexists. split.
    + unfold server, connect. lturn. rturn.
      eapply ends_right; [unfold right_turn; cbn -[serve_auth]; unfold serve_auth; rewrite auth_on; reflexivity|].
      cbn [prog shut_down to_left to_right left right]. rturn. lturn. lturn. eapply ends_right_eat; [exact He|].
      rturn. rturn. lturn. by apply ends_here.
    + by eexists _, _.
Qed.
End handshake.

(** C25: Client and server of the program understand each other, in whatever
    order the two run.  With no users and no credentials, or with the
    credentials of a user, every execution ends with the client knowing the
    server's address, the server dispatching a session to the requested
    destination, and nothing left on the connection; otherwise every
    execution ends with an error on both sides. *)
Theorem socks5_handshake us creds sess dst local udp_local now counter
    (Hd : wf_socks dst) (Hl : wf_sa local) (Hc : creds_fit creds) :
  exists sess' t, session_clone (set_destination (wire dst) sess) = Ok sess' /\
    ends_as (connect (client_handshake dst CONNECT (fst <$> creds) (snd <$> creds))
                     (handle_tcp (authenticator_new us) sess (Ok local) udp_local now counter)) t /\
    if authorised us creds then
      t = {| left := {| prog := Finish (Ok (wire (Ip local))); shut_down := false |};
             right := {| prog := Finish (Ok (Connect sess')); shut_down := false |}; to_right := []; to_left := [] |}
    else exists e1 e2, prog (left t) = Finish (Err e1) /\ prog (right t) = Finish (Err e2).
Proof.
  assert (exists sess', session_clone (set_destination (wire dst) sess) = Ok sess') as (sess' & Hs).
  { destruct (clone_wf (wire dst)) as (a' & Ha); [by apply wire_wf|]. unfold session_clone. cbn [set_destination destination]. rewrite Ha. by eexists. }
  exists sess'. unfold authorised, creds_fit in *. destruct creds as [[u p]|]; cbn [fmap option_fmap option_map fst snd].
  - destruct Hc as [Hu Hp]. destruct (decide (us = [])) as [->|Hne].
    + rewrite bool_decide_eq_false_2 by naive_solver. cbn [andb].
      destruct (auth_unsupported [] sess dst local udp_local now counter u p eq_refl) as (e1 & e2 & x & He). eexists. split_and!; [done|exact He|by eexists _, _].
    + rewrite bool_decide_eq_true_2 by done. cbn [andb].
      destruct (auth_checked us sess dst local udp_local now counter Hd Hl Hne sess' u p Hu Hp Hs) as (t & Ht & Hr). by exists t.
  - case_bool_decide as Hne.
    + eexists. split_and!; [done| |done]. by apply no_auth_connects.
    + destruct (auth_missing us sess dst local udp_local now counter Hne) as (e1 & e2 & x & He). eexists. split_and!; [done|exact He|by eexists _, _].
Qed.

(** ** Any client *)
Lemma feed_write {A} bs (f : unit -> Conv A) inb v rest out :
  feed (conv_then f (write_all bs)) false inb = (Ok v, rest, out) ->
  exists out', out = bs ++ out' /\ feed (f tt) false inb = (Ok v, rest, out').
Proof. cbn. destruct (feed (f tt) false inb) as [[]] eqn:E. intros [= <- <- <-]. eauto. Qed.
Lemma feed_exact_inv {A} n (f : list Z -> Conv A) sh inb v rest out :
  feed (conv_then f (read_exact n)) sh inb = (Ok v, rest, out) ->
  exists l inb', inb = l ++ inb' /\ length l = n /\ feed (f l) sh inb' = (Ok v, rest, out).
Proof.
  rewrite feed_bytes. destruct (read_bytes n inb) as [[l r]| |] eqn:E; [|done|done]. apply read_bytes_inv in E as [-> H]. eauto.
Qed.
Lemma length_2 (l : list Z) : length l = 2%nat -> exists a b, l = [a; b].
Proof. destruct l as [|a [|b [|]]]; try done. eauto. Qed.
Lemma length_3 (l : list Z) : length l = 3%nat -> exists a b c, l = [a; b; c].
Proof. destruct l as [|a [|b [|c [|]]]]; try done. eauto. Qed.

(** What was read for a user before the server went on. *)
Definition credential_bytes (ver : Z) (user pass : list Z) : list Z := [ver; zlen user] ++ user ++ [zlen pass] ++ pass.

Lemma serve_auth_inv {A} us methods (f : unit -> Conv A) inb v rest out : us <> [] -> Forall u8 inb ->
  feed (conv_then f (serve_auth (authenticator_new us) methods)) false inb = (Ok v, rest, out) ->
  exists ver user pass inb' out', inb = credential_bytes ver user pass ++ inb' /\ last_password us user = Some pass /\ USER_PASS ∈ methods /\
    feed (f tt) false inb' = (Ok v, rest, out') /\ out = [SOCKS5_VERSION; USER_PASS; 1; SUCCEEDED] ++ out'.
Proof.
  intros Hus H8. unfold serve_auth. rewrite auth_on by done. case_bool_decide as Hm; cbn [negb]; [|intros H; exfalso; revert H; cbn; done].
  intros H. apply (feed_write _ (fun _ => _)) in H as (out1 & -> & H).
  apply (feed_exact_inv 2 (fun _ => _)) in H as (h & inb1 & -> & Hh & H). apply length_2 in Hh as (ver & ulen & ->). cbn [lookup list_lookup default id] in H.
  apply Forall_app in H8 as [Hh8 H8]. assert (u8 ulen) as Hu by (by apply Forall_cons in Hh8 as [_ Hh8]; apply Forall_cons in Hh8 as [Hh8 _]).
  apply (feed_exact_inv _ (fun _ => _)) in H as (user & inb2 & -> & Hul & H). destruct (Z.eqb_spec ulen 0); [done|].
  apply Forall_app in H8 as [Hu8 H8]. rewrite (feed_u_in 1 (fun plen => pass ← read_exact (Z.to_nat plen); _)) in H.
  destruct (read_uint 1 inb2) as [[plen inb3]| |] eqn:E; [|done|done]. apply read_uint_inv in E as (-> & Hp & H83); [|done].
  apply (feed_exact_inv _ (fun _ => _)) in H as (pass & inb4 & -> & Hpl & H). rewrite authenticate_spec in H.
  case_bool_decide as Ha; [|exfalso; revert H; cbn; done]. apply (feed_write _ f) in H as (out2 & -> & H).
  exists ver, user, pass, inb4, out2. split_and!; [|done|done|done|done]. unfold credential_bytes, u8, in_width in *.
  replace (zlen user) with ulen by (unfold zlen; lia). replace (zlen pass) with plen by (unfold zlen; lia).
  rewrite <- !app_assoc. cbn [app]. do 3 f_equal.
  change (be_bytes 1 plen) with [wrap 8 (Z.shiftr plen 0)]. rewrite Z.shiftr_0_r, wrap_small by (unfold in_width; cbn in Hp; lia). done.
Qed.

(** C26: Whatever a client sends, a server with users serves it only after it
    presented the name and password of a user: the bytes are a greeting that
    offers the password method, the credentials, and a request, and what the
    server does is the request's command on the address in it. *)
Theorem socks5_auth_required us sess local udp_local now counter bs served rest out
    (Hus : us <> []) (H8 : Forall u8 bs)
    (Hf : feed (handle_tcp (authenticator_new us) sess (Ok local) udp_local now counter) false bs = (Ok served, rest, out)) :
  exists methods ver user pass cmd rsv dst tail,
    bs = [SOCKS5_VERSION; zlen methods] ++ methods ++ credential_bytes ver user pass ++ [SOCKS5_VERSION; cmd; rsv] ++ write_buf dst [] ++ tail /\
    USER_PASS ∈ methods /\ last_password us user = Some pass /\
    ((cmd = CONNECT /\ rest = tail /\ out = [SOCKS5_VERSION; USER_PASS; 1; SUCCEEDED] ++ write_buf (Ip local) [SOCKS5_VERSION; SUCCEEDED; 0] /\
      exists sess', session_clone (set_destination dst sess) = Ok sess' /\ served = Connect sess') \/
     (cmd = UDP_ASSOCIATE /\ served = Associate (udp_session sess now counter))).
Proof.
  unfold handle_tcp in Hf. cbn [mbind conv_bind] in Hf. apply feed_exact_inv in Hf as (h & inb1 & -> & Hh & Hf).
  apply length_2 in Hh as (v & n & ->). cbn [lookup list_lookup default id] in Hf. destruct (Z.eqb_spec v SOCKS5_VERSION) as [->|]; [|done].
  cbn [negb] in Hf. destruct (Z.eqb_spec n 0); [done|]. apply feed_exact_inv in Hf as (methods & inb2 & -> & Hm & Hf).
  assert (Forall u8 [SOCKS5_VERSION; n] /\ Forall u8 inb2) as [Hn8 H82] by (by rewrite !Forall_app in H8; naive_solver).
  apply serve_auth_inv in Hf as (ver & user & pass & inb3 & out1 & -> & Hp & Hmem & Hf & ->); [|done|done].
  assert (Forall u8 inb3) as H83 by (by apply Forall_app in H82 as [_ ?]).
  unfold serve_request in Hf. cbn [mbind conv_bind] in Hf. apply feed_exact_inv in Hf as (rq & inb4 & -> & Hrq & Hf).
  apply length_3 in Hrq as (v & cmd & rsv & ->). cbn [lookup list_lookup default id] in Hf. destruct (Z.eqb_spec v SOCKS5_VERSION) as [->|]; [|done].
  cbn [negb] in Hf. assert (Forall u8 inb4) as H84 by (by apply Forall_app in H83 as [_ ?]).
  apply recv_addr_inv in Hf as (dst & tail & Hdst & Hf); [|done]. destruct (read_from_inv _ _ _ H84 Hdst) as (-> & _ & _).
  exists methods, ver, user, pass, cmd, rsv, dst, tail.
  assert (n = zlen methods) as -> by (unfold zlen; apply Forall_cons in Hn8 as [_ Hn8]; apply Forall_cons in Hn8 as [[? ?] _]; lia).
  split_and!; [done|done|done|]. revert Hf. destruct (Z.eqb_spec cmd CONNECT) as [->|]; [|destruct (Z.eqb_spec cmd UDP_ASSOCIATE) as [->|]].
  - cbn. destruct (session_clone _) as [sess'| |] eqn:Es; cbn; [|done|done]. intros [= <- <- <-]. left. rewrite app_nil_r. eauto 10.
  - cbn. destruct udp_local; [|done|done]. cbn. intros H. right. split; [done|]. by simplify_eq.
  - intros H. exfalso. revert H. cbn. done.
Qed.

(** ** Datagrams *)
(** What the codec writes it reads back. *)
Lemma udp_codec_roundtrip data a : wf_socks a -> udp_decode (udp_encode data a) = Ok (Some (wire a, data)).
Proof.
  intros Ha. unfold udp_encode, udp_decode. rewrite write_buf_app, <- app_assoc. cbn [app lookup list_lookup default id drop skipn].
  destruct (Z.ltb_spec (zlen (0 :: 0 :: 0 :: write_buf a [] ++ data)) 3) as [Hl|]; [unfold zlen in Hl; cbn [length] in Hl; lia|].
  change (negb (0 =? 0)) with false. cbv iota. rewrite drop_0. unfold peek_read. rewrite peek_cursor_write_buf by done. rstep.
  assert (socks_size (wire a) = zlen (write_buf a [])) as -> by (rewrite write_buf_size; by destruct a as [[]|]).
  destruct (Z.ltb_spec (zlen (write_buf a [] ++ data)) (zlen (write_buf a []))) as [Hl|]; [unfold zlen in Hl; rewrite length_app in Hl; lia|].
  unfold zlen. by rewrite Nat2Z.id, drop_app_length.
Qed.

(** A datagram that does not decode ends the association: the stream of
    packets is over for its peer. *)
Lemma bad_datagram_ends_association e : inbound_next (Some (Err e)) = None.
Proof. done. Qed.
(** One that is cut inside its address panics. *)
Lemma cut_datagram_panics : udp_decode [0; 0; 0; 3; 1; 97; 0] = Panic.
Proof. reflexivity. Qed.
(** A user name of length zero panics, before the password is looked at. *)
Lemma empty_username_panics us sess local udp_local now counter : us <> [] ->
  fst (fst (feed (handle_tcp (authenticator_new us) sess local udp_local now counter) false [5; 1; 2; 1; 0])) = Panic.
Proof. intros H. cbn -[serve_auth]. unfold serve_auth. by rewrite auth_on. Qed.
(** Asking for an association with a name as destination panics. *)
Lemma associate_domain_panics : request_addr (Domain (lit "example.com") 53) UDP_ASSOCIATE = Panic.
Proof. vm_compute. reflexivity. Qed.

Definition demo_users : list User := [{| user_name := lit "bob"; user_password := lit "pw" |}].
Lemma socks5_handshake_witness :
  exists sess' t, session_clone (set_destination (wire (Domain (lit "a.b") 443)) (session_default 1 0).1) = Ok sess' /\
    ends_as (connect (client_handshake (Domain (lit "a.b") 443) CONNECT (Some (lit "bob")) (Some (lit "pw")))
                     (handle_tcp (authenticator_new demo_users) (session_default 1 0).1 (Ok (SV4 1 1080)) (Ok (SV4 1 9)) 0 2)) t /\
    prog (left t) = Finish (Ok (Ip (SV4 1 1080))).
Proof.
  destruct (socks5_handshake demo_users (Some (lit "bob", lit "pw")) (session_default 1 0).1 (Domain (lit "a.b") 443) (SV4 1 1080) (Ok (SV4 1 9)) 0 2)
    as (sess' & t & H1 & H2 & H3).
  - split; [|split]; [by repeat constructor|vm_compute; by intros|split; vm_compute; by intros].
  - split; split; vm_compute; by intros.
  - split; [split|]; vm_compute; by intros.
  - exists sess', t. split; [exact H1|split; [exact H2|]].
    assert (authorised demo_users (Some (lit "bob", lit "pw")) = true) as Ha by (vm_compute; reflexivity). rewrite Ha in H3. by rewrite H3.
Defined.
Lemma socks5_auth_required_witness : exists methods ver user pass cmd rsv dst tail,
  [5; 1; 2; 1; 3; 98; 111; 98; 2; 112; 119; 5; 1; 0; 1; 10; 0; 0; 1; 0; 80; 7] =
    [SOCKS5_VERSION; zlen methods] ++ methods ++ credential_bytes ver user pass ++ [SOCKS5_VERSION; cmd; rsv] ++ write_buf dst [] ++ tail /\
  last_password demo_users user = Some pass.
Proof.
  destruct (socks5_auth_required demo_users (session_default 1 0).1 (SV4 1 1080) (Ok (SV4 1 9)) 0 2
    [5; 1; 2; 1; 3; 98; 111; 98; 2; 112; 119; 5; 1; 0; 1; 10; 0; 0; 1; 0; 80; 7]
    (Connect (set_destination (Ip (SV4 0x0a000001 80)) (session_default 1 0).1)) [7]
    ([5; 2; 1; 0] ++ [5; 0; 0; 1; 0; 0; 0; 1; 4; 56])) as (m & ver & u & p & cmd & rsv & dst & tail & H & _ & Hp & _).
  - done.
  - repeat constructor; vm_compute; by intros.
  - vm_compute. reflexivity.
  - by exists m, ver, u, p, cmd, rsv, dst, tail.
Defined.
