(* ===== verification/Trojan.v ===== *)
(** * Trojan ([proxy/trojan/{mod,inbound,datagram}.rs])

    The request an outbound sends, the inbound that accepts it (over TLS and
    over QUIC streams), the inbound's QUIC stream table, and the framing of
    datagrams in a stream.  The futures of the datagram reader and writer are
    made anew on every poll, so those two are modelled poll by poll over
    [Async]; the handshake awaits its reads and is a conversation. *)

From S2P Require Import Prelude Str Net Session Crypto Async Conv Inbound Socks5.

Section trojan.
Context {CL : CryptoLib}.

Definition CRLF : list Z := [13; 10].
Definition password_hash (password : str) : str := encode_hex (sha224 (utf8 password)).

(** ** The outbound *)
(* @src clash-lib/src/proxy/trojan/mod.rs ~^pub struct HandlerOptions~ HandlerOptions *)
Record HandlerOptions : Type := {
  ho_name : str; ho_server : str; ho_port : Z; ho_password : str; ho_udp : bool;
  ho_quic_client : bool; ho_tquic_client : bool;
}.

(** The bytes [inner_proxy_stream] writes once TLS and the transport are set up. *)
(* @src clash-lib/src/proxy/trojan/mod.rs ~    async fn inner_proxy_stream~ Handler::inner_proxy_stream *)
Definition request (password : str) (destination : SocksAddr) (udp : bool) : list Z :=
  write_buf destination (utf8 (password_hash password) ++ CRLF ++ [if udp then 3 else 1]) ++ CRLF.

(** How the stream to the server is opened. *)
Inductive Carrier : Type :=
| ViaQuic
| ViaTquic (server : str) (port : Z) (sni : str) (alpn : list str)
| ViaConnector (server : str) (port : Z) (ifc : option OutboundInterface) (mark : option Z).
(* @src clash-lib/src/proxy/trojan/mod.rs 181 205 Handler::connect_stream_with_connector (carrier) *)
Definition carrier (o : HandlerOptions) (sess : Session) : Carrier :=
  if ho_quic_client o then ViaQuic
  else if ho_tquic_client o then ViaTquic (ho_server o) (ho_port o) (ho_server o) [lit "h3"]
  else ViaConnector (ho_server o) (ho_port o) (iface sess) (so_mark sess).

(* @src clash-lib/src/proxy/trojan/mod.rs ~    async fn connect_stream_with_connector~ Handler::connect_stream_with_connector *)
Definition connect_stream (o : HandlerOptions) (sess : Session) : Conv (list str) :=
  _ ← write_all (request (ho_password o) (destination sess) false);
  mret [ho_name o].

(** ** The inbound *)

(** [String::from_utf8_lossy] puts U+FFFD where the bytes are not UTF-8, so
    it equals a string of hexadecimal digits only if the bytes are that
    string's. *)
Definition hash_matches (hash : list Z) (expected : str) : bool := bool_decide (from_utf8 hash = Some expected).

Definition trojan_session (now counter : Z) (src : SocketAddr) (mark : option Z) (dst : SocksAddr) : Session :=
  set_destination dst (default_session now counter TTrojan src mark).

(* @src clash-lib/src/proxy/trojan/inbound.rs ~^async fn handle_trojan_stream~ handle_trojan_stream *)
Definition handle_trojan_stream (password : str) (fw_mark : option Z) (src_addr : SocketAddr) (now counter : Z) : Conv Session :=
  buf ← read_exact 58;
  if negb (bool_decide (drop 56 buf = CRLF)) then throw (Err "invalid trojan header: CRLF missing")
  else if negb (hash_matches (take 56 buf) (password_hash password)) then throw (Err "trojan auth failed")
  else
    cmd ← read_u 1;
    if negb (cmd =? 1) then throw (Err "unsupported trojan command")
    else
      addr ← recv_addr;
      crlf ← read_exact 2;
      if negb (bool_decide (crlf = CRLF)) then throw (Err "invalid trojan header: CRLF missing after address")
      else mret (trojan_session now counter src_addr fw_mark addr).

(** The accept loop over TLS: a failed check of the peer goes on to the next
    connection, an error of [local_addr] or of the options ends the loop. *)
(* @src clash-lib/src/proxy/trojan/inbound.rs ~    async fn listen_tcp~ TrojanInbound::listen_tcp *)
Definition trojan_accept (allow_lan : bool) (password : str) (fw_mark : option Z) (tls : res unit) (now counter : Z)
    (accepted : res Accepted) : res (option (Conv Session)) :=
  c ← accepted;
  match ac_peer c with
  | Panic => Panic
  | Err _ => Ok None
  | Ok peer =>
    let src_addr := to_canonical peer in
    refused ← from_lan allow_lan src_addr c;
    if (refused : bool) then Ok None
    else
      _ ← ac_options c;
      Ok (Some (_ ← throw tls; handle_trojan_stream password fw_mark src_addr now counter))
  end.

(* @src clash-lib/src/proxy/trojan/inbound.rs ~    fn handle_udp\(&self\)~ TrojanInbound::handle_udp *)
Definition handle_udp (network : option str) : bool := bool_decide (network = Some (lit "tquic")).

(** ** Streams of the QUIC inbound

    [streams] holds the sender of every open stream's channel; the task of a
    stream owns the receiver.  A channel is its queue and whether a sender is
    left; tasks are numbered as they are spawned. *)
(* @src clash-lib/src/proxy/trojan/inbound.rs ~^enum Cmd~ Cmd *)
Inductive Cmd : Type :=
| WriteStream (conn_id stream_id : Z) (data : list Z) (fin : bool)
| CloseStream (conn_id stream_id : Z).
(* @src clash-lib/src/proxy/trojan/inbound.rs ~^struct TQuicInboundStream~ TQuicInboundStream *)
Record TQuicInboundStream : Type := {
  ti_conn_id : Z; ti_stream_id : Z; ti_rx : list (list Z); ti_open : bool; ti_buffer : list Z;
  ti_cmds : list Cmd; ti_driver : bool;
}.
(* @src clash-lib/src/proxy/trojan/inbound.rs ~^struct ServerHandler~ ServerHandler *)
Record ServerHandler : Type := { sh_streams : gmap (Z * Z) nat; sh_tasks : list TQuicInboundStream }.

Definition set_rx (q : list (list Z)) (b : list Z) (t : TQuicInboundStream) : TQuicInboundStream := {|
  ti_conn_id := ti_conn_id t; ti_stream_id := ti_stream_id t; ti_rx := q; ti_open := ti_open t; ti_buffer := b;
  ti_cmds := ti_cmds t; ti_driver := ti_driver t |}.
Definition drop_sender (t : TQuicInboundStream) : TQuicInboundStream := {|
  ti_conn_id := ti_conn_id t; ti_stream_id := ti_stream_id t; ti_rx := ti_rx t; ti_open := false; ti_buffer := ti_buffer t;
  ti_cmds := ti_cmds t; ti_driver := ti_driver t |}.
Definition push_cmd (c : Cmd) (t : TQuicInboundStream) : TQuicInboundStream := {|
  ti_conn_id := ti_conn_id t; ti_stream_id := ti_stream_id t; ti_rx := ti_rx t; ti_open := ti_open t; ti_buffer := ti_buffer t;
  ti_cmds := ti_cmds t ++ [c]; ti_driver := ti_driver t |}.

(* @src clash-lib/src/proxy/trojan/inbound.rs ~^impl AsyncRead for TQuicInboundStream~ TQuicInboundStream::poll_read *)
Definition tquic_poll_read (cap : nat) (t : TQuicInboundStream) : Poll (res (list Z)) * TQuicInboundStream :=
  match ti_buffer t, ti_rx t with
  | _ :: _, _ => (Ready (Ok (take cap (ti_buffer t))), set_rx (ti_rx t) (drop cap (ti_buffer t)) t)
  | [], data :: rx => (Ready (Ok (take cap data)), set_rx rx (drop cap data) t)
  | [], [] => if ti_open t then (Pending, t) else (Ready (Ok []), t)
  end.
(* @src clash-lib/src/proxy/trojan/inbound.rs ~    fn poll_write\(~ TQuicInboundStream::poll_write *)
Definition tquic_poll_write (buf : list Z) (t : TQuicInboundStream) : Poll (res nat) * TQuicInboundStream :=
  if ti_driver t then (Ready (Ok (length buf)), push_cmd (WriteStream (ti_conn_id t) (ti_stream_id t) buf false) t)
  else (Ready (Err "driver closed"), t).
(* @src clash-lib/src/proxy/trojan/inbound.rs ~    fn poll_shutdown\(~ TQuicInboundStream::poll_shutdown *)
Definition tquic_poll_shutdown (t : TQuicInboundStream) : Poll (res unit) * TQuicInboundStream :=
  if ti_driver t then (Ready (Ok tt), push_cmd (CloseStream (ti_conn_id t) (ti_stream_id t)) t)
  else (Ready (Err "driver closed"), t).
#[global] Instance tquic_read : AsyncRead TQuicInboundStream := tquic_poll_read.
#[global] Instance tquic_write : AsyncWrite TQuicInboundStream := {|
  poll_write := tquic_poll_write; poll_flush := fun t => (Ready (Ok tt), t); poll_shutdown := tquic_poll_shutdown |}.

Definition close_senders (gone : gmap (Z * Z) nat) (ts : list TQuicInboundStream) : list TQuicInboundStream :=
  imap (fun i t => if bool_decide (Exists (fun kv => snd kv = i) (map_to_list gone)) then drop_sender t else t) ts.

(** The handlers do nothing on a connection without an index. *)
(* @src clash-lib/src/proxy/trojan/inbound.rs ~    fn on_conn_closed~ ServerHandler::on_conn_closed *)
Definition on_conn_closed (index : option Z) (h : ServerHandler) : ServerHandler :=
  match index with
  | None => h
  | Some index => {|
      sh_streams := filter (fun kv => fst (fst kv) <> index) (sh_streams h);
      sh_tasks := close_senders (filter (fun kv => fst (fst kv) = index) (sh_streams h)) (sh_tasks h) |}
  end.
(* @src clash-lib/src/proxy/trojan/inbound.rs ~    fn on_stream_created~ ServerHandler::on_stream_created *)
Definition on_stream_created (index : option Z) (stream_id : Z) (h : ServerHandler) : ServerHandler :=
  match index with
  | None => h
  | Some index =>
    let ts := match sh_streams h !! (index, stream_id) with
              | Some old => alter drop_sender old (sh_tasks h)
              | None => sh_tasks h
              end in
    {| sh_streams := <[(index, stream_id) := length ts]> (sh_streams h);
       sh_tasks := ts ++ [{| ti_conn_id := index; ti_stream_id := stream_id; ti_rx := []; ti_open := true; ti_buffer := [];
                             ti_cmds := []; ti_driver := true |}] |}
  end.
(** [reads] is what [stream_read] returns until it has no more or fails. *)
(* @src clash-lib/src/proxy/trojan/inbound.rs ~    fn on_stream_readable~ ServerHandler::on_stream_readable *)
Definition on_stream_readable (index : option Z) (stream_id : Z) (reads : list (list Z * bool)) (h : ServerHandler) : ServerHandler :=
  match index with
  | None => h
  | Some index =>
    foldl (fun h '(data, _) =>
      match sh_streams h !! (index, stream_id), data with
      | Some i, _ :: _ => {| sh_streams := sh_streams h; sh_tasks := alter (fun t => set_rx (ti_rx t ++ [data]) (ti_buffer t) t) i (sh_tasks h) |}
      | _, _ => h
      end) h reads
  end.
(* @src clash-lib/src/proxy/trojan/inbound.rs ~    fn on_stream_closed~ ServerHandler::on_stream_closed *)
Definition on_stream_closed (index : option Z) (stream_id : Z) (h : ServerHandler) : ServerHandler :=
  match index with
  | None => h
  | Some index =>
    match sh_streams h !! (index, stream_id) with
    | None => h
    | Some i => {| sh_streams := delete (index, stream_id) (sh_streams h); sh_tasks := alter drop_sender i (sh_tasks h) |}
    end
  end.

(** A command of a stream's task; [stream_write] says how much of the data
    the connection took, and the rest is dropped. *)
(* @src clash-lib/src/proxy/trojan/inbound.rs 336 357 TrojanInbound::listen_udp (commands) *)
Definition run_cmd (stream_write : Z -> Z -> list Z -> res nat) (known : Z -> bool) (c : Cmd) : list Z :=
  match c with
  | WriteStream conn_id stream_id data _ =>
    if known conn_id then match stream_write conn_id stream_id data with Ok n => take n data | _ => [] end else []
  | CloseStream _ _ => []
  end.

(** * Theorems: the handshake *)
Context {LAWS : CryptoLaws CL}.

Lemma password_hash_ascii p : Forall ascii (password_hash p).
Proof.
  unfold password_hash, encode_hex. assert (Forall u8 (sha224 (utf8 p))) as H by apply sha224_u8.
  induction H as [|b l Hb _ IH]; [constructor|]. cbn. unfold u8, in_width in Hb.
  repeat constructor; try apply hex_digit_ascii; try done; split; try apply Z.div_lt_upper_bound; try apply Z.div_pos; try apply Z.mod_pos_bound; lia.
Qed.
Lemma password_hash_length p : length (password_hash p) = 56%nat.
Proof. unfold password_hash. by rewrite encode_hex_length, sha224_length. Qed.
Lemma hash_utf8 p : utf8 (password_hash p) = password_hash p.
Proof. apply utf8_ascii, password_hash_ascii. Qed.
Lemma hash_matches_spec bs p : hash_matches bs (password_hash p) = true <-> bs = password_hash p.
Proof.
  unfold hash_matches. rewrite bool_decide_eq_true. split.
  - intros [H _]%from_utf8_inv. by rewrite <- H, hash_utf8.
  - intros ->. rewrite <- hash_utf8 at 1. apply from_utf8_utf8. eapply Forall_impl; [apply password_hash_ascii|]. intros c Hc. unfold ascii, scalar in *. lia.
Qed.

Lemma request_split p dst udp : request p dst udp = (password_hash p ++ CRLF) ++ [if udp then 3 else 1] ++ write_buf dst [] ++ CRLF.
Proof. unfold request. by rewrite write_buf_app, hash_utf8, <- !app_assoc. Qed.

Lemma header_length p : length (password_hash p ++ CRLF) = 58%nat.
Proof. by rewrite length_app, password_hash_length. Qed.
Lemma header_crlf p : drop 56 (password_hash p ++ CRLF) = CRLF.
Proof. rewrite drop_app_le by (rewrite password_hash_length; lia). rewrite drop_ge; [done|]. rewrite password_hash_length. lia. Qed.
Lemma header_hash p : take 56 (password_hash p ++ CRLF) = password_hash p.
Proof. rewrite take_app_le by (rewrite password_hash_length; lia). rewrite take_ge; [done|]. rewrite password_hash_length. lia. Qed.

(** C27: The inbound accepts exactly the TCP requests of its password.  It
    dispatches a session to [dst] and leaves [rest] on the stream if and only
    if it was sent the request for [dst] that the outbound writes, followed
    by [rest]; it never sends a byte. *)
Theorem trojan_accepts_exactly p mark src now counter bs dst rest out (H8 : Forall u8 bs) :
  feed (handle_trojan_stream p mark src now counter) false bs = (Ok (trojan_session now counter src mark dst), rest, out) <->
  bs = request p dst false ++ rest /\ wf_socks dst /\ wire dst = dst /\ out = [].
Proof.
  unfold handle_trojan_stream. cbn [mbind conv_bind]. split.
  - intros Hf. apply feed_exact_inv in Hf as (h & bs1 & -> & Hh & Hf). apply Forall_app in H8 as [_ H81].
    case_bool_decide as Hc; [|done]. cbn [negb] in Hf. destruct (hash_matches (take 56 h) (password_hash p)) eqn:Em; [|done]. cbn [negb] in Hf.
    apply hash_matches_spec in Em. rewrite feed_u in Hf. destruct (read_uint 1 bs1) as [[cmd bs2]| |] eqn:E; [|done|done].
    apply read_uint_inv in E as (-> & _ & H82); [|done]. destruct (Z.eqb_spec cmd 1) as [->|]; [|done]. cbn [negb] in Hf.
    apply recv_addr_inv in Hf as (a & bs3 & Ha & Hf); [|done]. destruct (read_from_inv _ _ _ H82 Ha) as (-> & Hwf & Hwi).
    apply feed_exact_inv in Hf as (e & bs4 & -> & He & Hf). case_bool_decide; [subst e|done]. cbn [negb] in Hf. cbn in Hf.
    assert (a = dst) as -> by (by injection Hf). injection Hf as <- <-. split_and!; try done.
    rewrite request_split, <- !app_assoc. rewrite <- (take_drop 56 h), Em, Hc, <- app_assoc. done.
  - intros (-> & Hwf & Hwi & ->). rewrite request_split, <- !app_assoc.
    erewrite feed_eat; [|erewrite eat_bytes by (rewrite app_assoc; rewrite <- (header_length p) at 1; apply read_bytes_app); cbv beta]. 2:{
      rewrite header_crlf, header_hash, bool_decide_eq_true_2 by done. cbn [negb].
      assert (hash_matches (password_hash p) (password_hash p) = true) as -> by by apply hash_matches_spec. cbn [negb].
      rewrite (eat_u _ _ _ 1 (write_buf dst [] ++ CRLF ++ rest)) by reflexivity. change (negb (1 =? 1)) with false. cbv iota. cbn [mbind conv_bind].
      erewrite eat_then by (apply recv_addr_ok; by apply read_from_write_buf). erewrite eat_bytes by (apply (read_bytes_app CRLF)).
      rewrite bool_decide_eq_true_2 by done. reflexivity. }
    cbn. by rewrite Hwi.
Qed.

(** The program's own inbound refuses the outbound's UDP requests. *)
Lemma udp_request_refused p mark src now counter dst rest :
  (feed (handle_trojan_stream p mark src now counter) false (request p dst true ++ rest)).1.1 = Err "unsupported trojan command".
Proof.
  unfold handle_trojan_stream. cbn [mbind conv_bind]. rewrite request_split, <- !app_assoc.
  erewrite feed_eat; [|erewrite eat_bytes by (rewrite app_assoc; rewrite <- (header_length p) at 1; apply read_bytes_app); cbv beta].
  2:{ rewrite header_crlf, header_hash, bool_decide_eq_true_2 by done. cbn [negb].
      assert (hash_matches (password_hash p) (password_hash p) = true) as -> by by apply hash_matches_spec. cbn [negb].
      rewrite (eat_u _ _ _ 3 (write_buf dst [] ++ CRLF ++ rest)) by reflexivity. change (negb (3 =? 1)) with true. reflexivity. }
  done.
Qed.

(** ** The QUIC inbound's streams *)

(** The bytes a stream's task has still to read. *)
Definition owed (t : TQuicInboundStream) : list Z := ti_buffer t ++ mjoin (ti_rx t).
Definition quic_wf (h : ServerHandler) : Prop :=
  (forall k i, sh_streams h !! k = Some i -> exists t, sh_tasks h !! i = Some t /\ (ti_conn_id t, ti_stream_id t) = k) /\
  Forall (fun t => Forall (.≠ []) (ti_rx t)) (sh_tasks h).

(** A task reads its bytes in order, and sees an end only when no sender is
    left and all was read. *)
Lemma tquic_read_in_order cap t bs t' : (0 < cap)%nat -> Forall (.≠ []) (ti_rx t) -> poll_read cap t = (Ready (Ok bs), t') ->
  owed t = bs ++ owed t' /\ (bs = [] -> owed t = [] /\ ti_open t = false).
Proof.
  unfold poll_read, tquic_read, tquic_poll_read, owed. intros Hc Hne. destruct (ti_buffer t) as [|b buf] eqn:Eb.
  - destruct (ti_rx t) as [|d rx] eqn:Er; [destruct (ti_open t) eqn:Eo; [done|]; intros [= <- <-]; by rewrite Eb, Er|].
    intros [= <- <-]. cbn. rewrite app_assoc, take_drop. split; [done|]. apply Forall_cons in Hne as [Hd _]. destruct d, cap; [done|done|lia|done].
  - intros [= <- <-]. destruct cap; [lia|]. cbn. rewrite app_assoc. split; [|done]. by rewrite app_comm_cons, take_drop.
Qed.

Lemma alter_wf (g : TQuicInboundStream -> TQuicInboundStream) (i : nat) streams ts :
  (forall t, ti_conn_id (g t) = ti_conn_id t /\ ti_stream_id (g t) = ti_stream_id t) ->
  (forall t, Forall (.≠ []) (ti_rx t) -> Forall (.≠ []) (ti_rx (g t))) ->
  quic_wf {| sh_streams := streams; sh_tasks := ts |} -> quic_wf {| sh_streams := streams; sh_tasks := alter g i ts |}.
Proof.
  intros Hid Hne [H1 H2]. split; cbn in *.
  - intros k j Hk. destruct (H1 k j Hk) as (t & Ht & Htk). destruct (decide (i = j)) as [->|].
    + exists (g t). rewrite list_lookup_alter_eq, Ht. split; [done|]. destruct (Hid t) as [-> ->]. done.
    + exists t. by rewrite list_lookup_alter_ne.
  - apply Forall_alter; [done|]. intros t _ Ht. by apply Hne.
Qed.

Lemma created_wf index sid h : quic_wf h -> quic_wf (on_stream_created index sid h).
Proof.
  intros Hh. destruct index as [idx|]; [|done]. unfold on_stream_created. destruct h as [streams ts].
  set (ts' := match sh_streams _ !! _ with Some old => _ | None => _ end).
  assert (quic_wf {| sh_streams := streams; sh_tasks := ts' |}) as [H1 H2].
  { unfold ts'. cbn. destruct (streams !! (idx, sid)); [|done]. by apply alter_wf. }
  cbn in *. split; cbn.
  - intros k i Hk. destruct (decide (k = (idx, sid))) as [->|Hne].
    + rewrite lookup_insert_eq in Hk. injection Hk as <-. eexists. by rewrite list_lookup_middle.
    + rewrite lookup_insert_ne in Hk by done. destruct (H1 k i Hk) as (t & Ht & Htk). exists t. split; [by apply lookup_app_l_Some|done].
  - apply Forall_app_2; [done|]. by repeat constructor.
Qed.
Lemma closed_wf index sid h : quic_wf h -> quic_wf (on_stream_closed index sid h).
Proof.
  intros Hh. destruct index as [idx|]; [|done]. unfold on_stream_closed. destruct h as [streams ts]. cbn. destruct (streams !! (idx, sid)) as [i|]; [|done].
  apply alter_wf; [done|done|]. destruct Hh as [H1 H2]. split; [|done]. cbn in *. intros k j [_ Hk]%lookup_delete_Some. by apply H1.
Qed.
Lemma conn_closed_wf index h : quic_wf h -> quic_wf (on_conn_closed index h).
Proof.
  intros [H1 H2]. destruct index as [idx|]; [|done]. split; cbn.
  - intros k i [Hk _]%map_lookup_filter_Some. destruct (H1 k i Hk) as (t & Ht & Htk). unfold close_senders.
    exists (if bool_decide (Exists (fun kv => snd kv = i) (map_to_list (filter (fun kv : Z * Z * nat => kv.1.1 = idx) (sh_streams h)))) then drop_sender t else t).
    rewrite list_lookup_imap, Ht. split; [done|]. by case_bool_decide.
  - unfold close_senders. apply Forall_lookup. intros i t Ht. rewrite list_lookup_imap in Ht. destruct (sh_tasks h !! i) as [t0|] eqn:E; [|done].
    injection Ht as <-. pose proof (Forall_lookup_1 _ _ _ _ H2 E). by case_bool_decide.
Qed.

Definition deliver (k : Z * Z) (data : list Z) (h : ServerHandler) : ServerHandler :=
  match sh_streams h !! k, data with
  | Some i, _ :: _ => {| sh_streams := sh_streams h; sh_tasks := alter (fun t => set_rx (ti_rx t ++ [data]) (ti_buffer t) t) i (sh_tasks h) |}
  | _, _ => h
  end.
Lemma deliver_spec k data h : quic_wf h -> quic_wf (deliver k data h) /\ sh_streams (deliver k data h) = sh_streams h /\
  forall i t, sh_tasks h !! i = Some t -> exists t', sh_tasks (deliver k data h) !! i = Some t' /\
    owed t' = owed t ++ (if bool_decide (sh_streams h !! k = Some i) then data else []).
Proof.
  intros Hh. unfold deliver. destruct (sh_streams h !! k) as [j|] eqn:Ek, data as [|b data];
    try (split_and!; [done|done|intros i t Ht; exists t; split; [done|]; case_bool_decide; simplify_eq; by rewrite ?app_nil_r]).
  split_and!; [|done|].
  - apply alter_wf; [done| |by destruct h]. intros t Ht. cbn. apply Forall_app_2; [done|by repeat constructor].
  - cbn. intros i t Ht. destruct (decide (i = j)) as [->|Hne].
    + rewrite bool_decide_eq_true_2 by done. eexists. rewrite list_lookup_alter_eq, Ht. split; [done|]. unfold owed. cbn.
      rewrite list.join_app. cbn. by rewrite app_nil_r, app_assoc.
    + rewrite bool_decide_eq_false_2 by congruence. exists t. rewrite list_lookup_alter_ne by done. by rewrite app_nil_r.
Qed.

(** What the connection reads from a stream is what its task, and no other,
    has to read next. *)
Lemma readable_delivers idx sid reads h : quic_wf h -> let h' := on_stream_readable (Some idx) sid reads h in
  quic_wf h' /\ forall i t, sh_tasks h !! i = Some t -> exists t', sh_tasks h' !! i = Some t' /\
    owed t' = owed t ++ (if bool_decide (sh_streams h !! (idx, sid) = Some i) then mjoin (fst <$> reads) else []).
Proof.
  cbn. revert h. induction reads as [|[d fin] reads IH]; intros h Hh; cbn.
  { split; [done|]. intros i t Ht. exists t. case_bool_decide; by rewrite app_nil_r. }
  destruct (deliver_spec (idx, sid) d h Hh) as (Hd & Hs & Ho). destruct (IH (deliver (idx, sid) d h) Hd) as [Hw Hi]. split; [exact Hw|].
  intros i t Ht. destruct (Ho i t Ht) as (t1 & Ht1 & Ho1). destruct (Hi i t1 Ht1) as (t2 & Ht2 & Ho2). exists t2. split; [exact Ht2|].
  rewrite Ho2, Ho1, Hs, <- app_assoc. by destruct (bool_decide (sh_streams h !! (idx, sid) = Some i)).
Qed.

(** The end of a client's half of a stream is not passed on. *)
Lemma fin_is_lost index sid d h : on_stream_readable index sid [(d, true)] h = on_stream_readable index sid [(d, false)] h.
Proof. done. Qed.
(** What the connection does not take of a write is lost. *)
Lemma short_write_loses sw known conn sid d fin n : known conn = true -> sw conn sid d = Ok n -> (n < length d)%nat ->
  run_cmd sw known (WriteStream conn sid d fin) <> d.
Proof. intros H1 H2 H3. cbn. rewrite H1, H2. intros H. apply (f_equal length) in H. rewrite length_take in H. lia. Qed.
End trojan.

Lemma trojan_accepts_exactly_witness :
  (feed (@handle_trojan_stream plain_crypto (lit "pw") None (SV4 1 2) 0 7) false
     (@request plain_crypto (lit "pw") (Domain (lit "a.b") 443) false ++ [71; 69])).1.1 =
  Ok (trojan_session 0 7 (SV4 1 2) None (Domain (lit "a.b") 443)).
Proof.
  assert (feed (@handle_trojan_stream plain_crypto (lit "pw") None (SV4 1 2) 0 7) false
            (@request plain_crypto (lit "pw") (Domain (lit "a.b") 443) false ++ [71; 69]) =
          (Ok (trojan_session 0 7 (SV4 1 2) None (Domain (lit "a.b") 443)), [71; 69], [])) as H; [|by rewrite H].
  apply (trojan_accepts_exactly (lit "pw") None (SV4 1 2) 0 7 _ (Domain (lit "a.b") 443) [71; 69] []).
  - vm_compute. repeat constructor; by intros.
  - split; [reflexivity|]. split; [|by split]. split; [|split]; [by repeat constructor|vm_compute; by intros|split; vm_compute; by intros].
Defined.
