(* ===== verification/TrojanUdp.v ===== *)
(** * Datagrams over a Trojan stream ([proxy/trojan/datagram.rs])

    A packet is a frame: address, length, CRLF, payload.  The reader is a
    state machine whose futures are made anew on every poll: what a pending
    future had read is gone.  The writer rebuilds the whole frame on every
    poll.  The theorems say what holds when no poll stops inside a frame,
    and the last section what happens when one does. *)

From S2P Require Import Prelude Str Net Session Crypto Async Inbound Socks5 Trojan.

(* @src clash-lib/src/proxy/trojan/datagram.rs ~^enum Addr~ Addr *)
Inductive Addr : Type := AddrV4 (ip : Z) | AddrV6 (ip : Z) | AddrDomain (d : str).
(* @src clash-lib/src/proxy/trojan/datagram.rs ~^enum ReadState~ ReadState *)
Inductive ReadState : Type :=
| StAtyp | StAddr (atyp : Z) | StPort (a : Addr) | StDataLen (a : SocksAddr) | StData (a : SocksAddr) (len : nat).
(* @src clash-lib/src/proxy/trojan/datagram.rs ~^pub struct OutboundDatagramTrojan~ OutboundDatagramTrojan *)
Record OutboundDatagramTrojan (S : Type) : Type := {
  td_inner : S;
  td_remote_addr : SocksAddr;
  td_state : ReadState;
  td_read_buf : list Z;
  td_written : option Z;
  td_flushed : bool;
  td_pkt : option UdpPacket;
}.
Arguments td_inner {S} _.
Arguments td_remote_addr {S} _.
Arguments td_state {S} _.
Arguments td_read_buf {S} _.
Arguments td_written {S} _.
Arguments td_flushed {S} _.
Arguments td_pkt {S} _.

Section datagram.
Context {S : Type} {AR : AsyncRead S} {AW : AsyncWrite S}.
Notation TD := (OutboundDatagramTrojan S).

(* @src clash-lib/src/proxy/trojan/datagram.rs ~    pub fn new\(inner~ OutboundDatagramTrojan::new *)
Definition datagram_new (inner : S) (remote_addr : SocksAddr) : TD := {|
  td_inner := inner; td_remote_addr := remote_addr; td_state := StAtyp; td_read_buf := []; td_written := None; td_flushed := true; td_pkt := None |}.

Definition set_inner (i : S) (d : TD) : TD := {|
  td_inner := i; td_remote_addr := td_remote_addr d; td_state := td_state d; td_read_buf := td_read_buf d; td_written := td_written d;
  td_flushed := td_flushed d; td_pkt := td_pkt d |}.
Definition set_state (s : ReadState) (d : TD) : TD := {|
  td_inner := td_inner d; td_remote_addr := td_remote_addr d; td_state := s; td_read_buf := td_read_buf d; td_written := td_written d;
  td_flushed := td_flushed d; td_pkt := td_pkt d |}.
Definition set_read_buf (b : list Z) (d : TD) : TD := {|
  td_inner := td_inner d; td_remote_addr := td_remote_addr d; td_state := td_state d; td_read_buf := b; td_written := td_written d;
  td_flushed := td_flushed d; td_pkt := td_pkt d |}.
Definition set_sending (w : option Z) (f : bool) (p : option UdpPacket) (d : TD) : TD := {|
  td_inner := td_inner d; td_remote_addr := td_remote_addr d; td_state := td_state d; td_read_buf := td_read_buf d; td_written := w;
  td_flushed := f; td_pkt := p |}.

Definition on_inner {A} (m : PM S A) : PM TD A := zoom td_inner set_inner m.

(** ** The sink *)
Definition frame (p : UdpPacket) : list Z :=
  write_buf (up_dst_addr p) [] ++ be_bytes 2 (wrap 16 (zlen (up_data p))) ++ CRLF ++ up_data p.

(** A round writes at least a byte, or the loop does not end; as many rounds
    as there are bytes are enough for a writer that takes some. *)
(* @src clash-lib/src/proxy/trojan/datagram.rs 107 118 OutboundDatagramTrojan::poll_flush (loop) *)
Fixpoint write_payload (fuel : nat) (payload : list Z) : PM TD unit :=
  match payload, fuel with
  | [], _ => mret tt
  | _, O => fail Panic
  | _, Datatypes.S fuel =>
    n ← on_inner (poll_write payload);
    _ ← modify (fun d => set_sending (Some (default 0 (td_written d) + Z.of_nat n)) (td_flushed d) (td_pkt d) d);
    write_payload fuel (drop n payload)
  end.
(* @src clash-lib/src/proxy/trojan/datagram.rs ~    fn poll_flush\(~ OutboundDatagramTrojan::poll_flush *)
Definition sink_flush : PM TD unit := fun d =>
  if td_flushed d then (Ready (Ok tt), d)
  else match td_pkt d with
       | None => (Ready (Err "no packet to send"), d)
       | Some pkt =>
         (_ ← modify (fun d => set_sending (Some (default 0 (td_written d))) (td_flushed d) (td_pkt d) d);
          _ ← write_payload (length (frame pkt)) (frame pkt);
          _ ← on_inner poll_flush;
          modify (set_sending None true None)) d
       end.
(* @src clash-lib/src/proxy/trojan/datagram.rs ~    fn poll_ready\(~ OutboundDatagramTrojan::poll_ready *)
Definition sink_ready : PM TD unit := fun d => if td_flushed d then (Ready (Ok tt), d) else sink_flush d.
(* @src clash-lib/src/proxy/trojan/datagram.rs ~    fn start_send\(~ OutboundDatagramTrojan::start_send *)
Definition start_send (item : UdpPacket) (d : TD) : TD := set_sending (td_written d) false (Some item) d.
(* @src clash-lib/src/proxy/trojan/datagram.rs ~    fn poll_close\(~ OutboundDatagramTrojan::poll_close *)
Definition sink_close : PM TD unit := sink_flush.

(** ** The stream

    [None] ends the stream of packets; every failed read does. *)
Definition or_end {A} (m : PM TD A) (k : A -> PM TD (option UdpPacket)) : PM TD (option UdpPacket) := fun d =>
  match m d with
  | (Ready (Ok a), d) => k a d
  | (Ready (Err _), d) => (Ready (Ok None), d)
  | (Ready Panic, d) => (Ready Panic, d)
  | (Pending, d) => (Pending, d)
  end.
Definition finish {A} : PM TD (option A) := fail (Ok None).

Section states.
Context (next : PM TD (option UdpPacket)).
Definition goto (s : ReadState) : PM TD (option UdpPacket) := _ ← modify (set_state s); next.

(* @src clash-lib/src/proxy/trojan/datagram.rs 175 190 OutboundDatagramTrojan::poll_next (Atyp) *)
Definition read_atyp : PM TD (option UdpPacket) := or_end (on_inner (read_uint_fut 1)) (fun atyp => goto (StAddr atyp)).
(* @src clash-lib/src/proxy/trojan/datagram.rs 191 278 OutboundDatagramTrojan::poll_next (Addr) *)
Definition read_addr (atyp : Z) : PM TD (option UdpPacket) :=
  if atyp =? ATYP_V4 then or_end (on_inner (read_uint_fut 4)) (fun ip => goto (StPort (AddrV4 ip)))
  else if atyp =? ATYP_V6 then or_end (on_inner (read_uint_fut 16)) (fun ip => goto (StPort (AddrV6 ip)))
  else if atyp =? ATYP_DOMAIN then
    or_end (on_inner (read_uint_fut 1)) (fun domain_len =>
    or_end (on_inner (read_exact_fut (Z.to_nat domain_len))) (fun buf =>
    match from_utf8 buf with
    | None => finish
    | Some domain => goto (StPort (AddrDomain domain))
    end))
  else finish.
Definition addr_at (a : Addr) (port : Z) : res SocksAddr :=
  match a with
  | AddrV4 ip => Ok (Ip (sa_new (V4 ip) port))
  | AddrV6 ip => Ok (Ip (sa_new (V6 ip) port))
  | AddrDomain d => try_from_host_port d port
  end.
(* @src clash-lib/src/proxy/trojan/datagram.rs 279 314 OutboundDatagramTrojan::poll_next (Port) *)
Definition read_port (a : Addr) : PM TD (option UdpPacket) :=
  or_end (on_inner (read_uint_fut 2)) (fun port => or_end (fail (addr_at a port)) (fun addr => goto (StDataLen addr))).
(* @src clash-lib/src/proxy/trojan/datagram.rs 315 351 OutboundDatagramTrojan::poll_next (DataLen) *)
Definition read_data_len (a : SocksAddr) : PM TD (option UdpPacket) :=
  or_end (on_inner (read_uint_fut 2)) (fun data_len =>
  or_end (_ ← modify (fun d => set_read_buf (set_len 2 (td_read_buf d)) d); on_inner (read_exact_fut 2)) (fun crlf =>
  _ ← modify (set_read_buf crlf);
  if negb (bool_decide (crlf = CRLF)) then finish
  else
    _ ← modify (set_read_buf (set_len (Z.to_nat data_len) crlf));
    or_end (fail (socks_clone a)) (fun a => goto (StData a (Z.to_nat data_len))))).
(* @src clash-lib/src/proxy/trojan/datagram.rs 352 383 OutboundDatagramTrojan::poll_next (Data) *)
Definition read_data (a : SocksAddr) (len : nat) : PM TD (option UdpPacket) := fun d =>
  or_end (on_inner (read_exact_fut (length (td_read_buf d)))) (fun data =>
  if negb (length data =? len)%nat then finish
  else
    or_end (fail (socks_clone a)) (fun a =>
    _ ← modify (set_state StAtyp);
    _ ← modify (set_read_buf (drop len data));
    or_end (fail (socks_clone (td_remote_addr d))) (fun src =>
    mret (Some {| up_data := take len data; up_src_addr := src; up_dst_addr := a |})))) d.
End states.

(** The states follow each other and the last returns, so five rounds are
    enough from any of them. *)
(* @src clash-lib/src/proxy/trojan/datagram.rs ~    fn poll_next\(~ OutboundDatagramTrojan::poll_next *)
Fixpoint next_rounds (rounds : nat) : PM TD (option UdpPacket) := fun d =>
  match rounds with
  | O => (Ready Panic, d)
  | Datatypes.S r =>
    match td_state d with
    | StAtyp => read_atyp (next_rounds r) d
    | StAddr atyp => read_addr (next_rounds r) atyp d
    | StPort a => read_port (next_rounds r) a d
    | StDataLen a => read_data_len (next_rounds r) a d
    | StData a len => read_data a len d
    end
  end.
Definition poll_next : PM TD (option UdpPacket) := next_rounds 5.
End datagram.

(** * Theorems *)

(** ** Addresses that were rebuilt once stay as they are *)
Lemma clone_idem a a' : socks_clone a = Ok a' -> socks_clone a' = Ok a'.
Proof.
  destruct a as [sa|d p]; cbn; [by intros [= <-]|]. unfold try_from_host_port. destruct (parse_ip d) as [ip|] eqn:E; [by intros [= <-]|].
  destruct (0xff <? str_len d) eqn:El; [done|]. intros [= <-]. cbn. unfold try_from_host_port. by rewrite E, El.
Qed.

(** What a packet is when it arrives from [src]. *)
Definition arrives (src : SocksAddr) (p q : UdpPacket) : Prop :=
  up_data q = up_data p /\ up_src_addr q = src /\ socks_clone (wire (up_dst_addr p)) = Ok (up_dst_addr q).
Definition packet_fits (p : UdpPacket) : Prop := wf_socks (up_dst_addr p) /\ zlen (up_data p) < 2 ^ 16 /\ Forall u8 (up_data p).

Section wire.
Notation TD := (OutboundDatagramTrojan Wire).

(** A reader in state [st] with [more] at hand; [b] is what comes after the
    next wait. *)
Definition reader (remote : SocksAddr) (b : list ReadEv) (st : ReadState) (more : list Z) (d : TD) : Prop :=
  td_state d = st /\ td_remote_addr d = remote /\ avail (wi_in (td_inner d)) = more /\ behind (wi_in (td_inner d)) = b.

Section reader.
Context (remote : SocksAddr) (b : list ReadEv).

Lemma inner_bytes n (d : TD) st l r : reader remote b st (l ++ r) d -> length l = n ->
  exists d', on_inner (read_exact_fut n) d = (Ready (Ok l), d') /\ reader remote b st r d' /\ td_read_buf d' = td_read_buf d.
Proof.
  intros (H1 & H2 & Ha & H4) Hn. destruct (read_exact_fut_avail n (td_inner d)) as (w & E & A & B & C).
  { rewrite Ha, length_app. lia. }
  exists (set_inner w d). unfold on_inner, zoom. rewrite E. split_and!; [|split_and!; cbn; try done|done].
  - by rewrite Ha, <- Hn, take_app_length.
  - by rewrite A, Ha, <- Hn, drop_app_length.
  - by rewrite B.
Qed.
Lemma inner_uint n (d : TD) st z r : reader remote b st (be_bytes n z ++ r) d -> in_width (8 * Z.of_nat n) z ->
  exists d', on_inner (read_uint_fut n) d = (Ready (Ok z), d') /\ reader remote b st r d' /\ td_read_buf d' = td_read_buf d.
Proof.
  intros Hr Hz. destruct (inner_bytes n d st (be_bytes n z) r Hr) as (d' & E & Hd); [apply be_bytes_length|]. exists d'. split; [|done].
  unfold on_inner, zoom in *. unfold read_uint_fut, mbind, pm_bind. destruct (read_exact_fut n (td_inner d)) as [[[l| |]|] w]; try done.
  injection E as -> <-. cbn. by rewrite be_val_bytes.
Qed.
Lemma or_end_ok {A} (m : PM TD A) k d a d' : m d = (Ready (Ok a), d') -> or_end m k d = k a d'.
Proof. unfold or_end. by intros ->. Qed.

Context (next : PM TD (option UdpPacket)).
Lemma step_atyp d atyp r : reader remote b StAtyp (atyp :: r) d -> u8 atyp ->
  exists d', read_atyp next d = next d' /\ reader remote b (StAddr atyp) r d'.
Proof.
  intros Hd Ha. destruct (inner_uint 1 d StAtyp atyp r) as (d1 & E & (H1 & H2 & H3 & H4) & _); [|done|].
  { replace (be_bytes 1 atyp) with [atyp]; [done|]. change (be_bytes 1 atyp) with [wrap 8 (Z.shiftr atyp 0)]. by rewrite Z.shiftr_0_r, wrap_small. }
  exists (set_state (StAddr atyp) d1). unfold read_atyp. rewrite (or_end_ok _ _ _ _ _ E). split; [done|]. by split_and!.
Qed.

(** The bytes of an address between its type and its port. *)
Definition addr_bytes (a : Addr) : list Z :=
  match a with
  | AddrV4 ip => be_bytes 4 ip
  | AddrV6 ip => be_bytes 16 ip
  | AddrDomain d => str_len d :: utf8 d
  end.
Definition addr_type (a : Addr) : Z := match a with AddrV4 _ => ATYP_V4 | AddrV6 _ => ATYP_V6 | AddrDomain _ => ATYP_DOMAIN end.
Definition addr_fits (a : Addr) : Prop :=
  match a with
  | AddrV4 ip => u32 ip
  | AddrV6 ip => u128 ip
  | AddrDomain d => Forall scalar d /\ str_len d <= 255
  end.

Lemma step_addr d a r : reader remote b (StAddr (addr_type a)) (addr_bytes a ++ r) d -> addr_fits a ->
  exists d', read_addr next (addr_type a) d = next d' /\ reader remote b (StPort a) r d'.
Proof.
  intros Hd Ha. unfold read_addr. destruct a as [ip|ip|s]; cbn [addr_type addr_bytes addr_fits] in *; atyp.
  - destruct (inner_uint 4 d _ ip r Hd) as (d1 & E & (H1 & H2 & H3 & H4) & _); [done|]. exists (set_state (StPort (AddrV4 ip)) d1).
    rewrite (or_end_ok _ _ _ _ _ E). split; [done|]. by split_and!.
  - destruct (inner_uint 16 d _ ip r Hd) as (d1 & E & (H1 & H2 & H3 & H4) & _); [done|]. exists (set_state (StPort (AddrV6 ip)) d1).
    rewrite (or_end_ok _ _ _ _ _ E). split; [done|]. by split_and!.
  - destruct Ha as [Hs Hl]. assert (0 <= str_len s) by apply zlen_nonneg.
    destruct (inner_uint 1 d (StAddr ATYP_DOMAIN) (str_len s) (utf8 s ++ r)) as (d1 & E & Hd1 & _); [|split; cbn; lia|].
    { replace (be_bytes 1 (str_len s)) with [str_len s]; [done|]. change (be_bytes 1 (str_len s)) with [wrap 8 (Z.shiftr (str_len s) 0)].
      rewrite Z.shiftr_0_r, wrap_small; [done|split; lia]. }
    rewrite (or_end_ok _ _ _ _ _ E). destruct (inner_bytes (Z.to_nat (str_len s)) d1 _ (utf8 s) r Hd1) as (d2 & E2 & (H1 & H2 & H3 & H4) & _).
    { unfold str_len, zlen. lia. }
    rewrite (or_end_ok _ _ _ _ _ E2), from_utf8_utf8 by done. exists (set_state (StPort (AddrDomain s)) d2). split; [done|]. by split_and!.
Qed.

Lemma step_port d a port x r : reader remote b (StPort a) (be_bytes 2 port ++ r) d -> u16 port -> addr_at a port = Ok x ->
  exists d', read_port next a d = next d' /\ reader remote b (StDataLen x) r d'.
Proof.
  intros Hd Hp Hx. destruct (inner_uint 2 d _ port r Hd Hp) as (d1 & E & (H1 & H2 & H3 & H4) & _). unfold read_port.
  rewrite (or_end_ok _ _ _ _ _ E), Hx. exists (set_state (StDataLen x) d1). split; [done|]. by split_and!.
Qed.

Lemma step_data_len d a a' len r : reader remote b (StDataLen a) (be_bytes 2 len ++ CRLF ++ r) d -> u16 len -> socks_clone a = Ok a' ->
  exists d', read_data_len next a d = next d' /\ reader remote b (StData a' (Z.to_nat len)) r d' /\ length (td_read_buf d') = Z.to_nat len.
Proof.
  intros Hd Hl Ha. destruct (inner_uint 2 d _ len _ Hd Hl) as (d1 & E & (H1 & H2 & H3 & H4) & _). unfold read_data_len. rewrite (or_end_ok _ _ _ _ _ E).
  set (d2 := set_read_buf (set_len 2 (td_read_buf d1)) d1).
  destruct (inner_bytes 2 d2 (StDataLen a) CRLF r) as (d3 & E3 & (G1 & G2 & G3 & G4) & _); [by split_and!|done|].
  rewrite (or_end_ok _ _ d1 CRLF d3) by exact E3. unfold mbind at 1, pm_bind at 1. cbn [modify].
  rewrite bool_decide_eq_true_2 by done. cbn [negb]. unfold mbind at 1, pm_bind at 1. cbn [modify]. rewrite Ha.
  eexists. split; [reflexivity|]. split; [by split_and!|]. cbn. by rewrite set_len_length.
Qed.

Lemma step_data d a a' data r src : reader remote b (StData a (length data)) (data ++ r) d -> length (td_read_buf d) = length data ->
  socks_clone a = Ok a' -> socks_clone remote = Ok src ->
  exists d', read_data a (length data) d = (Ready (Ok (Some {| up_data := data; up_src_addr := src; up_dst_addr := a' |})), d') /\ reader remote b StAtyp r d'.
Proof.
  intros Hd Hl Ha Hs. unfold read_data. rewrite Hl. destruct (inner_bytes (length data) d _ data r Hd eq_refl) as (d1 & E & (H1 & H2 & H3 & H4) & _).
  rewrite (or_end_ok _ _ _ _ _ E), Nat.eqb_refl, Ha. destruct Hd as (_ & Hrem & _). cbn [negb]. rewrite Hrem, Hs.
  rewrite firstn_all. eexists. split; [reflexivity|]. by split_and!.
Qed.
End reader.

Lemma address_parts a rest : wf_socks a -> exists x port, addr_fits x /\ u16 port /\ addr_at x port = socks_clone (wire a) /\
  write_buf a [] ++ rest = addr_type x :: addr_bytes x ++ be_bytes 2 port ++ rest.
Proof.
  destruct a as [[ip p|ip p f s]|d p]; cbn [wf_socks wf_sa]; intros H.
  - exists (AddrV4 ip), p. destruct H. split_and!; [done|done|done|]. by rewrite write_buf_v4.
  - exists (AddrV6 ip), p. destruct H as (? & ? & _). split_and!; [done|done|done|]. by rewrite write_buf_v6.
  - exists (AddrDomain d), p. destruct H as (? & ? & ?). split_and!; [done|done| |by rewrite write_buf_domain].
    cbn. unfold try_from_host_port. destruct (parse_ip d); [done|]. destruct (Z.ltb_spec 0xff (str_len d)); [lia|done].
Qed.

Lemma next_rounds_S r (d : TD) : next_rounds (S r) d =
  match td_state d with
  | StAtyp => read_atyp (next_rounds r) d
  | StAddr atyp => read_addr (next_rounds r) atyp d
  | StPort a => read_port (next_rounds r) a d
  | StDataLen a => read_data_len (next_rounds r) a d
  | StData a len => read_data a len d
  end.
Proof. done. Qed.

Lemma frame_read remote b src p r (d : TD) : packet_fits p -> socks_clone remote = Ok src -> reader remote b StAtyp (frame p ++ r) d ->
  exists q d', poll_next d = (Ready (Ok (Some q)), d') /\ arrives src p q /\ reader remote b StAtyp r d'.
Proof.
  intros (Hw & Hl & H8) Hsrc Hd. assert (0 <= zlen (up_data p)) by apply zlen_nonneg. assert (u16 (zlen (up_data p))) as Hl16 by (split; cbn; lia).
  unfold frame in Hd. rewrite wrap_small, <- !app_assoc in Hd by done.
  destruct (address_parts (up_dst_addr p) (be_bytes 2 (zlen (up_data p)) ++ CRLF ++ up_data p ++ r) Hw) as (x & port & Hx & Hp & Hat & Hb).
  rewrite Hb in Hd. destruct (clone_wf _ (wire_wf _ Hw)) as (a & Ha). rewrite Ha in Hat.
  assert (u8 (addr_type x)) as Ht by (destruct x; split; vm_compute; done).
  unfold poll_next. rewrite next_rounds_S, (proj1 Hd).
  destruct (step_atyp remote b (next_rounds 4) d _ _ Hd Ht) as (d1 & -> & Hd1). rewrite next_rounds_S, (proj1 Hd1).
  destruct (step_addr remote b (next_rounds 3) d1 _ _ Hd1 Hx) as (d2 & -> & Hd2). rewrite next_rounds_S, (proj1 Hd2).
  destruct (step_port remote b (next_rounds 2) d2 _ _ _ _ Hd2 Hp Hat) as (d3 & -> & Hd3). rewrite next_rounds_S, (proj1 Hd3).
  pose proof (clone_idem _ _ Ha) as Ha'.
  destruct (step_data_len remote b (next_rounds 1) d3 _ _ _ _ Hd3 Hl16 Ha') as (d4 & -> & Hd4 & Hbuf). rewrite next_rounds_S, (proj1 Hd4).
  replace (Z.to_nat (zlen (up_data p))) with (length (up_data p)) in * by (unfold zlen; lia).
  destruct (step_data remote b d4 _ _ _ _ _ Hd4 Hbuf Ha' Hsrc) as (d5 & -> & Hd5). eexists _, d5. split; [reflexivity|]. split; [|done]. by split_and!.
Qed.

(** Polls while the stream waits between frames change nothing. *)
Lemma idle_read remote b (d : TD) : reader remote (RdPending :: b) StAtyp [] d ->
  exists d', poll_next d = (Pending, d') /\ reader remote (behind b) StAtyp (avail b) d'.
Proof.
  intros (H1 & H2 & H3 & H4). destruct d as [[i ev o sh] rem st buf wr fl pk]. cbn in *. subst st rem.
  destruct i as [|[x bs| | |m] i]; cbn in *; try done. injection H4 as ->. eexists. split; [reflexivity|]. by split_and!.
Qed.

(** Some polls in a row: the packets they give. *)
Fixpoint recv_polls (n : nat) (d : TD) : option (list UdpPacket * TD) :=
  match n with
  | O => Some ([], d)
  | S n =>
    match poll_next d with
    | (Pending, d') => recv_polls n d'
    | (Ready (Ok (Some p)), d') => '(ps, d'') ← recv_polls n d'; Some (p :: ps, d'')
    | _ => None
    end
  end.
(** A packet at a time. *)
Definition sink_send (p : UdpPacket) : PM TD unit := _ ← sink_ready; _ ← modify (start_send p); sink_flush.
Fixpoint send_all (ps : list UdpPacket) : PM TD unit :=
  match ps with [] => mret tt | p :: ps => _ ← sink_send p; send_all ps end.

(** Batches of whole frames, however they are cut, with a wait after each. *)
Inductive batches : list (list UdpPacket) -> list ReadEv -> Prop :=
| batches_nil i : avail i = [] -> batches [] i
| batches_cons ps pss i i' : avail i = mjoin (frame <$> ps) -> behind i = RdPending :: i' -> batches pss i' -> batches (ps :: pss) i.

Lemma recv_batch remote b src ps r n (d : TD) qs d' : Forall packet_fits ps -> socks_clone remote = Ok src ->
  reader remote b StAtyp (mjoin (frame <$> ps) ++ r) d ->
  (forall d1, reader remote b StAtyp r d1 -> exists qs' d2, recv_polls n d1 = Some (qs', d2) /\ Forall2 (arrives src) qs qs' /\ d' = tt) ->
  exists ps' d2, recv_polls (length ps + n) d = Some (ps', d2) /\ Forall2 (arrives src) (ps ++ qs) ps'.
Proof.
  intros Hf Hs Hd Hk. revert d Hd. induction Hf as [|p ps Hp Hf IH]; intros d Hd.
  - destruct (Hk d Hd) as (qs' & d2 & ? & ? & _). eauto.
  - cbn in Hd. rewrite <- app_assoc in Hd. destruct (frame_read remote b src p _ d Hp Hs Hd) as (q & d1 & E & Hq & Hd1).
    destruct (IH d1 Hd1) as (ps' & d2 & E2 & H2). exists (q :: ps'), d2. cbn [recv_polls length Nat.add]. rewrite E, E2. split; [done|]. by constructor.
Qed.

Lemma recv_batches remote src pss i : batches pss i -> Forall (Forall packet_fits) pss -> socks_clone remote = Ok src ->
  forall d, reader remote (behind i) StAtyp (avail i) d ->
  exists qs d', recv_polls (length (mjoin pss) + length pss) d = Some (qs, d') /\ Forall2 (arrives src) (mjoin pss) qs.
Proof.
  intros Hb Hf Hs. induction Hb as [i Hi|ps pss i i' Ha Hbe Hb IH]; intros d Hd.
  - exists [], d. cbn. split; [done|constructor].
  - apply Forall_cons in Hf as [Hp Hf]. change (mjoin (ps :: pss)) with (ps ++ mjoin pss). rewrite length_app. cbn [length].
    replace (length ps + length (mjoin pss) + S (length pss))%nat with (length ps + S (length (mjoin pss) + length pss))%nat by lia.
    rewrite Ha, Hbe, <- (app_nil_r (mjoin _)) in Hd.
    apply (recv_batch remote (RdPending :: i') src ps [] _ d _ tt Hp Hs Hd). intros d1 Hd1.
    destruct (idle_read remote i' d1 Hd1) as (d2 & E & Hd2). destruct (IH Hf d2 Hd2) as (qs & d3 & E3 & H3).
    exists qs, d3. cbn [recv_polls]. rewrite E. done.
Qed.

(** ** Writing to a stream that takes what it is offered *)
Definition takes (ev : list WriteEv) : Prop := Forall (fun e => exists n, e = WrAccept n) ev.
(** The writer between packets: [out] was written, [room] more bytes surely fit. *)
Definition writer (out : list Z) (room : nat) (d : TD) : Prop :=
  wi_out (td_inner d) = out /\ takes (wi_ev (td_inner d)) /\ (room <= length (wi_ev (td_inner d)))%nat.

Lemma payload_written fuel payload out room pkt fl (d : TD) : (length payload <= fuel)%nat -> writer out (length payload + room) d ->
  td_pkt d = pkt -> td_flushed d = fl ->
  exists d', write_payload fuel payload d = (Ready (Ok tt), d') /\ writer (out ++ payload) room d' /\ td_pkt d' = pkt /\ td_flushed d' = fl.
Proof.
  revert payload out d. induction fuel as [|fuel IH]; intros payload out d Hf (Ho & Ht & Hr) Hp Hl.
  { destruct payload; [|cbn in Hf; lia]. exists d. rewrite app_nil_r. by split_and!. }
  destruct payload as [|x payload]; [exists d; rewrite app_nil_r; by split_and!|]. cbn [write_payload]. set (pl := x :: payload) in *.
  destruct (wi_ev (td_inner d)) as [|e ev] eqn:Ee; [cbn in Hr; lia|]. apply Forall_cons in Ht as [[n ->] Ht].
  destruct (accepted_bound n pl) as [Hle Hpos]. specialize (Hpos ltac:(done)).
  set (d1 := set_sending (Some (default 0 (td_written d) + Z.of_nat (accepted n pl))) fl pkt (set_inner (push_out (take (accepted n pl) pl) (with_ev ev (td_inner d))) d)).
  destruct (IH (drop (accepted n pl) pl) (out ++ take (accepted n pl) pl) d1) as (d' & E & Hw & Hp' & Hl').
  - rewrite length_drop. lia.
  - split_and!; cbn; [by rewrite Ho|done|]. rewrite length_drop. cbn [length] in Hr. lia.
  - done.
  - done.
  - exists d'. rewrite <- app_assoc, take_drop in Hw. split_and!; [|done|done|done]. rewrite <- E. unfold mbind, pm_bind, on_inner, zoom, poll_write, wire_write.
    rewrite Ee. unfold modify. cbn [td_written td_flushed td_pkt set_inner]. by rewrite Hp, Hl.
Qed.

Lemma packet_written p out room (d : TD) : writer out (length (frame p) + room) d -> td_flushed d = true ->
  exists d', sink_send p d = (Ready (Ok tt), d') /\ writer (out ++ frame p) room d' /\ td_flushed d' = true.
Proof.
  intros Hw Hfl. set (d1 := start_send p d). set (d2 := set_sending (Some (default 0 (td_written d1))) false (Some p) d1).
  destruct (payload_written (length (frame p)) (frame p) out room (Some p) false d2) as (d3 & E & (Ho & Ht & Hr) & Hp & Hf3); [done|done|done|done|].
  exists (set_sending None true None d3). split_and!; [|by split_and!|done].
  transitivity ((_ ← write_payload (length (frame p)) (frame p); _ ← on_inner poll_flush; modify (set_sending None true None)) d2).
  { unfold sink_send, sink_ready, mbind, pm_bind. rewrite Hfl. done. }
  unfold mbind, pm_bind. rewrite E. unfold on_inner, zoom, poll_flush, wire_write, wire_ready.
  destruct d3 as [[i ev o sh] rem st buf wr fl pk]. cbn in *. destruct ev as [|[]]; [done|done| |]; apply Forall_cons in Ht as [[? ?] _]; done.
Qed.

Lemma packets_written ps out (d : TD) : writer out (length (mjoin (frame <$> ps))) d -> td_flushed d = true ->
  exists d', send_all ps d = (Ready (Ok tt), d') /\ writer (out ++ mjoin (frame <$> ps)) 0 d'.
Proof.
  revert out d. induction ps as [|p ps IH]; intros out d Hw Hf; [exists d; cbn in *; rewrite app_nil_r; by split_and!|].
  change (mjoin (frame <$> p :: ps)) with (frame p ++ mjoin (frame <$> ps)) in *. rewrite length_app in Hw.
  destruct (packet_written p out _ d Hw Hf) as (d1 & E & Hw1 & Hf1). destruct (IH _ d1 Hw1 Hf1) as (d2 & E2 & Hw2).
  exists d2. rewrite app_assoc. split; [|done]. cbn [send_all]. unfold mbind, pm_bind. by rewrite E.
Qed.

(** C28: Packets of fewer than 65536 bytes to well-formed addresses survive the
    trip through a Trojan stream that makes nobody wait inside a frame.  Over
    a connection that takes some bytes at every write and never makes it wait,
    the sink writes the frames of the packets it is given, one after the
    other (a write that has to wait is begun again from the start of its
    frame, see [split_write_repeats]).  And a stream that carries these frames
    in batches, cut anywhere but with waits only between batches, yields the
    packets in order, each with its payload, its destination (rebuilt as a
    clone is) and the remote address, cloned too, as source. *)
Theorem trojan_udp_roundtrip ps pss i ev remote src
    (Hfit : Forall packet_fits ps) (Hev : takes ev) (Hroom : (length (mjoin (frame <$> ps)) <= length ev)%nat)
    (Hsrc : socks_clone remote = Ok src) (Hps : mjoin pss = ps) (Hb : batches pss i) :
  (exists d, send_all ps (datagram_new {| wi_in := []; wi_ev := ev; wi_out := []; wi_shut := false |} remote) = (Ready (Ok tt), d) /\
     wi_out (td_inner d) = mjoin (frame <$> ps)) /\
  exists qs d, recv_polls (length ps + length pss) (datagram_new {| wi_in := i; wi_ev := []; wi_out := []; wi_shut := false |} remote) = Some (qs, d) /\
     Forall2 (arrives src) ps qs.
Proof.
  split.
  - destruct (packets_written ps [] (datagram_new {| wi_in := []; wi_ev := ev; wi_out := []; wi_shut := false |} remote)) as (d & E & (Ho & _)); [by split_and!|done|].
    exists d. by rewrite Ho.
  - subst ps. apply (recv_batches remote src pss i Hb); [|done|by split_and!]. apply Forall_forall. intros l Hl. apply Forall_forall. intros p Hp.
    rewrite Forall_forall in Hfit. apply Hfit. apply list_elem_of_join. eauto.
Qed.

(** ** When a poll stops inside a frame *)
Definition demo_packet (bs : list Z) : UdpPacket := {| up_data := bs; up_src_addr := any_ipv4; up_dst_addr := Ip (SV4 0x7f000001 53) |}.
Definition stream_of (i : list ReadEv) : TD := datagram_new {| wi_in := i; wi_ev := []; wi_out := []; wi_shut := false |} any_ipv4.
(** A wait inside the payload of the first packet: its beginning is lost and
    the packet that comes out ends with the head of the next frame. *)
Lemma split_frame_corrupts :
  fst <$> recv_polls 2 (stream_of [RdData 1 [127; 0; 0; 1; 0; 53; 0; 4; 13; 10; 101; 102]; RdPending; RdData 103 ([104] ++ frame (demo_packet [105]))]) =
  Some [demo_packet [103; 104; 1; 127]].
Proof. vm_compute. reflexivity. Qed.
(** A wait inside a frame that is being written: the frame is written again
    from its beginning. *)
Lemma split_write_repeats :
  let d := start_send (demo_packet [9]) (datagram_new {| wi_in := []; wi_ev := [WrAccept 2; WrPending; WrAccept 20]; wi_out := []; wi_shut := false |} any_ipv4) in
  let d' := snd (sink_flush (snd (sink_flush d))) in
  td_flushed d' = true /\ wi_out (td_inner d') = [1; 127; 0] ++ frame (demo_packet [9]).
Proof. vm_compute. done. Qed.

Lemma trojan_udp_roundtrip_witness : exists qs d,
  recv_polls 4 (stream_of [RdData 1 [127; 0; 0]; RdData 1 [0; 53; 0; 1; 13; 10; 101]; RdPending; RdData 1 [127; 0; 0; 1; 0; 53; 0; 0; 13; 10]; RdPending]) = Some (qs, d) /\
  Forall2 (arrives any_ipv4) [demo_packet [101]; demo_packet []] qs.
Proof.
  apply (trojan_udp_roundtrip [demo_packet [101]; demo_packet []] [[demo_packet [101]]; [demo_packet []]] _
    (replicate 30 (WrAccept 0)) any_ipv4 any_ipv4).
  - repeat constructor; vm_compute; by intros.
  - apply Forall_replicate. by exists 0%nat.
  - vm_compute. lia.
  - reflexivity.
  - reflexivity.
  - eapply batches_cons; [vm_compute; reflexivity|reflexivity|]. eapply batches_cons; [vm_compute; reflexivity|reflexivity|]. by constructor.
Defined.
End wire.
