(* ===== verification/TQuic.v ===== *)
(** * Trojan over QUIC, the client ([clash-lib/src/proxy/trojan/{tquic,quic}.rs])

    The driver owns the endpoint and serves the commands of the client and of
    its streams; the callbacks of the endpoint fill the streams.  tquic is a
    parameter: a connection is what its streams can be read and written.
    The server's side is in [Trojan]. *)

From S2P Require Import Prelude Str Net Session Async.

(** ** tquic *)
Inductive TqRead : Type := TqData (data : list Z) (fin : bool) | TqDone | TqReset (code : Z) | TqReadErr.
Inductive TqWrite : Type := TqWrote (n : nat) | TqWriteDone | TqWriteErr.
Class TQuicLib : Type := {
  TConn : Type;
  stream_read : Z -> TConn -> TqRead * TConn;
  stream_write : Z -> list Z -> bool -> TConn -> TqWrite * TConn;
  stream_shutdown : Z -> TConn -> TConn;
}.
(** The algorithm configured, or the default. *)
Inductive Congestion : Type := CcBbr | CcBbr3 | CcCubic | CcCopa.
(* @src clash-lib/src/proxy/trojan/tquic.rs 246 259 TQuicDriver::run (congestion control) *)
Definition congestion_of {UC : UnicodeLib} (cc : option str) : Congestion :=
  match cc with
  | Some cc =>
    let cc := to_lowercase cc in
    if bool_decide (cc = lit "bbr3") then CcBbr3
    else if bool_decide (cc = lit "cubic") then CcCubic
    else if bool_decide (cc = lit "copa") then CcCopa else CcBbr
  | None => CcBbr
  end.

Section driver.
Context {TQ : TQuicLib}.

(** ** Commands and streams *)
(** A waiter is the number of the [oneshot] an answer goes to. *)
(* @src clash-lib/src/proxy/trojan/tquic.rs ~^enum Cmd~ Cmd *)
Inductive Cmd : Type :=
| Connect (server : str) (port : Z) (waiter : nat)
| OpenStream (conn_id : Z) (waiter : nat)
| WriteStream (conn_id stream_id : Z) (data : list Z) (fin : bool)
| CloseStream (conn_id stream_id : Z).
(** [qs_rx]: what the driver has sent to the stream and it has not taken;
    [qs_open]: whether the driver still has the sender; [qs_cmds]: the
    commands sent, while there is a driver. *)
(* @src clash-lib/src/proxy/trojan/tquic.rs ~^pub struct TQuicStream~ TQuicStream *)
Record TQuicStream : Type := {
  qs_conn_id : Z; qs_stream_id : Z; qs_rx : list (list Z); qs_open : bool; qs_buffer : list Z; qs_cmds : list Cmd; qs_driver : bool }.
Definition qs_put (rx : list (list Z)) (buffer : list Z) (t : TQuicStream) : TQuicStream := {|
  qs_conn_id := qs_conn_id t; qs_stream_id := qs_stream_id t; qs_rx := rx; qs_open := qs_open t; qs_buffer := buffer; qs_cmds := qs_cmds t;
  qs_driver := qs_driver t |}.
Definition qs_cmd (c : Cmd) (t : TQuicStream) : TQuicStream := {|
  qs_conn_id := qs_conn_id t; qs_stream_id := qs_stream_id t; qs_rx := qs_rx t; qs_open := qs_open t; qs_buffer := qs_buffer t;
  qs_cmds := qs_cmds t ++ [c]; qs_driver := qs_driver t |}.
(* @src clash-lib/src/proxy/trojan/tquic.rs ~^impl AsyncRead for TQuicStream~ TQuicStream::poll_read *)
#[global] Instance tquic_read : AsyncRead TQuicStream := fun cap t =>
  if bool_decide (qs_buffer t <> []) then (Ready (Ok (take cap (qs_buffer t))), qs_put (qs_rx t) (drop cap (qs_buffer t)) t)
  else match qs_rx t with
       | data :: rx => (Ready (Ok (take cap data)), qs_put rx (drop cap data) t)
       | [] => if qs_open t then (Pending, t) else (Ready (Ok []), t)
       end.
(* @src clash-lib/src/proxy/trojan/tquic.rs ~^impl AsyncWrite for TQuicStream~ TQuicStream::poll_write *)
#[global] Instance tquic_write : AsyncWrite TQuicStream := {|
  poll_write := fun buf t =>
    if qs_driver t then (Ready (Ok (length buf)), qs_cmd (WriteStream (qs_conn_id t) (qs_stream_id t) buf false) t)
    else (Ready (Err "driver closed"), t);
  poll_flush := fun t => (Ready (Ok tt), t);
  poll_shutdown := fun t =>
    if qs_driver t then (Ready (Ok tt), qs_cmd (CloseStream (qs_conn_id t) (qs_stream_id t)) t) else (Ready (Err "driver closed"), t);
|}.

(** ** The driver *)
(** Answers to waiters; [dr_streams] has, for each stream whose sender the
    driver holds, everything that was sent to it. *)
Inductive Reply : Type := Connected (r : res Z) | Opened (r : res (Z * Z)).
(* @src clash-lib/src/proxy/trojan/tquic.rs ~^struct TransportHandler~ TransportHandler *)
Record Driver : Type := {
  dr_conns : gmap Z TConn; dr_next_stream_ids : gmap Z Z; dr_streams : gmap Z (gmap Z (list (list Z)));
  dr_pending_handshakes : gmap Z nat; dr_replies : list (nat * Reply) }.
Definition driver_new : Driver :=
  {| dr_conns := ∅; dr_next_stream_ids := ∅; dr_streams := ∅; dr_pending_handshakes := ∅; dr_replies := [] |}.
Definition set_conns (m : gmap Z TConn) (d : Driver) : Driver := {|
  dr_conns := m; dr_next_stream_ids := dr_next_stream_ids d; dr_streams := dr_streams d; dr_pending_handshakes := dr_pending_handshakes d;
  dr_replies := dr_replies d |}.
Definition set_streams (m : gmap Z (gmap Z (list (list Z)))) (d : Driver) : Driver := {|
  dr_conns := dr_conns d; dr_next_stream_ids := dr_next_stream_ids d; dr_streams := m; dr_pending_handshakes := dr_pending_handshakes d;
  dr_replies := dr_replies d |}.
Definition set_pending (m : gmap Z nat) (d : Driver) : Driver := {|
  dr_conns := dr_conns d; dr_next_stream_ids := dr_next_stream_ids d; dr_streams := dr_streams d; dr_pending_handshakes := m;
  dr_replies := dr_replies d |}.
Definition set_next (m : gmap Z Z) (d : Driver) : Driver := {|
  dr_conns := dr_conns d; dr_next_stream_ids := m; dr_streams := dr_streams d; dr_pending_handshakes := dr_pending_handshakes d;
  dr_replies := dr_replies d |}.
Definition reply (w : nat) (r : Reply) (d : Driver) : Driver := {|
  dr_conns := dr_conns d; dr_next_stream_ids := dr_next_stream_ids d; dr_streams := dr_streams d; dr_pending_handshakes := dr_pending_handshakes d;
  dr_replies := dr_replies d ++ [(w, r)] |}.

(** *** Callbacks of the endpoint *)
(* @src clash-lib/src/proxy/trojan/tquic.rs ~    fn on_conn_established~ TransportHandler::on_conn_established *)
Definition on_conn_established (index : Z) (d : Driver) : Driver :=
  match dr_pending_handshakes d !! index with
  | Some tx => reply tx (Connected (Ok index)) (set_pending (delete index (dr_pending_handshakes d)) d)
  | None => d
  end.
(** The endpoint has let the connection go. *)
(* @src clash-lib/src/proxy/trojan/tquic.rs ~    fn on_conn_closed~ TransportHandler::on_conn_closed *)
Definition on_conn_closed (index : Z) (d : Driver) : Driver :=
  let d := set_streams (delete index (dr_streams d)) (set_conns (delete index (dr_conns d)) d) in
  match dr_pending_handshakes d !! index with
  | Some tx => reply tx (Connected (Err "connection closed before established")) (set_pending (delete index (dr_pending_handshakes d)) d)
  | None => d
  end.
Definition to_stream (index stream_id : Z) (data : list Z) (d : Driver) : Driver :=
  match dr_streams d !! index ≫= (fun m : gmap Z (list (list Z)) => m !! stream_id) with
  | Some sent =>
    if bool_decide (data = []) then d
    else set_streams (<[index := <[stream_id := sent ++ [data]]> (default ∅ (dr_streams d !! index))]> (dr_streams d)) d
  | None => d
  end.
(** Everything that can be read is; the end of the stream is not told. *)
(* @src clash-lib/src/proxy/trojan/tquic.rs ~    fn on_stream_readable~ TransportHandler::on_stream_readable *)
Fixpoint on_stream_readable (fuel : nat) (index stream_id : Z) (d : Driver) : option Driver :=
  match fuel with
  | O => None
  | S fuel' =>
    match dr_conns d !! index with
    | None => Some d
    | Some conn =>
      match stream_read stream_id conn with
      | (TqData data _, conn) => on_stream_readable fuel' index stream_id (to_stream index stream_id data (set_conns (<[index := conn]> (dr_conns d)) d))
      | (_, conn) => Some (set_conns (<[index := conn]> (dr_conns d)) d)
      end
    end
  end.
(* @src clash-lib/src/proxy/trojan/tquic.rs ~    fn on_stream_closed~ TransportHandler::on_stream_closed *)
Definition on_stream_closed (index stream_id : Z) (d : Driver) : Driver :=
  match dr_streams d !! index with
  | Some m => set_streams (<[index := delete stream_id m]> (dr_streams d)) d
  | None => d
  end.

(** *** Commands *)
(** [resolved] is the answer of the resolver, [connected] what the endpoint
    made of it, with the new connection; [processed]: whether
    [process_connections] went well, else the driver ends. *)
(* @src clash-lib/src/proxy/trojan/tquic.rs 283 351 TQuicDriver::run (Connect) *)
Definition on_connect (resolved : res (option IpAddr)) (connected : res (Z * TConn)) (processed : bool) (waiter : nat) (d : Driver) : res Driver :=
  match resolved with
  | Ok (Some _) =>
    match connected with
    | Ok (index, conn) =>
      let d := set_pending (<[index := waiter]> (dr_pending_handshakes d))
                 (set_next (<[index := 0]> (dr_next_stream_ids d)) (set_conns (<[index := conn]> (dr_conns d)) d)) in
      if processed then Ok d else Err "process_connections"
    | Err _ => Ok (reply waiter (Connected (Err "connect failed")) d)
    | Panic => Panic
    end
  | Ok None => Ok (reply waiter (Connected (Err "dns resolve empty")) d)
  | Err _ => Ok (reply waiter (Connected (Err "dns resolve failed")) d)
  | Panic => Panic
  end.
(* @src clash-lib/src/proxy/trojan/tquic.rs 352 377 TQuicDriver::run (OpenStream) *)
Definition on_open_stream (conn_id : Z) (waiter : nat) (d : Driver) : Driver :=
  match dr_conns d !! conn_id with
  | Some _ =>
    let stream_id := default 0 (dr_next_stream_ids d !! conn_id) in
    let d := set_next (<[conn_id := stream_id + 4]> (dr_next_stream_ids d)) d in
    let d := set_streams (<[conn_id := <[stream_id := []]> (default ∅ (dr_streams d !! conn_id))]> (dr_streams d)) d in
    reply waiter (Opened (Ok (conn_id, stream_id))) d
  | None => reply waiter (Opened (Err "connection not found")) d
  end.
(** However much was taken, the rest is forgotten. *)
(* @src clash-lib/src/proxy/trojan/tquic.rs 378 387 TQuicDriver::run (WriteStream) *)
Definition on_write_stream (processed : bool) (conn_id stream_id : Z) (data : list Z) (fin : bool) (d : Driver) : res Driver :=
  match dr_conns d !! conn_id with
  | Some conn =>
    let d := set_conns (<[conn_id := snd (stream_write stream_id data fin conn)]> (dr_conns d)) d in
    if processed then Ok d else Err "process_connections"
  | None => Ok d
  end.
(* @src clash-lib/src/proxy/trojan/tquic.rs 388 394 TQuicDriver::run (CloseStream) *)
Definition on_close_stream (processed : bool) (conn_id stream_id : Z) (d : Driver) : res Driver :=
  match dr_conns d !! conn_id with
  | Some conn =>
    let d := set_conns (<[conn_id := stream_shutdown stream_id conn]> (dr_conns d)) d in
    if processed then Ok d else Err "process_connections"
  | None => Ok d
  end.
(* @src clash-lib/src/proxy/trojan/tquic.rs 282 395 TQuicDriver::run (command) *)
Definition on_cmd (resolved : res (option IpAddr)) (connected : res (Z * TConn)) (processed : bool) (c : Cmd) (d : Driver) : res Driver :=
  match c with
  | Connect _ _ waiter => on_connect resolved connected processed waiter d
  | OpenStream conn_id waiter => Ok (on_open_stream conn_id waiter d)
  | WriteStream conn_id stream_id data fin => on_write_stream processed conn_id stream_id data fin d
  | CloseStream conn_id stream_id => on_close_stream processed conn_id stream_id d
  end.
(** The client makes a connection for every stream. *)
(* @src clash-lib/src/proxy/trojan/tquic.rs ~    pub async fn open_stream~ TQuicClient::open_stream *)
Definition open_stream_commands (server : str) (port : Z) (w1 w2 : nat) (conn_reply : res Z) : list Cmd :=
  Connect server port w1 :: match conn_reply with Ok conn_id => [OpenStream conn_id w2] | _ => [] end.
(* @src clash-lib/src/proxy/trojan/tquic.rs ~    fn on_packets_send~ PacketSender::on_packets_send *)
Fixpoint on_packets_send (try_send_to : list Z -> bool) (pkts : list (list Z)) : nat :=
  match pkts with
  | [] => 0
  | p :: pkts' => if try_send_to p then S (on_packets_send try_send_to pkts') else 0
  end.

(** Everything that happens to the driver.  The network changes connections;
    a new connection has an index of its own. *)
Inductive driver_step (d : Driver) : Driver -> Prop :=
| ds_cmd resolved connected processed c d' :
    (forall index conn, connected = Ok (index, conn) -> dr_conns d !! index = None) ->
    on_cmd resolved connected processed c d = Ok d' -> driver_step d d'
| ds_established index : driver_step d (on_conn_established index d)
| ds_conn_closed index : driver_step d (on_conn_closed index d)
| ds_readable fuel index stream_id d' : on_stream_readable fuel index stream_id d = Some d' -> driver_step d d'
| ds_stream_closed index stream_id : driver_step d (on_stream_closed index stream_id d)
| ds_network index conn conn' : dr_conns d !! index = Some conn -> driver_step d (set_conns (<[index := conn']> (dr_conns d)) d).
End driver.

(** * Theorems *)
Section driver_spec.
Context {TQ : TQuicLib}.

(** Streams belong to connections that are there, and their numbers, which
    are those of a client's streams, are below the next one. *)
Definition driver_inv (d : Driver) : Prop :=
  (forall index m, dr_streams d !! index = Some m -> is_Some (dr_conns d !! index)) /\
  (forall index m sid, dr_streams d !! index = Some m -> is_Some (m !! sid) ->
     exists n, dr_next_stream_ids d !! index = Some n /\ 0 <= sid < n /\ sid mod 4 = 0) /\
  (forall index n, dr_next_stream_ids d !! index = Some n -> 0 <= n /\ n mod 4 = 0).
Lemma driver_new_inv : driver_inv driver_new.
Proof. split_and!; cbn; intros until 0; by rewrite lookup_empty. Qed.

Lemma set_conn_inv d index conn : driver_inv d -> driver_inv (set_conns (<[index := conn]> (dr_conns d)) d).
Proof.
  intros (H1 & H2 & H3). split_and!; [|done|done]. intros i m Hi. cbn. destruct (decide (i = index)) as [->|]; [by rewrite lookup_insert_eq|].
  rewrite lookup_insert_ne by done. by eapply H1.
Qed.
Lemma to_stream_inv d index sid data : driver_inv d -> driver_inv (to_stream index sid data d).
Proof.
  intros (H1 & H2 & H3). unfold to_stream. destruct (dr_streams d !! index) as [m|] eqn:E; cbn [mbind option_bind]; [|by split_and!].
  destruct (m !! sid) as [sent|] eqn:Es; [|by split_and!]. case_bool_decide; [by split_and!|]. cbn [default]. split_and!; [| |done].
  - intros i m' Hi. cbn in *. destruct (decide (i = index)) as [->|Hne]; [by eapply H1|]. rewrite lookup_insert_ne in Hi by done. by eapply H1.
  - intros i m' s Hi Hs. cbn in *. destruct (decide (i = index)) as [->|Hne].
    + rewrite lookup_insert_eq in Hi. injection Hi as <-. apply (H2 index m s E). destruct (decide (s = sid)) as [->|]; [by rewrite Es|].
      by rewrite lookup_insert_ne in Hs by done.
    + rewrite lookup_insert_ne in Hi by done. by eapply H2.
Qed.
Lemma readable_inv fuel : forall index sid d d', driver_inv d -> on_stream_readable fuel index sid d = Some d' -> driver_inv d'.
Proof.
  induction fuel as [|fuel IH]; intros index sid d d' Hd; [done|]. cbn [on_stream_readable].
  destruct (dr_conns d !! index) as [conn|]; [|by intros [= <-]].
  destruct (stream_read sid conn) as [[data fin| |c|] conn']; [|intros [= <-]; by apply set_conn_inv..].
  apply IH. by apply to_stream_inv, set_conn_inv.
Qed.
Lemma open_stream_inv d conn_id w : driver_inv d -> driver_inv (on_open_stream conn_id w d).
Proof.
  intros (H1 & H2 & H3). unfold on_open_stream. destruct (dr_conns d !! conn_id) as [conn|] eqn:E; [|by split_and!].
  assert (0 <= default 0 (dr_next_stream_ids d !! conn_id) /\ default 0 (dr_next_stream_ids d !! conn_id) mod 4 = 0) as [Hn Hm].
  { destruct (dr_next_stream_ids d !! conn_id) as [n0|] eqn:En; [by apply H3 in En|done]. }
  set (sid := default 0 (dr_next_stream_ids d !! conn_id)) in *. split_and!; cbn.
  - intros i m Hi. destruct (decide (i = conn_id)) as [->|]; [by rewrite E|]. rewrite lookup_insert_ne in Hi by done. by eapply H1.
  - intros i m s Hi Hs. destruct (decide (i = conn_id)) as [->|].
    + rewrite lookup_insert_eq in Hi. injection Hi as <-. exists (sid + 4). rewrite lookup_insert_eq. split; [done|].
      destruct (decide (s = sid)) as [->|]; [lia|]. rewrite lookup_insert_ne in Hs by done.
      destruct (dr_streams d !! conn_id) as [m0|] eqn:Em; cbn [default] in Hs; [|by rewrite lookup_empty in Hs; destruct Hs].
      destruct (H2 _ _ _ Em Hs) as (n2 & Hn0 & Hs0 & Hs1). assert (sid = n2) as Hsid by (subst sid; by rewrite Hn0). split; [lia|done].
    + rewrite lookup_insert_ne in Hi by done. rewrite lookup_insert_ne by done. by eapply H2.
  - intros i n1 Hi. destruct (decide (i = conn_id)) as [->|]; [|rewrite lookup_insert_ne in Hi by done; by eapply H3].
    rewrite lookup_insert_eq in Hi. injection Hi as <-. split; [lia|]. Z.to_euclidean_division_equations; lia.
Qed.
Lemma connect_inv d resolved connected processed w d' : (forall index conn, connected = Ok (index, conn) -> dr_conns d !! index = None) ->
  on_connect resolved connected processed w d = Ok d' -> driver_inv d -> driver_inv d'.
Proof.
  intros Hnew H (H1 & H2 & H3). unfold on_connect in H. destruct resolved as [[ip|]|e|]; [|by injection H as <-; split_and!|by injection H as <-; split_and!|done].
  destruct connected as [[index conn]|e|]; [|by injection H as <-; split_and!|done]. destruct processed; [|done]. injection H as <-.
  specialize (Hnew index conn eq_refl).
  assert (dr_streams d !! index = None) as Hs.
  { destruct (dr_streams d !! index) as [m|] eqn:E; [|done]. apply H1 in E as [c E]. congruence. }
  split_and!; cbn.
  - intros i m Hi. destruct (decide (i = index)) as [->|]; [by rewrite lookup_insert_eq|]. rewrite lookup_insert_ne by done. by eapply H1.
  - intros i m s Hi Hm. destruct (decide (i = index)) as [->|]; [congruence|]. rewrite lookup_insert_ne by done. by eapply H2.
  - intros i n Hi. destruct (decide (i = index)) as [->|]; [|rewrite lookup_insert_ne in Hi by done; by eapply H3].
    rewrite lookup_insert_eq in Hi. injection Hi as <-. done.
Qed.
Lemma driver_step_inv d d' : driver_step d d' -> driver_inv d -> driver_inv d'.
Proof.
  intros Hst Hd. destruct Hst as [resolved connected processed c d' Hnew H|index|index|fuel index sid d' H|index sid|index conn conn' Hc].
  - destruct c as [server port w|conn_id w|conn_id sid data fin|conn_id sid]; cbn in H.
    + by eapply connect_inv.
    + injection H as <-. by apply open_stream_inv.
    + unfold on_write_stream in H. destruct (dr_conns d !! conn_id); [|by injection H as <-]. destruct processed; [|done]. injection H as <-. by apply set_conn_inv.
    + unfold on_close_stream in H. destruct (dr_conns d !! conn_id); [|by injection H as <-]. destruct processed; [|done]. injection H as <-. by apply set_conn_inv.
  - unfold on_conn_established. by destruct (dr_pending_handshakes d !! index).
  - assert (driver_inv (set_streams (delete index (dr_streams d)) (set_conns (delete index (dr_conns d)) d))) as Hdel.
    { destruct Hd as (H1 & H2 & H3). split_and!; cbn; [| |done].
      - intros i m Hi. destruct (decide (i = index)) as [->|]; [by rewrite lookup_delete_eq in Hi|]. rewrite lookup_delete_ne in Hi by done. rewrite lookup_delete_ne by done. by eapply H1.
      - intros i m s Hi Hs. destruct (decide (i = index)) as [->|]; [by rewrite lookup_delete_eq in Hi|]. rewrite lookup_delete_ne in Hi by done. by eapply H2. }
    unfold on_conn_closed. cbn. by destruct (dr_pending_handshakes d !! index).
  - by eapply readable_inv.
  - unfold on_stream_closed. destruct (dr_streams d !! index) as [m|] eqn:E; [|done]. destruct Hd as (H1 & H2 & H3). split_and!; cbn; [| |done].
    + intros i m' Hi. destruct (decide (i = index)) as [->|]; [by eapply H1|]. rewrite lookup_insert_ne in Hi by done. by eapply H1.
    + intros i m' s Hi Hs. destruct (decide (i = index)) as [->|]; [|rewrite lookup_insert_ne in Hi by done; by eapply H2].
      rewrite lookup_insert_eq in Hi. injection Hi as <-. apply (H2 index m s E). destruct (decide (s = sid)) as [->|]; [by rewrite lookup_delete_eq in Hs; destruct Hs|].
      by rewrite lookup_delete_ne in Hs by done.
  - by apply set_conn_inv.
Qed.
(** A stream that is opened gets a number that no open stream of the
    connection has, of the kind a client may open. *)
Lemma opened_stream_fresh d conn_id w : rtc driver_step driver_new d -> is_Some (dr_conns d !! conn_id) ->
  exists sid, dr_replies (on_open_stream conn_id w d) = dr_replies d ++ [(w, Opened (Ok (conn_id, sid)))] /\ 0 <= sid /\ sid mod 4 = 0 /\
    forall m, dr_streams d !! conn_id = Some m -> m !! sid = None.
Proof.
  intros Hr [conn Hc]. assert (driver_inv d) as (H1 & H2 & H3).
  { clear Hc. revert Hr. generalize driver_new_inv. generalize driver_new. intros d0 H0. induction 1 as [|x y z Hs _ IH]; [done|]. apply IH. by eapply driver_step_inv. }
  unfold on_open_stream. rewrite Hc. eexists. split; [reflexivity|].
  destruct (dr_next_stream_ids d !! conn_id) as [n|] eqn:En; cbn [default from_option id].
  - destruct (H3 _ _ En). split_and!; [lia|done|]. intros m Hm. destruct (m !! n) as [x|] eqn:E; [|done].
    destruct (H2 _ _ n Hm (mk_is_Some _ _ E)) as (n' & Hn' & Hlt & _). rewrite En in Hn'. injection Hn' as <-. lia.
  - split_and!; [done|done|]. intros m Hm. destruct (m !! 0) as [x|] eqn:E; [|done]. destruct (H2 _ _ 0 Hm (mk_is_Some _ _ E)) as (n' & Hn' & _). congruence.
Qed.

(** What reading until there is nothing left gives. *)
Fixpoint read_all (fuel : nat) (sid : Z) (conn : TConn) : option (list (list Z)) :=
  match fuel with
  | O => None
  | S fuel' => match stream_read sid conn with
               | (TqData data _, conn) => cons data <$> read_all fuel' sid conn
               | _ => Some []
               end
  end.
Abbreviation log d index sid := (dr_streams d !! index ≫= (fun m : gmap Z (list (list Z)) => m !! sid)).
Lemma to_stream_log index sid data d sent : log d index sid = Some sent ->
  log (to_stream index sid data d) index sid = Some (sent ++ (if bool_decide (data = []) then [] else [data])).
Proof.
  intros H. unfold to_stream. rewrite H. case_bool_decide; [by rewrite app_nil_r|]. cbn. rewrite lookup_insert_eq. cbn. by rewrite lookup_insert_eq.
Qed.
(** A readable stream is given all that can be read, in order. *)
Lemma stream_readable_delivers fuel : forall index sid d conn sent chunks d', dr_conns d !! index = Some conn -> log d index sid = Some sent ->
  read_all fuel sid conn = Some chunks -> on_stream_readable fuel index sid d = Some d' ->
  exists more, log d' index sid = Some (sent ++ more) /\ concat more = concat chunks.
Proof.
  induction fuel as [|fuel IH]; intros index sid d conn sent chunks d' Hc Hl; [done|]. cbn [read_all on_stream_readable]. rewrite Hc.
  destruct (stream_read sid conn) as [[data fin| |c|] conn']; [|intros [= <-] [= <-]; exists []; by rewrite app_nil_r..].
  destruct (read_all fuel sid conn') as [rest|] eqn:Er; [|done]. intros [= <-] Hd.
  set (d1 := set_conns (<[index := conn']> (dr_conns d)) d) in Hd.
  assert (log d1 index sid = Some sent) as Hl1 by exact Hl.
  assert (dr_conns (to_stream index sid data d1) !! index = Some conn') as Hc1.
  { unfold to_stream. rewrite Hl1. case_bool_decide; cbn; by rewrite lookup_insert_eq. }
  destruct (IH _ _ _ _ _ _ _ Hc1 (to_stream_log index sid data d1 sent Hl1) Er Hd) as (more & Hm & Hcat).
  eexists. rewrite <- app_assoc in Hm. split; [exact Hm|]. rewrite concat_app, Hcat. case_bool_decide as Hn; cbn; [by rewrite Hn|by rewrite app_nil_r].
Qed.
(** The end of a stream is not told: the reader waits until the stream is
    closed altogether. *)
Lemma fin_not_told fuel index sid d conn conn' sent : dr_conns d !! index = Some conn -> log d index sid = Some sent ->
  stream_read sid conn = (TqData [] true, conn') -> fst (stream_read sid conn') = TqDone ->
  exists d', on_stream_readable (S (S fuel)) index sid d = Some d' /\ log d' index sid = Some sent.
Proof.
  intros Hc Hl Hr Hd. cbn [on_stream_readable]. rewrite Hc, Hr. unfold to_stream.
  change (log (set_conns (<[index := conn']> (dr_conns d)) d) index sid) with (log d index sid). rewrite Hl. rewrite bool_decide_eq_true_2 by done.
  cbn [dr_conns set_conns]. rewrite lookup_insert_eq. destruct (stream_read sid conn') as [r c2]. cbn in Hd. subst r. eexists. split; [reflexivity|exact Hl].
Qed.
(** Bytes that the writer was told are written are lost when the connection
    does not take them, as when the peer's window is full. *)
Lemma blocked_write_lost t bs conn d processed : qs_driver t = true -> dr_conns d !! qs_conn_id t = Some conn ->
  stream_write (qs_stream_id t) bs false conn = (TqWriteDone, conn) ->
  exists t', Async.poll_write bs t = (Ready (Ok (length bs)), t') /\
    qs_cmds t' = qs_cmds t ++ [WriteStream (qs_conn_id t) (qs_stream_id t) bs false] /\
    forall d', on_write_stream processed (qs_conn_id t) (qs_stream_id t) bs false d = Ok d' -> dr_conns d' = dr_conns d.
Proof.
  intros Hd Hc Hw. cbn [Async.poll_write tquic_write]. rewrite Hd. eexists. split; [reflexivity|]. split; [done|]. intros d'. unfold on_write_stream.
  rewrite Hc, Hw. destruct processed; [|done]. intros [= <-]. cbn. by apply insert_id.
Qed.
End driver_spec.

#[global] Instance tquic_read_laws : ReadLaws TQuicStream.
Proof.
  intros cap t bs t'. unfold Async.poll_read, tquic_read. case_bool_decide; [intros [= <- _]; rewrite length_take; lia|].
  destruct (qs_rx t) as [|x l]; [destruct (qs_open t)|]; [done| |]; intros [= <- _]; [cbn; lia|]. rewrite length_take. lia.
Qed.
#[global] Instance tquic_write_laws : WriteLaws TQuicStream.
Proof. intros bs t n t'. cbn. destruct (qs_driver t); [|done]. by intros [= <- _]. Qed.
