(* ===== verification/OutboundManager.v ===== *)
(** * Outbound manager ([app/outbound/manager.rs], [proxy/group/mod.rs])

    The manager turns the configuration into the table of outbound handlers:
    the plain proxies, the proxy providers, the groups built from them in
    dependency order, and the group GLOBAL over everything.  Providers and
    selector indices are shared objects in the source ([Arc]); here they live
    in two stores of the state and a handler holds their positions. *)

From S2P Require Import Prelude F64 Str Net Session ProxyManager Groups DagSort Profile DnsConfig.

(** ** Outcomes

    An error of the configuration with its message, the names of a loop of
    groups, the end of the process ([print_and_exit!]) or a panic. *)
Inductive LoadError : Type :=
| ConfigError (message : str)
| LoopError (names : list str)
| Exited (message : str)
| Panicked.
Inductive loaded (A : Type) : Type := Loaded (a : A) | Failed (e : LoadError).
Arguments Loaded {A} a.
Arguments Failed {A} e.
Definition loaded_bind {A B} (f : A -> loaded B) (m : loaded A) : loaded B :=
  match m with Loaded a => f a | Failed e => Failed e end.
#[global] Instance loaded_mret : MRet loaded := @Loaded.
#[global] Instance loaded_mbind : MBind loaded := @loaded_bind.
Fixpoint loaded_fold {A B} (f : A -> B -> loaded A) (a : A) (l : list B) : loaded A :=
  match l with
  | [] => Loaded a
  | x :: l' => a' ← f a x; loaded_fold f a' l'
  end.
Fixpoint loaded_map {A B} (f : A -> loaded B) (l : list A) : loaded (list B) :=
  match l with
  | [] => Loaded []
  | x :: l' => y ← f x; ys ← loaded_map f l'; Loaded (y :: ys)
  end.
Definition or_failed {A} (o : option A) (e : LoadError) : loaded A :=
  match o with Some a => Loaded a | None => Failed e end.
Definition of_res {A} (r : res A) : loaded A :=
  match r with Ok a => Loaded a | Err e => Failed (ConfigError (lit e)) | Panic => Failed Panicked end.

(** ** Names *)
(* @src clash-lib/src/config/internal/proxy.rs ~^pub const PROXY_DIRECT~ PROXY_DIRECT *)
Definition PROXY_DIRECT : str := lit "DIRECT".
(* @src clash-lib/src/config/internal/proxy.rs ~^pub const PROXY_REJECT~ PROXY_REJECT *)
Definition PROXY_REJECT : str := lit "REJECT".
(* @src clash-lib/src/config/internal/proxy.rs ~^pub const PROXY_GLOBAL~ PROXY_GLOBAL *)
Definition PROXY_GLOBAL : str := lit "GLOBAL".
(* @src clash-lib/src/app/outbound/manager.rs ~^static RESERVED_PROVIDER_NAME~ RESERVED_PROVIDER_NAME *)
Definition RESERVED_PROVIDER_NAME : str := lit "default".

(* @src clash-lib/src/proxy/mod.rs ~^pub enum OutboundType~ OutboundType *)
Inductive OutboundType : Type :=
| OtShadowsocks | OtVmess | OtVless | OtTrojan | OtWireGuard | OtTor | OtTuic | OtSocks5 | OtHysteria2 | OtSsh
| OtShadowQuic | OtUrlTest | OtSelector | OtRelay | OtLoadBalance | OtSmart | OtFallback | OtDirect | OtReject.

(* @src clash-lib/src/app/remote_content_manager/providers/mod.rs ~^pub enum ProviderVehicleType~ ProviderVehicleType *)
Inductive ProviderVehicleType : Type := PvtFile | PvtHttp | PvtCompatible | PvtInline.

(** ** Provider definitions of the configuration *)
(* @src clash-lib/src/config/internal/proxy.rs ~^pub struct HealthCheck~ HealthCheck *)
Record HealthCheckDef : Type := { hcd_enable : bool; hcd_url : str; hcd_interval : Z; hcd_lazy : option bool }.
(* @src clash-lib/src/config/internal/proxy.rs ~^pub struct OutboundHttpProvider~ OutboundHttpProvider *)
Record OutboundHttpProvider : Type := {
  ohp_name : str; ohp_url : str; ohp_interval : Z; ohp_path : str; ohp_health_check : HealthCheckDef }.
(* @src clash-lib/src/config/internal/proxy.rs ~^pub struct OutboundFileProvider~ OutboundFileProvider *)
Record OutboundFileProvider : Type := {
  ofp_name : str; ofp_path : str; ofp_interval : option Z; ofp_health_check : HealthCheckDef }.
(* @src clash-lib/src/config/internal/proxy.rs ~^pub enum OutboundProxyProviderDef~ OutboundProxyProviderDef *)
Inductive OutboundProxyProviderDef : Type :=
| PdHttp (d : OutboundHttpProvider)
| PdFile (d : OutboundFileProvider).

(** ** Handlers

    A plain outbound is what the manager uses of it. *)
Class PlainOutbound (X : Type) : Type := {
  px_name : X -> str;
  px_proto : X -> OutboundType;
  px_support_dialer : X -> option str;
}.

(** The options of a group; [go_udp] is unused by a relay. *)
(* @src clash-lib/src/proxy/options.rs ~^pub struct HandlerCommonOptions~ HandlerCommonOptions *)
Record GroupOpts : Type := { go_name : str; go_icon : option str; go_url : option str; go_udp : bool }.

(** A selector: its options, the position of the index it keeps and of its
    providers. *)
(* @src clash-lib/src/proxy/group/selector/mod.rs ~^pub struct Handler \{~ selector::Handler *)
Record SelectorHandler : Type := { sel_opts : GroupOpts; sel_cell : nat; sel_pvs : list nat }.

Section manager.
Context {X : Type} {PX : PlainOutbound X}.

(** [pvs]: positions in the store of providers; [cell]: of the index a URL
    test keeps. *)
Inductive Handler : Type :=
| HPlain (x : X)
| HRelay (o : GroupOpts) (pvs : list nat)
| HUrlTest (o : GroupOpts) (tolerance : Z) (cell : nat) (pvs : list nat)
| HFallback (o : GroupOpts) (pvs : list nat)
| HLoadBalance (o : GroupOpts) (strategy : LoadBalanceStrategy) (pvs : list nat)
| HSelector (s : SelectorHandler)
| HSmart (o : GroupOpts) (max_retries bandwidth_weight : option Z) (pvs : list nat).

Definition handler_opts (h : Handler) : option GroupOpts :=
  match h with
  | HPlain _ => None
  | HRelay o _ | HUrlTest o _ _ _ | HFallback o _ | HLoadBalance o _ _ | HSmart o _ _ _ => Some o
  | HSelector s => Some (sel_opts s)
  end.
Definition handler_pvs (h : Handler) : list nat :=
  match h with
  | HPlain _ => []
  | HRelay _ pvs | HUrlTest _ _ _ pvs | HFallback _ pvs | HLoadBalance _ _ pvs
  | HSmart _ _ _ pvs => pvs
  | HSelector s => sel_pvs s
  end.
Definition handler_name (h : Handler) : str :=
  match h with HPlain x => px_name x | _ => default [] (go_name <$> handler_opts h) end.
Definition handler_proto (h : Handler) : OutboundType :=
  match h with
  | HPlain x => px_proto x
  | HRelay _ _ => OtRelay
  | HUrlTest _ _ _ _ => OtUrlTest
  | HFallback _ _ => OtFallback
  | HLoadBalance _ _ _ => OtLoadBalance
  | HSelector _ => OtSelector
  | HSmart _ _ _ _ => OtSmart
  end.
(** The groups keep the default of the trait. *)
(* @src clash-lib/src/proxy/mod.rs ~^    fn support_dialer~ DialWithConnector::support_dialer *)
Definition handler_dialer (h : Handler) : option str :=
  match h with HPlain x => px_support_dialer x | _ => None end.

(** ** State *)
Record PvObj : Type := { po_name : str; po_vehicle : ProviderVehicleType; po_provider : Provider (P := Handler) }.

(* @src clash-lib/src/app/outbound/manager.rs ~^pub struct OutboundManager~ OutboundManager *)
Record OutboundManager : Type := {
  handlers : gmap str Handler;
  proxy_providers : gmap str nat;
  selector_control : gmap str SelectorHandler;
  providers : list PvObj;
  cells : list Z;
}.
Definition manager_empty : OutboundManager :=
  {| handlers := ∅; proxy_providers := ∅; selector_control := ∅; providers := []; cells := [] |}.

Definition add_provider (registered : str) (p : PvObj) (m : OutboundManager) : OutboundManager :=
  {| handlers := handlers m; proxy_providers := <[registered := length (providers m)]> (proxy_providers m);
     selector_control := selector_control m; providers := providers m ++ [p]; cells := cells m |}.
Definition add_handler (name : str) (h : Handler) (m : OutboundManager) : OutboundManager :=
  {| handlers := <[name := h]> (handlers m); proxy_providers := proxy_providers m;
     selector_control := selector_control m; providers := providers m; cells := cells m |}.
Definition add_control (name : str) (h : SelectorHandler) (m : OutboundManager) : OutboundManager :=
  {| handlers := handlers m; proxy_providers := proxy_providers m;
     selector_control := <[name := h]> (selector_control m); providers := providers m; cells := cells m |}.
Definition add_cell (z : Z) (m : OutboundManager) : OutboundManager :=
  {| handlers := handlers m; proxy_providers := proxy_providers m;
     selector_control := selector_control m; providers := providers m; cells := cells m ++ [z] |}.
Definition set_provider (i : nat) (p : PvObj) (m : OutboundManager) : OutboundManager :=
  {| handlers := handlers m; proxy_providers := proxy_providers m;
     selector_control := selector_control m; providers := <[i := p]> (providers m); cells := cells m |}.
Definition set_cell (i : nat) (z : Z) (m : OutboundManager) : OutboundManager :=
  {| handlers := handlers m; proxy_providers := proxy_providers m;
     selector_control := selector_control m; providers := providers m; cells := <[i := z]> (cells m) |}.

(** The provider objects behind positions. *)
Definition deref (m : OutboundManager) (pvs : list nat) : list (Provider (P := Handler)) :=
  omap (fun i => po_provider <$> providers m !! i) pvs.

(* @src clash-lib/src/app/outbound/manager.rs ~    pub fn get_outbound~ OutboundManager::get_outbound *)
Definition get_outbound (m : OutboundManager) (name : str) : option Handler := handlers m !! name.
(* @src clash-lib/src/app/outbound/manager.rs ~    pub fn get_proxy_provider\(~ OutboundManager::get_proxy_provider *)
Definition get_proxy_provider (m : OutboundManager) (name : str) : option nat := proxy_providers m !! name.
(* @src clash-lib/src/app/outbound/manager.rs ~    pub fn get_selector_control~ OutboundManager::get_selector_control *)
Definition get_selector_control (m : OutboundManager) (name : str) : option SelectorHandler := selector_control m !! name.
(* @src clash-lib/src/app/outbound/manager.rs ~    pub fn get_proxy_providers~ OutboundManager::get_proxy_providers *)
Definition get_proxy_providers (m : OutboundManager) : gmap str nat := proxy_providers m.

(** ** Proxy providers *)

(** [Uri::parse]; what the fetch at start hands the provider, by name; and
    the orders in which the hash maps are iterated. *)
Context {SD : Type} {OB : Outbound Handler}.
Context (parse_uri : str -> option Uri) (fetched : str -> option (list X)).
Context (now : Z).

(* @src clash-lib/src/app/outbound/manager.rs 835 863 OutboundManager::load_proxy_providers (HTTP) *)
Definition load_http_provider (m : OutboundManager) (name : str) (http : OutboundHttpProvider) : loaded OutboundManager :=
  _ ← or_failed (parse_uri (ohp_url http)) (Exited (lit "invalid provider url: " ++ ohp_url http));
  let hc := hc_new [] (hcd_interval (ohp_health_check http)) (default false (hcd_lazy (ohp_health_check http))) now in
  Loaded (add_provider name {| po_name := name; po_vehicle := PvtHttp; po_provider := proxy_set_new hc |} m).

(* @src clash-lib/src/app/outbound/manager.rs 864 890 OutboundManager::load_proxy_providers (file) *)
Definition load_file_provider (m : OutboundManager) (name : str) (file : OutboundFileProvider) : loaded OutboundManager :=
  let hc := hc_new [] (hcd_interval (ofp_health_check file)) (default false (hcd_lazy (ofp_health_check file))) now in
  Loaded (add_provider name {| po_name := name; po_vehicle := PvtFile; po_provider := proxy_set_new hc |} m).

Definition load_provider (m : OutboundManager) (d : str * OutboundProxyProviderDef) : loaded OutboundManager :=
  match d with
  | (name, PdHttp http) => load_http_provider m name http
  | (name, PdFile file) => load_file_provider m name file
  end.

(** A fetch that fails is logged, and leaves the provider without proxies. *)
(* @src clash-lib/src/app/outbound/manager.rs 894 908 OutboundManager::load_proxy_providers (initialize) *)
Definition initialize_provider (m : OutboundManager) (i : nat) : OutboundManager :=
  match providers m !! i with
  | Some p =>
    match fetched (po_name p) with
    | Some xs =>
      set_provider i {| po_name := po_name p; po_vehicle := po_vehicle p;
                        po_provider := (proxy_set_update (HPlain <$> xs) (po_provider p)).2 |} m
    | None => m
    end
  | None => m
  end.

(* @src clash-lib/src/app/outbound/manager.rs ~    async fn load_proxy_providers~ OutboundManager::load_proxy_providers *)
Definition load_proxy_providers (defs : list (str * OutboundProxyProviderDef)) (order : gmap str nat -> list nat)
    (m : OutboundManager) : loaded OutboundManager :=
  m ← loaded_fold load_provider m defs;
  Loaded (foldl initialize_provider m (order (proxy_providers m))).

(** ** Groups *)

(* @src clash-lib/src/app/outbound/manager.rs ~        fn check_group_empty~ check_group_empty *)
Definition check_group_empty (proxies use_provider : option (list str)) : bool :=
  (default 0%nat (length <$> proxies) + default 0%nat (length <$> use_provider) =? 0)%nat.

(* @src clash-lib/src/app/outbound/manager.rs ~        fn make_provider_from_proxies~ make_provider_from_proxies *)
Definition make_provider_from_proxies (name : str) (proxies : list str) (interval : Z) (lazy : bool)
    (m : OutboundManager) : loaded (nat * OutboundManager) :=
  if bool_decide (name = PROXY_DIRECT \/ name = PROXY_REJECT) then
    Failed (ConfigError (lit "proxy group name `" ++ name ++ lit "` is reserved"))
  else
    proxies ← loaded_map (fun x => or_failed (handlers m !! x) (ConfigError (lit "proxy " ++ x ++ lit " not found"))) proxies;
    pd ← of_res (plain_provider_new proxies (hc_new proxies interval lazy now));
    Loaded (length (providers m),
            add_provider name {| po_name := name; po_vehicle := PvtCompatible; po_provider := pd |} m).

(* @src clash-lib/src/app/outbound/manager.rs ~        fn maybe_append_use_providers~ maybe_append_use_providers *)
Definition maybe_append_use_providers (provider_names : option (list str)) (registry : gmap str nat)
    (pvs : list nat) : loaded (list nat) :=
  match provider_names with
  | Some provider_names =>
    more ← loaded_map (fun n => or_failed (registry !! n) (Exited (lit "provider " ++ n ++ lit " not found"))) provider_names;
    Loaded (pvs ++ more)
  | None => Loaded pvs
  end.

(** The block every kind of group starts with. *)
(* @src clash-lib/src/app/outbound/manager.rs 551 577 OutboundManager::load_group_outbounds (providers of a group) *)
Definition group_providers (name : str) (proxies use_provider : option (list str)) (interval : Z) (lazy : bool)
    (m : OutboundManager) : loaded (list nat * OutboundManager) :=
  if check_group_empty proxies use_provider then
    Failed (ConfigError (lit "proxy group " ++ name ++ lit " has no proxies"))
  else
    '(pvs, m) ← match proxies with
                | Some proxies =>
                  '(pd, m) ← make_provider_from_proxies name proxies interval lazy m; Loaded ([pd], m)
                | None => Loaded ([], m)
                end;
    pvs ← maybe_append_use_providers use_provider (proxy_providers m) pvs;
    Loaded (pvs, m).

(* @src clash-lib/src/app/outbound/manager.rs 550 591 OutboundManager::load_group_outbounds (relay) *)
Definition load_relay (g : OutboundGroupRelay) (m : OutboundManager) : loaded OutboundManager :=
  '(pvs, m) ← group_providers (relay_name g) (relay_proxies g) (relay_use_provider g) 0 true m;
  Loaded (add_handler (relay_name g)
    (HRelay {| go_name := relay_name g; go_icon := relay_icon g; go_url := relay_url g; go_udp := false |} pvs) m).

(* @src clash-lib/src/app/outbound/manager.rs 592 635 OutboundManager::load_group_outbounds (URL test) *)
Definition load_url_test (g : OutboundGroupUrlTest) (m : OutboundManager) : loaded OutboundManager :=
  '(pvs, m) ← group_providers (urltest_name g) (urltest_proxies g) (urltest_use_provider g) (urltest_interval g)
                (default false (urltest_lazy g)) m;
  let h := HUrlTest {| go_name := urltest_name g; go_icon := urltest_icon g; go_url := Some (urltest_url g);
                       go_udp := false |} (default 0 (urltest_tolerance g)) (length (cells m)) pvs in
  Loaded (add_handler (urltest_name g) h (add_cell 0 m)).

(* @src clash-lib/src/app/outbound/manager.rs 636 678 OutboundManager::load_group_outbounds (fallback) *)
Definition load_fallback (g : OutboundGroupFallback) (m : OutboundManager) : loaded OutboundManager :=
  '(pvs, m) ← group_providers (fallback_name g) (fallback_proxies g) (fallback_use_provider g) (fallback_interval g)
                (default false (fallback_lazy g)) m;
  Loaded (add_handler (fallback_name g)
    (HFallback {| go_name := fallback_name g; go_icon := fallback_icon g; go_url := Some (fallback_url g);
                  go_udp := false |} pvs) m).

(** The strategy is the default of the options, not that of the group. *)
(* @src clash-lib/src/app/outbound/manager.rs 679 722 OutboundManager::load_group_outbounds (load balance) *)
Definition load_load_balance (g : OutboundGroupLoadBalance) (m : OutboundManager) : loaded OutboundManager :=
  '(pvs, m) ← group_providers (lb_name g) (lb_proxies g) (lb_use_provider g) (lb_interval g)
                (default false (lb_lazy g)) m;
  Loaded (add_handler (lb_name g)
    (HLoadBalance {| go_name := lb_name g; go_icon := lb_icon g; go_url := Some (lb_url g); go_udp := false |}
       ConsistentHashing pvs) m).

(* @src clash-lib/src/app/outbound/manager.rs 723 771 OutboundManager::load_group_outbounds (select) *)
Definition load_select (cache : CacheFile SD) (g : OutboundGroupSelect) (m : OutboundManager) : loaded OutboundManager :=
  '(pvs, m) ← group_providers (select_name g) (select_proxies g) (select_use_provider g) 0 true m;
  let stored_selection := ts_get_selected (select_name g) cache in
  index ← of_res (selector_new (deref m pvs) stored_selection);
  let h := {| sel_opts := {| go_name := select_name g; go_icon := select_icon g; go_url := select_url g;
                             go_udp := default true (select_udp g) |};
              sel_cell := length (cells m); sel_pvs := pvs |} in
  Loaded (add_control (select_name g) h (add_handler (select_name g) (HSelector h) (add_cell index m))).

(* @src clash-lib/src/app/outbound/manager.rs 772 819 OutboundManager::load_group_outbounds (smart) *)
Definition load_smart (g : OutboundGroupSmart) (m : OutboundManager) : loaded OutboundManager :=
  '(pvs, m) ← group_providers (smart_name g) (smart_proxies g) (smart_use_provider g) 0
                (default false (smart_lazy g)) m;
  Loaded (add_handler (smart_name g)
    (HSmart {| go_name := smart_name g; go_icon := smart_icon g; go_url := smart_url g;
               go_udp := default true (smart_udp g) |} (smart_max_retries g) (smart_bandwidth_weight g) pvs) m).

Definition load_group (cache : CacheFile SD) (m : OutboundManager) (g : OutboundGroupProtocol) : loaded OutboundManager :=
  match g with
  | Relay g => load_relay g m
  | UrlTest g => load_url_test g m
  | Fallback g => load_fallback g m
  | LoadBalance g => load_load_balance g m
  | Select g => load_select cache g m
  | Smart g => load_smart g m
  end.

(** The sort never runs out of rounds. *)
Definition sorted_groups (o : Orders) (groups : list OutboundGroupProtocol) : loaded (list OutboundGroupProtocol) :=
  match proxy_groups_dag_sort o groups with
  | Some (Sorted groups) => Loaded groups
  | Some (InvalidConfig message) => Failed (ConfigError (lit message))
  | Some (LoopDetected names) => Failed (LoopError names)
  | Some SortPanic | None => Failed Panicked
  end.

(* @src clash-lib/src/app/outbound/manager.rs 459 467 OutboundManager::load_group_outbounds *)
Definition load_group_outbounds (o : Orders) (cache : CacheFile SD) (groups : list OutboundGroupProtocol)
    (m : OutboundManager) : loaded OutboundManager :=
  groups ← sorted_groups o groups;
  loaded_fold (load_group cache) m groups.

(** ** The table of handlers *)

(** The order of [Option<usize>]: [None] comes first. *)
Definition name_position (proxy_names : list str) (n : str) : option nat :=
  fst <$> list_find (fun x => x = n) proxy_names.
Definition option_nat_cmp (a b : option nat) : comparison :=
  match a, b with
  | None, None => Eq
  | None, Some _ => Lt
  | Some _, None => Gt
  | Some a, Some b => Nat.compare a b
  end.
Definition global_keys (proxy_names keys : list str) : list str :=
  sort_by (fun a b => option_nat_cmp (name_position proxy_names a) (name_position proxy_names b)) keys.

Definition is_fetched (m : OutboundManager) (i : nat) : bool :=
  match po_vehicle <$> providers m !! i with Some PvtHttp | Some PvtFile => true | _ => false end.

(** [keys] and [values] are the orders in which the handlers and the
    registered providers are iterated. *)
(* @src clash-lib/src/app/outbound/manager.rs 397 456 OutboundManager::load_handlers (GLOBAL) *)
Definition load_global (keys : gmap str Handler -> list str) (values : gmap str nat -> list nat)
    (proxy_names : list str) (cache : CacheFile SD) (m : OutboundManager) : loaded OutboundManager :=
  let g := omap (fun n => handlers m !! n) (global_keys proxy_names (keys (handlers m))) in
  pd ← of_res (plain_provider_new g (hc_new g 0 true now));
  let stored_selection := ts_get_selected PROXY_GLOBAL cache in
  let global := length (providers m) in
  let pvs := global :: base.filter (fun i => is_fetched m i = true) (values (proxy_providers m)) in
  let m := add_provider RESERVED_PROVIDER_NAME {| po_name := PROXY_GLOBAL; po_vehicle := PvtCompatible; po_provider := pd |} m in
  index ← of_res (selector_new (deref m pvs) stored_selection);
  let h := {| sel_opts := {| go_name := PROXY_GLOBAL; go_icon := None; go_url := None; go_udp := true |};
              sel_cell := length (cells m); sel_pvs := pvs |} in
  Loaded (add_control PROXY_GLOBAL h (add_handler PROXY_GLOBAL (HSelector h) (add_cell index m))).

Definition add_outbounds (outbounds : list X) (m : OutboundManager) : OutboundManager :=
  foldl (fun m x => add_handler (px_name x) (HPlain x) m) m outbounds.

(* @src clash-lib/src/app/outbound/manager.rs 382 395 OutboundManager::load_handlers *)
Definition load_handlers (o : Orders) (keys : gmap str Handler -> list str) (values : gmap str nat -> list nat)
    (outbounds : list X) (groups : list OutboundGroupProtocol) (proxy_names : list str) (cache : CacheFile SD)
    (m : OutboundManager) : loaded OutboundManager :=
  m ← load_group_outbounds o cache groups (add_outbounds outbounds m);
  load_global keys values proxy_names cache m.

(** ** Connectors

    The connectors registered with the handlers, by handler name.  One
    connector is shared by the handlers that dial through the same outbound;
    it is determined by that outbound. *)
(* @src clash-lib/src/app/outbound/manager.rs ~    async fn init_handler_connectors~ OutboundManager::init_handler_connectors *)
Fixpoint init_handler_connectors (m : OutboundManager) (values : list Handler) (registered : gmap str (Connector Handler)) :
    loaded (gmap str (Connector Handler)) :=
  match values with
  | [] => Loaded registered
  | handler :: rest =>
    match handler_dialer handler with
    | Some connector_name =>
      outbound ← or_failed (get_outbound m connector_name)
                   (ConfigError (lit "connector " ++ connector_name ++ lit " not found"));
      init_handler_connectors m rest (<[handler_name handler := ProxyConnector outbound DirectConnector]> registered)
    | None => init_handler_connectors m rest registered
    end
  end.

(** The iteration orders of the hash maps of a run. *)
Record MapOrders : Type := {
  mo_sort : Orders;
  mo_keys : gmap str Handler -> list str;
  mo_values : gmap str nat -> list nat;
  mo_handlers : gmap str Handler -> list Handler;
}.

(* @src clash-lib/src/app/outbound/manager.rs ~    pub async fn new~ OutboundManager::new *)
Definition manager_new (mo : MapOrders) (outbounds : list X) (groups : list OutboundGroupProtocol)
    (defs : list (str * OutboundProxyProviderDef)) (proxy_names : list str) (cache : CacheFile SD) :
    loaded (OutboundManager * gmap str (Connector Handler)) :=
  m ← load_proxy_providers defs (mo_values mo) manager_empty;
  m ← load_handlers (mo_sort mo) (mo_keys mo) (mo_values mo) outbounds groups proxy_names cache m;
  registered ← init_handler_connectors m (mo_handlers mo (handlers m)) ∅;
  Loaded (m, registered).

(** ** Answers for the API *)
Inductive ApiVal : Type :=
| AvType (t : OutboundType)
| AvString (s : str)
| AvStrings (l : list str)
| AvHistory (h : list DelayHistory)
| AvBool (b : bool).

Definition members (m : OutboundManager) (h : Handler) : list Handler :=
  (get_proxies_from_providers (deref m (handler_pvs h)) false now).1.
Definition cell_value (m : OutboundManager) (cell : nat) : Z := default 0 (cells m !! cell).

(** The URL test stores the index it finds. *)
Definition fastest_of (oc : bool) (pm : ProxyManager) (tolerance : Z) (cell : nat) (proxies : list Handler)
    (m : OutboundManager) : res (Handler * OutboundManager) :=
  '(p, index) ← urltest_fastest oc pm tolerance (cell_value m cell) proxies; Ok (p, set_cell cell index m).

Definition get_active_proxy (oc : bool) (pm : ProxyManager) (h : Handler) (m : OutboundManager) :
    res (option Handler * OutboundManager) :=
  match h with
  | HSelector s => p ← selected_proxy (cell_value m (sel_cell s)) (members m h); Ok (Some p, m)
  | HFallback _ _ => p ← find_alive_proxy pm (members m h); Ok (Some p, m)
  | HUrlTest _ tolerance cell _ =>
    '(p, m) ← fastest_of oc pm tolerance cell (members m h) m; Ok (Some p, m)
  | _ => Ok (None, m)
  end.

(** Whether a handler carries datagrams. *)
Definition handler_support_udp (oc : bool) (pm : ProxyManager) (h : Handler) (m : OutboundManager) :
    res (bool * OutboundManager) :=
  match h with
  | HPlain _ => Ok (ob_support_udp h, m)
  | HRelay _ _ => Ok (relay_support_udp (members m h), m)
  | HUrlTest o tolerance cell _ =>
    if go_udp o then Ok (true, m)
    else '(p, m) ← fastest_of oc pm tolerance cell (members m h) m; Ok (ob_support_udp p, m)
  | HFallback o _ =>
    if go_udp o then Ok (true, m) else p ← find_alive_proxy pm (members m h); Ok (ob_support_udp p, m)
  | HLoadBalance o _ _ => Ok (go_udp o, m)
  | HSelector s =>
    b ← selector_support_udp (go_udp (sel_opts s)) (cell_value m (sel_cell s)) now (deref m (sel_pvs s)); Ok (b, m)
  | HSmart o _ _ _ => Ok (go_udp o, m)
  end.

(* @src clash-lib/src/proxy/group/mod.rs ~    async fn as_map~ GroupProxyAPIResponse::as_map *)
Definition as_map (oc : bool) (pm : ProxyManager) (h : Handler) (m : OutboundManager) :
    res (gmap str ApiVal * OutboundManager) :=
  let all := members m h in
  let r := {[lit "type" := AvType (handler_proto h)]} : gmap str ApiVal in
  '(active, m) ← get_active_proxy oc pm h m;
  let r := match active with Some p => <[lit "now" := AvString (ob_name p)]> r | None => r end in
  let r := match handler_opts h ≫= go_icon with Some icon => <[lit "icon" := AvString icon]> r | None => r end in
  Ok (<[lit "all" := AvStrings (ob_name <$> all)]> r, m).

Definition proxy_entry (oc : bool) (pm : ProxyManager) (key : str) (v : Handler) (m : OutboundManager) :
    res (gmap str ApiVal * OutboundManager) :=
  '(r, m) ← match v with
            | HPlain x => Ok ({[lit "type" := AvType (px_proto x)]}, m)
            | _ => as_map oc pm v m
            end;
  '(udp, m) ← handler_support_udp oc pm v m;
  Ok (<[lit "udp" := AvBool udp]> (<[lit "name" := AvString key]>
      (<[lit "alive" := AvBool (alive pm key)]> (<[lit "history" := AvHistory (delay_history pm key)]> r))), m).

(* @src clash-lib/src/app/outbound/manager.rs ~    pub async fn get_proxies~ OutboundManager::get_proxies *)
Fixpoint get_proxies (oc : bool) (pm : ProxyManager) (entries : list (str * Handler)) (m : OutboundManager) :
    res (gmap str (gmap str ApiVal) * OutboundManager) :=
  match entries with
  | [] => Ok (∅, m)
  | (k, v) :: rest =>
    '(e, m) ← proxy_entry oc pm k v m;
    '(r, m) ← get_proxies oc pm rest m;
    Ok (<[k := e]> r, m)
  end.

(* @src clash-lib/src/app/outbound/manager.rs ~    pub async fn get_proxy\(~ OutboundManager::get_proxy *)
Definition get_proxy (oc : bool) (pm : ProxyManager) (proxy : Handler) (m : OutboundManager) :
    res (gmap str ApiVal * OutboundManager) := proxy_entry oc pm (handler_name proxy) proxy m.

(** Selecting through the control changes the index the handler of the
    table shares. *)
Definition control_select (name : str) (s : SelectorHandler) (m : OutboundManager) : res unit * OutboundManager :=
  let '(r, index) := select name (cell_value m (sel_cell s)) (members m (HSelector s)) in
  (r, set_cell (sel_cell s) index m).

End manager.
Arguments Handler X : clear implicits.
Arguments PvObj X : clear implicits.
Arguments OutboundManager X : clear implicits.
