(* ===== verification/OutboundSpec.v ===== *)
(** * What the outbound manager builds

    Which configurations the outbound manager accepts, and the table it
    builds from an accepted one: every group holds the very handlers the
    table answers for the names it lists, in the order it lists them. *)

From Stdlib Require Import Sorted.
From S2P Require Import Prelude F64 Str Net Session ProxyManager Groups DagSort Profile DnsConfig OutboundManager.

(** ** The error monad *)
Lemma loaded_bind_loaded {A B} (m : loaded A) (f : A -> loaded B) b :
  m ≫= f = Loaded b <-> exists a, m = Loaded a /\ f a = Loaded b.
Proof. destruct m; simpl; naive_solver. Qed.
Definition fails {A} (m : loaded A) : Prop := exists e, m = Failed e.
Lemma bind_fails {A B} (m : loaded A) (f : A -> loaded B) :
  fails (m ≫= f) <-> fails m \/ exists a, m = Loaded a /\ fails (f a).
Proof. unfold fails. destruct m; simpl; naive_solver. Qed.
Lemma loaded_or_fails {A} (m : loaded A) : (exists a, m = Loaded a) \/ fails m.
Proof. unfold fails. destruct m; eauto. Qed.
Lemma not_both {A} (m : loaded A) a : m = Loaded a -> ~ fails m.
Proof. intros -> [e [=]]. Qed.

Lemma loaded_map_some {A B} (f : A -> option B) (e : A -> LoadError) l :
  (Forall (fun x => is_Some (f x)) l ->
     exists ys, loaded_map (fun x => or_failed (f x) (e x)) l = Loaded ys /\ Forall2 (fun x y => f x = Some y) l ys) /\
  (~ Forall (fun x => is_Some (f x)) l -> fails (loaded_map (fun x => or_failed (f x) (e x)) l)).
Proof.
  induction l as [|x l [IH1 IH2]]; [split; [intros _; exists []; by repeat constructor|intros H; by destruct H; constructor]|].
  cbn [loaded_map]. destruct (f x) as [y|] eqn:E; cbn [or_failed].
  - split.
    + intros [_ H]%Forall_cons. destruct (IH1 H) as (ys & Ey & Hys). exists (y :: ys). cbn [mbind loaded_mbind loaded_bind].
      rewrite Ey. split; [done|by constructor].
    + intros H. cbn [mbind loaded_mbind loaded_bind]. apply bind_fails. left. apply IH2. intros Hl. apply H. by constructor.
  - split; [intros [[? ?] _]%Forall_cons; congruence|]. intros _. by eexists.
Qed.

Lemma Forall2_weaken_l {A B} (P Q : A -> B -> Prop) l k :
  Forall2 P l k -> (forall x y, x ∈ l -> P x y -> Q x y) -> Forall2 Q l k.
Proof.
  induction 1 as [|x y l k Hxy _ IH]; intros H; constructor; [apply H; [left|done]|]. apply IH. intros ? ? ?. apply H. by right.
Qed.

(** ** What is asked of a configuration *)
Definition group_use (g : OutboundGroupProtocol) : option (list str) :=
  match g with
  | Relay g => relay_use_provider g
  | UrlTest g => urltest_use_provider g
  | Fallback g => fallback_use_provider g
  | LoadBalance g => lb_use_provider g
  | Smart g => smart_use_provider g
  | Select g => select_use_provider g
  end.

(** A group that can be built when the handlers [known] exist. *)
Definition group_accepted (known : str -> Prop) (g : OutboundGroupProtocol) : Prop :=
  match group_proxies g with
  | Some l => l <> [] /\ group_name g <> PROXY_DIRECT /\ group_name g <> PROXY_REJECT /\ Forall known l
  | None => default [] (group_use g) <> []
  end.

#[global] Instance group_accepted_dec (known : str -> Prop) `{forall x, Decision (known x)} g : Decision (group_accepted known g).
Proof. unfold group_accepted. destruct (group_proxies g); apply _. Defined.

Section spec.
Context {X : Type} {PX : PlainOutbound X} {SD : Type} {OB : Outbound (Handler X)}.
Context (parse_uri : str -> option Uri) (fetched : str -> option (list X)) (now : Z).
Abbreviation M := (OutboundManager X).

(** ** States *)
Definition registry_wf (m : M) : Prop := forall n i, proxy_providers m !! n = Some i -> is_Some (providers m !! i).

(** The options of the handler made for a group. *)
Definition opts_match (g : OutboundGroupProtocol) (h : Handler X) : Prop :=
  match g, h with
  | Relay g, HRelay o _ => o = {| go_name := relay_name g; go_icon := relay_icon g; go_url := relay_url g; go_udp := false |}
  | UrlTest g, HUrlTest o t _ _ =>
    o = {| go_name := urltest_name g; go_icon := urltest_icon g; go_url := Some (urltest_url g); go_udp := false |} /\
    t = default 0 (urltest_tolerance g)
  | Fallback g, HFallback o _ =>
    o = {| go_name := fallback_name g; go_icon := fallback_icon g; go_url := Some (fallback_url g); go_udp := false |}
  | LoadBalance g, HLoadBalance o s _ =>
    o = {| go_name := lb_name g; go_icon := lb_icon g; go_url := Some (lb_url g); go_udp := false |} /\
    s = ConsistentHashing
  | Select g, HSelector s =>
    sel_opts s = {| go_name := select_name g; go_icon := select_icon g; go_url := select_url g;
                    go_udp := default true (select_udp g) |}
  | Smart g, HSmart o r w _ =>
    o = {| go_name := smart_name g; go_icon := smart_icon g; go_url := smart_url g; go_udp := default true (smart_udp g) |} /\
    r = smart_max_retries g /\ w = smart_bandwidth_weight g
  | _, _ => False
  end.

(** The providers of a group's handler: one with the handlers the table has
    for the names listed, then the providers it uses. *)
Definition holds (m : M) (name : str) (proxies use_provider : option (list str)) (pvs : list nat) : Prop :=
  exists own used, pvs = own ++ used /\
    match proxies with
    | Some l => exists i p, own = [i] /\ providers m !! i = Some p /\ po_name p = name /\
                  Forall2 (fun x h => handlers m !! x = Some h) l (pv_proxies (po_provider p))
    | None => own = []
    end /\
    Forall2 (fun n i => proxy_providers m !! n = Some i) (default [] use_provider) used.

(** A selector starts at the selection stored for it. *)
Definition selection_restored (cache : CacheFile SD) (m : M) (name : str) (h : Handler X) : Prop :=
  match h with
  | HSelector s =>
    selector_control m !! name = Some s /\
    exists index, cells m !! sel_cell s = Some index /\
      selector_new (deref m (sel_pvs s)) (ts_get_selected name cache) = Ok index
  | _ => True
  end.

Definition group_built (cache : CacheFile SD) (m : M) (g : OutboundGroupProtocol) : Prop :=
  exists h, handlers m !! group_name g = Some h /\ opts_match g h /\ holds m (group_name g) (group_proxies g) (group_use g) (handler_pvs h) /\
    selection_restored cache m (group_name g) h.

(** ** Steps only add *)
Record grows (changed registered : str) (m m' : M) : Prop := {
  gr_handlers : forall n, n <> changed -> handlers m' !! n = handlers m !! n;
  gr_registry : forall n, n <> registered -> proxy_providers m' !! n = proxy_providers m !! n;
  gr_control : forall n, n <> changed -> selector_control m' !! n = selector_control m !! n;
  gr_providers : providers m `prefix_of` providers m';
  gr_cells : cells m `prefix_of` cells m';
}.

Lemma grows_trans c r m1 m2 m3 : grows c r m1 m2 -> grows c r m2 m3 -> grows c r m1 m3.
Proof.
  intros [H1 H2 H3 H4 H5] [K1 K2 K3 K4 K5]. split.
  - intros n Hn. by rewrite K1, H1.
  - intros n Hn. by rewrite K2, H2.
  - intros n Hn. by rewrite K3, H3.
  - by etrans.
  - by etrans.
Qed.

Lemma prefix_some {A} (l k : list A) i : l `prefix_of` k -> is_Some (l !! i) -> k !! i = l !! i.
Proof. intros Hp [x Hx]. rewrite Hx. by eapply prefix_lookup_Some. Qed.

Definition valid (m : M) (pvs : list nat) : Prop := Forall (fun i => is_Some (providers m !! i)) pvs.

Lemma holds_valid m name proxies used pvs : registry_wf m -> holds m name proxies used pvs -> valid m pvs.
Proof.
  intros Hwf (own & us & -> & Hown & Hus). apply Forall_app. split.
  - destruct proxies; [destruct Hown as (i & p & -> & Hi & _); constructor; [by eexists|constructor]|by subst].
  - apply Forall_forall. intros i Hi. apply list_elem_of_lookup in Hi as [k Hk].
    destruct (Forall2_lookup_r _ _ _ _ _ Hus Hk) as (n & _ & Hn). by eapply Hwf.
Qed.

Lemma deref_same m m' pvs : valid m pvs -> providers m `prefix_of` providers m' -> deref m' pvs = deref m pvs.
Proof.
  intros Hv Hp. unfold deref. induction Hv as [|i pvs Hi _ IH]; [done|]. cbn [omap list_omap].
  rewrite (prefix_some _ _ i Hp Hi). change (list_omap ?f ?l) with (omap f l). by rewrite IH.
Qed.

Lemma deref_length m pvs : valid m pvs -> length (deref m pvs) = length pvs.
Proof.
  induction 1 as [|i pvs [p Hp] _ IH]; [done|]. unfold deref in *. cbn [omap list_omap]. rewrite Hp. simpl. by f_equal.
Qed.

Lemma holds_grows c r m m' name proxies used pvs :
  grows c r m m' -> c ∉ default [] proxies -> r ∉ default [] used ->
  holds m name proxies used pvs -> holds m' name proxies used pvs.
Proof.
  intros Hg Hp Hu (own & us & -> & Hown & Hus). exists own, us. split_and!; [done| |].
  - destruct proxies as [l|]; [|done]. destruct Hown as (i & p & -> & Hi & Hn & Hl). exists i, p.
    split_and!; [done| |done|].
    + by rewrite (prefix_some _ _ i (gr_providers _ _ _ _ Hg)) by (by rewrite Hi).
    + simpl in Hp. eapply Forall2_weaken_l; [exact Hl|]. intros x h Hx E. rewrite (gr_handlers _ _ _ _ Hg); [done|].
      by intros ->.
  - eapply Forall2_weaken_l; [exact Hus|]. intros n i Hn E. rewrite (gr_registry _ _ _ _ Hg); [done|]. by intros ->.
Qed.

Lemma built_grows c r cache m m' g :
  registry_wf m -> grows c r m m' -> c <> group_name g -> c ∉ listed g -> r ∉ default [] (group_use g) ->
  group_built cache m g -> group_built cache m' g.
Proof.
  intros Hwf Hg Hn Hl Hu (h & Hh & Ho & Hh' & Hs). exists h. split_and!.
  - by rewrite (gr_handlers _ _ _ _ Hg) by done.
  - done.
  - by eapply holds_grows.
  - pose proof (holds_valid _ _ _ _ _ Hwf Hh') as Hv. destruct h; [done..| |done]. destruct Hs as (Hc & index & Hi & E). split.
    + by rewrite (gr_control _ _ _ _ Hg) by done.
    + exists index. split; [by rewrite (prefix_some _ _ _ (gr_cells _ _ _ _ Hg)) by (by rewrite Hi)|].
      by rewrite (deref_same m m' (sel_pvs s) Hv (gr_providers _ _ _ _ Hg)).
Qed.

(** ** One group *)
Definition group_interval (g : OutboundGroupProtocol) : Z :=
  match g with
  | UrlTest g => urltest_interval g | Fallback g => fallback_interval g | LoadBalance g => lb_interval g | _ => 0
  end.
Definition group_lazy (g : OutboundGroupProtocol) : bool :=
  match g with
  | Relay _ | Select _ => true
  | UrlTest g => default false (urltest_lazy g)
  | Fallback g => default false (fallback_lazy g)
  | LoadBalance g => default false (lb_lazy g)
  | Smart g => default false (smart_lazy g)
  end.

(** Making the handler once its providers are there. *)
Definition finish_group (cache : CacheFile SD) (g : OutboundGroupProtocol) (pvs : list nat) (m : M) : loaded M :=
  match g with
  | Relay g => Loaded (add_handler (relay_name g)
      (HRelay {| go_name := relay_name g; go_icon := relay_icon g; go_url := relay_url g; go_udp := false |} pvs) m)
  | UrlTest g => Loaded (add_handler (urltest_name g)
      (HUrlTest {| go_name := urltest_name g; go_icon := urltest_icon g; go_url := Some (urltest_url g); go_udp := false |}
         (default 0 (urltest_tolerance g)) (length (cells m)) pvs) (add_cell 0 m))
  | Fallback g => Loaded (add_handler (fallback_name g)
      (HFallback {| go_name := fallback_name g; go_icon := fallback_icon g; go_url := Some (fallback_url g);
                    go_udp := false |} pvs) m)
  | LoadBalance g => Loaded (add_handler (lb_name g)
      (HLoadBalance {| go_name := lb_name g; go_icon := lb_icon g; go_url := Some (lb_url g); go_udp := false |}
         ConsistentHashing pvs) m)
  | Select g =>
    index ← of_res (selector_new (deref m pvs) (ts_get_selected (select_name g) cache));
    let h := {| sel_opts := {| go_name := select_name g; go_icon := select_icon g; go_url := select_url g;
                               go_udp := default true (select_udp g) |};
                sel_cell := length (cells m); sel_pvs := pvs |} in
    Loaded (add_control (select_name g) h (add_handler (select_name g) (HSelector h) (add_cell index m)))
  | Smart g => Loaded (add_handler (smart_name g)
      (HSmart {| go_name := smart_name g; go_icon := smart_icon g; go_url := smart_url g;
                 go_udp := default true (smart_udp g) |} (smart_max_retries g) (smart_bandwidth_weight g) pvs) m)
  end.

Lemma load_group_eq cache m g :
  load_group now cache m g =
  ('(pvs, m) ← group_providers now (group_name g) (group_proxies g) (group_use g) (group_interval g) (group_lazy g) m;
   finish_group cache g pvs m).
Proof. by destruct g. Qed.

Lemma make_provider_cases name l interval lazy (m : M) :
  let ok := l <> [] /\ name <> PROXY_DIRECT /\ name <> PROXY_REJECT /\ Forall (fun x => is_Some (handlers m !! x)) l in
  (ok -> exists p, make_provider_from_proxies now name l interval lazy m = Loaded (length (providers m), add_provider name p m) /\
           po_name p = name /\ po_vehicle p = PvtCompatible /\
           Forall2 (fun x h => handlers m !! x = Some h) l (pv_proxies (po_provider p))) /\
  (~ ok -> fails (make_provider_from_proxies now name l interval lazy m)).
Proof.
  intros ok. unfold make_provider_from_proxies.
  destruct (loaded_map_some (fun x => handlers m !! x) (fun x => ConfigError (lit "proxy " ++ x ++ lit " not found")) l) as [H1 H2].
  case_bool_decide as Hn; [split; [intros (_ & ? & ? & _); naive_solver|by eexists]|].
  destruct (decide (Forall (fun x => is_Some (handlers m !! x)) l)) as [Hl|Hl].
  - destruct (H1 Hl) as (hs & -> & Hhs). cbn [mbind loaded_mbind loaded_bind]. unfold plain_provider_new.
    pose proof (Forall2_length _ _ _ Hhs) as Hlen. case_bool_decide as Hz; cbn [of_res mbind loaded_mbind loaded_bind].
    + split; [|by eexists]. intros (Hne & _). destruct l; [done|]. simpl in Hlen. lia.
    + split; [intros _; eexists; by split_and!|]. intros Hok. exfalso. apply Hok. unfold ok. split_and!; [|naive_solver..|done].
      intros ->. by destruct hs.
  - split; [by intros (_ & _ & _ & ?)|]. intros _. apply bind_fails. left. by apply H2.
Qed.

Lemma add_provider_grows name p (m : M) : grows name name m (add_provider name p m).
Proof.
  split; try done.
  - intros n Hn. by apply lookup_insert_ne.
  - by apply prefix_app_r.
Qed.
Lemma add_provider_wf name p (m : M) : registry_wf m -> registry_wf (add_provider name p m).
Proof.
  intros Hwf n i. cbn. rewrite lookup_insert_Some. intros [[_ <-]|[_ Hi]].
  - rewrite lookup_app_r, Nat.sub_diag by done. by eexists.
  - apply Hwf in Hi as [q Hq]. exists q. by apply lookup_app_l_Some.
Qed.

Lemma use_providers_cases (names : option (list str)) (registry : gmap str nat) pvs :
  Forall (fun n => is_Some (registry !! n)) (default [] names) ->
  exists used, maybe_append_use_providers names registry pvs = Loaded (pvs ++ used) /\
    Forall2 (fun n i => registry !! n = Some i) (default [] names) used.
Proof.
  intros H. unfold maybe_append_use_providers. destruct names as [l|].
  - destruct (proj1 (loaded_map_some (fun n => registry !! n) (fun n => Exited (lit "provider " ++ n ++ lit " not found")) l) H)
      as (us & -> & Hus). by exists us.
  - exists []. rewrite app_nil_r. split; [done|constructor].
Qed.

Lemma group_providers_cases name proxies used interval lazy (m : M) :
  registry_wf m -> Forall (fun n => is_Some (proxy_providers m !! n)) (default [] used) -> name ∉ default [] used ->
  let ok := match proxies with
            | Some l => l <> [] /\ name <> PROXY_DIRECT /\ name <> PROXY_REJECT /\ Forall (fun x => is_Some (handlers m !! x)) l
            | None => default [] used <> []
            end in
  (ok -> exists pvs m', group_providers now name proxies used interval lazy m = Loaded (pvs, m') /\ pvs <> [] /\
           handlers m' = handlers m /\ registry_wf m' /\ grows name name m m' /\ holds m' name proxies used pvs) /\
  (~ ok -> fails (group_providers now name proxies used interval lazy m)).
Proof.
  intros Hwf Hus Hnu ok. unfold group_providers, check_group_empty.
  assert (Forall (fun n => forall p, is_Some (proxy_providers (add_provider name p m) !! n)) (default [] used)) as Hus'.
  { apply Forall_forall. intros n Hn p. rewrite (gr_registry _ _ _ _ (add_provider_grows name p m)) by (by intros ->).
    rewrite Forall_forall in Hus. by apply Hus. }
  assert (default 0%nat (length <$> used) = length (default [] used)) as -> by by destruct used.
  destruct proxies as [l|]; cbn [fmap option_fmap option_map default from_option id].
  - destruct (make_provider_cases name l interval lazy m) as [H1 H2]. split.
    + intros Hok. destruct (H1 Hok) as (p & -> & Hpn & _ & Hp). destruct Hok as (Hne & _).
      rewrite (proj2 (Nat.eqb_neq _ _)) by (destruct l; simpl; [done|lia]). cbn [mbind loaded_mbind loaded_bind].
      destruct (use_providers_cases used (proxy_providers (add_provider name p m)) [length (providers m)]) as (us & -> & Hu).
      { eapply Forall_impl; [exact Hus'|]. intros n Hn. apply Hn. }
      cbn [mbind loaded_mbind loaded_bind]. do 2 eexists. split_and!; [done|done|done|by apply add_provider_wf|apply add_provider_grows|].
      exists [length (providers m)], us. split_and!; [done| |done]. exists (length (providers m)), p. cbn.
      rewrite lookup_app_r, Nat.sub_diag by done. done.
    + intros Hok. destruct (_ =? _)%nat; [by eexists|]. apply bind_fails. left. apply bind_fails. left. by apply H2.
  - split.
    + intros Hok. rewrite (proj2 (Nat.eqb_neq _ _)) by (unfold ok in Hok; destruct (default [] used); simpl; [done|lia]).
      cbn [mbind loaded_mbind loaded_bind]. destruct (use_providers_cases used (proxy_providers m) [] Hus) as (us & -> & Hu).
      cbn [mbind loaded_mbind loaded_bind]. do 2 eexists. split_and!; [done| |done|done|done|].
      * apply Forall2_length in Hu. unfold ok in Hok. by destruct us, (default [] used).
      * by exists [], us.
    + intros Hok. unfold ok in Hok. destruct (default [] used); [|by destruct Hok]. by eexists.
Qed.

Lemma finish_group_ok cache g pvs (m : M) :
  valid m pvs -> pvs <> [] ->
  exists h m', finish_group cache g pvs m = Loaded m' /\ handlers m' = <[group_name g := h]> (handlers m) /\
    proxy_providers m' = proxy_providers m /\ providers m' = providers m /\ grows (group_name g) (group_name g) m m' /\
    opts_match g h /\ handler_pvs h = pvs /\ selection_restored cache m' (group_name g) h.
Proof.
  intros Hv Hne.
  assert (forall c m' , handlers m' = handlers m \/ (exists h, handlers m' = <[c := h]> (handlers m)) ->
    proxy_providers m' = proxy_providers m -> providers m' = providers m ->
    selector_control m' = selector_control m \/ (exists h, selector_control m' = <[c := h]> (selector_control m)) ->
    cells m `prefix_of` cells m' -> grows c c m m') as Hgrow.
  { intros c m' Hh Hr Hp Hc Hce. split; [| |  |by rewrite Hp|done].
    - intros n Hn. destruct Hh as [->|[h ->]]; [done|by apply lookup_insert_ne].
    - by rewrite Hr.
    - intros n Hn. destruct Hc as [->|[h ->]]; [done|by apply lookup_insert_ne]. }
  destruct g; cbn [finish_group group_name].
  1-5: do 2 eexists; split_and!; [done|done|done|done| |done|done|done];
    apply Hgrow; cbn; eauto; by apply prefix_app_r.
  destruct (deref m pvs) as [|pv pvs'] eqn:E; [by apply (f_equal length) in E; rewrite deref_length in E by done; destruct pvs|].
  unfold selector_new. cbn [head or_panic]. rstep. cbn [of_res mbind loaded_mbind loaded_bind].
  do 2 eexists. split_and!; [done|done|done|done| |done|done|].
  - apply Hgrow; cbn; eauto. by apply prefix_app_r.
  - cbn. rewrite lookup_insert_eq. split; [done|]. eexists. rewrite lookup_app_r, Nat.sub_diag by done. split; [done|].
    change (omap _ pvs) with (deref m pvs). rewrite E. done.
Qed.

Lemma load_group_cases cache g (m : M) :
  registry_wf m -> Forall (fun n => is_Some (proxy_providers m !! n)) (default [] (group_use g)) ->
  group_name g ∉ default [] (group_use g) -> group_name g ∉ listed g ->
  let ok := group_accepted (fun x => is_Some (handlers m !! x)) g in
  (ok -> exists m', load_group now cache m g = Loaded m' /\ registry_wf m' /\ grows (group_name g) (group_name g) m m' /\ group_built cache m' g) /\
  (~ ok -> fails (load_group now cache m g)).
Proof.
  intros Hwf Hus Hnu Hnl ok. rewrite load_group_eq.
  destruct (group_providers_cases (group_name g) (group_proxies g) (group_use g) (group_interval g) (group_lazy g) m Hwf Hus Hnu)
    as [H1 H2]. split.
  - intros Hok. destruct (H1 Hok) as (pvs & m1 & -> & Hne & _ & Hwf1 & Hg1 & Hh). cbn [mbind loaded_mbind loaded_bind].
    destruct (finish_group_ok cache g pvs m1 (holds_valid _ _ _ _ _ Hwf1 Hh) Hne)
      as (h & m2 & -> & Hhs & Hr & Hp & Hg2 & Ho & Hpv & Hs). exists m2. split_and!; [done| |by eapply grows_trans|].
    + intros n i. rewrite Hr, Hp. apply Hwf1.
    + exists h. split_and!; [by rewrite Hhs, lookup_insert_eq|done| |done]. rewrite Hpv. by eapply holds_grows.
  - intros Hok. apply bind_fails. left. by apply H2.
Qed.

(** ** All groups *)
Abbreviation names gs := (group_name <$> gs).

(** Providers a group uses are among those of the configuration, whose names
    differ from the groups'. *)
Definition uses_known (m0 : M) (gs : list OutboundGroupProtocol) : Prop :=
  forall g n, g ∈ gs -> n ∈ default [] (group_use g) -> is_Some (proxy_providers m0 !! n) /\ n ∉ names gs.

Record groups_inv (cache : CacheFile SD) (m0 : M) (done : list OutboundGroupProtocol) (m : M) : Prop := {
  gi_wf : registry_wf m;
  gi_built : Forall (group_built cache m) done;
  gi_handlers : forall n, n ∉ names done -> handlers m !! n = handlers m0 !! n;
  gi_registry : forall n, n ∉ names done -> proxy_providers m !! n = proxy_providers m0 !! n;
  gi_control : forall n, n ∉ names done -> selector_control m !! n = selector_control m0 !! n;
  gi_providers : providers m0 `prefix_of` providers m;
}.

Lemma group_accepted_ext (P Q : str -> Prop) g : (forall x, x ∈ listed g -> P x <-> Q x) ->
  group_accepted P g <-> group_accepted Q g.
Proof.
  unfold group_accepted, listed. destruct (group_proxies g) as [l|]; [|done]. simpl. intros H.
  rewrite !Forall_forall. naive_solver.
Qed.

Lemma built_known cache m g : group_built cache m g -> is_Some (handlers m !! group_name g).
Proof. intros (h & -> & _). by eexists. Qed.

Lemma known_now cache m0 gs done g rest m x :
  gs = done ++ g :: rest -> dependencies_first gs -> groups_inv cache m0 done m -> x ∈ listed g ->
  is_Some (handlers m !! x) <-> is_Some (handlers m0 !! x) \/ x ∈ names gs.
Proof.
  intros -> Hdep Hinv Hx. destruct (decide (x ∈ names done)) as [Hd|Hd].
  - split; [intros _; right; rewrite fmap_app; set_solver|intros _].
    apply list_elem_of_fmap in Hd as (g' & -> & Hg'). pose proof (gi_built _ _ _ _ Hinv) as Hb. rewrite Forall_forall in Hb.
    by eapply built_known, Hb.
  - rewrite (gi_handlers _ _ _ _ Hinv) by done. split; [by left|]. intros [?|Hin]; [done|exfalso].
    rewrite fmap_app in Hin. apply elem_of_app in Hin as [?|Hin]; [done|].
    apply list_elem_of_fmap in Hin as (g' & -> & Hg'). apply list_elem_of_lookup in Hg' as [k Hk].
    assert (length done + k < length done)%nat; [|lia].
    apply (Hdep (length done) (length done + k)%nat g g').
    + by rewrite lookup_app_r, Nat.sub_diag by done.
    + rewrite lookup_app_r by lia. by replace (length done + k - length done)%nat with k by lia.
    + done.
Qed.

Lemma later_not_listed gs done g rest g' :
  gs = done ++ g :: rest -> dependencies_first gs -> g' ∈ done ++ [g] -> group_name g ∉ listed g'.
Proof.
  intros -> Hdep Hg' Hin. apply list_elem_of_lookup in Hg' as [k Hk].
  pose proof (lookup_lt_Some _ _ _ Hk) as Hlt. rewrite length_app in Hlt. simpl in Hlt.
  assert (length done < k)%nat; [|lia]. apply (Hdep k (length done) g' g).
  - change (g :: rest) with ([g] ++ rest). rewrite (assoc_L app). by apply lookup_app_l_Some.
  - by rewrite lookup_app_r, Nat.sub_diag by done.
  - done.
Qed.

Lemma groups_step cache m0 gs done g rest m :
  gs = done ++ g :: rest -> NoDup (names gs) -> dependencies_first gs -> uses_known m0 gs -> groups_inv cache m0 done m ->
  let ok := group_accepted (fun x => is_Some (handlers m0 !! x) \/ x ∈ names gs) g in
  (ok -> exists m', load_group now cache m g = Loaded m' /\ groups_inv cache m0 (done ++ [g]) m') /\
  (~ ok -> fails (load_group now cache m g)).
Proof.
  intros Egs Hnd Hdep Huse Hinv ok.
  assert (g ∈ gs) as Hg by (rewrite Egs; set_solver).
  assert (group_name g ∉ names done) as Hnew.
  { rewrite Egs, fmap_app in Hnd. apply NoDup_app in Hnd as (_ & Hnd & _). intros Hin. by apply (Hnd _ Hin); left. }
  assert (forall g', g' ∈ gs -> group_name g ∉ default [] (group_use g')) as Hnu.
  { intros g' Hg' Hin. apply (proj2 (Huse _ _ Hg' Hin)). by apply list_elem_of_fmap_2. }
  destruct (load_group_cases cache g m) as [H1 H2].
  { apply Hinv. }
  { apply Forall_forall. intros n Hn. destruct (Huse _ _ Hg Hn) as [Hr Hn']. rewrite (gi_registry _ _ _ _ Hinv); [done|].
    intros Hin. apply Hn'. rewrite Egs, fmap_app. set_solver. }
  { by apply Hnu. }
  { eapply later_not_listed; [done..|]. set_solver. }
  rewrite (group_accepted_ext _ _ g (fun x Hx => known_now cache m0 gs done g rest m x Egs Hdep Hinv Hx)) in H1, H2.
  split; [|done]. intros Hok. destruct (H1 Hok) as (m' & E & Hwf & Hgr & Hb). exists m'. split; [done|]. split.
  - done.
  - apply Forall_app. split; [|by repeat constructor]. apply Forall_forall. intros g' Hg'.
    pose proof (gi_built _ _ _ _ Hinv) as Hbs. rewrite Forall_forall in Hbs. apply (built_grows (group_name g) (group_name g) cache m); try done.
    + apply Hinv.
    + intros En. apply Hnew. rewrite En. by apply list_elem_of_fmap_2.
    + eapply later_not_listed; [done..|]. set_solver.
    + apply Hnu. rewrite Egs. set_solver.
    + by apply Hbs.
  - intros n. rewrite fmap_app. intros Hn. rewrite (gr_handlers _ _ _ _ Hgr) by set_solver. apply Hinv. set_solver.
  - intros n. rewrite fmap_app. intros Hn. rewrite (gr_registry _ _ _ _ Hgr) by set_solver. apply Hinv. set_solver.
  - intros n. rewrite fmap_app. intros Hn. rewrite (gr_control _ _ _ _ Hgr) by set_solver. apply Hinv. set_solver.
  - etrans; [apply Hinv|apply Hgr].
Qed.

Lemma groups_loaded cache m0 gs :
  registry_wf m0 -> NoDup (names gs) -> dependencies_first gs -> uses_known m0 gs ->
  let ok := Forall (group_accepted (fun x => is_Some (handlers m0 !! x) \/ x ∈ names gs)) gs in
  (ok -> exists m, loaded_fold (load_group now cache) m0 gs = Loaded m /\ groups_inv cache m0 gs m) /\
  (~ ok -> fails (loaded_fold (load_group now cache) m0 gs)).
Proof.
  intros Hwf Hnd Hdep Huse. set (P := group_accepted _).
  assert (forall g, Decision (P g)) as HdP by (intros g; apply _).
  assert (forall rest done m, gs = done ++ rest -> groups_inv cache m0 done m ->
    (Forall P rest -> exists m', loaded_fold (load_group now cache) m rest = Loaded m' /\ groups_inv cache m0 gs m') /\
    (~ Forall P rest -> fails (loaded_fold (load_group now cache) m rest))) as Hgen.
  { induction rest as [|g rest IH]; intros done m Egs Hinv.
    - rewrite app_nil_r in Egs. subst done. split; [by exists m|]. intros H. by destruct H.
    - cbn [loaded_fold]. destruct (groups_step cache m0 gs done g rest m Egs Hnd Hdep Huse Hinv) as [H1 H2].
      destruct (decide (P g)) as [Hp|Hp].
      + destruct (H1 Hp) as (m1 & -> & Hinv1). cbn [mbind loaded_mbind loaded_bind].
        destruct (IH (done ++ [g]) m1) as [I1 I2]; [by rewrite <- (assoc_L app)|done|].
        rewrite Forall_cons. split; [by intros [_ ?]; apply I1|]. intros Hn. apply I2. tauto.
      + split; [by intros [? _]%Forall_cons|]. intros _. apply bind_fails. left. by apply H2. }
  apply (Hgen gs []); [done|]. split; [done|done|done..].
Qed.

(** ** Providers of the configuration *)
Definition def_ok (d : str * OutboundProxyProviderDef) : Prop :=
  match d.2 with PdHttp http => is_Some (parse_uri (ohp_url http)) | PdFile _ => True end.
#[local] Instance def_ok_dec d : Decision (def_ok d).
Proof. unfold def_ok. destruct d.2; apply _. Defined.

(** The objects of the fetched providers, and that nothing else changed. *)
Record providers_inv (ns : list str) (m : M) : Prop := {
  pi_handlers : handlers m = ∅;
  pi_control : selector_control m = ∅;
  pi_names : forall n, is_Some (proxy_providers m !! n) <-> n ∈ ns;
  pi_objects : forall n i, proxy_providers m !! n = Some i ->
    exists p, providers m !! i = Some p /\ po_name p = n /\ is_fetched m i = true;
}.
Definition contents (m : M) (i : nat) : option (list (Handler X)) := pv_proxies ∘ po_provider <$> providers m !! i.

Lemma add_fetched ns m name p :
  providers_inv ns m -> po_name p = name -> po_vehicle p = PvtHttp \/ po_vehicle p = PvtFile ->
  providers_inv (ns ++ [name]) (add_provider name p m).
Proof.
  intros [H1 H2 H3 H4] Hn Hv. split; [done|done| |].
  - intros n. cbn. rewrite lookup_insert_is_Some, elem_of_app, list_elem_of_singleton, H3.
    destruct (decide (name = n)); naive_solver.
  - intros n i. unfold is_fetched. cbn. rewrite lookup_insert_Some. intros [[<- <-]|[Hne Hi]].
    + exists p. rewrite lookup_app_r, Nat.sub_diag by done. cbn. split_and!; [done|done|]. by destruct Hv as [-> | ->].
    + destruct (H4 _ _ Hi) as (q & Hq & Hqn & Hqf). exists q. unfold is_fetched in Hqf.
      rewrite (lookup_app_l_Some _ _ _ _ Hq). by rewrite Hq in Hqf.
Qed.

Lemma load_defs_cases defs ns m :
  providers_inv ns m -> Forall (fun p => pv_proxies (po_provider p) = []) (providers m) ->
  (Forall def_ok defs -> exists m', loaded_fold (load_provider parse_uri now) m defs = Loaded m' /\
     providers_inv (ns ++ defs.*1) m' /\ Forall (fun p => pv_proxies (po_provider p) = []) (providers m')) /\
  (~ Forall def_ok defs -> fails (loaded_fold (load_provider parse_uri now) m defs)).
Proof.
  revert ns m. induction defs as [|[name d] defs IH]; intros ns m Hinv Hemp.
  - split; [intros _; exists m; by rewrite app_nil_r|]. intros H. by destruct H.
  - cbn [loaded_fold load_provider]. assert (forall v hc, v = PvtHttp \/ v = PvtFile ->
      let m1 := add_provider name {| po_name := name; po_vehicle := v; po_provider := proxy_set_new hc |} m in
      providers_inv (ns ++ [name]) m1 /\ Forall (fun p => pv_proxies (po_provider p) = []) (providers m1)) as Hadd.
    { intros v hc Hv m1. split; [by apply add_fetched|]. apply Forall_app. split; [done|]. by repeat constructor. }
    assert (forall m1, providers_inv (ns ++ [name]) m1 -> Forall (fun p => pv_proxies (po_provider p) = []) (providers m1) ->
      (Forall def_ok defs -> exists m', loaded_fold (load_provider parse_uri now) m1 defs = Loaded m' /\
         providers_inv (ns ++ ((name, d) :: defs).*1) m' /\ Forall (fun p => pv_proxies (po_provider p) = []) (providers m')) /\
      (~ Forall def_ok defs -> fails (loaded_fold (load_provider parse_uri now) m1 defs))) as Hrest.
    { intros m1 Hi He. destruct (IH _ _ Hi He) as [I1 I2]. split; [|done]. cbn [fmap list_fmap fst].
      change (name :: ?l) with ([name] ++ l). by rewrite (assoc_L app). }
    destruct d as [http|file].
    + unfold load_http_provider. destruct (parse_uri (ohp_url http)) as [u|] eqn:E; cbn [or_failed mbind loaded_mbind loaded_bind].
      * destruct (Hadd PvtHttp (hc_new [] (hcd_interval (ohp_health_check http)) (default false (hcd_lazy (ohp_health_check http))) now))
          as [Hi He]; [by left|]. destruct (Hrest _ Hi He) as [R1 R2]. rewrite Forall_cons. unfold def_ok at 1 3. cbn [snd]. rewrite E.
        split; [by intros [_ ?]; apply R1|]. intros Hn. apply R2. intros Hf. apply Hn. by split.
      * rewrite Forall_cons. unfold def_ok at 1 3. cbn [snd]. rewrite E. split; [by intros [[? [=]] _]|by eexists].
    + cbn [mbind loaded_mbind loaded_bind load_file_provider].
      destruct (Hadd PvtFile (hc_new [] (hcd_interval (ofp_health_check file)) (default false (hcd_lazy (ofp_health_check file))) now))
          as [Hi He]; [by right|]. destruct (Hrest _ Hi He) as [R1 R2]. rewrite Forall_cons. unfold def_ok at 1 3. cbn [snd].
      split; [by intros [_ ?]; apply R1|]. intros Hn. apply R2. intros Hf. apply Hn. by split.
Qed.

Lemma initialize_keeps ns m i : providers_inv ns m -> providers_inv ns (initialize_provider fetched m i).
Proof.
  intros Hinv. unfold initialize_provider. destruct (providers m !! i) as [p|] eqn:Ep; [|done].
  destruct (fetched (po_name p)) as [xs|]; [|done]. destruct Hinv as [H1 H2 H3 H4]. split; [done|done|done|].
  intros n k Hk. destruct (H4 n k Hk) as (q & Hq & Hn & Hf). unfold is_fetched in *. cbn.
  destruct (decide (i = k)) as [->|Hne].
  - rewrite list_lookup_insert_eq by (by eapply lookup_lt_Some). rewrite Hq in Hf, Ep. injection Ep as ->. eexists. by split_and!.
  - rewrite list_lookup_insert_ne by done. by exists q.
Qed.

Definition initial_contents (m : M) (i : nat) : option (list (Handler X)) :=
  (fun p => HPlain <$> default [] (fetched (po_name p))) <$> providers m !! i.

Lemma initialize_contents m i k :
  let m' := initialize_provider fetched m i in
  (contents m k = initial_contents m k \/ (k = i /\ contents m k = Some []) -> contents m' k = initial_contents m' k) /\
  (k <> i -> contents m' k = contents m k).
Proof.
  unfold initialize_provider, contents, initial_contents in *.
  destruct (providers m !! i) as [p|] eqn:Ep.
  2: { split; [|done]. intros [Hc|[-> Hc]]; [done|]. by rewrite Ep in Hc. }
  destruct (fetched (po_name p)) as [xs|] eqn:Ef.
  - cbn. destruct (decide (k = i)) as [->|Hne].
    + rewrite list_lookup_insert_eq by (by eapply lookup_lt_Some). cbn. rewrite Ef. by split.
    + rewrite list_lookup_insert_ne by done. split; naive_solver.
  - split; [|done]. intros [Hc|[-> Hc]]; [done|]. rewrite Hc, Ep. cbn. by rewrite Ef.
Qed.

Lemma initialize_all_contents l m k :
  contents m k = initial_contents m k \/ (k ∈ l /\ contents m k = Some []) ->
  let m' := foldl (initialize_provider fetched) m l in contents m' k = initial_contents m' k.
Proof.
  revert m. induction l as [|i l IH]; intros m Hc; [destruct Hc as [?|[[]%elem_of_nil _]]; done|]. cbn [foldl]. apply IH.
  destruct (initialize_contents m i k) as [H1 H2]. destruct Hc as [Hc|[Hin Hc]]; [left; apply H1; by left|].
  destruct (decide (k = i)) as [->|Hne]; [left; apply H1; by right|]. right. rewrite H2 by done.
  split; [by apply elem_of_cons in Hin as [?|?]|done].
Qed.

Definition lists_values (f : gmap str nat -> list nat) : Prop := forall g, f g ≡ₚ (map_to_list g).*2.
Lemma lists_values_elem f g i : lists_values f -> i ∈ f g <-> exists n, g !! n = Some i.
Proof.
  intros Hf. rewrite (Hf g), list_elem_of_fmap. split.
  - intros ([n k] & -> & Hin). exists n. by apply elem_of_map_to_list.
  - intros [n Hn]. exists (n, i). split; [done|]. by apply elem_of_map_to_list.
Qed.

(** What the providers of the configuration hold once loaded. *)
Definition provider_ready (m : M) (n : str) : Prop :=
  exists i p, proxy_providers m !! n = Some i /\ providers m !! i = Some p /\ po_name p = n /\ is_fetched m i = true /\
    pv_proxies (po_provider p) = HPlain <$> default [] (fetched n).

Lemma load_proxy_providers_cases defs values :
  lists_values values ->
  (Forall def_ok defs -> exists m, load_proxy_providers parse_uri fetched now defs values manager_empty = Loaded m /\
     providers_inv defs.*1 m /\ Forall (provider_ready m) defs.*1) /\
  (~ Forall def_ok defs -> fails (load_proxy_providers parse_uri fetched now defs values manager_empty)).
Proof.
  intros Hval. unfold load_proxy_providers. destruct (load_defs_cases defs [] manager_empty) as [H1 H2].
  { split; [done|done| |done]. intros n. cbn. rewrite lookup_empty, elem_of_nil. split; [by intros [? [=]]|done]. }
  { constructor. }
  split; [|intros Hn; apply bind_fails; left; by apply H2]. intros Hok. destruct (H1 Hok) as (m & -> & Hinv & Hemp).
  cbn [mbind loaded_mbind loaded_bind app] in *. eexists. split; [done|].
  assert (forall l m, providers_inv defs.*1 m -> providers_inv defs.*1 (foldl (initialize_provider fetched) m l)) as Hkeep.
  { induction l as [|i l IH]; intros m1 Hm1; [done|]. cbn [foldl]. apply IH. by apply initialize_keeps. }
  assert (forall l m, proxy_providers (foldl (initialize_provider fetched) m l) = proxy_providers m) as Hreg.
  { induction l as [|i l IH]; intros m1; [done|]. cbn [foldl]. rewrite IH. unfold initialize_provider.
    destruct (providers m1 !! i); [|done]. by destruct (fetched _). }
  set (m' := foldl _ _ _). assert (providers_inv defs.*1 m') as Hinv' by by apply Hkeep. split; [done|].
  apply Forall_forall. intros n Hn. apply (pi_names _ _ Hinv') in Hn as [i Hi].
  destruct (pi_objects _ _ Hinv' _ _ Hi) as (p & Hp & Hpn & Hf). exists i, p. split_and!; try done.
  assert (contents m' i = initial_contents m' i) as Hc.
  { apply initialize_all_contents. right. unfold m' in Hi. rewrite Hreg in Hi. split.
    - apply (lists_values_elem _ _ _ Hval). by exists n.
    - destruct (pi_objects _ _ Hinv _ _ Hi) as (q & Hq & _). unfold contents. rewrite Hq. cbn. f_equal.
      rewrite Forall_forall in Hemp. apply Hemp. by eapply list_elem_of_lookup_2. }
  unfold contents, initial_contents in Hc. rewrite Hp in Hc. cbn in Hc. injection Hc as ->. by rewrite Hpn.
Qed.

(** ** The group GLOBAL *)
Definition lists_keys (f : gmap str (Handler X) -> list str) : Prop := forall g, f g ≡ₚ (map_to_list g).*1.

(** Names the configuration does not order come first. *)
Definition global_rank (proxy_names : list str) (n : str) : Z := default (-1) (Z.of_nat <$> name_position proxy_names n).
Definition before (proxy_names : list str) (a b : str) : Prop := global_rank proxy_names a <= global_rank proxy_names b.

Lemma global_keys_eq proxy_names l :
  global_keys proxy_names l = sort_by (fun a b => global_rank proxy_names a ?= global_rank proxy_names b) l.
Proof.
  apply sort_by_ext. intros a b. unfold global_rank, option_nat_cmp.
  destruct (name_position proxy_names a), (name_position proxy_names b);
    cbn [default from_option fmap option_fmap option_map id]; try done.
  - by rewrite Nat2Z.inj_compare.
  - symmetry. apply Z.compare_gt_iff. lia.
  - symmetry. apply Z.compare_lt_iff. lia.
Qed.

Lemma omap_lookup_all {V} (g : gmap str V) l :
  (forall n, n ∈ l -> is_Some (g !! n)) -> Forall2 (fun n h => g !! n = Some h) l (omap (fun n => g !! n) l).
Proof.
  induction l as [|n l IH]; intros H; cbn [omap list_omap]; [constructor|].
  destruct (H n) as [h Hh]; [left|]. rewrite Hh. constructor; [done|]. apply IH. intros k Hk. apply H. by right.
Qed.

(** The handler GLOBAL over the table and the providers of a state [m]. *)
Definition global_over (proxy_names : list str) (cache : CacheFile SD) (m m' : M) : Prop :=
  exists s p used order index,
    handlers m' = <[PROXY_GLOBAL := HSelector s]> (handlers m) /\
    selector_control m' = <[PROXY_GLOBAL := s]> (selector_control m) /\
    proxy_providers m' = <[RESERVED_PROVIDER_NAME := length (providers m)]> (proxy_providers m) /\
    providers m' = providers m ++ [p] /\ cells m' = cells m ++ [index] /\ sel_cell s = length (cells m) /\
    sel_opts s = {| go_name := PROXY_GLOBAL; go_icon := None; go_url := None; go_udp := true |} /\
    sel_pvs s = length (providers m) :: used /\
    (forall i, i ∈ used <-> (exists n, proxy_providers m !! n = Some i) /\ is_fetched m i = true) /\
    order ≡ₚ (map_to_list (handlers m)).*1 /\ StronglySorted (before proxy_names) order /\
    Forall2 (fun n h => handlers m !! n = Some h) order (pv_proxies (po_provider p)) /\
    selector_new (deref m' (sel_pvs s)) (ts_get_selected PROXY_GLOBAL cache) = Ok index.

Lemma load_global_cases keys values proxy_names cache m :
  lists_keys keys -> lists_values values ->
  (handlers m <> ∅ -> exists m', load_global now keys values proxy_names cache m = Loaded m' /\
     global_over proxy_names cache m m') /\
  (handlers m = ∅ -> fails (load_global now keys values proxy_names cache m)).
Proof.
  intros Hk Hv. unfold load_global. set (order := global_keys proxy_names (keys (handlers m))).
  assert (order ≡ₚ (map_to_list (handlers m)).*1) as Hp.
  { unfold order. rewrite global_keys_eq, sort_by_perm. apply Hk. }
  assert (Forall2 (fun n h => handlers m !! n = Some h) order (omap (fun n => handlers m !! n) order)) as Hall.
  { apply omap_lookup_all. intros n. rewrite Hp, list_elem_of_fmap. intros ([x h] & -> & Hin).
    apply elem_of_map_to_list in Hin. by exists h. }
  unfold plain_provider_new. rewrite <- (Forall2_length _ _ _ Hall). split.
  - intros Hne. rewrite bool_decide_false.
    2: { intros E. apply Hne. apply map_to_list_empty_iff. apply Permutation_length in Hp. rewrite E, length_fmap in Hp.
         by destruct (map_to_list (handlers m)). }
    cbn [of_res mbind loaded_mbind loaded_bind]. set (p := {| po_name := _ |}).
    set (used := base.filter _ _). set (m1 := add_provider _ _ _).
    assert (exists index, selector_new (deref m1 (length (providers m) :: used)) (ts_get_selected PROXY_GLOBAL cache) = Ok index) as [index E].
    { unfold deref. cbn [omap list_omap]. unfold m1 at 1. cbn [providers add_provider].
      rewrite lookup_app_r, Nat.sub_diag by done. cbn. by eexists. }
    rewrite E. cbn [of_res mbind loaded_mbind loaded_bind]. eexists. split; [done|].
    eexists _, p, used, order, index. split_and!; try done.
    + intros i. unfold used. rewrite list_elem_of_filter, (lists_values_elem _ _ _ Hv). tauto.
    + unfold order. rewrite global_keys_eq. apply sort_by_sorted.
  - intros E. rewrite bool_decide_true; [by eexists|]. apply Permutation_length in Hp.
    by rewrite E, map_to_list_empty in Hp.
Qed.

(** ** Plain outbounds *)
(** The last outbound of a name is the one kept. *)
Definition plain_table (outbounds : list X) : gmap str X := foldl (fun t x => <[px_name x := x]> t) ∅ outbounds.

Lemma add_outbounds_eq outbounds m : handlers m = ∅ ->
  add_outbounds outbounds m =
  {| handlers := HPlain <$> plain_table outbounds; proxy_providers := proxy_providers m;
     selector_control := selector_control m; providers := providers m; cells := cells m |}.
Proof.
  intros Hm. unfold add_outbounds, plain_table. assert (handlers m = HPlain <$> (∅ : gmap str X)) as Hh by by rewrite fmap_empty.
  revert m Hm Hh. generalize (∅ : gmap str X). intros t m _. revert t m.
  induction outbounds as [|x xs IH]; intros t m Hh; cbn [foldl]; [by rewrite <- Hh; destruct m|].
  rewrite (IH (<[px_name x := x]> t)); [done|]. cbn. by rewrite Hh, fmap_insert.
Qed.

Lemma plain_table_names outbounds n : is_Some (plain_table outbounds !! n) <-> n ∈ px_name <$> outbounds.
Proof.
  clear parse_uri fetched now.
  unfold plain_table. assert (forall t : gmap str X, is_Some (foldl (fun t x => <[px_name x := x]> t) t outbounds !! n) <->
    is_Some (t !! n) \/ n ∈ px_name <$> outbounds) as Hgen.
  { induction outbounds as [|x xs IH]; intros t; cbn [foldl fmap list_fmap]; [rewrite elem_of_nil; tauto|].
    rewrite IH, elem_of_cons, lookup_insert_is_Some. destruct (decide (px_name x = n)); naive_solver. }
  rewrite Hgen, lookup_empty. split; [by intros [[? [=]]|?]|by right].
Qed.

Lemma plain_table_name outbounds n x : plain_table outbounds !! n = Some x -> px_name x = n.
Proof.
  clear parse_uri fetched now.
  unfold plain_table. assert (forall t : gmap str X, (forall n x, t !! n = Some x -> px_name x = n) ->
    forall n x, foldl (fun t x => <[px_name x := x]> t) t outbounds !! n = Some x -> px_name x = n) as Hgen.
  { induction outbounds as [|y ys IH]; intros t Ht; cbn [foldl]; [done|]. apply IH. intros k z.
    rewrite lookup_insert_Some. naive_solver. }
  apply Hgen. intros k z. by rewrite lookup_empty.
Qed.

(** ** Connectors *)
Definition dials (m : M) (h : Handler X) (c : Connector (Handler X)) : Prop :=
  exists d o, handler_dialer h = Some d /\ handlers m !! d = Some o /\ c = ProxyConnector o DirectConnector.
Definition dialer_ok (m : M) (h : Handler X) : Prop :=
  forall d, handler_dialer h = Some d -> is_Some (handlers m !! d).
#[local] Instance dialer_ok_dec m h : Decision (dialer_ok m h).
Proof.
  unfold dialer_ok. destruct (handler_dialer h) as [d|]; [|left; naive_solver].
  destruct (decide (is_Some (handlers m !! d))); [left|right]; naive_solver.
Defined.

Lemma init_connectors_cases m values registered :
  NoDup (handler_name <$> values) ->
  (Forall (dialer_ok m) values -> exists r, init_handler_connectors m values registered = Loaded r /\
     forall n c, r !! n = Some c <->
       (exists h, h ∈ values /\ handler_name h = n /\ dials m h c) \/
       (registered !! n = Some c /\ forall h, h ∈ values -> handler_name h = n -> handler_dialer h = None)) /\
  (~ Forall (dialer_ok m) values -> fails (init_handler_connectors m values registered)).
Proof.
  revert registered. induction values as [|h hs IH]; intros registered Hnd.
  - split; [intros _; exists registered; split; [done|]|intros H; by destruct H]. intros n c. split.
    + intros Hr. right. split; [done|]. by intros h ?%elem_of_nil.
    + by intros [(h & ?%elem_of_nil & _)|[? _]].
  - cbn [fmap list_fmap] in Hnd. apply NoDup_cons in Hnd as [Hnew Hnd]. cbn [init_handler_connectors]. rewrite Forall_cons.
    assert (forall g, g ∈ hs -> handler_name g <> handler_name h) as Hne.
    { intros g Hg E. apply Hnew. rewrite <- E. by apply list_elem_of_fmap_2. }
    destruct (handler_dialer h) as [d|] eqn:Ed.
    + destruct (handlers m !! d) as [o|] eqn:Eo; unfold get_outbound; rewrite Eo; cbn [or_failed mbind loaded_mbind loaded_bind].
      2: { split; [|by eexists]. intros [Hd _]. destruct (Hd d Ed) as [? ?]. congruence. }
      destruct (IH (<[handler_name h := ProxyConnector o DirectConnector]> registered) Hnd) as [I1 I2]. split.
      * intros [_ Hok]. destruct (I1 Hok) as (r & -> & Hr). exists r. split; [done|]. intros n c. rewrite Hr. split.
        -- intros [(g & Hg & Hn & Hd)|[Hl Hg]]; [left; exists g; split; [by right|done]|].
           apply lookup_insert_Some in Hl as [[<- <-]|[Hnn Hl]].
           ++ left. exists h. split_and!; [left|done|by exists d, o].
           ++ right. split; [done|]. intros g [-> |Hin]%elem_of_cons; naive_solver.
        -- intros [(g & [-> |Hg]%elem_of_cons & Hn & Hd)|[Hl Hg]].
           ++ right. destruct Hd as (d' & o' & Ed' & Eo' & ->). rewrite Ed in Ed'. injection Ed' as <-.
              rewrite Eo in Eo'. injection Eo' as <-. rewrite <- Hn, lookup_insert_eq. split; [done|].
              intros g Hg En. by destruct (Hne g Hg).
           ++ left. by exists g.
           ++ assert (handler_name h <> n) as Hhn by (intros En; rewrite (Hg h) in Ed; [done|left|done]).
              right. rewrite lookup_insert_ne by done. split; [done|]. intros g Hin. apply Hg. by right.
      * intros Hn. apply I2. intros Hok. apply Hn. split; [|done]. intros d'. rewrite Ed. intros [= <-]. by rewrite Eo.
    + destruct (IH registered Hnd) as [I1 I2]. split.
      * intros [_ Hok]. destruct (I1 Hok) as (r & -> & Hr). exists r. split; [done|]. intros n c. rewrite Hr. split.
        -- intros [(g & Hg & Hn & Hd)|[Hl Hg]]; [left; exists g; split; [by right|done]|].
           right. split; [done|]. intros g [-> |Hin]%elem_of_cons; naive_solver.
        -- intros [(g & [-> |Hg]%elem_of_cons & Hn & Hd)|[Hl Hg]].
           ++ destruct Hd as (d' & o' & Ed' & _). congruence.
           ++ left. by exists g.
           ++ right. split; [done|]. intros g Hin. apply Hg. by right.
      * intros Hn. apply I2. intros Hok. apply Hn. split; [|done]. intros d'. by rewrite Ed.
Qed.

(** ** The whole table *)

(** Names that do not collide: hash-map keys are distinct, GLOBAL and the
    reserved provider name are not taken, groups and providers have
    different names, and the providers groups use are configured. *)
Record names_apart (outbounds : list X) (groups : list OutboundGroupProtocol) (defs : list (str * OutboundProxyProviderDef)) : Prop := {
  na_defs : NoDup defs.*1;
  na_global_outbound : PROXY_GLOBAL ∉ px_name <$> outbounds;
  na_global_group : PROXY_GLOBAL ∉ names groups;
  na_default : RESERVED_PROVIDER_NAME ∉ defs.*1;
  na_groups : forall n, n ∈ defs.*1 -> n ∉ names groups;
  na_uses : forall g n, g ∈ groups -> n ∈ default [] (group_use g) -> n ∈ defs.*1;
}.
Definition known_name (outbounds : list X) (groups : list OutboundGroupProtocol) (n : str) : Prop :=
  n ∈ px_name <$> outbounds \/ n ∈ names groups.

(** A configuration that can be loaded. *)
Record accepted (outbounds : list X) (groups : list OutboundGroupProtocol) (defs : list (str * OutboundProxyProviderDef)) : Prop := {
  ac_urls : Forall def_ok defs;
  ac_names : NoDup (names groups);
  ac_acyclic : acyclic groups;
  ac_groups : Forall (group_accepted (known_name outbounds groups)) groups;
  ac_some : outbounds <> [] \/ groups <> [];
  ac_dialers : forall n x d, plain_table outbounds !! n = Some x -> n ∉ names groups -> px_support_dialer x = Some d ->
    d = PROXY_GLOBAL \/ known_name outbounds groups d;
}.

(** The manager of an accepted configuration. *)
Record table_of (cache : CacheFile SD) (outbounds : list X) (groups : list OutboundGroupProtocol)
    (defs : list (str * OutboundProxyProviderDef)) (proxy_names : list str) (m : M) (conn : gmap str (Connector (Handler X))) : Prop := {
  to_plain : forall n, n ∉ names groups -> n <> PROXY_GLOBAL -> handlers m !! n = HPlain <$> plain_table outbounds !! n;
  to_groups : Forall (group_built cache m) groups;
  to_providers : Forall (provider_ready m) defs.*1;
  to_global : exists m1, global_over proxy_names cache m1 m /\
    forall n, handlers m1 !! n = if decide (n = PROXY_GLOBAL) then None else handlers m !! n;
  to_connectors : forall n c, conn !! n = Some c <-> exists h, handlers m !! n = Some h /\ dials m h c;
}.

Lemma sorted_groups_cases o groups :
  orders_ok o ->
  (NoDup (names groups) /\ acyclic groups /\
     exists sorted, sorted_groups o groups = Loaded sorted /\ sorted ≡ₚ groups /\ dependencies_first sorted) \/
  (~ (NoDup (names groups) /\ acyclic groups) /\ fails (sorted_groups o groups)).
Proof.
  intros Ho. unfold sorted_groups. destruct (dag_sort_outcome o groups Ho)
    as [[Hn ->]|[(Hn & Ha & sorted & -> & H)|(Hn & Ha & ns & -> & _)]].
  - right. split; [tauto|by eexists].
  - left. split_and!; [done|done|by exists sorted].
  - right. split; [tauto|by eexists].
Qed.

Lemma provider_ready_grows c r m m' n : grows c r m m' -> r <> n -> provider_ready m n -> provider_ready m' n.
Proof.
  intros Hg Hr (i & p & Hi & Hp & Hn & Hf & Hc). exists i, p.
  assert (providers m' !! i = Some p) as Hp' by (rewrite (prefix_some _ _ i (gr_providers _ _ _ _ Hg)); [done|by rewrite Hp]).
  split_and!; [by rewrite (gr_registry _ _ _ _ Hg)|done|done| |done]. unfold is_fetched in *. by rewrite Hp in Hf; rewrite Hp'.
Qed.

Lemma global_grows proxy_names cache m m' : global_over proxy_names cache m m' -> grows PROXY_GLOBAL RESERVED_PROVIDER_NAME m m'.
Proof.
  intros (s & p & used & order & index & Hh & Hc & Hr & Hp & Hce & _). split.
  - intros n Hn. rewrite Hh. by apply lookup_insert_ne.
  - intros n Hn. rewrite Hr. by apply lookup_insert_ne.
  - intros n Hn. rewrite Hc. by apply lookup_insert_ne.
  - rewrite Hp. by apply prefix_app_r.
  - rewrite Hce. by apply prefix_app_r.
Qed.

Lemma built_name cache m g h : group_built cache m g -> handlers m !! group_name g = Some h -> handler_name h = group_name g.
Proof.
  intros (h' & E & Ho & _). rewrite E. intros [= <-].
  destruct g, h'; cbn in *; try done; unfold handler_name; cbn; destruct_and?; simplify_eq; try done. by rewrite Ho.
Qed.

Lemma loaded_state_facts outbounds groups defs cache m0 sorted m :
  providers_inv defs.*1 m0 -> names_apart outbounds groups defs -> sorted ≡ₚ groups ->
  let m1 := add_outbounds outbounds m0 in
  groups_inv cache m1 sorted m -> Forall (provider_ready m0) defs.*1 ->
  (forall n, n ∉ names groups -> handlers m !! n = HPlain <$> plain_table outbounds !! n) /\
  (forall n, is_Some (handlers m !! n) <-> known_name outbounds groups n) /\
  Forall (group_built cache m) groups /\ Forall (provider_ready m) defs.*1.
Proof.
  intros Hpi Hna Hperm m1 Hinv Hready. pose proof (add_outbounds_eq outbounds m0 (pi_handlers _ _ Hpi)) as Em1. fold m1 in Em1.
  assert (Forall (group_built cache m) groups) as Hb by (rewrite <- Hperm; apply Hinv).
  assert (forall n, n ∉ names groups -> handlers m !! n = HPlain <$> plain_table outbounds !! n) as Hp.
  { intros n Hn. rewrite (gi_handlers _ _ _ _ Hinv) by by rewrite Hperm. rewrite Em1. cbn [handlers]. by rewrite lookup_fmap. }
  split_and!; [done| |done|].
  - intros n. unfold known_name. destruct (decide (n ∈ names groups)) as [Hn|Hn].
    + split; [by right|intros _]. apply list_elem_of_fmap in Hn as (g & -> & Hg). rewrite Forall_forall in Hb. by eapply built_known, Hb.
    + rewrite Hp, fmap_is_Some, plain_table_names by done. tauto.
  - apply Forall_forall. intros n Hn. rewrite Forall_forall in Hready. destruct (Hready n Hn) as (i & p & Hi & Ho & Hnm & Hf & Hc).
    assert (providers m1 = providers m0 /\ proxy_providers m1 = proxy_providers m0) as [Ep Er] by by rewrite Em1.
    assert (providers m !! i = Some p) as Ho'.
    { rewrite (prefix_some _ _ i (gi_providers _ _ _ _ Hinv)); rewrite Ep; [done|by rewrite Ho]. }
    exists i, p. split_and!; [|done|done| |done].
    + rewrite (gi_registry _ _ _ _ Hinv); [by rewrite Er|]. rewrite Hperm. by eapply na_groups.
    + unfold is_fetched in *. rewrite Ho in Hf. by rewrite Ho'.
Qed.

Lemma load_handlers_cases mo outbounds groups defs proxy_names cache m0 :
  orders_ok (mo_sort mo) -> lists_keys (mo_keys mo) -> lists_values (mo_values mo) ->
  providers_inv defs.*1 m0 -> names_apart outbounds groups defs -> Forall (provider_ready m0) defs.*1 ->
  let ok := NoDup (names groups) /\ acyclic groups /\ Forall (group_accepted (known_name outbounds groups)) groups /\
            (outbounds <> [] \/ groups <> []) in
  let r := load_handlers now (mo_sort mo) (mo_keys mo) (mo_values mo) outbounds groups proxy_names cache m0 in
  (ok /\ exists m1 m, r = Loaded m /\ global_over proxy_names cache m1 m /\ registry_wf m1 /\
     (forall n, n ∉ names groups -> handlers m1 !! n = HPlain <$> plain_table outbounds !! n) /\
     (forall n, is_Some (handlers m1 !! n) <-> known_name outbounds groups n) /\
     Forall (group_built cache m1) groups /\ Forall (provider_ready m1) defs.*1) \/
  (~ ok /\ fails r).
Proof.
  intros Ho Hk Hv Hpi Hna Hready ok r. unfold r, load_handlers, load_group_outbounds.
  set (m1 := add_outbounds outbounds m0). pose proof (add_outbounds_eq outbounds m0 (pi_handlers _ _ Hpi)) as Em1. fold m1 in Em1.
  destruct (sorted_groups_cases (mo_sort mo) groups Ho) as [(Hnd & Hac & sorted & -> & Hperm & Hdep)|[Hn Hf]].
  2: { right. split; [unfold ok; tauto|]. apply bind_fails. left. apply bind_fails. by left. }
  cbn [mbind loaded_mbind loaded_bind].
  assert (proxy_providers m1 = proxy_providers m0) as Er by by rewrite Em1.
  assert (forall P Q : str -> Prop, (forall x, P x <-> Q x) -> Forall (group_accepted P) sorted <-> Forall (group_accepted Q) groups) as Hacc.
  { intros P Q HPQ. rewrite Hperm. apply Forall_proper; [|done]. intros g. apply group_accepted_ext. intros x _. apply HPQ. }
  destruct (groups_loaded cache m1 sorted) as [H1 H2].
  { rewrite Em1. intros n i Hi. cbn in *. destruct (pi_objects _ _ Hpi _ _ Hi) as (p & Hp & _). by exists p. }
  { by rewrite Hperm. }
  { done. }
  { intros g n Hg Hn. rewrite Hperm in Hg. pose proof (na_uses _ _ _ Hna _ _ Hg Hn) as Hd. rewrite Er, Hperm. split.
    - by apply (pi_names _ _ Hpi).
    - by eapply na_groups. }
  rewrite (Hacc _ (known_name outbounds groups)) in H1, H2.
  2,3: intros x; rewrite Em1, Hperm; cbn [handlers]; by rewrite lookup_fmap, fmap_is_Some, plain_table_names.
  destruct (decide (Forall (group_accepted (known_name outbounds groups)) groups)) as [Hg|Hg].
  2: { right. split; [unfold ok; tauto|]. apply bind_fails. left. by apply H2. }
  destruct (H1 Hg) as (m2 & -> & Hinv). cbn [mbind loaded_mbind loaded_bind].
  destruct (loaded_state_facts outbounds groups defs cache m0 sorted m2 Hpi Hna Hperm Hinv Hready) as (F1 & F2 & F3 & F4).
  destruct (load_global_cases (mo_keys mo) (mo_values mo) proxy_names cache m2 Hk Hv) as [G1 G2].
  destruct (decide (handlers m2 = ∅)) as [He|He].
  - right. split; [|by apply G2]. intros (_ & _ & _ & Hsome).
    assert (forall n, ~ known_name outbounds groups n) as Hnone.
    { intros n Hn. apply F2 in Hn as [h Hh]. by rewrite He, lookup_empty in Hh. }
    destruct Hsome as [Hs|Hs].
    + destruct outbounds as [|x xs]; [done|]. apply (Hnone (px_name x)). left. left.
    + destruct groups as [|g gs]; [done|]. apply (Hnone (group_name g)). right. left.
  - left. destruct (G1 He) as (m3 & E3 & Hgl). split.
    + unfold ok. split_and!; [done|done|done|]. destruct outbounds; [|by left]. destruct groups; [|by right].
      exfalso. apply He. apply map_empty. intros n. apply eq_None_not_Some. rewrite F2. intros [H|H]; by apply elem_of_nil in H.
    + exists m2, m3. split_and!; try done. apply Hinv.
Qed.

Definition lists_handlers (f : gmap str (Handler X) -> list (Handler X)) : Prop := forall g, f g ≡ₚ (map_to_list g).*2.
Record map_orders_ok (mo : MapOrders (X := X)) : Prop := {
  mok_sort : orders_ok (mo_sort mo);
  mok_keys : lists_keys (mo_keys mo);
  mok_values : lists_values (mo_values mo);
  mok_handlers : lists_handlers (mo_handlers mo);
}.

(** Every handler of the table is filed under its own name. *)
Lemma table_names proxy_names cache outbounds groups m1 m n h :
  global_over proxy_names cache m1 m -> Forall (group_built cache m1) groups ->
  (forall n, n ∉ names groups -> handlers m1 !! n = HPlain <$> plain_table outbounds !! n) ->
  handlers m !! n = Some h -> handler_name h = n.
Proof.
  intros (s & p & used & order & index & Hh & _ & _ & _ & _ & _ & Ho & _) Hb Hp. rewrite Hh, lookup_insert_Some.
  intros [[<- <-]|[Hne Hn]]; [by unfold handler_name; cbn; rewrite Ho|].
  destruct (decide (n ∈ names groups)) as [Hin|Hin].
  - apply list_elem_of_fmap in Hin as (g & -> & Hg). rewrite Forall_forall in Hb. by eapply built_name, Hn; apply Hb.
  - rewrite Hp in Hn by done. apply fmap_Some in Hn as (x & Hx & ->). by eapply plain_table_name.
Qed.

Lemma table_values mo (m : M) : lists_handlers (mo_handlers mo) -> (forall n h, handlers m !! n = Some h -> handler_name h = n) ->
  NoDup (handler_name <$> mo_handlers mo (handlers m)) /\
  forall h, h ∈ mo_handlers mo (handlers m) <-> handlers m !! handler_name h = Some h.
Proof.
  intros Hl Hnames. assert (forall h, h ∈ mo_handlers mo (handlers m) <-> handlers m !! handler_name h = Some h) as Hin.
  { intros h. rewrite (Hl (handlers m)), list_elem_of_fmap. split.
    - intros ([n h'] & -> & Hm). apply elem_of_map_to_list in Hm. cbn. by rewrite (Hnames _ _ Hm).
    - intros Hh. exists (handler_name h, h). split; [done|]. by apply elem_of_map_to_list. }
  split; [|done]. rewrite (Hl (handlers m)), <- list_fmap_compose.
  replace ((handler_name ∘ snd) <$> map_to_list (handlers m)) with ((map_to_list (handlers m)).*1); [apply NoDup_fst_map_to_list|].
  apply list_fmap_ext. intros i [n h] Hi. cbn. symmetry. apply Hnames. apply elem_of_map_to_list. by eapply list_elem_of_lookup_2.
Qed.

(** The dialers of the table and those of the outbounds. *)
Lemma dialers_agree proxy_names cache outbounds groups m1 m :
  PROXY_GLOBAL ∉ px_name <$> outbounds ->
  global_over proxy_names cache m1 m -> Forall (group_built cache m1) groups ->
  (forall n, n ∉ names groups -> handlers m1 !! n = HPlain <$> plain_table outbounds !! n) ->
  (forall n, is_Some (handlers m1 !! n) <-> known_name outbounds groups n) ->
  (forall h, handlers m !! handler_name h = Some h -> dialer_ok m h) <->
  (forall n x d, plain_table outbounds !! n = Some x -> n ∉ names groups -> px_support_dialer x = Some d ->
     d = PROXY_GLOBAL \/ known_name outbounds groups d).
Proof.
  intros Hgo Hgl Hb Hp Hk. pose proof Hgl as (s & p & used & order & index & Hh & _).
  assert (forall d, is_Some (handlers m !! d) <-> d = PROXY_GLOBAL \/ known_name outbounds groups d) as Hdom.
  { intros d. rewrite Hh, lookup_insert_is_Some, Hk. destruct (decide (PROXY_GLOBAL = d)); naive_solver. }
  split.
  - intros H n x d Hx Hn Hd. apply Hdom. pose proof (plain_table_name _ _ _ Hx) as En. apply (H (HPlain x)); [|done].
    cbn. rewrite Hh, lookup_insert_ne.
    + by rewrite Hp, En, Hx by (by rewrite En).
    + intros E. apply Hgo. rewrite E, En. apply plain_table_names. by exists x.
  - intros H h Hh' d Hd. apply Hdom. destruct h as [x| | | | | |]; cbn in Hd; try done.
    rewrite Hh in Hh'. apply lookup_insert_Some in Hh' as [[_ [=]]|[_ Hx]]. cbn in Hx.
    destruct (decide (px_name x ∈ names groups)) as [Hin|Hin].
    + apply list_elem_of_fmap in Hin as (g & Eg & Hg). rewrite Forall_forall in Hb. destruct (Hb g Hg) as (h & E & Ho & _).
      rewrite <- Eg, Hx in E. injection E as <-. by destruct g.
    + rewrite Hp in Hx by done. apply fmap_Some in Hx as (y & Hy & [= <-]). by eapply H.
Qed.

(** C7: the outbound manager accepts exactly the configurations that make
    sense, and builds from them the table they describe.  For configurations
    in which nothing is called GLOBAL, the provider names are distinct, none
    of them is the reserved one or the name of a group, and every provider a
    group uses is defined: whatever order the hash maps are iterated in,
    loading succeeds if and only if the provider URLs parse, the groups have
    distinct names and no cycle, every group has a member, no group that
    lists members is called DIRECT or REJECT, every listed name is an
    outbound or a group, there is something to serve, and every proxy that
    dials through another names one of the table; otherwise an error is
    reported.  Once loaded, each plain outbound that no group replaces is
    filed under its name.  Each group is filed with its kind, name, icon and
    test URL, the tolerance of a URL test, the UDP flag of a selector, and
    the UDP flag, retries and bandwidth weight of a smart group; a
    load-balancing group hashes consistently whatever strategy is
    configured.  A group holds, in order, the very handlers the table answers
    for the names it lists, then the providers it uses; the selectors start
    at the stored selections; the providers hold what was fetched; GLOBAL
    spans every other handler, in the order of the configuration, and every
    fetched provider; and the connector of a proxy leads through the table's
    handler of the name it asks for. *)
Theorem outbound_manager_loads (mo : MapOrders) (outbounds : list X) (groups : list OutboundGroupProtocol)
    (defs : list (str * OutboundProxyProviderDef)) (proxy_names : list str) (cache : CacheFile SD)
    (Hmo : map_orders_ok mo) (Hna : names_apart outbounds groups defs) :
  let r := manager_new parse_uri fetched now mo outbounds groups defs proxy_names cache in
  (accepted outbounds groups defs /\
     exists m conn, r = Loaded (m, conn) /\ table_of cache outbounds groups defs proxy_names m conn) \/
  (~ accepted outbounds groups defs /\ fails r).
Proof.
  intros r. unfold r, manager_new. destruct Hmo as [Hms Hmk Hmv Hmh].
  destruct (load_proxy_providers_cases defs (mo_values mo) Hmv) as [P1 P2].
  destruct (decide (Forall def_ok defs)) as [Hd|Hd].
  2: { right. split; [by intros [? ?]|]. apply bind_fails. left. by apply P2. }
  destruct (P1 Hd) as (m0 & -> & Hpi & Hready). cbn [mbind loaded_mbind loaded_bind].
  destruct (load_handlers_cases mo outbounds groups defs proxy_names cache m0 Hms Hmk Hmv Hpi Hna Hready)
    as [[Hok (m1 & m & -> & Hgl & Hwf & Hp & Hk & Hb & Hr)]|[Hn Hf]].
  2: { right. split; [intros [? ? ? ? ? ?]; tauto|]. apply bind_fails. by left. }
  cbn [mbind loaded_mbind loaded_bind]. pose proof (fun n h => table_names _ _ _ _ _ _ n h Hgl Hb Hp) as Hnames.
  destruct (table_values mo m Hmh Hnames) as [Hnd Hin].
  pose proof (dialers_agree _ _ _ _ _ _ (na_global_outbound _ _ _ Hna) Hgl Hb Hp Hk) as Hdial.
  destruct (init_connectors_cases m (mo_handlers mo (handlers m)) ∅ Hnd) as [C1 C2].
  destruct (decide (Forall (dialer_ok m) (mo_handlers mo (handlers m)))) as [Hc|Hc].
  2: { right. split; [|apply bind_fails; left; by apply C2]. intros [_ _ _ _ _ Hdi]. apply Hc. apply Forall_forall.
       intros h Hh. apply (proj2 Hdial Hdi). by apply Hin. }
  left. destruct Hok as (Hnm & Hac & Hgs & Hsome). split.
  { split; try done. apply Hdial. intros h Hh. rewrite Forall_forall in Hc. apply Hc. by apply Hin. }
  destruct (C1 Hc) as (conn & -> & Hconn). cbn [mbind loaded_mbind loaded_bind]. exists m, conn. split; [done|].
  pose proof (global_grows _ _ _ _ Hgl) as Hg. assert (handlers m1 !! PROXY_GLOBAL = None) as Hg1.
  { apply eq_None_not_Some. rewrite Hk. intros [H|H]; [by apply (na_global_outbound _ _ _ Hna)|by apply (na_global_group _ _ _ Hna)]. }
  split.
  - intros n Hn Hne. rewrite (gr_handlers _ _ _ _ Hg) by done. by apply Hp.
  - apply Forall_forall. intros g Hin'. rewrite Forall_forall in Hb. apply (built_grows PROXY_GLOBAL RESERVED_PROVIDER_NAME cache m1); try done.
    + intros E. apply (na_global_group _ _ _ Hna). rewrite E. by apply list_elem_of_fmap_2.
    + intros E. rewrite Forall_forall in Hgs. specialize (Hgs g Hin'). unfold group_accepted, listed in *.
      destruct (group_proxies g); [|by apply elem_of_nil in E]. destruct Hgs as (_ & _ & _ & Hl). rewrite Forall_forall in Hl.
      destruct (Hl _ E); [by apply (na_global_outbound _ _ _ Hna)|by apply (na_global_group _ _ _ Hna)].
    + intros E. apply (na_default _ _ _ Hna). by eapply na_uses.
    + by apply Hb.
  - apply Forall_forall. intros n Hn. rewrite Forall_forall in Hr. eapply provider_ready_grows; [done| |by apply Hr].
    intros <-. by apply (na_default _ _ _ Hna).
  - exists m1. split; [done|]. intros n. case_decide as E; [by subst|]. by rewrite (gr_handlers _ _ _ _ Hg).
  - intros n c. rewrite Hconn, lookup_empty. split.
    + intros [(h & Hh & <- & Hdd)|[[=] _]]. exists h. split; [by apply Hin|done].
    + intros (h & Hh & Hdd). left. exists h. pose proof (Hnames _ _ Hh) as En. split_and!; [apply Hin; by rewrite En|done|done].
Qed.

End spec.

(** ** A small configuration *)
Record table_outbound : Type := { dob_name : str; dob_dialer : option str }.
#[local] Instance table_plain : PlainOutbound table_outbound := {|
  px_name := dob_name; px_proto := fun _ => OtSocks5; px_support_dialer := dob_dialer |}.
#[local] Instance table_handlers : Outbound (Handler table_outbound) := {|
  ob_name := handler_name;
  ob_support_udp := fun _ => true;
  ob_support_connector := fun _ => CtTcp;
  ob_connect_stream := fun h _ => Ok [handler_name h];
  ob_connect_datagram := fun h _ => Ok [handler_name h];
  ob_stream_with_connector := fun h _ _ => Ok [handler_name h];
  ob_datagram_with_connector := fun h _ _ => Err "udp relay not supported";
|}.
Definition table_outbounds : list table_outbound :=
  [{| dob_name := lit "ss"; dob_dialer := None |}; {| dob_name := lit "exit"; dob_dialer := Some (lit "pick") |}].
Definition table_groups : list OutboundGroupProtocol :=
  [select_group (lit "pick") [lit "spread"; lit "ss"];
   LoadBalance {| lb_name := lit "spread"; lb_proxies := Some [lit "ss"; lit "exit"]; lb_use_provider := Some [lit "remote"];
                  lb_url := lit "http://a"; lb_interval := 300; lb_lazy := None; lb_strategy := Some RoundRobin; lb_icon := None |}].
Definition table_defs : list (str * OutboundProxyProviderDef) :=
  [(lit "remote", PdFile {| ofp_name := lit "remote"; ofp_path := lit "p.yaml"; ofp_interval := None;
                            ofp_health_check := {| hcd_enable := true; hcd_url := lit "http://a"; hcd_interval := 0; hcd_lazy := None |} |})].
Definition table_orders : MapOrders (X := table_outbound) := {|
  mo_sort := listing_orders; mo_keys := fun g => (map_to_list g).*1; mo_values := fun g => (map_to_list g).*2;
  mo_handlers := fun g => (map_to_list g).*2 |}.
Definition table_cache : CacheFile unit :=
  {| db := {| selected := {[lit "pick" := lit "ss"]}; ip_to_host := ∅; host_to_ip := ∅; smart_stats := ∅;
              smart_policy_priority := ∅; domain_geoip := ∅ |}; store_selected := true |}.
Definition table_manager : loaded (OutboundManager table_outbound * gmap str (Connector (Handler table_outbound))) :=
  manager_new (fun _ => None) (fun _ => Some [{| dob_name := lit "far"; dob_dialer := None |}]) 0 table_orders
    table_outbounds table_groups table_defs [lit "pick"; lit "ss"; lit "exit"; lit "spread"] table_cache.

Lemma outbound_manager_loads_witness : exists m conn, table_manager = Loaded (m, conn) /\
  table_of (fun _ => Some [{| dob_name := lit "far"; dob_dialer := None |}]) table_cache table_outbounds table_groups table_defs
    [lit "pick"; lit "ss"; lit "exit"; lit "spread"] m conn.
Proof.
  destruct (outbound_manager_loads (fun _ => None) (fun _ => Some [{| dob_name := lit "far"; dob_dialer := None |}]) 0
    table_orders table_outbounds table_groups table_defs [lit "pick"; lit "ss"; lit "exit"; lit "spread"] table_cache)
    as [[_ H]|[_ [e E]]].
  - split; [split; intros g; reflexivity|intros g; reflexivity..].
  - split; [apply NoDup_singleton|by vm_compute; set_solver..| |].
    + intros n Hn. apply list_elem_of_singleton in Hn as ->. by vm_compute; set_solver.
    + intros g n Hg. repeat (apply elem_of_cons in Hg as [-> |Hg]); [|..|by apply elem_of_nil in Hg]; cbn.
      * by intros ?%elem_of_nil.
      * done.
  - exact H.
  - exfalso. vm_compute in E. discriminate E.
Defined.

(** The strategy a load-balancing group asks for is not used: a round-robin
    group hashes its destinations. *)
Lemma load_balance_strategy_ignored : exists m conn o pvs, table_manager = Loaded (m, conn) /\
  handlers m !! lit "spread" = Some (HLoadBalance o ConsistentHashing pvs) /\ go_udp o = false.
Proof. vm_compute. by do 4 eexists. Qed.

(** The check for reserved names is made with the list of members: a group
    that only uses providers can be called DIRECT, and replaces the handler
    of that name. *)
Lemma reserved_name_replaced : exists m conn o pvs,
  manager_new (fun _ => None) (fun _ => None) 0 table_orders [{| dob_name := PROXY_DIRECT; dob_dialer := None |}]
    [Relay {| relay_name := PROXY_DIRECT; relay_proxies := None; relay_use_provider := Some [lit "remote"];
              relay_icon := None; relay_url := None |}] table_defs [] table_cache = Loaded (m, conn) /\
  handlers m !! PROXY_DIRECT = Some (HRelay o pvs).
Proof. vm_compute. by do 4 eexists. Qed.
