(* ===== verification/Converters.v ===== *)
(** * Outbounds from the configuration ([proxy/converters], [config/internal/proxy.rs])

    The description of each proxy of the configuration and the options of
    the handler made from it.  A transport is its options; creating the
    handler itself does nothing but store them. *)

From S2P Require Import Prelude Str Net Session DagSort OutboundManager.

(** ** Values of the YAML configuration *)
Inductive YVal : Type :=
| YNull
| YBool (b : bool)
| YUint (z : Z)
| YNegInt (z : Z)
| YFloat (bits : Z)
| YStr (s : str)
| YSeq (l : list YVal)
| YMap (l : list (YVal * YVal)).
Definition as_str (v : YVal) : option str := match v with YStr s => Some s | _ => None end.
Definition as_u64 (v : YVal) : option Z := match v with YUint z => Some z | _ => None end.
Definition as_bool (v : YVal) : option bool := match v with YBool b => Some b | _ => None end.
Definition as_mapping (v : YVal) : option (list (YVal * YVal)) := match v with YMap l => Some l | _ => None end.

(** ** Descriptions of proxies *)
(* @src clash-lib/src/config/internal/proxy.rs ~^pub struct CommonConfigOptions~ CommonConfigOptions *)
Record CommonConfigOptions : Type := { co_name : str; co_server : str; co_port : Z; co_connect_via : option str }.
(* @src clash-lib/src/config/internal/proxy.rs ~^pub struct OutboundShadowsocks~ OutboundShadowsocks *)
Record OutboundShadowsocks : Type := {
  ss_common : CommonConfigOptions; ss_cipher : str; ss_password : str; ss_udp : bool;
  ss_plugin : option str; ss_plugin_opts : option (gmap str YVal) }.
(* @src clash-lib/src/config/internal/proxy.rs ~^pub struct OutboundSocks5~ OutboundSocks5 *)
Record OutboundSocks5 : Type := {
  s5_common : CommonConfigOptions; s5_username : option str; s5_password : option str; s5_tls : bool;
  s5_sni : option str; s5_skip_cert_verify : bool; s5_udp : bool }.
(* @src clash-lib/src/config/internal/proxy.rs ~^pub struct WsOpt~ WsOpt *)
Record WsOpt : Type := {
  ws_path : option str; ws_headers : option (gmap str str); ws_max_early_data : option Z;
  ws_early_data_header_name : option str }.
(* @src clash-lib/src/config/internal/proxy.rs ~^pub struct H2Opt~ H2Opt *)
Record H2Opt : Type := { h2_host : option (list str); h2_path : option str }.
(* @src clash-lib/src/config/internal/proxy.rs ~^pub struct GrpcOpt~ GrpcOpt *)
Record GrpcOpt : Type := { grpc_service_name : option str }.
(* @src clash-lib/src/config/internal/proxy.rs ~^pub struct QuicOpt~ QuicOpt *)
Record QuicOpt : Type := { qo_congestion_controller : option str }.
(* @src clash-lib/src/config/internal/proxy.rs ~^pub struct OutboundTrojan~ OutboundTrojan *)
Record OutboundTrojan : Type := {
  tj_common : CommonConfigOptions; tj_password : str; tj_alpn : option (list str); tj_sni : option str;
  tj_skip_cert_verify : option bool; tj_udp : option bool; tj_network : option str;
  tj_grpc_opts : option GrpcOpt; tj_ws_opts : option WsOpt; tj_quic_opts : option QuicOpt }.
(* @src clash-lib/src/config/internal/proxy.rs ~^pub struct OutboundVmess~ OutboundVmess *)
Record OutboundVmess : Type := {
  vm_common : CommonConfigOptions; vm_uuid : str; vm_alter_id : Z; vm_cipher : option str; vm_udp : option bool;
  vm_tls : option bool; vm_skip_cert_verify : option bool; vm_server_name : option str; vm_network : option str;
  vm_ws_opts : option WsOpt; vm_h2_opts : option H2Opt; vm_grpc_opts : option GrpcOpt }.
(* @src clash-lib/src/config/internal/proxy.rs ~^pub struct OutboundVless~ OutboundVless *)
Record OutboundVless : Type := {
  vl_common : CommonConfigOptions; vl_uuid : str; vl_udp : option bool; vl_tls : option bool;
  vl_skip_cert_verify : option bool; vl_server_name : option str; vl_network : option str;
  vl_ws_opts : option WsOpt; vl_h2_opts : option H2Opt; vl_grpc_opts : option GrpcOpt }.
(* @src clash-lib/src/config/internal/proxy.rs ~^pub struct OutboundWireguard~ OutboundWireguard *)
Record OutboundWireguard : Type := {
  wg_common : CommonConfigOptions; wg_private_key : str; wg_public_key : str; wg_preshared_key : option str;
  wg_mtu : option Z; wg_udp : option bool; wg_ip : str; wg_ipv6 : option str; wg_remote_dns_resolve : option bool;
  wg_dns : option (list str); wg_allowed_ips : option (list str); wg_reserved_bits : option (list Z) }.
(* @src clash-lib/src/config/internal/proxy.rs ~^pub struct OutboundTor~ OutboundTor *)
Record OutboundTor : Type := { tor_name : str }.
(* @src clash-lib/src/config/internal/proxy.rs ~^pub struct OutboundTuic~ OutboundTuic *)
Record OutboundTuic : Type := {
  tu_common : CommonConfigOptions; tu_uuid : Z; tu_password : str; tu_ip : option str;
  tu_heartbeat_interval : option Z; tu_alpn : option (list str); tu_disable_sni : option bool;
  tu_reduce_rtt : option bool; tu_request_timeout : option Z; tu_udp_relay_mode : option str;
  tu_congestion_controller : option str; tu_max_udp_relay_packet_size : option Z; tu_fast_open : option bool;
  tu_skip_cert_verify : option bool; tu_max_open_stream : option Z; tu_sni : option str; tu_gc_interval : option Z;
  tu_gc_lifetime : option Z; tu_send_window : option Z; tu_receive_window : option Z }.

(** Types of crates the descriptions mention, and what the converters call
    of them. *)
Class ConverterLib : Type := {
  SQCongestionControl : Type;
  sq_default_alpn : list str;
  sq_default_initial_mtu : Z;
  sq_default_congestion_control : SQCongestionControl;
  sq_default_zero_rtt : bool;
  sq_default_over_stream : bool;
  sq_default_min_mtu : Z;
  sq_default_keep_alive_interval : Z;
  TotpAlgorithm : Type;
  TOTP : Type;
  secret_to_bytes : str -> option (list Z);
  totp_from_rfc6238 : list Z -> option TOTP;
  totp_new : TotpAlgorithm -> Z -> Z -> Z -> list Z -> option TOTP;
  path_and_query : str -> option str;
  tquic_new : option str -> bool;
}.

Section converters.
Context {CL : ConverterLib} {NL : IpNetLib}.

(* @src clash-lib/src/config/internal/proxy.rs ~^pub struct OutboundShadowQuic~ OutboundShadowQuic *)
Record OutboundShadowQuic : Type := {
  sq_common : CommonConfigOptions; sq_password : str; sq_username : str; sq_server_name : str;
  sq_alpn : option (list str); sq_initial_mtu : option Z; sq_congestion_control : option SQCongestionControl;
  sq_zero_rtt : option bool; sq_over_stream : option bool; sq_min_mtu : option Z; sq_keep_alive_interval : option Z }.
(* @src clash-lib/src/config/internal/proxy.rs ~^pub struct Totp ~ Totp *)
Record Totp : Type := { tp_secret : str; tp_screw : Z; tp_step : Z; tp_digits : Z; tp_algorithm : TotpAlgorithm }.
(* @src clash-lib/src/config/internal/proxy.rs ~^pub enum TotpOption~ TotpOption *)
Inductive TotpOption : Type := OtpAuth (secret : str) | TotpCommon (t : Totp).
(* @src clash-lib/src/config/internal/proxy.rs ~^pub struct OutboundSsh~ OutboundSsh *)
Record OutboundSsh : Type := {
  sh_common : CommonConfigOptions; sh_username : str; sh_password : option str; sh_private_key : option str;
  sh_private_key_passphrase : option str; sh_host_key : option (list str); sh_host_key_algorithms : option (list str);
  sh_totp_opt : option TotpOption }.
(* @src clash-lib/src/config/internal/proxy.rs ~^pub enum Hysteria2Obfs~ Hysteria2Obfs *)
Inductive Hysteria2Obfs : Type := Salamander.
(* @src clash-lib/src/config/internal/proxy.rs ~^pub struct OutboundHysteria2~ OutboundHysteria2 *)
Record OutboundHysteria2 : Type := {
  hy_name : str; hy_server : str; hy_port : Z; hy_ports : option str; hy_password : str;
  hy_obfs : option Hysteria2Obfs; hy_obfs_password : option str; hy_alpn : option (list str); hy_up : option Z;
  hy_down : option Z; hy_sni : option str; hy_skip_cert_verify : bool; hy_ca : option str; hy_ca_str : option str;
  hy_fingerprint : option str; hy_udp_mtu : option Z; hy_disable_mtu_discovery : option bool; hy_cwnd : option Z }.

(* @src clash-lib/src/config/internal/proxy.rs ~^pub enum OutboundProxyProtocol~ OutboundProxyProtocol *)
Inductive OutboundProxyProtocol : Type :=
| PDirect (name : str)
| PReject (name : str)
| PSs (o : OutboundShadowsocks)
| PSocks5 (o : OutboundSocks5)
| PTrojan (o : OutboundTrojan)
| PVmess (o : OutboundVmess)
| PVless (o : OutboundVless)
| PWireguard (o : OutboundWireguard)
| PTor (o : OutboundTor)
| PTuic (o : OutboundTuic)
| PHysteria2 (o : OutboundHysteria2)
| PSsh (o : OutboundSsh)
| PShadowQuic (o : OutboundShadowQuic).

(* @src clash-lib/src/config/internal/proxy.rs ~^    fn name\(&self\) -> &str~ OutboundProxyProtocol::name *)
Definition protocol_name (p : OutboundProxyProtocol) : str :=
  match p with
  | PDirect name | PReject name => name
  | PSs o => co_name (ss_common o)
  | PSocks5 o => co_name (s5_common o)
  | PTrojan o => co_name (tj_common o)
  | PVmess o => co_name (vm_common o)
  | PVless o => co_name (vl_common o)
  | PWireguard o => co_name (wg_common o)
  | PTor o => tor_name o
  | PTuic o => co_name (tu_common o)
  | PHysteria2 o => hy_name o
  | PSsh o => co_name (sh_common o)
  | PShadowQuic o => co_name (sq_common o)
  end.
(** ** Transports *)
(* @src clash-lib/src/proxy/transport/ws/mod.rs ~^pub struct Client~ ws::Client *)
Record WsClient : Type := {
  wc_server : str; wc_port : Z; wc_path : str; wc_headers : gmap str str; wc_max_early_data : Z;
  wc_early_data_header_name : str }.
(* @src clash-lib/src/proxy/transport/h2.rs ~^pub struct Client~ h2::Client *)
Record H2Client : Type := { hc_hosts : list str; hc_headers : gmap str str; hc_path : str }.
(* @src clash-lib/src/proxy/transport/grpc.rs ~^pub struct Client~ grpc::Client *)
Record GrpcClient : Type := { gc_host : str; gc_path : str }.
(* @src clash-lib/src/proxy/transport/tls.rs ~^pub struct Client~ tls::Client *)
Record TlsClient : Type := {
  tc_skip_cert_verify : bool; tc_sni : str; tc_alpn : option (list str); tc_expected_alpn : option str }.
Inductive Transport : Type := TrWs (c : WsClient) | TrH2 (c : H2Client) | TrGrpc (c : GrpcClient).

(** [as usize] of an [i32]: a negative number is taken modulo 2^64. *)
(* @src clash-lib/src/proxy/converters/utils.rs ~^impl TryFrom<\(&WsOpt~ WsClient::try_from *)
Definition ws_client (x : WsOpt) (common : CommonConfigOptions) : WsClient :=
  {| wc_server := co_server common; wc_port := co_port common; wc_path := default [] (ws_path x);
     wc_headers := default ∅ (ws_headers x); wc_max_early_data := wrap 64 (default 0 (ws_max_early_data x));
     wc_early_data_header_name := default [] (ws_early_data_header_name x) |}.
(* @src clash-lib/src/proxy/converters/utils.rs ~^impl TryFrom<\(Option<String>, &GrpcOpt~ GrpcClient::try_from *)
Definition grpc_client (sni : option str) (x : GrpcOpt) (common : CommonConfigOptions) : res GrpcClient :=
  path ← ok_or (path_and_query (default [] (grpc_service_name x))) "invalid uri";
  Ok {| gc_host := default (co_server common) sni; gc_path := path |}.
(* @src clash-lib/src/proxy/converters/utils.rs ~^impl TryFrom<\(&H2Opt~ H2Client::try_from *)
Definition h2_client (x : H2Opt) (common : CommonConfigOptions) : res H2Client :=
  path ← ok_or (path_and_query (default [] (h2_path x))) "invalid uri";
  Ok {| hc_hosts := default [co_server common] (h2_host x); hc_headers := ∅; hc_path := path |}.
(** [.expect(..)] *)
Definition expect {A} (r : res A) : res A := match r with Ok a => Ok a | _ => Panic end.

(** ** SOCKS5 *)
(* @src clash-lib/src/proxy/socks/outbound/mod.rs ~^pub struct HandlerOptions~ socks::HandlerOptions *)
Record SocksOptions : Type := {
  so_name : str; so_connector : option str; so_server : str; so_port : Z; so_user : option str;
  so_password : option str; so_udp : bool; so_tls_client : option TlsClient }.
(* @src clash-lib/src/proxy/converters/socks5.rs ~^impl TryFrom<&OutboundSocks5>~ socks::Handler::try_from *)
Definition socks5_try_from (s : OutboundSocks5) : res SocksOptions :=
  let tls_client := if s5_tls s then
      Some {| tc_skip_cert_verify := s5_skip_cert_verify s; tc_sni := default (co_server (s5_common s)) (s5_sni s);
              tc_alpn := None; tc_expected_alpn := None |}
    else None in
  Ok {| so_name := co_name (s5_common s); so_connector := co_connect_via (s5_common s);
        so_server := co_server (s5_common s); so_port := co_port (s5_common s); so_user := s5_username s;
        so_password := s5_password s; so_udp := s5_udp s; so_tls_client := tls_client |}.

(** ** Trojan *)
(* @src clash-lib/src/proxy/trojan/quic.rs ~^pub struct QuicClient~ QuicClient *)
Record QuicClient : Type := {
  qc_server : str; qc_port : Z; qc_sni : str; qc_alpn : list (list Z); qc_skip_cert_verify : bool }.
(* @src clash-lib/src/proxy/trojan/mod.rs ~^pub struct HandlerOptions~ trojan::HandlerOptions *)
Record TrojanOptions : Type := {
  to_name : str; to_connector : option str; to_server : str; to_port : Z; to_password : str; to_udp : bool;
  to_tls : option TlsClient; to_transport : option Transport; to_quic_client : option QuicClient;
  to_tquic_client : option (option str) }.
(* @src clash-lib/src/proxy/converters/trojan.rs 4 4 DEFAULT_ALPN *)
Definition DEFAULT_ALPN : list str := [lit "h2"; lit "http/1.1"].
(* @src clash-lib/src/proxy/converters/trojan.rs 5 5 DEFAULT_WS_ALPN *)
Definition DEFAULT_WS_ALPN : list str := [lit "http/1.1"].
(* @src clash-lib/src/proxy/converters/trojan.rs 6 6 DEFAULT_QUIC_ALPN *)
Definition DEFAULT_QUIC_ALPN : list str := [lit "h3"].

(** The argument of [Option::or] is evaluated before the call: the [?] in it
    leaves the function whether or not the options are there. *)
Definition option_or_err {A B} (o : res (option A)) (e : string) : res B := _ ← o; Err e.

(* @src clash-lib/src/proxy/converters/trojan.rs ~        let tls = if is_quic~ trojan::Handler::try_from (tls) *)
Definition trojan_tls (s : OutboundTrojan) : option TlsClient :=
  let network := tj_network s in
  if bool_decide (network = Some (lit "quic") \/ network = Some (lit "tquic")) then None
  else Some {| tc_skip_cert_verify := default false (tj_skip_cert_verify s);
               tc_sni := default (co_server (tj_common s)) (tj_sni s);
               tc_alpn := match tj_alpn s with
                          | Some alpn => Some alpn
                          | None => Some (if bool_decide (network = Some (lit "ws")) then DEFAULT_WS_ALPN else DEFAULT_ALPN)
                          end;
               tc_expected_alpn := None |}.

(* @src clash-lib/src/proxy/converters/trojan.rs ~^impl TryFrom<&OutboundTrojan>~ trojan::Handler::try_from *)
Definition trojan_try_from (s : OutboundTrojan) : res TrojanOptions :=
  let common := tj_common s in
  '(transport, quic_client, tquic_client) ←
    match tj_network s with
    | None => Ok (None, None, None)
    | Some n =>
      if bool_decide (n = lit "ws") then
        option_or_err (Ok ((fun x => TrWs (ws_client x common)) <$> tj_ws_opts s)) "ws_opts is required for ws"
      else if bool_decide (n = lit "grpc") then
        option_or_err (match tj_grpc_opts s with
                       | Some x => c ← expect (grpc_client (tj_sni s) x common); Ok (Some (TrGrpc c))
                       | None => Ok None
                       end) "grpc_opts is required for grpc"
      else if bool_decide (n = lit "quic") then
        Ok (None, Some {| qc_server := co_server common; qc_port := co_port common;
                          qc_sni := default (co_server common) (tj_sni s);
                          qc_alpn := utf8 <$> default DEFAULT_QUIC_ALPN (tj_alpn s);
                          qc_skip_cert_verify := default false (tj_skip_cert_verify s) |}, None)
      else if bool_decide (n = lit "tquic") then
        let congestion_controller := tj_quic_opts s ≫= qo_congestion_controller in
        if tquic_new congestion_controller then Ok (None, None, Some congestion_controller)
        else Err "failed to create tquic client"
      else Err "unsupported trojan network"
    end;
  Ok {| to_name := co_name common; to_connector := co_connect_via common; to_server := co_server common;
        to_port := co_port common; to_password := tj_password s; to_udp := default false (tj_udp s);
        to_tls := trojan_tls s; to_transport := transport; to_quic_client := quic_client; to_tquic_client := tquic_client |}.

(** ** VMess and VLESS *)

(** The transport both converters choose by the network. *)
(* @src clash-lib/src/proxy/converters/vmess.rs 45 90 vmess::Handler::try_from (transport) *)
Definition v_transport (network : option str) (ws : option WsOpt) (h2 : option H2Opt) (grpc : option GrpcOpt)
    (server_name : option str) (common : CommonConfigOptions) : res (option Transport) :=
  match network with
  | None => Ok None
  | Some x =>
    if bool_decide (x = lit "ws") then
      o ← ok_or ws "ws_opts is required for ws"; Ok (Some (TrWs (ws_client o common)))
    else if bool_decide (x = lit "h2") then
      o ← ok_or h2 "h2_opts is required for h2"; c ← expect (h2_client o common); Ok (Some (TrH2 c))
    else if bool_decide (x = lit "grpc") then
      o ← ok_or grpc "grpc_opts is required for grpc"; c ← expect (grpc_client server_name o common); Ok (Some (TrGrpc c))
    else Err "unsupported network"
  end.

(* @src clash-lib/src/proxy/converters/vmess.rs 91 121 vmess::Handler::try_from (tls) *)
Definition v_tls (tls skip_cert_verify : option bool) (server_name : option str) (ws : option WsOpt)
    (network : option str) (common : CommonConfigOptions) : res (option TlsClient) :=
  if default false tls then
    let sni := match server_name with
               | Some n => n
               | None => default (co_server common) ((ws ≫= ws_headers) ≫= fun h : gmap str str => h !! lit "Host")
               end in
    alpn ← match network with
           | None => Ok None
           | Some x =>
             if bool_decide (x = lit "ws") then Ok (Some [lit "http/1.1"])
             else if bool_decide (x = lit "http") then Ok (Some [])
             else if bool_decide (x = lit "h2" \/ x = lit "grpc") then Ok (Some [lit "h2"])
             else Err "unsupported network"
           end;
    Ok (Some {| tc_skip_cert_verify := default false skip_cert_verify; tc_sni := sni; tc_alpn := alpn; tc_expected_alpn := None |})
  else Ok None.

(* @src clash-lib/src/proxy/vmess/mod.rs ~^pub struct HandlerOptions~ vmess::HandlerOptions *)
Record VmessOptions : Type := {
  vmo_name : str; vmo_connector : option str; vmo_server : str; vmo_port : Z; vmo_uuid : str; vmo_alter_id : Z;
  vmo_security : str; vmo_udp : bool; vmo_transport : option Transport; vmo_tls : option TlsClient }.
(* @src clash-lib/src/proxy/converters/vmess.rs ~^impl TryFrom<&OutboundVmess>~ vmess::Handler::try_from *)
Definition vmess_try_from (s : OutboundVmess) : res VmessOptions :=
  let common := vm_common s in
  transport ← v_transport (vm_network s) (vm_ws_opts s) (vm_h2_opts s) (vm_grpc_opts s) (vm_server_name s) common;
  tls ← v_tls (vm_tls s) (vm_skip_cert_verify s) (vm_server_name s) (vm_ws_opts s) (vm_network s) common;
  Ok {| vmo_name := co_name common; vmo_connector := co_connect_via common; vmo_server := co_server common;
        vmo_port := co_port common; vmo_uuid := vm_uuid s; vmo_alter_id := vm_alter_id s;
        vmo_security := default [] (vm_cipher s); vmo_udp := default true (vm_udp s);
        vmo_transport := transport; vmo_tls := tls |}.

(* @src clash-lib/src/proxy/vless/mod.rs ~^pub struct HandlerOptions~ vless::HandlerOptions *)
Record VlessOptions : Type := {
  vlo_name : str; vlo_connector : option str; vlo_server : str; vlo_port : Z; vlo_uuid : str;
  vlo_udp : bool; vlo_transport : option Transport; vlo_tls : option TlsClient }.
(* @src clash-lib/src/proxy/converters/vless.rs ~^impl TryFrom<&OutboundVless>~ vless::Handler::try_from *)
Definition vless_try_from (s : OutboundVless) : res VlessOptions :=
  let common := vl_common s in
  transport ← v_transport (vl_network s) (vl_ws_opts s) (vl_h2_opts s) (vl_grpc_opts s) (vl_server_name s) common;
  tls ← v_tls (vl_tls s) (vl_skip_cert_verify s) (vl_server_name s) (vl_ws_opts s) (vl_network s) common;
  Ok {| vlo_name := co_name common; vlo_connector := co_connect_via common; vlo_server := co_server common;
        vlo_port := co_port common; vlo_uuid := vl_uuid s; vlo_udp := default true (vl_udp s);
        vlo_transport := transport; vlo_tls := tls |}.

(** ** Shadowsocks *)
(* @src clash-lib/src/proxy/transport/simple_obfs/mod.rs ~^pub enum SimpleOBFSMode~ SimpleOBFSMode *)
Inductive SimpleOBFSMode : Type := ObfsHttp | ObfsTls.
(* @src clash-lib/src/proxy/transport/simple_obfs/mod.rs ~^pub struct SimpleOBFSOption~ SimpleOBFSOption *)
Record SimpleOBFSOption : Type := { obfs_mode : SimpleOBFSMode; obfs_host : str }.
(* @src clash-lib/src/proxy/transport/v2ray/mod.rs ~^pub struct V2RayOBFSOption~ V2RayOBFSOption *)
Record V2RayOBFSOption : Type := {
  vo_mode : str; vo_host : str; vo_port : Z; vo_path : str; vo_headers : gmap str str; vo_tls : bool;
  vo_skip_cert_verify : bool; vo_mux : bool }.
(* @src clash-lib/src/proxy/transport/v2ray/websocket.rs ~^pub struct V2rayWsClient~ V2rayWsClient *)
Record V2rayWsClient : Type := { vw_tls_client : option TlsClient; vw_ws_client : WsClient }.
Inductive SsPlugin : Type :=
| PlObfsHttp (host : str) (port : Z)
| PlObfsTls (host : str)
| PlV2ray (c : V2rayWsClient)
| PlShadowtls (host password : str) (strict : bool).
(* @src clash-lib/src/proxy/shadowsocks/outbound/mod.rs ~^pub struct HandlerOptions~ shadowsocks::HandlerOptions *)
Record SsOptions : Type := {
  sso_name : str; sso_connector : option str; sso_server : str; sso_port : Z; sso_password : str;
  sso_cipher : str; sso_plugin : option SsPlugin; sso_udp : bool }.

Definition opt_str (m : gmap str YVal) (k : string) : option str := m !! lit k ≫= as_str.
Definition opt_bool (m : gmap str YVal) (k : string) : option bool := m !! lit k ≫= as_bool.

(* @src clash-lib/src/proxy/converters/shadowsocks.rs ~for SimpleOBFSOption~ SimpleOBFSOption::try_from *)
Definition simple_obfs_try_from (value : gmap str YVal) : res SimpleOBFSOption :=
  let host := default (lit "bing.com") (opt_str value "host") in
  mode ← ok_or (opt_str value "mode") "obfs mode is required";
  if bool_decide (mode = lit "http") then Ok {| obfs_mode := ObfsHttp; obfs_host := host |}
  else if bool_decide (mode = lit "tls") then Ok {| obfs_mode := ObfsTls; obfs_host := host |}
  else Err "invalid obfs mode".

Definition str_entries (l : list (YVal * YVal)) : gmap str str :=
  foldl (fun h '(k, v) => match as_str k, as_str v with Some k, Some v => <[k := v]> h | _, _ => h end) ∅ l.

(* @src clash-lib/src/proxy/converters/shadowsocks.rs ~for V2RayOBFSOption~ V2RayOBFSOption::try_from *)
Definition v2ray_try_from (value : gmap str YVal) : res V2RayOBFSOption :=
  let host := default (lit "bing.com") (opt_str value "host") in
  mode ← ok_or (opt_str value "mode") "obfs mode is required";
  port ← ok_or (value !! lit "port" ≫= as_u64) "obfs port is required";
  let port := wrap 16 port in
  if negb (bool_decide (mode = lit "websocket")) then Err "invalid obfs mode"
  else
    Ok {| vo_mode := mode; vo_host := host; vo_port := port; vo_path := default [] (opt_str value "path");
          vo_headers := match value !! lit "headers" ≫= as_mapping with Some h => str_entries h | None => ∅ end;
          vo_tls := default false (opt_bool value "tls");
          vo_skip_cert_verify := default false (opt_bool value "skip-cert-verify");
          vo_mux := default false (opt_bool value "mux") |}.

(* @src clash-lib/src/proxy/transport/v2ray/websocket.rs ~    pub fn try_new~ V2rayWsClient::try_new *)
Definition v2ray_ws_try_new (host : str) (port : Z) (path : str) (headers : gmap str str) (tls skip_cert_verify mux : bool) :
    res V2rayWsClient :=
  if mux then Err "v2ray plugin does not support mux"
  else
    let tls_client := if tls then
        Some {| tc_skip_cert_verify := skip_cert_verify; tc_sni := host; tc_alpn := Some [lit "http/1.1"]; tc_expected_alpn := None |}
      else None in
    let headers := if bool_decide (is_Some (headers !! lit "Host")) then headers else <[lit "Host" := host]> headers in
    Ok {| vw_tls_client := tls_client;
          vw_ws_client := {| wc_server := host; wc_port := port;
                             wc_path := if bool_decide (path = []) then lit "/" else path;
                             wc_headers := headers; wc_max_early_data := 0; wc_early_data_header_name := [] |} |}.
(* @src clash-lib/src/proxy/transport/v2ray/websocket.rs ~^impl TryFrom<V2RayOBFSOption>~ V2rayWsClient::try_from *)
Definition v2ray_ws_try_from (opt : V2RayOBFSOption) : res V2rayWsClient :=
  if negb (bool_decide (vo_mode opt = lit "websocket")) then Err "v2ray plugin does not support this mode"
  else v2ray_ws_try_new (vo_host opt) (vo_port opt) (vo_path opt) (vo_headers opt) (vo_tls opt) (vo_skip_cert_verify opt) (vo_mux opt).

(* @src clash-lib/src/proxy/converters/shadowsocks.rs ~for Shadowtls~ Shadowtls::try_from *)
Definition shadowtls_try_from (value : gmap str YVal) : res SsPlugin :=
  let host := default (lit "bing.com") (opt_str value "host") in
  password ← ok_or (opt_str value "password") "obfs mode is required";
  Ok (PlShadowtls host password (default true (opt_bool value "strict"))).

(* @src clash-lib/src/proxy/converters/shadowsocks.rs 38 94 shadowsocks::Handler::try_from (plugin) *)
Definition ss_plugin_try_from (s : OutboundShadowsocks) : res (option SsPlugin) :=
  let plugin_opts := ok_or (ss_plugin_opts s) "plugin_opts is required for plugin obfs" in
  match ss_plugin s with
  | None => Ok None
  | Some plugin =>
    if bool_decide (plugin = lit "obfs") then
      o ← plugin_opts; opt ← simple_obfs_try_from o;
      Ok (Some (match obfs_mode opt with
                | ObfsHttp => PlObfsHttp (obfs_host opt) (co_port (ss_common s))
                | ObfsTls => PlObfsTls (obfs_host opt)
                end))
    else if bool_decide (plugin = lit "v2ray-plugin") then
      o ← plugin_opts; opt ← v2ray_try_from o; c ← v2ray_ws_try_from opt; Ok (Some (PlV2ray c))
    else if bool_decide (plugin = lit "shadow-tls") then
      o ← plugin_opts; p ← shadowtls_try_from o; Ok (Some p)
    else Err "unsupported plugin"
  end.

(* @src clash-lib/src/proxy/converters/shadowsocks.rs ~^impl TryFrom<&OutboundShadowsocks>~ shadowsocks::Handler::try_from *)
Definition ss_try_from (s : OutboundShadowsocks) : res SsOptions :=
  plugin ← ss_plugin_try_from s;
  Ok {| sso_name := co_name (ss_common s); sso_connector := co_connect_via (ss_common s);
        sso_server := co_server (ss_common s); sso_port := co_port (ss_common s); sso_password := ss_password s;
        sso_cipher := ss_cipher s; sso_plugin := plugin; sso_udp := ss_udp s |}.

(** ** Hysteria2 *)
(* @src clash-lib/src/proxy/converters/hysteria2.rs ~^pub struct PortGenerator~ PortGenerator *)
Record PortGenerator : Type := { pg_default : Z; pg_ports : list Z; pg_range : list (Z * Z) }.
(* @src clash-lib/src/proxy/converters/hysteria2.rs ~    pub fn new\(port: u16\)~ PortGenerator::new *)
Definition port_generator_new (port : Z) : PortGenerator := {| pg_default := port; pg_ports := []; pg_range := [] |}.
(* @src clash-lib/src/proxy/converters/hysteria2.rs ~    pub fn add_single~ PortGenerator::add_single *)
Definition add_single (port : Z) (g : PortGenerator) : PortGenerator :=
  {| pg_default := pg_default g; pg_ports := pg_ports g ++ [port]; pg_range := pg_range g |}.
(* @src clash-lib/src/proxy/converters/hysteria2.rs ~    fn add_range~ PortGenerator::add_range *)
Definition add_range (start stop : Z) (g : PortGenerator) : PortGenerator :=
  {| pg_default := pg_default g; pg_ports := pg_ports g; pg_range := pg_range g ++ [(start, stop)] |}.

(** The ports of a [RangeInclusive], none when it is reversed. *)
Definition range_ports (r : Z * Z) : list Z := seqZ r.1 (r.2 + 1 - r.1).
(** [1 + self.ports.len() + ...] *)
Definition pg_len (g : PortGenerator) : Z := 1 + zlen (pg_ports g) + Z.of_nat (sum_list_with (fun r => length (range_ports r)) (pg_range g)).

(** [idx] is drawn from [0..len]. *)
(* @src clash-lib/src/proxy/converters/hysteria2.rs ~    pub fn get\(&self\)~ PortGenerator::get *)
Definition pg_get (idx : Z) (g : PortGenerator) : res Z :=
  if idx =? 0 then Ok (pg_default g)
  else if idx <=? zlen (pg_ports g) then zidx (pg_ports g) (idx - 1)
  else or_panic (zget (pg_range g ≫= range_ports) (idx - 1 - zlen (pg_ports g))).

(** [parse::<NonZeroU16>] *)
Definition parse_nonzero (s : str) : option Z :=
  z ← parse_uint 16 s; if z =? 0 then None else Some z.

(* @src clash-lib/src/proxy/converters/hysteria2.rs 59 75 PortGenerator::parse_ports_str (one part) *)
Definition add_ports (acc : PortGenerator) (ports : str) : res PortGenerator :=
  match parse_uint 16 ports with
  | Some p => Ok (add_single p acc)
  | None =>
    match split_on 45 ports with
    | start :: stop :: _ =>
      start ← ok_or (parse_nonzero start) "invalid port";
      stop ← ok_or (parse_nonzero stop) "invalid port";
      Ok (add_range start stop acc)
    | _ => Err "invalid port"
    end
  end.

(* @src clash-lib/src/proxy/converters/hysteria2.rs ~    pub fn parse_ports_str~ PortGenerator::parse_ports_str *)
Definition parse_ports_str (ports : str) (g : PortGenerator) : res PortGenerator :=
  if bool_decide (ports = []) then Ok g
  else res_fold add_ports g (trim <$> split_on 44 ports).

(* @src clash-lib/src/proxy/hysteria2/mod.rs ~^pub struct HystOption~ HystOption *)
Record HystOption : Type := {
  ho_name : str; ho_addr : SocksAddr; ho_ports : option PortGenerator; ho_sni : option str; ho_passwd : str;
  ho_obfs : option (list Z); ho_skip_cert_verify : bool; ho_alpn : list str; ho_up_down : option (Z * Z);
  ho_fingerprint : option str; ho_ca : option str; ho_udp_mtu : option Z; ho_disable_mtu_discovery : bool;
  ho_ca_str : option str; ho_cwnd : option Z }.

(* @src clash-lib/src/proxy/converters/hysteria2.rs ~^impl TryFrom<OutboundHysteria2>~ hysteria2::Handler::try_from *)
Definition hysteria2_try_from (value : OutboundHysteria2) : res HystOption :=
  addr ← try_from_host_port (hy_server value) (hy_port value);
  obfs ← match hy_obfs value, hy_obfs_password value with
         | Some Salamander, Some passwd => Ok (Some (utf8 passwd))
         | Some _, None => Err "hysteria2 found obfs enable, but obfs password is none"
         | _, _ => Ok None
         end;
  ports_gen ← match hy_ports value with
              | Some ports =>
                match parse_ports_str ports (port_generator_new (hy_port value)) with
                | Ok g => Ok (Some g)
                | Err _ => Err "hysteria2 parse ports error"
                | Panic => Panic
                end
              | None => Ok None
              end;
  Ok {| ho_name := hy_name value; ho_addr := addr; ho_ports := ports_gen;
        ho_sni := match hy_sni value with
                  | Some s => Some s
                  | None => match addr with Domain d _ => Some d | Ip _ => None end
                  end;
        ho_passwd := hy_password value; ho_obfs := obfs; ho_skip_cert_verify := hy_skip_cert_verify value;
        ho_alpn := default [] (hy_alpn value);
        ho_up_down := match hy_up value, hy_down value with Some u, Some d => Some (u, d) | _, _ => None end;
        ho_fingerprint := hy_fingerprint value; ho_ca := hy_ca value; ho_udp_mtu := hy_udp_mtu value;
        ho_disable_mtu_discovery := default false (hy_disable_mtu_discovery value); ho_ca_str := hy_ca_str value;
        ho_cwnd := hy_cwnd value |}.

(** ** ShadowQUIC, TUIC, Tor *)
Record ShadowQuicOptions : Type := {
  sqo_name : str; sqo_addr : str; sqo_password : str; sqo_username : str; sqo_server_name : str; sqo_alpn : list str;
  sqo_initial_mtu : Z; sqo_congestion_control : SQCongestionControl; sqo_zero_rtt : bool; sqo_over_stream : bool;
  sqo_min_mtu : Z; sqo_keep_alive_interval : Z }.
(* @src clash-lib/src/proxy/converters/shadowquic.rs ~^impl TryFrom<&OutboundShadowQuic>~ shadowquic::Handler::try_from *)
Definition shadowquic_try_from (s : OutboundShadowQuic) : res ShadowQuicOptions :=
  addr ← try_from_host_port (co_server (sq_common s)) (co_port (sq_common s));
  Ok {| sqo_name := co_name (sq_common s); sqo_addr := socks_to_string addr; sqo_password := sq_password s;
        sqo_username := sq_username s; sqo_server_name := sq_server_name s; sqo_alpn := default sq_default_alpn (sq_alpn s);
        sqo_initial_mtu := default sq_default_initial_mtu (sq_initial_mtu s);
        sqo_congestion_control := default sq_default_congestion_control (sq_congestion_control s);
        sqo_zero_rtt := default sq_default_zero_rtt (sq_zero_rtt s);
        sqo_over_stream := default sq_default_over_stream (sq_over_stream s);
        sqo_min_mtu := default sq_default_min_mtu (sq_min_mtu s);
        sqo_keep_alive_interval := default sq_default_keep_alive_interval (sq_keep_alive_interval s) |}.

(* @src clash-lib/src/proxy/tuic/types.rs ~^pub enum UdpRelayMode~ UdpRelayMode *)
Inductive UdpRelayMode : Type := UrmNative | UrmQuic.
(* @src clash-lib/src/proxy/tuic/types.rs ~^impl From<&str> for UdpRelayMode~ UdpRelayMode::from *)
Definition udp_relay_mode_from (s : str) : UdpRelayMode :=
  if eq_ignore_ascii_case s (lit "native") then UrmNative
  else if eq_ignore_ascii_case s (lit "quic") then UrmQuic else UrmQuic.
(* @src clash-lib/src/proxy/tuic/types.rs ~^pub enum CongestionControl~ CongestionControl *)
Inductive CongestionControl : Type := CcCubic | CcNewReno | CcBbr.
(* @src clash-lib/src/proxy/tuic/types.rs ~^impl From<&str> for CongestionControl~ CongestionControl::from *)
Definition congestion_control_from (s : str) : CongestionControl :=
  if eq_ignore_ascii_case s (lit "cubic") then CcCubic
  else if eq_ignore_ascii_case s (lit "new_reno") || eq_ignore_ascii_case s (lit "newreno") then CcNewReno
  else if eq_ignore_ascii_case s (lit "bbr") then CcBbr else CcBbr.
(** [VarInt::from_u64(v).unwrap_or(VarInt::MAX)]: a [VarInt] is below 2^62. *)
Definition var_int (v : Z) : Z := if v <? 2 ^ 62 then v else 2 ^ 62 - 1.
(** [Duration::from_millis] *)
Definition from_millis (v : Z) : Z := v * 10 ^ 6.

(* @src clash-lib/src/proxy/tuic/mod.rs ~^pub struct HandlerOptions~ tuic::HandlerOptions *)
Record TuicOptions : Type := {
  tuo_name : str; tuo_server : str; tuo_port : Z; tuo_uuid : Z; tuo_password : str; tuo_udp_relay_mode : UdpRelayMode;
  tuo_disable_sni : bool; tuo_alpn : list (list Z); tuo_heartbeat_interval : Z; tuo_reduce_rtt : bool;
  tuo_request_timeout : Z; tuo_idle_timeout : Z; tuo_congestion_controller : CongestionControl;
  tuo_max_open_stream : Z; tuo_gc_interval : Z; tuo_gc_lifetime : Z; tuo_send_window : Z; tuo_receive_window : Z;
  tuo_skip_cert_verify : bool; tuo_connector : option str; tuo_max_udp_relay_packet_size : Z; tuo_ip : option str;
  tuo_sni : option str }.
(* @src clash-lib/src/proxy/converters/tuic.rs ~^impl TryFrom<&OutboundTuic>~ tuic::Handler::try_from *)
Definition tuic_try_from (s : OutboundTuic) : res TuicOptions :=
  let common := tu_common s in
  Ok {| tuo_name := co_name common; tuo_server := co_server common; tuo_port := co_port common; tuo_uuid := tu_uuid s;
        tuo_password := tu_password s;
        tuo_udp_relay_mode := udp_relay_mode_from (default (lit "native") (tu_udp_relay_mode s));
        tuo_disable_sni := default false (tu_disable_sni s); tuo_alpn := default [] ((map utf8) <$> tu_alpn s);
        tuo_heartbeat_interval := from_millis (default 3000 (tu_heartbeat_interval s));
        tuo_reduce_rtt := default false (tu_reduce_rtt s) || default false (tu_fast_open s);
        tuo_request_timeout := from_millis (default 4000 (tu_request_timeout s));
        tuo_idle_timeout := from_millis (default 4000 (tu_request_timeout s));
        tuo_congestion_controller := default CcBbr (congestion_control_from <$> tu_congestion_controller s);
        tuo_max_open_stream := var_int (default 32 (tu_max_open_stream s));
        tuo_gc_interval := from_millis (default 3000 (tu_gc_interval s));
        tuo_gc_lifetime := from_millis (default 15000 (tu_gc_lifetime s));
        tuo_send_window := default (8 * 1024 * 1024 * 2) (tu_send_window s);
        tuo_receive_window := var_int (default (8 * 1024 * 1024) (tu_receive_window s));
        tuo_skip_cert_verify := default false (tu_skip_cert_verify s); tuo_connector := co_connect_via common;
        tuo_max_udp_relay_packet_size := default 1500 (tu_max_udp_relay_packet_size s); tuo_ip := tu_ip s;
        tuo_sni := tu_sni s |}.

(* @src clash-lib/src/proxy/tor/mod.rs ~^pub struct HandlerOptions~ tor::HandlerOptions *)
Record TorOptions : Type := { toro_name : str }.
(* @src clash-lib/src/proxy/converters/tor.rs ~^impl TryFrom<&OutboundTor>~ tor::Handler::try_from *)
Definition tor_try_from (s : OutboundTor) : res TorOptions := Ok {| toro_name := tor_name s |}.

(** ** SSH and WireGuard *)
Inductive SshHashAlg : Type := Sha256 | Sha512.
Inductive SshCurve : Type := NistP256 | NistP384 | NistP521.
Inductive SshAlgorithm : Type := Ed25519 | Rsa (hash : option SshHashAlg) | Ecdsa (curve : SshCurve).
(* @src clash-lib/src/proxy/converters/ssh.rs ~^fn str_to_algo~ str_to_algo *)
Definition str_to_algo (value : str) : option SshAlgorithm :=
  let is_ s := bool_decide (value = lit s) in
  if is_ "ssh-ed25519" || is_ "ed25519" then Some Ed25519
  else if is_ "rsa-sha2-256" then Some (Rsa (Some Sha256))
  else if is_ "rsa-sha2-512" then Some (Rsa (Some Sha512))
  else if is_ "ssh-rsa" || is_ "rsa" then Some (Rsa None)
  else if is_ "ecdsa-sha2-nistp256" then Some (Ecdsa NistP256)
  else if is_ "ecdsa-sha2-nistp384" then Some (Ecdsa NistP384)
  else if is_ "ecdsa-sha2-nistp521" then Some (Ecdsa NistP521)
  else None.

(* @src clash-lib/src/proxy/ssh/mod.rs ~^pub struct HandlerOptions~ ssh::HandlerOptions *)
Record SshOptions : Type := {
  sho_name : str; sho_connector : option str; sho_server : str; sho_port : Z; sho_username : str;
  sho_password : option str; sho_totp : option TOTP; sho_private_key : option str;
  sho_private_key_passphrase : option str; sho_host_key : option (list str);
  sho_host_key_algorithms : option (list SshAlgorithm) }.

(* @src clash-lib/src/proxy/converters/ssh.rs 61 107 ssh::Handler::try_from (totp) *)
Definition ssh_totp (t : TotpOption) : res TOTP :=
  match t with
  | OtpAuth secret =>
    bytes ← ok_or (secret_to_bytes secret) "ssh totp, invalid secret";
    ok_or (totp_from_rfc6238 bytes) "ssh totp, invalid totp"
  | TotpCommon c =>
    bytes ← ok_or (secret_to_bytes (tp_secret c)) "ssh totp, invalid secret";
    ok_or (totp_new (tp_algorithm c) (tp_digits c) (tp_screw c) (tp_step c) bytes) "ssh totp, invalid totp"
  end.

(* @src clash-lib/src/proxy/converters/ssh.rs ~^impl TryFrom<&OutboundSsh>~ ssh::Handler::try_from *)
Definition ssh_try_from (s : OutboundSsh) : res SshOptions :=
  let common := sh_common s in
  let host_key_algorithms := (fun algos : list str => omap str_to_algo algos) <$> sh_host_key_algorithms s in
  totp ← match sh_totp_opt s with Some t => Some <$> ssh_totp t | None => Ok None end;
  Ok {| sho_name := co_name common; sho_connector := co_connect_via common; sho_server := co_server common;
        sho_port := co_port common; sho_username := sh_username s; sho_password := sh_password s; sho_totp := totp;
        sho_private_key := sh_private_key s; sho_private_key_passphrase := sh_private_key_passphrase s;
        sho_host_key := sh_host_key s; sho_host_key_algorithms := host_key_algorithms |}.

(* @src clash-lib/src/proxy/wg/mod.rs ~^pub struct HandlerOptions~ wg::HandlerOptions *)
Record WgOptions : Type := {
  wgo_name : str; wgo_connector : option str; wgo_server : str; wgo_port : Z; wgo_ip : Z; wgo_ipv6 : option Z;
  wgo_private_key : str; wgo_public_key : str; wgo_preshared_key : option str; wgo_remote_dns_resolve : bool;
  wgo_dns : option (list str); wgo_mtu : option Z; wgo_udp : bool; wgo_allowed_ips : option (list str);
  wgo_reserved_bits : option (list Z) }.

(** An IPv6 address that does not parse is dropped, not refused. *)
(* @src clash-lib/src/proxy/converters/wireguard.rs ~^impl TryFrom<&OutboundWireguard>~ wg::Handler::try_from *)
Definition wireguard_try_from (s : OutboundWireguard) : res WgOptions :=
  let common := wg_common s in
  net ← ok_or (ipnet_parse (wg_ip s)) "invalid ip address";
  ip ← match ipnet_addr net with
       | V4 v4 => Ok v4
       | V6 _ => Err "invalid ip address: put an v4 address here"
       end;
  ipv6 ← match wg_ipv6 s ≫= ipnet_parse with
         | Some net => match ipnet_addr net with
                       | V4 _ => Err "invalid ip address: put an v6 address here"
                       | V6 v6 => Ok (Some v6)
                       end
         | None => Ok None
         end;
  Ok {| wgo_name := co_name common; wgo_connector := co_connect_via common; wgo_server := co_server common;
        wgo_port := co_port common; wgo_ip := ip; wgo_ipv6 := ipv6; wgo_private_key := wg_private_key s;
        wgo_public_key := wg_public_key s; wgo_preshared_key := wg_preshared_key s;
        wgo_remote_dns_resolve := default false (wg_remote_dns_resolve s); wgo_dns := wg_dns s; wgo_mtu := wg_mtu s;
        wgo_udp := default false (wg_udp s); wgo_allowed_ips := wg_allowed_ips s; wgo_reserved_bits := wg_reserved_bits s |}.

(** ** Handlers *)
Inductive PlainHandler : Type :=
| DirectHandler (name : str)
| RejectHandler (name : str)
| SsHandler (o : SsOptions)
| SocksHandler (o : SocksOptions)
| TrojanHandler (o : TrojanOptions)
| VmessHandler (o : VmessOptions)
| VlessHandler (o : VlessOptions)
| WgHandler (o : WgOptions)
| TorHandler (o : TorOptions)
| TuicHandler (o : TuicOptions)
| Hysteria2Handler (o : HystOption)
| SshHandler (o : SshOptions)
| ShadowQuicHandler (o : ShadowQuicOptions).

(** The direct and reject handlers answer their fixed names. *)
Definition plain_name (h : PlainHandler) : str :=
  match h with
  | DirectHandler _ => PROXY_DIRECT
  | RejectHandler _ => PROXY_REJECT
  | SsHandler o => sso_name o
  | SocksHandler o => so_name o
  | TrojanHandler o => to_name o
  | VmessHandler o => vmo_name o
  | VlessHandler o => vlo_name o
  | WgHandler o => wgo_name o
  | TorHandler o => toro_name o
  | TuicHandler o => tuo_name o
  | Hysteria2Handler o => ho_name o
  | SshHandler o => sho_name o
  | ShadowQuicHandler o => sqo_name o
  end.
Definition plain_proto (h : PlainHandler) : OutboundType :=
  match h with
  | DirectHandler _ => OtDirect
  | RejectHandler _ => OtReject
  | SsHandler _ => OtShadowsocks
  | SocksHandler _ => OtSocks5
  | TrojanHandler _ => OtTrojan
  | VmessHandler _ => OtVmess
  | VlessHandler _ => OtVless
  | WgHandler _ => OtWireGuard
  | TorHandler _ => OtTor
  | TuicHandler _ => OtTuic
  | Hysteria2Handler _ => OtHysteria2
  | SshHandler _ => OtSsh
  | ShadowQuicHandler _ => OtShadowQuic
  end.
(** Only the handlers with [impl_default_connector!] dial through another
    outbound. *)
(* @src clash-lib/src/proxy/common.rs ~^macro_rules! impl_default_connector~ impl_default_connector *)
Definition plain_dialer (h : PlainHandler) : option str :=
  match h with
  | SsHandler o => sso_connector o
  | SocksHandler o => so_connector o
  | TrojanHandler o => to_connector o
  | VmessHandler o => vmo_connector o
  | VlessHandler o => vlo_connector o
  | WgHandler o => wgo_connector o
  | SshHandler o => sho_connector o
  | DirectHandler _ | RejectHandler _ | TorHandler _ | TuicHandler _ | Hysteria2Handler _ | ShadowQuicHandler _ => None
  end.
#[global] Instance plain_handler_outbound : PlainOutbound PlainHandler :=
  {| px_name := plain_name; px_proto := plain_proto; px_support_dialer := plain_dialer |}.

(* @src clash-lib/src/app/remote_content_manager/providers/proxy_provider/proxy_set_provider.rs 121 181 ProxySetProvider::new (one proxy) *)
Definition plain_try_from (p : OutboundProxyProtocol) : res PlainHandler :=
  match p with
  | PDirect name => Ok (DirectHandler name)
  | PReject name => Ok (RejectHandler name)
  | PSs o => SsHandler <$> ss_try_from o
  | PSocks5 o => SocksHandler <$> socks5_try_from o
  | PTrojan o => TrojanHandler <$> trojan_try_from o
  | PVmess o => VmessHandler <$> vmess_try_from o
  | PVless o => VlessHandler <$> vless_try_from o
  | PHysteria2 o => Hysteria2Handler <$> hysteria2_try_from o
  | PSsh o => SshHandler <$> ssh_try_from o
  | PWireguard o => WgHandler <$> wireguard_try_from o
  | PTor o => TorHandler <$> tor_try_from o
  | PTuic o => TuicHandler <$> tuic_try_from o
  | PShadowQuic o => ShadowQuicHandler <$> shadowquic_try_from o
  end.

(** A proxy that cannot be converted is logged and left out. *)
(* @src clash-lib/src/app/outbound/manager.rs ~    pub fn load_plain_outbounds~ OutboundManager::load_plain_outbounds *)
Fixpoint load_plain_outbounds (outbounds : list OutboundProxyProtocol) : res (list PlainHandler) :=
  match outbounds with
  | [] => Ok []
  | outbound :: rest =>
    match plain_try_from outbound with
    | Ok h => hs ← load_plain_outbounds rest; Ok (h :: hs)
    | Err _ => load_plain_outbounds rest
    | Panic => Panic
    end
  end.

(** [yaml] and [deserialize] are the derived readers of a provider file and
    of one entry of it. *)
Context (yaml : list Z -> option (option (list (gmap str YVal)))) (deserialize : gmap str YVal -> option OutboundProxyProtocol).

(* @src clash-lib/src/config/internal/proxy.rs ~^impl TryFrom<HashMap<String, Value>> for OutboundProxyProtocol~ OutboundProxyProtocol::try_from *)
Definition protocol_try_from (mapping : gmap str YVal) : res OutboundProxyProtocol :=
  _ ← ok_or (opt_str mapping "name") "missing field `name` in outbound proxy protocol";
  ok_or (deserialize mapping) "error while parsing".

(** The parser of a proxy provider: an entry that is not a proxy is skipped,
    one that cannot be converted refuses the file. *)
Fixpoint convert_all (l : list OutboundProxyProtocol) : res (list PlainHandler) :=
  match l with
  | [] => Ok []
  | p :: rest => h ← plain_try_from p; hs ← convert_all rest; Ok (h :: hs)
  end.
(* @src clash-lib/src/app/remote_content_manager/providers/proxy_provider/proxy_set_provider.rs 107 189 ProxySetProvider::new (parser) *)
Definition parse_proxies (input : list Z) : res (list PlainHandler) :=
  scheme ← ok_or (yaml input) "proxy provider parse error";
  match scheme with
  | Some proxies => convert_all (omap (fun x => res_ok (protocol_try_from x)) proxies)
  | None => Err "proxies is empty"
  end.

End converters.

(** * Theorems *)

(** ** Port hopping *)
Inductive port_item : Type := Single (p : Z) | Span (a b : Z).
Definition item_ok (i : port_item) : Prop :=
  match i with Single p => u16 p | Span a b => 1 <= a < 2 ^ 16 /\ 1 <= b < 2 ^ 16 end.
Definition item_text (i : port_item) : str :=
  match i with Single p => dec p | Span a b => dec a ++ 45 :: dec b end.
Definition item_ports (i : port_item) : list Z := match i with Single p => [p] | Span a b => range_ports (a, b) end.
Definition blank (s : str) : Prop := Forall (fun c => is_whitespace c = true) s.
(** An item with the blanks around it. *)
Definition padded (i : str * port_item * str) : str := i.1.1 ++ item_text i.1.2 ++ i.2.
Definition padded_ok (i : str * port_item * str) : Prop := blank i.1.1 /\ item_ok i.1.2 /\ blank i.2.

Lemma trim_start_blank l s : blank l -> trim_start (l ++ s) = trim_start s.
Proof. induction 1 as [|c l Hc _ IH]; [done|]. cbn [app trim_start]. by rewrite Hc. Qed.
Definition solid (s : str) : Prop := Forall (fun c => is_whitespace c = false) s.
Lemma trim_start_solid s t : solid s -> s <> [] -> trim_start (s ++ t) = s ++ t.
Proof. intros [|c s' Hc _]; [done|]. intros _. cbn [app trim_start]. by rewrite Hc. Qed.
Lemma trim_padded l s r : blank l -> blank r -> solid s -> s <> [] -> trim (l ++ s ++ r) = s.
Proof.
  intros Hl Hr Hs Hne. unfold trim, trim_end. rewrite trim_start_blank, trim_start_solid by done.
  rewrite reverse_app, trim_start_blank by by apply Forall_reverse. rewrite <- (app_nil_r (reverse s)).
  rewrite trim_start_solid; [by rewrite app_nil_r, reverse_involutive|by apply Forall_reverse|].
  intros E. apply Hne. rewrite <- (reverse_involutive s), E. done.
Qed.

Lemma digits_solid s : Forall is_digit s -> solid s.
Proof.
  intros H. eapply Forall_impl; [exact H|]. intros c Hc. unfold is_digit in Hc. unfold is_whitespace, between.
  repeat (rewrite orb_false_iff || rewrite andb_false_iff || rewrite Z.eqb_neq || rewrite Z.leb_gt). lia.
Qed.
Lemma item_text_chars i : item_ok i -> Forall (fun c => is_digit c \/ c = 45) (item_text i) /\ item_text i <> [].
Proof.
  assert (forall z, 0 <= z -> Forall (fun c => is_digit c \/ c = 45) (dec z)) as Hd.
  { intros z Hz. eapply Forall_impl; [by apply dec_digits|]. by left. }
  destruct i as [p|a b]; cbn [item_ok item_text].
  - intros [? ?]. split; [by apply Hd|apply dec_nonempty].
  - intros [[? ?] [? ?]]. split; [|by destruct (dec a)]. apply Forall_app. split; [apply Hd; lia|].
    constructor; [by right|apply Hd; lia].
Qed.
Lemma item_text_solid i : item_ok i -> solid (item_text i).
Proof.
  intros H. destruct (item_text_chars i H) as [Hc _]. eapply Forall_impl; [exact Hc|]. intros c [Hd| ->]; [|done].
  by apply (Forall_singleton (fun c => is_whitespace c = false)), digits_solid, Forall_singleton.
Qed.
Lemma padded_no_comma i : padded_ok i -> Forall (.≠ 44) (padded i).
Proof.
  intros (Hl & Hi & Hr). assert (forall s, blank s -> Forall (.≠ 44) s) as Hb.
  { intros s Hs. eapply Forall_impl; [exact Hs|]. by intros c Hc ->. }
  repeat (apply Forall_app; split); [by apply Hb| |by apply Hb]. destruct (item_text_chars _ Hi) as [Hc _].
  eapply Forall_impl; [exact Hc|]. unfold is_digit. lia.
Qed.

Definition add_item (g : PortGenerator) (i : port_item) : PortGenerator :=
  match i with Single p => add_single p g | Span a b => add_range a b g end.

Lemma parse_uint_dash w a b : 0 <= a -> parse_uint w (dec a ++ 45 :: dec b) = None.
Proof.
  intros Ha. pose proof (dec_digits a Ha) as Hd. unfold parse_uint. destruct (dec a) as [|c s] eqn:E; [by apply dec_nonempty in E|].
  inv Hd. cbn [app]. rewrite (proj2 (Z.eqb_neq _ _)) by (unfold is_digit in *; lia).
  change (c :: s ++ 45 :: dec b) with ((c :: s) ++ 45 :: dec b). rewrite parse_digits_app.
  by destruct (parse_digits w 0 (c :: s)).
Qed.

Lemma add_ports_item g i : item_ok i -> add_ports g (item_text i) = Ok (add_item g i).
Proof.
  destruct i as [p|a b]; cbn [item_ok item_text add_item]; unfold add_ports.
  - intros Hp. by rewrite parse_uint_dec.
  - intros [Ha Hb]. rewrite parse_uint_dash by lia. rewrite split_on_app.
    assert (forall z, 1 <= z < 2 ^ 16 -> split_on 45 (dec z) = [dec z] /\ parse_nonzero (dec z) = Some z) as Hz.
    { intros z Hz. split.
      - apply split_on_single. eapply Forall_impl; [apply dec_digits; lia|]. unfold is_digit. lia.
      - unfold parse_nonzero. rewrite parse_uint_dec by (unfold in_width; lia). cbn. by rewrite (proj2 (Z.eqb_neq _ _)) by lia. }
    destruct (Hz a Ha) as [-> Ea], (Hz b Hb) as [-> Eb]. cbn [app]. by rewrite Ea, Eb.
Qed.

Lemma parse_ports_items items g :
  items <> [] -> Forall padded_ok items ->
  parse_ports_str (join [44] (padded <$> items)) g = Ok (foldl add_item g (snd ∘ fst <$> items)).
Proof.
  intros Hne Hok. unfold parse_ports_str. rewrite bool_decide_false.
  2: { intros E. assert (split_on 44 (join [44] (padded <$> items)) = [[]]) as E' by by rewrite E.
       rewrite split_on_join in E'; [|by destruct items|by apply Forall_fmap; eapply Forall_impl; [exact Hok|apply padded_no_comma]].
       destruct Hok as [|i its [Hl [Hi Hr]] _]; [done|]. cbn in E'. destruct its; [|done]. injection E' as E'.
       unfold padded in E'. destruct (item_text_chars _ Hi) as [_ Hn]. by apply app_nil in E' as [_ [E' _]%app_nil]. }
  rewrite split_on_join; [|by destruct items|by apply Forall_fmap; eapply Forall_impl; [exact Hok|apply padded_no_comma]].
  clear Hne. revert g. induction Hok as [|i its [Hl [Hi Hr]] _ IH]; intros g; [done|]. cbn [fmap list_fmap res_fold foldl].
  change (padded i) with (i.1.1 ++ item_text i.1.2 ++ i.2). rewrite trim_padded; [|done|done|by apply item_text_solid|by apply item_text_chars].
  rewrite add_ports_item by done. cbn [res_bind]. apply IH.
Qed.

(** Every port of a generator, in the order the index counts them. *)
Definition pg_all (g : PortGenerator) : list Z := pg_default g :: pg_ports g ++ (pg_range g ≫= range_ports).

Lemma sum_ranges l : sum_list_with (fun r => length (range_ports r)) l = length (l ≫= range_ports).
Proof. induction l as [|r l IH]; [done|]. cbn [sum_list_with mbind list_bind]. rewrite length_app. by rewrite <- IH. Qed.
Lemma pg_len_all g : pg_len g = zlen (pg_all g).
Proof. unfold pg_len, zlen, pg_all. rewrite sum_ranges. cbn [length]. rewrite length_app. lia. Qed.
Lemma pg_get_all g idx : 0 <= idx -> pg_get idx g = or_panic (zget (pg_all g) idx).
Proof.
  intros Hi. unfold pg_get, zidx, zget, pg_all. rewrite (bool_decide_true (0 <= idx)) by done.
  destruct (Z.eqb_spec idx 0) as [->|Hz]; [done|].
  rewrite lookup_cons_ne_0 by lia. replace (pred (Z.to_nat idx)) with (Z.to_nat (idx - 1)) by lia.
  destruct (Z.leb_spec idx (zlen (pg_ports g))) as [Hl|Hl]; unfold zlen in Hl.
  - rewrite bool_decide_true by lia. by rewrite lookup_app_l by lia.
  - unfold zlen. rewrite bool_decide_true by lia. rewrite lookup_app_r by lia. do 3 f_equal. lia.
Qed.
Lemma add_items_all items g p :
  p ∈ pg_all (foldl add_item g items) <-> p ∈ pg_all g \/ exists i, i ∈ items /\ p ∈ item_ports i.
Proof.
  revert g. induction items as [|i items IH]; intros g; cbn [foldl]; [set_solver|]. rewrite IH.
  assert (p ∈ pg_all (add_item g i) <-> p ∈ pg_all g \/ p ∈ item_ports i) as ->; [|set_solver].
  unfold pg_all. destruct i as [q|a b]; cbn [add_item add_single add_range pg_default pg_ports pg_range item_ports].
  - set_solver.
  - rewrite bind_app. cbn [mbind list_bind]. rewrite app_nil_r. set_solver.
Qed.

(** Port hopping uses exactly the ports of the configuration.  A list of
    ports and port ranges, written with commas and any blanks around the
    items, is accepted; every port drawn from the resulting generator, at
    any random index, is the server's own port or one of those listed, no
    draw panics, and every such port can be drawn.  A reversed range
    contributes nothing. *)
Theorem port_hopping_exact (port : Z) (items : list (str * port_item * str)) (Hne : items <> []) (Hok : Forall padded_ok items) :
  exists g, parse_ports_str (join [44] (padded <$> items)) (port_generator_new port) = Ok g /\
    (forall idx, 0 <= idx < pg_len g -> exists p, pg_get idx g = Ok p) /\
    (forall p, (exists idx, 0 <= idx < pg_len g /\ pg_get idx g = Ok p) <->
               p = port \/ exists i, i ∈ items /\ p ∈ item_ports i.1.2).
Proof.
  eexists. split; [by apply parse_ports_items|]. set (g := foldl _ _ _). rewrite pg_len_all.
  assert (forall idx p, 0 <= idx < zlen (pg_all g) -> pg_get idx g = Ok p <-> pg_all g !! Z.to_nat idx = Some p) as Hget.
  { intros idx p Hi. rewrite pg_get_all by lia. unfold zget. rewrite bool_decide_true by lia.
    destruct (pg_all g !! Z.to_nat idx); cbn [or_panic]; naive_solver. }
  split.
  - intros idx Hi. destruct (lookup_lt_is_Some_2 (pg_all g) (Z.to_nat idx)) as [p Hp]; [unfold zlen in Hi; lia|].
    exists p. by apply Hget.
  - intros p. transitivity (p ∈ pg_all g).
    + split.
      * intros (idx & Hi & E). apply Hget in E; [|done]. by eapply list_elem_of_lookup_2.
      * intros [k Hk]%list_elem_of_lookup. pose proof (lookup_lt_Some _ _ _ Hk). exists (Z.of_nat k).
        assert (0 <= Z.of_nat k < zlen (pg_all g)) as Hr by (unfold zlen; lia). split; [done|]. apply Hget; [done|].
        by rewrite Nat2Z.id.
    + unfold g. rewrite add_items_all. unfold pg_all at 1. cbn. split.
      * intros [Hp|(i & Hi & Hp)]; [left; by apply list_elem_of_singleton in Hp|].
        apply list_elem_of_fmap in Hi as (j & -> & Hj). right. by exists j.
      * intros [->|(j & Hj & Hp)]; [left; by left|]. right. exists j.1.2. split; [|done].
        apply list_elem_of_fmap. by exists j.
Qed.

Lemma port_hopping_exact_witness : exists g,
  parse_ports_str (lit "1001,1002,1003, 5000-5001") (port_generator_new 1000) = Ok g /\
  exists idx, 0 <= idx < pg_len g /\ pg_get idx g = Ok 5001.
Proof.
  destruct (port_hopping_exact 1000 [([], Single 1001, []); ([], Single 1002, []); ([], Single 1003, []); (lit " ", Span 5000 5001, [])])
    as (g & E & _ & H).
  - done.
  - repeat constructor; done.
  - exists g. split; [exact E|]. apply H. right. exists (lit " ", Span 5000 5001, []). split; [set_solver|vm_compute; set_solver].
Defined.

(** ** Conversion *)
Section conversion.
Context {CL : ConverterLib} {NL : IpNetLib}.

(** The outbound a proxy is configured to dial through. *)
Definition connect_via (p : OutboundProxyProtocol) : option str :=
  match p with
  | PSs o => co_connect_via (ss_common o)
  | PSocks5 o => co_connect_via (s5_common o)
  | PTrojan o => co_connect_via (tj_common o)
  | PVmess o => co_connect_via (vm_common o)
  | PVless o => co_connect_via (vl_common o)
  | PWireguard o => co_connect_via (wg_common o)
  | PSsh o => co_connect_via (sh_common o)
  | PTuic o => co_connect_via (tu_common o)
  | PShadowQuic o => co_connect_via (sq_common o)
  | PDirect _ | PReject _ | PTor _ | PHysteria2 _ => None
  end.
(** The kinds whose handlers do not report it. *)
Definition ignores_connect_via (p : OutboundProxyProtocol) : bool :=
  match p with PTuic _ | PShadowQuic _ => true | _ => false end.
(** Where a proxy is reached: the configured server and the handler's. *)
Definition config_server (p : OutboundProxyProtocol) : option (str * Z) :=
  let at_ c := Some (co_server c, co_port c) in
  match p with
  | PDirect _ | PReject _ | PTor _ => None
  | PSs o => at_ (ss_common o)
  | PSocks5 o => at_ (s5_common o)
  | PTrojan o => at_ (tj_common o)
  | PVmess o => at_ (vm_common o)
  | PVless o => at_ (vl_common o)
  | PWireguard o => at_ (wg_common o)
  | PTuic o => at_ (tu_common o)
  | PSsh o => at_ (sh_common o)
  | PShadowQuic o => at_ (sq_common o)
  | PHysteria2 o => Some (hy_server o, hy_port o)
  end.
Definition reaches (h : PlainHandler) (server : str) (port : Z) : Prop :=
  match h with
  | DirectHandler _ | RejectHandler _ | TorHandler _ => False
  | SsHandler o => sso_server o = server /\ sso_port o = port
  | SocksHandler o => so_server o = server /\ so_port o = port
  | TrojanHandler o => to_server o = server /\ to_port o = port
  | VmessHandler o => vmo_server o = server /\ vmo_port o = port
  | VlessHandler o => vlo_server o = server /\ vlo_port o = port
  | WgHandler o => wgo_server o = server /\ wgo_port o = port
  | TuicHandler o => tuo_server o = server /\ tuo_port o = port
  | SshHandler o => sho_server o = server /\ sho_port o = port
  | Hysteria2Handler o => try_from_host_port server port = Ok (ho_addr o)
  | ShadowQuicHandler o => exists a, try_from_host_port server port = Ok a /\ sqo_addr o = socks_to_string a
  end.

(** What a handler keeps of the proxy it was made from. *)
Definition kept (p : OutboundProxyProtocol) (h : PlainHandler) : Prop :=
  plain_name h = match p with PDirect _ => PROXY_DIRECT | PReject _ => PROXY_REJECT | _ => protocol_name p end /\
  plain_dialer h = (if ignores_connect_via p then None else connect_via p) /\
  match config_server p with Some (server, port) => reaches h server port | None => True end.

(** A gRPC or HTTP/2 path that is not a URI path. *)
Definition bad_grpc (o : option GrpcOpt) : Prop := exists x, o = Some x /\ path_and_query (default [] (grpc_service_name x)) = None.
Definition bad_h2 (o : option H2Opt) : Prop := exists x, o = Some x /\ path_and_query (default [] (h2_path x)) = None.
Definition bad_stream (network : option str) (h2 : option H2Opt) (grpc : option GrpcOpt) : Prop :=
  (network = Some (lit "h2") /\ bad_h2 h2) \/ (network = Some (lit "grpc") /\ bad_grpc grpc).
Definition bad_path (p : OutboundProxyProtocol) : Prop :=
  match p with
  | PTrojan o => tj_network o = Some (lit "grpc") /\ bad_grpc (tj_grpc_opts o)
  | PVmess o => bad_stream (vm_network o) (vm_h2_opts o) (vm_grpc_opts o)
  | PVless o => bad_stream (vl_network o) (vl_h2_opts o) (vl_grpc_opts o)
  | _ => False
  end.

Lemma res_fmap_cases {A B} (f : A -> B) (r : res A) :
  f <$> r = match r with Ok a => Ok (f a) | Err e => Err e | Panic => Panic end.
Proof. by destruct r. Qed.
Lemma ok_or_panic {A} (o : option A) e : ok_or o e <> Panic.
Proof. by destruct o. Qed.

Lemma v_transport_panic network ws h2 grpc sn common :
  v_transport network ws h2 grpc sn common = Panic <-> bad_stream network h2 grpc.
Proof.
  unfold v_transport, bad_stream, bad_h2, bad_grpc. destruct network as [x|]; [|naive_solver].
  destruct (decide (x = lit "ws")) as [->|Hws]; [by destruct ws; cbn; naive_solver|].
  rewrite (bool_decide_false (x = lit "ws")) by done.
  destruct (decide (x = lit "h2")) as [->|Hh2].
  { rewrite bool_decide_true by done. destruct h2 as [o|]; cbn [ok_or]; rstep; [|naive_solver]. unfold h2_client.
    destruct (path_and_query (default [] (h2_path o))) eqn:E; cbn; naive_solver. }
  rewrite (bool_decide_false (x = lit "h2")) by done.
  destruct (decide (x = lit "grpc")) as [->|Hg].
  { rewrite bool_decide_true by done. destruct grpc as [o|]; cbn [ok_or]; rstep; [|naive_solver]. unfold grpc_client.
    destruct (path_and_query (default [] (grpc_service_name o))) eqn:E; cbn; naive_solver. }
  rewrite (bool_decide_false (x = lit "grpc")) by done. naive_solver.
Qed.
Lemma v_tls_panic tls skip sn ws network common : v_tls tls skip sn ws network common <> Panic.
Proof. unfold v_tls. destruct (default false tls); [|done]. destruct network as [x|]; [|done]. by repeat case_bool_decide. Qed.

Lemma trojan_outcome o :
  (trojan_try_from o = Panic <-> tj_network o = Some (lit "grpc") /\ bad_grpc (tj_grpc_opts o)) /\
  (tj_network o = Some (lit "ws") \/ tj_network o = Some (lit "grpc") -> is_ok (trojan_try_from o) = false).
Proof.
  unfold trojan_try_from, bad_grpc. destruct (tj_network o) as [n|]; [|split; [split; [done|naive_solver]|naive_solver]].
  destruct (decide (n = lit "ws")) as [->|Hws]; [by split; [split; [|naive_solver]|]|].
  rewrite (bool_decide_false (n = lit "ws")) by done.
  destruct (decide (n = lit "grpc")) as [->|Hg].
  { rewrite bool_decide_true by done. destruct (tj_grpc_opts o) as [x|]; unfold option_or_err; cbn; [|split; [naive_solver|done]].
    unfold grpc_client. destruct (path_and_query (default [] (grpc_service_name x))) eqn:E; cbn; [split; [naive_solver|done]|].
    split; [|done]. split; [intros _; split; [done|by exists x]|done]. }
  rewrite (bool_decide_false (n = lit "grpc")) by done. split; [|naive_solver]. split; [|naive_solver].
  case_bool_decide; [done|]. case_bool_decide; [|done]. by destruct (tquic_new _).
Qed.

Lemma res_bind_panic {A B} (m : res A) (f : A -> res B) : (m ≫= f) = Panic <-> m = Panic \/ exists a, m = Ok a /\ f a = Panic.
Proof. destruct m; cbn; naive_solver. Qed.
Lemma fmap_panic {A B} (f : A -> B) (r : res A) : f <$> r = Panic <-> r = Panic.
Proof. rewrite res_fmap_cases. by destruct r. Qed.

Lemma v2ray_no_panic value : v2ray_try_from value <> Panic.
Proof.
  unfold v2ray_try_from. destruct (opt_str value "mode"); [|done]. cbn [ok_or]. rstep.
  destruct (value !! lit "port" ≫= as_u64); [|done]. cbn [ok_or]. rstep. by destruct (negb _).
Qed.
Lemma v2ray_ws_no_panic opt : v2ray_ws_try_from opt <> Panic.
Proof. unfold v2ray_ws_try_from, v2ray_ws_try_new. destruct (negb _); [done|]. by destruct (vo_mux opt). Qed.
Lemma ss_no_panic o : ss_try_from o <> Panic.
Proof.
  unfold ss_try_from, ss_plugin_try_from. rewrite res_bind_panic. intros [H|(a & _ & [=])]. revert H.
  destruct (ss_plugin o) as [pl|]; [|done]. destruct (ss_plugin_opts o) as [v|]; cbn [ok_or]; rstep; [|by repeat case_bool_decide].
  case_bool_decide.
  { unfold simple_obfs_try_from. destruct (opt_str v "mode"); [|done]. cbn. by repeat case_bool_decide. }
  case_bool_decide.
  { rewrite res_bind_panic. intros [H'|(a & _ & H')]; [by apply v2ray_no_panic in H'|].
    rewrite res_bind_panic in H'. destruct H' as [H'|(b & _ & [=])]. by apply v2ray_ws_no_panic in H'. }
  case_bool_decide; [|done]. unfold shadowtls_try_from. by destruct (opt_str v "password").
Qed.
Lemma host_port_no_panic host port : try_from_host_port host port <> Panic.
Proof. unfold try_from_host_port. destruct (parse_ip host); [done|]. by destruct (0xff <? str_len host). Qed.
Lemma ports_no_panic ports g : parse_ports_str ports g <> Panic.
Proof.
  unfold parse_ports_str. case_bool_decide; [done|]. generalize (trim <$> split_on 44 ports). intros l. revert g.
  induction l as [|x l IH]; intros g; [done|]. cbn [res_fold]. destruct (add_ports g x) as [g'| |] eqn:E; cbn; [apply IH|done|].
  exfalso. revert E. unfold add_ports. destruct (parse_uint 16 x); [done|]. destruct (split_on 45 x) as [|a [|b r]]; [done|done|].
  destruct (parse_nonzero a); [|done]. cbn. by destruct (parse_nonzero b).
Qed.
Lemma hysteria2_no_panic o : hysteria2_try_from o <> Panic.
Proof.
  unfold hysteria2_try_from. rewrite res_bind_panic. intros [H|(a & _ & H)]; [by apply host_port_no_panic in H|].
  rewrite res_bind_panic in H. destruct H as [H|(b & _ & H)]; [by destruct (hy_obfs o) as [[]|], (hy_obfs_password o)|].
  rewrite res_bind_panic in H. destruct H as [H|(c & _ & [=])]. destruct (hy_ports o) as [ps|]; [|done].
  destruct (parse_ports_str ps _) eqn:E; try done. by apply ports_no_panic in E.
Qed.
Lemma ssh_no_panic o : ssh_try_from o <> Panic.
Proof.
  unfold ssh_try_from. rewrite res_bind_panic. intros [H|(a & _ & [=])]. destruct (sh_totp_opt o) as [t|]; [|done].
  apply fmap_panic in H. destruct t as [sec|c]; cbn [ssh_totp] in H.
  - destruct (secret_to_bytes sec); [|done]. cbn in H. by apply ok_or_panic in H.
  - destruct (secret_to_bytes (tp_secret c)); [|done]. cbn in H. by apply ok_or_panic in H.
Qed.
Lemma wireguard_no_panic o : wireguard_try_from o <> Panic.
Proof.
  unfold wireguard_try_from. destruct (ipnet_parse (wg_ip o)) as [n|]; [|done]. cbn [ok_or]; rstep.
  destruct (ipnet_addr n); rstep; [|done]. destruct (wg_ipv6 o ≫= ipnet_parse) as [n6|]; rstep; [|done]. by destruct (ipnet_addr n6).
Qed.

Lemma plain_try_from_panic p : plain_try_from p = Panic <-> bad_path p.
Proof.
  destruct p as [name|name|o|o|o|o|o|o|o|o|o|o|o]; cbn [plain_try_from bad_path]; rewrite ?fmap_panic.
  - done.
  - done.
  - split; [intros H; by apply ss_no_panic in H|done].
  - done.
  - apply trojan_outcome.
  - unfold vmess_try_from. rewrite res_bind_panic, v_transport_panic. split; [|by left]. intros [H|(a & _ & H)]; [done|].
    apply res_bind_panic in H as [H|(b & _ & [=])]. by apply v_tls_panic in H.
  - unfold vless_try_from. rewrite res_bind_panic, v_transport_panic. split; [|by left]. intros [H|(a & _ & H)]; [done|].
    apply res_bind_panic in H as [H|(b & _ & [=])]. by apply v_tls_panic in H.
  - split; [intros H; by apply wireguard_no_panic in H|done].
  - done.
  - done.
  - split; [intros H; by apply hysteria2_no_panic in H|done].
  - split; [intros H; by apply ssh_no_panic in H|done].
  - split; [|done]. unfold shadowquic_try_from. rewrite res_bind_panic. intros [H|(a & _ & [=])]. by apply host_port_no_panic in H.
Qed.

Lemma fmap_ok {A B} (f : A -> B) (r : res A) b : f <$> r = Ok b <-> exists a, r = Ok a /\ b = f a.
Proof. rewrite res_fmap_cases. destruct r; naive_solver. Qed.

Ltac converted H := repeat (apply res_bind_ok in H as (? & ? & H)); injection H as <-; split_and!; try done.

Lemma plain_try_from_kept p h : plain_try_from p = Ok h -> kept p h.
Proof.
  unfold kept. destruct p as [name|name|o|o|o|o|o|o|o|o|o|o|o]; cbn [plain_try_from config_server connect_via ignores_connect_via protocol_name]; intros H.
  1,2: by injection H as <-.
  all: apply fmap_ok in H as (a & H & ->).
  - converted H.
  - converted H.
  - apply res_bind_ok in H as ([[tr qc] tq] & _ & H). converted H.
  - converted H.
  - converted H.
  - converted H.
  - converted H.
  - converted H.
  - converted H.
  - converted H.
  - apply res_bind_ok in H as (addr & Ha & H). injection H as <-. split_and!; [done|done|]. by exists addr.
Qed.

(** C12: what becomes of the proxies of a configuration.  Loading them panics
    exactly when one of them has a gRPC or HTTP/2 path that is not a URI
    path; otherwise each proxy that can be converted becomes a handler, in
    order, and the others are left out.  A handler has the server and port of
    its proxy and its name, except that direct and reject handlers always
    have the built-in names; it dials through the outbound its proxy is
    configured to dial through, except that TUIC and ShadowQUIC handlers
    ignore the option. *)
Theorem plain_outbounds_loaded (outbounds : list OutboundProxyProtocol) :
  (Exists bad_path outbounds /\ load_plain_outbounds outbounds = Panic) \/
  (Forall (fun p => ~ bad_path p) outbounds /\ exists hs, load_plain_outbounds outbounds = Ok hs /\
     hs = omap (fun p => res_ok (plain_try_from p)) outbounds /\
     Forall (fun h => exists p, p ∈ outbounds /\ plain_try_from p = Ok h /\ kept p h) hs).
Proof.
  induction outbounds as [|p ps IH]; [right; split; [done|]; by exists []|]. cbn [load_plain_outbounds omap list_omap].
  destruct (plain_try_from p) as [h|e|] eqn:E.
  - assert (~ bad_path p) as Hp by (rewrite <- plain_try_from_panic; congruence).
    destruct IH as [[Hb ->]|[Hb (hs & -> & Ehs & Hk)]].
    + left. split; [by right|done].
    + right. split; [by constructor|]. exists (h :: hs). rstep. cbn [res_ok]. split_and!; [done|by f_equal|]. constructor.
      * exists p. split_and!; [left|done|by apply plain_try_from_kept].
      * eapply Forall_impl; [exact Hk|]. intros h' (p' & ? & ?). exists p'. split; [by right|done].
  - assert (~ bad_path p) as Hp by (rewrite <- plain_try_from_panic; congruence).
    destruct IH as [[Hb ->]|[Hb (hs & -> & Ehs & Hk)]].
    + left. split; [by right|done].
    + right. split; [by constructor|]. exists hs. cbn [res_ok]. split_and!; [done|done|].
      eapply Forall_impl; [exact Hk|]. intros h' (p' & ? & ?). exists p'. split; [by right|done].
  - left. split; [left; by apply plain_try_from_panic|done].
Qed.

(** A Trojan proxy over WebSocket or gRPC is never loaded, whatever options
    it has. *)
Lemma trojan_ws_refused o :
  tj_network o = Some (lit "ws") \/ tj_network o = Some (lit "grpc") -> is_ok (plain_try_from (PTrojan o)) = false.
Proof.
  intros H. cbn [plain_try_from]. rewrite res_fmap_cases. pose proof (proj2 (trojan_outcome o) H) as E. by destruct (trojan_try_from o).
Qed.

(** A malformed IPv6 address of a WireGuard proxy is ignored. *)
Lemma wireguard_ipv6_ignored o s : ipnet_parse s = None ->
  wireguard_try_from {| wg_common := wg_common o; wg_private_key := wg_private_key o; wg_public_key := wg_public_key o;
    wg_preshared_key := wg_preshared_key o; wg_mtu := wg_mtu o; wg_udp := wg_udp o; wg_ip := wg_ip o; wg_ipv6 := Some s;
    wg_remote_dns_resolve := wg_remote_dns_resolve o; wg_dns := wg_dns o; wg_allowed_ips := wg_allowed_ips o;
    wg_reserved_bits := wg_reserved_bits o |} =
  wireguard_try_from {| wg_common := wg_common o; wg_private_key := wg_private_key o; wg_public_key := wg_public_key o;
    wg_preshared_key := wg_preshared_key o; wg_mtu := wg_mtu o; wg_udp := wg_udp o; wg_ip := wg_ip o; wg_ipv6 := None;
    wg_remote_dns_resolve := wg_remote_dns_resolve o; wg_dns := wg_dns o; wg_allowed_ips := wg_allowed_ips o;
    wg_reserved_bits := wg_reserved_bits o |}.
Proof. intros H. unfold wireguard_try_from. cbn. by rewrite H. Qed.

End conversion.
