(* ===== verification/Dial.v ===== *)
(** * Dialing ([proxy/mod.rs], [proxy/utils/{proxy_connector,socket_helpers}.rs],
    the outbound handlers)

    From a session to a connection: sockets and their options, connectors,
    and the layers each handler puts between the socket and the session (TLS,
    a transport, its protocol).  A stream is its base and the layers over it,
    innermost first; the layers' own bytes are in [Vmess], [Vless], [Trojan],
    [Socks5], [Transport], [Obfs], [ShadowTls].  The network, the servers and
    the handlers with a connection of their own are the parameter [Host]. *)

From S2P Require Import Prelude Str Net Session Groups Inbound Socks5 Crypto Trojan OutboundManager Converters Vmess.

(** ** Sockets *)
Inductive Dom : Type := IPV4 | IPV6.
Inductive SType : Type := STREAM | DGRAM.
#[global] Instance dom_eq_dec : EqDecision Dom.
Proof. solve_decision. Defined.
Definition domain_for (a : SocketAddr) : Dom := match a with SV4 _ _ => IPV4 | SV6 _ _ _ _ => IPV6 end.
(** The calls made on a socket. *)
Inductive SockOp : Type :=
| BindDevice (name : str) | Bind (a : SocketAddr) | SetMark (m : Z) | KeepAlive | NoDelay | NonBlocking | Broadcast | V6Only (b : bool)
| ReuseAddress | ReusePort | TransparentV4 | TransparentV6 | RecvOrigDst (level : Dom) | Listen (backlog : Z) | ConnectTo (a : SocketAddr).
#[global] Instance sockop_eq_dec : EqDecision SockOp.
Proof. solve_decision. Defined.
Record Sock : Type := { sk_domain : Dom; sk_type : SType; sk_ops : list SockOp }.

(** ** Layers *)
(** Of the shadowsocks crate. *)
Inductive CipherKind : Type :=
| AES_128_GCM | AES_256_GCM | CHACHA20_POLY1305 | AEAD2022_BLAKE3_AES_128_GCM | AEAD2022_BLAKE3_AES_256_GCM
| AEAD2022_BLAKE3_CHACHA20_POLY1305 | SS_RC4_MD5.
(* @src clash-lib/src/proxy/shadowsocks/mod.rs ~^pub\(crate\) fn map_cipher~ map_cipher *)
Definition map_cipher (cipher : str) : res CipherKind :=
  if bool_decide (cipher = lit "aes-128-gcm") then Ok AES_128_GCM
  else if bool_decide (cipher = lit "aes-256-gcm") then Ok AES_256_GCM
  else if bool_decide (cipher = lit "chacha20-ietf-poly1305") then Ok CHACHA20_POLY1305
  else if bool_decide (cipher = lit "2022-blake3-aes-128-gcm") then Ok AEAD2022_BLAKE3_AES_128_GCM
  else if bool_decide (cipher = lit "2022-blake3-aes-256-gcm") then Ok AEAD2022_BLAKE3_AES_256_GCM
  else if bool_decide (cipher = lit "2022-blake3-chacha20-ietf-poly1305") then Ok AEAD2022_BLAKE3_CHACHA20_POLY1305
  else if bool_decide (cipher = lit "rc4-md5") then Ok SS_RC4_MD5
  else Err "unsupported cipher".
Record ServerConfig : Type := { sc_server : str * Z; sc_password : str; sc_method : CipherKind }.

Inductive Layer : Type :=
| LyTls (c : TlsClient)
| LyTransport (t : Transport)
| LyPlugin (p : SsPlugin)
| LyShadowsocks (c : ServerConfig) (host : str) (port : Z)
| LyVmess (b : Builder)
| LyVless (uuid : list Z) (dst : SocksAddr) (udp : bool)
| LyTrojan (req : list Z)
| LySocks (dst : SocksAddr) (command : Z) (user password : option str).
Section dial.
Context {CV : ConverterLib}.

(** What carries the first layer: a socket, a QUIC stream of the Trojan
    client, or the connection a handler makes by itself. *)
Inductive Base : Type :=
| BSocket (s : Sock)
| BQuic (q : QuicClient)
| BTquic (server : str) (port : Z) (sni : str) (alpn : list str)
| BOwn (h : PlainHandler) (dst : SocksAddr).
Record AnyStream : Type := { st_base : Base; st_layers : list Layer }.
Inductive AnyDatagram : Type :=
| DUdp (s : Sock)
| DVmess (s : AnyStream) (dst : SocksAddr)
| DVless (s : AnyStream) (dst : SocksAddr)
| DTrojan (s : AnyStream) (dst : SocksAddr)
| DSocks (control : AnyStream) (relay : SocketAddr) (s : Sock)
| DShadowsocks (c : ServerConfig) (io : AnyDatagram) (server : SocketAddr)
| DOwn (h : PlainHandler) (dst : SocksAddr).

(** What the program meets: the resolver, the system's sockets, the peers of
    the handshakes, the shadowsocks and uuid crates. *)
Class Host : Type := {
  resolve : str -> res (option IpAddr);
  resolve_v6 : str -> res (option Z);
  sys_socket : Dom -> SType -> res unit;
  sys_call : SockOp -> Sock -> res unit;
  handshake : Layer -> AnyStream -> res unit;
  associate : Layer -> AnyStream -> res SocksAddr;
  open_quic : Base -> res unit;
  own_stream : PlainHandler -> SocksAddr -> res unit;
  own_datagram : PlainHandler -> SocksAddr -> res unit;
  hysteria_udp : HystOption -> bool;
  ss_config_ok : str -> CipherKind -> bool;
  parse_uuid : str -> option (list Z);
  fast_aes : bool;
}.

Context {HO : Host} {UL : UnicodeLib} {CL : CryptoLib}.

Definition call (o : SockOp) (s : Sock) : res Sock :=
  _ ← sys_call o s; Ok {| sk_domain := sk_domain s; sk_type := sk_type s; sk_ops := sk_ops s ++ [o] |}.
Definition call_opt {A} (f : A -> SockOp) (o : option A) (s : Sock) : res Sock :=
  match o with Some a => call (f a) s | None => Ok s end.
Definition socket_new (d : Dom) (t : SType) : res Sock := _ ← sys_socket d t; Ok {| sk_domain := d; sk_type := t; sk_ops := [] |}.

(* @src clash-lib/src/proxy/utils/platform/unix.rs ~^pub\(crate\) fn must_bind_socket_on_interface~ must_bind_socket_on_interface *)
Definition must_bind_socket_on_interface (i : OutboundInterface) (s : Sock) : res Sock := call (BindDevice (oi_name i)) s.

(** The connect fails after ten seconds, like any other call. *)
(* @src clash-lib/src/proxy/utils/socket_helpers.rs ~^pub async fn new_tcp_stream~ new_tcp_stream *)
Definition new_tcp_stream (endpoint : SocketAddr) (ifc : option OutboundInterface) (mark : option Z) : res Sock :=
  s ← socket_new (domain_for endpoint) STREAM;
  s ← match ifc with Some i => must_bind_socket_on_interface i s | None => Ok s end;
  s ← call_opt SetMark mark s;
  s ← call KeepAlive s;
  s ← call NoDelay s;
  s ← call NonBlocking s;
  call (ConnectTo endpoint) s.

(** The flag says whether the socket takes both families. *)
(* @src clash-lib/src/proxy/utils/socket_helpers.rs ~^pub fn try_create_dualstack_socket~ try_create_dualstack_socket *)
Definition try_create_dualstack_socket (addr : SocketAddr) (t : SType) : res (Sock * bool) :=
  s ← socket_new (domain_for addr) t;
  if bool_decide (domain_for addr = IPV6) && is_unspecified (sa_ip addr) then
    match call (V6Only false) s with
    | Ok s => Ok (s, true)
    | Err _ => Ok (s, false)
    | Panic => Panic
    end
  else Ok (s, false).
(* @src clash-lib/src/proxy/utils/socket_helpers.rs ~^pub fn try_create_dualstack_tcplistener~ try_create_dualstack_tcplistener *)
Definition try_create_dualstack_tcplistener (addr : SocketAddr) : res Sock :=
  '(s, _) ← try_create_dualstack_socket addr STREAM;
  s ← call NonBlocking s;
  s ← call ReuseAddress s;
  s ← call (Bind addr) s;
  call (Listen 1024) s.

(* @src clash-lib/src/proxy/utils/socket_helpers.rs 104 124 new_udp_socket (family) *)
Definition udp_socket_of (src : option SocketAddr) (ifc : option OutboundInterface) (hint : option SocketAddr) : res Sock :=
  match hint, src, ifc with
  | Some hint, _, _ => socket_new (domain_for hint) DGRAM
  | None, Some (SV6 _ _ _ _ as src), _ => '(s, _) ← try_create_dualstack_socket src DGRAM; Ok s
  | None, _, Some i => socket_new (match oi_addr_v6 i with Some _ => IPV6 | None => IPV4 end) DGRAM
  | None, _, None => socket_new IPV4 DGRAM
  end.
(** On Linux: a socket bound to an interface is not bound to an address. *)
(* @src clash-lib/src/proxy/utils/socket_helpers.rs ~^pub async fn new_udp_socket~ new_udp_socket *)
Definition new_udp_socket (src : option SocketAddr) (ifc : option OutboundInterface) (mark : option Z) (hint : option SocketAddr) : res Sock :=
  s ← udp_socket_of src ifc hint;
  s ← match ifc with Some i => must_bind_socket_on_interface i s | None => call_opt Bind src s end;
  s ← call_opt SetMark mark s;
  s ← call Broadcast s;
  call NonBlocking s.

(** Only an IPv6 address of a name is asked for. *)
(* @src clash-lib/src/proxy/utils/socket_helpers.rs ~^pub async fn family_hint_for_session~ family_hint_for_session *)
Definition family_hint_for_session (sess : Session) : option SocketAddr :=
  let port := socks_port (destination sess) in
  match resolved_ip sess, socks_ip (destination sess) with
  | Some ip, _ | None, Some ip => Some (sa_new ip port)
  | None, None =>
    match resolve_v6 (socks_host (destination sess)) with
    | Ok r => (fun ip => sa_new (V6 ip) port) <$> r
    | _ => None
    end
  end.

(** ** Connectors *)
(* @src clash-lib/src/proxy/utils/proxy_connector.rs ~^pub trait RemoteConnector~ RemoteConnector *)
Record RemoteConnector : Type := {
  rc_stream : str -> Z -> option OutboundInterface -> option Z -> res AnyStream;
  rc_datagram : option SocketAddr -> SocksAddr -> option OutboundInterface -> option Z -> res AnyDatagram;
}.
Definition resolved (host : str) : res IpAddr := r ← resolve host; ok_or r "no dns result".
(* @src clash-lib/src/proxy/utils/proxy_connector.rs ~^impl RemoteConnector for DirectConnector~ DirectConnector *)
Definition direct_connector : RemoteConnector := {|
  rc_stream := fun address port ifc mark =>
    dial_addr ← resolved address;
    s ← new_tcp_stream (sa_new dial_addr port) ifc mark;
    Ok {| st_base := BSocket s; st_layers := [] |};
  rc_datagram := fun src dst ifc mark =>
    DUdp <$> new_udp_socket src ifc mark ((fun ip => sa_new ip (socks_port dst)) <$> socks_ip dst);
|}.

(** ** Layers *)
Definition push (l : Layer) (s : AnyStream) : AnyStream := {| st_base := st_base s; st_layers := st_layers s ++ [l] |}.
Definition over (l : Layer) (s : AnyStream) : res AnyStream := _ ← handshake l s; Ok (push l s).
Definition over_opt {A} (f : A -> Layer) (o : option A) (s : AnyStream) : res AnyStream :=
  match o with Some a => over (f a) s | None => Ok s end.

(** [proxy_stream] of a plugin; that of the v2ray plugin is TLS and a
    websocket. *)
(* @src clash-lib/src/proxy/transport/v2ray/websocket.rs ~    pub async fn new_v2ray_websocket_stream~ Sip003Plugin::proxy_stream *)
Definition plugin_stream (p : SsPlugin) (s : AnyStream) : res AnyStream :=
  match p with
  | PlV2ray c => s ← over_opt LyTls (vw_tls_client c) s; over (LyTransport (TrWs (vw_ws_client c))) s
  | _ => over (LyPlugin p) s
  end.
(* @src clash-lib/src/proxy/shadowsocks/outbound/mod.rs ~    fn server_config~ Handler::server_config *)
Definition server_config (o : SsOptions) : res ServerConfig :=
  method ← map_cipher (sso_cipher o);
  if ss_config_ok (sso_password o) method then
    Ok {| sc_server := (sso_server o, sso_port o); sc_password := sso_password o; sc_method := method |}
  else Err "invalid password for the method".
(* @src clash-lib/src/proxy/shadowsocks/outbound/mod.rs ~    async fn proxy_stream~ Handler::proxy_stream *)
Definition ss_proxy_stream (o : SsOptions) (sess : Session) (s : AnyStream) : res AnyStream :=
  s ← match sso_plugin o with Some p => plugin_stream p s | None => Ok s end;
  cfg ← server_config o;
  Ok (push (LyShadowsocks cfg (socks_host (destination sess)) (socks_port (destination sess))) s).
(** TLS and the transport of VMess, VLESS and Trojan. *)
Definition carried_over (tls : option TlsClient) (transport : option Transport) (s : AnyStream) : res AnyStream :=
  s ← over_opt LyTls tls s; over_opt LyTransport transport s.
(* @src clash-lib/src/proxy/vmess/mod.rs ~    async fn inner_proxy_stream~ Handler::inner_proxy_stream *)
Definition vmess_inner (o : VmessOptions) (sess : Session) (udp : bool) (s : AnyStream) : res AnyStream :=
  s ← carried_over (vmo_tls o) (vmo_transport o) s;
  b ← builder_new fast_aes (parse_uuid (vmo_uuid o)) (vmo_alter_id o) (vmo_security o) udp (destination sess);
  over (LyVmess b) s.
(** The stream of VLESS sends its header with the first bytes. *)
(* @src clash-lib/src/proxy/vless/mod.rs ~    async fn inner_proxy_stream~ Handler::inner_proxy_stream *)
Definition vless_inner (o : VlessOptions) (sess : Session) (udp : bool) (s : AnyStream) : res AnyStream :=
  s ← carried_over (vlo_tls o) (vlo_transport o) s;
  u ← ok_or (parse_uuid (vlo_uuid o)) "invalid UUID format";
  d ← socks_clone (destination sess);
  Ok (push (LyVless u d udp) s).
(* @src clash-lib/src/proxy/trojan/mod.rs ~    async fn inner_proxy_stream~ Handler::inner_proxy_stream *)
Definition trojan_inner (o : TrojanOptions) (sess : Session) (udp : bool) (s : AnyStream) : res AnyStream :=
  s ← carried_over (to_tls o) (to_transport o) s;
  over (LyTrojan (request (to_password o) (destination sess) udp)) s.
(** The QUIC clients do not use the connector. *)
(* @src clash-lib/src/proxy/trojan/mod.rs 181 205 Handler::connect_stream_with_connector (stream) *)
Definition trojan_carrier (o : TrojanOptions) (c : RemoteConnector) (sess : Session) : res AnyStream :=
  let opened b := _ ← open_quic b; Ok {| st_base := b; st_layers := [] |} in
  match to_quic_client o, to_tquic_client o with
  | Some q, _ => opened (BQuic q)
  | None, Some _ => opened (BTquic (to_server o) (to_port o) (to_server o) [lit "h3"])
  | None, None => rc_stream c (to_server o) (to_port o) (iface sess) (so_mark sess)
  end.
(* @src clash-lib/src/proxy/socks/outbound/mod.rs ~    async fn inner_connect_stream~ Handler::inner_connect_stream *)
Definition socks_inner (o : SocksOptions) (sess : Session) (s : AnyStream) : res AnyStream :=
  s ← over_opt LyTls (so_tls_client o) s;
  over (LySocks (destination sess) CONNECT (so_user o) (so_password o)) s.

(** ** Handlers *)
(* @src clash-lib/src/proxy/mod.rs ~^impl Display for OutboundType~ OutboundType::fmt *)
Definition proto_display (t : OutboundType) : string :=
  match t with
  | OtShadowsocks => "Shadowsocks" | OtVmess => "Vmess" | OtVless => "Vless" | OtTrojan => "Trojan" | OtWireGuard => "WireGuard"
  | OtTor => "Tor" | OtTuic => "Tuic" | OtSocks5 => "Socks5" | OtHysteria2 => "Hysteria2" | OtSsh => "ssh" | OtShadowQuic => "ShadowQuic"
  | OtUrlTest => "URLTest" | OtSelector => "Selector" | OtRelay => "Relay" | OtLoadBalance => "LoadBalance" | OtSmart => "Smart"
  | OtFallback => "Fallback" | OtDirect => "Direct" | OtReject => "Reject"
  end.
(* @src clash-lib/src/proxy/mod.rs ~    async fn connect_stream_with_connector~ OutboundHandler::connect_stream_with_connector *)
Definition tcp_relay_unsupported {A} (h : PlainHandler) : res A := Err (String.append "tcp relay not supported for " (proto_display (plain_proto h))).
(* @src clash-lib/src/proxy/mod.rs ~    async fn connect_datagram_with_connector~ OutboundHandler::connect_datagram_with_connector *)
Definition udp_relay_unsupported {A} (h : PlainHandler) : res A := Err (String.append "udp relay not supported for " (proto_display (plain_proto h))).

(* @src clash-lib/src/proxy/shadowsocks/outbound/mod.rs ~    async fn connect_stream_with_connector~ Handler::connect_stream_with_connector *)
Definition ss_stream (o : SsOptions) (c : RemoteConnector) (sess : Session) : res AnyStream :=
  s ← rc_stream c (sso_server o) (sso_port o) (iface sess) (so_mark sess);
  ss_proxy_stream o sess s.
(* @src clash-lib/src/proxy/socks/outbound/mod.rs ~    async fn connect_stream_with_connector~ Handler::connect_stream_with_connector *)
Definition socks_stream (o : SocksOptions) (c : RemoteConnector) (sess : Session) : res AnyStream :=
  s ← rc_stream c (so_server o) (so_port o) (iface sess) (so_mark sess);
  socks_inner o sess s.
(* @src clash-lib/src/proxy/trojan/mod.rs ~    async fn connect_stream_with_connector~ Handler::connect_stream_with_connector *)
Definition trojan_stream (o : TrojanOptions) (c : RemoteConnector) (sess : Session) (udp : bool) : res AnyStream :=
  s ← trojan_carrier o c sess;
  trojan_inner o sess udp s.
(* @src clash-lib/src/proxy/vmess/mod.rs ~    async fn connect_stream_with_connector~ Handler::connect_stream_with_connector *)
Definition vmess_stream (o : VmessOptions) (c : RemoteConnector) (sess : Session) (udp : bool) : res AnyStream :=
  s ← rc_stream c (vmo_server o) (vmo_port o) (iface sess) (so_mark sess);
  vmess_inner o sess udp s.
(* @src clash-lib/src/proxy/vless/mod.rs ~    async fn connect_stream_with_connector~ Handler::connect_stream_with_connector *)
Definition vless_stream (o : VlessOptions) (c : RemoteConnector) (sess : Session) (udp : bool) : res AnyStream :=
  s ← rc_stream c (vlo_server o) (vlo_port o) (iface sess) (so_mark sess);
  vless_inner o sess udp s.

(** The stream of a handler over a connector; the handlers that do not
    override the method of the trait refuse. *)
(* @src clash-lib/src/proxy/direct/mod.rs ~    async fn connect_stream_with_connector~ OutboundHandler::connect_stream_with_connector *)
Definition connect_stream_with_connector (h : PlainHandler) (c : RemoteConnector) (sess : Session) : res AnyStream :=
  match h with
  | DirectHandler _ => rc_stream c (socks_host (destination sess)) (socks_port (destination sess)) (iface sess) (so_mark sess)
  | SsHandler o => ss_stream o c sess
  | SocksHandler o => socks_stream o c sess
  | TrojanHandler o => trojan_stream o c sess false
  | VmessHandler o => vmess_stream o c sess false
  | VlessHandler o => vless_stream o c sess false
  | RejectHandler _ | WgHandler _ | TorHandler _ | TuicHandler _ | Hysteria2Handler _ | SshHandler _ | ShadowQuicHandler _ => tcp_relay_unsupported h
  end.

(* @src clash-lib/src/proxy/shadowsocks/outbound/mod.rs ~    async fn connect_datagram_with_connector~ Handler::connect_datagram_with_connector *)
Definition ss_datagram (o : SsOptions) (c : RemoteConnector) (sess : Session) : res AnyDatagram :=
  cfg ← server_config o;
  server ← try_from_host_port (sso_server o) (sso_port o);
  io ← rc_datagram c None server (iface sess) (so_mark sess);
  r ← resolve (sso_server o);
  server_addr ← ok_or r "failed to resolve";
  Ok (DShadowsocks cfg io (sa_new server_addr (sso_port o))).
(* @src clash-lib/src/proxy/socks/outbound/mod.rs ~    async fn connect_datagram_with_connector~ Handler::connect_datagram_with_connector *)
Definition socks_datagram (o : SocksOptions) (c : RemoteConnector) (sess : Session) : res AnyDatagram :=
  s ← rc_stream c (so_server o) (so_port o) (iface sess) (so_mark sess);
  s ← over_opt LyTls (so_tls_client o) s;
  let l := LySocks (destination sess) UDP_ASSOCIATE (so_user o) (so_password o) in
  bind_addr ← associate l s;
  relay ← relay_addr (resolve (so_server o)) bind_addr;
  udp ← new_udp_socket None (iface sess) (so_mark sess) (Some relay);
  Ok (DSocks (push l s) relay udp).
(** The datagrams of VMess, VLESS and Trojan are framed in a stream to the
    session's destination. *)
(* @src clash-lib/src/proxy/trojan/mod.rs ~    async fn connect_datagram_with_connector~ Handler::connect_datagram_with_connector *)
Definition trojan_datagram (o : TrojanOptions) (c : RemoteConnector) (sess : Session) : res AnyDatagram :=
  s ← trojan_stream o c sess true; d ← socks_clone (destination sess); Ok (DTrojan s d).
(* @src clash-lib/src/proxy/vmess/mod.rs ~    async fn connect_datagram_with_connector~ Handler::connect_datagram_with_connector *)
Definition vmess_datagram (o : VmessOptions) (c : RemoteConnector) (sess : Session) : res AnyDatagram :=
  s ← vmess_stream o c sess true; d ← socks_clone (destination sess); Ok (DVmess s d).
(* @src clash-lib/src/proxy/vless/mod.rs ~    async fn connect_datagram_with_connector~ Handler::connect_datagram_with_connector *)
Definition vless_datagram (o : VlessOptions) (c : RemoteConnector) (sess : Session) : res AnyDatagram :=
  s ← vless_stream o c sess true; d ← socks_clone (destination sess); Ok (DVless s d).
(* @src clash-lib/src/proxy/direct/mod.rs ~    async fn connect_datagram_with_connector~ OutboundHandler::connect_datagram_with_connector *)
Definition connect_datagram_with_connector (h : PlainHandler) (c : RemoteConnector) (sess : Session) : res AnyDatagram :=
  match h with
  | DirectHandler _ => d ← socks_clone (destination sess); rc_datagram c None d (iface sess) (so_mark sess)
  | SsHandler o => ss_datagram o c sess
  | SocksHandler o => socks_datagram o c sess
  | TrojanHandler o => trojan_datagram o c sess
  | VmessHandler o => vmess_datagram o c sess
  | VlessHandler o => vless_datagram o c sess
  | RejectHandler _ | WgHandler _ | TorHandler _ | TuicHandler _ | Hysteria2Handler _ | SshHandler _ | ShadowQuicHandler _ => udp_relay_unsupported h
  end.

(** The session a proxy connector opens with its proxy. *)
Definition connector_session (net : Network) (dst : SocksAddr) (ifc : option OutboundInterface) (mark : option Z) : Session :=
  let s := (session_default 0 0).1 in
  {| sess_id := sess_id s; network := net; typ := TIgnore; source := source s; destination := dst; resolved_ip := None; so_mark := mark;
     iface := ifc; asn := None; traffic_stats := None; start_time := 0 |}.
(* @src clash-lib/src/proxy/utils/proxy_connector.rs ~^impl RemoteConnector for ProxyConnector~ ProxyConnector *)
Definition proxy_connector (proxy : PlainHandler) (connector : RemoteConnector) : RemoteConnector := {|
  rc_stream := fun address port ifc mark =>
    connect_stream_with_connector proxy connector (connector_session Tcp (Domain address port) ifc mark);
  rc_datagram := fun _ dst ifc mark =>
    d ← socks_clone dst;
    connect_datagram_with_connector proxy connector (connector_session Udp d ifc mark);
|}.
Fixpoint connector_of (c : Connector PlainHandler) : RemoteConnector :=
  match c with
  | DirectConnector => direct_connector
  | ProxyConnector proxy c => proxy_connector proxy (connector_of c)
  end.

(** [dialer]: the connector registered with the handler, which the handlers
    of [plain_dialer] have. *)
(* @src clash-lib/src/proxy/direct/mod.rs ~    async fn connect_stream\(~ Handler::connect_stream *)
Definition direct_stream (sess : Session) : res AnyStream :=
  remote_ip ← resolved (socks_host (destination sess));
  s ← new_tcp_stream (sa_new remote_ip (socks_port (destination sess))) (iface sess) (so_mark sess);
  Ok {| st_base := BSocket s; st_layers := [] |}.
(* @src clash-lib/src/proxy/direct/mod.rs ~    async fn connect_datagram\(~ Handler::connect_datagram *)
Definition direct_datagram (sess : Session) : res AnyDatagram :=
  let bind_addr := sa_new (match source sess with SV4 _ _ => V4 0 | SV6 _ _ _ _ => V6 0 end) 0 in
  DUdp <$> new_udp_socket (Some bind_addr) (iface sess) (so_mark sess) (family_hint_for_session sess).
(* @src clash-lib/src/proxy/vmess/mod.rs ~    async fn connect_stream\(~ OutboundHandler::connect_stream *)
Definition connect_stream (dialer : option (Connector PlainHandler)) (h : PlainHandler) (sess : Session) : res AnyStream :=
  match h with
  | DirectHandler _ => direct_stream sess
  | RejectHandler _ => Err "REJECT"
  | SsHandler _ | SocksHandler _ | TrojanHandler _ | VmessHandler _ | VlessHandler _ =>
    connect_stream_with_connector h (connector_of (default DirectConnector dialer)) sess
  | WgHandler _ | TorHandler _ | TuicHandler _ | Hysteria2Handler _ | SshHandler _ | ShadowQuicHandler _ =>
    _ ← own_stream h (destination sess); Ok {| st_base := BOwn h (destination sess); st_layers := [] |}
  end.
(* @src clash-lib/src/proxy/vmess/mod.rs ~    async fn connect_datagram\(~ OutboundHandler::connect_datagram *)
Definition connect_datagram (dialer : option (Connector PlainHandler)) (h : PlainHandler) (sess : Session) : res AnyDatagram :=
  match h with
  | DirectHandler _ => direct_datagram sess
  | RejectHandler _ => Err "REJECT"
  | SsHandler _ | SocksHandler _ | TrojanHandler _ | VmessHandler _ | VlessHandler _ =>
    connect_datagram_with_connector h (connector_of (default DirectConnector dialer)) sess
  | TorHandler _ => Err "Tor outbound handler does not support UDP"
  | SshHandler _ => Err "ssh udp is not implemented yet"
  | WgHandler _ | TuicHandler _ | Hysteria2Handler _ | ShadowQuicHandler _ =>
    _ ← own_datagram h (destination sess); Ok (DOwn h (destination sess))
  end.

(* @src clash-lib/src/proxy/vmess/mod.rs ~    async fn support_udp~ OutboundHandler::support_udp *)
Definition plain_support_udp (h : PlainHandler) : bool :=
  match h with
  | DirectHandler _ | TuicHandler _ | ShadowQuicHandler _ => true
  | RejectHandler _ | TorHandler _ | SshHandler _ => false
  | SsHandler o => sso_udp o
  | SocksHandler o => so_udp o
  | TrojanHandler o => to_udp o
  | VmessHandler o => vmo_udp o
  | VlessHandler o => vlo_udp o
  | WgHandler o => wgo_udp o
  | Hysteria2Handler o => hysteria_udp o
  end.
(* @src clash-lib/src/proxy/vmess/mod.rs ~    async fn support_connector~ OutboundHandler::support_connector *)
Definition plain_support_connector (h : PlainHandler) : ConnectorType :=
  match h with
  | RejectHandler _ | SsHandler _ | SocksHandler _ | TrojanHandler _ | VmessHandler _ | VlessHandler _ => CtAll
  | DirectHandler _ | Hysteria2Handler _ | SshHandler _ => CtTcp
  | WgHandler _ | TorHandler _ | TuicHandler _ | ShadowQuicHandler _ => CtNone
  end.
(** The names appended to the chain of a new stream: Hysteria2 appends
    none. *)
(* @src clash-lib/src/proxy/hysteria2/mod.rs ~    async fn connect_stream\(~ Handler::connect_stream (chain) *)
Definition stream_chain (h : PlainHandler) : Chain := match h with Hysteria2Handler _ => [] | _ => [plain_name h] end.

(** What the groups use of the handlers; [dialers] are the registered
    connectors. *)
Definition plain_outbound (dialers : PlainHandler -> option (Connector PlainHandler)) : Outbound PlainHandler := {|
  ob_name := plain_name;
  ob_support_udp := plain_support_udp;
  ob_support_connector := plain_support_connector;
  ob_connect_stream := fun h sess => _ ← connect_stream (dialers h) h sess; Ok (stream_chain h);
  ob_connect_datagram := fun h sess => _ ← connect_datagram (dialers h) h sess; Ok [plain_name h];
  ob_stream_with_connector := fun h sess c => _ ← connect_stream_with_connector h (connector_of c) sess; Ok [plain_name h];
  ob_datagram_with_connector := fun h sess c => _ ← connect_datagram_with_connector h (connector_of c) sess; Ok [plain_name h];
|}.

(** ** The layers of a path

    [hop_layers h dst] are the layers a handler adds to reach [dst],
    [entry] the server that is dialed for a path, [path_layers] the layers
    of all its hops: each hop is asked for the server of the next. *)
Definition server_of (h : PlainHandler) : option (str * Z) :=
  match h with
  | SsHandler o => Some (sso_server o, sso_port o)
  | SocksHandler o => Some (so_server o, so_port o)
  | TrojanHandler o =>
    match to_quic_client o, to_tquic_client o with None, None => Some (to_server o, to_port o) | _, _ => None end
  | VmessHandler o => Some (vmo_server o, vmo_port o)
  | VlessHandler o => Some (vlo_server o, vlo_port o)
  | _ => None
  end.
Definition opt_layer {A} (f : A -> Layer) (o : option A) : list Layer := match o with Some a => [f a] | None => [] end.
Definition plugin_layers (p : SsPlugin) : list Layer :=
  match p with
  | PlV2ray c => opt_layer LyTls (vw_tls_client c) ++ [LyTransport (TrWs (vw_ws_client c))]
  | _ => [LyPlugin p]
  end.
Definition hop_layers (h : PlainHandler) (dst : SocksAddr) : res (list Layer) :=
  match h with
  | SsHandler o =>
    cfg ← server_config o;
    Ok (default [] (plugin_layers <$> sso_plugin o) ++ [LyShadowsocks cfg (socks_host dst) (socks_port dst)])
  | SocksHandler o => Ok (opt_layer LyTls (so_tls_client o) ++ [LySocks dst CONNECT (so_user o) (so_password o)])
  | TrojanHandler o =>
    Ok (opt_layer LyTls (to_tls o) ++ opt_layer LyTransport (to_transport o) ++ [LyTrojan (request (to_password o) dst false)])
  | VmessHandler o =>
    b ← builder_new fast_aes (parse_uuid (vmo_uuid o)) (vmo_alter_id o) (vmo_security o) false dst;
    Ok (opt_layer LyTls (vmo_tls o) ++ opt_layer LyTransport (vmo_transport o) ++ [LyVmess b])
  | VlessHandler o =>
    u ← ok_or (parse_uuid (vlo_uuid o)) "invalid UUID format";
    d ← socks_clone dst;
    Ok (opt_layer LyTls (vlo_tls o) ++ opt_layer LyTransport (vlo_transport o) ++ [LyVless u d false])
  | _ => tcp_relay_unsupported h
  end.
Definition entry (hs : list PlainHandler) (dst : str * Z) : str * Z := default dst (head hs ≫= server_of).
Fixpoint path_layers (hs : list PlainHandler) (dst : SocksAddr) : res (list Layer) :=
  match hs with
  | [] => Ok []
  | h :: rest =>
    let next := match head rest ≫= server_of with Some (server, port) => Domain server port | None => dst end in
    ls ← hop_layers h next;
    ls' ← path_layers rest dst;
    Ok (ls ++ ls')
  end.
(** The handlers that put layers over the stream of their connector. *)
Definition carried (h : PlainHandler) : Prop := is_Some (server_of h).
End dial.

(** * Theorems *)
Section dial_spec.
Context {CV : ConverterLib} {HO : Host} {UL : UnicodeLib} {CL : CryptoLib}.

(** ** Sockets *)
Lemma call_ok o s s' : call o s = Ok s' -> s' = {| sk_domain := sk_domain s; sk_type := sk_type s; sk_ops := sk_ops s ++ [o] |}.
Proof. unfold call. intros (u & _ & [= <-])%res_bind_ok. done. Qed.
Definition opt_op {A} (f : A -> SockOp) (o : option A) : list SockOp := match o with Some a => [f a] | None => [] end.
Definition device_of (i : OutboundInterface) : SockOp := BindDevice (oi_name i).
(** The socket of a connection. *)
Definition tcp_socket (endpoint : SocketAddr) (ifc : option OutboundInterface) (mark : option Z) : Sock := {|
  sk_domain := domain_for endpoint; sk_type := STREAM;
  sk_ops := opt_op device_of ifc ++ opt_op SetMark mark ++ [KeepAlive; NoDelay; NonBlocking; ConnectTo endpoint] |}.
Ltac calls := repeat match goal with
  | H : call _ _ = Ok _ |- _ => apply call_ok in H; subst
  | H : res_bind _ _ = Ok _ |- _ => apply res_bind_ok in H as (? & ? & ?)
  | H : mbind _ _ = Ok _ |- _ => apply res_bind_ok in H as (? & ? & ?)
  | H : Ok _ = Ok _ |- _ => injection H as <-
  end.
Lemma new_tcp_stream_ok endpoint ifc mark s : new_tcp_stream endpoint ifc mark = Ok s -> s = tcp_socket endpoint ifc mark.
Proof.
  unfold new_tcp_stream, socket_new, must_bind_socket_on_interface. intros H. calls. unfold tcp_socket.
  destruct ifc, mark; cbn [call_opt] in *; calls; done.
Qed.

(** ** Layers *)
Lemma over_ok l s s' : over l s = Ok s' -> s' = push l s.
Proof. unfold over. by intros (_ & _ & [= <-])%res_bind_ok. Qed.
Lemma push_base l s : st_base (push l s) = st_base s. Proof. done. Qed.
(** [s'] is [s] with the layers [ls] over it. *)
Definition above (ls : list Layer) (s s' : AnyStream) : Prop := st_base s' = st_base s /\ st_layers s' = st_layers s ++ ls.
Lemma above_nil s : above [] s s. Proof. split; [done|by rewrite app_nil_r]. Qed.
Lemma above_push l s : above [l] s (push l s). Proof. done. Qed.
Lemma above_app ls1 ls2 s1 s2 s3 : above ls1 s1 s2 -> above ls2 s2 s3 -> above (ls1 ++ ls2) s1 s3.
Proof. intros [B1 L1] [B2 L2]. split; [congruence|]. rewrite L2, L1. by rewrite <- app_assoc. Qed.
Lemma over_above l s s' : over l s = Ok s' -> above [l] s s'.
Proof. by intros ->%over_ok. Qed.
Lemma over_opt_above {A} (f : A -> Layer) o s s' : over_opt f o s = Ok s' -> above (opt_layer f o) s s'.
Proof. destruct o; cbn; [apply over_above|]. intros [= <-]. apply above_nil. Qed.
Lemma carried_over_above tls tr s s' : carried_over tls tr s = Ok s' -> above (opt_layer LyTls tls ++ opt_layer LyTransport tr) s s'.
Proof. intros (s1 & H1 & H2)%res_bind_ok. eapply above_app; by apply over_opt_above. Qed.
Lemma plugin_above p s s' : plugin_stream p s = Ok s' -> above (plugin_layers p) s s'.
Proof.
  destruct p; cbn; try apply over_above. intros (s1 & H1 & H2)%res_bind_ok. eapply above_app; [by apply over_opt_above|by apply over_above].
Qed.

(** ** One hop *)
(** A handler that is carried by its connector puts its layers over the
    stream to its server. *)
Lemma hop_spec h c sess s : carried h -> connect_stream_with_connector h c sess = Ok s ->
  exists server port s0 ls, server_of h = Some (server, port) /\ rc_stream c server port (iface sess) (so_mark sess) = Ok s0 /\
    hop_layers h (destination sess) = Ok ls /\ above ls s0 s.
Proof.
  intros [[server port] Hs]. exists server, port. revert H. destruct h as [| |o|o|o|o|o| | | | | |]; try done; cbn [server_of connect_stream_with_connector hop_layers] in *.
  - injection Hs as <- <-. intros (s0 & H0 & (s1 & H1 & (cfg & H2 & [= <-])%res_bind_ok)%res_bind_ok)%res_bind_ok.
    exists s0. eexists. split_and!; [done..|by rewrite H2|]. eapply above_app; [|apply above_push].
    destruct (sso_plugin o); [by apply plugin_above|]. injection H1 as <-. apply above_nil.
  - injection Hs as <- <-. intros (s0 & H0 & (s1 & H1 & H2)%res_bind_ok)%res_bind_ok. exists s0. eexists. split_and!; [done..|].
    eapply above_app; [by apply over_opt_above|by apply over_above].
  - unfold trojan_stream, trojan_carrier. destruct (to_quic_client o); [done|]. destruct (to_tquic_client o); [done|]. injection Hs as <- <-.
    intros (s0 & H0 & (s1 & H1 & H2)%res_bind_ok)%res_bind_ok. exists s0. eexists. split_and!; [done..|].
    rewrite app_assoc. eapply above_app; [by apply carried_over_above|by apply over_above].
  - injection Hs as <- <-. intros (s0 & H0 & (s1 & H1 & (b & Hb & H2)%res_bind_ok)%res_bind_ok)%res_bind_ok. exists s0. eexists. split_and!; [done..|by rewrite Hb|].
    rewrite app_assoc. eapply above_app; [by apply carried_over_above|by apply over_above].
  - injection Hs as <- <-. intros (s0 & H0 & (s1 & H1 & (u & Hu & (d & Hd & [= <-])%res_bind_ok)%res_bind_ok)%res_bind_ok)%res_bind_ok.
    exists s0. eexists. split_and!; [done..|by rewrite Hu; cbn; rewrite Hd|].
    rewrite app_assoc. eapply above_app; [by apply carried_over_above|apply above_push].
Qed.

(** ** Paths *)
Lemma relay_connector_snoc (hs : list PlainHandler) p : relay_connector (hs ++ [p]) = ProxyConnector p (relay_connector hs).
Proof. unfold relay_connector. by rewrite foldl_app. Qed.
Lemma entry_snoc hs p server d : Forall carried hs -> server_of p = Some server -> entry (hs ++ [p]) d = entry hs server.
Proof. intros Hc Hs. destruct Hc as [|h hs [x Hx] _]; unfold entry; cbn; [by rewrite Hs|by rewrite Hx]. Qed.
Lemma entry_first hs last sv pt : Forall carried hs -> server_of last = Some (sv, pt) ->
  exists server port, server_of (default last (head hs)) = Some (server, port) /\ entry hs (sv, pt) = (server, port).
Proof.
  intros Hc Hs. destruct Hc as [|h hs [[server port] Hx] _]; [by eauto|]. exists server, port. split; [done|]. unfold entry. cbn. by rewrite Hx.
Qed.
Lemma path_layers_snoc hs p server port dst : Forall carried hs -> server_of p = Some (server, port) ->
  path_layers (hs ++ [p]) dst = (ls ← path_layers hs (Domain server port); ls' ← hop_layers p dst; Ok (ls ++ ls')).
Proof.
  intros Hc Hp. induction Hc as [|h hs _ Hhs IH]; cbn [app path_layers].
  - cbn. destruct (hop_layers p dst); cbn; [by rewrite app_nil_r|done..].
  - rewrite IH. destruct hs as [|h2 hs]; cbn [app head mbind option_bind].
    + rewrite Hp. destruct (hop_layers h _) as [l1| |]; [|done..]. cbn. destruct (hop_layers p dst); [|done..]. cbn. by rewrite app_nil_r.
    + apply Forall_cons in Hhs as [[[s2 p2] H2] _]. rewrite H2.
      destruct (hop_layers h _) as [l1| |]; [|done..]. cbn [mbind res_mbind res_bind].
      destruct (path_layers (h2 :: hs) _) as [l2| |]; [|done..]. cbn [mbind res_mbind res_bind].
      destruct (hop_layers p dst); [|done..]. cbn. by rewrite app_assoc.
Qed.

Lemma connector_path hs : Forall carried hs -> forall addr port ifc mark s,
  rc_stream (connector_of (relay_connector hs)) addr port ifc mark = Ok s ->
  exists ip, resolve (entry hs (addr, port)).1 = Ok (Some ip) /\ path_layers hs (Domain addr port) = Ok (st_layers s) /\
    st_base s = BSocket (tcp_socket (sa_new ip (entry hs (addr, port)).2) ifc mark).
Proof.
  induction hs as [|p hs IH] using rev_ind; intros Hc addr port ifc mark s.
  - cbn. intros (ip & (r & Hr & Hip)%res_bind_ok & (sk & Hsk & [= <-])%res_bind_ok)%res_bind_ok. apply new_tcp_stream_ok in Hsk as ->.
    exists ip. split_and!; [|done..]. rewrite Hr. destruct r; cbn in Hip; [|done]. by injection Hip as ->.
  - apply Forall_app in Hc as [Hc [Hp _]%Forall_cons]. rewrite relay_connector_snoc. cbn [connector_of proxy_connector rc_stream]. intros H.
    destruct (hop_spec _ _ _ _ Hp H) as (sv & pt & s0 & ls & Hs & H0 & Hl & B & L). cbn [iface so_mark destination connector_session] in H0, Hl.
    destruct (IH Hc _ _ _ _ _ H0) as (ip & Hr & Hpl & Hb). exists ip. rewrite (entry_snoc _ _ _ _ Hc Hs), (path_layers_snoc _ _ _ _ _ Hc Hs).
    split_and!; [done| |by rewrite B]. rewrite Hpl. cbn. by rewrite Hl, L.
Qed.

(** A connector that reaches the server is used in no other way. *)
Lemma hop_ext h c c' sess server port : server_of h = Some (server, port) ->
  rc_stream c server port (iface sess) (so_mark sess) = rc_stream c' server port (iface sess) (so_mark sess) ->
  connect_stream_with_connector h c sess = connect_stream_with_connector h c' sess.
Proof.
  intros Hs E. destruct h as [| |o|o|o|o|o| | | | | |]; try done; cbn [server_of connect_stream_with_connector] in *.
  3: { unfold trojan_stream, trojan_carrier. destruct (to_quic_client o); [done|]. destruct (to_tquic_client o); [done|].
       injection Hs as <- <-. by rewrite E. }
  all: injection Hs as <- <-.
  - unfold ss_stream. by rewrite E.
  - unfold socks_stream. by rewrite E.
  - unfold vmess_stream. by rewrite E.
  - unfold vless_stream. by rewrite E.
Qed.

(** ** What the connection needs *)
Record all_up : Prop := {
  up_socket : forall d t, sys_socket d t = Ok tt;
  up_call : forall o s, sys_call o s = Ok tt;
  up_handshake : forall l s, handshake l s = Ok tt;
}.
Lemma up_over l s : all_up -> over l s = Ok (push l s).
Proof. intros U. unfold over. by rewrite up_handshake. Qed.
Lemma up_over_opt {A} (f : A -> Layer) o s : all_up -> exists s', over_opt f o s = Ok s'.
Proof. intros U. destruct o; cbn; [rewrite up_over by done|]; eauto. Qed.
Lemma up_carried tls tr s : all_up -> exists s', carried_over tls tr s = Ok s'.
Proof. intros U. unfold carried_over. destruct (up_over_opt LyTls tls s U) as [s1 ->]. apply (up_over_opt LyTransport tr s1 U). Qed.
Lemma up_plugin p s : all_up -> exists s', plugin_stream p s = Ok s'.
Proof.
  intros U. destruct p; cbn; rewrite ?up_over by done; eauto. destruct (up_over_opt LyTls (vw_tls_client c) s U) as [s1 ->]. cbn.
  rewrite up_over by done. eauto.
Qed.
Lemma up_new_tcp endpoint ifc mark : all_up -> exists s, new_tcp_stream endpoint ifc mark = Ok s.
Proof.
  intros U. unfold new_tcp_stream, socket_new, must_bind_socket_on_interface, call_opt, call. rewrite up_socket by done. rstep.
  destruct ifc, mark; rewrite ?up_call by done; rstep; repeat (rewrite up_call by done; rstep); eauto.
Qed.
Lemma hop_up h c sess server port s0 ls : all_up -> server_of h = Some (server, port) ->
  rc_stream c server port (iface sess) (so_mark sess) = Ok s0 -> hop_layers h (destination sess) = Ok ls ->
  exists s, connect_stream_with_connector h c sess = Ok s.
Proof.
  intros U Hs H0 Hl. destruct h as [| |o|o|o|o|o| | | | | |]; try done; cbn [server_of connect_stream_with_connector hop_layers] in *.
  3: { unfold trojan_stream, trojan_carrier, trojan_inner. destruct (to_quic_client o); [done|]. destruct (to_tquic_client o); [done|].
       injection Hs as <- <-. rewrite H0. rstep. destruct (up_carried (to_tls o) (to_transport o) s0 U) as [s1 ->]. rstep. rewrite up_over by done. eauto. }
  all: injection Hs as <- <-.
  - unfold ss_stream, ss_proxy_stream. rewrite H0. rstep. apply res_bind_ok in Hl as (cfg & -> & _).
    destruct (sso_plugin o) as [p|]; [destruct (up_plugin p s0 U) as [s1 ->]|]; rstep; eauto.
  - unfold socks_stream, socks_inner. rewrite H0. rstep. destruct (up_over_opt LyTls (so_tls_client o) s0 U) as [s1 ->]. rstep. rewrite up_over by done. eauto.
  - unfold vmess_stream, vmess_inner. rewrite H0. rstep. destruct (up_carried (vmo_tls o) (vmo_transport o) s0 U) as [s1 ->]. rstep.
    apply res_bind_ok in Hl as (b & -> & _). rstep. rewrite up_over by done. eauto.
  - unfold vless_stream, vless_inner. rewrite H0. rstep. destruct (up_carried (vlo_tls o) (vlo_transport o) s0 U) as [s1 ->]. rstep.
    apply res_bind_ok in Hl as (u & -> & (d & -> & _)%res_bind_ok). rstep. eauto.
Qed.
Lemma connector_up hs ip ls : all_up -> Forall carried hs -> forall addr port ifc mark, resolve (entry hs (addr, port)).1 = Ok (Some ip) ->
  path_layers hs (Domain addr port) = Ok ls -> exists s, rc_stream (connector_of (relay_connector hs)) addr port ifc mark = Ok s.
Proof.
  intros U. revert ls. induction hs as [|p hs IH] using rev_ind; intros ls Hc addr port ifc mark Hr Hp.
  - cbn in *. unfold resolved. rewrite Hr. cbn. destruct (up_new_tcp (sa_new ip port) ifc mark U) as [s ->]. cbn. eauto.
  - apply Forall_app in Hc as [Hc [[[sv pt] Hs] _]%Forall_cons]. rewrite relay_connector_snoc. rewrite (entry_snoc _ _ _ _ Hc Hs) in Hr.
    rewrite (path_layers_snoc _ _ _ _ _ Hc Hs) in Hp. apply res_bind_ok in Hp as (l1 & Hp & (l2 & Hl & _)%res_bind_ok).
    destruct (IH _ Hc sv pt ifc mark Hr Hp) as [s0 H0]. by eapply hop_up.
Qed.
(** When the first server resolves, the configuration of every hop is usable
    and neither the system nor a peer refuses, the relay connects. *)
Lemma relay_connects hs last sess server port ip ls : all_up -> Forall carried (hs ++ [last]) ->
  server_of (default last (head hs)) = Some (server, port) -> resolve server = Ok (Some ip) ->
  path_layers (hs ++ [last]) (destination sess) = Ok ls ->
  exists s, connect_stream_with_connector last (connector_of (relay_connector hs)) sess = Ok s.
Proof.
  intros U [Hc [[[sv pt] Hs] _]%Forall_cons]%Forall_app H1 Hr Hp. rewrite (path_layers_snoc _ _ _ _ _ Hc Hs) in Hp.
  apply res_bind_ok in Hp as (l1 & Hp & (l2 & Hl & _)%res_bind_ok).
  destruct (entry_first hs last sv pt Hc Hs) as (server' & port' & H1' & He). rewrite H1 in H1'. injection H1' as <- <-.
  destruct (connector_up hs ip l1 U Hc sv pt (iface sess) (so_mark sess)) as [s0 H0]; [by rewrite He|done|]. by eapply hop_up.
Qed.
(** ** Datagram sockets *)
(** The family and the calls of a datagram socket that was made. *)
Definition udp_family (src : option SocketAddr) (ifc : option OutboundInterface) (hint : option SocketAddr) : Dom :=
  match hint, src with
  | Some hint, _ => domain_for hint
  | None, Some (SV6 _ _ _ _) => IPV6
  | None, _ => match ifc ≫= oi_addr_v6 with Some _ => IPV6 | None => IPV4 end
  end.
Definition binding (src : option SocketAddr) (ifc : option OutboundInterface) : list SockOp :=
  match ifc with Some i => [device_of i] | None => opt_op Bind src end.
Lemma call_opt_ok {A} (f : A -> SockOp) o s s' : call_opt f o s = Ok s' ->
  sk_domain s' = sk_domain s /\ sk_type s' = sk_type s /\ sk_ops s' = sk_ops s ++ opt_op f o.
Proof. destruct o; cbn; [by intros ->%call_ok|]. intros [= <-]. by rewrite app_nil_r. Qed.
Lemma udp_socket_of_ok src ifc hint s : udp_socket_of src ifc hint = Ok s ->
  sk_domain s = udp_family src ifc hint /\ (sk_ops s = [] \/ sk_ops s = [V6Only false]).
Proof.
  assert (forall d t s, socket_new d t = Ok s -> sk_domain s = d /\ sk_ops s = []) as Hn.
  { unfold socket_new. intros d t s' (u & _ & [= <-])%res_bind_ok. done. }
  unfold udp_socket_of, udp_family. destruct hint as [hint|].
  { intros [-> ->]%Hn. auto. }
  destruct src as [[ip p|ip p f sc]|]; [|intros ([s0 b] & H & [= <-])%res_bind_ok|]; [destruct ifc as [i|]; intros [-> ->]%Hn; cbn; auto; by destruct (oi_addr_v6 i); auto| |].
  2: destruct ifc as [i|]; intros [-> ->]%Hn; cbn; auto; by destruct (oi_addr_v6 i); auto.
  unfold try_create_dualstack_socket in H. apply res_bind_ok in H as (s1 & [Hd Ho]%Hn & H). destruct (bool_decide _ && _) eqn:E.
  - destruct (call _ s1) eqn:Ec; try done; injection H as <- <-; [apply call_ok in Ec as ->; cbn; rewrite Ho|]; auto.
  - injection H as <- <-. auto.
Qed.
Lemma new_udp_socket_ok src ifc mark hint s : new_udp_socket src ifc mark hint = Ok s ->
  sk_domain s = udp_family src ifc hint /\
  exists pre, (pre = [] \/ pre = [V6Only false]) /\ sk_ops s = pre ++ binding src ifc ++ opt_op SetMark mark ++ [Broadcast; NonBlocking].
Proof.
  unfold new_udp_socket. intros (s0 & [Hd Hp]%udp_socket_of_ok & (s1 & H1 & (s2 & (Hd2 & _ & Ho2)%call_opt_ok & (s3 & ->%call_ok & ->%call_ok)%res_bind_ok)%res_bind_ok)%res_bind_ok)%res_bind_ok.
  assert (sk_domain s1 = sk_domain s0 /\ sk_ops s1 = sk_ops s0 ++ binding src ifc) as [Hd1 Ho1].
  { unfold binding, must_bind_socket_on_interface in *. destruct ifc; [by apply call_ok in H1 as ->|]. by apply call_opt_ok in H1 as (? & _ & ?). }
  cbn. split; [congruence|]. exists (sk_ops s0). split; [done|]. rewrite Ho2, Ho1. by rewrite <- !app_assoc.
Qed.

(** The system refuses to bind a socket to an address of the other family. *)
Definition bind_same_family : Prop := forall a s, sys_call (Bind a) s = Ok tt -> domain_for a = sk_domain s.
(** A direct datagram session from an IPv4 client to an IPv6 destination is
    refused: the socket is of the destination's family and is bound to the
    unspecified address of the client's. *)
Lemma direct_mixed_udp_refused dialer name sess ip port hint : bind_same_family -> iface sess = None -> source sess = SV4 ip port ->
  family_hint_for_session sess = Some hint -> domain_for hint = IPV6 -> forall d, connect_datagram dialer (DirectHandler name) sess <> Ok d.
Proof.
  intros B Hi Hs Hh Hd d. cbn. unfold direct_datagram. rewrite Hi, Hs, Hh. unfold new_udp_socket. intros (sk & (s0 & [H0 _]%udp_socket_of_ok & (s1 & H1 & _)%res_bind_ok)%res_bind_ok & _)%res_bind_ok.
  cbn in H1. unfold call in H1. apply res_bind_ok in H1 as ([] & E%B & _). cbn in E, H0. congruence.
Qed.

(** ** What does not go through the connector *)
(** A Trojan proxy over QUIC reaches its server by itself: in a relay the
    proxies before it carry nothing. *)
Lemma trojan_quic_bypasses o q c c' sess : to_quic_client o = Some q ->
  connect_stream_with_connector (TrojanHandler o) c sess = connect_stream_with_connector (TrojanHandler o) c' sess.
Proof. intros Hq. cbn. unfold trojan_stream, trojan_carrier. by rewrite Hq. Qed.
(** The datagrams of a SOCKS proxy leave on a socket of their own, whatever
    the connector; only the association goes through it. *)
Lemma socks_udp_bypasses o c sess d : connect_datagram_with_connector (SocksHandler o) c sess = Ok d ->
  exists control relay s, d = DSocks control relay s /\ new_udp_socket None (iface sess) (so_mark sess) (Some relay) = Ok s.
Proof.
  cbn. unfold socks_datagram. intros (s0 & _ & (s1 & _ & (b & _ & (relay & _ & (s & Hs & [= <-])%res_bind_ok)%res_bind_ok)%res_bind_ok)%res_bind_ok)%res_bind_ok. eauto.
Qed.
(** Some handlers say that they can be relayed over and refuse it. *)
Lemma claims_tcp_refuses o c sess : plain_support_connector (SshHandler o) = CtTcp /\
  connect_stream_with_connector (SshHandler o) c sess = Err "tcp relay not supported for ssh".
Proof. done. Qed.
(** A registered dialer is a relay of one: the dialer's own dialer is not
    used. *)
Lemma dialer_is_relay o h sess : carried h -> connect_stream (Some (ProxyConnector o DirectConnector)) h sess =
  connect_stream_with_connector h (connector_of (relay_connector [o])) sess.
Proof. intros [x Hx]. by destruct h. Qed.
End dial_spec.

(** ** Names *)
(** The same host with another resolver. *)
Definition with_resolve {CV : ConverterLib} (r : str -> res (option IpAddr)) (HO : Host) : Host := {|
  resolve := r; resolve_v6 := resolve_v6; sys_socket := sys_socket; sys_call := sys_call; handshake := handshake; associate := associate;
  open_quic := open_quic; own_stream := own_stream; own_datagram := own_datagram; hysteria_udp := hysteria_udp; ss_config_ok := ss_config_ok;
  parse_uuid := parse_uuid; fast_aes := fast_aes |}.
Section names.
Context {CV : ConverterLib} (HO : Host) {UL : UnicodeLib} {CL : CryptoLib}.
Lemma hop_resolves_nothing r h c sess :
  @connect_stream_with_connector CV (with_resolve r HO) UL CL h c sess = @connect_stream_with_connector CV HO UL CL h c sess.
Proof. by destruct h. Qed.
(** Of all the names of a relay, those of the later servers and of the
    destination included, only the first server's is looked up: the
    connection does not depend on what the resolver says of the others. *)
Lemma relay_one_lookup r hs last sess server port : Forall carried (hs ++ [last]) ->
  server_of (default last (head hs)) = Some (server, port) -> r server = resolve server ->
  @connect_stream_with_connector CV (with_resolve r HO) UL CL last (@connector_of CV (with_resolve r HO) UL CL (relay_connector hs)) sess =
  @connect_stream_with_connector CV HO UL CL last (@connector_of CV HO UL CL (relay_connector hs)) sess.
Proof.
  intros [Hc [[[sv pt] Hs] _]%Forall_cons]%Forall_app H1 Hr. rewrite hop_resolves_nothing. apply (hop_ext _ _ _ _ _ _ Hs).
  destruct (entry_first hs last sv pt Hc Hs) as (server' & port' & H1' & He'). rewrite H1 in H1'. injection H1' as <- <-.
  assert (r (entry hs (sv, pt)).1 = resolve (entry hs (sv, pt)).1) as He by by rewrite He'. clear He'.
  clear Hs H1 Hr. generalize dependent sv. revert pt. generalize (iface sess) (so_mark sess). intros ifc mark.
  induction hs as [|p hs IH] using rev_ind; intros pt sv He.
  - cbn in *. unfold resolved. by rewrite He.
  - apply Forall_app in Hc as [Hc [[[sv' pt'] Hs] _]%Forall_cons]. rewrite (entry_snoc _ _ _ _ Hc Hs) in He. rewrite relay_connector_snoc.
    cbn [connector_of proxy_connector rc_stream]. rewrite hop_resolves_nothing. apply (hop_ext _ _ _ _ _ _ Hs). by apply IH.
Qed.

(** C33: the connection of a relay of Shadowsocks, SOCKS5, Trojan (not over
    QUIC), VMess and VLESS proxies.  When it is made, it is an onion: a TCP
    connection to the server of the first proxy, with the interface and the
    mark of the session; over it the layers of the first proxy, asked for the
    server of the second, and so on; outermost the layers of the last proxy,
    asked for the destination of the session.  Of all the names, the
    destination included, only the first server's is looked up: any other
    resolver that agrees on it gives the same connection.  (A Trojan proxy
    over QUIC reaches its server by itself, see [trojan_quic_bypasses], and a
    direct hop adds nothing.) *)
Theorem relay_onion (hs : list PlainHandler) (last : PlainHandler) (sess : Session) (s : AnyStream) :
  Forall carried (hs ++ [last]) ->
  connect_stream_with_connector last (connector_of (relay_connector hs)) sess = Ok s ->
  exists server port ip, server_of (default last (head hs)) = Some (server, port) /\ resolve server = Ok (Some ip) /\
    st_base s = BSocket (tcp_socket (sa_new ip port) (iface sess) (so_mark sess)) /\
    path_layers (hs ++ [last]) (destination sess) = Ok (st_layers s) /\
    forall r, r server = resolve server ->
      @connect_stream_with_connector CV (with_resolve r HO) UL CL last (@connector_of CV (with_resolve r HO) UL CL (relay_connector hs)) sess = Ok s.
Proof.
  intros Hall H. pose proof Hall as [Hc [Hl _]%Forall_cons]%Forall_app. destruct (hop_spec _ _ _ _ Hl H) as (sv & pt & s0 & ls & Hs & H0 & Hls & B & L).
  destruct (connector_path _ Hc _ _ _ _ _ H0) as (ip & Hr & Hpl & Hb). destruct (entry_first hs last sv pt Hc Hs) as (server & port & H1 & He).
  rewrite He in Hr, Hb. exists server, port, ip. rewrite (path_layers_snoc _ _ _ _ _ Hc Hs), Hpl. cbn. rewrite Hls. split_and!; [done..|by rewrite B|by cbn; rewrite L|].
  intros r Hrs. by rewrite (relay_one_lookup r hs last sess server port Hall H1 Hrs).
Qed.
End names.

(** ** A relay of two proxies *)
#[local] Instance plain_converters : ConverterLib := {|
  SQCongestionControl := unit; sq_default_alpn := []; sq_default_initial_mtu := 1300; sq_default_congestion_control := tt;
  sq_default_zero_rtt := false; sq_default_over_stream := false; sq_default_min_mtu := 1290; sq_default_keep_alive_interval := 0;
  TotpAlgorithm := unit; TOTP := unit; secret_to_bytes _ := None; totp_from_rfc6238 _ := None; totp_new _ _ _ _ _ := None;
  path_and_query s := Some s; tquic_new _ := false |}.
#[local] Instance lower_ascii : UnicodeLib := {| to_lowercase := to_ascii_lowercase; to_uppercase := to_ascii_uppercase |}.
(** A host that knows one name and refuses to bind to the other family. *)
Definition demo_host : Host := {|
  resolve name := Ok (if bool_decide (name = lit "first.example") then Some (V4 0x01020304) else None);
  resolve_v6 _ := Ok None;
  sys_socket _ _ := Ok tt;
  sys_call o s := match o with Bind a => if bool_decide (domain_for a = sk_domain s) then Ok tt else Err "invalid argument" | _ => Ok tt end;
  handshake _ _ := Ok tt; associate _ _ := Err "refused"; open_quic _ := Ok tt; own_stream _ _ := Ok tt; own_datagram _ _ := Ok tt;
  hysteria_udp _ := true; ss_config_ok _ _ := true; parse_uuid _ := None; fast_aes := true |}.
Lemma demo_binds : @bind_same_family _ demo_host.
Proof. intros a s. cbn. by case_bool_decide. Qed.
Definition demo_first : PlainHandler := SocksHandler {|
  so_name := lit "a"; so_connector := None; so_server := lit "first.example"; so_port := 1080; so_user := None; so_password := None; so_udp := true;
  so_tls_client := Some {| tc_skip_cert_verify := false; tc_sni := lit "first.example"; tc_alpn := None; tc_expected_alpn := None |} |}.
Definition demo_last : PlainHandler := SsHandler {|
  sso_name := lit "b"; sso_connector := None; sso_server := lit "second.example"; sso_port := 8388; sso_password := lit "pw";
  sso_cipher := lit "aes-128-gcm"; sso_plugin := None; sso_udp := true |}.
Definition demo_session : Session := connector_session Tcp (Domain (lit "www.example") 443) None (Some 7).
Definition demo_onion : AnyStream := {|
  st_base := BSocket (tcp_socket (SV4 0x01020304 1080) None (Some 7));
  st_layers := [
    LyTls {| tc_skip_cert_verify := false; tc_sni := lit "first.example"; tc_alpn := None; tc_expected_alpn := None |};
    LySocks (Domain (lit "second.example") 8388) CONNECT None None;
    LyShadowsocks {| sc_server := (lit "second.example", 8388); sc_password := lit "pw"; sc_method := AES_128_GCM |} (lit "www.example") 443] |}.
Lemma relay_onion_witness : exists server port ip,
  server_of demo_first = Some (server, port) /\ @resolve _ demo_host server = Ok (Some ip) /\
  st_base demo_onion = BSocket (tcp_socket (sa_new ip port) None (Some 7)) /\
  @path_layers _ demo_host _ _ [demo_first; demo_last] (Domain (lit "www.example") 443) = Ok (st_layers demo_onion) /\
  forall r, r server = @resolve _ demo_host server ->
    @connect_stream_with_connector _ (with_resolve r demo_host) _ _ demo_last
      (@connector_of _ (with_resolve r demo_host) _ _ (relay_connector [demo_first])) demo_session = Ok demo_onion.
Proof.
  apply (@relay_onion _ demo_host _ _ [demo_first] demo_last demo_session demo_onion).
  - repeat constructor; by eexists.
  - vm_compute. reflexivity.
Defined.
