(* ===== verification/Tuic.v ===== *)
(** * TUIC ([proxy/tuic])

    The connection a handler keeps, the UDP sessions on it and their
    numbers, the relay modes, the timers and the limits of incoming streams.
    The protocol's frames and QUIC are third-party code. *)

From S2P Require Import Prelude Str Net Session Dial Converters.

(** ** Addresses ([types.rs]) *)
(** [tuic::Address] *)
Inductive Address : Type := NoAddress | DomainAddress (domain : str) (port : Z) | SocketAddress (a : SocketAddr).
(* @src clash-lib/src/proxy/tuic/types.rs ~    fn into_tuic\(self\) -> tuic::Address \{~ SocksAddr::into_tuic *)
Definition into_tuic (a : SocksAddr) : Address := match a with Ip addr => SocketAddress addr | Domain domain port => DomainAddress domain port end.
(* @src clash-lib/src/proxy/tuic/handle_task.rs 128 134 TuicConnection::incoming_udp (address) *)
Definition from_tuic (a : Address) : res SocksAddr :=
  match a with NoAddress => Panic | DomainAddress domain port => Ok (Domain domain port) | SocketAddress socket => Ok (Ip socket) end.
(* @src clash-lib/src/proxy/tuic/types.rs ~^pub struct ServerAddr~ ServerAddr *)
Record ServerAddr : Type := { sv_domain : str; sv_port : Z; sv_ip : option IpAddr }.
(* @src clash-lib/src/proxy/tuic/types.rs ~    pub async fn resolve~ ServerAddr::resolve *)
Definition server_resolve (resolve : str -> res (option IpAddr)) (s : ServerAddr) : res SocketAddr :=
  match sv_ip s with
  | Some ip => Ok (sa_new ip (sv_port s))
  | None => r ← resolve (sv_domain s); ip ← ok_or r "Resolve failed: unknown hostname"; Ok (sa_new ip (sv_port s))
  end.

(** ** Connections ([mod.rs], [types.rs]) *)
Section connection.
Context {CV : ConverterLib} {HO : Host}.
(** The local socket: without IPv6 the session's interface is not used. *)
(* @src clash-lib/src/proxy/tuic/mod.rs 203 223 Handler::init_endpoint (socket) *)
Definition endpoint_socket (ipv6 : bool) (sess : Session) : res Sock :=
  if ipv6 then new_udp_socket (Some (SV6 0 0 0 0)) (iface sess) (so_mark sess) None
  else new_udp_socket (Some (SV4 0 0)) None (so_mark sess) None.
Context {C : Type} (is_open : C -> bool).
(** [connect rebind] is the outcome of a connection attempt; [None] is one
    that outlasts the request's timeout.  The result, and the connection the
    handler keeps. *)
(* @src clash-lib/src/proxy/tuic/mod.rs ~    async fn get_conn~ Handler::get_conn *)
Definition get_conn (connect : bool -> option (res C)) (kept : option C) : res C * option C :=
  let finish (r : option (res C)) : res C * option C :=
    match r with
    | Some (Ok c) => (Ok c, Some c)
    | Some (Err e) => (Err e, None)
    | Some Panic => (Panic, None)
    | None => (Err "deadline has elapsed", None)
    end in
  match kept with
  | None =>
    match connect false with
    | Some (Ok c) => if is_open c then (Ok c, Some c) else finish (connect true)
    | r => finish r
    end
  | Some c => if is_open c then (Ok c, Some c) else finish (connect true)
  end.
End connection.

(** ** Incoming streams ([handle_stream.rs]) *)
(** The limit of concurrent streams is doubled when it is reached. *)
(* @src clash-lib/src/proxy/tuic/handle_stream.rs ~    pub async fn accept_uni_stream~ TuicConnection::accept_uni_stream *)
Definition accept_uni_limit (oc : bool) (count max : Z) : res Z := if wrap 32 count =? max then arith oc 32 (max * 2) else Ok max.
(* @src clash-lib/src/proxy/tuic/handle_stream.rs ~    pub async fn accept_bi_stream~ TuicConnection::accept_bi_stream *)
Definition accept_bi_limit : bool -> Z -> Z -> res Z := accept_uni_limit.
(** What an incoming stream or datagram is; [tuic_quinn] gives packets of
    the two modes. *)
Inductive Incoming : Type := InPacket | InOther | InError.
(* @src clash-lib/src/proxy/tuic/handle_stream.rs ~    pub async fn handle_uni_stream~ TuicConnection::handle_uni_stream *)
Definition handle_uni_stream (mode : UdpRelayMode) (i : Incoming) : res bool :=
  match i with
  | InError => Ok false
  | InPacket => match mode with UrmQuic => Ok true | UrmNative => Ok false end
  | InOther => Panic
  end.
(* @src clash-lib/src/proxy/tuic/handle_stream.rs ~    pub async fn handle_datagram~ TuicConnection::handle_datagram *)
Definition handle_datagram (mode : UdpRelayMode) (i : Incoming) : bool :=
  match i, mode with InPacket, UrmNative => true | _, _ => false end.
(* @src clash-lib/src/proxy/tuic/handle_stream.rs ~    pub async fn handle_bi_stream~ TuicConnection::handle_bi_stream *)
Definition handle_bi_stream (i : Incoming) : bool := false.

(** ** Timers ([handle_task.rs]) *)
(** Whether the timers go on, and whether a heartbeat is sent: not without
    relay tasks. *)
(* @src clash-lib/src/proxy/tuic/handle_task.rs ~    async fn heartbeat~ TuicConnection::heartbeat *)
Definition heartbeat (is_open : bool) (connects associates : Z) : bool * bool :=
  if negb is_open then (false, false) else (true, negb (connects + associates =? 0)).

(** ** UDP sessions ([mod.rs], [handle_task.rs])

    A session is a task; its number on the wire is drawn when it is opened,
    it is entered in the connection's table when its task first runs, and
    taken out when the task ends. *)
Inductive TaskState : Type := Starting | Running | Done.
#[global] Instance task_state_eq_dec : EqDecision TaskState.
Proof. solve_decision. Defined.
Record UdpTask : Type := { tk_id : Z; tk_state : TaskState; tk_local : SocksAddr; tk_got : list UdpPacket; tk_out : list (list Z * Address) }.
Record Sessions : Type := { next_assoc_id : Z; tasks : list UdpTask; udp_sessions : gmap Z nat }.
Definition sessions_new : Sessions := {| next_assoc_id := 0; tasks := []; udp_sessions := ∅ |}.
Definition set_state (s : TaskState) (t : UdpTask) : UdpTask :=
  {| tk_id := tk_id t; tk_state := s; tk_local := tk_local t; tk_got := tk_got t; tk_out := tk_out t |}.
Definition add_got (p : UdpPacket) (t : UdpTask) : UdpTask :=
  {| tk_id := tk_id t; tk_state := tk_state t; tk_local := tk_local t; tk_got := tk_got t ++ [p]; tk_out := tk_out t |}.
Definition add_out (d : list Z * Address) (t : UdpTask) : UdpTask :=
  {| tk_id := tk_id t; tk_state := tk_state t; tk_local := tk_local t; tk_got := tk_got t; tk_out := tk_out t ++ [d] |}.

(* @src clash-lib/src/proxy/tuic/mod.rs ~    async fn do_connect_datagram~ Handler::do_connect_datagram *)
Definition open_session (local : SocksAddr) (w : Sessions) : Sessions := {|
  next_assoc_id := wrap 16 (next_assoc_id w + 1);
  tasks := tasks w ++ [{| tk_id := next_assoc_id w; tk_state := Starting; tk_local := local; tk_got := []; tk_out := [] |}];
  udp_sessions := udp_sessions w |}.
(* @src clash-lib/src/proxy/tuic/mod.rs 329 336 TuicDatagramOutbound::new (start) *)
Definition start_session (k : nat) (w : Sessions) : Sessions :=
  match tasks w !! k with
  | Some t =>
    if bool_decide (tk_state t = Starting) then
      {| next_assoc_id := next_assoc_id w; tasks := <[k := set_state Running t]> (tasks w); udp_sessions := <[tk_id t := k]> (udp_sessions w) |}
    else w
  | None => w
  end.
(** The end of a session: its number is given up on the wire and in the
    table. *)
(* @src clash-lib/src/proxy/tuic/mod.rs 349 356 TuicDatagramOutbound::new (end) *)
Definition end_session (k : nat) (w : Sessions) : Sessions :=
  match tasks w !! k with
  | Some t =>
    if bool_decide (tk_state t = Running) then
      {| next_assoc_id := next_assoc_id w; tasks := <[k := set_state Done t]> (tasks w); udp_sessions := delete (tk_id t) (udp_sessions w) |}
    else w
  | None => w
  end.
(** A packet to the network; a failure ends the session. *)
(* @src clash-lib/src/proxy/tuic/mod.rs 337 348 TuicDatagramOutbound::new (send) *)
Definition session_send (k : nat) (p : UdpPacket) (sent : bool) (w : Sessions) : Sessions :=
  match tasks w !! k with
  | Some t =>
    if bool_decide (tk_state t = Running) then
      if sent then {| next_assoc_id := next_assoc_id w; tasks := <[k := add_out (up_data p, into_tuic (up_dst_addr p)) t]> (tasks w);
                      udp_sessions := udp_sessions w |}
      else end_session k w
    else w
  | None => w
  end.
(** A packet from the network. *)
(* @src clash-lib/src/proxy/tuic/handle_task.rs ~    pub async fn incoming_udp~ TuicConnection::incoming_udp *)
Definition incoming_udp (assoc_id : Z) (data : list Z) (remote_addr : Address) (w : Sessions) : res Sessions :=
  match udp_sessions w !! assoc_id with
  | None => Ok w
  | Some k =>
    match tasks w !! k with
    | None => Ok w
    | Some t =>
      remote ← from_tuic remote_addr;
      Ok {| next_assoc_id := next_assoc_id w;
            tasks := <[k := add_got {| up_data := data; up_src_addr := remote; up_dst_addr := tk_local t |} t]> (tasks w);
            udp_sessions := udp_sessions w |}
    end
  end.
Inductive sessions_step : Sessions -> Sessions -> Prop :=
| TsOpen local w : sessions_step w (open_session local w)
| TsStart k w : sessions_step w (start_session k w)
| TsSend k p sent w : sessions_step w (session_send k p sent w)
| TsEnd k w : sessions_step w (end_session k w)
| TsIncoming i data a w w' : incoming_udp i data a w = Ok w' -> sessions_step w w'.

(** * Theorems *)
Lemma into_tuic_roundtrip a : from_tuic (into_tuic a) = Ok a.
Proof. by destruct a. Qed.
(** A connection handed out is the one kept, and open or new; an attempt that
    fails leaves none. *)
Lemma get_conn_spec {C} (is_open : C -> bool) connect kept r kept' : get_conn is_open connect kept = (r, kept') ->
  match r with
  | Ok c => kept' = Some c /\ (is_open c = true \/ connect true = Some (Ok c))
  | _ => kept' = None
  end.
Proof.
  unfold get_conn. destruct kept as [c|].
  - destruct (is_open c) eqn:E; [intros [= <- <-]; auto|]. destruct (connect true) as [[c'|e|]|] eqn:Ec; intros [= <- <-]; auto.
  - destruct (connect false) as [[c|e|]|]; [|by intros [= <- <-]..]. destruct (is_open c) eqn:E; [intros [= <- <-]; auto|].
    destruct (connect true) as [[c'|e|]|] eqn:Ec; intros [= <- <-]; auto.
Qed.
(** Without IPv6 the endpoint is bound to no interface. *)
Lemma endpoint_ignores_interface {CV : ConverterLib} {HO : Host} sess s : endpoint_socket false sess = Ok s -> forall name, BindDevice name ∉ sk_ops s.
Proof.
  unfold endpoint_socket. intros (_ & pre & Hpre & ->)%new_udp_socket_ok name H.
  assert (forall l, BindDevice name ∈ pre ++ l -> BindDevice name ∈ l) as Hp.
  { intros l [Hl|Hl]%elem_of_app; [|done]. destruct Hpre as [-> | ->]; [by apply elem_of_nil in Hl|by apply list_elem_of_singleton in Hl]. }
  apply Hp in H. cbn [binding opt_op app] in H. apply elem_of_cons in H as [|H]; [done|]. apply elem_of_app in H as [H|H].
  - destruct (so_mark sess); cbn in H; [by apply list_elem_of_singleton in H|by apply elem_of_nil in H].
  - repeat (apply elem_of_cons in H as [|H]; [done|]). by apply elem_of_nil in H.
Qed.

(** ** Sessions *)
Definition live (w : Sessions) (k : nat) (t : UdpTask) : Prop := tasks w !! k = Some t /\ tk_state t <> Done.
Definition running (w : Sessions) (k : nat) (t : UdpTask) : Prop := tasks w !! k = Some t /\ tk_state t = Running.
(** The numbers are drawn in order and wrap around; the table's entries are
    of running sessions of that number. *)
Record sessions_inv (w : Sessions) : Prop := {
  si_next : next_assoc_id w = wrap 16 (Z.of_nat (length (tasks w)));
  si_ids : forall k t, tasks w !! k = Some t -> tk_id t = wrap 16 (Z.of_nat k);
  si_table : forall i k, udp_sessions w !! i = Some k -> exists t, running w k t /\ tk_id t = i;
}.
(** Sessions live at one time are among the last 65536 opened. *)
Definition within (w : Sessions) : Prop := forall k t, live w k t -> (length (tasks w) - k <= Z.to_nat 65536)%nat.
Definition entered (w : Sessions) : Prop := forall k t, running w k t -> udp_sessions w !! tk_id t = Some k.
Lemma within_distinct w k k' t t' : sessions_inv w -> within w -> live w k t -> live w k' t' -> tk_id t = tk_id t' -> k = k'.
Proof.
  intros I W H H' E. pose proof (W _ _ H) as B. pose proof (W _ _ H') as B'. destruct H as [H _], H' as [H' _].
  rewrite (si_ids _ I _ _ H), (si_ids _ I _ _ H') in E. apply lookup_lt_Some in H, H'. unfold wrap in E.
  assert (Z.of_nat k - Z.of_nat k' = 65536 * (Z.of_nat k / 65536 - Z.of_nat k' / 65536)) as Hd.
  { pose proof (Z.div_mod (Z.of_nat k) 65536 ltac:(done)). pose proof (Z.div_mod (Z.of_nat k') 65536 ltac:(done)). change (2 ^ 16) with 65536 in E. lia. }
  nia.
Qed.

(** Changing one task to one of the same number. *)
Lemma alter_task w k t t' table : sessions_inv w -> tasks w !! k = Some t -> tk_id t' = tk_id t ->
  (forall i j, table !! i = Some j -> exists u, <[k := t']> (tasks w) !! j = Some u /\ tk_state u = Running /\ tk_id u = i) ->
  sessions_inv {| next_assoc_id := next_assoc_id w; tasks := <[k := t']> (tasks w); udp_sessions := table |}.
Proof.
  intros I Ht Hid Htab. split; cbn.
  - by rewrite length_insert, (si_next _ I).
  - intros j u Hj. apply list_lookup_insert_Some in Hj as [(-> & <- & _)|[_ Hj]]; [rewrite Hid|]; by apply (si_ids _ I).
  - intros i j Hj. destruct (Htab _ _ Hj) as (u & Hu & Hs & Hi). by exists u.
Qed.
Lemma running_insert w k t t' j u : tasks w !! k = Some t -> tk_state t' = Running -> tk_id t' = tk_id t -> running w j u ->
  exists u', <[k := t']> (tasks w) !! j = Some u' /\ tk_state u' = Running /\ tk_id u' = tk_id u.
Proof.
  intros Ht Hs Hi [Hj Hr]. destruct (decide (k = j)) as [<-|Hne].
  - exists t'. rewrite list_lookup_insert_eq by (by eapply lookup_lt_Some). rewrite Ht in Hj. injection Hj as <-. done.
  - exists u. by rewrite list_lookup_insert_ne by done.
Qed.
Lemma start_session_inv k w : sessions_inv w -> sessions_inv (start_session k w).
Proof.
  intros I. unfold start_session. destruct (tasks w !! k) as [t|] eqn:Ht; [|done]. case_bool_decide; [|done]. apply (alter_task w k t); try done.
  intros i j. rewrite lookup_insert_Some. intros [[<- <-]|[_ Hj]].
  - exists (set_state Running t). by rewrite list_lookup_insert_eq by (by eapply lookup_lt_Some).
  - destruct (si_table _ I _ _ Hj) as (u & Hu & <-). by eapply running_insert.
Qed.
Lemma end_session_inv k w : sessions_inv w -> sessions_inv (end_session k w).
Proof.
  intros I. unfold end_session. destruct (tasks w !! k) as [t|] eqn:Ht; [|done]. case_bool_decide; [|done]. apply (alter_task w k t); try done.
  intros i j [Hi Hj]%lookup_delete_Some. destruct (si_table _ I _ _ Hj) as (u & [Hu Hr] & <-). exists u.
  rewrite list_lookup_insert_ne; [done|]. intros ->. rewrite Ht in Hu. by injection Hu as ->.
Qed.
Lemma keep_inv k t t' w : sessions_inv w -> tasks w !! k = Some t -> tk_state t = Running -> tk_id t' = tk_id t -> tk_state t' = tk_state t ->
  sessions_inv {| next_assoc_id := next_assoc_id w; tasks := <[k := t']> (tasks w); udp_sessions := udp_sessions w |}.
Proof.
  intros I Ht Hr Hi Hs. apply (alter_task w k t); try done. intros i j Hj. destruct (si_table _ I _ _ Hj) as (u & Hu & <-).
  eapply running_insert; [done|congruence|done|done].
Qed.
Lemma incoming_inv i data a w w' : sessions_inv w -> incoming_udp i data a w = Ok w' -> sessions_inv w'.
Proof.
  intros I. unfold incoming_udp. destruct (udp_sessions w !! i) as [k|] eqn:Ei; [|by intros [= <-]].
  destruct (si_table _ I _ _ Ei) as (t & [Ht Hr] & _). rewrite Ht. intros (r & _ & [= <-])%res_bind_ok. by eapply keep_inv.
Qed.
Lemma sessions_step_inv w w' : sessions_step w w' -> sessions_inv w -> sessions_inv w'.
Proof.
  intros H I. destruct H as [local w|k w|k p sent w|k w|i data a w w' H].
  - split; cbn.
    + rewrite length_app, (si_next _ I). cbn. unfold wrap. rewrite Zplus_mod_idemp_l. f_equal. lia.
    + intros k t [Hk|[Hle Hk]]%lookup_app_Some; [by apply (si_ids _ I)|]. apply list_lookup_singleton_Some in Hk as [Hk <-]. cbn.
      rewrite (si_next _ I). f_equal. lia.
    + intros i k Hi. destruct (si_table _ I _ _ Hi) as (t & [Ht Hr] & Hid). exists t. split; [|done]. split; [|done]. cbn. by apply lookup_app_l_Some.
  - by apply start_session_inv.
  - unfold session_send. destruct (tasks w !! k) as [t|] eqn:Ht; [|done]. case_bool_decide; [|done]. destruct sent; [by eapply keep_inv|by apply end_session_inv].
  - by apply end_session_inv.
  - by eapply incoming_inv.
Qed.
Lemma sessions_reachable_inv w : rtc sessions_step sessions_new w -> sessions_inv w.
Proof.
  assert (sessions_inv sessions_new) as H0 by (split; [done|by intros k t; cbn; rewrite lookup_nil|by intros i k; cbn; rewrite lookup_empty]).
  revert H0. generalize sessions_new. intros w0 H0 Hr. induction Hr as [|w0 w1 w2 Hs _ IH]; [done|]. apply IH. by eapply sessions_step_inv.
Qed.

(** While the live sessions are among the last 65536, every running one is
    in the table under its number. *)
Lemma end_entered k w : sessions_inv w -> within w -> entered w -> entered (end_session k w).
Proof.
  intros I W E. unfold end_session. destruct (tasks w !! k) as [t|] eqn:Ht; [|done]. case_bool_decide as Hr; [|done].
  intros j u [Hj Hu]. cbn in Hj |- *. apply list_lookup_insert_Some in Hj as [(-> & <- & _)|[Hne Hj]]; [done|].
  rewrite lookup_delete_ne; [by apply E|]. intros Hid. apply Hne. apply (within_distinct w k j t u I W); [|split; [done|]|done]; [split; [done|]|]; congruence.
Qed.
Lemma sessions_step_entered w w' : sessions_step w w' -> sessions_inv w -> within w -> entered w -> entered w'.
Proof.
  intros H I W E. destruct H as [local w|k w|k p sent w|k w|i data a w w' H].
  - intros k t [Hk Hr]. cbn in Hk |- *. apply lookup_app_Some in Hk as [Hk|[_ Hk]]; [by apply E|].
    apply list_lookup_singleton_Some in Hk as [_ <-]. done.
  - unfold start_session. destruct (tasks w !! k) as [t|] eqn:Ht; [|done]. case_bool_decide as Hs; [|done].
    intros j u [Hj Hu]. cbn in Hj |- *. apply list_lookup_insert_Some in Hj as [(-> & <- & _)|[Hne Hj]]; [by rewrite lookup_insert_eq|].
    rewrite lookup_insert_ne; [by apply E|]. intros Hid. apply Hne. apply (within_distinct w k j t u I W); [|split; [done|]|done]; [split; [done|]|]; congruence.
  - unfold session_send. destruct (tasks w !! k) as [t|] eqn:Ht; [|done]. case_bool_decide as Hs; [|done]. destruct sent; [|by apply end_entered].
    intros j u [Hj Hu]. cbn in Hj |- *. apply list_lookup_insert_Some in Hj as [(-> & <- & _)|[Hne Hj]]; [by apply (E j t)|by apply E].
  - by apply end_entered.
  - unfold incoming_udp in H. destruct (udp_sessions w !! i) as [k|] eqn:Ei; [|by injection H as <-].
    destruct (tasks w !! k) as [t|] eqn:Ht; [|by injection H as <-]. apply res_bind_ok in H as (r & _ & [= <-]).
    intros j u [Hj Hu]. cbn in Hj |- *. apply list_lookup_insert_Some in Hj as [(-> & <- & _)|[Hne Hj]]; [by apply (E j t)|by apply E].
Qed.
Definition apart_step (w w' : Sessions) : Prop := within w /\ sessions_step w w'.
(** A packet for the number of a running session reaches that session and no
    other, with the session's own address as its destination. *)
Theorem tuic_sessions_apart w k t data a src w' : rtc apart_step sessions_new w -> running w k t -> from_tuic a = Ok src ->
  incoming_udp (tk_id t) data a w = Ok w' ->
  tasks w' !! k = Some (add_got {| up_data := data; up_src_addr := src; up_dst_addr := tk_local t |} t) /\
  forall j, j <> k -> tasks w' !! j = tasks w !! j.
Proof.
  intros Hr Hk Ha. assert (entered w) as E.
  { assert (entered sessions_new /\ sessions_inv sessions_new) as H0.
    { split; [by intros j u [H _]; cbn in H; rewrite lookup_nil in H|by apply sessions_reachable_inv]. }
    clear Hk. revert H0. generalize dependent sessions_new. intros w0 Hr H0. induction Hr as [|w0 w1 w2 [W Hs] _ IH]; [apply H0|].
    apply IH. destruct H0 as [E0 I0]. split; [by eapply sessions_step_entered|by eapply sessions_step_inv]. }
  unfold incoming_udp. rewrite (E _ _ Hk). destruct Hk as [Hk _]. rewrite Hk, Ha. cbn. intros [= <-]. cbn. split.
  - by rewrite list_lookup_insert_eq by (by eapply lookup_lt_Some).
  - intros j Hj. by rewrite list_lookup_insert_ne by done.
Qed.
(** A session that outlives the opening of 65536 others loses its entry to
    one of them, and the end of either silences the other. *)
Lemma overtaken_loses w k k' t t' data a : running w k t -> running w k' t' -> tk_id t = tk_id t' -> k <> k' ->
  running (end_session k w) k' t' /\ incoming_udp (tk_id t') data a (end_session k w) = Ok (end_session k w).
Proof.
  intros [Hk Hr] [Hk' Hr'] Hid Hne. unfold end_session. rewrite Hk, bool_decide_eq_true_2 by done. split.
  - split; [|done]. cbn. by rewrite list_lookup_insert_ne by done.
  - unfold incoming_udp. cbn. by rewrite Hid, lookup_delete_eq.
Qed.
(** The limit of streams doubles twenty-six times and then overflows. *)
Lemma stream_limit_overflows : accept_uni_limit true (2 ^ 31) (2 ^ 31) = Panic /\ accept_uni_limit false (2 ^ 31) (2 ^ 31) = Ok 0.
Proof. by vm_compute. Qed.
