(* ===== verification/Wg.v ===== *)
(** * The WireGuard outbound ([clash-lib/src/proxy/wg])

    Connections run over a virtual device: TCP and UDP sockets of smoltcp
    ([device.rs]) whose packets go through a tunnel of boringtun
    ([wireguard.rs]).  Both crates are parameters, the sockets with the laws
    the code relies on. *)

From S2P Require Import Prelude Str Net Session Trie Geo Router Resolver Async Netstack Converters.

(** ** Keys ([keys.rs]) *)
(** [u8::from_str_radix] with base 16, of two bytes. *)
Definition hex_pair (a b : Z) : option Z :=
  if a =? 43 then to_digit 16 b else h ← to_digit 16 a; l ← to_digit 16 b; Some (16 * h + l).
(** Slicing at a byte inside a character panics. *)
Definition is_cont (b : Z) : bool := between 0x80 0xBF b.
Definition starts_inside (bs : list Z) : bool := match bs with c :: _ => is_cont c | [] => false end.
(* @src clash-lib/src/proxy/wg/keys.rs 14 20 KeyBytes::from_str (hex) *)
Fixpoint hex_bytes (bs : list Z) : res (list Z) :=
  match bs with
  | a :: b :: bs' =>
    if is_cont a || starts_inside bs' then Panic
    else v ← ok_or (hex_pair a b) "Illegal character in key"; vs ← hex_bytes bs'; Ok (v :: vs)
  | _ => Ok []
  end.
(** [b64_decode]: the engine [STANDARD], which wants the padding. *)
(* @src clash-lib/src/proxy/wg/keys.rs ~    fn from_str~ KeyBytes::from_str *)
Definition key_from_str (b64_decode : str -> option (list Z)) (s : str) : res (list Z) :=
  let n := str_len s in
  if n =? 64 then hex_bytes (utf8 s)
  else if (n =? 43) || (n =? 44) then
    match b64_decode s with
    | Some decoded_key => if zlen decoded_key =? 32 then Ok decoded_key else Err "Illegal character in key"
    | None => Ok (repeat 0 32)
    end
  else Err "Illegal key size".

(** ** Ports ([ports.rs]) *)
Definition MIN_PORT : Z := 1025.
Definition MAX_PORT : Z := 60000.
Definition PORT_RANGE : list Z := seqZ MIN_PORT (MAX_PORT - MIN_PORT).
(* @src clash-lib/src/proxy/wg/ports.rs ~^struct TcpPortPoolInner~ TcpPortPoolInner *)
Record PortPool : Type := { pp_queue : list Z }.
(* @src clash-lib/src/proxy/wg/ports.rs ~    pub fn new\(~ PortPool::new *)
Definition port_pool_new (shuffle : list Z -> list Z) : PortPool := {| pp_queue := shuffle PORT_RANGE |}.
(* @src clash-lib/src/proxy/wg/ports.rs ~    pub async fn next~ PortPool::next *)
Definition port_next (p : PortPool) : res Z * PortPool :=
  match pp_queue p with
  | port :: q => (Ok port, {| pp_queue := q |})
  | [] => (Err "virtual port pool is exhausted", p)
  end.
(* @src clash-lib/src/proxy/wg/ports.rs ~    pub async fn release~ PortPool::release *)
Definition port_release (port : Z) (p : PortPool) : PortPool := {| pp_queue := pp_queue p ++ [port] |}.

(** ** Channels *)
(** A bounded channel: what is in it, its capacity, whether it has senders
    and a receiver. *)
Record Chan (A : Type) : Type := { ch_items : list A; ch_cap : nat; ch_senders : bool; ch_receiver : bool }.
Arguments ch_items {A} _. Arguments ch_cap {A} _. Arguments ch_senders {A} _. Arguments ch_receiver {A} _.
Definition set_items {A} (l : list A) (c : Chan A) : Chan A :=
  {| ch_items := l; ch_cap := ch_cap c; ch_senders := ch_senders c; ch_receiver := ch_receiver c |}.
Inductive TrySend (A : Type) : Type := Sent (c : Chan A) | Full | Closed.
Arguments Sent {A} c. Arguments Full {A}. Arguments Closed {A}.
Definition chan_try_send {A} (a : A) (c : Chan A) : TrySend A :=
  if negb (ch_receiver c) then Closed
  else if (length (ch_items c) <? ch_cap c)%nat then Sent (set_items (ch_items c ++ [a]) c) else Full.
Definition chan_poll_recv {A} (c : Chan A) : Poll (option A) * Chan A :=
  match ch_items c with
  | a :: l => (Ready (Some a), set_items l c)
  | [] => if ch_senders c then (Pending, c) else (Ready None, c)
  end.

(** ** The ends of a connection ([stack/tcp.rs], [stack/udp.rs]) *)
(* @src clash-lib/src/proxy/wg/stack/tcp.rs ~^pub struct SocketPair~ SocketPair *)
Record SocketPair : Type := { sp_read : Chan (list Z); sp_write : Chan (list Z); sp_read_buf : list Z }.
(* @src clash-lib/src/proxy/wg/stack/tcp.rs ~    pub fn new\(~ SocketPair::new *)
Definition socket_pair_new (read write : Chan (list Z)) : SocketPair := {| sp_read := read; sp_write := write; sp_read_buf := [] |}.
(* @src clash-lib/src/proxy/wg/stack/tcp.rs ~^impl AsyncRead for SocketPair~ SocketPair::poll_read *)
#[global] Instance socket_pair_read : AsyncRead SocketPair := fun cap s =>
  if bool_decide (sp_read_buf s <> []) then
    (Ready (Ok (take cap (sp_read_buf s))), {| sp_read := sp_read s; sp_write := sp_write s; sp_read_buf := drop cap (sp_read_buf s) |})
  else
    match chan_poll_recv (sp_read s) with
    | (Ready (Some data), c) => (Ready (Ok (take cap data)), {| sp_read := c; sp_write := sp_write s; sp_read_buf := drop cap data |})
    | (Ready None, c) => (Ready (Ok []), {| sp_read := c; sp_write := sp_write s; sp_read_buf := [] |})
    | (Pending, c) => (Pending, {| sp_read := c; sp_write := sp_write s; sp_read_buf := [] |})
    end.
(** A full channel and a closed one are both waited for, and nothing wakes
    the writer. *)
(* @src clash-lib/src/proxy/wg/stack/tcp.rs ~^impl AsyncWrite for SocketPair~ SocketPair::poll_write *)
#[global] Instance socket_pair_write : AsyncWrite SocketPair := {|
  poll_write := fun bs s =>
    match chan_try_send bs (sp_write s) with
    | Sent c => (Ready (Ok (length bs)), {| sp_read := sp_read s; sp_write := c; sp_read_buf := sp_read_buf s |})
    | _ => (Pending, s)
    end;
  poll_flush := fun s => (Ready (Ok tt), s);
  poll_shutdown := fun s => (Ready (Ok tt), s);
|}.

(* @src clash-lib/src/proxy/wg/stack/udp.rs ~^pub struct UdpPair~ UdpPair *)
Record UdpPair : Type := { ud_send : Chan UdpPacket; ud_recv : Chan UdpPacket; ud_pkt : option UdpPacket; ud_flushed : bool }.
(* @src clash-lib/src/proxy/wg/stack/udp.rs ~    pub fn new\(~ UdpPair::new *)
Definition udp_pair_new (recv send : Chan UdpPacket) : UdpPair := {| ud_send := send; ud_recv := recv; ud_pkt := None; ud_flushed := true |}.
(* @src clash-lib/src/proxy/wg/stack/udp.rs ~    fn poll_next~ UdpPair::poll_next *)
Definition udp_pair_next (u : UdpPair) : Poll (option UdpPacket) * UdpPair :=
  let '(r, c) := chan_poll_recv (ud_recv u) in (r, {| ud_send := ud_send u; ud_recv := c; ud_pkt := ud_pkt u; ud_flushed := ud_flushed u |}).
(* @src clash-lib/src/proxy/wg/stack/udp.rs ~    fn poll_flush~ UdpPair::poll_flush *)
Definition udp_pair_flush (u : UdpPair) : Poll (res unit) * UdpPair :=
  if negb (ud_flushed u) then
    match ud_pkt u with
    | Some pkt =>
      match chan_try_send pkt (ud_send u) with
      | Sent c => (Ready (Ok tt), {| ud_send := c; ud_recv := ud_recv u; ud_pkt := None; ud_flushed := true |})
      | Closed => (Ready (Err "closed"), u)
      | Full => (Pending, u)
      end
    | None => (Ready (Ok tt), u)
    end
  else (Ready (Ok tt), u).
(* @src clash-lib/src/proxy/wg/stack/udp.rs ~    fn poll_ready~ UdpPair::poll_ready *)
Definition udp_pair_ready (u : UdpPair) : Poll (res unit) * UdpPair := if negb (ud_flushed u) then udp_pair_flush u else (Ready (Ok tt), u).
(* @src clash-lib/src/proxy/wg/stack/udp.rs ~    fn start_send~ UdpPair::start_send *)
Definition udp_pair_start_send (item : UdpPacket) (u : UdpPair) : UdpPair :=
  {| ud_send := ud_send u; ud_recv := ud_recv u; ud_pkt := Some item; ud_flushed := false |}.

(** ** smoltcp *)
(** [tcp_recv] gives the bytes that are one piece of the buffer, all taken;
    [tcp_send_slice] how many bytes were taken.  A socket has the local port
    it was connected or bound with; port 0 is none. *)
Inductive TcpRecv : Type := RecvData (data : list Z) | RecvFinished | RecvInvalid.
Inductive UdpRecv : Type := UdpData (data : list Z) (from : SocketAddr) | UdpExhausted | UdpTruncated.
Class Smoltcp : Type := {
  TcpS : Type;
  tcp_new : TcpS;
  tcp_connect : SocketAddr -> IpAddr -> Z -> TcpS -> option TcpS;
  tcp_may_recv : TcpS -> bool;
  tcp_may_send : TcpS -> bool;
  tcp_is_active : TcpS -> bool;
  tcp_recv : TcpS -> TcpRecv * TcpS;
  tcp_send_slice : list Z -> TcpS -> option nat * TcpS;
  tcp_abort : TcpS -> TcpS;
  tcp_local_port : TcpS -> option Z;
  UdpS : Type;
  udp_new : UdpS;
  udp_bind : IpAddr -> Z -> UdpS -> option UdpS;
  udp_can_recv : UdpS -> bool;
  udp_can_send : UdpS -> bool;
  udp_recv_pkt : UdpS -> UdpRecv * UdpS;
  udp_send_slice : list Z -> IpAddr -> Z -> UdpS -> option UdpS;
  udp_close : UdpS -> UdpS;
  udp_port : UdpS -> Z;
}.
(** [is_open]: bound to a port. *)
Definition udp_is_open {SM : Smoltcp} (s : UdpS) : bool := negb (udp_port s =? 0).
Class SmoltcpLaws (SM : Smoltcp) : Prop := {
  connect_port : forall r ip port s s', tcp_connect r ip port s = Some s' -> tcp_local_port s' = Some port;
  recv_keeps_port : forall s r s', tcp_recv s = (r, s') -> tcp_local_port s' = tcp_local_port s;
  send_keeps_port : forall bs s n s', tcp_send_slice bs s = (n, s') -> tcp_local_port s' = tcp_local_port s;
  send_fits : forall bs s n s', tcp_send_slice bs s = (Some n, s') -> (n <= length bs)%nat;
  abort_keeps_port : forall s, tcp_local_port (tcp_abort s) = tcp_local_port s;
  new_unbound : udp_port udp_new = 0;
  bind_port : forall ip port s s', udp_bind ip port s = Some s' -> udp_port s' = port /\ port <> 0;
  bind_zero : forall ip s, udp_bind ip 0 s = None;
  udp_recv_keeps_port : forall s r s', udp_recv_pkt s = (r, s') -> udp_port s' = udp_port s;
  udp_send_keeps_port : forall bs ip port s s', udp_send_slice bs ip port s = Some s' -> udp_port s' = udp_port s;
  close_port : forall s, udp_port (udp_close s) = 0;
}.

(** ** The tunnel ([wireguard.rs]) *)
(* @src clash-lib/src/proxy/wg/events.rs ~^pub enum PortProtocol~ PortProtocol *)
Inductive PortProtocol : Type := PpTcp | PpUdp.
(** boringtun; [TrErr true] is [ConnectionExpired]. *)
Inductive TunnResult : Type :=
| TrDone | TrErr (expired : bool)
| TrWriteToNetwork (packet : list Z)
| TrWriteToTunnelV4 (packet : list Z) (addr : Z)
| TrWriteToTunnelV6 (packet : list Z) (addr : Z).
Class TunnLib : Type := {
  Tunn : Type;
  encapsulate : list Z -> Tunn -> TunnResult * Tunn;
  decapsulate : list Z -> Tunn -> TunnResult * Tunn;
  update_timers : Tunn -> TunnResult * Tunn;
  format_handshake_initiation : Tunn -> TunnResult * Tunn;
}.

Section tunnel.
Context {TL : TunnLib} {NL : IpNetLib} {WL : WireLib}.
(** What was sent to the endpoint, and whether the socket still takes it;
    what was given to the virtual device. *)
(* @src clash-lib/src/proxy/wg/wireguard.rs ~^pub struct WireguardTunnel~ WireguardTunnel *)
Record WireguardTunnel : Type := {
  source_peer_ip : Z; source_peer_ipv6 : option Z; peer : Tunn; endpoint : SocketAddr; allowed_ips : list IpNet; reserved_bits : list Z;
  wt_sent : list UdpPacket; wt_up : bool; wt_written : list (PortProtocol * list Z) }.
Definition set_peer (p : Tunn) (w : WireguardTunnel) : WireguardTunnel := {|
  source_peer_ip := source_peer_ip w; source_peer_ipv6 := source_peer_ipv6 w; peer := p; endpoint := endpoint w;
  allowed_ips := allowed_ips w; reserved_bits := reserved_bits w; wt_sent := wt_sent w; wt_up := wt_up w; wt_written := wt_written w |}.
Definition wt_send (p : UdpPacket) (w : WireguardTunnel) : WireguardTunnel := {|
  source_peer_ip := source_peer_ip w; source_peer_ipv6 := source_peer_ipv6 w; peer := peer w; endpoint := endpoint w;
  allowed_ips := allowed_ips w; reserved_bits := reserved_bits w; wt_sent := wt_sent w ++ [p]; wt_up := wt_up w; wt_written := wt_written w |}.
Definition wt_write (x : PortProtocol * list Z) (w : WireguardTunnel) : WireguardTunnel := {|
  source_peer_ip := source_peer_ip w; source_peer_ipv6 := source_peer_ipv6 w; peer := peer w; endpoint := endpoint w;
  allowed_ips := allowed_ips w; reserved_bits := reserved_bits w; wt_sent := wt_sent w; wt_up := wt_up w; wt_written := wt_written w ++ [x] |}.

(** Bytes 1 to 3 of a packet of at least four. *)
Definition put_reserved (bits packet : list Z) : list Z :=
  match packet with
  | a :: _ :: _ :: _ :: rest => a :: bits ++ rest
  | _ => packet
  end.
(* @src clash-lib/src/proxy/wg/wireguard.rs ~    async fn udp_send~ WireguardTunnel::udp_send *)
Definition wt_udp_send (packet : list Z) (w : WireguardTunnel) : res unit * WireguardTunnel :=
  if wt_up w then
    (Ok tt, wt_send {| up_data := put_reserved (reserved_bits w) packet; up_src_addr := any_ipv4; up_dst_addr := Ip (endpoint w) |} w)
  else (Err "io error", w).
(* @src clash-lib/src/proxy/wg/wireguard.rs ~    pub async fn send_ip_packet~ WireguardTunnel::send_ip_packet *)
Definition send_ip_packet (packet : list Z) (w : WireguardTunnel) : res unit * WireguardTunnel :=
  let '(r, p) := encapsulate packet (peer w) in
  let w := set_peer p w in
  match r with
  | TrWriteToNetwork packet => wt_udp_send packet w
  | _ => (Ok tt, w)
  end.
(** Packets of the virtual device; one that fails is logged. *)
(* @src clash-lib/src/proxy/wg/wireguard.rs ~    pub async fn start_forwarding~ WireguardTunnel::start_forwarding *)
Definition start_forwarding (packets : list (list Z)) (w : WireguardTunnel) : WireguardTunnel :=
  foldl (fun w p => snd (send_ip_packet p w)) w packets.

(* @src clash-lib/src/proxy/wg/wireguard.rs ~    fn is_ip_allowed~ WireguardTunnel::is_ip_allowed *)
Definition is_ip_allowed (ip : IpAddr) (w : WireguardTunnel) : bool :=
  bool_decide (allowed_ips w = []) || existsb (fun x => ipnet_contains x ip) (allowed_ips w).
Definition proto_of (next_header : Z) : option PortProtocol :=
  if next_header =? PROTO_TCP then Some PpTcp else if next_header =? PROTO_UDP then Some PpUdp else None.
(* @src clash-lib/src/proxy/wg/wireguard.rs ~    fn route_protocol~ WireguardTunnel::route_protocol *)
Definition route_protocol (packet : list Z) (w : WireguardTunnel) : option PortProtocol :=
  match ip_version packet with
  | Some false =>
    p ← ipv4_new_checked packet;
    if bool_decide (ip_dst p = V4 (source_peer_ip w)) then proto_of (ip_protocol p) else None
  | Some true =>
    p ← ipv6_new_checked packet;
    if bool_decide (Some (ip_dst p) = V6 <$> source_peer_ipv6 w) then proto_of (ip_protocol p) else None
  | None => None
  end.
(** What the peer wants sent after a handshake, until it wants nothing more or
    sending fails; [None] when the fuel is spent. *)
(* @src clash-lib/src/proxy/wg/wireguard.rs 262 281 WireguardTunnel::start_receiving (drain) *)
Fixpoint drain_peer (fuel : nat) (w : WireguardTunnel) : option WireguardTunnel :=
  match fuel with
  | O => None
  | S fuel' =>
    let '(r, p) := decapsulate [] (peer w) in
    let w := set_peer p w in
    match r with
    | TrWriteToNetwork packet =>
      match wt_udp_send packet w with
      | (Ok _, w) => drain_peer fuel' w
      | (_, w) => Some w
      end
    | _ => Some w
    end
  end.
Definition to_device (packet : list Z) (addr : IpAddr) (w : WireguardTunnel) : WireguardTunnel :=
  if is_ip_allowed addr w then
    match route_protocol packet w with
    | Some proto => wt_write (proto, packet) w
    | None => w
    end
  else w.
(** One datagram of the endpoint. *)
(* @src clash-lib/src/proxy/wg/wireguard.rs ~    pub async fn start_receiving~ WireguardTunnel::start_receiving *)
Definition receive_datagram (fuel : nat) (data : list Z) (w : WireguardTunnel) : option WireguardTunnel :=
  let '(r, p) := decapsulate (put_reserved [0; 0; 0] data) (peer w) in
  let w := set_peer p w in
  match r with
  | TrDone | TrErr _ => Some w
  | TrWriteToNetwork packet =>
    match wt_udp_send packet w with
    | (Ok _, w) => drain_peer fuel w
    | (_, w) => Some w
    end
  | TrWriteToTunnelV4 packet addr => Some (to_device packet (V4 addr) w)
  | TrWriteToTunnelV6 packet addr => Some (to_device packet (V6 addr) w)
  end.
(** An expired session starts a new handshake.  The number is the time slept. *)
(* @src clash-lib/src/proxy/wg/wireguard.rs ~    async fn handle_routine_result~ WireguardTunnel::handle_routine_result *)
Fixpoint handle_routine_result (fuel : nat) (result : TunnResult) (w : WireguardTunnel) : option (Z * WireguardTunnel) :=
  match result with
  | TrDone => Some (100, w)
  | TrErr true =>
    match fuel with
    | O => None
    | S fuel' => let '(r, p) := format_handshake_initiation (peer w) in handle_routine_result fuel' r (set_peer p w)
    end
  | TrWriteToNetwork packet => Some (0, snd (wt_udp_send packet w))
  | _ => Some (0, w)
  end.
(* @src clash-lib/src/proxy/wg/wireguard.rs ~    pub async fn start_heartbeat~ WireguardTunnel::start_heartbeat *)
Definition heartbeat (fuel : nat) (w : WireguardTunnel) : option (Z * WireguardTunnel) :=
  let '(r, p) := update_timers (peer w) in handle_routine_result fuel r (set_peer p w).
End tunnel.

(** ** The virtual device ([device.rs]) *)
Section device.
Context {SM : Smoltcp}.

(** A socket of the loop with the channel to its reader. *)
Inductive Sock : Type := STcp (s : TcpS) (sender : Chan (list Z)) | SUdp (s : UdpS) (sender : Chan UdpPacket).
(** [wd_tcp_queue] and [wd_udp_queue]: what is to be sent, and whether the
    connection is still open. *)
(* @src clash-lib/src/proxy/wg/device.rs 58 74 DeviceManager *)
Record DeviceManager : Type := {
  wd_addr : Z; wd_addr_v6 : option Z; wd_dns_servers : list SocketAddr;
  socket_pairs : gmap nat Sock; tcp_queue : gmap nat (list (list Z * bool)); udp_queue : gmap nat (list (UdpPacket * bool));
  tcp_port_pool : PortPool; udp_port_pool : PortPool; next_poll : option Z }.
(* @src clash-lib/src/proxy/wg/device.rs 77 109 DeviceManager::new *)
Definition device_manager_new (addr : Z) (addr_v6 : option Z) (dns_servers : list SocketAddr) (shuffle_tcp shuffle_udp : list Z -> list Z) : DeviceManager := {|
  wd_addr := addr; wd_addr_v6 := addr_v6; wd_dns_servers := dns_servers; socket_pairs := ∅; tcp_queue := ∅; udp_queue := ∅;
  tcp_port_pool := port_pool_new shuffle_tcp; udp_port_pool := port_pool_new shuffle_udp; next_poll := None |}.
Definition set_pairs (m : gmap nat Sock) (d : DeviceManager) : DeviceManager := {|
  wd_addr := wd_addr d; wd_addr_v6 := wd_addr_v6 d; wd_dns_servers := wd_dns_servers d; socket_pairs := m; tcp_queue := tcp_queue d;
  udp_queue := udp_queue d; tcp_port_pool := tcp_port_pool d; udp_port_pool := udp_port_pool d; next_poll := next_poll d |}.
Definition set_queues (tq : gmap nat (list (list Z * bool))) (uq : gmap nat (list (UdpPacket * bool))) (d : DeviceManager) : DeviceManager := {|
  wd_addr := wd_addr d; wd_addr_v6 := wd_addr_v6 d; wd_dns_servers := wd_dns_servers d; socket_pairs := socket_pairs d; tcp_queue := tq;
  udp_queue := uq; tcp_port_pool := tcp_port_pool d; udp_port_pool := udp_port_pool d; next_poll := next_poll d |}.
Definition set_pools (t u : PortPool) (d : DeviceManager) : DeviceManager := {|
  wd_addr := wd_addr d; wd_addr_v6 := wd_addr_v6 d; wd_dns_servers := wd_dns_servers d; socket_pairs := socket_pairs d; tcp_queue := tcp_queue d;
  udp_queue := udp_queue d; tcp_port_pool := t; udp_port_pool := u; next_poll := next_poll d |}.
Definition set_next_poll (n : option Z) (d : DeviceManager) : DeviceManager := {|
  wd_addr := wd_addr d; wd_addr_v6 := wd_addr_v6 d; wd_dns_servers := wd_dns_servers d; socket_pairs := socket_pairs d; tcp_queue := tcp_queue d;
  udp_queue := udp_queue d; tcp_port_pool := tcp_port_pool d; udp_port_pool := udp_port_pool d; next_poll := n |}.

(** The address and port a socket takes; [self.addr_v6.unwrap()]. *)
Definition local_for (v4 : bool) (d : DeviceManager) : res IpAddr :=
  if v4 then Ok (V4 (wd_addr d)) else v6 ← or_panic (wd_addr_v6 d); Ok (V6 v6).
Definition is_v4 (ip : IpAddr) : bool := match ip with V4 _ => true | V6 _ => false end.

(** A new connection: [handle] is the slot [SocketSet::add] found; taking a
    port, and connecting, panic when they fail. *)
(* @src clash-lib/src/proxy/wg/device.rs 288 323 DeviceManager::poll_sockets (new tcp) *)
Definition accept_tcp (handle : nat) (remote : SocketAddr) (sender : Chan (list Z)) (d : DeviceManager) : res DeviceManager :=
  local ← local_for (is_v4 (sa_ip remote)) d;
  match port_next (tcp_port_pool d) with
  | (Ok port, pool) =>
    s ← or_panic (tcp_connect remote local port tcp_new);
    Ok (set_next_poll None (set_pools pool (udp_port_pool d)
          (set_queues (<[handle := []]> (tcp_queue d)) (udp_queue d) (set_pairs (<[handle := STcp s sender]> (socket_pairs d)) d))))
  | _ => Panic
  end.
(* @src clash-lib/src/proxy/wg/device.rs 324 353 DeviceManager::poll_sockets (new udp) *)
Definition accept_udp (handle : nat) (sender : Chan UdpPacket) (d : DeviceManager) : DeviceManager :=
  set_next_poll None
    (set_queues (tcp_queue d) (<[handle := []]> (udp_queue d)) (set_pairs (<[handle := SUdp udp_new sender]> (socket_pairs d)) d)).

(** The task of a connection, which knows the handle it was made with: what
    the application wrote, then the end. *)
Inductive Transfer : Type := TfTcp (handle : nat) (data : list Z) (active : bool) | TfUdp (handle : nat) (pkt : UdpPacket) (active : bool).
Definition default_packet : UdpPacket := {| up_data := []; up_src_addr := socks_default; up_dst_addr := socks_default |}.
(* @src clash-lib/src/proxy/wg/device.rs 303 319 DeviceManager::poll_sockets (tcp task) *)
Definition forward_tcp (handle : nat) (receiver : Chan (list Z)) : Poll Transfer * Chan (list Z) :=
  match chan_poll_recv receiver with
  | (Ready (Some data), c) => (Ready (TfTcp handle data true), c)
  | (Ready None, c) => (Ready (TfTcp handle [] false), c)
  | (Pending, c) => (Pending, c)
  end.
(* @src clash-lib/src/proxy/wg/device.rs 328 348 DeviceManager::poll_sockets (udp task) *)
Definition forward_udp (handle : nat) (receiver : Chan UdpPacket) : Poll Transfer * Chan UdpPacket :=
  match chan_poll_recv receiver with
  | (Ready (Some pkt), c) => (Ready (TfUdp handle pkt true), c)
  | (Ready None, c) => (Ready (TfUdp handle default_packet false), c)
  | (Pending, c) => (Pending, c)
  end.
(** One that finds no queue is dropped. *)
(* @src clash-lib/src/proxy/wg/device.rs 363 380 DeviceManager::poll_sockets (transfer) *)
Definition take_transfer (t : Transfer) (d : DeviceManager) : DeviceManager :=
  match t with
  | TfTcp h data active =>
    match tcp_queue d !! h with
    | Some q => set_next_poll None (set_queues (<[h := q ++ [(data, active)]]> (tcp_queue d)) (udp_queue d) d)
    | None => d
    end
  | TfUdp h pkt active =>
    match udp_queue d !! h with
    | Some q => set_next_poll None (set_queues (tcp_queue d) (<[h := q ++ [(pkt, active)]]> (udp_queue d)) d)
    | None => d
    end
  end.

(** A TCP socket in the loop: at most one piece is received and one item
    sent. *)
(* @src clash-lib/src/proxy/wg/device.rs 400 453 DeviceManager::poll_sockets (tcp) *)
Definition poll_tcp (s : TcpS) (sender : Chan (list Z)) (queue : option (list (list Z * bool))) :
    TcpS * Chan (list Z) * option (list (list Z * bool)) :=
  let '(finished, s, sender) :=
    if tcp_may_recv s then
      match tcp_recv s with
      | (RecvData data, s) =>
        if bool_decide (data = []) then (false, s, sender)
        else match chan_try_send data sender with
             | Sent c => (false, s, c)
             | _ => (false, tcp_abort s, sender)
             end
      | (RecvFinished, s) => (true, s, sender)
      | (RecvInvalid, s) => (false, s, sender)
      end
    else (false, s, sender) in
  if negb finished && tcp_may_send s then
    match queue with
    | Some ((to_transfer_slice, active) :: q) =>
      if negb active then (tcp_abort s, sender, Some q)
      else
        match tcp_send_slice to_transfer_slice s with
        | (Some sent, s) =>
          (s, sender, Some (if (sent <? length to_transfer_slice)%nat then (drop sent to_transfer_slice, true) :: q else q))
        | (None, s) => (s, sender, Some q)
        end
    | _ => (s, sender, queue)
    end
  else (s, sender, queue).

(** The address of a packet.  [lookup] is what a DNS server at the other end
    answers, [resolve_local] the resolver of the program; [pick] chooses. *)
Context (pick : nat -> nat) (lookup : str -> SocketAddr -> option IpAddr) (resolve_local : str -> option IpAddr).
(* @src clash-lib/src/proxy/wg/device.rs 484 514 DeviceManager::poll_sockets (udp address) *)
Definition packet_ip (dns_servers : list SocketAddr) (dst : SocksAddr) : option IpAddr :=
  match dst with
  | Ip addr => Some (sa_ip addr)
  | Domain domain _ =>
    match parse_ip domain with
    | Some ip => Some ip
    | None =>
      match dns_servers !! (pick (length dns_servers) `mod` length dns_servers)%nat with
      | Some dns_server => lookup domain dns_server
      | None => resolve_local domain
      end
    end
  end.

(* @src clash-lib/src/proxy/wg/device.rs 454 544 DeviceManager::poll_sockets (udp) *)
Definition poll_udp (d : DeviceManager) (s : UdpS) (sender : Chan UdpPacket) (queue : option (list (UdpPacket * bool))) :
    res (UdpS * Chan UdpPacket * option (list (UdpPacket * bool)) * PortPool) :=
  let pool := udp_port_pool d in
  '(exhausted, s, sender) ←
    (if udp_can_recv s then
      match udp_recv_pkt s with
      | (UdpData data from, s) =>
        if bool_decide (data = []) then Ok (false, s, sender)
        else match chan_try_send {| up_data := data; up_src_addr := Ip from; up_dst_addr := any_ipv4 |} sender with
             | Sent c => Ok (false, s, c)
             | _ => Ok (false, udp_close s, sender)
             end
      | (UdpExhausted, s) => Ok (true, s, sender)
      | (UdpTruncated, _) => Panic
      end
    else Ok (false, s, sender));
  if negb exhausted && udp_can_send s then
    match queue with
    | Some ((pkt, active) :: q) =>
      if negb active then Ok (udp_close s, sender, Some q, pool)
      else
        match packet_ip (wd_dns_servers d) (up_dst_addr pkt) with
        | None => Ok (s, sender, Some q, pool)
        | Some ip =>
          '(s, pool) ←
            (if udp_is_open s then Ok (s, pool)
             else
               local ← local_for (is_v4 ip) d;
               match port_next pool with
               | (Ok port, pool) => s ← or_panic (udp_bind local port s); Ok (s, pool)
               | _ => Panic
               end);
          Ok (default s (udp_send_slice (up_data pkt) ip (socks_port (up_dst_addr pkt)) s), sender, Some q, pool)
        end
    | _ => Ok (s, sender, queue, pool)
    end
  else Ok (s, sender, queue, pool).
(** The queue of a handle, if it has one, is replaced. *)
Definition put_queue {A} (h : nat) (q : option (list A)) (m : gmap nat (list A)) : gmap nat (list A) :=
  match q with Some q => <[h := q]> m | None => m end.
(* @src clash-lib/src/proxy/wg/device.rs 398 546 DeviceManager::poll_sockets (each socket) *)
Definition poll_socket (d : DeviceManager) (h : nat) : res DeviceManager :=
  match socket_pairs d !! h with
  | Some (STcp s sender) =>
    let '(s, sender, q) := poll_tcp s sender (tcp_queue d !! h) in
    Ok (set_queues (put_queue h q (tcp_queue d)) (udp_queue d) (set_pairs (<[h := STcp s sender]> (socket_pairs d)) d))
  | Some (SUdp s sender) =>
    '(s, sender, q, pool) ← poll_udp d s sender (udp_queue d !! h);
    Ok (set_pools (tcp_port_pool d) pool
          (set_queues (tcp_queue d) (put_queue h q (udp_queue d)) (set_pairs (<[h := SUdp s sender]> (socket_pairs d)) d)))
  | None => Ok d
  end.
(** Sockets that are no longer active, or not bound, go, and their ports
    return. *)
(* @src clash-lib/src/proxy/wg/device.rs 548 594 DeviceManager::poll_sockets (retain) *)
Definition retain_socket (d : DeviceManager) (h : nat) : DeviceManager :=
  match socket_pairs d !! h with
  | Some (STcp s _) =>
    if tcp_is_active s then d
    else
      set_pools (match tcp_local_port s with Some port => port_release port (tcp_port_pool d) | None => tcp_port_pool d end) (udp_port_pool d)
        (set_queues (delete h (tcp_queue d)) (udp_queue d) (set_pairs (delete h (socket_pairs d)) d))
  | Some (SUdp s _) =>
    if udp_is_open s then d
    else
      set_pools (tcp_port_pool d) (port_release (udp_port s) (udp_port_pool d))
        (set_queues (tcp_queue d) (delete h (udp_queue d)) (set_pairs (delete h (socket_pairs d)) d))
  | None => d
  end.
(** A poll: [net] is what the interface does to each socket, [order] the order
    of the map, [delay] when the interface wants to be polled again. *)
(* @src clash-lib/src/proxy/wg/device.rs 382 604 DeviceManager::poll_sockets (poll) *)
Definition poll_all (net_tcp : nat -> TcpS -> TcpS) (net_udp : nat -> UdpS -> UdpS) (order : list nat) (delay : option Z) (d : DeviceManager) : res DeviceManager :=
  let polled h k := match k with STcp s c => STcp (net_tcp h s) c | SUdp s c => SUdp (net_udp h s) c end in
  let d := set_pairs (map_imap (fun h k => Some (polled h k)) (socket_pairs d)) d in
  d ← res_fold poll_socket d order;
  Ok (set_next_poll (next_poll_of delay) (foldl retain_socket d order)).
End device.

(** ** Lookups over the tunnel ([device.rs]) *)
Section lookup.
Context {NM : NameLib} (from_vec : list Z -> option Message).
Definition add_query (q : Query) (m : Message) : Message := {|
  m_id := m_id m; m_op_code := m_op_code m; m_response := m_response m; m_recursion_desired := true;
  m_recursion_available := m_recursion_available m; m_authoritative := m_authoritative m; m_checking_disabled := m_checking_disabled m;
  m_response_code := m_response_code m; m_answer_count := m_answer_count m; m_queries := m_queries m ++ [q]; m_answers := m_answers m;
  m_edns := m_edns m |}.
(** A host that is no domain name panics. *)
(* @src clash-lib/src/proxy/wg/device.rs 155 168 DeviceManager::look_up_dns (message) *)
Definition query_message (rtype : RecordType) (host : str) : res Message :=
  name ← or_panic (name_from_str_relaxed host ≫= name_append_root);
  Ok (add_query {| q_name := name; q_type := rtype; q_class_in := true |} message_new).
(** The first answer of the type asked for.  The branch for aliases is
    reached by a record that is an alias and of that type, so never. *)
(* @src clash-lib/src/proxy/wg/device.rs 193 225 DeviceManager::look_up_dns (answers) *)
Definition read_answer (rtype : RecordType) (msg : Message) : option IpAddr :=
  match List.find (fun ans => bool_decide (rdata_type (rr_data ans) = rtype)) (m_answers msg) with
  | Some ans =>
    match rtype, rr_data ans with
    | RtA, RdA addr => Some (V4 addr)
    | RtAAAA, RdAAAA addr => Some (V6 addr)
    | _, _ => None
    end
  | None => None
  end.
(** [reply]: what came back, nothing when sending failed, pending when there
    was no answer within five seconds. *)
(* @src clash-lib/src/proxy/wg/device.rs 148 226 DeviceManager::look_up_dns (query) *)
Definition lookup_query (rtype : RecordType) (host : str) (reply : Message -> Poll (option (list Z))) : res (Poll (option IpAddr)) :=
  msg ← query_message rtype host;
  Ok match reply msg with
     | Ready (Some bs) => Ready (msg ← from_vec bs; read_answer rtype msg)
     | Ready None => Ready None
     | Pending => Pending
     end.
(** Both queries share the five seconds of the lookup: when one of them is not
    answered, neither counts. *)
(* @src clash-lib/src/proxy/wg/device.rs ~    pub async fn look_up_dns~ DeviceManager::look_up_dns *)
Definition look_up_dns (addr_v6 : option Z) (host : str) (reply4 reply6 : Message -> Poll (option (list Z))) : res (option IpAddr) :=
  v4 ← lookup_query RtA host reply4;
  match addr_v6 with
  | None => Ok match v4 with Ready ip => ip | Pending => None end
  | Some _ =>
    v6 ← lookup_query RtAAAA host reply6;
    Ok match v4, v6 with
       | Ready _, Ready (Some ip) => Some ip
       | Ready ip, Ready None => ip
       | _, _ => None
       end
  end.
End lookup.

(** ** The handler ([mod.rs]) *)
Section handler.
Context {NL : IpNetLib} (b64_decode : str -> option (list Z)).
(* @src clash-lib/src/proxy/wg/wireguard.rs ~^pub struct Config~ Config *)
Record WgConfig : Type := {
  wc_private_key : list Z; wc_endpoint_public_key : list Z; wc_preshared_key : option (list Z); wc_remote_endpoint : SocketAddr;
  wc_source_peer_ip : Z; wc_source_peer_ipv6 : option Z; wc_keepalive_seconds : option Z; wc_allowed_ips : list IpNet; wc_reserved_bits : list Z }.
Definition no_panic_unwrap {A} (r : res A) : res A := match r with Ok a => Ok a | _ => Panic end.
Definition reserved_of (bits : option (list Z)) : list Z :=
  match bits with Some (a :: b :: c :: _) => [a; b; c] | _ => [0; 0; 0] end.
(** [resolved]: the address of the server.  The order is that of the source:
    an invalid network is an error before an invalid key panics. *)
(* @src clash-lib/src/proxy/wg/mod.rs 101 164 Handler::initialize_inner (config) *)
Definition wg_config (o : WgOptions) (resolved : res (option IpAddr)) : res WgConfig :=
  server_ip ← resolved;
  server_ip ← ok_or server_ip "invalid remote server";
  allowed ← match wgo_allowed_ips o with
            | Some ips => res_fold (fun (acc : list IpNet) (ip : str) => n ← ok_or (ipnet_parse ip) "invalid allowed ip"; Ok (acc ++ [n])) [] ips
            | None => Ok []
            end;
  private_key ← no_panic_unwrap (key_from_str b64_decode (wgo_private_key o));
  public_key ← no_panic_unwrap (key_from_str b64_decode (wgo_public_key o));
  preshared_key ← match wgo_preshared_key o with
                  | Some s => Some <$> no_panic_unwrap (key_from_str b64_decode s)
                  | None => Ok None
                  end;
  Ok {| wc_private_key := private_key; wc_endpoint_public_key := public_key; wc_preshared_key := preshared_key;
        wc_remote_endpoint := sa_new server_ip (wgo_port o); wc_source_peer_ip := wgo_ip o; wc_source_peer_ipv6 := wgo_ipv6 o;
        wc_keepalive_seconds := Some 10; wc_allowed_ips := allowed; wc_reserved_bits := reserved_of (wgo_reserved_bits o) |}.
(* @src clash-lib/src/proxy/wg/mod.rs 192 207 Handler::initialize_inner (dns) *)
Definition wg_dns_servers (o : WgOptions) : res (list SocketAddr) :=
  if wgo_remote_dns_resolve o then
    match wgo_dns o with
    | Some servers => res_fold (fun (acc : list SocketAddr) (s : str) => ip ← or_panic (parse_ip s); Ok (acc ++ [sa_new ip 53])) [] servers
    | None => Ok []
    end
  else Ok [].
(** The tunnel is made once, for the first session; a failure is tried again
    with the next one. *)
(* @src clash-lib/src/proxy/wg/mod.rs ~    async fn initialize_inner~ Handler::initialize_inner *)
Definition initialize_inner {A} (tunnel_new : WgConfig -> res A) (o : WgOptions) (resolved : res (option IpAddr)) (inner : option (A * list SocketAddr)) :
    res (A * list SocketAddr) * option (A * list SocketAddr) :=
  match inner with
  | Some a => (Ok a, inner)
  | None =>
    match (c ← wg_config o resolved; wg ← tunnel_new c; dns ← wg_dns_servers o; Ok (wg, dns)) with
    | Ok a => (Ok a, Some a)
    | e => (e, None)
    end
  end.
(** The address connected to: from a server at the other end, when that is
    configured and the destination is a name, else from the resolver. *)
(* @src clash-lib/src/proxy/wg/mod.rs ~    async fn connect_stream~ Handler::connect_stream *)
Definition wg_remote (pick : nat -> nat) (o : WgOptions) (look_up : str -> SocketAddr -> res (option IpAddr)) (resolve_ : str -> res (option IpAddr))
    (dst : SocksAddr) : res SocketAddr :=
  ip ← (if wgo_remote_dns_resolve o && is_domain dst && match wgo_dns o with Some (_ :: _) => true | _ => false end then
          let dns := default [] (wgo_dns o) in
          server ← or_panic (dns !! (pick (length dns) `mod` length dns)%nat);
          server ← or_panic (parse_ip server);
          ip ← look_up (socks_host dst) (sa_new server 53); ok_or ip "invalid remote address"
        else ip ← resolve_ (socks_host dst); ok_or ip "invalid remote address");
  Ok (sa_new ip (socks_port dst)).
End handler.

(** * Theorems *)

(** ** Keys *)
Definition hex_digit_char (d : Z) : char := if d <? 10 then 48 + d else 87 + d.
Definition show_hex (k : list Z) : str := k ≫= (fun b => [hex_digit_char (b / 16); hex_digit_char (b mod 16)]).

Lemma hex_digit_char_spec d : 0 <= d < 16 -> ascii (hex_digit_char d) /\ (hex_digit_char d =? 43) = false /\ to_digit 16 (hex_digit_char d) = Some d.
Proof.
  intros Hd. unfold hex_digit_char, ascii, to_digit, between.
  destruct (Z.ltb_spec d 10).
  - split_and!; [lia|lia|lia|]. replace ((48 <=? 48 + d) && (48 + d <=? 57)) with true by lia. cbv zeta.
    replace (48 + d - 48 <? 16) with true by lia. f_equal. lia.
  - split_and!; [lia|lia|lia|]. replace ((48 <=? 87 + d) && (87 + d <=? 57)) with false by lia.
    replace ((97 <=? 87 + d) && (87 + d <=? 122)) with true by lia. cbv zeta.
    replace (87 + d - 87 <? 16) with true by lia. f_equal. lia.
Qed.
Lemma show_hex_ascii k : Forall u8 k -> Forall ascii (show_hex k).
Proof.
  unfold show_hex. induction 1 as [|b k Hb _ IH]; [constructor|]. cbn. unfold in_width in Hb.
  constructor; [|constructor]; [apply hex_digit_char_spec; Z.to_euclidean_division_equations; lia..|exact IH].
Qed.
Lemma show_hex_length k : length (show_hex k) = (2 * length k)%nat.
Proof. unfold show_hex. induction k as [|b k IH]; [done|]. cbn. rewrite IH. lia. Qed.
Lemma ascii_not_cont c : ascii c -> is_cont c = false.
Proof. unfold ascii, is_cont, between. lia. Qed.
Lemma hex_bytes_show k : Forall u8 k -> hex_bytes (show_hex k) = Ok k.
Proof.
  induction 1 as [|b k Hb Hk IH]; [done|].
  change (show_hex (b :: k)) with (hex_digit_char (b / 16) :: hex_digit_char (b mod 16) :: show_hex k). unfold in_width in Hb.
  destruct (hex_digit_char_spec (b / 16) ltac:(Z.to_euclidean_division_equations; lia)) as (A1 & N1 & D1).
  destruct (hex_digit_char_spec (b mod 16) ltac:(Z.to_euclidean_division_equations; lia)) as (A2 & N2 & D2).
  cbn [hex_bytes]. rewrite (ascii_not_cont _ A1). cbn [orb].
  assert (starts_inside (show_hex k) = false) as ->.
  { pose proof (show_hex_ascii k Hk) as Ha. destruct (show_hex k) as [|c l]; [done|]. inversion Ha; subst. by apply ascii_not_cont. }
  unfold hex_pair. rewrite N1, D1, D2. cbn [mbind option_bind ok_or res_mbind res_bind]. rewrite IH. rstep. do 2 f_equal.
  Z.to_euclidean_division_equations; lia.
Qed.
(** A key written in hexadecimal is read back. *)
Lemma hex_key_roundtrip b64 k : Forall u8 k -> length k = 32%nat -> key_from_str b64 (show_hex k) = Ok k.
Proof.
  intros Hk Hl. unfold key_from_str, str_len. rewrite utf8_ascii by by apply show_hex_ascii. unfold zlen. rewrite show_hex_length, Hl.
  by apply hex_bytes_show.
Qed.
(** A key in base64 that does not decode, as any without its padding, is taken
    as the key of zeros. *)
Lemma undecoded_key_is_zero b64 s : str_len s = 43 \/ str_len s = 44 -> b64 s = None -> key_from_str b64 s = Ok (repeat 0 32).
Proof. intros [H|H] E; unfold key_from_str; rewrite H, E; done. Qed.

(** ** The ends of a connection *)
#[global] Instance socket_pair_read_laws : ReadLaws SocketPair.
Proof.
  intros cap s bs s'. unfold Async.poll_read, socket_pair_read, chan_poll_recv. case_bool_decide.
  - intros [= <- _]. rewrite length_take. lia.
  - destruct (ch_items _) as [|x l]; [destruct (ch_senders _)|]; [done| |]; intros [= <- _]; [cbn; lia|]. rewrite length_take. lia.
Qed.
#[global] Instance socket_pair_write_laws : WriteLaws SocketPair.
Proof. intros bs s n s'. cbn. destruct (chan_try_send _ _); [|done|done]. by intros [= <- _]. Qed.
(** What is still to be read. *)
Definition sp_left (s : SocketPair) : list Z := sp_read_buf s ++ concat (ch_items (sp_read s)).
(** Reading loses, repeats and reorders nothing. *)
Lemma socket_pair_read_exact cap s bs s' : Async.poll_read cap s = (Ready (Ok bs), s') -> sp_left s = bs ++ sp_left s'.
Proof.
  unfold Async.poll_read, socket_pair_read, sp_left, chan_poll_recv. case_bool_decide as Hb.
  - intros [= <- <-]. cbn. by rewrite app_assoc, take_drop.
  - assert (sp_read_buf s = []) as -> by (destruct (sp_read_buf s); [done|by destruct Hb]).
    destruct (ch_items (sp_read s)) as [|x l] eqn:E; [destruct (ch_senders _)|]; [done| |]; intros [= <- <-]; cbn.
    + by rewrite E.
    + by rewrite app_assoc, take_drop.
Qed.
(** Writing after the loop has dropped its end waits, and with an empty
    channel nothing is left to wake the writer. *)
Lemma closed_write_waits bs s : ch_receiver (sp_write s) = false -> Async.poll_write bs s = (Pending, s).
Proof. intros H. cbn. unfold chan_try_send. by rewrite H. Qed.

(** ** Ports *)
Section values.
Context {V P : Type} (f : V -> option P).
(** The values of a map that have a [P]. *)
Definition values_of (m : gmap nat V) : list P := omap (fun x => f (snd x)) (map_to_list m).
Abbreviation here k := (match f k with Some p => [p] | None => [] end).

Lemma values_of_empty : values_of ∅ = [].
Proof. unfold values_of. by rewrite map_to_list_empty. Qed.
Lemma values_of_insert m h k : m !! h = None -> values_of (<[h := k]> m) ≡ₚ here k ++ values_of m.
Proof. intros H. unfold values_of. rewrite map_to_list_insert by done. cbn. by destruct (f k). Qed.
Lemma values_of_delete m h k : m !! h = Some k -> values_of m ≡ₚ here k ++ values_of (delete h m).
Proof. intros H. rewrite <- (insert_delete_id m h k H) at 1. apply values_of_insert, lookup_delete_eq. Qed.
Lemma values_of_update m h k k' : m !! h = Some k -> f k' = f k -> values_of (<[h := k']> m) ≡ₚ values_of m.
Proof.
  intros H E. rewrite <- insert_delete_eq, (values_of_insert _ _ k') by apply lookup_delete_eq. rewrite E. by rewrite <- values_of_delete.
Qed.
Lemma values_of_update_none m h k k' : m !! h = Some k -> f k' = None -> values_of (<[h := k']> m) ⊆+ values_of m.
Proof.
  intros H E. rewrite <- insert_delete_eq, (values_of_insert _ _ k') by apply lookup_delete_eq. rewrite E. cbn [app].
  rewrite (values_of_delete m h k H). by apply submseteq_inserts_l.
Qed.
Lemma values_of_imap (g : nat -> V -> V) m : (forall h k, f (g h k) = f k \/ f (g h k) = None) -> values_of (map_imap (fun h k => Some (g h k)) m) ⊆+ values_of m.
Proof.
  intros Hg. induction m as [|h k m Hh IH] using map_ind; [by rewrite map_imap_empty|].
  rewrite (map_imap_insert_Some _ h k m (g h k)) by done.
  rewrite (values_of_insert _ h (g h k)) by by rewrite map_lookup_imap, Hh. rewrite values_of_insert by done.
  destruct (Hg h k) as [-> | ->]; [by apply submseteq_app|]. cbn [app]. by apply submseteq_inserts_l.
Qed.
Lemma values_of_elem m h k p : m !! h = Some k -> f k = Some p -> p ∈ values_of m.
Proof. intros H E. rewrite values_of_delete by done. rewrite E. by apply list_elem_of_here. Qed.
Lemma values_of_unique m h1 h2 k1 k2 p : NoDup (values_of m) -> m !! h1 = Some k1 -> m !! h2 = Some k2 -> f k1 = Some p -> f k2 = Some p -> h1 = h2.
Proof.
  intros Hd H1 H2 E1 E2. destruct (decide (h1 = h2)) as [|Hne]; [done|exfalso]. rewrite values_of_delete in Hd by exact H1. rewrite E1 in Hd.
  cbn in Hd. apply NoDup_cons in Hd as [Hd _]. apply Hd. eapply values_of_elem; [|exact E2]. by rewrite lookup_delete_ne.
Qed.
End values.

Section ports.
Context {SM : Smoltcp} {SL : SmoltcpLaws SM}.
Definition tcp_port_of (k : Sock) : option Z := match k with STcp s _ => tcp_local_port s | SUdp _ _ => None end.
Definition udp_port_of (k : Sock) : option Z := match k with SUdp s _ => if udp_port s =? 0 then None else Some (udp_port s) | STcp _ _ => None end.
(** The ports out and in; a 0 in the pool of UDP is none. *)
Definition tcp_ports (d : DeviceManager) : list Z := values_of tcp_port_of (socket_pairs d) ++ pp_queue (tcp_port_pool d).
Definition udp_ports (d : DeviceManager) : list Z :=
  values_of udp_port_of (socket_pairs d) ++ List.filter (fun p => negb (p =? 0)) (pp_queue (udp_port_pool d)).

(** Everything that happens to the device: sockets come, the tasks hand on
    what was written, the loop polls, and the readers use their channels.
    The network can take a TCP socket's endpoint away. *)
Inductive wd_step (d : DeviceManager) : DeviceManager -> Prop :=
| ws_tcp h remote sender d' : socket_pairs d !! h = None -> accept_tcp h remote sender d = Ok d' -> wd_step d d'
| ws_udp h sender : socket_pairs d !! h = None -> wd_step d (accept_udp h sender d)
| ws_transfer t : wd_step d (take_transfer t d)
| ws_poll pick lookup resolve_local net_tcp net_udp order delay d' :
    (forall h s, tcp_local_port (net_tcp h s) = tcp_local_port s \/ tcp_local_port (net_tcp h s) = None) ->
    (forall h s, udp_port (net_udp h s) = udp_port s) ->
    poll_all pick lookup resolve_local net_tcp net_udp order delay d = Ok d' -> wd_step d d'
| ws_tcp_reader h s c c' : socket_pairs d !! h = Some (STcp s c) -> wd_step d (set_pairs (<[h := STcp s c']> (socket_pairs d)) d)
| ws_udp_reader h s c c' : socket_pairs d !! h = Some (SUdp s c) -> wd_step d (set_pairs (<[h := SUdp s c']> (socket_pairs d)) d).

Lemma poll_tcp_port s c q : tcp_local_port (fst (fst (poll_tcp s c q))) = tcp_local_port s.
Proof.
  unfold poll_tcp.
  assert (forall s1 (c1 : Chan (list Z)) (fin : bool), tcp_local_port s1 = tcp_local_port s -> tcp_local_port (fst (fst (
    if negb fin && tcp_may_send s1 then
      match q with
      | Some ((data, active) :: q') =>
        if negb active then (tcp_abort s1, c1, Some q')
        else match tcp_send_slice data s1 with
             | (Some sent, s) => (s, c1, Some (if (sent <? length data)%nat then (drop sent data, true) :: q' else q'))
             | (None, s) => (s, c1, Some q')
             end
      | _ => (s1, c1, q)
      end
    else (s1, c1, q)))) = tcp_local_port s) as Hsend.
  { intros s1 c1 fin E. destruct (negb fin && _); [|done]. destruct q as [[|[data active] q']|]; [done| |done].
    destruct (negb active); cbn [fst]; [by rewrite abort_keeps_port|].
    destruct (tcp_send_slice data s1) as [[n|] s2] eqn:Es; apply send_keeps_port in Es; cbn [fst]; by rewrite Es. }
  destruct (tcp_may_recv s); [|by apply Hsend].
  destruct (tcp_recv s) as [r s1] eqn:Er. apply recv_keeps_port in Er. destruct r as [data| |]; [|by apply Hsend..].
  case_bool_decide; [by apply Hsend|]. destruct (chan_try_send data c); apply Hsend; [done|by rewrite abort_keeps_port..].
Qed.

Abbreviation nonzero := (List.filter (fun p => negb (p =? 0))).
Abbreviation here k := (match k with Some p => [p] | None => [] end).
Lemma poll_udp_ports pick lookup resolve_local d s c q s' c' q' pool : poll_udp pick lookup resolve_local d s c q = Ok (s', c', q', pool) ->
  here (udp_port_of (SUdp s' c')) ++ nonzero (pp_queue pool) ⊆+ here (udp_port_of (SUdp s c)) ++ nonzero (pp_queue (udp_port_pool d)).
Proof.
  unfold poll_udp. intros H. apply res_bind_ok in H as ([[ex s1] c1] & H1 & H).
  assert (udp_port s1 = udp_port s \/ udp_port s1 = 0) as Hs1.
  { destruct (udp_can_recv s); [|injection H1 as _ <- _; by left]. destruct (udp_recv_pkt s) as [r s2] eqn:Er. apply udp_recv_keeps_port in Er.
    destruct r as [data from| |]; [|injection H1 as _ <- _; by left|done].
    case_bool_decide; [injection H1 as _ <- _; by left|].
    destruct (chan_try_send _ c); injection H1 as _ <- _; [by left|right; apply close_port..]. }
  clear H1. cbn [udp_port_of]. set (l := nonzero (pp_queue (udp_port_pool d))) in *.
  assert (forall s2, udp_port s2 = udp_port s1 \/ udp_port s2 = 0 ->
    here (if udp_port s2 =? 0 then None else Some (udp_port s2)) ++ l ⊆+ here (if udp_port s =? 0 then None else Some (udp_port s)) ++ l) as Hkeep.
  { intros s2 H2. destruct (Z.eqb_spec (udp_port s2) 0) as [|Hn]; [by apply submseteq_inserts_l|].
    assert (udp_port s2 = udp_port s) as -> by (destruct H2, Hs1; congruence).
    destruct (Z.eqb_spec (udp_port s) 0); [|done]. destruct H2, Hs1; congruence. }
  destruct (negb ex && udp_can_send s1); [|injection H as <- _ _ <-; apply Hkeep; by left].
  destruct q as [[|[pkt active] q1]|]; [injection H as <- _ _ <-; apply Hkeep; by left| |injection H as <- _ _ <-; apply Hkeep; by left].
  destruct (negb active); [injection H as <- _ _ <-; apply Hkeep; right; apply close_port|].
  destruct (packet_ip _ _ _ _ _) as [ip|]; [|injection H as <- _ _ <-; apply Hkeep; by left].
  apply res_bind_ok in H as ([s2 pool2] & H2 & H). injection H as <- _ _ <-.
  assert (udp_port (default s2 (udp_send_slice (up_data pkt) ip (socks_port (up_dst_addr pkt)) s2)) = udp_port s2) as ->.
  { destruct (udp_send_slice _ _ _ s2) as [s3|] eqn:E; [by eapply udp_send_keeps_port|done]. }
  unfold udp_is_open in H2. destruct (Z.eqb_spec (udp_port s1) 0) as [E0|]; cbn [negb] in H2; [|injection H2 as <- <-; apply Hkeep; by left].
  apply res_bind_ok in H2 as (local & _ & H2). unfold port_next in H2. subst l. destruct (pp_queue (udp_port_pool d)) as [|port l]; [done|].
  apply res_bind_ok in H2 as (s3 & H3 & H2). injection H2 as <- <-. cbn [pp_queue].
  destruct (udp_bind local port s1) as [s4|] eqn:Eb; [|done]. injection H3 as <-. destruct (bind_port _ _ _ _ Eb) as [-> Hz].
  destruct (Z.eqb_spec port 0); [done|]. cbn [List.filter app]. rewrite (proj2 (Z.eqb_neq port 0)) by done. cbn [negb].
  by apply submseteq_inserts_l.
Qed.

Definition fewer (d' d : DeviceManager) : Prop := tcp_ports d' ⊆+ tcp_ports d /\ udp_ports d' ⊆+ udp_ports d.
Lemma fewer_refl d : fewer d d.
Proof. by split. Qed.
Lemma fewer_trans d1 d2 d3 : fewer d1 d2 -> fewer d2 d3 -> fewer d1 d3.
Proof. intros [A1 A2] [B1 B2]. split; by etrans. Qed.
Lemma nonzero_app l k : nonzero (l ++ k) = nonzero l ++ nonzero k.
Proof. apply List.filter_app. Qed.

Lemma poll_socket_fewer pick lookup resolve_local d h d' : poll_socket pick lookup resolve_local d h = Ok d' -> fewer d' d.
Proof.
  unfold poll_socket. destruct (socket_pairs d !! h) as [[s c|s c]|] eqn:E; [| |intros [= <-]; apply fewer_refl].
  - pose proof (poll_tcp_port s c (tcp_queue d !! h)) as Hp. destruct (poll_tcp _ _ _) as [[s1 c1] q1]. cbn [fst] in Hp. intros [= <-].
    split; unfold tcp_ports, udp_ports; cbn; apply submseteq_app; [|done| |done]; by rewrite (values_of_update _ _ _ _ _ E).
  - intros H. apply res_bind_ok in H as ([[[s1 c1] q1] pool] & H & [= <-]). apply poll_udp_ports in H.
    split; unfold tcp_ports, udp_ports; cbn [socket_pairs tcp_port_pool udp_port_pool set_pools set_queues set_pairs].
    + apply submseteq_app; [|done]. by rewrite (values_of_update _ _ _ _ _ E).
    + rewrite <- insert_delete_eq, (values_of_insert _ _ _ (SUdp s1 c1)) by apply lookup_delete_eq. rewrite (values_of_delete _ (socket_pairs d) h _ E).
      rewrite (Permutation_app_comm (here (udp_port_of (SUdp s1 c1)))), (Permutation_app_comm (here (udp_port_of (SUdp s c)))).
      rewrite <- !app_assoc. by apply submseteq_app.
Qed.
Lemma retain_socket_fewer d h : fewer (retain_socket d h) d.
Proof.
  unfold retain_socket. destruct (socket_pairs d !! h) as [[s c|s c]|] eqn:E; [| |apply fewer_refl].
  - destruct (tcp_is_active s); [apply fewer_refl|]. split; unfold tcp_ports, udp_ports; cbn.
    + rewrite (values_of_delete _ (socket_pairs d) h _ E). cbn [tcp_port_of]. destruct (tcp_local_port s) as [p|]; cbn; [|done].
      rewrite (Permutation_app_comm (pp_queue _) [p]). cbn. by rewrite <- Permutation_middle.
    + apply submseteq_app; [|done]. rewrite (values_of_delete _ (socket_pairs d) h _ E). by apply submseteq_inserts_l.
  - destruct (udp_is_open s) eqn:Eo; [apply fewer_refl|]. unfold udp_is_open in Eo. apply negb_false_iff, Z.eqb_eq in Eo.
    split; unfold tcp_ports, udp_ports; cbn.
    + apply submseteq_app; [|done]. rewrite (values_of_delete _ (socket_pairs d) h _ E). by apply submseteq_inserts_l.
    + rewrite nonzero_app, Eo. cbn. rewrite app_nil_r. apply submseteq_app; [|done].
      rewrite (values_of_delete _ (socket_pairs d) h _ E). by apply submseteq_inserts_l.
Qed.
Lemma poll_all_fewer pick lookup resolve_local net_tcp net_udp order delay d d' :
  (forall h s, tcp_local_port (net_tcp h s) = tcp_local_port s \/ tcp_local_port (net_tcp h s) = None) ->
  (forall h s, udp_port (net_udp h s) = udp_port s) ->
  poll_all pick lookup resolve_local net_tcp net_udp order delay d = Ok d' -> fewer d' d.
Proof.
  intros Ht Hu. unfold poll_all. set (d0 := set_pairs _ d). intros H. apply res_bind_ok in H as (d1 & H1 & [= <-]).
  apply (fewer_trans _ d0).
  - apply (fewer_trans _ d1).
    + change (fewer (foldl retain_socket d1 order) d1). clear H1 d0 d. revert d1. induction order as [|h order IH]; intros d1; [apply fewer_refl|].
      cbn [foldl]. eapply fewer_trans; [apply IH|apply retain_socket_fewer].
    + revert H1. generalize d0. clear d0. induction order as [|h order IH]; intros d0; cbn [res_fold]; [intros [= <-]; apply fewer_refl|].
      intros H. apply res_bind_ok in H as (d2 & H2 & H). eapply fewer_trans; [by apply IH|by eapply poll_socket_fewer].
  - split; unfold tcp_ports, udp_ports, d0; cbn; (apply submseteq_app; [|done]); apply values_of_imap; intros h [s c|s c]; cbn.
    + apply Ht.
    + by left.
    + by left.
    + left. by rewrite Hu.
Qed.
Lemma accept_tcp_fewer h remote c d d' : socket_pairs d !! h = None -> accept_tcp h remote c d = Ok d' -> fewer d' d.
Proof.
  intros Hn. unfold accept_tcp. intros H. apply res_bind_ok in H as (local & _ & H). unfold port_next in H.
  destruct (pp_queue (tcp_port_pool d)) as [|port q] eqn:E; [done|]. apply res_bind_ok in H as (s & Hs & [= <-]).
  destruct (tcp_connect _ _ _ _) as [s0|] eqn:Ec; [|done]. injection Hs as ->. apply connect_port in Ec.
  split; unfold tcp_ports, udp_ports; cbn.
  - rewrite E, values_of_insert by done. cbn. rewrite Ec. cbn. by rewrite <- Permutation_middle.
  - apply submseteq_app; [|done]. by rewrite values_of_insert by done.
Qed.
Lemma accept_udp_fewer h c d : socket_pairs d !! h = None -> fewer (accept_udp h c d) d.
Proof.
  intros Hn. split; unfold tcp_ports, udp_ports; cbn; (apply submseteq_app; [|done]); rewrite values_of_insert by done; cbn; [done|].
  by rewrite new_unbound.
Qed.
Lemma wd_step_fewer d d' : wd_step d d' -> fewer d' d.
Proof.
  destruct 1 as [h remote c d' Hn H|h c Hn|t|pick lookup resolve_local nt nu order delay d' Ht Hu H|h s c c' E|h s c c' E].
  - by eapply accept_tcp_fewer.
  - by apply accept_udp_fewer.
  - destruct t as [h data a|h pkt a]; cbn; [destruct (tcp_queue d !! h)|destruct (udp_queue d !! h)]; by split.
  - by eapply poll_all_fewer.
  - split; unfold tcp_ports, udp_ports; cbn; (apply submseteq_app; [|done]); by rewrite (values_of_update _ _ _ _ _ E).
  - split; unfold tcp_ports, udp_ports; cbn; (apply submseteq_app; [|done]); by rewrite (values_of_update _ _ _ _ _ E).
Qed.

Lemma port_range_ok : NoDup PORT_RANGE /\ forall p, p ∈ PORT_RANGE -> MIN_PORT <= p < MAX_PORT.
Proof. split; [apply NoDup_seqZ|]. intros p Hp. unfold PORT_RANGE in Hp. apply elem_of_seqZ in Hp. lia. Qed.
Lemma submseteq_no_dup {A} (l k : list A) : l ⊆+ k -> NoDup k -> NoDup l.
Proof. intros (r & ->)%submseteq_Permutation H. by apply NoDup_app in H as [H _]. Qed.
(** The ports of a reachable device are among those it started with. *)
Lemma reachable_ports addr addr_v6 dns sh1 sh2 d : sh1 PORT_RANGE ≡ₚ PORT_RANGE -> sh2 PORT_RANGE ≡ₚ PORT_RANGE ->
  rtc wd_step (device_manager_new addr addr_v6 dns sh1 sh2) d -> tcp_ports d ⊆+ PORT_RANGE /\ udp_ports d ⊆+ PORT_RANGE.
Proof.
  intros H1 H2 Hr. assert (fewer d (device_manager_new addr addr_v6 dns sh1 sh2)) as [A B].
  { induction Hr as [x|x y z Hxy _ IH]; [apply fewer_refl|]. eapply fewer_trans; [exact IH|by apply wd_step_fewer]. }
  split; (etrans; [eassumption|]); unfold tcp_ports, udp_ports; cbn; rewrite values_of_empty; cbn [app]; [by rewrite H1|].
  assert (forall l : list Z, nonzero l ⊆+ l) as Hf.
  { intros l. induction l as [|x l IH]; [done|]. cbn. destruct (negb _); [by constructor|by apply submseteq_cons]. }
  by rewrite Hf, H2.
Qed.
End ports.

(** C16: ports in the virtual device.  Whatever connections come and go, and
    whatever the network and the readers do, no two TCP sockets have the same
    local port and no two bound UDP sockets have; the port of a socket is in
    the range of the pool and not in the pool at the same time; and every
    port that either pool would give out next is free, and in the range,
    unless it is the 0 that the UDP pool collects. *)
Theorem wg_ports_unique {SM : Smoltcp} (SL : SmoltcpLaws SM) (addr : Z) (addr_v6 : option Z) (dns : list SocketAddr)
    (shuffle_tcp shuffle_udp : list Z -> list Z) (d : DeviceManager)
    (H1 : shuffle_tcp PORT_RANGE ≡ₚ PORT_RANGE) (H2 : shuffle_udp PORT_RANGE ≡ₚ PORT_RANGE)
    (Hreach : rtc wd_step (device_manager_new addr addr_v6 dns shuffle_tcp shuffle_udp) d) :
  (forall h1 h2 s1 s2 c1 c2 p, socket_pairs d !! h1 = Some (STcp s1 c1) -> socket_pairs d !! h2 = Some (STcp s2 c2) ->
     tcp_local_port s1 = Some p -> tcp_local_port s2 = Some p -> h1 = h2) /\
  (forall h1 h2 s1 s2 c1 c2, socket_pairs d !! h1 = Some (SUdp s1 c1) -> socket_pairs d !! h2 = Some (SUdp s2 c2) ->
     udp_is_open s1 = true -> udp_port s1 = udp_port s2 -> h1 = h2) /\
  (forall h s c p, socket_pairs d !! h = Some (STcp s c) -> tcp_local_port s = Some p ->
     MIN_PORT <= p < MAX_PORT /\ p ∉ pp_queue (tcp_port_pool d)) /\
  (forall h s c, socket_pairs d !! h = Some (SUdp s c) -> udp_is_open s = true ->
     MIN_PORT <= udp_port s < MAX_PORT /\ udp_port s ∉ pp_queue (udp_port_pool d)) /\
  (forall p, p ∈ pp_queue (tcp_port_pool d) -> MIN_PORT <= p < MAX_PORT) /\
  (forall p, p ∈ pp_queue (udp_port_pool d) -> p = 0 \/ MIN_PORT <= p < MAX_PORT).
Proof.
  destruct (reachable_ports _ _ _ _ _ _ H1 H2 Hreach) as [Ht Hu]. destruct port_range_ok as [Hnd Hrange].
  pose proof (submseteq_no_dup _ _ Ht Hnd) as Nt. pose proof (submseteq_no_dup _ _ Hu Hnd) as Nu.
  apply NoDup_app in Nt as (Nt & Dt & _). apply NoDup_app in Nu as (Nu & Du & _).
  assert (forall h s c, socket_pairs d !! h = Some (SUdp s c) -> udp_is_open s = true -> udp_port_of (SUdp s c) = Some (udp_port s)) as Hopen.
  { intros h s c _ Ho. cbn. unfold udp_is_open in Ho. apply negb_true_iff in Ho. by rewrite Ho. }
  split; [|split; [|split; [|split; [|split]]]].
  - intros h1 h2 s1 s2 c1 c2 p E1 E2 P1 P2. by eapply (values_of_unique tcp_port_of _ h1 h2); [exact Nt|exact E1|exact E2|..].
  - intros h1 h2 s1 s2 c1 c2 E1 E2 O1 Eq. assert (udp_is_open s2 = true) as O2 by (unfold udp_is_open in *; by rewrite <- Eq).
    eapply (values_of_unique udp_port_of _ h1 h2 _ _ (udp_port s1) Nu E1 E2); [by eapply Hopen|]. rewrite Eq. by eapply Hopen.
  - intros h s c p E Hp. assert (p ∈ values_of tcp_port_of (socket_pairs d)) as Hin by by eapply values_of_elem.
    split; [|by apply Dt]. apply Hrange. eapply elem_of_submseteq; [|exact Ht]. apply elem_of_app. by left.
  - intros h s c E Ho. assert (udp_port s ∈ values_of udp_port_of (socket_pairs d)) as Hin by (eapply values_of_elem; [exact E|by eapply Hopen]).
    split; [apply Hrange; eapply elem_of_submseteq; [|exact Hu]; apply elem_of_app; by left|].
    intros Hq. apply (Du _ Hin), list_elem_of_In, List.filter_In. split; [by apply list_elem_of_In|exact Ho].
  - intros p Hp. apply Hrange. eapply elem_of_submseteq; [|exact Ht]. apply elem_of_app. by right.
  - intros p Hp. destruct (Z.eqb_spec p 0) as [|Hz]; [by left|right]. apply Hrange. eapply elem_of_submseteq; [|exact Hu]. apply elem_of_app. right.
    apply list_elem_of_In, List.filter_In. split; [by apply list_elem_of_In|lia].
Qed.

(** Sockets that only know their port and whether they are open. *)
Section wg_witness.
#[local] Instance plain_smoltcp : Smoltcp := {|
  TcpS := option Z * bool;
  tcp_new := (None, false);
  tcp_connect := fun r _ port s => if (sa_port r =? 0) || (port =? 0) then None else Some (Some port, true);
  tcp_may_recv := snd; tcp_may_send := snd; tcp_is_active := snd;
  tcp_recv := fun s => (RecvData [], s);
  tcp_send_slice := fun bs s => (Some (length bs), s);
  tcp_abort := fun s => (fst s, false);
  tcp_local_port := fst;
  UdpS := Z;
  udp_new := 0;
  udp_bind := fun _ port _ => if port =? 0 then None else Some port;
  udp_can_recv := fun _ => false; udp_can_send := fun _ => true;
  udp_recv_pkt := fun s => (UdpExhausted, s);
  udp_send_slice := fun _ _ _ s => Some s;
  udp_close := fun _ => 0; udp_port := fun s => s;
|}.
#[local] Instance plain_smoltcp_laws : SmoltcpLaws plain_smoltcp.
Proof.
  split; cbn; try done.
  - intros r _ port s s'. destruct ((sa_port r =? 0) || (port =? 0)); [done|]. by intros [= <-].
  - by intros s r s' [= _ <-].
  - by intros bs s n s' [= _ <-].
  - by intros bs s n s' [= <- _].
  - intros _ port _ s'. destruct (Z.eqb_spec port 0); [done|]. by intros [= <-].
  - by intros s r s' [= _ <-].
  - by intros bs ip port s s' [= <-].
Qed.
Definition demo_device : DeviceManager := device_manager_new 0x0A0D0D02 None [] (fun l => l) (fun l => l).
Definition demo_chan {A} : Chan A := {| ch_items := []; ch_cap := 1024; ch_senders := true; ch_receiver := true |}.
Lemma wg_ports_unique_witness : exists d, rtc wd_step demo_device d /\ forall h s c p, socket_pairs d !! h = Some (STcp s c) -> tcp_local_port s = Some p ->
  MIN_PORT <= p < MAX_PORT /\ p ∉ pp_queue (tcp_port_pool d).
Proof.
  assert (exists d, accept_tcp 0 (SV4 1 443) demo_chan demo_device = Ok d) as [d Hd].
  { unfold accept_tcp, demo_device, device_manager_new, port_pool_new, PORT_RANGE. rewrite seqZ_cons by done. by eexists. }
  exists d. assert (rtc wd_step demo_device d) as Hr.
  { eapply rtc_l; [|apply rtc_refl]. exact (ws_tcp demo_device 0 (SV4 1 443) demo_chan d eq_refl Hd). }
  split; [exact Hr|]. exact (proj1 (proj2 (proj2 (wg_ports_unique plain_smoltcp_laws 0x0A0D0D02 None [] (fun l => l) (fun l => l) d (reflexivity _) (reflexivity _) Hr)))).
Defined.
End wg_witness.

(** ** What goes wrong in the loop *)
Section wg_faults.
Context {SM : Smoltcp} {SL : SmoltcpLaws SM}.

(** A UDP socket that is let go gives 0 back to the pool, whatever port it
    had: it is let go because it has none any more. *)
Lemma udp_returns_zero d h s c : socket_pairs d !! h = Some (SUdp s c) -> udp_is_open s = false ->
  pp_queue (udp_port_pool (retain_socket d h)) = pp_queue (udp_port_pool d) ++ [0].
Proof.
  intros E Ho. unfold retain_socket. rewrite E, Ho. cbn. unfold udp_is_open in Ho. apply negb_false_iff, Z.eqb_eq in Ho. by rewrite Ho.
Qed.
(** When such a 0 comes up, binding fails and the loop panics, and with it
    everything that goes through the tunnel. *)
Lemma zero_port_panics pick lookup resolve_local d s c pkt q rest ip : pp_queue (udp_port_pool d) = 0 :: rest -> udp_can_recv s = false -> udp_can_send s = true ->
  udp_is_open s = false -> packet_ip pick lookup resolve_local (wd_dns_servers d) (up_dst_addr pkt) = Some ip ->
  poll_udp pick lookup resolve_local d s c (Some ((pkt, true) :: q)) = Panic.
Proof.
  intros Hq Hr Hs Ho Hip. unfold poll_udp. rewrite Hr. cbn [mbind res_mbind res_bind]. rewrite Hs. cbn [negb andb]. rewrite Hip, Ho.
  destruct (local_for _ d) as [l|e|] eqn:El; cbn [mbind res_mbind res_bind].
  - unfold port_next. rewrite Hq. by rewrite bind_zero.
  - unfold local_for in El. destruct (is_v4 ip); [done|]. by destruct (wd_addr_v6 d).
  - done.
Qed.
(** A UDP socket that is polled before its first packet is there is not bound
    yet, so it is let go; packets that come later find no queue. *)
Lemma new_udp_socket_removed pick lookup resolve_local h c d delay pkt :
  udp_can_recv udp_new = false ->
  exists d', poll_all pick lookup resolve_local (fun _ s => s) (fun _ s => s) [h] delay (accept_udp h c d) = Ok d' /\
    socket_pairs d' !! h = None /\ take_transfer (TfUdp h pkt true) d' = d'.
Proof.
  intros Hr. unfold poll_all, accept_udp. cbn [res_fold mbind res_mbind res_bind foldl].
  unfold poll_socket at 1. cbn [socket_pairs set_pairs set_queues set_next_poll]. rewrite map_lookup_imap, lookup_insert_eq. cbn [mbind option_bind].
  unfold poll_udp. rewrite Hr. cbn [mbind res_mbind res_bind udp_queue set_pairs set_queues set_next_poll]. rewrite lookup_insert_eq.
  assert (forall a b : res (UdpS * Chan UdpPacket * option (list (UdpPacket * bool)) * PortPool), (if negb false && udp_can_send udp_new then a else a) = a) as E by (intros; by destruct (udp_can_send _)).
  rewrite E by exact Panic. cbn [mbind res_mbind res_bind]. unfold retain_socket. cbn [socket_pairs set_pairs set_queues set_pools set_next_poll].
  rewrite lookup_insert_eq. unfold udp_is_open. rewrite new_unbound. cbn [Z.eqb negb].
  eexists. split; [reflexivity|]. cbn. rewrite !lookup_delete_eq. done.
Qed.
(** Handles are slots that are used again, and the task of a connection that
    is gone still has its handle: what the application of the old connection
    writes is queued for the new one. *)
Lemma stale_bytes_reach_new_connection h remote c d d' old data rest : accept_tcp h remote c d = Ok d' -> ch_items old = data :: rest ->
  exists t old', forward_tcp h old = (Ready t, old') /\ tcp_queue (take_transfer t d') !! h = Some [(data, true)].
Proof.
  intros H Ho. unfold forward_tcp, chan_poll_recv. rewrite Ho. do 2 eexists. split; [reflexivity|].
  unfold accept_tcp in H. apply res_bind_ok in H as (l & _ & H). destruct (port_next _) as [[port| |] pool]; [|done|done].
  apply res_bind_ok in H as (s & _ & [= <-]). cbn. rewrite lookup_insert_eq. cbn. by rewrite lookup_insert_eq.
Qed.
(** Closing a connection aborts the socket: what it had still to transmit is
    lost. *)
Lemma close_aborts s c q : tcp_may_recv s = false -> tcp_may_send s = true -> poll_tcp s c (Some (([], false) :: q)) = (tcp_abort s, c, Some q).
Proof. intros Hr Hs. unfold poll_tcp. rewrite Hr, Hs. done. Qed.
(** So does a reader that is a full channel behind: the connection is
    aborted, and the bytes received are lost. *)
Lemma slow_reader_aborts s c q data s' : tcp_may_recv s = true -> tcp_recv s = (RecvData data, s') -> data <> [] -> (ch_cap c <= length (ch_items c))%nat ->
  tcp_may_send (tcp_abort s') = false -> poll_tcp s c q = (tcp_abort s', c, q).
Proof.
  intros Hr Hd Hn Hfull Hs. unfold poll_tcp. rewrite Hr, Hd, bool_decide_eq_false_2 by done. unfold chan_try_send.
  rewrite (proj2 (Nat.ltb_ge _ _)) by lia. destruct (ch_receiver c); cbn [negb]; by rewrite Hs.
Qed.
(** Sending keeps the order: what the socket did not take stays in front. *)
Lemma poll_tcp_sends_prefix s c data q sent s' : tcp_may_recv s = false -> tcp_may_send s = true -> tcp_send_slice data s = (Some sent, s') ->
  exists q', poll_tcp s c (Some ((data, true) :: q)) = (s', c, Some q') /\ data ++ concat (map fst q) = take sent data ++ concat (map fst q').
Proof.
  intros Hr Hs He. unfold poll_tcp. rewrite Hr, Hs. cbn [negb andb]. rewrite He. eexists. split; [reflexivity|].
  pose proof (send_fits _ _ _ _ He). destruct (Nat.ltb_spec sent (length data)).
  - cbn. by rewrite app_assoc, take_drop.
  - by rewrite take_ge by lia.
Qed.
(** Without an IPv6 address a connection to one panics the loop. *)
Lemma v6_target_panics h a p f s c d : wd_addr_v6 d = None -> accept_tcp h (SV6 a p f s) c d = Panic.
Proof. intros H. unfold accept_tcp, local_for. cbn. by rewrite H. Qed.
End wg_faults.

(** ** The tunnel *)
Section tunnel_spec.
Context {TL : TunnLib} {NL : IpNetLib} {WL : WireLib}.
(** The reserved bytes are invisible to the peers: whatever they are, the
    receiver clears them. *)
Lemma reserved_cleared bits packet : length bits = 3%nat -> put_reserved [0; 0; 0] (put_reserved bits packet) = put_reserved [0; 0; 0] packet.
Proof.
  intros Hb. destruct bits as [|b1 [|b2 [|b3 [|]]]]; try done. by destruct packet as [|x1 [|x2 [|x3 [|x4 rest]]]].
Qed.

Lemma drain_peer_written fuel w w' : drain_peer fuel w = Some w' -> wt_written w' = wt_written w.
Proof.
  revert w. induction fuel as [|fuel IH]; intros w; [done|]. cbn [drain_peer]. destruct (decapsulate [] (peer w)) as [r p].
  destruct r; try by intros [= <-]. unfold wt_udp_send. destruct (wt_up _) eqn:E; [|by intros [= <-]]. intros H. by apply IH in H.
Qed.
(** Draining ends when the peer has only so many packets to send. *)
Lemma drain_peer_ends (left : Tunn -> nat) : (forall p packet p', decapsulate [] p = (TrWriteToNetwork packet, p') -> (left p' < left p)%nat) ->
  forall w, exists w', drain_peer (S (left (peer w))) w = Some w'.
Proof.
  intros Hl w. cut (forall fuel w, (left (peer w) < fuel)%nat -> exists w', drain_peer fuel w = Some w').
  { intros H. apply H. lia. }
  induction fuel as [|fuel IH]; intros w0 Hf; [lia|]. cbn [drain_peer]. destruct (decapsulate [] (peer w0)) as [r p] eqn:E.
  destruct r; try by eexists. unfold wt_udp_send. destruct (wt_up _); [|by eexists]. apply IH. apply Hl in E. cbn. lia.
Qed.
(** Only packets that the peer decrypted, from an allowed address, for our
    own address and of TCP or UDP reach the virtual device. *)
Lemma only_allowed_reach_device fuel data w w' : receive_datagram fuel data w = Some w' ->
  wt_written w' = wt_written w \/
  exists packet addr proto, wt_written w' = wt_written w ++ [(proto, packet)] /\
    (fst (decapsulate (put_reserved [0; 0; 0] data) (peer w)) = match addr with V4 a => TrWriteToTunnelV4 packet a | V6 a => TrWriteToTunnelV6 packet a end) /\
    is_ip_allowed addr w = true /\ route_protocol packet w = Some proto.
Proof.
  unfold receive_datagram. destruct (decapsulate _ (peer w)) as [r p]. cbn [fst].
  assert (forall packet addr, let w2 := to_device packet addr (set_peer p w) in wt_written w2 = wt_written w \/
    exists proto, wt_written w2 = wt_written w ++ [(proto, packet)] /\ is_ip_allowed addr w = true /\ route_protocol packet w = Some proto) as Hdev.
  { intros packet addr. unfold to_device. change (is_ip_allowed addr (set_peer p w)) with (is_ip_allowed addr w).
    change (route_protocol packet (set_peer p w)) with (route_protocol packet w).
    destruct (is_ip_allowed addr w); [|by left]. destruct (route_protocol packet w) as [proto|]; [|by left]. right. by exists proto. }
  destruct r as [| |packet|packet addr|packet addr].
  - intros [= <-]. by left.
  - intros [= <-]. by left.
  - unfold wt_udp_send. destruct (wt_up _); [|intros [= <-]; by left]. intros H. apply drain_peer_written in H. by left.
  - intros [= <-]. destruct (Hdev packet (V4 addr)) as [?|(proto & ? & ? & ?)]; [by left|]. right. exists packet, (V4 addr), proto. by split_and!.
  - intros [= <-]. destruct (Hdev packet (V6 addr)) as [?|(proto & ? & ? & ?)]; [by left|]. right. exists packet, (V6 addr), proto. by split_and!.
Qed.
End tunnel_spec.

(** An invalid key is accepted when the configuration is read and panics at
    the first connection. *)
Lemma invalid_key_panics {NL : IpNetLib} b64 o ip e : wgo_allowed_ips o = None -> key_from_str b64 (wgo_private_key o) = Err e ->
  wg_config b64 o (Ok (Some ip)) = Panic.
Proof. intros H1 H2. unfold wg_config. rewrite H1, H2. done. Qed.
(** One of two queries unanswered makes the lookup fail, the other's answer
    notwithstanding. *)
Lemma one_timeout_fails {NM : NameLib} from_vec a6 host reply4 (ip : IpAddr) reply6 m6 : query_message RtAAAA host = Ok m6 ->
  lookup_query from_vec RtA host reply4 = Ok (Ready (Some ip)) -> reply6 m6 = Pending -> look_up_dns from_vec (Some a6) host reply4 reply6 = Ok None.
Proof. intros Hm H4 H6. unfold look_up_dns. rewrite H4. rstep. unfold lookup_query. rewrite Hm. rstep. by rewrite H6. Qed.
