(* ===== verification/HyConn.v ===== *)
(** * Hysteria2 connections ([proxy/hysteria2/{mod,udp_hop,congestion}.rs])

    The authenticated QUIC connection that all sessions of an outbound
    share, the socket that changes ports below it, and the congestion
    controller.  What the UDP sockets receive is a schedule, the answer of
    the server and the QUIC handshake are arguments. *)

From S2P Require Import Prelude F64 Str Net Session Converters.

(** ** Port hopping ([udp_hop.rs]) *)
Record Meta : Type := { m_addr : SocketAddr }.
Inductive IoKind : Type := TimedOut | OtherKind.
(** What the next polls of a UDP socket meet: datagrams with their sources,
    then it waits. *)
Inductive UdpEv : Type := UdWait | UdRecv (ds : list (Meta * list Z)) | UdErr (e : IoKind).
Record UdpSocket : Type := { us_in : list UdpEv; us_sent : list (SocketAddr * list Z) }.

Inductive Poll_ : Type := PWait | PRecv (n : nat) | PErr (e : IoKind).

(** [poll_recv] fills both slices from their beginnings, as far as the
    shorter reaches; a datagram without a place is kept for the next call. *)
Definition place {A} (xs l : list A) : list A := xs ++ drop (length xs) l.
Definition sock_recv (s : UdpSocket) (bufs : list (list Z)) (meta : list Meta) : Poll_ * UdpSocket * list (list Z) * list Meta :=
  match us_in s with
  | [] => (PWait, s, bufs, meta)
  | UdWait :: l => (PWait, {| us_in := l; us_sent := us_sent s |}, bufs, meta)
  | UdErr e :: l => (PErr e, {| us_in := l; us_sent := us_sent s |}, bufs, meta)
  | UdRecv ds :: l =>
    let n := (length ds `min` length bufs `min` length meta)%nat in
    (PRecv n, {| us_in := match drop n ds with [] => l | ds' => UdRecv ds' :: l end; us_sent := us_sent s |},
     place (snd <$> take n ds) bufs, place (fst <$> take n ds) meta)
  end.

(* @src clash-lib/src/proxy/hysteria2/udp_hop.rs ~^struct HopState~ HopState *)
Record HopState : Type := { prev_conn : option UdpSocket; cur_conn : UdpSocket; last : Z; new_hop_port : Z }.
(* @src clash-lib/src/proxy/hysteria2/udp_hop.rs ~^pub struct UdpHop~ UdpHop *)
Record UdpHop : Type := { hop_state : HopState; init_port : Z; port_range : PortGenerator; interval : Z }.
Definition with_state (st : HopState) (u : UdpHop) : UdpHop :=
  {| hop_state := st; init_port := init_port u; port_range := port_range u; interval := interval u |}.
(** In nanoseconds. *)
(* @src clash-lib/src/proxy/hysteria2/udp_hop.rs 42 42 UdpHop::DEFAULT_INTERVAL *)
Definition DEFAULT_INTERVAL : Z := 30 * 10 ^ 9.

(** [bind]: a new socket on any address of IPv4, wrapped for the runtime. *)
(* @src clash-lib/src/proxy/hysteria2/udp_hop.rs ~    pub fn new\(~ UdpHop::new *)
Definition udp_hop_new (bind : res UdpSocket) (now : Z) (port : Z) (range : PortGenerator) (ival : option Z) : res UdpHop :=
  socket ← bind;
  Ok {| hop_state := {| prev_conn := None; cur_conn := socket; last := now; new_hop_port := port |};
        init_port := port; port_range := range; interval := default DEFAULT_INTERVAL ival |}.

(** [idx] is the random number of the generator; when no socket can be bound
    the port stays. *)
(* @src clash-lib/src/proxy/hysteria2/udp_hop.rs ~    fn hop\(&self\)~ UdpHop::hop *)
Definition hop (now : Z) (bind : res UdpSocket) (idx : Z) (u : UdpHop) : res (Z * UdpHop) :=
  let st := hop_state u in
  if bool_decide (interval u < now - last st) && bool_decide (prev_conn st = None :> option UdpSocket) then
    match bind with
    | Ok new_conn =>
      port ← pg_get idx (port_range u);
      Ok (port, with_state {| prev_conn := Some (cur_conn st); cur_conn := new_conn; last := now; new_hop_port := port |} u)
    | Err _ => Ok (new_hop_port st, with_state {| prev_conn := None; cur_conn := cur_conn st; last := now; new_hop_port := new_hop_port st |} u)
    | Panic => Panic
    end
  else Ok (new_hop_port st, u).

(** [SocketAddr::set_port] *)
Definition set_port (p : Z) (a : SocketAddr) : SocketAddr := match a with SV4 ip _ => SV4 ip p | SV6 ip _ f s => SV6 ip p f s end.

(** The datagram goes to the port of now; the kernel's answer is [sent]. *)
(* @src clash-lib/src/proxy/hysteria2/udp_hop.rs ~    fn try_send\(~ UdpHop::try_send *)
Definition try_send (now : Z) (bind : res UdpSocket) (idx : Z) (sent : res unit) (dest : SocketAddr) (data : list Z) (u : UdpHop) : res unit * UdpHop :=
  match hop now bind idx u with
  | Ok (port, u) =>
    let st := hop_state u in
    let cur := match sent with
               | Ok _ => {| us_in := us_in (cur_conn st); us_sent := us_sent (cur_conn st) ++ [(set_port port dest, data)] |}
               | _ => cur_conn st
               end in
    (sent, with_state {| prev_conn := prev_conn st; cur_conn := cur; last := last st; new_hop_port := new_hop_port st |} u)
  | Err e => (Err e, u)
  | Panic => (Panic, u)
  end.

Definition rewrite_port (p : Z) (m : Meta) : Meta := {| m_addr := set_port p (m_addr m) |}.
(** After [len] datagrams of the old socket, the current one is read into all
    of [bufs] and into [meta] from there on. *)
(* @src clash-lib/src/proxy/hysteria2/udp_hop.rs 209 232 UdpHop::poll_recv (current socket) *)
Definition recv_current (prev : option UdpSocket) (len : nat) (bufs : list (list Z)) (meta : list Meta) (u : UdpHop) : Poll_ * UdpHop * list (list Z) * list Meta :=
  let st := hop_state u in
  let seen := rewrite_port (init_port u) <$> take len meta in
  let '(r, cur, bufs, rest) := sock_recv (cur_conn st) bufs (drop len meta) in
  let u' := with_state {| prev_conn := prev; cur_conn := cur; last := last st; new_hop_port := new_hop_port st |} u in
  match r with
  | PWait => (if (0 <? len)%nat then PRecv len else PWait, u', bufs, seen ++ rest)
  | PRecv n => (PRecv (len + n), u', bufs, seen ++ (rewrite_port (init_port u) <$> take n rest) ++ drop n rest)
  | PErr e => (PErr e, u', bufs, seen ++ rest)
  end.
(** The old socket first; one that fails is let go. *)
(* @src clash-lib/src/proxy/hysteria2/udp_hop.rs ~    fn poll_recv\(~ UdpHop::poll_recv *)
Definition poll_recv (bufs : list (list Z)) (meta : list Meta) (u : UdpHop) : Poll_ * UdpHop * list (list Z) * list Meta :=
  let st := hop_state u in
  match prev_conn st with
  | Some p =>
    match sock_recv p bufs meta with
    | (PRecv n, p, bufs, meta) => recv_current (Some p) n bufs meta u
    | (PErr TimedOut, p, bufs, meta) =>
      (PErr TimedOut, with_state {| prev_conn := Some p; cur_conn := cur_conn st; last := last st; new_hop_port := new_hop_port st |} u, bufs, meta)
    | (PErr _, p, bufs, meta) => recv_current None 0 bufs meta u
    | (PWait, p, bufs, meta) => recv_current (Some p) 0 bufs meta u
    end
  | None => recv_current None 0 bufs meta u
  end.

(** ** The connection ([mod.rs]) *)
(* @src clash-lib/src/proxy/hysteria2/mod.rs ~^enum CcRx~ CcRx *)
Inductive CcRx : Type := CcAuto | CcFixed (n : Z).
(* @src clash-lib/src/proxy/hysteria2/mod.rs ~^impl FromStr for CcRx~ CcRx::from_str *)
Definition cc_rx_from_str (s : str) : option CcRx :=
  if eq_ignore_ascii_case s (lit "auto") then Some CcAuto else CcFixed <$> parse_uint 64 s.
(** [str::parse::<bool>] *)
Definition parse_bool (s : str) : option bool :=
  if bool_decide (s = lit "true") then Some true else if bool_decide (s = lit "false") then Some false else None.

(** The response: its status and its headers as text, [None] within when a
    value is not visible ASCII. *)
(* @src clash-lib/src/proxy/hysteria2/mod.rs ~    async fn auth\(~ Handler::auth *)
Definition auth (response : res (Z * (str -> option (option str)))) : res (CcRx * bool) :=
  '(status, headers) ← response;
  if negb (status =? 233) then Err "auth failed: response status code"
  else
    v ← ok_or (headers (lit "Hysteria-CC-RX")) "auth failed: missing Hysteria-CC-RX header";
    v ← ok_or v "to_str"; cc_rx ← ok_or (cc_rx_from_str v) "parse";
    v ← ok_or (headers (lit "Hysteria-UDP")) "auth failed: missing Hysteria-UDP header";
    v ← ok_or v "to_str"; support_udp ← ok_or (parse_bool v) "parse";
    Ok (cc_rx, support_udp).

(** The socket below the endpoint: obfuscation goes before hopping, and only
    the first and the last are bound to the interface and the mark of the
    session. *)
Inductive Socket : Type := SalamanderSocket (key : list Z) (iface mark : bool) | HoppingSocket (port : Z) (g : PortGenerator) | PlainSocket (iface mark : bool).
(* @src clash-lib/src/proxy/hysteria2/mod.rs 206 244 Handler::new_authed_connection_inner (socket) *)
Definition socket_of (o : HystOption) (has_iface has_mark : bool) (server : SocketAddr) : Socket :=
  match ho_obfs o, ho_ports o with
  | Some key, _ => SalamanderSocket key has_iface has_mark
  | None, Some port_gen => HoppingSocket (sa_port server) port_gen
  | None, None => PlainSocket has_iface has_mark
  end.

(** What an outbound keeps: its connection with whether it was closed, the
    next session, and whether the server relays UDP. *)
(* @src clash-lib/src/proxy/hysteria2/mod.rs ~^pub struct Handler~ Handler *)
Record Handler : Type := { h_opts : HystOption; h_conn : option (nat * bool); h_next_session_id : Z; h_support_udp : bool }.
(* @src clash-lib/src/proxy/hysteria2/mod.rs ~    pub fn new\(opts~ Handler::new *)
Definition handler_new (o : HystOption) : Handler := {| h_opts := o; h_conn := None; h_next_session_id := 0; h_support_udp := true |}.

Section connect.
(** The QUIC connection to an address over a socket, with the response to the
    request of authentication. *)
Context (resolve : str -> res (option IpAddr)) (quic_connect : SocketAddr -> Socket -> res (nat * res (Z * (str -> option (option str))))).

(* @src clash-lib/src/proxy/hysteria2/mod.rs ~    async fn new_authed_connection_inner~ Handler::new_authed_connection_inner *)
Definition new_authed_connection_inner (iface mark : bool) (h : Handler) : res (nat * bool) :=
  server ← match ho_addr (h_opts h) with
           | Ip a => Ok a
           | Domain d port => ip ← resolve d; ip ← ok_or ip "resolve domain failed"; Ok (sa_new ip port)
           end;
  '(session, response) ← quic_connect server (socket_of (h_opts h) iface mark server);
  '(_, udp) ← auth response;
  Ok (session, udp).

(** The shared connection while it is open, a new one otherwise. *)
(* @src clash-lib/src/proxy/hysteria2/mod.rs ~    pub async fn new_authed_connection\(~ Handler::new_authed_connection *)
Definition new_authed_connection (iface mark : bool) (h : Handler) : res nat * Handler :=
  match h_conn h with
  | Some (c, false) => (Ok c, h)
  | _ =>
    match new_authed_connection_inner iface mark h with
    | Ok (c, udp) => (Ok c, {| h_opts := h_opts h; h_conn := Some (c, false); h_next_session_id := h_next_session_id h; h_support_udp := udp |})
    | Err e => (Err e, h)
    | Panic => (Panic, h)
    end
  end.

(** Every datagram session has a number of its own, which wraps. *)
(* @src clash-lib/src/proxy/hysteria2/mod.rs ~    async fn connect_datagram~#1 Handler::connect_datagram *)
Definition connect_datagram (iface mark : bool) (h : Handler) : res (nat * Z) * Handler :=
  let '(r, h) := new_authed_connection iface mark h in
  match r with
  | Ok c => (Ok (c, h_next_session_id h),
             {| h_opts := h_opts h; h_conn := h_conn h; h_next_session_id := wrap 32 (h_next_session_id h + 1); h_support_udp := h_support_udp h |})
  | Err e => (Err e, h)
  | Panic => (Panic, h)
  end.
End connect.

(** ** The congestion controller ([congestion.rs])

    Times are in nanoseconds; [as u64] of a float saturates. *)
Definition SLOT_COUNT : Z := 5.
Definition MIN_SAMPLE_COUNT : Z := 50.
Definition MIN_ACKRATE : f64 := flit 8 10.
Definition CONGESTION_WINDOW_MULTIPLIER : Z := 2.
Definition INITIAL_PACKET_SIZE_IPV4 : Z := 1252.
Definition f_to_u64 : f64 -> Z := f_to_int 0 (2 ^ 64 - 1).

(* @src clash-lib/src/proxy/hysteria2/congestion.rs ~^struct SlotInfo~ SlotInfo *)
Record SlotInfo : Type := { sl_time : Z; sl_lost : Z; sl_ack : Z }.
(* @src clash-lib/src/proxy/hysteria2/congestion.rs ~^pub struct Burtal~ Burtal *)
Record Burtal : Type := {
  bu_ack : Z; last_lost_packet_num : Z; slots : list SlotInfo; ack_rate : f64; bps : Z; max_datagram_size : Z;
  last_send_time : option Z; budget_at_last_sent : Z; rtt : Z; in_flight : Z }.
(* @src clash-lib/src/proxy/hysteria2/congestion.rs ~    pub fn new\(bps~ Burtal::new *)
Definition burtal_new (b : Z) : Burtal :=
  {| bu_ack := 0; last_lost_packet_num := 0; slots := replicate 5 {| sl_time := 0; sl_lost := 0; sl_ack := 0 |}; ack_rate := fzero; bps := b;
     max_datagram_size := INITIAL_PACKET_SIZE_IPV4; last_send_time := None; budget_at_last_sent := 0; rtt := 0; in_flight := 0 |}.
(* @src clash-lib/src/proxy/hysteria2/congestion.rs ~    fn get_bandwidth~ Burtal::get_bandwidth *)
Definition get_bandwidth (b : Burtal) : f64 := fdiv (f_of_Z (bps b)) (ack_rate b).

Section burtal.
Context (oc : bool).
(* @src clash-lib/src/proxy/hysteria2/congestion.rs 86 100 Burtal::window *)
Definition window (b : Burtal) : res Z :=
  if (max_datagram_size b <=? budget_at_last_sent b) || bool_decide (last_send_time b = None) then
    if rtt b =? 0 then Ok 10240
    else
      x ← arith oc 64 (bps b * rtt b); x ← arith oc 64 (x * CONGESTION_WINDOW_MULTIPLIER);
      Ok (f_to_u64 (fdiv (f_of_Z x) (ack_rate b)))
  else Ok 0.
(** [f64::min] *)
Definition fmin (x y : f64) : f64 := if is_nan x then y else if is_nan y then x else if flt y x then y else x.
(* @src clash-lib/src/proxy/hysteria2/congestion.rs 102 122 Burtal::on_sent *)
Definition on_sent (now bytes : Z) (b : Burtal) : res Burtal :=
  m ← arith oc 64 (10 * max_datagram_size b);
  let max := fmax (fdiv (fmul (f_of_Z 2000000) (get_bandwidth b)) (f_of_Z (10 ^ 9))) (f_of_Z m) in
  budget ← match last_send_time b with
           | None => Ok max
           | Some t =>
             x ← arith oc 64 (as_secs (Z.max 0 (now - t)) * f_to_u64 (get_bandwidth b));
             Ok (fmin max (f_of_Z (Z.min (2 ^ 64 - 1) (budget_at_last_sent b + x))))
           end;
  Ok {| bu_ack := bu_ack b; last_lost_packet_num := last_lost_packet_num b; slots := slots b; ack_rate := ack_rate b; bps := bps b;
        max_datagram_size := max_datagram_size b; last_send_time := Some now;
        budget_at_last_sent := if f_to_u64 budget <? bytes then 0 else f_to_u64 budget - bytes; rtt := rtt b; in_flight := in_flight b |}.
(* @src clash-lib/src/proxy/hysteria2/congestion.rs 124 126 Burtal::on_mtu_update *)
Definition on_mtu_update (mtu : Z) (b : Burtal) : Burtal :=
  {| bu_ack := bu_ack b; last_lost_packet_num := last_lost_packet_num b; slots := slots b; ack_rate := ack_rate b; bps := bps b;
     max_datagram_size := mtu; last_send_time := last_send_time b; budget_at_last_sent := budget_at_last_sent b; rtt := rtt b; in_flight := in_flight b |}.
(* @src clash-lib/src/proxy/hysteria2/congestion.rs 128 136 Burtal::on_end_acks *)
Definition on_end_acks (n : Z) (b : Burtal) : Burtal :=
  {| bu_ack := bu_ack b; last_lost_packet_num := last_lost_packet_num b; slots := slots b; ack_rate := ack_rate b; bps := bps b;
     max_datagram_size := max_datagram_size b; last_send_time := last_send_time b; budget_at_last_sent := budget_at_last_sent b; rtt := rtt b;
     in_flight := n |}.
(** [lost]: the packets the connection counts as lost; [elapsed]: how long
    ago the packet was sent. *)
(* @src clash-lib/src/proxy/hysteria2/congestion.rs 138 180 Burtal::on_congestion_event *)
Definition on_congestion_event (lost elapsed : Z) (b : Burtal) : res Burtal :=
  let t := as_secs elapsed in
  let idx := Z.to_nat (t mod SLOT_COUNT) in
  new_lost ← arith oc 64 (lost - last_lost_packet_num b);
  slot ← or_panic (slots b !! idx);
  slot ← (if negb (sl_time slot =? t) then Ok {| sl_time := t; sl_lost := new_lost; sl_ack := bu_ack b |}
          else
            n ← arith oc 64 (sl_lost slot + new_lost);
            _ ← arith oc 64 (bu_ack b + bu_ack b);
            Ok {| sl_time := t; sl_lost := n; sl_ack := sl_ack slot |});
  let slots' := <[idx := slot]> (slots b) in
  '(ack, lost_sum) ← res_fold (fun '(ack, lost) x => a ← arith oc 64 (ack + sl_ack x); l ← arith oc 64 (lost + sl_lost x); Ok (a, l)) (0, 0)
                    (filter (fun x => sl_time x < 5) slots');
  sum ← arith oc 64 (ack + lost_sum);
  let x := fdiv (f_of_Z ack) (f_of_Z sum) in
  Ok {| bu_ack := 0; last_lost_packet_num := lost; slots := slots';
        ack_rate := if sum <? MIN_SAMPLE_COUNT then f_of_Z 1 else if flt x MIN_ACKRATE then MIN_ACKRATE else x; bps := bps b;
        max_datagram_size := max_datagram_size b; last_send_time := last_send_time b; budget_at_last_sent := budget_at_last_sent b; rtt := rtt b;
        in_flight := in_flight b |}.
(* @src clash-lib/src/proxy/hysteria2/congestion.rs 182 192 Burtal::on_ack *)
Definition on_ack (rtt_ns : Z) (b : Burtal) : res Burtal :=
  a ← arith oc 64 (bu_ack b + 1);
  Ok {| bu_ack := a; last_lost_packet_num := last_lost_packet_num b; slots := slots b; ack_rate := ack_rate b; bps := bps b;
        max_datagram_size := max_datagram_size b; last_send_time := last_send_time b; budget_at_last_sent := budget_at_last_sent b;
        rtt := as_secs rtt_ns; in_flight := in_flight b |}.
End burtal.

(** * Theorems *)

(** ** Port hopping *)
Lemma place_length {A} (xs l : list A) : (length xs <= length l)%nat -> length (place xs l) = length l.
Proof. intros H. unfold place. rewrite length_app, length_drop. lia. Qed.
Lemma sock_recv_meta s bufs meta r s' bufs' meta' : sock_recv s bufs meta = (r, s', bufs', meta') ->
  length meta' = length meta /\ match r with PRecv n => (n <= length meta)%nat | _ => meta' = meta end.
Proof.
  unfold sock_recv. destruct (us_in s) as [|[|ds|e] l]; intros [= <- _ _ <-]; try done.
  set (n := (length ds `min` length bufs `min` length meta)%nat). split; [|lia]. apply place_length.
  rewrite length_fmap, length_take. lia.
Qed.
Lemma set_port_port p a : sa_port (set_port p a) = p.
Proof. by destruct a. Qed.

Lemma recv_current_ports prev len bufs meta u n u' bufs' meta' : (len <= length meta)%nat ->
  recv_current prev len bufs meta u = (PRecv n, u', bufs', meta') ->
  (n <= length meta')%nat /\ Forall (fun m => sa_port (m_addr m) = init_port u) (take n meta').
Proof.
  intros Hlen. unfold recv_current. set (seen := rewrite_port (init_port u) <$> take len meta).
  assert (length seen = len) as Hl by (unfold seen; rewrite length_fmap, length_take; lia).
  assert (forall l, Forall (fun m => sa_port (m_addr m) = init_port u) (rewrite_port (init_port u) <$> l)) as Hp.
  { intros l. apply Forall_fmap, Forall_true. intros m. apply set_port_port. }
  destruct (sock_recv (cur_conn (hop_state u)) bufs (drop len meta)) as [[[r cur] bufs2] rest] eqn:E. apply sock_recv_meta in E as [El Er].
  destruct r as [|k|e]; [| |done].
  - destruct (Nat.ltb_spec 0 len); [|done]. intros [= <- _ _ <-]. rewrite length_app, take_app_length' by done. split; [lia|apply Hp].
  - intros [= <- _ _ <-]. rewrite app_assoc, (take_app_length' _ _ (len + k)) by (rewrite length_app, length_fmap, length_take; lia).
    rewrite !length_app, length_fmap, length_take. split; [lia|]. apply Forall_app. split; apply Hp.
Qed.

(** Whatever socket a datagram came in by, QUIC sees it come from the port
    it connected to. *)
Lemma recv_from_init_port bufs meta u n u' bufs' meta' : poll_recv bufs meta u = (PRecv n, u', bufs', meta') ->
  (n <= length meta')%nat /\ Forall (fun m => sa_port (m_addr m) = init_port u) (take n meta').
Proof.
  unfold poll_recv. destruct (prev_conn (hop_state u)) as [p|]; [|apply recv_current_ports; lia].
  destruct (sock_recv p bufs meta) as [[[r1 p1] b1] m1] eqn:E. apply sock_recv_meta in E as [El Er].
  destruct r1 as [|k|[]]; try done; apply recv_current_ports; lia.
Qed.

(** The socket before a hop is only let go when it fails, which a UDP socket
    that waits for datagrams does not; and while it is kept there is no
    further hop: after the first one the port stays for good. *)
Definition sound_socket (s : UdpSocket) : Prop := Forall (fun e => match e with UdErr _ => False | _ => True end) (us_in s).
Inductive hop_step (u : UdpHop) : UdpHop -> Prop :=
| hop_send now bind idx sent dest data r u' : try_send now bind idx sent dest data u = (r, u') -> r <> Panic -> hop_step u u'
| hop_recv bufs meta r u' bufs' meta' : poll_recv bufs meta u = (r, u', bufs', meta') -> hop_step u u'.
Definition kept (port : Z) (u : UdpHop) : Prop := new_hop_port (hop_state u) = port /\ exists p, prev_conn (hop_state u) = Some p /\ sound_socket p.

Lemma sock_recv_sound s bufs meta r s' bufs' meta' : sound_socket s -> sock_recv s bufs meta = (r, s', bufs', meta') ->
  sound_socket s' /\ forall e, r <> PErr e.
Proof.
  unfold sound_socket, sock_recv. destruct (us_in s) as [|[|ds|e] l] eqn:E; intros Hs [= <- <- _ _]; cbn.
  - by rewrite E.
  - by apply Forall_cons in Hs as [_ Hs].
  - apply Forall_cons in Hs as [_ Hs]. split; [|done]. destruct (drop _ ds); [done|]. by constructor.
  - by apply Forall_cons in Hs as [[] _].
Qed.

Lemma hops_once port u u' : kept port u -> rtc hop_step u u' -> kept port u'.
Proof.
  intros Hk Hr. induction Hr as [|u u1 u2 Hstep _ IH]; [done|]. apply IH. clear IH. destruct Hk as (Hport & p & Hp & Hs).
  destruct Hstep as [now bind idx sent dest data r u1 H _|bufs meta r u1 bufs' meta' H].
  - unfold try_send, hop in H. rewrite Hp, (bool_decide_eq_false_2 (Some p = None)), andb_false_r in H by done.
    injection H as _ <-. split; [done|]. by exists p.
  - unfold poll_recv in H. rewrite Hp in H. destruct (sock_recv p bufs meta) as [[[r1 p1] b1] m1] eqn:E.
    destruct (sock_recv_sound _ _ _ _ _ _ _ Hs E) as [Hs1 Hne].
    destruct r1 as [|k|e]; [| |by destruct (Hne e)];
      (unfold recv_current in H; destruct (sock_recv (cur_conn _) _ _) as [[[r2 cur] b2] m2]; destruct r2; injection H as _ <- _ _; (split; [done|]; by exists p1)).
Qed.

(** When both sockets have a datagram, the second one's bytes are written
    over the first one's: QUIC gets the second's twice told, or garbage, and
    never the first's. *)
Lemma two_sockets_overwrite u p c m1 d1 m2 d2 l1 l2 x y a b : hop_state u = {| prev_conn := Some p; cur_conn := c; last := x; new_hop_port := y |} ->
  us_in p = UdRecv [(m1, d1)] :: l1 -> us_in c = UdRecv [(m2, d2)] :: l2 ->
  let '(r, _, bufs, meta) := poll_recv [a; b] [m1; m1] u in
  r = PRecv 2 /\ bufs = [d2; b] /\ meta = [rewrite_port (init_port u) m1; rewrite_port (init_port u) m2].
Proof.
  intros Hu Hp Hc. unfold poll_recv. rewrite Hu. cbn [prev_conn]. unfold sock_recv. rewrite Hp. cbn. unfold recv_current. rewrite Hu. cbn [cur_conn].
  unfold sock_recv. rewrite Hc. by cbn.
Qed.

(** ** The connection *)
(** A connection that is open is used again, without a handshake. *)
Lemma connection_reused resolve qc iface mark h c : h_conn h = Some (c, false) -> new_authed_connection resolve qc iface mark h = (Ok c, h).
Proof. intros H. unfold new_authed_connection. by rewrite H. Qed.
(** With obfuscation the ports are not used. *)
Lemma obfs_disables_hopping o iface mark server key : ho_obfs o = Some key -> socket_of o iface mark server = SalamanderSocket key iface mark.
Proof. intros H. unfold socket_of. by rewrite H. Qed.

(** ** The congestion controller *)
Inductive burtal_step (oc : bool) (b : Burtal) : Burtal -> Prop :=
| bs_sent now bytes b' : on_sent oc now bytes b = Ok b' -> burtal_step oc b b'
| bs_mtu mtu : burtal_step oc b (on_mtu_update mtu b)
| bs_end n : burtal_step oc b (on_end_acks n b)
| bs_loss lost elapsed b' : on_congestion_event oc lost elapsed b = Ok b' -> burtal_step oc b b'
| bs_ack ns b' : 0 <= ns < 10 ^ 9 -> on_ack oc ns b = Ok b' -> burtal_step oc b b'.
(** The round trip is kept in whole seconds: while it stays below one, the
    window is the initial one or closed, whatever the configured bandwidth. *)
Lemma window_stays_small oc n b : rtc (burtal_step oc) (burtal_new n) b -> window oc b = Ok 10240 \/ window oc b = Ok 0.
Proof.
  intros Hr. assert (rtt b = 0) as H0.
  { assert (rtt (burtal_new n) = 0) as H0 by done. revert H0. induction Hr as [|b b1 b2 Hs _ IH]; [done|]. intros H0. apply IH. clear IH.
    destruct Hs as [now bytes b1 H|mtu|k|lost el b1 H|ns b1 Hns H]; try done.
    - unfold on_sent in H. apply res_bind_ok in H as (m & _ & H). apply res_bind_ok in H as (x & _ & H). by injection H as <-.
    - unfold on_congestion_event in H. do 3 apply res_bind_ok in H as (? & _ & H). apply res_bind_ok in H as ([a l] & _ & H).
      apply res_bind_ok in H as (sum & _ & H). by injection H as <-.
    - unfold on_ack in H. apply res_bind_ok in H as (a & _ & H). injection H as <-. cbn. unfold as_secs. by apply Z.div_small. }
  unfold window. rewrite H0. destruct (_ || _); [by left|by right].
Qed.

(** Acknowledgements counted since the last loss are forgotten when another
    loss falls into the same second. *)
Lemma acks_of_the_second_lost oc lost elapsed b b' slot :
  slots b !! Z.to_nat (as_secs elapsed mod SLOT_COUNT) = Some slot -> sl_time slot = as_secs elapsed -> on_congestion_event oc lost elapsed b = Ok b' ->
  bu_ack b' = 0 /\ sl_ack <$> slots b' !! Z.to_nat (as_secs elapsed mod SLOT_COUNT) = Some (sl_ack slot).
Proof.
  intros Hs Ht H. unfold on_congestion_event in H. apply res_bind_ok in H as (nl & _ & H).
  apply res_bind_ok in H as (s1 & E1 & H). rewrite Hs in E1. injection E1 as <-. rewrite Ht, Z.eqb_refl in H. cbn [negb] in H.
  apply res_bind_ok in H as (s2 & E2 & H). apply res_bind_ok in E2 as (k & _ & E2). apply res_bind_ok in E2 as (? & _ & E2). injection E2 as <-.
  apply res_bind_ok in H as ([a l] & _ & H). apply res_bind_ok in H as (sum & _ & H). injection H as <-. cbn [bu_ack slots]. split; [done|].
  rewrite list_lookup_insert_eq by by eapply lookup_lt_Some. done.
Qed.
