(* ===== verification/Stats.v ===== *)
(** * Connection statistics ([clash-lib/src/app/dispatcher])

    The statistics manager counts bytes and keeps the open connections
    ([statistics_manager.rs]); the tracked streams and datagrams report to it
    and close when it asks them to ([tracked.rs]).  The counters are 64 bits
    wide and wrap. *)

From S2P Require Import Prelude Str Net Session.


(* @src clash-lib/src/app/dispatcher/statistics_manager.rs ~^pub struct TrackerInfo~ TrackerInfo *)
Record TrackerInfo : Type := {
  ti_session : Session;
  ti_upload_total : Z;
  ti_download_total : Z;
  ti_start_time : Z;
  ti_proxy_chain : list str;
  ti_rule : str;
  ti_rule_payload : str;
}.

(** The channel that tells a stream to close: nothing sent yet, the signal
    sent, or the sending half gone. *)
Inductive Signal : Type := SgEmpty | SgSent | SgClosed.

(** [trackers] are the counters, shared between a stream and the manager;
    [connections] are the identifiers the manager lists, [signals] the
    channels.  Counters are 64 bits wide and wrap. *)
(* @src clash-lib/src/app/dispatcher/statistics_manager.rs ~^pub struct Manager~ Manager *)
Record Manager : Type := {
  connections : gset Z;
  trackers : gmap Z TrackerInfo;
  signals : gmap Z Signal;
  upload_temp : Z; download_temp : Z;
  upload_blip : Z; download_blip : Z;
  upload_total : Z; download_total : Z;
}.

(* @src clash-lib/src/app/dispatcher/statistics_manager.rs ~    pub fn new\(\) -> Arc<Self>~ Manager::new *)
Definition manager_new : Manager := {|
  connections := ∅; trackers := ∅; signals := ∅; upload_temp := 0; download_temp := 0;
  upload_blip := 0; download_blip := 0; upload_total := 0; download_total := 0 |}.

Definition with_conns (c : gset Z) (t : gmap Z TrackerInfo) (g : gmap Z Signal) (m : Manager) : Manager := {|
  connections := c; trackers := t; signals := g; upload_temp := upload_temp m; download_temp := download_temp m;
  upload_blip := upload_blip m; download_blip := download_blip m;
  upload_total := upload_total m; download_total := download_total m |}.

(** Dropping the sending half: a signal already sent stays readable. *)
Definition drop_sender (s : Signal) : Signal := match s with SgSent => SgSent | _ => SgClosed end.

(* @src clash-lib/src/app/dispatcher/statistics_manager.rs ~    pub async fn track\(~ Manager::track *)
Definition track (id : Z) (t : TrackerInfo) (m : Manager) : Manager :=
  with_conns ({[id]} ∪ connections m) (<[id := t]> (trackers m)) (<[id := SgEmpty]> (signals m)) m.

(* @src clash-lib/src/app/dispatcher/statistics_manager.rs ~    pub fn untrack~ Manager::untrack *)
Definition untrack (id : Z) (m : Manager) : Manager :=
  if bool_decide (id ∈ connections m) then
    with_conns (connections m ∖ {[id]}) (trackers m) (alter drop_sender id (signals m)) m
  else m.

(* @src clash-lib/src/app/dispatcher/statistics_manager.rs ~    pub async fn close\(~ Manager::close *)
Definition close (id : Z) (m : Manager) : Manager :=
  if bool_decide (id ∈ connections m) then
    with_conns (connections m ∖ {[id]}) (trackers m) (<[id := SgSent]> (signals m)) m
  else m.

(* @src clash-lib/src/app/dispatcher/statistics_manager.rs ~    pub async fn close_all~ Manager::close_all *)
Definition close_all (m : Manager) : Manager :=
  with_conns ∅ (trackers m) (map_imap (fun id s => Some (if bool_decide (id ∈ connections m) then SgSent else s)) (signals m)) m.

(* @src clash-lib/src/app/dispatcher/statistics_manager.rs ~    pub fn push_uploaded~ Manager::push_uploaded *)
Definition push_uploaded (n : Z) (m : Manager) : Manager := {|
  connections := connections m; trackers := trackers m; signals := signals m;
  upload_temp := wrap 64 (upload_temp m + n); download_temp := download_temp m;
  upload_blip := upload_blip m; download_blip := download_blip m;
  upload_total := wrap 64 (upload_total m + n); download_total := download_total m |}.

(* @src clash-lib/src/app/dispatcher/statistics_manager.rs ~    pub fn push_downloaded~ Manager::push_downloaded *)
Definition push_downloaded (n : Z) (m : Manager) : Manager := {|
  connections := connections m; trackers := trackers m; signals := signals m;
  upload_temp := upload_temp m; download_temp := wrap 64 (download_temp m + n);
  upload_blip := upload_blip m; download_blip := download_blip m;
  upload_total := upload_total m; download_total := wrap 64 (download_total m + n) |}.

(* @src clash-lib/src/app/dispatcher/statistics_manager.rs ~    pub fn now\(~ Manager::now *)
Definition now (m : Manager) : Z * Z := (upload_blip m, download_blip m).

(* @src clash-lib/src/app/dispatcher/statistics_manager.rs ~^pub struct Snapshot~ Snapshot *)
Record Snapshot : Type := { sn_download_total : Z; sn_upload_total : Z; sn_connections : gmap Z TrackerInfo; sn_memory : Z }.

(** The listed connections with their counters; the session is shown through
    [as_map] when the snapshot is serialised. *)
(* @src clash-lib/src/app/dispatcher/statistics_manager.rs ~    pub async fn snapshot~ Manager::snapshot *)
Definition snapshot (memory : Z) (m : Manager) : Snapshot := {|
  sn_download_total := download_total m; sn_upload_total := upload_total m;
  sn_connections := filter (fun e => e.1 ∈ connections m) (trackers m); sn_memory := memory |}.

(* @src clash-lib/src/app/dispatcher/statistics_manager.rs ~    pub fn reset_statistic~ Manager::reset_statistic *)
Definition reset_statistic (m : Manager) : Manager := {|
  connections := connections m; trackers := trackers m; signals := signals m; upload_temp := 0; download_temp := 0;
  upload_blip := 0; download_blip := 0; upload_total := 0; download_total := 0 |}.

(** *** The ticker

    Each second the counts of the last second are published.  Every load and
    store is a step of its own; [TkLoaded v] is the ticker between its load
    of the value [v] and the store of the blip, and so on. *)
Inductive Ticker : Type := TkIdle | TkUpLoaded (v : Z) | TkUpStored | TkDown | TkDownLoaded (v : Z) | TkDownStored.

Definition set_blips (ut dt ub db : Z) (m : Manager) : Manager := {|
  connections := connections m; trackers := trackers m; signals := signals m; upload_temp := ut; download_temp := dt;
  upload_blip := ub; download_blip := db; upload_total := upload_total m; download_total := download_total m |}.

(* @src clash-lib/src/app/dispatcher/statistics_manager.rs ~    async fn kick_off~ Manager::kick_off *)
Definition tick_step (k : Ticker) (m : Manager) : Ticker * Manager :=
  match k with
  | TkIdle => (TkUpLoaded (upload_temp m), m)
  | TkUpLoaded v => (TkUpStored, set_blips (upload_temp m) (download_temp m) v (download_blip m) m)
  | TkUpStored => (TkDown, set_blips 0 (download_temp m) (upload_blip m) (download_blip m) m)
  | TkDown => (TkDownLoaded (download_temp m), m)
  | TkDownLoaded v => (TkDownStored, set_blips (upload_temp m) (download_temp m) (upload_blip m) v m)
  | TkDownStored => (TkIdle, set_blips (upload_temp m) 0 (upload_blip m) (download_blip m) m)
  end.

(** *** Tracked streams and datagrams *)

(* @src clash-lib/src/app/dispatcher/tracked.rs ~    pub async fn new\(~#1 TrackedStream::new *)
Definition tracked_new (id now : Z) (chain : list str) (sess : Session) (rule : option (str * str)) (m : Manager) : Manager :=
  track id {| ti_session := sess; ti_upload_total := 0; ti_download_total := 0; ti_start_time := now;
              ti_proxy_chain := chain; ti_rule := default [] (fst <$> rule); ti_rule_payload := default [] (snd <$> rule) |} m.

(** [try_recv]: the signal, once sent, is taken. *)
Definition try_recv (id : Z) (m : Manager) : Signal * Manager :=
  match signals m !! id with
  | Some SgEmpty => (SgEmpty, m)
  | Some SgSent => (SgSent, with_conns (connections m) (trackers m) (<[id := SgClosed]> (signals m)) m)
  | _ => (SgClosed, m)
  end.

Definition add_upload (id n : Z) (m : Manager) : Manager :=
  with_conns (connections m) (alter (fun t => {|
    ti_session := ti_session t; ti_upload_total := wrap 64 (ti_upload_total t + n); ti_download_total := ti_download_total t;
    ti_start_time := ti_start_time t; ti_proxy_chain := ti_proxy_chain t; ti_rule := ti_rule t;
    ti_rule_payload := ti_rule_payload t |}) id (trackers m)) (signals m) m.
Definition add_download (id n : Z) (m : Manager) : Manager :=
  with_conns (connections m) (alter (fun t => {|
    ti_session := ti_session t; ti_upload_total := ti_upload_total t; ti_download_total := wrap 64 (ti_download_total t + n);
    ti_start_time := ti_start_time t; ti_proxy_chain := ti_proxy_chain t; ti_rule := ti_rule t;
    ti_rule_payload := ti_rule_payload t |}) id (trackers m)) (signals m) m.

(** What the stream below does: it is not ready, fails, or moves [n] bytes. *)
Inductive Poll : Type := Pending | Ready (r : res Z).

(** [filled] are the bytes in the buffer before the read: they are counted
    again. *)
(* @src clash-lib/src/app/dispatcher/tracked.rs ~^impl AsyncRead for TrackedStream~ TrackedStream::poll_read *)
Definition poll_read (id filled : Z) (inner : Poll) (m : Manager) : Poll * Manager :=
  match try_recv id m with
  | (SgEmpty, m) =>
    let download := filled + match inner with Ready (Ok n) => n | _ => 0 end in
    (inner, add_download id download (push_downloaded download m))
  | (_, m) => (Ready (Err "broken pipe"), m)
  end.

(* @src clash-lib/src/app/dispatcher/tracked.rs ~    fn poll_write\(~#2 TrackedStream::poll_write *)
Definition poll_write (id : Z) (inner : Poll) (m : Manager) : Poll * Manager :=
  match try_recv id m with
  | (SgEmpty, m) =>
    match inner with
    | Ready (Ok n) => (inner, add_upload id n (push_uploaded n m))
    | _ => (inner, m)
    end
  | (_, m) => (Ready (Err "broken pipe"), m)
  end.

(* @src clash-lib/src/app/dispatcher/tracked.rs ~^impl Drop for TrackedDatagram~ TrackedDatagram::drop *)
Definition tracked_drop (id : Z) (m : Manager) : Manager := untrack id m.

(** A datagram from the remote side: [None] is the end of the stream. *)
(* @src clash-lib/src/app/dispatcher/tracked.rs ~^impl Stream for TrackedDatagram~ TrackedDatagram::poll_next *)
Definition poll_next (id : Z) (inner : option (option UdpPacket)) (m : Manager) : option (option UdpPacket) * Manager :=
  match try_recv id m with
  | (SgEmpty, m) =>
    match inner with
    | Some (Some pkt) => (inner, add_download id (zlen (up_data pkt)) (push_downloaded (zlen (up_data pkt)) m))
    | _ => (inner, m)
    end
  | (_, m) => (Some None, m)
  end.

(* @src clash-lib/src/app/dispatcher/tracked.rs ~    fn start_send\(~#2 TrackedDatagram::start_send *)
Definition start_send (id : Z) (item : UdpPacket) (inner : res unit) (m : Manager) : res unit * Manager :=
  match try_recv id m with
  | (SgEmpty, m) => (inner, add_upload id (zlen (up_data item)) (push_uploaded (zlen (up_data item)) m))
  | (_, m) => (Err "broken pipe", m)
  end.

(** The calls that move no bytes: flushing and shutting a stream down, and the
    readiness, flush and close of a datagram sink, which read the same way. *)
(* @src clash-lib/src/app/dispatcher/tracked.rs ~    fn poll_flush\(~#2 TrackedStream::poll_flush *)
Definition poll_flush (id : Z) (inner : Poll) (m : Manager) : Poll * Manager :=
  match try_recv id m with
  | (SgEmpty, m) => (inner, m)
  | (_, m) => (Ready (Err "broken pipe"), m)
  end.

(** The trackers of a zero-copy transfer: they are told a number of bytes,
    and ask for no signal. *)
(* @src clash-lib/src/app/dispatcher/tracked.rs ~    fn push_uploaded~ WriteTracker::push_uploaded *)
Definition write_tracker_track (id upload : Z) (m : Manager) : Manager := add_upload id upload (push_uploaded upload m).
(* @src clash-lib/src/app/dispatcher/tracked.rs ~    fn push_downloaded~ ReadTracker::push_downloaded *)
Definition read_tracker_track (id download : Z) (m : Manager) : Manager := add_download id download (push_downloaded download m).

(** ** What the counters mean *)

(** The bytes of one operation on the remote stream. *)
Definition moved (p : Poll) : Z := match p with Ready (Ok n) => n | _ => 0 end.
Definition is_open (id : Z) (m : Manager) : bool := match signals m !! id with Some SgEmpty => true | _ => false end.

(** The bytes of a datagram that the sink below took, and of one it refused. *)
Definition accepted (r : res unit) (n : Z) : Z := match r with Ok _ => n | _ => 0 end.
Definition refused (id : Z) (m : Manager) (r : res unit) (n : Z) : Z :=
  if is_open id m then match r with Ok _ => 0 | _ => n end else 0.

(** The manager with its ticker; [w_sent] are the bytes that were sent so
    far: those the streams below took, those of the datagrams the sinks below
    took, and those a zero-copy transfer reported; [w_failed] are those of
    the datagrams that were refused, [w_pub] the sum of the published
    numbers. *)
Record World : Type := { w_tick : Ticker; w_mgr : Manager; w_sent : Z; w_failed : Z; w_pub : Z }.
Definition w_up (w : World) : Z := w_sent w + w_failed w.
Arguments w_up : simpl never.
Definition world0 : World := {| w_tick := TkIdle; w_mgr := manager_new; w_sent := 0; w_failed := 0; w_pub := 0 |}.
Definition on_mgr (m : Manager) (n k : Z) (w : World) : World :=
  {| w_tick := w_tick w; w_mgr := m; w_sent := w_sent w + n; w_failed := w_failed w + k; w_pub := w_pub w |}.

(** The operations of all tasks, in any order; identifiers are drawn at
    random and never twice.  A zero-copy transfer belongs to a tracked
    stream. *)
Inductive step : World -> World -> Prop :=
| StNew id now chain sess rule w : trackers (w_mgr w) !! id = None ->
    step w (on_mgr (tracked_new id now chain sess rule (w_mgr w)) 0 0 w)
| StRead id filled inner w : step w (on_mgr (poll_read id filled inner (w_mgr w)).2 0 0 w)
| StWrite id inner w : 0 <= moved inner ->
    step w (on_mgr (poll_write id inner (w_mgr w)).2 (moved (poll_write id inner (w_mgr w)).1) 0 w)
| StFlush id inner w : step w (on_mgr (poll_flush id inner (w_mgr w)).2 0 0 w)
| StNext id inner w : step w (on_mgr (poll_next id inner (w_mgr w)).2 0 0 w)
| StSend id item inner w :
    step w (on_mgr (start_send id item inner (w_mgr w)).2
              (accepted (start_send id item inner (w_mgr w)).1 (zlen (up_data item)))
              (refused id (w_mgr w) inner (zlen (up_data item))) w)
| StSpliced id n w : is_Some (trackers (w_mgr w) !! id) -> 0 <= n ->
    step w (on_mgr (write_tracker_track id n (w_mgr w)) n 0 w)
| StSplicedBack id n w : is_Some (trackers (w_mgr w) !! id) ->
    step w (on_mgr (read_tracker_track id n (w_mgr w)) 0 0 w)
| StDrop id w : step w (on_mgr (tracked_drop id (w_mgr w)) 0 0 w)
| StClose id w : step w (on_mgr (close id (w_mgr w)) 0 0 w)
| StCloseAll w : step w (on_mgr (close_all (w_mgr w)) 0 0 w)
| StTick w :
    step w {| w_tick := (tick_step (w_tick w) (w_mgr w)).1; w_mgr := (tick_step (w_tick w) (w_mgr w)).2;
              w_sent := w_sent w; w_failed := w_failed w;
              w_pub := w_pub w + match w_tick w with TkUpLoaded v => v | _ => 0 end |}.

(** The counters of all connections there ever were. *)
Definition tracked_upload (m : Manager) : Z := map_fold (fun _ t acc => ti_upload_total t + acc) 0 (trackers m).

(** What has been published never exceeds what has been counted, wherever
    the ticker stands. *)
Definition published_ok (w : World) : Prop :=
  match w_tick w with
  | TkUpLoaded v => 0 <= v <= upload_temp (w_mgr w) /\ w_pub w + upload_temp (w_mgr w) <= w_up w
  | TkUpStored => 0 <= upload_blip (w_mgr w) <= upload_temp (w_mgr w) /\ upload_blip (w_mgr w) <= w_pub w /\
                  w_pub w + upload_temp (w_mgr w) - upload_blip (w_mgr w) <= w_up w
  | _ => w_pub w + upload_temp (w_mgr w) <= w_up w
  end.

Record inv (w : World) : Prop := {
  inv_total : upload_total (w_mgr w) = w_up w;
  inv_temp : 0 <= upload_temp (w_mgr w) /\ 0 <= w_pub w;
  inv_pub : published_ok w;
  inv_sum : tracked_upload (w_mgr w) = w_up w /\ map_Forall (fun _ t => 0 <= ti_upload_total t) (trackers (w_mgr w));
  inv_dom : dom (signals (w_mgr w)) = dom (trackers (w_mgr w)) /\ connections (w_mgr w) ⊆ dom (trackers (w_mgr w));
}.

Lemma fold_insert (m : gmap Z TrackerInfo) id t : m !! id = None ->
  map_fold (fun _ t acc => ti_upload_total t + acc) 0 (<[id := t]> m) =
  ti_upload_total t + map_fold (fun _ t acc => ti_upload_total t + acc) 0 m.
Proof. intros H. rewrite map_fold_insert_L; [done| |done]. intros. lia. Qed.

Lemma fold_alter (m : gmap Z TrackerInfo) id t f : m !! id = Some t ->
  map_fold (fun _ t acc => ti_upload_total t + acc) 0 (alter f id m) =
  map_fold (fun _ t acc => ti_upload_total t + acc) 0 m + ti_upload_total (f t) - ti_upload_total t.
Proof.
  intros H. rewrite <- (insert_delete_id m id t H) at 1 2. rewrite alter_insert_eq.
  rewrite !fold_insert by apply lookup_delete_eq. lia.
Qed.

Lemma fold_bound (m : gmap Z TrackerInfo) id t : map_Forall (fun _ t => 0 <= ti_upload_total t) m -> m !! id = Some t ->
  ti_upload_total t <= map_fold (fun _ t acc => ti_upload_total t + acc) 0 m.
Proof.
  intros Hf H. rewrite <- (insert_delete_id m id t H), fold_insert by apply lookup_delete_eq.
  assert (0 <= map_fold (fun _ t acc => ti_upload_total t + acc) 0 (delete id m)); [|lia].
  assert (map_Forall (fun _ t => 0 <= ti_upload_total t) (delete id m)) as Hd.
  { intros i x Hx. apply lookup_delete_Some in Hx as [_ Hx]. by eapply Hf. }
  clear H Hf. revert Hd. generalize (delete id m). intros m'.
  induction m' as [|i x m' Hi IH] using map_ind; intros Hd; [by rewrite map_fold_empty|].
  rewrite fold_insert by done. apply map_Forall_insert in Hd as [? Hd]; [|done]. specialize (IH Hd). lia.
Qed.

Lemma up_on_mgr m n k w : w_up (on_mgr m n k w) = w_up w + n + k.
Proof. unfold w_up. cbn. lia. Qed.

(** An operation that touches no upload counter. *)
Definition same_counts (m m' : Manager) : Prop :=
  upload_total m' = upload_total m /\ upload_temp m' = upload_temp m /\ upload_blip m' = upload_blip m.
Definition same_tables (m m' : Manager) : Prop :=
  trackers m' = trackers m /\ dom (signals m') = dom (signals m) /\ connections m' ⊆ connections m.

Lemma inv_frame w m' : inv w -> same_counts (w_mgr w) m' ->
  tracked_upload m' = tracked_upload (w_mgr w) -> map_Forall (fun _ t => 0 <= ti_upload_total t) (trackers m') ->
  dom (signals m') = dom (trackers m') /\ connections m' ⊆ dom (trackers m') -> inv (on_mgr m' 0 0 w).
Proof.
  intros [Ht Hp Hpub [Hs Hf] Hd] (H1 & H2 & H3) Hs' Hf' Hd'. split; rewrite ?up_on_mgr; cbn; rewrite ?H1, ?H2, ?Hs', ?Z.add_0_r; try done.
  unfold published_ok in *. rewrite up_on_mgr. cbn. by rewrite H2, H3, !Z.add_0_r.
Qed.

Lemma inv_tables w m' : inv w -> same_counts (w_mgr w) m' -> same_tables (w_mgr w) m' -> inv (on_mgr m' 0 0 w).
Proof.
  intros Hi Hc (Ht & Hs & Hn). assert (Hi' := Hi). destruct Hi' as [_ _ _ [Hsum Hf] [Hd1 Hd2]].
  apply inv_frame; [done|done|unfold tracked_upload; by rewrite Ht|by rewrite Ht|]. rewrite Ht, Hs. split; [done|set_solver].
Qed.

Lemma inv_signal w id g : inv w -> is_Some (signals (w_mgr w) !! id) ->
  inv (on_mgr (with_conns (connections (w_mgr w)) (trackers (w_mgr w)) (<[id := g]> (signals (w_mgr w))) (w_mgr w)) 0 0 w).
Proof.
  intros Hi Hs. apply inv_tables; [done|done|]. split_and!; cbn; [done| |done].
  rewrite dom_insert_lookup_L; done.
Qed.

(** [try_recv] is harmless, and leaves an open connection as it is. *)
Lemma inv_try_recv w id : inv w -> inv (on_mgr (try_recv id (w_mgr w)).2 0 0 w).
Proof.
  intros Hi. unfold try_recv. destruct (signals (w_mgr w) !! id) as [[]|] eqn:E; cbn;
    [by apply inv_tables|by apply inv_signal|by apply inv_tables..].
Qed.
Lemma try_recv_open id m : (try_recv id m).1 = SgEmpty -> (try_recv id m).2 = m /\ is_open id m = true.
Proof. unfold try_recv, is_open. by destruct (signals m !! id) as [[]|]. Qed.
(** The invariant reads only the sum of the two kinds of bytes. *)
Lemma inv_same w w' : w_tick w' = w_tick w -> w_mgr w' = w_mgr w -> w_up w' = w_up w -> w_pub w' = w_pub w -> inv w -> inv w'.
Proof. intros E1 E2 E3 E4 [Ht Hp Hpub Hs Hd]. split; unfold published_ok in *; by rewrite ?E1, ?E2, ?E3, ?E4. Qed.
Lemma open_tracked w id : inv w -> is_open id (w_mgr w) = true -> is_Some (trackers (w_mgr w) !! id).
Proof.
  intros [_ _ _ _ [Hd _]] Ho. apply elem_of_dom. rewrite <- Hd. apply elem_of_dom.
  unfold is_open in Ho. by destruct (signals (w_mgr w) !! id).
Qed.

Lemma inv_download w id n : inv w -> inv (on_mgr (add_download id n (push_downloaded n (w_mgr w))) 0 0 w).
Proof.
  intros Hi. assert (Hi' := Hi). destruct Hi' as [_ _ _ [Hsum Hf] [Hd1 Hd2]]. apply inv_frame; [done|done| | |].
  - unfold tracked_upload. cbn. destruct (trackers (w_mgr w) !! id) as [t|] eqn:E.
    + rewrite (fold_alter _ _ _ _ E). cbn. lia.
    + by rewrite alter_id; [|intros x; rewrite E].
  - cbn. intros i x. rewrite lookup_alter_Some. intros [(-> & y & Hy & ->)|[_ Hy]]; cbn; by eapply Hf.
  - cbn. by rewrite dom_alter_L.
Qed.

Lemma inv_upload w id n s k : inv w -> is_Some (trackers (w_mgr w) !! id) -> 0 <= n -> s + k = n -> w_up w + n < 2 ^ 64 ->
  inv (on_mgr (add_upload id n (push_uploaded n (w_mgr w))) s k w).
Proof.
  intros Hi [t Et] Hn Hsk Hb.
  assert (Hi' := Hi). destruct Hi' as [Htot [Htemp Hpub0] Hpub [Hsum Hf] [Hd1 Hd2]].
  assert (0 <= ti_upload_total t <= w_up w) as Ht.
  { split; [by eapply Hf|]. rewrite <- Hsum. by eapply fold_bound. }
  assert (upload_temp (w_mgr w) <= w_up w) as Hle.
  { unfold published_ok in Hpub. destruct (w_tick w); lia. }
  split; rewrite ?up_on_mgr; cbn.
  - rewrite wrap_small; unfold in_width; lia.
  - rewrite wrap_small; unfold in_width; lia.
  - unfold published_ok in *. rewrite up_on_mgr. cbn. rewrite wrap_small by (unfold in_width; lia). destruct (w_tick w); lia.
  - split.
    + unfold tracked_upload in *. cbn. rewrite (fold_alter _ _ _ _ Et). cbn. rewrite wrap_small by (unfold in_width; lia). lia.
    + intros i x. rewrite lookup_alter_Some. intros [(-> & y & Hy & ->)|[_ Hy]]; cbn; [|by eapply Hf].
      apply wrap_range. lia.
  - by rewrite dom_alter_L.
Qed.

Lemma inv_new w id now chain sess rule : inv w -> trackers (w_mgr w) !! id = None ->
  inv (on_mgr (tracked_new id now chain sess rule (w_mgr w)) 0 0 w).
Proof.
  intros Hi Hn. assert (Hi' := Hi). destruct Hi' as [_ _ _ [Hsum Hf] [Hd1 Hd2]].
  apply inv_frame; [done|done| | |]; unfold tracked_new, track, tracked_upload; cbn.
  - by rewrite fold_insert.
  - by apply map_Forall_insert.
  - rewrite !dom_insert_L. set_solver.
Qed.

Lemma inv_untrack w id : inv w -> inv (on_mgr (untrack id (w_mgr w)) 0 0 w).
Proof.
  intros Hi. unfold untrack. case_bool_decide; apply inv_tables; try done.
  split_and!; cbn; [done|by rewrite dom_alter_L|set_solver].
Qed.
Lemma inv_close w id : inv w -> inv (on_mgr (close id (w_mgr w)) 0 0 w).
Proof.
  intros Hi. unfold close. case_bool_decide as Hc; apply inv_tables; try done. split_and!; cbn; [done| |set_solver].
  rewrite dom_insert_lookup_L; [done|]. apply elem_of_dom. destruct Hi as [_ _ _ _ [-> Hd]]. set_solver.
Qed.
Lemma inv_close_all w : inv w -> inv (on_mgr (close_all (w_mgr w)) 0 0 w).
Proof.
  intros Hi. apply inv_tables; [done|done|]. split_and!; cbn; [done| |set_solver].
  apply set_eq. intros i. rewrite !elem_of_dom, map_lookup_imap. destruct (signals (w_mgr w) !! i); cbn; split; intros [? ?]; done.
Qed.

Lemma inv_tick w : inv w -> inv {| w_tick := (tick_step (w_tick w) (w_mgr w)).1; w_mgr := (tick_step (w_tick w) (w_mgr w)).2;
  w_sent := w_sent w; w_failed := w_failed w; w_pub := w_pub w + match w_tick w with TkUpLoaded v => v | _ => 0 end |}.
Proof.
  intros [Htot [Htemp Hp0] Hpub Hs Hd]. unfold published_ok, w_up in *.
  destruct (w_tick w) eqn:Ek; split; unfold published_ok, w_up; cbn; try done; lia.
Qed.

(** A datagram that is given to the sink below counts in full, whatever the
    sink does. *)
Lemma send_counted id item inner m : let '(r, n) := (start_send id item inner m, zlen (up_data item)) in
  accepted r.1 n + refused id m inner n = if is_open id m then n else 0.
Proof.
  unfold accepted, refused, start_send, try_recv, is_open. destruct (signals m !! id) as [[]|]; cbn; try done.
  destruct inner; lia.
Qed.

Lemma up_mono w w' : step w w' -> w_up w <= w_up w'.
Proof.
  intros []; rewrite ?up_on_mgr; try lia.
  - unfold poll_write. destruct (try_recv id (w_mgr w0)) as [[] m]; cbn; try lia.
    destruct inner as [|[]]; cbn in *; lia.
  - pose proof (send_counted id item inner (w_mgr w0)) as E. cbn in E. rewrite <- Z.add_assoc, E.
    pose proof (zlen_nonneg (up_data item)). destruct (is_open id (w_mgr w0)); lia.
  - unfold w_up. cbn. lia.
Qed.

Lemma stats_step_inv w w' : step w w' -> w_up w' < 2 ^ 64 -> inv w -> inv w'.
Proof.
  intros Hs Hb Hi. destruct Hs; rewrite ?up_on_mgr in Hb.
  - by apply inv_new.
  - pose proof (inv_try_recv w id Hi) as Hr. unfold poll_read.
    destruct (try_recv id (w_mgr w)) as [sg m] eqn:E. destruct sg; cbn in *; [|done..].
    destruct (try_recv_open id (w_mgr w)) as [Hm _]; [by rewrite E|]. rewrite E in Hm. cbn in Hm. subst m.
    by apply inv_download.
  - pose proof (inv_try_recv w id Hi) as Hr. unfold poll_write in *.
    destruct (try_recv id (w_mgr w)) as [sg m] eqn:E. destruct sg; cbn in *; [|done..].
    destruct (try_recv_open id (w_mgr w)) as [Hm Ho]; [by rewrite E|]. rewrite E in Hm. cbn in Hm. subst m.
    destruct inner as [|[]]; cbn in *; [done| |done..]. apply inv_upload; [done|by apply open_tracked|lia..].
  - pose proof (inv_try_recv w id Hi) as Hr. unfold poll_flush.
    by destruct (try_recv id (w_mgr w)) as [[] m].
  - pose proof (inv_try_recv w id Hi) as Hr. unfold poll_next.
    destruct (try_recv id (w_mgr w)) as [sg m] eqn:E. destruct sg; cbn in *; [|done..].
    destruct (try_recv_open id (w_mgr w)) as [Hm _]; [by rewrite E|]. rewrite E in Hm. cbn in Hm. subst m.
    destruct inner as [[]|]; cbn; [by apply inv_download|done..].
  - pose proof (send_counted id item inner (w_mgr w)) as Ec. cbn in Ec.
    pose proof (inv_try_recv w id Hi) as Hr. rewrite <- Z.add_assoc, Ec in Hb.
    destruct (is_open id (w_mgr w)) eqn:Ho.
    + assert ((start_send id item inner (w_mgr w)).2 = add_upload id (zlen (up_data item)) (push_uploaded (zlen (up_data item)) (w_mgr w))) as ->.
      { unfold start_send, try_recv, is_open in *. by destruct (signals (w_mgr w) !! id) as [[]|]. }
      apply inv_upload; [done|by apply open_tracked|apply zlen_nonneg|exact Ec|lia].
    + assert ((start_send id item inner (w_mgr w)).2 = (try_recv id (w_mgr w)).2) as ->.
      { unfold start_send, try_recv, is_open in *. by destruct (signals (w_mgr w) !! id) as [[]|]. }
      eapply inv_same, Hr; [done|done| |done]. rewrite !up_on_mgr. lia.
  - apply inv_upload; [done..|lia|lia].
  - by apply inv_download.
  - by apply inv_untrack.
  - by apply inv_close.
  - by apply inv_close_all.
  - by apply inv_tick.
Qed.

Lemma inv_world0 : inv world0.
Proof. split; cbn; try done. Qed.

Lemma reachable_inv w : rtc step world0 w -> w_up w < 2 ^ 64 -> inv w.
Proof.
  revert w. apply (rtc_ind_r (fun w => w_up w < 2 ^ 64 -> inv w)); [intros _; apply inv_world0|].
  intros w1 w2 _ Hs IH Hb. eapply stats_step_inv; [done|done|]. apply IH. pose proof (up_mono _ _ Hs). lia.
Qed.

(** C20: the traffic counters.  However the tasks interleave with the ticker,
    and as long as fewer than 2^64 bytes were counted, the total is exactly
    the bytes sent, by streams, datagrams and zero-copy transfers (whose
    bytes are reported when they end), plus the bytes of the datagrams whose
    sending failed, which are counted all the same; the counters of the
    connections add up to the total, and the numbers published every second
    never add up to more. *)
Theorem traffic_totals (w : World) (Hr : rtc step world0 w) (Hb : w_sent w + w_failed w < 2 ^ 64) :
  upload_total (w_mgr w) = w_sent w + w_failed w /\ tracked_upload (w_mgr w) = upload_total (w_mgr w) /\
  w_pub w <= upload_total (w_mgr w).
Proof.
  destruct (reachable_inv w Hr Hb) as [Ht [Htemp Hp] Hpub [Hs _] _]. rewrite Ht. split_and!; [done|done|].
  unfold published_ok in Hpub. destruct (w_tick w); lia.
Qed.

(** A datagram that was refused is counted. *)
Lemma failed_send_counted (item : UdpPacket) (e : string) : exists w, rtc step world0 w /\
  w_sent w = 0 /\ w_failed w = zlen (up_data item) /\ upload_total (w_mgr w) = wrap 64 (zlen (up_data item)).
Proof.
  eexists. split; [|split; [|split]].
  - eapply rtc_l; [exact (StNew 1 0 [] (session_default 0 0).1 None world0 eq_refl)|].
    apply rtc_once. exact (StSend 1 item (Err e) _).
  - reflexivity.
  - reflexivity.
  - reflexivity.
Qed.

(** Bytes counted between the ticker's load and its reset of the counter are
    never published. *)
Definition demo_open : Manager :=
  tracked_new 1 0 [] (session_default 0 0).1 None manager_new.
Definition demo_sent : Manager := (poll_write 1 (Ready (Ok 7)) demo_open).2.
Lemma tick_loses_bytes : exists m, upload_temp m = 0 /\ upload_total m = 7 /\
  rtc step world0 {| w_tick := TkDown; w_mgr := m; w_sent := 7; w_failed := 0; w_pub := 0 |}.
Proof.
  exists (set_blips 0 0 0 0 demo_sent). split_and!; [reflexivity|reflexivity|].
  eapply (rtc_l _ _ {| w_tick := TkIdle; w_mgr := demo_open; w_sent := 0; w_failed := 0; w_pub := 0 |}).
  { exact (StNew 1 0 [] (session_default 0 0).1 None world0 eq_refl). }
  eapply (rtc_l _ _ {| w_tick := TkUpLoaded 0; w_mgr := demo_open; w_sent := 0; w_failed := 0; w_pub := 0 |}); [exact (StTick _)|].
  eapply (rtc_l _ _ {| w_tick := TkUpLoaded 0; w_mgr := demo_sent; w_sent := 7; w_failed := 0; w_pub := 0 |}).
  { exact (StWrite 1 (Ready (Ok 7)) {| w_tick := TkUpLoaded 0; w_mgr := demo_open; w_sent := 0; w_failed := 0; w_pub := 0 |} ltac:(done)). }
  eapply (rtc_l _ _ {| w_tick := TkUpStored; w_mgr := set_blips 7 0 0 0 demo_sent; w_sent := 7; w_failed := 0; w_pub := 0 |}); [exact (StTick _)|].
  apply rtc_once. exact (StTick {| w_tick := TkUpStored; w_mgr := set_blips 7 0 0 0 demo_sent; w_sent := 7; w_failed := 0; w_pub := 0 |}).
Qed.

(** A connection that was closed: it is not listed, and its channel is not
    open. *)
Definition closed (id : Z) (m : Manager) : Prop := id ∉ connections m /\ is_open id m = false /\ is_Some (trackers m !! id).

Lemma closed_keeps id m m' :
  closed id m -> (connections m' ⊆ connections m) -> (forall i, is_Some (trackers m !! i) -> is_Some (trackers m' !! i)) ->
  (is_open id m' = true -> is_open id m = true) -> closed id m'.
Proof.
  intros (Hc & Ho & Ht) Hs Htr Hop. split_and!; [set_solver| |by apply Htr].
  destruct (is_open id m'); [|done]. by rewrite Hop in Ho.
Qed.

Lemma try_recv_closed id i m : closed id m -> closed id (try_recv i m).2.
Proof.
  intros H. unfold try_recv. destruct (signals m !! i) as [[]|] eqn:E; cbn; try done.
  eapply closed_keeps; [done|done|done|]. unfold is_open. cbn. destruct (decide (i = id)) as [->|].
  - by rewrite lookup_insert_eq.
  - by rewrite lookup_insert_ne.
Qed.
Lemma alter_some {A} (f : A -> A) (t : gmap Z A) j i : is_Some (t !! i) -> is_Some (alter f j t !! i).
Proof. rewrite <- !elem_of_dom. by rewrite dom_alter_L. Qed.

Lemma closed_step id w w' : step w w' -> closed id (w_mgr w) -> closed id (w_mgr w').
Proof.
  intros Hs H. destruct Hs as [i now0 chain sess rule w Hn|i filled inner w|i inner w ?|i inner w|i inner w|i item inner w|i n w ? ?|i n w ?|i w|i w|w|w]; cbn.
  - destruct H as (Hc & Ho & Ht). assert (i <> id) by (intros ->; rewrite Hn in Ht; by destruct Ht).
    unfold closed, is_open in *. cbn. rewrite !lookup_insert_ne by done. split_and!; [set_solver|done|done].
  - unfold poll_read. pose proof (try_recv_closed id i _ H) as Hr. destruct (try_recv i (w_mgr w)) as [[] m]; cbn in *; try done.
    eapply closed_keeps; [done|done|intros; by apply alter_some|done].
  - unfold poll_write. pose proof (try_recv_closed id i _ H) as Hr. destruct (try_recv i (w_mgr w)) as [[] m]; cbn in *; try done.
    destruct inner as [|[]]; cbn; try done. eapply closed_keeps; [done|done|intros; by apply alter_some|done].
  - unfold poll_flush. pose proof (try_recv_closed id i _ H) as Hr. by destruct (try_recv i (w_mgr w)) as [[] m].
  - unfold poll_next. pose proof (try_recv_closed id i _ H) as Hr. destruct (try_recv i (w_mgr w)) as [[] m]; cbn in *; try done.
    destruct inner as [[]|]; cbn; try done. eapply closed_keeps; [done|done|intros; by apply alter_some|done].
  - unfold start_send. pose proof (try_recv_closed id i _ H) as Hr. destruct (try_recv i (w_mgr w)) as [[] m]; cbn in *; try done.
    eapply closed_keeps; [done|done|intros; by apply alter_some|done].
  - eapply closed_keeps; [done|done|intros; by apply alter_some|done].
  - eapply closed_keeps; [done|done|intros; by apply alter_some|done].
  - unfold tracked_drop, untrack. case_bool_decide; [|done]. eapply closed_keeps; [done|cbn; set_solver|done|].
    unfold is_open. cbn. destruct (decide (i = id)) as [->|]; [rewrite lookup_alter_eq|by rewrite lookup_alter_ne].
    by destruct (signals (w_mgr w) !! id) as [[]|].
  - unfold close. case_bool_decide; [|done]. eapply closed_keeps; [done|cbn; set_solver|done|].
    unfold is_open. cbn. destruct (decide (i = id)) as [->|]; [by rewrite lookup_insert_eq|by rewrite lookup_insert_ne].
  - eapply closed_keeps; [done|cbn; set_solver|done|]. unfold is_open. cbn. rewrite map_lookup_imap.
    destruct (signals (w_mgr w) !! id) as [[]|]; cbn; try case_bool_decide; done.
  - destruct (w_tick w); done.
Qed.

(** Closing a connection.  Once the manager has closed a connection it
    listed, and whatever happens afterwards, the connection is in no
    snapshot, every read and write on it fails and no byte is counted for
    it. *)
Theorem close_is_final (w w' : World) (id : Z) (Hr : rtc step world0 w) (Hb : w_up w < 2 ^ 64)
    (Hid : id ∈ connections (w_mgr w)) (Hs : rtc step (on_mgr (close id (w_mgr w)) 0 0 w) w') (mem : Z) :
  sn_connections (snapshot mem (w_mgr w')) !! id = None /\
  (forall filled inner, (poll_read id filled inner (w_mgr w')).1 = Ready (Err "broken pipe"%string)) /\
  (forall inner, (poll_write id inner (w_mgr w')).1 = Ready (Err "broken pipe"%string)) /\
  (forall inner, trackers (poll_write id inner (w_mgr w')).2 !! id = trackers (w_mgr w') !! id).
Proof.
  assert (closed id (w_mgr w')) as (Hc & Ho & _).
  { assert (closed id (w_mgr (on_mgr (close id (w_mgr w)) 0 0 w))) as H0.
    { destruct (reachable_inv w Hr Hb) as [_ _ _ _ [_ Hd]]. cbn. unfold close. rewrite bool_decide_eq_true_2 by done.
      unfold closed, is_open. cbn. rewrite lookup_insert_eq. split_and!; [set_solver|done|apply elem_of_dom; set_solver]. }
    revert H0. induction Hs as [|w1 w2 w3 Hst _ IH]; [done|]. intros H0. by eapply IH, closed_step. }
  assert (exists sg m, try_recv id (w_mgr w') = (sg, m) /\ sg <> SgEmpty /\ trackers m = trackers (w_mgr w')) as (sg & m & E & Hsg & Ht).
  { unfold try_recv, is_open in *. destruct (signals (w_mgr w') !! id) as [[]|]; [done|by do 2 eexists..]. }
  unfold poll_read, poll_write. rewrite E. split_and!.
  - cbn. apply map_lookup_filter_None. right. intros t _ Hin. done.
  - intros. by destruct sg.
  - intros. by destruct sg.
  - intros. destruct sg; [done|cbn; by rewrite Ht..].
Qed.

Lemma traffic_totals_witness : exists w, rtc step world0 w /\ w_sent w = 7 /\
  upload_total (w_mgr w) = 7 /\ tracked_upload (w_mgr w) = 7 /\ w_pub w <= 7.
Proof.
  eexists (on_mgr _ _ _ (on_mgr _ _ _ world0)).
  assert (rtc step world0 (on_mgr (poll_write 1 (Ready (Ok 7)) demo_open).2
    (moved (poll_write 1 (Ready (Ok 7)) demo_open).1) 0
    (on_mgr demo_open 0 0 world0))) as H.
  { eapply rtc_l; [apply (StNew 1 0 [] (session_default 0 0).1 None world0 eq_refl)|].
    eapply rtc_l; [|apply rtc_refl].
    apply (StWrite 1 (Ready (Ok 7)) (on_mgr demo_open 0 0 world0)). cbn. lia. }
  split; [exact H|]. destruct (traffic_totals _ H) as (H1 & H2 & H3); [by vm_compute|].
  split; [reflexivity|]. split; [exact H1|]. split; [exact H2|exact H3].
Defined.

Lemma close_is_final_witness : exists w, rtc step world0 w /\
  (poll_write 1 (Ready (Ok 7)) (close 1 (w_mgr w))).1 = Ready (Err "broken pipe"%string).
Proof.
  exists (on_mgr demo_open 0 0 world0).
  assert (rtc step world0 (on_mgr demo_open 0 0 world0)) as H.
  { apply rtc_once. apply (StNew 1 0 [] (session_default 0 0).1 None world0 eq_refl). }
  split; [exact H|].
  refine (proj1 (proj2 (proj2 (close_is_final _ _ 1 H _ _ (rtc_refl _ _) 0))) (Ready (Ok 7))).
  - by vm_compute.
  - cbn. set_solver.
Defined.
