(* ===== verification/Dispatcher.v ===== *)
(** * Dispatching connections ([clash-lib/src/app/dispatcher])

    The dispatcher takes a session from an inbound listener, turns a fake or
    cached address back into its name, asks the router for an outbound and
    connects ([dispatcher_impl.rs]).  Datagrams are grouped into sessions by
    outbound and source, which a cleaner removes when they are idle. *)

From S2P Require Import Prelude Str Net Session Trie Geo Rule Router.


(** ** The dispatcher *)

(** A resolver as the dispatcher sees it. *)
(* @src clash-lib/src/app/dns/mod.rs ~^pub trait ClashResolver~ ClashResolver *)
Class ClashResolver : Type := {
  cr_resolver :: Resolver;
  cr_fake_ip_enabled : dns_state -> bool;
  cr_is_fake_ip : IpAddr -> dns_state -> bool;
  cr_reverse_lookup : IpAddr -> dns_state -> option str * dns_state;
  cr_cached_for : IpAddr -> dns_state -> option str;
}.

(* @src clash-lib/src/config/def.rs ~^pub enum RunMode~ RunMode *)
Inductive RunMode : Type := RmGlobal | RmRule | RmDirect.

(* @src clash-lib/src/config/internal/proxy.rs ~^pub const PROXY_DIRECT~ PROXY_DIRECT *)
Definition PROXY_DIRECT : str := lit "DIRECT".
(* @src clash-lib/src/config/internal/proxy.rs ~^pub const PROXY_GLOBAL~ PROXY_GLOBAL *)
Definition PROXY_GLOBAL : str := lit "GLOBAL".

Section dispatcher.
Context {RX : RegexLib} {NL : IpNetLib} {PL : ProcessLookup} {UC : UnicodeLib} {CR : ClashResolver}.
Context {P : Type} (search : P -> Session -> res bool).
(** The outbounds; [active_proxy] is the member a group would use. *)
Context {H : Type} (active_proxy : H -> option str).

(** [try_into().expect("must be valid domain")] *)
Definition expect_domain (host : str) (port : Z) : res SocksAddr :=
  match try_from_host_port host port with Ok a => Ok a | _ => Panic end.

(** [None]: a fake address nobody knows. *)
(* @src clash-lib/src/app/dispatcher/dispatcher_impl.rs ~^async fn reverse_lookup~ reverse_lookup *)
Definition reverse_lookup (dst : SocksAddr) (st : dns_state) : res (option SocksAddr) * dns_state :=
  match dst with
  | Ip socket_addr =>
    let ip := sa_ip socket_addr in
    if cr_fake_ip_enabled st then
      if cr_is_fake_ip ip st then
        let '(host, st) := cr_reverse_lookup ip st in
        match host with
        | Some host => (Some <$> expect_domain host (sa_port socket_addr), st)
        | None => (Ok None, st)
        end
      else (Ok (Some (Ip socket_addr)), st)
    else
      match cr_cached_for ip st with
      | Some resolved => (Some <$> expect_domain resolved (sa_port socket_addr), st)
      | None => (Ok (Some (Ip socket_addr)), st)
      end
  | Domain host port => (Some <$> expect_domain host port, st)
  end.

(** The name of the outbound for a session. *)
(* @src clash-lib/src/app/dispatcher/dispatcher_impl.rs 95 99 Dispatcher::dispatch_stream (mode) *)
Definition choose_outbound (mode : RunMode) (router : Router (P := P)) (sess : Session) (st : dns_state) :
    res (str * option (Rule P) * Session * dns_state) :=
  match mode with
  | RmGlobal => Ok (PROXY_GLOBAL, None, sess, st)
  | RmRule => match_route search router sess st
  | RmDirect => Ok (PROXY_DIRECT, None, sess, st)
  end.

(** An unknown outbound is replaced by the direct one. *)
(* @src clash-lib/src/app/dispatcher/dispatcher_impl.rs 104 107 Dispatcher::dispatch_stream (handler) *)
Definition handler_for (outbounds : gmap str H) (name : str) : res H :=
  match outbounds !! name with
  | Some h => Ok h
  | None => or_panic (outbounds !! PROXY_DIRECT)
  end.

(** What becomes of a connection: it is dropped, or connected through an
    outbound with the session as the router left it. *)
Inductive Dispatched : Type :=
| Dropped
| Through (h : H) (sess : Session) (rule : option (Rule P)).

(** Up to the connection; the copying of bytes that follows is the stream
    code's. *)
(* @src clash-lib/src/app/dispatcher/dispatcher_impl.rs ~    pub async fn dispatch_stream~ Dispatcher::dispatch_stream *)
Definition dispatch_stream (mode : RunMode) (router : Router (P := P)) (outbounds : gmap str H) (sess : Session)
    (st : dns_state) : res (Dispatched * dns_state) :=
  let '(dest, st) := reverse_lookup (destination sess) st in
  dest ← dest;
  match dest with
  | None => Ok (Dropped, st)
  | Some dest =>
    dest ← socks_clone dest;
    '(name, rule, sess, st) ← choose_outbound mode router (set_destination dest sess) st;
    h ← handler_for outbounds name;
    Ok (Through h sess rule, st)
  end.

(** *** Datagrams *)

(** A session with the remote side: the outbound it was opened through, the
    destination as the client gave it and the client's address, for the
    replies. *)
Record UdpEntry : Type := { ue_id : Z; ue_orig_dest : SocksAddr; ue_source : SocketAddr; ue_last : Z }.

(** [OutboundHandleMap], by name of the outbound and source. *)
(* @src clash-lib/src/app/dispatcher/dispatcher_impl.rs ~^struct OutboundHandleMap~ OutboundHandleMap *)
Definition OutboundHandleMap : Type := list ((str * SocketAddr) * UdpEntry).

(* @src clash-lib/src/app/dispatcher/dispatcher_impl.rs ~    fn get_outbound_sender_mut~ OutboundHandleMap::get_outbound_sender_mut *)
Definition get_outbound_sender_mut (now : Z) (key : str * SocketAddr) (m : OutboundHandleMap) :
    option Z * OutboundHandleMap :=
  match alist_get key m with
  | Some e => (Some (ue_id e),
               alist_insert key {| ue_id := ue_id e; ue_orig_dest := ue_orig_dest e; ue_source := ue_source e; ue_last := now |} m)
  | None => (None, m)
  end.

(** The cleaner: sessions idle for ten seconds are aborted. *)
Definition UDP_TIMEOUT : Z := 10 * 10 ^ 9.
(* @src clash-lib/src/app/dispatcher/dispatcher_impl.rs 524 540 TimeoutUdpSessionManager::new (cleaner) *)
Definition clean (now : Z) (m : OutboundHandleMap) : OutboundHandleMap :=
  base.filter (fun e => now - ue_last e.2 < UDP_TIMEOUT) m.

(** The reply of a session on its way to the client. *)
(* @src clash-lib/src/app/dispatcher/dispatcher_impl.rs 352 355 Dispatcher::dispatch_datagram (NAT) *)
Definition nat_reply (e : UdpEntry) (packet : UdpPacket) : UdpPacket :=
  {| up_data := up_data packet; up_src_addr := ue_orig_dest e; up_dst_addr := Ip (ue_source e) |}.

(** What a local packet leads to. *)
Inductive UdpAction : Type :=
| UaDropped
| UaSend (id : Z) (packet : UdpPacket).

(** [fresh] is the next session, [connects] tells if the outbound can be
    opened for a session. *)
(* @src clash-lib/src/app/dispatcher/dispatcher_impl.rs 254 414 Dispatcher::dispatch_datagram (local packet) *)
Definition on_local_packet (mode : RunMode) (router : Router (P := P)) (outbounds : gmap str H)
    (connects : H -> Session -> bool) (now fresh : Z) (sess : Session) (packet : UdpPacket)
    (m : OutboundHandleMap) (st : dns_state) : res (UdpAction * OutboundHandleMap * dns_state) :=
  sess ← session_clone sess;
  let '(dest, st) := reverse_lookup (up_dst_addr packet) st in
  dest ← dest;
  match dest with
  | None => Ok (UaDropped, m, st)
  | Some dest =>
    orig_dest ← socks_clone (up_dst_addr packet);
    src ← must_into_socket_addr (up_src_addr packet);
    dest ← socks_clone dest;
    let sess := set_destination dest (set_source src sess) in
    let packet := {| up_data := up_data packet; up_src_addr := up_src_addr packet; up_dst_addr := dest |} in
    '(name, rule, sess, st) ← choose_outbound mode router sess st;
    h ← handler_for outbounds name;
    let name := default name (active_proxy h) in
    match get_outbound_sender_mut now (name, src) m with
    | (Some id, m) => Ok (UaSend id packet, m, st)
    | (None, m) =>
      if connects h sess then
        Ok (UaSend fresh packet,
            alist_insert (name, src) {| ue_id := fresh; ue_orig_dest := orig_dest; ue_source := source sess; ue_last := now |} m, st)
      else Ok (UaDropped, m, st)
    end
  end.
End dispatcher.

(** ** What the dispatcher does *)
Section dispatch_spec.
Context {RX : RegexLib} {NL : IpNetLib} {PL : ProcessLookup} {UC : UnicodeLib} {CR : ClashResolver}.
Context {P : Type} (search : P -> Session -> res bool) {H : Type} (active_proxy : H -> option str).

(** A connection to an address that stands for a name is dispatched like a
    connection to the name. *)
Lemma dispatch_fake (mode : RunMode) (router : Router (P := P)) (outbounds : gmap str H) (sess : Session) a host st st' :
  cr_fake_ip_enabled st = true -> cr_is_fake_ip (sa_ip a) st = true -> cr_reverse_lookup (sa_ip a) st = (Some host, st') ->
  dispatch_stream search mode router outbounds (set_destination (Ip a) sess) st =
  dispatch_stream search mode router outbounds (set_destination (Domain host (sa_port a)) sess) st'.
Proof.
  intros Hf Hi Hr. unfold dispatch_stream. cbn [destination set_destination reverse_lookup]. by rewrite Hf, Hi, Hr.
Qed.

(** A destination the resolver knows nothing about. *)
Definition plain_ip (a : SocketAddr) (st : dns_state) : Prop :=
  cr_fake_ip_enabled st = false /\ cr_cached_for (sa_ip a) st = None.

Lemma plain_lookup a st : plain_ip a st -> reverse_lookup (Ip a) st = (Ok (Some (Ip a)), st).
Proof. intros [Hf Hc]. cbn. by rewrite Hf, Hc. Qed.

(** Datagram sessions are shared.  Two datagrams of one client that go
    through the same outbound use one session with the remote side, whatever
    their destinations; a reply on it is delivered to that client as coming
    from the destination of the datagram that opened the session. *)
Theorem udp_session_shared (router : Router (P := P)) (outbounds : gmap str H) (connects : H -> Session -> bool) (h : H)
    (now1 now2 fresh1 fresh2 : Z) (sess s0 : Session) (src d1 d2 : SocketAddr) (data1 data2 : list Z) (st : dns_state)
    (Hh : outbounds !! PROXY_DIRECT = Some h) (Hconn : forall s, connects h s = true)
    (Hs : session_clone sess = Ok s0) (H1 : plain_ip d1 st) (H2 : plain_ip d2 st) :
  let p1 := {| up_data := data1; up_src_addr := Ip src; up_dst_addr := Ip d1 |} in
  let p2 := {| up_data := data2; up_src_addr := Ip src; up_dst_addr := Ip d2 |} in
  exists m1 m2 e,
    on_local_packet search active_proxy RmDirect router outbounds connects now1 fresh1 sess p1 [] st = Ok (UaSend fresh1 p1, m1, st) /\
    on_local_packet search active_proxy RmDirect router outbounds connects now2 fresh2 sess p2 m1 st = Ok (UaSend fresh1 p2, m2, st) /\
    alist_get (default PROXY_DIRECT (active_proxy h), src) m2 = Some e /\ ue_id e = fresh1 /\ ue_last e = now2 /\
    forall reply, nat_reply e reply = {| up_data := up_data reply; up_src_addr := Ip d1; up_dst_addr := Ip src |}.
Proof.
  intros p1 p2. unfold on_local_packet. rewrite Hs. unfold p1, p2. cbn [up_dst_addr up_src_addr up_data].
  rewrite (plain_lookup d1 st H1), (plain_lookup d2 st H2).
  cbn [mbind res_mbind res_bind socks_clone must_into_socket_addr or_panic try_into_socket_addr choose_outbound].
  unfold handler_for. rewrite Hh. cbn [mbind res_mbind res_bind get_outbound_sender_mut alist_get].
  rewrite Hconn. cbn [source set_destination set_source]. do 3 eexists. split; [reflexivity|].
  unfold get_outbound_sender_mut. rewrite alist_get_insert, decide_True by done.
  split; [reflexivity|]. cbn [ue_id ue_orig_dest ue_source ue_last]. by rewrite alist_get_insert, decide_True by done.
Qed.

(** The cleaner removes exactly the sessions idle for ten seconds. *)
Lemma clean_spec now m k e : NoDup m.*1 -> alist_get k (clean now m) = Some e <-> alist_get k m = Some e /\ now - ue_last e < UDP_TIMEOUT.
Proof.
  unfold clean, OutboundHandleMap. induction m as [|[k' e'] m IH]; cbn [fmap list_fmap alist_get]; intros Hnd; [by split; [|intros []]|].
  apply NoDup_cons in Hnd as [Hni Hnd]. specialize (IH Hnd).
  rewrite filter_cons. case_decide as Ht; cbn in *.
  - destruct (decide (k = k')) as [->|]; [|done]. split; [by intros [= <-]|by intros [[= <-] _]].
  - rewrite IH. destruct (decide (k = k')) as [->|]; [|done]. split; [|intros [[= <-] ?]; lia].
    intros [Hg _]. exfalso. apply Hni. by apply alist_get_elem, (list_elem_of_fmap_2 fst) in Hg.
Qed.
End dispatch_spec.
