(* ===== verification/Gateway.v ===== *)
(** * From the DNS answer to the outbound

    The enhanced resolver as the dispatcher's resolver, and the path of a
    connection in fake-ip mode: the client asks the DNS server for a name,
    connects to the address it is given, and the dispatcher treats the
    connection as one to the name. *)

From S2P Require Import Prelude Str Net Session Trie Geo Rule Router Profile FakeIp FakePool DnsConfig Resolver ResolverSpec Dispatcher.

Section gateway.
Context {NM : NameLib} {NL : IpNetLib} {RC : RecordCache} {S : Type} {SO : StoreOps S} {SL : StoreLaws S} {D : Type}.
Context {C : Type} {UP : Upstream C}.

(** Name lookups for rules go to the network and are a parameter. *)
Definition enhanced_resolver (lookup : @St NM NL RC S D -> str -> bool -> res (option IpAddr) * St) : ClashResolver := {|
  cr_resolver := {| dns_state := @St NM NL RC S D; resolve := lookup |};
  cr_fake_ip_enabled := fake_ip_enabled;
  cr_is_fake_ip := resolver_is_fake_ip;
  cr_reverse_lookup := resolver_reverse_lookup;
  cr_cached_for := cached_for;
|}.

(** C2: a name survives its fake address.  In fake-ip mode, a client asks the
    DNS server about a name (anything but its IPv6 addresses) that the fake-ip
    filter does not cover, the hosts file does not list, and that the pool can
    hold and does not read as an IPv4 address.  It is given an address of the
    pool, which the pool now keeps for the name; and a connection to that
    address, on any port and in any mode, is dispatched exactly as a
    connection to the name itself: the same rule, outbound and session.  The
    only difference is that the name was looked up in the pool, which changes
    none of its pairings and nothing else of the resolver. *)
Theorem fake_connection_by_name {RX : RegexLib} {PL : ProcessLookup} (oc : bool)
    (r : @EnhancedResolver NL C) (pick : nat -> nat) (s : @St NM NL RC S D) (f : @FakeDns NL S) (req : Message) (q : Query)
    (Hf : s_fake_dns s = Some f) (Hinv : pool_inv f) (Hq : query_of req = Some q) (Ht : q_type q <> RtAAAA)
    (Hok : ok_host (asked_host q)) (Hskip : should_skip (asked_host q) f = false)
    (Hhosts : hosts_entry r expect_v4 (asked_host q) = None) (Hlit : parse_v4 (asked_host q) = None)
    (lookup : @St NM NL RC S D -> str -> bool -> res (option IpAddr) * St) :
  exists a msg (f' f'' : @FakeDns NL S), let s' := set_fake (Some f') s in let s'' := set_fake (Some f'') s in
    exchange_with_resolver oc r pick req true s = Some (Ok msg, s') /\ rr_data <$> m_answers msg = [RdA a] /\
    is_fake_ip (V4 a) f' = true /\ bound (fd_store f') (asked_host q) (V4 a) /\
    (forall h ip, bound (fd_store f'') h ip <-> bound (fd_store f') h ip) /\ frame f' f'' /\
    forall {P H : Type} (search : P -> Session -> res bool) (mode : RunMode) (router : Router (P := P))
      (outbounds : gmap str H) (sess : Session) (port : Z),
    dispatch_stream (CR := enhanced_resolver lookup) search mode router outbounds
      (set_destination (Ip (sa_new (V4 a) port)) sess) s' =
    dispatch_stream (CR := enhanced_resolver lookup) search mode router outbounds
      (set_destination (Domain (asked_host q) port) sess) s''.
Proof.
  destruct (lookup_any oc f (asked_host q) Hinv Hok) as (a & f' & E & Hinv' & Hfake & Hb & Hrev & _).
  destruct (fake_exchange oc r pick s f req q a f' Hf Hq Ht Hskip Hhosts Hlit E) as (msg & Hx & Hans & _).
  destruct (proj2 Hinv' _ _ Hb) as (o & Ho & Ea). destruct (offset_ip_ok oc f' o (proj1 Hinv') Ho) as [_ Hip]. rewrite <- Ea in Hip.
  destruct (reverse_spec f' (V4 a) (proj1 Hinv') Hip) as (_ & Hfr & _ & Hview).
  exists a, msg, f', (FakeIp.reverse_lookup (V4 a) f').2. cbv zeta.
  split; [exact Hx|]. rewrite Hans. split_and!; [done..|]. intros P H search mode router outbounds sess port.
  apply (dispatch_fake (CR := enhanced_resolver lookup) search mode router outbounds sess (sa_new (V4 a) port)).
  - done.
  - exact Hfake.
  - cbn [cr_reverse_lookup enhanced_resolver sa_ip sa_new]. by rewrite reverse_of_set_fake, Hrev.
Qed.
End gateway.

(** ** An example *)
Section demo.
#[local] Existing Instances ref_ipnet file_store plain_names plain_caches three_servers.

Lemma fake_connection_by_name_witness :
  exists a msg s' s'', exchange_with_resolver true (two_level "US") (fun _ => 0%nat) (question (lit "foo.com."))
      true (idle (Some demo_pool)) = Some (Ok msg, s') /\ rr_data <$> m_answers msg = [RdA a] /\
    forall sess : Session, dispatch_stream (PL := demo_process) (RX := demo_regex) (H := unit)
        (CR := enhanced_resolver (fun s _ _ => (Ok None, s))) demo_search RmDirect {| rules := []; asn_mmdb := None |}
        {[ PROXY_DIRECT := tt ]} (set_destination (Ip (sa_new (V4 a) 443)) sess) s' =
      dispatch_stream (PL := demo_process) (RX := demo_regex) (H := unit)
        (CR := enhanced_resolver (fun s _ _ => (Ok None, s))) demo_search RmDirect {| rules := []; asn_mmdb := None |}
        {[ PROXY_DIRECT := tt ]} (set_destination (Domain (lit "foo.com") 443) sess) s''.
Proof.
  destruct (fake_connection_by_name (RX := demo_regex) (PL := demo_process) true (two_level "US")
    (fun _ => 0%nat) (idle (Some demo_pool)) demo_pool
    (question (lit "foo.com.")) {| q_name := (lit "foo.com." : @Name plain_names); q_type := RtA; q_class_in := true |}
    eq_refl (conj demo_pool_wf (fun h i H => False_ind _ (demo_cache_empty h i H))) eq_refl ltac:(done) demo_host
    eq_refl eq_refl eq_refl (fun s _ _ => (Ok None, s)))
    as (a & msg & f' & f'' & H1 & H2 & _ & _ & _ & _ & H3).
  exists a, msg, (set_fake (Some f') (idle (Some demo_pool))), (set_fake (Some f'') (idle (Some demo_pool))).
  split; [exact H1|]. split; [exact H2|].
  intros sess. exact (H3 unit unit demo_search RmDirect {| rules := []; asn_mmdb := None |} {[ PROXY_DIRECT := tt ]} sess 443).
Defined.

(** A resolver without fake addresses. *)
Definition no_fake : ClashResolver := {|
  cr_resolver := {| dns_state := unit; resolve := fun st _ _ => (Ok None, st) |};
  cr_fake_ip_enabled _ := false; cr_is_fake_ip _ _ := false; cr_reverse_lookup _ st := (None, st); cr_cached_for _ _ := None |}.

Lemma udp_session_shared_witness :
  let src := sa_new (V4 0x7f000001) 5000 in
  exists m1 m2 e,
    on_local_packet (CR := no_fake) (PL := demo_process) (RX := demo_regex) demo_search (fun _ : unit => None)
      RmDirect {| rules := []; asn_mmdb := None |} {[ PROXY_DIRECT := tt ]} (fun _ _ => true) 0 1 (session_default 0 0).1
      {| up_data := [1]; up_src_addr := Ip src; up_dst_addr := Ip (sa_new (V4 0x01010101) 53) |} [] tt =
      Ok (UaSend 1 {| up_data := [1]; up_src_addr := Ip src; up_dst_addr := Ip (sa_new (V4 0x01010101) 53) |}, m1, tt) /\
    alist_get (PROXY_DIRECT, src) m2 = Some e /\
    nat_reply e {| up_data := [2]; up_src_addr := Ip (sa_new (V4 0x08080808) 53); up_dst_addr := Ip src |} =
      {| up_data := [2]; up_src_addr := Ip (sa_new (V4 0x01010101) 53); up_dst_addr := Ip src |}.
Proof.
  intros src.
  destruct (udp_session_shared (CR := no_fake) (PL := demo_process) (RX := demo_regex) demo_search
    (fun _ : unit => None) {| rules := []; asn_mmdb := None |} {[ PROXY_DIRECT := tt ]} (fun _ _ => true) tt 0 1 1 2
    (session_default 0 0).1 (session_default 0 0).1 src (sa_new (V4 0x01010101) 53) (sa_new (V4 0x08080808) 53) [1] [1] tt)
    as (m1 & m2 & e & H1 & _ & He & _ & _ & Hr).
  - reflexivity.
  - reflexivity.
  - reflexivity.
  - by split.
  - by split.
  - exists m1, m2, e. split; [exact H1|]. split; [exact He|exact (Hr _)].
Defined.
End demo.
