(* ===== verification/Config.v ===== *)
(** * From the configuration file to the running program ([config], [lib.rs])

    The fields of the configuration file, their conversion and validation
    ([config/internal/convert]), and the part of [create_components] that
    turns a validated configuration into the table of outbounds. *)

From S2P Require Import Prelude F64 Str Net Session Trie Geo Rule Router DagSort ProxyManager Groups Profile.
From S2P Require Import DnsConfig OutboundManager OutboundSpec Converters Crypto Inbound Dispatcher.

(** ** Fields of the file ([config/def.rs]) *)
(* @src clash-lib/src/config/def.rs ~^pub enum DnsHijack~ DnsHijack *)
Inductive DnsHijack : Type := Switch (b : bool) | HijackList (l : list str).
(* @src clash-lib/src/config/def.rs ~^pub struct TunConfig~ def::TunConfig *)
Record DefTun : Type := {
  dt_enable : bool; dt_device_id : str; dt_gateway : str; dt_gateway_v6 : option str; dt_routes : option (list str);
  dt_route_all : bool; dt_mtu : option Z; dt_so_mark : option Z; dt_route_table : Z; dt_dns_hijack : DnsHijack }.
(* @src clash-lib/src/config/def.rs ~^pub enum LogLevel~ LogLevel *)
Inductive LogLevel : Type := LlTrace | LlDebug | LlInfo | LlWarning | LlError | LlSilent.
(* @src clash-lib/src/config/def.rs ~^impl Display for LogLevel~ LogLevel::fmt *)
Definition log_level_show (l : LogLevel) : str :=
  lit match l with LlTrace => "trace" | LlDebug => "debug" | LlInfo => "info" | LlWarning => "warn" | LlError => "error"
             | LlSilent => "off" end.
(* @src clash-lib/src/config/def.rs ~^impl Display for RunMode~ RunMode::fmt *)
Definition run_mode_show (m : RunMode) : str :=
  lit match m with RmGlobal => "global" | RmRule => "rule" | RmDirect => "direct" end.

(** The product is computed in [u64]. *)
(* @src clash-lib/src/config/def.rs ~^impl TryFrom<String> for MemoryLimit~ MemoryLimit::try_from *)
Definition memory_limit_try_from {UC : UnicodeLib} (oc : bool) (s : str) : res Z :=
  let s := to_uppercase (trim s) in
  match strip_suffix (lit "GB") s with
  | Some stripped =>
    val ← ok_or (parse_uint 64 (trim stripped)) "invalid memory limit";
    a ← arith oc 64 (val * 1024); b ← arith oc 64 (a * 1024); arith oc 64 (b * 1024)
  | None =>
    match strip_suffix (lit "MB") s with
    | Some stripped =>
      val ← ok_or (parse_uint 64 (trim stripped)) "invalid memory limit";
      a ← arith oc 64 (val * 1024); arith oc 64 (a * 1024)
    | None => ok_or (parse_uint 64 s) "invalid memory limit format (expected '50MB' or '1GB')"
    end
  end.

(** A port is written as a number or as a string. *)
(* @src clash-lib/src/config/def.rs ~^impl<'de> Deserialize<'de> for Port~ Port::deserialize *)
Definition port_deserialize (v : YVal) : res Z :=
  match v with
  | YUint num => if num <? 2 ^ 16 then Ok num else Err "Port number out of range"
  | YStr s => ok_or (parse_uint 16 s) "invalid digit found in string"
  | YNull => Err "Invalid type for port"
  | _ => Err "data did not match any variant of untagged enum StrOrNum"
  end.

(** ** Listeners ([config/internal/listener.rs]) *)
(* @src clash-lib/src/config/internal/config.rs ~^pub struct BindAddress~ BindAddress *)
Definition BindAddress : Type := IpAddr.
(* @src clash-lib/src/config/internal/config.rs ~    pub fn all_v4~ BindAddress::all_v4 *)
Definition all_v4 : BindAddress := V4 0.
(* @src clash-lib/src/config/internal/config.rs ~    pub fn dual_stack~ BindAddress::dual_stack *)
Definition dual_stack : BindAddress := V6 0.
(* @src clash-lib/src/config/internal/config.rs ~    pub fn local~ BindAddress::local *)
Definition bind_local : BindAddress := V4 (127 * 2 ^ 24 + 1).
(* @src clash-lib/src/config/internal/config.rs ~    pub fn is_localhost~ BindAddress::is_localhost *)
Definition is_localhost (b : BindAddress) : bool :=
  match b with V4 a => Z.shiftr a 24 =? 127 | V6 a => a =? 1 end.
(* @src clash-lib/src/config/internal/config.rs ~^impl FromStr for BindAddress~ BindAddress::from_str *)
Definition bind_address_from_str (s : str) : res BindAddress :=
  if bool_decide (s = lit "*") then Ok (V4 0)
  else if bool_decide (s = lit "localhost") then Ok bind_local
  else if bool_decide (s = lit "[::]" \/ s = lit "::") then Ok (V6 0)
  else ok_or (parse_ip s) "Invalid BindAddress value".

(* @src clash-lib/src/config/internal/listener.rs ~^pub struct CommonInboundOpts~ CommonInboundOpts *)
Record CommonInboundOpts : Type := {
  ci_name : str; ci_listen : BindAddress; ci_allow_lan : bool; ci_port : Z; ci_fw_mark : option Z }.
(* @src clash-lib/src/config/internal/listener.rs ~^pub enum InboundOpts~ InboundOpts *)
Inductive InboundOpts : Type :=
| InHttp (c : CommonInboundOpts)
| InSocks (c : CommonInboundOpts) (udp : bool)
| InMixed (c : CommonInboundOpts) (udp : bool)
| InTProxy (c : CommonInboundOpts) (udp : bool)
| InRedir (c : CommonInboundOpts)
| InTunnel (c : CommonInboundOpts) (network : list str) (target : str)
| InShadowsocks (c : CommonInboundOpts) (udp : bool) (cipher password : str)
| InTrojan (c : CommonInboundOpts) (udp : bool) (password certificate private_key : str) (alpn : list str)
    (network congestion_controller : option str).
#[global] Instance common_inbound_eq_dec : EqDecision CommonInboundOpts.
Proof. solve_decision. Defined.
#[global] Instance inbound_opts_eq_dec : EqDecision InboundOpts.
Proof. solve_decision. Defined.
(* @src clash-lib/src/config/internal/listener.rs ~    pub fn common_opts\(&self\)~ InboundOpts::common_opts *)
Definition inbound_common (o : InboundOpts) : CommonInboundOpts :=
  match o with
  | InHttp c | InSocks c _ | InMixed c _ | InTProxy c _ | InRedir c | InTunnel c _ _ | InShadowsocks c _ _ _
  | InTrojan c _ _ _ _ _ _ _ => c
  end.

(** A [HashSet] as a list without duplicates. *)
Definition hs_insert {A} `{EqDecision A} (x : A) (s : list A) : list A := if decide (x ∈ s) then s else s ++ [x].

Section config.
Context {UL : UrlLib} {RX : RegexLib} {NL : IpNetLib} {FN : FamilyNetLib} {UC : UnicodeLib} {LL : ListenLib}.
Context {CL : ConverterLib} {CR : CryptoLib}.

(* @src clash-lib/src/config/def.rs ~^pub struct Config~ def::Config *)
Record FileConfig : Type := {
  fc_port : option Z; fc_socks_port : option Z; fc_redir_port : option Z; fc_tproxy_port : option Z;
  fc_mixed_port : option Z; fc_authentication : list str; fc_allow_lan : option bool; fc_bind_address : BindAddress;
  fc_mode : RunMode; fc_log_level : LogLevel; fc_log_timestamp : bool; fc_allocator_limit : option Z; fc_dns : DNS;
  fc_store_selected : bool; fc_store_fake_ip : bool; fc_store_smart_stats : bool;
  fc_proxy : option (list (gmap str YVal)); fc_proxy_group : option (list (gmap str YVal)); fc_rule : option (list str);
  fc_hosts : list (str * str); fc_mmdb : option str; fc_mmdb_download_url : option str; fc_asn_mmdb : option str;
  fc_asn_mmdb_download_url : option str; fc_geosite : option str; fc_geosite_download_url : option str;
  fc_ipv6 : bool; fc_external_controller : option str; fc_external_controller_ipc : option str;
  fc_external_ui : option str; fc_secret : option str; fc_cors_allow_origins : option (list str);
  fc_interface : option str; fc_routing_mark : option Z;
  fc_proxy_provider : option (list (str * gmap str YVal)); fc_rule_provider : option (list (str * gmap str YVal));
  fc_tcp_buffer_size : option (option Z); fc_tun : option DefTun; fc_listeners : option (list (gmap str YVal)) }.

(** The view of it the DNS component reads. *)
Definition dns_view (c : FileConfig) : DefConfig :=
  {| c_dns := fc_dns c; c_ipv6 := fc_ipv6 c; c_routing_mark := fc_routing_mark c; c_hosts := fc_hosts c;
     c_store_fake_ip := fc_store_fake_ip c; c_store_smart_stats := fc_store_smart_stats c |}.

(** ** The internal configuration ([config/internal/config.rs]) *)
Inductive Interface : Type := IfaceAddr (a : IpAddr) | IfaceName (n : str).
(* @src clash-lib/src/config/internal/config.rs ~^pub struct Controller~ Controller *)
Record Controller : Type := {
  ct_external_controller : option str; ct_external_controller_ipc : option str; ct_external_ui : option str;
  ct_secret : option str; ct_cors_allow_origins : option (list str) }.
(* @src clash-lib/src/config/internal/config.rs ~^pub struct General~ General *)
Record General : Type := {
  g_authentication : list str; g_bind_address : BindAddress; g_controller : Controller; g_mode : RunMode;
  g_log_level : LogLevel; g_log_timestamp : bool; g_allocator_limit : option Z; g_ipv6 : bool;
  g_interface : option Interface; g_routing_mask : option Z; g_mmdb : option str; g_mmdb_download_url : option str;
  g_asn_mmdb : option str; g_asn_mmdb_download_url : option str; g_geosite : option str; g_geosite_download_url : option str }.
(* @src clash-lib/src/config/internal/config.rs ~^pub struct TunConfig~ TunConfig *)
Record TunConfig : Type := {
  tn_enable : bool; tn_device_id : str; tn_route_all : bool; tn_routes : list IpNet; tn_gateway : option Ipv4Net;
  tn_gateway_v6 : option Ipv6Net; tn_mtu : option Z; tn_so_mark : option Z; tn_route_table : Z; tn_dns_hijack : bool }.

(** The address listened on: every IPv4 address becomes every address when
    IPv6 is on. *)
Definition effective_bind (c : FileConfig) : BindAddress :=
  if bool_decide (fc_bind_address c = all_v4) && fc_ipv6 c then dual_stack else fc_bind_address c.

(* @src clash-lib/src/config/internal/convert/general.rs ~^pub\(super\) fn convert~ general::convert *)
Definition general_convert (c : FileConfig) : General := {|
  g_authentication := fc_authentication c; g_bind_address := effective_bind c;
  g_controller := {| ct_external_controller := fc_external_controller c; ct_external_controller_ipc := fc_external_controller_ipc c;
                     ct_external_ui := fc_external_ui c; ct_secret := fc_secret c; ct_cors_allow_origins := fc_cors_allow_origins c |};
  g_mode := fc_mode c; g_log_level := fc_log_level c; g_log_timestamp := fc_log_timestamp c;
  g_allocator_limit := fc_allocator_limit c; g_ipv6 := fc_ipv6 c;
  g_interface := (fun iface => match parse_ip iface with Some a => IfaceAddr a | None => IfaceName iface end) <$> fc_interface c;
  g_routing_mask := fc_routing_mark c; g_mmdb := fc_mmdb c; g_mmdb_download_url := fc_mmdb_download_url c;
  g_asn_mmdb := fc_asn_mmdb c; g_asn_mmdb_download_url := fc_asn_mmdb_download_url c; g_geosite := fc_geosite c;
  g_geosite_download_url := fc_geosite_download_url c |}.

Fixpoint parse_all {A} (f : str -> option A) (e : string) (l : list str) : res (list A) :=
  match l with
  | [] => Ok []
  | x :: l' => a ← ok_or (f x) e; r ← parse_all f e l'; Ok (a :: r)
  end.

(** The gateway of the default is 0.0.0.0/0, [None] here. *)
(* @src clash-lib/src/config/internal/convert/tun.rs ~^pub fn convert~ tun::convert *)
Definition tun_convert (before : option DefTun) : res TunConfig :=
  match before with
  | Some t =>
    routes ← match dt_routes t with Some r => parse_all ipnet_parse "parse tun routes" r | None => Ok [] end;
    gateway ← ok_or (v4net_parse (dt_gateway t)) "parse tun gateway";
    gateway_v6 ← match dt_gateway_v6 t with
                 | Some x => Some <$> ok_or (v6net_parse x) "parse tun gateway_v6"
                 | None => Ok None
                 end;
    Ok {| tn_enable := dt_enable t; tn_device_id := dt_device_id t; tn_route_all := dt_route_all t; tn_routes := routes;
          tn_gateway := Some gateway; tn_gateway_v6 := gateway_v6; tn_mtu := dt_mtu t; tn_so_mark := dt_so_mark t;
          tn_route_table := dt_route_table t;
          tn_dns_hijack := match dt_dns_hijack t with Switch b => b | HijackList _ => true end |}
  | None =>
    Ok {| tn_enable := false; tn_device_id := []; tn_route_all := false; tn_routes := []; tn_gateway := None;
          tn_gateway_v6 := None; tn_mtu := None; tn_so_mark := None; tn_route_table := 0; tn_dns_hijack := false |}
  end.
(** ** Listeners *)

(** The derived readers of the entries of the file: a listener, a group, a
    provider of proxies, a provider of rules. *)
Context {RuleProviderDef : Type}.
Context (inbound_deserialize : gmap str YVal -> option InboundOpts)
        (proxy_deserialize : gmap str YVal -> option OutboundProxyProtocol)
        (group_deserialize : gmap str YVal -> option OutboundGroupProtocol)
        (provider_deserialize : gmap str YVal -> option OutboundProxyProviderDef)
        (rule_provider_deserialize : gmap str YVal -> option RuleProviderDef)
        (ifaces : list OutboundInterface).

(* @src clash-lib/src/config/internal/convert/listener.rs ~^impl TryFrom<HashMap<String, Value>> for InboundOpts~ InboundOpts::try_from *)
Definition inbound_try_from (mapping : gmap str YVal) : res InboundOpts :=
  _ ← ok_or (opt_str mapping "name" ≫= fun v => if bool_decide (v = []) then None else Some v)
        "missing field `name` in inbound listener";
  ok_or (inbound_deserialize mapping) "error while parsing".

Fixpoint try_all {A B} (f : A -> res B) (l : list A) : res (list B) :=
  match l with
  | [] => Ok []
  | x :: l' => b ← f x; r ← try_all f l'; Ok (b :: r)
  end.

(** A listener given by a port of the top level. *)
Definition shorthand (c : FileConfig) (name : string) (mk : CommonInboundOpts -> InboundOpts) (port : option Z)
    (s : list InboundOpts) : list InboundOpts :=
  match port with
  | Some port => hs_insert (mk {| ci_name := lit name; ci_listen := effective_bind c; ci_allow_lan := default false (fc_allow_lan c);
                                  ci_port := port; ci_fw_mark := fc_routing_mark c |}) s
  | None => s
  end.

(* @src clash-lib/src/config/internal/convert/listener.rs ~^pub\(super\) fn convert~ listener::convert *)
Definition listener_convert (raw : option (list (gmap str YVal))) (c : FileConfig) : res (list InboundOpts) :=
  inbounds ← try_all inbound_try_from (default [] raw);
  let all := foldl (fun s i => hs_insert i s) [] inbounds in
  let all := shorthand c "HTTP-IN" InHttp (fc_port c) all in
  let all := shorthand c "SOCKS-IN" (fun o => InSocks o true) (fc_socks_port c) all in
  let all := shorthand c "MIXED-IN" (fun o => InMixed o true) (fc_mixed_port c) all in
  let all := shorthand c "REDIR-IN" InRedir (fc_redir_port c) all in
  Ok (shorthand c "TPROXY-IN" (fun o => InTProxy o true) (fc_tproxy_port c) all).

(** ** Proxies, groups and providers *)

(* @src clash-lib/src/config/internal/convert/mod.rs 88 120 convert (proxies) *)
Definition add_proxy (st : gmap str OutboundProxyProtocol * list str) (x : gmap str YVal) :
    res (gmap str OutboundProxyProtocol * list str) :=
  let '(rv, proxy_names) := st in
  proxy ← protocol_try_from proxy_deserialize x;
  let name := protocol_name proxy in
  if bool_decide (is_Some (rv !! name)) then Err "duplicated proxy name"
  else Ok (<[name := proxy]> rv, proxy_names ++ [name]).

(* @src clash-lib/src/config/internal/convert/mod.rs ~^impl TryFrom<HashMap<String, Value>> for OutboundGroupProtocol~ OutboundGroupProtocol::try_from *)
Definition group_try_from (mapping : gmap str YVal) : res OutboundGroupProtocol :=
  _ ← ok_or (opt_str mapping "name") "missing field `name` in outbound proxy grouop";
  ok_or (group_deserialize mapping) "error while parsing".

(** A second group of a name replaces the first. *)
(* @src clash-lib/src/config/internal/convert/proxy_group.rs ~^pub fn convert~ proxy_group::convert *)
Definition add_proxy_group (st : gmap str OutboundGroupProtocol * list str) (mapping : gmap str YVal) :
    res (gmap str OutboundGroupProtocol * list str) :=
  let '(rv, proxy_names) := st in
  match group_try_from mapping with
  | Ok group => Ok (<[group_name group := group]> rv, proxy_names ++ [group_name group])
  | Err _ => if bool_decide (is_Some (mapping !! lit "name")) then Err "proxy group" else Err "proxy group name missing"
  | Panic => Panic
  end.

(* @src clash-lib/src/config/internal/proxy.rs ~^impl TryFrom<HashMap<String, Value>> for OutboundProxyProviderDef~ OutboundProxyProviderDef::try_from *)
Definition provider_try_from (mapping : gmap str YVal) : res OutboundProxyProviderDef :=
  _ ← ok_or (opt_str mapping "name") "missing field `name` in outbound proxy provider";
  ok_or (provider_deserialize mapping) "error while parsing".

(** An invalid provider ends in [expect]. *)
(* @src clash-lib/src/config/internal/convert/mod.rs 123 147 convert (proxy providers) *)
Definition providers_convert (m : option (list (str * gmap str YVal))) : res (gmap str OutboundProxyProviderDef) :=
  expect (res_fold (fun rv '(name, body) =>
      provider ← provider_try_from (<[lit "name" := YStr name]> body);
      Ok (<[name := provider]> rv)) ∅ (default [] m)).

(* @src clash-lib/src/common/utils.rs ~^pub fn md5_str~ md5_str *)
Definition md5_str (bytes : list Z) : str := encode_hex (md5 bytes).

(* @src clash-lib/src/config/internal/convert/rule_provider.rs 18 41 rule_provider::convert (defaults) *)
Definition rule_provider_body (name : str) (body : gmap str YVal) : gmap str YVal :=
  let body := <[lit "name" := YStr name]> body in
  let body := match body !! lit "interval" with Some _ => body | None => <[lit "interval" := YUint 0]> body end in
  match body !! lit "path" with
  | Some _ => body
  | None => <[lit "path" := YStr (lit "rules/" ++ md5_str (utf8 (default name (opt_str body "url"))))]> body
  end.
(* @src clash-lib/src/config/internal/convert/rule_provider.rs ~^impl TryFrom~ RuleProviderDef::try_from *)
Definition rule_provider_try_from (mapping : gmap str YVal) : res RuleProviderDef :=
  _ ← ok_or (opt_str mapping "name") "rule provider name is required";
  ok_or (rule_provider_deserialize mapping) "error while parsing".
(* @src clash-lib/src/config/internal/convert/rule_provider.rs ~^pub\(super\) fn convert~ rule_provider::convert *)
Definition rule_providers_convert (m : option (list (str * gmap str YVal))) : res (gmap str RuleProviderDef) :=
  expect (res_fold (fun rv '(name, body) =>
      provider ← rule_provider_try_from (rule_provider_body name body);
      Ok (<[name := provider]> rv)) ∅ (default [] m)).

(** [splitn(2, ':')] *)
(* @src clash-lib/src/config/internal/convert/mod.rs 77 87 convert (users) *)
Definition user_of (u : str) : User :=
  match split_once 58 u with
  | Some (username, password) => {| user_name := username; user_password := password |}
  | None => {| user_name := u; user_password := [] |}
  end.

(* @src clash-lib/src/config/internal/config.rs ~^pub struct Config~ Config *)
Record InternalConfig : Type := {
  ic_general : General; ic_dns : Config; ic_tun : TunConfig; ic_tcp_buffer_size : option (option Z);
  ic_store_selected : bool; ic_store_smart_stats : bool; ic_rules : list RuleType;
  ic_rule_providers : gmap str RuleProviderDef; ic_users : list User; ic_proxy_names : list str;
  ic_proxies : gmap str OutboundProxyProtocol; ic_proxy_groups : gmap str OutboundGroupProtocol;
  ic_proxy_providers : gmap str OutboundProxyProviderDef; ic_listeners : list InboundOpts }.

(* @src clash-lib/src/config/internal/config.rs ~    pub fn validate~ Config::validate *)
Definition validate (c : InternalConfig) : res InternalConfig :=
  if forallb (fun r => bool_decide (is_Some (ic_proxies c !! rt_target r)) ||
                       bool_decide (is_Some (ic_proxy_groups c !! rt_target r))) (ic_rules c)
  then Ok c else Err "referenced in a rule was not found".

Definition builtin_proxies : gmap str OutboundProxyProtocol :=
  <[PROXY_REJECT := PReject PROXY_REJECT]> {[PROXY_DIRECT := PDirect PROXY_DIRECT]}.

(* @src clash-lib/src/config/internal/convert/mod.rs ~^pub\(super\) fn convert~ convert *)
Definition convert (c : FileConfig) : res InternalConfig :=
  let tun := match fc_tun c with
             | Some t => Some (match dt_so_mark t with
                               | None => {| dt_enable := dt_enable t; dt_device_id := dt_device_id t; dt_gateway := dt_gateway t;
                                            dt_gateway_v6 := dt_gateway_v6 t; dt_routes := dt_routes t; dt_route_all := dt_route_all t;
                                            dt_mtu := dt_mtu t; dt_so_mark := fc_routing_mark c; dt_route_table := dt_route_table t;
                                            dt_dns_hijack := dt_dns_hijack t |}
                               | Some _ => t
                               end)
             | None => None
             end in
  dns ← config_try_from ifaces (dns_view c);
  tun ← tun_convert tun;
  rules ← try_all rt_try_from (default [] (fc_rule c));
  rule_providers ← rule_providers_convert (fc_rule_provider c);
  '(proxies, proxy_names) ← res_fold add_proxy (builtin_proxies, [PROXY_DIRECT; PROXY_REJECT]) (default [] (fc_proxy c));
  '(groups, proxy_names) ← res_fold add_proxy_group (∅, proxy_names) (default [] (fc_proxy_group c));
  proxy_providers ← providers_convert (fc_proxy_provider c);
  listeners ← listener_convert (fc_listeners c) c;
  validate {| ic_general := general_convert c; ic_dns := dns; ic_tun := tun; ic_tcp_buffer_size := fc_tcp_buffer_size c;
              ic_store_selected := fc_store_selected c; ic_store_smart_stats := fc_store_smart_stats c; ic_rules := rules;
              ic_rule_providers := rule_providers; ic_users := user_of <$> fc_authentication c; ic_proxy_names := proxy_names;
              ic_proxies := proxies; ic_proxy_groups := groups; ic_proxy_providers := proxy_providers; ic_listeners := listeners |}.

(** ** Starting the outbounds ([lib.rs]) *)

(** The iteration orders of the three maps of the configuration. *)
Record ConfigOrders : Type := {
  cfo_proxies : gmap str OutboundProxyProtocol -> list OutboundProxyProtocol;
  cfo_groups : gmap str OutboundGroupProtocol -> list OutboundGroupProtocol;
  cfo_providers : gmap str OutboundProxyProviderDef -> list (str * OutboundProxyProviderDef);
}.
Context {OB : Outbound (Handler PlainHandler)} {SD : Type}.
Context (parse_uri : str -> option ProxyManager.Uri) (fetched : str -> option (list PlainHandler)) (now : Z).

(* @src clash-lib/src/lib.rs 429 438 create_components (plain outbounds) *)
Definition create_plain_outbounds (co : ConfigOrders) (c : InternalConfig) : res (list PlainHandler) :=
  load_plain_outbounds (cfo_proxies co (ic_proxies c)).

(* @src clash-lib/src/lib.rs 480 499 create_components (outbound manager) *)
Definition create_outbounds (co : ConfigOrders) (mo : MapOrders) (c : InternalConfig) (cache : CacheFile SD) :
    loaded (OutboundManager PlainHandler * gmap str (Connector (Handler PlainHandler))) :=
  plain_outbounds ← of_res (create_plain_outbounds co c);
  manager_new parse_uri fetched now mo plain_outbounds (cfo_groups co (ic_proxy_groups c))
    (cfo_providers co (ic_proxy_providers c)) (ic_proxy_names c) cache.

End config.

(** * Theorems *)

(** ** Which names the table holds *)
Section table.
Context {X : Type} {PX : PlainOutbound X} {SD : Type} {OB : Outbound (Handler X)}.
Context (parse_uri : str -> option ProxyManager.Uri) (fetched : str -> option (list X)) (now : Z).
Abbreviation M := (OutboundManager X).

(** Every handler is filed under its own name. *)
Definition well_named (m : M) : Prop := forall n h, handlers m !! n = Some h -> handler_name h = n.

Lemma group_providers_handlers name proxies used interval lazy (m m' : M) pvs :
  group_providers now name proxies used interval lazy m = Loaded (pvs, m') -> handlers m' = handlers m.
Proof.
  unfold group_providers. destruct (check_group_empty proxies used); [done|]. intros H.
  apply loaded_bind_loaded in H as ([pvs1 m1] & H1 & H2). apply loaded_bind_loaded in H2 as (pvs2 & _ & [= _ <-]).
  destruct proxies as [l|]; [|by injection H1 as _ <-]. apply loaded_bind_loaded in H1 as ([pd m2] & H1 & [= _ <-]).
  unfold make_provider_from_proxies in H1. case_bool_decide; [done|].
  apply loaded_bind_loaded in H1 as (hs & _ & H1). by apply loaded_bind_loaded in H1 as (p & _ & [= _ <-]).
Qed.

Lemma load_group_handlers (cache : CacheFile SD) (m m' : M) g :
  load_group now cache m g = Loaded m' -> exists h, handlers m' = <[group_name g := h]> (handlers m) /\ handler_name h = group_name g.
Proof.
  rewrite load_group_eq. intros H. apply loaded_bind_loaded in H as ([pvs m1] & H1 & H2).
  rewrite <- (group_providers_handlers _ _ _ _ _ _ _ _ H1).
  destruct g; cbn [finish_group group_name] in *; try (injection H2 as <-; by eexists).
  apply loaded_bind_loaded in H2 as (index & _ & [= <-]). by eexists.
Qed.

Lemma loaded_groups_handlers (cache : CacheFile SD) gs (m m' : M) :
  loaded_fold (load_group now cache) m gs = Loaded m' -> well_named m ->
  well_named m' /\ forall n, is_Some (handlers m' !! n) <-> is_Some (handlers m !! n) \/ n ∈ group_name <$> gs.
Proof.
  revert m. induction gs as [|g gs IH]; intros m H Hm.
  - injection H as <-. split; [done|]. intros n. rewrite elem_of_nil. tauto.
  - cbn [loaded_fold] in H. apply loaded_bind_loaded in H as (m1 & H1 & H).
    destruct (load_group_handlers _ _ _ _ H1) as (h & Eh & Hn).
    destruct (IH m1 H) as [Hw Hd].
    { intros n x. rewrite Eh, lookup_insert_Some. intros [[<- <-]|[_ Hx]]; [done|by apply Hm]. }
    split; [done|]. intros n. rewrite Hd, Eh, lookup_insert_is_Some. cbn [fmap list_fmap]. rewrite elem_of_cons.
    destruct (decide (group_name g = n)); naive_solver.
Qed.

Lemma load_global_handlers keys values proxy_names (cache : CacheFile SD) (m m' : M) :
  load_global now keys values proxy_names cache m = Loaded m' ->
  exists h, handlers m' = <[PROXY_GLOBAL := h]> (handlers m) /\ handler_name h = PROXY_GLOBAL.
Proof.
  unfold load_global. intros H. apply loaded_bind_loaded in H as (pd & _ & H).
  apply loaded_bind_loaded in H as (index & _ & [= <-]). by eexists.
Qed.

Lemma load_providers_handlers defs values (m : M) :
  load_proxy_providers parse_uri fetched now defs values manager_empty = Loaded m -> handlers m = ∅.
Proof.
  unfold load_proxy_providers. intros H. apply loaded_bind_loaded in H as (m1 & H1 & [= <-]).
  assert (handlers m1 = ∅) as E1.
  { revert H1. assert (handlers (X := X) manager_empty = ∅) as E by done. revert E. generalize (manager_empty (X := X)).
    induction defs as [|[n d] defs IH]; intros m0 E0; cbn [loaded_fold]; [by intros [= <-]|]. intros H.
    apply loaded_bind_loaded in H as (m2 & H2 & H). apply (IH m2); [|done]. destruct d; cbn in H2.
    - apply loaded_bind_loaded in H2 as (u & _ & [= <-]). done.
    - by injection H2 as <-. }
  clear H1. generalize (values (proxy_providers m1)). intros l. revert m1 E1.
  induction l as [|i l IH]; intros m0 E0; cbn [foldl]; [done|].
  apply IH. unfold initialize_provider. destruct (providers m0 !! i) as [p|]; [|exact E0]. by destruct (fetched (po_name p)).
Qed.

(** A loaded manager answers exactly for its outbounds, its groups and
    GLOBAL, and by their names. *)
Lemma manager_names mo outbounds groups defs proxy_names (cache : CacheFile SD) m conn :
  orders_ok (mo_sort mo) ->
  manager_new parse_uri fetched now mo outbounds groups defs proxy_names cache = Loaded (m, conn) ->
  well_named m /\ forall n, is_Some (handlers m !! n) <->
    n ∈ px_name <$> outbounds \/ n ∈ group_name <$> groups \/ n = PROXY_GLOBAL.
Proof.
  intros Ho H. unfold manager_new, load_handlers, load_group_outbounds in H.
  apply loaded_bind_loaded in H as (m0 & H0 & H). pose proof (load_providers_handlers _ _ _ H0) as E0.
  apply loaded_bind_loaded in H as (m3 & H3 & H). apply loaded_bind_loaded in H as (r & _ & [= <- _]).
  apply loaded_bind_loaded in H3 as (m2 & H2 & H3). apply loaded_bind_loaded in H2 as (sorted & Hs & H2).
  destruct (sorted_groups_cases (mo_sort mo) groups Ho) as [(_ & _ & s' & Es & Hperm & _)|[_ [e Es]]]; [|congruence].
  rewrite Es in Hs. injection Hs as ->.
  pose proof (add_outbounds_eq outbounds m0 E0) as E1.
  destruct (loaded_groups_handlers _ _ _ _ H2) as [Hw Hd].
  { intros n h. rewrite E1. cbn. rewrite lookup_fmap. intros (x & Hx & ->)%fmap_Some. by eapply plain_table_name. }
  destruct (load_global_handlers _ _ _ _ _ _ H3) as (h & Eh & Hn). split.
  - intros n x. rewrite Eh, lookup_insert_Some. intros [[<- <-]|[_ Hx]]; [done|by apply Hw].
  - intros n. rewrite Eh, lookup_insert_is_Some, Hd, Hperm, E1. cbn. rewrite lookup_fmap, fmap_is_Some, plain_table_names.
    destruct (decide (PROXY_GLOBAL = n)); naive_solver.
Qed.
End table.

(** ** The targets of the rules *)
Section targets.
Context {UL : UrlLib} {RX : RegexLib} {NL : IpNetLib} {FN : FamilyNetLib} {UC : UnicodeLib} {LL : ListenLib}.
Context {CL : ConverterLib} {CR : CryptoLib} {RuleProviderDef : Type}.
Context (inbound_deserialize : gmap str YVal -> option InboundOpts)
        (proxy_deserialize : gmap str YVal -> option OutboundProxyProtocol)
        (group_deserialize : gmap str YVal -> option OutboundGroupProtocol)
        (provider_deserialize : gmap str YVal -> option OutboundProxyProviderDef)
        (rule_provider_deserialize : gmap str YVal -> option RuleProviderDef)
        (ifaces : list OutboundInterface).
Context {OB : Outbound (Handler PlainHandler)} {SD : Type}.
Context (parse_uri : str -> option ProxyManager.Uri) (fetched : str -> option (list PlainHandler)) (now : Z).
Abbreviation convert_file := (convert inbound_deserialize proxy_deserialize group_deserialize provider_deserialize rule_provider_deserialize ifaces).

(** Proxies and groups are filed under their names, and DIRECT is there. *)
Record named_config (c : InternalConfig (RuleProviderDef := RuleProviderDef)) : Prop := {
  nc_proxies : forall n p, ic_proxies c !! n = Some p -> protocol_name p = n;
  nc_groups : forall n g, ic_proxy_groups c !! n = Some g -> group_name g = n;
  nc_direct : ic_proxies c !! PROXY_DIRECT = Some (PDirect PROXY_DIRECT);
  nc_rules : Forall (fun r => is_Some (ic_proxies c !! rt_target r) \/ is_Some (ic_proxy_groups c !! rt_target r)) (ic_rules c);
}.

Lemma res_fold_inv {A B} (P : A -> Prop) (f : A -> B -> res A) l a a' :
  (forall a x a', P a -> f a x = Ok a' -> P a') -> P a -> res_fold f a l = Ok a' -> P a'.
Proof.
  intros Hf. revert a. induction l as [|x l IH]; intros a Ha; cbn [res_fold]; [by intros [= <-]|].
  intros (a1 & H1 & H)%res_bind_ok. by apply (IH a1); [eapply Hf|].
Qed.

Lemma add_proxy_named st x st' :
  (map_Forall (fun n p => protocol_name p = n) st.1 /\ st.1 !! PROXY_DIRECT = Some (PDirect PROXY_DIRECT)) ->
  add_proxy proxy_deserialize st x = Ok st' ->
  map_Forall (fun n p => protocol_name p = n) st'.1 /\ st'.1 !! PROXY_DIRECT = Some (PDirect PROXY_DIRECT).
Proof.
  destruct st as [rv names]. intros [Hn Hd] (p & _ & H)%res_bind_ok. cbv zeta in H. revert H. case_bool_decide as Hp; [done|]. intros H. injection H as <-.
  cbn in *. split; [by apply map_Forall_insert_2|].
  rewrite lookup_insert_ne; [done|]. intros E. apply Hp. rewrite E. by eexists.
Qed.

Lemma add_group_named st x st' :
  map_Forall (fun n g => group_name g = n) st.1 -> add_proxy_group group_deserialize st x = Ok st' ->
  map_Forall (fun n g => group_name g = n) st'.1.
Proof.
  destruct st as [rv names]. unfold add_proxy_group. intros Hn.
  destruct (group_try_from _ x) as [g| |]; [intros [= <-]|by case_bool_decide|done].
  by apply map_Forall_insert_2.
Qed.

Lemma convert_named c ic : convert_file c = Ok ic -> named_config ic.
Proof.
  unfold convert. intros (dns & _ & H)%res_bind_ok. apply res_bind_ok in H as (tun & _ & H). apply res_bind_ok in H as (rules & _ & H).
  apply res_bind_ok in H as (rps & _ & H). apply res_bind_ok in H as ([proxies names] & Hp & H).
  apply res_bind_ok in H as ([groups names'] & Hg & H). apply res_bind_ok in H as (pps & _ & H). apply res_bind_ok in H as (ls & _ & H).
  unfold validate in H. destruct (forallb _ _) eqn:Hf in H; [|done]. injection H as <-.
  apply (res_fold_inv _ _ _ _ _ add_proxy_named) in Hp as [Hn Hd].
  2:{ split; [|reflexivity]. repeat apply map_Forall_insert_2; done. }
  apply (res_fold_inv _ _ _ _ _ add_group_named) in Hg; [|done].
  constructor; cbn; [exact Hn|exact Hg|exact Hd|].
  rewrite forallb_forall in Hf. apply Forall_forall. intros r Hr%list_elem_of_In%Hf. cbn in Hr.
  apply orb_true_iff in Hr as [Hr|Hr]; apply bool_decide_eq_true in Hr; auto.
Qed.

Lemma load_plain_outbounds_names ps hs :
  load_plain_outbounds ps = Ok hs ->
  forall n, n ∈ px_name <$> hs <-> exists p h, p ∈ ps /\ plain_try_from p = Ok h /\ plain_name h = n.
Proof.
  revert hs. induction ps as [|p ps IH]; intros hs; cbn [load_plain_outbounds].
  - intros [= <-] n. split; [by intros ?%elem_of_nil|by intros (p & h & ?%elem_of_nil & _)].
  - destruct (plain_try_from p) as [h|e|] eqn:E; [intros (hs' & H & [= <-])%res_bind_ok n|intros H n|done].
    + cbn [fmap list_fmap]. rewrite elem_of_cons, (IH _ H). setoid_rewrite elem_of_cons. split.
      * intros [->|(p' & h' & ? & ? & ?)]; [exists p, h|exists p', h']; auto.
      * intros (p' & h' & [->|?] & Eh & <-); [left|right; exists p', h'; auto]. rewrite E in Eh. by injection Eh as ->.
    + rewrite (IH _ H). setoid_rewrite elem_of_cons. split; [intros (p' & h' & ? & ? & ?); exists p', h'; auto|].
      intros (p' & h' & [->|?] & ? & ?); [congruence|exists p', h'; auto].
Qed.

Lemma values_lookup {A} (m : gmap str A) (l : list A) x :
  l ≡ₚ (map_to_list m).*2 -> x ∈ l <-> exists n, m !! n = Some x.
Proof.
  intros ->. rewrite list_elem_of_fmap. split.
  - intros ([n y] & -> & H%elem_of_map_to_list). by exists n.
  - intros [n H%elem_of_map_to_list]. by exists (n, x).
Qed.

(** A proxy of which no handler of its name is made: it cannot be converted,
    or it is a direct or reject proxy under another name. *)
Definition nameless (p : OutboundProxyProtocol) : Prop :=
  match plain_try_from p with Ok h => plain_name h <> protocol_name p | _ => True end.

Section started.
Context (co : ConfigOrders) (mo : MapOrders (X := PlainHandler)).
Hypothesis proxies_order : forall ps, cfo_proxies co ps ≡ₚ (map_to_list ps).*2.
Hypothesis groups_order : forall gs, cfo_groups co gs ≡ₚ (map_to_list gs).*2.
Hypothesis sort_order : orders_ok (mo_sort mo).

(** Which names the outbounds of a configuration answer to. *)
Lemma create_outbounds_names c ic (cache : CacheFile SD) m conn :
  convert_file c = Ok ic -> create_outbounds parse_uri fetched now co mo ic cache = Loaded (m, conn) ->
  well_named m /\ forall n, is_Some (handlers m !! n) <->
    (exists k p h, ic_proxies ic !! k = Some p /\ plain_try_from p = Ok h /\ plain_name h = n) \/
    is_Some (ic_proxy_groups ic !! n) \/ n = PROXY_GLOBAL.
Proof using proxies_order groups_order sort_order.
  intros Hc%convert_named H. unfold create_outbounds in H. apply loaded_bind_loaded in H as (hs & Hhs & H).
  unfold create_plain_outbounds in Hhs. destruct (load_plain_outbounds _) as [hs'| |] eqn:El in Hhs; [|done..].
  injection Hhs as ->. destruct (manager_names _ _ _ _ _ _ _ _ _ _ _ sort_order H) as [Hw Hn]. split; [done|].
  intros n. rewrite Hn, (load_plain_outbounds_names _ _ El). setoid_rewrite (values_lookup _ _ _ (proxies_order _)).
  rewrite list_elem_of_fmap. setoid_rewrite (values_lookup _ _ _ (groups_order _)). split.
  - intros [(p & h & [k ?] & ? & ?)|[(g & -> & [k Hk])|?]]; [left; exists k, p, h; auto|right; left|auto].
    rewrite (nc_groups _ Hc _ _ Hk). by eexists.
  - intros [(k & p & h & ? & ? & ?)|[[g Hg]|?]]; [left; exists p, h; eauto|right; left|auto].
    exists g. split; [symmetry; by apply (nc_groups _ Hc)|by exists n].
Qed.

(** C8: what a validated configuration routes to.  When a configuration
    converts and its outbounds load, every outbound name the router can
    answer has a handler, so that the fallback of the dispatcher never
    panics, and a handler that is found by its name has this name.  Each
    rule of the configuration is carried out by the outbound it names, with
    one exception: a target that is a proxy of which no handler of its name
    is made is carried out by DIRECT. *)
Theorem config_targets_resolve c ic (cache : CacheFile SD) m conn :
  convert_file c = Ok ic -> create_outbounds parse_uri fetched now co mo ic cache = Loaded (m, conn) ->
  (forall n, exists h, handler_for (handlers m) n = Ok h /\ (handler_name h = n \/ handler_name h = PROXY_DIRECT)) /\
  Forall (fun r => exists h, handler_for (handlers m) (rt_target r) = Ok h /\
    (handler_name h = rt_target r \/
     handler_name h = PROXY_DIRECT /\ exists p, ic_proxies ic !! rt_target r = Some p /\ nameless p)) (ic_rules ic).
Proof using proxies_order groups_order sort_order.
  intros Hc H. destruct (create_outbounds_names _ _ _ _ _ Hc H) as [Hw Hn]. apply convert_named in Hc.
  assert (is_Some (handlers m !! PROXY_DIRECT)) as [d Hd].
  { apply Hn. left. exists PROXY_DIRECT, (PDirect PROXY_DIRECT), (DirectHandler PROXY_DIRECT). by split; [apply nc_direct|]. }
  assert (forall n, (exists h, handlers m !! n = Some h /\ handler_for (handlers m) n = Ok h /\ handler_name h = n) \/
                    handlers m !! n = None /\ handler_for (handlers m) n = Ok d /\ handler_name d = PROXY_DIRECT) as Hf.
  { intros n. unfold handler_for. destruct (handlers m !! n) as [h|] eqn:E; [left; exists h|right; rewrite Hd]; auto. }
  split.
  - intros n. destruct (Hf n) as [(h & _ & ? & ?)|(_ & ? & ?)]; eauto.
  - eapply Forall_impl; [exact (nc_rules _ Hc)|]. intros r Hr. cbn beta in Hr.
    destruct (Hf (rt_target r)) as [(h & _ & ? & ?)|(Hno & ? & ?)]; [eauto|].
    exists d. split; [done|]. right. split; [done|].
    assert (~ is_Some (handlers m !! rt_target r)) as Hnot by (rewrite Hno; by intros []).
    destruct Hr as [[p Hp]|Hg]; [|destruct Hnot; apply Hn; auto]. exists p. split; [done|].
    unfold nameless. destruct (plain_try_from p) as [h| |] eqn:Ep; [|done..]. intros E. apply Hnot, Hn. left.
    exists (rt_target r), p, h. split_and!; [done..|]. rewrite E. by apply (nc_proxies _ Hc).
Qed.

(** A rule whose target is a reject proxy under a name of its own lets the
    connection through: REJECT answers to the built-in name only. *)
Theorem named_reject_goes_direct c ic (cache : CacheFile SD) m conn r :
  convert_file c = Ok ic -> create_outbounds parse_uri fetched now co mo ic cache = Loaded (m, conn) ->
  ic_proxies ic !! rt_target r = Some (PReject (rt_target r)) -> ic_proxy_groups ic !! rt_target r = None ->
  rt_target r <> PROXY_REJECT -> rt_target r <> PROXY_GLOBAL ->
  exists h, handler_for (handlers m) (rt_target r) = Ok h /\ handler_name h = PROXY_DIRECT.
Proof using proxies_order groups_order sort_order.
  intros Hc H Hp Hg Hr Hgl. destruct (create_outbounds_names _ _ _ _ _ Hc H) as [Hw Hn]. apply convert_named in Hc.
  assert (is_Some (handlers m !! PROXY_DIRECT)) as [d Hd].
  { apply Hn. left. exists PROXY_DIRECT, (PDirect PROXY_DIRECT), (DirectHandler PROXY_DIRECT). by split; [apply nc_direct|]. }
  unfold handler_for. destruct (handlers m !! rt_target r) as [h|] eqn:E; [|exists d; rewrite Hd; auto].
  exists h. split; [done|]. rewrite (Hw _ _ E). assert (is_Some (handlers m !! rt_target r)) as Hs by (rewrite E; by eexists).
  apply Hn in Hs as [(k & p & h' & Hk & Hp' & Hname)|[Hs|?]]; [|by rewrite Hg in Hs; destruct Hs|done].
  apply plain_try_from_kept in Hp' as [Hkn _]. rewrite Hname in Hkn.
  pose proof (nc_proxies _ Hc _ _ Hk) as Hkk. destruct p; try done;
    cbn in Hkn; rewrite <- Hkk in Hk; cbn [protocol_name] in Hk; rewrite <- Hkn, Hp in Hk; discriminate Hk.
Qed.
End started.
End targets.

(** ** A small configuration file *)
Module FileWitness.
#[local] Existing Instances simple_url demo_regex pair_net pair_family_net demo_unicode no_listeners.
#[local] Instance plain_converters : ConverterLib := {|
  SQCongestionControl := unit; sq_default_alpn := []; sq_default_initial_mtu := 1300; sq_default_congestion_control := tt;
  sq_default_zero_rtt := false; sq_default_over_stream := false; sq_default_min_mtu := 1290; sq_default_keep_alive_interval := 0;
  TotpAlgorithm := unit; TOTP := unit; secret_to_bytes _ := None; totp_from_rfc6238 _ := None; totp_new _ _ _ _ _ := None;
  path_and_query s := Some s; tquic_new _ := false |}.
#[local] Instance named_handlers : Outbound (Handler PlainHandler) := {|
  ob_name := handler_name;
  ob_support_udp := fun _ => true;
  ob_support_connector := fun _ => CtTcp;
  ob_connect_stream := fun h _ => Ok [handler_name h];
  ob_connect_datagram := fun h _ => Ok [handler_name h];
  ob_stream_with_connector := fun h _ _ => Ok [handler_name h];
  ob_datagram_with_connector := fun h _ _ => Err "udp relay not supported" |}.

Definition file : FileConfig := {|
  fc_port := Some 7890; fc_socks_port := None; fc_redir_port := None; fc_tproxy_port := None; fc_mixed_port := None;
  fc_authentication := [lit "user:pass"]; fc_allow_lan := None; fc_bind_address := all_v4; fc_mode := RmRule;
  fc_log_level := LlInfo; fc_log_timestamp := true; fc_allocator_limit := None; fc_dns := c_dns small_config;
  fc_store_selected := true; fc_store_fake_ip := false; fc_store_smart_stats := false;
  fc_proxy := Some [{[lit "name" := YStr (lit "block")]}];
  fc_proxy_group := Some [{[lit "name" := YStr (lit "pick")]}];
  fc_rule := Some [lit "DOMAIN,ads.example,block"; lit "MATCH,pick"];
  fc_hosts := []; fc_mmdb := None; fc_mmdb_download_url := None; fc_asn_mmdb := None; fc_asn_mmdb_download_url := None;
  fc_geosite := None; fc_geosite_download_url := None; fc_ipv6 := true; fc_external_controller := None;
  fc_external_controller_ipc := None; fc_external_ui := None; fc_secret := None; fc_cors_allow_origins := None;
  fc_interface := None; fc_routing_mark := None; fc_proxy_provider := None; fc_rule_provider := None;
  fc_tcp_buffer_size := None; fc_tun := None; fc_listeners := None |}.
Definition read_proxy (m : gmap str YVal) : option OutboundProxyProtocol := PReject <$> opt_str m "name".
Definition read_group (m : gmap str YVal) : option OutboundGroupProtocol :=
  (fun n => select_group n [PROXY_DIRECT]) <$> opt_str m "name".
Definition read (c : FileConfig) : res (InternalConfig (RuleProviderDef := unit)) :=
  convert (fun _ => None) read_proxy read_group (fun _ => None) (fun _ => None) [] c.
Definition config_orders : ConfigOrders := {|
  cfo_proxies := fun g => (map_to_list g).*2; cfo_groups := fun g => (map_to_list g).*2; cfo_providers := map_to_list |}.
Definition map_orders : MapOrders (X := PlainHandler) := {|
  mo_sort := listing_orders; mo_keys := fun g => (map_to_list g).*1; mo_values := fun g => (map_to_list g).*2;
  mo_handlers := fun g => (map_to_list g).*2 |}.
Definition start (ic : InternalConfig (RuleProviderDef := unit)) :
    loaded (OutboundManager PlainHandler * gmap str (Connector (Handler PlainHandler))) :=
  create_outbounds (fun _ => None) (fun _ => None) 0 config_orders map_orders ic table_cache.

(** Reading and starting succeed. *)
Definition starts (r : res (InternalConfig (RuleProviderDef := unit))) : bool :=
  match r with
  | Ok ic => match start ic with Loaded _ => bool_decide ((rt_target <$> ic_rules ic) = [lit "block"; lit "pick"]) | Failed _ => false end
  | _ => false
  end.
Lemma file_starts : exists ic m conn, read file = Ok ic /\ start ic = Loaded (m, conn) /\
  (rt_target <$> ic_rules ic) = [lit "block"; lit "pick"].
Proof.
  assert (starts (read file) = true) as H by (vm_compute; reflexivity). destruct (read file) as [ic| |]; [|discriminate H..].
  unfold starts in H. destruct (start ic) as [[m conn]|] eqn:Es; [|discriminate H].
  exists ic, m, conn. split_and!; [done..|by apply bool_decide_eq_true in H].
Qed.

(** The rule for [block] is carried out by DIRECT, the one for [pick] by the
    group. *)
Lemma config_targets_resolve_witness : exists ic m conn, read file = Ok ic /\ start ic = Loaded (m, conn) /\
  (exists h, handler_for (handlers m) (lit "block") = Ok h /\ (handler_name h = lit "block" \/ handler_name h = PROXY_DIRECT)) /\
  Forall (fun r => exists h, handler_for (handlers m) (rt_target r) = Ok h /\
    (handler_name h = rt_target r \/
     handler_name h = PROXY_DIRECT /\ exists p, ic_proxies ic !! rt_target r = Some p /\ nameless p)) (ic_rules ic).
Proof.
  destruct file_starts as (ic & m & conn & Hr & Hs & _). exists ic, m, conn.
  destruct (config_targets_resolve (fun _ => None) read_proxy read_group (fun _ => None) (fun _ => None) []
    (fun _ => None) (fun _ => None) 0 config_orders map_orders (fun _ => reflexivity _) (fun _ => reflexivity _)
    ltac:(split; intros g; reflexivity) file ic table_cache m conn Hr Hs) as [H1 H2].
  split_and!; [exact Hr|exact Hs|exact (H1 (lit "block"))|exact H2].
Defined.
End FileWitness.
