(* ===== verification/DnsServer.v ===== *)
(** * The DNS server ([clash-dns], [clash-lib/src/app/dns/server])

    The handler of a request over the exchanger, which is the resolver, and
    which listeners are opened.  The sections a message of [Resolver] does
    not have are added here: name servers, additional records and
    signatures. *)

From S2P Require Import Prelude Str Net Session Trie Geo Router DnsConfig Resolver.
From S2P Require ResolverSpec.

Section server.
Context {NM : NameLib}.

(** A message with all its sections; [dm_dnssec_ok] is the DO bit of EDNS. *)
Record DnsMessage : Type := {
  dm_msg : Message; dm_name_servers : list RR; dm_additionals : list RR; dm_sig0 : list RR; dm_dnssec_ok : bool }.

(** What is sent back. *)
Record Response : Type := {
  rs_id : Z; rs_op_code : Z; rs_recursion_desired : bool; rs_recursion_available : bool; rs_authoritative : bool;
  rs_checking_disabled : bool; rs_response_code : Z;
  rs_queries : list Query; rs_answers : list RR; rs_name_servers : list RR; rs_additionals : list RR;
  rs_edns : option (gmap Z EdnsOption) }.

(** [DnsMessageExchanger]; a message in, a message or an error out. *)
(* @src clash-dns/src/lib.rs ~^pub trait DnsMessageExchanger~ DnsMessageExchanger *)
Class DnsMessageExchanger (S : Type) : Type := {
  ex_ipv6 : S -> bool;
  ex_exchange : DnsMessage -> S -> res DnsMessage * S;
}.

(* @src clash-dns/src/handler.rs ~^pub enum DNSError~ DNSError *)
Inductive DNSError : Type := DeIo | DeInvalidOpQuery | DeQueryFailed.
Definition OP_QUERY : Z := 0.
Definition SERVFAIL : Z := 2.

(** [Header::response_from_request] and the builder: the identifier, the
    operation, RD and CD and the questions are those of the request. *)
Definition response_from_request (request : Message) : Response := {|
  rs_id := m_id request; rs_op_code := m_op_code request; rs_recursion_desired := m_recursion_desired request;
  rs_recursion_available := false; rs_authoritative := false; rs_checking_disabled := m_checking_disabled request;
  rs_response_code := 0; rs_queries := m_queries request; rs_answers := []; rs_name_servers := []; rs_additionals := [];
  rs_edns := None |}.

(** The message the exchanger is asked. *)
Definition forwarded (request : DnsMessage) (query : Query) : DnsMessage := {|
  dm_msg := {| m_id := 0; m_op_code := m_op_code (dm_msg request); m_response := m_response (dm_msg request);
               m_recursion_desired := m_recursion_desired (dm_msg request); m_recursion_available := false;
               m_authoritative := false; m_checking_disabled := false; m_response_code := 0; m_answer_count := 0;
               m_queries := [query]; m_answers := []; m_edns := m_edns (dm_msg request) |};
  dm_name_servers := dm_name_servers request; dm_additionals := dm_additionals request; dm_sig0 := dm_sig0 request;
  dm_dnssec_ok := dm_dnssec_ok request |}.

(** The answer built from what the exchanger gave. *)
Definition answer_with (request m : DnsMessage) : Response := {|
  rs_id := m_id (dm_msg request); rs_op_code := m_op_code (dm_msg request);
  rs_recursion_desired := m_recursion_desired (dm_msg request); rs_recursion_available := m_recursion_available (dm_msg m);
  rs_authoritative := m_authoritative (dm_msg m); rs_checking_disabled := m_checking_disabled (dm_msg request);
  rs_response_code := m_response_code (dm_msg m); rs_queries := m_queries (dm_msg request);
  rs_answers := m_answers (dm_msg m); rs_name_servers := dm_name_servers m; rs_additionals := dm_additionals m;
  rs_edns := if bool_decide (is_Some (m_edns (dm_msg request))) && dm_dnssec_ok request then m_edns (dm_msg m) else None |}.

Section handler.
Context {S : Type} {EX : DnsMessageExchanger S}.
(** [send]: whether the response can be written. *)
Context (send : Response -> bool).

Definition send_response (r : Response) : option Response * (DNSError + Z) :=
  if send r then (Some r, inr (rs_response_code r)) else (None, inl DeIo).

(** The response that was sent, if one was, and the result. *)
(* @src clash-dns/src/handler.rs ~    async fn handle<H: ResponseHandler>~ DnsHandler::handle *)
Definition handle (request : DnsMessage) (s : S) : res (option Response * (DNSError + Z)) * S :=
  if negb (m_op_code (dm_msg request) =? OP_QUERY) then (Ok (None, inl DeInvalidOpQuery), s)
  else if m_response (dm_msg request) then (Ok (None, inl DeInvalidOpQuery), s)
  else
    match query_of (dm_msg request) with
    | None => (Ok (None, inl DeQueryFailed), s)
    | Some query =>
      if bool_decide (q_type query = RtAAAA) && negb (ex_ipv6 s) then
        let r := response_from_request (dm_msg request) in
        (Ok (send_response {| rs_id := rs_id r; rs_op_code := rs_op_code r; rs_recursion_desired := rs_recursion_desired r;
               rs_recursion_available := rs_recursion_available r; rs_authoritative := true;
               rs_checking_disabled := rs_checking_disabled r; rs_response_code := rs_response_code r; rs_queries := rs_queries r;
               rs_answers := []; rs_name_servers := []; rs_additionals := []; rs_edns := None |}), s)
      else
        let '(reply, s) := ex_exchange (forwarded request query) s in
        match reply with
        | Ok m => (Ok (send_response (answer_with request m)), s)
        | Err _ => (Ok (None, inl DeQueryFailed), s)
        | Panic => (Panic, s)
        end
    end.

(** The response code the server logs; an error sends nothing. *)
(* @src clash-dns/src/handler.rs ~    async fn handle_request~ DnsHandler::handle_request *)
Definition handle_request (request : DnsMessage) (s : S) : res (option Response * Z) * S :=
  let '(r, s) := handle request s in
  (match r with
   | Ok (sent, inr code) => Ok (sent, code)
   | Ok (sent, inl _) => Ok (sent, SERVFAIL)
   | Err e => Err e
   | Panic => Panic
   end, s).
End handler.

(** ** Listeners *)

(** Whether each configured listener can be opened; an encrypted one also
    needs its key and certificate. *)
Record Bindings {LL : ListenLib} : Type := {
  bd_udp : SocketAddr -> bool; bd_tcp : SocketAddr -> bool;
  bd_doh : DoHConfig -> bool; bd_dot : DoTConfig -> bool; bd_doh3 : DoH3Config -> bool }.
Definition opened {A} (bind : A -> bool) (o : option A) : bool := match o with Some a => bind a | None => false end.
(* @src clash-dns/src/handler.rs ~^pub async fn get_dns_listener~ get_dns_listener *)
Definition get_dns_listener {LL : ListenLib} (b : Bindings) (listen : DNSListenAddr) : bool :=
  let has_server := opened (bd_udp b) (l_udp listen) in
  let has_server := has_server || opened (bd_tcp b) (l_tcp listen) in
  let has_server := has_server || opened (bd_doh b) (l_doh listen) in
  let has_server := has_server || opened (bd_dot b) (l_dot listen) in
  has_server || opened (bd_doh3 b) (l_doh3 listen).

(** * Theorems *)
Section theorems.
Context {S : Type} {EX : DnsMessageExchanger S} (send : Response -> bool).

(** A request the server looks into. *)
Definition is_question (request : DnsMessage) (q : Query) : Prop :=
  m_op_code (dm_msg request) = OP_QUERY /\ m_response (dm_msg request) = false /\ query_of (dm_msg request) = Some q.

(** What every response repeats of its request. *)
Record responds_to (request : Message) (r : Response) : Prop := {
  rt_id : rs_id r = m_id request;
  rt_op_code : rs_op_code r = OP_QUERY;
  rt_queries : rs_queries r = m_queries request;
  rt_recursion_desired : rs_recursion_desired r = m_recursion_desired request;
  rt_checking_disabled : rs_checking_disabled r = m_checking_disabled request;
}.
(** What a response takes over from the message of the resolver; the EDNS
    part only for a client that sets the DNSSEC OK flag. *)
Record relays (request m : DnsMessage) (r : Response) : Prop := {
  rl_answers : rs_answers r = m_answers (dm_msg m);
  rl_name_servers : rs_name_servers r = dm_name_servers m;
  rl_additionals : rs_additionals r = dm_additionals m;
  rl_response_code : rs_response_code r = m_response_code (dm_msg m);
  rl_authoritative : rs_authoritative r = m_authoritative (dm_msg m);
  rl_recursion_available : rs_recursion_available r = m_recursion_available (dm_msg m);
  rl_edns : rs_edns r = if decide (is_Some (m_edns (dm_msg request)) /\ dm_dnssec_ok request = true) then m_edns (dm_msg m) else None;
}.
(** The response to a query for IPv6 addresses while IPv6 is off. *)
Record no_ipv6 (r : Response) : Prop := {
  ni_records : rs_answers r = [] /\ rs_name_servers r = [] /\ rs_additionals r = [] /\ rs_edns r = None;
  ni_response_code : rs_response_code r = 0;
  ni_authoritative : rs_authoritative r = true;
  ni_recursion_available : rs_recursion_available r = false;
}.
(** What the resolver is asked: the question alone, as a query with the
    wish for recursion and the other sections of the request. *)
Record asks (request : DnsMessage) (q : Query) (m : DnsMessage) : Prop := {
  as_question : m_queries (dm_msg m) = [q] /\ m_answers (dm_msg m) = [];
  as_query : m_op_code (dm_msg m) = OP_QUERY /\ m_response (dm_msg m) = false;
  as_recursion : m_recursion_desired (dm_msg m) = m_recursion_desired (dm_msg request);
  as_sections : dm_name_servers m = dm_name_servers request /\ dm_additionals m = dm_additionals request /\ dm_sig0 m = dm_sig0 request;
  as_edns : m_edns (dm_msg m) = m_edns (dm_msg request) /\ dm_dnssec_ok m = dm_dnssec_ok request;
}.
(** A response that is made: sent, or counted as a failure of the server when
    it cannot be written. *)
Definition answered (r : Response) : res (option Response * Z) :=
  Ok (if send r then (Some r, rs_response_code r) else (None, SERVFAIL)).

Lemma handled_send r :
  (let (sent, code) := send_response send r in
   match code with inl _ => Ok (sent, SERVFAIL) | inr code => Ok (sent, code) end) = answered r.
Proof. unfold send_response, answered. by destruct (send r). Qed.

(** C19: what a DNS client is answered.  A message that is no query, or has no
    question, and a query whose resolution fails get no response at all.  A
    query for IPv6 addresses while IPv6 is off is answered at once with no
    records, authoritatively, without asking the resolver.  Every other
    query is put to the resolver, its first question only, and answered
    with the records, the code and the flags (authoritative, recursion
    available) of the resolver's message, and its EDNS part for a client
    that asks for DNSSEC, under the identifier, questions and flags of the
    request.  A response that cannot be written counts as a failure of the
    server. *)
Theorem dns_request_answered (request : DnsMessage) (s : S) :
  let '(out, s') := handle_request send request s in
  (forall q, ~ is_question request q) /\ out = Ok (None, SERVFAIL) /\ s' = s \/
  exists q, is_question request q /\
    ((q_type q = RtAAAA /\ ex_ipv6 s = false /\ s' = s /\
      exists r, responds_to (dm_msg request) r /\ no_ipv6 r /\ out = answered r) \/
     (~ (q_type q = RtAAAA /\ ex_ipv6 s = false) /\ exists asked, asks request q asked /\ s' = (ex_exchange asked s).2 /\
      match (ex_exchange asked s).1 with
      | Ok m => exists r, responds_to (dm_msg request) r /\ relays request m r /\ out = answered r
      | Err _ => out = Ok (None, SERVFAIL)
      | Panic => out = Panic
      end)).
Proof.
  unfold handle_request, handle, is_question.
  destruct (m_op_code (dm_msg request) =? OP_QUERY) eqn:Eo; cbn [negb]; [apply Z.eqb_eq in Eo|left; split_and!; [intros q (H & _); lia|done|done]].
  destruct (m_response (dm_msg request)) eqn:Er; [left; split_and!; [by intros q (_ & ? & _)|done|done]|].
  destruct (query_of (dm_msg request)) as [q|] eqn:Eq; [|left; split_and!; [by intros q (_ & _ & ?)|done|done]].
  destruct (bool_decide (q_type q = RtAAAA) && negb (ex_ipv6 s)) eqn:E6.
  - rewrite handled_send. right. exists q. split; [split_and!; [lia|done|done]|]. left.
    apply andb_true_iff in E6 as [H1%bool_decide_eq_true H2%negb_true_iff].
    split_and!; [done|done|done|]. refine (ex_intro _ _ (conj _ (conj _ eq_refl))); by split.
  - assert (~ (q_type q = RtAAAA /\ ex_ipv6 s = false)) as Hn.
    { intros [H1 H2]. rewrite H2, bool_decide_true in E6 by done. done. }
    destruct (ex_exchange (forwarded request q) s) as [reply s1] eqn:Ex.
    destruct reply as [m| |]; cbv beta iota zeta; rewrite ?handled_send; right; exists q; (split; [split_and!; [lia|done|done]|]); right;
      (split; [exact Hn|]); exists (forwarded request q); rewrite Ex; cbn [fst snd]; (split; [by split|split; [reflexivity|]]); [|reflexivity..].
    exists (answer_with request m). split_and!; [by split| |reflexivity]. split; try reflexivity.
    cbn [rs_edns answer_with]. destruct (decide (is_Some _ /\ _)) as [[He Hd]|Hd].
    + by rewrite (bool_decide_true _ He), Hd.
    + destruct (bool_decide (is_Some _)) eqn:He; [apply bool_decide_eq_true in He|reflexivity].
      destruct (dm_dnssec_ok request); [by destruct Hd|reflexivity].
Qed.

(** A server is started exactly when one of the listeners opens. *)
Lemma get_dns_listener_spec {LL : ListenLib} (b : Bindings) listen :
  get_dns_listener b listen = true <->
  (exists a, l_udp listen = Some a /\ bd_udp b a = true) \/ (exists a, l_tcp listen = Some a /\ bd_tcp b a = true) \/
  (exists a, l_doh listen = Some a /\ bd_doh b a = true) \/ (exists a, l_dot listen = Some a /\ bd_dot b a = true) \/
  (exists a, l_doh3 listen = Some a /\ bd_doh3 b a = true).
Proof.
  assert (forall A (f : A -> bool) o, opened f o = true <-> exists a, o = Some a /\ f a = true) as H.
  { intros A f [a|]; cbn; split; [intros ?; by exists a|by intros (a' & [= <-] & ?)|done|by intros (a & [=] & _)]. }
  unfold get_dns_listener. rewrite !orb_true_iff, !H. tauto.
Qed.
End theorems.
End server.

(** ** An example: a resolver that knows one address *)
Module ServerWitness.
#[local] Existing Instance ResolverSpec.plain_names.
Definition fixed_reply (m : DnsMessage) : DnsMessage := {|
  dm_msg := set_answers ((fun q => {| rr_name := q_name q; rr_ttl := 60; rr_data := RdA 16909060 |}) <$> m_queries (dm_msg m)) (dm_msg m);
  dm_name_servers := []; dm_additionals := []; dm_sig0 := []; dm_dnssec_ok := false |}.
#[local] Instance fixed_exchanger : DnsMessageExchanger unit := {|
  ex_ipv6 := fun _ => false; ex_exchange := fun m s => (Ok (fixed_reply m), s) |}.
Definition a_query : Query := {| q_name := lit "a.example."; q_type := RtA; q_class_in := true |}.
Definition a_request : DnsMessage := {|
  dm_msg := {| m_id := 7; m_op_code := 0; m_response := false; m_recursion_desired := true; m_recursion_available := false;
               m_authoritative := false; m_checking_disabled := false; m_response_code := 0; m_answer_count := 0;
               m_queries := [a_query]; m_answers := []; m_edns := None |};
  dm_name_servers := []; dm_additionals := []; dm_sig0 := []; dm_dnssec_ok := false |}.

Lemma dns_request_answered_witness : exists r,
  handle_request (fun _ => true) a_request tt = (Ok (Some r, 0), tt) /\ rs_id r = 7 /\ length (rs_answers r) = 1%nat.
Proof.
  destruct (dns_request_answered (fun _ => true) a_request tt) as [(Hn & _)|(q & (_ & _ & Hq) & H)].
  - exfalso. apply (Hn a_query). split_and!; reflexivity.
  - injection Hq as <-. destruct H as [([=] & _)|(_ & asked & [[Hone _] _ _ _ _] & _ & r & [Hid _ _ _ _] & [Ha _ _ _ _ _ _] & Hout)].
    exists r. split; [|split; [exact Hid|rewrite Ha; cbn; rewrite length_fmap, Hone; reflexivity]].
    injection Hout as <- _. reflexivity.
Defined.

(** A query that cannot be resolved is not answered. *)
Lemma failed_query_unanswered {S} {EX : DnsMessageExchanger S} (send : Response -> bool) (request : DnsMessage) q (s : S) e :
  is_question request q -> ~ (q_type q = RtAAAA /\ ex_ipv6 s = false) ->
  (ex_exchange (forwarded request q) s).1 = Err e ->
  (handle_request send request s).1 = Ok (None, SERVFAIL).
Proof.
  intros (Ho & Hr & Hq) Hn He. unfold handle_request, handle. rewrite Ho, Hr, Hq. cbn [Z.eqb negb OP_QUERY].
  destruct (bool_decide (q_type q = RtAAAA) && negb (ex_ipv6 s)) eqn:E6.
  - destruct Hn. apply andb_true_iff in E6 as [H1%bool_decide_eq_true H2%negb_true_iff]. done.
  - destruct (ex_exchange (forwarded request q) s) as [reply s1]. cbn in He. by subst reply.
Qed.
End ServerWitness.
