(* ===== verification/Tun.v ===== *)
(** * The tun inbound ([clash-lib/src/proxy/tun])

    Connections and datagrams of the network stack on their way to the
    dispatcher and back, with the interception of DNS.  The parsing of the
    device's URL and the codec of DNS messages are parameters; the resolver
    is used through [DnsMessageExchanger]. *)

From S2P Require Import Prelude Str Net Session Trie Geo Router DnsConfig Resolver.
From S2P Require Import Inbound Config DnsServer Netstack.

(** ** Starting ([inbound.rs]) *)
(** [Url::parse] of the device: its scheme and host, [None] if it does not
    parse. *)
Inductive Device : Type := DeviceFd (fd : Z) | DeviceName (name : str).
(* @src clash-lib/src/proxy/tun/inbound.rs 35 83 get_runner (device) *)
Definition device_of (parse_url : str -> option (str * option str)) (macos : bool) (device_id : str) : res Device :=
  match parse_url device_id with
  | Some (scheme, host) =>
    if bool_decide (scheme = lit "fd") then
      host ← or_panic host;
      fd ← ok_or (parse_uint 32 host) "tun fd";
      Ok (DeviceFd fd)
    else if bool_decide (scheme = lit "dev") then
      dev ← or_panic host;
      if macos && negb (starts_with (lit "utun") dev) then Err "invalid device id" else Ok (DeviceName dev)
    else Err "invalid device id"
  | None =>
    if macos && negb (starts_with (lit "utun") device_id) then Err "invalid device id" else Ok (DeviceName device_id)
  end.
Section opening.
Context {NL : IpNetLib} {FN : FamilyNetLib}.
(** The device that is opened, if tun is enabled; on a file descriptor there
    are no addresses and routes to set, on an existing device neither. *)
Inductive Opened : Type := OpenFd (fd : Z) | OpenDev (name : str) (mtu : Z) (set_up : bool).
(* @src clash-lib/src/proxy/tun/inbound.rs 85 159 get_runner (open) *)
Definition open_device (cfg : TunConfig) (d : Device) (exists_ : str -> bool) : Opened :=
  match d with
  | DeviceFd fd => OpenFd fd
  | DeviceName name => OpenDev name (default 1500 (tn_mtu cfg)) (negb (exists_ name))
  end.
(* @src clash-lib/src/proxy/tun/inbound.rs 25 33 get_runner *)
Definition get_tun_runner (parse_url : str -> option (str * option str)) (macos : bool) (cfg : TunConfig) (exists_ : str -> bool) : res (option Opened) :=
  if negb (tn_enable cfg) then Ok None
  else d ← device_of parse_url macos (tn_device_id cfg); Ok (Some (open_device cfg d exists_)).
End opening.
(** The four futures run until the first of them ends, which ends the
    inbound with its error. *)
(* @src clash-lib/src/proxy/tun/inbound.rs 256 259 get_runner (select) *)
Definition tun_result (ended : list (option string)) : option string := head (omap id ended).
(** Packets from the device into the stack, until one fails. *)
(* @src clash-lib/src/proxy/tun/inbound.rs 208 227 get_runner (tun -> stack) *)
Fixpoint tun_to_stack {WL : WireLib} (pkts : list (res (list Z))) (s : StackSplitSink) : option (string * StackSplitSink) :=
  match pkts with
  | [] => None
  | Ok p :: pkts' =>
    match sink_send p s with
    | Some (Ok _, s') => tun_to_stack pkts' s'
    | Some (_, s') => Some ("tun stopped unexpectedly 1"%string, s')
    | None => None
    end
  | _ :: _ => Some ("tun stopped unexpectedly 1"%string, s)
  end.

(** ** Connections ([stream.rs]) *)
(* @src clash-lib/src/proxy/tun/stream.rs ~^pub\(crate\) async fn handle_inbound_stream~ handle_inbound_stream *)
Definition tun_stream_session (now counter : Z) (local remote : SocketAddr) (outbound : option OutboundInterface) (mark : option Z) : Session :=
  let s := (session_default counter now).1 in
  {| sess_id := sess_id s; network := Tcp; typ := TTun; source := local; destination := Ip remote; resolved_ip := resolved_ip s;
     so_mark := mark; iface := outbound; asn := asn s; traffic_stats := traffic_stats s; start_time := start_time s |}.

(** ** Datagrams ([datagram.rs]) *)
(** A bounded channel: what was sent, the room left, whether the receiver is
    there. *)
Record Channel : Type := { ch_sent : list UdpPacket; ch_room : nat; ch_open : bool }.
Definition try_send (p : UdpPacket) (c : Channel) : option Channel :=
  if ch_open c && (0 <? ch_room c)%nat then Some {| ch_sent := ch_sent c ++ [p]; ch_room := ch_room c - 1; ch_open := true |} else None.
(* @src clash-lib/src/proxy/tun/datagram.rs ~^pub struct TunDatagram~ TunDatagram *)
Record TunDatagram : Type := { td_rx : list UdpPacket; td_tx : Channel; td_pkt : option UdpPacket; td_flushed : bool }.
(* @src clash-lib/src/proxy/tun/datagram.rs ~    pub fn new\(~ TunDatagram::new *)
Definition tun_datagram_new (tx : Channel) (rx : list UdpPacket) : TunDatagram := {| td_rx := rx; td_tx := tx; td_pkt := None; td_flushed := true |}.
(* @src clash-lib/src/proxy/tun/datagram.rs ~    fn poll_flush~ TunDatagram::poll_flush *)
Definition tun_poll_flush (d : TunDatagram) : res unit * TunDatagram :=
  if td_flushed d then (Ok tt, d)
  else
    match td_pkt d with
    | None => (Err "no packet to send, call start_send first", d)
    | Some pkt =>
      match try_send pkt (td_tx d) with
      | Some tx => (Ok tt, {| td_rx := td_rx d; td_tx := tx; td_pkt := None; td_flushed := true |})
      | None => (Err "could not send packet, queue full or disconnected", d)
      end
    end.
(* @src clash-lib/src/proxy/tun/datagram.rs ~    fn poll_ready~ TunDatagram::poll_ready *)
Definition tun_poll_ready (d : TunDatagram) : res unit * TunDatagram := if negb (td_flushed d) then tun_poll_flush d else (Ok tt, d).
(* @src clash-lib/src/proxy/tun/datagram.rs ~    fn start_send~ TunDatagram::start_send *)
Definition tun_start_send (item : UdpPacket) (d : TunDatagram) : TunDatagram :=
  {| td_rx := td_rx d; td_tx := td_tx d; td_pkt := Some item; td_flushed := false |}.
(* @src clash-lib/src/proxy/tun/datagram.rs ~    fn poll_close~ TunDatagram::poll_close *)
Definition tun_poll_close : TunDatagram -> res unit * TunDatagram := tun_poll_flush.

(** [IpAddr::is_multicast] *)
Definition is_multicast (ip : IpAddr) : bool :=
  match ip with V4 a => Z.shiftr a 28 =? 0xE | V6 a => Z.shiftr a 120 =? 0xFF end.

Section datagrams.
Context {NM : NameLib} {S : Type} {EX : DnsMessageExchanger S} {WL : WireLib}.
Context (from_vec : list Z -> option DnsMessage) (to_vec : DnsMessage -> option (list Z)).
Definition set_id (i : Z) (m : DnsMessage) : DnsMessage :=
  let x := dm_msg m in
  {| dm_msg := {| m_id := i; m_op_code := m_op_code x; m_response := m_response x; m_recursion_desired := m_recursion_desired x;
                  m_recursion_available := m_recursion_available x; m_authoritative := m_authoritative x;
                  m_checking_disabled := m_checking_disabled x; m_response_code := m_response_code x; m_answer_count := m_answer_count x;
                  m_queries := m_queries x; m_answers := m_answers x; m_edns := m_edns x |};
     dm_name_servers := dm_name_servers m; dm_additionals := dm_additionals m; dm_sig0 := dm_sig0 m; dm_dnssec_ok := dm_dnssec_ok m |}.

(** What the reading loop fills: packets for the dispatcher, packets back
    into the stack, and the resolver. *)
Record Reader : Type := { rd_dispatcher : list UdpPacket; rd_stack : Sender; rd_resolver : S }.

(** A query answered by the resolver; one that does not parse, or fails, is
    dropped. *)
(* @src clash-lib/src/proxy/tun/datagram.rs 96 167 handle_inbound_datagram (hijack) *)
Definition hijack (p : NetUdpPacket) (r : Reader) : Reader :=
  match from_vec (nu_data p) with
  | None => r
  | Some msg =>
    let '(resp, s) := ex_exchange msg (rd_resolver r) in
    match resp with
    | Ok resp =>
      match to_vec (set_id (m_id (dm_msg msg)) resp) with
      | Some data =>
        let out := match udp_send {| nu_data := data; nu_local_addr := nu_remote_addr p; nu_remote_addr := nu_local_addr p |} (rd_stack r) with
                   | Ok o => o
                   | _ => rd_stack r
                   end in
        {| rd_dispatcher := rd_dispatcher r; rd_stack := out; rd_resolver := s |}
      | None => {| rd_dispatcher := rd_dispatcher r; rd_stack := rd_stack r; rd_resolver := s |}
      end
    | _ => {| rd_dispatcher := rd_dispatcher r; rd_stack := rd_stack r; rd_resolver := s |}
    end
  end.
Definition to_dispatcher (p : NetUdpPacket) : UdpPacket :=
  {| up_data := nu_data p; up_src_addr := Ip (nu_local_addr p); up_dst_addr := Ip (nu_remote_addr p) |}.
(** The loop ends with the first packet that is none: the end of the channel,
    or one that does not parse; its end closes the session. *)
(* @src clash-lib/src/proxy/tun/datagram.rs 78 178 handle_inbound_datagram (tun -> dispatcher) *)
Fixpoint read_tun (dns_hijack : bool) (frames : list (list Z)) (r : Reader) : Reader :=
  match frames with
  | [] => r
  | f :: frames' =>
    match udp_recv f with
    | None => r
    | Some p =>
      if is_multicast (sa_ip (nu_remote_addr p)) then read_tun dns_hijack frames' r
      else if dns_hijack && (sa_port (nu_remote_addr p) =? 53) then read_tun dns_hijack frames' (hijack p r)
      else read_tun dns_hijack frames' {| rd_dispatcher := rd_dispatcher r ++ [to_dispatcher p]; rd_stack := rd_stack r; rd_resolver := rd_resolver r |}
    end
  end.
(** Answers back into the stack; one that cannot be sent is logged. *)
(* @src clash-lib/src/proxy/tun/datagram.rs 58 75 handle_inbound_datagram (dispatcher -> tun) *)
Fixpoint write_tun (pkts : list UdpPacket) (out : Sender) : res Sender :=
  match pkts with
  | [] => Ok out
  | p :: pkts' =>
    src ← must_into_socket_addr (up_src_addr p);
    dst ← must_into_socket_addr (up_dst_addr p);
    match udp_send {| nu_data := up_data p; nu_local_addr := src; nu_remote_addr := dst |} out with
    | Ok out => write_tun pkts' out
    | Err _ => write_tun pkts' out
    | Panic => Panic
    end
  end.
(** The session of all datagrams, with the interface of when tun started. *)
(* @src clash-lib/src/proxy/tun/datagram.rs 42 51 handle_inbound_datagram (session) *)
Definition tun_datagram_session (now counter : Z) (outbound : option OutboundInterface) (mark : option Z) : Session :=
  let s := (session_default counter now).1 in
  {| sess_id := sess_id s; network := Udp; typ := TTun; source := source s; destination := destination s; resolved_ip := resolved_ip s;
     so_mark := mark; iface := outbound; asn := asn s; traffic_stats := traffic_stats s; start_time := start_time s |}.

(** * Theorems *)

(** What the dispatcher is meant to get: every packet up to the first that
    does not parse, without multicast and, when DNS is intercepted, without
    those for port 53. *)
Fixpoint parsed (frames : list (list Z)) : list NetUdpPacket :=
  match frames with
  | [] => []
  | f :: frames' => match udp_recv f with None => [] | Some p => p :: parsed frames' end
  end.
Definition wanted (dns_hijack : bool) (p : NetUdpPacket) : bool :=
  negb (is_multicast (sa_ip (nu_remote_addr p))) && negb (dns_hijack && (sa_port (nu_remote_addr p) =? 53)).

Lemma hijack_dispatcher p r : rd_dispatcher (hijack p r) = rd_dispatcher r.
Proof.
  unfold hijack. destruct (from_vec _); [|done]. destruct (ex_exchange _ _) as [[resp| |] s]; [|done|done]. by destruct (to_vec _).
Qed.
Lemma read_tun_forwards h frames r :
  rd_dispatcher (read_tun h frames r) = rd_dispatcher r ++ map to_dispatcher (List.filter (wanted h) (parsed frames)).
Proof.
  revert r. induction frames as [|f frames IH]; intros r; cbn [read_tun parsed]; [by rewrite app_nil_r|].
  destruct (udp_recv f) as [p|]; [|by rewrite app_nil_r]. cbn [List.filter]. unfold wanted at 1.
  destruct (is_multicast _); cbn [negb andb]; [apply IH|]. destruct (h && _); cbn [negb]; rewrite IH.
  - by rewrite hijack_dispatcher.
  - cbn [rd_dispatcher map]. by rewrite <- app_assoc.
Qed.
(** With the interception on no datagram for port 53 reaches the dispatcher. *)
Lemma hijacked_dns_not_forwarded frames r p : rd_dispatcher r = [] -> p ∈ rd_dispatcher (read_tun true frames r) ->
  forall a, up_dst_addr p = Ip a -> sa_port a <> 53.
Proof.
  intros Hr. rewrite read_tun_forwards, Hr. cbn [app]. intros (q & -> & Hq)%list_elem_of_fmap a [= <-] E.
  apply list_elem_of_In, List.filter_In in Hq as [_ Hw]. unfold wanted in Hw. rewrite E in Hw. cbn in Hw. by rewrite andb_false_r in Hw.
Qed.
(** A packet that does not parse ends the reading of datagrams for good. *)
Lemma bad_packet_ends_reading h f frames r : udp_recv f = None -> read_tun h (f :: frames) r = r.
Proof. intros H. cbn. by rewrite H. Qed.
(** A DNS query that does not parse is gone, not put back. *)
Lemma unparsed_query_dropped f p frames r : udp_recv f = Some p -> is_multicast (sa_ip (nu_remote_addr p)) = false -> sa_port (nu_remote_addr p) = 53 ->
  from_vec (nu_data p) = None -> read_tun true (f :: frames) r = read_tun true frames r.
Proof. intros H1 H2 H3 H4. cbn [read_tun]. rewrite H1, H2, H3. cbn [andb Z.eqb]. change (53 =? 53) with true. cbv iota. unfold hijack. by rewrite H4. Qed.
End datagrams.

(** A full queue is an error of the sink, not a wait. *)
Lemma full_queue_fails item d : td_flushed d = true -> ch_room (td_tx d) = 0%nat ->
  fst (tun_poll_flush (tun_start_send item d)) = Err "could not send packet, queue full or disconnected".
Proof. intros Hf Hr. unfold tun_poll_flush, tun_start_send. cbn. unfold try_send. rewrite Hr. by rewrite andb_false_r. Qed.
