(* ===== verification/Datagrams.v ===== *)
(** * Datagram sinks

    A datagram adapter is a sink of packets: it is asked whether it is ready,
    handed a packet and polled until the packet is out.  [PacketSink] is that
    interface with its contract, [forward] the task of the dispatcher that
    uses it, and the adapters of direct connections, VMess, Shadowsocks,
    tunnels, WireGuard and tun are its implementations. *)

From S2P Require Import Prelude Str Net Session Async Netstack Wg Tun.

(** ** The interface *)
Class PacketSink (S : Type) : Type := {
  ps_ready : S -> Poll (res unit) * S;
  ps_start : UdpPacket -> S -> res unit * S;
  ps_flush : S -> Poll (res unit) * S;
}.

Section laws.
Context {S : Type} {PK : PacketSink S} {D : Type} (carries : UdpPacket -> D -> Prop) (out : S -> list D) (held : S -> option UdpPacket)
  (fine : S -> Prop).
(** What a poll does: nothing, or it hands over the packet held, which must
    have happened when it is ready; a failure may drop the packet.  [fine] is
    what the adapter keeps true of itself. *)
Definition poll_law (op : S -> Poll (res unit) * S) : Prop := forall s r s', fine s -> op s = (r, s') -> fine s' /\
  ((out s' = out s /\ (held s' = held s \/ (held s' = None /\ r <> Pending /\ r <> Ready (Ok tt)))) \/
   exists p d, held s = Some p /\ held s' = None /\ carries p d /\ out s' = out s ++ [d]) /\
  (r = Ready (Ok tt) -> held s' = None).
(** A packet is handed to a sink that has just been ready. *)
Class SinkLaws : Prop := {
  sk_ready : poll_law ps_ready;
  sk_flush : poll_law ps_flush;
  sk_start : forall s0 p s r s', fine s0 -> ps_ready s0 = (Ready (Ok tt), s) -> ps_start p s = (r, s') -> fine s' /\
    match r with
    | Ok _ => (held s' = Some p /\ out s' = out s) \/ (held s' = None /\ exists d, carries p d /\ out s' = out s ++ [d])
    | _ => held s' = None /\ out s' = out s
    end;
}.
End laws.

(** ** The user ([dispatcher_impl.rs]) *)
Section forward.
Context {S : Type} {PK : PacketSink S}.
(** Polling until ready, for at most [fuel] polls. *)
Fixpoint wait (fuel : nat) (op : S -> Poll (res unit) * S) (s : S) : option (res unit * S) :=
  match fuel with
  | O => None
  | Datatypes.S fuel' => match op s with (Ready r, s) => Some (r, s) | (Pending, s) => wait fuel' op s end
  end.
(** [SinkExt::send]: a failure to start is the failure of the whole. *)
Definition sink_send_packet (fuel : nat) (p : UdpPacket) (s : S) : option (res unit * S) :=
  match wait fuel ps_ready s with
  | Some (Ok _, s) => match ps_start p s with (Ok _, s) => wait fuel ps_flush s | r => Some r end
  | r => r
  end.
(** Each packet of the channel is sent; one that fails is logged.  Which ones
    were sent, and the sink. *)
(* @src clash-lib/src/app/dispatcher/dispatcher_impl.rs 372 384 Dispatcher::dispatch_datagram (local -> remote) *)
Fixpoint forward (fuel : nat) (packets : list UdpPacket) (s : S) : option (list UdpPacket * S) :=
  match packets with
  | [] => Some ([], s)
  | p :: packets' =>
    match sink_send_packet fuel p s with
    | None => None
    | Some (r, s) =>
      match forward fuel packets' s with
      | Some (sent, s) => Some (if is_ok r then p :: sent else sent, s)
      | None => None
      end
    end
  end.
End forward.

(** ** UDP sockets *)
(** [us_sent] is what the network was given. *)
Class UdpSocket (U : Type) : Type := {
  us_send_to : list Z -> SocketAddr -> U -> Poll (res nat) * U;
  us_recv_from : U -> Poll (res (list Z * SocketAddr)) * U;
  us_local_v6 : U -> res bool;
  us_sent : U -> list (list Z * SocketAddr);
}.
(** A datagram is sent whole or not at all. *)
Class UdpSocketLaws (U : Type) {US : UdpSocket U} : Prop :=
  us_whole : forall bs a u r u', us_send_to bs a u = (r, u') ->
    match r with Ready (Ok n) => n = length bs /\ us_sent u' = us_sent u ++ [(bs, a)] | _ => us_sent u' = us_sent u end.

(** ** Direct connections ([proxy/datagram.rs]) *)
Section direct.
Context {U : Type} {US : UdpSocket U}.
(** The first poll of a resolution, of IPv4 addresses only or of any. *)
Context {R : Type} (resolve_poll : bool -> str -> R -> Poll (res (option IpAddr)) * R).
(* @src clash-lib/src/proxy/datagram.rs ~^pub struct OutboundDatagramImpl~ OutboundDatagramImpl *)
Record OutboundDatagramImpl : Type := { od_inner : U; od_resolver : R; od_flushed : bool; od_pkt : option UdpPacket }.
(* @src clash-lib/src/proxy/datagram.rs ~    pub fn new\(udp: UdpSocket~ OutboundDatagramImpl::new *)
Definition outbound_datagram_new (udp : U) (r : R) : OutboundDatagramImpl := {| od_inner := udp; od_resolver := r; od_flushed := true; od_pkt := None |}.
Definition od_set_inner (u : U) (d : OutboundDatagramImpl) : OutboundDatagramImpl :=
  {| od_inner := u; od_resolver := od_resolver d; od_flushed := od_flushed d; od_pkt := od_pkt d |}.
Definition od_set_resolver (r : R) (d : OutboundDatagramImpl) : OutboundDatagramImpl :=
  {| od_inner := od_inner d; od_resolver := r; od_flushed := od_flushed d; od_pkt := od_pkt d |}.
(** The address of a name is asked for anew with every poll. *)
(* @src clash-lib/src/proxy/datagram.rs 126 151 OutboundDatagramImpl::poll_flush (address) *)
Definition od_address (dst : SocksAddr) (d : OutboundDatagramImpl) : Poll (res SocketAddr) * OutboundDatagramImpl :=
  match dst with
  | Ip addr => (Ready (Ok addr), d)
  | Domain domain port =>
    match us_local_v6 (od_inner d) with
    | Ok v6 =>
      let '(r, res_) := resolve_poll v6 domain (od_resolver d) in
      let d := od_set_resolver res_ d in
      match r with
      | Ready (Ok (Some ip)) => (Ready (Ok (sa_new ip port)), d)
      | Ready (Ok None) => (Ready (Err "resolve domain failed"), d)
      | Ready (Err _) => (Ready (Err "resolve domain failed"), d)
      | Ready Panic => (Ready Panic, d)
      | Pending => (Pending, d)
      end
    | Err e => (Ready (Err e), d)
    | Panic => (Ready Panic, d)
    end
  end.
(* @src clash-lib/src/proxy/datagram.rs ~    fn poll_flush~ OutboundDatagramImpl::poll_flush *)
Definition od_flush (d : OutboundDatagramImpl) : Poll (res unit) * OutboundDatagramImpl :=
  if od_flushed d then (Ready (Ok tt), d)
  else
    match od_pkt d with
    | None => (Ready (Err "no packet to send"), d)
    | Some p =>
      match od_address (up_dst_addr p) d with
      | (Ready (Ok dst), d) =>
        match us_send_to (up_data p) dst (od_inner d) with
        | (Ready (Ok n), u) =>
          (Ready (if (n =? length (up_data p))%nat then Ok tt else Err "failed to send all data"),
           {| od_inner := u; od_resolver := od_resolver d; od_flushed := true; od_pkt := None |})
        | (Ready (Err e), u) => (Ready (Err e), od_set_inner u d)
        | (Ready Panic, u) => (Ready Panic, od_set_inner u d)
        | (Pending, u) => (Pending, od_set_inner u d)
        end
      | (Ready (Err e), d) => (Ready (Err e), d)
      | (Ready Panic, d) => (Ready Panic, d)
      | (Pending, d) => (Pending, d)
      end
    end.
(* @src clash-lib/src/proxy/datagram.rs ~    fn poll_ready~ OutboundDatagramImpl::poll_ready *)
Definition od_ready (d : OutboundDatagramImpl) : Poll (res unit) * OutboundDatagramImpl := if od_flushed d then (Ready (Ok tt), d) else od_flush d.
(* @src clash-lib/src/proxy/datagram.rs ~    fn start_send~ OutboundDatagramImpl::start_send *)
Definition od_start (item : UdpPacket) (d : OutboundDatagramImpl) : res unit * OutboundDatagramImpl :=
  (Ok tt, {| od_inner := od_inner d; od_resolver := od_resolver d; od_flushed := false; od_pkt := Some item |}).
(* @src clash-lib/src/proxy/datagram.rs ~    fn poll_next~ OutboundDatagramImpl::poll_next *)
Definition od_next (d : OutboundDatagramImpl) : Poll (option UdpPacket) * OutboundDatagramImpl :=
  match us_recv_from (od_inner d) with
  | (Ready (Ok (data, src)), u) => (Ready (Some {| up_data := data; up_src_addr := Ip src; up_dst_addr := any_ipv4 |}), od_set_inner u d)
  | (Ready _, u) => (Ready None, od_set_inner u d)
  | (Pending, u) => (Pending, od_set_inner u d)
  end.
#[global] Instance direct_sink : PacketSink OutboundDatagramImpl := {| ps_ready := od_ready; ps_start := od_start; ps_flush := od_flush |}.
End direct.
Arguments OutboundDatagramImpl : clear implicits.

(** ** VMess ([vmess_impl/datagram.rs]) *)
Section vmess.
Context {W : Type} {AR : AsyncRead W} {AW : AsyncWrite W}.
(* @src clash-lib/src/proxy/vmess/vmess_impl/datagram.rs ~^pub struct OutboundDatagramVmess~ OutboundDatagramVmess *)
Record OutboundDatagramVmess : Type := {
  dv_inner : W; dv_remote_addr : SocksAddr; dv_written : option nat; dv_flushed : bool; dv_pkt : option UdpPacket }.
(* @src clash-lib/src/proxy/vmess/vmess_impl/datagram.rs ~    pub fn new~ OutboundDatagramVmess::new *)
Definition vmess_datagram_new (inner : W) (remote_addr : SocksAddr) : OutboundDatagramVmess :=
  {| dv_inner := inner; dv_remote_addr := remote_addr; dv_written := None; dv_flushed := true; dv_pkt := None |}.
Definition dv_put (inner : W) (written : option nat) (flushed : bool) (pkt : option UdpPacket) (d : OutboundDatagramVmess) : OutboundDatagramVmess :=
  {| dv_inner := inner; dv_remote_addr := dv_remote_addr d; dv_written := written; dv_flushed := flushed; dv_pkt := pkt |}.
(** The inner stream is flushed, then the packet is let go. *)
(* @src clash-lib/src/proxy/vmess/vmess_impl/datagram.rs 98 122 OutboundDatagramVmess::poll_flush (flush) *)
Definition dv_finish (p : UdpPacket) (n : nat) (d : OutboundDatagramVmess) : Poll (res unit) * OutboundDatagramVmess :=
  match poll_flush (dv_inner d) with
  | (Ready (Ok _), w) =>
    (Ready (if (n =? length (up_data p))%nat then Ok tt else Err "failed to write entire datagram"), dv_put w None true None d)
  | (r, w) => (r, dv_put w (Some n) false (Some p) d)
  end.
(* @src clash-lib/src/proxy/vmess/vmess_impl/datagram.rs ~    fn poll_flush~ OutboundDatagramVmess::poll_flush *)
Definition dv_flush (d : OutboundDatagramVmess) : Poll (res unit) * OutboundDatagramVmess :=
  if dv_flushed d then (Ready (Ok tt), d)
  else
    match dv_pkt d with
    | None => (Ready (Err "no packet to send"), d)
    | Some p =>
      if negb (bool_decide (up_dst_addr p = dv_remote_addr d)) then (Ready (Err "udp packet dst_addr not match"), d)
      else
        match dv_written d with
        | Some n => dv_finish p n d
        | None =>
          match poll_write (up_data p) (dv_inner d) with
          | (Ready (Ok n), w) => dv_finish p n (dv_put w (Some n) false (Some p) d)
          | (Ready (Err e), w) => (Ready (Err e), dv_put w None false (Some p) d)
          | (Ready Panic, w) => (Ready Panic, dv_put w None false (Some p) d)
          | (Pending, w) => (Pending, dv_put w None false (Some p) d)
          end
        end
    end.
(* @src clash-lib/src/proxy/vmess/vmess_impl/datagram.rs ~    fn poll_ready~ OutboundDatagramVmess::poll_ready *)
Definition dv_ready (d : OutboundDatagramVmess) : Poll (res unit) * OutboundDatagramVmess := if dv_flushed d then (Ready (Ok tt), d) else dv_flush d.
(* @src clash-lib/src/proxy/vmess/vmess_impl/datagram.rs ~    fn start_send~ OutboundDatagramVmess::start_send *)
Definition dv_start (item : UdpPacket) (d : OutboundDatagramVmess) : res unit * OutboundDatagramVmess :=
  (Ok tt, dv_put (dv_inner d) (dv_written d) false (Some item) d).
(** Each read of the stream is a packet. *)
(* @src clash-lib/src/proxy/vmess/vmess_impl/datagram.rs ~    fn poll_next~ OutboundDatagramVmess::poll_next *)
Definition dv_next (d : OutboundDatagramVmess) : Poll (option UdpPacket) * OutboundDatagramVmess :=
  match poll_read 65535 (dv_inner d) with
  | (Ready (Ok data), w) =>
    (Ready (Some {| up_data := data; up_src_addr := dv_remote_addr d; up_dst_addr := any_ipv4 |}), dv_put w (dv_written d) (dv_flushed d) (dv_pkt d) d)
  | (Ready _, w) => (Ready None, dv_put w (dv_written d) (dv_flushed d) (dv_pkt d) d)
  | (Pending, w) => (Pending, dv_put w (dv_written d) (dv_flushed d) (dv_pkt d) d)
  end.
#[global] Instance vmess_sink : PacketSink OutboundDatagramVmess := {| ps_ready := dv_ready; ps_start := dv_start; ps_flush := dv_flush |}.
End vmess.
Arguments OutboundDatagramVmess : clear implicits.

(** ** Shadowsocks ([shadowsocks/outbound/datagram.rs], [inbound/datagram.rs]) *)
(** The crate's socket: an address is a socket address or a name. *)
Inductive SsAddress : Type := SocketAddress (a : SocketAddr) | DomainNameAddress (host : str) (port : Z).
Class ProxySocket (X : Type) : Type := {
  px_send_to : SocketAddr -> SsAddress -> Z -> list Z -> X -> Poll (res nat) * X;
  px_recv : X -> Poll (res (list Z * SsAddress)) * X;
  px_recv_from : X -> Poll (res (list Z * SocketAddr * SsAddress)) * X;
  px_sent : X -> list (SocketAddr * SsAddress * Z * list Z);
}.
Class ProxySocketLaws (X : Type) {PX : ProxySocket X} : Prop :=
  px_whole : forall to a id bs x r x', px_send_to to a id bs x = (r, x') ->
    match r with Ready (Ok n) => n = length bs /\ px_sent x' = px_sent x ++ [(to, a, id, bs)] | _ => px_sent x' = px_sent x end.

Section shadowsocks.
Context {X : Type} {PX : ProxySocket X}.
(** [Address::from] of a host and a port. *)
Context (address_of : str -> Z -> SsAddress).
(** [packet_id] is a u64; the session id, which is random, is left out. *)
(* @src clash-lib/src/proxy/shadowsocks/outbound/datagram.rs ~^pub struct OutboundDatagramShadowsocks~ OutboundDatagramShadowsocks *)
Record SsDatagram : Type := { sd_inner : X; sd_remote_addr : SocketAddr; sd_flushed : bool; sd_pkt : option UdpPacket; sd_packet_id : Z }.
(* @src clash-lib/src/proxy/shadowsocks/outbound/datagram.rs ~    pub fn new\(inner: ProxySocket~ OutboundDatagramShadowsocks::new *)
Definition ss_datagram_new (inner : X) (remote_addr : SocketAddr) : SsDatagram :=
  {| sd_inner := inner; sd_remote_addr := remote_addr; sd_flushed := true; sd_pkt := None; sd_packet_id := 0 |}.
Definition sd_put (inner : X) (flushed : bool) (pkt : option UdpPacket) (id : Z) (d : SsDatagram) : SsDatagram :=
  {| sd_inner := inner; sd_remote_addr := sd_remote_addr d; sd_flushed := flushed; sd_pkt := pkt; sd_packet_id := id |}.
(** The packet is sent, then its number taken; without a next number it stays
    in the sink. *)
Definition ss_send (to : SocketAddr) (addr : SsAddress) (p : UdpPacket) (d : SsDatagram) : Poll (res unit) * SsDatagram :=
  match px_send_to to addr (sd_packet_id d) (up_data p) (sd_inner d) with
  | (Ready (Ok n), x) =>
    if sd_packet_id d + 1 <? 2 ^ 64 then
      (Ready (if (n =? length (up_data p))%nat then Ok tt else Err "failed to write entire datagram"), sd_put x true None (sd_packet_id d + 1) d)
    else (Ready (Err "packet_id overflow"), sd_put x false (Some p) (sd_packet_id d) d)
  | (Ready (Err e), x) => (Ready (Err e), sd_put x false (Some p) (sd_packet_id d) d)
  | (Ready Panic, x) => (Ready Panic, sd_put x false (Some p) (sd_packet_id d) d)
  | (Pending, x) => (Pending, sd_put x false (Some p) (sd_packet_id d) d)
  end.
(* @src clash-lib/src/proxy/shadowsocks/outbound/datagram.rs ~    fn poll_flush~ OutboundDatagramShadowsocks::poll_flush *)
Definition sd_flush (d : SsDatagram) : Poll (res unit) * SsDatagram :=
  if sd_flushed d then (Ready (Ok tt), d)
  else
    match sd_pkt d with
    | None => (Ready (Err "no packet to send"), d)
    | Some p => ss_send (sd_remote_addr d) (address_of (socks_host (up_dst_addr p)) (socks_port (up_dst_addr p))) p d
    end.
(* @src clash-lib/src/proxy/shadowsocks/outbound/datagram.rs ~    fn poll_ready~ OutboundDatagramShadowsocks::poll_ready *)
Definition sd_ready (d : SsDatagram) : Poll (res unit) * SsDatagram := if sd_flushed d then (Ready (Ok tt), d) else sd_flush d.
(* @src clash-lib/src/proxy/shadowsocks/outbound/datagram.rs ~    fn start_send~ OutboundDatagramShadowsocks::start_send *)
Definition sd_start (item : UdpPacket) (d : SsDatagram) : res unit * SsDatagram := (Ok tt, sd_put (sd_inner d) false (Some item) (sd_packet_id d) d).
(** The address of an answer from a name is not told. *)
(* @src clash-lib/src/proxy/shadowsocks/outbound/datagram.rs ~    fn poll_next~ OutboundDatagramShadowsocks::poll_next *)
Definition sd_next (d : SsDatagram) : Poll (option UdpPacket) * SsDatagram :=
  let put x := sd_put x (sd_flushed d) (sd_pkt d) (sd_packet_id d) d in
  match px_recv (sd_inner d) with
  | (Ready (Ok (data, src)), x) =>
    (Ready (Some {| up_data := data; up_src_addr := match src with SocketAddress a => Ip a | DomainNameAddress _ _ => any_ipv4 end;
                    up_dst_addr := any_ipv4 |}), put x)
  | (Ready _, x) => (Ready None, put x)
  | (Pending, x) => (Pending, put x)
  end.
#[global] Instance ss_sink : PacketSink SsDatagram := {| ps_ready := sd_ready; ps_start := sd_start; ps_flush := sd_flush |}.

(** The server's side: the same fields, but packets go to their own
    destination. *)
Definition ss_address (a : SocksAddr) : SsAddress := match a with Ip addr => SocketAddress addr | Domain host port => DomainNameAddress host port end.
(* @src clash-lib/src/proxy/shadowsocks/inbound/datagram.rs ~    fn poll_flush~ InboundShadowsocksDatagram::poll_flush *)
Definition ss_inbound_flush (d : SsDatagram) : Poll (res unit) * SsDatagram :=
  if sd_flushed d then (Ready (Ok tt), d)
  else
    match sd_pkt d with
    | None => (Ready (Err "no packet to send"), d)
    | Some p =>
      match must_into_socket_addr (up_dst_addr p) with
      | Ok to => ss_send to (ss_address (up_src_addr p)) p d
      | Err e => (Ready (Err e), d)
      | Panic => (Ready Panic, d)
      end
    end.
(** A datagram that does not decrypt is pending, though the socket was ready. *)
(* @src clash-lib/src/proxy/shadowsocks/inbound/datagram.rs ~    fn poll_next~ InboundShadowsocksDatagram::poll_next *)
Definition ss_inbound_next (d : SsDatagram) : Poll (option UdpPacket) * SsDatagram :=
  let put x := sd_put x (sd_flushed d) (sd_pkt d) (sd_packet_id d) d in
  match px_recv_from (sd_inner d) with
  | (Ready (Ok (data, src, target)), x) =>
    (Ready (Some {| up_data := data; up_src_addr := Ip src;
                    up_dst_addr := match target with SocketAddress a => Ip a | DomainNameAddress h p => Domain h p end |}), put x)
  | (Ready (Err _), x) => (Pending, put x)
  | (Ready Panic, x) => (Ready None, put x)
  | (Pending, x) => (Pending, put x)
  end.
End shadowsocks.
Arguments SsDatagram : clear implicits.

(** What the crate's socket is given for a connection over another
    datagram: a sink and a stream of packets, and what was left of one. *)
Section udp_io.
Context {S : Type} {PK : PacketSink S} (next : S -> Poll (option UdpPacket) * S).
(* @src clash-lib/src/proxy/shadowsocks/outbound/datagram.rs ~^pub\(crate\) struct ShadowsocksUdpIo~ ShadowsocksUdpIo *)
Record ShadowsocksUdpIo : Type := { io_inner : S; io_remained : list Z }.
(** A second call while the first waits hands the packet over again. *)
(* @src clash-lib/src/proxy/shadowsocks/outbound/datagram.rs ~    fn poll_send_to~ ShadowsocksUdpIo::poll_send_to *)
Definition io_send_to (buf : list Z) (target : SocketAddr) (io : ShadowsocksUdpIo) : Poll (res nat) * ShadowsocksUdpIo :=
  match ps_start {| up_data := buf; up_src_addr := any_ipv4; up_dst_addr := Ip target |} (io_inner io) with
  | (Ok _, s) =>
    match ps_flush s with
    | (Ready (Ok _), s) => (Ready (Ok (length buf)), {| io_inner := s; io_remained := io_remained io |})
    | (Ready (Err e), s) => (Ready (Err e), {| io_inner := s; io_remained := io_remained io |})
    | (Ready Panic, s) => (Ready Panic, {| io_inner := s; io_remained := io_remained io |})
    | (Pending, s) => (Pending, {| io_inner := s; io_remained := io_remained io |})
    end
  | (Err e, s) => (Ready (Err e), {| io_inner := s; io_remained := io_remained io |})
  | (Panic, s) => (Ready Panic, {| io_inner := s; io_remained := io_remained io |})
  end.
(* @src clash-lib/src/proxy/shadowsocks/outbound/datagram.rs ~    fn poll_recv\(~ ShadowsocksUdpIo::poll_recv *)
Definition io_recv (cap : nat) (io : ShadowsocksUdpIo) : Poll (res (list Z)) * ShadowsocksUdpIo :=
  if bool_decide (io_remained io <> []) then
    (Ready (Ok (take cap (io_remained io))), {| io_inner := io_inner io; io_remained := drop cap (io_remained io) |})
  else
    match next (io_inner io) with
    | (Ready (Some p), s) => (Ready (Ok (take cap (up_data p))), {| io_inner := s; io_remained := drop cap (up_data p) |})
    | (Ready None, s) => (Ready (Ok []), {| io_inner := s; io_remained := [] |})
    | (Pending, s) => (Pending, {| io_inner := s; io_remained := [] |})
    end.
End udp_io.

(** ** Tunnels ([tunnel/mod.rs]) *)
(** [try_send_to] sends at once or would block; [poll_send_ready] tells
    whether it would. *)
Inductive TrySendTo : Type := SentTo | WouldBlock | SendFailed (e : string).
Section tunnel_udp.
Context {U : Type} (try_send_to : list Z -> SocketAddr -> U -> TrySendTo * U) (poll_send_ready : U -> Poll (res unit)).
(* @src clash-lib/src/proxy/tunnel/mod.rs ~^struct UdpSession~ UdpSession *)
Record UdpSession : Type := { tu_socket : U; tu_dst_addr : SocksAddr; tu_send_buf : option (list Z * SocketAddr) }.
(* @src clash-lib/src/proxy/tunnel/mod.rs ~    fn new\(socket: UdpSocket~ UdpSession::new *)
Definition udp_session_new (socket : U) (dst_addr : SocksAddr) : UdpSession := {| tu_socket := socket; tu_dst_addr := dst_addr; tu_send_buf := None |}.
(* @src clash-lib/src/proxy/tunnel/mod.rs ~    fn poll_ready~ UdpSession::poll_ready *)
Definition tu_ready (s : UdpSession) : Poll (res unit) * UdpSession := (match tu_send_buf s with Some _ => Pending | None => Ready (Ok tt) end, s).
(* @src clash-lib/src/proxy/tunnel/mod.rs ~    fn start_send~ UdpSession::start_send *)
Definition tu_start (item : UdpPacket) (s : UdpSession) : res unit * UdpSession :=
  match up_dst_addr item with
  | Domain _ _ => (Err "UdpPacket dst_src MUSTBE IpAddr instead of Domain", s)
  | Ip dst_addr =>
    match try_send_to (up_data item) dst_addr (tu_socket s) with
    | (SentTo, u) => (Ok tt, {| tu_socket := u; tu_dst_addr := tu_dst_addr s; tu_send_buf := tu_send_buf s |})
    | (WouldBlock, u) => (Ok tt, {| tu_socket := u; tu_dst_addr := tu_dst_addr s; tu_send_buf := Some (up_data item, dst_addr) |})
    | (SendFailed e, u) => (Err e, {| tu_socket := u; tu_dst_addr := tu_dst_addr s; tu_send_buf := tu_send_buf s |})
    end
  end.
(* @src clash-lib/src/proxy/tunnel/mod.rs ~    fn poll_flush~ UdpSession::poll_flush *)
Definition tu_flush (s : UdpSession) : Poll (res unit) * UdpSession :=
  match tu_send_buf s with
  | Some (data, dst_addr) =>
    match try_send_to data dst_addr (tu_socket s) with
    | (SentTo, u) => (Ready (Ok tt), {| tu_socket := u; tu_dst_addr := tu_dst_addr s; tu_send_buf := None |})
    | (WouldBlock, u) => (poll_send_ready u, {| tu_socket := u; tu_dst_addr := tu_dst_addr s; tu_send_buf := tu_send_buf s |})
    | (SendFailed e, u) => (Ready (Err e), {| tu_socket := u; tu_dst_addr := tu_dst_addr s; tu_send_buf := tu_send_buf s |})
    end
  | None => (Ready (Ok tt), s)
  end.
(* @src clash-lib/src/proxy/tunnel/mod.rs ~    fn poll_next~ UdpSession::poll_next *)
Definition tu_next (recv : Poll (res (list Z * SocketAddr))) (s : UdpSession) : Poll (option UdpPacket) :=
  match recv with
  | Ready (Ok (data, src_addr)) => Ready (Some {| up_data := data; up_src_addr := Ip src_addr; up_dst_addr := tu_dst_addr s |})
  | Ready _ => Ready None
  | Pending => Pending
  end.
End tunnel_udp.

(** ** Queues of packets ([wg/stack/udp.rs], [tun/datagram.rs]) *)
#[global] Instance wg_sink : PacketSink UdpPair :=
  {| ps_ready := udp_pair_ready; ps_start := fun p u => (Ok tt, udp_pair_start_send p u); ps_flush := udp_pair_flush |}.
#[global] Instance tun_sink : PacketSink TunDatagram :=
  {| ps_ready := fun d => let '(r, d) := tun_poll_ready d in (Ready r, d);
     ps_start := fun p d => (Ok tt, tun_start_send p d);
     ps_flush := fun d => let '(r, d) := tun_poll_flush d in (Ready r, d) |}.

(** * Theorems *)

(** ** The user of a sink *)
Section forward_spec.
Context {S : Type} {PK : PacketSink S} {D : Type} (carries : UdpPacket -> D -> Prop) (out : S -> list D) (held : S -> option UdpPacket)
  (fine : S -> Prop).
Context {SL : SinkLaws carries out held fine}.

(** What polling until ready does, together. *)
Lemma wait_law op : poll_law carries out held fine op -> forall fuel s r s', fine s -> wait fuel op s = Some (r, s') -> fine s' /\
  ((out s' = out s /\ (held s' = held s \/ (held s' = None /\ r <> Ok tt))) \/
   exists p d, held s = Some p /\ held s' = None /\ carries p d /\ out s' = out s ++ [d]) /\
  (r = Ok tt -> held s' = None).
Proof.
  intros Hop fuel. induction fuel as [|fuel IH]; intros s r s' Hfine; [done|]. cbn [wait]. destruct (op s) as [r1 s1] eqn:E.
  destruct (Hop _ _ _ Hfine E) as (Hf1 & H1 & H2). destruct r1 as [r1|].
  - intros [= <- <-]. split; [done|]. split; [|intros ->; by apply H2]. destruct H1 as [(H1 & [H3|(H3 & _ & H4)])|H1]; [left; auto|left; split; [done|]|by right].
    right. split; [done|]. congruence.
  - intros Hw. destruct (IH _ _ _ Hf1 Hw) as (Hf2 & H3 & H4). split; [done|]. split; [|done]. destruct H1 as [(H1 & [H5|(_ & H5 & _)])|(p & d & H5 & H6 & H7 & H8)]; [|done|].
    + rewrite H1, H5 in H3. done.
    + right. exists p, d. rewrite H6, H8 in H3. destruct H3 as [(H3 & [H9|(H9 & _)])|(p' & d' & H9 & _)]; [|by split_and!|done]. by rewrite H9.
Qed.

(** What sending a packet does to a sink that may hold one from before. *)
Lemma send_law fuel p s r s' : fine s -> sink_send_packet fuel p s = Some (r, s') -> fine s' /\
  exists qs ds, out s' = out s ++ ds /\ Forall2 carries qs ds /\ (qs ++ option_list (held s')) `sublist_of` (option_list (held s) ++ [p]) /\
    (is_ok r = true -> held s' = None /\ exists qs0, qs = qs0 ++ [p]).
Proof.
  intros Hfine. unfold sink_send_packet. destruct (wait fuel ps_ready s) as [[r1 s1]|] eqn:E1; [|done].
  destruct (wait_law _ (sk_ready carries out held fine) _ _ _ _ Hfine E1) as (Hf1 & H1 & H2).
  (* the readiness hands over what was held, or nothing *)
  assert (exists qs ds, out s1 = out s ++ ds /\ Forall2 carries qs ds /\ (qs ++ option_list (held s1)) `sublist_of` option_list (held s)) as (qs1 & ds1 & Ho & Hc & Hsub).
  { destruct H1 as [(H1 & [H3|(H3 & _)])|(q & d & H3 & H4 & H5 & H6)].
    - exists [], []. rewrite app_nil_r, H3. by split_and!.
    - exists [], []. rewrite app_nil_r, H3. split_and!; [done|constructor|apply sublist_nil_l].
    - exists [q], [d]. rewrite H3, H4. split_and!; [done|by constructor|done]. }
  assert (forall u, r1 = Ok u -> exists s0, fine s0 /\ ps_ready s0 = (Ready (Ok tt), s1)) as Hready.
  { intros [] ->. clear -E1 Hfine SL. revert s Hfine E1. induction fuel as [|fuel IH]; intros s Hfine; [done|]. cbn [wait].
    destruct (ps_ready s) as [[rr|] s2] eqn:E; [|apply IH; exact (proj1 (sk_ready carries out held fine _ _ _ Hfine E))].
    intros [= -> ->]. by exists s. }
  destruct r1 as [[]|e|].
  2, 3: intros [= <- <-]; split; [done|]; exists qs1, ds1; split_and!; [done|done|by apply sublist_inserts_r|done].
  destruct (Hready tt eq_refl) as (s0 & Hf0 & Hs0). rewrite (H2 eq_refl) in Hsub. cbn in Hsub. rewrite app_nil_r in Hsub.
  destruct (ps_start p s1) as [r2 s2] eqn:E2. destruct (sk_start carries out held fine _ _ _ _ _ Hf0 Hs0 E2) as [Hf2 H3].
  destruct r2 as [[]|e|].
  2, 3: destruct H3 as [H3 H4]; intros [= <- <-]; split; [done|]; exists qs1, ds1; rewrite H4, H3; cbn; rewrite app_nil_r; split_and!; [done|done|by apply sublist_inserts_r|done].
  intros E3. destruct (wait_law _ (sk_flush carries out held fine) _ _ _ _ Hf2 E3) as (Hf3 & H4 & H5). split; [done|].
  destruct H3 as [[H3 H6]|(H3 & d & H6 & H7)].
  - destruct H4 as [(H4 & [H8|(H8 & H9)])|(q & d & H8 & H9 & H10 & H11)].
    + exists qs1, ds1. rewrite H4, H6, H8, H3. split_and!; [done|done|by apply sublist_app|]. intros Hr. destruct r as [[]| |]; try done.
      specialize (H5 eq_refl). congruence.
    + exists qs1, ds1. rewrite H4, H6, H8. cbn. rewrite app_nil_r. split_and!; [done|done|by apply sublist_inserts_r|]. by destruct r as [[]| |].
    + rewrite H3 in H8. injection H8 as <-. exists (qs1 ++ [p]), (ds1 ++ [d]). rewrite H11, H6, Ho, H9, <- app_assoc. cbn. rewrite app_nil_r.
      split_and!; [done|apply Forall2_app; [done|by constructor]|by apply sublist_app|]. intros _. split; [done|by exists qs1].
  - exists (qs1 ++ [p]), (ds1 ++ [d]). assert (held s' = None /\ out s' = out s2) as [H8 H9].
    { destruct H4 as [(H4 & [H8|(H8 & _)])|(q & d' & H8 & _)]; [|done|congruence]. by rewrite H8. }
    rewrite H9, H7, Ho, H8, <- app_assoc. cbn. rewrite app_nil_r. split_and!; [done|apply Forall2_app; [done|by constructor]|by apply sublist_app|].
    intros _. split; [done|by exists qs1].
Qed.
Lemma forward_law fuel packets : forall s sent s', fine s -> forward fuel packets s = Some (sent, s') ->
  exists qs ds, out s' = out s ++ ds /\ Forall2 carries qs ds /\ sent `sublist_of` qs /\ qs `sublist_of` (option_list (held s) ++ packets).
Proof.
  induction packets as [|p packets IH]; intros s sent s' Hfine; cbn [forward].
  - intros [= <- <-]. exists [], []. rewrite !app_nil_r. split_and!; [done|done|done|apply sublist_nil_l].
  - destruct (sink_send_packet fuel p s) as [[r s1]|] eqn:E1; [|done]. destruct (forward fuel packets s1) as [[sent1 s2]|] eqn:E2; [|done].
    intros [= <- <-]. destruct (send_law _ _ _ _ _ Hfine E1) as (Hf1 & qs1 & ds1 & A1 & A2 & A3 & A4). destruct (IH _ _ _ Hf1 E2) as (qs2 & ds2 & B1 & B2 & B3 & B4).
    exists (qs1 ++ qs2), (ds1 ++ ds2). split_and!.
    + by rewrite B1, A1, app_assoc.
    + by apply Forall2_app.
    + destruct (is_ok r) eqn:Er; [|by apply sublist_inserts_l]. destruct (A4 eq_refl) as [_ [qs0 ->]]. rewrite <- app_assoc. cbn.
      apply sublist_inserts_l. by constructor.
    + etrans; [by apply sublist_app|]. rewrite app_assoc. change (p :: packets) with ([p] ++ packets). rewrite (app_assoc _ [p]).
      by apply sublist_app.
Qed.
End forward_spec.

(** ** The adapters keep the contract *)
Lemma no_condition (P Q : Prop) : P /\ Q -> True /\ P /\ Q.
Proof. done. Qed.
Section direct_laws.
Context {U : Type} {US : UdpSocket U} {UL : UdpSocketLaws U} {R : Type} (resolve_poll : bool -> str -> R -> Poll (res (option IpAddr)) * R).
Abbreviation direct := (OutboundDatagramImpl U R).
(** The data as it was, to the address, or to some address at the port of the
    name. *)
Definition direct_carries (p : UdpPacket) (d : list Z * SocketAddr) : Prop :=
  fst d = up_data p /\ match up_dst_addr p with Ip a => snd d = a | Domain _ port => sa_port (snd d) = port end.
Definition direct_out (d : direct) : list (list Z * SocketAddr) := us_sent (od_inner d).
Definition direct_held (d : direct) : option UdpPacket := if od_flushed d then None else od_pkt d.
Lemma od_address_inner dst d r d' : od_address resolve_poll dst d = (r, d') -> od_inner d' = od_inner d /\ od_flushed d' = od_flushed d /\ od_pkt d' = od_pkt d.
Proof.
  unfold od_address. destruct dst as [a|dom port]; [by intros [= _ <-]|]. destruct (us_local_v6 _); [|by intros [= _ <-]..].
  destruct (resolve_poll _ _ _) as [[[[ip|]|e|]|] r1]; by intros [= _ <-].
Qed.
Lemma od_address_ok dst d a d' : od_address resolve_poll dst d = (Ready (Ok a), d') -> match dst with Ip b => a = b | Domain _ port => sa_port a = port end.
Proof.
  unfold od_address. destruct dst as [b|dom port]; [by intros [= <- _]|]. destruct (us_local_v6 _); [|done..].
  destruct (resolve_poll _ _ _) as [[[[ip|]|e|]|] r1]; try done. intros [= <- _]. by destruct ip.
Qed.
Lemma od_flush_law : poll_law direct_carries direct_out direct_held (fun _ => True) (od_flush resolve_poll).
Proof.
  intros d r d' _. intros H. apply no_condition. revert H. unfold od_flush, direct_held, direct_out. destruct (od_flushed d) eqn:Ef.
  { intros [= <- <-]. rewrite Ef. split; [left; auto|done]. }
  destruct (od_pkt d) as [p|] eqn:Ep; [|intros [= <- <-]; rewrite Ef, Ep; split; [left; auto|done]].
  destruct (od_address resolve_poll (up_dst_addr p) d) as [ra d1] eqn:Ea. destruct (od_address_inner _ _ _ _ Ea) as (I1 & I2 & I3).
  assert (forall r0, r0 <> Ready (Ok tt) -> (r0, d1) = (r, d') -> ((us_sent (od_inner d') = us_sent (od_inner d) /\
    ((if od_flushed d' then None else od_pkt d') = Some p \/ ((if od_flushed d' then None else od_pkt d') = None /\ r <> Pending /\ r <> Ready (Ok tt)))) \/
    exists p0 d0, Some p = Some p0 /\ (if od_flushed d' then None else od_pkt d') = None /\ direct_carries p0 d0 /\ us_sent (od_inner d') = us_sent (od_inner d) ++ [d0]) /\
    (r = Ready (Ok tt) -> (if od_flushed d' then None else od_pkt d') = None)) as Hkeep.
  { intros r0 Hr [= <- <-]. rewrite I1, I2, I3, Ef, Ep. split; [left; auto|done]. }
  destruct ra as [[a|e|]|]; [|by apply Hkeep..]. clear Hkeep.
  destruct (us_send_to (up_data p) a (od_inner d1)) as [ru u] eqn:Eu. pose proof (us_whole _ _ _ _ _ Eu) as Hu. rewrite I1 in Hu.
  destruct ru as [[n|e|]|].
  - destruct Hu as [-> Hu]. rewrite Nat.eqb_refl. intros [= <- <-]. cbn. split; [|done]. right. exists p, (up_data p, a).
    split_and!; [done|done|split; [done|by eapply od_address_ok]|done].
  - intros [= <- <-]. cbn. rewrite I2, I3, Ef, Ep. split; [left; auto|done].
  - intros [= <- <-]. cbn. rewrite I2, I3, Ef, Ep. split; [left; auto|done].
  - intros [= <- <-]. cbn. rewrite I2, I3, Ef, Ep. split; [left; auto|done].
Qed.
#[export] Instance direct_sink_laws : @SinkLaws _ (direct_sink resolve_poll) _ direct_carries direct_out direct_held (fun _ => True).
Proof.
  split; [| exact od_flush_law|].
  - intros d r d' Hfine. cbn. unfold od_ready. destruct (od_flushed d) eqn:Ef; [|by apply od_flush_law].
    intros [= <- <-]. unfold direct_held. rewrite Ef. split_and!; [done|left; auto|done].
  - intros d0 p d r d' _ _ [= <- <-]. split; [done|]. by left.
Qed.
(** A resolution that needs to be polled twice never ends: every poll starts
    it anew. *)
Lemma fresh_resolution_never_ends fuel d p dom port : od_flushed d = false -> od_pkt d = Some p -> up_dst_addr p = Domain dom port ->
  (forall u v6, us_local_v6 u = Ok v6 -> forall r, exists r', resolve_poll v6 dom r = (Pending, r')) -> (exists v6, us_local_v6 (od_inner d) = Ok v6) ->
  wait fuel (od_flush resolve_poll) d = None.
Proof.
  intros Hf Hp Hd Hr [v6 Hv]. revert d Hf Hp Hv. induction fuel as [|fuel IH]; intros d Hf Hp Hv; [done|]. cbn [wait].
  unfold od_flush at 1. rewrite Hf, Hp, Hd. unfold od_address. rewrite Hv. destruct (Hr _ _ Hv (od_resolver d)) as [r' ->].
  apply IH; done.
Qed.
End direct_laws.

Section vmess_laws.
Context {W : Type} {AR : AsyncRead W} {AW : AsyncWrite W} (w_out : W -> list (list Z)).
(** The stream takes a packet whole, which the VMess stream does up to the
    size of its chunks. *)
Hypothesis write_whole : forall bs w r w', poll_write bs w = (r, w') ->
  match r with Ready (Ok n) => n = length bs /\ w_out w' = w_out w ++ [bs] | _ => w_out w' = w_out w end.
Hypothesis flush_keeps : forall w r w', poll_flush w = (r, w') -> w_out w' = w_out w.
Abbreviation vm := (OutboundDatagramVmess W).
Definition vmess_carries (p : UdpPacket) (d : list Z) : Prop := d = up_data p.
Definition vmess_out (d : vm) : list (list Z) := w_out (dv_inner d).
Definition vmess_held (d : vm) : option UdpPacket := if dv_flushed d then None else match dv_written d with Some _ => None | None => dv_pkt d end.
(** What was written is forgotten with the packet. *)
Definition vmess_fine (d : vm) : Prop := dv_flushed d = true -> dv_written d = None.
Lemma dv_finish_law p n d r d' : dv_finish p n d = (r, d') -> vmess_fine d' /\ vmess_out d' = vmess_out d /\ vmess_held d' = None.
Proof.
  unfold dv_finish, vmess_out, vmess_held, vmess_fine. destruct (poll_flush (dv_inner d)) as [[[[]|e|]|] w] eqn:E; apply flush_keeps in E; by intros [= _ <-].
Qed.
Lemma dv_flush_law : poll_law vmess_carries vmess_out vmess_held vmess_fine dv_flush.
Proof.
  intros d r d' Hfine. unfold dv_flush. destruct (dv_flushed d) eqn:Ef.
  { intros [= <- <-]. unfold vmess_held. rewrite Ef. split; [done|]. split; [left; auto|done]. }
  destruct (dv_pkt d) as [p|] eqn:Ep.
  2: { intros [= <- <-]. split; [done|]. split; [left; auto|done]. }
  destruct (bool_decide (up_dst_addr p = dv_remote_addr d)); cbn [negb].
  2: { intros [= <- <-]. split; [done|]. split; [left; auto|done]. }
  unfold vmess_held at 2 4. rewrite Ef, Ep. destruct (dv_written d) as [n|] eqn:Ew.
  { intros H. destruct (dv_finish_law _ _ _ _ _ H) as (H0 & H1 & H2). rewrite H1, H2. split; [done|]. split; [left; auto|done]. }
  destruct (poll_write (up_data p) (dv_inner d)) as [rw w] eqn:Eq. pose proof (write_whole _ _ _ _ Eq) as Hw.
  destruct rw as [[n|e|]|].
  - destruct Hw as [-> Hw]. intros H. destruct (dv_finish_law _ _ _ _ _ H) as (H0 & H1 & H2). split; [done|]. split; [|done]. right. exists p, (up_data p).
    rewrite H1, H2. split_and!; [done|done|done|exact Hw].
  - intros [= <- <-]. unfold vmess_out, vmess_held, vmess_fine. cbn. split; [done|]. split; [left; auto|done].
  - intros [= <- <-]. unfold vmess_out, vmess_held, vmess_fine. cbn. split; [done|]. split; [left; auto|done].
  - intros [= <- <-]. unfold vmess_out, vmess_held, vmess_fine. cbn. split; [done|]. split; [left; auto|done].
Qed.
(** A sink that has been ready is flushed. *)
Lemma dv_ready_clean d r d' : vmess_fine d -> dv_ready d = (r, d') -> r = Ready (Ok tt) -> dv_flushed d' = true /\ dv_written d' = None.
Proof.
  unfold vmess_fine. intros Hd. unfold dv_ready, dv_flush. destruct (dv_flushed d) eqn:Ef; [intros [= <- <-] _; auto|]. destruct (dv_pkt d) as [p|]; [|by intros [= <- _]].
  destruct (negb _); [by intros [= <- _]|].
  assert (forall n d0, dv_finish p n d0 = (r, d') -> r = Ready (Ok tt) -> dv_flushed d' = true /\ dv_written d' = None) as Hfin.
  { intros n d0. unfold dv_finish. destruct (poll_flush (dv_inner d0)) as [[[[]|e|]|] w]; try by intros [= <- _]. by intros [= _ <-]. }
  destruct (dv_written d); [apply Hfin|]. destruct (poll_write _ _) as [[[n|e|]|] w]; [apply Hfin|by intros [= <- _]..].
Qed.
Lemma vmess_sink_laws : SinkLaws vmess_carries vmess_out vmess_held vmess_fine.
Proof.
  split; [|exact dv_flush_law|].
  - intros d r d' Hfine H. cbn in H. unfold dv_ready in H. destruct (dv_flushed d) eqn:Ef; [|by apply dv_flush_law].
    injection H as <- <-. unfold vmess_held. rewrite Ef. split_and!; [done|left; auto|done].
  - intros d0 p d r d' Hfine Hr [= <- <-]. destruct (dv_ready_clean _ _ _ Hfine Hr eq_refl) as [H1 H2]. split; [done|]. left.
    unfold vmess_held, vmess_out. cbn. by rewrite H2.
Qed.
(** A packet for another destination stays in the sink, which fails from then
    on. *)
Lemma mismatch_stays d p : dv_flushed d = false -> dv_pkt d = Some p -> up_dst_addr p <> dv_remote_addr d ->
  dv_ready d = (Ready (Err "udp packet dst_addr not match"), d) /\ dv_flush d = (Ready (Err "udp packet dst_addr not match"), d).
Proof. intros Hf Hp Hn. unfold dv_ready, dv_flush. rewrite Hf, Hp, bool_decide_eq_false_2 by done. done. Qed.
(** The end of the stream is an empty packet, and another, without end. *)
Lemma end_is_empty_packet d w : poll_read 65535 (dv_inner d) = (Ready (Ok []), w) ->
  fst (dv_next d) = Ready (Some {| up_data := []; up_src_addr := dv_remote_addr d; up_dst_addr := any_ipv4 |}).
Proof. intros H. unfold dv_next. by rewrite H. Qed.
End vmess_laws.

(** The queues of WireGuard and tun. *)
#[export] Instance wg_sink_laws : SinkLaws eq (fun u : UdpPair => ch_items (ud_send u)) (fun u => if ud_flushed u then None else ud_pkt u) (fun _ => True).
Proof.
  assert (poll_law eq (fun u : UdpPair => ch_items (ud_send u)) (fun u => if ud_flushed u then None else ud_pkt u) (fun _ => True) udp_pair_flush) as Hf.
  { intros u r u' _ H. apply no_condition. revert H. unfold udp_pair_flush, chan_try_send.
    destruct (ud_flushed u) eqn:Ef; cbn [negb]; [intros [= <- <-]; rewrite Ef; split; [left; auto|done]|].
    destruct (ud_pkt u) as [p|] eqn:Ep; [|intros [= <- <-]; rewrite Ef, Ep; split; [left; auto|done]].
    destruct (negb (ch_receiver (ud_send u))); [intros [= <- <-]; rewrite Ef, Ep; split; [left; auto|done]|].
    destruct (_ <? _)%nat; intros [= <- <-]; cbn; [|rewrite Ef, Ep; split; [left; auto|done]]. split; [|done]. right. by exists p, p. }
  split; [|exact Hf|].
  - intros u r u' _ H. cbn in H. unfold udp_pair_ready in H. destruct (negb (ud_flushed u)) eqn:Ef; [by apply Hf|].
    injection H as <- <-. apply negb_false_iff in Ef. rewrite Ef. split_and!; [done|left; auto|done].
  - intros u0 p u r u' _ _ [= <- <-]. split; [done|]. by left.
Qed.
#[export] Instance tun_sink_laws : SinkLaws eq (fun d : TunDatagram => ch_sent (td_tx d)) (fun d => if td_flushed d then None else td_pkt d) (fun _ => True).
Proof.
  assert (poll_law eq (fun d : TunDatagram => ch_sent (td_tx d)) (fun d => if td_flushed d then None else td_pkt d) (fun _ => True)
    (fun d => let '(r, d) := tun_poll_flush d in (Ready r, d))) as Hf.
  { intros d r d' _ H. apply no_condition. revert H. unfold tun_poll_flush, try_send.
    destruct (td_flushed d) eqn:Ef; [intros [= <- <-]; rewrite Ef; split; [left; auto|done]|].
    destruct (td_pkt d) as [p|] eqn:Ep; [|intros [= <- <-]; rewrite Ef, Ep; split; [left; auto|done]].
    destruct (_ && _); intros [= <- <-]; cbn; [|rewrite Ef, Ep; split; [left; auto|done]]. split; [|done]. right. by exists p, p. }
  split; [|exact Hf|].
  - intros d r d' _ H. cbn in H. unfold tun_poll_ready in H. destruct (negb (td_flushed d)) eqn:Ef; [by apply Hf|].
    injection H as <- <-. apply negb_false_iff in Ef. rewrite Ef. split_and!; [done|left; auto|done].
  - intros d0 p d r d' _ _ [= <- <-]. split; [done|]. by left.
Qed.

(** C32: the datagrams of a direct connection.  Whatever the socket and the
    resolver do, when the task of the dispatcher has put its packets through
    the adapter, what went out are packets of its input in their order, each
    at most once, with its data unchanged, and to its address or to the port
    of its name; and every packet whose sending was reported a success is
    among them. *)
Theorem direct_datagrams_delivered {U R : Type} {US : UdpSocket U} (UL : UdpSocketLaws U) (resolve_poll : bool -> str -> R -> Poll (res (option IpAddr)) * R)
    (udp : U) (r : R) (fuel : nat) (packets sent : list UdpPacket) (d' : OutboundDatagramImpl U R)
    (Hf : @forward _ (direct_sink resolve_poll) fuel packets (outbound_datagram_new udp r) = Some (sent, d')) :
  exists qs ds, us_sent (od_inner d') = us_sent udp ++ ds /\
    Forall2 (fun p d => fst d = up_data p /\ match up_dst_addr p with Ip a => snd d = a | Domain _ port => sa_port (snd d) = port end) qs ds /\
    sent `sublist_of` qs /\ qs `sublist_of` packets.
Proof.
  destruct (@forward_law _ (direct_sink resolve_poll) _ _ _ _ _ (direct_sink_laws resolve_poll) fuel packets _ _ _ I Hf) as (qs & ds & H1 & H2 & H3 & H4).
  exists qs, ds. split_and!; [exact H1|exact H2|done|exact H4].
Qed.

(** The same for VMess, when the stream takes packets whole. *)
Lemma vmess_datagrams_delivered {W : Type} {AR : AsyncRead W} {AW : AsyncWrite W} (w_out : W -> list (list Z)) inner remote fuel packets sent d' :
  (forall bs w r w', poll_write bs w = (r, w') ->
     match r with Ready (Ok n) => n = length bs /\ w_out w' = w_out w ++ [bs] | _ => w_out w' = w_out w end) ->
  (forall w r w', poll_flush w = (r, w') -> w_out w' = w_out w) ->
  forward fuel packets (vmess_datagram_new inner remote) = Some (sent, d') ->
  exists qs, w_out (dv_inner d') = w_out inner ++ map up_data qs /\ sent `sublist_of` qs /\ qs `sublist_of` packets.
Proof.
  intros Hw Hfl Hf. destruct (forward_law _ _ _ _ (SL := vmess_sink_laws w_out Hw Hfl) fuel packets (vmess_datagram_new inner remote) sent d' (fun _ => eq_refl) Hf) as (qs & ds & H1 & H2 & H3 & H4).
  exists qs. split_and!; [|done|exact H4]. unfold vmess_out in H1. cbn in H1. rewrite H1. f_equal.
  clear -H2. induction H2 as [|p d qs ds Hc _ IH]; [done|]. cbn. by rewrite Hc, IH.
Qed.

Section shadowsocks_laws.
Context {X : Type} {PX : ProxySocket X} {XL : ProxySocketLaws X} (address_of : str -> Z -> SsAddress).
(** The packets of a session are numbered from 0, without a gap. *)
Definition numbered (d : SsDatagram X) : Prop := 0 <= sd_packet_id d /\ map (fun x => snd (fst x)) (px_sent (sd_inner d)) = seqZ 0 (sd_packet_id d).
Lemma ss_send_numbered to addr p d r d' : sd_packet_id d + 1 < 2 ^ 64 -> ss_send to addr p d = (r, d') -> numbered d -> numbered d'.
Proof.
  intros Hid H [Hn Hs]. unfold ss_send in H. destruct (px_send_to _ _ _ _ _) as [rx x] eqn:E. pose proof (px_whole _ _ _ _ _ _ _ E) as Hx.
  assert (forall q, px_sent x = px_sent (sd_inner d) -> numbered (sd_put x false q (sd_packet_id d) d)) as Hk.
  { intros q Hq. unfold numbered. cbn. by rewrite Hq. }
  destruct rx as [[n|e|]|]; try (injection H as _ <-; by apply Hk).
  destruct Hx as [-> Hx]. destruct (Z.ltb_spec (sd_packet_id d + 1) (2 ^ 64)); [|lia]. injection H as _ <-. unfold numbered. cbn. split; [lia|].
  rewrite Hx, map_app, Hs. cbn. rewrite seqZ_app by lia. by rewrite Z.add_0_l.
Qed.
Lemma sd_flush_numbered d r d' : sd_packet_id d + 1 < 2 ^ 64 -> sd_flush address_of d = (r, d') -> numbered d -> numbered d'.
Proof.
  intros Hid H. unfold sd_flush in H. destruct (sd_flushed d); [by injection H as _ <-|]. destruct (sd_pkt d); [|by injection H as _ <-].
  by eapply ss_send_numbered.
Qed.
(** On the server a datagram that does not decrypt makes the stream wait,
    with nothing to wake it: the socket was ready and has registered nobody. *)
Lemma bad_datagram_stalls d e x : px_recv_from (sd_inner d) = (Ready (Err e), x) -> fst (ss_inbound_next d) = Pending.
Proof. intros H. unfold ss_inbound_next. by rewrite H. Qed.
(** On the client it ends the stream. *)
Lemma bad_datagram_ends d e x : px_recv (sd_inner d) = (Ready (Err e), x) -> fst (sd_next d) = Ready None.
Proof. intros H. unfold sd_next. by rewrite H. Qed.
End shadowsocks_laws.

(** A datagram read in pieces is read in order. *)
Lemma io_recv_exact {S} (next : S -> Poll (option UdpPacket) * S) cap io p s io' bs : io_remained io = [] -> next (io_inner io) = (Ready (Some p), s) ->
  io_recv next cap io = (Ready (Ok bs), io') -> up_data p = bs ++ io_remained io'.
Proof. intros H0 Hn. unfold io_recv. rewrite H0, bool_decide_eq_false_2, Hn by tauto. intros [= <- <-]. cbn. by rewrite take_drop. Qed.

(** A tunnel reports a packet as sent when the socket has only become
    writable; the packet stays, and the next one is waited for with nothing
    to wake the waiter. *)
Lemma tunnel_flush_unsent {U} (try_send_to : list Z -> SocketAddr -> U -> TrySendTo * U) poll_send_ready s data a u :
  tu_send_buf s = Some (data, a) -> try_send_to data a (tu_socket s) = (WouldBlock, u) -> poll_send_ready u = Ready (Ok tt) ->
  exists s', tu_flush try_send_to poll_send_ready s = (Ready (Ok tt), s') /\ tu_send_buf s' = Some (data, a) /\ fst (tu_ready s') = Pending.
Proof. intros H1 H2 H3. unfold tu_flush. rewrite H1, H2, H3. eexists. split; [reflexivity|]. split; [done|]. unfold tu_ready. cbn. done. Qed.

(** ** A socket that waits every other time *)
Section datagram_witness.
Record PlainUdp : Type := { pu_sent : list (list Z * SocketAddr); pu_wait : bool }.
#[local] Instance plain_udp : UdpSocket PlainUdp := {|
  us_send_to := fun bs a u =>
    if pu_wait u then (Pending, {| pu_sent := pu_sent u; pu_wait := false |})
    else (Ready (Ok (length bs)), {| pu_sent := pu_sent u ++ [(bs, a)]; pu_wait := true |});
  us_recv_from := fun u => (Pending, u);
  us_local_v6 := fun _ => Ok false;
  us_sent := pu_sent;
|}.
#[local] Instance plain_udp_laws : UdpSocketLaws PlainUdp.
Proof. intros bs a u r u'. cbn. destruct (pu_wait u); by intros [= <- <-]. Qed.
(** A resolver that knows one name. *)
Definition demo_resolve (v6 : bool) (name : str) (_ : unit) : Poll (res (option IpAddr)) * unit :=
  (Ready (Ok (if bool_decide (name = lit "a") then Some (V4 7) else None)), tt).
Definition demo_packets : list UdpPacket :=
  [ {| up_data := [1]; up_src_addr := any_ipv4; up_dst_addr := Ip (SV4 9 53) |};
    {| up_data := [2]; up_src_addr := any_ipv4; up_dst_addr := Domain (lit "a") 80 |} ].
Lemma direct_datagrams_delivered_witness :
  exists sent d', @forward _ (direct_sink demo_resolve) 3 demo_packets (outbound_datagram_new {| pu_sent := []; pu_wait := true |} tt) = Some (sent, d') /\
    us_sent (od_inner d') = [([1], SV4 9 53); ([2], SV4 7 80)] /\
    exists qs ds, us_sent (od_inner d') = ds /\ sent `sublist_of` qs /\ qs `sublist_of` demo_packets.
Proof.
  do 2 eexists. split; [vm_compute; reflexivity|]. split; [reflexivity|].
  destruct (direct_datagrams_delivered plain_udp_laws demo_resolve {| pu_sent := []; pu_wait := true |} tt 3 demo_packets _ _ eq_refl) as (qs & ds & H1 & _ & H3 & H4).
  exists qs, ds. split_and!; [exact H1|exact H3|exact H4].
Defined.
End datagram_witness.
