(* ===== verification/Redirect.v ===== *)
(** * Redirected, tunnelled and Shadowsocks connections
    ([proxy/{redir,tproxy,tunnel}/mod.rs], [proxy/shadowsocks/inbound/mod.rs])

    The listeners that do not negotiate a destination: it is the original one
    of a redirected connection, the configured target of a tunnel, or in the
    first bytes of a Shadowsocks stream.  The sockets' calls are those of
    [Dial]; the datagrams of tproxy with the sockets their answers leave
    from. *)

From S2P Require Import Prelude F64 Str Net Session Inbound Tun Converters Dial.

(** ** Original destinations *)
(* @src clash-lib/src/proxy/redir/mod.rs 120 131 get_original_destination_addr (errors) *)
Definition not_ipv6 (errno : option Z) : bool :=
  match errno with Some e => bool_decide (e ∈ [92 (* ENOPROTOOPT *); 2 (* ENOENT *); 95 (* EOPNOTSUPP *)]) | None => false end.
(** What [getsockopt] gives: an address, or the number of an error; an
    address of another family is [None]. *)
Inductive SockOptResult : Type := GotAddr (a : option SocketAddr) | GotErrno (e : option Z).
(* @src clash-lib/src/proxy/redir/mod.rs ~^fn get_original_destination_addr~ get_original_destination_addr *)
Definition get_original_destination_addr (ip6 ip4 : SockOptResult) : res SocketAddr :=
  let as_socket a := or_panic a in
  match ip6 with
  | GotAddr a => as_socket a
  | GotErrno e =>
    if not_ipv6 e then match ip4 with GotAddr a => as_socket a | GotErrno _ => Err "getsockopt" end
    else Err "getsockopt"
  end.

(** ** One turn of the accept loops *)
(* @src clash-lib/src/proxy/redir/mod.rs 59 86 RedirInbound::listen_tcp (loop body) *)
Definition redir_accept (allow_lan : bool) (fw_mark : option Z) (now counter : Z) (original : res SocketAddr) (accepted : res Accepted) :
    res (option Session) :=
  c ← accepted;
  peer ← ac_peer c;
  let src_addr := to_canonical peer in
  refused ← from_lan allow_lan src_addr c;
  if (refused : bool) then Ok None
  else
    _ ← ac_options c;
    orig_dst ← original;
    Ok (Some (set_destination (Ip (to_canonical orig_dst)) (default_session now counter TRedir src_addr fw_mark))).
(** The local address of a transparent connection is its destination; who
    may connect is not checked. *)
(* @src clash-lib/src/proxy/tproxy/mod.rs 78 102 TproxyInbound::listen_tcp (loop body) *)
Definition tproxy_accept (fw_mark : option Z) (now counter : Z) (accepted : res Accepted) : res (option Session) :=
  c ← accepted;
  peer ← ac_peer c;
  _ ← ac_options c;
  orig_dst ← ac_local c;
  Ok (Some (set_destination (Ip (to_canonical orig_dst)) (default_session now counter TTproxy (to_canonical peer) fw_mark))).
(* @src clash-lib/src/proxy/tunnel/mod.rs 79 91 TunnelInbound::listen_tcp (loop body) *)
Definition tunnel_accept (target : SocksAddr) (fw_mark : option Z) (now counter : Z) (accepted : res Accepted) : res (option Session) :=
  c ← accepted;
  src_addr ← ac_peer c;
  _ ← ac_options c;
  d ← socks_clone target;
  Ok (Some (set_destination d (default_session now counter TTunnel (to_canonical src_addr) fw_mark))).

(** ** The Shadowsocks listener

    The handshake with a client is part of the turn: [None] is a client that
    does not send its first bytes.  The peer's address is asked for first by
    a message of level debug, with a [?]. *)
Record SsAccepted : Type := { sa_accepted : Accepted; sa_handshake : option (res SocksAddr) }.
Inductive Turn (A : Type) : Type := Served (a : A) | Skipped | Waits | Ends (e : string) | Panics.
Arguments Served {A} a.
Arguments Skipped {A}.
Arguments Waits {A}.
Arguments Ends {A} e.
Arguments Panics {A}.
(* @src clash-lib/src/proxy/shadowsocks/inbound/mod.rs 114 163 ShadowsocksInbound::listen_tcp (loop body) *)
Definition ss_turn (debug allow_lan : bool) (fw_mark : option Z) (now counter : Z) (accepted : res SsAccepted) : Turn Session :=
  match accepted with
  | Panic => Panics
  | Err _ => Skipped
  | Ok c =>
    match ac_peer (sa_accepted c) with
    | Panic => Panics
    | Err e => if debug then Ends e else Skipped
    | Ok src_addr =>
      match (if allow_lan then Ok false else l ← ac_local (sa_accepted c); Ok (negb (bool_decide (sa_ip src_addr = sa_ip l)))) with
      | Panic => Panics
      | Err e => Ends e
      | Ok true => Skipped
      | Ok false =>
        match sa_handshake c with
        | None => Waits
        | Some Panic => Panics
        | Some (Err _) => Skipped
        | Some (Ok target) =>
          match ac_options (sa_accepted c) with
          | Panic => Panics
          | Err _ => Skipped
          | Ok _ => Served (set_destination target (default_session now counter TShadowsocks (to_canonical src_addr) fw_mark))
          end
        end
      end
    end
  end.
(** The sessions of a sequence of connections, and how the loop is left. *)
Fixpoint ss_serve (debug allow_lan : bool) (fw_mark : option Z) (now counter : Z) (conns : list (res SsAccepted)) : list Session * Turn unit :=
  match conns with
  | [] => ([], Skipped)
  | c :: rest =>
    match ss_turn debug allow_lan fw_mark now counter c with
    | Served s => let '(l, t) := ss_serve debug allow_lan fw_mark now (counter + 1) rest in (s :: l, t)
    | Skipped => ss_serve debug allow_lan fw_mark now counter rest
    | Waits => ([], Waits)
    | Ends e => ([], Ends e)
    | Panics => ([], Panics)
    end
  end.

(** ** Listening sockets *)
Section sockets.
Context {CV : ConverterLib} {HO : Host}.
Definition call_when (b : bool) (o : SockOp) (s : Sock) : res Sock := if b then call o s else Ok s.
Definition is_v4 (a : SocketAddr) : bool := bool_decide (domain_for a = IPV4).
(* @src clash-lib/src/proxy/tproxy/mod.rs 64 73 TproxyInbound::listen_tcp (socket) *)
Definition tproxy_tcp_socket (addr : SocketAddr) : res Sock :=
  '(s, dualstack) ← try_create_dualstack_socket addr STREAM;
  s ← call_when (dualstack || is_v4 addr) TransparentV4 s;
  s ← call NonBlocking s;
  s ← call (Bind addr) s;
  call (Listen 1024) s.
(* @src clash-lib/src/proxy/tproxy/mod.rs ~^fn set_ip_recv_orig_dstaddr~ set_ip_recv_orig_dstaddr *)
Definition set_ip_recv_orig_dstaddr (level : Dom) (s : Sock) : res Sock := call (RecvOrigDst level) s.
(* @src clash-lib/src/proxy/tproxy/mod.rs 114 142 TproxyInbound::listen_udp (socket) *)
Definition tproxy_udp_socket (addr : SocketAddr) : res Sock :=
  '(s, dual_stack) ← try_create_dualstack_socket addr DGRAM;
  s ← call_when (dual_stack || is_v4 addr) TransparentV4 s;
  s ← call_when (negb (is_v4 addr)) TransparentV6 s;
  s ← call ReusePort s;
  s ← call NonBlocking s;
  s ← call Broadcast s;
  s ← set_ip_recv_orig_dstaddr (domain_for addr) s;
  s ← (if (dual_stack : bool) then set_ip_recv_orig_dstaddr IPV4 s else Ok s);
  call (Bind addr) s.
(** The sockets the answers leave from are bound to the address that
    answered, which is not of this host. *)
(* @src clash-lib/src/proxy/tproxy/mod.rs ~^fn bind_nonlocal_socket~ bind_nonlocal_socket *)
Definition bind_nonlocal_socket (src_addr : SocketAddr) : res Sock :=
  s ← socket_new (domain_for src_addr) DGRAM;
  s ← call (if is_v4 src_addr then TransparentV4 else TransparentV6) s;
  s ← call NonBlocking s;
  s ← call ReuseAddress s;
  call (Bind src_addr) s.
End sockets.

(** ** Datagrams of tproxy *)
(** What [recv_msg] tells of a read: the kernel may join datagrams of one
    length, the stride. *)
Record RecvMeta : Type := { rm_addr : SocketAddr; rm_len : nat; rm_stride : nat; rm_orig_dst : option SocketAddr }.
(** [slice::chunks], of a size that is not zero. *)
Fixpoint chunks_from (fuel n : nat) (l : list Z) : list (list Z) :=
  match fuel, l with
  | S fuel, _ :: _ => take n l :: chunks_from fuel n (drop n l)
  | _, _ => []
  end.
Definition chunks (n : nat) (l : list Z) : res (list (list Z)) := if bool_decide (n = 0%nat) then Panic else Ok (chunks_from (length l) n l).
(** [Ipv4Addr::is_broadcast] *)
Definition is_broadcast (ip : IpAddr) : bool := match ip with V4 a => a =? 0xFFFFFFFF | V6 _ => false end.
(** The packets of one read for the dispatcher. *)
(* @src clash-lib/src/proxy/tproxy/mod.rs 207 258 handle_inbound_datagram (tproxy to dispatcher) *)
Definition tproxy_packets (meta : RecvMeta) (buf : list Z) : res (list UdpPacket) :=
  match rm_orig_dst meta with
  | Some orig_dst =>
    if is_multicast (sa_ip orig_dst) || is_broadcast (sa_ip orig_dst) then Ok []
    else
      data ← ((if bool_decide (rm_len meta <= length buf)%nat then Ok (take (rm_len meta) buf) else Panic) : res (list Z));
      cs ← chunks (rm_stride meta) data;
      Ok ((fun chunk => {| up_data := chunk; up_src_addr := Ip (to_canonical (rm_addr meta)); up_dst_addr := Ip (to_canonical orig_dst) |}) <$> (cs : list (list Z)))
  | None => Ok []
  end.

(** The sockets of the answers, with the time of their last use.  A socket
    is its number; [rs_bound] what each was bound to, [rs_sent] what left. *)
Record Responders : Type := {
  responder_map : list (SocketAddr * (nat * Z)); rs_bound : list SocketAddr; rs_sent : list (nat * SocketAddr * list Z) }.
Definition responders_new : Responders := {| responder_map := []; rs_bound := []; rs_sent := [] |}.
Definition responder_of (a : SocketAddr) (l : list (SocketAddr * (nat * Z))) : option nat :=
  (fun e => e.2.1) <$> head (filter (fun e => e.1 = a) l).
Definition touch_responder (a : SocketAddr) (now : Z) (l : list (SocketAddr * (nat * Z))) : list (SocketAddr * (nat * Z)) :=
  (fun e => if bool_decide (e.1 = a) then (e.1, (e.2.1, now)) else e) <$> l.
(** A packet for a client; [bound] and [sent] are what the system says. *)
(* @src clash-lib/src/proxy/tproxy/mod.rs 289 329 handle_packet_from_dispatcher (packet) *)
Definition respond (now : Z) (bound sent : bool) (pkt : UdpPacket) (r : Responders) : res Responders :=
  src_addr ← must_into_socket_addr (up_src_addr pkt);
  let found := match responder_of src_addr (responder_map r) with
    | Some s => Some (s, touch_responder src_addr now (responder_map r), rs_bound r)
    | None =>
      if (bound : bool) then Some (length (rs_bound r), responder_map r ++ [(src_addr, (length (rs_bound r), now))], rs_bound r ++ [src_addr])
      else None
    end in
  match found with
  | None => Ok r
  | Some (s, m, b) =>
    dst ← must_into_socket_addr (up_dst_addr pkt);
    Ok {| responder_map := m; rs_bound := b; rs_sent := if sent then rs_sent r ++ [(s, dst, up_data pkt)] else rs_sent r |}
  end.
(** Every minute the sockets not used for one are dropped. *)
(* @src clash-lib/src/proxy/tproxy/mod.rs 330 334 handle_packet_from_dispatcher (sweep) *)
Definition sweep (now : Z) (r : Responders) : Responders :=
  {| responder_map := filter (fun e => as_secs (now - e.2.2) < 60) (responder_map r); rs_bound := rs_bound r; rs_sent := rs_sent r |}.
Inductive responders_step : Responders -> Responders -> Prop :=
| ResRespond now bound sent pkt r r' : respond now bound sent pkt r = Ok r' -> responders_step r r'
| ResSweep now r : responders_step r (sweep now r).

(** ** The end of a listener's datagrams

    The dispatcher's tasks for a datagram inbound end when the closer it
    returned is used; a closer that is dropped leaves them running. *)
Inductive Closer : Type := CloserHeld | CloserUsed | CloserDropped.
(* @src clash-lib/src/app/dispatcher/dispatcher_impl.rs 432 442 Dispatcher::dispatch_datagram (close) *)
Definition udp_tasks_run (c : Closer) : bool := match c with CloserUsed => false | _ => true end.
(** A tunnel drops its closer at once; [None]: it has no datagrams. *)
(* @src clash-lib/src/proxy/tunnel/mod.rs ~    async fn listen_udp~ TunnelInbound::listen_udp *)
Definition tunnel_closer (network : list str) : option Closer := if bool_decide (lit "udp" ∈ network) then Some CloserDropped else None.
(** A Shadowsocks listener keeps it as long as the listener is kept. *)
(* @src clash-lib/src/proxy/shadowsocks/inbound/mod.rs ~    async fn listen_udp~ ShadowsocksInbound::listen_udp *)
Definition ss_closer (kept : bool) : Closer := if kept then CloserHeld else CloserDropped.

(** * Theorems *)

(** ** Who may connect *)
(** A redirected connection from elsewhere than the host itself is refused
    unless the listener serves the LAN; one that is served is for its
    original destination. *)
Lemma redir_accept_spec allow_lan fw_mark now counter original c peer local orig :
  ac_peer c = Ok peer -> ac_local c = Ok local -> ac_options c = Ok tt -> original = Ok orig ->
  redir_accept allow_lan fw_mark now counter original (Ok c) =
    (if allow_lan || bool_decide (sa_ip (to_canonical peer) = ip_to_canonical (sa_ip local)) then
       Ok (Some (set_destination (Ip (to_canonical orig)) (default_session now counter TRedir (to_canonical peer) fw_mark)))
     else Ok None).
Proof.
  intros Hp Hl Ho ->. unfold redir_accept, from_lan. rstep. rewrite Hp. rstep. destruct allow_lan; rstep; [by rewrite Ho|].
  rewrite Hl. rstep. case_bool_decide; rstep; [by rewrite Ho|done].
Qed.
(** The original destination is asked of IPv4 only when the connection is
    not an IPv6 one. *)
Lemma original_destination_spec ip6 ip4 a : get_original_destination_addr ip6 ip4 = Ok a ->
  ip6 = GotAddr (Some a) \/ exists e, ip6 = GotErrno e /\ not_ipv6 e = true /\ ip4 = GotAddr (Some a).
Proof.
  unfold get_original_destination_addr. destruct ip6 as [[b|]|e]; cbn; [intros [= ->]; auto|done|].
  destruct (not_ipv6 e) eqn:E; [|done]. destruct ip4 as [[b|]|]; cbn; [|done..]. intros [= ->]. eauto.
Qed.

(** ** A stalled client *)
(** A client that does not send its first bytes keeps every later client of
    a Shadowsocks listener from being served. *)
Lemma stalled_client_blocks debug allow_lan fw_mark now before c after : forall counter,
  (forall n, ss_turn debug allow_lan fw_mark now n c = Waits) ->
  ss_serve debug allow_lan fw_mark now counter (before ++ c :: after) = ss_serve debug allow_lan fw_mark now counter (before ++ [c]).
Proof.
  induction before as [|b before IH]; intros counter Hc; cbn [app ss_serve]; [by rewrite Hc|].
  destruct (ss_turn debug allow_lan fw_mark now counter b); rewrite ?IH by done; done.
Qed.

(** ** Packets *)
Lemma chunks_from_spec n l : (0 < n)%nat -> forall fuel, (length l <= fuel)%nat ->
  concat (chunks_from fuel n l) = l /\ Forall (fun c => 0 < length c <= n)%nat (chunks_from fuel n l).
Proof.
  intros Hn fuel. revert l. induction fuel as [|fuel IH]; intros l Hl; destruct l as [|x l]; cbn [chunks_from concat]; [done|cbn in Hl; lia|done|].
  destruct (IH (drop n (x :: l))) as [I1 I2]; [rewrite length_drop; cbn in *; lia|]. split.
  - by rewrite I1, take_drop.
  - constructor; [|done]. rewrite length_take. cbn. lia.
Qed.
(** A read is split back into its datagrams: their bytes are those of the
    read, none is longer than the stride, and all are from the client to the
    original destination. *)
Lemma tproxy_packets_whole meta buf orig ps : rm_orig_dst meta = Some orig -> is_multicast (sa_ip orig) || is_broadcast (sa_ip orig) = false ->
  tproxy_packets meta buf = Ok ps ->
  concat (up_data <$> ps) = take (rm_len meta) buf /\
  Forall (fun p => (0 < length (up_data p) <= rm_stride meta)%nat /\ up_src_addr p = Ip (to_canonical (rm_addr meta)) /\ up_dst_addr p = Ip (to_canonical orig)) ps.
Proof.
  intros Ho Hm. unfold tproxy_packets. rewrite Ho, Hm. case_bool_decide; rstep; [|done]. unfold chunks. case_bool_decide as Hn; rstep; [done|].
  intros [= <-]. destruct (chunks_from_spec (rm_stride meta) (take (rm_len meta) buf)) with (fuel := length (take (rm_len meta) buf)) as [C1 C2]; [lia|done|].
  split.
  - rewrite <- list_fmap_compose. etrans; [|exact C1]. f_equal. apply list_fmap_id.
  - apply Forall_fmap. by apply (Forall_impl _ _ _ C2).
Qed.
(** A read whose stride is 0, as of an empty datagram, ends the task with a
    panic. *)
Lemma zero_stride_panics meta buf orig : rm_orig_dst meta = Some orig -> is_multicast (sa_ip orig) || is_broadcast (sa_ip orig) = false ->
  rm_stride meta = 0%nat -> tproxy_packets meta buf = Panic.
Proof. intros Ho Hm Hs. unfold tproxy_packets. rewrite Ho, Hm, Hs. by case_bool_decide. Qed.

(** ** Answers *)
Record responders_inv (r : Responders) : Prop := {
  ri_nodup : NoDup (responder_map r).*1;
  ri_bound : Forall (fun e => rs_bound r !! e.2.1 = Some e.1) (responder_map r);
}.
Lemma touch_keys a now l : (touch_responder a now l).*1 = l.*1.
Proof. unfold touch_responder. rewrite <- list_fmap_compose. apply list_fmap_ext. intros i e _. cbn. by case_bool_decide. Qed.
Lemma touch_bound (b : list SocketAddr) a now l :
  Forall (fun e => b !! e.2.1 = Some e.1) l -> Forall (fun e => b !! e.2.1 = Some e.1) (touch_responder a now l).
Proof. intros H. apply Forall_fmap. apply (Forall_impl _ _ _ H). intros e He. cbn. by case_bool_decide. Qed.
Lemma responder_of_Some a l s : responder_of a l = Some s -> exists t, (a, (s, t)) ∈ l.
Proof.
  unfold responder_of. destruct (filter _ l) as [|[a' [s' t]] l'] eqn:E; [done|]. cbn. intros [= ->]. exists t.
  assert ((a', (s, t)) ∈ filter (fun e => e.1 = a) l) as [<- Hin]%list_elem_of_filter by (rewrite E; left). done.
Qed.
Lemma responder_of_None a l : responder_of a l = None -> a ∉ l.*1.
Proof.
  unfold responder_of. destruct (filter _ l) as [|x l'] eqn:E; [|done]. intros _ ([a' v] & -> & Hin)%list_elem_of_fmap. cbn in E.
  assert ((a', v) ∈ filter (fun e : SocketAddr * (nat * Z) => e.1 = a') l) as H by (by apply list_elem_of_filter). rewrite E in H. by apply elem_of_nil in H.
Qed.
(** The packet leaves from a socket bound to the address it answers from, to
    its destination, with its bytes; a socket is made only for an address
    that has none. *)
Lemma respond_spec now bound sent pkt r r' : responders_inv r -> respond now bound sent pkt r = Ok r' ->
  responders_inv r' /\
  (rs_sent r' = rs_sent r \/ exists s src dst, up_src_addr pkt = Ip src /\ up_dst_addr pkt = Ip dst /\
     rs_sent r' = rs_sent r ++ [(s, dst, up_data pkt)] /\ rs_bound r' !! s = Some src).
Proof.
  intros [Hn Hb] H. unfold respond in H. apply res_bind_ok in H as (src & Hsrc & H).
  assert (up_src_addr pkt = Ip src) as Hs by (destruct (up_src_addr pkt) as [a|d p]; cbn in Hsrc; [by injection Hsrc as ->|by destruct (try_from_host_port d p) as [[]| |]]).
  destruct (responder_of src (responder_map r)) as [s|] eqn:E.
  - apply res_bind_ok in H as (dst & Hdst & [= <-]). apply responder_of_Some in E as [t Hin].
    split; [split; cbn; [by rewrite touch_keys|by apply touch_bound]|]. cbn. destruct sent; [right|by left]. exists s, src, dst. split_and!; [done| |done|].
    + destruct (up_dst_addr pkt) as [a|d p]; cbn in Hdst; [by injection Hdst as ->|by destruct (try_from_host_port d p) as [[]| |]].
    + rewrite Forall_forall in Hb. by apply (Hb _ Hin).
  - destruct bound; [|injection H as <-; split; [by split|by left]]. apply res_bind_ok in H as (dst & Hdst & [= <-]). apply responder_of_None in E. split.
    + split; cbn.
      * rewrite fmap_app. apply NoDup_app. split_and!; [done| |by apply NoDup_singleton]. intros a Ha ->%list_elem_of_singleton. done.
      * apply Forall_app. split; [|constructor; [|done]]; [|cbn; by rewrite lookup_app_r, Nat.sub_diag by done].
        apply (Forall_impl _ _ _ Hb). intros e He. by apply lookup_app_l_Some.
    + cbn. destruct sent; [right|by left]. exists (length (rs_bound r)), src, dst. split_and!; [done| |done|by rewrite lookup_app_r, Nat.sub_diag by done].
      destruct (up_dst_addr pkt) as [a|d p]; cbn in Hdst; [by injection Hdst as ->|by destruct (try_from_host_port d p) as [[]| |]].
Qed.
Lemma sweep_inv now r : responders_inv r -> responders_inv (sweep now r).
Proof.
  intros [Hn Hb]. split; cbn.
  - eapply sublist_NoDup; [exact Hn|]. apply fmap_sublist, sublist_filter.
  - apply Forall_forall. intros e [_ He]%list_elem_of_filter. rewrite Forall_forall in Hb. by apply Hb.
Qed.
Lemma responders_reachable r : rtc responders_step responders_new r -> responders_inv r.
Proof.
  assert (responders_inv responders_new) as H0 by (split; [apply NoDup_nil_2|done]). revert H0. generalize responders_new as r0.
  intros r0 H0 Hr. induction Hr as [|r0 r1 r2 Hs _ IH]; [done|]. apply IH. destruct Hs as [now bound sent pkt r r' H|now r]; [|by apply sweep_inv].
  by apply (respond_spec _ _ _ _ _ _ H0 H).
Qed.
(** After a sweep only sockets used in the last minute are left. *)
Lemma sweep_recent now r a s t : (a, (s, t)) ∈ responder_map (sweep now r) <-> (a, (s, t)) ∈ responder_map r /\ as_secs (now - t) < 60.
Proof. cbn. rewrite list_elem_of_filter. naive_solver. Qed.

(** Stopping a tunnel or a Shadowsocks listener does not stop its datagrams:
    their tasks, and the socket they own, go on. *)
Lemma udp_outlives_listener network : (forall c, tunnel_closer network = Some c -> udp_tasks_run c = true) /\ udp_tasks_run (ss_closer false) = true.
Proof. split; [|done]. unfold tunnel_closer. intros c. case_bool_decide; [|done]. by intros [= <-]. Qed.
