(* ===== verification/Dhcp.v ===== *)
(** * DNS servers from DHCP and DNS over an outbound
    ([app/dns/{dhcp,runtime}.rs])

    The client of an interface's DHCP server with its two leases, the probe
    for an offer, and the socket through which DNS queries are sent over an
    outbound.  The client of the servers found is that of [Resolver]. *)

From S2P Require Import Prelude Str Net Session Async SuccinctSet DnsConfig Converters Dial Datagrams.

(** ** The probe *)
Fixpoint hex_digits (acc : Z) (s : str) : option Z :=
  match s with
  | [] => Some acc
  | c :: s' => d ← to_digit 16 c; let v := 16 * acc + d in if v <=? 255 then hex_digits v s' else None
  end.
(** [u8::from_str_radix] with base 16. *)
Definition parse_hex_u8 (s : str) : option Z :=
  match s with
  | [] => None
  | [c] => to_digit 16 c
  | c :: s' => if c =? 43 then hex_digits 0 s' else hex_digits 0 s
  end.
(* @src clash-lib/src/app/dns/dhcp.rs 185 196 probe_dns_server (hardware address) *)
Definition hardware_address (mac : option str) : res (list Z) :=
  mac ← ok_or mac "no MAC address on interface";
  ok_or (mapM parse_hex_u8 (split_on 58 mac)) "malformed MAC addr".

Inductive MessageType : Type := Discover | Offer | OtherType.
#[global] Instance message_type_eq_dec : EqDecision MessageType.
Proof. solve_decision. Defined.
Inductive OptionCode : Type := SubnetMask | DhcpRouter | DomainNameServer | DomainName.
Record DhcpDiscover : Type := { dd_broadcast : bool; dd_chaddr : list Z; dd_type : MessageType; dd_requested : list OptionCode }.
(* @src clash-lib/src/app/dns/dhcp.rs 198 212 probe_dns_server (message) *)
Definition discover (mac_address : list Z) : DhcpDiscover :=
  {| dd_broadcast := true; dd_chaddr := mac_address; dd_type := Discover;
     dd_requested := [SubnetMask; DhcpRouter; DomainNameServer; DomainName] |}.
(** What is read of a reply. *)
Record DhcpReply : Type := { dr_type : option MessageType; dr_xid : Z; dr_servers : option (list Z) }.
(** The servers of the first offer that answers the probe; datagrams that do
    not parse are [None].  [None]: none of these does. *)
(* @src clash-lib/src/app/dns/dhcp.rs 226 262 probe_dns_server (response) *)
Fixpoint get_response (xid : Z) (replies : list (option DhcpReply)) : option (list Z) :=
  match replies with
  | [] => None
  | Some reply :: rest =>
    if bool_decide (dr_type reply = Some Offer) && (dr_xid reply =? xid) then
      match dr_servers reply with Some dns => Some dns | None => get_response xid rest end
    else get_response xid rest
  | None :: rest => get_response xid rest
  end.
Section probe.
Context {CV : ConverterLib} {HO : Host}.
(** Port 68 of the broadcast address, on Linux. *)
(* @src clash-lib/src/app/dns/dhcp.rs ~^async fn listen_dhcp_client~ listen_dhcp_client *)
Definition listen_dhcp_client (i : OutboundInterface) : res Sock :=
  new_udp_socket (Some (SV4 0xFFFFFFFF 68)) (Some i) None None.
(** [sent]: the result of sending the discovery; [replies]: what arrives in
    ten seconds. *)
(* @src clash-lib/src/app/dns/dhcp.rs ~^async fn probe_dns_server~ probe_dns_server *)
Definition probe_dns_server (i : OutboundInterface) (sent : res unit) (xid : Z) (replies : list (option DhcpReply)) : res (list Z) :=
  _ ← listen_dhcp_client i;
  _ ← hardware_address (oi_mac_addr i);
  _ ← sent;
  ok_or (get_response xid replies) "dhcp timeout".
End probe.

(** ** The leases *)
(* @src clash-lib/src/app/dns/dhcp.rs 28 28 IFACE_TTL *)
Definition IFACE_TTL : Z := 20.
(* @src clash-lib/src/app/dns/dhcp.rs 29 29 DHCP_TTL *)
Definition DHCP_TTL : Z := 3600.
(** The bits of a mask of this length. *)
Definition netmask (prefix : Z) : Z := 2 ^ 32 - 2 ^ (32 - prefix).
Section lease.
Context {C : Type} (make_clients : list NameServer -> list C).
(* @src clash-lib/src/app/dns/dhcp.rs ~^struct Inner~ Inner *)
Record Inner : Type := { in_clients : list C; iface_expires_at : Z; dns_expires_at : Z; iface_addr : Z * Z }.
(* @src clash-lib/src/app/dns/dhcp.rs ~    pub async fn new\(~ DhcpClient::new *)
Definition dhcp_new (now : Z) : Inner := {| in_clients := []; iface_expires_at := now; dns_expires_at := now; iface_addr := (0, 0) |}.
Definition set_clients (cs : list C) (n : Inner) : Inner :=
  {| in_clients := cs; iface_expires_at := iface_expires_at n; dns_expires_at := dns_expires_at n; iface_addr := iface_addr n |}.
Definition set_iface_expires (t : Z) (n : Inner) : Inner :=
  {| in_clients := in_clients n; iface_expires_at := t; dns_expires_at := dns_expires_at n; iface_addr := iface_addr n |}.
Definition set_lease (t : Z) (a : Z * Z) (n : Inner) : Inner :=
  {| in_clients := in_clients n; iface_expires_at := iface_expires_at n; dns_expires_at := t; iface_addr := a |}.
(** Whether the servers must be asked for again. *)
(* @src clash-lib/src/app/dns/dhcp.rs ~    async fn update_if_lease_expired~ DhcpClient::update_if_lease_expired *)
Definition update_if_lease_expired (i : OutboundInterface) (now : Z) (n : Inner) : res bool * Inner :=
  if bool_decide (in_clients n = []) then (Ok true, n)
  else if now <? iface_expires_at n then (Ok false, n)
  else
    let n := set_iface_expires (now + IFACE_TTL) n in
    match oi_addr_v4 i with
    | None => (Err "no address on interface", n)
    | Some addr =>
      let renew := match oi_netmask_v4 i with
        | None => (Err "no netmask", set_lease (now + DHCP_TTL) (iface_addr n) n)
        | Some mask => (Ok true, set_lease (now + DHCP_TTL) (addr, count_ones mask) n)
        end in
      if (now <? dns_expires_at n) && ((iface_addr n).1 =? addr) then
        match oi_netmask_v4 i with
        | None => (Err "no netmask on iface", n)
        | Some mask => if netmask (iface_addr n).2 =? mask then (Ok false, n) else renew
        end
      else renew
    end.
(** The clients for an exchange, given what a probe would find. *)
(* @src clash-lib/src/app/dns/dhcp.rs ~    async fn resolve~ DhcpClient::resolve *)
Definition dhcp_resolve (i : OutboundInterface) (now : Z) (probed : res (list Z)) (n : Inner) : res (list C) * Inner :=
  match update_if_lease_expired i now n with
  | (Ok true, n) =>
    match probed with
    | Ok dns =>
      let cs := make_clients ((fun s => {| ns_net := NmUdp; ns_address := show_ipv4 s ++ lit ":53"; ns_interface := None; ns_proxy := None |}) <$> dns) in
      (Ok cs, set_clients cs n)
    | Err e => (Err e, n)
    | Panic => (Panic, n)
    end
  | (Ok false, n) => (Ok (in_clients n), n)
  | (Err e, n) => (Err e, n)
  | (Panic, n) => (Panic, n)
  end.
(** Queries at given times, each with what a probe would find then. *)
Fixpoint dhcp_queries (i : OutboundInterface) (l : list (Z * res (list Z))) (n : Inner) : list (res (list C)) :=
  match l with
  | [] => []
  | (now, probed) :: l => let '(r, n) := dhcp_resolve i now probed n in r :: dhcp_queries i l n
  end.
End lease.
Arguments Inner : clear implicits.

(** ** The socket of DNS over an outbound ([runtime.rs]) *)
Definition unspecified_for (a : SocketAddr) : SocketAddr := match domain_for a with IPV4 => SV4 0 0 | IPV6 => SV6 0 0 0 0 end.
(* @src clash-lib/src/app/dns/runtime.rs ~    fn bind_udp~ DnsRuntimeProvider::bind_udp *)
Definition dns_session (net : Network) (server_addr : SocketAddr) (ifc : option OutboundInterface) (mark : option Z) : Session :=
  set_source (unspecified_for server_addr) (connector_session net (Ip server_addr) ifc mark).
Section socket.
Context {S : Type} {PK : PacketSink S} (next : S -> Poll (option UdpPacket) * S).
(* @src clash-lib/src/app/dns/runtime.rs ~    fn poll_recv_from~ DnsProxyUdpSocket::poll_recv_from *)
Definition dns_recv_from (cap : nat) (s : S) : Poll (res (list Z * SocketAddr)) * S :=
  match next s with
  | (Pending, s) => (Pending, s)
  | (Ready None, s) => (Ready (Err "dns proxy outbound is closed"), s)
  | (Ready (Some x), s) =>
    (Ready (a ← or_panic (match up_src_addr x with Ip a => Some a | Domain _ _ => None end); Ok (take cap (up_data x), a)), s)
  end.
(* @src clash-lib/src/app/dns/runtime.rs ~    fn poll_send_to~ DnsProxyUdpSocket::poll_send_to *)
Definition dns_send_to (buf : list Z) (target : SocketAddr) (s : S) : Poll (res nat) * S :=
  let finish (s : S) :=
    match ps_start {| up_data := buf; up_src_addr := Ip (unspecified_for target); up_dst_addr := Ip target |} s with
    | (Ok _, s) =>
      match ps_flush s with
      | (Ready r, s) => (Ready (_ ← r; Ok (length buf)), s)
      | (Pending, s) => (Pending, s)
      end
    | (Err e, s) => (Ready (Err e), s)
    | (Panic, s) => (Ready Panic, s)
    end in
  match ps_ready s with
  | (Ready (Ok _), s) => finish s
  | (Ready (Err e), s) => (Ready (Err e), s)
  | (Ready Panic, s) => (Ready Panic, s)
  | (Pending, s) =>
    match ps_flush s with
    | (Ready (Ok _), s) => finish s
    | (Ready (Err e), s) => (Ready (Err e), s)
    | (Ready Panic, s) => (Ready Panic, s)
    | (Pending, s) => (Pending, s)
    end
  end.
End socket.

(** * Theorems *)

(** ** Offers *)
Definition is_answer (xid : Z) (r : option DhcpReply) (dns : list Z) : Prop :=
  exists x, r = Some x /\ dr_type x = Some Offer /\ dr_xid x = xid /\ dr_servers x = Some dns.
(** The servers are those of the first offer for the probe that has any. *)
Lemma get_response_first xid replies dns : get_response xid replies = Some dns <->
  exists before r after, replies = before ++ r :: after /\ is_answer xid r dns /\ forall b d, b ∈ before -> ~ is_answer xid b d.
Proof.
  induction replies as [|r replies IH]; cbn [get_response].
  { split; [done|]. intros (b & r & a & E & _). by destruct b. }
  assert ((forall d, ~ is_answer xid r d) -> (get_response xid replies = Some dns <->
    exists before r' after, r :: replies = before ++ r' :: after /\ is_answer xid r' dns /\ forall b d, b ∈ before -> ~ is_answer xid b d)) as Hskip.
  { intros Hr. rewrite IH. split.
    - intros (b & r' & a & -> & Ha & Hb). exists (r :: b), r', a. split_and!; [done|done|]. intros x d [->|Hx]%elem_of_cons; [apply Hr|by apply Hb].
    - intros (b & r' & a & E & Ha & Hb). destruct b as [|x b]; cbn in E; injection E as -> ->; [by apply Hr in Ha|].
      exists b, r', a. split_and!; [done|done|]. intros y d Hy. apply Hb. by right. }
  destruct r as [x|]; [|apply Hskip; intros d (y & [=] & _)].
  destruct (bool_decide (dr_type x = Some Offer)) eqn:Et; cbn [andb]; [|apply Hskip; intros d (y & [= <-] & Hy & _); by apply bool_decide_eq_false in Et].
  apply bool_decide_eq_true in Et. destruct (Z.eqb_spec (dr_xid x) xid) as [Ex|Ex]; [|apply Hskip; by intros d (y & [= <-] & _ & Hy & _)].
  destruct (dr_servers x) as [d0|] eqn:Es; [|apply Hskip; intros d (y & [= <-] & _ & _ & Hy); congruence].
  split.
  - intros [= <-]. exists [], (Some x), replies. split_and!; [done|by exists x|]. by intros b d ?%elem_of_nil.
  - intros (b & r' & a & E & Ha & Hb). destruct b as [|y b]; cbn in E; injection E as E1 E2.
    + destruct Ha as (y & Hy & _ & _ & Hd). rewrite Hy in E1. injection E1 as ->. congruence.
    + exfalso. subst y. apply (Hb (Some x) d0); [left|by exists x].
Qed.
(** The socket that waits for offers is bound to no address, hence not to
    the port of DHCP clients: it is bound to the interface only. *)
Lemma dhcp_socket_unbound {CV : ConverterLib} {HO : Host} i s : listen_dhcp_client i = Ok s -> forall a, Bind a ∉ sk_ops s.
Proof.
  unfold listen_dhcp_client. intros (_ & pre & Hpre & ->)%new_udp_socket_ok a. cbn.
  rewrite !elem_of_app, !elem_of_cons, elem_of_nil. unfold device_of. destruct Hpre as [-> | ->]; [rewrite elem_of_nil|rewrite list_elem_of_singleton]; naive_solver.
Qed.

(** ** Leases *)
Section lease_spec.
Context {C : Type} (make : list NameServer -> list C) (i : OutboundInterface) (addr prefix : Z).
Hypothesis Haddr : oi_addr_v4 i = Some addr.
Hypothesis Hprefix : 0 <= prefix <= 32.
Hypothesis Hmask : oi_netmask_v4 i = Some (netmask prefix).
Lemma count_netmask : count_ones (netmask prefix) = prefix.
Proof using Hprefix.
  assert (forallb (fun p => count_ones (netmask p) =? p) (seqZ 0 33) = true) as H by by vm_compute.
  rewrite forallb_forall in H. apply Z.eqb_eq, H, list_elem_of_In, elem_of_seqZ. lia.
Qed.
(** The servers are asked for by the first query, and asked for again by the
    next one, however soon. *)
Lemma second_query_probes now1 now2 dns n : now1 <= now2 ->
  dhcp_resolve make i now1 (Ok dns) (dhcp_new now1) = (Ok (in_clients n), n) -> in_clients n <> [] ->
  fst (update_if_lease_expired i now2 n) = Ok true.
Proof using Haddr Hmask.
  intros Hn. unfold dhcp_resolve. change (update_if_lease_expired i now1 (dhcp_new now1)) with (Ok true : res bool, @dhcp_new C now1). cbv beta iota zeta.
  generalize (make ((fun s => {| ns_net := NmUdp; ns_address := show_ipv4 s ++ lit ":53"; ns_interface := None; ns_proxy := None |}) <$> dns)).
  intros cs [_ H]%pair_equal_spec Hne. subst n.
  unfold update_if_lease_expired. rewrite bool_decide_eq_false_2 by exact Hne. cbn [iface_expires_at set_clients set_iface_expires dns_expires_at dhcp_new].
  destruct (Z.ltb_spec now2 now1); [lia|]. rewrite Haddr. cbn [dns_expires_at set_iface_expires set_clients]. destruct (Z.ltb_spec now2 now1); [lia|].
  cbn [andb]. by rewrite Hmask.
Qed.
(** From then on the servers are kept until the lease has run out. *)
Definition leased (until : Z) (n : Inner C) : Prop := in_clients n <> [] /\ dns_expires_at n = until /\ iface_addr n = (addr, prefix).
Lemma lease_taken now n n' : in_clients n <> [] -> update_if_lease_expired i now n = (Ok true, n') -> leased (now + DHCP_TTL) n'.
Proof using Haddr Hmask Hprefix.
  intros Hne. unfold update_if_lease_expired. rewrite bool_decide_eq_false_2 by done. destruct (_ <? _); [done|]. rewrite Haddr, Hmask.
  destruct (_ && _); [destruct (_ =? _); [done|]|]; intros [= <-]; by rewrite count_netmask.
Qed.
Lemma lease_kept until now n : leased until n -> now < until ->
  exists n', update_if_lease_expired i now n = (Ok false, n') /\ leased until n' /\ in_clients n' = in_clients n.
Proof using Haddr Hmask.
  intros (Hne & Hu & Ha) Hnow. unfold update_if_lease_expired. rewrite bool_decide_eq_false_2 by done. destruct (_ <? _); [by exists n|].
  rewrite Haddr, Hmask. cbn [dns_expires_at set_iface_expires iface_addr]. rewrite Hu, Ha. cbn [fst snd]. rewrite (proj2 (Z.ltb_lt _ _)) by done.
  rewrite !Z.eqb_refl. cbn. eexists. split; [done|]. by split_and!.
Qed.
(** Every query before that is sent to the same servers, whatever a probe
    would find. *)
Lemma leased_queries until probes n : leased until n -> Forall (fun x => x.1 < until) probes ->
  Forall (fun r => r = Ok (in_clients n)) (dhcp_queries make i probes n).
Proof using Haddr Hmask.
  intros Hl Hp. revert n Hl. induction Hp as [|[now p] probes Hnow _ IH]; intros n Hl; cbn [dhcp_queries]; [constructor|].
  cbn in Hnow. destruct (lease_kept until now n Hl Hnow) as (n' & Hn' & Hl' & Hc). unfold dhcp_resolve. rewrite Hn'. constructor; [by rewrite Hc|].
  rewrite <- Hc. by apply IH.
Qed.
End lease_spec.
(** A probe that fails keeps the servers there were: the query fails, and
    those within the next seconds use them. *)
Lemma failed_probe_keeps {C : Type} (make : list NameServer -> list C) i now now' e n n' :
  in_clients n <> [] -> update_if_lease_expired i now n = (Ok true, n') -> now' < now + IFACE_TTL ->
  dhcp_resolve make i now (Err e) n = (Err e, n') /\ dhcp_resolve make i now' (Err e) n' = (Ok (in_clients n), n').
Proof.
  intros Hne H Hn. unfold dhcp_resolve. rewrite H. split; [done|].
  assert (in_clients n' = in_clients n /\ iface_expires_at n' = now + IFACE_TTL) as [Hc Hi].
  { revert H. unfold update_if_lease_expired. rewrite bool_decide_eq_false_2 by done. destruct (_ <? _); [done|]. destruct (oi_addr_v4 i); [|done].
    destruct (oi_netmask_v4 i); [|by destruct (_ && _)]. destruct (_ && _); [destruct (_ =? _); [done|]|]; by intros [= <-]. }
  unfold update_if_lease_expired. rewrite bool_decide_eq_false_2 by (by rewrite Hc). rewrite Hi, (proj2 (Z.ltb_lt _ _)) by done. by rewrite Hc.
Qed.

(** ** Queries over an outbound *)
Section send_spec.
Context {S : Type} {PK : PacketSink S} {D : Type} (carries : UdpPacket -> D -> Prop) (out : S -> list D) (held : S -> option UdpPacket)
  (fine : S -> Prop).
Context {SL : SinkLaws carries out held fine}.
Definition query (buf : list Z) (target : SocketAddr) : UdpPacket :=
  {| up_data := buf; up_src_addr := Ip (unspecified_for target); up_dst_addr := Ip target |}.
(** Handing a query to a sink that is ready. *)
Lemma dns_send_ready buf target s s1 : ps_ready s = (Ready (Ok tt), s1) -> dns_send_to buf target s =
  match ps_start (query buf target) s1 with
  | (Ok _, s2) => match ps_flush s2 with (Ready r, s3) => (Ready (_ ← r; Ok (length buf)), s3) | (Pending, s3) => (Pending, s3) end
  | (Err e, s2) => (Ready (Err e), s2)
  | (Panic, s2) => (Ready Panic, s2)
  end.
Proof. unfold dns_send_to. by intros ->. Qed.
(** What a call does then: the query is out when it is reported sent, and may
    be held back when the call is to be repeated. *)
Lemma dns_send_law buf target s s1 r s' : fine s -> ps_ready s = (Ready (Ok tt), s1) -> dns_send_to buf target s = (r, s') -> fine s' /\
  match r with
  | Ready (Ok n) => n = length buf /\ held s' = None /\ exists d, out s' = out s1 ++ [d] /\ carries (query buf target) d
  | Pending => held s' = Some (query buf target) /\ out s' = out s1 \/ held s' = None /\ exists d, out s' = out s1 ++ [d] /\ carries (query buf target) d
  | _ => True
  end.
Proof.
  intros Hf E. rewrite (dns_send_ready _ _ _ _ E). destruct (ps_start _ s1) as [rs s2] eqn:Es.
  destruct (sk_start carries out held fine _ _ _ _ _ Hf E Es) as [Hf2 H2].
  destruct rs as [[]|e|]; [|by intros [= <- <-]..].
  destruct (ps_flush s2) as [rf s3] eqn:Ef. destruct (sk_flush carries out held fine _ _ _ Hf2 Ef) as (Hf3 & H3 & H4).
  assert (held s3 = Some (query buf target) /\ out s3 = out s1 \/ held s3 = None /\ (rf <> Pending /\ rf <> Ready (Ok tt) \/
    exists d, out s3 = out s1 ++ [d] /\ carries (query buf target) d)) as H.
  { destruct H2 as [[Hh Ho]|(Hh & d & Hc & Ho)].
    - destruct H3 as [(H5 & [H6|(H6 & H7 & H8)])|(p & d & Hp & H6 & Hc & H5)]; [left; by rewrite H5, H6|right; split; [done|by left]|].
      rewrite Hh in Hp. injection Hp as <-. right. split; [done|]. right. exists d. by rewrite H5, Ho.
    - right. destruct H3 as [(H5 & [H6|(H6 & _)])|(p & d' & Hp & _)]; [| |congruence]; split; [by rewrite H6| |done|]; right; exists d; by rewrite H5, Ho. }
  destruct rf as [[[]|e|]|]; intros [= <- <-]; split; try done.
  - specialize (H4 eq_refl). destruct H as [[H _]|(_ & [[_ H]|H])]; [congruence|done|]. by split_and!.
  - destruct H as [H|(Hh & [[H _]|H])]; [by left|done|by right].
Qed.
(** A call that must be repeated because the packet could not be flushed
    sends it once more: when both then go through, the query leaves twice. *)
Theorem retried_query_sent_twice buf target s s1 s2 s3 n s4 : fine s -> ps_ready s = (Ready (Ok tt), s1) ->
  dns_send_to buf target s = (Pending, s2) -> ps_ready s2 = (Ready (Ok tt), s3) -> dns_send_to buf target s2 = (Ready (Ok n), s4) ->
  exists d1 d2, out s4 = out s1 ++ [d1; d2] /\ carries (query buf target) d1 /\ carries (query buf target) d2.
Proof using SL.
  intros Hf E1 H1 E2 H2. destruct (dns_send_law _ _ _ _ _ _ Hf E1 H1) as [Hf2 A]. destruct (dns_send_law _ _ _ _ _ _ Hf2 E2 H2) as (_ & _ & _ & d2 & Ho2 & Hc2).
  destruct (sk_ready carries out held fine _ _ _ Hf2 E2) as (_ & B & Bh). specialize (Bh eq_refl).
  assert (exists d1, out s3 = out s1 ++ [d1] /\ carries (query buf target) d1) as (d1 & Ho & Hc).
  { destruct A as [[Ah Ao]|(Ah & d & Ao & Ac)].
    - destruct B as [(_ & [B|(_ & _ & B)])|(p & d & Bp & _ & Bc & Bo)]; [congruence|done|]. rewrite Ah in Bp. injection Bp as <-. exists d. by rewrite Bo, Ao.
    - destruct B as [(Bo & _)|(p & d' & Bp & _)]; [|congruence]. exists d. by rewrite Bo. }
  exists d1, d2. by rewrite Ho2, Ho, <- app_assoc.
Qed.
End send_spec.

(** ** A socket that waits once *)
Section once.
Record OnceUdp : Type := { ou_sent : list (list Z * SocketAddr); ou_wait : bool }.
#[local] Instance once_udp : UdpSocket OnceUdp := {|
  us_send_to := fun bs a u =>
    if ou_wait u then (Pending, {| ou_sent := ou_sent u; ou_wait := false |})
    else (Ready (Ok (length bs)), {| ou_sent := ou_sent u ++ [(bs, a)]; ou_wait := false |});
  us_recv_from := fun u => (Pending, u);
  us_local_v6 := fun _ => Ok false;
  us_sent := ou_sent;
|}.
#[local] Instance once_udp_laws : UdpSocketLaws OnceUdp.
Proof. intros bs a u r u'. cbn. destruct (ou_wait u); by intros [= <- <-]. Qed.
#[local] Instance once_sink : PacketSink (OutboundDatagramImpl OnceUdp unit) := direct_sink demo_resolve.
Definition once_start : OutboundDatagramImpl OnceUdp unit := outbound_datagram_new {| ou_sent := []; ou_wait := true |} tt.
Definition once_more (s : OutboundDatagramImpl OnceUdp unit) : OutboundDatagramImpl OnceUdp unit := snd (dns_send_to (PK := once_sink) [7] (SV4 9 53) s).
Lemma query_sent_twice : exists d1 d2, ou_sent (od_inner (once_more (once_more once_start))) = [d1; d2] /\
  direct_carries (query [7] (SV4 9 53)) d1 /\ direct_carries (query [7] (SV4 9 53)) d2.
Proof.
  apply (retried_query_sent_twice (PK := once_sink) direct_carries direct_out direct_held (fun _ => True) (SL := direct_sink_laws demo_resolve)
    [7] (SV4 9 53) once_start once_start (once_more once_start) (snd (ps_ready (PacketSink := once_sink) (once_more once_start))) 1);
    [done|vm_compute; reflexivity..].
Qed.
End once.
