(* ===== verification/InboundManager.v ===== *)
(** * The inbound manager ([app/inbound], [proxy/{tunnel,redir,tproxy}])

    The listeners of a configuration and the tasks that run them: starting,
    stopping and changing them.  A task is known by its number in a table of
    the running tasks; a handle that is dropped leaves its task running, as
    in tokio.  The redirecting listeners follow: what they make of an
    accepted connection or a datagram. *)

From S2P Require Import Prelude Str Net Session Inbound Config.

(** ** Handlers ([network_listener.rs]) *)

(** The inbounds with the options they are built from; the dispatcher and the
    authenticator are shared. *)
Inductive InboundHandler : Type :=
| HttpInbound (addr : SocketAddr) (allow_lan : bool) (fw_mark : option Z)
| SocksInbound (addr : SocketAddr) (allow_lan : bool) (fw_mark : option Z)
| MixedInbound (addr : SocketAddr) (allow_lan : bool) (fw_mark : option Z)
| TproxyInbound (addr : SocketAddr) (allow_lan : bool) (fw_mark : option Z)
| RedirInbound (addr : SocketAddr) (allow_lan : bool) (fw_mark : option Z)
| TunnelInbound (listen : SocketAddr) (network : list str) (target : SocksAddr) (fw_mark : option Z)
| ShadowsocksInbound (addr : SocketAddr) (password : str) (udp : bool) (cipher : str) (allow_lan : bool) (fw_mark : option Z)
| TrojanInbound (addr : SocketAddr) (allow_lan : bool) (fw_mark : option Z) (password certificate private_key : str)
    (alpn : list str) (network congestion_controller : option str).

(* @src clash-lib/src/proxy/tunnel/mod.rs ~    pub fn new\(~ TunnelInbound::new *)
Definition tunnel_new (addr : SocketAddr) (network : list str) (target : str) (fw_mark : option Z) : res InboundHandler :=
  target ← socks_from_str target;
  Ok (TunnelInbound addr network target fw_mark).

(** [cfg(target_os = "linux")], with the features [tproxy], [redir] and
    [shadowsocks]. *)
(* @src clash-lib/src/app/inbound/network_listener.rs ~^fn build_handler~ build_handler *)
Definition build_handler (listener : InboundOpts) : option InboundHandler :=
  let fw_mark := ci_fw_mark (inbound_common listener) in
  let addr := sa_new (ci_listen (inbound_common listener)) (ci_port (inbound_common listener)) in
  match listener with
  | InHttp c => Some (HttpInbound addr (ci_allow_lan c) fw_mark)
  | InSocks c _ => Some (SocksInbound addr (ci_allow_lan c) fw_mark)
  | InMixed c _ => Some (MixedInbound addr (ci_allow_lan c) fw_mark)
  | InTProxy c _ => Some (TproxyInbound addr (ci_allow_lan c) fw_mark)
  | InRedir c => Some (RedirInbound addr (ci_allow_lan c) fw_mark)
  | InTunnel c network target => res_ok (tunnel_new addr network target fw_mark)
  | InShadowsocks c udp cipher password => Some (ShadowsocksInbound addr password udp cipher (ci_allow_lan c) (ci_fw_mark c))
  | InTrojan c _ password certificate private_key alpn network cc =>
    Some (TrojanInbound addr (ci_allow_lan c) fw_mark password certificate private_key alpn network cc)
  end.

(* @src clash-lib/src/proxy/http/inbound/mod.rs 54 60 handle_tcp *)
Definition handle_tcp (h : InboundHandler) : bool := true.
(* @src clash-lib/src/proxy/socks/inbound/mod.rs 56 62 handle_udp *)
Definition handle_udp (h : InboundHandler) : bool :=
  match h with
  | HttpInbound _ _ _ | SocksInbound _ _ _ | MixedInbound _ _ _ | RedirInbound _ _ _ => false
  | TproxyInbound _ _ _ | TunnelInbound _ _ _ _ => true
  | ShadowsocksInbound _ _ udp _ _ _ => udp
  | TrojanInbound _ _ _ _ _ _ _ network _ => bool_decide (network = Some (lit "tquic"))
  end.

(** A running [listen_tcp] or [listen_udp]. *)
Record Runner : Type := { rn_udp : bool; rn_handler : InboundHandler }.
(* @src clash-lib/src/app/inbound/network_listener.rs ~^pub\(crate\) fn build_network_listeners~ build_network_listeners *)
Definition build_network_listeners (opts : InboundOpts) : option (list Runner) :=
  h ← build_handler opts;
  let runners := (if handle_tcp h then [{| rn_udp := false; rn_handler := h |}] else []) ++
                 (if handle_udp h then [{| rn_udp := true; rn_handler := h |}] else []) in
  if bool_decide (length runners = 0%nat) then None else Some runners.

(** ** Tasks *)
Record Tasks : Type := { running : gmap nat (list Runner); next_task : nat }.
Definition spawn (r : list Runner) (w : Tasks) : nat * Tasks :=
  (next_task w, {| running := <[next_task w := r]> (running w); next_task := S (next_task w) |}).
Definition abort_task (t : nat) (w : Tasks) : Tasks := {| running := delete t (running w); next_task := next_task w |}.

(** ** The manager ([manager.rs]) *)

(** The map of the listeners, in its order of iteration; the order a map gets
    when it is rebuilt is chosen by [reorder]. *)
(* @src clash-lib/src/app/inbound/manager.rs ~^pub struct InboundManager~ InboundManager *)
Definition InboundManager : Type := list (InboundOpts * option nat).
(* @src clash-lib/src/app/inbound/manager.rs ~^pub struct Ports~ Ports *)
Record Ports : Type := {
  port : option Z; socks_port : option Z; redir_port : option Z; tproxy_port : option Z; mixed_port : option Z }.
Definition ports_default : Ports :=
  {| port := None; socks_port := None; redir_port := None; tproxy_port := None; mixed_port := None |}.

(** [HashMap::insert] and [collect]: a later value replaces an earlier one. *)
Fixpoint hm_insert (k : InboundOpts) (v : option nat) (m : InboundManager) : InboundManager :=
  match m with
  | [] => [(k, v)]
  | (k', v') :: m' => if decide (k' = k) then (k', v) :: m' else (k', v') :: hm_insert k v m'
  end.
Definition hm_extend (m : InboundManager) (l : list (InboundOpts * option nat)) : InboundManager :=
  foldl (fun m kv => hm_insert kv.1 kv.2 m) m l.

Section manager.
Context (reorder : InboundManager -> InboundManager).

(* @src clash-lib/src/app/inbound/manager.rs ~    pub async fn new~ InboundManager::new *)
Definition inbounds_new (inbounds_opt : list InboundOpts) : InboundManager :=
  reorder (hm_extend [] ((fun opts => (opts, None)) <$> inbounds_opt)).

(** First every running listener is stopped, then each is built anew. *)
Definition stop_listeners (m : InboundManager) (w : Tasks) : InboundManager * Tasks :=
  ((fun kv => (kv.1, None)) <$> m, foldl (fun w kv => match kv.2 with Some t => abort_task t w | None => w end) w m).
Fixpoint build_listeners (m : InboundManager) (w : Tasks) : InboundManager * Tasks :=
  match m with
  | [] => ([], w)
  | (opts, _) :: m' =>
    match build_network_listeners opts with
    | Some r => let '(t, w) := spawn r w in let '(m', w) := build_listeners m' w in ((opts, Some t) :: m', w)
    | None => let '(m', w) := build_listeners m' w in ((opts, None) :: m', w)
    end
  end.
(* @src clash-lib/src/app/inbound/manager.rs ~    pub async fn start_all_listeners~ InboundManager::start_all_listeners *)
Definition start_all_listeners (m : InboundManager) (w : Tasks) : InboundManager * Tasks :=
  let '(m, w) := stop_listeners m w in build_listeners m w.
(* @src clash-lib/src/app/inbound/manager.rs ~    pub async fn shutdown~ InboundManager::shutdown *)
Definition shutdown (m : InboundManager) (w : Tasks) : InboundManager * Tasks := stop_listeners m w.
(* @src clash-lib/src/app/inbound/manager.rs ~    pub async fn restart~ InboundManager::restart *)
Definition restart (m : InboundManager) (w : Tasks) : InboundManager * Tasks := start_all_listeners m w.

Definition add_port (p : Ports) (opts : InboundOpts) : Ports :=
  match opts with
  | InHttp c => {| port := Some (ci_port c); socks_port := socks_port p; redir_port := redir_port p; tproxy_port := tproxy_port p; mixed_port := mixed_port p |}
  | InSocks c _ => {| port := port p; socks_port := Some (ci_port c); redir_port := redir_port p; tproxy_port := tproxy_port p; mixed_port := mixed_port p |}
  | InMixed c _ => {| port := port p; socks_port := socks_port p; redir_port := redir_port p; tproxy_port := tproxy_port p; mixed_port := Some (ci_port c) |}
  | InTProxy c _ => {| port := port p; socks_port := socks_port p; redir_port := redir_port p; tproxy_port := Some (ci_port c); mixed_port := mixed_port p |}
  | InRedir c => {| port := port p; socks_port := socks_port p; redir_port := Some (ci_port c); tproxy_port := tproxy_port p; mixed_port := mixed_port p |}
  | _ => p
  end.
(* @src clash-lib/src/app/inbound/manager.rs ~    pub async fn get_ports~ InboundManager::get_ports *)
Definition get_ports (m : InboundManager) : Ports := foldl (fun p kv => add_port p kv.1) ports_default m.
(* @src clash-lib/src/app/inbound/manager.rs ~    pub async fn get_allow_lan~ InboundManager::get_allow_lan *)
Definition get_allow_lan (m : InboundManager) : bool :=
  match m with (opts, _) :: _ => ci_allow_lan (inbound_common opts) | [] => false end.
(* @src clash-lib/src/app/inbound/manager.rs ~    pub async fn get_bind_address~ InboundManager::get_bind_address *)
Definition get_bind_address (m : InboundManager) : BindAddress :=
  match m with (opts, _) :: _ => ci_listen (inbound_common opts) | [] => all_v4 end.

(* @src clash-lib/src/config/internal/listener.rs ~    pub fn common_opts_mut~ InboundOpts::common_opts_mut *)
Definition map_common (f : CommonInboundOpts -> CommonInboundOpts) (o : InboundOpts) : InboundOpts :=
  match o with
  | InHttp c => InHttp (f c)
  | InSocks c u => InSocks (f c) u
  | InMixed c u => InMixed (f c) u
  | InTProxy c u => InTProxy (f c) u
  | InRedir c => InRedir (f c)
  | InTunnel c n t => InTunnel (f c) n t
  | InShadowsocks c u ci p => InShadowsocks (f c) u ci p
  | InTrojan c u p ce k a n cc => InTrojan (f c) u p ce k a n cc
  end.
Definition with_lan (b : bool) (c : CommonInboundOpts) : CommonInboundOpts :=
  {| ci_name := ci_name c; ci_listen := ci_listen c; ci_allow_lan := b; ci_port := ci_port c; ci_fw_mark := ci_fw_mark c |}.
Definition with_listen (a : BindAddress) (c : CommonInboundOpts) : CommonInboundOpts :=
  {| ci_name := ci_name c; ci_listen := a; ci_allow_lan := ci_allow_lan c; ci_port := ci_port c; ci_fw_mark := ci_fw_mark c |}.
Definition with_port (p : Z) (c : CommonInboundOpts) : CommonInboundOpts :=
  {| ci_name := ci_name c; ci_listen := ci_listen c; ci_allow_lan := ci_allow_lan c; ci_port := p; ci_fw_mark := ci_fw_mark c |}.

(** [drain], [map], [collect] *)
Definition map_opts (f : CommonInboundOpts -> CommonInboundOpts) (m : InboundManager) : InboundManager :=
  reorder (hm_extend [] ((fun kv => (map_common f kv.1, kv.2)) <$> m)).
(* @src clash-lib/src/app/inbound/manager.rs ~    pub async fn set_allow_lan~ InboundManager::set_allow_lan *)
Definition set_allow_lan (allow_lan : bool) (m : InboundManager) : InboundManager := map_opts (with_lan allow_lan) m.
(* @src clash-lib/src/app/inbound/manager.rs ~    pub async fn set_bind_address~ InboundManager::set_bind_address *)
Definition set_bind_address (a : BindAddress) (m : InboundManager) : InboundManager := map_opts (with_listen a) m.

(** The field of [Ports] for a listener. *)
Definition port_for (ports : Ports) (opts : InboundOpts) : option Z :=
  match opts with
  | InHttp _ => port ports
  | InSocks _ _ => socks_port ports
  | InMixed _ _ => mixed_port ports
  | InTProxy _ _ => tproxy_port ports
  | InRedir _ => redir_port ports
  | _ => None
  end.
Definition is_extracted (ports : Ports) (opts : InboundOpts) : bool :=
  match port_for ports opts with
  | Some p => bool_decide (Some (ci_port (inbound_common opts)) = Some p)
  | None => false
  end.
Definition moved_port (ports : Ports) (kv : InboundOpts * option nat) : InboundOpts * option nat :=
  (map_common (with_port (default (ci_port (inbound_common kv.1)) (port_for ports kv.1))) kv.1, kv.2).
(* @src clash-lib/src/app/inbound/manager.rs ~    pub async fn change_ports~ InboundManager::change_ports *)
Definition change_ports (ports : Ports) (m : list (InboundOpts * option nat)) : InboundManager :=
  let listeners := filter (fun kv => is_extracted ports kv.1) m in
  let guard := filter (fun kv => negb (is_extracted ports kv.1)) m in
  reorder (hm_extend guard (map (moved_port ports) (reorder listeners))).
End manager.

(** * Theorems *)

(** ** The map of the listeners *)
Lemma hm_insert_fresh k v m : k ∉ m.*1 -> hm_insert k v m = m ++ [(k, v)].
Proof.
  induction m as [|[k' v'] m IH]; cbn; [done|]. rewrite not_elem_of_cons. intros [Hk Hm].
  rewrite decide_False by done. by rewrite IH.
Qed.

Lemma hm_extend_fresh l m : NoDup (m.*1 ++ l.*1) -> hm_extend m l = m ++ l.
Proof.
  revert m. induction l as [|[k v] l IH]; intros m; cbn [hm_extend foldl fmap list_fmap fst snd]; [by rewrite !app_nil_r|].
  intros Hnd. rewrite hm_insert_fresh; [|apply NoDup_app in Hnd as (_ & Hd & _); intros Hk; apply (Hd k Hk); left].
  change (hm_extend (m ++ [(k, v)]) l = m ++ (k, v) :: l). rewrite IH; [by rewrite <- app_assoc|].
  rewrite fmap_app, <- app_assoc. exact Hnd.
Qed.

Lemma hm_extend_nodup m : NoDup m.*1 -> hm_extend [] m = m.
Proof. intros H. by rewrite hm_extend_fresh. Qed.

Lemma map_common_id f o : f (inbound_common o) = inbound_common o -> map_common f o = o.
Proof. destruct o; cbn; by intros ->. Qed.
Lemma common_map_common f o : inbound_common (map_common f o) = f (inbound_common o).
Proof. by destruct o. Qed.

Section map_theorems.
Context (reorder : InboundManager -> InboundManager) (reorder_perm : forall m, reorder m ≡ₚ m).

(** Changing the options of all listeners keeps the listeners and their
    tasks, unless two of them become the same. *)
Lemma map_opts_perm f m : NoDup (map_common f <$> m.*1) ->
  map_opts reorder f m ≡ₚ (fun kv => (map_common f kv.1, kv.2)) <$> m.
Proof using reorder_perm.
  intros H. unfold map_opts. rewrite reorder_perm, hm_extend_nodup; [done|].
  replace (((fun kv => (map_common f kv.1, kv.2)) <$> m).*1) with (map_common f <$> m.*1); [done|].
  clear H. induction m as [|kv m IH]; [done|]. cbn. by f_equal.
Qed.

(** The listeners picked for a change of port are those that have it
    already. *)
Lemma change_ports_unchanged ports m : NoDup m.*1 -> change_ports reorder ports m ≡ₚ m.
Proof using reorder_perm.
  intros Hnd. unfold change_ports. set (ls := filter (fun kv => is_extracted ports kv.1) m). rewrite reorder_perm.
  assert (Forall (fun kv => is_extracted ports kv.1 = true) ls) as Hls by (apply list.Forall_forall; intros kv Hkv;
    apply list_elem_of_filter in Hkv as [H _]; by apply Is_true_true).
  set (g := filter (fun kv => negb (is_extracted ports kv.1)) m).
  assert (g ++ reorder ls ≡ₚ m) as Hp.
  { rewrite (reorder_perm ls), Permutation_app_comm. subst g ls. clear Hls Hnd. induction m as [|kv m IH]; [done|].
    rewrite !filter_cons. destruct (is_extracted ports kv.1); cbn [negb]; repeat case_decide; try done; cbn.
    - by rewrite IH.
    - by rewrite <- Permutation_middle, IH. }
  assert (map (moved_port ports) (reorder ls) = reorder ls) as ->.
  { assert (Forall (fun kv => is_extracted ports kv.1 = true) (reorder ls)) as H by (by rewrite reorder_perm).
    clear Hp. induction H as [|[o h] l Hx H IH]; [done|]. cbn. f_equal; [|exact IH]. unfold moved_port. cbn in *. f_equal.
    apply map_common_id. unfold is_extracted in Hx. destruct (port_for ports o) as [p|]; [|done].
    apply bool_decide_eq_true in Hx as [= <-]. cbn. by destruct (inbound_common o). }
  rewrite hm_extend_fresh; [exact Hp|]. rewrite <- fmap_app, Hp. exact Hnd.
Qed.
End map_theorems.

(** ** The running listeners *)

(** The tasks a manager holds, and those it has just started. *)
Definition holds (m : InboundManager) (t : nat) : Prop := Some t ∈ m.*2.
#[global] Instance holds_dec m t : Decision (holds m t).
Proof. unfold holds. apply _. Defined.
Definition fresh (w : Tasks) : Prop := forall t, (next_task w <= t)%nat -> running w !! t = None.

Lemma stop_listeners_keys m w : (stop_listeners m w).1.*1 = m.*1.
Proof. cbn. rewrite <- list_fmap_compose. by apply list_fmap_ext. Qed.

Lemma stop_listeners_running m w :
  next_task (stop_listeners m w).2 = next_task w /\
  forall t, running (stop_listeners m w).2 !! t = if decide (holds m t) then None else running w !! t.
Proof.
  cbn. revert w. unfold holds. induction m as [|[o h] m IH]; intros w; cbn [foldl fmap list_fmap snd].
  - split; [done|]. intros t. by rewrite decide_False by (by intros ?%elem_of_nil).
  - destruct (IH (match h with Some t => abort_task t w | None => w end)) as [-> Hr]. split; [by destruct h|].
    intros t. rewrite Hr. destruct h as [t'|]; cbn.
    + destruct (decide (t' = t)) as [->|Hne]; [rewrite lookup_delete_eq|rewrite lookup_delete_ne by done]; repeat case_decide; set_solver.
    + repeat case_decide; set_solver.
Qed.

Lemma stop_listeners_fresh m w : fresh w -> fresh (stop_listeners m w).2.
Proof.
  intros H t. destruct (stop_listeners_running m w) as [-> Hr]. intros Ht. rewrite Hr. case_decide; [done|by apply H].
Qed.

(** What starting the listeners of [m] adds to the tasks. *)
Record started (m m' : InboundManager) (w w' : Tasks) : Prop := {
  st_keys : m'.*1 = m.*1;
  st_next : (next_task w <= next_task w')%nat;
  st_fresh : fresh w';
  st_each : Forall (fun kv => match build_network_listeners kv.1 with
                              | Some r => exists t, kv.2 = Some t /\ (next_task w <= t < next_task w')%nat /\ running w' !! t = Some r
                              | None => kv.2 = None
                              end) m';
  st_running : forall t r, running w' !! t = Some r <->
    running w !! t = Some r \/ exists o, (o, Some t) ∈ m' /\ build_network_listeners o = Some r;
  st_distinct : NoDup (omap snd m');
}.

Lemma build_listeners_started m w : fresh w -> started m (build_listeners m w).1 w (build_listeners m w).2.
Proof.
  revert w. induction m as [|[o h] m IH]; intros w Hw; cbn [build_listeners].
  - split; cbn; [done|done|done|constructor| |constructor]. intros t r. split; [auto|]. by intros [?|(o & ?%elem_of_nil & _)].
  - destruct (build_network_listeners o) as [r|] eqn:Eb; cbn [spawn].
    + set (w1 := {| running := _; next_task := _ |}).
      assert (fresh w1) as Hw1.
      { intros t Ht. cbn in *. rewrite lookup_insert_ne by lia. apply Hw. lia. }
      destruct (build_listeners m w1) as [m' w'] eqn:E. specialize (IH w1 Hw1). rewrite E in IH. cbn [fst snd] in *.
      destruct IH as [Hk Hn Hf He Hr Hd]. cbn in Hn.
      assert (running w' !! next_task w = Some r) as Hnew by (apply Hr; left; apply lookup_insert_eq).
      split; cbn; [by rewrite Hk|lia|done| | |].
      * constructor; [cbn; rewrite Eb; exists (next_task w); split_and!; [done|lia|lia|done]|].
        eapply Forall_impl; [exact He|]. intros [o' h']. cbn. destruct (build_network_listeners o'); [|done].
        intros (t & ? & ? & ?). exists t. split_and!; [done|lia|lia|done].
      * intros t r'. rewrite Hr. cbn. rewrite lookup_insert_Some. setoid_rewrite elem_of_cons. split.
        -- intros [[[<- <-]|[_ ?]]|(o' & ? & ?)]; [right; exists o; auto|auto|right; exists o'; auto].
        -- intros [Ht|(o' & [[= -> ->]|?] & Hb)]; [left|left; left; split; congruence|right; exists o'; auto].
           right. split; [|done]. intros <-. rewrite Hw in Ht; [done|lia].
      * apply NoDup_cons. split; [|done]. intros Hin. apply list_elem_of_omap in Hin as ([o' h'] & Hin & Eh). cbn in Eh. subst h'.
        rewrite list.Forall_forall in He. specialize (He _ Hin). cbn in He.
        destruct (build_network_listeners o'); [|done]. destruct He as (t & [= <-] & ? & _). lia.
    + destruct (build_listeners m w) as [m' w'] eqn:E. specialize (IH w Hw). rewrite E in IH. cbn [fst snd] in *.
      destruct IH as [Hk Hn Hf He Hr Hd]. split; cbn; [by rewrite Hk|done|done| | |done].
      * constructor; [by cbn; rewrite Eb|done].
      * intros t r'. rewrite Hr. setoid_rewrite elem_of_cons. split; (intros [?|(o' & Ho & Hb)]; [auto|right; exists o']).
        -- auto.
        -- destruct Ho as [[=]|?]; auto.
Qed.

Lemma start_all_started m w : fresh w ->
  started m (start_all_listeners m w).1 (stop_listeners m w).2 (start_all_listeners m w).2.
Proof.
  intros Hw. unfold start_all_listeners. destruct (stop_listeners m w) as [m1 w1] eqn:E. cbn [snd].
  pose proof (stop_listeners_fresh m w Hw) as Hf. pose proof (stop_listeners_keys m w) as Hk. rewrite E in Hf, Hk. cbn in Hf, Hk.
  destruct (build_listeners_started m1 w1 Hf). split; try done. by rewrite <- Hk.
Qed.

(** The running tasks are exactly the listeners of the options. *)
Record serves (m : InboundManager) (w : Tasks) : Prop := {
  sv_each : Forall (fun kv => match build_network_listeners kv.1 with
                              | Some r => exists t, kv.2 = Some t /\ running w !! t = Some r
                              | None => kv.2 = None
                              end) m;
  sv_only : forall t r, running w !! t = Some r -> exists o, (o, Some t) ∈ m /\ build_network_listeners o = Some r;
}.
(** No task runs that the manager does not hold. *)
Definition owned (m : InboundManager) (w : Tasks) : Prop := forall t, is_Some (running w !! t) -> holds m t.

Lemma serves_owned m w : serves m w -> owned m w.
Proof. intros [_ H] t [r Hr]. destruct (H t r Hr) as (o & Ho & _). unfold holds. apply list_elem_of_fmap. by exists (o, Some t). Qed.

Lemma restart_serves m w : fresh w -> owned m w ->
  serves (restart m w).1 (restart m w).2 /\ fresh (restart m w).2 /\ (restart m w).1.*1 = m.*1.
Proof.
  intros Hf Ho. unfold restart. destruct (start_all_started m w Hf) as [Hk _ Hf' He Hr _]. split_and!; [|done|done]. split.
  - eapply Forall_impl; [exact He|]. intros kv. cbn beta. destruct (build_network_listeners kv.1); [|tauto]. intros (t & ? & _ & ?). eauto.
  - intros t r H. apply Hr in H as [H|H]; [|done]. rewrite (proj2 (stop_listeners_running m w)) in H.
    case_decide as Hd; [done|]. destruct Hd. apply Ho. by eexists.
Qed.

(** After a shutdown nothing of it runs. *)
Lemma shutdown_stops m w : owned m w -> running (shutdown m w).2 = ∅.
Proof.
  intros Ho. apply map_empty. intros t. unfold shutdown. rewrite (proj2 (stop_listeners_running m w)).
  case_decide as Hd; [done|]. apply eq_None_not_Some. intros H. by apply Hd, Ho.
Qed.

Lemma owned_perm_snd (m m' : InboundManager) w : m.*2 ≡ₚ m'.*2 -> owned m w -> owned m' w.
Proof. intros Hp Ho t Ht. unfold holds. rewrite <- Hp. by apply Ho. Qed.
