(* ===== verification/Api.v ===== *)
(** * The control API ([app/api])

    The authentication layer and the handlers that read or change the state
    of the program: the running configuration, the proxies and groups, the
    providers and the connections.  A request is what axum hands to the
    handler; a reply is its status and text, or the value that is written
    as JSON. *)

From S2P Require Import Prelude Str Net Session ProxyManager Groups Profile OutboundManager Inbound Dispatcher Config.
From S2P Require Import InboundManager.
From S2P Require Stats.

(** ** Requests and replies *)
Inductive Reply (J : Type) : Type :=
| RText (status : Z) (text : str)
| RStatus (status : Z)
| RJson (j : J).
Arguments RText {J} status text.
Arguments RStatus {J} status.
Arguments RJson {J} j.

(** The headers of a request, names in lower case. *)
Definition Headers : Type := list (str * list Z).
Definition header_get (name : string) (h : Headers) : option (list Z) :=
  snd <$> List.find (fun kv => bool_decide (kv.1 = lit name)) h.

Record ApiRequest : Type := { ar_headers : Headers; ar_uri : str }.

(** ** Middlewares *)

(** [query_token] is the token of the query string, if it has one. *)
Section auth.
Context (query_token : str -> option str).

(* @src clash-lib/src/app/api/middlewares/auth.rs ~    fn is_websocket~ AuthMiddleware::is_websocket *)
Definition auth_is_websocket (req : ApiRequest) : bool :=
  match header_get "upgrade" (ar_headers req) with
  | Some upgrade => bool_decide (upgrade = lit "websocket")
  | None => false
  end.

Inductive AuthOutcome : Type := Inner | Unauthorised.
(* @src clash-lib/src/app/api/middlewares/auth.rs ~    fn call\(&mut self~ AuthMiddleware::call *)
Definition auth_call (token : str) (req : ApiRequest) : AuthOutcome :=
  if bool_decide (token = []) then Inner
  else if auth_is_websocket req && bool_decide (query_token (ar_uri req) = Some token) then Inner
  else
    let header := default [] (header_get "authorization" (ar_headers req) ≫= header_to_str) in
    if bool_decide (header = lit "Bearer " ++ token) then Inner else Unauthorised.
End auth.

(** The values are compared as text in lower case. *)
(* @src clash-lib/src/app/api/handlers/utils.rs ~^pub fn is_request_websocket~ is_request_websocket *)
Definition is_request_websocket (h : Headers) : bool :=
  match to_ascii_lowercase <$> (header_get "connection" h ≫= header_to_str) with
  | Some x => contains (lit "upgrade") x
  | None => false
  end &&
  bool_decide (to_ascii_lowercase <$> (header_get "upgrade" h ≫= header_to_str) = Some (lit "websocket")).

(* @src clash-lib/src/app/api/middlewares/fix_json_content_type.rs ~^pub\(crate\) async fn fix_content_type~ fix_content_type *)
Definition fix_content_type (req : ApiRequest) : ApiRequest :=
  match header_get "content-type" (ar_headers req) with
  | Some v =>
    if bool_decide (v = lit "application/json") then req
    else {| ar_headers := (lit "content-type", lit "application/json") ::
                          filter (fun kv => kv.1 <> lit "content-type") (ar_headers req); ar_uri := ar_uri req |}
  | None => req
  end.

(** ** The running configuration ([handlers/config.rs]) *)

(** What [ConfigState] gives access to. *)
(* @src clash-lib/src/app/api/handlers/config.rs ~^struct ConfigState~ ConfigState *)
Record ConfigState : Type := {
  cs_inbounds : InboundManager; cs_tasks : Tasks; cs_mode : RunMode; cs_log_level : LogLevel; cs_log_timestamp : bool;
  cs_ipv6 : bool }.
(* @src clash-lib/src/app/api/handlers/config.rs ~^struct PatchConfigRequest~ PatchConfigRequest *)
Record PatchConfigRequest : Type := {
  pc_port : option Z; pc_socks_port : option Z; pc_redir_port : option Z; pc_tproxy_port : option Z; pc_mixed_port : option Z;
  pc_bind_address : option str; pc_mode : option RunMode; pc_log_level : option LogLevel; pc_log_timestamp : option bool;
  pc_ipv6 : option bool; pc_allow_lan : option bool }.

(* @src clash-lib/src/app/api/handlers/config.rs ~^async fn get_configs~ get_configs *)
Definition get_configs (st : ConfigState) : PatchConfigRequest :=
  let ports := get_ports (cs_inbounds st) in
  {| pc_port := port ports; pc_socks_port := socks_port ports; pc_redir_port := redir_port ports;
     pc_tproxy_port := tproxy_port ports; pc_mixed_port := mixed_port ports;
     pc_bind_address := Some (show_ip (get_bind_address (cs_inbounds st))); pc_mode := Some (cs_mode st);
     pc_log_level := Some (cs_log_level st); pc_log_timestamp := Some (cs_log_timestamp st); pc_ipv6 := Some (cs_ipv6 st);
     pc_allow_lan := Some (get_allow_lan (cs_inbounds st)) |}.

(* @src clash-lib/src/app/api/handlers/config.rs ~    fn rebuild_listeners~ PatchConfigRequest::rebuild_listeners *)
Definition rebuild_listeners (p : PatchConfigRequest) : bool :=
  bool_decide (is_Some (pc_port p)) || bool_decide (is_Some (pc_socks_port p)) || bool_decide (is_Some (pc_redir_port p)) ||
  bool_decide (is_Some (pc_tproxy_port p)) || bool_decide (is_Some (pc_mixed_port p)) || bool_decide (is_Some (pc_bind_address p)).

Definition with_inbounds (m : InboundManager) (w : Tasks) (st : ConfigState) : ConfigState :=
  {| cs_inbounds := m; cs_tasks := w; cs_mode := cs_mode st; cs_log_level := cs_log_level st;
     cs_log_timestamp := cs_log_timestamp st; cs_ipv6 := cs_ipv6 st |}.

Section config.
Context (reorder : InboundManager -> InboundManager).

(** The changes to the listeners: the options after them, and whether they
    are restarted. *)
Definition patch_ports (p : PatchConfigRequest) (m : InboundManager) : InboundManager :=
  change_ports reorder {| port := pc_port p; socks_port := pc_socks_port p; redir_port := pc_redir_port p;
                          tproxy_port := pc_tproxy_port p; mixed_port := pc_mixed_port p |} m.
Definition patch_lan (p : PatchConfigRequest) (m : InboundManager) : InboundManager * bool :=
  match pc_allow_lan p with
  | Some allow_lan => if bool_decide (allow_lan = get_allow_lan m) then (m, false) else (set_allow_lan reorder allow_lan m, true)
  | None => (m, false)
  end.

(* @src clash-lib/src/app/api/handlers/config.rs ~^async fn patch_configs~ patch_configs *)
Definition patch_configs (payload : PatchConfigRequest) (st : ConfigState) : Reply unit * ConfigState :=
  let m := cs_inbounds st in
  match match pc_bind_address payload with
        | Some b => a ← bind_address_from_str b; Ok (set_bind_address reorder a m, true)
        | None => Ok (m, false)
        end with
  | Ok (m, need_restart) =>
    let '(m, need_restart) := if rebuild_listeners payload then (patch_ports payload m, true) else (m, need_restart) in
    let '(m, lan) := patch_lan payload m in
    let '(m, w) := if (need_restart || lan : bool) then restart m (cs_tasks st) else (m, cs_tasks st) in
    (RStatus 202,
     {| cs_inbounds := m; cs_tasks := w; cs_mode := default (cs_mode st) (pc_mode payload);
        cs_log_level := default (cs_log_level st) (pc_log_level payload);
        cs_log_timestamp := default (cs_log_timestamp st) (pc_log_timestamp payload);
        cs_ipv6 := default (cs_ipv6 st) (pc_ipv6 payload) |})
  | _ => (RText 400 (lit "invalid bind address: " ++ default [] (pc_bind_address payload)), st)
  end.
End config.

(** ** Proxies and groups ([handlers/{proxy,group,provider}.rs]) *)
Section proxies.
Context {X : Type} {PX : PlainOutbound X} {OB : Outbound (Handler X)} {SD : Type} (now : Z).

(** The layers that find the subject of a request by its name. *)
(* @src clash-lib/src/app/api/handlers/proxy.rs ~^async fn find_proxy_by_name~ find_proxy_by_name *)
Definition find_proxy_by_name {J S} (m : OutboundManager X) (name : str) (next : Handler X -> Reply J * S) (st : S) : Reply J * S :=
  match get_outbound m name with
  | Some proxy => next proxy
  | None => (RText 404 (lit "proxy " ++ name ++ lit " not found"), st)
  end.
(* @src clash-lib/src/app/api/handlers/group.rs ~^async fn find_group_by_name~ find_group_by_name *)
Definition find_group_by_name {J S} (m : OutboundManager X) (name : str) (next : Handler X -> Reply J * S) (st : S) : Reply J * S :=
  match get_outbound m name with
  | Some proxy => next proxy
  | None => (RText 404 (lit "group " ++ name ++ lit " not found"), st)
  end.

(** A selection is kept in the cache only after it was made. *)
(* @src clash-lib/src/app/api/handlers/proxy.rs ~^async fn update_proxy~ update_proxy *)
Definition update_proxy (proxy : Handler X) (name : str) (st : OutboundManager X * CacheFile SD) :
    Reply unit * (OutboundManager X * CacheFile SD) :=
  let '(m, cache) := st in
  match get_selector_control m (handler_name proxy) with
  | Some ctrl =>
    let '(r, m) := control_select now name ctrl m in
    match r with
    | Ok _ => (RText 202 (lit "selected proxy " ++ name ++ lit " for " ++ handler_name proxy),
               (m, ts_set_selected (handler_name proxy) name cache))
    | _ => (RText 400 (lit "select " ++ name ++ lit " for " ++ handler_name proxy ++ lit " failed with error"), (m, cache))
    end
  | None => (RText 404 (lit "proxy " ++ handler_name proxy ++ lit " is not a Select"), st)
  end.

(** The tests of a request: which outbounds are tested is the handler's
    choice; [probe] is how each test goes and when it ends, [finished] the
    order in which they end. *)
Context (probe : Handler X -> str -> Probe * Z) (finished : list (Handler X) -> list (Handler X)).

(* @src clash-lib/src/app/outbound/manager.rs ~    pub async fn url_test~ OutboundManager::url_test *)
Definition manager_url_test (outbounds : list (Handler X)) (url : str) (pm : ProxyManager) :
    list (res (Z * Z)) * ProxyManager :=
  check ((fun o => (handler_name o, (probe o url).1, (probe o url).2)) <$> finished outbounds) pm.

Definition is_group (h : Handler X) : bool := match h with HPlain _ => false | _ => true end.
(* @src clash-lib/src/proxy/group/selector/mod.rs ~    fn get_latency_test_url~ GroupProxyAPIResponse::get_latency_test_url *)
Definition get_latency_test_url (h : Handler X) : option str := handler_opts h ≫= go_url.
Definition as_millis (d : Z) : Z := d / 10 ^ 6.

(** The list of results is never empty, so that [first().unwrap()] is
    defined. *)
(* @src clash-lib/src/app/api/handlers/proxy.rs ~^async fn get_proxy_delay~ proxy::get_proxy_delay *)
Definition get_proxy_delay (m : OutboundManager X) (proxy : Handler X) (url : str) (pm : ProxyManager) :
    res (Reply (Z * Z)) * ProxyManager :=
  let '(results, pm) :=
    if is_group proxy then manager_url_test (proxy :: members now m proxy) (default url (get_latency_test_url proxy)) pm
    else manager_url_test [proxy] url pm in
  (match head results with
   | Some (Ok (actual, overall)) => Ok (RJson (as_millis actual, as_millis overall))
   | Some _ => Ok (RText 400 (lit "get delay for " ++ handler_name proxy ++ lit " failed with error"))
   | None => Panic
   end, pm).

(** The i-th name is given the i-th result. *)
(* @src clash-lib/src/app/api/handlers/group.rs ~^async fn get_group_delay~ get_group_delay *)
Definition get_group_delay (m : OutboundManager X) (proxy : Handler X) (url : str) (pm : ProxyManager) :
    Reply (gmap str Z) * ProxyManager :=
  if is_group proxy then
    let proxies := members now m proxy in
    let names := handler_name <$> proxies in
    let '(results, pm) := manager_url_test (proxy :: proxies) (default url (get_latency_test_url proxy)) pm in
    (RJson (foldl (fun r ni => <[ni.2 := match results !! (ni.1 : nat) with Some (Ok (d, _)) => as_millis d | _ => 0 end]> r)
              ∅ (imap pair names)), pm)
  else (RText 404 (lit "proxy " ++ handler_name proxy ++ lit " is not a group"), pm).

(* @src clash-lib/src/app/api/handlers/provider.rs ~^async fn find_proxy_provider_by_name~ find_proxy_provider_by_name *)
Definition find_proxy_provider_by_name {J S} (m : OutboundManager X) (name : str) (next : nat -> Reply J * S) (st : S) : Reply J * S :=
  match get_proxy_provider m name with
  | Some provider => next provider
  | None => (RText 404 (lit "proxy provider " ++ name ++ lit " not found"), st)
  end.
Definition provider_object (m : OutboundManager X) (i : nat) : option (PvObj X) := providers m !! i.
(* @src clash-lib/src/app/api/handlers/provider.rs ~^async fn find_proxy_provider_proxy_by_name~ find_proxy_provider_proxy_by_name *)
Definition find_proxy_provider_proxy_by_name {J S} (provider : PvObj X) (proxy_name : str) (next : Handler X -> Reply J * S) (st : S) :
    Reply J * S :=
  match List.find (fun x => bool_decide (handler_name x = proxy_name)) (pv_proxies (po_provider provider)) with
  | Some proxy => next proxy
  | None => (RText 404 (lit "proxy " ++ proxy_name ++ lit " not found in provider " ++ po_name provider), st)
  end.
(** The durations are written as they are, not in milliseconds. *)
(* @src clash-lib/src/app/api/handlers/provider.rs ~^async fn get_proxy_delay~ provider::get_proxy_delay *)
Definition provider_proxy_delay (proxy : Handler X) (url : str) (pm : ProxyManager) : res (Reply (Z * Z)) * ProxyManager :=
  let '(results, pm) := manager_url_test [proxy] url pm in
  (match head results with
   | Some (Ok (actual, overall)) => Ok (RJson (actual, overall))
   | Some _ => Ok (RText 400 (lit "get delay for " ++ handler_name proxy ++ lit " failed with error"))
   | None => Panic
   end, pm).
(* @src clash-lib/src/app/api/handlers/provider.rs ~^async fn provider_healthcheck~ provider_healthcheck *)
Definition provider_healthcheck (provider : PvObj X) (url : str) (pm : ProxyManager) : Reply unit * ProxyManager :=
  (RText 202 (lit "provider healthcheck"),
   (manager_url_test (hc_check (pv_hc (po_provider provider))) url pm).2).
End proxies.

(** ** Connections and memory ([handlers/{connection,memory}.rs]) *)
(* @src clash-lib/src/app/api/handlers/connection.rs 41 47 get_connections (snapshot) *)
Definition get_connections (h : Headers) (memory : Z) (m : Stats.Manager) : option Stats.Snapshot :=
  if is_request_websocket h then None else Some (Stats.snapshot memory m).
(* @src clash-lib/src/app/api/handlers/connection.rs ~^async fn close_connection~ close_connection *)
Definition close_connection (id : Z) (show_id : Z -> str) (m : Stats.Manager) : Reply unit * Stats.Manager :=
  (RText 200 (lit "connection " ++ show_id id ++ lit " closed"), Stats.close id m).
(* @src clash-lib/src/app/api/handlers/connection.rs ~^async fn close_all_connection~ close_all_connection *)
Definition close_all_connection (m : Stats.Manager) : Reply unit * Stats.Manager :=
  (RText 200 (lit "all connections closed"), Stats.close_all m).

(** The limit the allocator enforces and the one the API shows. *)
Record MemoryLimits : Type := { allocator_limit : Z; memory_limit : Z }.
(* @src clash-lib/src/app/api/handlers/memory.rs ~^pub async fn set_limit~ set_limit *)
Definition set_limit (limit : Z) (_ : MemoryLimits) : Reply unit * MemoryLimits :=
  (RStatus 204, {| allocator_limit := limit; memory_limit := limit |}).

(** ** The listener of the API ([api/mod.rs]) *)
Inductive ApiStart : Type := ApiServe (addr : SocketAddr) | ApiRefused (e : string).
Definition is_loopback (ip : IpAddr) : bool :=
  match ip with V4 a => Z.shiftr a 24 =? 127 | V6 a => a =? 1 end.
Definition api_bind_addr (addr : str) : str := if starts_with (lit ":") addr then lit "127.0.0.1" ++ addr else addr.
(** [bind] is [TcpListener::bind] and the local address of the socket. *)
(* @src clash-lib/src/app/api/mod.rs 145 205 get_api_runner (TCP) *)
Definition api_listen (bind : str -> res SocketAddr) (c : Controller) (tcp_addr : str) : res ApiStart :=
  addr ← bind (api_bind_addr tcp_addr);
  if negb (is_loopback (sa_ip addr)) && bool_decide (default [] (ct_secret c) = []) then
    Ok (ApiRefused "API server is listening on a non-loopback address without a secret. This is insecure!")
  else if negb (is_loopback (sa_ip addr)) && bool_decide (ct_cors_allow_origins c = None) then
    Ok (ApiRefused "API server is listening on a non-loopback address without CORS origins configured. This is insecure!")
  else Ok (ApiServe addr).

(** * Theorems *)

(** ** Changing the running configuration *)
Definition parsed_bind (p : PatchConfigRequest) : option (option BindAddress) :=
  match pc_bind_address p with
  | Some b => match bind_address_from_str b with Ok a => Some (Some a) | _ => None end
  | None => Some None
  end.
(** What a request asks of the options of each listener. *)
Definition ask_bind (p : PatchConfigRequest) (c : CommonInboundOpts) : CommonInboundOpts :=
  match parsed_bind p with Some (Some a) => with_listen a c | _ => c end.
Definition ask_all (p : PatchConfigRequest) (c : CommonInboundOpts) : CommonInboundOpts :=
  match pc_allow_lan p with Some b => with_lan b (ask_bind p c) | None => ask_bind p c end.
(** The current setting, as the API reads it, is the requested one. *)
Definition lan_seen (p : PatchConfigRequest) (keys : list InboundOpts) : Prop :=
  exists b, pc_allow_lan p = Some b /\ (keys = [] \/ exists o, o ∈ keys /\ ci_allow_lan (inbound_common o) = b).
Definition touches_listeners (p : PatchConfigRequest) : bool := rebuild_listeners p || bool_decide (is_Some (pc_allow_lan p)).

Lemma map_common_comp f g o : map_common g (map_common f o) = map_common (fun c => g (f c)) o.
Proof. by destruct o. Qed.
Lemma map_common_ext f g o : (forall c, f c = g c) -> map_common f o = map_common g o.
Proof. intros H. destruct o; cbn; by rewrite H. Qed.

Section patch.
Context (reorder : InboundManager -> InboundManager) (reorder_perm : forall m, reorder m ≡ₚ m).

(** The handles stay with their listeners. *)
Lemma map_opts_split f m : NoDup (map_common f <$> m.*1) ->
  (map_opts reorder f m).*1 ≡ₚ map_common f <$> m.*1 /\ (map_opts reorder f m).*2 ≡ₚ m.*2.
Proof using reorder_perm.
  intros H. pose proof (map_opts_perm reorder reorder_perm f m H) as Hp. split; rewrite Hp;
    clear; induction m as [|kv m IH]; cbn; by f_equiv.
Qed.

Lemma bind_step p (m : list (InboundOpts * option nat)) : NoDup (map_common (ask_bind p) <$> m.*1) ->
  match match pc_bind_address p with
        | Some b => a ← bind_address_from_str b; Ok (set_bind_address reorder a m, true)
        | None => Ok (m, false)
        end with
  | Ok (m1, _) => is_Some (parsed_bind p) /\ m1.*1 ≡ₚ map_common (ask_bind p) <$> m.*1 /\ m1.*2 ≡ₚ m.*2
  | _ => parsed_bind p = None
  end.
Proof using reorder_perm.
  unfold ask_bind, parsed_bind. destruct (pc_bind_address p) as [b|].
  - destruct (bind_address_from_str b) as [a| |]; rstep; [|done..]. intros H. split; [by eexists|]. by apply map_opts_split.
  - intros _. split_and!; [by eexists| |done]. clear. induction m.*1 as [|o l IH]; [done|]. cbn.
    rewrite map_common_id by done. by f_equiv.
Qed.

Lemma lan_step p (m : list (InboundOpts * option nat)) :
  NoDup (map_common (ask_all p) <$> m.*1) ->
  forall m1 : InboundManager, m1.*1 ≡ₚ map_common (ask_bind p) <$> m.*1 -> m1.*2 ≡ₚ m.*2 ->
  let '(m2, lan) := patch_lan reorder p m1 in
  m2.*2 ≡ₚ m.*2 /\ NoDup m2.*1 /\
  (m2.*1 ≡ₚ map_common (ask_all p) <$> m.*1 /\ (lan = false -> pc_allow_lan p = None) \/
   m2 = m1 /\ lan = false /\ lan_seen p m1.*1).
Proof using reorder_perm.
  intros Hnd m1 H1 H2. unfold patch_lan, ask_all in *. destruct (pc_allow_lan p) as [b|] eqn:Eb.
  - assert (map_common (with_lan b) <$> m1.*1 ≡ₚ map_common (fun c => with_lan b (ask_bind p c)) <$> m.*1) as Hc.
    { rewrite H1, <- list_fmap_compose. erewrite list_fmap_ext; [done|]. intros i o _. apply map_common_comp. }
    rewrite <- Hc in Hnd. case_bool_decide as Hl.
    + split_and!; [done|by eapply NoDup_fmap_1|]. right. split_and!; [done|done|]. exists b. split; [done|].
      destruct m1 as [|[o h] m1]; [by left|right]. exists o. split; [left|done].
    + destruct (map_opts_split _ m1 Hnd) as [E1 E2]. unfold set_allow_lan. rewrite E1, E2. split_and!; [done|done|]. by left.
  - split_and!; [done|by rewrite H1|]. by left.
Qed.

(** The listeners after a request, before they are restarted. *)
Lemma patch_steps p (m : list (InboundOpts * option nat)) :
  NoDup (map_common (ask_all p) <$> m.*1) -> NoDup (map_common (ask_bind p) <$> m.*1).
Proof.
  clear reorder reorder_perm. unfold ask_all. destruct (pc_allow_lan p) as [b|]; [|done]. intros H.
  apply (NoDup_fmap_1 (map_common (with_lan b))). erewrite <- list_fmap_compose, list_fmap_ext; [exact H|].
  intros i o _. apply map_common_comp.
Qed.

(** C10: what a PATCH of the configuration does, when it makes no two
    listeners the same and every running task belongs to a listener.  An
    invalid bind address refuses the request and changes nothing.  Otherwise
    the mode, the log settings and IPv6 are as requested or as before; every
    listener has the requested address and LAN setting, except that the LAN
    setting is not touched where the first listener looked at has it
    already; the ports stay as they were, whatever ports are asked for.  If
    an address or a port is asked for, the listeners are restarted and
    exactly those of the new options run; if nothing about them is asked for,
    they are left alone. *)
Theorem patch_configs_spec (p : PatchConfigRequest) (st : ConfigState) :
  NoDup (map_common (ask_all p) <$> (cs_inbounds st).*1) -> fresh (cs_tasks st) -> owned (cs_inbounds st) (cs_tasks st) ->
  let '(r, st') := patch_configs reorder p st in
  match parsed_bind p with
  | None => r = RText 400 (lit "invalid bind address: " ++ default [] (pc_bind_address p)) /\ st' = st
  | Some _ =>
    r = RStatus 202 /\ cs_mode st' = default (cs_mode st) (pc_mode p) /\
    cs_log_level st' = default (cs_log_level st) (pc_log_level p) /\
    cs_log_timestamp st' = default (cs_log_timestamp st) (pc_log_timestamp p) /\
    cs_ipv6 st' = default (cs_ipv6 st) (pc_ipv6 p) /\
    ((cs_inbounds st').*1 ≡ₚ map_common (ask_all p) <$> (cs_inbounds st).*1 \/
     (cs_inbounds st').*1 ≡ₚ map_common (ask_bind p) <$> (cs_inbounds st).*1 /\ lan_seen p (cs_inbounds st').*1) /\
    fresh (cs_tasks st') /\ owned (cs_inbounds st') (cs_tasks st') /\
    (rebuild_listeners p = true -> serves (cs_inbounds st') (cs_tasks st')) /\
    (touches_listeners p = false -> cs_inbounds st' = cs_inbounds st /\ cs_tasks st' = cs_tasks st)
  end.
Proof using reorder_perm.
  intros Hnd Hf Ho. unfold patch_configs. pose proof (bind_step p (cs_inbounds st) (patch_steps _ _ Hnd)) as Hb.
  destruct (match pc_bind_address p with Some _ => _ | None => _ end) as [[m1 nr]| |] eqn:E1; [|by rewrite Hb..].
  destruct Hb as ([ob Eb] & K1 & V1). rewrite Eb.
  set (mr := if rebuild_listeners p then _ else _).
  assert (mr.1.*1 ≡ₚ map_common (ask_bind p) <$> (cs_inbounds st).*1 /\ mr.1.*2 ≡ₚ (cs_inbounds st).*2 /\
          (rebuild_listeners p = true -> mr.2 = true) /\ (rebuild_listeners p = false -> mr = (cs_inbounds st, false))) as (K2 & V2 & R2 & S2).
  { subst mr. destruct (rebuild_listeners p) eqn:Er; cbn [fst snd].
    - assert (NoDup m1.*1) as Hn1 by (rewrite K1; by apply patch_steps). unfold patch_ports.
      match goal with |- context [change_ports reorder ?q m1] =>
        pose proof (change_ports_unchanged reorder reorder_perm q m1 Hn1) as Hcp; generalize dependent (change_ports reorder q m1) end.
      intros m1' Hcp. split_and!; [|by etrans; [apply fmap_Permutation, Hcp|]|done|done]. by etrans; [apply fmap_Permutation, Hcp|].
    - split_and!; [done|done|done|]. intros _. unfold rebuild_listeners in Er. repeat apply orb_false_iff in Er as [Er ?].
      destruct (pc_bind_address p); [done|]. by injection E1 as <- <-. }
  destruct mr as [m2 nr2]. cbn [fst snd] in *. pose proof (lan_step p _ Hnd m2 K2 V2) as HL.
  destruct (patch_lan reorder p m2) as [m3 lan] eqn:E3. destruct HL as (V3 & N3 & HL).
  assert (owned m3 (cs_tasks st)) as Ho3 by (eapply owned_perm_snd; [|exact Ho]; by symmetry).
  assert (touches_listeners p = false -> nr2 || lan = false /\ m3 = cs_inbounds st) as Ht.
  { unfold touches_listeners. intros [Hr Hl]%orb_false_iff. specialize (S2 Hr). injection S2 as -> ->.
    unfold patch_lan in E3. destruct (pc_allow_lan p); [done|]. by injection E3 as <- <-. }
  destruct (restart_serves m3 (cs_tasks st) Hf Ho3) as (Hs & Hf' & Hk').
  destruct (nr2 || lan) eqn:En; [destruct (restart m3 (cs_tasks st)) as [m4 w4]; cbn [fst snd] in *|];
    split_and!; cbn [cs_inbounds cs_tasks cs_mode cs_log_level cs_log_timestamp cs_ipv6]; try done.
  - rewrite Hk'. destruct HL as [[HL _]|(-> & _ & HL)]; [by left|by right].
  - by apply serves_owned.
  - intros H. by destruct (Ht H).
  - destruct HL as [[HL _]|(-> & _ & HL)]; [by left|by right].
  - intros Hr. by rewrite (R2 Hr) in En.
  - intros H. by destruct (Ht H) as [_ ->].
Qed.
End patch.

(** ** Selecting a proxy *)
Section selecting.
Context {X : Type} {PX : PlainOutbound X} {OB : Outbound (Handler X)} {SD : Type} (now : Z).

(** The proxies of the first provider come first. *)
Lemma retain_new_nodup seen (l : list (Handler X)) :
  NoDup (ob_name <$> l) -> (forall p, p ∈ l -> ob_name p ∉ seen) -> (retain_new seen l).1 = l.
Proof.
  revert seen. induction l as [|p l IH]; intros seen Hnd Hs; cbn [retain_new]; [done|].
  apply NoDup_cons in Hnd as [Hp Hnd]. rewrite bool_decide_false by (apply Hs; left).
  specialize (IH ({[ob_name p]} ∪ seen) Hnd). destruct (retain_new _ l) as [kept seen']. cbn in *. f_equal. apply IH.
  intros q Hq. rewrite elem_of_union, elem_of_singleton. intros [E|E]; [|by apply (Hs q); [right|]].
  apply Hp. rewrite <- E. by apply list_elem_of_fmap_2.
Qed.

Lemma position_prefix name (l k : list (Handler X)) i : position name l = Some i -> position name (l ++ k) = Some i.
Proof.
  unfold position. intros ([j p] & E & ->)%fmap_Some. by rewrite (list_find_app_l _ l k j p E).
Qed.

Lemma first_provider_position name pv rest :
  NoDup (ob_name <$> pv_proxies pv) -> name ∈ ob_name <$> pv_proxies pv ->
  exists i, position name (pv_proxies pv) = Some i /\
    position name (get_proxies_from_providers (P := Handler X) (pv :: rest) false now).1 = Some i.
Proof.
  intros Hnd Hin. pose proof (position_spec name (pv_proxies pv)) as Hp. destruct (position name (pv_proxies pv)) as [i|] eqn:E; [|done].
  exists i. split; [done|]. cbn. pose proof (retain_new_nodup ∅ (pv_proxies pv) Hnd ltac:(set_solver)) as Hk.
  destruct (retain_new ∅ (pv_proxies pv)) as [kept seen]. cbn in Hk. subst kept. by apply position_prefix.
Qed.

(** A selection made is found again by a manager that starts from the cache. *)
Lemma selection_restores (m m' : OutboundManager X) (cache : CacheFile SD) s group name pv rest :
  deref m (sel_pvs s) = pv :: rest -> deref m' (sel_pvs s) = deref m (sel_pvs s) ->
  NoDup (ob_name <$> pv_proxies pv) -> name ∈ ob_name <$> pv_proxies pv -> store_selected cache = true ->
  selector_new (deref m' (sel_pvs s)) (ts_get_selected group (ts_set_selected group name cache)) =
  Ok (select name (cell_value m (sel_cell s)) (members now m (HSelector s))).2.
Proof.
  intros Hd Hd' Hnd Hin Hst. rewrite Hd', ts_selected_get_set, Hst, decide_True by done.
  unfold members. cbn [handler_pvs]. rewrite Hd. destruct (first_provider_position name pv rest Hnd Hin) as (i & E1 & E2).
  unfold selector_new, select. rewrite E2. cbn. by rewrite E1.
Qed.

(** A provider that holds a name twice: the selector counts the name once, the
    restarted one twice, so that the choice is another or out of range. *)
Lemma repeated_name_not_restored (p q : Handler X) pv :
  pv_proxies pv = [p; p; q] -> ob_name p <> ob_name q ->
  position (ob_name q) (get_proxies_from_providers (P := Handler X) [pv] false now).1 = Some 1%nat /\
  selector_new [pv] (Some (ob_name q)) = Ok 2.
Proof.
  intros Hp Hne. unfold selector_new. cbn [head or_panic get_proxies_from_providers]. split.
  - cbn. rewrite Hp. cbn. repeat case_bool_decide; try set_solver. cbn. unfold position. cbn.
    rewrite decide_False, decide_True by done. done.
  - rstep. rewrite Hp. unfold position. cbn. rewrite !decide_False, decide_True by done. done.
Qed.

(** C11: choosing a proxy of a selector, of at most 65536 members, through the
    API.  A name that is a member is accepted: it is stored in the cache if
    selections are stored at all, the selector then uses the member of that
    name, and no other group, provider or handler changes.  When selections
    are stored, the member comes from the group's first provider and the
    names there are all different, a manager that restarts from the cache
    begins with the same choice; when selections are not stored, the cache
    does not change and the restarted selector is on the first proxy.  A name
    that is no member is refused and nothing changes. *)
Theorem update_proxy_selects (proxy : Handler X) (name : str) (m : OutboundManager X) (cache : CacheFile SD) s :
  get_selector_control m (handler_name proxy) = Some s -> is_Some (cells m !! sel_cell s) ->
  zlen (members now m (HSelector s)) <= 2 ^ 16 ->
  let '(r, (m', cache')) := update_proxy now proxy name (m, cache) in
  (name ∈ ob_name <$> members now m (HSelector s) /\
   r = RText 202 (lit "selected proxy " ++ name ++ lit " for " ++ handler_name proxy) /\
   cache' = ts_set_selected (handler_name proxy) name cache /\
   handlers m' = handlers m /\ providers m' = providers m /\ selector_control m' = selector_control m /\
   (forall i, i <> sel_cell s -> cells m' !! i = cells m !! i) /\
   (exists p, ob_name p = name /\ forall oc pm, get_active_proxy now oc pm (HSelector s) m' = Ok (Some p, m')) /\
   (forall pv rest, deref m (sel_pvs s) = pv :: rest -> NoDup (ob_name <$> pv_proxies pv) -> name ∈ ob_name <$> pv_proxies pv ->
      store_selected cache = true ->
      selector_new (deref m' (sel_pvs s)) (ts_get_selected (handler_name proxy) cache') = Ok (cell_value m' (sel_cell s))) /\
   (store_selected cache = false -> cache' = cache /\
      forall pv rest, deref m (sel_pvs s) = pv :: rest ->
        selector_new (deref m' (sel_pvs s)) (ts_get_selected (handler_name proxy) cache') = Ok 0)) \/
  (name ∉ ob_name <$> members now m (HSelector s) /\
   r = RText 400 (lit "select " ++ name ++ lit " for " ++ handler_name proxy ++ lit " failed with error") /\ m' = m /\ cache' = cache).
Proof.
  intros Hs [index Hc] Hlen. unfold update_proxy. rewrite Hs. unfold control_select.
  assert (cell_value m (sel_cell s) = index) as Ei by (unfold cell_value; by rewrite Hc).
  pose proof (selection_restores m (set_cell (sel_cell s) (select name (cell_value m (sel_cell s)) (members now m (HSelector s))).2 m)
                cache s (handler_name proxy) name) as Hrest.
  destruct (selector_select_spec name (cell_value m (sel_cell s)) (members now m (HSelector s)) Hlen) as (Hin & Hout & _).
  destruct (decide (name ∈ ob_name <$> members now m (HSelector s))) as [Hd|Hd].
  - destruct (Hin Hd) as (index' & p & Esel & Hp & _ & Hname). rewrite Esel in *. cbn [snd] in Hrest. cbv beta iota zeta. left.
    assert (cell_value (set_cell (sel_cell s) index' m) (sel_cell s) = index') as Ec.
    { unfold cell_value. cbn. rewrite list_lookup_insert_eq; [done|]. by eapply lookup_lt_Some. }
    split_and!; try done.
    + intros i Hi. cbn. by rewrite list_lookup_insert_ne.
    + exists p. split; [done|]. intros oc pm. unfold get_active_proxy. rewrite Ec.
      change (members now (set_cell (sel_cell s) index' m) (HSelector s)) with (members now m (HSelector s)). by rewrite Hp.
    + intros pv rest Hdr Hnd Hi Hst. rewrite Ec. by eapply Hrest.
    + unfold ts_set_selected, ts_get_selected. intros Hst. rewrite Hst. split; [done|]. intros pv rest Hdr. rewrite Hst.
      change (deref (set_cell (sel_cell s) index' m) (sel_pvs s)) with (deref m (sel_pvs s)). by rewrite Hdr.
  - destruct (Hout Hd) as (e & ->). cbv beta iota zeta. right. split_and!; [done|done| |done]. rewrite Ei. destruct m. unfold set_cell. cbn in *.
    by rewrite list_insert_id.
Qed.

(** The delays of a group are shifted: with the tests ending in their order,
    the first member is given the delay of the group itself, the second that
    of the first member, and the last result is never shown. *)
Lemma group_delay_shifted (probe : Handler X -> str -> Probe * Z) (m : OutboundManager X) g url a b pm :
  is_group g = true -> members now m g = [a; b] -> handler_name a <> handler_name b ->
  let '(results, _) := manager_url_test probe id [g; a; b] (default url (get_latency_test_url g)) pm in
  exists r pm', get_group_delay now probe id m g url pm = (RJson r, pm') /\
    r !! handler_name a = Some (match results !! 0%nat with Some (Ok (d, _)) => as_millis d | _ => 0 end) /\
    r !! handler_name b = Some (match results !! 1%nat with Some (Ok (d, _)) => as_millis d | _ => 0 end).
Proof.
  intros Hg Hm Hab. unfold get_group_delay. rewrite Hg, Hm. destruct (manager_url_test _ _ _ _ _) as [results pm'].
  eexists _, pm'. split; [reflexivity|]. cbn [foldl imap fmap list_fmap fst snd compose].
  rewrite lookup_insert_ne, lookup_insert_eq, lookup_insert_eq by done. done.
Qed.
End selecting.

(** ** Authentication *)

(** With a secret, exactly the requests that carry it reach the handlers: in
    the authorization header or, for a websocket, in the query. *)
Lemma auth_call_exact query_token token req :
  auth_call query_token token req = Inner <->
  token = [] \/ (header_get "upgrade" (ar_headers req) = Some (lit "websocket") /\ query_token (ar_uri req) = Some token) \/
  (exists v, header_get "authorization" (ar_headers req) = Some v /\ header_to_str v = Some (lit "Bearer " ++ token)).
Proof.
  unfold auth_call, auth_is_websocket. case_bool_decide as Ht; [tauto|].
  assert (default [] (header_get "authorization" (ar_headers req) ≫= header_to_str) = lit "Bearer " ++ token <->
          exists v, header_get "authorization" (ar_headers req) = Some v /\ header_to_str v = Some (lit "Bearer " ++ token)) as Hh.
  { destruct (header_get "authorization" _) as [v|]; cbn [mbind option_bind].
    - destruct (header_to_str v) as [h|] eqn:E; cbn; split.
      + intros ->. by exists v.
      + by intros (v' & [= <-] & E'); simplify_eq.
      + done.
      + intros (v' & [= <-] & E'). congruence.
    - split; [done|by intros (v & [=] & _)]. }
  destruct (header_get "upgrade" _) as [u|]; cbn [andb].
  - destruct (decide (u = lit "websocket")) as [->|Hu].
    + rewrite bool_decide_true by done. cbn [andb]. case_bool_decide as Hq; [tauto|].
      case_bool_decide as Hb; rewrite Hh in Hb; split; try tauto; done.
    + rewrite bool_decide_false by done. cbn [andb]. case_bool_decide as Hb; rewrite Hh in Hb; split; try tauto; try done.
      intros [?|[[[= E] _]|?]]; tauto.
  - case_bool_decide as Hb; rewrite Hh in Hb; split; try tauto; try done. by intros [?|[[[=] _]|?]].
Qed.

(** The API never serves an address other hosts can reach without a secret
    and a list of origins. *)
Lemma api_listen_guarded bind c tcp_addr addr :
  api_listen bind c tcp_addr = Ok (ApiServe addr) -> is_loopback (sa_ip addr) = false ->
  default [] (ct_secret c) <> [] /\ is_Some (ct_cors_allow_origins c).
Proof.
  unfold api_listen. intros (a & _ & H)%res_bind_ok Hl. revert H. case_bool_decide as Hs; case_bool_decide as Hc;
    rewrite ?andb_true_r, ?andb_false_r; destruct (is_loopback (sa_ip a)) eqn:E; cbn [negb]; intros [= ->]; try congruence.
  split; [done|]. by destruct (ct_cors_allow_origins c).
Qed.

(** ** Examples *)
Module ApiWitness.
Import OutboundSpec.
#[local] Existing Instances table_plain table_handlers.

(** The group [pick] of a loaded table, ready to be asked. *)
Definition pick_ready (l : loaded (OutboundManager table_outbound * gmap str (Connector (Handler table_outbound)))) : bool :=
  match l with
  | Loaded (m, _) =>
    match get_selector_control m (lit "pick") with
    | Some s => bool_decide (is_Some (cells m !! sel_cell s)) && (zlen (members 0 m (HSelector s)) <=? 2 ^ 16) &&
                bool_decide (handler_name (HSelector (X := table_outbound) s) = lit "pick")
    | None => false
    end
  | Failed _ => false
  end.
Lemma pick_is_ready : exists m conn s, table_manager = Loaded (m, conn) /\
  get_selector_control m (handler_name (HSelector (X := table_outbound) s)) = Some s /\
  is_Some (cells m !! sel_cell s) /\ zlen (members 0 m (HSelector s)) <= 2 ^ 16 /\
  handler_name (HSelector (X := table_outbound) s) = lit "pick".
Proof.
  assert (pick_ready table_manager = true) as H by (vm_compute; reflexivity).
  destruct table_manager as [[m conn]|]; [|discriminate H]. unfold pick_ready in H.
  destruct (get_selector_control m (lit "pick")) as [s|] eqn:E; [|discriminate H].
  apply andb_true_iff in H as [[H1%bool_decide_eq_true H2]%andb_true_iff H3%bool_decide_eq_true]. exists m, conn, s.
  rewrite H3. split_and!; [done..|lia|done].
Qed.

Lemma update_proxy_selects_witness : exists m conn s, table_manager = Loaded (m, conn) /\
  ((update_proxy 0 (HSelector s) (lit "ss") (m, table_cache)).1 = RText 202 (lit "selected proxy ss for pick") \/
   lit "ss" ∉ ob_name <$> members 0 m (HSelector s)).
Proof.
  destruct pick_is_ready as (m & conn & s & Em & Hs & Hc & Hl & Hn). exists m, conn, s. split; [exact Em|].
  pose proof (update_proxy_selects 0 (HSelector s) (lit "ss") m table_cache s Hs Hc Hl) as H.
  destruct (update_proxy 0 (HSelector s) (lit "ss") (m, table_cache)) as [r [m' cache']].
  destruct H as [(_ & Hr & _)|(Hx & _)]; [left|right; exact Hx]. cbn [fst]. rewrite Hr, Hn. reflexivity.
Defined.

(** A state with two listeners that run. *)
Definition two_listeners : list InboundOpts :=
  [InHttp {| ci_name := lit "HTTP-IN"; ci_listen := all_v4; ci_allow_lan := false; ci_port := 7890; ci_fw_mark := None |};
   InSocks {| ci_name := lit "SOCKS-IN"; ci_listen := all_v4; ci_allow_lan := false; ci_port := 7891; ci_fw_mark := None |} true].
Definition no_tasks : Tasks := {| running := ∅; next_task := 0 |}.
Definition running_state : ConfigState :=
  let '(m, w) := restart (inbounds_new id two_listeners) no_tasks in
  {| cs_inbounds := m; cs_tasks := w; cs_mode := RmRule; cs_log_level := LlInfo; cs_log_timestamp := true; cs_ipv6 := false |}.
Definition port_request : PatchConfigRequest := {|
  pc_port := Some 8080; pc_socks_port := None; pc_redir_port := None; pc_tproxy_port := None; pc_mixed_port := None;
  pc_bind_address := Some (lit "localhost"); pc_mode := Some RmDirect; pc_log_level := None; pc_log_timestamp := None;
  pc_ipv6 := None; pc_allow_lan := None |}.

Lemma patch_configs_spec_witness :
  let st' := (patch_configs id port_request running_state).2 in
  cs_mode st' = RmDirect /\ serves (cs_inbounds st') (cs_tasks st').
Proof.
  pose proof (patch_configs_spec id (fun m => reflexivity m) port_request running_state) as H.
  assert (NoDup (map_common (ask_all port_request) <$> (cs_inbounds running_state).*1)) as H1
    by (apply (bool_decide_unpack _); vm_compute; exact I).
  destruct (restart_serves (inbounds_new id two_listeners) no_tasks) as (H3%serves_owned & H2 & _).
  { intros t _. apply lookup_empty. }
  { intros t [r Hr]. cbn in Hr. by rewrite lookup_empty in Hr. }
  specialize (H H1 H2 H3). destruct (patch_configs id port_request running_state) as [r st'].
  change (parsed_bind port_request) with (Some (Some bind_local)) in H. cbn iota in H.
  destruct H as (_ & Hm & _ & _ & _ & _ & _ & _ & Hs & _). split; [exact Hm|exact (Hs eq_refl)].
Defined.

(** The request asks for another port: it is not used. *)
Lemma patch_port_ignored :
  let st' := (patch_configs id port_request running_state).2 in
  port (get_ports (cs_inbounds running_state)) = Some 7890 /\ port (get_ports (cs_inbounds st')) = Some 7890.
Proof. vm_compute. done. Qed.
End ApiWitness.
