(* ===== verification/Runtime.v ===== *)
(** * Starting and reloading ([lib.rs], [app/api/handlers/config.rs])

    How a configuration becomes the running program, and how the API
    replaces it while the program runs. *)

From S2P Require Import Prelude F64 Str Net Session Trie Geo Rule Router ProxyManager Groups Profile.
From S2P Require Import DnsConfig OutboundManager OutboundSpec Converters Crypto Inbound Dispatcher Config DnsServer InboundManager Api.

(** ** Where a configuration comes from *)

(* @src clash-lib/src/lib.rs ~^pub enum Config~ Config *)
Inductive ConfigSource (D I : Type) : Type :=
| SrcDef (c : D)
| SrcInternal (c : I)
| SrcFile (path : str)
| SrcStr (s : str).
Arguments SrcDef {D I} c.
Arguments SrcInternal {D I} c.
Arguments SrcFile {D I} path.
Arguments SrcStr {D I} s.

Section source.
Context {D I V : Type}.
(** The file system, the YAML reader, the merging of anchors, the derived
    reader of the configuration, and its conversion. *)
Context (read_to_string : str -> res str) (yaml : str -> option V) (apply_merge : V -> option V) (from_value : V -> option D).
Context (try_into : D -> res I).

(* @src clash-lib/src/config/def.rs ~^impl FromStr for Config~ def::Config::from_str *)
Definition def_from_str (s : str) : res D :=
  val ← ok_or (yaml s) "couldn't not parse config content";
  val ← ok_or (apply_merge val) "failed to process anchors in config content";
  ok_or (from_value val) "could not parse config content".
(* @src clash-lib/src/config/def.rs ~^impl TryFrom<PathBuf> for Config~ def::Config::try_from *)
Definition def_from_path (path : str) : res D := content ← read_to_string path; def_from_str content.
(* @src clash-lib/src/lib.rs ~    pub fn try_parse~ Config::try_parse *)
Definition try_parse (c : ConfigSource D I) : res I :=
  match c with
  | SrcDef c => try_into c
  | SrcInternal c => Ok c
  | SrcFile file => c ← def_from_path file; try_into c
  | SrcStr s => c ← def_from_str s; try_into c
  end.
End source.

(** ** Components *)

(** What the world outside gives: name resolution by the system, the HTTP
    client, the databases (read or downloaded), the tun device, the sockets
    of the DNS server. *)
Record Outside {NL : IpNetLib} {FN : FamilyNetLib} {LL : ListenLib} : Type := {
  ou_system_resolver : bool -> res unit;
  ou_http_client : res unit;
  ou_mmdb : str -> str -> res MmdbLookup;
  ou_geosite : str -> str -> res (str -> option GeoSite);
  ou_tun : TunConfig -> res bool;
  ou_dns : Bindings (LL := LL);
}.

(* @src clash-lib/src/common/mmdb.rs 13 14 DEFAULT_COUNTRY_MMDB_DOWNLOAD_URL *)
Definition DEFAULT_COUNTRY_MMDB_DOWNLOAD_URL : str :=
  lit "https://github.com/Loyalsoldier/geoip/releases/latest/download/Country.mmdb".
(* @src clash-lib/src/common/mmdb.rs 15 15 DEFAULT_ASN_MMDB_DOWNLOAD_URL *)
Definition DEFAULT_ASN_MMDB_DOWNLOAD_URL : str := lit "https://git.io/GeoLite2-ASN.mmdb".
(* @src clash-lib/src/common/geodata/mod.rs 7 7 DEFAULT_GEOSITE_DOWNLOAD_URL *)
Definition DEFAULT_GEOSITE_DOWNLOAD_URL : str :=
  lit "https://github.com/Loyalsoldier/v2ray-rules-dat/releases/download/202406182210/geosite.dat".

Section components.
Context {RX : RegexLib} {NL : IpNetLib} {FN : FamilyNetLib} {UC : UnicodeLib} {LL : ListenLib} {CL : ConverterLib}.
Context {RuleProviderDef : Type} {P SD : Type} {OB : Outbound (Handler PlainHandler)}.
Context (parse_uri : str -> option ProxyManager.Uri) (fetched : str -> option (list PlainHandler)) (now : Z).
Context (co : ConfigOrders) (mo : MapOrders (X := PlainHandler)) (reorder : InboundManager -> InboundManager).
(** The rule providers of the configuration once they are loaded, and the
    cache file. *)
Context (load_rule_providers : gmap str RuleProviderDef -> gmap str P) (cache_file : bool -> CacheFile SD) (ou : Outside).

(* @src clash-lib/src/lib.rs ~^struct RuntimeComponents~ RuntimeComponents *)
Record RuntimeComponents : Type := {
  rc_cache_store : CacheFile SD; rc_outbound_manager : OutboundManager PlainHandler;
  rc_connectors : gmap str (Connector (Handler PlainHandler)); rc_router : Router (P := P); rc_mode : RunMode;
  rc_tcp_buffer_size : option Z; rc_authenticator : PlainAuthenticator; rc_inbound_manager : InboundManager;
  rc_tun_runner : bool; rc_dns_listener : bool }.

Definition opt_res {A B} (o : option A) (f : A -> res B) : res (option B) :=
  match o with Some a => Some <$> f a | None => Ok None end.

(** In the order of the source; the plain outbounds are made once there, and
    given to the HTTP client and the manager. *)
(* @src clash-lib/src/lib.rs ~^async fn create_components~ create_components *)
Definition create_components (c : InternalConfig (RuleProviderDef := RuleProviderDef)) : loaded RuntimeComponents :=
  let cache_store := cache_file (ic_store_selected c) in
  _ ← of_res (ou_system_resolver ou (DnsConfig.ipv6 (ic_dns c)));
  _ ← of_res (create_plain_outbounds co c);
  _ ← of_res (ou_http_client ou);
  country_mmdb ← of_res (opt_res (g_mmdb (ic_general c)) (fun file =>
    ou_mmdb ou file (default DEFAULT_COUNTRY_MMDB_DOWNLOAD_URL (g_mmdb_download_url (ic_general c)))));
  '(outbound_manager, connectors) ← create_outbounds parse_uri fetched now co mo c cache_store;
  geodata ← of_res (opt_res (g_geosite (ic_general c)) (fun file =>
    ou_geosite ou file (default DEFAULT_GEOSITE_DOWNLOAD_URL (g_geosite_download_url (ic_general c)))));
  asn_mmdb ← of_res (opt_res (g_asn_mmdb (ic_general c)) (fun file =>
    ou_mmdb ou file (default DEFAULT_ASN_MMDB_DOWNLOAD_URL (g_asn_mmdb_download_url (ic_general c)))));
  router ← of_res (router_new (ic_rules c) (load_rule_providers (ic_rule_providers c)) country_mmdb asn_mmdb geodata);
  let inbound_manager := inbounds_new reorder (ic_listeners c) in
  tun_runner ← of_res (ou_tun ou (ic_tun c));
  Loaded {| rc_cache_store := cache_store; rc_outbound_manager := outbound_manager; rc_connectors := connectors;
            rc_router := router; rc_mode := g_mode (ic_general c); rc_tcp_buffer_size := mjoin (ic_tcp_buffer_size c);
            rc_authenticator := authenticator_new (ic_users c); rc_inbound_manager := inbound_manager;
            rc_tun_runner := tun_runner; rc_dns_listener := get_dns_listener (ou_dns ou) (DnsConfig.listen (ic_dns c)) |}.
End components.

(** ** The running process *)

(** What the process keeps of the components: the inbound manager, and
    whether there is a tun device, a DNS server and an API to run. *)
Record Parts : Type := { pt_inbounds : InboundManager; pt_tun : bool; pt_dns : bool; pt_api : bool }.

(** The API runs when it has an address. *)
(* @src clash-lib/src/app/api/mod.rs 53 60 get_api_runner (addresses) *)
Definition has_api (c : Controller) : bool :=
  negb (bool_decide (ct_external_controller c = None) && bool_decide (ct_external_controller_ipc c = None)).

(** The tasks besides the listeners, each with the components whose runner it
    is. *)
Inductive AuxKind : Type := AuxTun | AuxDns | AuxApi.
Definition Aux : Type := AuxKind * Parts.
Record AuxTasks : Type := { ax_running : gmap nat Aux; ax_next : nat }.
Definition ax_spawn (run : bool) (k : Aux) (w : AuxTasks) : option nat * AuxTasks :=
  if run then (Some (ax_next w), {| ax_running := <[ax_next w := k]> (ax_running w); ax_next := S (ax_next w) |}) else (None, w).
Definition ax_abort (h : option nat) (w : AuxTasks) : AuxTasks :=
  match h with Some t => {| ax_running := delete t (ax_running w); ax_next := ax_next w |} | None => w end.

(** [ps_captured] is the manager the reloading task was given at the start,
    [ps_current] the one of the components in use (the same object until the
    first reload); the handles are those of [GlobalState]. *)
(* @src clash-lib/src/lib.rs ~^pub struct GlobalState~ GlobalState *)
Record Process : Type := {
  ps_tasks : Tasks; ps_captured : InboundManager; ps_current : InboundManager;
  ps_aux : AuxTasks; ps_tun : option nat; ps_dns : option nat; ps_api : option nat }.

Definition no_listeners_yet : Tasks := {| running := ∅; next_task := 0 |}.
Definition no_aux_yet : AuxTasks := {| ax_running := ∅; ax_next := 0 |}.

Section process.
Context {Src I : Type} (parse : Src -> res I) (create : I -> loaded Parts).

(* @src clash-lib/src/lib.rs 230 292 start (components and runners) *)
Definition start (c : I) : loaded Process :=
  parts ← create c;
  let '(m, w) := start_all_listeners (pt_inbounds parts) no_listeners_yet in
  let '(tun, ax) := ax_spawn (pt_tun parts) (AuxTun, parts) no_aux_yet in
  let '(dns, ax) := ax_spawn (pt_dns parts) (AuxDns, parts) ax in
  let '(api, ax) := ax_spawn (pt_api parts) (AuxApi, parts) ax in
  Loaded {| ps_tasks := w; ps_captured := m; ps_current := m; ps_aux := ax; ps_tun := tun; ps_dns := dns; ps_api := api |}.

(** Replacing the components: the captured manager is stopped, whichever is
    in use. *)
(* @src clash-lib/src/lib.rs 335 383 start (replacing the components) *)
Definition replace_components (parts : Parts) (p : Process) : Process :=
  let '(captured, w) := shutdown (ps_captured p) (ps_tasks p) in
  let ax := ax_abort (ps_api p) (ax_abort (ps_dns p) (ax_abort (ps_tun p) (ps_aux p))) in
  let '(m, w) := restart (pt_inbounds parts) w in
  let '(tun, ax) := ax_spawn (pt_tun parts) (AuxTun, parts) ax in
  let '(dns, ax) := ax_spawn (pt_dns parts) (AuxDns, parts) ax in
  let '(api, ax) := ax_spawn (pt_api parts) (AuxApi, parts) ax in
  {| ps_tasks := w; ps_captured := captured; ps_current := m; ps_aux := ax; ps_tun := tun; ps_dns := dns; ps_api := api |}.

(** A request to reload: the configuration, and whether the client still
    waits when the answer is given.  [answered] is whether it gets one; the
    handler panics otherwise. *)
Record Request : Type := { rq_source : Src; rq_waiting : bool }.
Inductive Reloaded : Type := Running (p : Process) (answered : bool) | Ended (e : LoadError).
(* @src clash-lib/src/lib.rs 319 384 start (reloading task) *)
Definition reload (r : Request) (p : Process) : Reloaded :=
  match parse (rq_source r) with
  | Ok config =>
    match create config with
    | Loaded parts => if rq_waiting r then Running (replace_components parts p) true else Ended Panicked
    | Failed e => Ended e
    end
  | Err _ => Running p false
  | Panic => Ended Panicked
  end.

Fixpoint reloads (rs : list Request) (p : Process) : Reloaded :=
  match rs with
  | [] => Running p true
  | r :: rs' => match reload r p with Running p _ => reloads rs' p | Ended e => Ended e end
  end.
End process.

(** *** The request ([handlers/config.rs]) *)
Section update.
Context {D I : Type}.
(** [is_absolute], [join] and [exists] of the file system. *)
Context (is_absolute : str -> bool) (join : str -> str -> str) (exists_file : str -> bool).

(** Refused, or a configuration to send to the reloading task and the text of
    the answer. *)
(* @src clash-lib/src/app/api/handlers/config.rs ~^async fn update_configs~ update_configs *)
Definition update_configs (cwd : str) (path payload : option str) : Reply unit + (ConfigSource D I * str) :=
  match path, payload with
  | _, Some payload => inr (SrcStr payload, lit "config reloading from payload")
  | Some path, None =>
    let path := if is_absolute path then path else join cwd path in
    if exists_file path then inr (SrcFile path, lit "config reloading from file " ++ path)
    else inl (RText 400 (lit "config file " ++ path ++ lit " not found"))
  | None, None => inl (RText 400 (lit "no path or payload provided"))
  end.
End update.

(** ** The limit of the allocator *)

(** Set from the configuration at the start, and set to zero when the API is
    made. *)
(* @src clash-lib/src/lib.rs 183 185 start_scaffold (allocator limit) *)
Definition scaffold_limit (c : General) (limit : Z) : Z := default limit (g_allocator_limit c).
(* @src clash-lib/src/app/api/mod.rs 53 78 get_api_runner (allocator limit) *)
Definition api_limit (c : Controller) (limit : Z) : Z := if has_api c then 0 else limit.
Definition limit_after_start (c : General) : Z := api_limit (g_controller c) (scaffold_limit c 0).

(** ** The runtime controller *)
(* @src clash-lib/src/lib.rs ~^pub struct RuntimeController~ RuntimeController *)
Record RuntimeController : Type := { runtime_counter : Z; shutdown_txs : gset Z }.
(* @src clash-lib/src/lib.rs ~    pub fn register_runtime~ RuntimeController::register_runtime *)
Definition register_runtime (c : RuntimeController) : Z * RuntimeController :=
  (runtime_counter c, {| runtime_counter := wrap 64 (runtime_counter c + 1); shutdown_txs := {[runtime_counter c]} ∪ shutdown_txs c |}).
(* @src clash-lib/src/lib.rs ~    pub fn unregister_runtime~ RuntimeController::unregister_runtime *)
Definition unregister_runtime (id : Z) (c : RuntimeController) : RuntimeController :=
  {| runtime_counter := runtime_counter c; shutdown_txs := shutdown_txs c ∖ {[id]} |}.
(* @src clash-lib/src/lib.rs ~^pub fn shutdown~ shutdown *)
Definition shutdown_all (c : RuntimeController) : bool * RuntimeController :=
  if runtime_counter c =? 0 then (false, c) else (true, {| runtime_counter := runtime_counter c; shutdown_txs := ∅ |}).

(** * Theorems *)

(** ** The tasks besides the listeners *)
Definition ax_fresh (w : AuxTasks) : Prop := forall t, (ax_next w <= t)%nat -> ax_running w !! t = None.
(** Exactly the tasks of the components [parts] run, held by the three handles:
    the tun device, the DNS server and the API, each where [parts] has it. *)
Record aux_held (parts : Parts) (tun dns api : option nat) (w : AuxTasks) : Prop := {
  ah_fresh : ax_fresh w;
  ah_running : forall t k, ax_running w !! t = Some k <->
    (k = (AuxTun, parts) /\ tun = Some t) \/ (k = (AuxDns, parts) /\ dns = Some t) \/ (k = (AuxApi, parts) /\ api = Some t);
  ah_tun : is_Some tun <-> pt_tun parts = true;
  ah_dns : is_Some dns <-> pt_dns parts = true;
  ah_api : is_Some api <-> pt_api parts = true;
}.

Lemma ax_abort_running h w t : ax_running (ax_abort h w) !! t = if decide (h = Some t) then None else ax_running w !! t.
Proof.
  destruct h as [t'|]; cbn; [|by rewrite decide_False]. destruct (decide (t' = t)) as [->|Hne].
  - by rewrite lookup_delete_eq, decide_True.
  - by rewrite lookup_delete_ne, decide_False by congruence.
Qed.
Lemma ax_abort_fresh h w : ax_fresh w -> ax_fresh (ax_abort h w).
Proof.
  intros H t Ht. rewrite ax_abort_running. case_decide; [done|]. apply H. by destruct h.
Qed.
Lemma aux_aborted parts tun dns api w :
  aux_held parts tun dns api w ->
  ax_fresh (ax_abort api (ax_abort dns (ax_abort tun w))) /\ ax_running (ax_abort api (ax_abort dns (ax_abort tun w))) = ∅.
Proof.
  intros [Hf Hr _ _ _]. split; [by repeat apply ax_abort_fresh|]. apply map_empty. intros t. rewrite !ax_abort_running.
  repeat case_decide; try done. apply eq_None_not_Some. intros [k Hk]. apply Hr in Hk. naive_solver.
Qed.

Lemma ax_spawn_spec run k w :
  ax_fresh w ->
  let '(h, w') := ax_spawn run k w in
  ax_fresh w' /\ (forall t, h = Some t -> ax_running w !! t = None) /\ (is_Some h <-> run = true) /\
  forall t k', ax_running w' !! t = Some k' <-> ax_running w !! t = Some k' \/ (k' = k /\ h = Some t).
Proof.
  intros Hf. destruct run; cbn.
  - split_and!; [|intros t [= <-]; by apply Hf|split; [done|by eexists]|].
    + intros t Ht. cbn in *. rewrite lookup_insert_ne by lia. apply Hf. lia.
    + intros t k'. cbn. rewrite lookup_insert_Some. split.
      * intros [[<- <-]|[_ ?]]; auto.
      * intros [H|[-> [= <-]]]; [|auto]. right. split; [|done]. intros <-. rewrite Hf in H; done.
  - split_and!; [done|done|split; [by intros [? [=]]|done]|]. intros t k'. split; [auto|by intros [?|[_ [=]]]].
Qed.

Lemma aux_started parts w :
  ax_fresh w -> ax_running w = ∅ ->
  let '(tun, w1) := ax_spawn (pt_tun parts) (AuxTun, parts) w in
  let '(dns, w2) := ax_spawn (pt_dns parts) (AuxDns, parts) w1 in
  let '(api, w3) := ax_spawn (pt_api parts) (AuxApi, parts) w2 in
  aux_held parts tun dns api w3.
Proof.
  intros Hf He. pose proof (ax_spawn_spec (pt_tun parts) (AuxTun, parts) w Hf) as H1. destruct (ax_spawn (pt_tun parts) _ w) as [tun w1].
  destruct H1 as (F1 & _ & N1 & R1). pose proof (ax_spawn_spec (pt_dns parts) (AuxDns, parts) w1 F1) as H2.
  destruct (ax_spawn (pt_dns parts) _ w1) as [dns w2]. destruct H2 as (F2 & _ & N2 & R2).
  pose proof (ax_spawn_spec (pt_api parts) (AuxApi, parts) w2 F2) as H3. destruct (ax_spawn (pt_api parts) _ w2) as [api w3].
  destruct H3 as (F3 & _ & N3 & R3). split; [done| |done..]. intros t k. rewrite R3, R2, R1, He, lookup_empty.
  naive_solver.
Qed.

(** ** The listeners *)

(** A manager none of whose listeners runs. *)
Definition stopped (m : InboundManager) : Prop := forall t, ~ holds m t.

Lemma stop_listeners_stopped m w : stopped (stop_listeners m w).1.
Proof. intros t. unfold holds. cbn. rewrite <- list_fmap_compose. rewrite list_elem_of_fmap. by intros (kv & [=] & _). Qed.

Lemma restart_stopped m w : fresh w -> stopped m ->
  let '(m', w') := restart m w in
  m'.*1 = m.*1 /\ fresh w' /\
  forall t r, running w' !! t = Some r <-> running w !! t = Some r \/ exists o, (o, Some t) ∈ m' /\ build_network_listeners o = Some r.
Proof.
  intros Hf Hs. destruct (start_all_started m w Hf) as [Hk _ Hf' _ Hr _]. unfold restart.
  destruct (start_all_listeners m w) as [m' w']. cbn [fst snd] in *. split_and!; [done|done|].
  intros t r. rewrite Hr, (proj2 (stop_listeners_running m w)), decide_False by apply Hs. done.
Qed.

Section reloading.
Context {Src I : Type} (parse : Src -> res I) (create : I -> loaded Parts).
(** New components have no listener running. *)
Hypothesis create_stopped : forall c parts, create c = Loaded parts -> stopped (pt_inbounds parts).

(** The configurations that were applied. *)
Definition applied (rs : list (Request (Src := Src))) : list I := omap (fun r => res_ok (parse (rq_source r))) rs.

(** The listeners of each manager of [ms] run, and nothing else. *)
Definition all_run (ms : list InboundManager) (w : Tasks) : Prop :=
  forall t r, running w !! t = Some r <-> exists m o, m ∈ ms /\ (o, Some t) ∈ m /\ build_network_listeners o = Some r.
Definition made_from (c : I) (m : InboundManager) : Prop := exists parts, create c = Loaded parts /\ m.*1 = (pt_inbounds parts).*1.

(** The other tasks are those of the last configuration. *)
Definition aux_of_last (cs : list I) (p : Process) : Prop :=
  exists parts, create <$> last cs = Some (Loaded parts) /\ aux_held parts (ps_tun p) (ps_dns p) (ps_api p) (ps_aux p).

(** The state of the reloads: which managers run, and what the reloading task
    would stop. *)
Record reload_inv (cs : list I) (ms : list InboundManager) (p : Process) : Prop := {
  ri_fresh : fresh (ps_tasks p);
  ri_made : Forall2 made_from cs ms;
  ri_last : last ms = Some (ps_current p);
  ri_run : all_run ms (ps_tasks p);
  ri_aux : aux_of_last cs p;
}.

Lemma start_inv c p : start create c = Loaded p -> reload_inv [c] [ps_captured p] p /\ ps_current p = ps_captured p.
Proof using create_stopped.
  unfold start. intros (parts & Hc & H)%loaded_bind_loaded.
  pose proof (restart_stopped (pt_inbounds parts) no_listeners_yet ltac:(by intros t _) (create_stopped _ _ Hc)) as Hs.
  unfold restart in Hs. destruct (start_all_listeners _ _) as [m w]. destruct Hs as (Hk & Hf & Hr).
  pose proof (aux_started parts no_aux_yet ltac:(by intros t _) eq_refl) as Ha.
  destruct (ax_spawn (pt_tun parts) _ _) as [tun w1]. destruct (ax_spawn (pt_dns parts) _ _) as [dns w2].
  destruct (ax_spawn (pt_api parts) _ _) as [api w3]. injection H as <-. split; [|done].
  split; cbn; [done| |done| |by exists parts; rewrite <- Hc].
  - constructor; [by exists parts|constructor].
  - intros t r. rewrite Hr. cbn. rewrite lookup_empty. setoid_rewrite list_elem_of_singleton. naive_solver.
Qed.

(** Replacing the components: the tasks of the captured manager end, those of
    the new one are added. *)
Lemma replace_effect cs parts p :
  fresh (ps_tasks p) -> aux_of_last cs p -> stopped (pt_inbounds parts) ->
  let p' := replace_components parts p in
  fresh (ps_tasks p') /\ aux_held parts (ps_tun p') (ps_dns p') (ps_api p') (ps_aux p') /\ stopped (ps_captured p') /\
  (ps_current p').*1 = (pt_inbounds parts).*1 /\
  forall t r, running (ps_tasks p') !! t = Some r <->
    (running (ps_tasks p) !! t = Some r /\ ~ holds (ps_captured p) t) \/
    exists o, (o, Some t) ∈ ps_current p' /\ build_network_listeners o = Some r.
Proof.
  clear. intros Hf (old & _ & Ha) Hp. unfold replace_components, shutdown.
  pose proof (stop_listeners_running (ps_captured p) (ps_tasks p)) as [Hn Hsr].
  pose proof (stop_listeners_fresh (ps_captured p) (ps_tasks p) Hf) as Hf1.
  pose proof (stop_listeners_stopped (ps_captured p) (ps_tasks p)) as Hs1.
  destruct (stop_listeners (ps_captured p) (ps_tasks p)) as [captured w]. cbn [fst snd] in *.
  destruct (aux_aborted _ _ _ _ _ Ha) as [Haf Hae]. pose proof (restart_stopped (pt_inbounds parts) w Hf1 Hp) as Hrs.
  destruct (restart (pt_inbounds parts) w) as [m w']. destruct Hrs as (Hk & Hf' & Hr').
  pose proof (aux_started parts _ Haf Hae) as Has.
  destruct (ax_spawn (pt_tun parts) _ _) as [tun w1]. destruct (ax_spawn (pt_dns parts) _ _) as [dns w2].
  destruct (ax_spawn (pt_api parts) _ _) as [api w3]. cbn. split_and!; [done..|].
  intros t r. rewrite Hr', Hsr. case_decide; naive_solver.
Qed.

(** A process whose captured manager is stopped keeps all its listeners. *)
Lemma replace_adds c cs ms parts p :
  create c = Loaded parts -> reload_inv cs ms p -> stopped (ps_captured p) ->
  exists m, reload_inv (cs ++ [c]) (ms ++ [m]) (replace_components parts p) /\ stopped (ps_captured (replace_components parts p)).
Proof using create_stopped.
  intros Hc [Hf Hm Hl Hr Ha] Hs. unfold all_run in Hr.
  destruct (replace_effect _ parts p Hf Ha (create_stopped _ _ Hc)) as (Hf' & Ha' & Hs' & Hk & Hr').
  exists (ps_current (replace_components parts p)). split; [|done].
  split; [done| | | |exists parts; by rewrite last_snoc, <- Hc].
  - apply Forall2_app; [done|]. constructor; [by exists parts|constructor].
  - by rewrite last_snoc.
  - intros t r. rewrite Hr', Hr. setoid_rewrite elem_of_app. setoid_rewrite list_elem_of_singleton.
    specialize (Hs t). naive_solver.
Qed.

(** The first replacement stops the listeners of the start. *)
Lemma replace_first c c0 m0 parts p :
  create c = Loaded parts -> reload_inv [c0] [m0] p -> ps_captured p = m0 ->
  exists m, reload_inv [c] [m] (replace_components parts p) /\ stopped (ps_captured (replace_components parts p)).
Proof using create_stopped.
  intros Hc [Hf _ _ Hr Ha] Hcap. destruct (replace_effect _ parts p Hf Ha (create_stopped _ _ Hc)) as (Hf' & Ha' & Hs' & Hk & Hr').
  exists (ps_current (replace_components parts p)). split; [|done]. split; [done| |done| |by exists parts; rewrite <- Hc].
  - constructor; [by exists parts|constructor].
  - intros t r. rewrite Hr'. setoid_rewrite list_elem_of_singleton. split; [|naive_solver].
    intros [[Hrt Hn]|H]; [|naive_solver]. destruct Hn. apply Hr in Hrt as (m & o & Hm & Ho & _).
    apply list_elem_of_singleton in Hm as ->. rewrite Hcap. unfold holds. apply list_elem_of_fmap. by exists (o, Some t).
Qed.

Lemma reload_cases r p p' b :
  reload parse create r p = Running p' b ->
  res_ok (parse (rq_source r)) = None /\ p' = p /\ b = false \/
  exists c parts, parse (rq_source r) = Ok c /\ create c = Loaded parts /\ rq_waiting r = true /\ p' = replace_components parts p /\ b = true.
Proof.
  unfold reload. destruct (parse (rq_source r)) as [c| |]; [|intros [= <- <-]; by left|done].
  destruct (create c) as [parts|] eqn:E; [|done]. destruct (rq_waiting r) eqn:Ew; [|done]. intros [= <- <-]. right. by exists c, parts.
Qed.

Lemma reloads_later rs cs ms p p' b :
  reload_inv cs ms p -> stopped (ps_captured p) -> reloads parse create rs p = Running p' b ->
  exists ms', reload_inv (cs ++ applied rs) ms' p'.
Proof using create_stopped.
  revert cs ms p. induction rs as [|r rs IH]; intros cs ms p Hi Hs; cbn [reloads].
  - intros [= <- <-]. exists ms. by rewrite app_nil_r.
  - destruct (reload parse create r p) as [p1 b1|] eqn:E; [|done]. intros H. unfold applied. cbn [omap list_omap].
    destruct (reload_cases _ _ _ _ E) as [(-> & -> & _)|(c & parts & -> & Hc & _ & -> & _)]; [by eapply IH|].
    destruct (replace_adds _ _ _ _ _ Hc Hi Hs) as (m & Hi' & Hs'). cbn [res_ok].
    destruct (IH _ _ _ Hi' Hs' H) as (ms' & Hms). exists ms'. by rewrite <- app_assoc in Hms.
Qed.

End reloading.

(** The components of a configuration start with no listener running. *)
Lemma inbounds_new_stopped reorder opts : (forall m, reorder m ≡ₚ m) -> stopped (inbounds_new reorder opts).
Proof.
  intros Hp t. unfold holds, inbounds_new. rewrite list_elem_of_fmap. intros ([o h] & E & Ho). rewrite Hp in Ho. cbn in E. subst h.
  revert Ho. assert (forall l (m : InboundManager), (o, Some t) ∉ m -> Forall (fun kv => kv.2 = None) l -> (o, Some t) ∉ hm_extend m l) as H.
  { induction l as [|[k v] l IH]; intros m Hm Hl; [done|]. apply Forall_cons in Hl as [Hv Hl]. cbn in Hv. subst v. apply IH; [|done].
    clear IH Hl. induction m as [|[k' v'] m IHm]; cbn; [by intros [[=]|?%elem_of_nil]%elem_of_cons|].
    apply not_elem_of_cons in Hm as [H1 H2]. case_decide; apply not_elem_of_cons; (split; [congruence|]); [done|by apply IHm]. }
  apply H; [apply not_elem_of_nil|]. apply Forall_forall. intros kv Hkv. by apply list_elem_of_fmap in Hkv as (x & -> & _).
Qed.

(** The limit set in the configuration is lost when the API is on. *)
Lemma allocator_limit_lost c : has_api (g_controller c) = true -> limit_after_start c = 0.
Proof. unfold limit_after_start, api_limit. by intros ->. Qed.

(** A reload whose client is gone, or whose components cannot be made, ends
    the program. *)
Lemma reload_ends {Src I} (parse : Src -> res I) create r p c :
  parse (rq_source r) = Ok c ->
  (forall e, create c = Failed e -> reload parse create r p = Ended e) /\
  (forall parts, create c = Loaded parts -> rq_waiting r = false -> reload parse create r p = Ended Panicked).
Proof. unfold reload. intros ->. split; [by intros e ->|by intros parts -> ->]. Qed.

(** ** An example *)
Module RuntimeWitness.
Definition http_on (p : Z) : InboundOpts :=
  InHttp {| ci_name := lit "HTTP-IN"; ci_listen := all_v4; ci_allow_lan := false; ci_port := p; ci_fw_mark := None |}.
(** A configuration is the port of its only listener. *)
Definition parts_on (p : Z) : Parts :=
  {| pt_inbounds := inbounds_new id [http_on p]; pt_tun := false; pt_dns := true; pt_api := true |}.
Definition parse_port (s : str) : res Z := ok_or (parse_uint 16 s) "not a port".
Definition ask (s : string) : Request (Src := str) := {| rq_source := lit s; rq_waiting := true |}.


(** Two listeners of two configurations run at the end. *)
Lemma reload_leaks : exists p0 p b,
  start (fun c => Loaded (parts_on c)) 7890 = Loaded p0 /\
  reloads parse_port (fun c => Loaded (parts_on c)) [ask "8001"; ask "8002"] p0 = Running p b /\
  (ci_port ∘ inbound_common) <$> (ps_current p).*1 = [8002] /\
  size (running (ps_tasks p)) = 2%nat.
Proof. do 3 eexists. vm_compute. done. Qed.
End RuntimeWitness.
